(* ===== verification/_CoqProject ===== *)
-Q . S2P
Prelude.v
GoStrings.v
GoText.v
Digest.v
GoTime.v
Db.v
Object.v
ObjectStore.v
Local.v
LocalFacts.v
BlobAdapter.v
Cloud.v
Limit.v
GoNet.v
ClientIP.v
SigV4.v
Seal.v
Keys.v
XmlOut.v
Handler.v
HandlerFacts.v
HandlerAnswers.v
GatewayRun.v
Retention.v
RetentionFacts.v
ExpireFacts.v
Jobs.v
Tokens.v
Reap.v
IndexID.v
IndexTable.v
IndexV1.v
IndexV2.v
IndexV2Facts.v
IndexBuild.v
IndexMergedFacts.v
IndexRoundTrip.v
Splitter.v
Json.v
Gather.v
ObjID.v
ObjReader.v
ObjWriter.v
ObjRoundTrip.v
Mirror.v
MirrorFacts.v
MirrorGuard.v
PackFormat.v
ContentStore.v
IndexBlobV0.v
CommittedIndex.v
ContentManager.v
ContentSpec.v
ContentInv.v
ContentStoreFacts.v
CommittedFacts.v
ContentFacts.v
ContentSessions.v
ContentPacks.v
ContentFlush.v
ContentWrite.v
ContentRead.v
ContentSystem.v
ContentWitness.v
EpochUtils.v
EpochManager.v
EpochSystem.v
EpochNames.v
EpochLogic.v
EpochHistory.v
EpochCover.v
EpochRules.v
EpochState.v
EpochRead.v
EpochCompact.v
EpochOps.v
EpochWrite.v
EpochSafety.v
EpochLive.v
EpochWitness.v
