(* ===== verification/Prelude.v ===== *)
(** * WarpHold: a verification development

    WarpHold is a backup system for fleets of machines, built on the Kopia
    engine.  Devices run an agent that snapshots files into a repository of
    encrypted blobs; the blobs travel over an S3 dialect to the Fleet server's
    _gateway_, which stores them on disk or in the customer's own bucket and
    which promises that a device, even one an attacker has taken over, can add
    to its backups but not destroy them.  Retention policies then decide which
    snapshots expire, and the Fleet's scheduler runs mirrors, verifications and
    the rest of the upkeep.  This development models the gateway (all of
    [src/fleet/gateway]), the credentials behind it, retention and expiry, the
    job scheduler, the offsite mirror and the reaping of revoked devices, the
    tokens devices enrol with, and of the engine the pack indexes, the splitters,
    the object layer, the content manager with its packs, sessions and index
    blobs, and the epoch manager.

    ** The program's parts and their models

    A request passes through [Handler] ([handler.go], [ServeHTTP]): the address
    limiter, the signature, the device's limiter, the query screen, and then
    one of PUT, GET, HEAD, DELETE and the bucket operations on the object store
    of the device's target.

    - [GoStrings], [GoText], [GoTime], [GoNet], [Digest]: what the sources use
      of Go's library -- strings as bytes, UTF-8, integers as text, base64,
      query strings, instants, calendars and zones, IP addresses and CIDR
      networks, header names, MD5, SHA-256 and HMAC -- as executable functions.
    - [Object]: [object.go].  Object keys: [NormalizeKey], [checkKey].
    - [ObjectStore]: the Go interface [ObjectStore] as a class of operations
      over a store state and an environment, and the contract its comments
      document as the class [ObjectStoreLaws].  The handler's theorems are
      proved against it.
    - [Local], [LocalFacts]: [local.go], the disk backend, over an explicit
      file system; [LocalFacts] discharges the contract and is about listings of
      every device too.
    - [Cloud]: [cloud.go], the bucket backend, over an S3 client that is a
      parameter (class [S3], laws [S3Laws], instance [mem_s3]); the contract is
      discharged there.
    - [BlobAdapter]: [blobadapter.go], a device's prefix as Kopia blob storage.
    - [Limit]: [limit.go], the token buckets; [ClientIP]: the same file's
      [ClientIP] and [ParseTrustedProxies].
    - [SigV4]: [sigv4.go], signature verification, and in [Module Aws] the
      protocol as Amazon documents it, apart from the verifier's own functions
      and checked on the worked examples of the S3 documentation.
    - [Seal]: [fleet/seal/seal.go], sealed secrets and key files.
    - [Keys]: [fleet/store/device_keys.go], the table of device keys, and
      [keys.go], the cache in front of it.  A lookup is a sequence of critical
      sections; [Keys.step] and [Keys.run] interleave any number of lookups,
      revocations, rotations and invalidations.
    - [XmlOut]: [xmlout.go] and the response recorder.
    - [Handler], [HandlerFacts], [HandlerAnswers], [GatewayRun]: [handler.go].
      What the process reads from outside (clock, key row, target of the
      device, environments of the store calls, how far the copy of an object to
      the client gets) is the [context] of a request;
      what it changes (limiters, key cache, stores by target) is its [gstate];
      [serve_all] runs a sequence of requests.  [GatewayRun] is a concrete
      gateway over the disk backend in which the theorems are witnessed.
    - [Retention], [RetentionFacts], [ExpireFacts]:
      [snapshot/policy/retention_policy.go], [snapshot/policy/expire.go] and
      what they use of [manifest.go], [source.go] and [policy_merge.go].
      Manifests are reached through pointers (their places in the slice), as in
      the code, which sorts one slice of pointers and reads another.

    - [Db]: what the tables of [fleet/store] share -- times to the second, and
      that a statement may fail or its answer be lost.
    - [Jobs]: [fleet/store/jobs.go], the job table, and [fleet/jobs/scheduler.go],
      the loop that requeues, enqueues, claims, runs and records; jobs queued by
      administrators ([handleJobCreate] of [fleet/api/admin_jobs.go]) arrive at
      any call in between.  Its clock, failures, cancellations and runners and
      these requests come from an oracle indexed by the number of calls made.
    - [Tokens]: [fleet/store/tokens.go] and [fleet/enroll/token.go]; consuming a
      token is three statements that [Tokens.step] and [Tokens.run] interleave
      with everything else.
    - [Reap]: [fleet/jobs/reap.go], the job that removes the repositories of
      devices that were revoked long enough ago, with the tables it reads and
      changes ([fleet/store/agents.go], [groups.go], [targets.go], [settings.go])
      and the guard on directory names of [fleet/enroll/provision.go].  An
      environment says for every statement and removal what others do before it
      and what becomes of it.
    - [Mirror], [MirrorFacts], [MirrorGuard]: [fleet/jobs/mirror.go] and
      [fleet/store/mirror_hides.go], the job that copies hosted roots to a bucket
      and hides there what maintenance removed.  The two stores are used through
      [ObjectStore]; the local one may change at every turn, and an oracle answers
      for failures and cancellation.  [MirrorGuard] ends with the job over the disk
      backend.

    The engine is built in layers: an object is split into chunks, each chunk a
    content of the content manager, and contents are found through pack indexes.

    - [IndexID], [IndexTable], [IndexV1], [IndexV2], [IndexV2Facts], [IndexBuild],
      [IndexMergedFacts], [IndexRoundTrip]: [repo/content/index] -- content
      identifiers and ranges, the binary formats of both index versions with their
      lookups by binary search, the builder with its bucket sort and shards, and
      merged indexes.
    - [Splitter]: [repo/splitter], the splitters that cut a
      stream into chunks, their registry and their pool.
    - [Json]: what the sources use of [encoding/json].
    - [ObjID], [ObjReader], [ObjWriter], [ObjRoundTrip]: [repo/object] -- object
      identifiers, index objects, the reader with Read and Seek, the writer with
      its asynchronous chunk writes (the order they finish in is a schedule),
      checkpoints, concatenation, verification and prefetching.  The content
      manager is the class [ContentManager] with the laws [ContentManagerLaws].
    - [Gather]: [internal/gather], buffers held in slices and their readers.
    - [PackFormat]: the local index at the end of a pack, its
      postamble and the recovery of the index from packs.
    - [ContentStore]: blob storage as a map under an [Environment] that says for
      every turn of the world what the clock shows, what becomes of a write or a
      read, and which random bytes are drawn; the monad of state and errors; and
      [internal/blobcrypto].
    - [IndexBlobV0]: [repo/content/indexblob], version 0 -- index blobs,
      compaction logs, compaction and cleanup.  [CommittedIndex]: the index in
      use, its refresh and its cache in memory.
    - [ContentManager]: [content_manager.go], [content_manager_lock_free.go],
      [sessions.go], [committed_read_manager.go].  The sections that hold the
      lock are definitions of their own.
    - [ContentSpec], [ContentInv]: the invariants of a storage and of a manager,
      and the specifications [safe] and [still] of code with state and errors.
      [ContentStoreFacts], [CommittedFacts], [ContentFacts], [ContentSessions],
      [ContentPacks], [ContentFlush], [ContentWrite], [ContentRead]: that the
      operations keep them.  [ContentSystem]: any number of managers on one
      storage as a step relation -- sections of calls in any order, openings and
      crashes.  [ContentWitness]: histories that are computed.

    Newer repositories keep their index blobs by epochs; several processes add to
    them, compact and clean them up with no coordination but the names and times
    of blobs.

    - [EpochUtils]: [internal/epoch] ([epoch_utils.go], [epoch_range.go],
      [epoch_advance.go], the parameters and snapshots of [epoch_manager.go]) and
      [internal/completeset]: names, epochs and ranges, complete sets, and the
      chain of range checkpoints that reaches furthest.
    - [EpochManager]: [epoch_manager.go] and version 1 of the index blob manager
      ([index_blob_manager_v1.go]).  A call is a program, a tree of requests to
      the storage, the clock, the random source and the state its manager keeps
      under a lock.
    - [EpochSystem]: any number of managers and threads on one storage.  At every
      turn one request of one thread is served, a call starts, or a manager is
      opened or crashes; an environment says what clocks show and what becomes
      of a request.
    - [EpochNames], [EpochHistory], [EpochCover]: what names, runs and the sets
      of compactions say.  [EpochLogic], [EpochRules]: which requests are legit,
      and a program logic for threads that others interleave with.  [EpochState],
      [EpochRead], [EpochCompact], [EpochOps], [EpochWrite]: specifications of
      the calls.  [EpochSafety]: the theorem about whole runs.  [EpochLive]: a
      logic for threads that are left alone, and that a write then succeeds.
      [EpochWitness]: runs that are computed.

    ** What the theorems show

    - The gateway ([HandlerFacts]): over any sequence of requests stored objects
      last, devices are isolated, and each request refines a step of an abstract
      append-only store; a read-only key changes nothing.  ([HandlerAnswers]): a
      200 to PUT means stored, a 200 or 206 to GET means the bytes of the range
      that was asked for, up to where copying breaks off, a listing
      stays in the device's prefix, unauthenticated and revoked callers are
      refused and reach no store.
    - Signatures ([SigV4]): accepted means signed (soundness), signed as the
      protocol prescribes means accepted (completeness), and the signed text determines the request.
    - Keys: revocation is final under every interleaving, bounded
      by the cache's time to live even if the invalidation is lost; the cache is
      bounded; issued keys resolve.
    - Stores ([LocalFacts], [Cloud], [BlobAdapter]): round trips,
      append-only under kernel and network failures, exact listings, no
      collisions between fleets that share a bucket.
    - Limits and addresses: the throughput bound of a bucket, and that a client
      cannot forge its address.  The bound is for limiters that refill within the
      idle window; a slower one is refunded by the sweep.
    - Retention: pinned and newest snapshots are never expired; four of the six
      settings are exactly what they say; counts are respected; and three proofs
      that settings can keep less than they say: a week whose id is that of a
      month kept before it is not kept, nor is a latest snapshot whose place is
      the number of a year kept before it, and a large hourly count overflows.

    - Jobs: a job is claimed once and oldest first; a tick ends, and a job it ran
      has an outcome unless recording it failed; of a scheduled kind no more than
      one job is in flight beyond those administrators asked for; and cadences
      stay within their bounds.
    - Tokens: a token is spent within its uses, lifetime and revocation under
      every interleaving, and an issued token enrols.
    - Reaping: whatever interleaves and fails, a device that is not revoked, or
      not for as long as the retention window, keeps every file of its
      repository; a run that is left alone removes what is due, keys first and
      the retirement last, and changes no other row, key or file.
    - Mirror: what a disk holds is never hidden or overwritten offsite, whatever
      other files vanish while a directory is listed, a run
      without errors brings the bucket up to date, what leaves the bucket in
      seven days is within the guard under every interleaving of failures, and a
      run ends.
    - Indexes: what is added to a builder is found and listed, in either format;
      merging lists each content once with the information that wins; the bucket
      sort sorts; and a proof that shards can exceed the size asked for.
    - Splitters: cuts depend on the content alone, not on how it arrives, and
      chunks are within the declared sizes.
    - Objects: what is written, in any pieces, compression and order of
      completion, reads back or fails with an error of the layer below; the
      reader refines a byte array under every sequence of non-empty reads and
      seeks;
      concatenation concatenates.
    - Contents: no live entry of a stored index dangles, and what was written and
      flushed reads back from any manager opened later, however managers write,
      rewrite, undelete, delete, flush, fail and crash; a pack gives its index back; and histories in which a
      flush, a deletion or a session promises more than it does.  The theorems
      are about histories that are [fortunate]: no pack identifier was drawn
      twice, no two hashed strings collide, no index has 4 GiB, and the clock is
      before 2106.  Compaction of index blobs and recovery of indexes from packs
      are not among the steps, and the theorem about flushed contents is for
      managers that may flush indexes and do not load the cache permissively.
    - Epochs: every entry of an index whose write succeeded is found by a later
      listing, or one that wins over it is, whatever managers do, fail and crash
      in between, compactions, range checkpoints and cleanups included
      ([index_writes_last]).  The runs are [Orderly] -- storage time does not go
      back, set names and the names of written indexes are not drawn twice,
      indexes have less than 4 GiB, calls that write are given well-formed indexes
      -- and [Timely]: parameters are valid, while the clock of a process advances
      by a refresh period or less the storage's advances by two at most, and a
      single-epoch compaction does not wait for more than half of that period
      between two requests.  There is a run without the last in which a
      compaction that slept loses an index; and a listing that tries again with a
      last epoch that range checkpoints exceed panics, which a listing that slept
      comes to.  A
      write that is left alone returns and has stored what it says
      ([undisturbed_write_succeeds]).

    ** Bounds and fuel

    Integers are [Z], wrapped at 64 bits with [wrap64] where the code's own
    arithmetic can overflow.  [FormatInt] has 20 digits of fuel, enough for any
    64-bit value.  The loop of [ListBlobs] has explicit fuel; [ListBlobs_exact]
    proves that one turn more than there are blobs is enough.  The scheduler's
    loop has fuel too; [drain_finishes] proves that one turn more than there are
    pending jobs and requests of administrators still to come is enough.  The mirror's walk has fuel for its pages;
    [mirror_walk_ends] proves that one turn more than there are keys on both
    sides is enough.  Binary searches over an index have 65 halvings, enough for
    any 64-bit count; the JSON parser has one step more than the text has bytes;
    merging has one step per entry; opening an object has 53 levels, as many as
    the parser of identifiers accepts; the writer's checkpoint has one level per
    index entry and its loop one turn per byte.  The loops of the epoch manager
    that go on until they succeed have fuel, and a program out of fuel never
    answers, so that safety holds for any fuel; [undisturbed_write_succeeds]
    proves that one turn is enough for a write that is left alone.  The chain of
    range checkpoints has one level per checkpoint.  Every other recursion is
    structural.  The float64 arithmetic of the limiter is exact
    rational arithmetic followed by a rounding; the invariant holds for any
    rounding with the properties named in [Limit.Rounding], the throughput bound
    is stated for exact arithmetic.  Retention's exactness is stated for at most
    1000 snapshots of a source, and so is what expiry spares (beyond that the index of a snapshot can read
    like a year) and for 64-bit timestamps, which have four-digit years.

    ** Parameters

    Code that is not in the repository is an argument with documented behaviour
    as named laws: the S3 client, NaCl's secretbox, minio-go's path encoder, the
    order in which sort.Slice leaves equal elements, the rolling hashes of the
    splitters, the compressors, the ordered tree behind merged iteration, the
    kernel's file-system answers and time zones.  Each has an instance that its
    witnesses compute with.

    ** Not modelled

    The Fleet API but for the queueing of jobs, the job runners other than mirror and reap, provisioning, mail,
    the agent; of the engine the upgrade of index blobs to version 1, the caches of
    contents and of indexes on disk, uploads and restores; in the epoch manager,
    statistics and the sleep between refresh attempts; in the gateway, TLS and
    HTTP transport setup and the text of log lines (their fields are modelled);
    in the scheduler, starting and stopping its goroutine.  The content manager
    is modelled over index blobs of version 0, so that [ContentSystem] and
    [EpochSafety] are about the two versions and not composed.  Admin sessions and
    the agent loop are the parts that would come next. *)

From stdpp Require Export base tactics option list numbers strings gmap sorting.
From Stdlib Require Export ZArith Lia QArith.
From Stdlib Require Import Qround.

#[global] Unset Program Cases.
Open Scope Z_scope.
Open Scope stdpp_scope.

(** ** Go results

    A Go function that returns [(value, error)] is a function into [result]:
    every early return is an [Err], and the value of a failed call cannot be
    used by accident. *)
Inductive result (E A : Type) : Type :=
| Ok (a : A)
| Err (e : E).
Arguments Ok {E A} a.
Arguments Err {E A} e.

Declare Scope go_scope.
Delimit Scope go_scope with go.

Notation "'let!' x ':=' c 'in' k" :=
  (match c with Ok x => k | Err e => Err e end)
  (at level 10, x pattern, c at level 100, k at level 200,
   format "'[v' 'let!'  x  ':='  c  'in' '//' k ']'") : go_scope.

#[export] Instance result_eq_dec `{EqDecision E, EqDecision A} : EqDecision (result E A).
Proof. solve_decision. Defined.

Definition is_ok {E A} (r : result E A) : bool :=
  match r with Ok _ => true | Err _ => false end.

Lemma Ok_inj {E A} (a b : A) : Ok (E := E) a = Ok b -> a = b.
Proof. by intros [= ->]. Qed.

(** Elements are told apart by a key that does not repeat. *)
Lemma NoDup_fmap_inj_elem {A B} (f : A -> B) l x y : NoDup (f <$> l) -> x ∈ l -> y ∈ l -> f x = f y -> x = y.
Proof.
  intros Hnd [i Hi]%list_elem_of_lookup [j Hj]%list_elem_of_lookup Hf.
  assert (i = j) as ->; [|congruence].
  eapply (NoDup_lookup _ i j (f x) Hnd); rewrite list_lookup_fmap; [by rewrite Hi|by rewrite Hj, Hf].
Qed.

(** A filter that keeps everything. *)
Lemma filter_all {A} (P : A -> Prop) `{!forall x, Decision (P x)} (l : list A) : Forall P l -> filter P l = l.
Proof. induction 1 as [|x l Hx _ IH]; [done|]. by rewrite filter_cons_True, IH. Qed.

(** A triple is its components. *)
Lemma triple_eta {A B C} (p : A * B * C) : p = (fst (fst p), snd (fst p), snd p).
Proof. by destruct p as [[? ?] ?]. Qed.

(** ** Machine integers *)

Definition int64_min : Z := - 2 ^ 63.
Definition int64_max : Z := 2 ^ 63 - 1.

(** Two's complement wrap-around at 64 bits. *)
Definition wrap64 (z : Z) : Z := (z + 2 ^ 63) `mod` 2 ^ 64 - 2 ^ 63.

Definition in_int64 (z : Z) : Prop := int64_min <= z <= int64_max.

Lemma wrap64_id z : in_int64 z -> wrap64 z = z.
Proof.
  unfold in_int64, int64_min, int64_max, wrap64. intros ?.
  rewrite Z.mod_small; lia.
Qed.

Lemma wrap64_range z : in_int64 (wrap64 z).
Proof.
  unfold in_int64, int64_min, int64_max, wrap64.
  pose proof (Z.mod_pos_bound (z + 2 ^ 63) (2 ^ 64)). lia.
Qed.

(** ** Automation *)

Create HintDb warphold.
#[export] Hint Resolve wrap64_range wrap64_id : warphold.

(** Split every [if] and [match] of the goal on its scrutinee. *)
Ltac split_ifs :=
  repeat (simplify_eq/=; match goal with
  | |- context [if ?b then _ else _] => destruct b eqn:?
  | |- context [match ?x with _ => _ end] => destruct x eqn:?
  end); simplify_eq/=.

(** The same in a hypothesis. *)
Ltac split_ifs_in H :=
  repeat (simplify_eq/=; match type of H with
  | context [if ?b then _ else _] => destruct b eqn:?
  | context [match ?x with _ => _ end] => destruct x eqn:?
  end); simplify_eq/=.

(** Boolean tests into the propositions they decide. *)
Ltac bool_to_prop :=
  repeat match goal with
  | H : (_ && _)%bool = true |- _ => apply andb_true_iff in H as [? ?]
  | H : (_ || _)%bool = false |- _ => apply orb_false_iff in H as [? ?]
  | H : (_ || _)%bool = true |- _ => apply orb_true_iff in H
  | H : (_ && _)%bool = false |- _ => apply andb_false_iff in H
  | H : negb _ = true |- _ => apply negb_true_iff in H
  | H : negb _ = false |- _ => apply negb_false_iff in H
  | H : String.eqb _ _ = true |- _ => apply String.eqb_eq in H
  | H : String.eqb _ _ = false |- _ => apply String.eqb_neq in H
  | H : Ascii.eqb _ _ = true |- _ => apply Ascii.eqb_eq in H
  | H : Ascii.eqb _ _ = false |- _ => apply Ascii.eqb_neq in H
  | H : Z.eqb _ _ = true |- _ => apply Z.eqb_eq in H
  | H : Z.eqb _ _ = false |- _ => apply Z.eqb_neq in H
  | H : Z.ltb _ _ = true |- _ => apply Z.ltb_lt in H
  | H : Z.ltb _ _ = false |- _ => apply Z.ltb_ge in H
  | H : Z.leb _ _ = true |- _ => apply Z.leb_le in H
  | H : Z.leb _ _ = false |- _ => apply Z.leb_gt in H
  | H : bool_decide _ = true |- _ => apply bool_decide_eq_true in H
  | H : bool_decide _ = false |- _ => apply bool_decide_eq_false in H
  end.

(** [lia] with quotients and remainders by constants expanded. *)
Ltac lia_div := Z.to_euclidean_division_equations; lia.
