(* ===== verification/GoStrings.v ===== *)
(** * Go strings

    The parts of Go's [strings], [strconv], [unicode/utf8], [encoding/hex],
    [encoding/base64] and [net/url] the sources call, as executable functions
    on [string].  A Go string is a sequence of bytes and so is a Rocq
    [string]; [ascii] is the byte.  Byte values are [Z]s in [0, 256). *)

From S2P Require Import Prelude.
From Stdlib Require Import Ascii.

(** ** Bytes *)

Definition code (c : ascii) : Z := Z.of_N (N_of_ascii c).
Definition chr (z : Z) : ascii := ascii_of_N (Z.to_N z).

Lemma code_range c : 0 <= code c < 256.
Proof. unfold code. pose proof (N_ascii_bounded c). lia. Qed.

Lemma chr_code c : chr (code c) = c.
Proof. unfold chr, code. rewrite N2Z.id. apply ascii_N_embedding. Qed.

Lemma code_chr z : 0 <= z < 256 -> code (chr z) = z.
Proof. intros H. unfold chr, code. rewrite N_ascii_embedding; lia. Qed.

#[export] Instance code_inj : Inj (=) (=) code.
Proof. intros a b H. rewrite <- (chr_code a), <- (chr_code b). by rewrite H. Qed.

Definition len (s : string) : Z := Z.of_nat (String.length s).

Lemma len_nonneg s : 0 <= len s.
Proof. unfold len. lia. Qed.

Fixpoint bytes (s : string) : list Z :=
  match s with EmptyString => [] | String c t => code c :: bytes t end.

Fixpoint of_bytes (l : list Z) : string :=
  match l with [] => "" | z :: t => String (chr z) (of_bytes t) end.

Lemma of_bytes_bytes s : of_bytes (bytes s) = s.
Proof. induction s as [|c s IH]; simpl; [done|]. by rewrite chr_code, IH. Qed.

Lemma bytes_of_bytes l : Forall (fun z => 0 <= z < 256) l -> bytes (of_bytes l) = l.
Proof. induction 1; simpl; [done|]. by rewrite code_chr, IHForall. Qed.

Lemma length_bytes s : length (bytes s) = String.length s.
Proof. induction s; simpl; congruence. Qed.

(** ** Appending *)

Lemma sapp_nil_r s : s +:+ "" = s.
Proof. induction s as [|c s IH]; [done|]. change (String c (s +:+ "") = String c s). by rewrite IH. Qed.

Lemma sapp_cons c s t : String c s +:+ t = String c (s +:+ t).
Proof. done. Qed.

Lemma sapp_assoc s t u : (s +:+ t) +:+ u = s +:+ (t +:+ u).
Proof. induction s as [|c s IH]; [done|]. by rewrite !sapp_cons, IH. Qed.

Lemma sapp_inj_l s t u : s +:+ t = s +:+ u -> t = u.
Proof. induction s as [|c s IH]; [done|]. rewrite !sapp_cons. intros [= ?]. auto. Qed.

Lemma slength_app s t : String.length (s +:+ t) = (String.length s + String.length t)%nat.
Proof. induction s as [|c s IH]; [done|]. rewrite sapp_cons. simpl. by rewrite IH. Qed.

Lemma len_app s t : len (s +:+ t) = len s + len t.
Proof. unfold len. rewrite slength_app. lia. Qed.

(** ** Prefixes and suffixes *)

Fixpoint HasPrefix (s p : string) {struct p} : bool :=
  match p, s with
  | EmptyString, _ => true
  | String c p', String d s' => Ascii.eqb c d && HasPrefix s' p'
  | String _ _, EmptyString => false
  end.

Fixpoint sdrop (n : nat) (s : string) : string :=
  match n, s with
  | O, _ => s
  | S n, String _ t => sdrop n t
  | S _, EmptyString => ""
  end.

Fixpoint stake (n : nat) (s : string) : string :=
  match n, s with
  | O, _ => ""
  | S n, String c t => String c (stake n t)
  | S _, EmptyString => ""
  end.

Definition TrimPrefix (s p : string) : string :=
  if HasPrefix s p then sdrop (String.length p) s else s.

Definition CutPrefix (s p : string) : string * bool :=
  if HasPrefix s p then (sdrop (String.length p) s, true) else (s, false).

Fixpoint HasSuffix (s suf : string) : bool :=
  String.eqb s suf || match s with EmptyString => false | String _ t => HasSuffix t suf end.

Definition TrimSuffix (s suf : string) : string :=
  if HasSuffix s suf then stake (String.length s - String.length suf) s else s.

Lemma HasPrefix_spec s p : HasPrefix s p = true <-> exists t, s = p +:+ t.
Proof.
  revert s. induction p as [|c p IH]; intros s; cbn [HasPrefix].
  - split; [intros _; by exists s|by intros].
  - destruct s as [|d s]; [split; [done|intros [t [=]]]|].
    rewrite andb_true_iff, Ascii.eqb_eq, IH. split.
    + intros [-> [t ->]]. by exists t.
    + intros [t Ht]. rewrite sapp_cons in Ht. simplify_eq. eauto.
Qed.

Lemma HasPrefix_app p t : HasPrefix (p +:+ t) p = true.
Proof. apply HasPrefix_spec. eauto. Qed.

Lemma sdrop_app p t : sdrop (String.length p) (p +:+ t) = t.
Proof. induction p as [|c p IH]; [done|]. apply IH. Qed.

Lemma TrimPrefix_app p t : TrimPrefix (p +:+ t) p = t.
Proof. unfold TrimPrefix. by rewrite HasPrefix_app, sdrop_app. Qed.

Lemma stake_app p t : stake (String.length p) (p +:+ t) = p.
Proof. induction p as [|c p IH]; [done|]. simpl. f_equal. apply IH. Qed.

Lemma stake_sdrop n s : stake n s +:+ sdrop n s = s.
Proof.
  revert s. induction n as [|n IH]; intros [|c s]; try done.
  simpl. rewrite sapp_cons. by rewrite IH.
Qed.

Lemma HasSuffix_spec s suf : HasSuffix s suf = true <-> exists t, s = t +:+ suf.
Proof.
  induction s as [|c s IH].
  - cbn [HasSuffix]. rewrite orb_false_r, String.eqb_eq. split; [intros <-; by exists ""|].
    intros [[|d t] Ht]; [done|]. by rewrite sapp_cons in Ht.
  - cbn [HasSuffix]. rewrite orb_true_iff, String.eqb_eq, IH. split.
    + intros [<-|[t ->]]; [by exists ""|by exists (String c t)].
    + intros [[|d t] Ht]; [by left|]. rewrite sapp_cons in Ht. simplify_eq. eauto.
Qed.

Lemma HasPrefix_trans a b c : HasPrefix a b = true -> HasPrefix b c = true -> HasPrefix a c = true.
Proof.
  rewrite !HasPrefix_spec. intros [t ->] [u ->]. exists (u +:+ t). by rewrite sapp_assoc.
Qed.

(** ** Bytewise order: Go's [<] on strings *)

Fixpoint slt (s t : string) : bool :=
  match s, t with
  | _, EmptyString => false
  | EmptyString, String _ _ => true
  | String c s', String d t' => (code c <? code d) || ((code c =? code d) && slt s' t')
  end.

Definition sle (s t : string) : bool := negb (slt t s).

Lemma slt_irrefl s : slt s s = false.
Proof. induction s as [|c s IH]; simpl; [done|]. rewrite Z.ltb_irrefl, Z.eqb_refl, IH. done. Qed.

Lemma slt_cons c d s t :
  slt (String c s) (String d t) = true <-> code c < code d \/ (c = d /\ slt s t = true).
Proof.
  cbn [slt]. rewrite orb_true_iff, andb_true_iff, Z.ltb_lt, Z.eqb_eq.
  split; intros [?|[Hc ?]]; auto; [apply (inj code) in Hc|subst]; auto.
Qed.

Lemma slt_trans s t u : slt s t = true -> slt t u = true -> slt s u = true.
Proof.
  revert t u. induction s as [|c s IH]; intros [|d t] [|e u]; try done.
  rewrite !slt_cons. intros [?|[-> ?]] [?|[-> ?]]; [left; lia|auto|auto|right; eauto].
Qed.

Lemma slt_total s t : slt s t = true \/ s = t \/ slt t s = true.
Proof.
  revert t. induction s as [|c s IH]; intros [|d t]; auto.
  rewrite !slt_cons. destruct (Z.lt_trichotomy (code c) (code d)) as [?|[Hc|?]]; auto.
  apply (inj code) in Hc as ->. destruct (IH t) as [?|[->|?]]; auto.
Qed.

Lemma slt_asym s t : slt s t = true -> slt t s = false.
Proof.
  intros H. destruct (slt t s) eqn:E; [|done].
  pose proof (slt_trans _ _ _ H E) as C. by rewrite slt_irrefl in C.
Qed.

Lemma sle_spec s t : sle s t = true <-> slt s t = true \/ s = t.
Proof.
  unfold sle. rewrite negb_true_iff. split.
  - intros H. destruct (slt_total s t) as [?|[?|?]]; auto. congruence.
  - intros [?| ->]; [by apply slt_asym|apply slt_irrefl].
Qed.

(** A common prefix does not change the order. *)
Lemma slt_app p s t : slt (p +:+ s) (p +:+ t) = slt s t.
Proof.
  induction p as [|c p IH]; [done|]. rewrite !sapp_cons. cbn [slt].
  rewrite Z.ltb_irrefl, Z.eqb_refl. apply IH.
Qed.

(** ** Cutting and splitting at a byte *)

(** [strings.Cut] at a one-byte separator: text before, text after, found. *)
Fixpoint Cut (s : string) (sep : ascii) : string * string * bool :=
  match s with
  | EmptyString => ("", "", false)
  | String c t =>
      if Ascii.eqb c sep then ("", t, true)
      else let '(b, a, ok) := Cut t sep in (String c b, a, ok)
  end.

Fixpoint Contains (s : string) (c : ascii) : bool :=
  match s with
  | EmptyString => false
  | String d t => Ascii.eqb d c || Contains t c
  end.

(** [strings.Split] at a one-byte separator; never empty. *)
Fixpoint Split (s : string) (sep : ascii) : list string :=
  match s with
  | EmptyString => [""]
  | String c t =>
      if Ascii.eqb c sep then "" :: Split t sep
      else match Split t sep with
           | [] => [String c ""]
           | x :: l => String c x :: l
           end
  end.

Fixpoint Join (l : list string) (sep : string) : string :=
  match l with
  | [] => ""
  | [x] => x
  | x :: t => x +:+ sep +:+ Join t sep
  end.

Lemma Cut_found s c b a :
  Cut s c = (b, a, true) <-> s = b +:+ String c a /\ Contains b c = false.
Proof.
  revert b a. induction s as [|d s IH]; intros b a; cbn [Cut].
  - split; [done|]. intros [Hs _]. by destruct b.
  - destruct (Ascii.eqb d c) eqn:E; bool_to_prop.
    + subst d. split; [by intros [= <- <-]|]. intros [Hs Hb].
      destruct b as [|e b]; rewrite ?sapp_cons in Hs.
      * by injection Hs as ->.
      * injection Hs as -> ->. cbn in Hb. by rewrite Ascii.eqb_refl in Hb.
    + destruct (Cut s c) as [[b' a'] ok] eqn:C. split.
      * intros [= <- -> ->]. destruct (proj1 (IH b' a) eq_refl) as [-> Hb].
        split; [done|]. cbn. rewrite Hb. by apply Ascii.eqb_neq in E as ->.
      * intros [Hs Hb]. destruct b as [|e b]; [by injection Hs as ? ?|].
        rewrite sapp_cons in Hs. injection Hs as -> ->. cbn in Hb. bool_to_prop.
        assert ((b', a', ok) = (b, a, true)) as Hc; [|by simplify_eq].
        by apply IH.
Qed.

Lemma Cut_notfound s c : Contains s c = false -> Cut s c = (s, "", false).
Proof.
  induction s as [|d s IH]; [done|]. cbn. intros H. apply orb_false_iff in H as [-> H].
  by rewrite (IH H).
Qed.

Lemma Cut_false s c b a : Cut s c = (b, a, false) -> Contains s c = false /\ b = s /\ a = "".
Proof.
  revert b a. induction s as [|d s IH]; intros b a; cbn; [by intros [= <- <-]|].
  destruct (Ascii.eqb d c); [done|]. destruct (Cut s c) as [[b' a'] ok].
  intros [= <- <- ->]. by destruct (IH b' a' eq_refl) as (-> & -> & ->).
Qed.

Lemma Contains_app s t c : Contains (s +:+ t) c = Contains s c || Contains t c.
Proof. induction s as [|d s IH]; [done|]. rewrite sapp_cons. cbn. by rewrite IH, orb_assoc. Qed.

Lemma HasPrefix_byte c d s : HasPrefix (String c s) (String d "") = Ascii.eqb d c.
Proof. cbn [HasPrefix]. apply andb_true_r. Qed.

(** ** Splitting what was joined *)

Lemma Split_nonempty s c : Split s c <> [].
Proof. destruct s as [|d s]; [done|]. cbn. destruct (Ascii.eqb d c); [done|]. by destruct (Split s c). Qed.

Lemma Split_single s c : Contains s c = false -> Split s c = [s].
Proof.
  induction s as [|d s IH]; [done|]. cbn. intros [-> H]%orb_false_iff. by rewrite IH.
Qed.

Lemma Split_app s c t : Split (s +:+ String c t) c = Split s c ++ Split t c.
Proof.
  induction s as [|d s IH].
  { change ("" +:+ String c t) with (String c t). cbn [Split]. by rewrite Ascii.eqb_refl. }
  rewrite sapp_cons. cbn [Split]. rewrite IH.
  destruct (Ascii.eqb d c); [done|].
  pose proof (Split_nonempty s c). by destruct (Split s c).
Qed.

Lemma Split_Join l c :
  l <> [] -> Forall (fun x => Contains x c = false) l -> Split (Join l (String c "")) c = l.
Proof.
  intros Hn H. induction H as [|x l Hx Hl IH]; [done|]. destruct l as [|y l].
  - by apply Split_single.
  - cbn [Join]. change (String c "" +:+ ?t) with (String c t).
    rewrite Split_app, (Split_single x) by done. cbn [app]. f_equal. by apply IH.
Qed.

(** A joined list whose items hold no separator determines the items. *)
Lemma Join_inj l1 l2 c :
  l1 <> [] -> l2 <> [] -> Forall (fun x => Contains x c = false) (l1 ++ l2) ->
  Join l1 (String c "") = Join l2 (String c "") -> l1 = l2.
Proof.
  intros H1 H2 [Hc1 Hc2]%Forall_app He.
  by rewrite <- (Split_Join l1 c H1 Hc1), <- (Split_Join l2 c H2 Hc2), He.
Qed.

Lemma Contains_Join l s c :
  Forall (fun x => Contains x c = false) l -> Contains s c = false -> Contains (Join l s) c = false.
Proof.
  intros H Hs. induction H as [|x l Hx Hl IH]; [done|]. destruct l as [|y l]; [done|].
  change (Join (x :: y :: l) s) with (x +:+ s +:+ Join (y :: l) s).
  by rewrite !Contains_app, Hx, Hs, IH.
Qed.

Lemma Join_Split s c : Join (Split s c) (String c "") = s.
Proof.
  induction s as [|d s IH]; [done|]. cbn [Split]. pose proof (Split_nonempty s c).
  destruct (Ascii.eqb d c) eqn:E; bool_to_prop; destruct (Split s c) as [|x l] eqn:El; try done.
  - subst d. change (Join ("" :: x :: l) (String c "")) with (String c (Join (x :: l) (String c ""))).
    by rewrite IH.
  - rewrite <- IH. by destruct l.
Qed.
