(* ===== verification/GoText.v ===== *)
(** * Go text codecs

    [unicode/utf8], the Unicode-aware functions of [strings], [strconv]'s
    integer parsing, [encoding/hex], [encoding/base64] and the query-string
    half of [net/url], as the gateway uses them. *)

From S2P Require Import Prelude GoStrings.
From Stdlib Require Import Ascii.

(** ** UTF-8 *)

(** One step of [range] over a string: the rune, the bytes it was read from
    and whether they were well formed (a malformed byte is U+FFFD, width 1). *)
Record segment := Segment { seg_rune : Z; seg_bytes : list Z; seg_valid : bool }.

Definition between (lo hi z : Z) : bool := (lo <=? z) && (z <=? hi).
Definition cont (z : Z) : bool := between 0x80 0xBF z.

Definition is2 (b0 b1 : Z) : bool := between 0xC2 0xDF b0 && cont b1.

Definition is3 (b0 b1 b2 : Z) : bool :=
  ((b0 =? 0xE0) && between 0xA0 0xBF b1
   || between 0xE1 0xEC b0 && cont b1
   || (b0 =? 0xED) && between 0x80 0x9F b1
   || between 0xEE 0xEF b0 && cont b1) && cont b2.

Definition is4 (b0 b1 b2 b3 : Z) : bool :=
  ((b0 =? 0xF0) && between 0x90 0xBF b1
   || between 0xF1 0xF3 b0 && cont b1
   || (b0 =? 0xF4) && between 0x80 0x8F b1) && cont b2 && cont b3.

Fixpoint segments (l : list Z) : list segment :=
  match l with
  | [] => []
  | b0 :: l1 =>
      let bad := Segment 0xFFFD [b0] false in
      if b0 <? 0x80 then Segment b0 [b0] true :: segments l1
      else match l1 with
      | b1 :: l2 =>
          if is2 b0 b1
          then Segment ((b0 - 0xC0) * 64 + (b1 - 0x80)) [b0; b1] true :: segments l2
          else match l2 with
          | b2 :: l3 =>
              if is3 b0 b1 b2
              then Segment ((b0 - 0xE0) * 4096 + (b1 - 0x80) * 64 + (b2 - 0x80))
                     [b0; b1; b2] true :: segments l3
              else match l3 with
              | b3 :: l4 =>
                  if is4 b0 b1 b2 b3
                  then Segment ((b0 - 0xF0) * 262144 + (b1 - 0x80) * 4096
                                + (b2 - 0x80) * 64 + (b3 - 0x80))
                         [b0; b1; b2; b3] true :: segments l4
                  else bad :: segments l1
              | [] => bad :: segments l1
              end
          | [] => bad :: segments l1
          end
      | [] => bad :: segments l1
      end
  end.

(** A segment is one ASCII byte, which is its rune, or bytes from 0x80 up. *)
Definition seg_ok (g : segment) : Prop :=
  (exists b, b < 0x80 /\ g = Segment b [b] true)
  \/ (seg_bytes g <> [] /\ Forall (fun b => 0x80 <= b) (seg_bytes g)).

(** Induction along [segments]. *)
Lemma segments_ind (P : list Z -> list segment -> Prop) :
  P [] [] ->
  (forall g l gs, seg_ok g -> P l gs -> P (seg_bytes g ++ l) (g :: gs)) ->
  forall l, P l (segments l).
Proof.
  intros Hnil Hcons l. remember (length l) as n eqn:Hn. revert l Hn.
  induction n as [n IH] using lt_wf_ind. intros [|b0 l1] ->; [done|].
  assert (forall g l', seg_ok g -> b0 :: l1 = seg_bytes g ++ l' ->
            P (b0 :: l1) (g :: segments l')) as step.
  { intros g l' Hg E. rewrite E. apply Hcons; [done|]. eapply IH; [|done].
    apply (f_equal length) in E. rewrite length_app in E. simpl in *.
    destruct Hg as [(b & _ & ->)|[? _]]; simpl in *; [lia|].
    destruct (seg_bytes g); simpl in *; [done|lia]. }
  cbn [segments]. unfold is2, is3, is4, cont, between.
  repeat case_match; apply step; try done; bool_to_prop;
    first [ left; exists b0; split; [lia|done]
          | right; split; [done|]; repeat constructor; lia ].
Qed.

Lemma segments_bytes l : concat (seg_bytes <$> segments l) = l.
Proof. by apply (segments_ind (fun l gs => concat (seg_bytes <$> gs) = l)); [|intros ???? <-]. Qed.

Lemma segments_ok l : Forall seg_ok (segments l).
Proof. apply (segments_ind (fun _ gs => Forall seg_ok gs)); auto. Qed.

Definition runes (s : string) : list Z := seg_rune <$> segments (bytes s).

(** Every byte below 0x80 of a string is a rune of it. *)
Lemma ascii_byte_is_rune s b : b ∈ bytes s -> b < 0x80 -> b ∈ runes s.
Proof.
  unfold runes. intros Hin Hlt. rewrite <- (segments_bytes (bytes s)) in Hin.
  apply list_elem_of_In, in_concat in Hin as (bs & Hbs & Hb).
  apply list_elem_of_In, list_elem_of_fmap in Hbs as (g & -> & Hg).
  apply list_elem_of_fmap. exists g. split; [|done].
  pose proof (segments_ok (bytes s)) as Hok. rewrite Forall_forall in Hok.
  apply list_elem_of_In in Hb.
  destruct (Hok g Hg) as [(b' & _ & ->)|[_ Hge]].
  - by apply list_elem_of_singleton in Hb.
  - rewrite Forall_forall in Hge. specialize (Hge b Hb). lia.
Qed.

(** [utf8.ValidString] *)
Definition ValidString (s : string) : bool := forallb seg_valid (segments (bytes s)).

(** ** White space *)

(** [unicode.IsSpace]: the White_Space property. *)
Definition IsSpace (r : Z) : bool :=
  between 9 13 r || (r =? 0x20) || (r =? 0x85) || (r =? 0xA0) || (r =? 0x1680)
  || between 0x2000 0x200A r || (r =? 0x2028) || (r =? 0x2029) || (r =? 0x202F)
  || (r =? 0x205F) || (r =? 0x3000).

Definition seg_space (g : segment) : bool := seg_valid g && IsSpace (seg_rune g).

Fixpoint drop_spaces (l : list segment) : list segment :=
  match l with
  | g :: t => if seg_space g then drop_spaces t else l
  | [] => []
  end.

Definition join_segments (l : list segment) : string :=
  of_bytes (concat (seg_bytes <$> l)).

Definition TrimSpace (s : string) : string :=
  join_segments (rev (drop_spaces (rev (drop_spaces (segments (bytes s)))))).

(** [strings.Fields], with the word being read as an accumulator. *)
Fixpoint fields_go (l cur : list segment) : list string :=
  match l with
  | [] => match cur with [] => [] | _ => [join_segments (rev cur)] end
  | g :: t =>
      if seg_space g
      then match cur with [] => fields_go t [] | _ => join_segments (rev cur) :: fields_go t [] end
      else fields_go t (g :: cur)
  end.

Definition Fields (s : string) : list string := fields_go (segments (bytes s)) [].

(** [strings.Trim] with a cutset of ASCII bytes. *)
Fixpoint trim_left (cut : list ascii) (l : list ascii) : list ascii :=
  match l with
  | c :: t => if bool_decide (c ∈ cut) then trim_left cut t else l
  | [] => []
  end.

Definition Trim (s : string) (cut : list ascii) : string :=
  String.string_of_list_ascii
    (rev (trim_left cut (rev (trim_left cut (String.list_ascii_of_string s))))).

(** ** ASCII case *)

Definition lower (c : ascii) : ascii :=
  if between 65 90 (code c) then chr (code c + 32) else c.

Fixpoint ToLower (s : string) : string :=
  match s with EmptyString => "" | String c t => String (lower c) (ToLower t) end.

(** [strings.EqualFold] against a constant none of whose letters has a
    non-ASCII case variant. *)
Definition EqualFold (s t : string) : bool := String.eqb (ToLower s) (ToLower t).

(** ** Integers *)

Fixpoint digits (s : string) (acc : Z) : option Z :=
  match s with
  | EmptyString => Some acc
  | String c t =>
      if between 48 57 (code c) then digits t (acc * 10 + (code c - 48)) else None
  end.

Definition unsigned_int (s : string) : option Z :=
  match s with EmptyString => None | _ => digits s 0 end.

(** [strconv.ParseInt(s, 10, 64)], and [strconv.Atoi] on a 64-bit platform. *)
Definition ParseInt (s : string) : option Z :=
  match s with
  | String "-" t => n ← unsigned_int t; if n <=? 2 ^ 63 then Some (- n) else None
  | String "+" t => n ← unsigned_int t; if n <? 2 ^ 63 then Some n else None
  | _ => n ← unsigned_int s; if n <? 2 ^ 63 then Some n else None
  end.

Definition digit (z : Z) : ascii := chr (48 + z).

Fixpoint format_pos (fuel : nat) (n : Z) (acc : string) : string :=
  match fuel with
  | O => acc
  | S fuel =>
      let acc' := String (digit (n `mod` 10)) acc in
      if n <? 10 then acc' else format_pos fuel (n / 10) acc'
  end.

(** [strconv.FormatInt(n, 10)]; a 64-bit value has at most 19 digits. *)
Definition FormatInt (n : Z) : string :=
  if n <? 0 then String "-" (format_pos 20 (- n) "") else format_pos 20 n "".

Example ParseInt_ex :
  ParseInt "1234" = Some 1234 /\ ParseInt "-7" = Some (-7) /\ ParseInt "+7" = Some 7
  /\ ParseInt "" = None /\ ParseInt "-" = None /\ ParseInt "9223372036854775808" = None
  /\ FormatInt 1203 = "1203" /\ FormatInt (-5) = "-5" /\ FormatInt 0 = "0".
Proof. vm_compute. repeat split. Qed.

(** ** Hexadecimal *)

Definition hexdigit (z : Z) : ascii := if z <? 10 then chr (48 + z) else chr (87 + z).

Definition unhex (c : ascii) : option Z :=
  let z := code c in
  if between 48 57 z then Some (z - 48)
  else if between 97 102 z then Some (z - 87)
  else if between 65 70 z then Some (z - 55)
  else None.

Fixpoint hex_encode (l : list Z) : string :=
  match l with
  | [] => ""
  | z :: t => String (hexdigit (z / 16)) (String (hexdigit (z `mod` 16)) (hex_encode t))
  end.

Fixpoint hex_decode (s : string) : option (list Z) :=
  match s with
  | EmptyString => Some []
  | String a (String b t) =>
      x ← unhex a; y ← unhex b; l ← hex_decode t; Some (x * 16 + y :: l)
  | String _ EmptyString => None
  end.

Lemma length_hex_encode l : String.length (hex_encode l) = (2 * length l)%nat.
Proof. induction l; simpl; lia. Qed.

Definition byte_list (l : list Z) : Prop := Forall (fun z => 0 <= z < 256) l.

Lemma byte_list_bytes s : byte_list (bytes s).
Proof. induction s; simpl; constructor; [apply code_range|done]. Qed.

(** Check a statement about small integers by enumerating them. *)
Lemma enumerate (n : nat) (P : Z -> bool) :
  forallb P (Z.of_nat <$> seq 0 n) = true -> forall z, 0 <= z < Z.of_nat n -> P z = true.
Proof.
  rewrite forallb_forall. intros H z Hz. apply H.
  apply list_elem_of_In, list_elem_of_fmap. exists (Z.to_nat z).
  split; [lia|]. apply elem_of_seq. lia.
Qed.

Lemma unhex_hexdigit z : 0 <= z < 16 -> unhex (hexdigit z) = Some z.
Proof.
  intros Hz. apply (bool_decide_eq_true_1 _).
  revert z Hz. apply (enumerate 16 (fun z => bool_decide (unhex (hexdigit z) = Some z))).
  by vm_compute.
Qed.

Lemma hex_round_trip l : byte_list l -> hex_decode (hex_encode l) = Some l.
Proof.
  induction 1 as [|z l Hz _ IH]; [done|]. cbn [hex_encode hex_decode].
  rewrite !unhex_hexdigit by lia_div. cbn. rewrite IH. cbn.
  f_equal. f_equal. lia_div.
Qed.

(** ** Base 64 *)

(** The two alphabets of [encoding/base64]: standard and URL-safe. *)
Inductive alphabet := Std64 | URL64.

Definition b64_char (a : alphabet) (z : Z) : ascii :=
  if z <? 26 then chr (65 + z)
  else if z <? 52 then chr (71 + z)
  else if z <? 62 then chr (z - 4)
  else match a with
       | Std64 => if z =? 62 then "+"%char else "/"%char
       | URL64 => if z =? 62 then "-"%char else "_"%char
       end.

Definition b64_val (a : alphabet) (c : ascii) : option Z :=
  let z := code c in
  if between 65 90 z then Some (z - 65)
  else if between 97 122 z then Some (z - 71)
  else if between 48 57 z then Some (z + 4)
  else match a with
       | Std64 => if z =? 43 then Some 62 else if z =? 47 then Some 63 else None
       | URL64 => if z =? 45 then Some 62 else if z =? 95 then Some 63 else None
       end.

(** [RawURLEncoding.EncodeToString] and the unpadded half of the others. *)
Fixpoint b64_encode (a : alphabet) (l : list Z) : string :=
  match l with
  | [] => ""
  | [x] => String (b64_char a (x / 4)) (String (b64_char a (x `mod` 4 * 16)) "")
  | [x; y] =>
      String (b64_char a (x / 4))
        (String (b64_char a (x `mod` 4 * 16 + y / 16))
           (String (b64_char a (y `mod` 16 * 4)) ""))
  | x :: y :: z :: t =>
      String (b64_char a (x / 4))
        (String (b64_char a (x `mod` 4 * 16 + y / 16))
           (String (b64_char a (y `mod` 16 * 4 + z / 64))
              (String (b64_char a (z `mod` 64)) (b64_encode a t))))
  end.

(** Unpadded decoding.  Like Go's non-strict decoder it ignores the unused
    low bits of a final partial quantum. *)
Fixpoint b64_quanta (a : alphabet) (s : string) : option (list Z) :=
  match s with
  | EmptyString => Some []
  | String c0 (String c1 EmptyString) =>
      v0 ← b64_val a c0; v1 ← b64_val a c1; Some [v0 * 4 + v1 / 16]
  | String c0 (String c1 (String c2 EmptyString)) =>
      v0 ← b64_val a c0; v1 ← b64_val a c1; v2 ← b64_val a c2;
      Some [v0 * 4 + v1 / 16; v1 `mod` 16 * 16 + v2 / 4]
  | String c0 (String c1 (String c2 (String c3 t))) =>
      v0 ← b64_val a c0; v1 ← b64_val a c1; v2 ← b64_val a c2; v3 ← b64_val a c3;
      l ← b64_quanta a t;
      Some (v0 * 4 + v1 / 16 :: v1 `mod` 16 * 16 + v2 / 4 :: v2 `mod` 4 * 64 + v3 :: l)
  | String _ EmptyString => None
  end.

(** The decoders skip carriage returns and line feeds anywhere. *)
Fixpoint strip_newlines (s : string) : string :=
  match s with
  | EmptyString => ""
  | String c t =>
      if (code c =? 10) || (code c =? 13) then strip_newlines t else String c (strip_newlines t)
  end.

(** [RawURLEncoding.DecodeString] *)
Definition RawURL_decode (s : string) : option string :=
  of_bytes <$> b64_quanta URL64 (strip_newlines s).

Definition RawURL_encode (s : string) : string := b64_encode URL64 (bytes s).

(** [StdEncoding.DecodeString]: whole quanta, the last one padded with '='. *)
Definition Std_decode (s : string) : option (list Z) :=
  let s := strip_newlines s in
  if len s `mod` 4 =? 0 then
    let s := if HasSuffix s "==" then TrimSuffix s "=="
             else if HasSuffix s "=" then TrimSuffix s "=" else s in
    b64_quanta Std64 s
  else None.

Lemma b64_val_char a z : 0 <= z < 64 -> b64_val a (b64_char a z) = Some z.
Proof.
  intros Hz. apply (bool_decide_eq_true_1 _).
  revert z Hz. apply (enumerate 64 (fun z => bool_decide (b64_val a (b64_char a z) = Some z))).
  by destruct a; vm_compute.
Qed.

Lemma b64_char_newline a z :
  0 <= z < 64 -> (code (b64_char a z) =? 10) || (code (b64_char a z) =? 13) = false.
Proof.
  intros Hz. apply negb_true_iff.
  revert z Hz. apply (enumerate 64 (fun z => negb ((code (b64_char a z) =? 10)
                                                  || (code (b64_char a z) =? 13)))).
  by destruct a; vm_compute.
Qed.

Lemma list_ind3 {A} (P : list A -> Prop) :
  P [] -> (forall x, P [x]) -> (forall x y, P [x; y]) ->
  (forall x y z l, P l -> P (x :: y :: z :: l)) -> forall l, P l.
Proof.
  intros H0 H1 H2 H3. fix IH 1. intros [|x [|y [|z l]]]; [done..|]. apply H3, IH.
Qed.

Ltac byte_bounds := unfold byte_list in *; repeat match goal with
  | H : Forall _ (_ :: _) |- _ => apply Forall_cons_1 in H as [? H]
  | H : Forall _ [] |- _ => clear H
  end.

Lemma quantum1 x y : 0 <= y < 256 -> x / 4 * 4 + (x `mod` 4 * 16 + y / 16) / 16 = x.
Proof. lia_div. Qed.

Lemma quantum2 x y z :
  0 <= y < 256 -> 0 <= z < 256 ->
  (x `mod` 4 * 16 + y / 16) `mod` 16 * 16 + (y `mod` 16 * 4 + z / 64) / 4 = y.
Proof. lia_div. Qed.

Lemma quantum3 y z : 0 <= z < 256 -> (y `mod` 16 * 4 + z / 64) `mod` 4 * 64 + z `mod` 64 = z.
Proof. lia_div. Qed.

Lemma b64_round_trip a l : byte_list l -> b64_quanta a (b64_encode a l) = Some l.
Proof.
  induction l as [|x|x y|x y z l IH] using list_ind3; intros H; byte_bounds; [done|..];
    cbn [b64_encode b64_quanta]; rewrite !b64_val_char by lia_div; cbn.
  - do 2 f_equal. lia_div.
  - rewrite quantum1 by done. do 3 f_equal. lia_div.
  - rewrite IH by done. cbn. by rewrite quantum1, quantum2, quantum3 by done.
Qed.

Lemma strip_newlines_encode a l : byte_list l -> strip_newlines (b64_encode a l) = b64_encode a l.
Proof.
  induction l as [|x|x y|x y z l IH] using list_ind3; intros H; byte_bounds; [done|..];
    cbn [b64_encode strip_newlines]; rewrite !b64_char_newline by lia_div; try done.
  by rewrite IH.
Qed.

(** Decoding what the raw URL encoder produced gives the text back. *)
Lemma RawURL_round_trip s : RawURL_decode (RawURL_encode s) = Some s.
Proof.
  unfold RawURL_decode, RawURL_encode.
  rewrite strip_newlines_encode, b64_round_trip by apply byte_list_bytes.
  cbn. by rewrite of_bytes_bytes.
Qed.

(** ** Query strings *)

(** The bytes [url.QueryEscape] leaves alone. *)
Definition unreserved (c : ascii) : bool :=
  let z := code c in
  between 48 57 z || between 65 90 z || between 97 122 z
  || (z =? 45) || (z =? 95) || (z =? 46) || (z =? 126).

Definition upper_hexdigit (z : Z) : ascii := if z <? 10 then chr (48 + z) else chr (55 + z).

Definition percent (c : ascii) (t : string) : string :=
  String "%" (String (upper_hexdigit (code c / 16))
    (String (upper_hexdigit (code c `mod` 16)) t)).

Fixpoint QueryEscape (s : string) : string :=
  match s with
  | EmptyString => ""
  | String c t =>
      if code c =? 32 then String "+" (QueryEscape t)
      else if unreserved c then String c (QueryEscape t)
      else percent c (QueryEscape t)
  end.

Fixpoint QueryUnescape (s : string) : option string :=
  match s with
  | EmptyString => Some ""
  | String "%" (String a (String b t)) =>
      x ← unhex a; y ← unhex b; r ← QueryUnescape t; Some (String (chr (x * 16 + y)) r)
  | String "%" _ => None
  | String "+" t => r ← QueryUnescape t; Some (String " " r)
  | String c t => r ← QueryUnescape t; Some (String c r)
  end.

(** [strings.ReplaceAll(s, "+", "%20")] *)
Fixpoint plus_to_20 (s : string) : string :=
  match s with
  | EmptyString => ""
  | String c t =>
      if Ascii.eqb c "+" then String "%" (String "2" (String "0" (plus_to_20 t)))
      else String c (plus_to_20 t)
  end.

(** [url.Values]: the values of each key, in order of appearance. *)
Abbreviation Values := (gmap string (list string)).

(** [v.Get(k)]: the first value, or the empty string. *)
Definition Get (v : Values) (k : string) : string :=
  match v !! k with Some (x :: _) => x | _ => "" end.

Definition has_key (v : Values) (k : string) : bool :=
  match v !! k with Some _ => true | None => false end.

Definition add_value (v : Values) (k x : string) : Values :=
  <[k := default [] (v !! k) ++ [x]]> v.

(** One [&]-separated piece of the query.  [None] is a recorded error. *)
Definition parse_pair (piece : string) (v : Values) : option Values :=
  if Contains piece ";" then None
  else if String.eqb piece "" then Some v
  else
    let '(k, x, _) := Cut piece "=" in
    k ← QueryUnescape k; x ← QueryUnescape x; Some (add_value v k x).

(** net/url refuses a query with more than this many parameters. *)
Definition max_query_params : Z := 10000.

(** [url.ParseQuery].  The callers use the map only when the error is nil, so
    a query with any unreadable piece is [None]. *)
Definition ParseQuery (q : string) : option Values :=
  if max_query_params <? Z.of_nat (length (Split q "&")) then None
  else foldl (fun acc piece => v ← acc; parse_pair piece v) (Some ∅) (Split q "&").

Definition str_le (s t : string) : Prop := sle s t = true.

#[export] Instance str_le_dec : RelDecision str_le.
Proof. intros s t. unfold str_le. apply _. Defined.

#[export] Instance str_le_total : Total str_le.
Proof.
  intros s t. unfold str_le. rewrite !sle_spec. destruct (slt_total s t) as [?|[?|?]]; auto.
Qed.

#[export] Instance str_le_trans : Transitive str_le.
Proof.
  intros s t u. unfold str_le. rewrite !sle_spec.
  intros [?| ->] [?| ->]; auto. left. by eapply slt_trans.
Qed.

#[export] Instance str_le_antisymm : AntiSymm (=) str_le.
Proof.
  intros s t. unfold str_le. rewrite !sle_spec. intros [H|?] [?|?]; auto.
  apply slt_asym in H. congruence.
Qed.

Definition sort_strings : list string -> list string := merge_sort str_le.

(** [v.Encode()]: keys in order, every value, joined by '&'. *)
Definition Encode (v : Values) : string :=
  Join (sort_strings (elements (dom v)) ≫= fun k =>
          (fun x => QueryEscape k +:+ "=" +:+ QueryEscape x) <$> default [] (v !! k)) "&".

Lemma unhex_upper z : 0 <= z < 16 -> unhex (upper_hexdigit z) = Some z.
Proof.
  intros Hz. apply (bool_decide_eq_true_1 _). revert z Hz.
  apply (enumerate 16 (fun z => bool_decide (unhex (upper_hexdigit z) = Some z))). by vm_compute.
Qed.

Lemma QueryUnescape_cons c t :
  c <> "%"%char -> c <> "+"%char ->
  QueryUnescape (String c t) = r ← QueryUnescape t; Some (String c r).
Proof.
  intros H1 H2. cbn [QueryUnescape].
  destruct c as [[] [] [] [] [] [] [] []]; try done.
Qed.

(** What [QueryEscape] writes, [QueryUnescape] reads back unchanged. *)
Lemma QueryEscape_round_trip s : QueryUnescape (QueryEscape s) = Some s.
Proof.
  induction s as [|c s IH]; [done|]. cbn [QueryEscape].
  pose proof (code_range c).
  destruct (code c =? 32) eqn:E; bool_to_prop.
  - change (QueryUnescape (String "+" (QueryEscape s)))
      with (r ← QueryUnescape (QueryEscape s); Some (String " " r)).
    rewrite IH. cbn. do 2 f_equal. apply (inj code). by rewrite E.
  - destruct (unreserved c) eqn:U.
    + rewrite QueryUnescape_cons; [by rewrite IH|..]; intros ->; by vm_compute in U.
    + unfold percent. cbn [QueryUnescape]. rewrite !unhex_upper by lia_div. cbn.
      rewrite IH. cbn. do 2 f_equal. rewrite <- (chr_code c) at 3. f_equal. lia_div.
Qed.

Lemma upper_hexdigit_plus z : 0 <= z < 16 -> Ascii.eqb (upper_hexdigit z) "+" = false.
Proof.
  intros Hz. apply negb_true_iff. revert z Hz.
  apply (enumerate 16 (fun z => negb (Ascii.eqb (upper_hexdigit z) "+"))). by vm_compute.
Qed.

(** Respelling '+' as "%20" does not change what is read back. *)
Lemma plus_to_20_round_trip s : QueryUnescape (plus_to_20 (QueryEscape s)) = Some s.
Proof.
  induction s as [|c s IH]; [done|]. cbn [QueryEscape].
  pose proof (code_range c).
  destruct (code c =? 32) eqn:E; bool_to_prop.
  - change (plus_to_20 (String "+" (QueryEscape s)))
      with (String "%" (String "2" (String "0" (plus_to_20 (QueryEscape s))))).
    cbn [QueryUnescape]. change (unhex "2") with (Some 2). change (unhex "0") with (Some 0).
    cbn. rewrite IH. cbn. do 2 f_equal. apply (inj code). by rewrite E.
  - destruct (unreserved c) eqn:U.
    + cbn [plus_to_20]. replace (Ascii.eqb c "+") with false.
      * rewrite QueryUnescape_cons; [by rewrite IH|..]; intros ->; by vm_compute in U.
      * symmetry. apply Ascii.eqb_neq. intros ->. by vm_compute in U.
    + unfold percent. cbn [plus_to_20]. rewrite !upper_hexdigit_plus by lia_div.
      change (Ascii.eqb "%" "+") with false. cbn [QueryUnescape].
      rewrite !unhex_upper by lia_div. cbn. rewrite IH. cbn.
      do 2 f_equal. rewrite <- (chr_code c) at 3. f_equal. lia_div.
Qed.

Example ParseQuery_ex :
  (v ← ParseQuery "list-type=2&prefix=dev%2Fa+b&flag"; Some (Encode v))
  = Some "flag=&list-type=2&prefix=dev%2Fa+b"
  /\ ParseQuery "a=1;b=2" = None /\ ParseQuery "a=%zz" = None.
Proof. by vm_compute. Qed.

Example text_ex :
  TrimSpace "  a b  " = "a b" /\ Fields " a   b " = ["a"; "b"]
  /\ Std_decode "TWE=" = Some [77; 97] /\ Std_decode "TWE" = None
  /\ RawURL_encode "hello" = "aGVsbG8" /\ ValidString (String (chr 255) "") = false.
Proof. by vm_compute. Qed.

(** ** Strictly sorted lists of strings *)

Definition str_lt (s t : string) : Prop := slt s t = true.

Lemma elem_of_sort_strings l x : x ∈ sort_strings l <-> x ∈ l.
Proof. unfold sort_strings. by rewrite (merge_sort_Permutation str_le l). Qed.

Lemma NoDup_sort_strings l : NoDup l -> NoDup (sort_strings l).
Proof. unfold sort_strings. by rewrite (merge_sort_Permutation str_le l). Qed.

Lemma sort_strings_strict l : NoDup l -> StronglySorted str_lt (sort_strings l).
Proof.
  intros H%NoDup_sort_strings.
  pose proof (StronglySorted_merge_sort str_le l) as Hs. fold (sort_strings l) in Hs.
  induction Hs as [|x k Hk IH Hx]; [constructor|].
  apply NoDup_cons in H as [Hin Hnd]. constructor; [auto|].
  apply Forall_forall. intros y Hy. rewrite Forall_forall in Hx.
  pose proof (Hx y Hy) as Hle. apply sle_spec in Hle as [?| ->]; done.
Qed.

Lemma sorted_filter {A} (R : relation A) (P : A -> Prop) `{!forall x, Decision (P x)} l :
  StronglySorted R l -> StronglySorted R (filter P l).
Proof.
  induction 1 as [|x l Hl IH Hx]; [constructor|]. rewrite filter_cons.
  case_decide; [|done]. constructor; [done|].
  apply Forall_forall. intros y Hy%list_elem_of_filter.
  rewrite Forall_forall in Hx. by apply Hx, Hy.
Qed.

Lemma sorted_fmap_inv {A B} (R : relation B) (f : A -> B) l :
  StronglySorted R (f <$> l) -> StronglySorted (fun x y => R (f x) (f y)) l.
Proof.
  induction l as [|x l IH]; [constructor|]. cbn. intros [Hs Hf]%StronglySorted_inv.
  constructor; [auto|]. exact (proj1 (Forall_fmap f (R (f x)) l) Hf).
Qed.

(** A strictly sorted list is determined by its elements. *)
Lemma strict_unique l1 l2 :
  StronglySorted str_lt l1 -> StronglySorted str_lt l2 -> (forall x, x ∈ l1 <-> x ∈ l2) -> l1 = l2.
Proof.
  intros H1. revert l2. induction H1 as [|x l1 Hl1 IH Hx]; intros l2 H2 Hin.
  - destruct l2 as [|y l2]; [done|]. exfalso. apply (not_elem_of_nil y), Hin, list_elem_of_here.
  - destruct H2 as [|y l2 Hl2 Hy]; [exfalso; apply (not_elem_of_nil x), Hin, list_elem_of_here|].
    rewrite Forall_forall in Hx, Hy.
    assert (x = y) as ->.
    { pose proof (proj1 (Hin x) ltac:(by left)) as Hxy.
      pose proof (proj2 (Hin y) ltac:(by left)) as Hyx.
      apply elem_of_cons in Hxy as [->|Hxy]; [done|].
      apply elem_of_cons in Hyx as [->|Hyx]; [done|].
      specialize (Hx y Hyx). specialize (Hy x Hxy). apply slt_asym in Hx.
      unfold str_lt in Hy. congruence. }
    f_equal. apply IH; [done|]. intros z. specialize (Hin z). rewrite !elem_of_cons in Hin.
    destruct (decide (z = y)) as [->|]; [|tauto].
    split; intros Hz; [specialize (Hx y Hz)|specialize (Hy y Hz)];
      unfold str_lt in *; by rewrite slt_irrefl in *.
Qed.

(** Past its last element a strictly sorted list has nothing more, and past
    an element exactly the rest. *)
Lemma strict_after l1 x l2 :
  StronglySorted str_lt (l1 ++ x :: l2) -> filter (fun y => slt x y = true) (l1 ++ x :: l2) = l2.
Proof.
  induction l1 as [|y l1 IH]; cbn [app]; intros H; apply StronglySorted_inv in H as [Hs Hf];
    rewrite filter_cons, Forall_forall in *.
  - rewrite decide_False by (by rewrite slt_irrefl). clear -Hf.
    induction l2 as [|z l2 IH]; [done|]. rewrite filter_cons.
    rewrite decide_True by (apply Hf; by left). f_equal. apply IH. intros; apply Hf; by right.
  - rewrite decide_False; [by apply IH|]. specialize (Hf x ltac:(set_solver)).
    apply slt_asym in Hf. congruence.
Qed.

(** ** Visible ASCII needs no trimming *)

Definition visible_byte (c : ascii) : bool := between 33 126 (code c).

Fixpoint all_bytes (p : ascii -> bool) (s : string) : bool :=
  match s with EmptyString => true | String c t => p c && all_bytes p t end.

Lemma all_bytes_app p s t : all_bytes p (s +:+ t) = all_bytes p s && all_bytes p t.
Proof. induction s as [|c s IH]; [done|]. rewrite sapp_cons. cbn. by rewrite IH, andb_assoc. Qed.

Lemma all_bytes_impl (p q : ascii -> bool) s :
  (forall c, p c = true -> q c = true) -> all_bytes p s = true -> all_bytes q s = true.
Proof. intros H. induction s as [|c s IH]; [done|]. cbn. intros [? ?]%andb_true_iff. rewrite H, IH; done. Qed.

Lemma all_bytes_Contains p s c : all_bytes p s = true -> p c = false -> Contains s c = false.
Proof.
  induction s as [|d s IH]; [done|]. cbn. intros [Hd Hs]%andb_true_iff Hc. rewrite IH by done.
  destruct (Ascii.eqb d c) eqn:E; bool_to_prop; [congruence|done].
Qed.

Lemma all_bytes_Join p l sep :
  Forall (fun x => all_bytes p x = true) l -> all_bytes p sep = true -> all_bytes p (Join l sep) = true.
Proof.
  intros H Hs. induction H as [|x l Hx Hl IH]; [done|]. destruct l as [|y l]; [done|].
  change (Join (x :: y :: l) sep) with (x +:+ sep +:+ Join (y :: l) sep).
  by rewrite !all_bytes_app, Hx, Hs, IH.
Qed.

Definition visible_segment (g : segment) : Prop := seg_space g = false.

Lemma visible_segments s :
  all_bytes visible_byte s = true -> Forall visible_segment (segments (bytes s)).
Proof.
  induction s as [|c s IH]; [constructor|]. cbn [all_bytes bytes segments].
  intros [Hc Hs]%andb_true_iff. unfold visible_byte, between in Hc. bool_to_prop.
  destruct (Z.ltb_spec (code c) 0x80); [|lia]. constructor; [|by apply IH].
  unfold visible_segment, seg_space, IsSpace, between. cbn [seg_valid seg_rune andb].
  repeat match goal with |- context [?a <=? ?b] => destruct (Z.leb_spec a b); try lia end;
    repeat match goal with |- context [?a =? ?b] => destruct (Z.eqb_spec a b); try lia end; done.
Qed.

Lemma drop_visible l : Forall visible_segment l -> drop_spaces l = l.
Proof. destruct 1 as [|g l Hg]; [done|]. cbn. by rewrite Hg. Qed.

Lemma TrimSpace_visible s : all_bytes visible_byte s = true -> TrimSpace s = s.
Proof.
  intros Hs%visible_segments. unfold TrimSpace.
  rewrite (drop_visible _ Hs), drop_visible by by apply Forall_rev. rewrite rev_involutive.
  unfold join_segments. by rewrite segments_bytes, of_bytes_bytes.
Qed.

Lemma TrimSpace_space s : TrimSpace (" " +:+ s) = TrimSpace s.
Proof. done. Qed.

(** ** Bytes of segments *)

Lemma Contains_of_bytes l c : byte_list l -> code c ∉ l -> Contains (of_bytes l) c = false.
Proof.
  induction 1 as [|z l Hz _ IH]; [done|]. cbn. intros Hn. rewrite IH by set_solver.
  destruct (Ascii.eqb (chr z) c) eqn:E; bool_to_prop; [|done].
  subst c. rewrite code_chr in Hn by done. set_solver.
Qed.

Lemma segments_byte_list s : Forall (fun g => byte_list (seg_bytes g)) (segments (bytes s)).
Proof.
  pose proof (byte_list_bytes s) as Hb. rewrite <- (segments_bytes (bytes s)) in Hb.
  induction (segments (bytes s)) as [|g l IH]; [constructor|].
  cbn in Hb. apply Forall_app in Hb as [? ?]. constructor; auto.
Qed.
