(* ===== verification/Digest.v ===== *)
(** * Digests

    MD5, SHA-256 and HMAC-SHA-256 as Go's [crypto] packages compute them, on
    bytes as [Z]s.  They are executable: the examples at the end check them
    against published test vectors. *)

From S2P Require Import Prelude GoStrings GoText.

(** ** 32-bit words *)

Definition w32 (z : Z) : Z := Z.land z 0xffffffff.
Definition add32 (x y : Z) : Z := w32 (x + y).
Definition not32 (x : Z) : Z := Z.lxor x 0xffffffff.
Definition rotl (x n : Z) : Z := w32 (Z.lor (Z.shiftl x n) (Z.shiftr x (32 - n))).
Definition rotr (x n : Z) : Z := rotl x (32 - n).

Fixpoint be_bytes (n : nat) (z : Z) : list Z :=
  match n with
  | O => []
  | S n => Z.land (Z.shiftr z (8 * Z.of_nat n)) 255 :: be_bytes n z
  end.

Fixpoint le_bytes (n : nat) (z : Z) : list Z :=
  match n with
  | O => []
  | S n => Z.land z 255 :: le_bytes n (Z.shiftr z 8)
  end.

Fixpoint be_value (l : list Z) (acc : Z) : Z :=
  match l with [] => acc | b :: t => be_value t (acc * 256 + b) end.

Fixpoint le_value (l : list Z) : Z :=
  match l with [] => 0 | b :: t => b + 256 * le_value t end.

(** Split into pieces of [n]; [fuel] is the length of the list. *)
Fixpoint chunks_go {A} (fuel n : nat) (l : list A) : list (list A) :=
  match fuel, l with
  | O, _ | _, [] => []
  | S fuel, _ => take n l :: chunks_go fuel n (drop n l)
  end.

Definition chunks {A} (n : nat) (l : list A) : list (list A) := chunks_go (length l) n l.

(** The padding of both hashes: 0x80, zeros, the bit length in 8 bytes. *)
Definition pad (lenbytes : Z -> list Z) (m : list Z) : list Z :=
  let n := Z.of_nat (length m) in
  let zeros := (55 - n) `mod` 64 in
  m ++ [0x80] ++ replicate (Z.to_nat zeros) 0 ++ lenbytes (8 * n).

Definition nthZ (l : list Z) (i : nat) : Z := nth i l 0.

(** ** SHA-256 *)

(** The largest [x < 2 ^ n] whose [k]-th power is at most [v], bit by bit. *)
Fixpoint root_below (k : Z) (n : nat) (x v : Z) : Z :=
  match n with
  | O => x
  | S n => let x' := x + 2 ^ Z.of_nat n in root_below k n (if x' ^ k <=? v then x' else x) v
  end.

(** The first 32 bits of the fraction of the [k]-th root of [p]. *)
Definition root_fraction (k p : Z) : Z := w32 (root_below k 40 0 (p * 2 ^ (32 * k))).

Definition primes : list Z :=
  Eval vm_compute in
  filter (fun n => Forall (fun d => n `mod` d <> 0) (seqZ 2 (n - 2))) (seqZ 2 310).

(** FIPS 180-4: the round constants are the cube roots of the first 64
    primes, the initial state the square roots of the first 8. *)
Definition sha256_k : list Z := Eval vm_compute in root_fraction 3 <$> primes.
Definition sha256_init : list Z := Eval vm_compute in root_fraction 2 <$> take 8 primes.

(** The message schedule, newest word first. *)
Fixpoint sha256_schedule (n : nat) (w : list Z) : list Z :=
  match n with
  | O => w
  | S n =>
      let w15 := nthZ w 14 in
      let w2 := nthZ w 1 in
      let s0 := Z.lxor (Z.lxor (rotr w15 7) (rotr w15 18)) (Z.shiftr w15 3) in
      let s1 := Z.lxor (Z.lxor (rotr w2 17) (rotr w2 19)) (Z.shiftr w2 10) in
      sha256_schedule n (w32 (nthZ w 15 + s0 + nthZ w 6 + s1) :: w)
  end.

Definition sha256_round (st : list Z) (kw : Z * Z) : list Z :=
  match st with
  | [a; b; c; d; e; f; g; h] =>
      let '(k, w) := kw in
      let s1 := Z.lxor (Z.lxor (rotr e 6) (rotr e 11)) (rotr e 25) in
      let ch := Z.lxor (Z.land e f) (Z.land (not32 e) g) in
      let t1 := w32 (h + s1 + ch + k + w) in
      let s0 := Z.lxor (Z.lxor (rotr a 2) (rotr a 13)) (rotr a 22) in
      let maj := Z.lxor (Z.lxor (Z.land a b) (Z.land a c)) (Z.land b c) in
      [add32 t1 (add32 s0 maj); a; b; c; add32 d t1; e; f; g]
  | _ => st
  end.

Definition sha256_block (h : list Z) (block : list Z) : list Z :=
  let w0 := (fun l => be_value l 0) <$> chunks 4 block in
  let w := rev (sha256_schedule 48 (rev w0)) in
  zip_with add32 h (foldl sha256_round h (zip sha256_k w)).

Definition sha256 (m : list Z) : list Z :=
  foldl sha256_block sha256_init (chunks 64 (pad (be_bytes 8) m)) ≫= be_bytes 4.

(** ** HMAC-SHA-256 *)

Definition hmac_sha256 (key msg : list Z) : list Z :=
  let key := if 64 <? Z.of_nat (length key) then sha256 key else key in
  let key := key ++ replicate (64 - length key) 0 in
  let ipad := Z.lxor 0x36 <$> key in
  let opad := Z.lxor 0x5c <$> key in
  sha256 (opad ++ sha256 (ipad ++ msg)).

(** ** MD5 *)

Definition md5_t : list Z :=
  [ 0xd76aa478; 0xe8c7b756; 0x242070db; 0xc1bdceee; 0xf57c0faf; 0x4787c62a;
    0xa8304613; 0xfd469501; 0x698098d8; 0x8b44f7af; 0xffff5bb1; 0x895cd7be;
    0x6b901122; 0xfd987193; 0xa679438e; 0x49b40821; 0xf61e2562; 0xc040b340;
    0x265e5a51; 0xe9b6c7aa; 0xd62f105d; 0x02441453; 0xd8a1e681; 0xe7d3fbc8;
    0x21e1cde6; 0xc33707d6; 0xf4d50d87; 0x455a14ed; 0xa9e3e905; 0xfcefa3f8;
    0x676f02d9; 0x8d2a4c8a; 0xfffa3942; 0x8771f681; 0x6d9d6122; 0xfde5380c;
    0xa4beea44; 0x4bdecfa9; 0xf6bb4b60; 0xbebfbc70; 0x289b7ec6; 0xeaa127fa;
    0xd4ef3085; 0x04881d05; 0xd9d4d039; 0xe6db99e5; 0x1fa27cf8; 0xc4ac5665;
    0xf4292244; 0x432aff97; 0xab9423a7; 0xfc93a039; 0x655b59c3; 0x8f0ccc92;
    0xffeff47d; 0x85845dd1; 0x6fa87e4f; 0xfe2ce6e0; 0xa3014314; 0x4e0811a1;
    0xf7537e82; 0xbd3af235; 0x2ad7d2bb; 0xeb86d391 ].

Definition md5_s : list Z :=
  [ 7; 12; 17; 22; 7; 12; 17; 22; 7; 12; 17; 22; 7; 12; 17; 22;
    5; 9; 14; 20; 5; 9; 14; 20; 5; 9; 14; 20; 5; 9; 14; 20;
    4; 11; 16; 23; 4; 11; 16; 23; 4; 11; 16; 23; 4; 11; 16; 23;
    6; 10; 15; 21; 6; 10; 15; 21; 6; 10; 15; 21; 6; 10; 15; 21 ].

Definition md5_init : list Z := [ 0x67452301; 0xefcdab89; 0x98badcfe; 0x10325476 ].

Definition md5_round (x : list Z) (st : list Z) (i : nat) : list Z :=
  match st with
  | [a; b; c; d] =>
      let '(f, g) :=
        if (i <? 16)%nat then (Z.lor (Z.land b c) (Z.land (not32 b) d), i)
        else if (i <? 32)%nat then (Z.lor (Z.land d b) (Z.land (not32 d) c), (5 * i + 1)%nat)
        else if (i <? 48)%nat then (Z.lxor (Z.lxor b c) d, (3 * i + 5)%nat)
        else (Z.lxor c (Z.lor b (not32 d)), (7 * i)%nat) in
      let t := w32 (a + f + nthZ md5_t i + nthZ x (g mod 16)) in
      [d; add32 b (rotl t (nthZ md5_s i)); b; c]
  | _ => st
  end.

Definition md5_block (h : list Z) (block : list Z) : list Z :=
  zip_with add32 h (foldl (md5_round (le_value <$> chunks 4 block)) h (seq 0 64)).

Definition md5 (m : list Z) : list Z :=
  foldl md5_block md5_init (chunks 64 (pad (le_bytes 8) m)) ≫= le_bytes 4.

(** ** Shape: MD5 digests are 16 bytes *)

Lemma foldl_preserves {A B} (P : A -> Prop) (f : A -> B -> A) l a :
  (forall a b, P a -> P (f a b)) -> P a -> P (foldl f a l).
Proof. intros Hf. revert a. induction l as [|b l IH]; simpl; auto. Qed.

Lemma md5_round_length x st i : length st = 4%nat -> length (md5_round x st i) = 4%nat.
Proof.
  intros H. destruct st as [|a [|b [|c [|d [|]]]]]; try done. unfold md5_round.
  by destruct (if (i <? 16)%nat then _ else _).
Qed.

Lemma md5_block_length h block : length h = 4%nat -> length (md5_block h block) = 4%nat.
Proof.
  intros H. unfold md5_block. rewrite length_zip_with, H.
  rewrite (foldl_preserves (fun st => length st = 4%nat)); auto using md5_round_length.
Qed.

Lemma le_bytes_range n z : byte_list (le_bytes n z).
Proof.
  revert z. induction n as [|n IH]; intros z; constructor; [|apply IH].
  change 255 with (Z.ones 8). rewrite Z.land_ones by lia. apply Z.mod_pos_bound. lia.
Qed.

Lemma length_le_bytes n z : length (le_bytes n z) = n.
Proof. revert z. induction n; simpl; auto. Qed.

Lemma md5_state_length m :
  length (foldl md5_block md5_init (chunks 64 (pad (le_bytes 8) m))) = 4%nat.
Proof. apply (foldl_preserves (fun st => length st = 4%nat)); auto using md5_block_length. Qed.

Lemma length_md5 m : length (md5 m) = 16%nat.
Proof.
  unfold md5. pose proof (md5_state_length m) as H.
  destruct (foldl _ _ _) as [|a [|b [|c [|d [|]]]]]; try done.
Qed.

Lemma md5_range m : byte_list (md5 m).
Proof.
  unfold md5. induction (foldl _ _ _) as [|x l IH]; [constructor|].
  rewrite bind_cons. apply Forall_app. split; [apply le_bytes_range|done].
Qed.

(** ** Shape: SHA-256 digests are 32 bytes *)

Lemma sha256_round_length st kw : length st = 8%nat -> length (sha256_round st kw) = 8%nat.
Proof.
  intros H. destruct st as [|a [|b [|c [|d [|e [|f [|g [|h [|]]]]]]]]]; try done. by destruct kw.
Qed.

Lemma sha256_block_length h block : length h = 8%nat -> length (sha256_block h block) = 8%nat.
Proof.
  intros H. unfold sha256_block. rewrite length_zip_with, H.
  rewrite (foldl_preserves (fun st => length st = 8%nat)); auto using sha256_round_length.
Qed.

Lemma be_bytes_range n z : byte_list (be_bytes n z).
Proof.
  induction n as [|n IH]; constructor; [|apply IH].
  change 255 with (Z.ones 8). rewrite Z.land_ones by lia. apply Z.mod_pos_bound. lia.
Qed.

Lemma length_be_bytes n z : length (be_bytes n z) = n.
Proof. induction n; simpl; auto. Qed.

Lemma length_sha256 m : length (sha256 m) = 32%nat.
Proof.
  unfold sha256.
  assert (length (foldl sha256_block sha256_init (chunks 64 (pad (be_bytes 8) m))) = 8%nat) as H.
  { apply (foldl_preserves (fun st => length st = 8%nat)); auto using sha256_block_length. }
  generalize dependent (foldl sha256_block sha256_init (chunks 64 (pad (be_bytes 8) m))). intros l H.
  do 8 (destruct l as [|? l]; [done|]). by destruct l.
Qed.

Lemma sha256_range m : byte_list (sha256 m).
Proof.
  unfold sha256. induction (foldl _ _ _) as [|x l IH]; [constructor|].
  rewrite bind_cons. apply Forall_app. split; [apply be_bytes_range|done].
Qed.

Lemma hmac_range key msg : byte_list (hmac_sha256 key msg).
Proof. apply sha256_range. Qed.

Lemma length_hmac key msg : length (hmac_sha256 key msg) = 32%nat.
Proof. apply length_sha256. Qed.

(** ** Test vectors *)

Example md5_vectors :
  hex_encode (md5 []) = "d41d8cd98f00b204e9800998ecf8427e"
  /\ hex_encode (md5 (bytes "message digest")) = "f96b697d7cb7938d525a2f31aaf161d0".
Proof. by vm_compute. Qed.

Example sha256_vectors :
  hex_encode (sha256 (bytes "abc"))
    = "ba7816bf8f01cfea414140de5dae2223b00361a396177a9cb410ff61f20015ad"
  /\ hex_encode (sha256 (bytes "abcdbcdecdefdefgefghfghighijhijkijkljklmklmnlmnomnopnopq"))
    = "248d6a61d20638b8e5c026930c3e6039a33ce45964ff2167f6ecedd419db06c1".
Proof. by vm_compute. Qed.

Example hmac_vector :
  hex_encode (hmac_sha256 (bytes "Jefe") (bytes "what do ya want for nothing?"))
    = "5bdcc146bf60754e6a042426089575c75a003f089d2739839dec58b964ec3843".
Proof. by vm_compute. Qed.
