(* ===== verification/GoTime.v ===== *)
(** * Go time

    An instant ([time.Time], in UTC) is a [Z]: nanoseconds since the Unix
    epoch.  A [time.Duration] is a 64-bit count of nanoseconds; [Sub]
    saturates at its limits as Go's does.  The calendar is the proleptic
    Gregorian one. *)

From S2P Require Import Prelude GoStrings GoText.
Open Scope go_scope.
From Stdlib Require Import Ascii.

Definition Nanosecond : Z := 1.
Definition Second : Z := 1000000000.
Definition Minute : Z := 60 * Second.
Definition Hour : Z := 60 * Minute.
Definition Day : Z := 24 * Hour.

(** Go's zero [time.Time], 1 January of year 1. *)
Definition zero_time : Z := -62135596800 * Second.

Definition IsZero (t : Z) : bool := t =? zero_time.

(** [t.Sub(u)] *)
Definition Sub (t u : Z) : Z := Z.max int64_min (Z.min int64_max (t - u)).

(** [t.Before(u)], [t.After(u)] *)
Definition Before (t u : Z) : bool := t <? u.
Definition After (t u : Z) : bool := u <? t.

Lemma Sub_range t u : in_int64 (Sub t u).
Proof. unfold Sub, in_int64, int64_min, int64_max. lia. Qed.

Lemma Sub_exact t u : in_int64 (t - u) -> Sub t u = t - u.
Proof. unfold Sub, in_int64, int64_min, int64_max. lia. Qed.

(** Comparing a saturated difference with a threshold that fits in 64 bits is
    comparing the exact one. *)
Lemma Sub_lt t u d : int64_min < d <= int64_max -> Sub t u < d <-> t - u < d.
Proof. unfold Sub, in_int64, int64_min, int64_max. lia. Qed.

Lemma Sub_gt t u d : int64_min <= d < int64_max -> d < Sub t u <-> d < t - u.
Proof. unfold Sub, in_int64, int64_min, int64_max. lia. Qed.

(** ** Calendar *)

Record civil := Civil { c_year : Z; c_month : Z; c_day : Z }.

Definition is_leap (y : Z) : bool :=
  (y `mod` 4 =? 0) && (negb (y `mod` 100 =? 0) || (y `mod` 400 =? 0)).

(** [daysIn(month, year)] *)
Definition daysIn (m y : Z) : Z :=
  if m =? 2 then (if is_leap y then 29 else 28)
  else if (m =? 4) || (m =? 6) || (m =? 9) || (m =? 11) then 30 else 31.

(** Days since 1970-01-01; the year is taken to start in March. *)
Definition days_of_civil (c : civil) : Z :=
  let '(Civil y m d) := c in
  let y' := if m <=? 2 then y - 1 else y in
  let mp := if m <=? 2 then m + 9 else m - 3 in
  let yoe := y' `mod` 400 in
  let doy := (153 * mp + 2) / 5 + d - 1 in
  y' / 400 * 146097 + (yoe * 365 + yoe / 4 - yoe / 100 + doy) - 719468.

Definition civil_of_days (days : Z) : civil :=
  let z := days + 719468 in
  let doe := z `mod` 146097 in
  let yoe := (doe - doe / 1460 + doe / 36524 - doe / 146096) / 365 in
  let doy := doe - (365 * yoe + yoe / 4 - yoe / 100) in
  let mp := (5 * doy + 2) / 153 in
  let m := if mp <? 10 then mp + 3 else mp - 9 in
  let y := yoe + z / 146097 * 400 in
  Civil (if m <=? 2 then y + 1 else y) m (doy - (153 * mp + 2) / 5 + 1).

(** [t.Date()] *)
Definition date_of (t : Z) : civil := civil_of_days (t / Day).

(** ** The one layout the gateway parses: "20060102T150405Z" *)

Definition isDigit (c : Ascii.ascii) : bool := between 48 57 (code c).

(** The first [n] bytes as a decimal number, all digits. *)
Definition take_num (n : nat) (s : string) : option (Z * string) :=
  let p := stake n s in
  if Nat.eqb (String.length p) n then v ← unsigned_int p; Some (v, sdrop n s) else None.

Definition expect (c : Ascii.ascii) (s : string) : option string :=
  match s with String d t => if Ascii.eqb d c then Some t else None | _ => None end.

Fixpoint digit_run (s : string) : string * string :=
  match s with
  | String c t => if isDigit c then let '(d, r) := digit_run t in (String c d, r) else ("", s)
  | EmptyString => ("", "")
  end.

(** time.Parse accepts a fractional second after the seconds even though the
    layout has none; digits past the ninth are dropped. *)
Definition fraction (s : string) : Z * string :=
  match s with
  | String c t =>
      if (Ascii.eqb c "."%char || Ascii.eqb c ","%char) then
        let '(d, r) := digit_run t in
        if String.eqb d "" then (0, s)
        else
          let d9 := stake 9 d in
          (default 0 (unsigned_int d9) * 10 ^ (9 - len d9), r)
      else (0, s)
  | EmptyString => (0, s)
  end.

(** [time.Parse("20060102T150405Z", s)] *)
Definition parse_iso8601 (s : string) : option Z :=
  '(year, s) ← take_num 4 s;
  '(month, s) ← take_num 2 s;
  if negb (between 1 12 month) then None else
  '(day, s) ← take_num 2 s;
  s ← expect "T"%char s;
  '(hour, s) ← take_num 2 s;
  if 24 <=? hour then None else
  '(minute, s) ← take_num 2 s;
  if 60 <=? minute then None else
  '(sec, s) ← take_num 2 s;
  if 60 <=? sec then None else
  let '(nsec, s) := fraction s in
  s ← expect "Z"%char s;
  if negb (String.eqb s "") then None
  else if negb (between 1 (daysIn month year) day) then None
  else Some ((days_of_civil (Civil year month day) * 86400
              + hour * 3600 + minute * 60 + sec) * Second + nsec).

Fixpoint pad_left (n : nat) (s : string) : string :=
  match n with
  | O => s
  | S n => if (String.length s <=? n)%nat then String "0"%char (pad_left n s) else s
  end.

(** [t.Format("20060102")] for a year in [0, 9999], which is what four digits
    parse to. *)
Definition format_date (t : Z) : string :=
  let '(Civil y m d) := date_of t in
  pad_left 4 (FormatInt y) +:+ pad_left 2 (FormatInt m) +:+ pad_left 2 (FormatInt d).

Example parse_ex :
  parse_iso8601 "20260902T120000Z" = Some (1788350400 * Second)
  /\ (format_date <$> parse_iso8601 "20240229T235959.5Z") = Some "20240229"
  /\ parse_iso8601 "20250229T000000Z" = None
  /\ parse_iso8601 "20260902T120000" = None
  /\ parse_iso8601 "00010101T000000Z" = Some zero_time
  /\ (format_date <$> parse_iso8601 "00010101T000000Z") = Some "00010101".
Proof. by vm_compute. Qed.

(** ** Formatting for responses *)

Definition clock_of (t : Z) : Z * Z * Z :=
  let s := (t `mod` Day) / Second in (s / 3600, (s / 60) `mod` 60, s `mod` 60).

Definition pad2 (n : Z) : string := pad_left 2 (FormatInt n).

Definition hms (t : Z) : string :=
  let '(h, m, s) := clock_of t in pad2 h +:+ ":" +:+ pad2 m +:+ ":" +:+ pad2 s.

(** [t.UTC().Format("2006-01-02T15:04:05.000Z")]; milliseconds are truncated. *)
Definition format_s3 (t : Z) : string :=
  let '(Civil y m d) := date_of t in
  pad_left 4 (FormatInt y) +:+ "-" +:+ pad2 m +:+ "-" +:+ pad2 d +:+ "T" +:+ hms t
  +:+ "." +:+ pad_left 3 (FormatInt ((t `mod` Second) / 1000000)) +:+ "Z".

(** Day zero of the epoch was a Thursday. *)
Definition weekday (t : Z) : string :=
  nth (Z.to_nat ((t / Day + 4) `mod` 7)) ["Sun"; "Mon"; "Tue"; "Wed"; "Thu"; "Fri"; "Sat"] "".

Definition month_name (m : Z) : string :=
  nth (Z.to_nat (m - 1))
    ["Jan"; "Feb"; "Mar"; "Apr"; "May"; "Jun"; "Jul"; "Aug"; "Sep"; "Oct"; "Nov"; "Dec"] "".

(** [t.UTC().Format(http.TimeFormat)] *)
Definition format_http (t : Z) : string :=
  let '(Civil y m d) := date_of t in
  weekday t +:+ ", " +:+ pad2 d +:+ " " +:+ month_name m +:+ " " +:+ pad_left 4 (FormatInt y)
  +:+ " " +:+ hms t +:+ " GMT".

Example format_ex :
  format_s3 (1788350400 * Second + 7 * 1000000) = "2026-09-02T12:00:00.007Z"
  /\ format_http (784111777 * Second) = "Sun, 06 Nov 1994 08:49:37 GMT".
Proof. by vm_compute. Qed.

(** ** Time zones

    A zone ([*time.Location]) gives, for a second since the epoch, the offset
    east of UTC in force then and the interval [start, end) it is in force
    for. *)
Definition Location : Type := Z -> Z * Z * Z.

Definition UTC : Location := fun _ => (0, int64_min, int64_max).

Definition zone_offset (loc : Location) (sec : Z) : Z := fst (fst (loc sec)).

(** [time.Date]'s last step: the instant of a wall clock reading given as
    seconds since the epoch.  The offset is looked up as if the reading were
    UTC, and again if that turns out to be across a transition. *)
Definition unix_of_local (loc : Location) (wall : Z) : Z :=
  let '(offset, start, stop) := loc wall in
  if offset =? 0 then wall
  else
    let utc := wall - offset in
    let offset := if (utc <? start) || (stop <=? utc) then zone_offset loc utc else offset in
    wall - offset.

(** The wall clock of an instant, in nanoseconds. *)
Definition wall_clock (loc : Location) (t : Z) : Z := t + zone_offset loc (t / Second) * Second.

(** [t.AddDate(years, months, days)]: months overflow into years, then days
    into months. *)
Definition AddDate (loc : Location) (t years months days : Z) : Z :=
  let wall := wall_clock loc t in
  let '(Civil y m d) := date_of wall in
  let m0 := m - 1 + months in
  let day := days_of_civil (Civil (y + years + m0 / 12) (m0 `mod` 12 + 1) 1) + (d - 1 + days) in
  let clock := wall `mod` Day in
  unix_of_local loc (day * 86400 + clock / Second) * Second + clock `mod` Second.

(** [t.ISOWeek()]: the year and week of the Thursday of the week of [t].
    Day 0, 1 January 1970, was a Thursday. *)
Definition ISOWeek (loc : Location) (t : Z) : Z * Z :=
  let day := wall_clock loc t / Day in
  let thursday := day - (day + 3) `mod` 7 + 3 in
  let y := c_year (civil_of_days thursday) in
  (y, (thursday - days_of_civil (Civil y 1 1)) / 7 + 1).

Example calendar_ex :
  (* 2024-12-30 is in the first week of 2025, 2027-01-01 in the last of 2026 *)
  ISOWeek UTC (days_of_civil (Civil 2024 12 30) * Day) = (2025, 1)
  /\ ISOWeek UTC (days_of_civil (Civil 2027 1 1) * Day + 5) = (2026, 53)
  (* 31 May less three months is 31 February, that is 2 March *)
  /\ date_of (AddDate UTC (days_of_civil (Civil 2024 5 31) * Day) 0 (-3) 0) = Civil 2024 3 2
  /\ date_of (AddDate UTC (days_of_civil (Civil 2024 2 29) * Day) (-1) 0 0) = Civil 2023 3 1
  /\ AddDate (fun _ => (3600, int64_min, int64_max)) 7 0 0 (-1) = 7 - Day.
Proof. by vm_compute. Qed.

(** * Integers as decimal text

    What [strconv] prints it reads back, and it prints digits. *)

Lemma isDigit_digit z : 0 <= z < 10 -> isDigit (digit z) = true.
Proof. intros Hz. apply (enumerate 10 (fun z => isDigit (digit z))); [by vm_compute|lia]. Qed.

Lemma digit_value z : 0 <= z < 10 -> code (digit z) - 48 = z.
Proof. intros Hz. unfold digit. rewrite code_chr; lia. Qed.

Lemma format_pos_digits fuel n acc :
  0 <= n -> all_bytes isDigit acc = true -> all_bytes isDigit (format_pos fuel n acc) = true.
Proof.
  revert n acc. induction fuel as [|fuel IH]; intros n acc Hn Ha; [done|]. cbn [format_pos].
  assert (all_bytes isDigit (String (digit (n `mod` 10)) acc) = true) as Hd.
  { cbn [all_bytes]. rewrite Ha, isDigit_digit by lia_div. done. }
  destruct (n <? 10); [done|]. apply IH; [lia_div|done].
Qed.

Lemma FormatInt_digits n : 0 <= n -> all_bytes isDigit (FormatInt n) = true.
Proof. intros. unfold FormatInt. destruct (Z.ltb_spec n 0); [lia|]. by apply format_pos_digits. Qed.

(** What was printed reads as the number it was printed from. *)
Lemma digits_format_pos fuel n acc v : 0 <= n < 10 ^ Z.of_nat fuel -> exists w, 0 < w /\ digits (format_pos fuel n acc) v = digits acc (v * w + n).
Proof.
  revert n acc. induction fuel as [|fuel IH]; intros n acc Hn; [exists 1; split; [done|]; cbn in *; f_equal; lia|].
  assert (forall u, digits (String (digit (n `mod` 10)) acc) u = digits acc (u * 10 + n `mod` 10)) as Hd.
  { intros u. cbn [digits]. assert (0 <= n `mod` 10 < 10) as Hm by lia_div. pose proof (isDigit_digit _ Hm) as Hi. unfold isDigit in Hi. by rewrite Hi, digit_value. }
  cbn [format_pos]. destruct (Z.ltb_spec n 10) as [Hl|Hl].
  - exists 10. split; [lia|]. rewrite Hd. by rewrite Z.mod_small by lia.
  - destruct (IH (n / 10) (String (digit (n `mod` 10)) acc)) as (w & Hw & E).
    { rewrite Nat2Z.inj_succ, Z.pow_succ_r in Hn by lia. lia_div. }
    exists (w * 10). split; [lia|]. rewrite E, Hd. f_equal. rewrite Z.mul_add_distr_r, Z.mul_assoc. lia_div.
Qed.

Lemma format_pos_nonempty fuel n acc : (0 < fuel + String.length acc)%nat -> format_pos fuel n acc <> "".
Proof.
  revert n acc. induction fuel as [|f IH]; intros n acc Ha; [by destruct acc; [cbn in Ha; lia|]|]. cbn [format_pos].
  destruct (n <? 10); [done|]. apply IH. cbn. lia.
Qed.

Lemma FormatInt_nonempty n : 0 <= n -> FormatInt n <> "".
Proof. intros Hn. unfold FormatInt. destruct (Z.ltb_spec n 0); [lia|]. apply format_pos_nonempty. lia. Qed.

Lemma ParseInt_digits s n : all_bytes isDigit s = true -> s <> "" -> digits s 0 = Some n -> n < 2 ^ 63 -> ParseInt s = Some n.
Proof.
  intros Hd Hne Hn Hlt. destruct s as [|c t]; [done|]. cbn [all_bytes] in Hd. apply andb_true_iff in Hd as [Hc _].
  assert (unsigned_int (String c t) = Some n) as Hu by exact Hn. unfold ParseInt.
  assert (c <> "-"%char /\ c <> "+"%char) as [H1 H2] by (split; intros ->; by vm_compute in Hc).
  destruct c as [[] [] [] [] [] [] [] []]; try done; rewrite Hu; cbn; by rewrite (proj2 (Z.ltb_lt _ _) Hlt).
Qed.

Lemma ParseInt_FormatInt n : 0 <= n < 2 ^ 63 -> ParseInt (FormatInt n) = Some n.
Proof.
  intros Hn. apply ParseInt_digits; [apply FormatInt_digits; lia|apply FormatInt_nonempty; lia| |lia].
  unfold FormatInt. destruct (Z.ltb_spec n 0); [lia|]. destruct (digits_format_pos 20 n "" 0) as (w & _ & ->); [cbn; lia|]. done.
Qed.
