(* ===== verification/Db.v ===== *)
(** * The database

    What every table of [fleet/store] shares: how times are stored, and what may
    become of a statement. *)

From S2P Require Import Prelude GoTime.
Open Scope go_scope.

(** Times are stored as RFC 3339 text in UTC, to the second; comparing the
    texts compares the times. *)
Definition ts (t : Z) : Z := t / Second * Second.

(** A statement is executed; it is not; or it is, and the answer is lost. *)
Inductive fate := Executed | NotExecuted | AnswerLost.

(** A statement against a table, under its fate. *)
Definition execute {T E A} (lost : E) (f : fate) (stmt : T -> result E A * T) (t : T) : result E A * T :=
  match f with
  | Executed => stmt t
  | NotExecuted => (Err lost, t)
  | AnswerLost => (Err lost, snd (stmt t))
  end.

(** Whatever its fate, a statement leaves a table it could have left. *)
Lemma execute_keeps {T E A} (P : T -> Prop) (lost : E) (stmt : T -> result E A * T) f t :
  P t -> P (snd (stmt t)) -> P (snd (execute lost f stmt t)).
Proof. by destruct f. Qed.

Lemma ts_le t u : t <= u -> ts t <= ts u.
Proof. unfold ts, Second. lia_div. Qed.

Lemma ts_range t : t - Second < ts t <= t.
Proof. unfold ts, Second. lia_div. Qed.

(** ** Row ids *)

(** The rowid of an insertion: one more than the largest. *)
Definition next_id {A} (id : A -> Z) (t : list A) : Z := 1 + foldr (fun r m => Z.max (id r) m) 0 t.

Lemma next_id_fresh {A} (id : A -> Z) t r : r ∈ t -> id r < next_id id t.
Proof.
  unfold next_id. induction t as [|r' t IH]; [by intros ?%elem_of_nil|].
  intros [->|Hr]%elem_of_cons; cbn; [lia|]. specialize (IH Hr). lia.
Qed.

Lemma next_id_unique {A} (id : A -> Z) t r : NoDup (id <$> t) -> id r = next_id id t -> NoDup (id <$> t ++ [r]).
Proof.
  intros Hnd Hid. rewrite fmap_app. apply NoDup_app. split_and!; [done| |apply NoDup_singleton].
  intros x (k & -> & Hk)%list_elem_of_fmap Hx%list_elem_of_singleton.
  pose proof (next_id_fresh id t k Hk). lia.
Qed.
