(* ===== verification/Object.v ===== *)
(** * Object keys and the ObjectStore contract

    [fleet/gateway/object.go]: the storage boundary of the gateway.  Every
    object key a device sends passes through [NormalizeKey], and every backend
    runs [checkKey] on its own. *)

From S2P Require Import Prelude GoStrings GoText.
From Stdlib Require Import Ascii.
Open Scope go_scope.

Definition MaxKeyLen : Z := 1024.
Definition tmpDir : string := ".tmp".

(** [ObjectInfo]: what HEAD and LIST return. *)
Record ObjectInfo := mkObjectInfo {
  Key : string;
  Size : Z;
  ETag : string;
  LastModified : Z
}.

(** The sentinel errors of the store, and [ErrOther] for an error that wraps
    none of them (a context error, an I/O error). *)
Inductive StoreErr :=
| ErrExists | ErrNotFound | ErrRange | ErrBadKey | ErrTooLarge | ErrIncompleteBody
| ErrBadDigest
| ErrOther.

#[export] Instance StoreErr_eq_dec : EqDecision StoreErr.
Proof. solve_decision. Defined.

(** A rune no key may hold: a C0 or C1 control, DEL or a backslash. *)
Definition forbidden_rune (r : Z) : bool :=
  (r <? 0x20) || (r =? 0x7f) || between 0x80 0x9f r || (r =? 92).

Definition relative_segment (seg : string) : bool :=
  String.eqb seg "" || String.eqb seg "." || String.eqb seg "..".

Definition checkKey (key : string) : result StoreErr unit :=
  if String.eqb key "" then Err ErrBadKey
  else if MaxKeyLen <? len key then Err ErrBadKey
  else if HasPrefix key "/" then Err ErrBadKey
  else if negb (ValidString key) then Err ErrBadKey
  else if existsb forbidden_rune (runes key) then Err ErrBadKey
  else
    let '(device, name, found) := Cut key "/" in
    if negb found || Contains name "/" then Err ErrBadKey
    else if relative_segment device || relative_segment name then Err ErrBadKey
    else if String.eqb device tmpDir then Err ErrBadKey
    else Ok tt.

Definition NormalizeKey (key prefix : string) : result StoreErr string :=
  let! _ := checkKey key in
  if negb (String.eqb prefix "")
     && (negb (HasSuffix prefix "/") || String.eqb (TrimSuffix prefix "/") tmpDir)
  then Err ErrBadKey
  else if negb (HasPrefix key prefix) then Err ErrBadKey
  else Ok key.

(** ** What an accepted key looks like *)

(** A path segment that names a directory entry and nothing else. *)
Definition plain_segment (seg : string) : Prop :=
  seg <> "" /\ seg <> "." /\ seg <> ".." /\ Contains seg "/" = false.

(** A byte that can neither forge a log line nor separate a path. *)
Definition plain_byte (b : Z) : Prop := 0x20 <= b /\ b <> 0x7f /\ b <> 92.

Record good_key (key : string) : Prop := {
  gk_len : len key <= MaxKeyLen;
  gk_utf8 : ValidString key = true;
  gk_runes : Forall (fun r => forbidden_rune r = false) (runes key);
  gk_shape : exists device name,
    key = device +:+ "/" +:+ name /\ plain_segment device /\ plain_segment name
    /\ device <> tmpDir
}.

Lemma relative_segment_false seg :
  relative_segment seg = false <-> seg <> "" /\ seg <> "." /\ seg <> "..".
Proof.
  unfold relative_segment. rewrite !orb_false_iff, !String.eqb_neq. tauto.
Qed.

Lemma existsb_false {A} (f : A -> bool) l :
  existsb f l = false <-> Forall (fun x => f x = false) l.
Proof.
  induction l as [|x l IH]; simpl; [by split|].
  rewrite orb_false_iff, IH. by rewrite Forall_cons.
Qed.

(** The accepted keys, by shape. *)
Lemma checkKey_good key : checkKey key = Ok tt <-> good_key key.
Proof.
  unfold checkKey. split.
  - intros H. destruct (Cut key "/") as [[device name] found] eqn:C.
    split_ifs_in H; bool_to_prop. subst found.
    apply Cut_found in C as [-> Hd].
    split; [done|done|by apply existsb_false|].
    exists device, name. rewrite relative_segment_false in *. unfold plain_segment. tauto.
  - intros [Hl Hu Hr (d & n & -> & Hd & Hn & Ht)].
    destruct Hd as (Hd1 & Hd2 & Hd3 & Hd4), Hn as (Hn1 & Hn2 & Hn3 & Hn4).
    apply existsb_false in Hr. rewrite Hr, Hu.
    assert (Cut (d +:+ "/" +:+ n) "/" = (d, n, true)) as -> by (by apply Cut_found).
    destruct (String.eqb_spec (d +:+ "/" +:+ n) "") as [E|_]; [by destruct d|].
    destruct (Z.ltb_spec MaxKeyLen (len (d +:+ "/" +:+ n))); [lia|].
    replace (HasPrefix (d +:+ "/" +:+ n) "/") with false; cycle 1.
    { destruct d as [|c d]; [done|]. cbn [Contains] in Hd4. bool_to_prop.
      rewrite sapp_cons, HasPrefix_byte. symmetry. by apply Ascii.eqb_neq. }
    rewrite Hn4. rewrite !(proj2 (relative_segment_false _)) by done.
    apply String.eqb_neq in Ht as ->. done.
Qed.

(** [checkKey] accepts exactly the keys of the documented shape:
    "<device-id>/<blob-name>", valid UTF-8 of at most 1024 bytes, no control
    characters or backslashes, no empty or relative segment, not under ".tmp". *)
Theorem checkKey_spec key : checkKey key = Ok tt <-> good_key key.
Proof. apply checkKey_good. Qed.

(** An accepted key holds no byte that a log line, an XML document or a
    file system could read as anything but part of a name. *)
Theorem checkKey_plain_bytes key :
  checkKey key = Ok tt -> Forall plain_byte (bytes key).
Proof.
  intros H. apply checkKey_good in H as [_ _ Hr _].
  apply Forall_forall. intros b Hb. unfold plain_byte.
  destruct (decide (b < 0x80)) as [Hlt|]; [|lia].
  pose proof (ascii_byte_is_rune _ _ Hb Hlt) as Hin.
  rewrite Forall_forall in Hr. specialize (Hr b Hin).
  unfold forbidden_rune, between in Hr. bool_to_prop. lia.
Qed.

(** ** Prefix confinement *)

Lemma NormalizeKey_Ok key prefix k :
  NormalizeKey key prefix = Ok k ->
  k = key /\ checkKey key = Ok tt /\ HasPrefix key prefix = true
  /\ (prefix = "" \/ HasSuffix prefix "/" = true).
Proof.
  unfold NormalizeKey. intros H. destruct (checkKey key) as [[]|] eqn:C; [|done].
  split_ifs_in H; bool_to_prop. destruct Heqb as [?|?]; bool_to_prop; auto.
Qed.

Lemma NormalizeKey_Err key prefix e : NormalizeKey key prefix = Err e -> e = ErrBadKey.
Proof.
  unfold NormalizeKey, checkKey. intros H. destruct (Cut key "/") as [[d n] f].
  by split_ifs_in H.
Qed.

(** A good key splits in one way only. *)
Lemma slash_split d1 n1 d2 n2 :
  d1 +:+ "/" +:+ n1 = d2 +:+ "/" +:+ n2 ->
  Contains d1 "/" = false -> Contains d2 "/" = false -> d1 = d2 /\ n1 = n2.
Proof.
  intros E H1 H2.
  assert (Cut (d1 +:+ "/" +:+ n1) "/" = (d1, n1, true)) as C1 by (by apply Cut_found).
  assert (Cut (d1 +:+ "/" +:+ n1) "/" = (d2, n2, true)) as C2 by (by apply Cut_found).
  rewrite C1 in C2. by simplify_eq.
Qed.

(** A normalized key is under its prefix. *)
Lemma NormalizeKey_shape key agent k :
  NormalizeKey key (agent +:+ "/") = Ok k ->
  k = key
  /\ exists name, key = agent +:+ "/" +:+ name /\ plain_segment agent /\ plain_segment name
                  /\ agent <> tmpDir.
Proof.
  intros H. apply NormalizeKey_Ok in H as (-> & Hc & Hp & _).
  split; [done|]. apply checkKey_good in Hc as [_ _ _ (d & n & -> & Hd & Hn & Ht)].
  apply HasPrefix_spec in Hp as [t Ht']. rewrite sapp_assoc in Ht'.
  assert (Contains agent "/" = false) as Ha.
  { destruct (Contains agent "/") eqn:C; [|done]. exfalso.
    destruct (Cut agent "/") as [[a1 a2] []] eqn:Ca.
    - apply Cut_found in Ca as [-> Ha1]. rewrite sapp_assoc, sapp_cons in Ht'.
      change (String "/" (a2 +:+ "/" +:+ t)) with ("/" +:+ (a2 +:+ "/" +:+ t)) in Ht'.
      apply slash_split in Ht' as [-> ->]; [|apply Hd|done].
      destruct Hn as (_ & _ & _ & Hn). rewrite Contains_app in Hn. cbn in Hn.
      by rewrite orb_true_r in Hn.
    - apply Cut_false in Ca as [Ca _]. congruence. }
  apply slash_split in Ht' as [-> ->]; [eauto|apply Hd|done].
Qed.

(** Confinement.  A key accepted under an agent's prefix "<agent>/" is
    returned unchanged and is "<agent>/<name>" for a single plain file name:
    nothing a device sends can name an object outside its own directory. *)
Theorem NormalizeKey_confined key agent k :
  NormalizeKey key (agent +:+ "/") = Ok k ->
  k = key
  /\ exists name, key = agent +:+ "/" +:+ name /\ plain_segment agent /\ plain_segment name
                  /\ agent <> tmpDir.
Proof. apply NormalizeKey_shape. Qed.

(** Isolation.  No key is accepted for two different agents. *)
Theorem NormalizeKey_isolated key a b :
  NormalizeKey key (a +:+ "/") = Ok key -> a <> b ->
  NormalizeKey key (b +:+ "/") = Err ErrBadKey.
Proof.
  intros Ha Hne. destruct (NormalizeKey key (b +:+ "/")) as [k|e] eqn:Hb.
  - exfalso. apply NormalizeKey_shape in Ha as (_ & n1 & E1 & Hp1 & _).
    apply NormalizeKey_shape in Hb as (_ & n2 & E2 & Hp2 & _).
    rewrite E1 in E2. apply slash_split in E2 as [? _]; [done|apply Hp1|apply Hp2].
  - by apply NormalizeKey_Err in Hb as ->.
Qed.

Lemma NormalizeKey_confined_witness :
  NormalizeKey "dev1/p0123" ("dev1" +:+ "/") = Ok "dev1/p0123"
  /\ exists name, "dev1/p0123" = "dev1" +:+ "/" +:+ name.
Proof.
  split; [by vm_compute|].
  destruct (NormalizeKey_confined "dev1/p0123" "dev1" "dev1/p0123") as (_ & n & Hn & _);
    [by vm_compute|eauto].
Defined.

Lemma NormalizeKey_isolated_witness : NormalizeKey "dev1/p0123" ("dev2" +:+ "/") = Err ErrBadKey.
Proof. apply (NormalizeKey_isolated "dev1/p0123" "dev1" "dev2"); [by vm_compute|done]. Defined.

Lemma checkKey_plain_bytes_witness : Forall plain_byte (bytes "dev1/p0123").
Proof. apply (checkKey_plain_bytes "dev1/p0123"). by vm_compute. Defined.

Example checkKey_ex :
  checkKey "dev1/kopia.repository" = Ok tt /\ checkKey "dev1/../x" = Err ErrBadKey
  /\ checkKey "/dev1/x" = Err ErrBadKey /\ checkKey ".tmp/x" = Err ErrBadKey
  /\ checkKey "dev1" = Err ErrBadKey /\ checkKey "dev1/.." = Err ErrBadKey
  /\ NormalizeKey "dev10/x" "dev1" = Err ErrBadKey.
Proof. by vm_compute. Qed.
