(* ===== verification/ObjectStore.v ===== *)
(** * The ObjectStore interface

    The Go interface [gateway.ObjectStore] (object.go) as a type class of
    operations on a store state, and the contract its comments document as a
    class of laws.  The gateway's theorems are proved against this interface;
    [Local] discharges it for the disk backend. *)

From S2P Require Import Prelude GoStrings GoText Digest Object.

(** ** Request bodies

    An [io.Reader] the store streams from: the bytes it delivers, how it ends
    ([None] is EOF, [Some e] a read error) and whether the last bytes and the
    end arrive in one [Read].  [b_md5] is the digest a [md5Check] wrapper
    verifies when the reader reaches EOF. *)
Record body := mkBody {
  b_data : string;
  b_fail : option StoreErr;
  b_eager : bool;
  b_md5 : option (list Z)
}.

(** How a bounded copy out of a reader ends. *)
Inductive rend := REof | RFail (e : StoreErr) | RMore.

(** The digest test of [md5Check.Read]: it runs once, at EOF. *)
Definition at_end (b : body) : rend * bool :=
  match b_fail b with
  | Some e => (RFail e, false)
  | None =>
      match b_md5 b with
      | None => (REof, false)
      | Some want =>
          (if bool_decide (md5 (bytes (b_data b)) = want) then REof else RFail ErrBadDigest, true)
      end
  end.

(** [io.Copy] from [io.LimitReader(b, n)]: the bytes copied, how the copy
    ended and whether the [md5Check] ran.  The end of the reader is seen when
    it has fewer than [n] bytes, or exactly [n] and reports the end with them. *)
Definition pull (n : Z) (b : body) : string * rend * bool :=
  if (len (b_data b) <? n) || ((len (b_data b) =? n) && b_eager b)
  then let '(e, v) := at_end b in (b_data b, e, v)
  else (stake (Z.to_nat n) (b_data b), RMore, false).

Lemma pull_eof n b d v :
  pull n b = (d, REof, v) ->
  d = b_data b /\ b_fail b = None
  /\ (forall want, b_md5 b = Some want -> v = true /\ md5 (bytes d) = want).
Proof.
  unfold pull, at_end. intros H.
  destruct (_ || _); [|done]. destruct (b_fail b); [done|].
  destruct (b_md5 b) as [want|]; [|by simplify_eq].
  case_bool_decide; simplify_eq. split_and!; [done..|]. by intros ? [= <-].
Qed.

Lemma len_stake n s : Z.of_nat n <= len s -> len (stake n s) = Z.of_nat n.
Proof.
  unfold len. revert s. induction n as [|n IH]; intros [|c s]; simpl; try lia.
  intros H. specialize (IH s). lia.
Qed.

(** A copy that stopped at its limit delivered exactly the limit. *)
Lemma pull_more n b d v : pull n b = (d, RMore, v) -> len d = Z.max 0 n.
Proof.
  unfold pull, at_end. intros H.
  destruct (_ || _) eqn:E; [by repeat case_match; simplify_eq|]. simplify_eq.
  bool_to_prop. pose proof (len_nonneg (b_data b)). rewrite len_stake; lia.
Qed.

(** ** Operations *)

Class ObjectStore (S E : Type) := {
  (** [Put(ctx, key, r, size, overwrite)]; the extra boolean is whether the
      [md5Check] around the body ran. *)
  Put : E -> string -> body -> Z -> bool -> S -> result StoreErr ObjectInfo * bool * S;
  GetObject : E -> string -> Z -> Z -> S -> result StoreErr (string * ObjectInfo);
  Head : E -> string -> S -> result StoreErr ObjectInfo;
  (** [List(ctx, prefix, after, max)]: a page and whether it is truncated. *)
  List : E -> string -> string -> Z -> S -> result StoreErr (list ObjectInfo * bool);
  Delete : E -> string -> S -> result StoreErr unit * S;
  (** The objects the store holds: the bytes under each key. *)
  view : S -> gmap string string
}.

(** The range [offset, offset+length) of an object, with [length < 0] to the
    end and a length past the end clamped. *)
Definition range_of (d : string) (offset length : Z) : string :=
  let n := if (length <? 0) || (len d - offset <? length) then len d - offset else length in
  stake (Z.to_nat n) (sdrop (Z.to_nat offset) d).

(** [m'] differs from [m] at most at the key [k]. *)
Definition frame (k : string) (m m' : gmap string string) : Prop :=
  forall k', k' <> k -> m' !! k' = m !! k'.

(** ** The contract of object.go *)

Class ObjectStoreLaws (S E : Type) `{ObjectStore S E} : Prop := {
  (** A Put touches its own key only. *)
  put_frame e k b size ow s r v s' :
    Put e k b size ow s = (r, v, s') -> frame k (view s) (view s');
  (** Without overwrite an existing object is never changed, whatever the
      outcome. *)
  put_append_only e k b size s r v s' d :
    Put e k b size false s = (r, v, s') -> view s !! k = Some d -> view s' !! k = Some d;
  (** ... and the Put fails. *)
  put_exists e k b size s r v s' d :
    Put e k b size false s = (r, v, s') -> view s !! k = Some d -> is_ok r = false;
  (** A successful Put stored the whole body under a good key, of exactly the
      declared size, and read it to EOF, so a [md5Check] around it ran and
      the digest matched. *)
  put_stored e k b size ow s info v s' :
    Put e k b size ow s = (Ok info, v, s') ->
    checkKey k = Ok tt /\ view s' !! k = Some (b_data b) /\ Key info = k
    /\ (0 <= size -> len (b_data b) = size)
    /\ (forall want, b_md5 b = Some want -> v = true /\ md5 (bytes (b_data b)) = want);
  (** A Put that stores anything under a key that was free stores the body,
      whole and verified, even when it then reports an error. *)
  put_whole e k b size s r v s' d :
    Put e k b size false s = (r, v, s') -> view s !! k = None -> view s' !! k = Some d ->
    d = b_data b /\ (forall want, b_md5 b = Some want -> md5 (bytes d) = want);
  get_range e k offset length s d info :
    GetObject e k offset length s = Ok (d, info) ->
    exists full, view s !! k = Some full /\ Key info = k /\ Size info = len full
                 /\ 0 <= offset <= len full /\ d = range_of full offset length;
  head_size e k s info :
    Head e k s = Ok info -> exists d, view s !! k = Some d /\ Key info = k /\ Size info = len d;
  (** A page lists stored objects under the prefix and past [after]. *)
  list_sound e prefix after max s objs more o :
    List e prefix after max s = Ok (objs, more) -> o ∈ objs ->
    HasPrefix (Key o) prefix = true /\ slt after (Key o) = true
    /\ exists d, view s !! Key o = Some d /\ Size o = len d;
  delete_frame e k s r s' :
    Delete e k s = (r, s') -> frame k (view s) (view s');
  delete_ok e k s s' :
    Delete e k s = (Ok tt, s') -> is_Some (view s !! k) /\ view s' = delete k (view s);
  (** A failed Delete may have removed its object (a lost answer), and nothing
      else. *)
  delete_err e k s err s' :
    Delete e k s = (Err err, s') ->
    view s' = view s \/ is_Some (view s !! k) /\ view s' = delete k (view s)
}.
