(* ===== verification/Local.v ===== *)
(** * The disk backend

    [fleet/gateway/local.go]: one file per object under
    <root>/<device-id>/<blob-name>, partial writes under <root>/.tmp.  The
    file system is explicit state; what the kernel may refuse is an
    environment, so every error path of the code is a value of the model. *)

From S2P Require Import Prelude GoStrings GoText Digest GoTime Object ObjectStore.
From Stdlib Require Import Ascii.
Open Scope go_scope.

(** ** The file system under the root *)

(** A directory entry: a regular file with its bytes, modification time and
    ETag extended attribute, or something that is not an object (a directory,
    when [isdir], a symlink or a device node otherwise). *)
Inductive node :=
| File (data : string) (mtime : Z) (xattr : option string)
| NotRegular (isdir : bool) (mtime : Z).

Record fsys := mkFs {
  (** Entries one level below the root's directories, by path "<dir>/<name>". *)
  nodes : gmap string node;
  (** Directories of the root. *)
  dirs : gset string
}.

(** ** What one call meets *)

Inductive syscall :=
| SysCtx | SysCreate | SysWrite | SysSync | SysClose | SysXattr | SysMkdir | SysLink
| SysRename | SysStat | SysLstat | SysOpen | SysFstat | SysSeek | SysRead | SysReadDir
| SysRemove | SysRemoveTmp.

Inductive errno := ENAMETOOLONG | EIO.

Record env := mkEnv {
  e_now : Z;
  (** [rand.Text()] *)
  e_rand : string;
  (** A call the kernel refuses, and why. *)
  e_fault : syscall -> option errno;
  (** [DirEntry.Info] of a path: fails as "not exist" ([Some true]) or
      otherwise ([Some false]). *)
  e_info : string -> option bool
}.

Definition fails (e : env) (c : syscall) : bool :=
  match e_fault e c with Some _ => true | None => false end.

Record local := mkLocal { maxSize : Z; root : fsys }.

Definition with_root (l : local) (f : fsys) : local := mkLocal (maxSize l) f.

Definition DefaultMaxObjectSize : Z := Z.shiftl 64 20.
Definition maxKeys : Z := 1000.
Definition tempSweepAge : Z := Hour.

(** [mapKeyErr]: the kernel refusing the name itself is a bad key. *)
Definition mapKeyErr (e : errno) : StoreErr :=
  match e with ENAMETOOLONG => ErrBadKey | EIO => ErrOther end.

Definition dir_of (path : string) : string := fst (fst (Cut path "/")).

(** ** Writing *)

Definition set_node (path : string) (n : node) (f : fsys) : fsys :=
  mkFs (<[path := n]> (nodes f)) (dirs f).

Definition remove_node (path : string) (f : fsys) : fsys :=
  mkFs (delete path (nodes f)) (dirs f).

(** [os.Root.MkdirAll] of a one-component path. *)
Definition mkdir (d : string) (f : fsys) : fsys := mkFs (nodes f) ({[ d ]} ∪ dirs f).

Definition file_size (n : node) : Z := match n with File d _ _ => len d | _ => 0 end.
Definition file_mtime (n : node) : Z := match n with File _ t _ => t | NotRegular _ t => t end.

(** [createTemp]: O_EXCL under a random name. *)
Definition createTemp (e : env) (f : fsys) : result StoreErr (string * fsys) :=
  let name := tmpDir +:+ "/" +:+ e_rand e in
  match e_fault e SysCreate, nodes f !! name with
  | None, None => Ok (name, set_node name (File "" (e_now e) None) f)
  | _, _ => Err ErrOther
  end.

(** [writeTemp]: copy at most one byte past the limit, check the count, record
    the hash, sync, close.  Returns the ETag and the file as written, and
    whether the body's [md5Check] ran. *)
Definition writeTemp (e : env) (b : body) (size max : Z)
  : result StoreErr (string * node) * bool :=
  let limit := if (0 <=? size) && (size <? max) then size else max in
  let '(data, ended, verified) := pull (limit + 1) b in
  let n := len data in
  let etag := hex_encode (md5 (bytes data)) in
  let file := File data (e_now e) (if fails e SysXattr then None else Some etag) in
  let r :=
    match ended with
    | RFail err => Err err
    | _ =>
        if fails e SysWrite then Err ErrOther
        else if max <? n then Err ErrTooLarge
        else if (0 <=? size) && negb (n =? size) then Err ErrIncompleteBody
        else if fails e SysSync then Err ErrOther
        else if fails e SysClose then Err ErrOther
        else Ok (etag, file)
    end in
  (r, verified).

(** Publish the temporary file under [key]: rename(2) when overwriting,
    link(2), which refuses an existing name, when not. *)
Definition publish (e : env) (overwrite : bool) (tmp key : string) (file : node) (f : fsys)
  : result StoreErr fsys :=
  if overwrite then
    match nodes f !! key, e_fault e SysRename with
    | Some (NotRegular true _), _ => Err ErrOther
    | _, Some err => Err (mapKeyErr err)
    | _, None => Ok (remove_node tmp (set_node key file f))
    end
  else
    match nodes f !! key, e_fault e SysLink with
    | Some _, _ => Err ErrExists
    | None, Some err => Err (mapKeyErr err)
    | None, None => Ok (set_node key file f)
    end.

(** The deferred [Remove(tmp)], best effort. *)
Definition remove_tmp (e : env) (tmp : string) (f : fsys) : fsys :=
  if fails e SysRemoveTmp then f else remove_node tmp f.

Definition local_Put (e : env) (key : string) (b : body) (size : Z) (overwrite : bool) (l : local)
  : result StoreErr ObjectInfo * bool * local :=
  if fails e SysCtx then (Err ErrOther, false, l)
  else match checkKey key with
  | Err err => (Err err, false, l)
  | Ok _ =>
      if maxSize l <? size then (Err ErrTooLarge, false, l)
      else match createTemp e (root l) with
      | Err err => (Err err, false, l)
      | Ok (tmp, f) =>
          let done r v f := (r, v, with_root l (remove_tmp e tmp f)) in
          match writeTemp e b size (maxSize l) with
          | (Err err, v) => done (Err err) v f
          | (Ok (etag, file), v) =>
              let f := set_node tmp file f in
              match e_fault e SysMkdir with
              | Some err => done (Err (mapKeyErr err)) v f
              | None =>
                  let f := mkdir (dir_of key) f in
                  match publish e overwrite tmp key file f with
                  | Err err => done (Err err) v f
                  | Ok f =>
                      if fails e SysStat then done (Err ErrOther) v f
                      else done (Ok (mkObjectInfo key (file_size file) etag (file_mtime file))) v f
                  end
              end
          end
      end
  end.

(** ** Reading *)

(** [lstatObject]: only a regular file is an object. *)
Definition lstatObject (e : env) (key : string) (f : fsys) : result StoreErr node :=
  match e_fault e SysLstat with
  | Some ENAMETOOLONG => Err ErrBadKey
  | Some EIO => Err ErrNotFound
  | None =>
      match nodes f !! key with
      | Some (File d t x) => Ok (File d t x)
      | _ => Err ErrNotFound
      end
  end.

(** [open]: validate, lstat, open, re-check the open file. *)
Definition open (e : env) (key : string) (f : fsys) : result StoreErr node :=
  let! _ := checkKey key in
  let! n := lstatObject e key f in
  if fails e SysOpen || fails e SysFstat then Err ErrNotFound else Ok n.

Definition file_data (n : node) : string := match n with File d _ _ => d | _ => "" end.

Definition local_Get (e : env) (key : string) (offset length : Z) (l : local)
  : result StoreErr (string * ObjectInfo) :=
  if fails e SysCtx then Err ErrOther else
  let! n := open e key (root l) in
  let size := file_size n in
  if (offset <? 0) || ((0 <? offset) && (size <=? offset)) then Err ErrRange
  else
    let length := if (length <? 0) || (size - offset <? length) then size - offset else length in
    if (0 <? offset) && fails e SysSeek then Err ErrOther
    else Ok (stake (Z.to_nat length) (sdrop (Z.to_nat offset) (file_data n)),
             mkObjectInfo key size "" (file_mtime n)).

Definition isMD5Hex (s : string) : bool :=
  (len s =? 32) && match hex_decode s with Some _ => true | None => false end.

Definition local_Head (e : env) (key : string) (l : local) : result StoreErr ObjectInfo :=
  if fails e SysCtx then Err ErrOther else
  let! n := open e key (root l) in
  let hashed := hex_encode (md5 (bytes (file_data n))) in
  let info etag := mkObjectInfo key (file_size n) etag (file_mtime n) in
  match n with
  | File _ _ (Some etag) =>
      if isMD5Hex etag then Ok (info etag)
      else if fails e SysRead then Err ErrOther else Ok (info hashed)
  | _ => if fails e SysRead then Err ErrOther else Ok (info hashed)
  end.

(** ** Listing *)

(** [fs.ReadDir] of a directory of the root: its entries sorted by name.
    [None] is "not exist". *)
Definition dir_names (d : string) (f : fsys) : list string :=
  sort_strings (omap (fun path =>
    match Cut path "/" with
    | (d', name, true) => if String.eqb d' d then Some name else None
    | _ => None
    end) (elements (dom (nodes f)))).

Definition ReadDir (d : string) (f : fsys) : option (list (string * node)) :=
  if bool_decide (d ∈ dirs f)
  then Some (omap (fun name => pair name <$> nodes f !! (d +:+ "/" +:+ name)) (dir_names d f))
  else None.

Definition is_regular (n : node) : bool := match n with File _ _ _ => true | _ => false end.

(** [fs.ReadDir] of the root itself, directories only.  The name of a directory
    entry holds no slash. *)
Definition root_dirs (f : fsys) : list string :=
  filter (fun d => Contains d "/" = false) (sort_strings (elements (dirs f))).

(** [listDirs]: the device directories a prefix selects, and the blob-name
    prefix within them. *)
Definition listDirs (e : env) (prefix : string) (f : fsys) : result StoreErr (list string * string) :=
  let '(device, blob, found) := Cut prefix "/" in
  if found then
    if String.eqb device "" || String.eqb device "." || String.eqb device ".."
       || String.eqb device tmpDir || Contains device (chr 92)
    then Err ErrBadKey
    else Ok ([device], blob)
  else if fails e SysReadDir then Err ErrOther
  else Ok (filter (fun d => d <> tmpDir /\ HasPrefix d prefix = true) (root_dirs f), "").

(** The inner loop of [List]: [acc] holds the page so far, newest first, and
    the result says whether the page overflowed. *)
Fixpoint list_entries (e : env) (d name after : string) (max : nat)
    (ents : list (string * node)) (acc : list ObjectInfo)
  : result StoreErr (list ObjectInfo * bool) :=
  match ents with
  | [] => Ok (acc, false)
  | (en, n) :: rest =>
      let key := d +:+ "/" +:+ en in
      if negb (is_regular n) || negb (HasPrefix en name) || sle key after
      then list_entries e d name after max rest acc
      else match e_info e key with
      | Some true => list_entries e d name after max rest acc
      | Some false => Err ErrOther
      | None =>
          let acc := mkObjectInfo key (file_size n) "" (file_mtime n) :: acc in
          if (max <? length acc)%nat then Ok (tail acc, true)
          else list_entries e d name after max rest acc
      end
  end.

(** The outer loop, over the device directories. *)
Fixpoint list_dirs_loop (e : env) (ds : list string) (name after : string) (max : nat)
    (f : fsys) (acc : list ObjectInfo) : result StoreErr (list ObjectInfo * bool) :=
  match ds with
  | [] => Ok (acc, false)
  | d :: rest =>
      if fails e SysReadDir || negb (ValidString d) then Err ErrOther
      else match ReadDir d f with
      | None => list_dirs_loop e rest name after max f acc
      | Some ents =>
          match list_entries e d name after max ents acc with
          | Err err => Err err
          | Ok (acc, true) => Ok (acc, true)
          | Ok (acc, false) => list_dirs_loop e rest name after max f acc
          end
      end
  end.

Definition local_List (e : env) (prefix after : string) (max : Z) (l : local)
  : result StoreErr (list ObjectInfo * bool) :=
  if fails e SysCtx then Err ErrOther else
  let max := if (max <=? 0) || (maxKeys <? max) then maxKeys else max in
  let! (ds, name) := listDirs e prefix (root l) in
  let! (acc, more) := list_dirs_loop e ds name after (Z.to_nat max) (root l) [] in
  Ok (rev acc, more).

(** ** Deleting, opening *)

Definition local_Delete (e : env) (key : string) (l : local) : result StoreErr unit * local :=
  if fails e SysCtx then (Err ErrOther, l)
  else match checkKey key with
  | Err err => (Err err, l)
  | Ok _ =>
      match lstatObject e key (root l) with
      | Err err => (Err err, l)
      | Ok _ =>
          if fails e SysRemove then (Err ErrOther, l)
          else (Ok tt, with_root l (remove_node key (root l)))
      end
  end.

(** [sweepTemp] drops the partial writes older than [tempSweepAge]. *)
Definition sweepTemp (e : env) (f : fsys) : fsys :=
  let cutoff := e_now e - tempSweepAge in
  let stale path n :=
    String.eqb (dir_of path) tmpDir && negb (After (file_mtime n) cutoff) in
  if fails e SysReadDir then f
  else if fails e SysRemoveTmp then f
  else mkFs (filter (fun '(path, n) => stale path n = false) (nodes f)) (dirs f).

(** [NewLocal] on a root that could be created and opened. *)
Definition NewLocal (e : env) (maxObjectSize : Z) (f : fsys) : local :=
  mkLocal (if maxObjectSize <=? 0 then DefaultMaxObjectSize else maxObjectSize)
          (sweepTemp e (mkdir tmpDir f)).

(** ** The objects of the store: every regular file outside ".tmp" *)

Definition object_of (path : string) (n : node) : option string :=
  match n with
  | File d _ _ => if String.eqb (dir_of path) tmpDir then None else Some d
  | NotRegular _ _ => None
  end.

Definition local_view (l : local) : gmap string string := map_imap object_of (nodes (root l)).

#[export] Instance local_store : ObjectStore local env := {|
  Put := local_Put;
  GetObject := local_Get;
  Head := local_Head;
  List := local_List;
  Delete := local_Delete;
  view := local_view
|}.

Lemma lookup_view l k : local_view l !! k = n ← nodes (root l) !! k; object_of k n.
Proof. unfold local_view. by rewrite map_lookup_imap. Qed.

Lemma dir_of_tmp x : dir_of (tmpDir +:+ "/" +:+ x) = tmpDir.
Proof.
  unfold dir_of.
  assert (Cut (tmpDir +:+ "/" +:+ x) "/" = (tmpDir, x, true)) as -> by (by apply Cut_found).
  done.
Qed.

Lemma object_of_tmp x n : object_of (tmpDir +:+ "/" +:+ x) n = None.
Proof. destruct n; [|done]. cbn. by rewrite dir_of_tmp. Qed.

Lemma good_key_dir k : checkKey k = Ok tt -> dir_of k <> tmpDir.
Proof.
  intros H. apply checkKey_good in H as [_ _ _ (d & n & -> & Hd & _ & Ht)].
  unfold dir_of. assert (Cut (d +:+ "/" +:+ n) "/" = (d, n, true)) as ->; [|done].
  apply Cut_found. split; [done|apply Hd].
Qed.

Lemma object_of_good k d t x : checkKey k = Ok tt -> object_of k (File d t x) = Some d.
Proof. intros H. cbn. by apply good_key_dir, String.eqb_neq in H as ->. Qed.

Ltac fs_simpl := cbn [with_root root maxSize nodes dirs set_node remove_node mkdir mbind option_bind].

(** Entries under ".tmp" are not objects: the view does not see them. *)
Lemma view_tmp l f x n :
  local_view (with_root l (set_node (tmpDir +:+ "/" +:+ x) n f)) = local_view (with_root l f).
Proof.
  apply map_eq. intros k. rewrite !lookup_view. fs_simpl. rewrite lookup_insert.
  case_decide as E; [subst k|done]. fs_simpl. rewrite object_of_tmp.
  destruct (nodes f !! _); fs_simpl; [by rewrite object_of_tmp|done].
Qed.

Lemma view_remove_tmp l f x :
  local_view (with_root l (remove_node (tmpDir +:+ "/" +:+ x) f)) = local_view (with_root l f).
Proof.
  apply map_eq. intros k. rewrite !lookup_view. fs_simpl. rewrite lookup_delete.
  case_decide as E; [subst k|done]. fs_simpl.
  destruct (nodes f !! _); fs_simpl; [by rewrite object_of_tmp|done].
Qed.

Lemma view_remove_tmp' e l f x :
  local_view (with_root l (remove_tmp e (tmpDir +:+ "/" +:+ x) f)) = local_view (with_root l f).
Proof. unfold remove_tmp. destruct (fails _ _); [done|apply view_remove_tmp]. Qed.

Lemma view_mkdir l d f : local_view (with_root l (mkdir d f)) = local_view (with_root l f).
Proof. done. Qed.

Lemma view_set_good l f k d t x :
  checkKey k = Ok tt ->
  local_view (with_root l (set_node k (File d t x) f)) = <[k := d]> (local_view (with_root l f)).
Proof.
  intros Hk. apply map_eq. intros k'. rewrite lookup_view. fs_simpl.
  rewrite !lookup_insert. case_decide as E; [subst k'|by rewrite lookup_view].
  fs_simpl. by apply object_of_good.
Qed.

Lemma view_remove l k f :
  local_view (with_root l (remove_node k f)) = delete k (local_view (with_root l f)).
Proof.
  apply map_eq. intros k'. rewrite lookup_view. fs_simpl. rewrite !lookup_delete.
  case_decide; [done|]. by rewrite lookup_view.
Qed.

Lemma with_root_id l : with_root l (root l) = l.
Proof. by destruct l. Qed.

(** ** The contract of Put *)

Lemma writeTemp_ok e b size max etag file v :
  writeTemp e b size max = (Ok (etag, file), v) ->
  (exists t x, file = File (b_data b) t x /\ (x = None \/ x = Some etag))
  /\ etag = hex_encode (md5 (bytes (b_data b)))
  /\ (0 <= size -> len (b_data b) = size)
  /\ (forall want, b_md5 b = Some want -> v = true /\ md5 (bytes (b_data b)) = want).
Proof.
  unfold writeTemp. destruct (pull _ b) as [[d ended] v'] eqn:P. intros H.
  destruct ended as [|err|]; [|done|].
  - apply pull_eof in P as (-> & _ & Hmd5). split_ifs_in H; bool_to_prop.
    split_and!; [|done| |done].
    + do 2 eexists. split; [done|]. destruct (fails e SysXattr); auto.
    + intros Hs. destruct_or?; bool_to_prop; lia.
  - exfalso. apply pull_more in P.
    destruct ((0 <=? size) && (size <? max)) eqn:?;
      split_ifs_in H; bool_to_prop; destruct_or?; bool_to_prop; lia.
Qed.

(** Every outcome of a Put: nothing stored and an error, or the whole body
    under a good key that was free unless overwriting. *)
Lemma local_Put_cases e k b size ow l r v l' :
  local_Put e k b size ow l = (r, v, l') ->
  (local_view l' = local_view l /\ is_ok r = false)
  \/ (checkKey k = Ok tt
      /\ local_view l' = <[k := b_data b]> (local_view l)
      /\ (ow = false -> local_view l !! k = None)
      /\ (0 <= size -> len (b_data b) = size)
      /\ (forall want, b_md5 b = Some want -> v = true /\ md5 (bytes (b_data b)) = want)
      /\ forall info, r = Ok info -> Key info = k).
Proof.
  unfold local_Put. intros H.
  destruct (fails e SysCtx); [simplify_eq; by left|].
  destruct (checkKey k) as [[]|err] eqn:Hk; [|simplify_eq; by left].
  destruct (maxSize l <? size); [simplify_eq; by left|].
  unfold createTemp in H.
  destruct (e_fault e SysCreate); [simplify_eq; by left|].
  destruct (nodes (root l) !! _) eqn:Hfree; [simplify_eq; by left|].
  destruct (writeTemp e b size (maxSize l)) as [[[etag file]|err] v'] eqn:W; cycle 1.
  { simplify_eq. left. rewrite view_remove_tmp', view_tmp, with_root_id. done. }
  apply writeTemp_ok in W as ((t & x & -> & _) & _ & Hsize & Hmd5).
  destruct (e_fault e SysMkdir) as [err|].
  { simplify_eq. left. rewrite view_remove_tmp', !view_tmp, with_root_id. done. }
  destruct (publish _ _ _ _ _ _) as [f|err] eqn:P; cycle 1.
  { simplify_eq. left. rewrite view_remove_tmp', view_mkdir, !view_tmp, with_root_id. done. }
  right. assert (v = v' /\ local_view l' = local_view (with_root l f)
                 /\ forall info, r = Ok info -> Key info = k) as (-> & -> & Hr).
  { destruct (fails e SysStat); simplify_eq; rewrite view_remove_tmp';
      (split_and!; [done|done|by intros ? [= <-]]). }
  split; [done|]. unfold publish in P.
  assert (k <> tmpDir +:+ "/" +:+ e_rand e) as Hne.
  { intros ->. apply good_key_dir in Hk. by rewrite dir_of_tmp in Hk. }
  destruct ow.
  - split_and!; [|done..]. clear Hmd5 Hr.
    destruct (nodes _ !! k) as [[|[]]|], (e_fault e SysRename); simplify_eq;
      rewrite view_remove_tmp, view_set_good, view_mkdir, !view_tmp, with_root_id; done.
  - destruct (nodes _ !! k) eqn:Hn, (e_fault e SysLink); simplify_eq.
    rewrite view_set_good, view_mkdir, !view_tmp, with_root_id by done.
    split_and!; [done| |done..]. intros _. rewrite lookup_view.
    revert Hn. cbn [nodes mkdir set_node]. rewrite !lookup_insert_ne by done. by intros ->.
Qed.

(** ** The contract of the other operations *)

Lemma open_ok e k f n :
  open e k f = Ok n -> checkKey k = Ok tt /\ exists d t x, n = File d t x /\ nodes f !! k = Some n.
Proof.
  unfold open, lstatObject. intros H.
  destruct (checkKey k) as [[]|]; [|done]. split; [done|].
  destruct (e_fault e SysLstat) as [[]|]; [done..|].
  destruct (nodes f !! k) as [[d t x|]|]; [|done..].
  destruct (_ || _); [done|]. injection H as <-. eauto 6.
Qed.

Lemma open_view e k l n :
  open e k (root l) = Ok n -> exists d t x, n = File d t x /\ local_view l !! k = Some d.
Proof.
  intros H. apply open_ok in H as (Hk & d & t & x & -> & Hn). exists d, t, x.
  split; [done|]. rewrite lookup_view, Hn. by apply object_of_good.
Qed.

Lemma local_Get_ok e k offset length l d info :
  local_Get e k offset length l = Ok (d, info) ->
  exists full, local_view l !! k = Some full /\ Key info = k /\ Size info = len full
               /\ 0 <= offset <= len full /\ d = range_of full offset length.
Proof.
  unfold local_Get. intros H. destruct (fails e SysCtx); [done|].
  destruct (open e k (root l)) as [n|] eqn:O; [|done].
  apply open_view in O as (full & t & x & -> & Hv). cbn [file_size file_data file_mtime] in H.
  destruct (_ || _) eqn:R in H; [done|]. destruct (_ && _) in H; [done|].
  injection H as <- <-. bool_to_prop. pose proof (len_nonneg full).
  exists full. split_and!; try done; destruct_or?; bool_to_prop; lia.
Qed.

Lemma local_Head_ok e k l info :
  local_Head e k l = Ok info ->
  exists d, local_view l !! k = Some d /\ Key info = k /\ Size info = len d.
Proof.
  unfold local_Head. intros H. destruct (fails e SysCtx); [done|].
  destruct (open e k (root l)) as [n|] eqn:O; [|done].
  apply open_view in O as (d & t & x & -> & Hv). exists d. split; [done|].
  destruct x; [destruct (isMD5Hex s)|]; [|destruct (fails e SysRead)..]; by simplify_eq.
Qed.

Lemma local_Delete_cases e k l r l' :
  local_Delete e k l = (r, l') ->
  (l' = l /\ is_ok r = false)
  \/ (r = Ok tt /\ is_Some (local_view l !! k) /\ local_view l' = delete k (local_view l)).
Proof.
  unfold local_Delete, lstatObject. intros H.
  destruct (fails e SysCtx); [simplify_eq; by left|].
  destruct (checkKey k) as [[]|err] eqn:Hk; [|simplify_eq; by left].
  destruct (e_fault e SysLstat) as [[]|]; [simplify_eq; by left..|].
  destruct (nodes (root l) !! k) as [[d t x|]|] eqn:Hn; [|simplify_eq; by left..].
  destruct (fails e SysRemove); [simplify_eq; by left|]. simplify_eq. right.
  split_and!; [done| |].
  - rewrite lookup_view, Hn. cbn [mbind option_bind]. rewrite object_of_good by done. eauto.
  - by rewrite view_remove, with_root_id.
Qed.

(** What a listed entry must satisfy. *)
Definition listed (l : local) (prefix after : string) (o : ObjectInfo) : Prop :=
  HasPrefix (Key o) prefix = true /\ slt after (Key o) = true
  /\ exists d, local_view l !! Key o = Some d /\ Size o = len d.

Lemma ReadDir_in d f ents en n :
  ReadDir d f = Some ents -> (en, n) ∈ ents -> nodes f !! (d +:+ "/" +:+ en) = Some n.
Proof.
  unfold ReadDir. case_bool_decide; [|done]. intros [= <-] Hin.
  apply list_elem_of_omap in Hin as (name & _ & Hname).
  destruct (nodes f !! _) eqn:E in Hname; by simplify_eq/=.
Qed.

(** Every entry the inner loop adds is listed; what was there before stays. *)
Lemma list_entries_sound e l d name prefix after max ents acc acc' more :
  d <> tmpDir -> Contains d "/" = false ->
  (forall en, HasPrefix en name = true -> HasPrefix (d +:+ "/" +:+ en) prefix = true) ->
  (forall en n, (en, n) ∈ ents -> nodes (root l) !! (d +:+ "/" +:+ en) = Some n) ->
  Forall (listed l prefix after) acc ->
  list_entries e d name after max ents acc = Ok (acc', more) ->
  Forall (listed l prefix after) acc'.
Proof.
  intros Hd Hslash Hpre. revert acc. induction ents as [|[en n] ents IH]; intros acc Hents Hacc;
    cbn [list_entries]; [by intros [= <- _]|].
  destruct (_ || _) eqn:C; [apply IH; [set_solver|done]|].
  destruct (e_info e _) as [[]|]; [apply IH; [set_solver|done]|done|].
  bool_to_prop.
  assert (listed l prefix after (mkObjectInfo (d +:+ "/" +:+ en) (file_size n) "" (file_mtime n)))
    as Ho.
  { unfold listed. cbn [Key Size]. split_and!; [by apply Hpre|by apply negb_false_iff|].
    rewrite lookup_view, (Hents en n) by (by left). destruct n as [data t x|]; [|done].
    exists data. split; [|done]. cbn [mbind option_bind object_of].
    unfold dir_of. assert (Cut (d +:+ "/" +:+ en) "/" = (d, en, true)) as ->.
    { by apply Cut_found. }
    cbn [fst]. by apply String.eqb_neq in Hd as ->. }
  destruct (_ <? _)%nat; [by intros [= <- _]|].
  apply IH; [set_solver|by constructor].
Qed.

(** A device directory a prefix selects, and why its entries match it. *)
Definition selected (prefix name d : string) : Prop :=
  d <> tmpDir /\ Contains d "/" = false
  /\ forall en, HasPrefix en name = true -> HasPrefix (d +:+ "/" +:+ en) prefix = true.

Lemma listDirs_selected e prefix f ds name :
  listDirs e prefix f = Ok (ds, name) -> Forall (selected prefix name) ds.
Proof.
  unfold listDirs, selected. destruct (Cut prefix "/") as [[device blob] found] eqn:C.
  intros H. destruct found.
  - destruct (_ || _) eqn:B in H; [done|]. simplify_eq. bool_to_prop.
    apply Cut_found in C as [-> Hd]. repeat constructor; [done..|].
    intros en Hen. apply HasPrefix_spec in Hen as [t ->].
    change (String "/" name) with ("/" +:+ name).
    rewrite <- !sapp_assoc. apply HasPrefix_app.
  - destruct (fails e SysReadDir); [done|]. simplify_eq. apply Forall_forall. intros d Hd.
    unfold root_dirs in Hd. rewrite !list_elem_of_filter in Hd.
    destruct Hd as ((Ht & Hp) & Hs & _). split_and!; [done..|]. intros en _.
    apply HasPrefix_spec in Hp as [t ->]. rewrite sapp_assoc. apply HasPrefix_app.
Qed.

Lemma list_dirs_loop_sound e l ds name prefix after max acc acc' more :
  Forall (selected prefix name) ds ->
  Forall (listed l prefix after) acc ->
  list_dirs_loop e ds name after max (root l) acc = Ok (acc', more) ->
  Forall (listed l prefix after) acc'.
Proof.
  intros Hds. revert acc. induction Hds as [|d ds (Ht & Hs & Hp) _ IH]; intros acc Hacc;
    cbn [list_dirs_loop]; [by intros [= <- _]|].
  destruct (_ || _); [done|]. destruct (ReadDir d (root l)) as [ents|] eqn:R; [|by apply IH].
  destruct (list_entries _ _ _ _ _ _ _) as [[acc1 more1]|] eqn:L; [|done].
  assert (Forall (listed l prefix after) acc1).
  { eapply list_entries_sound; [exact Ht|done..| |exact Hacc|exact L].
    intros. by eapply ReadDir_in. }
  destruct more1; [by intros [= <- _]|]. by apply IH.
Qed.

Lemma local_List_sound e prefix after max l objs more o :
  local_List e prefix after max l = Ok (objs, more) -> o ∈ objs -> listed l prefix after o.
Proof.
  unfold local_List. intros H Ho. destruct (fails e SysCtx); [done|].
  destruct (listDirs e prefix (root l)) as [[ds name]|] eqn:D; [|done].
  destruct (list_dirs_loop _ _ _ _ _ _ _) as [[acc m]|] eqn:L; [|done]. simplify_eq.
  apply listDirs_selected in D.
  eapply list_dirs_loop_sound in L; [|done|constructor].
  rewrite Forall_forall in L. apply L.
  apply list_elem_of_In, in_rev. by apply list_elem_of_In in Ho.
Qed.

(** ** The disk backend keeps the contract of object.go *)

#[export] Instance local_laws : ObjectStoreLaws local env.
Proof.
  split; cbn [Put GetObject Head List Delete view local_store].
  - intros e k b size ow s r v s' H k' Hne.
    apply local_Put_cases in H as [[-> _]|(_ & -> & _)]; [done|by rewrite lookup_insert_ne].
  - intros e k b size s r v s' d H Hd.
    apply local_Put_cases in H as [[-> _]|(_ & _ & Hn & _)]; [done|]. by rewrite Hn in Hd.
  - intros e k b size s r v s' d H Hd.
    apply local_Put_cases in H as [[_ ?]|(_ & _ & Hn & _)]; [done|]. by rewrite Hn in Hd.
  - intros e k b size ow s info v s' H.
    apply local_Put_cases in H as [[_ ?]|(Hk & -> & _ & Hs & Hm & Hi)]; [done|].
    rewrite lookup_insert_eq. eauto 6.
  - intros e k b size s r v s' d H Hn Hd.
    apply local_Put_cases in H as [[E _]|(_ & E & _ & _ & Hm & _)]; rewrite E in Hd;
      [congruence|]. rewrite lookup_insert_eq in Hd. simplify_eq. split; [done|]. intros w Hw. by apply Hm.
  - intros. by eapply local_Get_ok.
  - intros. by eapply local_Head_ok.
  - intros. by eapply local_List_sound.
  - intros e k s r s' H k' Hne.
    apply local_Delete_cases in H as [[-> _]|(_ & _ & ->)]; [done|by rewrite lookup_delete_ne].
  - intros e k s s' H. by apply local_Delete_cases in H as [[_ ?]|(_ & ? & ?)].
  - intros e k s err s' H. left. by apply local_Delete_cases in H as [[-> _]|(? & _)].
Qed.
