(* ===== verification/LocalFacts.v ===== *)
(** * What the disk backend guarantees

    Round trips, the append-only rule under every kernel failure, and the
    exactness of listing, for the model of [fleet/gateway/local.go]. *)

From S2P Require Import Prelude GoStrings GoText Digest GoTime Object ObjectStore Local.
From Stdlib Require Import Ascii Sorting.Sorted.
From Stdlib Require Import Ascii.

(** An environment in which the kernel refuses nothing. *)
Definition quiet (e : env) : Prop :=
  (forall c, e_fault e c = None) /\ (forall k, e_info e k = None).

Lemma quiet_fails e c : quiet e -> fails e c = false.
Proof. intros [H _]. unfold fails. by rewrite H. Qed.

Definition calm (now : Z) (rand : string) : env :=
  mkEnv now rand (fun _ => None) (fun _ => None).

(** A store with an object in it, for the examples. *)
Definition sample_body : body := mkBody "hello" None false None.
Definition empty_local : local := NewLocal (calm 0 "T") 0 (mkFs ∅ ∅).
Definition sample_local : local :=
  snd (local_Put (calm 7 "T1") "dev1/p01" sample_body 5 false empty_local).

(** ** Well-formedness is kept by every operation *)

Lemma set_node_dirs path n f :
  (forall p m, nodes f !! p = Some m -> dir_of p ∈ dirs f) -> dir_of path ∈ dirs f ->
  forall p m, nodes (set_node path n f) !! p = Some m -> dir_of p ∈ dirs (set_node path n f).
Proof.
  intros Hwf Hd p m. cbn. rewrite lookup_insert. case_decide; [by subst|]. apply Hwf.
Qed.

Lemma remove_node_dirs path f :
  (forall p m, nodes f !! p = Some m -> dir_of p ∈ dirs f) ->
  forall p m, nodes (remove_node path f) !! p = Some m -> dir_of p ∈ dirs (remove_node path f).
Proof. intros Hwf p m. cbn. rewrite lookup_delete. case_decide; [done|]. apply Hwf. Qed.

Definition fs_wf (f : fsys) : Prop :=
  tmpDir ∈ dirs f /\ forall p m, nodes f !! p = Some m -> dir_of p ∈ dirs f.

Lemma fs_wf_set path n f : fs_wf f -> dir_of path ∈ dirs f -> fs_wf (set_node path n f).
Proof. intros [Ht Hf] Hd. split; [done|by apply set_node_dirs]. Qed.

Lemma fs_wf_remove path f : fs_wf f -> fs_wf (remove_node path f).
Proof. intros [Ht Hf]. split; [done|by apply remove_node_dirs]. Qed.

Lemma fs_wf_mkdir d f : fs_wf f -> fs_wf (mkdir d f) /\ d ∈ dirs (mkdir d f).
Proof. intros [Ht Hf]. cbn. split; [|set_solver]. split; [set_solver|]. intros p m Hp.
  apply Hf in Hp. set_solver. Qed.

#[export] Hint Resolve fs_wf_set fs_wf_remove : warphold.

Lemma remove_tmp_wf e tmp f : fs_wf f -> fs_wf (remove_tmp e tmp f).
Proof. unfold remove_tmp. destruct (fails _ _); auto with warphold. Qed.

(** A store the operations can be run on. *)
Definition good_local (l : local) : Prop := 0 < maxSize l /\ fs_wf (root l).

Lemma publish_wf e ow tmp key file f f' :
  fs_wf f -> dir_of key ∈ dirs f -> publish e ow tmp key file f = Ok f' -> fs_wf f'.
Proof.
  unfold publish. intros Hf Hd H. destruct ow.
  - destruct (nodes f !! key) as [[|[]]|], (e_fault e SysRename); simplify_eq;
      auto with warphold.
  - destruct (nodes f !! key), (e_fault e SysLink); simplify_eq. auto with warphold.
Qed.

Lemma local_Put_good e k b size ow l :
  good_local l -> good_local (snd (local_Put e k b size ow l)).
Proof.
  intros [Hm Hf]. unfold local_Put.
  destruct (fails e SysCtx); [done|]. destruct (checkKey k); [|done].
  destruct (maxSize l <? size); [done|].
  destruct (createTemp e (root l)) as [[tmp f]|] eqn:C; [|done].
  assert (fs_wf f /\ dir_of tmp ∈ dirs f) as [Hwf Ht].
  { unfold createTemp in C. destruct (e_fault e SysCreate); [done|].
    destruct (nodes (root l) !! _); [done|]. injection C as <- <-.
    assert (dir_of (tmpDir +:+ "/" +:+ e_rand e) ∈ dirs (root l)).
    { rewrite dir_of_tmp. apply Hf. }
    split; [by apply fs_wf_set|done]. }
  destruct (writeTemp _ _ _ _) as [[[etag file]|err] v]; cycle 1.
  { split; [done|]. by apply remove_tmp_wf. }
  destruct (e_fault e SysMkdir).
  { split; [done|]. by apply remove_tmp_wf, fs_wf_set. }
  destruct (fs_wf_mkdir (dir_of k) (set_node tmp file f)) as [Hw Hin]; [by apply fs_wf_set|].
  destruct (publish _ _ _ _ _ _) as [f'|err] eqn:P; cycle 1.
  { split; [done|]. by apply remove_tmp_wf. }
  destruct (fails e SysStat); (split; [done|]); by eapply remove_tmp_wf, publish_wf.
Qed.

(** Well-formedness of the disk backend.  Opening a root gives a good
    store, and Put and Delete keep it one, whatever the kernel refuses. *)
Theorem local_good_preserved e k b size ow l :
  good_local l ->
  good_local (snd (local_Put e k b size ow l)) /\ good_local (snd (local_Delete e k l)).
Proof.
  intros Hl. split; [by apply local_Put_good|]. destruct Hl as [Hm Hf].
  unfold local_Delete. repeat case_match; (split; [done|]); cbn; auto with warphold.
Qed.

Lemma NewLocal_good e size f :
  (forall p m, nodes f !! p = Some m -> dir_of p ∈ dirs f) -> good_local (NewLocal e size f).
Proof.
  intros Hf. split; cbn.
  - destruct (Z.leb_spec size 0); [by vm_compute|lia].
  - unfold sweepTemp. destruct (fails e SysReadDir), (fails e SysRemoveTmp);
      (split; [set_solver|]); intros p m Hp; cbn in *.
    all: try (apply map_lookup_filter_Some in Hp as [Hp _]); apply Hf in Hp; set_solver.
Qed.

Lemma local_good_preserved_witness :
  good_local (snd (local_Put (calm 7 "T1") "dev1/p01" sample_body 5 false empty_local)).
Proof.
  apply (local_good_preserved (calm 7 "T1") "dev1/p01" sample_body 5 false empty_local).
  apply NewLocal_good. cbn. intros p m H. by rewrite lookup_empty in H.
Defined.

(** ** Round trips *)

Lemma publish_node e ow tmp key file f f' :
  tmp <> key -> publish e ow tmp key file f = Ok f' -> nodes f' !! key = Some file.
Proof.
  unfold publish. intros Hne H. destruct ow.
  - destruct (nodes f !! key) as [[|[]]|], (e_fault e SysRename); simplify_eq;
      cbn; rewrite lookup_delete_ne by done; apply lookup_insert_eq.
  - destruct (nodes f !! key), (e_fault e SysLink); simplify_eq. apply lookup_insert_eq.
Qed.

(** What a successful Put leaves on disk. *)
Lemma local_Put_node e k b size ow l info v l' :
  local_Put e k b size ow l = (Ok info, v, l') ->
  checkKey k = Ok tt
  /\ exists x, nodes (root l') !! k = Some (File (b_data b) (LastModified info) x)
               /\ (x = None \/ x = Some (hex_encode (md5 (bytes (b_data b))))).
Proof.
  unfold local_Put. intros H.
  destruct (fails e SysCtx); [done|]. destruct (checkKey k) as [[]|] eqn:Hk; [|done].
  split; [done|]. destruct (maxSize l <? size); [done|]. unfold createTemp in H.
  destruct (e_fault e SysCreate); [done|]. destruct (nodes (root l) !! _); [done|].
  destruct (writeTemp _ _ _ _) as [[[etag file]|err] v'] eqn:W; [|done].
  apply writeTemp_ok in W as ((t & x & -> & Hx) & -> & _).
  destruct (e_fault e SysMkdir); [done|].
  destruct (publish _ _ _ _ _ _) as [f|err] eqn:P; [|done].
  assert (tmpDir +:+ "/" +:+ e_rand e <> k) as Hne.
  { intros <-. apply good_key_dir in Hk. by rewrite dir_of_tmp in Hk. }
  apply publish_node in P; [|done]. destruct (fails e SysStat); [done|].
  injection H as <- _ <-. exists x. split; [|done]. cbn. unfold remove_tmp.
  destruct (fails e SysRemoveTmp); [done|]. cbn. by rewrite lookup_delete_ne.
Qed.

Lemma isMD5Hex_md5 m : isMD5Hex (hex_encode (md5 m)) = true.
Proof.
  unfold isMD5Hex. rewrite hex_round_trip by apply md5_range.
  unfold len. by rewrite length_hex_encode, length_md5.
Qed.

Lemma stake_all s : stake (Z.to_nat (len s)) s = s.
Proof.
  unfold len. rewrite Nat2Z.id. pose proof (stake_app s "") as H. by rewrite sapp_nil_r in H.
Qed.

(** What Put stored, Get returns: after a successful Put, whatever the
    kernel did on the way, reading the key gives the bytes of the body and
    Head reports their MD5 as the ETag. *)
Theorem put_get_round_trip e e' k b size ow l info v l' :
  local_Put e k b size ow l = (Ok info, v, l') -> quiet e' ->
  local_Get e' k 0 (-1) l' = Ok (b_data b, mkObjectInfo k (len (b_data b)) "" (LastModified info))
  /\ local_Head e' k l'
     = Ok (mkObjectInfo k (len (b_data b)) (hex_encode (md5 (bytes (b_data b)))) (LastModified info)).
Proof.
  intros H Hq. apply local_Put_node in H as (Hk & x & Hn & Hx).
  assert (open e' k (root l') = Ok (File (b_data b) (LastModified info) x)) as Ho.
  { unfold open, lstatObject. rewrite Hk, (proj1 Hq), Hn, !quiet_fails by done. done. }
  unfold local_Get, local_Head. rewrite Ho, !quiet_fails by done. split.
  - cbn. rewrite Z.sub_0_r. by rewrite stake_all.
  - destruct Hx as [-> | ->]; [done|]. by rewrite isMD5Hex_md5.
Qed.

Lemma put_get_round_trip_witness :
  local_Get (calm 9 "R") "dev1/p01" 0 (-1) sample_local = Ok ("hello", mkObjectInfo "dev1/p01" 5 "" 7).
Proof.
  apply (put_get_round_trip (calm 7 "T1") (calm 9 "R") "dev1/p01" sample_body 5 false empty_local
           (mkObjectInfo "dev1/p01" 5 "5d41402abc4b2a76b9719d911017c592" 7) false sample_local);
    [by vm_compute|by split].
Defined.

(** C30.  Append-only under failure.  Without overwrite, whatever the kernel
    refuses and whatever the body does, every object that was stored is still
    stored, byte for byte, and a Put to its key fails; a Put that reports an
    error either changed nothing or stored the complete body under a key that
    was free. *)
Theorem local_put_append_only e k b size l r v l' :
  local_Put e k b size false l = (r, v, l') ->
  (forall k' d, local_view l !! k' = Some d -> local_view l' !! k' = Some d)
  /\ (is_Some (local_view l !! k) -> is_ok r = false)
  /\ (is_ok r = false ->
      local_view l' = local_view l
      \/ (local_view l !! k = None /\ local_view l' = <[k := b_data b]> (local_view l))).
Proof.
  intros H. apply local_Put_cases in H as [[-> Hr]|(_ & -> & Hn & _)]; [by auto|].
  specialize (Hn eq_refl). split_and!; [|by rewrite Hn; intros []|auto].
  intros k' d Hd. rewrite lookup_insert_ne; [done|]. intros ->. congruence.
Qed.

Lemma local_put_append_only_witness :
  local_view (snd (local_Put (calm 8 "T2") "dev1/p01" (mkBody "evil" None false None) 4 false
                     sample_local)) !! "dev1/p01" = Some "hello".
Proof.
  apply (local_put_append_only (calm 8 "T2") "dev1/p01" (mkBody "evil" None false None) 4
           sample_local (Err ErrExists) false
           (snd (local_Put (calm 8 "T2") "dev1/p01" (mkBody "evil" None false None) 4 false
                   sample_local)));
    by vm_compute.
Defined.

(** ** Listing is exact *)

(** What a page starting after [after] draws from: the stored keys under the
    prefix, in order. *)
Definition page_spec (m : gmap string string) (prefix after : string) : list string :=
  filter (fun k => HasPrefix k prefix = true /\ slt after k = true)
    (sort_strings (elements (dom m))).

(** Restarting a listing after one of its keys leaves exactly the rest. *)
Lemma page_spec_after m prefix after l1 x l2 :
  page_spec m prefix after = l1 ++ x :: l2 -> page_spec m prefix x = l2.
Proof.
  intros Hspec.
  assert (StronglySorted str_lt (l1 ++ x :: l2)) as Hs.
  { rewrite <- Hspec. apply sorted_filter, sort_strings_strict, NoDup_elements. }
  assert (slt after x = true) as Hx.
  { assert (x ∈ page_spec m prefix after) as Hin by (rewrite Hspec; set_solver).
    by apply list_elem_of_filter in Hin as [[_ ?] _]. }
  rewrite <- (strict_after l1 x l2 Hs), <- Hspec. unfold page_spec.
  rewrite list_filter_filter. apply list_filter_iff. intros k. split.
  - intros [? Hk]. split_and!; [done..|by eapply slt_trans].
  - tauto.
Qed.

Definition entry_ok (d name after : string) (x : string * node) : bool :=
  is_regular (snd x) && HasPrefix (fst x) name && slt after (d +:+ "/" +:+ fst x).

Definition entry_info (d : string) (x : string * node) : ObjectInfo :=
  mkObjectInfo (d +:+ "/" +:+ fst x) (file_size (snd x)) "" (file_mtime (snd x)).

Lemma list_entries_quiet e d name after max ents acc :
  quiet e -> (length acc <= max)%nat ->
  let sel := filter (fun x => entry_ok d name after x = true) ents in
  list_entries e d name after max ents acc
  = Ok (rev (take (max - length acc) (entry_info d <$> sel)) ++ acc,
        bool_decide (max < length acc + length sel)%nat).
Proof.
  intros [_ Hi]. revert acc. induction ents as [|[en n] ents IH]; intros acc Hacc sel.
  { subst sel. rewrite filter_nil. cbn. rewrite take_nil. cbn. f_equal. f_equal.
    symmetry. apply bool_decide_eq_false. lia. }
  cbn [list_entries]. subst sel. rewrite filter_cons.
  assert (entry_ok d name after (en, n)
          = negb (negb (is_regular n) || negb (HasPrefix en name) || sle (d +:+ "/" +:+ en) after))
    as Hok.
  { unfold entry_ok, sle. cbn [fst snd].
    by destruct (is_regular n), (HasPrefix en name), (slt _ _). }
  destruct (_ || _) eqn:C.
  { rewrite decide_False by (by rewrite Hok). by apply IH. }
  rewrite decide_True by (by rewrite Hok). rewrite Hi.
  cbv zeta. destruct (_ <? _)%nat eqn:L; cbn [length] in L;
      [apply Nat.ltb_lt in L|apply Nat.ltb_ge in L].
  - replace (max - length acc)%nat with 0%nat by lia. cbn. f_equal. f_equal.
    symmetry. apply bool_decide_eq_true. cbn. lia.
  - rewrite IH by (cbn; lia). f_equal. f_equal.
    + replace (max - length acc)%nat with (S (max - S (length acc))) by lia. cbn.
      by rewrite <- app_assoc.
    + apply bool_decide_ext. cbn. lia.
Qed.

Lemma elem_of_dir_names d f name :
  Contains d "/" = false ->
  name ∈ dir_names d f <-> is_Some (nodes f !! (d +:+ "/" +:+ name)).
Proof.
  intros Hd. unfold dir_names. rewrite elem_of_sort_strings, list_elem_of_omap. split.
  - intros (path & Hp & H). destruct (Cut path "/") as [[d' n'] []] eqn:C; [|done].
    destruct (String.eqb_spec d' d); [|done]. simplify_eq.
    apply Cut_found in C as [-> _]. rewrite elem_of_elements, elem_of_dom in Hp. exact Hp.
  - intros Hs. exists (d +:+ "/" +:+ name). rewrite elem_of_elements, elem_of_dom.
    split; [done|]. assert (Cut (d +:+ "/" +:+ name) "/" = (d, name, true)) as ->.
    { by apply Cut_found. }
    by rewrite String.eqb_refl.
Qed.

Lemma NoDup_omap {A B} (f : A -> option B) l :
  (forall x y z, f x = Some z -> f y = Some z -> x = y) -> NoDup l -> NoDup (omap f l).
Proof.
  intros Hf. induction 1 as [|x l Hx Hl IH]; [constructor|]. cbn.
  destruct (f x) as [z|] eqn:E; [|done]. constructor; [|done].
  intros (y & Hy & E')%list_elem_of_omap. by rewrite (Hf x y z) in Hx.
Qed.

Lemma dir_names_strict d f : StronglySorted str_lt (dir_names d f).
Proof.
  apply sort_strings_strict, NoDup_omap, NoDup_elements.
  intros p1 p2 z H1 H2.
  destruct (Cut p1 "/") as [[d1 n1] []] eqn:C1; [|done].
  destruct (Cut p2 "/") as [[d2 n2] []] eqn:C2; [|done].
  destruct (String.eqb_spec d1 d), (String.eqb_spec d2 d); simplify_eq.
  apply Cut_found in C1 as [-> _], C2 as [-> _]. done.
Qed.

Lemma ReadDir_names d f ents :
  Contains d "/" = false -> ReadDir d f = Some ents -> fst <$> ents = dir_names d f.
Proof.
  intros Hd. unfold ReadDir. case_bool_decide; [|done]. intros [= <-].
  assert (Forall (fun name => is_Some (nodes f !! (d +:+ "/" +:+ name))) (dir_names d f)) as Hs.
  { apply Forall_forall. intros x Hx. by apply elem_of_dir_names in Hx. }
  induction Hs as [|x l [n Hn] _ IH]; [done|]. cbn [omap list_omap]. rewrite Hn. cbn. by f_equal.
Qed.

Lemma ReadDir_absent d f : fs_wf f -> d ∉ dirs f -> Contains d "/" = false -> dir_names d f = [].
Proof.
  intros [_ Hf] Hd Hs. destruct (dir_names d f) as [|x l] eqn:E; [done|]. exfalso.
  assert (x ∈ dir_names d f) as Hx by (rewrite E; left).
  apply elem_of_dir_names in Hx as [n Hn]; [|done]. apply Hf in Hn.
  unfold dir_of in Hn. by rewrite (proj2 (Cut_found _ _ d x)) in Hn.
Qed.

(** The keys a directory contributes are the page's, in its order. *)
Lemma dir_keys l d name after ents :
  d <> tmpDir -> Contains d "/" = false -> fst <$> ents = dir_names d (root l) ->
  (forall en n, (en, n) ∈ ents -> nodes (root l) !! (d +:+ "/" +:+ en) = Some n) ->
  Key <$> (entry_info d <$> filter (fun x => entry_ok d name after x = true) ents)
  = page_spec (local_view l) (d +:+ "/" +:+ name) after.
Proof.
  intros Hd Hs Hnames Hents. apply strict_unique.
  - rewrite <- list_fmap_compose.
    apply (StronglySorted_fmap _ (fun x y : string * node => str_lt (fst x) (fst y))).
    { intros x y Hxy. unfold str_lt. cbn. by rewrite !slt_app. }
    apply sorted_filter, (sorted_fmap_inv str_lt fst). rewrite Hnames. apply dir_names_strict.
  - apply sorted_filter, sort_strings_strict, NoDup_elements.
  - intros k. unfold page_spec. rewrite list_elem_of_filter, elem_of_sort_strings,
      elem_of_elements, elem_of_dom, <- list_fmap_compose, list_elem_of_fmap. split.
    + intros ([en n] & -> & [Hok Hin]%list_elem_of_filter). unfold entry_ok in Hok.
      cbn [fst snd compose entry_info Key] in *. bool_to_prop. split_and!; [|done|].
      * apply HasPrefix_spec in H1 as [t ->]. rewrite <- !sapp_assoc. apply HasPrefix_app.
      * rewrite lookup_view, (Hents en n) by done. destruct n as [data t x|]; [|done].
        cbn [mbind option_bind object_of]. unfold dir_of.
        rewrite (proj2 (Cut_found _ _ d en)) by done. cbn [fst].
        apply String.eqb_neq in Hd as ->. eauto.
    + intros [[Hp Ha] [data Hv]]. apply HasPrefix_spec in Hp as [t Ht].
      rewrite !sapp_assoc in Ht. subst k. rewrite lookup_view in Hv.
      destruct (nodes (root l) !! _) as [n|] eqn:Hn; [|done].
      assert (name +:+ t ∈ fst <$> ents) as Hin.
      { rewrite Hnames. apply elem_of_dir_names; eauto. }
      apply list_elem_of_fmap in Hin as ([en n'] & Heq & Hin). cbn in Heq. subst en.
      pose proof (Hents _ _ Hin) as Hn'. rewrite Hn in Hn'. injection Hn' as <-.
      exists (name +:+ t, n). split; [done|]. apply list_elem_of_filter. split; [|done].
      unfold entry_ok. cbn [fst snd]. rewrite HasPrefix_app, Ha. by destruct n.
Qed.

(** The page size List settles on. *)
Definition page_size (max : Z) : nat :=
  Z.to_nat (if (max <=? 0) || (maxKeys <? max) then maxKeys else max).

(** A device directory name the prefix of a list may name. *)
Definition listable (d : string) : Prop :=
  d <> "" /\ d <> "." /\ d <> ".." /\ d <> tmpDir /\ Contains d "/" = false
  /\ Contains d (chr 92) = false /\ ValidString d = true.

(** A listing is the page of the directory. *)
Lemma local_List_page e d name after max l :
  quiet e -> good_local l -> listable d ->
  exists objs,
    local_List e (d +:+ "/" +:+ name) after max l
    = Ok (objs, bool_decide (page_size max
                  < length (page_spec (local_view l) (d +:+ "/" +:+ name) after))%nat)
    /\ Key <$> objs = take (page_size max) (page_spec (local_view l) (d +:+ "/" +:+ name) after).
Proof.
  intros Hq [_ Hwf] (H1 & H2 & H3 & H4 & H5 & H6 & H7).
  unfold local_List, listDirs. fold (page_size max).
  rewrite (proj2 (Cut_found _ _ d name)) by done. rewrite quiet_fails by done.
  rewrite !(proj2 (String.eqb_neq _ _)), H6 by done. cbn [orb list_dirs_loop].
  rewrite quiet_fails, H7 by done. cbn [orb negb].
  set (spec := page_spec _ _ _).
  destruct (ReadDir d (root l)) as [ents|] eqn:R.
  - pose proof (ReadDir_names _ _ _ H5 R) as Hn.
    assert (Key <$> (entry_info d <$> filter (fun x => entry_ok d name after x = true) ents) = spec)
      as Hk by (eapply dir_keys; eauto using ReadDir_in).
    rewrite list_entries_quiet by (done || cbn; lia). cbn [length Nat.add].
    assert (length (filter (fun x => entry_ok d name after x = true) ents) = length spec) as Hlen
      by (by rewrite <- Hk, !length_fmap).
    rewrite Hlen, app_nil_r, Nat.sub_0_r.
    case_bool_decide; eexists; (split; [done|]); by rewrite rev_involutive, <- Hk, fmap_take.
  - unfold ReadDir in R. case_bool_decide as Hd; [done|].
    assert (spec = []) as ->.
    { unfold spec. erewrite <- (dir_keys l d name after []); [done|done..| |].
      - symmetry. by apply ReadDir_absent.
      - by intros ?? ?%elem_of_nil. }
    exists []. cbn. by rewrite bool_decide_eq_false_2, take_nil by lia.
Qed.

(** Exactness of a page.  Listing a prefix "<device>/<name...>" on a good
    store returns the keys stored under it, past [after], in order: the first
    [max] of them, and "truncated" exactly when there are more. *)
Theorem local_List_exact e d name after max l :
  quiet e -> good_local l -> listable d ->
  exists objs,
    local_List e (d +:+ "/" +:+ name) after max l
    = Ok (objs, bool_decide (page_size max
                  < length (page_spec (local_view l) (d +:+ "/" +:+ name) after))%nat)
    /\ Key <$> objs = take (page_size max) (page_spec (local_view l) (d +:+ "/" +:+ name) after).
Proof. apply local_List_page. Qed.

Lemma empty_local_good : good_local empty_local.
Proof. apply NewLocal_good. cbn. intros p m H. by rewrite lookup_empty in H. Qed.

Lemma sample_local_good : good_local sample_local.
Proof. apply local_Put_good, empty_local_good. Qed.

Lemma listable_dev1 : listable "dev1".
Proof. by vm_compute. Qed.

Lemma local_List_exact_witness :
  exists objs, local_List (calm 9 "R") ("dev1" +:+ "/" +:+ "p") "" 10 sample_local
                 = Ok (objs, false)
               /\ Key <$> objs = ["dev1/p01"].
Proof.
  destruct (local_List_exact (calm 9 "R") "dev1" "p" "" 10 sample_local) as (objs & H & K);
    [by split|apply sample_local_good|apply listable_dev1|].
  exists objs. split; [rewrite H|rewrite K]; by vm_compute.
Defined.

(** * Listing every device

    [local.List] without a prefix reads the device directories by name and each
    one's entries by name.  The keys come out in order because device ids hold
    no byte below the slash, as the code notes. *)

(** A device id: valid text of bytes above the slash. *)
Definition device_id (d : string) : Prop :=
  Forall (fun b => 47 < b) (bytes d) /\ ValidString d = true.

(** A root laid out as the gateway lays it out: a directory per device and every
    file in one. *)
Record device_layout (l : local) : Prop := {
  dl_dirs : forall d, d ∈ dirs (root l) -> d <> tmpDir -> Contains d "/" = false -> device_id d;
  dl_files : forall k n, nodes (root l) !! k = Some n -> Contains k "/" = true
}.

(** Keys of two such devices are in the order of the devices. *)
Lemma device_order d1 d2 x y :
  Forall (fun b => 47 < b) (bytes d2) -> slt d1 d2 = true -> slt (d1 +:+ "/" +:+ x) (d2 +:+ "/" +:+ y) = true.
Proof.
  revert d2. induction d1 as [|c d1 IH]; intros [|c2 d2] Hd Hlt; [done| |done|].
  - change ("" +:+ "/" +:+ x) with (String "/" x). rewrite sapp_cons. apply slt_cons. left.
    cbn in Hd. by inversion Hd.
  - rewrite !sapp_cons. apply slt_cons in Hlt. apply slt_cons. cbn [bytes] in Hd. inversion Hd; subst.
    destruct Hlt as [?|[-> ?]]; [by left|]. right. split; [done|]. by apply IH.
Qed.

Definition dir_page (f : fsys) (name after : string) (d : string) : list ObjectInfo :=
  match ReadDir d f with
  | Some ents => entry_info d <$> filter (fun x => entry_ok d name after x = true) ents
  | None => []
  end.

(** The outer loop stops once the page is full, and says so. *)
Lemma list_dirs_loop_quiet e ds name after max f acc :
  quiet e -> Forall (fun d => ValidString d = true) ds -> (length acc <= max)%nat ->
  let sel := mjoin (dir_page f name after <$> ds) in
  list_dirs_loop e ds name after max f acc
  = Ok (rev (take (max - length acc) sel) ++ acc, bool_decide (max < length acc + length sel)%nat).
Proof.
  intros Hq Hv. revert acc. induction Hv as [|d ds Hd _ IH]; intros acc Hacc sel.
  { subst sel. cbn. rewrite take_nil. cbn. by rewrite bool_decide_eq_false_2 by lia. }
  cbn [list_dirs_loop]. rewrite quiet_fails, Hd by done. cbn [orb negb].
  assert (sel = dir_page f name after d ++ mjoin (dir_page f name after <$> ds)) as -> by done.
  destruct (ReadDir d f) as [ents|] eqn:R; cycle 1.
  { assert (dir_page f name after d = []) as -> by (unfold dir_page; by rewrite R). by apply IH. }
  rewrite list_entries_quiet by done. set (own := filter _ ents).
  assert (dir_page f name after d = entry_info d <$> own) as -> by (unfold dir_page; by rewrite R).
  assert (length (entry_info d <$> own) = length own) as Hlen by apply length_fmap.
  case_bool_decide as Hmore.
  - rewrite take_app_le, length_app by lia. rewrite bool_decide_eq_true_2 by lia. done.
  - rewrite IH by (rewrite length_app, length_rev, length_take; lia).
    rewrite (take_ge (entry_info d <$> own)) by lia. rewrite length_app, length_rev, Hlen.
    rewrite take_app_ge by lia. f_equal. f_equal.
    + rewrite rev_app_distr, <- app_assoc. f_equal. f_equal. f_equal. lia.
    + apply bool_decide_ext. rewrite length_app. lia.
Qed.

(** The directories of the devices. *)
Definition device_dirs (l : local) : list string := filter (fun d => d <> tmpDir /\ HasPrefix d "" = true) (root_dirs (root l)).

Lemma elem_of_device_dirs l d :
  d ∈ device_dirs l <-> d <> tmpDir /\ d ∈ dirs (root l) /\ Contains d "/" = false.
Proof.
  unfold device_dirs, root_dirs. rewrite !list_elem_of_filter, elem_of_sort_strings, elem_of_elements. cbn [HasPrefix].
  destruct d; cbn; tauto.
Qed.

Lemma device_page l after d :
  d ∈ device_dirs l -> good_local l -> Key <$> dir_page (root l) "" after d = page_spec (local_view l) (d +:+ "/") after.
Proof.
  intros (Ht & Hd & Hs)%elem_of_device_dirs [_ Hwf]. unfold dir_page.
  destruct (ReadDir d (root l)) as [ents|] eqn:R; [|by unfold ReadDir in R; rewrite bool_decide_eq_true_2 in R].
  rewrite (dir_keys l d "" after ents) by (eauto using ReadDir_in, ReadDir_names). by rewrite sapp_nil_r.
Qed.

Lemma device_dirs_strict l : StronglySorted str_lt (device_dirs l).
Proof. apply sorted_filter, sorted_filter, sort_strings_strict, NoDup_elements. Qed.

Lemma page_of_device l d after k :
  k ∈ page_spec (local_view l) (d +:+ "/") after <->
  k ∈ page_spec (local_view l) "" after /\ HasPrefix k (d +:+ "/") = true.
Proof. unfold page_spec. rewrite !list_elem_of_filter. cbn [HasPrefix]. destruct k; tauto. Qed.

(** The pages of the devices, one after another, are in order. *)
Lemma device_pages_strict l after ds :
  StronglySorted str_lt ds -> (forall d, d ∈ ds -> device_id d) ->
  StronglySorted str_lt (mjoin ((fun d => page_spec (local_view l) (d +:+ "/") after) <$> ds)).
Proof.
  intros Hs. induction Hs as [|d ds Hds IH Hd]; intros Hid; [constructor|].
  cbn [fmap list_fmap mjoin list_join]. apply StronglySorted_app. split_and!.
  - intros x y [_ [t ->]%HasPrefix_spec]%page_of_device Hy.
    apply list_elem_of_join in Hy as (p & Hy & Hp). apply list_elem_of_fmap in Hp as (d2 & -> & Hd2).
    apply page_of_device in Hy as [_ [u ->]%HasPrefix_spec]. rewrite !sapp_assoc. apply device_order.
    + apply Hid. by right.
    + by eapply Forall_forall in Hd.
  - apply sorted_filter, sort_strings_strict, NoDup_elements.
  - apply IH. intros. apply Hid. by right.
Qed.

Lemma all_keys l after :
  good_local l -> device_layout l ->
  Key <$> mjoin (dir_page (root l) "" after <$> device_dirs l) = page_spec (local_view l) "" after.
Proof.
  intros Hl [Hdirs Hfiles].
  assert (Key <$> mjoin (dir_page (root l) "" after <$> device_dirs l)
          = mjoin ((fun d => page_spec (local_view l) (d +:+ "/") after) <$> device_dirs l)) as ->.
  { assert (forall d, d ∈ device_dirs l -> Key <$> dir_page (root l) "" after d = page_spec (local_view l) (d +:+ "/") after) as Hp
      by (intros; by apply device_page).
    induction (device_dirs l) as [|d ds IH]; [done|]. cbn [fmap list_fmap mjoin list_join]. rewrite fmap_app. f_equal.
    - apply Hp. by left.
    - apply IH. intros. apply Hp. by right. }
  apply strict_unique.
  - apply device_pages_strict; [apply device_dirs_strict|].
    intros d (Ht & Hd & Hs)%elem_of_device_dirs. by apply Hdirs.
  - apply sorted_filter, sort_strings_strict, NoDup_elements.
  - intros k. rewrite list_elem_of_join. split.
    + intros (p & Hk & (d & -> & _)%list_elem_of_fmap). by apply page_of_device in Hk as [? _].
    + intros Hk. pose proof Hk as [_ Hv]%list_elem_of_filter.
      rewrite elem_of_sort_strings, elem_of_elements, elem_of_dom, lookup_view in Hv. destruct Hv as [v Hv].
      destruct (nodes (root l) !! k) as [n|] eqn:Hn; [|done]. cbn [mbind option_bind] in Hv.
      pose proof (Hfiles k n Hn) as Hc. destruct (Cut k "/") as [[d name] ok] eqn:C.
      destruct ok; [|by apply Cut_false in C as (? & _ & _); congruence].
      assert (dir_of k = d) as Edir by (unfold dir_of; by rewrite C).
      apply Cut_found in C as [-> Hs]. exists (page_spec (local_view l) (d +:+ "/") after). split.
      * apply page_of_device. split; [done|]. apply HasPrefix_spec. exists name. by rewrite sapp_assoc.
      * apply list_elem_of_fmap. exists d. split; [done|]. apply elem_of_device_dirs. split_and!; [..|done].
        -- intros ->. unfold object_of in Hv. destruct n; [|done]. by rewrite Edir in Hv.
        -- rewrite <- Edir. destruct Hl as [_ [_ Hwf]]. by eapply Hwf.
Qed.

(** Listing a whole hosted root.  With device ids of bytes above the slash,
    a listing without a prefix is exact: the keys of every device past
    [after], in the order of the keys, the first [max] of them, and
    "truncated" exactly when there are more; so that a walk by pages
    misses none. *)
Theorem local_List_all e after max l :
  quiet e -> good_local l -> device_layout l ->
  exists objs,
    local_List e "" after max l
    = Ok (objs, bool_decide (page_size max < length (page_spec (local_view l) "" after))%nat)
    /\ Key <$> objs = take (page_size max) (page_spec (local_view l) "" after).
Proof.
  intros Hq Hl Hlay. unfold local_List, listDirs. fold (page_size max). rewrite !quiet_fails by done. cbn [Cut].
  fold (device_dirs l). cbn [mbind]. rewrite list_dirs_loop_quiet; [|done| |cbn; lia]; cycle 1.
  { apply Forall_forall. intros d (Ht & Hd & Hs)%elem_of_device_dirs. by apply (dl_dirs l Hlay). }
  cbn [length Nat.add]. rewrite Nat.sub_0_r, app_nil_r. pose proof (all_keys l after Hl Hlay) as Hk.
  eexists. split; [rewrite <- Hk, length_fmap; done|]. by rewrite rev_involutive, <- Hk, fmap_take.
Qed.

Lemma sample_layout : device_layout sample_local.
Proof.
  assert (dirs (root sample_local) = {[tmpDir; "dev1"]}) as Hd by (refine (bool_decide_unpack _ _); by vm_compute).
  assert (dom (nodes (root sample_local)) = {["dev1/p01"]}) as Hn by (refine (bool_decide_unpack _ _); by vm_compute).
  split.
  - intros d Hin Ht _. rewrite Hd in Hin. assert (d = "dev1") as -> by set_solver.
    split; [|by vm_compute]. apply (bool_decide_unpack _). by vm_compute.
  - intros k n Hk. apply elem_of_dom_2 in Hk. rewrite Hn in Hk. apply elem_of_singleton in Hk as ->. by vm_compute.
Qed.

Lemma local_List_all_witness :
  exists objs, local_List (calm 9 "R") "" "" 10 sample_local = Ok (objs, false) /\ Key <$> objs = ["dev1/p01"].
Proof.
  destruct (local_List_all (calm 9 "R") "" 10 sample_local) as (objs & H & K); [by split|apply sample_local_good|apply sample_layout|].
  exists objs. split; [rewrite H|rewrite K]; by vm_compute.
Defined.
