(* ===== verification/BlobAdapter.v ===== *)
(** * A device's repository as Kopia blob storage

    [fleet/gateway/blobadapter.go]: [blobStore] adapts an [ObjectStore] to
    Kopia's [blob.Storage], confined to one device's prefix.  The Fleet server
    provisions and maintains repositories through it. *)

From S2P Require Import Prelude GoStrings GoText Digest GoTime Object ObjectStore Local LocalFacts.
From Stdlib Require Import Ascii.
Open Scope go_scope.

(** Errors of [blob.Storage]; any other error is passed through. *)
Inductive BlobErr :=
| ErrBlobNotFound | ErrInvalidRange | ErrBlobAlreadyExists
| ErrUnsupportedPutBlobOption | ErrSetTimeUnsupported
| ErrListing
| ErrStore (e : StoreErr).

Record HostedOptions := mkHosted { hRoot : string; hPrefix : string }.

Record Metadata := mkMetadata { BlobID : string; Length : Z; Timestamp : Z }.

(** The parts of [blob.PutOptions] the adapter looks at. *)
Record PutOptions := mkPutOptions {
  HasRetentionOptions : bool;
  SetModTime : Z;
  DoNotRecreate : bool
}.

Definition mapBlobErr (e : StoreErr) : BlobErr :=
  match e with
  | ErrNotFound => ErrBlobNotFound
  | ErrRange => ErrInvalidRange
  | ErrExists => ErrBlobAlreadyExists
  | e => ErrStore e
  end.

(** The check of the storage provider's constructor: a prefix is accepted
    exactly when it can name a real key. *)
Definition hosted_prefix_ok (o : HostedOptions) : bool :=
  HasSuffix (hPrefix o) "/" && is_ok (checkKey (hPrefix o +:+ "x")).

Section BlobStore.
Context {S E : Type} `{ObjectStore S E}.
Variable opts : HostedOptions.

Definition key (id : string) : string := hPrefix opts +:+ id.

(** [PutBlob]: the modification time is what the caller may ask back. *)
Definition PutBlob (e : E) (id data : string) (po : PutOptions) (s : S) : result BlobErr Z * S :=
  if HasRetentionOptions po then (Err ErrUnsupportedPutBlobOption, s)
  else if negb (IsZero (SetModTime po)) then (Err ErrSetTimeUnsupported, s)
  else
    match Put e (key id) (mkBody data None false None) (len data) (negb (DoNotRecreate po)) s with
    | (Ok info, _, s') => (Ok (LastModified info), s')
    | (Err err, _, s') => (Err (mapBlobErr err), s')
    end.

(** [GetBlob]: the bytes in the output buffer; on an error it is reset. *)
Definition GetBlob (e : E) (id : string) (offset length : Z) (s : S) : result BlobErr string :=
  if offset <? 0 then Err ErrInvalidRange
  else match GetObject e (key id) offset length s with
  | Err err => Err (mapBlobErr err)
  | Ok (d, _) =>
      if (0 <=? length) && negb (len d =? length) then Err ErrInvalidRange else Ok d
  end.

Definition GetMetadata (e : E) (id : string) (s : S) : result BlobErr Metadata :=
  match Head e (key id) s with
  | Err err => Err (mapBlobErr err)
  | Ok info => Ok (mkMetadata id (Size info) (LastModified info))
  end.

Definition DeleteBlob (e : E) (id : string) (s : S) : result BlobErr unit * S :=
  match Delete e (key id) s with
  | (Ok _, s') => (Ok tt, s')
  | (Err ErrNotFound, s') => (Ok tt, s')
  | (Err err, s') => (Err (mapBlobErr err), s')
  end.

Definition blob_meta (o : ObjectInfo) : Metadata :=
  mkMetadata (sdrop (String.length (hPrefix opts)) (Key o)) (Size o) (LastModified o).

(** The callback run over one page; an error of the callback stops it. *)
Fixpoint run_callback {A} (cb : A -> Metadata -> result BlobErr A) (ms : list Metadata) (a : A)
  : result BlobErr A :=
  match ms with
  | [] => Ok a
  | m :: ms => let! a := cb a m in run_callback cb ms a
  end.

(** [ListBlobs]: one page per turn of the loop, the [i]-th under the
    environment [es i].  [None] is a loop still running after [fuel] turns. *)
Fixpoint list_loop {A} (cb : A -> Metadata -> result BlobErr A) (es : nat -> E) (fuel i : nat)
    (prefix after : string) (s : S) (a : A) : option (result BlobErr A) :=
  match fuel with
  | O => None
  | Datatypes.S fuel =>
      match List (es i) prefix after 0 s with
      | Err err => Some (Err (mapBlobErr err))
      | Ok (objs, truncated) =>
          match run_callback cb (blob_meta <$> objs) a with
          | Err err => Some (Err err)
          | Ok a =>
              if negb truncated then Some (Ok a)
              else match last objs with
              | None => Some (Err ErrListing)
              | Some o => list_loop cb es fuel (Datatypes.S i) prefix (Key o) s a
              end
          end
      end
  end.

Definition ListBlobs {A} (cb : A -> Metadata -> result BlobErr A) (es : nat -> E) (fuel : nat)
    (idPrefix : string) (s : S) (a : A) : option (result BlobErr A) :=
  list_loop cb es fuel 0 (key idPrefix) "" s a.
End BlobStore.

(** ** Reading blobs *)

Lemma len_sdrop n s : len (sdrop n s) = Z.max 0 (len s - Z.of_nat n).
Proof.
  unfold len. revert s. induction n as [|n IH]; intros [|c s]; simpl; try lia.
  rewrite IH. lia.
Qed.

Lemma stake_ge n s : len s <= Z.of_nat n -> stake n s = s.
Proof.
  unfold len. revert s. induction n as [|n IH]; intros [|c s]; simpl; try done; try lia.
  intros H. by rewrite IH by lia.
Qed.

(** The blob range contract: exactly [length] bytes from [offset], or all of
    them to the end when [length] is negative. *)
Definition exact_range (full : string) (offset length : Z) : option string :=
  if (offset <? 0) || (len full <? offset + Z.max 0 length) then None
  else if length <? 0 then Some (sdrop (Z.to_nat offset) full)
  else Some (stake (Z.to_nat length) (sdrop (Z.to_nat offset) full)).

(** GetBlob over any store that keeps the contract returns exactly the
    requested bytes of the stored blob: never a short read, never bytes of
    another blob, and a range past the end is an error. *)
Theorem GetBlob_exact {S E} `{ObjectStoreLaws S E} opts (e : E) id offset length (s : S) d :
  GetBlob opts e id offset length s = Ok d ->
  exists full, view s !! (hPrefix opts +:+ id) = Some full
               /\ exact_range full offset length = Some d.
Proof.
  unfold GetBlob. intros Hg. destruct (Z.ltb_spec offset 0); [done|].
  destruct (GetObject _ _ _ _ _) as [[d' info]|] eqn:G; [|done].
  apply get_range in G as (full & Hv & _ & _ & Ho & ->). exists full. split; [done|].
  unfold exact_range, range_of in *. rewrite (proj2 (Z.ltb_ge offset 0)) by lia. cbn [orb].
  pose proof (len_sdrop (Z.to_nat offset) full) as Hl.
  destruct (Z.ltb_spec length 0) as [Hneg|Hpos]; cbn [orb] in Hg.
  - rewrite (proj2 (Z.leb_gt 0 length)) in Hg by lia. injection Hg as <-.
    rewrite (proj2 (Z.ltb_ge _ _)) by lia. by rewrite stake_ge by lia.
  - rewrite (proj2 (Z.leb_le 0 length)) in Hg by lia. cbn [andb] in Hg.
    destruct (Z.ltb_spec (len full - offset) length).
    + rewrite stake_ge in Hg by lia. destruct (Z.eqb_spec (len (sdrop (Z.to_nat offset) full)) length);
        [lia|done].
    + rewrite (proj2 (Z.ltb_ge _ _)) by lia. by split_ifs_in Hg.
Qed.

Definition sample_hosted : HostedOptions := mkHosted "/srv" "dev1/".

Lemma GetBlob_exact_witness :
  exists full, view sample_local !! (hPrefix sample_hosted +:+ "p01") = Some full
               /\ exact_range full 1 3 = Some "ell".
Proof.
  assert (GetBlob sample_hosted (calm 9 "R") "p01" 1 3 sample_local = Ok "ell") as G
    by (by vm_compute).
  exact (GetBlob_exact sample_hosted (calm 9 "R") "p01" 1 3 sample_local "ell" G).
Defined.

(** ** Listing blobs *)

Lemma run_callback_app {A} (cb : A -> Metadata -> result BlobErr A) ms1 ms2 a :
  run_callback cb (ms1 ++ ms2) a
  = match run_callback cb ms1 a with Ok a => run_callback cb ms2 a | Err e => Err e end.
Proof.
  revert a. induction ms1 as [|m ms1 IH]; intros a; [done|]. cbn.
  destruct (cb a m); [apply IH|done].
Qed.

Lemma fmap_fixed {A} (f : A -> A) l : Forall (fun x => f x = x) l -> f <$> l = l.
Proof. induction 1 as [|x l Hx _ IH]; [done|]. cbn. by rewrite Hx, IH. Qed.

Lemma page_size_0 : page_size 0 = Z.to_nat maxKeys.
Proof. done. Qed.

Section Exact.
Context (opts : HostedOptions) (d name : string) (es : nat -> env) (l : local).
Context (Hq : forall i, quiet (es i)) (Hl : good_local l) (Hd : listable d).

(** From any starting point the loop visits what is left, in order. *)
Lemma list_loop_exact n : forall fuel i after,
  (length (page_spec (local_view l) (d +:+ "/" +:+ name) after) <= n)%nat -> (n < fuel)%nat ->
  exists ms,
    BlobID <$> ms = sdrop (String.length (hPrefix opts))
                      <$> page_spec (local_view l) (d +:+ "/" +:+ name) after
    /\ forall A (cb : A -> Metadata -> result BlobErr A) a,
         list_loop opts cb es fuel i (d +:+ "/" +:+ name) after l a
         = Some (run_callback cb ms a).
Proof.
  induction n as [n IH] using lt_wf_ind. intros [|fuel] i after Hn Hf; [lia|].
  destruct (local_List_page (es i) d name after 0 l (Hq i) Hl Hd) as (objs & HL & HK).
  rewrite page_size_0 in *. set (spec := page_spec _ _ _) in *.
  cbn [list_loop List local_store]. setoid_rewrite HL. case_bool_decide as Hmore.
  - destruct (last objs) as [o|] eqn:Hlast; cycle 1.
    { exfalso. apply last_None in Hlast as ->. cbn in HK.
      assert (length (take (Z.to_nat maxKeys) spec) = 0%nat) as H0 by (by rewrite <- HK).
      rewrite length_take in H0. change (Z.to_nat maxKeys) with 1000%nat in *. lia. }
    apply last_Some in Hlast as [objs' ->].
    assert (spec = (Key <$> objs') ++ Key o :: drop (Z.to_nat maxKeys) spec) as Hspec.
    { rewrite <- (take_drop (Z.to_nat maxKeys) spec) at 1. rewrite <- HK, fmap_app.
      by rewrite <- app_assoc. }
    pose proof (page_spec_after _ _ _ _ _ _ Hspec) as Hrest.
    destruct (IH (n - 1)%nat) with (fuel := fuel) (i := Datatypes.S i) (after := Key o)
      as (ms & Hms & Hrun).
    + apply (f_equal length) in Hspec. rewrite length_app in Hspec. cbn in Hspec. lia.
    + rewrite Hrest, length_drop. change (Z.to_nat maxKeys) with 1000%nat in *. lia.
    + lia.
    + exists ((blob_meta opts <$> (objs' ++ [o])) ++ ms). split.
      * rewrite Hspec, fmap_app, Hms, Hrest, !fmap_app, <- !list_fmap_compose.
        by rewrite <- app_assoc.
      * intros A cb a. rewrite run_callback_app.
        destruct (run_callback cb _ a) as [a'|]; [|done]. cbn [negb]. by rewrite Hrun.
  - exists (blob_meta opts <$> objs). split.
    + rewrite <- (firstn_all2 (n := Z.to_nat maxKeys) spec) by lia.
      change (firstn (Z.to_nat maxKeys) spec) with (take (Z.to_nat maxKeys) spec).
      rewrite <- HK, <- !list_fmap_compose. done.
    + intros A cb a. by destruct (run_callback cb _ a).
Qed.
End Exact.

(** C33.  ListBlobs terminates and calls back exactly once for every blob
    under the id prefix, in order, however many pages that takes: with more
    turns than there are blobs, it returns what the callback returns over them. *)
Theorem ListBlobs_exact opts d idPrefix (es : nat -> env) (l : local) fuel :
  hPrefix opts = d +:+ "/" -> listable d -> good_local l -> (forall i, quiet (es i)) ->
  (length (page_spec (local_view l) (hPrefix opts +:+ idPrefix) "") < fuel)%nat ->
  exists ms,
    (fun m => hPrefix opts +:+ BlobID m) <$> ms
      = page_spec (local_view l) (hPrefix opts +:+ idPrefix) ""
    /\ forall A (cb : A -> Metadata -> result BlobErr A) a,
         ListBlobs opts cb es fuel idPrefix l a = Some (run_callback cb ms a).
Proof.
  intros Hp Hd Hl Hq Hf. unfold ListBlobs, key. rewrite Hp, !sapp_assoc in *.
  destruct (list_loop_exact opts d idPrefix es l Hq Hl Hd _ fuel 0 "" (le_n _) Hf)
    as (ms & Hms & Hrun).
  exists ms. split; [|done]. rewrite Hp in Hms.
  transitivity (String.append (d +:+ "/") <$> (BlobID <$> ms)); [by rewrite <- list_fmap_compose|].
  rewrite Hms, <- list_fmap_compose. apply fmap_fixed, Forall_forall.
  intros k [[Hk _] _]%list_elem_of_filter. apply HasPrefix_spec in Hk as [t ->]. cbn [compose].
  replace ((d +:+ "/" +:+ idPrefix) +:+ t) with ((d +:+ "/") +:+ (idPrefix +:+ t))
    by (by rewrite !sapp_assoc).
  by rewrite sdrop_app.
Qed.

Lemma ListBlobs_exact_witness :
  ListBlobs sample_hosted (fun acc m => Ok (acc ++ [BlobID m])) (fun _ => calm 9 "R") 5 "p"
    sample_local [] = Some (Ok ["p01"]).
Proof.
  destruct (ListBlobs_exact sample_hosted "dev1" "p" (fun _ => calm 9 "R") sample_local 5)
    as (ms & Hms & Hrun);
    [done|apply listable_dev1|apply sample_local_good|by split|vm_compute; lia|].
  rewrite Hrun.
  assert (page_spec (local_view sample_local) (hPrefix sample_hosted +:+ "p") "" = ["dev1/p01"])
    as E by (by vm_compute).
  rewrite E in Hms. destruct ms as [|m [|]]; [discriminate Hms| |discriminate Hms].
  cbn [fmap list_fmap] in Hms.
  assert (BlobID m = "p01") as Hm.
  { apply (sapp_inj_l (hPrefix sample_hosted)). exact (f_equal (hd "") Hms). }
  cbn. rewrite Hm. reflexivity.
Defined.
