(* ===== verification/Cloud.v ===== *)
(** * The cloud-direct backend

    [fleet/gateway/cloud.go]: the gateway writing through to the customer's own
    bucket.  The S3 client (minio-go) is a parameter, with the behaviour S3
    documents as laws; an answer that is lost after the request took effect is
    among it. *)

From S2P Require Import Prelude GoStrings GoText Digest GoTime Object ObjectStore.
From Stdlib Require Import Ascii.
Open Scope go_scope.

Definition spoolAbove : Z := 8 * 2 ^ 20.
Definition probeName : string := ".warphold-probe".
Definition maxRootPrefix : Z := 200.
Definition CloudMaxObjectSize : Z := 64 * 2 ^ 20.
Definition cloudMaxKeys : Z := 1000.

(** ** The client *)

(** [minio.ErrorResponse]: the HTTP status (0 when there was no answer) and
    S3's code. *)
Record S3Err := mkS3Err { StatusCode : Z; S3Code : string }.

Record S3Stat := mkS3Stat { s3_Key : string; s3_Size : Z; s3_ETag : string; s3_LastModified : Z }.

(** The calls cloud.go makes of a bucket of state [P], under an environment [E]
    of what the network does. *)
Class S3 (P E : Type) := {
  (** [PutObject], with [If-None-Match: *] when the boolean is set. *)
  PutObject : E -> bool -> string -> string -> P -> result S3Err S3Stat * P;
  StatObject : E -> string -> P -> result S3Err S3Stat;
  (** [GetObject] with a range: first and last byte. *)
  GetRange : E -> string -> Z -> Z -> P -> result S3Err string;
  (** [ListObjects]: the channel, in order, by prefix, start-after and page size. *)
  ListObjects : E -> string -> string -> Z -> P -> list (result S3Err S3Stat);
  RemoveObject : E -> string -> P -> result S3Err unit * P;
  ObjectLockConfig : E -> P -> result S3Err string;
  objects : P -> gmap string string
}.

Class S3Laws (P E : Type) `{S3 P E} : Prop := {
  (** A conditional PUT succeeds only where nothing was. *)
  s3_put_cond e n d p u p' : PutObject e true n d p = (Ok u, p') -> objects p !! n = None;
  s3_put_ok e c n d p u p' : PutObject e c n d p = (Ok u, p') -> objects p' = <[n := d]> (objects p);
  (** A failed PUT may have taken effect, under the same precondition. *)
  s3_put_err e c n d p x p' : PutObject e c n d p = (Err x, p') ->
    objects p' = objects p
    \/ objects p' = <[n := d]> (objects p) /\ (c = true -> objects p !! n = None);
  s3_stat_ok e n p st : StatObject e n p = Ok st ->
    exists d, objects p !! n = Some d /\ s3_Size st = len d;
  s3_get_ok e n i j p d : GetRange e n i j p = Ok d ->
    exists full, objects p !! n = Some full /\ d = stake (Z.to_nat (j - i + 1)) (sdrop (Z.to_nat i) full);
  s3_list_ok e pre after max p st : Ok st ∈ ListObjects e pre after max p ->
    exists d, objects p !! s3_Key st = Some d /\ s3_Size st = len d;
  s3_remove_ok e n p p' : RemoveObject e n p = (Ok tt, p') -> objects p' = delete n (objects p);
  s3_remove_err e n p x p' : RemoveObject e n p = (Err x, p') ->
    objects p' = objects p \/ objects p' = delete n (objects p)
}.

(** ** Configuration *)

Record S3Options := mkS3Options {
  o_BucketName : string;
  o_Prefix : string;
  o_DoNotUseTLS : bool;
  o_AccessKeyID : string;
  o_SecretAccessKey : string;
  o_WebIdentityToken : string;
  o_WebIdentityTokenFile : string;
  o_RoleARN : string;
  o_Region : string;
  o_PointInTime : option Z
}.

(** [blob.ConnectionInfo]: the type and, for the S3 provider, its options. *)
Record ConnectionInfo := mkConn { ci_Type : string; ci_Config : option S3Options }.

(** The checks of [s3Client], before it builds a client. *)
Definition s3Client (ci : ConnectionInfo) : result string S3Options :=
  if String.eqb (ci_Type ci) "b2" then Err "cloud-direct needs B2's S3-compatible endpoint"
  else match ci_Config ci with
  | Some opt =>
      if negb (String.eqb (ci_Type ci) "s3") then Err "cloud-direct needs an s3 target"
      else if String.eqb (o_BucketName opt) "" then Err "cloud-direct needs a bucket name"
      else if String.eqb (o_AccessKeyID opt) "" || String.eqb (o_SecretAccessKey opt) ""
      then Err "cloud-direct needs the fleet's admin key id and secret"
      else if negb (String.eqb (o_RoleARN opt) "") || negb (String.eqb (o_WebIdentityToken opt) "")
              || negb (String.eqb (o_WebIdentityTokenFile opt) "")
      then Err "cloud-direct uses a static admin key"
      else if String.eqb (o_Region opt) "" then Err "cloud-direct needs the bucket's region"
      else if o_DoNotUseTLS opt then Err "cloud-direct will not talk to a bucket over plaintext HTTP"
      else match o_PointInTime opt with
      | Some _ => Err "cloud-direct cannot write to a point-in-time view of a bucket"
      | None => Ok opt
      end
  | None => Err "cloud-direct needs an s3 target"
  end.

Definition fleetRoot (ciPrefix fleetPrefix : string) : result StoreErr string :=
  let root := ciPrefix +:+ fleetPrefix in
  if String.eqb root "" then Ok ""
  else if maxRootPrefix <? len root then Err ErrBadKey
  else if negb (HasSuffix root "/") then Err ErrBadKey
  else if negb (ValidString root) then Err ErrBadKey
  else if HasPrefix root "/" then Err ErrBadKey
  else if existsb forbidden_rune (runes root) then Err ErrBadKey
  else if existsb relative_segment (Split (TrimSuffix root "/") "/") then Err ErrBadKey
  else Ok root.

(** ** The store *)

Record cloud (P : Type) := mkCloud { c_prefix : string; c_bucket : P }.
Arguments mkCloud {P} c_prefix c_bucket.
Arguments c_prefix {P} _.
Arguments c_bucket {P} _.

(** What one call meets: a cancelled context, a failing spool file, the clock,
    and the network at its first and second request. *)
Record cenv (E : Type) := mkCenv {
  ce_ctx : bool;
  ce_spool : bool;
  ce_now : Z;
  ce_s3 : E;
  ce_s3' : E
}.
Arguments ce_ctx {E} _.
Arguments ce_spool {E} _.
Arguments ce_now {E} _.
Arguments ce_s3 {E} _.
Arguments ce_s3' {E} _.

Definition objectName (prefix key : string) : result StoreErr string :=
  let! _ := checkKey key in
  if String.eqb (fst (fst (Cut key "/"))) probeName then Err ErrBadKey
  else
    let full := prefix +:+ key in
    if MaxKeyLen <? len full then Err ErrBadKey else Ok full.

(** [mapErr] *)
Definition mapErr (e : S3Err) : StoreErr :=
  if StatusCode e =? 404 then ErrNotFound
  else if StatusCode e =? 416 then ErrRange
  else ErrOther.

Definition unquote (etag : string) : string := Trim etag [chr 34].

(** [spool]: the body, materialized, and whether its [md5Check] ran. *)
Definition spool (spool_fails : bool) (b : body) (size : Z) : result StoreErr string * bool :=
  let limit := if 0 <=? size then size else CloudMaxObjectSize in
  let in_memory := (0 <=? size) && (size <=? spoolAbove) in
  if negb in_memory && spool_fails then (Err ErrOther, false)
  else
    let '(data, ended, verified) := pull (limit + 1) b in
    (match ended with
     | RFail e => Err e
     | _ =>
         if (0 <=? size) && negb (len data =? size) then Err ErrIncompleteBody
         else if (size <? 0) && (CloudMaxObjectSize <? len data) then Err ErrTooLarge
         else Ok data
     end, verified).

Section Cloud.
Context {P E : Type} `{S3 P E}.

Definition cloud_Put (e : cenv E) (key : string) (b : body) (size : Z) (overwrite : bool) (c : cloud P)
  : result StoreErr ObjectInfo * bool * cloud P :=
  if ce_ctx e then (Err ErrOther, false, c)
  else match objectName (c_prefix c) key with
  | Err err => (Err err, false, c)
  | Ok name =>
      if CloudMaxObjectSize <? size then (Err ErrTooLarge, false, c)
      else match spool (ce_spool e) b size with
      | (Err err, verified) => (Err err, verified, c)
      | (Ok data, verified) =>
          let '(res, p) := PutObject (ce_s3 e) (negb overwrite) name data (c_bucket c) in
          (match res with
           | Err err => if negb overwrite && (StatusCode err =? 412) then Err ErrExists else Err ErrOther
           | Ok ui =>
               let mt := if IsZero (s3_LastModified ui) then ce_now e else s3_LastModified ui in
               Ok (mkObjectInfo key (len data) (unquote (s3_ETag ui)) mt)
           end, verified, mkCloud (c_prefix c) p)
      end
  end.

Definition cloud_Head (e : cenv E) (key : string) (c : cloud P) : result StoreErr ObjectInfo :=
  if ce_ctx e then Err ErrOther
  else
    let! name := objectName (c_prefix c) key in
    match StatObject (ce_s3 e) name (c_bucket c) with
    | Err err => Err (mapErr err)
    | Ok st => Ok (mkObjectInfo key (s3_Size st) (unquote (s3_ETag st)) (s3_LastModified st))
    end.

Definition cloud_Get (e : cenv E) (key : string) (offset length : Z) (c : cloud P)
  : result StoreErr (string * ObjectInfo) :=
  if ce_ctx e then Err ErrOther
  else
    let! info := cloud_Head e key c in
    let size := Size info in
    if (offset <? 0) || ((0 <? offset) && (size <=? offset)) then Err ErrRange
    else
      let length := if (length <? 0) || (size - offset <? length) then size - offset else length in
      if length =? 0 then Ok ("", info)
      else
        let! name := objectName (c_prefix c) key in
        match GetRange (ce_s3' e) name offset (offset + length - 1) (c_bucket c) with
        | Err err => Err (mapErr err)
        | Ok d => Ok (stake (Z.to_nat length) d, info)
        end.

(** The loop over the listing, with what has been collected so far. *)
Fixpoint list_channel (root prefix after : string) (max : nat) (objs : list ObjectInfo)
    (ch : list (result S3Err S3Stat)) : result StoreErr (list ObjectInfo * bool) :=
  match ch with
  | [] => Ok (objs, false)
  | Err _ :: _ => Err ErrOther
  | Ok o :: rest =>
      let '(key, ok) := CutPrefix (s3_Key o) root in
      if negb ok || negb (HasPrefix key prefix) || sle key after
      then list_channel root prefix after max objs rest
      else if Nat.eqb (length objs) max then Ok (objs, true)
      else list_channel root prefix after max
             (objs ++ [mkObjectInfo key (s3_Size o) "" (s3_LastModified o)]) rest
  end.

Definition cloud_List (e : cenv E) (prefix after : string) (max : Z) (c : cloud P)
  : result StoreErr (list ObjectInfo * bool) :=
  if ce_ctx e then Err ErrOther
  else
    let max := if (max <=? 0) || (cloudMaxKeys <? max) then cloudMaxKeys else max in
    let startAfter := if String.eqb after "" then "" else c_prefix c +:+ after in
    list_channel (c_prefix c) prefix after (Z.to_nat max) []
      (ListObjects (ce_s3 e) (c_prefix c +:+ prefix) startAfter (max + 1) (c_bucket c)).

Definition cloud_Delete (e : cenv E) (key : string) (c : cloud P) : result StoreErr unit * cloud P :=
  if ce_ctx e then (Err ErrOther, c)
  else match objectName (c_prefix c) key with
  | Err err => (Err err, c)
  | Ok name =>
      match StatObject (ce_s3 e) name (c_bucket c) with
      | Err err => (Err (mapErr err), c)
      | Ok _ =>
          let '(res, p) := RemoveObject (ce_s3' e) name (c_bucket c) in
          (match res with Err err => Err (mapErr err) | Ok _ => Ok tt end, mkCloud (c_prefix c) p)
      end
  end.

(** ** Probing a bucket before it backs a target *)

Inductive ProbeErr := ErrNoConditionalPut | ErrCondPutNotImplemented | ErrNoObjectLock | ErrProbe.

(** [ProbeConditionalPut]: two conditional writes, then the clean-up that was
    deferred; [rand] is the random name. *)
Definition ProbeConditionalPut (e1 e2 e3 : E) (root rand : string) (p : P) : result ProbeErr unit * P :=
  let name := root +:+ probeName +:+ "/" +:+ rand in
  let cleanup p := snd (RemoveObject e3 name p) in
  match PutObject e1 true name "warphold" p with
  | (Err err, p) =>
      (Err (if (StatusCode err =? 501) && String.eqb (S3Code err) "NotImplemented"
            then ErrCondPutNotImplemented else ErrProbe), cleanup p)
  | (Ok _, p) =>
      match PutObject e2 true name "warphold" p with
      | (Err err, p) => (if StatusCode err =? 412 then Ok tt else Err ErrProbe, cleanup p)
      | (Ok _, p) => (Err ErrNoConditionalPut, cleanup p)
      end
  end.

Definition ProbeObjectLock (e : E) (p : P) : result ProbeErr unit :=
  match ObjectLockConfig e p with
  | Err err => if String.eqb (S3Code err) "ObjectLockConfigurationNotFoundError"
               then Err ErrNoObjectLock else Err ErrProbe
  | Ok enabled => if negb (EqualFold enabled "Enabled") then Err ErrNoObjectLock else Ok tt
  end.
End Cloud.

(** * The cloud backend keeps the contract

    Given a bucket that behaves as S3 documents, the cloud-direct store obeys
    the laws of [ObjectStore], so everything proved of the gateway holds over
    it; fleets that share a bucket cannot collide; and the probe tells a bucket
    that enforces conditional writes from one that does not. *)

Section Facts.
Context {P E : Type} `{S3Laws P E}.

(** The objects under the fleet's root, by the key their callers use. *)
Definition under (root : string) (m : gmap string string) : gmap string string :=
  list_to_map (omap (fun '(n, d) => if HasPrefix n root then Some (sdrop (String.length root) n, d) else None)
                 (map_to_list m)).

Lemma elem_of_under root (m : gmap string string) k d :
  (k, d) ∈ omap (fun '(n, d) => if HasPrefix n root then Some (sdrop (String.length root) n, d) else None)
             (map_to_list m) <-> m !! (root +:+ k) = Some d.
Proof.
  rewrite list_elem_of_omap. split.
  - intros ([n d'] & Hin & Hn). apply elem_of_map_to_list in Hin.
    destruct (HasPrefix n root) eqn:Hp; [|done]. apply HasPrefix_spec in Hp as [t ->].
    rewrite sdrop_app in Hn. by injection Hn as -> ->.
  - intros Hm. exists (root +:+ k, d). split; [by apply elem_of_map_to_list|].
    by rewrite HasPrefix_app, sdrop_app.
Qed.

Lemma lookup_under root m k : under root m !! k = m !! (root +:+ k).
Proof.
  destruct (m !! (root +:+ k)) as [d|] eqn:E1.
  - apply elem_of_list_to_map_1'; [|by apply elem_of_under].
    intros d' Hd'%elem_of_under. congruence.
  - apply not_elem_of_list_to_map_1. intros Hin.
    apply list_elem_of_fmap in Hin as ([k' d] & -> & Hd%elem_of_under). cbn in *. congruence.
Qed.

Definition cloud_view (c : cloud P) : gmap string string := under (c_prefix c) (objects (c_bucket c)).

#[export] Instance cloud_store : ObjectStore (cloud P) (cenv E) := {|
  Put := cloud_Put;
  GetObject := cloud_Get;
  Head := cloud_Head;
  List := cloud_List;
  Delete := cloud_Delete;
  view := cloud_view
|}.

(** ** Changes of the bucket, seen through the root *)

Lemma under_insert root m k d : under root (<[root +:+ k := d]> m) = <[k := d]> (under root m).
Proof.
  apply map_eq. intros j. rewrite lookup_under, !lookup_insert, lookup_under.
  destruct (decide (k = j)) as [->|Hn]; [by rewrite decide_True|].
  rewrite decide_False; [done|]. by intros ?%sapp_inj_l.
Qed.

Lemma under_delete root m k : under root (delete (root +:+ k) m) = delete k (under root m).
Proof.
  apply map_eq. intros j. rewrite lookup_under, !lookup_delete, lookup_under.
  destruct (decide (k = j)) as [->|Hn]; [by rewrite decide_True|].
  rewrite decide_False; [done|]. by intros ?%sapp_inj_l.
Qed.

Lemma objectName_ok root key name :
  objectName root key = Ok name -> checkKey key = Ok tt /\ name = root +:+ key.
Proof.
  unfold objectName. destruct (checkKey key) as [[]|]; [|done].
  destruct (String.eqb _ probeName); [done|]. destruct (_ <? _); [done|]. by intros [= <-].
Qed.

Lemma spool_ok f b size data v :
  spool f b size = (Ok data, v) ->
  data = b_data b /\ (0 <= size -> len data = size)
  /\ (forall want, b_md5 b = Some want -> v = true /\ md5 (bytes data) = want).
Proof.
  unfold spool. destruct (_ && f); [done|].
  destruct (pull _ b) as [[d ended] v'] eqn:Ep.
  destruct ended as [|err|]; [|done|].
  - apply pull_eof in Ep as (-> & _ & Hm).
    destruct ((0 <=? size) && negb (len (b_data b) =? size)) eqn:E1; [done|].
    destruct ((size <? 0) && _) eqn:E2; [done|]. intros Hr. injection Hr as Hd Hv. subst data v'.
    split_and!; [done| |done]. intros Hs. bool_to_prop. destruct_or?; bool_to_prop; lia.
  - apply pull_more in Ep.
    destruct ((0 <=? size) && negb (len d =? size)) eqn:E1; [done|].
    destruct ((size <? 0) && _) eqn:E2; [done|].
    exfalso. unfold CloudMaxObjectSize in *. destruct (Z.leb_spec 0 size); bool_to_prop;
      destruct_or?; bool_to_prop; lia.
Qed.

(** What a Put did: nothing, or it stored the whole body. *)
Lemma cloud_Put_cases e k b size ow c r v c' :
  cloud_Put e k b size ow c = (r, v, c') ->
  (cloud_view c' = cloud_view c /\ is_ok r = false)
  \/ (checkKey k = Ok tt /\ cloud_view c' = <[k := b_data b]> (cloud_view c)
      /\ (ow = false -> cloud_view c !! k = None)
      /\ (0 <= size -> len (b_data b) = size)
      /\ (forall want, b_md5 b = Some want -> v = true /\ md5 (bytes (b_data b)) = want)
      /\ forall info, r = Ok info -> Key info = k).
Proof.
  unfold cloud_Put. destruct (ce_ctx e); [intros [= <- <- <-]; by left|].
  destruct (objectName _ k) as [name|] eqn:En; [|intros [= <- <- <-]; by left].
  apply objectName_ok in En as [Hk ->].
  destruct (_ <? size); [intros [= <- <- <-]; by left|].
  destruct (spool _ b size) as [[data|] v'] eqn:Es; [|intros [= <- <- <-]; by left].
  apply spool_ok in Es as (-> & Hlen & Hmd).
  destruct (PutObject _ _ _ _ _) as [[ui|err] p] eqn:Ep; intros [= <- <- <-].
  - right. unfold cloud_view. cbn [c_prefix c_bucket].
    rewrite (s3_put_ok _ _ _ _ _ _ _ Ep), under_insert. split_and!; try done.
    + intros ->. rewrite lookup_under. by apply s3_put_cond in Ep.
    + by intros info [= <-].
  - unfold cloud_view. cbn [c_prefix c_bucket].
    apply s3_put_err in Ep as [->|[-> Hc]]; [left; split; [done|by destruct (_ && _)]|right].
    rewrite under_insert. split_and!; try done.
    + intros ->. rewrite lookup_under. by apply Hc.
    + destruct (_ && _); by intros info [=].
Qed.

Lemma cloud_Head_ok e k c info :
  cloud_Head e k c = Ok info ->
  checkKey k = Ok tt
  /\ exists d, cloud_view c !! k = Some d /\ Key info = k /\ Size info = len d.
Proof.
  unfold cloud_Head. destruct (ce_ctx e); [done|].
  destruct (objectName _ k) as [name|] eqn:En; [|done]. apply objectName_ok in En as [Hk ->].
  destruct (StatObject _ _ _) as [st|] eqn:Es; [|done]. intros [= <-]. split; [done|].
  apply s3_stat_ok in Es as (d & Hd & Hs). exists d. unfold cloud_view. by rewrite lookup_under.
Qed.

Lemma stake_stake n s : stake n (stake n s) = stake n s.
Proof. revert s. induction n as [|n IH]; intros [|c s]; try done. cbn. by rewrite IH. Qed.

Lemma cloud_Get_ok e k offset length c d info :
  cloud_Get e k offset length c = Ok (d, info) ->
  exists full, cloud_view c !! k = Some full /\ Key info = k /\ Size info = len full
               /\ 0 <= offset <= len full /\ d = range_of full offset length.
Proof.
  unfold cloud_Get. destruct (ce_ctx e); [done|].
  destruct (cloud_Head e k c) as [i|] eqn:Eh; [|done].
  apply cloud_Head_ok in Eh as (_ & full & Hv & Hk & Hs).
  destruct (_ || _) eqn:Eo; [done|].
  assert (0 <= offset <= len full) as Ho.
  { bool_to_prop. pose proof (len_nonneg full). destruct_or?; bool_to_prop; lia. }
  unfold range_of. rewrite Hs.
  set (n := if (length <? 0) || (len full - offset <? length) then len full - offset else length).
  destruct (Z.eqb_spec n 0) as [Hn|Hn].
  - intros [= <- <-]. exists full. fold n. rewrite Hn. by split_and!; try lia.
  - destruct (objectName _ k) as [name|] eqn:En; [|done]. apply objectName_ok in En as [_ ->].
    destruct (GetRange _ _ _ _ _) as [x|] eqn:Eg; [|done]. intros [= <- <-].
    apply s3_get_ok in Eg as (full' & Hf & ->). exists full. fold n.
    unfold cloud_view in Hv. rewrite lookup_under, Hf in Hv. injection Hv as ->.
    replace (offset + n - 1 - offset + 1) with n by lia. rewrite stake_stake.
    unfold cloud_view. rewrite lookup_under. by split_and!; try lia.
Qed.

Lemma list_channel_sound root prefix after max p e pre' after' max' ch objs res more o :
  list_channel root prefix after max objs ch = Ok (res, more) ->
  (forall st, Ok st ∈ ch -> Ok st ∈ ListObjects e pre' after' max' p) ->
  o ∈ res ->
  o ∈ objs \/ HasPrefix (Key o) prefix = true /\ slt after (Key o) = true
              /\ exists d, objects p !! (root +:+ Key o) = Some d /\ Size o = len d.
Proof.
  revert objs. induction ch as [|x ch IH]; intros objs; cbn [list_channel]; [intros [= -> _]; auto|].
  destruct x as [st|err]; [|done]. unfold CutPrefix.
  intros Hl Hch Ho.
  assert (forall st, Ok st ∈ ch -> Ok st ∈ ListObjects e pre' after' max' p) as Hch'.
  { intros st' Hst'. apply Hch. by right. }
  destruct (HasPrefix (s3_Key st) root) eqn:Hr; cbn [negb orb] in Hl; [|by eapply IH].
  destruct (negb _ || sle _ after) eqn:Eskip; [by eapply IH|].
  destruct (Nat.eqb _ max); [injection Hl as -> _; auto|].
  destruct (IH _ Hl Hch' Ho) as [Hin|?]; [|by right].
  apply elem_of_app in Hin as [Hin|Hin%list_elem_of_singleton]; [by left|right].
  subst o. cbn [Key Size]. apply HasPrefix_spec in Hr as [t Ht].
  rewrite Ht, sdrop_app in *. apply orb_false_iff in Eskip as [Hp Ha].
  apply negb_false_iff in Hp. unfold sle in Ha. apply negb_false_iff in Ha.
  split_and!; [done..|]. destruct (s3_list_ok e pre' after' max' p st) as (d & Hd & Hs).
  { apply Hch. left. }
  exists d. by rewrite <- Ht.
Qed.

Lemma cloud_List_sound e prefix after max c objs more o :
  cloud_List e prefix after max c = Ok (objs, more) -> o ∈ objs ->
  HasPrefix (Key o) prefix = true /\ slt after (Key o) = true
  /\ exists d, cloud_view c !! Key o = Some d /\ Size o = len d.
Proof.
  unfold cloud_List. destruct (ce_ctx e); [done|]. intros Hl Ho.
  eapply list_channel_sound in Hl as [[]%elem_of_nil|?]; [| |exact Ho].
  - unfold cloud_view. by rewrite lookup_under.
  - eauto.
Qed.

Lemma cloud_Delete_cases e k c r c' :
  cloud_Delete e k c = (r, c') ->
  cloud_view c' = cloud_view c /\ is_ok r = false
  \/ is_Some (cloud_view c !! k) /\ cloud_view c' = delete k (cloud_view c).
Proof.
  unfold cloud_Delete. destruct (ce_ctx e); [intros [= <- <-]; by left|].
  destruct (objectName _ k) as [name|] eqn:En; [|intros [= <- <-]; by left].
  apply objectName_ok in En as [_ ->].
  destruct (StatObject _ _ _) as [st|] eqn:Es; [|intros [= <- <-]; by left].
  apply s3_stat_ok in Es as (d & Hd & _).
  destruct (RemoveObject _ _ _) as [[[]|err] p] eqn:Er; intros [= <- <-];
    unfold cloud_view; cbn [c_prefix c_bucket].
  - right. rewrite (s3_remove_ok _ _ _ _ Er), under_delete, lookup_under. eauto.
  - apply s3_remove_err in Er as [->| ->]; [by left|right]. rewrite under_delete, lookup_under. eauto.
Qed.

(** C32.  The cloud-direct backend keeps the contract of an object store: its
    writes are whole and append-only even when the provider's answer is lost,
    its reads return the stored range, its listings only stored objects -- so
    the gateway's guarantees hold for a bucket as they do for a disk. *)
Theorem cloud_keeps_contract : ObjectStoreLaws (cloud P) (cenv E).
Proof.
  split; cbn [Put GetObject Head List Delete view cloud_store].
  - intros e k b size ow s r v s' Hp k' Hne.
    apply cloud_Put_cases in Hp as [[-> _]|(_ & -> & _)]; [done|by rewrite lookup_insert_ne].
  - intros e k b size s r v s' d Hp Hd.
    apply cloud_Put_cases in Hp as [[-> _]|(_ & _ & Hn & _)]; [done|]. by rewrite Hn in Hd.
  - intros e k b size s r v s' d Hp Hd.
    apply cloud_Put_cases in Hp as [[_ ?]|(_ & _ & Hn & _)]; [done|]. by rewrite Hn in Hd.
  - intros e k b size ow s info v s' Hp.
    apply cloud_Put_cases in Hp as [[_ ?]|(Hk & -> & _ & Hs & Hm & Hi)]; [done|].
    rewrite lookup_insert_eq. eauto 6.
  - intros e k b size s r v s' d Hp Hn Hd.
    apply cloud_Put_cases in Hp as [[E1 _]|(_ & E1 & _ & _ & Hm & _)]; rewrite E1 in Hd; [congruence|].
    rewrite lookup_insert_eq in Hd. simplify_eq. split; [done|]. intros w Hw. by apply Hm.
  - intros. by eapply cloud_Get_ok.
  - intros e k s info Hh. by apply cloud_Head_ok in Hh as [_ ?].
  - intros. by eapply cloud_List_sound.
  - intros e k s r s' Hd k' Hne.
    apply cloud_Delete_cases in Hd as [[-> _]|(_ & ->)]; [done|by rewrite lookup_delete_ne].
  - intros e k s s' Hd. by apply cloud_Delete_cases in Hd as [[_ ?]|?].
  - intros e k s err s' Hd. apply cloud_Delete_cases in Hd as [[-> _]|?]; auto.
Qed.
End Facts.

(** ** Fleets sharing a bucket *)

(** A root [fleetRoot] accepted is empty or ends in a slash. *)
Lemma fleetRoot_shape a b root :
  fleetRoot a b = Ok root -> root = "" \/ exists r, root = r +:+ "/".
Proof.
  unfold fleetRoot. intros H. split_ifs_in H; bool_to_prop; [by left|right].
  by apply HasSuffix_spec.
Qed.

Lemma name_segments root key :
  (root = "" \/ exists r, root = r +:+ "/") -> checkKey key = Ok tt ->
  exists pre device name, root +:+ key = root +:+ device +:+ "/" +:+ name
    /\ key = device +:+ "/" +:+ name
    /\ Split (root +:+ key) "/" = pre ++ [device; name]
    /\ (root = "" -> pre = []) /\ (root <> "" -> exists r, root = r +:+ "/" /\ pre = Split r "/").
Proof.
  intros Hr [_ _ _ (d & n & -> & (Hd0 & _ & _ & Hd) & (_ & _ & _ & Hn) & _)]%checkKey_good.
  change ("/" +:+ n) with (String "/" n).
  assert (Split (d +:+ String "/" n) "/" = [d; n]) as Hs.
  { by rewrite Split_app, !Split_single. }
  destruct Hr as [->|[r ->]].
  - exists [], d, n. split_and!; try done.
  - exists (Split r "/"), d, n. rewrite sapp_assoc. change ("/" +:+ ?x) with (String "/" x).
    rewrite Split_app, Hs. split_and!; try done; [by rewrite sapp_assoc| |eauto].
    intros Hx. apply (f_equal String.length) in Hx. rewrite slength_app in Hx. cbn in Hx. lia.
Qed.

(** Fleets that share a bucket never collide: under roots the
    configuration accepts, two object names are equal only if both their roots
    and their keys are -- because a key is always exactly two segments. *)
Theorem roots_never_collide a1 b1 root1 key1 n1 a2 b2 root2 key2 n2 :
  fleetRoot a1 b1 = Ok root1 -> fleetRoot a2 b2 = Ok root2 ->
  objectName root1 key1 = Ok n1 -> objectName root2 key2 = Ok n2 ->
  n1 = n2 -> root1 = root2 /\ key1 = key2.
Proof.
  intros R1%fleetRoot_shape R2%fleetRoot_shape [K1 ->]%objectName_ok [K2 ->]%objectName_ok He.
  destruct (name_segments root1 key1 R1 K1) as (p1 & d1 & m1 & _ & -> & S1 & E1 & F1).
  destruct (name_segments root2 key2 R2 K2) as (p2 & d2 & m2 & _ & -> & S2 & E2 & F2).
  rewrite He, S2 in S1. apply app_inj_2 in S1 as [Hp Ht]; [|done]. injection Ht as -> ->.
  split; [|done]. destruct (decide (root1 = "")) as [->|Hn1], (decide (root2 = "")) as [->|Hn2]; try done.
  - destruct (F2 Hn2) as (r & _ & ->). rewrite E1 in Hp by done. by apply Split_nonempty in Hp.
  - destruct (F1 Hn1) as (r & _ & ->). rewrite E2 in Hp by done. symmetry in Hp. by apply Split_nonempty in Hp.
  - destruct (F1 Hn1) as (r1 & -> & ->), (F2 Hn2) as (r2 & -> & ->).
    f_equal. by rewrite <- (Join_Split r1 "/"), <- (Join_Split r2 "/"), Hp.
Qed.

Lemma roots_never_collide_witness :
  objectName "fleet/" "dev1/p01" = Ok "fleet/dev1/p01"
  /\ ("fleet/dev1/p01" = "fleet/dev1/p01" -> "fleet/" = "fleet/" /\ "dev1/p01" = "dev1/p01").
Proof.
  split; [by vm_compute|]. intros He.
  apply (roots_never_collide "fl" "eet/" "fleet/" "dev1/p01" "fleet/dev1/p01" "" "fleet/" "fleet/"
           "dev1/p01" "fleet/dev1/p01"); by vm_compute.
Defined.

(** ** The probe *)

(** The probe is exact on a bucket that keeps S3's word: it never
    accuses it of ignoring the precondition, succeeds when both writes are
    answered, and touches nothing but its own reserved name, which no device
    key can reach. *)
Theorem probe_is_exact {P E : Type} `{S3Laws P E} e1 e2 e3 root rand p res p' :
  ProbeConditionalPut e1 e2 e3 root rand p = (res, p') ->
  res <> Err ErrNoConditionalPut
  /\ (forall n, n <> root +:+ probeName +:+ "/" +:+ rand -> objects p' !! n = objects p !! n)
  /\ forall key name, objectName root key = Ok name -> name <> root +:+ probeName +:+ "/" +:+ rand.
Proof.
  intros Hp.
  assert (forall e n q x q', PutObject e true n "warphold" q = (x, q') ->
    forall j, j <> n -> objects q' !! j = objects q !! j) as Hput.
  { intros e n q [u|err] q' Hq j Hj.
    - apply s3_put_ok in Hq as ->. by rewrite lookup_insert_ne.
    - apply s3_put_err in Hq as [->|[-> _]]; [done|]. by rewrite lookup_insert_ne. }
  assert (forall n q j, j <> n -> objects (snd (RemoveObject e3 n q)) !! j = objects q !! j) as Hrm.
  { intros n q j Hj. destruct (RemoveObject e3 n q) as [[[]|err] q'] eqn:Er.
    - cbn [snd]. rewrite (s3_remove_ok _ _ _ _ Er). by rewrite lookup_delete_ne.
    - cbn [snd]. apply s3_remove_err in Er as [->| ->]; [done|]. by rewrite lookup_delete_ne. }
  split_and!.
  - intros ->. unfold ProbeConditionalPut in Hp.
    destruct (PutObject e1 _ _ _ _) as [[u|err] p1] eqn:E1;
      [|injection Hp as Hp _; by destruct (_ && _)].
    destruct (PutObject e2 _ _ _ _) as [[u2|err] p2] eqn:E2;
      [|injection Hp as Hp _; by destruct (_ =? _)].
    apply s3_put_ok in E1. apply s3_put_cond in E2. by rewrite E1, lookup_insert_eq in E2.
  - intros n Hn. unfold ProbeConditionalPut in Hp.
    destruct (PutObject e1 _ _ _ _) as [[u|err] p1] eqn:E1.
    + destruct (PutObject e2 _ _ _ _) as [[u2|err] p2] eqn:E2; injection Hp as _ <-;
        rewrite Hrm by done; rewrite (Hput _ _ _ _ _ E2) by done; by apply (Hput _ _ _ _ _ E1).
    + injection Hp as _ <-. rewrite Hrm by done. by apply (Hput _ _ _ _ _ E1).
  - intros key name Ho Hn. unfold objectName in Ho.
    destruct (checkKey key) as [[]|] eqn:Ec; [|done].
    destruct (String.eqb _ probeName) eqn:Ed; [done|]. destruct (_ <? _); [done|].
    injection Ho as <-. apply sapp_inj_l in Hn. subst key. by vm_compute in Ed.
Qed.

(** ** A bucket in memory *)

(** The network: nothing happens, or a failure, before or after the request
    took effect. *)
Definition net : Type := option (S3Err * bool).

Definition mem_stat (n d : string) : S3Stat := mkS3Stat n (len d) (hex_encode (md5 (bytes d))) 0.

Definition mem_put (enforce : bool) (e : net) (cond : bool) (n d : string) (p : gmap string string)
  : result S3Err S3Stat * gmap string string :=
  match p !! n with
  | Some _ =>
      if enforce && cond then (Err (mkS3Err 412 "PreconditionFailed"), p)
      else match e with
      | None => (Ok (mem_stat n d), <[n := d]> p)
      | Some (x, applied) => (Err x, if applied then <[n := d]> p else p)
      end
  | None =>
      match e with
      | None => (Ok (mem_stat n d), <[n := d]> p)
      | Some (x, applied) => (Err x, if applied then <[n := d]> p else p)
      end
  end.

Definition mem_list (pre after : string) (max : Z) (p : gmap string string) : list (result S3Err S3Stat) :=
  (fun n => Ok (mem_stat n (default "" (p !! n)))) <$>
    filter (fun n => HasPrefix n pre = true /\ slt after n = true) (sort_strings (elements (dom p))).

Definition mem_s3 (enforce : bool) : S3 (gmap string string) net := {|
  PutObject := mem_put enforce;
  StatObject e n p := match e, p !! n with
    | Some (x, _), _ => Err x
    | None, Some d => Ok (mem_stat n d)
    | None, None => Err (mkS3Err 404 "NoSuchKey")
    end;
  GetRange e n i j p := match e, p !! n with
    | Some (x, _), _ => Err x
    | None, Some d => Ok (stake (Z.to_nat (j - i + 1)) (sdrop (Z.to_nat i) d))
    | None, None => Err (mkS3Err 404 "NoSuchKey")
    end;
  ListObjects e pre after max p := match e with Some (x, _) => [Err x] | None => mem_list pre after max p end;
  RemoveObject e n p := match e with
    | None => (Ok tt, delete n p)
    | Some (x, applied) => (Err x, if applied then delete n p else p)
    end;
  ObjectLockConfig e p := match e with Some (x, _) => Err x | None => Ok "Enabled" end;
  objects p := p
|}.

#[export] Instance mem_s3_laws : @S3Laws _ _ (mem_s3 true).
Proof.
  split; cbn [PutObject StatObject GetRange ListObjects RemoveObject objects mem_s3]; unfold mem_put.
  - intros e n d p u p' Hp. destruct (p !! n); [done|done].
  - intros e c n d p u p' Hp. split_ifs_in Hp; done.
  - intros e c n d p x p' Hp.
    destruct (p !! n) eqn:En; [destruct c|]; cbn [andb] in Hp;
      [injection Hp as _ <-; by left|..]; destruct e as [[y []]|]; try done; injection Hp as _ <-; auto;
      by right.
  - intros e n p st Hs. split_ifs_in Hs. eauto.
  - intros e n i j p d Hg. split_ifs_in Hg. eauto.
  - intros e pre after max p st Hin. destruct e as [[x b]|].
    + by apply list_elem_of_singleton in Hin.
    + apply list_elem_of_fmap in Hin as (n & [= ->] & Hn).
      apply list_elem_of_filter in Hn as [_ Hn]. rewrite elem_of_sort_strings, elem_of_elements in Hn.
      apply elem_of_dom in Hn as [d Hd]. cbn. rewrite Hd. eauto.
  - intros e n p p' Hr. split_ifs_in Hr; done.
  - intros e n p x p' Hr. destruct e as [[y []]|]; try done; injection Hr as _ <-; auto.
Qed.

Lemma cloud_keeps_contract_witness :
  @ObjectStoreLaws (cloud (gmap string string)) (cenv net) (@cloud_store _ _ (mem_s3 true)).
Proof. exact (@cloud_keeps_contract _ _ (mem_s3 true) mem_s3_laws). Defined.

Lemma probe_is_exact_witness :
  fst (@ProbeConditionalPut _ _ (mem_s3 true) None None None "fleet/" "R" ∅) = Ok tt
  /\ fst (@ProbeConditionalPut _ _ (mem_s3 false) None None None "fleet/" "R" ∅) = Err ErrNoConditionalPut
  /\ fst (@ProbeConditionalPut _ _ (mem_s3 true) None None None "fleet/" "R" ∅) <> Err ErrNoConditionalPut.
Proof.
  split_and!; [by vm_compute|by vm_compute|].
  exact (proj1 (@probe_is_exact _ _ (mem_s3 true) mem_s3_laws None None None "fleet/" "R" ∅ _ _
    (surjective_pairing _))).
Defined.
