(* ===== verification/Limit.v ===== *)
(** * The token-bucket rate limiter

    [fleet/gateway/limit.go], the [limiter]: one bucket per id, refilled at
    [rate] per second up to [burst], swept when idle.  The bucket's float64
    arithmetic is exact rational arithmetic followed by a rounding [rnd]; the
    facts about IEEE rounding the theorems rely on are named in [Rounding]. *)

From S2P Require Import Prelude GoStrings GoTime.
From Stdlib Require Import Lqa Qabs.
#[local] Open Scope Q_scope.

(** ** Rational helpers *)

Definition Qltb (x y : Q) : bool := negb (Qle_bool y x).

Lemma Qltb_lt x y : Qltb x y = true <-> x < y.
Proof.
  unfold Qltb. rewrite negb_true_iff, <- not_true_iff_false, Qle_bool_iff.
  split; [apply Qnot_le_lt|intros H1 H2; lra].
Qed.

Lemma Qltb_ge x y : Qltb x y = false <-> y <= x.
Proof. unfold Qltb. rewrite negb_false_iff. apply Qle_bool_iff. Qed.

Definition qmin (x y : Q) : Q := if Qle_bool x y then x else y.

Lemma qmin_spec x y : (x <= y /\ qmin x y = x) \/ (y < x /\ qmin x y = y).
Proof.
  unfold qmin. destruct (Qle_bool x y) eqn:E.
  - left. by apply Qle_bool_iff in E.
  - right. split; [|done]. apply Qltb_lt. unfold Qltb. by rewrite E.
Qed.

(** ** The limiter *)

Definition DefaultRatePerSecond : Q := 50.
Definition DefaultRateBurst : Q := 200.
Definition DefaultIPRatePerSecond : Q := 200.
Definition DefaultIPRateBurst : Q := 800.
Definition idleEvict : Z := (10 * Minute)%Z.
Definition sweepEvery : Z := Minute.

Record bucket := mkBucket { tokens : Q; last_seen : Z }.

Record limiter := mkLimiter {
  rate : Q;
  burst : Q;
  buckets : gmap string bucket;
  lastSweep : Z
}.

Definition newLimiter (ratePerSecond burst : Q) : limiter :=
  mkLimiter (if Qle_bool ratePerSecond 0 then DefaultRatePerSecond else ratePerSecond)
            (if Qle_bool burst 0 then DefaultRateBurst else burst) ∅ zero_time.

Definition newIPLimiter (ratePerSecond burst : Q) : limiter :=
  newLimiter (if Qle_bool ratePerSecond 0 then DefaultIPRatePerSecond else ratePerSecond)
             (if Qle_bool burst 0 then DefaultIPRateBurst else burst).

(** [sweepLocked] *)
Definition sweepLocked (now : Z) (l : limiter) : limiter :=
  if (Sub now (lastSweep l) <? sweepEvery)%Z then l
  else mkLimiter (rate l) (burst l)
         (filter (fun '(_, b) => (Sub now (last_seen b) <= idleEvict)%Z) (buckets l)) now.

(** float64 rounding: monotone, and exact on zero. *)
Class Rounding (rnd : Q -> Q) : Prop := {
  rnd_mono x y : x <= y -> rnd x <= rnd y;
  rnd_0 : rnd 0 == 0
}.

Section Limiter.
Variable rnd : Q -> Q.

(** [d.Seconds()]: whole seconds plus the nanoseconds over 1e9. *)
Definition Seconds (d : Z) : Q :=
  rnd (rnd (inject_Z (Z.quot d Second)) + rnd (inject_Z (Z.rem d Second) / inject_Z Second)).

(** The tokens of a bucket after the refill of [allow]. *)
Definition refill (l : limiter) (b : bucket) (now : Z) : Q :=
  let d := Sub now (last_seen b) in
  if (0 <? d)%Z then qmin (burst l) (rnd (tokens b + rnd (Seconds d * rate l))) else tokens b.

Definition set_bucket (id : string) (b : bucket) (l : limiter) : limiter :=
  mkLimiter (rate l) (burst l) (<[id := b]> (buckets l)) (lastSweep l).

Definition allow (id : string) (now : Z) (l : limiter) : bool * limiter :=
  let l := sweepLocked now l in
  let b := default (mkBucket (burst l) now) (buckets l !! id) in
  let t := refill l b now in
  if Qltb t 1 then (false, set_bucket id (mkBucket t now) l)
  else (true, set_bucket id (mkBucket (rnd (t - 1)) now) l).

(** ** No bucket is ever overdrawn or overfull *)

Definition limiter_ok (l : limiter) : Prop :=
  0 <= rate l /\ 0 <= burst l /\ rnd (burst l) == burst l
  /\ forall id b, buckets l !! id = Some b -> 0 <= tokens b <= burst l.

Context `{!Rounding rnd}.

Lemma rnd_nonneg x : 0 <= x -> 0 <= rnd x.
Proof. intros H. rewrite <- rnd_0. by apply rnd_mono. Qed.

Lemma Seconds_nonneg d : (0 <= d)%Z -> 0 <= Seconds d.
Proof.
  intros H. unfold Seconds.
  assert (0 <= inject_Z (Z.quot d Second)) as H1.
  { change 0 with (inject_Z 0). rewrite <- Zle_Qle. by apply Z.quot_pos. }
  assert (0 <= inject_Z (Z.rem d Second) / inject_Z Second) as H2.
  { apply Qle_shift_div_l; [done|]. rewrite Qmult_0_l. change 0 with (inject_Z 0).
    rewrite <- Zle_Qle. by apply Z.rem_nonneg. }
  apply rnd_nonneg. pose proof (rnd_nonneg _ H1). pose proof (rnd_nonneg _ H2). lra.
Qed.

Lemma refill_bounds l b now :
  limiter_ok l -> 0 <= tokens b <= burst l -> 0 <= refill l b now <= burst l.
Proof.
  intros (Hr & Hb & _) Ht. unfold refill. destruct (Z.ltb_spec 0 (Sub now (last_seen b))); [|done].
  assert (0 <= rnd (tokens b + rnd (Seconds (Sub now (last_seen b)) * rate l))).
  { apply rnd_nonneg. enough (0 <= rnd (Seconds (Sub now (last_seen b)) * rate l)) by lra.
    apply rnd_nonneg, Qmult_le_0_compat; [|done]. apply Seconds_nonneg. lia. }
  destruct (qmin_spec (burst l) (rnd (tokens b + rnd (Seconds (Sub now (last_seen b)) * rate l))))
    as [[? ->]|[? ->]]; lra.
Qed.

Lemma sweep_ok now l : limiter_ok l -> limiter_ok (sweepLocked now l).
Proof.
  unfold sweepLocked. destruct (_ <? _)%Z; [done|]. intros (? & ? & ? & Hb).
  split_and!; [done..|]. cbn. intros id b [Hl _]%map_lookup_filter_Some. eauto.
Qed.

Lemma set_bucket_ok id b l :
  limiter_ok l -> 0 <= tokens b <= burst l -> limiter_ok (set_bucket id b l).
Proof.
  intros (? & ? & ? & Hl) Hb. split_and!; [done..|]. cbn. intros id' b'.
  rewrite lookup_insert. case_decide; [by intros [= <-]|apply Hl].
Qed.

Lemma bucket_bounds id now l :
  limiter_ok l -> 0 <= tokens (default (mkBucket (burst l) now) (buckets l !! id)) <= burst l.
Proof.
  intros (_ & Hb & _ & Hl). destruct (buckets l !! id) as [b|] eqn:E; cbn; [eauto|lra].
Qed.

(** The bounds are kept by every call. *)
Lemma allow_keeps id now l : limiter_ok l -> limiter_ok (snd (allow id now l)).
Proof.
  intros Hl. unfold allow. apply (sweep_ok now) in Hl.
  set (l' := sweepLocked now l) in *.
  pose proof (refill_bounds l' _ now Hl (bucket_bounds id now l' Hl)) as Ht.
  destruct (Qltb _ 1) eqn:E; cbn [snd]; apply set_bucket_ok; try done; cbn [tokens].
  apply Qltb_ge in E. destruct Hl as (_ & Hb & Hrb & _). split; [apply rnd_nonneg; lra|].
  rewrite <- Hrb at 2. apply rnd_mono. lra.
Qed.

(** Every call keeps every bucket between empty and full, for any
    monotone rounding of the arithmetic. *)
Theorem allow_ok id now l : limiter_ok l -> limiter_ok (snd (allow id now l)).
Proof. apply allow_keeps. Qed.
End Limiter.

#[export] Instance exact_rounding : Rounding (fun q => q).
Proof. by split. Qed.

Lemma newLimiter_ok r b : limiter_ok (fun q => q) (newLimiter r b).
Proof.
  unfold newLimiter, limiter_ok. cbn [rate burst buckets]. split_and!; [| |done|].
  - destruct (Qle_bool r 0) eqn:E; [by vm_compute|]. apply Qlt_le_weak, Qltb_lt.
    unfold Qltb. by rewrite E.
  - destruct (Qle_bool b 0) eqn:E; [by vm_compute|]. apply Qlt_le_weak, Qltb_lt.
    unfold Qltb. by rewrite E.
  - intros id x H. by rewrite lookup_empty in H.
Qed.

Lemma allow_ok_witness :
  limiter_ok (fun q => q) (snd (allow (fun q => q) "dev1" 0 (newLimiter 0 0))).
Proof. apply (allow_ok (fun q => q) "dev1" 0 (newLimiter 0 0)), newLimiter_ok. Defined.

(** ** Throughput

    With exact arithmetic, a device gets at most [burst] requests plus [rate]
    per second, however its calls interleave with other devices' and with
    the sweep. *)
Module Throughput.

Definition run_one (l : limiter) (c : string * Z) : bool * limiter :=
  allow (fun q => q) (fst c) (snd c) l.

(** How many of a sequence of calls were allowed for [id]. *)
Fixpoint granted (id : string) (calls : list (string * Z)) (l : limiter) : Z :=
  match calls with
  | [] => 0
  | c :: rest =>
      let '(ok, l') := run_one l c in
      ((if ok && String.eqb (fst c) id then 1 else 0) + granted id rest l')%Z
  end.

(** Calls at non-decreasing times, none before [t]; [finish] is the last. *)
Fixpoint ordered (t : Z) (calls : list (string * Z)) : Prop :=
  match calls with [] => True | c :: rest => (t <= snd c)%Z /\ ordered (snd c) rest end.

Fixpoint finish (t : Z) (calls : list (string * Z)) : Z :=
  match calls with [] => t | c :: rest => finish (snd c) rest end.

Definition secs (d : Z) : Q := inject_Z d / inject_Z Second.

Lemma Seconds_exact d : Seconds (fun q => q) d == secs d.
Proof.
  unfold Seconds, secs. rewrite (Z.quot_rem' d Second) at 3.
  rewrite inject_Z_plus, inject_Z_mult. field. by vm_compute.
Qed.

Lemma secs_mono x y : (x <= y)%Z -> secs x <= secs y.
Proof.
  intros H. unfold secs. apply Qmult_le_compat_r; [|by vm_compute]. by rewrite <- Zle_Qle.
Qed.

Lemma secs_nonneg x : (0 <= x)%Z -> 0 <= secs x.
Proof.
  intros H. assert (0 == secs 0) as -> by (unfold secs, Qdiv; ring). by apply secs_mono.
Qed.

Lemma secs_plus x y : secs (x + y) == secs x + secs y.
Proof. unfold secs. rewrite inject_Z_plus. field. by vm_compute. Qed.

(** What [id] could draw at time [t]. *)
Definition available (id : string) (t : Z) (l : limiter) : Q :=
  match buckets l !! id with
  | None => burst l
  | Some b => qmin (burst l) (tokens b + secs (Z.max 0 (Sub t (last_seen b))) * rate l)
  end.

(** The bucket refills within the idle window, so dropping an idle one gives
    away nothing. *)
Definition refills_when_idle (l : limiter) : Prop := burst l <= secs idleEvict * rate l.

Definition good (l : limiter) : Prop := limiter_ok (fun q => q) l /\ refills_when_idle l.

Lemma good_bucket id b l : good l -> buckets l !! id = Some b -> 0 <= tokens b <= burst l.
Proof. intros [(_ & _ & _ & H) _]. apply H. Qed.

Lemma good_rate l : good l -> 0 <= rate l /\ 0 <= burst l.
Proof. by intros [(? & ? & _) _]. Qed.

Lemma available_le_burst id t l : available id t l <= burst l.
Proof.
  unfold available. destruct (buckets l !! id); [|lra].
  match goal with |- qmin ?x ?y <= _ => destruct (qmin_spec x y) as [[? ->]|[? ->]]; lra end.
Qed.

(** Waiting earns at most [rate] per second. *)
Lemma available_later id t t' l :
  good l -> (t <= t')%Z -> available id t' l <= available id t l + secs (t' - t) * rate l.
Proof.
  intros Hg Ht. destruct (good_rate l Hg) as [Hr Hb].
  assert (0 <= secs (t' - t) * rate l) as Hd.
  { apply Qmult_le_0_compat; [|done]. apply secs_nonneg. lia. }
  unfold available. destruct (buckets l !! id) as [b|]; [|lra].
  assert (secs (Z.max 0 (Sub t' (last_seen b))) * rate l
          <= secs (Z.max 0 (Sub t (last_seen b))) * rate l + secs (t' - t) * rate l) as Hs.
  { rewrite <- Qmult_plus_distr_l, <- secs_plus. apply Qmult_le_compat_r; [|done].
    apply secs_mono. unfold Sub, int64_min, int64_max. lia. }
  repeat match goal with |- context [qmin ?x ?y] =>
    destruct (qmin_spec x y) as [[? ->]|[? ->]] end; lra.
Qed.

(** Sweeping gives nothing away. *)
Lemma available_sweep id t l : good l -> available id t (sweepLocked t l) <= available id t l.
Proof.
  intros Hg. destruct (good_rate l Hg) as [Hr Hb].
  unfold sweepLocked. destruct (_ <? _)%Z; [lra|]. unfold available at 1. cbn [buckets burst rate].
  destruct (filter _ (buckets l) !! id) as [b|] eqn:E.
  - apply map_lookup_filter_Some in E as [E _]. unfold available. rewrite E. lra.
  - apply map_lookup_filter_None in E. unfold available.
    destruct (buckets l !! id) as [b|] eqn:B; [|lra].
    destruct E as [|E]; [done|]. specialize (E b eq_refl). apply Z.nle_gt in E.
    destruct Hg as [Hok Hi]. unfold refills_when_idle in Hi.
    destruct (good_bucket id b l) as [Ht _]; [by split|done|].
    assert (secs idleEvict * rate l <= secs (Z.max 0 (Sub t (last_seen b))) * rate l).
    { apply Qmult_le_compat_r; [|done]. apply secs_mono. lia. }
    match goal with |- _ <= qmin ?x ?y => destruct (qmin_spec x y) as [[? ->]|[? ->]]; lra end.
Qed.

Lemma good_sweep t l : good l -> good (sweepLocked t l).
Proof.
  intros [H1 H2]. split; [by apply sweep_ok|]. unfold sweepLocked. by destruct (_ <? _)%Z.
Qed.

(** The refill of [allow] is what was available. *)
Lemma refill_available id t l :
  good l ->
  refill (fun q => q) l (default (mkBucket (burst l) t) (buckets l !! id)) t == available id t l.
Proof.
  intros Hg. unfold refill, available. destruct (buckets l !! id) as [b|] eqn:E;
    cbv [default from_option Datatypes.id].
  - destruct (good_bucket _ _ _ Hg E). destruct (Z.ltb_spec 0 (Sub t (last_seen b))) as [Hd|Hd].
    + rewrite Z.max_r by lia.
      pose proof (Seconds_exact (Sub t (last_seen b))) as Hs.
      assert (Seconds (fun q => q) (Sub t (last_seen b)) * rate l
              == secs (Sub t (last_seen b)) * rate l) as Hm by (by rewrite Hs).
      repeat match goal with |- context [qmin ?x ?y] =>
        destruct (qmin_spec x y) as [[? ->]|[? ->]] end; lra.
    + rewrite Z.max_l by lia. change (secs 0) with (0 / inject_Z Second).
      assert (0 / inject_Z Second * rate l == 0) as Hz by (unfold Qdiv; ring).
      match goal with |- context [qmin ?x ?y] =>
        destruct (qmin_spec x y) as [[? ->]|[? ->]] end; lra.
  - cbn [last_seen tokens]. replace (Sub t t) with 0%Z by (unfold Sub, int64_min, int64_max; lia).
    done.
Qed.

Lemma available_set_same id t q l : available id t (set_bucket id (mkBucket q t) l) <= q.
Proof.
  unfold available, set_bucket. cbn [buckets burst rate]. rewrite lookup_insert_eq.
  cbn [tokens last_seen].
  replace (Z.max 0 (Sub t t)) with 0%Z by (unfold Sub, int64_min, int64_max; lia).
  assert (secs 0 * rate l == 0) by (unfold secs, Qdiv; ring).
  match goal with |- context [qmin ?x ?y] => destruct (qmin_spec x y) as [[? ->]|[? ->]] end; lra.
Qed.

Lemma available_set_other id id' t b l :
  id' <> id -> available id t (set_bucket id' b l) = available id t l.
Proof. intros H. unfold available, set_bucket. cbn. by rewrite lookup_insert_ne. Qed.

(** One call: what it grants [id] is drawn from what was available. *)
Lemma run_one_draws id l id' t ok l' :
  good l -> run_one l (id', t) = (ok, l') ->
  good l' /\ rate l' = rate l /\ burst l' = burst l
  /\ inject_Z (if ok && String.eqb id' id then 1 else 0) + available id t l' <= available id t l.
Proof.
  intros Hg H. assert (rate l' = rate l /\ burst l' = burst l) as [Hrate Hburst].
  { unfold run_one, allow in H. cbn [fst snd] in H.
    assert (rate (sweepLocked t l) = rate l /\ burst (sweepLocked t l) = burst l) as [E1 E2].
    { unfold sweepLocked. by destruct (_ <? _)%Z. }
    destruct (Qltb _ 1); simplify_eq; done. }
  assert (good l') as Hg'.
  { destruct Hg as [Hok Hi]. split.
    - pose proof (allow_keeps (fun q => q) id' t l Hok) as A. unfold run_one in H.
      cbn [fst snd] in H. by rewrite H in A.
    - unfold refills_when_idle in *. by rewrite Hrate, Hburst. }
  split_and!; [done..|]. clear Hrate Hburst.
  pose proof (available_sweep id t l Hg) as Hs. pose proof (good_sweep t l Hg) as Hgs.
  unfold run_one, allow in H. cbn [fst snd] in H. set (l1 := sweepLocked t l) in *.
  pose proof (refill_available id' t l1 Hgs) as Hr. revert H Hr.
  set (r := refill _ _ _ _). intros H Hr.
  destruct (String.eqb_spec id' id) as [->|Hne].
  - destruct (Qltb r 1) eqn:E; simplify_eq; cbn [andb].
    + pose proof (available_set_same id t r l1). change (inject_Z 0) with 0. lra.
    + pose proof (available_set_same id t (r - 1) l1). change (inject_Z 1) with 1. lra.
  - rewrite andb_false_r. change (inject_Z 0) with 0.
    destruct (Qltb r 1); simplify_eq; rewrite available_set_other by done; lra.
Qed.

Lemma granted_bound id calls : forall t l,
  good l -> ordered t calls ->
  inject_Z (granted id calls l) <= available id t l + secs (finish t calls - t) * rate l.
Proof.
  induction calls as [|[id' t1] calls IH]; intros t l Hg Ho; cbn [granted finish].
  - destruct (good_rate l Hg) as [Hr Hb].
    assert (0 <= available id t l).
    { unfold available. destruct (buckets l !! id) as [b|] eqn:E; [|done].
      destruct (good_bucket _ _ _ Hg E).
      assert (0 <= secs (Z.max 0 (Sub t (last_seen b))) * rate l).
      { apply Qmult_le_0_compat; [|done]. apply secs_nonneg. lia. }
      match goal with |- context [qmin ?x ?y] =>
        destruct (qmin_spec x y) as [[? ->]|[? ->]] end; lra. }
    assert (secs (t - t) * rate l == 0) as -> by (rewrite Z.sub_diag; unfold secs, Qdiv; ring).
    change (inject_Z 0) with 0. lra.
  - destruct Ho as [Ht Ho]. cbn [snd] in *.
    destruct (run_one l (id', t1)) as [ok l'] eqn:R.
    destruct (run_one_draws id l id' t1 ok l' Hg R) as (Hg' & Hr & _ & Hd).
    specialize (IH t1 l' Hg' Ho). rewrite Hr in IH.
    pose proof (available_later id t t1 l Hg Ht) as Hl.
    rewrite inject_Z_plus. cbn [fst].
    assert (secs (finish t1 calls - t) * rate l
            == secs (finish t1 calls - t1) * rate l + secs (t1 - t) * rate l) as Hsum.
    { rewrite <- Qmult_plus_distr_l, <- secs_plus. by replace (finish t1 calls - t1 + (t1 - t))%Z
        with (finish t1 calls - t)%Z by lia. }
    lra.
Qed.

(** C35.  The throughput bound, in exact arithmetic (not rounded to binary64).
    Of a limiter whose buckets refill within the idle window, [burst <= idleEvict
    * rate], as the defaults do, and over any stretch of time, whatever the other
    devices do and whenever the sweep runs, a device is granted at most
    [burst] requests plus [rate] for every second of the stretch.  (A limiter that
    refills more slowly gives tokens back by sweeping: [sweep_refunds_slow_limiters].) *)
Theorem granted_le_burst_plus_rate id calls t l :
  good l -> ordered t calls ->
  inject_Z (granted id calls l) <= burst l + secs (finish t calls - t) * rate l.
Proof.
  intros Hg Ho. pose proof (granted_bound id calls t l Hg Ho).
  pose proof (available_le_burst id t l). lra.
Qed.
(** The gateway's default limits refill within the idle window. *)
Lemma default_limits_good : good (newLimiter 0 0) /\ good (newIPLimiter 0 0).
Proof. split; (split; [apply newLimiter_ok|by vm_compute]). Qed.

Lemma granted_le_burst_plus_rate_witness :
  inject_Z (granted "dev1" [("dev1", 0%Z); ("dev2", Second); ("dev1", (2 * Second)%Z)]
              (newLimiter 0 0)) <= 200 + secs (2 * Second - 0) * 50.
Proof.
  apply (granted_le_burst_plus_rate "dev1"
           [("dev1", 0%Z); ("dev2", Second); ("dev1", (2 * Second)%Z)] 0 (newLimiter 0 0));
    [apply default_limits_good|by vm_compute].
Defined.

(** The sweep drops a bucket for being idle, full or not.  A limiter whose
    bucket takes longer than the idle window to refill therefore grants more
    than its rate: here one request per thousand seconds and a burst of one,
    and two requests 601 seconds apart. *)
Lemma sweep_refunds_slow_limiters :
  let l := newLimiter (1 # 1000) 1 in
  let calls := [("dev1", 0%Z); ("dev1", (601 * Second)%Z)] in
  limiter_ok (fun q => q) l /\ ordered 0 calls
  /\ burst l + secs (finish 0 calls - 0) * rate l < inject_Z (granted "dev1" calls l).
Proof. split_and!; [apply newLimiter_ok|by vm_compute..]. Qed.
End Throughput.
