(* ===== verification/GoNet.v ===== *)
(** * Addresses and requests

    What the gateway uses of [net] and [net/http]: textual IP addresses,
    CIDR networks, "host:port" pairs, canonical header names, and the request
    itself.  An address is the list of its bytes, sixteen of them as
    [net.ParseIP] returns it. *)

From S2P Require Import Prelude GoStrings GoText.
From Stdlib Require Import Ascii.

(** ** Dotted quads *)

Definition isdigit (c : ascii) : bool := between 48 57 (code c).

(** One decimal field of at most three digits, no leading zero. *)
Definition v4_field (s : string) : option Z :=
  match s with
  | EmptyString => None
  | String c t =>
      if Ascii.eqb c "0" && negb (String.eqb t "") then None
      else n ← digits s 0; if 255 <? n then None else Some n
  end.

(** [netip.parseIPv4Fields]: exactly four fields. *)
Definition parseIPv4 (s : string) : option (list Z) :=
  match Split s "." with
  | [a; b; c; d] =>
      a ← v4_field a; b ← v4_field b; c ← v4_field c; d ← v4_field d; Some [a; b; c; d]
  | _ => None
  end.

(** ** Colon-separated groups *)

(** The leading run of hexadecimal digits: value, digits read, rest. *)
Fixpoint hex_run (s : string) (acc : Z) (n : nat) : Z * nat * string :=
  match s with
  | String c t => match unhex c with Some d => hex_run t (acc * 16 + d) (S n) | None => (acc, n, s) end
  | EmptyString => (acc, n, "")
  end.

(** The loop of [netip.parseIPv6] over the groups that still fit: [ip] is what
    has been read, [ell] where the ellipsis was.  Leaving the loop yields the
    bytes, the ellipsis and the unread text. *)
Fixpoint v6_groups (room : nat) (s : string) (ip : list Z) (ell : option nat)
  : option (list Z * option nat * string) :=
  match room with
  | O => Some (ip, ell, s)
  | S room' =>
      let '(acc, n, rest) := hex_run s 0 0 in
      if Nat.eqb n 0 || (4 <? n)%nat then None
      else if HasPrefix rest "." then
        if (match ell with None => negb (Nat.eqb (length ip) 12) | Some _ => false end)
           || (16 <? length ip + 4)%nat then None
        else q ← parseIPv4 s; Some (ip ++ q, ell, "")
      else
        let ip := ip ++ [acc / 256; acc `mod` 256] in
        match rest with
        | EmptyString => Some (ip, ell, "")
        | String c rest =>
            if negb (Ascii.eqb c ":") then None
            else match rest with
            | EmptyString => None
            | String d rest' =>
                if Ascii.eqb d ":" then
                  match ell with
                  | Some _ => None
                  | None =>
                      if String.eqb rest' "" then Some (ip, Some (length ip), "")
                      else v6_groups room' rest' ip (Some (length ip))
                  end
                else v6_groups room' rest ip ell
            end
        end
  end.

(** [netip.parseIPv6] for an address without a zone. *)
Definition parseIPv6 (s : string) : option (list Z) :=
  let lead := HasPrefix s "::" in
  let body := if lead then sdrop 2 s else s in
  if lead && String.eqb body "" then Some (replicate 16 0)
  else
    '(ip, ell, rest) ← v6_groups 8 body [] (if lead then Some O else None);
    if negb (String.eqb rest "") then None
    else if (length ip <? 16)%nat then
      e ← ell; Some (take e ip ++ replicate (16 - length ip) 0 ++ drop e ip)
    else match ell with Some _ => None | None => Some ip end.

Fixpoint first_of (s : string) (set : list ascii) : option ascii :=
  match s with
  | EmptyString => None
  | String c t => if bool_decide (c ∈ set) then Some c else first_of t set
  end.

Definition v4_in_v6 : list Z := replicate 10 0 ++ [255; 255].

(** [netip.ParseAddr]: the family (its bit length) and the sixteen bytes.  A
    zone is refused by both callers, so an address with one is [None]. *)
Definition ParseAddr (s : string) : option (Z * list Z) :=
  match first_of s ["."; ":"; "%"]%char with
  | Some "."%char => q ← parseIPv4 s; Some (32, v4_in_v6 ++ q)
  | Some ":"%char => if Contains s "%" then None else ip ← parseIPv6 s; Some (128, ip)
  | _ => None
  end.

(** [net.ParseIP] *)
Definition ParseIP (s : string) : option (list Z) := snd <$> ParseAddr s.

Definition To4 (ip : list Z) : option (list Z) :=
  if Nat.eqb (length ip) 4 then Some ip
  else if Nat.eqb (length ip) 16 && bool_decide (take 12 ip = v4_in_v6) then Some (drop 12 ip)
  else None.

(** The bytes an address is compared by: four when it is an IPv4 address. *)
Definition short (ip : list Z) : list Z := default ip (To4 ip).

(** ** Printing *)

Definition hex16 (z : Z) : string :=
  let h := hex_encode [z / 256; z `mod` 256] in
  let t := String.string_of_list_ascii (trim_left ["0"%char] (String.list_ascii_of_string h)) in
  if String.eqb t "" then "0" else t.

Fixpoint pairs16 (ip : list Z) : list Z :=
  match ip with a :: b :: t => a * 256 + b :: pairs16 t | _ => [] end.

(** Length of the run of zero groups at the head. *)
Fixpoint zero_run (l : list Z) : nat :=
  match l with 0 :: t => S (zero_run t) | _ => O end.

(** The first longest run of at least two zero groups: start and length. *)
Fixpoint best_run (l : list Z) (i : nat) (best : nat * nat) : nat * nat :=
  match l with
  | [] => best
  | _ :: t =>
      let n := zero_run l in
      best_run t (S i) (if (1 <? n)%nat && (snd best <? n)%nat then (i, n) else best)
  end.

Definition v6_string (ip : list Z) : string :=
  let g := pairs16 ip in
  let '(i, n) := best_run g 0 (O, O) in
  if Nat.eqb n 0 then Join (hex16 <$> g) ":"
  else Join (hex16 <$> take i g) ":" +:+ "::" +:+ Join (hex16 <$> drop (i + n) g) ":".

(** [ip.String()] of a sixteen-byte address. *)
Definition IP_String (ip : list Z) : string :=
  match To4 ip with
  | Some q => Join (FormatInt <$> q) "."
  | None => v6_string ip
  end.

(** ** Networks *)

Record IPNet := mkIPNet { net_IP : list Z; net_Mask : list Z }.

(** One byte of [net.CIDRMask] with [n] bits left to set. *)
Definition mask_byte (n : Z) : Z :=
  if 8 <=? n then 255 else if n <=? 0 then 0 else 256 - 2 ^ (8 - n).

Definition CIDRMask (ones bits : Z) : list Z :=
  (fun i => mask_byte (ones - 8 * Z.of_nat i)) <$> seq 0 (Z.to_nat (bits / 8)).

(** [ip.Mask(m)] for a sixteen-byte address. *)
Definition Mask (ip m : list Z) : list Z :=
  let ip := if Nat.eqb (length m) 4 && bool_decide (take 12 ip = v4_in_v6) then drop 12 ip else ip in
  if Nat.eqb (length ip) (length m) then zip_with Z.land ip m else [].

(** [networkNumberAndMask] *)
Definition networkNumberAndMask (n : IPNet) : option (list Z * list Z) :=
  let ip := short (net_IP n) in
  if negb (Nat.eqb (length ip) 4 || Nat.eqb (length ip) 16) then None
  else if Nat.eqb (length (net_Mask n)) 4 then
    if Nat.eqb (length ip) 4 then Some (ip, net_Mask n) else None
  else if Nat.eqb (length (net_Mask n)) 16 then
    Some (ip, if Nat.eqb (length ip) 4 then drop 12 (net_Mask n) else net_Mask n)
  else None.

(** [n.Contains(ip)]; a malformed network has a nil number, which no address
    matches in length. *)
Definition Net_Contains (n : IPNet) (ip : list Z) : bool :=
  let x := short ip in
  match networkNumberAndMask n with
  | None => Nat.eqb (length x) 0
  | Some (nn, m) =>
      Nat.eqb (length x) (length nn)
      && bool_decide (zip_with Z.land nn m = zip_with Z.land x m)
  end.

(** [dtoi] over a whole string, which stops at 0xFFFFFF. *)
Definition dtoi (s : string) : option Z :=
  n ← unsigned_int s; if 0xFFFFFF <=? n then None else Some n.

(** [net.ParseCIDR], the network. *)
Definition ParseCIDR (s : string) : option IPNet :=
  let '(addr, mask, found) := Cut s "/" in
  if negb found then None
  else
    '(bits, ip) ← ParseAddr addr;
    n ← dtoi mask;
    if bits <? n then None
    else let m := CIDRMask n bits in Some (mkIPNet (Mask ip m) m).

(** ** "host:port" *)

Fixpoint index_byte (s : string) (c : ascii) : option nat :=
  match s with
  | EmptyString => None
  | String d t => if Ascii.eqb d c then Some O else S <$> index_byte t c
  end.

Fixpoint last_index_byte (s : string) (c : ascii) : option nat :=
  match s with
  | EmptyString => None
  | String d t =>
      match last_index_byte t c with
      | Some i => Some (S i)
      | None => if Ascii.eqb d c then Some O else None
      end
  end.

(** [net.SplitHostPort], the host. *)
Definition SplitHost (hostport : string) : option string :=
  i ← last_index_byte hostport ":";
  '(host, j, k) ←
    (if HasPrefix hostport "[" then
       e ← index_byte hostport "]";
       if Nat.eqb (S e) i then Some (sdrop 1 (stake e hostport), 1%nat, S e) else None
     else
       let host := stake i hostport in
       if Contains host ":" then None else Some (host, O, O));
  if Contains (sdrop j hostport) "[" || Contains (sdrop k hostport) "]" then None
  else Some host.

(** ** Header names and requests *)

(** The bytes of an RFC 7230 token. *)
Definition token_byte (c : ascii) : bool :=
  between 48 57 (code c) || between 65 90 (code c) || between 97 122 (code c)
  || bool_decide (c ∈ ["!"; "#"; "$"; "%"; "&"; "'"; "*"; "+"; "-"; "."; "^"; "_"; "`"; "|"; "~"]%char).

Definition upper (c : ascii) : ascii :=
  if between 97 122 (code c) then chr (code c - 32) else c.

Fixpoint canonical_go (up : bool) (s : string) : string :=
  match s with
  | EmptyString => ""
  | String c t => String (if up then upper c else lower c) (canonical_go (Ascii.eqb c "-") t)
  end.

(** [textproto.CanonicalMIMEHeaderKey] *)
Definition CanonicalKey (s : string) : string :=
  if forallb token_byte (String.list_ascii_of_string s) then canonical_go true s else s.

(** The server keys the header map by canonical names. *)
Record Request := mkRequest {
  Method : string;
  Path : string;
  RawQuery : string;
  Host : string;
  ContentLength : Z;
  Headers : gmap string (list string);
  RemoteAddr : string
}.

Definition header_values (r : Request) (name : string) : list string :=
  default [] (Headers r !! CanonicalKey name).

(** [r.Header.Get] *)
Definition header (r : Request) (name : string) : string :=
  match header_values r name with v :: _ => v | [] => "" end.

(** ** The printed form of an address identifies it *)

Example parse_ip_ex :
  ParseIP "10.0.0.1" = Some (v4_in_v6 ++ [10; 0; 0; 1])
  /\ ParseIP "::ffff:10.0.0.1" = Some (v4_in_v6 ++ [10; 0; 0; 1])
  /\ ParseIP "010.0.0.1" = None /\ ParseIP "10.0.0" = None /\ ParseIP "10.0.0.256" = None
  /\ ParseIP "10.0.0." = None /\ ParseIP "" = None /\ ParseIP "fe80::1%eth0" = None
  /\ (IP_String <$> ParseIP "2001:DB8:0:0:1::1") = Some "2001:db8::1:0:0:1"
  /\ (IP_String <$> ParseIP "::") = Some "::" /\ (IP_String <$> ParseIP "::1") = Some "::1"
  /\ (IP_String <$> ParseIP "1::") = Some "1::"
  /\ ParseIP "1:2:3:4:5:6:7:8:9" = None /\ ParseIP "1:2:3:4:5:6:7::8" = None
  /\ (IP_String <$> ParseIP "1:2:3:4:5:6:1.2.3.4") = Some "1:2:3:4:5:6:102:304"
  /\ (IP_String <$> ParseIP "1:0:0:4:0:0:0:8") = Some "1:0:0:4::8".
Proof. vm_compute. repeat split. Qed.

Example split_host_ex :
  SplitHost "10.0.0.1:80" = Some "10.0.0.1" /\ SplitHost "[::1]:80" = Some "::1"
  /\ SplitHost "::1" = None /\ SplitHost "host" = None /\ SplitHost "[::1]" = None
  /\ SplitHost "[a]b:1" = None.
Proof. vm_compute. repeat split. Qed.

Example canonical_ex :
  CanonicalKey "x-amz-date" = "X-Amz-Date" /\ CanonicalKey "host" = "Host"
  /\ CanonicalKey "a b" = "a b" /\ CanonicalKey "CONTENT-md5" = "Content-Md5".
Proof. vm_compute. repeat split. Qed.

Example cidr_ex :
  ParseCIDR "10.1.2.3/8" = Some (mkIPNet [10; 0; 0; 0] [255; 0; 0; 0])
  /\ ParseCIDR "10.1.2.3/33" = None /\ ParseCIDR "10.1.2.3/" = None
  /\ (flip Net_Contains (v4_in_v6 ++ [10; 9; 9; 9]) <$> ParseCIDR "10.0.0.0/8") = Some true
  /\ (flip Net_Contains (v4_in_v6 ++ [11; 9; 9; 9]) <$> ParseCIDR "10.0.0.0/8") = Some false.
Proof. vm_compute. repeat split. Qed.
