(* ===== verification/ClientIP.v ===== *)
(** * Who is calling

    [fleet/gateway/limit.go], [ClientIP] and [ParseTrustedProxies]: the one
    place X-Forwarded-For is interpreted. *)

From S2P Require Import Prelude GoStrings GoText GoNet.
From Stdlib Require Import Ascii.

Definition peerIP (r : Request) : string :=
  match SplitHost (RemoteAddr r) with Some host => host | None => RemoteAddr r end.

Definition isTrusted (ip : option (list Z)) (trusted : list IPNet) : bool :=
  match ip with
  | None => false
  | Some ip => existsb (fun n => Net_Contains n ip) trusted
  end.

Definition xff : string := "X-Forwarded-For".

(** One hop of the header, as an address. *)
Definition hop_ip (hop : string) : option (list Z) :=
  ParseIP (Trim (TrimSpace hop) ["["; "]"]%char).

(** The walk over the hops, nearest first. *)
Fixpoint walk_hops (peer : string) (trusted : list IPNet) (hops : list string) : string :=
  match hops with
  | [] => peer
  | hop :: rest =>
      match hop_ip hop with
      | None => peer
      | Some ip =>
          if negb (isTrusted (Some ip) trusted) then IP_String ip
          else walk_hops peer trusted rest
      end
  end.

Definition ClientIP (r : Request) (trusted : list IPNet) : string :=
  let peer := peerIP r in
  if Nat.eqb (length trusted) 0 || negb (isTrusted (ParseIP peer) trusted) then peer
  else walk_hops peer trusted (rev (Split (Join (header_values r xff) ",") ",")).

(** One field of the proxy list; [Some None] is a blank field, skipped. *)
Definition parse_proxy (field : string) : option (option IPNet) :=
  let field := TrimSpace field in
  if String.eqb field "" then Some None
  else if negb (Contains field "/") then
    ip ← ParseIP (Trim field ["["; "]"]%char);
    let bits := match To4 ip with Some _ => 32 | None => 128 end in
    Some (Some (mkIPNet ip (CIDRMask bits bits)))
  else n ← ParseCIDR field; Some (Some n).

Fixpoint parse_proxies (fields : list string) : option (list IPNet) :=
  match fields with
  | [] => Some []
  | f :: rest =>
      n ← parse_proxy f;
      out ← parse_proxies rest;
      Some (match n with Some n => n :: out | None => out end)
  end.

Definition ParseTrustedProxies (raw : string) : option (list IPNet) :=
  parse_proxies (Split raw ",").

(** ** The walk *)

(** The forwarding chain that the trusted side of the network appended:
    the client's address, then the proxies it crossed. *)
Definition chain (c : string) (proxies : list string) : string := Join (c :: proxies) ",".

Lemma walk_chain peer trusted c proxies forged ip :
  hop_ip c = Some ip -> isTrusted (Some ip) trusted = false ->
  Forall (fun p => isTrusted (hop_ip p) trusted = true) proxies ->
  walk_hops peer trusted (rev (forged ++ c :: proxies)) = IP_String ip.
Proof.
  intros Hc Hu Hp. rewrite rev_app_distr. cbn [rev]. rewrite <- app_assoc.
  rewrite <- (rev_involutive proxies) in Hp.
  generalize dependent (rev proxies). intros l Hp. apply Forall_rev in Hp.
  rewrite rev_involutive in Hp. induction Hp as [|p l Hq Hp IH]; cbn [app walk_hops].
  - by rewrite Hc, Hu.
  - destruct (hop_ip p) as [q|]; [|done]. by rewrite Hq.
Qed.

(** C36.  The header is unforgeable.  From an untrusted peer it changes
    nothing at all; behind trusted proxies, whatever the client wrote to the
    left of the address its nearest trusted proxy appended, the answer is that
    address. *)
Theorem ClientIP_unforgeable r trusted :
  (isTrusted (ParseIP (peerIP r)) trusted = false -> ClientIP r trusted = peerIP r)
  /\ forall forged c proxies ip,
       isTrusted (ParseIP (peerIP r)) trusted = true ->
       hop_ip c = Some ip -> isTrusted (Some ip) trusted = false ->
       Forall (fun p => isTrusted (hop_ip p) trusted = true) proxies ->
       Forall (fun p => Contains p "," = false) (c :: proxies) ->
       (Join (header_values r xff) "," = chain c proxies
        \/ Join (header_values r xff) "," = forged +:+ "," +:+ chain c proxies) ->
       ClientIP r trusted = IP_String ip.
Proof.
  unfold ClientIP. split; [intros ->; by rewrite orb_true_r|].
  intros forged c proxies ip Hpeer Hc Hu Hp Hcom Hj.
  rewrite Hpeer.
  destruct trusted as [|n trusted]; [by destruct (ParseIP (peerIP r))|].
  cbn [length Nat.eqb orb negb].
  destruct Hj as [->| ->].
  - unfold chain. rewrite Split_Join by done. by apply (walk_chain _ _ c proxies []).
  - change ("," +:+ ?x) with (String "," x). unfold chain.
    rewrite Split_app, Split_Join by done.
    by apply walk_chain.
Qed.

Definition sample_request (peer : string) (lines : list string) : Request :=
  mkRequest "GET" "/warphold/" "" "backup.example" 0 {[ "X-Forwarded-For" := lines ]} peer.

Definition sample_proxies : list IPNet :=
  default [] (ParseTrustedProxies "10.0.0.0/8, 192.168.1.1").

Lemma ClientIP_unforgeable_witness :
  ClientIP (sample_request "203.0.113.9:4711" ["10.9.9.9"]) sample_proxies
    = peerIP (sample_request "203.0.113.9:4711" ["10.9.9.9"])
  /\ ClientIP (sample_request "10.0.0.7:443" ["1.1.1.1"; "198.51.100.4, 192.168.1.1"]) sample_proxies
     = IP_String (v4_in_v6 ++ [198; 51; 100; 4]).
Proof.
  split.
  - apply (proj1 (ClientIP_unforgeable (sample_request "203.0.113.9:4711" ["10.9.9.9"]) sample_proxies)).
    by vm_compute.
  - apply (proj2 (ClientIP_unforgeable
        (sample_request "10.0.0.7:443" ["1.1.1.1"; "198.51.100.4, 192.168.1.1"]) sample_proxies)
      "1.1.1.1" "198.51.100.4" [" 192.168.1.1"] (v4_in_v6 ++ [198; 51; 100; 4])).
    1-3: by vm_compute.
    + constructor; [by vm_compute|constructor].
    + by repeat (constructor; [by vm_compute|]).
    + right. by vm_compute.
Defined.

(** ** A bare address trusts one host *)

Lemma zip_ff l : Forall (fun z => 0 <= z < 256) l -> zip_with Z.land l (replicate (length l) 255) = l.
Proof.
  induction 1 as [|z l Hz _ IH]; [done|]. cbn. rewrite IH. f_equal.
  change 255 with (Z.ones 8). rewrite Z.land_ones by done. by apply Z.mod_small.
Qed.

Definition ip16 (ip : list Z) : Prop := length ip = 16%nat /\ byte_list ip.

Lemma CIDRMask_full (n : nat) : CIDRMask (8 * Z.of_nat n) (8 * Z.of_nat n) = replicate n 255.
Proof.
  unfold CIDRMask. rewrite Z.mul_comm, Z.div_mul by done. rewrite Nat2Z.id.
  apply list_eq. intros i. rewrite list_lookup_fmap. destruct (decide (i < n)%nat) as [H|H].
  - rewrite lookup_seq_lt by done. cbn. rewrite lookup_replicate_2 by done. unfold mask_byte.
    destruct (Z.leb_spec 8 (Z.of_nat n * 8 - 8 * Z.of_nat i)); [done|lia].
  - rewrite lookup_seq_ge by lia. symmetry. apply lookup_replicate_None. lia.
Qed.

Lemma To4_16 ip q : ip16 ip -> To4 ip = Some q -> ip = v4_in_v6 ++ q /\ length q = 4%nat.
Proof.
  intros [Hl _]. unfold To4. rewrite Hl. cbn [Nat.eqb andb]. intros H.
  case_bool_decide as Hv; [|done]. injection H as <-. rewrite length_drop, Hl.
  split; [|done]. rewrite <- Hv. by rewrite take_drop.
Qed.

Lemma short_inj ip ip' : ip16 ip -> ip16 ip' -> short ip = short ip' -> ip = ip'.
Proof.
  intros H H'. unfold short.
  destruct (To4 ip) as [q|] eqn:E, (To4 ip') as [q'|] eqn:E'; cbn; intros Hs; subst; [| | |done].
  - by rewrite (proj1 (To4_16 _ _ H E)), (proj1 (To4_16 _ _ H' E')).
  - apply To4_16 in E as [_ E]; [|done]. destruct H'. lia.
  - apply To4_16 in E' as [_ E']; [|done]. destruct H. lia.
Qed.

Lemma short_bytes ip : ip16 ip -> byte_list (short ip).
Proof.
  intros [Hl Hb]. unfold short, To4. rewrite Hl. cbn [Nat.eqb andb].
  case_bool_decide; cbn; [by apply Forall_drop|done].
Qed.

Lemma single_host_contains ip ip' :
  ip16 ip -> ip16 ip' ->
  let bits := match To4 ip with Some _ => 32 | None => 128 end in
  Net_Contains (mkIPNet ip (CIDRMask bits bits)) ip' = true <-> ip' = ip.
Proof.
  intros H H'. unfold Net_Contains, networkNumberAndMask. cbn [net_IP net_Mask].
  pose proof (short_bytes _ H) as Hb. pose proof (short_bytes _ H') as Hb'.
  assert (exists n, length (short ip) = n
    /\ (n = 4 \/ n = 16)%nat
    /\ CIDRMask (match To4 ip with Some _ => 32 | None => 128 end)
         (match To4 ip with Some _ => 32 | None => 128 end) = replicate n 255) as (n & Hn & Hn' & ->).
  { unfold short. destruct (To4 ip) as [q|] eqn:E; cbn.
    - apply To4_16 in E as [_ E]; [|done]. exists 4%nat. split_and!; auto; by apply (CIDRMask_full 4).
    - destruct H as [Hl _]. exists 16%nat. split_and!; auto; by apply (CIDRMask_full 16). }
  assert (Net : forall x : list Z, (length x =? length (short ip))%nat
     && bool_decide (zip_with Z.land (short ip) (replicate n 255) = zip_with Z.land x (replicate n 255)) = true
     <-> length x = length (short ip)
       /\ zip_with Z.land (short ip) (replicate n 255) = zip_with Z.land x (replicate n 255)).
  { intros x. by rewrite andb_true_iff, Nat.eqb_eq, bool_decide_eq_true. }
  rewrite length_replicate.
  transitivity (length (short ip') = length (short ip)
    /\ zip_with Z.land (short ip) (replicate n 255) = zip_with Z.land (short ip') (replicate n 255)).
  { rewrite <- Net, Hn. destruct Hn' as [-> | ->]; cbn [Nat.eqb orb negb]; by rewrite Hn. }
  split.
  - intros [Hl Hz]. apply short_inj; [done..|].
    rewrite <- (zip_ff (short ip) Hb), <- (zip_ff (short ip') Hb'), Hl, Hn. done.
  - intros ->. done.
Qed.

(** ** Parsed addresses are sixteen bytes *)

Lemma digits_nonneg s acc n : 0 <= acc -> digits s acc = Some n -> 0 <= n.
Proof.
  revert acc. induction s as [|c s IH]; intros acc Ha; cbn; [by intros [= <-]|].
  destruct (between 48 57 (code c)) eqn:E; [|done]. unfold between in E. bool_to_prop.
  apply IH. lia.
Qed.

Lemma v4_field_range s n : v4_field s = Some n -> 0 <= n < 256.
Proof.
  destruct s as [|c t]; cbn [v4_field]; [done|]. destruct (_ && _); [done|].
  destruct (digits _ 0) as [m|] eqn:E; [|done]. apply digits_nonneg in E; [|done].
  cbn. destruct (Z.ltb_spec 255 m); [done|]. intros [= <-]. lia.
Qed.

Lemma parseIPv4_bytes s q : parseIPv4 s = Some q -> length q = 4%nat /\ byte_list q.
Proof.
  unfold parseIPv4. intros H. destruct (Split s ".") as [|a [|b [|c [|d [|]]]]]; try done.
  destruct (v4_field a) eqn:Ea, (v4_field b) eqn:Eb, (v4_field c) eqn:Ec, (v4_field d) eqn:Ed;
    try done. injection H as <-. split; [done|].
  repeat constructor; eapply v4_field_range; eassumption.
Qed.

Lemma unhex_range c d : unhex c = Some d -> 0 <= d < 16.
Proof.
  unfold unhex, between. intros H. split_ifs_in H; bool_to_prop; lia.
Qed.

Lemma hex_run_range s acc n acc' n' rest :
  hex_run s acc n = (acc', n', rest) -> 0 <= acc < 16 ^ Z.of_nat n ->
  0 <= acc' < 16 ^ Z.of_nat n'.
Proof.
  revert acc n. induction s as [|c s IH]; intros acc n; cbn [hex_run]; [by intros [= <- <- <-]|].
  destruct (unhex c) as [d|] eqn:E; [|by intros [= <- <- <-]].
  intros H Ha. apply unhex_range in E. apply (IH _ _ H).
  rewrite Nat2Z.inj_succ, Z.pow_succ_r by lia. lia.
Qed.

(** What the group loop has read so far: whole groups, or the end. *)
Lemma v6_groups_bytes room s ip ell ip' ell' rest :
  v6_groups room s ip ell = Some (ip', ell', rest) ->
  byte_list ip -> (length ip + 2 * room <= 16)%nat -> (default O ell <= length ip)%nat ->
  byte_list ip' /\ (length ip' <= 16)%nat /\ (default O ell' <= length ip')%nat.
Proof.
  revert s ip ell. induction room as [|room IH]; intros s ip ell; cbn [v6_groups].
  { intros [= <- <- <-]. intros. split_and!; try done; lia. }
  destruct (hex_run s 0 0) as [[acc n] rst] eqn:Eh.
  destruct (_ || _) eqn:En; [done|]. bool_to_prop.
  apply Nat.ltb_ge in H0. pose proof (hex_run_range _ _ _ _ _ _ Eh ltac:(lia)) as Ha.
  assert (0 <= acc < 65536) as Ha'.
  { pose proof (Z.pow_le_mono_r 16 (Z.of_nat n) 4 ltac:(lia) ltac:(lia)).
    change (16 ^ 4) with 65536 in *. lia. }
  destruct (HasPrefix rst ".").
  - destruct (_ || _) eqn:Eo; [done|]. bool_to_prop. apply Nat.ltb_ge in H2.
    destruct (parseIPv4 s) as [q|] eqn:E4; [|done]. apply parseIPv4_bytes in E4 as [Hq Hqb].
    cbn. intros [= <- <- <-] Hb _ He. rewrite length_app. split_and!; [by apply Forall_app|lia..].
  - intros Hg Hb Hl He.
    assert (byte_list (ip ++ [acc / 256; acc `mod` 256])) as Hb2.
    { apply Forall_app. split; [done|]. repeat constructor; lia_div. }
    assert (length (ip ++ [acc / 256; acc `mod` 256]) = S (S (length ip))) as Hl2.
    { rewrite length_app. cbn. lia. }
    generalize dependent (ip ++ [acc / 256; acc `mod` 256]). intros ip2 Hg Hb2 Hl2.
    destruct rst as [|c [|d rst]]; [injection Hg as <- <- <-; split_and!; try done; lia| |].
    { by destruct (negb _). }
    destruct (negb _); [done|]. destruct (Ascii.eqb d ":").
    + destruct ell; [done|]. destruct (String.eqb rst "").
      * injection Hg as <- <- <-. cbn. split_and!; try done; lia.
      * apply IH in Hg; [done|done|lia|cbn; lia].
    + apply IH in Hg; [done|done|lia|lia].
Qed.

Lemma byte_list_replicate n : byte_list (replicate n 0).
Proof. by apply Forall_replicate. Qed.

Lemma parseIPv6_ip16 s ip : parseIPv6 s = Some ip -> ip16 ip.
Proof.
  unfold parseIPv6. destruct (_ && _); [by intros [= <-]; split; [done|apply (byte_list_replicate 16)]|].
  destruct (v6_groups _ _ _ _) as [[[l ell] rest]|] eqn:E; [|done]. cbn [mbind option_bind].
  apply v6_groups_bytes in E as (Hb & Hl & He); [|constructor|cbn; lia|by destruct (HasPrefix s "::")].
  destruct (negb _); [done|]. destruct (Nat.ltb_spec (length l) 16).
  - destruct ell as [e|]; [|done]. cbn in *. intros [= <-]. split.
    + rewrite !length_app, length_take, length_drop, length_replicate. lia.
    + apply Forall_app. split; [by apply Forall_take|]. apply Forall_app.
      split; [apply byte_list_replicate|by apply Forall_drop].
  - destruct ell; [done|]. intros [= <-]. split; [lia|done].
Qed.

Lemma ParseIP_ip16 s ip : ParseIP s = Some ip -> ip16 ip.
Proof.
  unfold ParseIP, ParseAddr. destruct (first_of _ _) as [c|]; [|done].
  destruct (decide (c = "."%char)) as [->|]; [|destruct (decide (c = ":"%char)) as [->|]].
  - destruct (parseIPv4 s) as [q|] eqn:E; [|done]. apply parseIPv4_bytes in E as [Hl Hb].
    cbn. intros [= <-]. split; [cbn; lia|]. apply (Forall_app _ v4_in_v6). split; [|done].
    repeat constructor; lia.
  - destruct (Contains s "%"); [done|]. destruct (parseIPv6 s) as [q|] eqn:E; [|done].
    cbn. intros [= <-]. by eapply parseIPv6_ip16.
  - destruct c as [[] [] [] [] [] [] [] []]; done.
Qed.

(** ** The proxy list means what it says *)

(** What one field of the list trusts. *)
Definition field_trusts (field : string) (x : list Z) : Prop :=
  let field := TrimSpace field in
  field <> ""
  /\ if Contains field "/" then exists n, ParseCIDR field = Some n /\ Net_Contains n x = true
     else ParseIP (Trim field ["["; "]"]%char) = Some x.

Definition field_ok (field : string) : bool :=
  match parse_proxy field with Some _ => true | None => false end.

Lemma parse_proxy_trusts field n x :
  ip16 x -> parse_proxy field = Some n ->
  field_trusts field x <-> match n with Some n => Net_Contains n x = true | None => False end.
Proof.
  intros Hx. unfold parse_proxy, field_trusts.
  destruct (String.eqb _ "") eqn:E; bool_to_prop; [intros [= <-]; tauto|].
  destruct (Contains (TrimSpace field) "/"); cbn [negb].
  - destruct (ParseCIDR _) as [c|]; [|done]. cbn. intros [= <-]. split; [|eauto].
    by intros [_ (? & [= <-] & ?)].
  - destruct (ParseIP _) as [ip|] eqn:Ep; [|done]. cbn. intros [= <-].
    rewrite single_host_contains by eauto using ParseIP_ip16. split; [by intros [_ [= ->]]|].
    by intros ->.
Qed.

(** The trusted-proxy list is all or nothing -- it is refused exactly
    when one of its fields is unreadable -- and what is accepted trusts exactly
    the addresses its fields name: a bare address one host, a CIDR its range. *)
Theorem ParseTrustedProxies_exact raw :
  (ParseTrustedProxies raw = None <-> Exists (fun f => field_ok f = false) (Split raw ","))
  /\ forall nets s x, ParseTrustedProxies raw = Some nets -> ParseIP s = Some x ->
     isTrusted (Some x) nets = true <-> Exists (fun f => field_trusts f x) (Split raw ",").
Proof.
  unfold ParseTrustedProxies. generalize (Split raw ","). intros fields.
  induction fields as [|f fields [IHn IHs]]; cbn [parse_proxies].
  { split; [by rewrite Exists_nil|]. intros nets s x [= <-] _. by rewrite Exists_nil. }
  split.
  - rewrite Exists_cons, <- IHn. unfold field_ok.
    destruct (parse_proxy f) as [n|]; cbn; [|tauto]. destruct (parse_proxies fields); naive_solver.
  - intros nets s x H Hx. rewrite Exists_cons.
    destruct (parse_proxy f) as [n|] eqn:Ef; [|done].
    destruct (parse_proxies fields) as [out|]; [|done]. injection H as <-.
    rewrite (parse_proxy_trusts f n x) by eauto using ParseIP_ip16.
    rewrite <- (IHs out s x eq_refl Hx). destruct n as [n|]; cbn; [|tauto]. by rewrite orb_true_iff.
Qed.

Lemma ParseTrustedProxies_exact_witness :
  isTrusted (ParseIP "10.200.0.1") sample_proxies = true
  /\ Exists (fun f => field_trusts f (v4_in_v6 ++ [10; 200; 0; 1]))
       (Split "10.0.0.0/8, 192.168.1.1" ",").
Proof.
  split; [by vm_compute|].
  apply (proj1 (proj2 (ParseTrustedProxies_exact "10.0.0.0/8, 192.168.1.1") sample_proxies
    "10.200.0.1" (v4_in_v6 ++ [10; 200; 0; 1]) ltac:(by vm_compute) ltac:(by vm_compute))).
  by vm_compute.
Defined.
