(* ===== verification/SigV4.v ===== *)
(** * AWS Signature Version 4

    [fleet/gateway/sigv4.go].  The path encoder of minio-go
    ([s3utils.EncodePath]) is a parameter; the hashes are the executable ones
    of [Digest].  The key lookup is a state-passing function, because the
    gateway's own lookup fills a cache. *)

From S2P Require Import Prelude GoStrings GoText Digest GoTime GoNet.
From Stdlib Require Import Ascii.
Open Scope go_scope.

Definition maxClockSkew : Z := 15 * Minute.
Definition signV4Algorithm : string := "AWS4-HMAC-SHA256".
Definition scopeTerminator : string := "aws4_request".
Definition streamingPrefix : string := "STREAMING-".
Definition contentSHAHeader : string := "x-amz-content-sha256".
Definition dateHeader : string := "x-amz-date".
Definition hostHeader : string := "host".
Definition decoySecret : string := "0000000000000000000000000000000000000000".

Inductive AuthErr :=
| ErrMalformedAuthorization
| ErrInvalidAccessKeyID
| ErrSignatureDoesNotMatch
| ErrRequestTimeTooSkewed
| ErrUnsignedAmzHeader
| ErrMalformedQuery
| ErrStreamingUnsupported.

#[export] Instance AuthErr_eq_dec : EqDecision AuthErr.
Proof. solve_decision. Defined.

(** ** The Authorization header *)

Record authParts := mkParts { p_credential : string; p_signed : list string; p_sig : string }.

Definition parse_part (part : string) (p : authParts) : result AuthErr authParts :=
  let '(k, val, ok) := Cut (TrimSpace part) "=" in
  if negb ok then Err ErrMalformedAuthorization
  else if String.eqb k "Credential" then Ok (mkParts val (p_signed p) (p_sig p))
  else if String.eqb k "SignedHeaders" then Ok (mkParts (p_credential p) (Split val ";") (p_sig p))
  else if String.eqb k "Signature" then Ok (mkParts (p_credential p) (p_signed p) val)
  else Ok p.

Fixpoint parse_parts (parts : list string) (p : authParts) : result AuthErr authParts :=
  match parts with
  | [] => Ok p
  | part :: rest => let! p := parse_part part p in parse_parts rest p
  end.

Definition parseAuthorization (v : string)
  : result AuthErr (string * string * list string * string) :=
  let '(algo, rest, ok) := Cut v " " in
  if negb ok || negb (String.eqb algo signV4Algorithm) then Err ErrMalformedAuthorization
  else
    let! p := parse_parts (Split rest ",") (mkParts "" [] "") in
    if String.eqb (p_credential p) "" || String.eqb (p_sig p) "" || Nat.eqb (length (p_signed p)) 0
    then Err ErrMalformedAuthorization
    else
      let '(akid, scope, ok) := Cut (p_credential p) "/" in
      if negb ok || String.eqb akid "" then Err ErrMalformedAuthorization
      else Ok (akid, scope, p_signed p, p_sig p).

Definition parseScope (scope wantRegion wantService : string) : result AuthErr (string * string) :=
  match Split scope "/" with
  | [date; region; service; term] =>
      if negb (String.eqb term scopeTerminator) then Err ErrMalformedAuthorization
      else if negb (String.eqb service wantService) then Err ErrMalformedAuthorization
      else if negb (String.eqb region wantRegion) then Err ErrMalformedAuthorization
      else Ok (date, region)
  | _ => Err ErrMalformedAuthorization
  end.

(** ** Signed headers and the canonical request *)

Definition requireSignedHeaders (r : Request) (signed : list string) : result AuthErr unit :=
  if negb (forallb (fun h => bool_decide (h ∈ signed)) [hostHeader; contentSHAHeader; dateHeader])
  then Err ErrMalformedAuthorization
  else if existsb (fun name => HasPrefix (ToLower name) "x-amz-"
                               && negb (bool_decide (ToLower name ∈ signed)))
            (elements (dom (Headers r)))
  then Err ErrUnsignedAmzHeader
  else Ok tt.

Definition headerValue (r : Request) (name : string) : string :=
  if String.eqb name hostHeader then Host r
  else if String.eqb name "content-length" then
    if ContentLength r <? 0 then "" else FormatInt (ContentLength r)
  else Join ((fun v => Join (Fields v) " ") <$> header_values r name) ",".

Definition newline : string := String (chr 10) "".

Definition hmacSHA256 (key : list Z) (data : string) : list Z := hmac_sha256 key (bytes data).

Definition stringToSign (amzDate scope creq : string) : string :=
  signV4Algorithm +:+ newline +:+ amzDate +:+ newline +:+ scope +:+ newline
  +:+ hex_encode (sha256 (bytes creq)).

Definition signingKey (secret date region service : string) : list Z :=
  let k := hmacSHA256 (bytes ("AWS4" +:+ secret)) date in
  let k := hmacSHA256 k region in
  let k := hmacSHA256 k service in
  hmacSHA256 k scopeTerminator.

Lemma parseScope_spec scope region service date region' :
  parseScope scope region service = Ok (date, region') <->
  region' = region /\ Split scope "/" = [date; region; service; scopeTerminator].
Proof.
  unfold parseScope. destruct (Split scope "/") as [|d [|r [|s [|t [|]]]]]; try naive_solver.
  split.
  - intros H. split_ifs_in H. bool_to_prop. naive_solver.
  - intros [-> [= -> -> -> ->]]. by rewrite !String.eqb_refl.
Qed.

(** Every [x-amz-*] header of the request, and the three headers a signature
    is worthless without, are in the signed set. *)
Definition covers (r : Request) (signed : list string) : Prop :=
  hostHeader ∈ signed /\ contentSHAHeader ∈ signed /\ dateHeader ∈ signed
  /\ forall name vals, Headers r !! name = Some vals ->
       HasPrefix (ToLower name) "x-amz-" = true -> ToLower name ∈ signed.

Lemma requireSignedHeaders_spec r signed :
  requireSignedHeaders r signed = Ok tt <-> covers r signed.
Proof.
  unfold requireSignedHeaders, covers. cbn [forallb].
  destruct (decide (hostHeader ∈ signed)), (decide (contentSHAHeader ∈ signed)),
    (decide (dateHeader ∈ signed)); rewrite ?bool_decide_true, ?bool_decide_false by done;
    cbn [andb negb]; try naive_solver.
  destruct (existsb _ _) eqn:E.
  - split; [done|]. intros (_ & _ & _ & H). apply existsb_exists in E as (name & Hin & E).
    bool_to_prop. apply list_elem_of_In, elem_of_elements, elem_of_dom in Hin as [vals Hv].
    by specialize (H name vals Hv H0).
  - split; [|done]. intros _. split_and!; try done. intros name vals Hv Hp.
    destruct (decide (ToLower name ∈ signed)) as [|Hn]; [done|exfalso].
    apply not_true_iff_false in E. apply E, existsb_exists. exists name. split.
    + apply list_elem_of_In, elem_of_elements, elem_of_dom. eauto.
    + by rewrite Hp, bool_decide_false.
Qed.

Section Verify.
Variable EncodePath : string -> string.

Definition canonicalRequest (r : Request) (query : Values) (signedHeaders : list string)
    (payloadHash : string) : string :=
  Method r +:+ newline +:+ EncodePath (Path r) +:+ newline
  +:+ plus_to_20 (Encode query) +:+ newline
  +:+ foldr (fun h acc => h +:+ ":" +:+ headerValue r h +:+ newline +:+ acc)
        (newline +:+ Join signedHeaders ";" +:+ newline +:+ payloadHash) signedHeaders.

(** The signature [Verify] wants to see. *)
Definition want_sig (r : Request) (query : Values) (signed : list string)
    (scope date region service secret : string) : string :=
  let creq := canonicalRequest r query signed (header r contentSHAHeader) in
  hex_encode (hmacSHA256 (signingKey secret date region service)
                (stringToSign (header r dateHeader) scope creq)).

(** [Verify]: what is decided before the key is looked up ... *)
Definition verify_pre (r : Request) (region service : string) (now : Z)
  : result AuthErr (string * string * list string * string * string * string * Values) :=
  let! (akid, scope, signed, sig) := parseAuthorization (header r "Authorization") in
  let! (scopeDate, scopeRegion) := parseScope scope region service in
  let amzDate := header r dateHeader in
  if String.eqb amzDate "" then Err ErrMalformedAuthorization
  else match parse_iso8601 amzDate with
  | None => Err ErrMalformedAuthorization
  | Some t =>
      if negb (String.eqb (format_date t) scopeDate) then Err ErrMalformedAuthorization
      else
        let d := Sub now t in
        if (maxClockSkew <? d) || (d <? - maxClockSkew) then Err ErrRequestTimeTooSkewed
        else
          let! _ := requireSignedHeaders r signed in
          if HasPrefix (header r contentSHAHeader) streamingPrefix then Err ErrStreamingUnsupported
          else match ParseQuery (RawQuery r) with
          | None => Err ErrMalformedQuery
          | Some query => Ok (akid, scope, signed, sig, scopeDate, scopeRegion, query)
          end
  end.

(** ... and the whole of it. *)
Definition Verify {S : Type} (r : Request) (region service : string)
    (look : string -> S -> option string * S) (now : Z) (s : S) : result AuthErr string * S :=
  match verify_pre r region service now with
  | Err e => (Err e, s)
  | Ok (akid, scope, signed, sig, scopeDate, scopeRegion, query) =>
      let '(found, s) := look akid s in
      let want := want_sig r query signed scope scopeDate scopeRegion service
                    (match found with Some secret => secret | None => decoySecret end) in
      match found with
      | None => (Err ErrInvalidAccessKeyID, s)
      | Some _ => if negb (String.eqb want sig) then (Err ErrSignatureDoesNotMatch, s)
                  else (Ok akid, s)
      end
  end.

(** ** What an accepted request proves *)

(** The checks a request has passed when [Verify] accepts it. *)
Lemma Verify_ok {S : Type} r region service (look : string -> S -> option string * S) now s akid s' :
  Verify r region service look now s = (Ok akid, s') ->
  exists secret scope signed sig t query,
    parseAuthorization (header r "Authorization") = Ok (akid, scope, signed, sig)
    /\ look akid s = (Some secret, s')
    /\ parse_iso8601 (header r dateHeader) = Some t
    /\ - maxClockSkew <= now - t <= maxClockSkew
    /\ scope = Join [format_date t; region; service; scopeTerminator] "/"
    /\ covers r signed
    /\ HasPrefix (header r contentSHAHeader) streamingPrefix = false
    /\ ParseQuery (RawQuery r) = Some query
    /\ sig = want_sig r query signed scope (format_date t) region service secret.
Proof.
  unfold Verify, verify_pre.
  destruct (parseAuthorization _) as [[[[k scope] signed] sig]|] eqn:Ea; [|done].
  destruct (parseScope _ _ _) as [[date region']|] eqn:Es; [|done].
  apply parseScope_spec in Es as [-> Es].
  destruct (String.eqb _ ""); [done|].
  destruct (parse_iso8601 _) as [t|] eqn:Et; [|done].
  destruct (negb _) eqn:Ed; [done|]. bool_to_prop. subst date.
  destruct (_ || _) eqn:Esk; [done|].
  destruct (requireSignedHeaders _ _) as [[]|] eqn:Er; [|done].
  apply requireSignedHeaders_spec in Er.
  destruct (HasPrefix _ _) eqn:Ep; [done|].
  destruct (ParseQuery _) as [query|] eqn:Eq; [|done].
  destruct (look k s) as [[secret|] s1] eqn:El; [|done].
  destruct (negb _) eqn:Ew; [done|]. intros [= -> ->]. bool_to_prop.
  exists secret, scope, signed, sig, t, query. split_and!; try done.
  - unfold Sub, maxClockSkew, int64_min, int64_max, Minute, Second in *. lia.
  - unfold Sub, maxClockSkew, int64_min, int64_max, Minute, Second in *. lia.
  - by rewrite <- Es, Join_Split.
Qed.

(** C21.  An accepted request was signed, with the secret the lookup
    returned for the access key it names, over this very request: the
    signature is the HMAC of its canonical form under that secret, its scope is
    exactly today's date, this region and this service, its clock is within
    fifteen minutes, and no [x-amz-*] header is outside the signature. *)
Theorem Verify_sound {S : Type} r region service (look : string -> S -> option string * S) now s akid s' :
  Verify r region service look now s = (Ok akid, s') ->
  exists secret scope signed sig t query,
    parseAuthorization (header r "Authorization") = Ok (akid, scope, signed, sig)
    /\ look akid s = (Some secret, s')
    /\ parse_iso8601 (header r dateHeader) = Some t
    /\ - maxClockSkew <= now - t <= maxClockSkew
    /\ scope = Join [format_date t; region; service; scopeTerminator] "/"
    /\ covers r signed
    /\ HasPrefix (header r contentSHAHeader) streamingPrefix = false
    /\ ParseQuery (RawQuery r) = Some query
    /\ sig = want_sig r query signed scope (format_date t) region service secret.
Proof. apply Verify_ok. Qed.

(** An unknown key is refused whatever the signature says. *)
Lemma Verify_unknown {S : Type} r region service (look : string -> S -> option string * S) now s :
  (forall k, fst (look k s) = None) ->
  is_ok (fst (Verify r region service look now s)) = false.
Proof.
  intros Hl. unfold Verify. destruct (verify_pre _ _ _ _) as [[[[[[[k ?] ?] ?] ?] ?] ?]|]; [|done].
  specialize (Hl k). by destruct (look k s) as [[]].
Qed.
End Verify.

(** ** A correctly signed request is accepted *)

(** Bytes that need no quoting in an Authorization header. *)
Definition tame_byte (c : ascii) : bool :=
  visible_byte c && negb (Ascii.eqb c "," || Ascii.eqb c "/" || Ascii.eqb c ";").

Abbreviation tame := (all_bytes tame_byte).

Lemma tame_visible s : tame s = true -> all_bytes visible_byte s = true.
Proof. apply all_bytes_impl. by intros c [? _]%andb_true_iff. Qed.

Lemma tame_Contains s c : c = ","%char \/ c = "/"%char \/ c = ";"%char -> tame s = true -> Contains s c = false.
Proof. intros Hc H. eapply all_bytes_Contains; [exact H|]. by destruct Hc as [->|[->| ->]]. Qed.

(** The header a client sends. *)
Definition credentialScope (date region service : string) : string :=
  Join [date; region; service; scopeTerminator] "/".

Definition authorization (akid scope : string) (signed : list string) (sig : string) : string :=
  signV4Algorithm +:+ " Credential=" +:+ akid +:+ "/" +:+ scope
  +:+ ", SignedHeaders=" +:+ Join signed ";" +:+ ", Signature=" +:+ sig.

Lemma Cut_at b a c : Contains b c = false -> Cut (b +:+ String c a) c = (b, a, true).
Proof. intros H. by apply Cut_found. Qed.

Lemma parse_part_key key val p :
  all_bytes visible_byte key = true -> Contains key "=" = false ->
  all_bytes visible_byte val = true ->
  parse_part (key +:+ String "=" val) p =
     if String.eqb key "Credential" then Ok (mkParts val (p_signed p) (p_sig p))
     else if String.eqb key "SignedHeaders" then Ok (mkParts (p_credential p) (Split val ";") (p_sig p))
     else if String.eqb key "Signature" then Ok (mkParts (p_credential p) (p_signed p) val)
     else Ok p.
Proof.
  intros Hv Hk Hval. unfold parse_part.
  rewrite TrimSpace_visible by (rewrite all_bytes_app, Hv; done). by rewrite Cut_at.
Qed.

Lemma parse_part_space part p : parse_part (String " " part) p = parse_part part p.
Proof. done. Qed.

Lemma parse_three cred signed sig p :
  all_bytes visible_byte cred = true -> all_bytes visible_byte signed = true ->
  all_bytes visible_byte sig = true ->
  parse_parts ["Credential=" +:+ cred; " SignedHeaders=" +:+ signed; " Signature=" +:+ sig] p
  = Ok (mkParts cred (Split signed ";") sig).
Proof.
  intros H1 H2 H3. cbn [parse_parts].
  change ("Credential=" +:+ cred) with ("Credential" +:+ String "=" cred).
  change (" SignedHeaders=" +:+ signed) with (String " " ("SignedHeaders" +:+ String "=" signed)).
  change (" Signature=" +:+ sig) with (String " " ("Signature" +:+ String "=" sig)).
  rewrite (parse_part_key "Credential") by done. cbn [String.eqb Ascii.eqb Bool.eqb].
  rewrite parse_part_space, (parse_part_key "SignedHeaders") by done. cbn [String.eqb Ascii.eqb Bool.eqb].
  by rewrite parse_part_space, (parse_part_key "Signature").
Qed.

(** The three components, as the parser splits them. *)
Lemma split_components cred signed sig :
  Contains cred "," = false -> Contains signed "," = false -> Contains sig "," = false ->
  Split ("Credential=" +:+ cred +:+ ", SignedHeaders=" +:+ signed +:+ ", Signature=" +:+ sig) ","
  = ["Credential=" +:+ cred; " SignedHeaders=" +:+ signed; " Signature=" +:+ sig].
Proof.
  intros H1 H2 H3.
  assert (forall a b, ", SignedHeaders=" +:+ a +:+ ", Signature=" +:+ b
    = String "," ((" SignedHeaders=" +:+ a) +:+ String "," (" Signature=" +:+ b))) as E.
  { intros a b. rewrite sapp_assoc. done. }
  rewrite E, <- sapp_assoc, !Split_app, !Split_single by by rewrite Contains_app, ?H1, ?H2, ?H3. done.
Qed.

Lemma parse_authorization akid scope signed sig :
  tame akid = true -> akid <> "" ->
  all_bytes visible_byte scope = true -> Contains scope "," = false ->
  Forall (fun h => tame h = true) signed -> signed <> [] ->
  tame sig = true -> sig <> "" ->
  parseAuthorization (authorization akid scope signed sig) = Ok (akid, scope, signed, sig).
Proof.
  intros Hk Hk0 Hs Hsc Hh Hh0 Hg Hg0.
  assert (all_bytes visible_byte (Join signed ";") = true) as Hj.
  { apply all_bytes_Join; [|done]. eapply Forall_impl; [exact Hh|]. eauto using tame_visible. }
  assert (Contains (Join signed ";") "," = false) as Hjc.
  { apply Contains_Join; [|done]. eapply Forall_impl; [exact Hh|].
    intros x Hx. apply tame_Contains; auto. }
  assert (Contains (akid +:+ "/" +:+ scope) "," = false) as Hcc.
  { rewrite !Contains_app, Hsc, (tame_Contains akid) by auto. done. }
  unfold parseAuthorization, authorization.
  change (" Credential=" +:+ ?x) with (String " " ("Credential=" +:+ x)).
  rewrite Cut_at by done. rewrite String.eqb_refl. cbn [negb orb].
  replace ("Credential=" +:+ akid +:+ "/" +:+ scope +:+ ", SignedHeaders=" +:+ Join signed ";" +:+ ", Signature=" +:+ sig)
    with ("Credential=" +:+ (akid +:+ "/" +:+ scope) +:+ ", SignedHeaders=" +:+ Join signed ";" +:+ ", Signature=" +:+ sig)
    by by rewrite !sapp_assoc.
  rewrite split_components by (done || by apply tame_Contains; auto).
  rewrite parse_three; [|rewrite !all_bytes_app, Hs, tame_visible; done|done|by apply tame_visible].
  cbn [p_credential p_sig p_signed].
  rewrite Split_Join; [|done|eapply Forall_impl; [exact Hh|]; intros x Hx; apply tame_Contains; auto].
  change ("/" +:+ scope) with (String "/" scope). rewrite Cut_at by (apply tame_Contains; auto).
  apply String.eqb_neq in Hk0 as ->. apply String.eqb_neq in Hg0 as ->.
  destruct signed; [done|]. destruct akid; done.
Qed.

(** ** Dates and digests are tame *)

Lemma tame_of_code c : 48 <= code c <= 57 \/ 97 <= code c <= 102 -> tame_byte c = true.
Proof.
  intros H. unfold tame_byte, visible_byte, between.
  assert (forall d, code d < 48 \/ 57 < code d < 97 -> Ascii.eqb c d = false) as Hd.
  { intros d Hd. apply Ascii.eqb_neq. intros ->. lia. }
  rewrite !Hd by first [by left | by right].
  destruct (Z.leb_spec 33 (code c)), (Z.leb_spec (code c) 126); (done || lia).
Qed.

Lemma tame_digit z : 0 <= z < 10 -> tame_byte (digit z) = true.
Proof. intros H. apply tame_of_code. unfold digit. rewrite code_chr by lia. lia. Qed.

Lemma tame_hexdigit z : 0 <= z < 16 -> tame_byte (hexdigit z) = true.
Proof.
  intros H. apply tame_of_code. unfold hexdigit.
  destruct (Z.ltb_spec z 10); rewrite code_chr by lia; lia.
Qed.

Lemma tame_format_pos fuel n acc : 0 <= n -> tame acc = true -> tame (format_pos fuel n acc) = true.
Proof.
  revert n acc. induction fuel as [|fuel IH]; intros n acc Hn Ha; [done|]. cbn [format_pos].
  assert (tame (String (digit (n `mod` 10)) acc) = true) as Hd.
  { cbn [all_bytes]. rewrite Ha, tame_digit by lia_div. done. }
  destruct (n <? 10); [done|]. apply IH; [lia_div|done].
Qed.

Lemma tame_FormatInt n : tame (FormatInt n) = true.
Proof.
  unfold FormatInt. destruct (Z.ltb_spec n 0); [|by apply tame_format_pos].
  cbn [all_bytes]. rewrite tame_format_pos by (lia || done). done.
Qed.

Lemma tame_pad_left n s : tame s = true -> tame (pad_left n s) = true.
Proof. intros H. induction n as [|n IH]; [done|]. cbn [pad_left]. by destruct (_ <=? _)%nat. Qed.

Lemma tame_format_date t : tame (format_date t) = true.
Proof.
  unfold format_date. destruct (date_of t) as [y m d].
  by rewrite !all_bytes_app, !tame_pad_left by apply tame_FormatInt.
Qed.

Lemma tame_hex_encode l : byte_list l -> tame (hex_encode l) = true.
Proof.
  induction 1 as [|z l Hz _ IH]; [done|]. cbn [hex_encode all_bytes].
  by rewrite IH, !tame_hexdigit by lia_div.
Qed.

#[export] Hint Resolve tame_format_date tame_hex_encode sha256_range : warphold.

Section Shape.
Variable EncodePath : string -> string.

Lemma want_sig_shape r query signed scope date region service secret :
  let sig := want_sig EncodePath r query signed scope date region service secret in
  tame sig = true /\ sig <> "".
Proof.
  cbv zeta. unfold want_sig, hmacSHA256. split; [apply tame_hex_encode, hmac_range|]. intros H.
  apply (f_equal String.length) in H. rewrite length_hex_encode, length_hmac in H. done.
Qed.

Lemma scope_visible date region service :
  tame date = true -> tame region = true -> tame service = true ->
  all_bytes visible_byte (credentialScope date region service) = true
  /\ Contains (credentialScope date region service) "," = false
  /\ Split (credentialScope date region service) "/" = [date; region; service; scopeTerminator].
Proof.
  intros Hd Hr Hs. split_and!.
  - apply all_bytes_Join; [|done]. repeat constructor; by apply tame_visible.
  - apply Contains_Join; [|done]. repeat constructor; by apply tame_Contains; auto.
  - apply Split_Join; [done|]. repeat constructor; by apply tame_Contains; auto.
Qed.

End Shape.

(** ** The signature covers the request *)

(** A field holds no white space. *)
Definition word_segment (c : ascii) (g : segment) : Prop :=
  byte_list (seg_bytes g) /\ code c ∉ seg_bytes g.

Lemma join_word c l : Forall (word_segment c) l -> Contains (join_segments l) c = false.
Proof.
  intros H. unfold join_segments. apply Contains_of_bytes.
  - induction H as [|g l [Hg _] _ IH]; [constructor|]. by apply Forall_app.
  - induction H as [|g l [_ Hg] _ IH]; [by intros ?%elem_of_nil|]. cbn. set_solver.
Qed.

Lemma fields_word c l cur :
  Forall (fun g => seg_space g = true \/ word_segment c g) l -> Forall (word_segment c) cur ->
  Forall (fun f => Contains f c = false) (fields_go l cur).
Proof.
  intros H. revert cur. induction H as [|g l Hg _ IH]; intros cur Hcur; cbn [fields_go].
  - destruct cur; constructor; [|constructor]. by apply join_word, Forall_rev.
  - destruct (seg_space g) eqn:E.
    + destruct cur; [by apply IH|]. constructor; [|by apply IH]. by apply join_word, Forall_rev.
    + destruct Hg as [?|Hg]; [congruence|]. apply IH. by constructor.
Qed.

Lemma segments_word c s :
  IsSpace (code c) = true -> code c < 0x80 ->
  Forall (fun g => seg_space g = true \/ word_segment c g) (segments (bytes s)).
Proof.
  intros Hsp Hc.
  pose proof (segments_byte_list s) as Hb.
  pose proof (segments_ok (bytes s)) as Ho. rewrite !Forall_forall in *.
  intros g Hg. specialize (Hb g Hg). destruct (Ho g Hg) as [(b & Hb' & ->)|[_ Hge]].
  - destruct (decide (b = code c)) as [->|Hn]; [by left|]. right. split; [done|]. cbn. set_solver.
  - right. split; [done|]. intros Hin. rewrite Forall_forall in Hge. specialize (Hge _ Hin). lia.
Qed.

Abbreviation NL := (chr 10).

Lemma Fields_newline s : Contains (Join (Fields s) " ") NL = false.
Proof.
  apply Contains_Join; [|done]. apply fields_word; [|constructor]. by apply segments_word.
Qed.

Lemma tame_newline s : tame s = true -> Contains s NL = false.
Proof. intros H. by apply (all_bytes_Contains tame_byte). Qed.

Lemma headerValue_newline r h : Contains (Host r) NL = false -> Contains (headerValue r h) NL = false.
Proof.
  intros Hh. unfold headerValue. destruct (String.eqb h _); [done|].
  destruct (String.eqb h _).
  - destruct (_ <? _); [done|]. apply tame_newline, tame_FormatInt.
  - apply Contains_Join; [|done]. apply Forall_fmap, Forall_true. intros v. apply Fields_newline.
Qed.

(** Bytes an escaped query component is made of. *)
Definition escaped_byte (c : ascii) : bool :=
  unreserved c || Ascii.eqb c "+" || Ascii.eqb c "%".

Lemma escaped_upper z : 0 <= z < 16 -> escaped_byte (upper_hexdigit z) = true.
Proof. intros H. apply (enumerate 16 (fun z => escaped_byte (upper_hexdigit z))); [by vm_compute|done]. Qed.

Lemma QueryEscape_bytes s : all_bytes escaped_byte (QueryEscape s) = true.
Proof.
  induction s as [|c s IH]; [done|]. cbn [QueryEscape].
  destruct (code c =? 32); [cbn; by rewrite IH|].
  destruct (unreserved c) eqn:E; [cbn; by rewrite IH; unfold escaped_byte; rewrite E|].
  unfold percent. cbn [all_bytes]. pose proof (code_range c).
  by rewrite IH, !escaped_upper by lia_div.
Qed.

Lemma QueryEscape_Contains s c : escaped_byte c = false -> Contains (QueryEscape s) c = false.
Proof. intros H. eapply all_bytes_Contains; [apply QueryEscape_bytes|done]. Qed.

Lemma plus_to_20_Contains s c :
  c <> "%"%char -> c <> "2"%char -> c <> "0"%char ->
  Contains s c = false -> Contains (plus_to_20 s) c = false.
Proof.
  intros H1 H2 H3. induction s as [|d s IH]; [done|]. cbn.
  intros [Hd Hs]%orb_false_iff. destruct (Ascii.eqb d "+"); cbn [Contains]; rewrite IH by done.
  - rewrite !(fun x y => proj2 (Ascii.eqb_neq x y)) by congruence. done.
  - by rewrite Hd.
Qed.

(** The pairs of a query in the order they are signed. *)
Definition pairs (v : Values) : list (string * string) :=
  sort_strings (elements (dom v)) ≫= fun k => pair k <$> default [] (v !! k).

Definition escape20 (s : string) : string := plus_to_20 (QueryEscape s).

Definition escape_pair (p : string * string) : string :=
  escape20 (fst p) +:+ "=" +:+ escape20 (snd p).

Lemma plus_to_20_app s t : plus_to_20 (s +:+ t) = plus_to_20 s +:+ plus_to_20 t.
Proof.
  induction s as [|c s IH]; [done|]. rewrite sapp_cons. cbn [plus_to_20]. rewrite IH.
  by destruct (Ascii.eqb c "+").
Qed.

Lemma plus_to_20_Join l sep : plus_to_20 (Join l sep) = Join (plus_to_20 <$> l) (plus_to_20 sep).
Proof.
  induction l as [|x l IH]; [done|]. destruct l as [|y l]; [done|].
  change (Join (x :: y :: l) sep) with (x +:+ sep +:+ Join (y :: l) sep).
  by rewrite !plus_to_20_app, IH.
Qed.

Lemma signed_query v : plus_to_20 (Encode v) = Join (escape_pair <$> pairs v) "&".
Proof.
  unfold Encode, pairs. rewrite plus_to_20_Join. f_equal.
  induction (sort_strings _) as [|k l IH]; [done|].
  rewrite !bind_cons, !fmap_app, IH. f_equal. rewrite <- !list_fmap_compose.
  apply list_fmap_ext. intros _ x _. unfold compose, escape_pair, escape20. cbn [fst snd].
  by rewrite !plus_to_20_app.
Qed.

Lemma escape20_Contains s c :
  escaped_byte c = false -> Contains (escape20 s) c = false.
Proof.
  intros H. unfold escape20. apply plus_to_20_Contains; [..|by apply QueryEscape_Contains];
    by intros ->.
Qed.

Lemma escape20_inj s t : escape20 s = escape20 t -> s = t.
Proof.
  intros H. pose proof (plus_to_20_round_trip s) as E. unfold escape20 in H.
  rewrite H, plus_to_20_round_trip in E. by simplify_eq.
Qed.

Lemma escape_pair_inj p q : escape_pair p = escape_pair q -> p = q.
Proof.
  destruct p as [k x], q as [k' x']. unfold escape_pair. cbn [fst snd].
  change ("=" +:+ ?y) with (String "=" y). intros H.
  assert (forall a b, Cut (escape20 a +:+ String "=" (escape20 b)) "="
            = (escape20 a, escape20 b, true)) as Hc.
  { intros a b. apply Cut_at. by apply escape20_Contains. }
  pose proof (Hc k x) as H1. change ("=" +:+ ?y) with (String "=" y) in H.
  rewrite H, Hc in H1. injection H1 as Hk%escape20_inj Hx%escape20_inj. by subst.
Qed.

Lemma escape_pair_Contains p c :
  escaped_byte c = false -> c <> "="%char -> Contains (escape_pair p) c = false.
Proof.
  intros H Hc. unfold escape_pair. rewrite !Contains_app, !escape20_Contains by done.
  cbn [Contains]. by rewrite (proj2 (Ascii.eqb_neq _ _)) by congruence.
Qed.

Lemma escape_pair_eq p : Contains (escape_pair p) "=" = true.
Proof. unfold escape_pair. rewrite !Contains_app. by destruct (Contains _ _). Qed.

(** The signed query determines the pairs ... *)
Lemma signed_query_inj v w : plus_to_20 (Encode v) = plus_to_20 (Encode w) -> pairs v = pairs w.
Proof.
  rewrite !signed_query. intros H.
  assert (forall l : list (string * string), Forall (fun x => Contains x "&" = false) (escape_pair <$> l)) as Hl.
  { intros l. apply Forall_fmap, Forall_true. intros p. by apply escape_pair_Contains. }
  assert (forall l : list (string * string), Join (escape_pair <$> l) "&" = "" -> l = []) as Hnil.
  { intros [|p [|q l]]; [done|..]; intros E; exfalso;
      apply (f_equal (fun s => Contains s "=")) in E; cbn [fmap list_fmap Join] in E;
      rewrite ?Contains_app, escape_pair_eq in E; done. }
  destruct (decide (pairs v = [])) as [Hv|Hv], (decide (pairs w = [])) as [Hw|Hw].
  - by rewrite Hv, Hw.
  - rewrite Hv in H. symmetry in H. apply Hnil in H. by rewrite H in Hw.
  - rewrite Hw in H. apply Hnil in H. by rewrite H in Hv.
  - apply (Join_inj _ _ "&") in H; [|by intros ?%fmap_nil_inv..|apply Forall_app; auto].
    revert H. generalize (pairs v), (pairs w). intros l. induction l as [|p l IH]; intros [|q l'] E;
      try done. injection E as E1%escape_pair_inj E2. f_equal; auto.
Qed.

(** ... and the pairs determine every value the query holds. *)
Lemma pairs_lookup v k : default [] (v !! k) = snd <$> filter (fun p => fst p = k) (pairs v).
Proof.
  unfold pairs.
  assert (k ∈ dom v \/ v !! k = None) as Hk.
  { destruct (v !! k) eqn:E; [left; apply elem_of_dom; eauto|by right]. }
  assert (forall l : list string, filter (fun p : string * string => fst p = k) (l ≫= fun k => pair k <$> default [] (v !! k))
    = filter (fun j => j = k) l ≫= fun k => pair k <$> default [] (v !! k)) as Hf.
  { intros l. induction l as [|j l IH]; [done|]. rewrite bind_cons, filter_app, IH, filter_cons.
    destruct (decide (j = k)) as [->|Hn]; [rewrite bind_cons; f_equal|].
    - induction (default [] (v !! k)) as [|x xs IHx]; [done|].
      rewrite fmap_cons, filter_cons_True by done. by rewrite IHx.
    - replace (filter _ (pair j <$> _)) with (@nil (string * string)); [done|].
      induction (default [] (v !! j)) as [|x xs IHx]; [done|].
      by rewrite fmap_cons, filter_cons_False. }
  rewrite Hf. clear Hf.
  pose proof (NoDup_sort_strings _ (NoDup_elements (dom v))) as Hnd.
  assert (forall l : list string, NoDup l -> filter (fun j => j = k) l = if bool_decide (k ∈ l) then [k] else []) as Hs.
  { intros l. induction 1 as [|j l Hj Hl IH]; [done|]. rewrite filter_cons, IH.
    destruct (decide (j = k)) as [->|Hn].
    - rewrite (bool_decide_false (k ∈ l)), bool_decide_true by set_solver. done.
    - repeat case_bool_decide; set_solver. }
  rewrite Hs by done. case_bool_decide as Hin.
  - cbn. rewrite app_nil_r, <- list_fmap_compose. by rewrite list_fmap_id.
  - rewrite elem_of_sort_strings, elem_of_elements in Hin. destruct Hk as [?| ->]; done.
Qed.

Section Covers.
Variable EncodePath : string -> string.

(** The canonical request, line by line. *)
Definition header_line (r : Request) (h : string) : string := h +:+ ":" +:+ headerValue r h.

Definition canonical_lines (r : Request) (q : Values) (signed : list string) (hash : string)
  : list string :=
  Method r :: EncodePath (Path r) :: plus_to_20 (Encode q)
  :: (header_line r <$> signed) ++ [""; Join signed ";"; hash].

Lemma Join_cons x l sep : l <> [] -> Join (x :: l) sep = x +:+ sep +:+ Join l sep.
Proof. by destruct l. Qed.

Lemma canonicalRequest_lines r q signed hash :
  canonicalRequest EncodePath r q signed hash = Join (canonical_lines r q signed hash) newline.
Proof.
  unfold canonicalRequest, canonical_lines.
  assert (forall l : list string, foldr (fun h acc => h +:+ ":" +:+ headerValue r h +:+ newline +:+ acc)
      (newline +:+ Join signed ";" +:+ newline +:+ hash) l
    = Join ((header_line r <$> l) ++ [""; Join signed ";"; hash]) newline) as Hf.
  { induction l as [|h l IH]; [done|]. cbn [foldr]. rewrite IH.
    change ((header_line r <$> h :: l) ++ ?t) with (header_line r h :: (header_line r <$> l) ++ t).
    rewrite Join_cons by by destruct (header_line r <$> l). unfold header_line.
    by rewrite !sapp_assoc. }
  rewrite Hf, !Join_cons; [done|by destruct (header_line r <$> signed)|done..].
Qed.

(** A request as the server hands it over: no line breaks where none can be. *)
Definition one_line (r : Request) (signed : list string) (hash : string) : Prop :=
  Forall (fun x => Contains x NL = false)
    ([Method r; EncodePath (Path r); Host r; hash] ++ signed)
  /\ Forall (fun h => Contains h ";" = false) signed /\ signed <> [].

Lemma canonical_lines_one_line r q signed hash :
  one_line r signed hash ->
  Forall (fun x => Contains x NL = false) (canonical_lines r q signed hash).
Proof.
  intros [H _]. apply Forall_app in H as [Hf Hs].
  repeat (apply Forall_cons in Hf as [? Hf]). unfold canonical_lines.
  repeat (apply Forall_cons; split; [try done|]).
  - rewrite signed_query. apply Contains_Join; [|done]. apply Forall_fmap, Forall_true.
    intros p. by apply escape_pair_Contains.
  - apply Forall_app. split.
    + apply Forall_fmap. eapply Forall_impl; [exact Hs|]. intros h Hh. unfold compose, header_line.
      by rewrite !Contains_app, Hh, headerValue_newline.
    + repeat (apply Forall_cons; split; [try done|]); [|constructor]. by apply Contains_Join.
Qed.

(** C23.  The signed text pins the request down: two requests with the same
    canonical form have the same method, encoded path, query values, signed
    header set, value of every signed header and payload hash, so nothing the
    signature covers can be altered without altering what is signed. *)
Theorem canonicalRequest_covers r1 q1 signed1 hash1 r2 q2 signed2 hash2 :
  one_line r1 signed1 hash1 -> one_line r2 signed2 hash2 ->
  canonicalRequest EncodePath r1 q1 signed1 hash1 = canonicalRequest EncodePath r2 q2 signed2 hash2 ->
  Method r1 = Method r2 /\ EncodePath (Path r1) = EncodePath (Path r2)
  /\ (forall k, default [] (q1 !! k) = default [] (q2 !! k))
  /\ signed1 = signed2 /\ hash1 = hash2
  /\ forall h, h ∈ signed1 -> headerValue r1 h = headerValue r2 h.
Proof.
  intros H1 H2. rewrite !canonicalRequest_lines. intros H.
  apply Join_inj in H; [|done..|apply Forall_app; auto using canonical_lines_one_line].
  injection H as Hm Hp Hq Ht. destruct H1 as (_ & Hs1 & Hn1), H2 as (_ & Hs2 & Hn2).
  apply app_inj_2 in Ht as [Hh Ht]; [|done]. injection Ht as Hj Hhash.
  apply Join_inj in Hj; [|done..|by apply Forall_app]. subst signed2.
  apply signed_query_inj in Hq. split_and!; try done.
  - intros k. by rewrite !pairs_lookup, Hq.
  - intros h Hin. clear -Hh Hin. induction signed1 as [|x l IH]; [by apply elem_of_nil in Hin|].
    injection Hh as Hx Hl. apply elem_of_cons in Hin as [->|Hin]; [|auto].
    unfold header_line in Hx. apply sapp_inj_l in Hx. by injection Hx.
Qed.
End Covers.

(** ** The signing protocol, from the client's side

    Signature Version 4 as AWS documents it ("Create a signed AWS API
    request"; for S3, "Signature Calculations for the Authorization Header"),
    written down without the verifier's functions.  A client signs a method, a
    path, query parameters and headers it has put in order. *)

Module Aws.
Record outgoing := mkOutgoing {
  o_method : string;
  o_path : string;                     (** not yet encoded *)
  o_query : list (string * string);
  o_headers : list (string * string);  (** the headers to sign, names in lower case *)
  o_payload : string;                  (** what x-amz-content-sha256 says *)
  o_stamp : string;                    (** x-amz-date *)
  o_date : string                      (** the day of it, YYYYMMDD *)
}.

(** UriEncode(): every byte but the unreserved characters is percent-encoded
    with upper-case digits; in a path the slashes are kept. *)
Definition never_encoded : string := "ABCDEFGHIJKLMNOPQRSTUVWXYZabcdefghijklmnopqrstuvwxyz0123456789-._~".

Definition hex_of (n : nat) : ascii := default "?"%char (String.get n "0123456789ABCDEF").

Fixpoint UriEncode (slash : bool) (s : string) : string :=
  match s with
  | EmptyString => ""
  | String c t =>
      if Contains never_encoded c || (slash && Ascii.eqb c "/") then String c (UriEncode slash t)
      else String "%" (String (hex_of (Ascii.nat_of_ascii c / 16))
             (String (hex_of (Ascii.nat_of_ascii c mod 16)) (UriEncode slash t)))
  end.

(** Trim(): no white space around a value, and one space for a run of them. *)
Fixpoint trim_from (started gap : bool) (s : string) : string :=
  match s with
  | EmptyString => ""
  | String c t =>
      if Ascii.eqb c " " then trim_from started started t
      else if gap then String " " (String c (trim_from true false t))
      else String c (trim_from true false t)
  end.

Definition Trim (s : string) : string := trim_from false false s.

Definition LF : string := String "010"%char "".

Definition CanonicalQueryString (q : list (string * string)) : string :=
  Join ((fun p => UriEncode false p.1 +:+ "=" +:+ UriEncode false p.2) <$> q) "&".

Definition CanonicalHeaders (hs : list (string * string)) : string :=
  foldr (fun h acc => h.1 +:+ ":" +:+ Trim h.2 +:+ LF +:+ acc) "" hs.

Definition SignedHeaders (x : outgoing) : string := Join (o_headers x).*1 ";".

Definition CanonicalRequest (x : outgoing) : string :=
  Join [o_method x; UriEncode true (o_path x); CanonicalQueryString (o_query x);
        CanonicalHeaders (o_headers x); SignedHeaders x; o_payload x] LF.

Definition Scope (x : outgoing) (region service : string) : string :=
  o_date x +:+ "/" +:+ region +:+ "/" +:+ service +:+ "/aws4_request".

Definition StringToSign (x : outgoing) (region service : string) : string :=
  Join ["AWS4-HMAC-SHA256"; o_stamp x; Scope x region service;
        hex_encode (sha256 (bytes (CanonicalRequest x)))] LF.

Definition SigningKey (x : outgoing) (secret region service : string) : list Z :=
  let DateKey := hmac_sha256 (bytes ("AWS4" +:+ secret)) (bytes (o_date x)) in
  let DateRegionKey := hmac_sha256 DateKey (bytes region) in
  let DateRegionServiceKey := hmac_sha256 DateRegionKey (bytes service) in
  hmac_sha256 DateRegionServiceKey (bytes "aws4_request").

Definition Signature (x : outgoing) (secret region service : string) : string :=
  hex_encode (hmac_sha256 (SigningKey x secret region service) (bytes (StringToSign x region service))).

Definition Authorization (x : outgoing) (akid secret region service : string) : string :=
  "AWS4-HMAC-SHA256 Credential=" +:+ akid +:+ "/" +:+ Scope x region service
  +:+ ", SignedHeaders=" +:+ SignedHeaders x +:+ ", Signature=" +:+ Signature x secret region service.

(** The examples AWS publishes for S3 come out with the published signatures. *)
Definition aws_example (method path : string) (query extra_first extra : list (string * string)) (payload : string) : string :=
  Signature
    (mkOutgoing method path query
       (extra_first ++ [("host", "examplebucket.s3.amazonaws.com")] ++ extra) payload "20130524T000000Z" "20130524")
    "wJalrXUtnFEMI/K7MDENG/bPxRfiCYEXAMPLEKEY" "us-east-1" "s3".

Definition empty_payload : string := "e3b0c44298fc1c149afbf4c8996fb92427ae41e4649b934ca495991b7852b855".

Example aws_get_object :
  aws_example "GET" "/test.txt" [] []
    [("range", "bytes=0-9"); ("x-amz-content-sha256", empty_payload); ("x-amz-date", "20130524T000000Z")] empty_payload
  = "f0e8bdb87c964420e857bd35b5d6ed310bd44f0170aba48dd91039c6036bdb41".
Proof. by vm_compute. Qed.

Example aws_put_object :
  let payload := "44ce7dd67c959e0d3524ffac1771dfbba87d2b6b4b4e99e42034a8b803f8b072" in
  aws_example "PUT" "/test$file.text" [] [("date", "Fri, 24 May 2013 00:00:00 GMT")]
    [("x-amz-content-sha256", payload); ("x-amz-date", "20130524T000000Z");
     ("x-amz-storage-class", "REDUCED_REDUNDANCY")] payload
  = "98ad721746da40c64f1a55b78f14c238d841ea1380cd77a1b5971af0ece108bd".
Proof. by vm_compute. Qed.

Example aws_get_lifecycle :
  aws_example "GET" "/" [("lifecycle", "")] []
    [("x-amz-content-sha256", empty_payload); ("x-amz-date", "20130524T000000Z")] empty_payload
  = "fea454ca298b7da1c68078a5d1bdbfbbe0d65c699e0f91ac7a200a0136783543".
Proof. by vm_compute. Qed.

Example aws_list_objects :
  aws_example "GET" "/" [("max-keys", "2"); ("prefix", "J")] []
    [("x-amz-content-sha256", empty_payload); ("x-amz-date", "20130524T000000Z")] empty_payload
  = "34b48302e7b5fa45bde8084f4b7868a86f0a534bc59db6670ed5711ef69dc6f7".
Proof. by vm_compute. Qed.
End Aws.

(** The code's escaping is the protocol's. *)
Lemma never_encoded_unreserved c : Contains Aws.never_encoded c = unreserved c.
Proof. by destruct c as [[] [] [] [] [] [] [] []]. Qed.

Lemma percent_hex c t :
  percent c t = String "%" (String (Aws.hex_of (Ascii.nat_of_ascii c / 16)) (String (Aws.hex_of (Ascii.nat_of_ascii c mod 16)) t)).
Proof. by destruct c as [[] [] [] [] [] [] [] []]. Qed.

Lemma escape20_UriEncode s : escape20 s = Aws.UriEncode false s.
Proof.
  unfold escape20. induction s as [|c s IH]; [done|]. cbn [QueryEscape Aws.UriEncode].
  rewrite never_encoded_unreserved, orb_false_r, <- IH.
  destruct (Z.eqb_spec (code c) 32) as [E|E].
  { by rewrite <- (chr_code c), E. }
  destruct (unreserved c) eqn:Eu; [|by rewrite <- percent_hex; destruct c as [[] [] [] [] [] [] [] []]].
  cbn [plus_to_20]. destruct (Ascii.eqb_spec c "+") as [->|]; done.
Qed.

(** Normal text: what a header value is made of. *)
Definition printable (c : ascii) : bool := between 32 126 (code c).

Lemma segments_printable c s : printable c = true -> segments (bytes (String c s)) = Segment (code c) [code c] true :: segments (bytes s).
Proof. unfold printable, between. intros Hc. bool_to_prop. cbn [bytes segments]. by destruct (Z.ltb_spec (code c) 0x80); [|lia]. Qed.

Lemma space_printable c : printable c = true -> seg_space (Segment (code c) [code c] true) = Ascii.eqb c " ".
Proof. destruct c as [[] [] [] [] [] [] [] []]; try done. Qed.

Lemma fields_go_more l cur : cur <> [] -> fields_go l cur <> [].
Proof. revert cur. induction l as [|g l IH]; intros cur Hc; cbn [fields_go]; [by destruct cur|]. destruct (seg_space g); [by destruct cur|by apply IH]. Qed.

Lemma join_segments_snoc l c : join_segments (l ++ [Segment (code c) [code c] true]) = join_segments l +:+ String c "".
Proof.
  unfold join_segments. rewrite fmap_app, concat_app. cbn [fmap list_fmap concat seg_bytes].
  generalize (concat (seg_bytes <$> l)). intros k.
  induction k as [|z k IH]; cbn in *; [by rewrite chr_code|by rewrite IH].
Qed.

Lemma trim_fields s : all_bytes printable s = true ->
  (forall cur, cur <> [] -> Join (fields_go (segments (bytes s)) cur) " " = join_segments (rev cur) +:+ Aws.trim_from true false s)
  /\ Join (fields_go (segments (bytes s)) []) " " = Aws.trim_from false false s
  /\ Aws.trim_from true true s = match fields_go (segments (bytes s)) [] with [] => "" | l => " " +:+ Join l " " end.
Proof.
  induction s as [|c s IH]; [intros _; split; [|done]; intros [|g cur] Hc; [done|]; cbn; by rewrite sapp_nil_r|].
  cbn [all_bytes]. intros [Hc Hs]%andb_true_iff. destruct (IH Hs) as (I1 & I2 & I3).
  rewrite segments_printable by done. cbn [fields_go Aws.trim_from]. rewrite space_printable by done.
  destruct (Ascii.eqb c " ") eqn:E.
  - split; [|done]. intros [|g cur] Hn; [done|]. rewrite I3.
    destruct (fields_go (segments (bytes s)) []); [cbn; by rewrite sapp_nil_r|done].
  - assert (forall cur, Join (fields_go (segments (bytes s)) (Segment (code c) [code c] true :: cur)) " "
      = join_segments (rev cur) +:+ String c (Aws.trim_from true false s)) as I4.
    { intros cur. rewrite I1 by done. cbn [rev]. by rewrite join_segments_snoc, sapp_assoc. }
    split_and!; [intros; apply I4|apply (I4 [])|].
    destruct (fields_go _ [_]) as [|w ws] eqn:Ef; [exfalso; revert Ef; by apply fields_go_more|]. rewrite <- Ef. by rewrite (I4 []).
Qed.

Lemma Trim_Fields s : all_bytes printable s = true -> Join (Fields s) " " = Aws.Trim s.
Proof. apply trim_fields. Qed.

(** Go parses a query into a map; the protocol lists it in order. *)
Definition query_map (q : list (string * string)) : Values := list_to_map ((fun p => (p.1, [p.2])) <$> q).

Lemma dom_query_map q k : k ∈ dom (query_map q) <-> k ∈ q.*1.
Proof.
  unfold query_map. rewrite dom_list_to_map, elem_of_list_to_set, <- list_fmap_compose. done.
Qed.

Lemma strict_NoDup l : StronglySorted str_lt l -> NoDup l.
Proof.
  induction 1 as [|x l _ IH Hx]; constructor; [|done]. intros Hin. rewrite Forall_forall in Hx.
  specialize (Hx x Hin). unfold str_lt in Hx. by rewrite slt_irrefl in Hx.
Qed.

Lemma signed_query_ordered q : StronglySorted str_lt q.*1 -> plus_to_20 (Encode (query_map q)) = Aws.CanonicalQueryString q.
Proof.
  intros Hq. rewrite signed_query. unfold Aws.CanonicalQueryString, pairs. f_equal.
  rewrite (strict_unique (sort_strings (elements (dom (query_map q)))) q.*1);
    [|apply sort_strings_strict, NoDup_elements|done|intros x; by rewrite elem_of_sort_strings, elem_of_elements, dom_query_map].
  assert (forall p, p ∈ q -> query_map q !! p.1 = Some [p.2]) as Hl.
  { intros p Hp. apply elem_of_list_to_map_1.
    - rewrite <- list_fmap_compose. by apply strict_NoDup.
    - apply list_elem_of_fmap. by exists p. }
  revert Hl. generalize (query_map q). clear. intros m Hl. induction q as [|[k v] q IH]; [done|].
  cbn [fmap list_fmap]. rewrite bind_cons, fmap_app, IH by (intros; apply Hl; by right).
  rewrite (Hl (k, v)) by left. cbn. unfold escape_pair. by rewrite !escape20_UriEncode.
Qed.

(** How a request that was sent arrives at the server: net/http takes Host and
    Content-Length out of the header map, and keeps the rest under the
    canonical form of their names. *)
Record arrives (x : Aws.outgoing) (r : Request) : Prop := mkArrives {
  a_method : Method r = Aws.o_method x;
  a_path : Path r = Aws.o_path x;
  a_query : ParseQuery (RawQuery r) = Some (query_map (Aws.o_query x));
  a_header : forall h v, (h, v) ∈ Aws.o_headers x ->
    if String.eqb h "host" then Host r = Aws.Trim v
    else if String.eqb h "content-length" then 0 <= ContentLength r /\ Aws.Trim v = FormatInt (ContentLength r)
    else header_values r h = [v]
}.

(** What a client signs is in order: parameters (whose
    names need no encoding) and headers sorted by name, each once, header names and values of ordinary characters, the payload hash,
    the time stamp and its day those of the headers. *)
Record in_order (x : Aws.outgoing) (t : Z) : Prop := mkInOrder {
  w_query : StronglySorted str_lt (Aws.o_query x).*1;
  w_plain : Forall (fun k => all_bytes (fun c => Contains Aws.never_encoded c) k = true) (Aws.o_query x).*1;
  w_headers : StronglySorted str_lt (Aws.o_headers x).*1;
  w_names : Forall (fun h => tame h = true) (Aws.o_headers x).*1;
  w_values : Forall (fun v => all_bytes printable v = true) (Aws.o_headers x).*2;
  w_payload : ("x-amz-content-sha256", Aws.o_payload x) ∈ Aws.o_headers x;
  w_stamp : ("x-amz-date", Aws.o_stamp x) ∈ Aws.o_headers x;
  w_time : parse_iso8601 (Aws.o_stamp x) = Some t;
  w_date : Aws.o_date x = format_date t
}.

Section Complete.
Variable EncodePath : string -> string.

Lemma headerValue_sent x r h v : arrives x r -> (h, v) ∈ Aws.o_headers x -> all_bytes printable v = true -> headerValue r h = Aws.Trim v.
Proof.
  intros Ha Hin Hv. pose proof (a_header _ _ Ha _ _ Hin) as Hh. unfold headerValue, hostHeader.
  destruct (String.eqb h "host"); [done|]. destruct (String.eqb h "content-length").
  - destruct Hh as [Hc ->]. by rewrite (proj2 (Z.ltb_ge _ _) Hc).
  - rewrite Hh. cbn. by apply Trim_Fields.
Qed.

Lemma header_sent x r h v : arrives x r -> (h, v) ∈ Aws.o_headers x -> h <> "host" -> h <> "content-length" -> header r h = v.
Proof.
  intros Ha Hin H1 H2. pose proof (a_header _ _ Ha _ _ Hin) as Hh.
  rewrite (proj2 (String.eqb_neq _ _) H1), (proj2 (String.eqb_neq _ _) H2) in Hh. unfold header. by rewrite Hh.
Qed.

(** The verifier's canonical request is the protocol's ... *)
Lemma canonicalRequest_protocol x r t : arrives x r -> in_order x t -> EncodePath (Aws.o_path x) = Aws.UriEncode true (Aws.o_path x) ->
  canonicalRequest EncodePath r (query_map (Aws.o_query x)) (Aws.o_headers x).*1 (Aws.o_payload x) = Aws.CanonicalRequest x.
Proof.
  intros Ha Hw Hp. unfold canonicalRequest, Aws.CanonicalRequest.
  rewrite (a_method _ _ Ha), (a_path _ _ Ha), Hp, signed_query_ordered by apply Hw. cbn [Join].
  change Aws.LF with newline. do 6 f_equal. unfold Aws.SignedHeaders, Aws.CanonicalHeaders.
  generalize (newline +:+ Join (Aws.o_headers x).*1 ";" +:+ newline +:+ Aws.o_payload x). intros rest.
  assert (forall h v, (h, v) ∈ Aws.o_headers x -> headerValue r h = Aws.Trim v) as Hv.
  { intros h v Hin. apply (headerValue_sent x); [done..|]. pose proof (w_values _ _ Hw) as Hf. rewrite Forall_forall in Hf.
    apply Hf, list_elem_of_fmap. by exists (h, v). }
  revert Hv. generalize (Aws.o_headers x). intros hs Hv. induction hs as [|[h v] hs IH]; [done|]. cbn [fmap list_fmap foldr fst snd].
  rewrite IH by (intros; apply Hv; by right). rewrite (Hv h v) by left. by rewrite !sapp_assoc.
Qed.

(** ... and so is the signature it wants to see. *)
Lemma want_sig_protocol x r t secret region service :
  arrives x r -> in_order x t -> EncodePath (Aws.o_path x) = Aws.UriEncode true (Aws.o_path x) ->
  want_sig EncodePath r (query_map (Aws.o_query x)) (Aws.o_headers x).*1 (credentialScope (format_date t) region service) (format_date t) region service secret
  = Aws.Signature x secret region service.
Proof.
  intros Ha Hw Hp. unfold want_sig, contentSHAHeader, dateHeader.
  rewrite !(header_sent x r _ _ Ha (w_payload _ _ Hw)), (header_sent x r _ _ Ha (w_stamp _ _ Hw)) by done.
  rewrite (canonicalRequest_protocol x r t) by done. unfold Aws.Signature, Aws.SigningKey, Aws.StringToSign, Aws.Scope.
  rewrite (w_date _ _ Hw). done.
Qed.

(** C22.  A request signed as AWS documents Signature Version 4, under the
    secret the lookup has for the key, is accepted as that key: when its parameters and
    headers are in order, every header that must be signed is, the scope names
    this region and service, the clock is within the skew, and the payload is
    not streamed -- given that the path encoder encodes the path as the
    protocol says. *)
Theorem Verify_complete {S : Type} x r akid secret region service (look : string -> S -> option string * S) now t s s' :
  in_order x t -> arrives x r -> EncodePath (Aws.o_path x) = Aws.UriEncode true (Aws.o_path x) ->
  tame akid = true -> akid <> "" -> tame region = true -> tame service = true ->
  covers r (Aws.o_headers x).*1 ->
  header r "Authorization" = Aws.Authorization x akid secret region service ->
  - maxClockSkew <= now - t <= maxClockSkew ->
  HasPrefix (Aws.o_payload x) streamingPrefix = false ->
  look akid s = (Some secret, s') ->
  Verify EncodePath r region service look now s = (Ok akid, s').
Proof.
  intros Hw Hr Hp Hk Hk0 Hreg Hv Hc Ha Hskew Hs Hl.
  pose proof (want_sig_protocol x r t secret region service Hr Hw Hp) as Hsig.
  destruct (want_sig_shape EncodePath r (query_map (Aws.o_query x)) (Aws.o_headers x).*1
              (credentialScope (format_date t) region service) (format_date t) region service secret) as [Hg Hg0].
  destruct (scope_visible (format_date t) region service) as (Hs1 & Hs2 & Hs3); auto with warphold.
  assert ((Aws.o_headers x).*1 <> []) as Hn. { intros E. rewrite E in Hc. by destruct Hc as (?%elem_of_nil & _). }
  assert (header r "Authorization" = authorization akid (credentialScope (format_date t) region service) (Aws.o_headers x).*1
            (Aws.Signature x secret region service)) as Ha'.
  { rewrite Ha. unfold Aws.Authorization, Aws.Scope. by rewrite (w_date _ _ Hw). }
  assert (header r dateHeader = Aws.o_stamp x) as Hd by by apply (header_sent x); [|apply Hw|..].
  assert (header r contentSHAHeader = Aws.o_payload x) as Hh by by apply (header_sent x); [|apply Hw|..].
  rewrite Hsig in Hg, Hg0. unfold Verify, verify_pre. rewrite Ha', parse_authorization by (done || apply Hw).
  rewrite (proj2 (parseScope_spec _ region service (format_date t) region)) by done.
  rewrite Hd, (w_time _ _ Hw), String.eqb_refl.
  destruct (String.eqb_spec (Aws.o_stamp x) "") as [E|_]; [pose proof (w_time _ _ Hw) as Ht; by rewrite E in Ht|]. cbn [negb].
  replace ((maxClockSkew <? Sub now t) || (Sub now t <? - maxClockSkew)) with false.
  2:{ symmetry. apply orb_false_iff. rewrite !Z.ltb_ge.
      unfold Sub, maxClockSkew, int64_min, int64_max, Minute, Second in *. lia. }
  rewrite (proj2 (requireSignedHeaders_spec r _) Hc), Hh, Hs, (a_query _ _ Hr), Hl, Hsig. by rewrite String.eqb_refl.
Qed.
End Complete.

(** ** A signed request, end to end *)

Definition sample_secret : string := "wJalrXUtnFEMI/K7MDENG".
Definition sample_signed : list string := ["host"; "x-amz-content-sha256"; "x-amz-date"].
Definition sample_now : Z := 1788350400 * Second.

Definition unsigned_request (query : string) : Request :=
  mkRequest "GET" "/warphold/dev1/p0" query "backup.example" 0
    {[ "X-Amz-Date" := ["20260902T120000Z"];
       "X-Amz-Content-Sha256" := ["UNSIGNED-PAYLOAD"] ]} "10.0.0.7:443".

Definition with_authorization (r : Request) (v : string) : Request :=
  mkRequest (Method r) (Path r) (RawQuery r) (Host r) (ContentLength r)
    (<[ "Authorization" := [v] ]> (Headers r)) (RemoteAddr r).

(** A request as the device that sends it signs it. *)
Definition outgoing_of (r : Request) : Aws.outgoing :=
  Aws.mkOutgoing (Method r) (Path r) (pairs (default ∅ (ParseQuery (RawQuery r))))
    [("host", Host r); ("x-amz-content-sha256", "UNSIGNED-PAYLOAD"); ("x-amz-date", "20260902T120000Z")]
    "UNSIGNED-PAYLOAD" "20260902T120000Z" "20260902".

Definition signed_by (akid secret : string) (r : Request) : Request :=
  with_authorization r (Aws.Authorization (outgoing_of r) akid secret "warphold" "s3").

Definition signed_request : Request := signed_by "AKID1" sample_secret (unsigned_request "a=1&b=x%20y").

Definition sample_look (akid : string) (s : unit) : option string * unit :=
  (if String.eqb akid "AKID1" then Some sample_secret else None, s).

Lemma signed_request_covered : covers signed_request sample_signed.
Proof. apply requireSignedHeaders_spec. by vm_compute. Qed.

Lemma signed_request_in_order : in_order (outgoing_of signed_request) sample_now.
Proof.
  assert (outgoing_of signed_request
    = Aws.mkOutgoing "GET" "/warphold/dev1/p0" [("a", "1"); ("b", "x y")]
        [("host", "backup.example"); ("x-amz-content-sha256", "UNSIGNED-PAYLOAD"); ("x-amz-date", "20260902T120000Z")]
        "UNSIGNED-PAYLOAD" "20260902T120000Z" "20260902") as -> by by vm_compute.
  by split; cbn [Aws.o_query Aws.o_headers Aws.o_payload Aws.o_stamp Aws.o_date fmap list_fmap fst snd]; repeat constructor.
Qed.

Lemma signed_request_arrives : arrives (outgoing_of signed_request) signed_request.
Proof.
  split; [done..|]. intros h v Hin. cbn [outgoing_of Aws.o_headers] in Hin.
  repeat (apply elem_of_cons in Hin as [[= -> ->]|Hin]; [done|]). by apply elem_of_nil in Hin.
Qed.

Lemma Verify_complete_witness :
  Verify id signed_request "warphold" "s3" sample_look sample_now tt = (Ok "AKID1", tt).
Proof.
  apply (Verify_complete id (outgoing_of signed_request) signed_request "AKID1" sample_secret "warphold" "s3"
           sample_look sample_now sample_now tt tt signed_request_in_order signed_request_arrives);
    [by vm_compute|by vm_compute|done|by vm_compute|by vm_compute|apply signed_request_covered|by vm_compute| |by vm_compute|by vm_compute].
  unfold maxClockSkew, Minute, Second. lia.
Defined.

Lemma Verify_sound_witness :
  exists secret scope signed sig t query,
    parseAuthorization (header signed_request "Authorization") = Ok ("AKID1", scope, signed, sig)
    /\ sample_look "AKID1" tt = (Some secret, tt)
    /\ parse_iso8601 (header signed_request dateHeader) = Some t
    /\ - maxClockSkew <= sample_now - t <= maxClockSkew
    /\ scope = Join [format_date t; "warphold"; "s3"; scopeTerminator] "/"
    /\ covers signed_request signed
    /\ HasPrefix (header signed_request contentSHAHeader) streamingPrefix = false
    /\ ParseQuery (RawQuery signed_request) = Some query
    /\ sig = want_sig id signed_request query signed scope (format_date t) "warphold" "s3" secret.
Proof.
  apply (Verify_sound id signed_request "warphold" "s3" sample_look sample_now tt "AKID1" tt).
  by vm_compute.
Defined.

Lemma canonicalRequest_covers_witness :
  one_line id (unsigned_request "a=1&b=2") sample_signed "UNSIGNED-PAYLOAD"
  /\ Method (unsigned_request "a=1&b=2") = Method (unsigned_request "b=2&a=1").
Proof.
  assert (forall q, one_line id (unsigned_request q) sample_signed "UNSIGNED-PAYLOAD") as H.
  { intros q. split_and!; [|by repeat constructor|done]. by repeat constructor. }
  split; [apply H|].
  apply (canonicalRequest_covers id (unsigned_request "a=1&b=2") (default ∅ (ParseQuery "a=1&b=2"))
    sample_signed "UNSIGNED-PAYLOAD" (unsigned_request "b=2&a=1") (default ∅ (ParseQuery "b=2&a=1"))
    sample_signed "UNSIGNED-PAYLOAD" (H _) (H _)).
  by vm_compute.
Defined.
