(* ===== verification/Seal.v ===== *)
(** * Sealed values

    [fleet/seal/seal.go]: the framing of a sealed value, nonce || box, and the
    text of the key files.  NaCl's secretbox is a parameter, with the law its
    documentation states. *)

From S2P Require Import Prelude GoStrings GoText.
From Stdlib Require Import Ascii.
Open Scope go_scope.

Definition nonceSize : nat := 24.
Definition Overhead : nat := 16.
Definition keySize : nat := 32.

Inductive SealErr := ErrTampered | ErrRandom | ErrMalformedKeyFile | ErrNoSalt.

#[export] Instance SealErr_eq_dec : EqDecision SealErr.
Proof. solve_decision. Defined.

(** [secretbox.Seal] and [secretbox.Open] (golang.org/x/crypto). *)
Record Secretbox := mkSecretbox {
  box_seal : list Z -> list Z -> list Z -> list Z;         (* message, nonce, key *)
  box_open : list Z -> list Z -> list Z -> option (list Z)  (* box, nonce, key *)
}.

(** Opening what was sealed under the same nonce and key gives the message
    back, and a box is [Overhead] bytes longer than its message. *)
Class SecretboxLaws (B : Secretbox) : Prop := {
  box_round_trip m nonce k : box_open B (box_seal B m nonce k) nonce k = Some m;
  box_length m nonce k : length (box_seal B m nonce k) = (length m + Overhead)%nat
}.

Section Seal.
Variable B : Secretbox.

(** [k.Seal(plain)]; [nonce] is what the random source yields, if it does. *)
Definition Seal (k plain : list Z) (nonce : option (list Z)) : result SealErr (list Z) :=
  match nonce with
  | None => Err ErrRandom
  | Some nonce => Ok (nonce ++ box_seal B plain nonce k)
  end.

(** [k.Open(sealed)] *)
Definition Open (k sealed : list Z) : result SealErr (list Z) :=
  if (length sealed <? nonceSize + Overhead)%nat then Err ErrTampered
  else match box_open B (drop nonceSize sealed) (take nonceSize sealed) k with
  | None => Err ErrTampered
  | Some out => Ok out
  end.
End Seal.

Lemma sealed_opens (B : Secretbox) `{!SecretboxLaws B} k plain nonce sealed :
  length nonce = nonceSize -> Seal B k plain (Some nonce) = Ok sealed -> Open B k sealed = Ok plain.
Proof.
  intros Hn [= <-]. unfold Open.
  destruct (Nat.ltb_spec (length (nonce ++ box_seal B plain nonce k)) (nonceSize + Overhead)).
  { rewrite length_app, box_length, Hn in *. lia. }
  rewrite take_app_length', drop_app_length' by done. by rewrite box_round_trip.
Qed.

(** A secret sealed under any full-length nonce opens, under the same
    key, to itself; and nothing shorter than a nonce and a tag opens at all. *)
Theorem Seal_Open (B : Secretbox) `{!SecretboxLaws B} k plain nonce sealed :
  length nonce = nonceSize ->
  Seal B k plain (Some nonce) = Ok sealed ->
  Open B k sealed = Ok plain
  /\ forall short, (length short < nonceSize + Overhead)%nat -> Open B k short = Err ErrTampered.
Proof.
  intros Hn Hs. split; [by eapply sealed_opens|].
  intros short Hl. unfold Open. by apply Nat.ltb_lt in Hl as ->.
Qed.

(** A box that keeps its message in the clear behind a tag of its key. *)
Definition clear_box : Secretbox :=
  mkSecretbox (fun m _ k => take 16 (k ++ replicate 16 0) ++ m)
    (fun b _ k => if bool_decide (take 16 b = take 16 (k ++ replicate 16 0))
                  then Some (drop 16 b) else None).

#[export] Instance clear_box_laws : SecretboxLaws clear_box.
Proof.
  assert (forall k : list Z, length (take 16 (k ++ replicate 16 0)) = 16%nat) as Hl.
  { intros k. rewrite length_take, length_app, length_replicate. lia. }
  split; intros m nonce k; cbn [box_open box_seal clear_box].
  - rewrite take_app_length', drop_app_length' by by rewrite Hl. by rewrite bool_decide_true.
  - rewrite length_app, Hl. unfold Overhead. lia.
Qed.

Lemma Seal_Open_witness :
  Open clear_box (replicate 32 7) (replicate 24 1 ++ box_seal clear_box [1; 2; 3] (replicate 24 1) (replicate 32 7))
  = Ok [1; 2; 3].
Proof.
  exact (proj1 (Seal_Open clear_box (replicate 32 7) [1; 2; 3] (replicate 24 1) _ eq_refl eq_refl)).
Defined.

(** ** Key files *)

Definition key_file_text (k : list Z) : string := hex_encode k +:+ String (chr 10) "".

Definition pending_file_text (k salt : list Z) : string :=
  hex_encode k +:+ " " +:+ hex_encode salt +:+ String (chr 10) "".

(** [readKeyFile] on the content of the file. *)
Definition readKeyFile (content : string) : result SealErr (list Z * list Z) :=
  match Fields content with
  | [f] =>
      match hex_decode f with
      | Some raw => if Nat.eqb (length raw) keySize then Ok (raw, []) else Err ErrMalformedKeyFile
      | None => Err ErrMalformedKeyFile
      end
  | [f; g] =>
      match hex_decode f with
      | Some raw =>
          if negb (Nat.eqb (length raw) keySize) then Err ErrMalformedKeyFile
          else match hex_decode g with
          | Some salt => if Nat.eqb (length salt) 0 then Err ErrMalformedKeyFile else Ok (raw, salt)
          | None => Err ErrMalformedKeyFile
          end
      | None => Err ErrMalformedKeyFile
      end
  | _ => Err ErrMalformedKeyFile
  end.

Definition ReadKeyFile (content : string) : result SealErr (list Z) :=
  let! (k, _) := readKeyFile content in Ok k.

Definition ReadPendingKeyFile (content : string) : result SealErr (list Z * list Z) :=
  let! (k, salt) := readKeyFile content in
  if Nat.eqb (length salt) 0 then Err ErrNoSalt else Ok (k, salt).

(** ** Reading back what was written *)

Lemma fields_go_visible l rest cur :
  Forall visible_segment l -> fields_go (l ++ rest) cur = fields_go rest (rev l ++ cur).
Proof.
  intros H. revert cur. induction H as [|g l Hg _ IH]; intros cur; [done|].
  cbn [app fields_go]. rewrite Hg, IH. cbn [rev]. by rewrite <- app_assoc.
Qed.

Lemma segments_visible_app s t :
  all_bytes visible_byte s = true -> segments (bytes (s +:+ t)) = segments (bytes s) ++ segments (bytes t).
Proof.
  induction s as [|c s IH]; [done|]. rewrite sapp_cons. cbn [all_bytes bytes segments].
  intros [Hc Hs]%andb_true_iff. unfold visible_byte, between in Hc. bool_to_prop.
  destruct (Z.ltb_spec (code c) 0x80); [|lia]. by rewrite IH.
Qed.

(** A visible word followed by a space or a line break is a field. *)
Lemma Fields_word s c t :
  all_bytes visible_byte s = true -> s <> "" -> (c = " "%char \/ c = chr 10) ->
  Fields (s +:+ String c t) = s :: Fields t.
Proof.
  intros Hs Hn Hc. unfold Fields. rewrite segments_visible_app by done.
  pose proof (visible_segments s Hs) as Hv. rewrite fields_go_visible, app_nil_r by done.
  assert (segments (bytes (String c t)) = Segment (code c) [code c] true :: segments (bytes t)
          /\ IsSpace (code c) = true) as [-> Hsp] by by destruct Hc as [-> | ->].
  cbn [fields_go]. unfold seg_space. cbn [seg_valid seg_rune andb]. rewrite Hsp.
  destruct (rev (segments (bytes s))) as [|g l] eqn:E.
  - exfalso. apply Hn. rewrite <- (of_bytes_bytes s), <- (segments_bytes (bytes s)).
    by rewrite <- (rev_involutive (segments (bytes s))), E.
  - f_equal. rewrite <- E, rev_involutive. unfold join_segments. by rewrite segments_bytes, of_bytes_bytes.
Qed.

Lemma hex_visible l : byte_list l -> all_bytes visible_byte (hex_encode l) = true.
Proof.
  assert (forall z, 0 <= z < 16 -> visible_byte (hexdigit z) = true) as Hd.
  { intros z Hz. apply (enumerate 16 (fun z => visible_byte (hexdigit z))); [by vm_compute|done]. }
  induction 1 as [|z l Hz _ IH]; [done|]. cbn [hex_encode all_bytes]. by rewrite IH, !Hd by lia_div.
Qed.

Lemma hex_nonempty l : l <> [] -> hex_encode l <> "".
Proof. by destruct l. Qed.

(** A key file reads back as the key it was written for, and a pending
    key file as its key and salt; a plain key file is refused as a pending
    one, so only a tagged file can drive the recovery of a rotation. *)
Theorem key_file_round_trip k salt :
  byte_list k -> length k = keySize -> byte_list salt -> salt <> [] ->
  ReadKeyFile (key_file_text k) = Ok k
  /\ ReadPendingKeyFile (pending_file_text k salt) = Ok (k, salt)
  /\ ReadKeyFile (pending_file_text k salt) = Ok k
  /\ ReadPendingKeyFile (key_file_text k) = Err ErrNoSalt.
Proof.
  intros Hk Hl Hs Hn.
  assert (hex_encode k <> "") as Hk0 by (apply hex_nonempty; by intros ->).
  pose proof (hex_nonempty salt Hn) as Hs0.
  assert (readKeyFile (key_file_text k) = Ok (k, [])) as E1.
  { unfold readKeyFile, key_file_text. rewrite Fields_word by auto using hex_visible.
    change (Fields "") with (@nil string). by rewrite hex_round_trip, Hl. }
  assert (readKeyFile (pending_file_text k salt) = Ok (k, salt)) as E2.
  { unfold readKeyFile, pending_file_text. change (" " +:+ ?x) with (String " " x).
    rewrite !Fields_word by auto using hex_visible.
    change (Fields "") with (@nil string). rewrite !hex_round_trip, Hl by done.
    by destruct salt. }
  unfold ReadKeyFile, ReadPendingKeyFile. rewrite E1, E2. by destruct salt.
Qed.

Lemma key_file_round_trip_witness :
  ReadPendingKeyFile (pending_file_text (replicate 32 171) [1; 255]) = Ok (replicate 32 171, [1; 255]).
Proof.
  apply (key_file_round_trip (replicate 32 171) [1; 255]); [by repeat constructor|done|by repeat constructor|done].
Defined.
