(* ===== verification/Keys.v ===== *)
(** * Device keys and the gateway's key cache

    [fleet/store/device_keys.go]: the table of gateway credentials; and
    [fleet/gateway/keys.go]: the cache in front of it.  A lookup is four
    atomic steps -- read the cache, read the table and unseal, then publish or
    forget -- which other lookups, revocations and rotations interleave with. *)

From S2P Require Import Prelude GoStrings GoText GoTime Db Seal.
Open Scope go_scope.

(** ** The table *)

Record DeviceKey := mkDeviceKey {
  AccessKeyID : string;
  AgentID : string;
  SealedSecret : list Z;
  KeyPrefix : string;
  ReadOnly : bool;
  CreatedAt : Z;
  DisabledAt : option Z
}.

(** The [device_keys] rows by primary key, and the agents they may reference. *)
Record keyStore := mkKeyStore { agents : gset string; rows : gmap string DeviceKey }.

Inductive DbErr := ErrKeyNotFound | ErrConstraint | ErrDb.

Definition set_rows (f : gmap string DeviceKey -> gmap string DeviceKey) (s : keyStore) : keyStore :=
  mkKeyStore (agents s) (f (rows s)).

Definition CreateDeviceKey (k : DeviceKey) (s : keyStore) : result DbErr keyStore :=
  if bool_decide (AgentID k ∉ agents s) then Err ErrConstraint
  else match rows s !! AccessKeyID k with
  | Some _ => Err ErrConstraint
  | None =>
      Ok (set_rows (<[AccessKeyID k :=
            mkDeviceKey (AccessKeyID k) (AgentID k) (SealedSecret k) (KeyPrefix k) (ReadOnly k)
              (ts (CreatedAt k)) (ts <$> DisabledAt k)]>) s)
  end.

(** [s.DeviceKey]: an active key; a disabled one is not found. *)
Definition lookupDeviceKey (id : string) (s : keyStore) : result DbErr DeviceKey :=
  match rows s !! id with
  | Some k => match DisabledAt k with None => Ok k | Some _ => Err ErrKeyNotFound end
  | None => Err ErrKeyNotFound
  end.

Definition created_le (k1 k2 : DeviceKey) : Prop :=
  CreatedAt k1 < CreatedAt k2
  \/ CreatedAt k1 = CreatedAt k2 /\ str_le (AccessKeyID k1) (AccessKeyID k2).

#[export] Instance created_le_dec : RelDecision created_le.
Proof. intros k1 k2. unfold created_le. apply _. Defined.

Definition DeviceKeysForAgent (agent : string) (s : keyStore) : list DeviceKey :=
  merge_sort created_le
    (filter (fun k => AgentID k = agent) (snd <$> map_to_list (rows s))).

Definition DeleteDeviceKeysForAgent (agent : string) (s : keyStore) : Z * keyStore :=
  (Z.of_nat (size (filter (fun '(_, k) => AgentID k = agent) (rows s))),
   set_rows (filter (fun '(_, k) => AgentID k <> agent)) s).

Definition disable (at_ : Z) (k : DeviceKey) : DeviceKey :=
  mkDeviceKey (AccessKeyID k) (AgentID k) (SealedSecret k) (KeyPrefix k) (ReadOnly k)
    (CreatedAt k) (Some (ts at_)).

Definition active (k : DeviceKey) : bool :=
  match DisabledAt k with None => true | Some _ => false end.

Definition DisableDeviceKeysForAgent (agent : string) (at_ : Z) (s : keyStore) : Z * keyStore :=
  let hit k := String.eqb (AgentID k) agent && active k in
  (Z.of_nat (size (filter (fun '(_, k) => hit k = true) (rows s))),
   set_rows (fmap (fun k => if hit k then disable at_ k else k)) s).

Definition DisableDeviceKey (id : string) (at_ : Z) (s : keyStore) : keyStore :=
  set_rows (alter (fun k => if active k then disable at_ k else k) id) s.

(** ** The cache *)

Definition cacheTTL : Z := 5 * Minute.
Definition cacheSize : nat := 4096.

Record keyEntry := mkEntry {
  agentID : string; prefix : string; secret : string; readOnly : bool; expires : Z
}.

Record Keys := mkKeys { gen : Z; cache : gmap string keyEntry }.

Definition NewKeys : Keys := mkKeys 0 ∅.

(** [gen] is a uint64. *)
Definition bump (g : Z) : Z := (g + 1) `mod` 2 ^ 64.

Definition Invalidate (agent : string) (k : Keys) : Keys :=
  mkKeys (bump (gen k)) (filter (fun '(_, e) => agentID e <> agent) (cache k)).

Definition InvalidateAll (k : Keys) : Keys := mkKeys (bump (gen k)) ∅.

Definition forget (akid : string) (k : Keys) : Keys := mkKeys (gen k) (delete akid (cache k)).

(** What a lookup returns: the four fields of an entry. *)
Record resolved := mkResolved {
  r_agent : string; r_prefix : string; r_secret : string; r_readOnly : bool
}.

Definition resolve (e : keyEntry) : resolved :=
  mkResolved (agentID e) (prefix e) (secret e) (readOnly e).

(** First critical section: the generation, and an unexpired entry. *)
Definition lookup_begin (akid : string) (now : Z) (k : Keys) : option resolved * Z :=
  (match cache k !! akid with
   | Some e => if Before now (expires e) then Some (resolve e) else None
   | None => None
   end, gen k).

Section Lookup.
Variable B : Secretbox.
Variable sealKey : list Z.

(** The table read and the unsealing, outside any lock. *)
Definition lookup_row (akid : string) (now : Z) (row : result DbErr DeviceKey) : option keyEntry :=
  match row with
  | Err _ => None
  | Ok row =>
      match Open B sealKey (SealedSecret row) with
      | Err _ => None
      | Ok plain =>
          Some (mkEntry (AgentID row) (KeyPrefix row) (of_bytes plain) (ReadOnly row) (now + cacheTTL))
      end
  end.

(** Second critical section: cache the entry unless an invalidation ran. *)
Definition lookup_publish (akid : string) (g : Z) (e : keyEntry) (k : Keys) : Keys :=
  if gen k =? g then
    let c := if (cacheSize <=? size (cache k))%nat then ∅ else cache k in
    mkKeys (gen k) (<[akid := e]> c)
  else k.

(** [k.Lookup] run without interference; [row] is the answer of the store. *)
Definition Lookup (akid : string) (now : Z) (row : result DbErr DeviceKey) (k : Keys)
  : option resolved * Keys :=
  let '(hit, g) := lookup_begin akid now k in
  match hit with
  | Some r => (Some r, k)
  | None =>
      match lookup_row akid now row with
      | None => (None, forget akid k)
      | Some e => (Some (resolve e), lookup_publish akid g e k)
      end
  end.

(** ** Lookups that interleave *)

(** Where a lookup is between its critical sections. *)
Inductive phase :=
| Reading (akid : string) (now g : Z)
| Publishing (akid : string) (g : Z) (e : keyEntry)
| Forgetting (akid : string).

Record system := mkSystem {
  clock : Z;
  store : keyStore;
  keys : Keys;
  inflight : gmap nat phase
}.

Inductive action :=
| Start (tid : nat) (akid : string) (now : Z)
| Read (tid : nat) (db_ok : bool)
| Finish (tid : nat)
| Create (k : DeviceKey)
| Disable (agent : string) (at_ : Z)
| DisableOne (akid : string) (at_ : Z)
| DeleteAll (agent : string)
| Drop (agent : string)
| DropAll.

Definition set_inflight (s : system) (m : gmap nat phase) : system :=
  mkSystem (clock s) (store s) (keys s) m.
Definition set_keys (s : system) (k : Keys) : system :=
  mkSystem (clock s) (store s) k (inflight s).
Definition set_store (s : system) (t : keyStore) : system :=
  mkSystem (clock s) t (keys s) (inflight s).

(** One step, and what it returns to a caller: the thread and its answer.  A
    step that is not enabled changes nothing. *)
Definition step (a : action) (s : system) : system * option (nat * option resolved) :=
  match a with
  | Start tid akid now =>
      match inflight s !! tid with
      | Some _ => (s, None)
      | None =>
          let now := Z.max now (clock s) in
          let '(hit, g) := lookup_begin akid now (keys s) in
          match hit with
          | Some r => (mkSystem now (store s) (keys s) (inflight s), Some (tid, Some r))
          | None => (mkSystem now (store s) (keys s) (<[tid := Reading akid now g]> (inflight s)), None)
          end
      end
  | Read tid db_ok =>
      match inflight s !! tid with
      | Some (Reading akid now g) =>
          let row := if db_ok then lookupDeviceKey akid (store s) else Err ErrDb in
          (set_inflight s (<[tid := match lookup_row akid now row with
                                    | Some e => Publishing akid g e
                                    | None => Forgetting akid
                                    end]> (inflight s)), None)
      | _ => (s, None)
      end
  | Finish tid =>
      match inflight s !! tid with
      | Some (Publishing akid g e) =>
          (set_inflight (set_keys s (lookup_publish akid g e (keys s))) (delete tid (inflight s)),
           Some (tid, Some (resolve e)))
      | Some (Forgetting akid) =>
          (set_inflight (set_keys s (forget akid (keys s))) (delete tid (inflight s)), Some (tid, None))
      | _ => (s, None)
      end
  | Create k => (match CreateDeviceKey k (store s) with Ok t => set_store s t | Err _ => s end, None)
  | Disable agent at_ => (set_store s (snd (DisableDeviceKeysForAgent agent at_ (store s))), None)
  | DisableOne akid at_ => (set_store s (DisableDeviceKey akid at_ (store s)), None)
  | DeleteAll agent => (set_store s (snd (DeleteDeviceKeysForAgent agent (store s))), None)
  | Drop agent => (set_keys s (Invalidate agent (keys s)), None)
  | DropAll => (set_keys s (InvalidateAll (keys s)), None)
  end.

(** A run, with the answers in order. *)
Fixpoint run (acts : list action) (s : system) : system * list (nat * option resolved) :=
  match acts with
  | [] => (s, [])
  | a :: rest =>
      let '(s, out) := step a s in
      let '(s, outs) := run rest s in
      (s, match out with Some o => o :: outs | None => outs end)
  end.
End Lookup.

(** * What the key cache guarantees

    Properties of [Keys]: revocation is final whatever lookups were racing it,
    the TTL bounds a missed invalidation, the cache is bounded, and an
    undisturbed lookup answers what the table holds. *)

Section Facts.
Variable B : Secretbox.
Variable sealKey : list Z.

Abbreviation step := (Keys.step B sealKey).
Abbreviation run := (Keys.run B sealKey).

Definition init (t : keyStore) : system := mkSystem zero_time t NewKeys ∅.

(** ** Runs *)

Lemma run_app a b s :
  run (a ++ b) s = let '(s1, o1) := run a s in let '(s2, o2) := run b s1 in (s2, o1 ++ o2).
Proof.
  revert s. induction a as [|x a IH]; intros s; cbn [app Keys.run].
  - by destruct (run b s).
  - destruct (step x s) as [s' o]. rewrite IH. destruct (run a s') as [s1 o1].
    destruct (run b s1) as [s2 o2]. by destruct o.
Qed.

(** An invariant of steps that may depend on the action. *)
Lemma run_invariant (P : system -> Prop) (ok : action -> Prop) acts s :
  (forall a s, ok a -> P s -> P (fst (step a s))) -> Forall ok acts -> P s -> P (fst (run acts s)).
Proof.
  intros Hstep Hok. revert s. induction Hok as [|a acts Ha _ IH]; intros s Hs; [done|].
  cbn [Keys.run]. specialize (Hstep a s Ha Hs). destruct (step a s) as [s' o]. specialize (IH s' Hstep).
  destruct (run acts s') as [s'' outs]. by destruct o.
Qed.

(** ... and what every answer of the run satisfies. *)
Lemma run_outputs (P : system -> Prop) (Q : nat * option resolved -> Prop) (ok : action -> Prop) acts s :
  (forall a s, ok a -> P s -> P (fst (step a s)) /\ forall o, snd (step a s) = Some o -> Q o) ->
  Forall ok acts -> P s -> Forall Q (snd (run acts s)).
Proof.
  intros Hstep Hok. revert s. induction Hok as [|a acts Ha _ IH]; intros s Hs; [constructor|].
  cbn [Keys.run]. destruct (Hstep a s Ha Hs) as [Hs' Ho]. destruct (step a s) as [s' o].
  specialize (IH s' Hs'). destruct (run acts s') as [s'' outs]. destruct o; [|done].
  constructor; [by apply Ho|done].
Qed.

(** Starting a lookup: not enabled, a cache hit, or in flight. *)
Lemma start_cases tid akid now s :
  let now' := Z.max now (clock s) in
  step (Start tid akid now) s = (s, None)
  \/ inflight s !! tid = None
     /\ ((exists e, cache (keys s) !! akid = Some e /\ now' < expires e
           /\ step (Start tid akid now) s
              = (mkSystem now' (store s) (keys s) (inflight s), Some (tid, Some (resolve e))))
         \/ step (Start tid akid now) s
            = (mkSystem now' (store s) (keys s)
                 (<[tid := Reading akid now' (gen (keys s))]> (inflight s)), None)).
Proof.
  cbn [Keys.step]. destruct (inflight s !! tid); [by left|right]. split; [done|].
  unfold lookup_begin. destruct (cache (keys s) !! akid) as [e|] eqn:E; [|by right].
  unfold Before. destruct (Z.ltb_spec (now `max` clock s) (expires e)); [left; eauto|by right].
Qed.

(** ** Reading the table *)

Lemma lookup_row_active akid now id t e :
  lookup_row B sealKey akid now (lookupDeviceKey id t) = Some e ->
  exists k, rows t !! id = Some k /\ DisabledAt k = None /\ agentID e = AgentID k
            /\ expires e = now + cacheTTL.
Proof.
  unfold lookup_row, lookupDeviceKey. destruct (rows t !! id) as [k|] eqn:E; [|done].
  destruct (DisabledAt k) eqn:Ed; [done|]. destruct (Open _ _ _); [|done].
  intros [= <-]. eauto.
Qed.

Lemma lookup_row_err akid now e : lookup_row B sealKey akid now (Err e) = None.
Proof. done. Qed.

(** ** No active key of an agent is left *)

Definition no_active (agent : string) (t : keyStore) : Prop :=
  forall id k, rows t !! id = Some k -> AgentID k = agent -> DisabledAt k <> None.

(** An action that does not issue the agent a new key. *)
Definition no_create (agent : string) (a : action) : Prop :=
  match a with Create k => AgentID k <> agent | _ => True end.

Lemma no_active_row agent t akid now id e :
  no_active agent t -> lookup_row B sealKey akid now (lookupDeviceKey id t) = Some e ->
  agentID e <> agent.
Proof.
  intros Ht He. apply lookup_row_active in He as (k & Hk & Hd & -> & _). intros Ha.
  by apply (Ht id k).
Qed.

Lemma disable_no_active agent at_ t : no_active agent (snd (DisableDeviceKeysForAgent agent at_ t)).
Proof.
  intros id k. cbn. rewrite lookup_fmap_Some. intros (k' & <- & _).
  destruct (String.eqb (AgentID k') agent) eqn:E; bool_to_prop; cbn [andb]; [|done].
  intros _. unfold active. by destruct (DisabledAt k') eqn:E'; cbn; [rewrite E'|].
Qed.

Lemma step_no_active agent a s :
  no_create agent a -> no_active agent (store s) -> no_active agent (store (fst (step a s))).
Proof.
  intros Hc Ht. destruct a as [tid akid now|tid ok|tid|k|ag at_|id at_|ag|ag|].
  1: by destruct (start_cases tid akid now s) as [->|[_ [(e & _ & _ & ->)| ->]]].
  all: cbn [Keys.step].
  - split_ifs; done.
  - split_ifs; done.
  - cbn in Hc. unfold CreateDeviceKey. destruct (bool_decide _); [done|].
    destruct (rows (store s) !! _); [done|]. intros id k'. cbn. rewrite lookup_insert.
    case_decide; [by intros [= <-]|apply Ht].
  - intros id k. cbn. rewrite lookup_fmap_Some. intros (k' & <- & Hk). destruct (_ && _); [done|].
    by apply (Ht id).
  - intros id' k. cbn. rewrite lookup_alter. case_decide; [subst id'|apply Ht].
    rewrite fmap_Some. intros (k' & Hk & ->). destruct (active k'); [done|]. by apply (Ht id).
  - intros id k. cbn. intros [Hk _]%map_lookup_filter_Some. by apply (Ht id).
  - done.
  - done.
Qed.

(** ** Generations *)

(** [g] was the generation at most [n] invalidations ago, and at least [m]. *)
Definition behind (m n : Z) (k : Keys) (g : Z) : Prop :=
  exists d, m <= d <= n /\ gen k = (g + d) `mod` 2 ^ 64.

Lemma behind_bump m n k k' g :
  gen k' = bump (gen k) -> behind m n k g -> behind (m + 1) (n + 1) k' g.
Proof.
  intros Hg (d & Hd & E). exists (d + 1). split; [lia|].
  rewrite Hg, E. unfold bump. rewrite Zplus_mod_idemp_l. f_equal. lia.
Qed.

Lemma behind_weaken m n m' n' k k' g :
  gen k' = gen k -> m' <= m -> n <= n' -> behind m n k g -> behind m' n' k' g.
Proof. intros Hg ?? (d & Hd & E). exists d. split; [lia|]. by rewrite Hg. Qed.

Lemma behind_differs n k g : n < 2 ^ 64 -> behind 1 n k g -> gen k <> g.
Proof.
  intros Hn (d & Hd & E) Hg.
  assert (g = (g + d) mod 2 ^ 64) as H by congruence.
  pose proof (Z.div_mod (g + d) (2 ^ 64) ltac:(lia)) as Hdiv. rewrite <- H in Hdiv. lia.
Qed.

Definition inval (a : action) : Z := match a with Drop _ | DropAll => 1 | _ => 0 end.
Definition invals (acts : list action) : Z := foldr (fun a n => inval a + n) 0 acts.

Lemma invals_app a b : invals (a ++ b) = invals a + invals b.
Proof. unfold invals. induction a as [|x a IH]; cbn [app foldr] in *; lia. Qed.

Lemma invals_nonneg a : 0 <= invals a.
Proof. unfold invals. induction a as [|[] a IH]; cbn [foldr inval] in *; lia. Qed.

Definition phase_gen (p : phase) : option Z :=
  match p with Reading _ _ g => Some g | Publishing _ g _ => Some g | Forgetting _ => None end.

(** Every lookup in flight remembers a generation of the last [n]. *)
Definition gens_ok (n : Z) (s : system) : Prop :=
  0 <= gen (keys s) < 2 ^ 64
  /\ forall tid p g, inflight s !! tid = Some p -> phase_gen p = Some g -> behind 0 n (keys s) g.

Lemma bump_range g : 0 <= bump g < 2 ^ 64.
Proof. apply Z.mod_pos_bound. lia. Qed.

Lemma publish_gen akid g e k : gen (lookup_publish akid g e k) = gen k.
Proof. unfold lookup_publish. by destruct (_ =? _). Qed.

Lemma gens_ok_step n a s : 0 <= n -> gens_ok n s -> gens_ok (n + inval a) (fst (step a s)).
Proof.
  intros Hn [Hr Hi].
  assert (behind 0 n (keys s) (gen (keys s))) as Hnow.
  { exists 0. split; [lia|]. rewrite Z.add_0_r. by rewrite Z.mod_small. }
  assert (forall k' : Keys, gen k' = bump (gen (keys s)) ->
    gens_ok (n + 1) (set_keys s k')) as Hbump.
  { intros k' Hk'. split; [cbn; rewrite Hk'; apply bump_range|]. cbn. intros tid p g Hp Hg.
    eapply behind_weaken; [done| | |apply (behind_bump 0 n (keys s))]; eauto; lia. }
  destruct a as [tid akid now|tid ok|tid|k|ag at_|id at_|ag|ag|]; cbn [inval]; rewrite ?Z.add_0_r.
  { destruct (start_cases tid akid now s) as [->|[_ [(e & _ & _ & ->)| ->]]]; [done..|].
    split; [done|]. cbn. intros tid' p g. rewrite lookup_insert. case_decide; [|eauto].
    by intros [= <-] [= <-]. }
  all: cbn [Keys.step].
  - destruct (inflight s !! tid) as [[akid now g| |]|] eqn:Et; try done. split; [done|].
    cbn. intros tid' p g'. rewrite lookup_insert. case_decide; [|eauto].
    intros [= <-]. destruct (lookup_row _ _ _ _ _); intros [= <-]. by apply (Hi tid (Reading akid now g)).
  - destruct (inflight s !! tid) as [[|akid g e|akid]|] eqn:Et; try done;
      (split; [cbn; rewrite ?publish_gen; done|]); cbn; intros tid' p g'
      [_ Hp]%lookup_delete_Some Hg; apply (behind_weaken 0 n 0 n (keys s)); eauto using publish_gen with lia.
  - by destruct (CreateDeviceKey _ _).
  - done.
  - done.
  - done.
  - by apply Hbump.
  - by apply Hbump.
Qed.

Lemma gens_ok_run n acts s : 0 <= n -> gens_ok n s -> gens_ok (n + invals acts) (fst (run acts s)).
Proof.
  revert n s. induction acts as [|a acts IH]; intros n s Hn Hs.
  - cbn. by rewrite Z.add_0_r.
  - change (invals (a :: acts)) with (inval a + invals acts). cbn [Keys.run].
    pose proof (gens_ok_step n a s Hn Hs) as Hs'. destruct (step a s) as [s' o].
    apply IH in Hs'; [|destruct a; cbn; lia]. cbn [fst] in Hs'.
    destruct (run acts s') as [s'' outs]. by rewrite Z.add_assoc.
Qed.

(** ** Revocation *)

(** The agent is out: no active row, no cache entry, and every lookup still
    holding an entry of it belongs to [old] and remembers an older generation. *)
Definition revoked (agent : string) (old : nat -> Prop) (n : Z) (s : system) : Prop :=
  no_active agent (store s)
  /\ (forall id e, cache (keys s) !! id = Some e -> agentID e <> agent)
  /\ forall tid akid g e, inflight s !! tid = Some (Publishing akid g e) -> agentID e = agent ->
       old tid /\ behind 1 n (keys s) g.

Lemma publish_cache agent akid g e k :
  (gen k = g -> agentID e <> agent) ->
  (forall id e, cache k !! id = Some e -> agentID e <> agent) ->
  forall id e', cache (lookup_publish akid g e k) !! id = Some e' -> agentID e' <> agent.
Proof.
  intros He Hk id e'. unfold lookup_publish. destruct (Z.eqb_spec (gen k) g); [|apply Hk].
  cbn [cache]. rewrite lookup_insert. case_decide; [intros [= <-]; auto|].
  destruct (cacheSize <=? size (cache k))%nat; [by rewrite lookup_empty|apply Hk].
Qed.

Lemma revoked_step agent old n a s :
  n < 2 ^ 64 -> no_create agent a -> revoked agent old n s ->
  revoked agent old (n + inval a) (fst (step a s))
  /\ forall o, snd (step a s) = Some o ->
       match snd o with Some r => r_agent r = agent -> old (fst o) | None => True end.
Proof.
  intros Hn Hc Hs. pose proof (step_no_active agent a s Hc (proj1 Hs)) as Hna.
  destruct Hs as (Ht & Hk & Hi).
  assert (forall k', gen k' = bump (gen (keys s)) ->
    forall tid akid g e, inflight s !! tid = Some (Publishing akid g e) -> agentID e = agent ->
       old tid /\ behind 1 (n + 1) k' g) as Hbump.
  { intros k' Hk' tid akid g e Hp He. destruct (Hi tid akid g e Hp He). split; [done|].
    apply (behind_weaken 2 (n + 1) 1 (n + 1) k'); try done; [lia..|by apply (behind_bump 1 n (keys s))]. }
  destruct a as [tid akid now|tid ok|tid|k|ag at_|id at_|ag|ag|]; cbn [inval]; rewrite ?Z.add_0_r.
  { destruct (start_cases tid akid now s) as [E|[Ho [(e & He & _ & E)|E]]]; rewrite E in *; cbn [fst snd].
    - by split.
    - split; [by split|]. intros o [= <-]. cbn. intros Ha. by destruct (Hk _ _ He).
    - split; [split_and!; [done..|]|done]. cbn. intros tid' akid' g e. rewrite lookup_insert.
      case_decide; [done|apply Hi]. }
  all: cbn [Keys.step] in *.
  - destruct (inflight s !! tid) as [[akid now g| |]|] eqn:Et; cbn [fst snd] in *;
      [|by split..]. split; [|done]. split_and!; [done..|]. cbn.
    intros tid' akid' g' e. rewrite lookup_insert. case_decide; [|apply Hi].
    destruct (lookup_row _ _ _ _ _) as [e'|] eqn:El; [|done]. intros [= -> -> ->] He.
    destruct ok; [|done]. by destruct (no_active_row agent _ _ _ _ _ Ht El).
  - destruct (inflight s !! tid) as [[|akid g e|akid]|] eqn:Et; cbn [fst snd] in *; [by split|..|by split].
    + split.
      * split_and!; [done| |]; cbn.
        -- apply publish_cache; [|done]. intros Hg He.
           destruct (Hi _ _ _ _ Et He) as [_ Hb]. by apply behind_differs in Hb.
        -- intros tid' akid' g' e' [_ Hp]%lookup_delete_Some He. destruct (Hi _ _ _ _ Hp He).
           split; [done|]. by apply (behind_weaken 1 n 1 n (keys s)); [apply publish_gen|..].
      * intros o [= <-]. cbn. intros Ha. by destruct (Hi _ _ _ _ Et Ha).
    + split; [|by intros o [= <-]]. split_and!; [done| |]; cbn.
      * intros id e [_ He]%lookup_delete_Some. by eapply Hk.
      * intros tid' akid' g' e' [_ Hp]%lookup_delete_Some. by apply (Hi _ akid').
  - split; [|done]. destruct (CreateDeviceKey _ _); by split.
  - by split.
  - by split.
  - by split.
  - split; [|done]. split_and!; [done| |by apply Hbump]. cbn.
    intros id e [He _]%map_lookup_filter_Some. by eapply Hk.
  - split; [|done]. split_and!; [done| |by apply Hbump]. cbn. intros id e. by rewrite lookup_empty.
Qed.

Lemma revoked_run agent old n acts s :
  n + invals acts < 2 ^ 64 -> Forall (no_create agent) acts -> revoked agent old n s ->
  revoked agent old (n + invals acts) (fst (run acts s))
  /\ forall tid r, (tid, Some r) ∈ snd (run acts s) -> r_agent r = agent -> old tid.
Proof.
  intros Hn Hok. revert n s Hn. induction Hok as [|a acts Ha _ IH]; intros n s Hn Hs.
  - cbn. rewrite Z.add_0_r. split; [done|]. by intros tid r ?%elem_of_nil.
  - change (invals (a :: acts)) with (inval a + invals acts) in *. cbn [Keys.run].
    pose proof (invals_nonneg acts).
    assert (0 <= inval a) by (destruct a; cbn; lia).
    destruct (revoked_step agent old n a s) as [Hs' Ho]; [lia|done..|].
    destruct (step a s) as [s' o]. destruct (IH (n + inval a) s') as [Hs'' Ho']; [lia|done|].
    destruct (run acts s') as [s'' outs]. rewrite Z.add_assoc. split; [done|].
    intros tid r Hin. destruct o as [o|]; [|by apply Ho'].
    apply elem_of_cons in Hin as [<-|Hin]; [|by apply Ho']. by specialize (Ho _ eq_refl).
Qed.

Lemma init_gens t : gens_ok 0 (init t).
Proof. split; [cbn; lia|]. intros tid p g Hp. cbn in Hp. by rewrite lookup_empty in Hp. Qed.

Lemma run_no_active agent acts s :
  Forall (no_create agent) acts -> no_active agent (store s) -> no_active agent (store (fst (run acts s))).
Proof. apply (run_invariant (fun s => no_active agent (store s))). eauto using step_no_active. Qed.

(** Dropping the agent once its rows are disabled. *)
Lemma drop_revoked agent n s :
  0 <= n -> gens_ok n s -> no_active agent (store s) ->
  revoked agent (fun tid => inflight s !! tid <> None) (n + 1) (fst (step (Drop agent) s)).
Proof.
  intros Hn [_ Hg] Ht. cbn [Keys.step fst]. split_and!; [done| |]; cbn.
  - by intros id e [_ He]%map_lookup_filter_Some.
  - intros tid akid g e Hp _. split; [congruence|].
    by apply (behind_bump 0 n (keys s)), (Hg tid (Publishing akid g e)).
Qed.

(** C7.  Revocation is final.  Once an agent's keys have been disabled and
    then its cache entries dropped -- with lookups, other revocations and
    rotations interleaved anywhere before, between and after -- the cache holds
    no entry of it and no lookup that begins afterwards resolves to it, even if
    lookups that had already read the table publish later.  (The generation
    counter is 64 bits wide, so this holds for fewer than 2^64 invalidations.) *)
Theorem revocation_is_final t agent at_ before mid after tid r :
  let s := fst (run (before ++ Disable agent at_ :: mid) (init t)) in
  Forall (no_create agent) (mid ++ after) ->
  invals before + invals mid + 1 + invals after < 2 ^ 64 ->
  let '(s', outs) := run (Drop agent :: after) s in
  (forall id e, cache (keys s') !! id = Some e -> agentID e <> agent)
  /\ ((tid, Some r) ∈ outs -> r_agent r = agent -> inflight s !! tid <> None).
Proof.
  intros s [Hm Ha]%Forall_app Hn. cbn zeta.
  pose proof (invals_nonneg before). pose proof (invals_nonneg mid).
  assert (gens_ok (invals before + invals mid) s) as Hg.
  { pose proof (gens_ok_run 0 (before ++ Disable agent at_ :: mid) (init t) ltac:(lia) (init_gens t)) as Hg.
    rewrite invals_app in Hg. exact Hg. }
  assert (no_active agent (store s)) as Ht.
  { subst s. rewrite run_app. destruct (run before (init t)) as [s1 o1].
    change (run (Disable agent at_ :: mid) s1)
      with (let '(s2, o2) := run mid (fst (step (Disable agent at_) s1)) in (s2, o2)).
    pose proof (run_no_active agent mid (fst (step (Disable agent at_) s1)) Hm) as Hr.
    destruct (run mid _) as [s2 o2]. cbn [fst] in *. apply Hr, disable_no_active. }
  apply (drop_revoked agent (invals before + invals mid)) in Ht; [|lia|exact Hg].
  apply (revoked_run _ _ _ after) in Ht as [(_ & Hc & _) Ho]; [|lia|done].
  cbn [Keys.run]. destruct (step (Drop agent) s) as [s1 o] eqn:E. cbn [fst] in *.
  assert (o = None) as -> by by cbn in E; simplify_eq.
  destruct (run after s1) as [s' outs]. split; [done|]. intros Hin Hr. by apply (Ho tid r).
Qed.

(** ** The TTL bounds a missed invalidation *)

(** No entry outlives the clock by more than the TTL. *)
Definition timed (s : system) : Prop :=
  (forall id e, cache (keys s) !! id = Some e -> expires e <= clock s + cacheTTL)
  /\ forall tid p, inflight s !! tid = Some p ->
       match p with
       | Reading _ now _ => now <= clock s
       | Publishing _ _ e => expires e <= clock s + cacheTTL
       | Forgetting _ => True
       end.

Lemma publish_lookup akid g e k id e' :
  cache (lookup_publish akid g e k) !! id = Some e' -> e' = e \/ cache k !! id = Some e'.
Proof.
  unfold lookup_publish. destruct (gen k =? g); [|by right]. cbn [cache].
  rewrite lookup_insert. case_decide; [intros [= <-]; by left|].
  destruct (cacheSize <=? size (cache k))%nat; [by rewrite lookup_empty|by right].
Qed.

Lemma timed_step a s : timed s -> timed (fst (step a s)).
Proof.
  intros [Hc Hi]. destruct a as [tid akid now|tid ok|tid|k|ag at_|id at_|ag|ag|].
  { assert (forall m, (forall tid p, m !! tid = Some p ->
        inflight s !! tid = Some p \/ p = Reading akid (now `max` clock s) (gen (keys s))) ->
      timed (mkSystem (now `max` clock s) (store s) (keys s) m)) as Hm.
    { intros m Hm. split; cbn.
      - intros id e He. specialize (Hc id e He). lia.
      - intros tid' p Hp. destruct (Hm tid' p Hp) as [Hp'| ->]; [|lia].
        specialize (Hi tid' p Hp'). destruct p; lia. }
    destruct (start_cases tid akid now s) as [->|[_ [(e & _ & _ & ->)| ->]]]; [done|apply Hm; auto..].
    intros tid' p. rewrite lookup_insert. case_decide; [intros [= <-]|]; auto. }
  all: cbn [Keys.step].
  - destruct (inflight s !! tid) as [[akid now g| |]|] eqn:Et; [|done..]. split; [done|]. cbn.
    intros tid' p. rewrite lookup_insert. case_decide; [|apply Hi].
    intros [= <-]. destruct (lookup_row _ _ _ _ _) as [e|] eqn:El; [|done].
    destruct ok; [|done]. apply lookup_row_active in El as (k & _ & _ & _ & ->).
    specialize (Hi _ _ Et). cbn in Hi. lia.
  - destruct (inflight s !! tid) as [[|akid g e|akid]|] eqn:Et; [done|..|done]; split; cbn.
    + intros id e' [->|He]%publish_lookup; [apply (Hi _ _ Et)|by eapply Hc].
    + by intros tid' p [_ Hp%Hi]%lookup_delete_Some.
    + intros id e [_ He]%lookup_delete_Some. by eapply Hc.
    + by intros tid' p [_ Hp%Hi]%lookup_delete_Some.
  - by destruct (CreateDeviceKey _ _).
  - done.
  - done.
  - done.
  - split; [|done]. cbn. intros id e [He _]%map_lookup_filter_Some. by eapply Hc.
  - split; [|done]. cbn. intros id e. by rewrite lookup_empty.
Qed.

(** Whatever is left of the agent expires by [limit]. *)
Definition fading (agent : string) (old : nat -> Prop) (limit : Z) (s : system) : Prop :=
  no_active agent (store s)
  /\ (forall id e, cache (keys s) !! id = Some e -> agentID e = agent -> expires e <= limit)
  /\ forall tid akid g e, inflight s !! tid = Some (Publishing akid g e) -> agentID e = agent ->
       old tid /\ expires e <= limit.

Lemma fading_step agent old limit a s :
  no_create agent a -> fading agent old limit s ->
  fading agent old limit (fst (step a s)) /\ clock s <= clock (fst (step a s))
  /\ forall o, snd (step a s) = Some o ->
       match snd o with Some r => r_agent r = agent -> old (fst o) \/ clock s < limit | None => True end.
Proof.
  intros Hc Hs. pose proof (step_no_active agent a s Hc (proj1 Hs)) as Hna.
  destruct Hs as (Ht & Hk & Hi). destruct a as [tid akid now|tid ok|tid|k|ag at_|id at_|ag|ag|].
  { destruct (start_cases tid akid now s) as [E|[Ho [(e & He & Hlt & E)|E]]]; rewrite E in *; cbn [fst snd].
    - by split_and!.
    - split; [by split|]. split; [cbn; lia|]. intros o [= <-]. cbn. intros Ha. right.
      specialize (Hk _ _ He Ha). lia.
    - split; [|split; [cbn; lia|done]]. split_and!; [done..|]. cbn. intros tid' akid' g e.
      rewrite lookup_insert. case_decide; [done|apply Hi]. }
  all: cbn [Keys.step] in *.
  - destruct (inflight s !! tid) as [[akid now g| |]|] eqn:Et; cbn [fst snd] in *; [|by split_and!..].
    split; [|done]. split_and!; [done..|]. cbn.
    intros tid' akid' g' e. rewrite lookup_insert. case_decide; [|apply Hi].
    destruct (lookup_row _ _ _ _ _) as [e'|] eqn:El; [|done]. intros [= -> -> ->] He.
    destruct ok; [|done]. by destruct (no_active_row agent _ _ _ _ _ Ht El).
  - destruct (inflight s !! tid) as [[|akid g e|akid]|] eqn:Et; cbn [fst snd] in *; [by split_and!|..|by split_and!].
    + split; [|split; [done|]].
      * split_and!; [done| |]; cbn.
        -- intros id e' [->|He]%publish_lookup Ha; [by apply (Hi _ _ _ _ Et)|by eapply Hk].
        -- intros tid' akid' g' e' [_ Hp]%lookup_delete_Some. by apply (Hi _ akid' g').
      * intros o [= <-]. cbn. intros Ha. left. by apply (Hi _ _ _ _ Et).
    + split; [|split; [done|by intros o [= <-]]]. split_and!; [done| |]; cbn.
      * intros id e [_ He]%lookup_delete_Some. by eapply Hk.
      * intros tid' akid' g' e' [_ Hp]%lookup_delete_Some. by apply (Hi _ akid' g').
  - split; [|split; [by destruct (CreateDeviceKey _ _)|done]]. destruct (CreateDeviceKey _ _); by split.
  - by split_and!.
  - by split_and!.
  - by split_and!.
  - split; [|done]. split_and!; [done| |done]. cbn.
    intros id e [He _]%map_lookup_filter_Some. by eapply Hk.
  - split; [|done]. split_and!; [done| |done]. cbn. intros id e. by rewrite lookup_empty.
Qed.

Lemma fading_run agent old limit acts s :
  Forall (no_create agent) acts -> fading agent old limit s ->
  fading agent old limit (fst (run acts s)).
Proof. apply (run_invariant (fading agent old limit)). intros a s' Ha Hs. by apply fading_step. Qed.

(** Even if a revocation never reaches the cache, five minutes are the
    most a disabled key can be resolved by a lookup that begins later. *)
Theorem ttl_bounds_revocation t agent at_ before mid after tid r :
  let s0 := fst (run before (init t)) in
  let s := fst (run mid (fst (step (Disable agent at_) s0))) in
  Forall (no_create agent) (mid ++ after) ->
  clock s0 + cacheTTL <= clock s ->
  (tid, Some r) ∈ snd (run after s) -> r_agent r = agent -> inflight s !! tid <> None.
Proof.
  intros s0 s [Hm Ha]%Forall_app Hcl.
  assert (timed s0) as [Hc Hi].
  { apply (run_invariant timed (fun _ => True)); [auto using timed_step|by apply Forall_true|].
    split; [intros id e He|intros tid' p Hp]; cbn in *; by rewrite lookup_empty in *. }
  assert (fading agent (fun _ => True) (clock s0 + cacheTTL) s) as (H1 & H2 & H3).
  { apply fading_run; [done|]. split_and!; [apply disable_no_active|by intros; eapply Hc|].
    intros tid' akid g e Hp _. split; [done|]. apply (Hi _ _ Hp). }
  assert (Forall (fun o => match snd o with
      | Some r => r_agent r = agent -> inflight s !! fst o <> None | None => True end)
      (snd (run after s))) as Ho.
  { apply (run_outputs (fun s' => fading agent (fun tid => inflight s !! tid <> None)
                                    (clock s0 + cacheTTL) s' /\ clock s0 + cacheTTL <= clock s')
             _ (no_create agent)); [|done|].
    - intros a s' Hca [Hf Hcl']. destruct (fading_step _ _ _ a s' Hca Hf) as (Hf' & Hmono & Ho).
      split; [split; [done|lia]|]. intros o Hso. specialize (Ho o Hso).
      destruct (snd o); [|done]. intros Hr. destruct (Ho Hr); [done|lia].
    - split; [|done]. split_and!; [done..|]. intros tid' akid g e Hp He.
      split; [congruence|]. by apply (H3 _ _ _ _ Hp). }
  rewrite Forall_forall in Ho. intros Hin. exact (Ho _ Hin).
Qed.

(** ** The cache is bounded *)

Lemma size_step a s :
  (size (cache (keys s)) <= cacheSize)%nat -> (size (cache (keys (fst (step a s)))) <= cacheSize)%nat.
Proof.
  intros H. destruct a as [tid akid now|tid ok|tid|k|ag at_|id at_|ag|ag|].
  1: by destruct (start_cases tid akid now s) as [->|[_ [(e & _ & _ & ->)| ->]]].
  all: cbn [Keys.step].
  - by destruct (inflight s !! tid) as [[| |]|].
  - destruct (inflight s !! tid) as [[|akid g e|akid]|]; try done; cbn [fst keys set_keys set_inflight].
    + unfold lookup_publish. destruct (_ =? _); [|done]. cbn [cache].
      destruct (Nat.leb_spec cacheSize (size (cache (keys s)))).
      * rewrite map_size_insert, map_size_empty. destruct (_ !! _); unfold id, cacheSize; lia.
      * rewrite map_size_insert. destruct (_ !! _); unfold id; lia.
    + cbn [forget cache]. rewrite map_size_delete. destruct (_ !! _); unfold id; lia.
  - by destruct (CreateDeviceKey _ _).
  - done.
  - done.
  - done.
  - cbn. etrans; [|exact H]. apply map_subseteq_size, map_filter_subseteq.
  - cbn. rewrite map_size_empty. lia.
Qed.

(** However many devices call, the cache never holds more than 4096
    unsealed secrets. *)
Theorem cache_bounded t acts : (size (cache (keys (fst (run acts (init t))))) <= cacheSize)%nat.
Proof.
  apply (run_invariant (fun s => size (cache (keys s)) <= cacheSize)%nat (fun _ => True));
    [auto using size_step|by apply Forall_true|].
  cbn. rewrite map_size_empty. lia.
Qed.

(** ** A lookup on its own *)

(** Compute a step on a system given by its fields. *)
Ltac reduce := lazy beta iota zeta delta [inflight set_inflight set_keys keys store clock].

(** The critical sections of one lookup, run without interference,
    compute the sequential [Lookup] the request handler uses. *)
Theorem Lookup_alone tid akid now s :
  inflight s !! tid = None -> clock s <= now ->
  let '(s', outs) := run [Start tid akid now; Read tid true; Finish tid] s in
  let '(res, k') := Lookup B sealKey akid now (lookupDeviceKey akid (store s)) (keys s) in
  outs = [(tid, res)] /\ keys s' = k' /\ store s' = store s /\ inflight s' = inflight s.
Proof.
  intros Ht Hn. cbn [Keys.run]. unfold Lookup.
  assert (Z.max now (clock s) = now) as Hmax by lia.
  cbn [Keys.step]. rewrite Ht, Hmax.
  destruct (lookup_begin akid now (keys s)) as [[r|] g] eqn:E; reduce.
  - destruct s as [cl st ks fl]. cbn in Ht. reduce. rewrite Ht. reduce. by rewrite Ht.
  - rewrite lookup_insert_eq. reduce. rewrite lookup_insert_eq. reduce.
    destruct s as [cl st ks fl]. cbn in Ht |- *.
    destruct (lookup_row _ _ _ _ _) as [e|]; by rewrite insert_insert_eq, delete_insert_id.
Qed.

(** A credential that was issued resolves: after [CreateDeviceKey] of a
    key whose secret was sealed under the fleet key, a lookup that misses the
    cache answers with the agent, prefix, secret and mode it was issued with --
    and caches them for five minutes. *)
Theorem created_key_resolves `{!SecretboxLaws B} k plain nonce t t' now c :
  length nonce = nonceSize ->
  Seal B sealKey (bytes plain) (Some nonce) = Ok (SealedSecret k) ->
  DisabledAt k = None ->
  CreateDeviceKey k t = Ok t' ->
  fst (lookup_begin (AccessKeyID k) now c) = None ->
  let '(res, c') := Lookup B sealKey (AccessKeyID k) now (lookupDeviceKey (AccessKeyID k) t') c in
  res = Some (mkResolved (AgentID k) (KeyPrefix k) plain (ReadOnly k))
  /\ forall now', now' < now + cacheTTL -> fst (lookup_begin (AccessKeyID k) now' c') = res.
Proof.
  intros Hn Hs Hd Hc Hm. unfold CreateDeviceKey in Hc.
  destruct (bool_decide _); [done|]. destruct (rows t !! _); [done|]. injection Hc as <-.
  unfold Lookup. destruct (lookup_begin (AccessKeyID k) now c) as [hit g] eqn:El.
  cbn [fst] in Hm. subst hit.
  assert (gen c = g) as Hg by by injection El.
  unfold lookupDeviceKey. cbn [rows set_rows]. rewrite lookup_insert_eq. cbn [DisabledAt].
  rewrite Hd. cbn [lookup_row SealedSecret option_map fmap option_fmap].
  unfold lookup_row. cbn [SealedSecret].
  rewrite (sealed_opens B sealKey (bytes plain) nonce) by done.
  rewrite of_bytes_bytes. split; [done|]. intros now' Hlt. unfold lookup_begin, lookup_publish.
  rewrite Hg, Z.eqb_refl. cbn [cache]. rewrite lookup_insert_eq. cbn [expires fst].
  unfold Before. by apply Z.ltb_lt in Hlt as ->.
Qed.
End Facts.

(** ** Concrete runs *)

Definition sample_key : DeviceKey :=
  mkDeviceKey "AKID1" "dev1" (replicate 24 1 ++ box_seal clear_box (bytes "s3cret") (replicate 24 1) [])
    "dev1/" false 0 None.

Definition sample_store : keyStore := mkKeyStore {[ "dev1" ]} {[ "AKID1" := sample_key ]}.

(** A lookup reads the row just before the revocation and publishes after it. *)
Definition racing : list action := [Start 1 "AKID1" 0; Read 1 true].
Definition later : list action := [Finish 1; Start 2 "AKID1" 10; Read 2 true; Finish 2].

Lemma revocation_is_final_witness :
  snd (run clear_box [] racing (init sample_store)) = []
  /\ (let '(s', outs) := run clear_box [] (Drop "dev1" :: later)
         (fst (run clear_box [] (racing ++ [Disable "dev1" 5]) (init sample_store))) in
     (forall id e, cache (keys s') !! id = Some e -> agentID e <> "dev1")
     /\ ((2%nat, Some (mkResolved "dev1" "dev1/" "s3cret" false)) ∈ outs ->
         r_agent (mkResolved "dev1" "dev1/" "s3cret" false) = "dev1" ->
         inflight (fst (run clear_box [] (racing ++ [Disable "dev1" 5]) (init sample_store))) !! 2%nat <> None)).
Proof.
  split; [by vm_compute|].
  apply (revocation_is_final clear_box [] sample_store "dev1" 5 racing [] later 2
           (mkResolved "dev1" "dev1/" "s3cret" false)).
  - by repeat constructor.
  - by vm_compute.
Defined.

(** The same race without the invalidation: the stale entry lasts its TTL. *)
Definition unhurried : list action := [Finish 1; Start 2 "AKID1" (5 * Minute); Read 2 true; Finish 2].

Lemma ttl_bounds_revocation_witness :
  let s := fst (run clear_box [] unhurried
     (fst (step clear_box [] (Disable "dev1" 5) (fst (run clear_box [] racing (init sample_store)))))) in
  snd (run clear_box [] [Start 3 "AKID1" (6 * Minute); Read 3 true; Finish 3] s) = [(3%nat, None)]
  /\ ((3%nat, Some (mkResolved "dev1" "dev1/" "s3cret" false))
        ∈ snd (run clear_box [] [Start 3 "AKID1" (6 * Minute); Read 3 true; Finish 3] s) ->
      inflight s !! 3%nat <> None).
Proof.
  intros s. split; [by vm_compute|]. intros Hin.
  refine (ttl_bounds_revocation clear_box [] sample_store "dev1" 5 racing unhurried
    [Start 3 "AKID1" (6 * Minute); Read 3 true; Finish 3] 3
    (mkResolved "dev1" "dev1/" "s3cret" false) _ _ Hin eq_refl).
  - by repeat constructor.
  - by vm_compute.
Defined.

Lemma Lookup_alone_witness :
  let '(s', outs) := run clear_box [] [Start 1 "AKID1" 0; Read 1 true; Finish 1] (init sample_store) in
  let '(res, k') := Lookup clear_box [] "AKID1" 0 (lookupDeviceKey "AKID1" sample_store) NewKeys in
  outs = [(1%nat, res)] /\ keys s' = k' /\ store s' = sample_store /\ inflight s' = ∅.
Proof. by apply (Lookup_alone clear_box [] 1 "AKID1" 0 (init sample_store)); vm_compute. Defined.

Lemma created_key_resolves_witness :
  let '(res, _) := Lookup clear_box [] "AKID1" 0
    (lookupDeviceKey "AKID1" sample_store) NewKeys in
  res = Some (mkResolved "dev1" "dev1/" "s3cret" false).
Proof.
  pose proof (created_key_resolves clear_box [] sample_key "s3cret" (replicate 24 1)
    (mkKeyStore {[ "dev1" ]} ∅) sample_store 0 NewKeys eq_refl eq_refl eq_refl
    ltac:(by vm_compute) eq_refl) as H.
  destruct (Lookup _ _ _ _ _ _) as [res c']. exact (proj1 H).
Defined.
