(* ===== verification/XmlOut.v ===== *)
(** * Responses

    [fleet/gateway/xmlout.go]: S3's XML documents and how they are written; and
    the [recorder] of handler.go, the response writer every answer goes
    through. *)

From S2P Require Import Prelude GoStrings GoText GoTime GoNet.
From Stdlib Require Import Ascii.

(** ** S3 error codes *)

Definition codeAccessDenied : string := "AccessDenied".
Definition codeNoSuchBucket : string := "NoSuchBucket".
Definition codeNoSuchKey : string := "NoSuchKey".
Definition codeInvalidRange : string := "InvalidRange".
Definition codeNotImplemented : string := "NotImplemented".
Definition codeSlowDown : string := "SlowDown".
Definition codeBadDigest : string := "BadDigest".
Definition codeMissingContentMD5 : string := "MissingContentMD5".
Definition codeEntityTooLarge : string := "EntityTooLarge".
Definition codeMissingContentLength : string := "MissingContentLength".
Definition codeIncompleteBody : string := "IncompleteBody".
Definition codeInvalidObjectKey : string := "InvalidObjectKey".
Definition codeInternalError : string := "InternalError".
Definition codeAuthorizationHeaderMalformed : string := "AuthorizationHeaderMalformed".
Definition codeInvalidURI : string := "InvalidURI".
Definition codeRequestTimeTooSkewed : string := "RequestTimeTooSkewed".
Definition codeInvalidAccessKeyID : string := "InvalidAccessKeyId".
Definition codeSignatureDoesNotMatch : string := "SignatureDoesNotMatch".
Definition codeAppendOnlyDeleteDenied : string := "AppendOnlyDeleteDenied".
Definition codeObjectAlreadyExists : string := "ObjectAlreadyExists".
Definition codeInvalidArgument : string := "InvalidArgument".

(** ** XML text

    What [encoding/xml] makes of the documents below: element tags in field
    order, text escaped, absent optional elements left out. *)

Definition quote : string := String (chr 34) "".

(** A rune XML 1.0 allows. *)
Definition xml_char (r : Z) : bool :=
  (r =? 9) || (r =? 10) || (r =? 13) || between 0x20 0xD7FF r || between 0xE000 0xFFFD r
  || between 0x10000 0x10FFFF r.

Definition escape_segment (g : segment) : string :=
  let r := seg_rune g in
  if r =? 34 then "&#34;"
  else if r =? 39 then "&#39;"
  else if r =? 38 then "&amp;"
  else if r =? 60 then "&lt;"
  else if r =? 62 then "&gt;"
  else if r =? 9 then "&#x9;"
  else if r =? 10 then "&#xA;"
  else if r =? 13 then "&#xD;"
  else if negb (xml_char r) || negb (seg_valid g) then of_bytes [0xEF; 0xBF; 0xBD]
  else of_bytes (seg_bytes g).

(** [xml.EscapeText] *)
Definition EscapeText (s : string) : string :=
  Join (escape_segment <$> segments (bytes s)) "".

Definition element (tag content : string) : string :=
  "<" +:+ tag +:+ ">" +:+ content +:+ "</" +:+ tag +:+ ">".

Definition text_element (tag s : string) : string := element tag (EscapeText s).

(** An element tagged omitempty. *)
Definition opt_element (tag s : string) : string :=
  if String.eqb s "" then "" else text_element tag s.

Definition s3_namespace : string := "http://s3.amazonaws.com/doc/2006-03-01/".

(** The root element of a document in S3's name space. *)
Definition s3_element (tag content : string) : string :=
  "<" +:+ tag +:+ " xmlns=" +:+ quote +:+ s3_namespace +:+ quote +:+ ">" +:+ content
  +:+ "</" +:+ tag +:+ ">".

Definition bool_text (b : bool) : string := if b then "true" else "false".

Definition xml_Header : string :=
  "<?xml version=" +:+ quote +:+ "1.0" +:+ quote +:+ " encoding=" +:+ quote +:+ "UTF-8" +:+ quote
  +:+ "?>" +:+ String (chr 10) "".

(** ** The documents *)

Record errorResponse := mkError { e_Code : string; e_Message : string; e_Resource : string }.

Record owner := mkOwner { o_ID : string; o_DisplayName : string }.

Record objectEntry := mkObjectEntry {
  oe_Key : string;
  oe_LastModified : string;
  oe_ETag : string;
  oe_Size : Z;
  oe_StorageClass : string;
  oe_Owner : option owner
}.

Record listBucketResult := mkListResult {
  l_Name : string;
  l_Prefix : string;
  l_StartAfter : string;
  l_ContinuationToken : string;
  l_NextContinuationToken : string;
  l_KeyCount : Z;
  l_MaxKeys : Z;
  l_Delimiter : string;
  l_EncodingType : string;
  l_IsTruncated : bool;
  l_Contents : list objectEntry
}.

Inductive document :=
| DocError (e : errorResponse)
| DocList (l : listBucketResult)
| DocLocation (region : string).

Definition marshal_entry (o : objectEntry) : string :=
  element "Contents"
    (text_element "Key" (oe_Key o) +:+ text_element "LastModified" (oe_LastModified o)
     +:+ opt_element "ETag" (oe_ETag o) +:+ text_element "Size" (FormatInt (oe_Size o))
     +:+ text_element "StorageClass" (oe_StorageClass o)
     +:+ match oe_Owner o with
         | Some w => element "Owner" (text_element "ID" (o_ID w) +:+ text_element "DisplayName" (o_DisplayName w))
         | None => ""
         end).

Definition marshal (d : document) : string :=
  match d with
  | DocError e =>
      element "Error" (text_element "Code" (e_Code e) +:+ text_element "Message" (e_Message e)
                       +:+ opt_element "Resource" (e_Resource e))
  | DocLocation region => s3_element "LocationConstraint" (EscapeText region)
  | DocList l =>
      s3_element "ListBucketResult"
        (text_element "Name" (l_Name l) +:+ text_element "Prefix" (l_Prefix l)
         +:+ opt_element "StartAfter" (l_StartAfter l)
         +:+ opt_element "ContinuationToken" (l_ContinuationToken l)
         +:+ opt_element "NextContinuationToken" (l_NextContinuationToken l)
         +:+ text_element "KeyCount" (FormatInt (l_KeyCount l))
         +:+ text_element "MaxKeys" (FormatInt (l_MaxKeys l))
         +:+ opt_element "Delimiter" (l_Delimiter l)
         +:+ opt_element "EncodingType" (l_EncodingType l)
         +:+ text_element "IsTruncated" (bool_text (l_IsTruncated l))
         +:+ Join (marshal_entry <$> l_Contents l) "")
  end.

(** ** The response writer *)

(** [recorder]: the status is the first one written; [r_doc] is the document
    the body renders, when there is one. *)
Record recorder := mkRecorder {
  written : bool;
  r_status : Z;
  r_bytes : Z;
  r_header : gmap string string;
  r_body : string;
  r_doc : option document
}.

Definition new_recorder : recorder := mkRecorder false 200 0 ∅ "" None.

Definition set_header (name value : string) (w : recorder) : recorder :=
  mkRecorder (written w) (r_status w) (r_bytes w) (<[name := value]> (r_header w)) (r_body w) (r_doc w).

Definition WriteHeader (status : Z) (w : recorder) : recorder :=
  if written w then w
  else mkRecorder true status (r_bytes w) (r_header w) (r_body w) (r_doc w).

Definition Write (p : string) (w : recorder) : recorder :=
  let w := if written w then w else WriteHeader 200 w in
  mkRecorder (written w) (r_status w) (r_bytes w + len p) (r_header w) (r_body w +:+ p) (r_doc w).

Definition note_document (d : document) (w : recorder) : recorder :=
  mkRecorder (written w) (r_status w) (r_bytes w) (r_header w) (r_body w) (Some d).

Definition writeXML (status : Z) (d : document) (w : recorder) : recorder :=
  let body := marshal d in
  let w := set_header "Content-Type" "application/xml" w in
  let w := set_header "Content-Length" (FormatInt (len xml_Header + len body)) w in
  let w := WriteHeader status (note_document d w) in
  Write body (Write xml_Header w).

Definition writeError (r : Request) (status : Z) (code msg : string) (w : recorder) : recorder :=
  if String.eqb (Method r) "HEAD"
  then WriteHeader status (set_header "X-Warphold-Error-Code" code w)
  else writeXML status (DocError (mkError code msg (Path r))) w.

Definition NotActivatedHandler (r : Request) (w : recorder) : recorder :=
  writeError r 403 codeAccessDenied "access denied" w.

Definition s3Time (t : Z) : string := format_s3 t.

Definition urlEncodeName (s : string) : string := plus_to_20 (QueryEscape s).

(** [strconv.Quote] of an ASCII string. *)
Fixpoint quote_bytes (s : string) : string :=
  match s with
  | EmptyString => ""
  | String c t =>
      let z := code c in
      (if (z =? 34) || (z =? 92) then String (chr 92) (String c "")
       else if between 32 126 z then String c ""
       else if z =? 7 then String (chr 92) "a"
       else if z =? 8 then String (chr 92) "b"
       else if z =? 12 then String (chr 92) "f"
       else if z =? 10 then String (chr 92) "n"
       else if z =? 13 then String (chr 92) "r"
       else if z =? 9 then String (chr 92) "t"
       else if z =? 11 then String (chr 92) "v"
       else String (chr 92) ("x" +:+ hex_encode [z])) +:+ quote_bytes t
  end.

Definition Quote (s : string) : string := quote +:+ quote_bytes s +:+ quote.

(** ** What a written answer is *)

Lemma writeXML_status status d : r_status (writeXML status d new_recorder) = status.
Proof. done. Qed.

Lemma writeError_status r status code msg : r_status (writeError r status code msg new_recorder) = status.
Proof. unfold writeError. by destruct (String.eqb _ _). Qed.

Lemma writeXML_eq status d :
  writeXML status d new_recorder =
  mkRecorder true status (0 + len xml_Header + len (marshal d))
    (<[ "Content-Length" := FormatInt (len xml_Header + len (marshal d)) ]>
       (<[ "Content-Type" := "application/xml" ]> ∅))
    (("" +:+ xml_Header) +:+ marshal d) (Some d).
Proof. done. Qed.

Definition markup (c : ascii) : Prop := c = "<"%char \/ c = ">"%char \/ c = chr 34.

Lemma escape_segment_markup g c :
  seg_ok g -> byte_list (seg_bytes g) -> markup c -> Contains (escape_segment g) c = false.
Proof.
  intros Hg Hb Hc. unfold escape_segment.
  repeat match goal with |- context [if ?r =? ?n then _ else _] => destruct (Z.eqb_spec r n) end;
    try (by destruct Hc as [->|[->| ->]]).
  destruct (_ || _); [by destruct Hc as [->|[->| ->]]|].
  apply Contains_of_bytes; [done|]. destruct Hg as [(b & Hlt & ->)|[_ Hge]].
  - cbn [seg_rune seg_bytes] in *. intros E%list_elem_of_singleton. subst b.
    destruct Hc as [->|[->| ->]]; done.
  - intros Hin. rewrite Forall_forall in Hge. specialize (Hge _ Hin).
    destruct Hc as [->|[->| ->]]; vm_compute in Hge; by destruct Hge.
Qed.

Lemma EscapeText_markup s c : markup c -> Contains (EscapeText s) c = false.
Proof.
  intros Hc. unfold EscapeText. apply Contains_Join; [|done]. apply Forall_fmap.
  pose proof (segments_ok (bytes s)) as Ho. pose proof (segments_byte_list s) as Hb.
  rewrite !Forall_forall in *. intros g Hg. apply escape_segment_markup; auto.
Qed.

(** A response document is framed correctly and cannot be injected
    into: its Content-Length is the number of bytes sent after the headers, and
    no text a device controls -- a key, a prefix, a path -- can open a tag,
    because escaped text holds no angle bracket or quote. *)
Theorem writeXML_framed status d :
  let w := writeXML status d new_recorder in
  r_header w !! "Content-Length" = Some (FormatInt (len (r_body w)))
  /\ r_bytes w = len (r_body w) /\ r_status w = status
  /\ forall s c, markup c -> Contains (EscapeText s) c = false.
Proof.
  cbv zeta. rewrite writeXML_eq. cbn [r_header r_body r_bytes r_status].
  split_and!; [|by rewrite len_app|done|apply EscapeText_markup].
  rewrite lookup_insert_eq. by rewrite len_app.
Qed.

Example xml_ex :
  marshal (DocError (mkError "NoSuchKey" ("a<b" +:+ quote) "/x")) =
  "<Error><Code>NoSuchKey</Code><Message>a&lt;b&#34;</Message><Resource>/x</Resource></Error>".
Proof. by vm_compute. Qed.
