(* ===== verification/Handler.v ===== *)
(** * The gateway handler

    [fleet/gateway/handler.go]: one request, from the bucket name to the
    answer.  The handler is generic in the [ObjectStore] behind a device's
    target; what the process reads from outside -- the clock, the key table,
    the target of a device, the store's environment -- is the [context] of the
    request, and what it changes -- the limiters, the key cache and the object
    stores -- is its [gstate]. *)

From S2P Require Import Prelude GoStrings GoText Digest GoTime Object ObjectStore Limit.
From S2P Require Import GoNet ClientIP SigV4 Seal Keys XmlOut.
From Stdlib Require Import Ascii.
Open Scope go_scope.

Definition BucketName : string := "warphold".
Definition DefaultRegion : string := BucketName.
Definition locationRegion : string := "us-east-1".
Definition DefaultMaxObjectBytes : Z := 64 * 2 ^ 20.
Definition maxListKeys : Z := 1000.
Definition retryAfterSeconds : Z := 1.
Definition deviceOverwrite : bool := false.

(** [allowDelete]: the regular expression ^s[0-9a-f]{16,} *)
Definition lower_hex (c : ascii) : bool := between 48 57 (code c) || between 97 102 (code c).

Definition allowDelete (blobName : string) : bool :=
  match blobName with
  | String c t => Ascii.eqb c "s" && Nat.eqb (String.length (stake 16 t)) 16
                  && all_bytes lower_hex (stake 16 t)
  | EmptyString => false
  end.

Definition knownQueryKeys : list string :=
  [ "list-type"; "prefix"; "start-after"; "continuation-token";
    "max-keys"; "delimiter"; "encoding-type"; "fetch-owner";
    "location"; "versioning";
    "uploads"; "uploadId"; "partNumber"; "delete"; "retention";
    "versionId"; "versions"; "metadata" ].

(** ** Configuration *)

Record Config := mkConfig {
  c_Bucket : string;
  c_Region : string;
  c_MaxObjectBytes : Z;
  c_RatePerSecond : Q;
  c_RateBurst : Q;
  c_IPRatePerSecond : Q;
  c_IPRateBurst : Q;
  c_TrustedProxies : list IPNet
}.

Record Gateway := mkGateway {
  bucket : string;
  region : string;
  maxBytes : Z;
  trusted : list IPNet
}.

(** What a request changes. *)
Record gstate (S : Type) := mkGState {
  limit : limiter;
  ipLimit : limiter;
  g_keys : Keys;
  stores : gmap Z S
}.
Arguments mkGState {S} limit ipLimit g_keys stores.
Arguments limit {S} _.
Arguments ipLimit {S} _.
Arguments g_keys {S} _.
Arguments stores {S} _.

Definition NewGateway {S} (c : Config) (k : Keys) (objs : gmap Z S) : Gateway * gstate S :=
  (mkGateway (if String.eqb (c_Bucket c) "" then BucketName else c_Bucket c)
             (if String.eqb (c_Region c) "" then DefaultRegion else c_Region c)
             (if c_MaxObjectBytes c <=? 0 then DefaultMaxObjectBytes else c_MaxObjectBytes c)
             (c_TrustedProxies c),
   mkGState (newLimiter (c_RatePerSecond c) (c_RateBurst c))
            (newIPLimiter (c_IPRatePerSecond c) (c_IPRateBurst c)) k objs).

Record LogEntry := mkLog {
  DeviceID : string;
  LogAccessKeyID : string;
  LogMethod : string;
  LogKey : string;
  Class_ : string;
  Status : Z;
  Bytes : Z;
  Dur : Z
}.

(** ** Small pieces *)

Definition keyClass (blobName : string) : string :=
  if String.eqb blobName "" then ""
  else if HasPrefix blobName "kopia." then "kopia-meta"
  else if HasPrefix blobName "." then "dot"
  else if HasPrefix blobName "_log_" then "_log_"
  else if HasPrefix blobName "x" && (1 <? len blobName) then stake 2 blobName
  else stake 1 blobName.

Definition nul : ascii := chr 0.

Definition encodeToken (devPrefix after : string) : string :=
  RawURL_encode (devPrefix +:+ String nul after).

Definition decodeToken (token devPrefix : string) : result StoreErr string :=
  match RawURL_decode token with
  | None => Err ErrBadKey
  | Some raw =>
      let '(got, rest, ok) := Cut raw nul in
      if negb ok || negb (String.eqb got devPrefix) then Err ErrBadKey else Ok rest
  end.

(** The status and code of a failed signature check. *)
Definition mapAuthError (e : AuthErr) : Z * string :=
  match e with
  | ErrStreamingUnsupported => (501, codeNotImplemented)
  | ErrRequestTimeTooSkewed => (403, codeRequestTimeTooSkewed)
  | ErrInvalidAccessKeyID => (403, codeInvalidAccessKeyID)
  | ErrSignatureDoesNotMatch => (403, codeSignatureDoesNotMatch)
  | ErrUnsignedAmzHeader => (403, codeAccessDenied)
  | ErrMalformedQuery => (400, codeInvalidURI)
  | ErrMalformedAuthorization => (400, codeAuthorizationHeaderMalformed)
  end.

Definition streaming_message : string :=
  "streaming payload signing is not supported; use an https:// endpoint so the client sends UNSIGNED-PAYLOAD".

Definition authMessage (e : AuthErr) (code : string) : string :=
  match e with ErrStreamingUnsupported => streaming_message | _ => code end.

Definition writeNotImplemented (r : Request) (msg : string) (w : recorder) : recorder :=
  writeError r 501 codeNotImplemented msg w.

Definition writeSlowDown (r : Request) (w : recorder) : recorder :=
  writeError r 503 codeSlowDown "too many requests; slow down"
    (set_header "Retry-After" (FormatInt retryAfterSeconds) w).

Definition writeStoreError (r : Request) (e : StoreErr) (w : recorder) : recorder :=
  match e with
  | ErrNotFound => writeError r 404 codeNoSuchKey "no such key" w
  | ErrRange => writeError r 416 codeInvalidRange "the requested range is not satisfiable" w
  | ErrBadKey => writeError r 403 codeAccessDenied "access denied" w
  | _ => writeError r 500 codeInternalError "storage error" w
  end.

(** ** The verbs *)

Section Verbs.
Context {S E : Type} `{ObjectStore S E}.
Variable g : Gateway.

Inductive RangeErr := errMultiRange | RangeStore (e : StoreErr).

(** [parseRange]: offset, length (negative to the end) and whether the answer
    is partial. *)
Definition parseRange (e : E) (hdr key : string) (s : S) : result RangeErr (Z * Z * bool) :=
  let whole := Ok (0, -1, false) in
  let '(spec, ok) := CutPrefix (TrimSpace hdr) "bytes=" in
  if negb ok then whole
  else if Contains spec "," then Err errMultiRange
  else
    let '(first, last, ok) := Cut spec "-" in
    if negb ok then whole
    else if String.eqb first "" then
      match ParseInt last with
      | None => whole
      | Some n =>
          if n <=? 0 then whole
          else match Head e key s with
          | Err err => Err (RangeStore err)
          | Ok info => let n := Z.min n (Size info) in Ok (Size info - n, n, true)
          end
      end
    else match ParseInt first with
    | None => whole
    | Some start =>
        if start <? 0 then whole
        else if String.eqb last "" then Ok (start, -1, true)
        else match ParseInt last with
        | None => whole
        | Some end_ => if end_ <? start then whole else Ok (start, wrap64 (end_ - start + 1), true)
        end
    end.

Definition writeRangeError (r : Request) (e : RangeErr) (w : recorder) : recorder :=
  match e with
  | errMultiRange => writeNotImplemented r "only a single byte range is supported" w
  | RangeStore e => writeStoreError r e w
  end.

(** The request body behind a [md5Check]. *)
Definition md5Check (b : body) (want : list Z) : body :=
  mkBody (b_data b) (b_fail b) (b_eager b) (Some want).

Definition put (e : E) (r : Request) (b : body) (key : string) (readOnly : bool) (s : S) (w : recorder)
  : recorder * S :=
  if readOnly then (writeError r 403 codeAccessDenied "this key is read-only" w, s)
  else if ContentLength r <? 0
  then (writeError r 411 codeMissingContentLength "Content-Length is required" w, s)
  else if maxBytes g <? ContentLength r
  then (writeError r 413 codeEntityTooLarge
          ("object exceeds the " +:+ FormatInt (maxBytes g) +:+ " byte limit") w, s)
  else
    let refuse_md5 := (writeError r 400 codeMissingContentMD5
                         "a valid base64 Content-MD5 header is required" w, s) in
    match Std_decode (header r "Content-MD5") with
    | None => refuse_md5
    | Some want =>
        if negb (Nat.eqb (length want) 16) then refuse_md5
        else
          let '(res, verified, s) := Put e key (md5Check b want) (ContentLength r) deviceOverwrite s in
          (match res with
           | Ok info =>
               if negb verified
               then writeError r 500 codeInternalError "could not store the object" w
               else WriteHeader 200 (set_header "ETag" (Quote (ETag info)) w)
           | Err ErrBadDigest =>
               writeError r 400 codeBadDigest "the Content-MD5 does not match the body" w
           | Err ErrExists =>
               writeError r 409 codeObjectAlreadyExists
                 "append-only: this object already exists and cannot be replaced" w
           | Err ErrIncompleteBody =>
               writeError r 400 codeIncompleteBody "the body did not match Content-Length" w
           | Err ErrTooLarge =>
               writeError r 413 codeEntityTooLarge "object exceeds the store's size limit" w
           | Err ErrBadKey => writeError r 400 codeInvalidObjectKey "invalid object key" w
           | Err _ => writeError r 500 codeInternalError "could not store the object" w
           end, s)
    end.

(** [io.Copy(w, rc)]: the copy of [data] ends at its end, or fails once
    [Some n] bytes have been handed to the writer; the status is on the wire
    by then, and the caller only logs the failure. *)
Definition copy_to (copied : option nat) (data : string) (w : recorder) : recorder :=
  match copied with
  | None => Write data w
  | Some n => Write (stake n data) w
  end.

(** [get]; the range may cost a Head before the Get, and the copy of the
    object to the client may fail half-way ([copied]). *)
Definition get (e_head e_get : E) (copied : option nat) (r : Request) (key : string) (s : S) (w : recorder)
  : recorder :=
  match parseRange e_head (header r "Range") key s with
  | Err err => writeRangeError r err w
  | Ok (offset, length, ranged) =>
      match GetObject e_get key offset length s with
      | Err err => writeStoreError r err w
      | Ok (data, info) =>
          let served := Size info - offset in
          let served := if (0 <=? length) && (length <? served) then length else served in
          let w := set_header "Content-Type" "application/octet-stream" w in
          let w := set_header "Content-Length" (FormatInt served) w in
          let w := set_header "Last-Modified" (format_http (LastModified info)) w in
          let w := set_header "Accept-Ranges" "bytes" w in
          let w := if ranged && (0 <? served)
                   then WriteHeader 206
                          (set_header "Content-Range"
                             ("bytes " +:+ FormatInt offset +:+ "-" +:+ FormatInt (offset + served - 1)
                              +:+ "/" +:+ FormatInt (Size info)) w)
                   else WriteHeader 200 w in
          copy_to copied data w
      end
  end.

Definition head (e : E) (r : Request) (key : string) (s : S) (w : recorder) : recorder :=
  match Head e key s with
  | Err err => writeStoreError r err w
  | Ok info =>
      let w := set_header "Content-Type" "application/octet-stream" w in
      let w := set_header "Content-Length" (FormatInt (Size info)) w in
      let w := set_header "Last-Modified" (format_http (LastModified info)) w in
      let w := set_header "Accept-Ranges" "bytes" w in
      let w := if String.eqb (ETag info) "" then w else set_header "ETag" (Quote (ETag info)) w in
      WriteHeader 200 w
  end.

Definition delete_ (e : E) (r : Request) (key blobName : string) (readOnly : bool) (s : S) (w : recorder)
  : recorder * S :=
  if readOnly || negb (allowDelete blobName)
  then (writeError r 403 codeAppendOnlyDeleteDenied
          "append-only: only Kopia session markers may be deleted (docs/RECONCILE-append-only.md)" w, s)
  else
    let '(res, s) := Delete e key s in
    match res with
    | Err ErrNotFound => (WriteHeader 204 w, s)
    | Err err => (writeStoreError r err w, s)
    | Ok _ => (WriteHeader 204 w, s)
    end.

(** ** Listing *)

Definition collect (e : E) (prefix after : string) (maxKeys : Z) (s : S)
  : result StoreErr (list ObjectInfo * string * bool) :=
  match List e prefix after maxKeys s with
  | Err err => Err err
  | Ok (batch, more) =>
      match last batch with
      | None => Ok ([], after, false)
      | Some o => Ok (batch, Key o, more)
      end
  end.

Definition list_entry (encode fetchOwner : bool) (o : ObjectInfo) : objectEntry :=
  mkObjectEntry (if encode then urlEncodeName (Key o) else Key o) (s3Time (LastModified o))
    (if String.eqb (ETag o) "" then "" else Quote (ETag o)) (Size o) "STANDARD"
    (if fetchOwner then Some (mkOwner (bucket g) (bucket g)) else None).

(** The prefix and starting point the store is asked for. *)
Definition list_prefix (query : Values) (devPrefix : string) : string :=
  let asked := Get query "prefix" in if HasPrefix asked devPrefix then asked else devPrefix.

Definition list_maxKeys (query : Values) : Z :=
  match ParseInt (Get query "max-keys") with
  | Some n => if (0 <? n) && (n <? maxListKeys) then n else maxListKeys
  | None => maxListKeys
  end.

Definition list_after (query : Values) (devPrefix : string) : result StoreErr string :=
  let token := Get query "continuation-token" in
  let! after := (if String.eqb token "" then Ok (Get query "start-after")
                 else decodeToken token devPrefix) in
  Ok (if slt after (list_prefix query devPrefix) then "" else after).

Definition list_ (e : E) (r : Request) (query : Values) (devPrefix : string) (s : S) (w : recorder)
  : recorder :=
  match list_after query devPrefix with
  | Err _ => writeError r 403 codeAccessDenied "access denied" w
  | Ok after =>
      let encode := EqualFold (Get query "encoding-type") "url" in
      let fetchOwner := EqualFold (Get query "fetch-owner") "true" in
      let enc s := if encode then urlEncodeName s else s in
      match collect e (list_prefix query devPrefix) after (list_maxKeys query) s with
      | Err err => writeStoreError r err w
      | Ok (objs, next, truncated) =>
          if existsb (fun o => negb (HasPrefix (Key o) devPrefix)) objs
          then writeError r 500 codeInternalError "storage error" w
          else writeXML 200
            (DocList (mkListResult (bucket g) (enc (Get query "prefix")) (enc (Get query "start-after"))
               (Get query "continuation-token")
               (if truncated then encodeToken devPrefix next else "")
               (Z.of_nat (length objs)) (list_maxKeys query) (enc (Get query "delimiter"))
               (if encode then "url" else "") truncated
               (list_entry encode fetchOwner <$> objs))) w
      end
  end.

(** [serveBucket]: the answer and the class for the log. *)
Definition serveBucket (e : E) (r : Request) (query : Values) (devPrefix : string) (s : S) (w : recorder)
  : recorder * string :=
  if String.eqb (Method r) "POST" then (writeNotImplemented r "this operation is not supported" w, "")
  else if has_key query "versioning"
  then (writeNotImplemented r "bucket versioning is not supported" w, "versioning")
  else if has_key query "location" then (writeXML 200 (DocLocation (region g)) w, "location")
  else if String.eqb (Method r) "HEAD" then (WriteHeader 200 w, "bucket")
  else if negb (String.eqb (Method r) "GET")
  then (writeError r 403 codeAccessDenied "access denied" w, "")
  else if negb (String.eqb (Get query "list-type") "2")
  then (writeNotImplemented r "only ListObjectsV2 (list-type=2) is supported" w, "")
  else (list_ e r query devPrefix s w, "list").
End Verbs.

(** ** One request *)

(** Why [StoreFor] has no store for a device. *)
Inductive StoreForErr := ErrAccessDenied | ErrUnsupportedStorageMode | ErrStoreOther.

(** What a request reads of the world outside the gateway. *)
Record context (E : Type) := mkContext {
  t_start : Z;  (** the clock, at each of its readings *)
  t_ip : Z;
  t_verify : Z;
  t_lookup : Z;
  t_device : Z;
  t_end : Z;
  keyRow : string -> result DbErr DeviceKey;  (** [store.DeviceKey] *)
  storeFor : string -> result StoreForErr Z;  (** the target of a device *)
  e_head : E;                                 (** the store's environment *)
  e_op : E;
  e_copied : option nat                       (** where sending the object fails, if it does *)
}.
Arguments t_start {E} _.
Arguments t_ip {E} _.
Arguments t_verify {E} _.
Arguments t_lookup {E} _.
Arguments t_device {E} _.
Arguments t_end {E} _.
Arguments keyRow {E} _ _.
Arguments storeFor {E} _ _.
Arguments e_head {E} _.
Arguments e_op {E} _.
Arguments e_copied {E} _.

(** The identity the lookup captured: agent, prefix, read-only. *)
Definition identity : Type := string * string * bool.

(** The fields of the log entry [serve] fills in. *)
Record logFields := mkFields { f_device : string; f_akid : string; f_key : string; f_class : string }.

Section Serve.
Context {S E : Type} `{ObjectStore S E}.
Variable EncodePath : string -> string.
Variable B : Secretbox.
Variable sealKey : list Z.
Variable rnd : Q -> Q.
Variable g : Gateway.

(** The lookup [Verify] is given: it captures the identity, and refuses a
    credential whose prefix is not exactly its own agent's. *)
Definition look (c : context E) (akid : string) (st : Keys * option identity)
  : option string * (Keys * option identity) :=
  let '(k, captured) := st in
  match Lookup B sealKey akid (t_lookup c) (keyRow c akid) k with
  | (None, k) => (None, (k, captured))
  | (Some res, k) =>
      let a := r_agent res in
      let p := r_prefix res in
      if negb (String.eqb p (a +:+ "/")) || negb (is_ok (checkKey (p +:+ "x")))
      then (None, (k, captured))
      else (Some (r_secret res), (k, Some (a, p, r_readOnly res)))
  end.

(** The bucket and key a path names. *)
Definition split_path (path : string) : string * string :=
  let '(b, k, _) := Cut (TrimPrefix path "/") "/" in (b, k).

(** The region the signature must name. *)
Definition sign_region (r : Request) (key : string) : string :=
  match ParseQuery (RawQuery r) with
  | Some q => if String.eqb key "" && has_key q "location" then locationRegion else region g
  | None => region g
  end.

(** The parameters and headers refused before any storage call. *)
Definition refuse_query (r : Request) (query : Values) : option (Z * string * string) :=
  if existsb (fun k => negb (bool_decide (k ∈ knownQueryKeys))) (elements (dom query))
  then Some (400, codeInvalidArgument, "unsupported query parameter")
  else if has_key query "uploads" || has_key query "uploadId" || has_key query "partNumber"
  then Some (501, codeNotImplemented, "multipart upload is not supported")
  else if has_key query "versionId" || has_key query "versions" || has_key query "metadata"
  then Some (501, codeNotImplemented, "object versions are not supported by hosted targets")
  else if negb (String.eqb (header r "X-Amz-Copy-Source") "")
  then Some (501, codeNotImplemented, "server-side copy is not supported")
  else None.

(** The verb switch on an object of the device. *)
Definition serveObject (c : context E) (r : Request) (b : body) (query : Values)
    (full blobName : string) (readOnly : bool) (s : S) (w : recorder) : recorder * S :=
  if String.eqb (Method r) "PUT" then
    if has_key query "retention"
    then (writeNotImplemented r "object retention is applied by the mirror job, not by the device" w, s)
    else put g (e_op c) r b full readOnly s w
  else if String.eqb (Method r) "GET" then (get (e_head c) (e_op c) (e_copied c) r full s w, s)
  else if String.eqb (Method r) "HEAD" then (head (e_op c) r full s w, s)
  else if String.eqb (Method r) "DELETE" then delete_ (e_op c) r full blobName readOnly s w
  else if String.eqb (Method r) "POST"
  then (writeNotImplemented r "this operation is not supported" w, s)
  else (writeError r 403 codeAccessDenied "access denied" w, s).

(** An authenticated request at its store: bucket or object. *)
Definition serveStore (c : context E) (r : Request) (b : body) (query : Values) (key : string)
    (id : identity) (s : S) (w : recorder) : recorder * string * S :=
  let '(agentID, devPrefix, readOnly) := id in
  if String.eqb key "" then
    let '(w, class) := serveBucket g (e_op c) r query devPrefix s w in (w, class, s)
  else match NormalizeKey key devPrefix with
  | Err _ =>
      if negb (HasPrefix key devPrefix)
      then (writeError r 403 codeAccessDenied "access denied" w, "", s)
      else (writeError r 400 codeInvalidObjectKey "invalid object key" w, "", s)
  | Ok full =>
      let blobName := TrimPrefix full devPrefix in
      let '(w, s) := serveObject c r b query full blobName readOnly s w in
      (w, keyClass blobName, s)
  end.

(** After authentication: the device's budget, the query, the store.  A target
    whose store cannot be opened answers as any other [StoreFor] failure. *)
Definition serveDevice (c : context E) (r : Request) (b : body) (key akid : string)
    (id : identity) (st : gstate S) (w : recorder) : recorder * logFields * gstate S :=
  let agentID := fst (fst id) in
  let log class := mkFields agentID akid key class in
  let '(ok, lim) := allow rnd agentID (t_device c) (limit st) in
  let st := mkGState lim (ipLimit st) (g_keys st) (stores st) in
  if negb ok then (writeSlowDown r w, log "", st)
  else match ParseQuery (RawQuery r) with
  | None => (writeError r 400 codeInvalidURI "malformed query string" w, log "", st)
  | Some query =>
      match refuse_query r query with
      | Some (status, code, msg) => (writeError r status code msg w, log "", st)
      | None =>
          match storeFor c agentID with
          | Err ErrAccessDenied => (writeError r 403 codeAccessDenied "access denied" w, log "", st)
          | Err ErrUnsupportedStorageMode =>
              (writeNotImplemented r "this target's storage mode is not served by the gateway" w, log "", st)
          | Err ErrStoreOther =>
              (writeError r 500 codeInternalError "storage unavailable" w, log "", st)
          | Ok target =>
              match stores st !! target with
              | None => (writeError r 500 codeInternalError "storage unavailable" w, log "", st)
              | Some s =>
                  let '(w, class, s) := serveStore c r b query key id s w in
                  (w, log class, mkGState (limit st) (ipLimit st) (g_keys st) (<[target := s]> (stores st)))
              end
          end
      end
  end.

Definition serve (c : context E) (r : Request) (b : body) (st : gstate S) (w : recorder)
  : recorder * logFields * gstate S :=
  let '(bkt, key) := split_path (Path r) in
  if negb (String.eqb bkt (bucket g))
  then (writeError r 404 codeNoSuchBucket "no such bucket" w, mkFields "" "" "" "", st)
  else
    let log := mkFields "" "" key "" in
    let '(ok, ipl) := allow rnd (ClientIP r (trusted g)) (t_ip c) (ipLimit st) in
    let st := mkGState (limit st) ipl (g_keys st) (stores st) in
    if negb ok then (writeSlowDown r w, log, st)
    else if String.eqb (header r "Authorization") ""
    then (writeError r 403 codeAccessDenied "access denied" w, log, st)
    else
      let '(res, (k, captured)) :=
        Verify EncodePath r (sign_region r key) "s3" (look c) (t_verify c) (g_keys st, None) in
      let st := mkGState (limit st) (ipLimit st) k (stores st) in
      match res with
      | Err err =>
          let '(status, code) := mapAuthError err in
          (writeError r status code (authMessage err code) w, log, st)
      | Ok akid => serveDevice c r b key akid (default ("", "", false) captured) st w
      end.

(** [ServeHTTP]: the answer, the log entry, and the state after. *)
Definition ServeHTTP (c : context E) (r : Request) (b : body) (st : gstate S)
  : recorder * LogEntry * gstate S :=
  let '(w, f, st) := serve c r b st new_recorder in
  (w, mkLog (f_device f) (f_akid f) (Method r) (f_key f) (f_class f) (r_status w) (r_bytes w)
        (Sub (t_end c) (t_start c)), st).
End Serve.
