(* ===== verification/HandlerFacts.v ===== *)
(** * What the gateway guarantees

    Properties of [Handler], proved against the [ObjectStore] interface: a
    request changes at most one object of the device that signed it, never
    overwrites, and deletes session markers only; so over any sequence of
    requests stored backups last. *)

From S2P Require Import Prelude GoStrings GoText Digest GoTime Object ObjectStore Limit.
From S2P Require Import GoNet ClientIP SigV4 Seal Keys XmlOut Handler.
From Stdlib Require Import Ascii.

(** ** Identities *)

(** A device id the gateway will act for: a plain path segment. *)
Definition device_id (a : string) : Prop := checkKey (a +:+ "/x") = Ok tt.

Definition valid_identity (id : identity) : Prop :=
  let '(a, p, _) := id in p = a +:+ "/" /\ device_id a.

Lemma device_id_plain a : device_id a -> Contains a "/" = false /\ a <> "" /\ a <> tmpDir.
Proof.
  intros [_ _ _ (d & n & E & Hd & Hn & Ht)]%checkKey_good.
  destruct Hd as (Hd0 & _ & _ & Hd), Hn as (_ & _ & _ & Hn).
  change ("/" +:+ n) with (String "/" n) in E. change (a +:+ "/x") with (a +:+ String "/" "x") in E.
  destruct (Contains a "/") eqn:Ea.
  - exfalso. destruct (Cut a "/") as [[b rest] ok] eqn:C. destruct ok.
    + apply Cut_found in C as [-> Hb]. rewrite sapp_assoc in E. cbn in E.
      assert (Cut (d +:+ String "/" n) "/" = (b, rest +:+ String "/" "x", true)) as H1.
      { apply Cut_found. split; [|done]. by rewrite <- E. }
      rewrite (proj2 (Cut_found _ _ d n)) in H1 by done. injection H1 as -> ->.
      rewrite Contains_app in Hn. by apply orb_false_iff in Hn as [_ Hn].
    + apply Cut_false in C as [C _]. congruence.
  - assert (Cut (d +:+ String "/" n) "/" = (a, "x", true)) as H1 by by apply Cut_found.
    rewrite (proj2 (Cut_found _ _ d n)) in H1 by done. injection H1 as -> _. done.
Qed.

(** Two devices' prefixes are disjoint. *)
Lemma prefixes_disjoint a a' k :
  device_id a -> device_id a' ->
  HasPrefix k (a +:+ "/") = true -> HasPrefix k (a' +:+ "/") = true -> a = a'.
Proof.
  intros [Ha _]%device_id_plain [Ha' _]%device_id_plain
    (t & ->)%HasPrefix_spec (t' & E)%HasPrefix_spec.
  rewrite !sapp_assoc in E. change ("/" +:+ ?x) with (String "/" x) in E.
  change ("/" +:+ t') with (String "/" t') in E.
  pose proof (proj2 (Cut_found _ "/" a t) (conj eq_refl Ha)) as H1.
  rewrite E, (proj2 (Cut_found _ "/" a' t') (conj eq_refl Ha')) in H1. by injection H1.
Qed.

Section Facts.
Context {S E : Type} `{ObjectStoreLaws S E}.
Variable EncodePath : string -> string.
Variable B : Secretbox.
Variable sealKey : list Z.
Variable rnd : Q -> Q.
Variable g : Gateway.

Abbreviation serve := (Handler.serve EncodePath B sealKey rnd g).
Abbreviation look := (Handler.look B sealKey).

(** The request is signed by a key of the device [id] resolves to. *)
Definition authenticated (c : context E) (r : Request) (k : Keys) (akid : string) (id : identity)
    (k' : Keys) : Prop :=
  Verify EncodePath r (sign_region g r (snd (split_path (Path r)))) "s3" (look c) (t_verify c) (k, None)
  = (Ok akid, (k', Some id)).

Lemma look_captures (c : context E) akid k secret st :
  look c akid (k, None) = (Some secret, st) ->
  exists k' res, st = (k', Some (r_agent res, r_agent res +:+ "/", r_readOnly res))
    /\ Lookup B sealKey akid (t_lookup c) (keyRow c akid) k = (Some res, k')
    /\ r_secret res = secret /\ device_id (r_agent res).
Proof.
  unfold Handler.look. destruct (Lookup _ _ _ _ _ _) as [[res|] k']; [|done].
  destruct (_ || _) eqn:Ep; [done|]. intros [= <- <-].
  apply orb_false_iff in Ep as [Ep Ec]. bool_to_prop. exists k', res. rewrite Ep in *.
  split_and!; try done. unfold device_id. rewrite sapp_assoc in Ec. change ("/" +:+ "x") with "/x" in Ec.
  by destruct (checkKey (r_agent res +:+ "/x")) as [[]|].
Qed.

Lemma authenticated_identity (c : context E) r k akid id k' :
  authenticated c r k akid id k' -> valid_identity id /\ exists res,
    Lookup B sealKey akid (t_lookup c) (keyRow c akid) k = (Some res, k')
    /\ id = (r_agent res, r_agent res +:+ "/", r_readOnly res).
Proof.
  intros Hv. apply Verify_ok in Hv as (secret & scope & signed & sig & t & q & _ & Hl & _).
  apply look_captures in Hl as (k1 & res & [= -> ->] & Hl & _ & Hd). by split; [split|eauto].
Qed.

Lemma Verify_captures (c : context E) r k akid k' captured :
  Verify EncodePath r (sign_region g r (snd (split_path (Path r)))) "s3" (look c) (t_verify c) (k, None)
  = (Ok akid, (k', captured)) ->
  exists id, captured = Some id /\ authenticated c r k akid id k'.
Proof.
  intros Hv. pose proof Hv as Hs.
  apply Verify_ok in Hs as (secret & scope & signed & sig & t & q & _ & Hl & _).
  apply look_captures in Hl as (k1 & res & [= -> ->] & _). eauto.
Qed.

(** ** What a request may change *)

(** The abstract store of a device: a new object under its prefix, verified
    against the digest the request carries, or one session marker less. *)
Inductive permitted (dev : string) (r : Request) (b : body) : gmap string string -> gmap string string -> Prop :=
| permit_put m name want :
    Method r = "PUT" -> m !! (dev +:+ "/" +:+ name) = None ->
    Std_decode (header r "Content-MD5") = Some want -> md5 (bytes (b_data b)) = want ->
    permitted dev r b m (<[dev +:+ "/" +:+ name := b_data b]> m)
| permit_delete m name :
    Method r = "DELETE" -> is_Some (m !! (dev +:+ "/" +:+ name)) -> allowDelete name = true ->
    permitted dev r b m (delete (dev +:+ "/" +:+ name) m).

Lemma Put_view e k b size s res v s' :
  Put e k b size false s = (res, v, s') ->
  view s' = view s
  \/ view s !! k = None /\ view s' = <[k := b_data b]> (view s)
     /\ forall want, b_md5 b = Some want -> md5 (bytes (b_data b)) = want.
Proof.
  intros Hp. pose proof (put_frame _ _ _ _ _ _ _ _ _ Hp) as Hf.
  assert (view s' !! k = view s !! k -> view s' = view s) as Hsame.
  { intros Hk. apply map_eq. intros j. destruct (decide (j = k)) as [->|]; [done|by apply Hf]. }
  destruct (view s !! k) as [d|] eqn:Ek.
  - left. apply Hsame. by eapply put_append_only.
  - destruct (view s' !! k) as [d|] eqn:Ek'; [|left; by apply Hsame].
    right. destruct (put_whole _ _ _ _ _ _ _ _ _ Hp Ek Ek') as [-> Hd]. split_and!; try done.
    apply map_eq. intros j. rewrite lookup_insert. case_decide as Hj; [by subst j|]. by apply Hf.
Qed.

Lemma Delete_view e k s res s' :
  Delete e k s = (res, s') ->
  view s' = view s \/ is_Some (view s !! k) /\ view s' = delete k (view s).
Proof.
  intros Hd. destruct res as [[]|err].
  - right. by apply (delete_ok e).
  - by apply (delete_err e k s err).
Qed.

Lemma serveObject_permitted c r b q dev name readOnly s w w' s' :
  serveObject g c r b q (dev +:+ "/" +:+ name) name readOnly s w = (w', s') ->
  view s' = view s \/ readOnly = false /\ permitted dev r b (view s) (view s').
Proof.
  unfold serveObject. destruct (String.eqb (Method r) "PUT") eqn:Em; bool_to_prop.
  { destruct (has_key q "retention"); [intros [= _ <-]; by left|]. unfold put.
    destruct readOnly; [intros [= _ <-]; by left|].
    destruct (_ <? _); [intros [= _ <-]; by left|].
    destruct (_ <? _); [intros [= _ <-]; by left|].
    destruct (Std_decode _) as [want|] eqn:Ew; [|intros [= _ <-]; by left].
    destruct (negb _); [intros [= _ <-]; by left|].
    destruct (Put _ _ _ _ _ _) as [[res v] s1] eqn:Ep. intros [= _ <-].
    apply Put_view in Ep as [?|(Hn & -> & Hm)]; [by left|right].
    split; [done|]. apply (permit_put dev r b _ name want); auto. }
  destruct (String.eqb (Method r) "GET"); [intros [= _ <-]; by left|].
  destruct (String.eqb (Method r) "HEAD"); [intros [= _ <-]; by left|].
  destruct (String.eqb (Method r) "DELETE") eqn:Ed; bool_to_prop.
  { unfold delete_. destruct readOnly; [intros [= _ <-]; by left|]. cbn [orb].
    destruct (allowDelete name) eqn:Ea; cbn [negb]; [|intros [= _ <-]; by left].
    destruct (Delete _ _ _) as [res s1] eqn:Edel. intros Hs.
    assert (s' = s1) as -> by (split_ifs_in Hs; done).
    apply Delete_view in Edel as [?|[Hd ->]]; [by left|right]. split; [done|]. by constructor. }
  destruct (String.eqb (Method r) "POST"); intros [= _ <-]; by left.
Qed.

Lemma serveStore_permitted c r b q key dev readOnly s w w' class s' :
  serveStore g c r b q key (dev, dev +:+ "/", readOnly) s w = (w', class, s') ->
  view s' = view s \/ readOnly = false /\ permitted dev r b (view s) (view s').
Proof.
  unfold serveStore. destruct (String.eqb key "").
  { destruct (serveBucket _ _ _ _ _ _ _). intros [= _ _ <-]. by left. }
  destruct (NormalizeKey key (dev +:+ "/")) as [full|] eqn:En.
  2:{ destruct (negb _); intros [= _ _ <-]; by left. }
  assert (exists name, full = dev +:+ "/" +:+ name) as [name ->].
  { unfold NormalizeKey in En. destruct (checkKey key); [|done].
    destruct (_ && _); [done|]. destruct (HasPrefix key _) eqn:Hp; [|done]. injection En as <-.
    apply HasPrefix_spec in Hp as [t ->]. rewrite sapp_assoc. eauto. }
  rewrite <- sapp_assoc, TrimPrefix_app, sapp_assoc.
  destruct (serveObject _ _ _ _ _ _ _ _ _ _) as [w1 s1] eqn:Eo. intros [= _ _ <-].
  by eapply serveObject_permitted.
Qed.

(** What [serve] did to the stores, and for whom. *)
Definition effect (c : context E) (r : Request) (b : body) (st : gstate S) (f : logFields)
    (st' : gstate S) : Prop :=
  stores st' = stores st
  \/ exists akid dev readOnly k' target s s',
       authenticated c r (g_keys st) akid (dev, dev +:+ "/", readOnly) k'
       /\ device_id dev /\ f_device f = dev /\ f_akid f = akid
       /\ storeFor c dev = Ok target /\ stores st !! target = Some s
       /\ stores st' = <[target := s']> (stores st)
       /\ (view s' = view s \/ readOnly = false /\ permitted dev r b (view s) (view s')).

Lemma serveDevice_effect c r b key akid dev readOnly st w w' f st' :
  serveDevice rnd g c r b key akid (dev, dev +:+ "/", readOnly) st w = (w', f, st') ->
  f_device f = dev /\ f_akid f = akid
  /\ (stores st' = stores st
      \/ exists target s s', storeFor c dev = Ok target /\ stores st !! target = Some s
         /\ stores st' = <[target := s']> (stores st)
         /\ (view s' = view s \/ readOnly = false /\ permitted dev r b (view s) (view s'))).
Proof.
  unfold serveDevice. cbn [fst]. destruct (allow _ _ _ _) as [ok lim]. cbn [stores].
  destruct (negb ok); [intros [= _ <- <-]; by auto|].
  destruct (ParseQuery _) as [q|]; [|intros [= _ <- <-]; by auto].
  destruct (refuse_query r q) as [[[? ?] ?]|]; [intros [= _ <- <-]; by auto|].
  destruct (storeFor c dev) as [target|[]] eqn:Ef; [|intros [= _ <- <-]; by auto..].
  destruct (stores st !! target) as [s|] eqn:Es; [|intros [= _ <- <-]; by auto].
  destruct (serveStore _ _ _ _ _ _ _ _ _) as [[w1 class] s1] eqn:Ess. intros [= _ <- <-].
  split_and!; [done..|]. right. exists target, s, s1. split_and!; try done.
  by eapply serveStore_permitted.
Qed.

Lemma serve_effect c r b st w w' f st' :
  serve c r b st w = (w', f, st') -> effect c r b st f st'.
Proof.
  unfold Handler.serve. destruct (split_path (Path r)) as [bkt key] eqn:Ek.
  destruct (negb _); [intros [= _ _ <-]; by left|].
  destruct (allow _ _ _ _) as [ok ipl]. destruct (negb ok); [intros [= _ _ <-]; by left|].
  destruct (String.eqb _ ""); [intros [= _ _ <-]; by left|]. cbn [g_keys].
  destruct (Verify _ _ _ _ _ _ _) as [[akid|err] [k captured]] eqn:Ev.
  2:{ destruct (mapAuthError err). intros [= _ _ <-]. by left. }
  assert (exists id, captured = Some id /\ authenticated c r (g_keys st) akid id k) as (id & -> & Ha).
  { apply Verify_captures. by rewrite Ek. }
  pose proof (authenticated_identity _ _ _ _ _ _ Ha) as [Hid _].
  destruct id as [[dev p] readOnly]. destruct Hid as [-> Hid]. cbn [default from_option id].
  intros Hd. apply serveDevice_effect in Hd as (Hf & Hk & [Hs|(target & s & s' & Ht & Hs & Hs' & Hv)]).
  - by left.
  - right. exists akid, dev, readOnly, k, target, s, s'. by split_and!.
Qed.

(** ** Sequences of requests *)

Record event := mkEvent { ev_ctx : context E; ev_req : Request; ev_body : body }.

Abbreviation ServeHTTP := (Handler.ServeHTTP EncodePath B sealKey rnd g).

Fixpoint serve_all (evs : list event) (st : gstate S) : list LogEntry * gstate S :=
  match evs with
  | [] => ([], st)
  | ev :: rest =>
      let '(_, l, st) := ServeHTTP (ev_ctx ev) (ev_req ev) (ev_body ev) st in
      let '(ls, st) := serve_all rest st in (l :: ls, st)
  end.

Lemma ServeHTTP_effect c r b st w l st' :
  ServeHTTP c r b st = (w, l, st') ->
  exists f, DeviceID l = f_device f /\ LogAccessKeyID l = f_akid f /\ effect c r b st f st'.
Proof.
  unfold Handler.ServeHTTP. destruct (serve c r b st new_recorder) as [[w1 f] st1] eqn:Es.
  intros [= <- <- <-]. exists f. split_and!; [done..|]. by eapply serve_effect.
Qed.

(** An invariant of every store's view, over any sequence of requests. *)
Lemma serve_all_invariant (P : Z -> gmap string string -> Prop) (ok : LogEntry -> Prop) evs st :
  (forall target r b dev m m' l, ok l -> DeviceID l = dev -> device_id dev ->
     permitted dev r b m m' -> P target m -> P target m') ->
  Forall ok (fst (serve_all evs st)) ->
  (forall target s, stores st !! target = Some s -> P target (view s)) ->
  forall target s, stores (snd (serve_all evs st)) !! target = Some s -> P target (view s).
Proof.
  intros Hstep. revert st. induction evs as [|ev evs IH]; intros st; cbn [serve_all]; [done|].
  destruct (ServeHTTP _ _ _ st) as [[w l] st1] eqn:Es.
  destruct (serve_all evs st1) as [ls st2] eqn:Er. cbn [fst snd]. intros [Hl Hls]%Forall_cons HP.
  specialize (IH st1). rewrite Er in IH. apply IH; [done|]. clear IH.
  apply ServeHTTP_effect in Es as (f & Hf & _ & [->|(akid & dev & ro & k' & tgt & s & s' & _ & Hid & Hdev & _ & _ & Hs & -> & Hv)]);
    [done|].
  intros target s1. rewrite lookup_insert. case_decide as Ht; [|apply HP].
  intros [= <-]. subst target. specialize (HP tgt s Hs).
  destruct Hv as [->|[_ Hp]]; [done|].
  apply (Hstep tgt (ev_req ev) (ev_body ev) dev (view s) (view s') l); congruence || done.
Qed.

Lemma stores_persist evs st target s :
  stores st !! target = Some s -> is_Some (stores (snd (serve_all evs st)) !! target).
Proof.
  revert st s. induction evs as [|ev evs IH]; intros st s Hs; cbn [serve_all]; [eauto|].
  destruct (ServeHTTP _ _ _ st) as [[w l] st1] eqn:Es.
  assert (is_Some (stores st1 !! target)) as [s1 Hs1].
  { apply ServeHTTP_effect in Es as (f & _ & _ & [->|(akid & dev & ro & k' & tgt & s0 & s' & _ & _ & _ & _ & _ & _ & -> & _)]);
      [eauto|]. rewrite lookup_insert. case_decide; eauto. }
  specialize (IH st1 s1 Hs1). by destruct (serve_all evs st1).
Qed.

(** The blob name of a key, and whether it is one a device may delete. *)
Definition session_marker (k : string) : bool := let '(_, name, _) := Cut k "/" in allowDelete name.

Lemma session_marker_key dev name :
  device_id dev -> session_marker (dev +:+ "/" +:+ name) = allowDelete name.
Proof.
  intros [Hd _]%device_id_plain. unfold session_marker. change ("/" +:+ name) with (String "/" name).
  by rewrite Cut_at.
Qed.

(** C1.  Backups last.  Whatever sequence of requests any set of devices or
    attackers sends, an object that was stored stays stored, byte for byte,
    unless it is one of Kopia's short-lived session markers. *)
Theorem stored_backups_last evs st target s k d :
  stores st !! target = Some s -> view s !! k = Some d -> session_marker k = false ->
  exists s', stores (snd (serve_all evs st)) !! target = Some s' /\ view s' !! k = Some d.
Proof.
  intros Hs Hk Hm. destruct (stores_persist evs st target s Hs) as [s' Hs']. exists s'. split; [done|].
  refine (serve_all_invariant (fun t m => t = target -> m !! k = Some d) (fun _ => True) evs st
            _ _ _ target s' Hs' eq_refl); [|by apply Forall_true|].
  - intros t r b dev m m' l _ _ Hid Hp Hinv Ht. specialize (Hinv Ht).
    destruct Hp as [m name want _ Hn _ _|m name _ _ Ha]; [rewrite lookup_insert_ne|rewrite lookup_delete_ne];
      try done; [congruence|].
    intros <-. rewrite session_marker_key in Hm by done. congruence.
  - intros t s1 Hs1 ->. rewrite Hs in Hs1. by injection Hs1 as <-.
Qed.

(** C2.  Devices are isolated.  A sequence of requests none of which is
    authenticated as a device leaves everything under that device's prefix as
    it was, in every target. *)
Theorem devices_isolated evs st dev target s :
  device_id dev -> stores st !! target = Some s ->
  Forall (fun l => DeviceID l <> dev) (fst (serve_all evs st)) ->
  exists s', stores (snd (serve_all evs st)) !! target = Some s'
    /\ forall k, HasPrefix k (dev +:+ "/") = true -> view s' !! k = view s !! k.
Proof.
  intros Hid Hs Hl. destruct (stores_persist evs st target s Hs) as [s' Hs']. exists s'. split; [done|].
  intros k Hk.
  refine (serve_all_invariant (fun t m => t = target -> m !! k = view s !! k)
            (fun l => DeviceID l <> dev) evs st _ _ _ target s' Hs' eq_refl); [|done|].
  - intros t r b dev' m m' l Hne Hdev Hid' Hp Hinv Ht. specialize (Hinv Ht).
    assert (forall name, dev' +:+ "/" +:+ name <> k) as Hother.
    { intros name <-. apply Hne. rewrite Hdev. apply (prefixes_disjoint dev' dev (dev' +:+ "/" +:+ name)); [done..| |done].
      rewrite <- sapp_assoc. apply HasPrefix_app. }
    destruct Hp; [rewrite lookup_insert_ne|rewrite lookup_delete_ne]; done.
  - intros t s1 Hs1 ->. rewrite Hs in Hs1. by injection Hs1 as <-.
Qed.

(** C3.  One request against the abstract store: at most one object changes,
    in the target of the device whose key signed the request, and the change is
    a new object whose bytes match the Content-MD5 header the request carries (a
    header the client need not sign) or the removal of a session marker -- by a
    key that is not read-only. *)
Theorem request_refines_append_only c r b st w l st' :
  ServeHTTP c r b st = (w, l, st') ->
  stores st' = stores st
  \/ exists readOnly k' target s s',
       authenticated c r (g_keys st) (LogAccessKeyID l) (DeviceID l, DeviceID l +:+ "/", readOnly) k'
       /\ storeFor c (DeviceID l) = Ok target /\ stores st !! target = Some s
       /\ stores st' = <[target := s']> (stores st)
       /\ (view s' = view s \/ readOnly = false /\ permitted (DeviceID l) r b (view s) (view s')).
Proof.
  intros (f & -> & -> & [?|(akid & dev & ro & k' & tgt & s & s' & Ha & _ & <- & <- & He)])%ServeHTTP_effect;
    [by left|right]. exists ro, k', tgt, s, s'. tauto.
Qed.

(** A read-only key reads. *)
Theorem read_only_changes_nothing c r b st w l st' akid dev p k' :
  ServeHTTP c r b st = (w, l, st') ->
  authenticated c r (g_keys st) akid (dev, p, true) k' ->
  forall target s', stores st' !! target = Some s' ->
  exists s, stores st !! target = Some s /\ view s' = view s.
Proof.
  intros (f & _ & _ & [->|(akid' & dev' & ro & k1 & tgt & s & s1 & Ha & _ & _ & _ & _ & Hs & -> & Hv)])%ServeHTTP_effect
    Hauth target s'; [eauto|].
  unfold authenticated in *. rewrite Ha in Hauth. injection Hauth as _ _ _ _ Hro. subst ro.
  rewrite lookup_insert. case_decide; [|eauto]. intros [= <-]. subst.
  destruct Hv as [Hv|[? _]]; [eauto|done].
Qed.
End Facts.
