(* ===== verification/HandlerAnswers.v ===== *)
(** * What the gateway's answers mean

    The other direction of [HandlerFacts]: an acknowledged PUT is stored, a
    served GET is the object's bytes, a listing stays inside the device's
    prefix, and a request that is not authenticated is refused. *)

From S2P Require Import Prelude GoStrings GoText Digest GoTime Object ObjectStore Limit.
From S2P Require Import GoNet ClientIP SigV4 Seal Keys XmlOut Handler HandlerFacts.
From Stdlib Require Import Ascii.

(** ** Statuses *)

Lemma WriteHeader_st status w :
  written w = false -> r_status (WriteHeader status w) = status /\ written (WriteHeader status w) = true.
Proof. intros Hw. unfold WriteHeader. by rewrite Hw. Qed.

Lemma Write_st p w : written w = true -> r_status (Write p w) = r_status w /\ written (Write p w) = true.
Proof. intros Hw. unfold Write. by rewrite Hw. Qed.

Lemma writeXML_st status d w : written w = false -> r_status (writeXML status d w) = status.
Proof.
  intros Hw. unfold writeXML. generalize (marshal d) xml_Header. intros body hdr. cbv zeta.
  match goal with |- context [WriteHeader status ?v] =>
    destruct (WriteHeader_st status v Hw) as [Hs Ht]; generalize dependent (WriteHeader status v) end.
  intros v Hs Ht. destruct (Write_st hdr v Ht) as [Hs' Ht'].
  destruct (Write_st body _ Ht') as [Hs'' _]. congruence.
Qed.

Lemma writeError_st r status code msg w :
  written w = false -> r_status (writeError r status code msg w) = status.
Proof.
  intros Hw. unfold writeError. destruct (String.eqb _ _); [|by apply writeXML_st].
  by apply WriteHeader_st.
Qed.

Lemma writeSlowDown_st r w : written w = false -> r_status (writeSlowDown r w) = 503.
Proof. intros. by apply writeError_st. Qed.

Lemma writeNotImplemented_st r msg w : written w = false -> r_status (writeNotImplemented r msg w) = 501.
Proof. intros. by apply writeError_st. Qed.

Lemma writeStoreError_st r e w : written w = false -> 400 <= r_status (writeStoreError r e w) <= 599.
Proof. intros Hw. destruct e; cbn; rewrite writeError_st by done; lia. Qed.

Lemma writeRangeError_st r e w : written w = false -> 400 <= r_status (writeRangeError r e w) <= 599.
Proof.
  intros Hw. destruct e; cbn [writeRangeError]; [rewrite writeNotImplemented_st by done; lia|].
  by apply writeStoreError_st.
Qed.

Lemma mapAuthError_range e : 400 <= fst (mapAuthError e) <= 599.
Proof. destruct e; cbn; lia. Qed.

Lemma refuse_query_range r q status code msg :
  refuse_query r q = Some (status, code, msg) -> 400 <= status <= 599.
Proof. unfold refuse_query. intros H. split_ifs_in H; lia. Qed.

(** A branch that wrote an error contradicts a success status. *)
Ltac no_success :=
  match goal with
  | H : context [r_status _] |- _ =>
      first [ rewrite writeSlowDown_st in H by done | rewrite writeNotImplemented_st in H by done
            | rewrite writeError_st in H by done ]; lia
  end.

Section Answers.
Context {S E : Type} `{ObjectStoreLaws S E}.
Variable EncodePath : string -> string.
Variable B : Secretbox.
Variable sealKey : list Z.
Variable rnd : Q -> Q.
Variable g : Gateway.

Abbreviation ServeHTTP := (Handler.ServeHTTP EncodePath B sealKey rnd g).
Abbreviation serve := (Handler.serve EncodePath B sealKey rnd g).
Abbreviation authenticated := (HandlerFacts.authenticated EncodePath B sealKey g).

(** ** Refusals *)

(** Without an identity, every path is a refusal. *)
Lemma refused_without_identity c r b st w l st' :
  ServeHTTP c r b st = (w, l, st') ->
  (forall akid id k', ~ authenticated c r (g_keys st) akid id k') ->
  400 <= r_status w <= 599 /\ Status l = r_status w
  /\ DeviceID l = "" /\ LogAccessKeyID l = "" /\ stores st' = stores st.
Proof.
  unfold Handler.ServeHTTP, Handler.serve. intros Hs Hno.
  destruct (split_path (Path r)) as [bkt key] eqn:Ek.
  destruct (negb _).
  { injection Hs as <- <- <-. cbn [Status]. by rewrite writeError_st. }
  destruct (allow _ _ _ _) as [ok ipl]. destruct (negb ok).
  { injection Hs as <- <- <-. cbn [Status]. by rewrite writeSlowDown_st. }
  destruct (String.eqb _ "").
  { injection Hs as <- <- <-. cbn [Status]. by rewrite writeError_st. }
  cbn [g_keys] in Hs. destruct (Verify _ _ _ _ _ _ _) as [[akid|err] [k captured]] eqn:Ev.
  - exfalso. assert (exists id, captured = Some id /\ authenticated c r (g_keys st) akid id k)
      as (id & _ & Ha) by (apply Verify_captures; by rewrite Ek). by eapply Hno.
  - pose proof (mapAuthError_range err) as Hr. destruct (mapAuthError err) as [status code].
    injection Hs as <- <- <-. cbn [Status]. by rewrite writeError_st.
Qed.

(** C6.  A request that is not authenticated -- no signature, a wrong one, an
    unknown or revoked key, a clock too far off, an unsigned header -- is
    answered with an error, is logged without a device, and reaches no store. *)
Theorem unauthenticated_refused c r b st w l st' :
  ServeHTTP c r b st = (w, l, st') ->
  (forall akid id k', ~ authenticated c r (g_keys st) akid id k') ->
  400 <= r_status w <= 599 /\ Status l = r_status w
  /\ DeviceID l = "" /\ LogAccessKeyID l = "" /\ stores st' = stores st.
Proof. apply refused_without_identity. Qed.

(** The access key a request names. *)
Definition names_key (r : Request) (akid : string) : Prop :=
  forall k scope signed sig, parseAuthorization (header r "Authorization") = Ok (k, scope, signed, sig) -> k = akid.

(** A disabled key is refused like one that never existed: once the
    table has no active row for it and the cache no live entry, a request naming
    it gets an error and reaches no store. *)
Theorem disabled_key_refused (c : context E) r b st w l st' akid e :
  ServeHTTP c r b st = (w, l, st') -> names_key r akid ->
  keyRow c akid = Err e -> fst (lookup_begin akid (t_lookup c) (g_keys st)) = None ->
  400 <= r_status w <= 599 /\ DeviceID l = "" /\ stores st' = stores st.
Proof.
  intros Hs Hn Hrow Hmiss. apply refused_without_identity in Hs as (Hst & _ & Hd & _ & Hstores); [done|].
  intros akid' id k' Ha.
  pose proof (authenticated_identity _ _ _ _ _ _ _ _ _ _ Ha) as [_ (res & Hl & _)].
  unfold HandlerFacts.authenticated in Ha.
  apply Verify_ok in Ha as (secret & scope & signed & sig & t & q & Hp & _).
  apply Hn in Hp. subst akid'. unfold Lookup in Hl.
  destruct (lookup_begin akid (t_lookup c) (g_keys st)) as [hit gen_]. cbn [fst] in Hmiss. subst hit.
  rewrite Hrow in Hl. done.
Qed.

(** ** Reaching a store *)

(** A successful answer went through the store of the authenticated device. *)
Lemma success_reaches_store c r b st w l st' :
  ServeHTTP c r b st = (w, l, st') -> r_status w < 400 ->
  exists readOnly k' target s s' query class,
    authenticated c r (g_keys st) (LogAccessKeyID l) (DeviceID l, DeviceID l +:+ "/", readOnly) k'
    /\ device_id (DeviceID l) /\ storeFor c (DeviceID l) = Ok target /\ stores st !! target = Some s
    /\ stores st' = <[target := s']> (stores st)
    /\ ParseQuery (RawQuery r) = Some query
    /\ serveStore g c r b query (snd (split_path (Path r))) (DeviceID l, DeviceID l +:+ "/", readOnly) s new_recorder
       = (w, class, s').
Proof.
  unfold Handler.ServeHTTP, Handler.serve. intros Hs Hst.
  destruct (split_path (Path r)) as [bkt key] eqn:Ek. cbn [snd].
  destruct (negb _).
  { injection Hs as <- <- <-. rewrite writeError_st in Hst by done. lia. }
  destruct (allow _ _ _ _) as [ok ipl]. destruct (negb ok).
  { injection Hs as <- <- <-. rewrite writeSlowDown_st in Hst by done. lia. }
  destruct (String.eqb _ "").
  { injection Hs as <- <- <-. rewrite writeError_st in Hst by done. lia. }
  cbn [g_keys] in Hs. destruct (Verify _ _ _ _ _ _ _) as [[akid|err] [k captured]] eqn:Ev.
  2:{ pose proof (mapAuthError_range err) as Hr. destruct (mapAuthError err) as [status code].
      injection Hs as <- <- <-. rewrite writeError_st in Hst by done. cbn in Hr. lia. }
  assert (exists id, captured = Some id /\ authenticated c r (g_keys st) akid id k) as (id & -> & Ha).
  { apply Verify_captures. by rewrite Ek. }
  pose proof (authenticated_identity _ _ _ _ _ _ _ _ _ _ Ha) as [Hid _].
  destruct id as [[dev p] readOnly]. destruct Hid as [-> Hid]. cbn [default from_option id] in Hs.
  unfold serveDevice in Hs. cbn [fst limit ipLimit g_keys stores] in Hs.
  destruct (allow _ _ _ _) as [ok2 lim]. destruct (negb ok2).
  { injection Hs as <- <- <-. rewrite writeSlowDown_st in Hst by done. lia. }
  destruct (ParseQuery _) as [q|] eqn:Eq.
  2:{ injection Hs as <- <- <-. rewrite writeError_st in Hst by done. lia. }
  destruct (refuse_query r q) as [[[status code] msg]|] eqn:Er.
  { injection Hs as <- <- <-. apply refuse_query_range in Er. rewrite writeError_st in Hst by done. lia. }
  destruct (storeFor c dev) as [target|[]] eqn:Ef.
  2-4: injection Hs as <- <- <-; first [rewrite writeError_st in Hst by done|rewrite writeNotImplemented_st in Hst by done]; lia.
  destruct (stores st !! target) as [s|] eqn:Es.
  2:{ injection Hs as <- <- <-. rewrite writeError_st in Hst by done. lia. }
  destruct (serveStore _ _ _ _ _ _ _ _ _) as [[w1 class] s1] eqn:Ess.
  injection Hs as <- <- <-. cbn [DeviceID LogAccessKeyID f_device f_akid].
  exists readOnly, k, target, s, s1, q, class. by split_and!.
Qed.

(** ... and a successful answer about an object went through the verb switch. *)
Lemma success_reaches_object c r b q dev key readOnly s w class s' :
  serveStore g c r b q key (dev, dev +:+ "/", readOnly) s new_recorder = (w, class, s') ->
  key <> "" -> r_status w < 400 ->
  exists name, key = dev +:+ "/" +:+ name /\ class = keyClass name
    /\ serveObject g c r b q key name readOnly s new_recorder = (w, s').
Proof.
  unfold serveStore. intros Hs Hk Hst. apply String.eqb_neq in Hk. rewrite Hk in Hs.
  destruct (NormalizeKey key (dev +:+ "/")) as [full|] eqn:En.
  2:{ destruct (negb _); injection Hs as <- <- <-; rewrite writeError_st in Hst by done; lia. }
  unfold NormalizeKey in En. destruct (checkKey key); [|done].
  destruct (_ && _); [done|]. destruct (HasPrefix key _) eqn:Hp; [|done]. injection En as <-.
  apply HasPrefix_spec in Hp as [name ->]. exists name. rewrite TrimPrefix_app in Hs.
  destruct (serveObject _ _ _ _ _ _ _ _ _ _) as [w1 s1]. injection Hs as <- <- <-.
  by rewrite sapp_assoc.
Qed.

(** ** Acknowledged means stored *)

(** C4.  A PUT answered 200 is durable at that moment: the object stands in
    the device's store under exactly the key of the path, with exactly the bytes
    of the body, of the declared length, whose MD5 is the one the request
    carried; before it, the key was free. *)
Theorem put_acknowledged c r b st w l st' :
  ServeHTTP c r b st = (w, l, st') ->
  Method r = "PUT" -> snd (split_path (Path r)) <> "" -> r_status w = 200 ->
  exists name target s s' want,
    snd (split_path (Path r)) = DeviceID l +:+ "/" +:+ name
    /\ storeFor c (DeviceID l) = Ok target
    /\ stores st !! target = Some s /\ stores st' !! target = Some s'
    /\ view s !! (DeviceID l +:+ "/" +:+ name) = None
    /\ view s' = <[DeviceID l +:+ "/" +:+ name := b_data b]> (view s)
    /\ len (b_data b) = ContentLength r /\ ContentLength r <= maxBytes g
    /\ Std_decode (header r "Content-MD5") = Some want /\ md5 (bytes (b_data b)) = want.
Proof.
  intros Hs Hm Hk Hst. apply success_reaches_store in Hs; [|lia].
  destruct Hs as (ro & k' & target & s & s' & q & class & _ & _ & Hf & Hstore & Hst' & _ & Hss).
  apply success_reaches_object in Hss as (name & Hkey & _ & Ho); [|done|lia].
  exists name, target, s, s'. rewrite Hst', lookup_insert_eq. rewrite Hkey in *.
  unfold serveObject in Ho. rewrite Hm in Ho. cbn [String.eqb Ascii.eqb Bool.eqb] in Ho.
  destruct (has_key q "retention").
  { injection Ho as <- <-. rewrite writeNotImplemented_st in Hst by done. lia. }
  unfold put in Ho. destruct ro.
  { injection Ho as <- <-. rewrite writeError_st in Hst by done. lia. }
  destruct (Z.ltb_spec (ContentLength r) 0).
  { injection Ho as <- <-. rewrite writeError_st in Hst by done. lia. }
  destruct (Z.ltb_spec (maxBytes g) (ContentLength r)).
  { injection Ho as <- <-. rewrite writeError_st in Hst by done. lia. }
  destruct (Std_decode _) as [want|] eqn:Ew.
  2:{ injection Ho as <- <-. rewrite writeError_st in Hst by done. lia. }
  destruct (negb _).
  { injection Ho as <- <-. rewrite writeError_st in Hst by done. lia. }
  destruct (Put _ _ _ _ _ _) as [[res v] s1] eqn:Ep. injection Ho as <- <-.
  destruct res as [info|[]]; try (rewrite writeError_st in Hst by done; lia).
  destruct (put_stored _ _ _ _ _ _ _ _ _ Ep) as (_ & Hv & _ & Hlen & Hmd).
  exists want. destruct (Hmd want eq_refl) as [_ Hmd'].
  split_and!; try done; [| |by apply Hlen].
  - destruct (view s !! _) eqn:Ev; [|done]. exfalso.
    pose proof (put_exists _ _ _ _ _ _ _ _ _ Ep Ev). done.
  - apply Put_view in Ep as [Hsame|(_ & -> & _)]; [|done].
    rewrite Hsame in *. by rewrite insert_id.
Qed.

(** ** Served means the object's bytes *)

Lemma len_range full offset length :
  0 <= offset <= len full ->
  len (range_of full offset length)
  = let n := len full - offset in if (0 <=? length) && (length <? n) then length else n.
Proof.
  intros Ho. unfold range_of. cbv zeta.
  assert (len (sdrop (Z.to_nat offset) full) = len full - offset) as Hd.
  { pose proof (stake_sdrop (Z.to_nat offset) full) as Hs. apply (f_equal len) in Hs.
    rewrite len_app, len_stake in Hs by lia. lia. }
  rewrite len_stake; rewrite ?Hd;
    destruct (Z.ltb_spec length 0), (Z.ltb_spec (len full - offset) length), (Z.leb_spec 0 length),
      (Z.ltb_spec length (len full - offset)); cbn [orb andb]; lia.
Qed.

(** What a Range header asks for, in the terms of RFC 9110 (14.1.2): all of
    the object, the bytes from a position on, those between two positions, the
    last so many.  A header that is absent or of another unit asks for all. *)
Inductive byte_range := Everything | From (a : Z) | Between (a b : Z) | Suffix (n : Z).

Inductive asks : string -> byte_range -> Prop :=
| asks_everything hdr : HasPrefix (TrimSpace hdr) "bytes=" = false -> asks hdr Everything
| asks_from a : 0 <= a < 2 ^ 63 -> asks ("bytes=" +:+ FormatInt a +:+ "-") (From a)
| asks_between a b : 0 <= a <= b -> b + 1 < 2 ^ 63 -> asks ("bytes=" +:+ FormatInt a +:+ "-" +:+ FormatInt b) (Between a b)
| asks_suffix n : 0 < n < 2 ^ 63 -> asks ("bytes=-" +:+ FormatInt n) (Suffix n).

(** The first position of a range in an object of [size] bytes, and the one
    past its last. *)
Definition first_byte (rng : byte_range) (size : Z) : Z :=
  match rng with Everything => 0 | From a | Between a _ => a | Suffix n => Z.max 0 (size - n) end.

Definition past_last (rng : byte_range) (size : Z) : Z :=
  match rng with Between _ b => Z.min (b + 1) size | _ => size end.

Definition is_part (rng : byte_range) : bool := match rng with Everything => false | _ => true end.

(** The bytes at the positions [lo] to [hi - 1]. *)
Definition bytes_at (lo hi : Z) (d : string) : string := String.substring (Z.to_nat lo) (Z.to_nat (hi - lo)) d.

Lemma substring_stake m n s : String.substring m n s = stake n (sdrop m s).
Proof.
  revert n s. induction m as [|m IH]; intros n s; [|destruct s; [by destruct n|apply IH]].
  cbn [sdrop]. revert n. induction s as [|c s IHs]; intros [|n]; try done. cbn. by rewrite IHs.
Qed.

Lemma visible_range t : tame t = true -> TrimSpace ("bytes=" +:+ t) = "bytes=" +:+ t.
Proof. intros Ht. apply TrimSpace_visible. rewrite all_bytes_app. by rewrite (tame_visible _ Ht). Qed.

Lemma number_no_dash n : 0 <= n -> Contains (FormatInt n) "-" = false.
Proof. intros Hn. by apply (all_bytes_Contains isDigit); [apply FormatInt_digits|]. Qed.

Lemma number_no_comma n : Contains (FormatInt n) "," = false.
Proof. apply tame_Contains; [auto|apply tame_FormatInt]. Qed.

(** The parser on a header of the unit "bytes", past its first tests. *)
Lemma parseRange_bytes e first last key s :
  tame first = true -> tame last = true -> Contains first "-" = false ->
  parseRange e ("bytes=" +:+ first +:+ "-" +:+ last) key s
  = if String.eqb first "" then
      match ParseInt last with
      | None => Ok (0, -1, false)
      | Some n =>
          if n <=? 0 then Ok (0, -1, false)
          else match Head e key s with
          | Err err => Err (RangeStore err)
          | Ok info => Ok (Size info - Z.min n (Size info), Z.min n (Size info), true)
          end
      end
    else match ParseInt first with
    | None => Ok (0, -1, false)
    | Some start =>
        if start <? 0 then Ok (0, -1, false)
        else if String.eqb last "" then Ok (start, -1, true)
        else match ParseInt last with
        | None => Ok (0, -1, false)
        | Some end_ => if end_ <? start then Ok (0, -1, false) else Ok (start, wrap64 (end_ - start + 1), true)
        end
    end.
Proof.
  intros Hf Hl Hd. unfold parseRange.
  rewrite visible_range by (rewrite !all_bytes_app, Hf, Hl; done).
  unfold CutPrefix. rewrite (proj2 (HasPrefix_spec _ "bytes=")) by eauto. cbn [negb].
  change (sdrop (String.length "bytes=") ("bytes=" +:+ ?t)) with t.
  rewrite !Contains_app, (tame_Contains first), (tame_Contains last) by auto. cbn [orb Contains Ascii.eqb Bool.eqb].
  change ("-" +:+ last) with (String "-" last). by rewrite Cut_at.
Qed.

(** A well-formed header is parsed as what it asks for. *)
Lemma parseRange_asks e hdr rng key s full offset length ranged :
  asks hdr rng -> view s !! key = Some full -> 0 <= offset <= len full ->
  parseRange e hdr key s = Ok (offset, length, ranged) ->
  offset = first_byte rng (len full) /\ ranged = is_part rng
  /\ range_of full offset length = bytes_at offset (past_last rng (len full)) full.
Proof.
  intros Ha Hv Ho. unfold bytes_at, range_of. rewrite substring_stake.
  destruct Ha as [hdr Hp|a Hr|a b Hab Hb|n Hn]; cbn [first_byte is_part past_last].
  - unfold parseRange, CutPrefix. rewrite Hp. cbn [negb]. intros [= <- <- <-]. done.
  - rewrite (parseRange_bytes e (FormatInt a) "") by first [apply tame_FormatInt | apply number_no_dash; lia | done].
    rewrite (proj2 (String.eqb_neq _ _) (FormatInt_nonempty a (proj1 Hr))), ParseInt_FormatInt by lia.
    rewrite (proj2 (Z.ltb_ge a 0)) by lia. cbn [String.eqb]. intros [= <- <- <-]. done.
  - rewrite parseRange_bytes by first [apply tame_FormatInt | apply number_no_dash; lia | done].
    rewrite (proj2 (String.eqb_neq _ _) (FormatInt_nonempty a ltac:(lia))), (proj2 (String.eqb_neq _ _) (FormatInt_nonempty b ltac:(lia))).
    rewrite !ParseInt_FormatInt by lia.
    rewrite (proj2 (Z.ltb_ge a 0)), (proj2 (Z.ltb_ge b a)) by lia. rewrite wrap64_id by (unfold in_int64, int64_min, int64_max; lia).
    intros [= <- <- <-]. split_and!; [done..|]. do 2 f_equal.
    destruct (Z.ltb_spec (b - a + 1) 0), (Z.ltb_spec (len full - a) (b - a + 1)); cbn [orb]; lia.
  - change ("bytes=-" +:+ FormatInt n) with ("bytes=" +:+ "" +:+ "-" +:+ FormatInt n).
    rewrite parseRange_bytes by (apply tame_FormatInt || done). cbn [String.eqb].
    rewrite ParseInt_FormatInt, (proj2 (Z.leb_gt n 0)) by lia.
    destruct (Head e key s) as [info|] eqn:Eh; [|done]. intros [= <- <- <-].
    apply head_size in Eh as (d & Hd & _ & Hs). rewrite Hv in Hd. injection Hd as <-. rewrite Hs in *.
    split_and!; [lia|done|]. do 2 f_equal.
    destruct (Z.ltb_spec (Z.min n (len full)) 0), (Z.ltb_spec (len full - (len full - Z.min n (len full))) (Z.min n (len full))); cbn [orb]; lia.
Qed.

(** What [get] answers when it does not refuse. *)
Definition served (copied : option nat) (rng : byte_range) (full : string) (w : recorder) : Prop :=
  let lo := first_byte rng (len full) in
  let hi := past_last rng (len full) in
  let partial := is_part rng && (lo <? hi) in
  0 <= lo <= hi /\ hi <= len full
  /\ r_body w = match copied with
                | None => bytes_at lo hi full
                | Some n => String.substring 0 n (bytes_at lo hi full)
                end
  /\ r_bytes w = len (r_body w)
  /\ r_header w !! "Content-Length" = Some (FormatInt (hi - lo))
  /\ r_status w = (if partial then 206 else 200)
  /\ r_header w !! "Content-Range"
     = if partial then Some ("bytes " +:+ FormatInt lo +:+ "-" +:+ FormatInt (hi - 1) +:+ "/" +:+ FormatInt (len full))
       else None.

Lemma ServeHTTP_bytes c r b st w l st' : ServeHTTP c r b st = (w, l, st') -> Bytes l = r_bytes w.
Proof. unfold Handler.ServeHTTP. destruct (Handler.serve _ _ _ _ _ _ _ _ _ _) as [[w1 f] st1]. by intros [= <- <- _]. Qed.

Lemma part_bounds hdr rng size : asks hdr rng -> first_byte rng size <= size -> 0 <= size ->
  0 <= first_byte rng size <= past_last rng size /\ past_last rng size <= size.
Proof. intros [] ? ?; cbn [first_byte past_last] in *; lia. Qed.

Lemma len_bytes_at lo hi d : 0 <= lo <= hi -> hi <= len d -> len (bytes_at lo hi d) = hi - lo.
Proof.
  intros Hl Hh. unfold bytes_at. rewrite substring_stake.
  assert (len (sdrop (Z.to_nat lo) d) = len d - lo) as Hd.
  { pose proof (stake_sdrop (Z.to_nat lo) d) as Hs. apply (f_equal len) in Hs. rewrite len_app, len_stake in Hs by lia. lia. }
  rewrite len_stake; lia.
Qed.

Lemma get_answers e1 e2 copied r key s rng w :
  get e1 e2 copied r key s new_recorder = w -> r_status w < 400 -> asks (header r "Range") rng ->
  exists full, view s !! key = Some full /\ served copied rng full w.
Proof.
  intros Hw Hst Ha. unfold get in Hw.
  destruct (parseRange _ _ _ _) as [[[offset length] ranged]|e] eqn:Er.
  2:{ subst w. pose proof (writeRangeError_st r e new_recorder eq_refl). lia. }
  destruct (GetObject _ _ _ _ _) as [[data info]|e] eqn:Eg.
  2:{ subst w. pose proof (writeStoreError_st r e new_recorder eq_refl). lia. }
  apply get_range in Eg as (full & Hv & _ & Hsize & Hoff & Hdata).
  pose proof (len_range full offset length Hoff) as Hlen. cbv zeta in Hlen.
  destruct (parseRange_asks _ _ _ _ _ _ _ _ _ Ha Hv Hoff Er) as (-> & -> & Hr).
  destruct (part_bounds _ _ (len full) Ha) as [Hb1 Hb2]; [lia..|].
  rewrite Hr, len_bytes_at in Hlen by done. rewrite Hsize, <- Hlen in Hw. rewrite Hdata, Hr in Hw.
  exists full. split; [done|]. unfold served. cbv zeta.
  assert ((0 <? past_last rng (len full) - first_byte rng (len full)) = (first_byte rng (len full) <? past_last rng (len full))) as Hlt
    by (destruct (Z.ltb_spec 0 (past_last rng (len full) - first_byte rng (len full))), (Z.ltb_spec (first_byte rng (len full)) (past_last rng (len full))); (done || lia)).
  rewrite Hlt in Hw. clear - Hw Hb1 Hb2.
  rewrite Z.add_sub_assoc, Z.add_simpl_l in Hw.
  split_and!; [lia..| | | | |]; subst w; destruct (is_part rng && _); destruct copied;
    cbn [copy_to Write WriteHeader written new_recorder set_header r_header r_body r_status r_bytes];
    rewrite ?substring_stake; try done;
    rewrite ?lookup_insert_ne by done; rewrite ?lookup_insert_eq, ?lookup_empty by done; try done.
Qed.

(** C5.  A GET answered 200 or 206 sends bytes of the device's own object:
    when the Range header is absent, of another unit, or a well-formed single
    range of bytes, exactly the bytes it asks for, announced by
    Content-Length and, for a non-empty part, by the status 206 and
    Content-Range -- or, when the copy fails half-way, the first of those
    bytes under the same announcement, so that the client sees the body is
    short.  The store is not changed, and the log counts the bytes sent. *)
Theorem get_served c r b st w l st' rng :
  ServeHTTP c r b st = (w, l, st') ->
  Method r = "GET" -> snd (split_path (Path r)) <> "" -> r_status w < 400 ->
  asks (header r "Range") rng ->
  exists name target s full,
    let lo := first_byte rng (len full) in
    let hi := past_last rng (len full) in
    let partial := is_part rng && (lo <? hi) in
    snd (split_path (Path r)) = DeviceID l +:+ "/" +:+ name
    /\ storeFor c (DeviceID l) = Ok target /\ stores st !! target = Some s
    /\ stores st' = stores st
    /\ view s !! (DeviceID l +:+ "/" +:+ name) = Some full
    /\ 0 <= lo <= hi /\ hi <= len full
    /\ r_body w = match e_copied c with
                  | None => bytes_at lo hi full
                  | Some n => String.substring 0 n (bytes_at lo hi full)
                  end
    /\ Bytes l = len (r_body w)
    /\ r_header w !! "Content-Length" = Some (FormatInt (hi - lo))
    /\ r_status w = (if partial then 206 else 200)
    /\ r_header w !! "Content-Range"
       = if partial then Some ("bytes " +:+ FormatInt lo +:+ "-" +:+ FormatInt (hi - 1) +:+ "/" +:+ FormatInt (len full))
         else None.
Proof.
  intros Hs Hm Hk Hst Ha. pose proof Hs as Hbytes. apply success_reaches_store in Hs; [|lia].
  destruct Hs as (ro & k' & target & s & s' & q & class & _ & _ & Hf & Hstore & Hst' & _ & Hss).
  apply success_reaches_object in Hss as (name & Hkey & _ & Ho); [|done|lia].
  unfold serveObject in Ho. rewrite Hm in Ho. cbn [String.eqb Ascii.eqb Bool.eqb] in Ho.
  injection Ho as Hw Hs'. subst s'.
  apply get_answers with (rng := rng) in Hw as (full & Hv & Hb1 & Hb2 & Hbody & Hn & Hcl & Hstatus & Hcr); [|lia|done].
  rewrite Hkey in *. exists name, target, s, full. rewrite Hst', insert_id by done.
  split_and!; try done; [lia..|]. by rewrite (ServeHTTP_bytes _ _ _ _ _ _ _ Hbytes).
Qed.

(** ** Listings stay at home *)

Lemma WriteHeader_doc status w : r_doc (WriteHeader status w) = r_doc w.
Proof. unfold WriteHeader. by destruct (written w). Qed.

Lemma Write_doc p w : r_doc (Write p w) = r_doc w.
Proof. unfold Write. destruct (written w); [done|]. apply WriteHeader_doc. Qed.

Lemma writeXML_doc status d w : r_doc (writeXML status d w) = Some d.
Proof. unfold writeXML. cbv zeta. by rewrite !Write_doc, WriteHeader_doc. Qed.

Lemma collect_sound e prefix after max s objs next more o :
  collect e prefix after max s = Ok (objs, next, more) -> o ∈ objs ->
  HasPrefix (Key o) prefix = true /\ exists d, view s !! Key o = Some d /\ Size o = len d.
Proof.
  unfold collect. destruct (List _ _ _ _ _) as [[batch more']|] eqn:El; [|done].
  destruct (last batch) as [o'|].
  - intros [= -> _ _] Ho. by apply (list_sound _ _ _ _ _ _ _ o El) in Ho as (? & _ & ?).
  - intros [= <- _ _] []%elem_of_nil.
Qed.

Lemma list_prefix_confined q dev : HasPrefix (list_prefix q dev) dev = true.
Proof.
  unfold list_prefix. destruct (HasPrefix (Get q "prefix") dev) eqn:Ep; [done|].
  apply HasPrefix_spec. exists "". by rewrite sapp_nil_r.
Qed.

(** C24.  A listing answered 200 names only objects of the device that asked,
    each of them stored with the size it is listed with -- whatever prefix,
    start-after or continuation token the request carried. *)
Theorem list_confined c r b st w l st' res :
  ServeHTTP c r b st = (w, l, st') -> snd (split_path (Path r)) = "" ->
  r_status w < 400 -> r_doc w = Some (DocList res) ->
  stores st' = stores st
  /\ exists target s objs encode owner,
       storeFor c (DeviceID l) = Ok target /\ stores st !! target = Some s
       /\ l_Contents res = list_entry g encode owner <$> objs
       /\ l_KeyCount res = Z.of_nat (length objs)
       /\ Forall (fun o => HasPrefix (Key o) (DeviceID l +:+ "/") = true
                           /\ exists d, view s !! Key o = Some d /\ Size o = len d) objs.
Proof.
  intros Hs Hk Hst Hdoc. apply success_reaches_store in Hs; [|lia].
  destruct Hs as (ro & k' & target & s & s' & q & class & _ & _ & Hf & Hstore & Hst' & _ & Hss).
  unfold serveStore in Hss. rewrite Hk in Hss. cbn [String.eqb] in Hss.
  destruct (serveBucket _ _ _ _ _ _ _) as [w1 cl] eqn:Eb. injection Hss as -> _ <-.
  rewrite Hst', insert_id by done. split; [done|]. unfold serveBucket in Eb.
  destruct (String.eqb (Method r) "POST"); [injection Eb as <- _; no_success|].
  destruct (has_key q "versioning"); [injection Eb as <- _; no_success|].
  destruct (has_key q "location").
  { injection Eb as <- _. by rewrite writeXML_doc in Hdoc. }
  destruct (String.eqb (Method r) "HEAD"); [by injection Eb as <- _|].
  destruct (negb _); [injection Eb as <- _; no_success|].
  destruct (negb _); [injection Eb as <- _; no_success|].
  injection Eb as Hw _. unfold list_ in Hw.
  destruct (list_after _ _) as [after|]; [|subst w; no_success].
  destruct (collect _ _ _ _ _) as [[[objs next] more]|e] eqn:Ec.
  2:{ subst w. pose proof (writeStoreError_st r e new_recorder eq_refl). lia. }
  destruct (existsb _ _); [subst w; no_success|].
  subst w. rewrite writeXML_doc in Hdoc by done. injection Hdoc as <-.
  exists target, s, objs. do 2 eexists. split_and!; [done..|].
  apply Forall_forall. intros o Ho. destruct (collect_sound _ _ _ _ _ _ _ _ o Ec Ho) as [Hp Hd].
  split; [|done]. eapply HasPrefix_trans; [exact Hp|]. apply list_prefix_confined.
Qed.

(** ** Continuation tokens *)

Lemma device_id_nul a : device_id a -> Contains a nul = false.
Proof.
  intros [_ _ Hr _]%checkKey_good. destruct (Contains a nul) eqn:Ec; [exfalso|done].
  assert (0 ∈ bytes (a +:+ "/x")) as Hin.
  { clear Hr. induction a as [|d a IH]; [done|]. rewrite sapp_cons. cbn [Contains bytes] in *.
    apply orb_true_iff in Ec as [Ec|Ec]; [|right; by apply IH].
    apply Ascii.eqb_eq in Ec as ->. left. }
  apply ascii_byte_is_rune in Hin; [|lia]. rewrite Forall_forall in Hr. by specialize (Hr _ Hin).
Qed.

(** A continuation token resumes where it was minted, and only there:
    it decodes to the key it carries under the prefix of the device it was
    minted for, and is refused for every other device. *)
Theorem token_bound_to_device a a' after :
  device_id a -> device_id a' ->
  decodeToken (encodeToken (a +:+ "/") after) (a +:+ "/") = Ok after
  /\ (a <> a' -> decodeToken (encodeToken (a +:+ "/") after) (a' +:+ "/") = Err ErrBadKey).
Proof.
  intros Ha Ha'. unfold decodeToken, encodeToken. rewrite RawURL_round_trip.
  rewrite Cut_at by (by rewrite Contains_app, device_id_nul).
  cbn [negb orb]. rewrite String.eqb_refl. split; [done|]. intros Hne.
  destruct (String.eqb_spec (a +:+ "/") (a' +:+ "/")) as [E1|]; [|done].
  destruct Hne. apply (prefixes_disjoint a a' (a +:+ "/")); [done..| |].
  - apply HasPrefix_spec. exists "". by rewrite sapp_nil_r.
  - rewrite E1. apply HasPrefix_spec. exists "". by rewrite sapp_nil_r.
Qed.
End Answers.
