(* ===== verification/GatewayRun.v ===== *)
(** * The gateway at work

    The handler over the disk backend, on concrete signed requests: the world
    the witnesses of [HandlerFacts] and [HandlerAnswers] are evaluated in. *)

From S2P Require Import Prelude GoStrings GoText Digest GoTime Object ObjectStore Local LocalFacts Limit.
From S2P Require Import GoNet ClientIP SigV4 Seal Keys XmlOut Handler HandlerFacts HandlerAnswers.

(** ** A world *)

Definition defaults : Config := mkConfig "" "" 0 0 0 0 0 [].

(** One disk target, holding "dev1/p01". *)
Definition gw : Gateway := fst (NewGateway defaults NewKeys {[ 1 := sample_local ]}).
Definition st0 : gstate local := snd (NewGateway defaults NewKeys {[ 1 := sample_local ]}).

(** The key table: dev1's key, a read-only key of dev1, and dev2's. *)
Definition issue (akid agent secret : string) (ro : bool) : DeviceKey :=
  mkDeviceKey akid agent
    (replicate 24 1 ++ box_seal clear_box (bytes secret) (replicate 24 1) [])
    (agent +:+ "/") ro 0 None.

Definition key_table : keyStore :=
  mkKeyStore {[ "dev1"; "dev2" ]}
    {[ "AKID1" := issue "AKID1" "dev1" "s3cret" false;
       "AKIDR" := issue "AKIDR" "dev1" "r3ad" true;
       "AKID2" := issue "AKID2" "dev2" "0ther" false ]}.

Definition world (rand : string) : context env :=
  mkContext env sample_now sample_now sample_now sample_now sample_now sample_now
    (fun akid => lookupDeviceKey akid key_table)
    (fun agent => Ok 1) (calm 8 "H") (calm 8 rand) None.

Definition bare (method path query : string) (cl : Z) (hdrs : gmap string (list string)) : Request :=
  mkRequest method path query "backup.example" cl
    (<[ "X-Amz-Date" := ["20260902T120000Z"] ]>
      (<[ "X-Amz-Content-Sha256" := ["UNSIGNED-PAYLOAD"] ]> hdrs)) "203.0.113.9:4711".

Definition run1 (r : Request) (b : body) (st : gstate local) : recorder * LogEntry * gstate local :=
  ServeHTTP id clear_box [] (fun q => q) gw (world "T2") r b st.

Definition no_body : body := mkBody "" None true None.

Definition put_request (path : string) : Request :=
  bare "PUT" path "" 5 {[ "Content-Md5" := ["XUFAKrxLKna5cZ2REBfFkg=="] ]}.

Definition put_new : Request := signed_by "AKID1" "s3cret" (put_request "/warphold/dev1/p02").
Definition put_over : Request := signed_by "AKID1" "s3cret" (put_request "/warphold/dev1/p01").
Definition put_other : Request := signed_by "AKID1" "s3cret" (put_request "/warphold/dev2/p01").
Definition get_p01 : Request :=
  signed_by "AKIDR" "r3ad" (bare "GET" "/warphold/dev1/p01" "" 0 {[ "Range" := ["bytes=1-3"] ]}).
Definition delete_p01 : Request := signed_by "AKID1" "s3cret" (bare "DELETE" "/warphold/dev1/p01" "" 0 ∅).
Definition list_all : Request :=
  signed_by "AKID1" "s3cret" (bare "GET" "/warphold/" "list-type=2&prefix=dev2%2F" 0 ∅).

Definition answer (r : Request) (b : body) : Z * string * string :=
  let w := fst (fst (run1 r b st0)) in
  (r_status w, r_body w, match r_doc w with Some (DocError e) => e_Code e | _ => "" end).

Example answers :
  fst (fst (answer put_new sample_body)) = 200
  /\ snd (answer put_over sample_body) = "ObjectAlreadyExists"
  /\ snd (answer put_other sample_body) = "AccessDenied"
  /\ snd (answer delete_p01 no_body) = "AppendOnlyDeleteDenied"
  /\ answer get_p01 no_body = (206, "ell", "")
  /\ fst (fst (answer list_all no_body)) = 200
  /\ snd (answer (with_authorization put_new "") sample_body) = "AccessDenied"
  /\ snd (answer (signed_by "AKID1" "wrong" put_new) sample_body) = "SignatureDoesNotMatch"
  /\ snd (answer put_new (mkBody "evil" None true None)) = "BadDigest".
Proof. vm_compute. repeat split. Qed.

(** ** Witnesses *)

Abbreviation exact_q := (fun q : Q => q).

(** An attack on "dev1/p01": overwrite it, then delete it, then write elsewhere. *)
Definition attack : list event :=
  [ mkEvent (world "T2") put_over sample_body; mkEvent (world "T3") delete_p01 no_body;
    mkEvent (world "T4") put_other sample_body; mkEvent (world "T5") put_new sample_body ].

Abbreviation serve_events := (serve_all id clear_box [] exact_q gw).

Lemma stored_backups_last_witness :
  exists s', stores (snd (serve_events attack st0)) !! 1 = Some s' /\ view s' !! "dev1/p01" = Some "hello".
Proof.
  apply (stored_backups_last id clear_box [] exact_q gw attack st0 1 sample_local "dev1/p01" "hello");
    by vm_compute.
Defined.

Lemma devices_isolated_witness :
  exists s', stores (snd (serve_events attack st0)) !! 1 = Some s'
    /\ forall k, HasPrefix k "dev2/" = true -> view s' !! k = view sample_local !! k.
Proof.
  apply (devices_isolated id clear_box [] exact_q gw attack st0 "dev2" 1 sample_local).
  - by vm_compute.
  - by vm_compute.
  - apply (bool_decide_unpack (Forall (fun l => DeviceID l <> "dev2") (fst (serve_events attack st0)))).
    by vm_compute.
Defined.

Definition after_put : recorder * LogEntry * gstate local := run1 put_new sample_body st0.

Lemma after_put_eq :
  ServeHTTP id clear_box [] exact_q gw (world "T2") put_new sample_body st0
  = (fst (fst after_put), snd (fst after_put), snd after_put).
Proof. apply triple_eta. Qed.

Lemma request_refines_append_only_witness :
  stores (snd after_put) = stores st0
  \/ exists readOnly k' target s s',
       authenticated id clear_box [] gw (world "T2") put_new (g_keys st0) (LogAccessKeyID (snd (fst after_put)))
         (DeviceID (snd (fst after_put)), DeviceID (snd (fst after_put)) +:+ "/", readOnly) k'
       /\ storeFor (world "T2") (DeviceID (snd (fst after_put))) = Ok target /\ stores st0 !! target = Some s
       /\ stores (snd after_put) = <[target := s']> (stores st0)
       /\ (view s' = view s
           \/ readOnly = false
              /\ permitted (DeviceID (snd (fst after_put))) put_new sample_body (view s) (view s')).
Proof. exact (request_refines_append_only _ _ _ _ _ _ _ _ _ _ _ _ after_put_eq). Defined.

Lemma put_acknowledged_witness :
  exists name target s s' want,
    snd (split_path (Path put_new)) = DeviceID (snd (fst after_put)) +:+ "/" +:+ name
    /\ storeFor (world "T2") (DeviceID (snd (fst after_put))) = Ok target
    /\ stores st0 !! target = Some s /\ stores (snd after_put) !! target = Some s'
    /\ view s !! (DeviceID (snd (fst after_put)) +:+ "/" +:+ name) = None
    /\ view s' = <[DeviceID (snd (fst after_put)) +:+ "/" +:+ name := b_data sample_body]> (view s)
    /\ len (b_data sample_body) = ContentLength put_new /\ ContentLength put_new <= maxBytes gw
    /\ Std_decode (header put_new "Content-MD5") = Some want /\ md5 (bytes (b_data sample_body)) = want.
Proof.
  apply (put_acknowledged _ _ _ _ _ _ _ _ _ _ _ _ after_put_eq); [by vm_compute|by vm_compute|by vm_compute].
Defined.

(** The world in which sending an object breaks off after [n] bytes. *)
Definition cut_off (n : nat) : context env :=
  mkContext env sample_now sample_now sample_now sample_now sample_now sample_now
    (fun akid => lookupDeviceKey akid key_table)
    (fun agent => Ok 1) (calm 8 "H") (calm 8 "T2") (Some n).

Definition after_get : recorder * LogEntry * gstate local :=
  ServeHTTP id clear_box [] exact_q gw (cut_off 2) get_p01 no_body st0.

Lemma after_get_eq :
  ServeHTTP id clear_box [] exact_q gw (cut_off 2) get_p01 no_body st0
  = (fst (fst after_get), snd (fst after_get), snd after_get).
Proof. apply triple_eta. Qed.

Lemma get_p01_asks : asks (header get_p01 "Range") (Between 1 3).
Proof. change (header get_p01 "Range") with ("bytes=" +:+ FormatInt 1 +:+ "-" +:+ FormatInt 3). by constructor. Qed.

(** The bytes 1 to 3 of "hello", of which the client gets the first two when
    the connection breaks there. *)
Lemma get_served_witness :
  exists name target s full,
    let lo := first_byte (Between 1 3) (len full) in
    let hi := past_last (Between 1 3) (len full) in
    let partial := is_part (Between 1 3) && (lo <? hi) in
    snd (split_path (Path get_p01)) = DeviceID (snd (fst after_get)) +:+ "/" +:+ name
    /\ storeFor (cut_off 2) (DeviceID (snd (fst after_get))) = Ok target /\ stores st0 !! target = Some s
    /\ stores (snd after_get) = stores st0
    /\ view s !! (DeviceID (snd (fst after_get)) +:+ "/" +:+ name) = Some full
    /\ 0 <= lo <= hi /\ hi <= len full
    /\ r_body (fst (fst after_get)) = String.substring 0 2 (bytes_at lo hi full)
    /\ Bytes (snd (fst after_get)) = len (r_body (fst (fst after_get)))
    /\ r_header (fst (fst after_get)) !! "Content-Length" = Some (FormatInt (hi - lo))
    /\ r_status (fst (fst after_get)) = (if partial then 206 else 200)
    /\ r_header (fst (fst after_get)) !! "Content-Range"
       = if partial then Some ("bytes " +:+ FormatInt lo +:+ "-" +:+ FormatInt (hi - 1) +:+ "/" +:+ FormatInt (len full))
         else None.
Proof.
  apply (get_served _ _ _ _ _ _ _ _ _ _ _ _ _ after_get_eq); [by vm_compute|by vm_compute|by vm_compute|].
  apply get_p01_asks.
Defined.

Example get_cut_off : r_body (fst (fst after_get)) = "el" /\ r_header (fst (fst after_get)) !! "Content-Range" = Some "bytes 1-3/5".
Proof. vm_compute. repeat split. Qed.

(** The read-only key tries to write. *)
Definition put_readonly : Request := signed_by "AKIDR" "r3ad" (put_request "/warphold/dev1/p02").
Definition after_readonly : recorder * LogEntry * gstate local := run1 put_readonly sample_body st0.

Lemma read_only_changes_nothing_witness :
  exists s, stores st0 !! 1 = Some s /\ view (default sample_local (stores (snd after_readonly) !! 1)) = view s.
Proof.
  refine (read_only_changes_nothing id clear_box [] exact_q gw (world "T2") put_readonly sample_body st0
    (fst (fst after_readonly)) (snd (fst after_readonly)) (snd after_readonly) "AKIDR" "dev1" "dev1/"
    (g_keys (snd after_readonly)) (triple_eta _) _ 1 _ _); by vm_compute.
Defined.

(** A signature under the wrong secret; and a key that was disabled. *)
Definition put_forged : Request := signed_by "AKID1" "wrong" (put_request "/warphold/dev1/p02").
Definition after_forged : recorder * LogEntry * gstate local := run1 put_forged sample_body st0.

Lemma unauthenticated_refused_witness :
  r_status (fst (fst after_forged)) = 403
  /\ stores (snd after_forged) = stores st0.
Proof.
  split; [by vm_compute|].
  apply (unauthenticated_refused id clear_box [] exact_q gw (world "T2") put_forged sample_body st0
    (fst (fst after_forged)) (snd (fst after_forged)) (snd after_forged) (triple_eta _)).
  intros akid id' k' Ha.
  assert (is_ok (fst (Verify id put_forged (sign_region gw put_forged (snd (split_path (Path put_forged))))
    "s3" (look clear_box [] (world "T2")) (t_verify (world "T2")) (g_keys st0, None))) = false) as Hv
    by by vm_compute.
  unfold authenticated in Ha. rewrite Ha in Hv. discriminate Hv.
Defined.

Definition disabled_world : context env :=
  mkContext env sample_now sample_now sample_now sample_now sample_now sample_now
    (fun akid => lookupDeviceKey akid (snd (DisableDeviceKeysForAgent "dev1" 0 key_table)))
    (fun agent => Ok 1) (calm 8 "H") (calm 8 "T2") None.

Definition after_disabled : recorder * LogEntry * gstate local :=
  ServeHTTP id clear_box [] exact_q gw disabled_world put_new sample_body st0.

Lemma disabled_key_refused_witness :
  400 <= r_status (fst (fst after_disabled)) <= 599
  /\ DeviceID (snd (fst after_disabled)) = "" /\ stores (snd after_disabled) = stores st0.
Proof.
  apply (disabled_key_refused id clear_box [] exact_q gw disabled_world put_new sample_body st0
    (fst (fst after_disabled)) (snd (fst after_disabled)) (snd after_disabled) "AKID1" ErrKeyNotFound
    (triple_eta _)).
  - intros k scope signed sig Hp.
    assert (match parseAuthorization (header put_new "Authorization") with
            | Ok (k, _, _, _) => String.eqb k "AKID1" | Err _ => false end = true) as Hk by by vm_compute.
    rewrite Hp in Hk. by apply String.eqb_eq in Hk.
  - by vm_compute.
  - by vm_compute.
Defined.

Definition after_list : recorder * LogEntry * gstate local := run1 list_all no_body st0.
Definition listed : listBucketResult :=
  match r_doc (fst (fst after_list)) with
  | Some (DocList l) => l
  | _ => mkListResult "" "" "" "" "" 0 0 "" "" false []
  end.

Lemma list_confined_witness :
  (oe_Key <$> l_Contents listed) = ["dev1/p01"]
  /\ stores (snd after_list) = stores st0.
Proof.
  split; [by vm_compute|].
  apply (list_confined id clear_box [] exact_q gw (world "T2") list_all no_body st0
    (fst (fst after_list)) (snd (fst after_list)) (snd after_list) listed (triple_eta _));
    by vm_compute.
Defined.

Lemma token_bound_to_device_witness :
  decodeToken (encodeToken "dev1/" "dev1/p01") "dev2/" = Err ErrBadKey.
Proof.
  apply (token_bound_to_device "dev1" "dev2" "dev1/p01"); [by vm_compute|by vm_compute|done].
Defined.
