(* ===== verification/Retention.v ===== *)
(** * Retention

    [snapshot/policy/retention_policy.go]: why a snapshot is kept;
    [snapshot/policy/expire.go]: which ones are deleted; and what they use of
    [snapshot/manifest.go] and [snapshot/policy/policy_merge.go].  This is the
    one place where the program decides to destroy backups. *)

From S2P Require Import Prelude GoStrings GoText GoTime.
From Stdlib Require Import Ascii.
Open Scope go_scope.

(** ** Manifests *)

Record SourceInfo := mkSourceInfo { Host : string; UserName : string; SourcePath : string }.

#[export] Instance SourceInfo_eq_dec : EqDecision SourceInfo.
Proof. solve_decision. Defined.

Definition SourceInfo_String (si : SourceInfo) : string :=
  if String.eqb (Host si) "" && String.eqb (SourcePath si) "" && String.eqb (UserName si) "" then "(global)"
  else if String.eqb (SourcePath si) "" then UserName si +:+ "@" +:+ Host si
  else UserName si +:+ "@" +:+ Host si +:+ ":" +:+ SourcePath si.

(** The fields of a snapshot manifest the policies read or write.  Times are
    [fs.UTCTimestamp]s: nanoseconds since the epoch, 64 bits wide. *)
Record Manifest := mkManifest {
  ID : string;
  Source : SourceInfo;
  StartTime : Z;
  EndTime : Z;
  IncompleteReason : string;
  RetentionReasons : list string;
  Pins : list string
}.

#[export] Instance Manifest_eq_dec : EqDecision Manifest.
Proof. solve_decision. Defined.

Definition set_reasons (m : Manifest) (reasons : list string) : Manifest :=
  mkManifest (ID m) (Source m) (StartTime m) (EndTime m) (IncompleteReason m) reasons (Pins m).

Definition set_pins (m : Manifest) (pins : list string) : Manifest :=
  mkManifest (ID m) (Source m) (StartTime m) (EndTime m) (IncompleteReason m) (RetentionReasons m) pins.

Definition complete (m : Manifest) : bool := String.eqb (IncompleteReason m) "".

(** [UpdatePins]: the set of pins with some added and some removed, in order,
    and whether anything changed. *)
Definition UpdatePins (add remove : list string) (m : Manifest) : bool * Manifest :=
  let pins0 : gset string := list_to_set (Pins m) in
  let '(pins1, changed1) :=
    foldl (fun '(pins, changed) r =>
             if bool_decide (r ∈ pins) then (pins, changed) else ({[r]} ∪ pins, true))
          (pins0, false) add in
  let '(pins2, changed2) :=
    foldl (fun '(pins, changed) r =>
             if bool_decide (r ∈ pins) then (pins ∖ {[r]}, true) else (pins, changed))
          (pins1, changed1) remove in
  (changed2, set_pins m (sort_strings (elements pins2))).

(** ** Policies *)

(** [*OptionalInt] is [option Z]. *)
Definition OrDefault (o : option Z) (d : Z) : Z := default d o.

Record RetentionPolicy := mkRetentionPolicy {
  KeepLatest : option Z;
  KeepHourly : option Z;
  KeepDaily : option Z;
  KeepWeekly : option Z;
  KeepMonthly : option Z;
  KeepAnnual : option Z;
  IgnoreIdenticalSnapshots : option bool
}.

Definition emptyRetentionPolicy : RetentionPolicy :=
  mkRetentionPolicy None None None None None None None.

Definition defaultRetentionPolicy : RetentionPolicy :=
  mkRetentionPolicy (Some 10) (Some 48) (Some 7) (Some 4) (Some 24) (Some 3) (Some false).

(** Which source's policy gave each setting. *)
Record RetentionPolicyDefinition := mkDefinition {
  d_KeepLatest : SourceInfo; d_KeepHourly : SourceInfo; d_KeepDaily : SourceInfo;
  d_KeepWeekly : SourceInfo; d_KeepMonthly : SourceInfo; d_KeepAnnual : SourceInfo;
  d_IgnoreIdenticalSnapshots : SourceInfo
}.

(** [mergeOptionalInt] and [mergeOptionalBool] *)
Definition mergeOptional {A} (target : option A) (src : option A) (def si : SourceInfo)
    : option A * SourceInfo :=
  match target, src with
  | None, Some v => (Some v, si)
  | _, _ => (target, def)
  end.

Definition Merge (r src : RetentionPolicy) (def : RetentionPolicyDefinition) (si : SourceInfo)
    : RetentionPolicy * RetentionPolicyDefinition :=
  let '(latest, dl) := mergeOptional (KeepLatest r) (KeepLatest src) (d_KeepLatest def) si in
  let '(hourly, dh) := mergeOptional (KeepHourly r) (KeepHourly src) (d_KeepHourly def) si in
  let '(daily, dd) := mergeOptional (KeepDaily r) (KeepDaily src) (d_KeepDaily def) si in
  let '(weekly, dw) := mergeOptional (KeepWeekly r) (KeepWeekly src) (d_KeepWeekly def) si in
  let '(monthly, dm) := mergeOptional (KeepMonthly r) (KeepMonthly src) (d_KeepMonthly def) si in
  let '(annual, da) := mergeOptional (KeepAnnual r) (KeepAnnual src) (d_KeepAnnual def) si in
  let '(ignore, di) := mergeOptional (IgnoreIdenticalSnapshots r) (IgnoreIdenticalSnapshots src)
                         (d_IgnoreIdenticalSnapshots def) si in
  (mkRetentionPolicy latest hourly daily weekly monthly annual ignore,
   mkDefinition dl dh dd dw dm da di).

(** A stored policy, as far as retention goes. *)
Record Policy := mkPolicy { Target : SourceInfo; p_Retention : RetentionPolicy; NoParent : bool }.

Definition GlobalPolicySourceInfo : SourceInfo := mkSourceInfo "" "" "".

Definition emptyDefinition : RetentionPolicyDefinition :=
  let g := GlobalPolicySourceInfo in mkDefinition g g g g g g g.

(** The retention part of [MergePolicies]: most specific first, up to a policy
    with no parent, then the defaults. *)
Fixpoint merge_retention (policies : list Policy)
    (acc : RetentionPolicy * RetentionPolicyDefinition) : RetentionPolicy * RetentionPolicyDefinition :=
  match policies with
  | [] => Merge (fst acc) defaultRetentionPolicy (snd acc) GlobalPolicySourceInfo
  | p :: policies =>
      let acc := Merge (fst acc) (p_Retention p) (snd acc) (Target p) in
      if NoParent p then acc else merge_retention policies acc
  end.

Definition MergePolicies (policies : list Policy) : RetentionPolicy * RetentionPolicyDefinition :=
  merge_retention policies (emptyRetentionPolicy, emptyDefinition).

(** [EffectiveKeepLatest]: when every setting is zero, keep everything. *)
Definition EffectiveKeepLatest (r : RetentionPolicy) : option Z :=
  if wrap64 (OrDefault (KeepLatest r) 0 + OrDefault (KeepHourly r) 0 + OrDefault (KeepDaily r) 0
             + OrDefault (KeepWeekly r) 0 + OrDefault (KeepMonthly r) 0 + OrDefault (KeepAnnual r) 0) =? 0
  then Some int64_max
  else KeepLatest r.

(** ** Retention tags *)

(** Around the last occurrence of a byte. *)
Fixpoint cut_last (s : string) (c : ascii) : option (string * string) :=
  match s with
  | EmptyString => None
  | String d t =>
      match cut_last t c with
      | Some (p, q) => Some (String d p, q)
      | None => if Ascii.eqb d c then Some ("", t) else None
      end
  end.

Definition prefixSuffix (s : string) : string * string := default (s, "") (cut_last s "-"%char).

Definition retentionPrefixSortValue (prefix : string) : Z :=
  default 0 ((list_to_map [("latest", 1); ("hourly", 2); ("daily", 3); ("weekly", 4);
                           ("monthly", 5); ("annual", 6)] : gmap string Z) !! prefix).

(** The order of [SortRetentionTags]. *)
Definition tag_less (t1 t2 : string) : bool :=
  let '(p1, s1) := prefixSuffix t1 in
  let '(p2, s2) := prefixSuffix t2 in
  let '(l, r) := (retentionPrefixSortValue p1, retentionPrefixSortValue p2) in
  if negb (l =? r) then l <? r
  else if negb (String.eqb p1 p2) then slt p1 p2
  else slt s1 s2.

Definition tag_le (t1 t2 : string) : Prop := tag_less t2 t1 = false.

#[export] Instance tag_le_dec : RelDecision tag_le.
Proof. intros t1 t2. unfold tag_le. apply _. Defined.

Definition SortRetentionTags : list string -> list string := merge_sort tag_le.

(** ** Reasons *)

Definition retainIncompleteSnapshotsYoungerThan : Z := 4 * Hour.
Definition retainIncompleteSnapshotMinimumCount : Z := 3.

Record cutoffTimes := mkCutoff {
  c_annual : Z; c_monthly : Z; c_daily : Z; c_hourly : Z; c_weekly : Z
}.

(** Subtracting whole units of the calendar; the durations wrap at 64 bits as
    Go's integers do. *)
Definition yearsAgo (loc : Location) (base n : Z) : Z := AddDate loc base (wrap64 (- n)) 0 0.
Definition monthsAgo (loc : Location) (base n : Z) : Z := AddDate loc base 0 (wrap64 (- n)) 0.
Definition daysAgo (loc : Location) (base n : Z) : Z := AddDate loc base 0 0 (wrap64 (- n)).
Definition weeksAgo (loc : Location) (base n : Z) : Z := AddDate loc base 0 0 (wrap64 (- n * 7)).
Definition hoursAgo (loc : Location) (base n : Z) : Z := base + wrap64 (wrap64 (- n) * Hour).

(** [StartTime.Format] with the layouts of the period ids; the years of a
    64-bit timestamp have four digits. *)
Definition format_year (t : Z) : string := pad_left 4 (FormatInt (c_year (date_of t))).
Definition format_month (t : Z) : string :=
  format_year t +:+ "-" +:+ pad_left 2 (FormatInt (c_month (date_of t))).
Definition format_day (t : Z) : string :=
  format_month t +:+ "-" +:+ pad_left 2 (FormatInt (c_day (date_of t))).
Definition format_hour (t : Z) : string :=
  format_day t +:+ " " +:+ pad_left 2 (FormatInt (t `mod` Day / Hour)).
(** [fmt.Sprintf("%04v-%02v", yyyy, wk)] *)
Definition format_week (loc : Location) (t : Z) : string :=
  let '(yyyy, wk) := ISOWeek loc t in
  pad_left 4 (FormatInt yyyy) +:+ "-" +:+ pad_left 2 (FormatInt wk).

(** One row of the table of [getRetentionReasons]. *)
Record period := mkPeriod {
  cutoffTime : Z; timePeriodID : string; timePeriodType : string; period_max : option Z
}.

Definition cases (loc : Location) (r : RetentionPolicy) (i : Z) (s : Manifest) (cutoff : cutoffTimes)
    : list period :=
  let t := StartTime s in
  [ mkPeriod zero_time (FormatInt i) "latest" (EffectiveKeepLatest r);
    mkPeriod (c_annual cutoff) (format_year t) "annual" (KeepAnnual r);
    mkPeriod (c_monthly cutoff) (format_month t) "monthly" (KeepMonthly r);
    mkPeriod (c_weekly cutoff) (format_week loc t) "weekly" (KeepWeekly r);
    mkPeriod (c_daily cutoff) (format_day t) "daily" (KeepDaily r);
    mkPeriod (c_hourly cutoff) (format_hour t) "hourly" (KeepHourly r) ].

(** The maps the reasons of earlier snapshots were recorded in. *)
Record tally := mkTally { ids : gset string; idCounters : gmap string Z }.

Definition counter (t : tally) (typ : string) : Z := default 0 (idCounters t !! typ).

(** The body of the loop over the table: whether the row gives a reason. *)
Definition keep_case (start : Z) (c : period) (t : tally) : option string * tally :=
  match period_max c with
  | None => (None, t)
  | Some max =>
      if Before start (cutoffTime c) then (None, t)
      else if bool_decide (timePeriodID c ∈ ids t) then (None, t)
      else if counter t (timePeriodType c) <? max then
        let n := counter t (timePeriodType c) + 1 in
        (Some (timePeriodType c +:+ "-" +:+ FormatInt n),
         mkTally ({[timePeriodID c]} ∪ ids t) (<[timePeriodType c := n]> (idCounters t)))
      else (None, t)
  end.

Fixpoint keep_cases (start : Z) (cs : list period) (t : tally) : list string * tally :=
  match cs with
  | [] => ([], t)
  | c :: cs =>
      let '(reason, t) := keep_case start c t in
      let '(reasons, t) := keep_cases start cs t in
      (option_list reason ++ reasons, t)
  end.

Definition getRetentionReasons (loc : Location) (r : RetentionPolicy) (i : Z) (s : Manifest)
    (cutoff : cutoffTimes) (t : tally) : list string * tally :=
  if negb (complete s) then ([], t)
  else
    let '(keepReasons, t) := keep_cases (StartTime s) (cases loc r i s cutoff) t in
    (SortRetentionTags keepReasons, t).

(** A manifest is reached through a pointer: its place in the slice. *)
Abbreviation pointed := (nat * Manifest)%type.

(** The order of [SortByTime(manifests, true)]: later start first, then later
    end.  sort.Slice leaves the order of equal elements open. *)
Definition newer (p q : pointed) : bool :=
  (StartTime (snd q) <? StartTime (snd p))
  || ((StartTime (snd p) =? StartTime (snd q)) && (EndTime (snd q) <? EndTime (snd p))).

Definition newest_first (p q : pointed) : Prop := newer q p = false.

#[export] Instance newest_first_dec : RelDecision newest_first.
Proof. intros p q. unfold newest_first. apply _. Defined.

Class TimeSorter (sort : list pointed -> list pointed) : Prop := {
  sort_perm l : sort l ≡ₚ l;
  sort_sorted l : StronglySorted newest_first (sort l)
}.

Definition stable_sort : list pointed -> list pointed := merge_sort newest_first.

Fixpoint latest_start (start0 : Z) (ms : list Manifest) : Z :=
  match ms with
  | [] => start0
  | m :: ms => latest_start (if After (StartTime m) start0 then StartTime m else start0) ms
  end.

(** The cutoffs count back from the newest complete snapshot; a setting that is
    absent gets a cutoff a year past it.  Go's zero time is in UTC. *)
Definition cutoffs (zone : Location) (r : RetentionPolicy) (manifests : list Manifest) : cutoffTimes :=
  let maxCompleteStartTime := latest_start zero_time (filter (fun m => complete m = true) manifests) in
  let loc := if IsZero maxCompleteStartTime then UTC else zone in
  let maxTime := maxCompleteStartTime + 365 * 24 * Hour in
  let cutoffTime (setting : option Z) (add : Location -> Z -> Z -> Z) :=
    match setting with
    | Some n => add loc maxCompleteStartTime n
    | None => maxTime
    end in
  mkCutoff (cutoffTime (KeepAnnual r) yearsAgo) (cutoffTime (KeepMonthly r) monthsAgo)
    (cutoffTime (KeepDaily r) daysAgo) (cutoffTime (KeepHourly r) hoursAgo)
    (cutoffTime (KeepWeekly r) weeksAgo).

(** The first loop: reasons of the complete snapshots, newest first. *)
Fixpoint mark_complete (loc : Location) (r : RetentionPolicy) (cutoff : cutoffTimes) (i : Z)
    (sorted : list pointed) (t : tally) : list pointed :=
  match sorted with
  | [] => []
  | (p, s) :: sorted =>
      if complete s then
        let '(reasons, t) := getRetentionReasons loc r i s cutoff t in
        (p, set_reasons s reasons) :: mark_complete loc r cutoff (i + 1) sorted t
      else (p, set_reasons s []) :: mark_complete loc r cutoff (i + 1) sorted t
  end.

(** The second loop: the newest incomplete ones, while they are young or few,
    up to the first complete one. *)
Fixpoint mark_incomplete (maxStartTime : Z) (i : Z) (sorted : list pointed) : list pointed :=
  match sorted with
  | [] => []
  | (p, s) :: rest =>
      if complete s then sorted
      else
        let age := Sub maxStartTime (StartTime s) in
        if (age <? retainIncompleteSnapshotsYoungerThan) || (i <? retainIncompleteSnapshotMinimumCount)
        then (p, set_reasons s (RetentionReasons s ++ ["incomplete"])) :: mark_incomplete maxStartTime (i + 1) rest
        else sorted
  end.

(** [*p] after the writes. *)
Definition write_back (manifests : list Manifest) (written : list pointed) : list Manifest :=
  imap (fun p m => default m ((list_to_map written : gmap nat Manifest) !! p)) manifests.

Definition no_tally : tally := mkTally ∅ ∅.

(** [repo.RepositoryWriter], as far as expiry uses it, over repository states
    [S]; a repository client also has the server's own expiry. *)
Record RepositoryWriter (E S : Type) := mkRepositoryWriter {
  ClientUsername : string;
  ClientHostname : string;
  RemoteRetentionPolicy : option (string -> bool -> S -> list string * option E * S);
  ListSnapshots : SourceInfo -> S -> result E (list Manifest);
  GetPolicyHierarchy : SourceInfo -> S -> result E (list Policy);
  DeleteManifest : string -> S -> option E * S
}.
Arguments ClientUsername {E S}.
Arguments ClientHostname {E S}.
Arguments RemoteRetentionPolicy {E S}.
Arguments ListSnapshots {E S}.
Arguments GetPolicyHierarchy {E S}.
Arguments DeleteManifest {E S}.

Section compute.
Context (sort : list pointed -> list pointed) (loc : Location).

Definition ComputeRetentionReasons (r : RetentionPolicy) (manifests : list Manifest) : list Manifest :=
  match manifests with
  | [] => []
  | _ =>
      let maxStartTime := latest_start zero_time manifests in
      let sorted := sort (imap pair manifests) in
      let marked := mark_complete loc r (cutoffs loc r manifests) 0 sorted no_tally in
      write_back manifests (mark_incomplete maxStartTime 0 marked)
  end.

(** [GroupBySource], in the order of the groups' names. *)
Fixpoint group_add (m : Manifest) (groups : list (list Manifest)) : list (list Manifest) :=
  match groups with
  | [] => [[m]]
  | g :: groups =>
      match g with
      | h :: _ => if decide (Source h = Source m) then (g ++ [m]) :: groups else g :: group_add m groups
      | [] => g :: group_add m groups
      end
  end.

Definition group_name (g : list Manifest) : string :=
  match g with h :: _ => SourceInfo_String (Source h) | [] => "" end.

Definition group_le (g h : list Manifest) : Prop := slt (group_name h) (group_name g) = false.

#[global] Instance group_le_dec : RelDecision group_le.
Proof. intros g h. unfold group_le. apply _. Defined.

Definition GroupBySource (manifests : list Manifest) : list (list Manifest) :=
  merge_sort group_le (foldl (fun groups m => group_add m groups) [] manifests).

(** *** Expiry

    The repository, as far as expiry uses it: the snapshots it lists, the
    policies that apply to a source, and the deletion of a manifest. *)
Context {E : Type}.

Definition expendable (s : Manifest) : bool :=
  match RetentionReasons s, Pins s with [], [] => true | _, _ => false end.

Definition getExpiredSnapshotsForSource (hierarchy : SourceInfo -> result E (list Policy))
    (src : SourceInfo) (snapshots : list Manifest) : result E (list string) :=
  let! policies := hierarchy src in
  let pol := fst (MergePolicies policies) in
  Ok (ID <$> filter (fun s => expendable s = true) (ComputeRetentionReasons pol snapshots)).

(** One group after the other; the first policy that cannot be read ends it.
    A group is never empty, so [snapshots[0]] is there. *)
Fixpoint expire_groups (hierarchy : SourceInfo -> result E (list Policy)) (groups : list (list Manifest))
    : result E (list string) :=
  match groups with
  | [] => Ok []
  | [] :: groups => expire_groups hierarchy groups
  | ((h :: _) as g) :: groups =>
      let! td := getExpiredSnapshotsForSource hierarchy (Source h) g in
      let! rest := expire_groups hierarchy groups in
      Ok (td ++ rest)
  end.

Definition getExpiredSnapshots (hierarchy : SourceInfo -> result E (list Policy))
    (snapshots : list Manifest) : result E (list string) :=
  expire_groups hierarchy (GroupBySource snapshots).

Fixpoint delete_all {S} (rep : RepositoryWriter E S) (toDelete : list string) (s : S) : option E * S :=
  match toDelete with
  | [] => (None, s)
  | id :: toDelete =>
      match DeleteManifest rep id s with
      | (Some e, s) => (Some e, s)
      | (None, s) => delete_all rep toDelete s
      end
  end.

Definition apply_local {S} (rep : RepositoryWriter E S) (si : SourceInfo) (reallyDelete : bool) (s : S)
    : list string * option E * S :=
  match ListSnapshots rep si s with
  | Err e => ([], Some e, s)
  | Ok snapshots =>
      match getExpiredSnapshots (fun src => GetPolicyHierarchy rep src s) snapshots with
      | Err e => ([], Some e, s)
      | Ok toDelete =>
          if reallyDelete then
            let '(e, s) := delete_all rep toDelete s in (toDelete, e, s)
          else (toDelete, None, s)
      end
  end.

(** [ApplyRetentionPolicy]: a client applies the policy of its own source on
    the server. *)
Definition ApplyRetentionPolicy {S} (rep : RepositoryWriter E S) (si : SourceInfo) (reallyDelete : bool)
    (s : S) : list string * option E * S :=
  match RemoteRetentionPolicy rep with
  | Some remote =>
      if String.eqb (UserName si) (ClientUsername rep) && String.eqb (Host si) (ClientHostname rep)
      then remote (SourcePath si) reallyDelete s
      else apply_local rep si reallyDelete s
  | None => apply_local rep si reallyDelete s
  end.
End compute.

(** ** Compact forms, for display *)

(** The runs of consecutive numbers of a sorted list. *)
Fixpoint rle (runStart runEnd : Z) (numbers : list Z) : list (Z * Z) :=
  match numbers with
  | [] => [(runStart, runEnd)]
  | num :: numbers =>
      if num =? wrap64 (runEnd + 1) then rle runStart num numbers
      else (runStart, runEnd) :: rle num num numbers
  end.

Definition run_text (prefix : string) (run : Z * Z) : string :=
  if fst run =? snd run then prefix +:+ "-" +:+ FormatInt (fst run)
  else prefix +:+ "-" +:+ FormatInt (fst run) +:+ ".." +:+ FormatInt (snd run).

(** [appendRLE]; an empty list of numbers is an index out of range. *)
Definition appendRLE (out : list string) (prefix : string) (numbers : list Z) : option (list string) :=
  match merge_sort Z.le numbers with
  | [] => None
  | n :: rest => Some (out ++ (run_text prefix <$> rle n n rest))
  end.

(** Numbered reasons by prefix; the others are kept as they are. *)
Fixpoint by_prefix (reasons : list string) (acc : gmap string (list Z) * list string)
    : gmap string (list Z) * list string :=
  match reasons with
  | [] => acc
  | r :: reasons =>
      let '(prefix, suffix) := prefixSuffix r in
      by_prefix reasons
        match ParseInt suffix with
        | None => (fst acc, snd acc ++ [r])
        | Some n => (<[prefix := default [] (fst acc !! prefix) ++ [n]]> (fst acc), snd acc)
        end
  end.

Fixpoint append_runs (groups : list (string * list Z)) (out : list string) : option (list string) :=
  match groups with
  | [] => Some out
  | (prefix, v) :: groups => out ← appendRLE out prefix v; append_runs groups out
  end.

Definition CompactRetentionReasons (reasons : list string) : option (list string) :=
  let '(reasonsByPrefix, result) := by_prefix reasons (∅, []) in
  SortRetentionTags <$> append_runs (map_to_list reasonsByPrefix) result.

Definition CompactPins (pins : list string) : list string :=
  sort_strings (elements (list_to_set pins : gset string)).

(** ** Examples *)

Definition day (y m d : Z) : Z := days_of_civil (Civil y m d) * Day.

Definition at_ (id : string) (t : Z) : Manifest :=
  mkManifest id (mkSourceInfo "host" "user" "/data") t (t + Minute) "" [] [].

Definition reasons_of (r : RetentionPolicy) (ms : list Manifest) : list (list string) :=
  RetentionReasons <$> ComputeRetentionReasons stable_sort UTC r ms.

Example default_reasons :
  reasons_of defaultRetentionPolicy
    [ at_ "a" (day 2026 3 1); at_ "b" (day 2026 3 1 + Hour); at_ "c" (day 2026 3 3) ]
  = [ ["latest-3"; "hourly-3"]; ["latest-2"; "hourly-2"; "daily-2"; "weekly-2"];
      ["latest-1"; "hourly-1"; "daily-1"; "weekly-1"; "monthly-1"; "annual-1"] ]
  /\ CompactRetentionReasons ["daily-3"; "incomplete"; "daily-1"; "daily-2"; "annual-7"]
     = Some ["incomplete"; "daily-1..3"; "annual-7"].
Proof. by vm_compute. Qed.
