(* ===== verification/ExpireFacts.v ===== *)
(** * What expiry spares

    [snapshot/policy/expire.go] over a repository: whatever policies are
    stored, applying them deletes no pinned snapshot and none of the newest
    complete ones.  The last section shows two settings that keep less than
    they say. *)

From S2P Require Import Prelude GoStrings GoText GoTime Retention RetentionFacts.
Open Scope go_scope.

(** ** Groups *)

Definition head_source (g : list Manifest) : option SourceInfo := Source <$> head g.

(** Groups of one source each, the sources all different, are the partition of
    [ms] by source. *)
Definition partition_of (ms : list Manifest) (groups : list (list Manifest)) : Prop :=
  NoDup (head_source <$> groups)
  /\ (forall g, g ∈ groups -> exists src, head_source g = Some src /\ g = filter (fun q => Source q = src) ms)
  /\ forall q, q ∈ ms -> Some (Source q) ∈ (head_source <$> groups).

Lemma group_add_cases m groups :
  ((Some (Source m) ∉ (head_source <$> groups)) /\ group_add m groups = groups ++ [[m]])
  \/ exists a g b, groups = a ++ g :: b /\ head_source g = Some (Source m)
                   /\ group_add m groups = a ++ (g ++ [m]) :: b.
Proof.
  induction groups as [|g groups IH]; [left; split; [apply not_elem_of_nil|done]|].
  assert (head_source g <> Some (Source m) -> group_add m (g :: groups) = g :: group_add m groups ->
          ((Some (Source m) ∉ (head_source <$> g :: groups)) /\ group_add m (g :: groups) = (g :: groups) ++ [[m]])
          \/ exists a g' b, g :: groups = a ++ g' :: b /\ head_source g' = Some (Source m)
                   /\ group_add m (g :: groups) = a ++ (g' ++ [m]) :: b) as Hskip.
  { intros Hne ->. destruct IH as [[Hn ->]|(a & g' & b & -> & Hg & ->)].
    - left. split; [|done]. rewrite fmap_cons, not_elem_of_cons. split; [done|exact Hn].
    - right. by exists (g :: a), g', b. }
  destruct g as [|h t]; [by apply Hskip|]. cbn [group_add] in *.
  destruct (decide (Source h = Source m)) as [He|He].
  - right. exists [], (h :: t), groups. split_and!; [done| |done]. cbn. by rewrite He.
  - apply Hskip; [|done]. cbn. congruence.
Qed.

Lemma head_source_app g m : g <> [] -> head_source (g ++ [m]) = head_source g.
Proof. by destruct g. Qed.

Lemma group_add_partition ms m groups :
  partition_of ms groups -> partition_of (ms ++ [m]) (group_add m groups).
Proof.
  intros (Hnd & Hg & Hq). unfold partition_of.
  assert (forall src, filter (fun q => Source q = src) (ms ++ [m])
                      = filter (fun q => Source q = src) ms ++ if decide (Source m = src) then [m] else []) as Hf.
  { intros src. by rewrite filter_app, filter_cons, filter_nil. }
  destruct (group_add_cases m groups) as [[Hn ->]|(a & g & b & -> & Hsrc & ->)].
  - rewrite fmap_app. split_and!.
    + apply NoDup_app. split_and!; [done| |apply NoDup_singleton].
      intros x Hx Hx'%list_elem_of_singleton. cbn in Hx'. subst. done.
    + intros g [Hin|Hin]%elem_of_app.
      * destruct (Hg g Hin) as (src & H1 & H2). exists src. split; [done|]. rewrite Hf, decide_False, app_nil_r by
          (intros <-; apply Hn; rewrite <- H1; by apply list_elem_of_fmap_2). done.
      * apply list_elem_of_singleton in Hin as ->. exists (Source m). split; [done|].
        rewrite Hf, decide_True by done.
        assert (filter (fun q => Source q = Source m) ms = []) as ->; [|done].
        apply elem_of_nil_inv. intros q [He Hin]%list_elem_of_filter. apply Hn. rewrite <- He. by apply Hq.
    + intros q. rewrite !elem_of_app, list_elem_of_singleton. intros [?| ->]; [left; by apply Hq|].
      right. cbn. by rewrite list_elem_of_singleton.
  - assert (g <> []) as Hne by (by intros ->).
    rewrite fmap_app, fmap_cons in *. rewrite head_source_app by done. split_and!; [done| |].
    + apply NoDup_app in Hnd as (_ & Hab & [Hgb _]%NoDup_cons).
      assert (forall g', g' ∈ a ++ b -> head_source g' <> Some (Source m)) as Hother.
      { intros g' [Ha|Hb]%elem_of_app He; rewrite <- Hsrc in He.
        - apply (Hab (head_source g)); [rewrite <- He; by apply list_elem_of_fmap_2|by constructor].
        - apply Hgb. rewrite <- He. by apply list_elem_of_fmap_2. }
      intros g' Hin. rewrite elem_of_app, elem_of_cons in Hin.
      destruct (decide (g' ∈ a ++ b)) as [Hab'|Hab'].
      * destruct (Hg g') as (src & H1 & H2); [rewrite elem_of_app, elem_of_cons; apply elem_of_app in Hab'; tauto|].
        exists src. split; [done|]. rewrite Hf, decide_False, app_nil_r; [done|].
        intros <-. by apply (Hother g').
      * assert (g' = g ++ [m]) as -> by (rewrite elem_of_app in Hab'; tauto).
        destruct (Hg g) as (src & H1 & H2); [rewrite elem_of_app, elem_of_cons; tauto|].
        rewrite Hsrc in H1. injection H1 as <-. exists (Source m). rewrite head_source_app by done. split; [done|].
        by rewrite Hf, decide_True, <- H2.
    + intros q [Hin|Hin]%elem_of_app; [by apply Hq|]. apply list_elem_of_singleton in Hin as ->.
      rewrite Hsrc, elem_of_app, elem_of_cons. tauto.
Qed.

Lemma GroupBySource_partition ms g :
  g ∈ GroupBySource ms ->
  exists src, head_source g = Some src /\ g = filter (fun q => Source q = src) ms.
Proof.
  unfold GroupBySource. rewrite merge_sort_Permutation.
  assert (partition_of ms (foldl (fun groups m => group_add m groups) [] ms)) as (_ & H & _); [|apply H].
  induction ms as [|m ms IH] using rev_ind.
  - split_and!; [constructor|by intros ? ?%elem_of_nil|by intros ? ?%elem_of_nil].
  - rewrite foldl_snoc. by apply group_add_partition.
Qed.

(** ** Expiry *)

(** What is promised of a repository: listings show stored manifests under
    their own ids, and a deletion touches no other id. *)
Class RepositoryLaws {E S} (rep : RepositoryWriter E S) (stored : S -> gmap string Manifest) : Prop := {
  list_stored si s l :
    ListSnapshots rep si s = Ok l -> NoDup (ID <$> l) /\ forall m, m ∈ l -> stored s !! ID m = Some m;
  delete_one id s e s' :
    DeleteManifest rep id s = (e, s') -> forall id', id' <> id -> stored s' !! id' = stored s !! id'
}.

Lemma Forall_filter_keep {A} (P Q : A -> Prop) `{!forall x, Decision (Q x)} l : Forall P l -> Forall P (filter Q l).
Proof. rewrite !Forall_forall. intros Hl x [_ Hx]%list_elem_of_filter. by apply Hl. Qed.

Section expire.
Context (sort : list pointed -> list pointed) `{!TimeSorter sort} (loc : Location).
Context {E S : Type} (rep : RepositoryWriter E S) (stored : S -> gmap string Manifest)
  `{!RepositoryLaws rep stored}.

(** Reasons are all that is written. *)
Lemma compute_only_reasons r ms p m' :
  ComputeRetentionReasons sort loc r ms !! p = Some m' ->
  exists m x, ms !! p = Some m /\ m' = set_reasons m x.
Proof.
  intros Hp'. apply compute_lookup in Hp'; [|done]. apply list_elem_of_lookup in Hp' as [k Hk].
  assert (exists m, by_time sort ms !! k = Some (p, m)) as [m Hm].
  { pose proof (f_equal (.!! k) (written_fst sort loc r ms)) as Hf.
    rewrite !list_lookup_fmap, Hk in Hf. cbn in Hf.
    destruct (by_time sort ms !! k) as [[p' m]|]; cbn in Hf; simplify_eq. by exists m. }
  destruct (mark_complete_lookup loc r (cutoffs loc r ms) _ 0 no_tally _ _ _ Hm) as (x & Hx & _).
  fold (marked sort loc r ms) in Hx. unfold written in Hk.
  assert (ms !! p = Some m) as Hp by (eapply by_time_elem, list_elem_of_lookup_2; done).
  destruct (mark_incomplete_only (latest_start zero_time ms) _ 0 _ _ _ Hx) as [y Hy].
  rewrite Hy in Hk. simplify_eq. by exists m, y.
Qed.

(** Where an expired id comes from. *)
Lemma expired_origin hierarchy l td id :
  getExpiredSnapshots (E := E) sort loc hierarchy l = Ok td -> id ∈ td ->
  exists src policies p m m',
    let g := filter (fun q => Source q = src) l in
    hierarchy src = Ok policies /\ g !! p = Some m /\ ID m = id
    /\ ComputeRetentionReasons sort loc (fst (MergePolicies policies)) g !! p = Some m'
    /\ Pins m' = Pins m /\ expendable m' = true.
Proof.
  unfold getExpiredSnapshots. intros H Hid.
  assert (forall g, g ∈ GroupBySource l -> exists src, head_source g = Some src
            /\ g = filter (fun q => Source q = src) l) as Hgroups by apply GroupBySource_partition.
  revert td H Hid. induction (GroupBySource l) as [|g groups IH]; intros td H Hid.
  { cbn in H. simplify_eq. by apply elem_of_nil in Hid. }
  destruct (Hgroups g ltac:(by constructor)) as (src & Hsrc & Hg).
  destruct g as [|h t]; [done|]. cbn in Hsrc. simplify_eq. cbn [expire_groups] in H.
  unfold getExpiredSnapshotsForSource in H. destruct (hierarchy (Source h)) as [policies|] eqn:Hpol; [|done].
  remember (ComputeRetentionReasons sort loc (fst (MergePolicies policies)) (h :: t)) as out eqn:Hout.
  destruct (expire_groups sort loc hierarchy groups) as [rest|]; [|done]. injection H as <-.
  rewrite elem_of_app in Hid. destruct Hid as [Hid|Hid].
  - apply list_elem_of_fmap in Hid as (m' & -> & [Hex Hin]%list_elem_of_filter).
    apply list_elem_of_lookup in Hin as [p Hp].
    destruct (compute_only_reasons (fst (MergePolicies policies)) (h :: t) p m') as (m & x & Hm & ->);
      [by rewrite <- Hout|].
    exists (Source h), policies, p, m, (set_reasons m x). cbv zeta. rewrite <- Hg, <- Hout. done.
  - apply (IH ltac:(intros g' Hg'; apply Hgroups; by constructor) rest); done.
Qed.

Lemma delete_all_others toDelete s e s' id :
  delete_all rep toDelete s = (e, s') -> id ∉ toDelete -> stored s' !! id = stored s !! id.
Proof.
  revert s. induction toDelete as [|d toDelete IH]; intros s H Hid; [by simplify_eq/=|].
  cbn [delete_all] in H. apply not_elem_of_cons in Hid as [Hd Hid].
  destruct (DeleteManifest rep d s) as [[e'|] s1] eqn:Hdel.
  - simplify_eq. by eapply delete_one.
  - rewrite (IH s1 H Hid). by eapply delete_one.
Qed.

(** The snapshots expiry must spare: the pinned ones, and the newest complete
    ones of their source, as many as the policy in force for it says. *)
Definition spared (s : S) (l : list Manifest) (m : Manifest) : Prop :=
  Pins m <> []
  \/ exists policies n,
       GetPolicyHierarchy rep (Source m) s = Ok policies
       /\ EffectiveKeepLatest (fst (MergePolicies policies)) = Some n
       /\ among_newest n m (filter (fun q => Source q = Source m) l).

(** The policy is applied here and not on the server. *)
Definition applied_here (si : SourceInfo) : Prop :=
  RemoteRetentionPolicy rep = None \/ UserName si <> ClientUsername rep \/ Host si <> ClientHostname rep.

Lemma ApplyRetentionPolicy_here si reallyDelete s :
  applied_here si -> ApplyRetentionPolicy sort loc rep si reallyDelete s = apply_local sort loc rep si reallyDelete s.
Proof.
  unfold applied_here, ApplyRetentionPolicy. destruct (RemoteRetentionPolicy rep); [|done].
  intros [?|[?%String.eqb_neq|?%String.eqb_neq]]; [done|..]; by destruct (String.eqb (UserName si) _), (String.eqb (Host si) _).
Qed.

Lemma spared_not_expired s l td m :
  civil_zone loc -> (length l <= 1000)%nat -> Forall (fun m => timestamp (StartTime m)) l ->
  NoDup (ID <$> l) -> m ∈ l -> spared s l m ->
  getExpiredSnapshots sort loc (fun src => GetPolicyHierarchy rep src s) l = Ok td -> ID m ∉ td.
Proof.
  intros Hz Hlen Hts Hnd Hm Hsp Htd Hin.
  destruct (expired_origin _ _ _ _ Htd Hin) as (src & policies & p & m1 & m' & Hpol & Hp & Hid & Hout & Hpins & Hex).
  assert (Source m1 = src /\ m1 ∈ l) as [<- Hm1].
  { by apply list_elem_of_lookup_2, list_elem_of_filter in Hp. }
  assert (m1 = m) as -> by (by eapply NoDup_fmap_inj_elem).
  unfold expendable in Hex. destruct (RetentionReasons m') eqn:Hr; [|done]. destruct (Pins m') eqn:Hpn; [|done].
  destruct Hsp as [Hpin|(policies' & n & Hpol' & Hn & Hnew)]; [congruence|].
  rewrite Hpol in Hpol'. injection Hpol' as <-.
  destruct (newest_kept sort loc _ _ p m n Hz (Forall_filter_keep _ _ _ Hts)
              (Nat.le_trans _ _ _ (length_filter _ l) Hlen) Hn Hp Hnew) as (m2 & Hm2 & Hne).
  rewrite Hout in Hm2. injection Hm2 as <-. by rewrite Hr in Hne.
Qed.

(** C8.  Expiry spares what it must.  Whatever policies are stored and
    whatever deletion fails half-way, applying the retention policy to a source
    of at most 1000 snapshots, on this side and not by a repository server,
    leaves every pinned snapshot and every one of the newest complete snapshots
    (as many as the policy keeps) in place, touches nothing it did not list,
    and as a dry run changes nothing.  Beyond 1000 snapshots the number of a
    snapshot can read as the id of a year, which the annual setting may have taken. *)
Theorem expiry_spares si reallyDelete s l td e s' :
  civil_zone loc -> applied_here si -> ListSnapshots rep si s = Ok l ->
  (length l <= 1000)%nat -> Forall (fun m => timestamp (StartTime m)) l ->
  ApplyRetentionPolicy sort loc rep si reallyDelete s = (td, e, s') ->
  (reallyDelete = false -> s' = s)
  /\ (forall id, id ∉ (ID <$> l) -> stored s' !! id = stored s !! id)
  /\ forall m, m ∈ l -> spared s l m -> (ID m ∉ td) /\ stored s' !! ID m = Some m.
Proof.
  intros Hz Hhere Hl Hlen Hts. rewrite ApplyRetentionPolicy_here by done. unfold apply_local. rewrite Hl.
  destruct (list_stored si s l Hl) as [Hnd Hst]. intros Happ.
  destruct (getExpiredSnapshots _ _ _ _) as [expired|e'] eqn:Htd.
  2: { simplify_eq. split_and!; [done|done|]. intros m Hm _. split; [apply not_elem_of_nil|by apply Hst]. }
  assert (td = expired /\ forall id, id ∉ expired -> stored s' !! id = stored s !! id) as [-> Hother].
  { destruct reallyDelete; [|by simplify_eq]. destruct (delete_all rep expired s) as [e' s1] eqn:Hdel.
    simplify_eq. split; [done|]. intros id Hid. by eapply delete_all_others. }
  split_and!.
  - intros ->. by simplify_eq.
  - intros id Hid. apply Hother. intros Hin.
    destruct (expired_origin _ _ _ _ Htd Hin) as (src & ? & p & m1 & ? & _ & Hp & <- & _).
    apply Hid, list_elem_of_fmap_2. by apply list_elem_of_lookup_2, list_elem_of_filter in Hp as [_ ?].
  - intros m Hm Hsp. pose proof (spared_not_expired s l expired m Hz Hlen Hts Hnd Hm Hsp Htd) as Hn.
    split; [done|]. rewrite Hother by done. by apply Hst.
Qed.
End expire.

(** ** Instances and examples *)

#[export] Instance newest_first_trans : Transitive newest_first.
Proof. intros [? a] [? b] [? c]. unfold newest_first, newer. cbn [snd]. intros. bool_to_prop. lia. Qed.

#[export] Instance newest_first_total : Total newest_first.
Proof.
  intros [? a] [? b]. unfold newest_first, newer. cbn [snd].
  destruct (Z.lt_total (StartTime a) (StartTime b)) as [?|[?|?]];
    destruct (Z.lt_total (EndTime a) (EndTime b)) as [?|[?|?]]; lia.
Qed.

#[export] Instance stable_sort_sorts : TimeSorter stable_sort.
Proof. split; intros l; [apply merge_sort_Permutation|apply StronglySorted_merge_sort; apply _]. Qed.

(** A repository in memory: the manifests by id, and one policy for all. *)
Definition memory_list (si : SourceInfo) (s : gmap string Manifest) : list Manifest :=
  (filter (fun km : string * Manifest => ID (snd km) = fst km /\ Source (snd km) = si) (map_to_list s)).*2.

Definition memory (r : RetentionPolicy) : RepositoryWriter unit (gmap string Manifest) :=
  mkRepositoryWriter unit _ "user" "host" None
    (fun si s => Ok (memory_list si s))
    (fun si _ => Ok [mkPolicy si r true])
    (fun id s => (None, delete id s)).

#[export] Instance memory_laws r : RepositoryLaws (memory r) (fun s => s).
Proof.
  split.
  - intros si s l [= <-]. unfold memory_list. split.
    + assert (ID <$> (filter (fun km : string * Manifest => ID km.2 = km.1 /\ Source km.2 = si) (map_to_list s)).*2
              = (filter (fun km : string * Manifest => ID km.2 = km.1 /\ Source km.2 = si) (map_to_list s)).*1) as ->.
      { rewrite <- list_fmap_compose. apply list_fmap_ext. intros i km Hkm. 
        apply list_elem_of_lookup_2, list_elem_of_filter in Hkm as [[? _] _]. done. }
      eapply sublist_NoDup; [apply (NoDup_fst_map_to_list s)|]. apply fmap_sublist, sublist_filter.
    + intros m ([k m'] & -> & [[Hid _] Hin]%list_elem_of_filter)%list_elem_of_fmap. cbn in *. subst.
      by apply elem_of_map_to_list.
  - intros id s e s' [= <- <-] id' Hne. by rewrite lookup_delete_ne.
Qed.

(** *** Witnesses *)

Definition some_snapshots : list Manifest :=
  [ at_ "a" (day 2026 3 1); at_ "b" (day 2026 3 2);
    set_pins (at_ "c" (day 2026 3 3)) ["keep"];
    mkManifest "d" (mkSourceInfo "host" "user" "/data") (day 2026 3 4) (day 2026 3 4) "canceled" [] [] ].

Definition keep_one : RetentionPolicy :=
  mkRetentionPolicy (Some 1) (Some 0) (Some 0) (Some 0) (Some 0) (Some 0) None.

Lemma UTC_civil : civil_zone UTC.
Proof. intros s. by cbn. Qed.

Lemma reasons_within_quota_witness :
  exists n, 0 <= n <= Z.max 0 (default 0 (max_of defaultRetentionPolicy "daily"))
    /\ typed "daily" (concat (RetentionReasons <$> ComputeRetentionReasons stable_sort UTC defaultRetentionPolicy some_snapshots))
       ≡ₚ label "daily" <$> seqZ 1 n.
Proof.
  apply (reasons_within_quota stable_sort UTC). by apply (bool_decide_unpack _); vm_compute.
Defined.

Lemma setting_is_exact_witness :
  filter (kept_for "daily" (ComputeRetentionReasons stable_sort UTC defaultRetentionPolicy some_snapshots))
    (by_time stable_sort some_snapshots).*1
  = take 7 (heads (fun _ m => format_day (StartTime m)) (day 2026 2 24) 0 [] (by_time stable_sort some_snapshots)).
Proof.
  apply (setting_is_exact stable_sort UTC defaultRetentionPolicy some_snapshots "daily" _ _ 7).
  - apply UTC_civil.
  - by apply (bool_decide_unpack _); vm_compute.
  - by apply (bool_decide_unpack _); vm_compute.
  - right; right; left.
Defined.

Definition canceled : Manifest :=
  mkManifest "d" (mkSourceInfo "host" "user" "/data") (day 2026 3 4) (day 2026 3 4) "canceled" [] [].

Lemma incomplete_kept_while_newest_witness :
  exists m', ComputeRetentionReasons stable_sort UTC keep_one some_snapshots !! 3%nat = Some m'
    /\ (RetentionReasons m' = [] \/ RetentionReasons m' = ["incomplete"])
    /\ (RetentionReasons m' = ["incomplete"]
        <-> Forall (fun q : pointed => complete (snd q) = false) (take 0 (by_time stable_sort some_snapshots))
            /\ (latest_start zero_time some_snapshots - StartTime canceled < retainIncompleteSnapshotsYoungerThan
                \/ Z.of_nat 0 < retainIncompleteSnapshotMinimumCount)).
Proof.
  apply (incomplete_kept_while_newest stable_sort UTC keep_one some_snapshots 0 3 canceled).
  - by apply (bool_decide_unpack _); vm_compute.
  - by vm_compute.
  - done.
Defined.

Definition some_repository : gmap string Manifest := list_to_map ((fun m => (ID m, m)) <$> some_snapshots).

(** Two old snapshots are deleted; the pinned one and the incomplete one stay. *)
Lemma expiry_spares_witness :
  let '(td, e, s') := ApplyRetentionPolicy stable_sort UTC (memory keep_one)
                        (mkSourceInfo "host" "user" "/data") true some_repository in
  td = ["a"; "b"] /\ (ID canceled ∉ td) /\ s' !! "c" = some_repository !! "c".
Proof.
  pose proof (expiry_spares stable_sort UTC (memory keep_one) (fun s => s)
    (mkSourceInfo "host" "user" "/data") true some_repository
    (memory_list (mkSourceInfo "host" "user" "/data") some_repository)) as H.
  destruct (ApplyRetentionPolicy _ _ _ _ _ _) as [[td e] s'] eqn:Happ.
  destruct (H td e s' UTC_civil (or_introl eq_refl) eq_refl) as (_ & _ & Hsp).
  - by apply (bool_decide_unpack _); vm_compute.
  - by apply (bool_decide_unpack _); vm_compute.
  - exact eq_refl.
  - split; [|split].
    + by vm_compute in Happ; simplify_eq.
    + by vm_compute in Happ; simplify_eq; apply (bool_decide_unpack _); vm_compute.
    + apply (Hsp (set_pins (at_ "c" (day 2026 3 3)) ["keep"])); [|by left].
      by apply (bool_decide_unpack _); vm_compute.
Defined.

(** ** Settings that keep less than they say *)

(** An id that was taken, by whatever setting, is not given again. *)
Section taken.
Context (loc : Location) (r : RetentionPolicy) (cutoff : cutoffTimes).

(** The id a setting looks at for a snapshot. *)
Definition row_id (typ : string) (i : Z) (m : Manifest) (x : string) : Prop :=
  exists a c b, row_is loc r cutoff typ i m a c b /\ timePeriodID c = x.

Lemma keep_cases_ids_mono cs start t : ids t ⊆ ids (snd (keep_cases start cs t)).
Proof.
  revert t. induction cs as [|c cs IH]; intros t; [done|]. rewrite keep_cases_cons. cbn [snd]. etrans; [|apply IH].
  rewrite keep_case_grants. destruct (grants start c t); [|done]. cbn. set_solver.
Qed.

(** One snapshot: a setting whose id is taken gives no reason; one that gives a reason
    takes its id. *)
Lemma snapshot_ids typ i m t x : typ ∈ types -> complete m = true -> row_id typ i m x ->
  let out := getRetentionReasons loc r i m cutoff t in
  ids t ⊆ ids (snd out) /\ (x ∈ ids t -> typed typ (fst out) = []) /\ (typed typ (fst out) <> [] -> x ∈ ids (snd out)).
Proof.
  intros Ht Hc (a & c & b & (Hrow & Hty & Ha & Hb) & <-). cbv zeta. unfold getRetentionReasons. rewrite Hc. cbn [negb].
  destruct (keep_cases_row (StartTime m) a c b t typ Ht Ha Hb Hty) as [_ Hout]. cbv zeta in Hout. rewrite <- Hrow in Hout.
  pose proof (keep_cases_ids_mono (cases loc r i m cutoff) (StartTime m) t) as Hmono.
  assert (grants (StartTime m) c (snd (keep_cases (StartTime m) a t)) = true -> timePeriodID c ∈ ids (snd (keep_cases (StartTime m) (cases loc r i m cutoff) t))) as Htake.
  { intros Hg. rewrite Hrow, keep_cases_app, keep_cases_cons. cbn [snd]. apply keep_cases_ids_mono. rewrite keep_case_grants, Hg. cbn. set_solver. }
  destruct (keep_cases (StartTime m) (cases loc r i m cutoff) t) as [reasons t']. cbn [fst snd] in *. pose proof (typed_sort typ reasons) as Hp.
  split; [done|]. destruct (grants _ _ _) eqn:Hg; destruct Hout as [H1 _]; rewrite H1 in Hp.
  - split; [|by auto]. intros Hx. exfalso. unfold grants in Hg. destruct (period_max c); [|done]. bool_to_prop.
    by apply H2, keep_cases_ids_mono.
  - apply Permutation_nil_r in Hp. rewrite Hp. done.
Qed.

Lemma taken_blocks typ x sorted : typ ∈ types -> forall i t k p m p' m', x ∈ ids t -> sorted !! k = Some (p, m) -> complete m = true ->
  row_id typ (i + Z.of_nat k) m x -> mark_complete loc r cutoff i sorted t !! k = Some (p', m') -> typed typ (RetentionReasons m') = [].
Proof.
  intros Ht. induction sorted as [|[q s] sorted IH]; intros i t [|k] p m p' m' Hx Hm Hc Hrow Hout; try done; cbn [mark_complete] in Hout.
  - cbn in Hm. injection Hm as -> ->. rewrite Hc in Hout. rewrite Z.add_0_r in Hrow.
    destruct (snapshot_ids typ i m t x Ht Hc Hrow) as (_ & Hb & _). destruct (getRetentionReasons _ _ _ _ _ _) as [reasons t']. cbn [fst] in Hb.
    cbn in Hout. injection Hout as <- <-. by apply Hb.
  - cbn in Hm. replace (i + Z.of_nat (S k)) with (i + 1 + Z.of_nat k) in Hrow by lia. destruct (complete s) eqn:Hs.
    + destruct (row_exists loc r cutoff typ i s Ht) as (a & c & b & Hr & _).
      destruct (snapshot_ids typ i s t (timePeriodID c) Ht Hs) as (Hmono & _); [by exists a, c, b|].
      destruct (getRetentionReasons _ _ _ _ _ _) as [reasons t']. eapply IH; [|exact Hm|done|exact Hrow|exact Hout]. by apply Hmono.
    + eapply IH; [exact Hx|exact Hm|done|exact Hrow|exact Hout].
Qed.

Lemma first_takes typ typ' x sorted : typ ∈ types -> typ' ∈ types -> forall i t k j p m p1 m1 q n q1 n1,
  sorted !! k = Some (p, m) -> sorted !! j = Some (q, n) -> (k < j)%nat -> complete m = true -> complete n = true ->
  row_id typ (i + Z.of_nat k) m x -> row_id typ' (i + Z.of_nat j) n x ->
  mark_complete loc r cutoff i sorted t !! k = Some (p1, m1) -> typed typ (RetentionReasons m1) <> [] ->
  mark_complete loc r cutoff i sorted t !! j = Some (q1, n1) -> typed typ' (RetentionReasons n1) = [].
Proof.
  intros Ht Ht'. induction sorted as [|[q0 s] sorted IH]; intros i t k [|j] p m p1 m1 q n q1 n1 Hm Hn Hkj Cm Cn Rm Rn Om Tm On; try (done || lia).
  cbn in Hn. replace (i + Z.of_nat (S j)) with (i + 1 + Z.of_nat j) in Rn by lia. destruct k as [|k]; cbn [mark_complete] in *.
  - cbn in Hm. injection Hm as -> ->. rewrite Cm in Om, On. rewrite Z.add_0_r in Rm.
    destruct (snapshot_ids typ i m t x Ht Cm Rm) as (_ & _ & Htake). destruct (getRetentionReasons _ _ _ _ _ _) as [reasons t']. cbn [fst snd] in Htake.
    cbn in Om. injection Om as <- <-. eapply taken_blocks; [done|by apply Htake|exact Hn|done|exact Rn|exact On].
  - cbn in Hm. replace (i + Z.of_nat (S k)) with (i + 1 + Z.of_nat k) in Rm by lia. destruct (complete s).
    + destruct (getRetentionReasons _ _ _ _ _ _) as [reasons t']. eapply (IH (i + 1) t' k j); [exact Hm|exact Hn|lia|done|done|exact Rm|exact Rn|exact Om|done|exact On].
    + eapply (IH (i + 1) t k j); [exact Hm|exact Hn|lia|done|done|exact Rm|exact Rn|exact Om|done|exact On].
Qed.
End taken.

Section collide.
Context (sort : list pointed -> list pointed) `{!TimeSorter sort} (loc : Location).

Lemma kept_for_marked typ r ms k p m : typ ∈ types -> by_time sort ms !! k = Some (p, m) ->
  exists m', marked sort loc r ms !! k = Some (p, m') /\ (kept_for typ (ComputeRetentionReasons sort loc r ms) p <-> typed typ (RetentionReasons m') <> []).
Proof.
  intros Ht Hk. destruct (mark_complete_lookup loc r (cutoffs loc r ms) _ 0 no_tally _ _ _ Hk) as (x & Hx & _).
  exists (set_reasons m x). split; [exact Hx|].
  pose proof (mark_incomplete_typed typ (latest_start zero_time ms) 0 (marked sort loc r ms) Ht) as Hty. fold (written sort loc r ms) in Hty.
  apply (f_equal (fun l => l !! k)) in Hty. rewrite !list_lookup_fmap in Hty. change (mark_complete _ _ _ _ _ _) with (marked sort loc r ms) in Hx. rewrite Hx in Hty.
  destruct (written sort loc r ms !! k) as [[p' m']|] eqn:Hw; [|done]. cbn in Hty. injection Hty as -> Hty.
  apply list_elem_of_lookup_2 in Hw. apply (compute_lookup sort loc r ms p m') in Hw. cbn [RetentionReasons set_reasons] in Hty |- *. split.
  - intros (m'' & H1 & H2). rewrite Hw in H1. injection H1 as <-. unfold typed in *. congruence.
  - intros Hne. exists m'. split; [done|]. unfold typed in *. congruence.
Qed.

(** Whoever takes a period id first keeps others from it, of whatever type they
    are. *)
Lemma period_taken typ typ' x r ms i j p m q n :
  typ ∈ types -> typ' ∈ types -> by_time sort ms !! i = Some (p, m) -> by_time sort ms !! j = Some (q, n) -> (i < j)%nat ->
  complete m = true -> complete n = true ->
  row_id loc r (cutoffs loc r ms) typ (Z.of_nat i) m x -> row_id loc r (cutoffs loc r ms) typ' (Z.of_nat j) n x ->
  kept_for typ (ComputeRetentionReasons sort loc r ms) p -> ~ kept_for typ' (ComputeRetentionReasons sort loc r ms) q.
Proof.
  intros T1 T2 Hi Hj Hij Cm Cn R1 R2 Hkept Hlate.
  destruct (kept_for_marked typ r ms i p m T1 Hi) as (m1 & M1 & K1). destruct (kept_for_marked typ' r ms j q n T2 Hj) as (n1 & M2 & K2).
  apply K2 in Hlate. apply Hlate.
  eapply (first_takes loc r (cutoffs loc r ms) typ typ' x (by_time sort ms) T1 T2 0 no_tally i j);
    [exact Hi|exact Hj|done|done|done|exact R1|exact R2|exact M1|by apply K1|exact M2].
Qed.

(** The row of a type is the one at its place. *)
Ltac row_at n :=
  match goal with |- row_id ?loc ?r ?c _ ?k ?s _ =>
    let l := constr:(cases loc r k s c) in exists (take n l), (nth n l (mkPeriod 0 "" "" None)), (drop (S n) l)
  end; split; [|done]; split_and!; try done; repeat (constructor; [split; [by apply (bool_decide_unpack _); vm_compute|done]|]); constructor.

(** C40.  The ids of months and weeks collide: whatever the policy and the
    snapshots, once a snapshot is kept for its month, no older snapshot whose
    week of the year has the number of that month is kept for its week -- with
    how many weekly places ever free. *)
Theorem weekly_loses_to_monthly r ms i j p m q n :
  by_time sort ms !! i = Some (p, m) -> by_time sort ms !! j = Some (q, n) -> (i < j)%nat -> complete m = true -> complete n = true ->
  kept_for "monthly" (ComputeRetentionReasons sort loc r ms) p -> format_month (StartTime m) = format_week loc (StartTime n) ->
  ~ kept_for "weekly" (ComputeRetentionReasons sort loc r ms) q.
Proof.
  intros Hi Hj Hij Cm Cn Hkept Heq. apply (period_taken "monthly" "weekly" (format_month (StartTime m)) r ms i j p m q n); try done;
    try (apply (bool_decide_unpack _); by vm_compute); [row_at 2%nat|rewrite Heq; row_at 3%nat].
Qed.

(** The ids of the latest snapshots, which are their places in the list, collide
    with the years: with more than two thousand snapshots, the one at the place
    that is the number of a year kept before it is not kept as a latest one. *)
Lemma latest_loses_to_annual r ms i j p m q n :
  by_time sort ms !! i = Some (p, m) -> by_time sort ms !! j = Some (q, n) -> (i < j)%nat -> complete m = true -> complete n = true ->
  kept_for "annual" (ComputeRetentionReasons sort loc r ms) p -> format_year (StartTime m) = FormatInt (Z.of_nat j) ->
  ~ kept_for "latest" (ComputeRetentionReasons sort loc r ms) q.
Proof.
  intros Hi Hj Hij Cm Cn Hkept Heq. apply (period_taken "annual" "latest" (format_year (StartTime m)) r ms i j p m q n); try done;
    try (apply (bool_decide_unpack _); by vm_compute); [row_at 1%nat|rewrite Heq; row_at 0%nat].
Qed.
End collide.

(** Here the week of 2 February 2024, the fifth, is taken for the month of May:
    with room for 52 weeks only two are kept, and the February snapshot is
    expired -- as it would not be if no months were kept. *)
Definition weekly_and_monthly (weekly : option Z) (monthly : option Z) : RetentionPolicy :=
  mkRetentionPolicy None None None weekly monthly None None.

Definition three_weeks : list Manifest :=
  [at_ "may" (day 2024 5 15); at_ "february" (day 2024 2 20); at_ "groundhog" (day 2024 2 2)].

Lemma weekly_loses_to_monthly_witness :
  ~ kept_for "weekly" (ComputeRetentionReasons stable_sort UTC (weekly_and_monthly (Some 52) (Some 12)) three_weeks) 2
  /\ reasons_of (weekly_and_monthly (Some 52) (Some 12)) three_weeks = [["weekly-1"; "monthly-1"]; ["weekly-2"; "monthly-2"]; []]
  /\ reasons_of (weekly_and_monthly (Some 52) None) three_weeks = [["weekly-1"]; ["weekly-2"]; ["weekly-3"]]
  /\ getExpiredSnapshots (E := unit) stable_sort UTC
       (fun si => Ok [mkPolicy si (weekly_and_monthly (Some 52) (Some 12)) true]) three_weeks
     = Ok ["groundhog"].
Proof.
  split; [|by vm_compute].
  apply (weekly_loses_to_monthly stable_sort UTC (weekly_and_monthly (Some 52) (Some 12)) three_weeks 0 2
    0 (at_ "may" (day 2024 5 15)) 2 (at_ "groundhog" (day 2024 2 2))); try (by vm_compute); [lia|].
  exists (set_reasons (at_ "may" (day 2024 5 15)) ["weekly-1"; "monthly-1"]). by vm_compute.
Defined.

(** A large hourly count overflows: counting back 2562048 hours or more
    wraps a 64-bit duration, the cutoff lands in the future, and the setting
    keeps nothing at all; one hour less keeps everything. *)
Theorem hourly_count_overflows :
  let keep n := mkRetentionPolicy None (Some n) None None None None None in
  let ms := [at_ "a" (day 2026 3 1); at_ "b" (day 2026 3 2)] in
  reasons_of (keep 2562047) ms = [["hourly-2"]; ["hourly-1"]]
  /\ reasons_of (keep 2562048) ms = [[]; []]
  /\ getExpiredSnapshots (E := unit) stable_sort UTC (fun si => Ok [mkPolicy si (keep 2562048) true]) ms
     = Ok ["a"; "b"].
Proof. by vm_compute. Qed.
