(* ===== verification/Tokens.v ===== *)
(** * Enrolment tokens

    [fleet/store/tokens.go]: the table of enrolment tokens; and
    [fleet/enroll/token.go]: issuing and consuming them.  Consuming is three
    statements -- read, count one use, read again -- which other enrolments,
    issues and revocations interleave with. *)

From S2P Require Import Prelude GoStrings GoText Digest GoTime Db.
Open Scope go_scope.

Record Token := mkToken {
  ID : Z;
  Hash : list Z;
  GroupID : Z;
  ExpiresAt : Z;
  MaxUses : Z;
  Uses : Z;
  RevokedAt : option Z;
  CreatedBy : Z;
  CreatedAt : Z
}.

Inductive TokenErr := ErrTokenInvalid | ErrTTLTooLong | ErrRandom | ErrNotFound | ErrConstraint | ErrDb.

(** ** The table *)

(** INSERT: token_hash is unique and group_id references a group. *)
Definition CreateToken (groups : gset Z) (f : fate) (k : Token) (t : list Token) : result TokenErr Z * list Token :=
  execute ErrDb f (fun t =>
    if negb (bool_decide (GroupID k ∈ groups)) || existsb (fun r => bool_decide (Hash r = Hash k)) t
    then (Err ErrConstraint, t)
    else
      let id := next_id ID t in
      (Ok id, t ++ [mkToken id (Hash k) (GroupID k) (ts (ExpiresAt k)) (MaxUses k) 0 None (CreatedBy k)
                      (ts (CreatedAt k))])) t.

Definition TokenByHash (f : fate) (h : list Z) (t : list Token) : result TokenErr Token :=
  match f with
  | Executed =>
      match List.find (fun k => bool_decide (Hash k = h)) t with
      | Some k => Ok k
      | None => Err ErrNotFound
      end
  | _ => Err ErrDb
  end.

(** The WHERE of [ConsumeToken]. *)
Definition usable (now : Z) (k : Token) : bool :=
  match RevokedAt k with None => true | Some _ => false end
  && (ts now <? ExpiresAt k) && ((MaxUses k =? 0) || (Uses k <? MaxUses k)).

Definition count_use (k : Token) : Token :=
  mkToken (ID k) (Hash k) (GroupID k) (ExpiresAt k) (MaxUses k) (Uses k + 1) (RevokedAt k) (CreatedBy k) (CreatedAt k).

Definition ConsumeToken (f : fate) (id now : Z) (t : list Token) : result TokenErr bool * list Token :=
  execute ErrDb f (fun t =>
    let hit k := (ID k =? id) && usable now k in
    (Ok (Nat.eqb (length (filter (fun k => hit k = true) t)) 1),
     (fun k => if hit k then count_use k else k) <$> t)) t.

Definition revoke (at_ : Z) (k : Token) : Token :=
  mkToken (ID k) (Hash k) (GroupID k) (ExpiresAt k) (MaxUses k) (Uses k) (Some (ts at_)) (CreatedBy k) (CreatedAt k).

Definition RevokeToken (f : fate) (id at_ : Z) (t : list Token) : result TokenErr unit * list Token :=
  execute ErrDb f (fun t => (Ok tt, (fun k => if ID k =? id then revoke at_ k else k) <$> t)) t.

Definition TokensForGroup (f : fate) (group : Z) (t : list Token) : result TokenErr (list Token) :=
  match f with
  | Executed => Ok (reverse (filter (fun k => GroupID k = group) t))
  | _ => Err ErrDb
  end.

(** ** Issuing *)

Definition DefaultTTL : Z := Hour.
Definition MaxTTL : Z := 30 * 24 * Hour.

Definition HashToken (plain : string) : list Z := sha256 (bytes plain).

(** [NewToken], from 24 random bytes, if there are any. *)
Definition NewToken (rand : option (list Z)) : option (string * list Z) :=
  match rand with
  | None => None
  | Some b => let plain := "wh_" +:+ RawURL_encode (of_bytes b) in Some (plain, HashToken plain)
  end.

Definition Issue (groups : gset Z) (rand : option (list Z)) (f : fate) (groupID ttl maxUses by_ now : Z)
    (t : list Token) : result TokenErr (string * Token) * list Token :=
  let ttl := if ttl <=? 0 then DefaultTTL else ttl in
  if MaxTTL <? ttl then (Err ErrTTLTooLong, t)
  else
    let maxUses := if maxUses <? 0 then 1 else maxUses in
    match NewToken rand with
    | None => (Err ErrRandom, t)
    | Some (plain, hash) =>
        let tok id := mkToken id hash groupID (now + ttl) maxUses 0 None by_ now in
        match CreateToken groups f (tok 0) t with
        | (Err e, t) => (Err e, t)
        | (Ok id, t) => (Ok (plain, tok id), t)
        end
    end.

(** ** Consuming *)

(** Where an enrolment stands: it has read the token, or counted a use. *)
Inductive phase := Found (k : Token) | Counted (k : Token).

Record system := mkSystem { tokens : list Token; inflight : gmap nat (list Z * phase) }.

Inductive action :=
| Begin (tid : nat) (plain : string) (f : fate)
| Spend (tid : nat) (now : Z) (f : fate)
| Reread (tid : nat) (f : fate)
| IssueToken (rand : option (list Z)) (groupID ttl maxUses by_ now : Z) (f : fate)
| Revoke (id at_ : Z) (f : fate).

(** What is observed: a use counted by an enrolment, and its answer. *)
Inductive event := Spent (tid : nat) (id now : Z) | Answer (tid : nat) (r : result TokenErr Token).

Section system.
Context (groups : gset Z).

(** The statements of [Consume], one action each. *)
Definition step (a : action) (s : system) : list event * system :=
  match a with
  | Begin tid plain f =>
      match inflight s !! tid with
      | Some _ => ([], s)
      | None =>
          let hash := HashToken plain in
          match TokenByHash f hash (tokens s) with
          | Err ErrNotFound => ([Answer tid (Err ErrTokenInvalid)], s)
          | Err e => ([Answer tid (Err e)], s)
          | Ok tok => ([], mkSystem (tokens s) (<[tid := (hash, Found tok)]> (inflight s)))
          end
      end
  | Spend tid now f =>
      match inflight s !! tid with
      | Some (hash, Found tok) =>
          match ConsumeToken f (ID tok) now (tokens s) with
          | (Err e, t) => ([Answer tid (Err e)], mkSystem t (delete tid (inflight s)))
          | (Ok false, t) => ([Answer tid (Err ErrTokenInvalid)], mkSystem t (delete tid (inflight s)))
          | (Ok true, t) =>
              ([Spent tid (ID tok) now], mkSystem t (<[tid := (hash, Counted tok)]> (inflight s)))
          end
      | _ => ([], s)
      end
  | Reread tid f =>
      match inflight s !! tid with
      | Some (hash, Counted tok) =>
          let tok := match TokenByHash f hash (tokens s) with Ok fresh => fresh | Err _ => tok end in
          ([Answer tid (Ok tok)], mkSystem (tokens s) (delete tid (inflight s)))
      | _ => ([], s)
      end
  | IssueToken rand groupID ttl maxUses by_ now f =>
      ([], mkSystem (snd (Issue groups rand f groupID ttl maxUses by_ now (tokens s))) (inflight s))
  | Revoke id at_ f => ([], mkSystem (snd (RevokeToken f id at_ (tokens s))) (inflight s))
  end.

Fixpoint run (acts : list action) (s : system) : list event * system :=
  match acts with
  | [] => ([], s)
  | a :: acts =>
      let '(e1, s) := step a s in
      let '(e2, s) := run acts s in
      (e1 ++ e2, s)
  end.

(** [Consume], undisturbed. *)
Definition Consume (plain : string) (now : Z) (f1 f2 f3 : fate) (t : list Token)
    : result TokenErr Token * list Token :=
  let hash := HashToken plain in
  match TokenByHash f1 hash t with
  | Err ErrNotFound => (Err ErrTokenInvalid, t)
  | Err e => (Err e, t)
  | Ok tok =>
      match ConsumeToken f2 (ID tok) now t with
      | (Err e, t) => (Err e, t)
      | (Ok false, t) => (Err ErrTokenInvalid, t)
      | (Ok true, t) =>
          (Ok (match TokenByHash f3 hash t with Ok fresh => fresh | Err _ => tok end), t)
      end
  end.
End system.

(** * What enrolment tokens guarantee

    Properties of [Tokens]: however many enrolments race for it, a token is
    spent at most as often as it allows, never past its expiry and never once
    revoked; and a token that was issued enrols. *)

Definition unique_ids (t : list Token) : Prop := NoDup (ID <$> t).

(** Changing rows but not their ids. *)
Lemma fmap_ids (g : Token -> Token) (t : list Token) : (forall k, ID (g k) = ID k) -> ID <$> (g <$> t) = ID <$> t.
Proof. intros Hg. rewrite <- list_fmap_compose. apply list_fmap_ext. intros i k _. apply Hg. Qed.

(** ** One row over time *)

(** What may become of a row: same token, no use taken back, no revocation
    undone, and never more uses than allowed. *)
Record later (k k' : Token) : Prop := {
  later_id : ID k' = ID k;
  later_max : MaxUses k' = MaxUses k;
  later_expires : ExpiresAt k' = ExpiresAt k;
  later_revoked : RevokedAt k <> None -> RevokedAt k' <> None;
  later_uses : Uses k <= Uses k';
  later_limit : 0 < MaxUses k -> Uses k <= MaxUses k -> Uses k' <= MaxUses k
}.

#[export] Instance later_refl : Reflexive later.
Proof. intros k. split; auto with lia. Qed.

Lemma later_count now k : usable now k = true -> later k (count_use k).
Proof.
  intros Hu. unfold usable in Hu. bool_to_prop. split; cbn; auto; [lia|]. intros Hm Hlim.
  destruct_or!; bool_to_prop; lia.
Qed.

Lemma later_revoke at_ k : later k (revoke at_ k).
Proof. by split; cbn; auto with lia. Qed.

(** The table after a statement still has every row, later. *)
Definition grows (t t' : list Token) : Prop :=
  unique_ids t -> unique_ids t' /\ forall k, k ∈ t -> exists k', k' ∈ t' /\ later k k'.

Lemma grows_refl t : grows t t.
Proof. intros Hu. split; [done|]. intros k Hk. by exists k. Qed.

Lemma grows_fmap (g : Token -> Token) (t : list Token) : (forall k, later k (g k)) -> grows t (g <$> t).
Proof.
  intros Hg Hu. split; [unfold unique_ids; rewrite fmap_ids; [done|intros k; apply Hg]|].
  intros k Hk. exists (g k). split; [by apply list_elem_of_fmap_2|apply Hg].
Qed.

Lemma consume_grows f id now t : grows t (snd (ConsumeToken f id now t)).
Proof.
  unfold ConsumeToken. apply (execute_keeps (grows t)); [apply grows_refl|]. cbn [snd]. apply grows_fmap.
  intros k. destruct ((ID k =? id) && usable now k) eqn:E; [|done]. apply andb_prop in E as [_ E].
  by eapply later_count.
Qed.

Lemma revoke_grows f id at_ t : grows t (snd (RevokeToken f id at_ t)).
Proof.
  unfold RevokeToken. apply (execute_keeps (grows t)); [apply grows_refl|]. cbn [snd]. apply grows_fmap.
  intros k. destruct (ID k =? id); [apply later_revoke|done].
Qed.

Lemma create_grows groups f k t : grows t (snd (CreateToken groups f k t)).
Proof.
  unfold CreateToken. apply (execute_keeps (grows t)); [apply grows_refl|].
  destruct (_ || _); [apply grows_refl|]. cbn [snd]. intros Hu. split.
  - by apply next_id_unique.
  - intros k' Hk'. exists k'. split; [by apply elem_of_app; left|done].
Qed.

Lemma issue_grows groups rand f g ttl mu by_ now t : grows t (snd (Issue groups rand f g ttl mu by_ now t)).
Proof.
  unfold Issue. destruct (MaxTTL <? _); [apply grows_refl|]. destruct (NewToken rand) as [[plain hash]|]; [|apply grows_refl].
  match goal with |- context [CreateToken groups f ?k t] => pose proof (create_grows groups f k t) as Hg end.
  by destruct (CreateToken _ _ _ _) as [[id|e] t'].
Qed.

(** A use that was counted was allowed. *)
Lemma consume_true f id now t t' k :
  ConsumeToken f id now t = (Ok true, t') -> unique_ids t -> k ∈ t ->
  if decide (ID k = id) then usable now k = true /\ count_use k ∈ t' else k ∈ t'.
Proof.
  unfold ConsumeToken. destruct f; cbn [execute]; [|done|done]. intros [= Hlen <-] Hu Hk.
  apply Nat.eqb_eq in Hlen. destruct (decide (ID k = id)) as [<-|Hne].
  - assert (usable now k = true) as Hus.
    { destruct (filter _ t) as [|k1 [|]] eqn:Hf; [done| |done].
      assert (k1 ∈ filter (fun k0 => (ID k0 =? ID k) && usable now k0 = true) t) as Hk1 by (rewrite Hf; constructor).
      apply list_elem_of_filter in Hk1 as [[He%Z.eqb_eq Hus]%andb_prop Hk1].
      by rewrite (NoDup_fmap_inj_elem ID t k k1). }
    split; [done|]. apply list_elem_of_fmap. exists k. by rewrite Z.eqb_refl, Hus.
  - apply list_elem_of_fmap. exists k. by rewrite (proj2 (Z.eqb_neq _ _) Hne).
Qed.

(** ** Races *)

(** The times at which uses of a token were counted. *)
Definition spends (id : Z) (evs : list event) : list Z :=
  omap (fun e => match e with Spent _ id' now => if id' =? id then Some now else None | Answer _ _ => None end) evs.

Lemma spends_app id a b : spends id (a ++ b) = spends id a ++ spends id b.
Proof. apply omap_app. Qed.

Section races.
Context (groups : gset Z).

(** What a step does to the row of [k], and the use it may have counted. *)
Definition row_after (k : Token) (evs : list event) (s' : system) : Prop :=
  unique_ids (tokens s')
  /\ exists k', k' ∈ tokens s' /\ later k k'
       /\ (spends (ID k) evs = []
           \/ exists now, spends (ID k) evs = [now] /\ usable now k = true /\ Uses k' = Uses k + 1).

Lemma step_row a s k :
  unique_ids (tokens s) -> k ∈ tokens s ->
  row_after k (fst (step groups a s)) (snd (step groups a s)).
Proof.
  intros Hu Hk.
  assert (forall evs s', grows (tokens s) (tokens s') -> spends (ID k) evs = [] -> row_after k evs s') as Hquiet.
  { intros evs s' Hg He. destruct (Hg Hu) as [Hu' Hl]. split; [done|].
    destruct (Hl k Hk) as (k' & Hk' & Hlater). exists k'. auto. }
  pose proof (grows_refl (tokens s)) as Hrefl.
  destruct a as [tid plain f|tid now f|tid f|rand g ttl mu by_ now f|id at_ f]; cbn [step].
  - destruct (inflight s !! tid); [by apply Hquiet|].
    by destruct (TokenByHash f _ (tokens s)) as [tok|[]]; apply Hquiet.
  - destruct (inflight s !! tid) as [[hash [tok|tok]]|]; [|by apply Hquiet..].
    pose proof (consume_grows f (ID tok) now (tokens s)) as Hg.
    destruct (ConsumeToken f (ID tok) now (tokens s)) as [[[]|e] t'] eqn:Hc; cbn [fst snd] in *.
    2,3: by apply Hquiet.
    split; [by apply Hg|]. pose proof (consume_true _ _ _ _ _ k Hc Hu Hk) as Hct.
    cbn [tokens spends omap list_omap]. destruct (Z.eqb_spec (ID tok) (ID k)) as [He|He].
    + rewrite decide_True in Hct by done. destruct Hct as [Hus Hin]. exists (count_use k).
      split_and!; [done|by eapply later_count|]. right. by exists now.
    + rewrite decide_False in Hct by done. exists k. split_and!; [done..|]. by left.
  - destruct (inflight s !! tid) as [[hash [tok|tok]]|]; by apply Hquiet.
  - apply Hquiet; [apply issue_grows|done].
  - apply Hquiet; [apply revoke_grows|done].
Qed.

(** C25.  A token is spent within its limits.  However many enrolments race,
    interleaved at every statement with issues and revocations and with answers
    lost, a token of the table is counted at most as often as it has uses left,
    only before it expires, and never again once it is revoked. *)
Theorem token_spent_within_limits acts s k :
  unique_ids (tokens s) -> k ∈ tokens s ->
  let spent := spends (ID k) (fst (run groups acts s)) in
  (0 < MaxUses k -> Uses k <= MaxUses k -> Uses k + Z.of_nat (length spent) <= MaxUses k)
  /\ Forall (fun now => ts now < ExpiresAt k) spent
  /\ (RevokedAt k <> None -> spent = []).
Proof.
  revert s k. induction acts as [|a acts IH]; intros s k Hu Hk; [cbn; split_and!; [lia|constructor|done]|].
  cbn [run]. pose proof (step_row a s k Hu Hk) as Hstep. destruct (step groups a s) as [e1 s1].
  cbn [fst snd] in Hstep. destruct Hstep as (Hu1 & k1 & Hk1 & Hl & Hsp). destruct (IH s1 k1 Hu1 Hk1) as (H1 & H2 & H3).
  destruct (run groups acts s1) as [e2 s2]. cbn [fst] in *. rewrite spends_app.
  rewrite (later_id _ _ Hl), (later_max _ _ Hl), (later_expires _ _ Hl) in *.
  pose proof (later_limit _ _ Hl) as Hlim. pose proof (later_uses _ _ Hl) as Huses.
  destruct Hsp as [->|(now & -> & Hus & Hinc)]; cbn [app length].
  - split_and!; [lia|done|]. intros Hr. by apply H3, (later_revoked _ _ Hl).
  - unfold usable in Hus. apply andb_prop in Hus as [[Hrev Hexp]%andb_prop Hleft].
    split_and!; [lia|constructor; [lia|done]|]. intros Hr. by destruct (RevokedAt k).
Qed.

(** ** Round trip *)

Lemma find_snoc (p : Token -> bool) t k :
  Forall (fun r => p r = false) t -> p k = true -> List.find p (t ++ [k]) = Some k.
Proof. induction 1 as [|r t Hr _ IH]; intros Hk; cbn; [by rewrite Hk|]. rewrite Hr. by apply IH. Qed.

(** Counting the first use of the newest token. *)
Lemma consume_new t row now' :
  ID row = next_id ID t -> usable now' row = true ->
  ConsumeToken Executed (ID row) now' (t ++ [row]) = (Ok true, t ++ [count_use row]).
Proof.
  intros Hid Hus. unfold ConsumeToken. cbn [execute].
  assert (forall r, r ∈ t -> (ID r =? ID row) = false) as Hold.
  { intros r Hr. pose proof (next_id_fresh ID t r Hr). apply Z.eqb_neq. lia. }
  assert (filter (fun k => (ID k =? ID row) && usable now' k = true) t = []) as Hnone.
  { apply elem_of_nil_inv. intros r [Hr Hin]%list_elem_of_filter. by rewrite Hold in Hr. }
  rewrite filter_app, Hnone, filter_cons_True, fmap_app by (by rewrite Z.eqb_refl, Hus).
  rewrite filter_nil. cbn [length app Nat.eqb]. f_equal.
  assert ((fun k => if (ID k =? ID row) && usable now' k then count_use k else k) <$> t = t) as ->.
  { rewrite <- (list_fmap_id t) at 2. apply list_fmap_ext. intros i r Hr%list_elem_of_lookup_2. by rewrite Hold. }
  cbn. by rewrite Z.eqb_refl, Hus.
Qed.

(** An issued token enrols: consumed before its lifetime -- an hour unless
    said otherwise, never more than thirty days -- has passed, it is accepted,
    names the group it was issued for and has one use counted. *)
Theorem issued_token_enrols rand groupID ttl maxUses by_ now plain tok t t' now' :
  unique_ids t ->
  Issue groups rand Executed groupID ttl maxUses by_ now t = (Ok (plain, tok), t') ->
  ts now' < ts (ExpiresAt tok) ->
  now < ExpiresAt tok <= now + MaxTTL
  /\ exists tok' t'', Consume plain now' Executed Executed Executed t' = (Ok tok', t'')
       /\ ID tok' = ID tok /\ GroupID tok' = groupID /\ Uses tok' = 1
       /\ MaxUses tok' = (if maxUses <? 0 then 1 else maxUses).
Proof.
  intros Hu. unfold Issue. set (life := if ttl <=? 0 then DefaultTTL else ttl).
  assert (0 < life) as Hlife by (unfold life, DefaultTTL, Hour, Minute, Second; destruct (Z.leb_spec ttl 0); lia).
  destruct (Z.ltb_spec MaxTTL life) as [|Hle]; [done|]. set (mu := if maxUses <? 0 then 1 else maxUses).
  assert (0 <= mu) as Hmu by (unfold mu; destruct (Z.ltb_spec maxUses 0); lia).
  destruct (NewToken rand) as [[p hash]|] eqn:Hnew; [|done].
  assert (hash = HashToken p) as Hhash by (unfold NewToken in Hnew; destruct rand; by simplify_eq).
  unfold CreateToken. cbn [execute GroupID Hash ExpiresAt MaxUses CreatedBy CreatedAt].
  destruct (negb _ || _) eqn:Hbad; [done|]. apply orb_false_iff in Hbad as [_ Hdup].
  intros Hok Hexp. apply pair_equal_spec in Hok as [Hok <-]. apply Ok_inj, pair_equal_spec in Hok as [<- <-].
  cbn [ExpiresAt ID GroupID MaxUses] in *. split; [lia|].
  set (row := mkToken (next_id ID t) hash groupID (ts (now + life)) mu 0 None by_ (ts now)).
  assert (Forall (fun r => bool_decide (Hash r = HashToken p) = false) t) as Hother.
  { apply Forall_forall. intros r Hr. apply bool_decide_eq_false. intros He.
    apply not_true_iff_false in Hdup. apply Hdup, existsb_exists. exists r.
    split; [by apply list_elem_of_In|]. apply bool_decide_eq_true. congruence. }
  assert (forall r, Hash r = hash -> TokenByHash Executed (HashToken p) (t ++ [r]) = Ok r) as Hfind.
  { intros r Hr. unfold TokenByHash. rewrite find_snoc; [done..|]. apply bool_decide_eq_true. congruence. }
  assert (usable now' row = true) as Hus.
  { unfold usable, row. cbn. destruct (Z.ltb_spec (ts now') (ts (now + life))); [|lia].
    destruct (Z.eqb_spec mu 0); [done|]. destruct (Z.ltb_spec 0 mu); [done|lia]. }
  exists (count_use row), (t ++ [count_use row]). split_and!; [|done..]. unfold Consume. rewrite Hfind by done.
  rewrite consume_new by done. by rewrite Hfind.
Qed.
End races.

(** ** Witnesses *)

Definition rand24 : list Z := replicate 24 7.

Definition single_use : Token := mkToken 1 (HashToken "wh_x") 5 (1000 * Second) 1 0 None 9 0.

(** Two enrolments race for a single-use token; one is spent. *)
Definition race : list action :=
  [Begin 0 "wh_x" Executed; Begin 1 "wh_x" Executed; Spend 1 Second Executed; Spend 0 Second Executed;
   Reread 1 Executed; Revoke 1 Minute Executed; Begin 2 "wh_x" Executed; Spend 2 Second Executed].

Lemma token_spent_within_limits_witness :
  spends 1 (fst (run {[5]} race (mkSystem [single_use] ∅))) = [Second]
  /\ 0 + Z.of_nat (length (spends 1 (fst (run {[5]} race (mkSystem [single_use] ∅))))) <= 1.
Proof.
  split; [by vm_compute|].
  apply (token_spent_within_limits {[5]} race (mkSystem [single_use] ∅) single_use); [..|done|done].
  - by apply (bool_decide_unpack _); vm_compute.
  - by constructor.
Defined.

Lemma issued_token_enrols_witness :
  match Issue {[5]} (Some rand24) Executed 5 0 (-1) 9 0 [] with
  | (Ok (plain, tok), t') =>
      exists tok' t'', Consume plain Minute Executed Executed Executed t' = (Ok tok', t'')
        /\ GroupID tok' = 5 /\ Uses tok' = 1 /\ MaxUses tok' = 1
  | _ => False
  end.
Proof.
  destruct (Issue {[5]} (Some rand24) Executed 5 0 (-1) 9 0 []) as [[[plain tok]|e] t'] eqn:Hi.
  - assert (ts Minute < ts (ExpiresAt tok)) as Hexp.
    { assert (ExpiresAt tok = Hour) as -> by (vm_compute in Hi; by simplify_eq). by vm_compute. }
    destruct (issued_token_enrols {[5]} (Some rand24) 5 0 (-1) 9 0 plain tok [] t' Minute (NoDup_nil_2) Hi Hexp)
      as [_ (tok' & t'' & H1 & _ & H2 & H3 & H4)].
    by exists tok', t''.
  - by vm_compute in Hi.
Defined.
