(* ===== verification/Reap.v ===== *)
(** * Reaping the repositories of revoked devices

    [fleet/jobs/reap.go]: the job that removes the repository directory of a
    device once it has been revoked for longer than the retention window; the
    tables it reads, [fleet/store/agents.go], [groups.go], [targets.go] and
    [settings.go]; and the guard on directory names of [fleet/enroll/provision.go].

    The job is a sequence of statements and removals.  Between any two of them
    other parts of the server execute statements of their own, a statement can
    fail or its answer be lost, the job can be cancelled, and a removal can stop
    half-way: an environment says so for every turn. *)

From S2P Require Import Prelude GoStrings GoText GoTime Db Tokens Jobs Keys.
From Stdlib Require Import Ascii.
Open Scope go_scope.

(** ** [path/filepath] *)

(** A path element after those of a cleaned path, the last first. *)
Definition clean_element (rooted : bool) (st : list string) (c : string) : list string :=
  if String.eqb c "" || String.eqb c "." then st
  else if String.eqb c ".." then
    match st with
    | x :: st' => if String.eqb x ".." then c :: st else st'
    | [] => if rooted then [] else [c]
    end
  else c :: st.

Definition is_rooted (path : string) : bool := HasPrefix path "/".

Definition clean_elements (path : string) : list string := foldl (clean_element (is_rooted path)) [] (Split path "/"%char).

(** [filepath.Clean] of a Unix path. *)
Definition Clean (path : string) : string :=
  let st := clean_elements path in
  if is_rooted path then "/" +:+ Join (reverse st) "/"
  else match st with [] => "." | _ => Join (reverse st) "/" end.

(** [filepath.Join] *)
Fixpoint JoinPath (elem : list string) : string :=
  match elem with
  | [] => ""
  | e :: rest => if String.eqb e "" then JoinPath rest else Clean (Join elem "/")
  end.

(** [enroll.IsSafeAgentDir] *)
Definition IsSafeAgentDir (agentID : string) : bool :=
  negb (String.eqb agentID "") && negb (String.eqb agentID ".") && negb (String.eqb agentID "..")
  && negb (Contains agentID "/"%char || Contains agentID "\"%char) && String.eqb (Clean agentID) agentID.

Example clean_ex :
  Clean "" = "." /\ Clean "/" = "/" /\ Clean "a//b/./c/.." = "a/b" /\ Clean "../../a" = "../../a" /\ Clean "/../a/" = "/a" /\ Clean "a/.." = "."
  /\ JoinPath ["/srv/x/"; "agents"; "d1"] = "/srv/x/agents/d1" /\ JoinPath [""; "a"] = "a"
  /\ (IsSafeAgentDir <$> ["d1"; ".."; "a/b"; ""; "..."]) = [true; false; false; false; true].
Proof. by vm_compute. Qed.

(** ** The tables *)

Record Agent := mkAgent {
  ag_ID : string; ag_Name : string; ag_Hostname : string; ag_OS : string; ag_Arch : string; ag_Version : string; ag_Scope : string;
  ag_GroupID : Z;
  ag_BearerHash : list Z; ag_SealedBundle : list Z;
  ag_PolicyETag : string;
  ag_EnrolledAt : Z;
  ag_LastSeenAt : option Z; ag_RevokedAt : option Z; ag_RetiredAt : option Z
}.

(** A row of [groups]; [deleted_at] is a column that [Group] does not read. *)
Record Group := mkGroup { gr_Name : string; gr_TargetID : Z; gr_TemplateID : Z; gr_CreatedAt : Z; gr_deleted_at : option Z }.

Record Target := mkTarget {
  tg_Name : string; tg_Kind : string; tg_Bucket : string; tg_Region : string; tg_Path : string;
  tg_SealedAdminKey : list Z; tg_ObjectLockVerifiedAt : option Z; tg_CreatedAt : Z;
  tg_StorageMode : string; tg_Endpoint : string;
  tg_MirrorKind : string; tg_MirrorBucket : string; tg_MirrorRegion : string; tg_SealedMirrorKey : list Z;
  tg_MirrorLockVerifiedAt : option Z; tg_MirrorConditionalPut : option bool
}.

(** The database, and the files of the server by their cleaned paths. *)
Record fleet := mkFleet {
  fl_agents : gmap string Agent;
  fl_groups : gmap Z Group;
  fl_targets : gmap Z Target;
  fl_tokens : list Token;
  fl_settings : gmap string string;
  fl_keys : gmap string DeviceKey;
  fl_files : gmap string (list Z)
}.

Inductive reap_error :=
| ErrFleetDb
| ErrRowNotFound
| ErrRowConstraint
| ErrGroupInUse
| ErrNoLocalData
| ErrUnsafeAgentID
| ErrNoPath
| ErrNotRevoked
| ErrRemove
| ErrCancelled.

Definition set_agents (f : gmap string Agent -> gmap string Agent) (s : fleet) : fleet :=
  mkFleet (f (fl_agents s)) (fl_groups s) (fl_targets s) (fl_tokens s) (fl_settings s) (fl_keys s) (fl_files s).
Definition set_groups (f : gmap Z Group -> gmap Z Group) (s : fleet) : fleet :=
  mkFleet (fl_agents s) (f (fl_groups s)) (fl_targets s) (fl_tokens s) (fl_settings s) (fl_keys s) (fl_files s).
Definition set_targets (f : gmap Z Target -> gmap Z Target) (s : fleet) : fleet :=
  mkFleet (fl_agents s) (fl_groups s) (f (fl_targets s)) (fl_tokens s) (fl_settings s) (fl_keys s) (fl_files s).
Definition set_tokens (f : list Token -> list Token) (s : fleet) : fleet :=
  mkFleet (fl_agents s) (fl_groups s) (fl_targets s) (f (fl_tokens s)) (fl_settings s) (fl_keys s) (fl_files s).
Definition set_settings (f : gmap string string -> gmap string string) (s : fleet) : fleet :=
  mkFleet (fl_agents s) (fl_groups s) (fl_targets s) (fl_tokens s) (f (fl_settings s)) (fl_keys s) (fl_files s).
Definition set_keyrows (f : gmap string DeviceKey -> gmap string DeviceKey) (s : fleet) : fleet :=
  mkFleet (fl_agents s) (fl_groups s) (fl_targets s) (fl_tokens s) (fl_settings s) (f (fl_keys s)) (fl_files s).
Definition set_files (f : gmap string (list Z) -> gmap string (list Z)) (s : fleet) : fleet :=
  mkFleet (fl_agents s) (fl_groups s) (fl_targets s) (fl_tokens s) (fl_settings s) (fl_keys s) (f (fl_files s)).

(** The rowid of an insertion into a table with integer keys. *)
Definition new_row {A} (t : gmap Z A) : Z := next_id id (map_to_list t).*1.

(** *** [agents.go] *)

(** Times are stored to the second. *)
Definition stored_agent (a : Agent) : Agent :=
  mkAgent (ag_ID a) (ag_Name a) (ag_Hostname a) (ag_OS a) (ag_Arch a) (ag_Version a) (ag_Scope a) (ag_GroupID a) (ag_BearerHash a) (ag_SealedBundle a)
    (ag_PolicyETag a) (ts (ag_EnrolledAt a)) (ts <$> ag_LastSeenAt a) (ts <$> ag_RevokedAt a) (ts <$> ag_RetiredAt a).

Definition CreateAgent (a : Agent) (s : fleet) : result reap_error unit * fleet :=
  if bool_decide (is_Some (fl_agents s !! ag_ID a)) || bool_decide (fl_groups s !! ag_GroupID a = None)
     || existsb (fun r => bool_decide (ag_BearerHash r = ag_BearerHash a)) (map_to_list (fl_agents s)).*2
  then (Err ErrRowConstraint, s)
  else (Ok tt, set_agents (<[ag_ID a := stored_agent a]>) s).

Definition AgentByID (id : string) (s : fleet) : result reap_error Agent * fleet :=
  (match fl_agents s !! id with Some a => Ok a | None => Err ErrRowNotFound end, s).

Definition AgentByBearerHash (h : list Z) (s : fleet) : result reap_error Agent * fleet :=
  (match List.find (fun a => bool_decide (ag_BearerHash a = h)) (map_to_list (fl_agents s)).*2 with Some a => Ok a | None => Err ErrRowNotFound end, s).

Definition enrolled_le (a b : Agent) : Prop := ag_EnrolledAt a <= ag_EnrolledAt b.

#[export] Instance enrolled_le_dec : RelDecision enrolled_le.
Proof. intros a b. unfold enrolled_le. apply _. Defined.

(** Rows enrolled in the same second come in the order of the table. *)
Definition Agents (s : fleet) : result reap_error (list Agent) * fleet :=
  (Ok (merge_sort enrolled_le (map_to_list (fl_agents s)).*2), s).

Definition TouchAgent (id : string) (at_ : Z) (version etag : string) (s : fleet) : result reap_error unit * fleet :=
  (Ok tt, set_agents (alter (fun a => mkAgent (ag_ID a) (ag_Name a) (ag_Hostname a) (ag_OS a) (ag_Arch a) version (ag_Scope a) (ag_GroupID a) (ag_BearerHash a)
            (ag_SealedBundle a) etag (ag_EnrolledAt a) (Some (ts at_)) (ag_RevokedAt a) (ag_RetiredAt a)) id) s).

Definition RevokeAgent (id : string) (at_ : Z) (s : fleet) : result reap_error unit * fleet :=
  (Ok tt, set_agents (alter (fun a => mkAgent (ag_ID a) (ag_Name a) (ag_Hostname a) (ag_OS a) (ag_Arch a) (ag_Version a) (ag_Scope a) (ag_GroupID a)
            (ag_BearerHash a) (ag_SealedBundle a) (ag_PolicyETag a) (ag_EnrolledAt a) (ag_LastSeenAt a) (Some (ts at_)) (ag_RetiredAt a)) id) s).

Definition SetAgentBundle (id : string) (sealed : list Z) (s : fleet) : result reap_error unit * fleet :=
  (if bool_decide (fl_agents s !! id = None) then Err ErrRowNotFound else Ok tt,
   set_agents (alter (fun a => mkAgent (ag_ID a) (ag_Name a) (ag_Hostname a) (ag_OS a) (ag_Arch a) (ag_Version a) (ag_Scope a) (ag_GroupID a)
            (ag_BearerHash a) sealed (ag_PolicyETag a) (ag_EnrolledAt a) (ag_LastSeenAt a) (ag_RevokedAt a) (ag_RetiredAt a)) id) s).

(** One transaction. *)
Definition DeleteAgent (id : string) (s : fleet) : result reap_error unit * fleet :=
  (Ok tt, set_agents (delete id) (set_keyrows (filter (fun '(_, k) => Keys.AgentID k <> id)) s)).

Definition retire (at_ : Z) (a : Agent) : Agent :=
  match ag_RetiredAt a with
  | Some _ => a
  | None => mkAgent (ag_ID a) (ag_Name a) (ag_Hostname a) (ag_OS a) (ag_Arch a) (ag_Version a) (ag_Scope a) (ag_GroupID a)
              (ag_BearerHash a) (ag_SealedBundle a) (ag_PolicyETag a) (ag_EnrolledAt a) (ag_LastSeenAt a) (ag_RevokedAt a) (Some (ts at_))
  end.

Definition RetireAgent (id : string) (at_ : Z) (s : fleet) : result reap_error unit * fleet :=
  (Ok tt, set_agents (alter (retire at_) id) s).

(** *** [device_keys.go] *)

Definition delete_keys (id : string) (s : fleet) : result reap_error Z * fleet :=
  let '(n, k) := DeleteDeviceKeysForAgent id (mkKeyStore (dom (fl_agents s)) (fl_keys s)) in (Ok n, set_keyrows (fun _ => Keys.rows k) s).

(** *** [groups.go] *)

Definition CreateGroup (g : Group) (s : fleet) : result reap_error Z * fleet :=
  match fl_targets s !! gr_TargetID g with
  | None => (Err ErrRowConstraint, s)
  | Some _ =>
      let id := new_row (fl_groups s) in
      (Ok id, set_groups (<[id := mkGroup (gr_Name g) (gr_TargetID g) (gr_TemplateID g) (ts (gr_CreatedAt g)) None]>) s)
  end.

Definition live_group (id : Z) (s : fleet) : option Group :=
  g ← fl_groups s !! id; match gr_deleted_at g with None => Some g | Some _ => None end.

Definition GroupByID (id : Z) (s : fleet) : result reap_error Group * fleet :=
  (match live_group id s with Some g => Ok g | None => Err ErrRowNotFound end, s).

(** An agent of the group still has a repository. *)
Definition group_in_use (id : Z) (s : fleet) : bool :=
  existsb (fun a => (ag_GroupID a =? id) && bool_decide (ag_RetiredAt a = None)) (map_to_list (fl_agents s)).*2.

(** The UPDATE of [UpdateGroup]: whether it changed a row. *)
Definition update_group (id : Z) (name : option string) (targetID templateID : option Z) (s : fleet) : result reap_error bool * fleet :=
  match live_group id s with
  | None => (Ok false, s)
  | Some g =>
      let target := default (gr_TargetID g) targetID in
      if (target =? gr_TargetID g) || negb (group_in_use id s)
      then if bool_decide (fl_targets s !! target = None) then (Err ErrRowConstraint, s)
           else (Ok true, set_groups (<[id := mkGroup (default (gr_Name g) name) target (default (gr_TemplateID g) templateID) (gr_CreatedAt g) None]>) s)
      else (Ok false, s)
  end.

(** The WHERE of the DELETE of [DeleteGroup]. *)
Definition stale_token (now : Z) (k : Token) : bool :=
  bool_decide (is_Some (Tokens.RevokedAt k)) || (Tokens.ExpiresAt k <=? ts now) || ((0 <? MaxUses k) && (MaxUses k <=? Uses k)).

Definition delete_stale_tokens (id now : Z) (s : fleet) : result reap_error unit * fleet :=
  (Ok tt, set_tokens (filter (fun k => ~ (Tokens.GroupID k = id /\ stale_token now k = true))) s).

(** The UPDATE of [DeleteGroup]: whether it changed a row. *)
Definition stamp_group (id now : Z) (s : fleet) : result reap_error bool * fleet :=
  match live_group id s with
  | None => (Ok false, s)
  | Some g =>
      if group_in_use id s || existsb (fun k => (Tokens.GroupID k =? id) && Tokens.usable now k) (fl_tokens s) then (Ok false, s)
      else (Ok true, set_groups (<[id := mkGroup (gr_Name g) (gr_TargetID g) (gr_TemplateID g) (gr_CreatedAt g) (Some (ts now))]>) s)
  end.

(** *** [targets.go] *)

Definition CreateTarget (t : Target) (s : fleet) : result reap_error Z * fleet :=
  let id := new_row (fl_targets s) in
  (Ok id, set_targets (<[id := mkTarget (tg_Name t) (tg_Kind t) (tg_Bucket t) (tg_Region t) (tg_Path t) (tg_SealedAdminKey t)
            (ts <$> tg_ObjectLockVerifiedAt t) (ts (tg_CreatedAt t)) (tg_StorageMode t) (tg_Endpoint t) (tg_MirrorKind t) (tg_MirrorBucket t)
            (tg_MirrorRegion t) (tg_SealedMirrorKey t) (ts <$> tg_MirrorLockVerifiedAt t) (tg_MirrorConditionalPut t)]>) s).

Definition TargetByID (id : Z) (s : fleet) : result reap_error Target * fleet :=
  (match fl_targets s !! id with Some t => Ok t | None => Err ErrRowNotFound end, s).

Definition SetTargetMirror (id : Z) (m : Target) (s : fleet) : result reap_error unit * fleet :=
  (Ok tt, set_targets (alter (fun t => mkTarget (tg_Name t) (tg_Kind t) (tg_Bucket t) (tg_Region t) (tg_Path t) (tg_SealedAdminKey t)
            (tg_ObjectLockVerifiedAt t) (tg_CreatedAt t) (tg_StorageMode t) (tg_Endpoint t) (tg_MirrorKind m) (tg_MirrorBucket m)
            (tg_MirrorRegion m) (tg_SealedMirrorKey m) (ts <$> tg_MirrorLockVerifiedAt m) (tg_MirrorConditionalPut m)) id) s).

Definition SetTargetObjectLockVerified (id at_ : Z) (s : fleet) : result reap_error unit * fleet :=
  (Ok tt, set_targets (alter (fun t => mkTarget (tg_Name t) (tg_Kind t) (tg_Bucket t) (tg_Region t) (tg_Path t) (tg_SealedAdminKey t)
            (Some (ts at_)) (tg_CreatedAt t) (tg_StorageMode t) (tg_Endpoint t) (tg_MirrorKind t) (tg_MirrorBucket t)
            (tg_MirrorRegion t) (tg_SealedMirrorKey t) (tg_MirrorLockVerifiedAt t) (tg_MirrorConditionalPut t)) id) s).

(** *** [settings.go] *)

Definition read_setting (key : string) (s : fleet) : result reap_error string * fleet := (Ok (default "" (fl_settings s !! key)), s).

Definition SetSetting (key value : string) (s : fleet) : result reap_error unit * fleet := (Ok tt, set_settings (<[key := value]>) s).

(** ** Turns *)

(** What other parts of the server do between two steps of the job. *)
Inductive statement :=
| StCreateAgent (a : Agent)
| StTouchAgent (id : string) (at_ : Z) (version etag : string)
| StRevokeAgent (id : string) (at_ : Z)
| StSetAgentBundle (id : string) (sealed : list Z)
| StDeleteAgent (id : string)
| StCreateGroup (g : Group)
| StUpdateGroup (id : Z) (name : option string) (targetID templateID : option Z)
| StDeleteStaleTokens (id now : Z)
| StStampGroup (id now : Z)
| StCreateTarget (t : Target)
| StSetTargetMirror (id : Z) (m : Target)
| StSetTargetObjectLockVerified (id at_ : Z)
| StSetSetting (key value : string)
| StChangeTokens (f : list Token -> list Token)
| StChangeKeys (f : gmap string DeviceKey -> gmap string DeviceKey)
| StWriteFile (path : string) (data : list Z).

Definition other_step (o : statement) (s : fleet) : fleet :=
  match o with
  | StCreateAgent a => (CreateAgent a s).2
  | StTouchAgent id at_ version etag => (TouchAgent id at_ version etag s).2
  | StRevokeAgent id at_ => (RevokeAgent id at_ s).2
  | StSetAgentBundle id sealed => (SetAgentBundle id sealed s).2
  | StDeleteAgent id => (DeleteAgent id s).2
  | StCreateGroup g => (CreateGroup g s).2
  | StUpdateGroup id name targetID templateID => (update_group id name targetID templateID s).2
  | StDeleteStaleTokens id now => (delete_stale_tokens id now s).2
  | StStampGroup id now => (stamp_group id now s).2
  | StCreateTarget t => (CreateTarget t s).2
  | StSetTargetMirror id m => (SetTargetMirror id m s).2
  | StSetTargetObjectLockVerified id at_ => (SetTargetObjectLockVerified id at_ s).2
  | StSetSetting key value => (SetSetting key value s).2
  | StChangeTokens f => set_tokens f s
  | StChangeKeys f => set_keyrows f s
  | StWriteFile path data => set_files (<[path := data]>) s
  end.

Record rturn := mkRTurn {
  rt_others : list statement;       (* what others do before the step *)
  rt_fate : fate;                   (* what becomes of a statement *)
  rt_cancelled : bool;              (* the job's context is cancelled *)
  rt_left : option (string -> bool) (* a removal fails and leaves these files *)
}.

Class ReapEnvironment := rturn_at : nat -> rturn.

Record rstate := mkRState { rs_turn : nat; rs_fleet : fleet }.

Definition M (A : Type) : Type := rstate -> A * rstate.

Definition mret {A} (a : A) : M A := fun s => (a, s).
Definition mbind {A B} (c : M A) (f : A -> M B) : M B := fun s => f (c s).1 (c s).2.
Notation "'let&' x ':=' c 'in' k" := (mbind c (fun x => k)) (at level 200, x binder, c at level 100, k at level 200) : go_scope.

Section Job.
Context {RE : ReapEnvironment}.

(** A step of the job: others come first. *)
Definition turn {A} (f : rturn -> fleet -> A * fleet) : M A := fun s =>
  let t := rturn_at (rs_turn s) in
  let '(a, fl) := f t (foldl (fun fl o => other_step o fl) (rs_fleet s) (rt_others t)) in
  (a, mkRState (S (rs_turn s)) fl).

Definition stmt {A} (q : fleet -> result reap_error A * fleet) : M (result reap_error A) := turn (fun t => execute ErrFleetDb (rt_fate t) q).

(** [ctx.Err() != nil] *)
Definition cancelled : M bool := turn (fun t fl => (rt_cancelled t, fl)).

(** [UpdateGroup] and [DeleteGroup] look again when they changed no row. *)
Definition refused (id : Z) (r : result reap_error bool) : M (result reap_error unit) :=
  match r with
  | Err e => mret (Err e)
  | Ok true => mret (Ok tt)
  | Ok false => let& g := stmt (GroupByID id) in mret (match g with Err e => Err e | Ok _ => Err ErrGroupInUse end)
  end.

Definition UpdateGroup (id : Z) (name : option string) (targetID templateID : option Z) : M (result reap_error unit) :=
  let& r := stmt (update_group id name targetID templateID) in refused id r.

Definition DeleteGroup (id now : Z) : M (result reap_error unit) :=
  let& r := stmt (delete_stale_tokens id now) in
  match r with
  | Err e => mret (Err e)
  | Ok _ => let& r := stmt (stamp_group id now) in refused id r
  end.

(** A file is a directory or in it. *)
Definition in_dir (dir path : string) : bool := String.eqb path dir || HasPrefix path (dir +:+ "/").

(** [os.RemoveAll]; when it fails, it may have removed a part. *)
Definition RemoveAll (dir : string) : M (result reap_error unit) := turn (fun t fl =>
  match rt_left t with
  | None => (Ok tt, set_files (filter (fun '(path, _) => in_dir dir path = false)) fl)
  | Some stays => (Err ErrRemove, set_files (filter (fun '(path, _) => in_dir dir path && negb (stays path) = false)) fl)
  end).

(** ** The job *)

Definition RevokedRetentionSetting : string := "revoked_retention_days".
Definition DefaultRetentionDays : Z := 30.
Definition MinRetentionDays : Z := 1.
Definition MaxRetentionDays : Z := 3650.

Definition RevokedRetentionDays : M Z :=
  let& r := stmt (read_setting RevokedRetentionSetting) in
  mret (match r with
        | Err _ => DefaultRetentionDays
        | Ok v =>
            if String.eqb v "" then DefaultRetentionDays
            else match ParseInt v with
                 | Some n => if (MinRetentionDays <=? n) && (n <=? MaxRetentionDays) then n else DefaultRetentionDays
                 | None => DefaultRetentionDays
                 end
        end).

Definition retentionWindow : M Z := let& days := RevokedRetentionDays in mret (days * 24 * Hour).

Definition reapCandidates (j : Job) : M (result reap_error (list Agent)) :=
  if negb (String.eqb (Jobs.AgentID j) "") then
    let& r := stmt (AgentByID (Jobs.AgentID j)) in
    mret (match r with
          | Err e => Err e
          | Ok a =>
              match ag_RevokedAt a, ag_RetiredAt a with
              | None, _ => Err ErrNotRevoked
              | Some _, Some _ => Ok []
              | Some _, None => Ok [a]
              end
          end)
  else
    let& r := stmt Agents in
    mret (match r with
          | Err e => Err e
          | Ok all => Ok (filter (fun a => is_Some (ag_RevokedAt a) /\ ag_RetiredAt a = None) all)
          end).

(** The directory of an agent, from the row of its target. *)
Definition target_dir (t : Target) (id : string) : result reap_error string :=
  if String.eqb (tg_Kind t) "filesystem" then
    if String.eqb (tg_Path t) "" then Err ErrNoPath else Ok (JoinPath [tg_Path t; "agents"; id])
  else if String.eqb (tg_Kind t) "hosted" && String.eqb (tg_StorageMode t) "disk" then
    if String.eqb (tg_Path t) "" then Err ErrNoPath else Ok (JoinPath [tg_Path t; id])
  else Err ErrNoLocalData.

Definition agentRepoDir (a : Agent) : M (result reap_error string) :=
  if negb (IsSafeAgentDir (ag_ID a)) then mret (Err ErrUnsafeAgentID)
  else
    let& r := stmt (GroupByID (ag_GroupID a)) in
    match r with
    | Err e => mret (Err e)
    | Ok g =>
        let& r := stmt (TargetByID (gr_TargetID g)) in
        match r with
        | Err e => mret (Err e)
        | Ok t => mret (target_dir t (ag_ID a))
        end
    end.

Definition is_no_local_data (e : reap_error) : bool := match e with ErrNoLocalData => true | _ => false end.

Definition remove_dir (dir : result reap_error string) : M (result reap_error unit) :=
  match dir with Ok dir => RemoveAll dir | Err _ => mret (Ok tt) end.

Definition reapAgent (a : Agent) (now : Z) : M (result reap_error unit) :=
  let& dir := agentRepoDir a in
  if match dir with Err e => negb (is_no_local_data e) | Ok _ => false end
  then mret (match dir with Err e => Err e | Ok _ => Ok tt end)
  else
    let& r := stmt (delete_keys (ag_ID a)) in
    match r with
    | Err e => mret (Err e)
    | Ok _ =>
        let& r := remove_dir dir in
        match r with
        | Err e => mret (Err e)
        | Ok _ =>
            let& r := stmt (RetireAgent (ag_ID a) now) in
            mret (match r with Err e => Err e | Ok _ => match dir with Ok _ => Ok tt | Err e => Err e end end)
        end
    end.

(** What a run reports: [sweep], and the two counts of [Reap]. *)
Record sweep := mkSweep { sw_total : Z; sw_ok : Z; sw_errs : list (string * reap_error); sw_waiting : Z; sw_kept : Z }.

Fixpoint reap_loop (agents : list Agent) (now window : Z) (w : sweep) : M sweep :=
  match agents with
  | [] => mret w
  | a :: agents =>
      let& stop := cancelled in
      if stop : bool then mret (mkSweep (sw_total w) (sw_ok w) (sw_errs w ++ [("reap", ErrCancelled)]) (sw_waiting w) (sw_kept w))
      else if Sub now (default 0 (ag_RevokedAt a)) <? window then
        reap_loop agents now window (mkSweep (sw_total w) (sw_ok w) (sw_errs w) (sw_waiting w + 1) (sw_kept w))
      else
        let& r := reapAgent a now in
        reap_loop agents now window
          (match r with
           | Ok _ => mkSweep (sw_total w + 1) (sw_ok w + 1) (sw_errs w) (sw_waiting w) (sw_kept w)
           | Err e =>
               if is_no_local_data e then mkSweep (sw_total w + 1) (sw_ok w + 1) (sw_errs w) (sw_waiting w) (sw_kept w + 1)
               else mkSweep (sw_total w + 1) (sw_ok w) (sw_errs w ++ [(ag_ID a, e)]) (sw_waiting w) (sw_kept w)
           end)
  end.

(** [now] is what the clock shows at the start. *)
Definition Reap (j : Job) (now : Z) : M (result reap_error sweep) :=
  let& window := retentionWindow in
  let& agents := reapCandidates j in
  match agents with
  | Err e => mret (Err e)
  | Ok agents => let& w := reap_loop agents now window (mkSweep 0 0 [] 0 0) in mret (Ok w)
  end.
End Job.

(** ** Directories *)

Lemma Join_snoc l x : Join (l ++ [x]) "/" = match l with [] => "" | _ => Join l "/" +:+ "/" end +:+ x.
Proof.
  induction l as [|y l IH]; [done|]. destruct l as [|z l]; [cbn; by rewrite sapp_assoc|]. change (Join ((y :: z :: l) ++ [x]) "/") with (y +:+ ("/" +:+ Join ((z :: l) ++ [x]) "/")).
  rewrite IH. change (Join (y :: z :: l) "/") with (y +:+ ("/" +:+ Join (z :: l) "/")). by rewrite !sapp_assoc.
Qed.

(** What stands before the name of a file in a directory. *)
Definition path_root (path : string) : string :=
  (if is_rooted path then "/" else "") +:+ match clean_elements path with [] => "" | st => Join (reverse st) "/" +:+ "/" end.

Lemma safe_name id : IsSafeAgentDir id = true -> Contains id "/" = false /\ (forall rooted st, clean_element rooted st id = id :: st).
Proof.
  unfold IsSafeAgentDir. rewrite !andb_true_iff, !negb_true_iff, orb_false_iff. intros ((((H1 & H2) & H3) & H4 & _) & _). split; [done|].
  intros rooted st. unfold clean_element. by rewrite H1, H2, H3.
Qed.

Lemma clean_in path id : path <> "" -> Contains id "/" = false -> (forall rooted st, clean_element rooted st id = id :: st) -> Clean (path +:+ ("/" +:+ id)) = path_root path +:+ id.
Proof.
  intros Hp Hc He. assert (is_rooted (path +:+ ("/" +:+ id)) = is_rooted path) as Hr by (unfold is_rooted; destruct path; [done|]; by rewrite sapp_cons, !HasPrefix_byte).
  assert (clean_elements (path +:+ ("/" +:+ id)) = id :: clean_elements path) as Hel.
  { unfold clean_elements. rewrite Hr. change ("/" +:+ id) with (String "/" id). rewrite Split_app, foldl_app, (Split_single id) by done. cbn [foldl]. apply He. }
  unfold Clean, path_root. rewrite Hr, Hel. rewrite reverse_cons, Join_snoc. destruct (clean_elements path) as [|x st] eqn:E.
  - rewrite reverse_nil. by destruct (is_rooted path).
  - destruct (reverse (x :: st)) as [|y l] eqn:Er; [apply (f_equal length) in Er; rewrite length_reverse in Er; discriminate Er|]. destruct (is_rooted path); by rewrite ?sapp_assoc.
Qed.

(** The root of the device directories of a target. *)
Definition target_root (t : Target) : option string :=
  if String.eqb (tg_Path t) "" then None
  else if String.eqb (tg_Kind t) "filesystem" then Some (path_root (tg_Path t +:+ "/agents"))
  else if String.eqb (tg_Kind t) "hosted" && String.eqb (tg_StorageMode t) "disk" then Some (path_root (tg_Path t))
  else None.

Lemma target_dir_root t id dir : IsSafeAgentDir id = true -> target_dir t id = Ok dir -> exists r, target_root t = Some r /\ dir = r +:+ id.
Proof.
  intros [Hc He]%safe_name. unfold target_dir, target_root. destruct (String.eqb_spec (tg_Path t) "") as [_|Hp]; [by destruct (String.eqb (tg_Kind t) "filesystem"), (String.eqb (tg_Kind t) "hosted" && String.eqb (tg_StorageMode t) "disk")|].
  destruct (String.eqb (tg_Kind t) "filesystem"); [|destruct (String.eqb (tg_Kind t) "hosted" && _); [|done]]; (intros [= <-]; eexists; split; [done|]; cbn [JoinPath]; rewrite (proj2 (String.eqb_neq _ _)) by done; cbn [Join]).
  - rewrite <- clean_in; [by rewrite sapp_assoc|by destruct (tg_Path t)|done|done].
  - by rewrite <- clean_in.
Qed.

Lemma in_dir_spec dir f : in_dir dir f = true <-> f = dir \/ exists s, f = dir +:+ String "/" s.
Proof.
  unfold in_dir. rewrite orb_true_iff, String.eqb_eq, HasPrefix_spec. split.
  - intros [->|[s ->]]; [by left|right; exists s; by rewrite sapp_assoc].
  - intros [->|[s ->]]; [by left|right; exists s; by rewrite sapp_assoc].
Qed.

Lemma in_dir_cut r a f : Contains a "/" = false -> in_dir (r +:+ a) f = true -> exists s, f = r +:+ s /\ (Cut s "/"%char).1.1 = a.
Proof.
  intros Ha [->|[s ->]]%in_dir_spec; eexists; (split; [by rewrite ?sapp_assoc|]); [by rewrite Cut_notfound|].
  by rewrite (proj2 (Cut_found _ "/"%char a s)).
Qed.

Lemma prefixes_nest f r r' : HasPrefix f r = true -> HasPrefix f r' = true -> HasPrefix r r' = true \/ HasPrefix r' r = true.
Proof.
  rewrite !HasPrefix_spec. intros [s ->]. revert r'. induction r as [|c r IH]; intros r'; [right; by exists r'|]. intros [s' Hs']. destruct r' as [|d r']; [left; by exists (String c r)|].
  rewrite !sapp_cons in Hs'. injection Hs' as -> Hs'. destruct (IH r') as [[u ->]|[u ->]]; [by exists s'|left|right]; exists u; by rewrite sapp_cons.
Qed.

(** Directories of different devices do not meet. *)
Lemma dirs_apart r a b f : Contains a "/" = false -> Contains b "/" = false -> in_dir (r +:+ a) f = true -> in_dir (r +:+ b) f = true -> a = b.
Proof.
  intros Ha Hb (s & -> & <-)%in_dir_cut (s' & Hs' & <-)%in_dir_cut; [|done|done]. apply sapp_inj_l in Hs'. by subst s'.
Qed.

Lemma in_root r a f : in_dir (r +:+ a) f = true -> HasPrefix f r = true.
Proof. rewrite HasPrefix_spec. intros [->|[s ->]]%in_dir_spec; [by exists a|exists (a +:+ String "/" s); by rewrite sapp_assoc]. Qed.

(** ** What a run leaves alone *)

(** Rows are under their keys. *)
Definition keyed (s : fleet) : Prop := forall id a, fl_agents s !! id = Some a -> ag_ID a = id.

(** A device that is not revoked, or not for long enough. *)
Definition spared (now window : Z) (a : Agent) : Prop := match ag_RevokedAt a with None => True | Some r => Sub now r < window end.

(** No root of a target is inside another one. *)
Definition roots_apart (s : fleet) : Prop :=
  forall i j t u r q, fl_targets s !! i = Some t -> fl_targets s !! j = Some u -> target_root t = Some r -> target_root u = Some q -> HasPrefix r q = true -> r = q.

(** Targets stay where they are. *)
Definition targets_stay (s s' : fleet) : Prop :=
  forall i t, fl_targets s !! i = Some t -> exists u, fl_targets s' !! i = Some u /\ target_root u = target_root t.

#[local] Instance targets_stay_refl : Reflexive targets_stay.
Proof. intros s i t Ht. by exists t. Qed.

#[local] Instance targets_stay_trans : Transitive targets_stay.
Proof. intros s1 s2 s3 H1 H2 i t Ht. destruct (H1 i t Ht) as (u & Hu & <-). by apply H2. Qed.

Lemma apart_before s s' : targets_stay s s' -> roots_apart s' -> roots_apart s.
Proof.
  intros Hs Ha i j t u r q Ht Hu Hr Hq Hp. destruct (Hs i t Ht) as (t' & Ht' & Er). destruct (Hs j u Hu) as (u' & Hu' & Eq).
  apply (Ha i j t' u' r q); [done|done|congruence|congruence|done].
Qed.

(** Others revoke at the time they do, and enrol devices that are not revoked. *)
Definition in_time (now : Z) (o : statement) : Prop :=
  match o with StRevokeAgent _ at_ => now <= at_ | StCreateAgent a => ag_RevokedAt a = None | _ => True end.

Lemma new_row_free {A} (t : gmap Z A) : t !! new_row t = None.
Proof.
  destruct (t !! new_row t) as [x|] eqn:E; [|done]. exfalso. assert (new_row t ∈ (map_to_list t).*1) as H.
  { apply list_elem_of_fmap. exists (new_row t, x). split; [done|]. by apply elem_of_map_to_list. }
  apply (next_id_fresh id) in H. unfold new_row, id in *. lia.
Qed.

Lemma stay_alter g id s : (forall t, target_root (g t) = target_root t) -> targets_stay s (set_targets (alter g id) s).
Proof.
  intros Hg i t Ht. cbn [fl_targets set_targets]. destruct (decide (id = i)) as [->|Hne]; [|exists t; by rewrite lookup_alter_ne]. exists (g t). by rewrite lookup_alter_eq, Ht.
Qed.

Lemma stay_same s s' : fl_targets s' = fl_targets s -> targets_stay s s'.
Proof. intros E i t Ht. exists t. by rewrite E. Qed.

Lemma stay_other o s : targets_stay s (other_step o s).
Proof.
  destruct o; cbn [other_step]; try (by apply stay_same); try (by apply stay_alter).
  - apply stay_same. unfold CreateAgent. by destruct (_ || _).
  - apply stay_same. unfold CreateGroup. by destruct (_ !! _).
  - apply stay_same. unfold update_group. destruct (live_group _ _); [|done]. destruct (_ || _); [|done]. by case_bool_decide.
  - apply stay_same. unfold stamp_group. destruct (live_group _ _); [|done]. by destruct (_ || _).
  - intros i u Hu. exists u. split; [|done]. cbn [fl_targets set_targets CreateTarget snd]. rewrite lookup_insert_ne; [done|]. intros E. by rewrite <- E, new_row_free in Hu.
Qed.

Section Spared.
Context {RE : ReapEnvironment} (now window : Z) (b root f : string) (ib : Z).
Context (Hothers : forall k o, o ∈ rt_others (rturn_at k) -> in_time now o) (Hwindow : 24 * Hour <= window <= 3650 * 24 * Hour) (Hb : IsSafeAgentDir b = true) (Hf : in_dir (root +:+ b) f = true).

(** Device [b], whose directory on target [ib] has file [f], is spared. *)
Record intact (s : fleet) : Prop := {
  in_keyed : keyed s;
  in_spared a : fl_agents s !! b = Some a -> spared now window a;
  in_target : exists t, fl_targets s !! ib = Some t /\ target_root t = Some root;
  in_file : is_Some (fl_files s !! f)
}.

(** A change of rows that keeps their ids and does not revoke too early. *)
Lemma intact_alter g id s : (forall a, ag_ID (g a) = ag_ID a) -> (forall a, spared now window a -> spared now window (g a)) -> intact s -> intact (set_agents (alter g id) s).
Proof.
  intros Hid Hsp [Hk Hs Ht Hfile]. constructor; [| |done|done].
  - intros id' a Ha. cbn [fl_agents set_agents snd DeleteAgent] in Ha. apply lookup_alter_Some in Ha as [(-> & x & Hx & ->)|[_ Ha]]; [rewrite Hid|]; by apply Hk.
  - intros a Ha. cbn [fl_agents set_agents snd DeleteAgent] in Ha. apply lookup_alter_Some in Ha as [(-> & x & Hx & ->)|[_ Ha]]; [apply Hsp|]; by apply Hs.
Qed.

(** A change of other tables. *)
Lemma intact_tables s s' : fl_agents s' = fl_agents s -> targets_stay s s' -> (is_Some (fl_files s !! f) -> is_Some (fl_files s' !! f)) -> intact s -> intact s'.
Proof.
  intros Ea Ht Hfl [Hk Hs (t & Hti & Hr) Hfile]. constructor; [by unfold keyed; rewrite Ea|by rewrite Ea| |by apply Hfl]. destruct (Ht ib t Hti) as (u & Hu & Er). exists u. split; [done|congruence].
Qed.

Lemma intact_other o s : in_time now o -> intact s -> intact (other_step o s).
Proof.
  intros Ho Hs. pose proof (stay_other o s) as Hstay. destruct o; cbn [other_step] in *.
  - unfold CreateAgent in *. destruct (_ || _); [done|]. destruct Hs as [Hk Hs Ht Hfile]. cbn in Ho. constructor; [| |done|done].
    + intros id a' Ha. cbn [fl_agents set_agents snd DeleteAgent] in Ha. apply lookup_insert_Some in Ha as [[<- <-]|[_ Ha]]; [done|by apply Hk].
    + intros a' Ha. cbn [fl_agents set_agents snd DeleteAgent] in Ha. apply lookup_insert_Some in Ha as [[<- <-]|[_ Ha]]; [unfold spared; cbn; by rewrite Ho|by apply Hs].
  - by apply intact_alter.
  - apply intact_alter; [done| |done]. intros a _. unfold spared. cbn. cbn in Ho. pose proof (ts_range at_). unfold Hour, Minute, Second in *. apply Sub_lt; [unfold int64_min, int64_max|]; lia.
  - by apply intact_alter.
  - destruct Hs as [Hk Hs Ht Hfile]. constructor; [| |done|done].
    + intros id' a Ha. cbn [fl_agents set_agents snd DeleteAgent] in Ha. apply lookup_delete_Some in Ha as [_ Ha]. by apply Hk.
    + intros a Ha. cbn [fl_agents set_agents snd DeleteAgent] in Ha. apply lookup_delete_Some in Ha as [_ Ha]. by apply Hs.
  - eapply intact_tables; [|exact Hstay| |exact Hs]; unfold CreateGroup; by destruct (fl_targets s !! _).
  - eapply intact_tables; [|exact Hstay| |exact Hs]; unfold update_group; (destruct (live_group _ _); [|done]); (destruct (_ || _); [|done]); by case_bool_decide.
  - by apply (intact_tables s); [|exact Hstay|..].
  - eapply intact_tables; [|exact Hstay| |exact Hs]; unfold stamp_group; (destruct (live_group _ _); [|done]); by destruct (_ || _).
  - by apply (intact_tables s); [|exact Hstay|..].
  - by apply (intact_tables s); [|exact Hstay|..].
  - by apply (intact_tables s); [|exact Hstay|..].
  - by apply (intact_tables s); [|exact Hstay|..].
  - by apply (intact_tables s); [|exact Hstay|..].
  - by apply (intact_tables s); [|exact Hstay|..].
  - apply (intact_tables s); [done|exact Hstay| |exact Hs]. intros H. cbn [fl_files set_files]. rewrite lookup_insert_is_Some'. by right.
Qed.

(** ** Specifications *)

(** Whatever others do, targets stay, and if their roots are apart in the end and
    [P] holds, the device is intact in the end, and the result is a [Q]. *)
Definition spec {A} (P : Prop) (c : M A) (Q : A -> Prop) : Prop := forall s,
  targets_stay (rs_fleet s) (rs_fleet (c s).2)
  /\ (P -> roots_apart (rs_fleet (c s).2) -> intact (rs_fleet s) -> intact (rs_fleet (c s).2) /\ Q (c s).1).

Lemma spec_ret {A} (P : Prop) (a : A) (Q : A -> Prop) : (P -> Q a) -> spec P (mret a) Q.
Proof. intros H s. split; [done|]. intros HP _ Hs. split; [done|by apply H]. Qed.

Lemma spec_bind {A B} P (c : M A) (g : A -> M B) Q R : spec P c Q -> (forall a, spec (Q a) (g a) R) -> spec P (mbind c g) R.
Proof.
  intros Hc Hg s. unfold mbind. destruct (Hc s) as [H1 H2]. destruct (Hg (c s).1 (c s).2) as [H3 H4]. split; [by etrans|]. intros HP Ha Hs.
  destruct H2 as [Hs' HQ]; [done|by eapply apart_before|done|]. by apply H4.
Qed.

Lemma spec_mono {A} (P P' : Prop) (c : M A) (Q Q' : A -> Prop) : spec P c Q -> (P' -> P) -> (forall a, P' -> Q a -> Q' a) -> spec P' c Q'.
Proof. intros Hc HP HQ s. destruct (Hc s) as [H1 H2]. split; [done|]. intros H Ha Hs. destruct H2 as [? ?]; auto. Qed.

Lemma others_stay l : forall s, targets_stay s (foldl (fun fl o => other_step o fl) s l).
Proof. induction l as [|o l IH]; intros s; [done|]. etrans; [apply stay_other|apply IH]. Qed.

Lemma others_intact l : Forall (in_time now) l -> forall s, intact s -> intact (foldl (fun fl o => other_step o fl) s l).
Proof. induction 1 as [|o l Ho _ IH]; intros s Hs; [done|]. apply IH. by apply intact_other. Qed.

Lemma spec_turn {A} (P : Prop) (g : rturn -> fleet -> A * fleet) (Q : A -> Prop) :
  (forall t fl, targets_stay fl (g t fl).2 /\ (P -> roots_apart fl -> intact fl -> intact (g t fl).2 /\ Q (g t fl).1)) -> spec P (turn g) Q.
Proof.
  intros Hg s. unfold turn. set (t := rturn_at (rs_turn s)). set (fl := foldl _ _ _). destruct (Hg t fl) as [H1 H2]. destruct (g t fl) as [a fl'] eqn:E. cbn in *.
  split; [etrans; [apply others_stay|exact H1]|]. intros HP Ha Hs. apply H2; [done|by eapply apart_before|]. apply others_intact; [|done]. apply Forall_forall. intros o Ho. by eapply Hothers.
Qed.

Lemma spec_stmt {A} (P : Prop) (q : fleet -> result reap_error A * fleet) (Q : A -> Prop) :
  (forall fl, targets_stay fl (q fl).2 /\ (P -> roots_apart fl -> intact fl -> intact (q fl).2 /\ forall a, (q fl).1 = Ok a -> Q a)) -> spec P (stmt q) (fun r => forall a, r = Ok a -> Q a).
Proof.
  intros Hq. apply spec_turn. intros t fl. destruct (Hq fl) as [H1 H2]. destruct (rt_fate t); cbn [execute].
  - by split.
  - split; [done|]. by intros _ _ Hs.
  - cbn. split; [done|]. intros HP Ha Hs. split; [by apply H2|done].
Qed.

(** A statement that reads. *)
Lemma spec_read {A} (P : Prop) (g : fleet -> result reap_error A) (Q : A -> Prop) : (forall fl a, P -> roots_apart fl -> intact fl -> g fl = Ok a -> Q a) ->
  spec P (stmt (fun fl => (g fl, fl))) (fun r => forall a, r = Ok a -> Q a).
Proof. intros Hg. apply spec_stmt. intros fl. split; [done|]. intros HP Ha Hs. split; [done|]. intros a Ea. by eapply Hg. Qed.

Lemma window_spec : spec True retentionWindow (fun _ => True).
Proof.
  unfold retentionWindow, RevokedRetentionDays. eapply spec_bind with (Q := fun _ => True); [|intros d; by apply spec_ret].
  eapply spec_bind with (Q := fun _ => True); [|intros r; by apply spec_ret]. eapply spec_mono; [by apply (spec_read True (fun fl => (read_setting RevokedRetentionSetting fl).1) (fun _ => True))|done|done].
Qed.

Lemma candidates_spec j : spec True (reapCandidates j) (fun r => forall l a, r = Ok l -> a ∈ l -> ag_ID a = b -> Sub now (default 0 (ag_RevokedAt a)) < window).
Proof.
  assert (forall fl a, intact fl -> fl_agents fl !! ag_ID a = Some a -> is_Some (ag_RevokedAt a) -> ag_ID a = b -> Sub now (default 0 (ag_RevokedAt a)) < window) as Hrow.
  { intros fl a Hfl Ha [r Hr] E. rewrite E in Ha. pose proof (in_spared _ Hfl a Ha) as Hs. unfold spared in Hs. rewrite Hr in *. done. }
  unfold reapCandidates. destruct (negb _).
  - eapply spec_bind; [apply (spec_read _ _ (fun a => is_Some (ag_RevokedAt a) -> ag_ID a = b -> Sub now (default 0 (ag_RevokedAt a)) < window))|].
    + intros fl a _ _ Hfl Ha Hr E. destruct (fl_agents fl !! Jobs.AgentID j) as [a'|] eqn:Ej; [|done]. injection Ha as ->. eapply Hrow; [done| |done|done]. by rewrite (in_keyed _ Hfl _ _ Ej).
    + intros [a|e]; apply spec_ret; [|done]. intros H l a'. destruct (ag_RevokedAt a) as [r|] eqn:Er; [|done]. destruct (ag_RetiredAt a); intros [= <-]; [by intros ?%not_elem_of_nil|].
      intros ->%list_elem_of_singleton E. apply (H a eq_refl); [by rewrite Er|done].
  - eapply spec_bind; [apply (spec_read _ (fun fl => (Agents fl).1) (fun all => forall a, a ∈ all -> is_Some (ag_RevokedAt a) -> ag_ID a = b -> Sub now (default 0 (ag_RevokedAt a)) < window))|].
    + intros fl all _ _ Hfl [= <-] a Ha Hr E. rewrite merge_sort_Permutation in Ha. apply list_elem_of_fmap in Ha as ([id a'] & -> & Ha%elem_of_map_to_list). cbn in *.
      eapply Hrow; [done| |done|done]. by rewrite (in_keyed _ Hfl _ _ Ha).
    + intros [all|e]; apply spec_ret; [|done]. intros H l a [= <-] [[Hr _] Ha]%list_elem_of_filter E. by eapply H.
Qed.

Lemma repo_dir_spec a : spec True (agentRepoDir a) (fun r => forall dir, r = Ok dir -> ag_ID a <> b -> in_dir dir f = false).
Proof.
  unfold agentRepoDir. destruct (IsSafeAgentDir (ag_ID a)) eqn:Ea; cbn [negb]; [|by apply spec_ret]. eapply spec_bind; [by apply (spec_read _ _ (fun _ => True))|].
  intros [g|e]; [|by apply spec_ret]. eapply spec_bind; [apply (spec_read _ _ (fun t => forall dir, target_dir t (ag_ID a) = Ok dir -> ag_ID a <> b -> in_dir dir f = false))|].
  - intros fl t _ Hap Hfl Ht dir Hd Hne. destruct (fl_targets fl !! gr_TargetID g) as [t'|] eqn:Eg; [|done]. injection Ht as ->. destruct (in_target _ Hfl) as (tb & Htb & Hroot).
    destruct (target_dir_root t (ag_ID a) dir Ea Hd) as (r & Hr & ->). destruct (in_dir (r +:+ ag_ID a) f) eqn:Ef; [exfalso|done].
    assert (r = root) as ->. { destruct (prefixes_nest f r root (in_root _ _ _ Ef) (in_root _ _ _ Hf)) as [H|H]; [exact (Hap _ _ t tb r root Eg Htb Hr Hroot H)|symmetry; exact (Hap _ _ tb t root r Htb Eg Hroot Hr H)]. }
    apply Hne. apply (dirs_apart root _ _ f); [by apply safe_name|by apply safe_name|done|done].
  - intros [t|e]; apply spec_ret; [|done]. intros H dir Hd. by apply (H t).
Qed.

Lemma remove_spec dir : spec (in_dir dir f = false) (RemoveAll dir) (fun _ => True).
Proof.
  apply spec_turn. intros t fl. destruct (rt_left t) as [stays|]; cbn [fst snd]; (split; [by apply stay_same|]); intros Hd _ Hfl;
    (split; [|done]); (apply (intact_tables fl); [done|by apply stay_same| |done]); intros [d Hd']; exists d; cbn [fl_files set_files]; apply map_lookup_filter_Some; (split; [done|]); by rewrite Hd.
Qed.

Lemma reap_agent_spec a : spec (ag_ID a <> b) (reapAgent a now) (fun _ => True).
Proof.
  unfold reapAgent. eapply spec_bind; [eapply spec_mono; [apply (repo_dir_spec a)|done|exact (fun r Hne H => fun dir Hd => H dir Hd Hne)]|]. intros dir. destruct (match dir with Err _ => _ | Ok _ => _ end); [by apply spec_ret|].
  eapply spec_bind with (Q := fun _ => forall d, dir = Ok d -> in_dir d f = false).
  { eapply spec_mono; [apply (spec_stmt (forall d, dir = Ok d -> in_dir d f = false) _ (fun _ => True))|done|intros r H _; exact H].
    intros fl. split; [by apply stay_same|]. intros _ _ Hfl. split; [|done]. by apply (intact_tables fl); [|apply stay_same|..]. }
  intros [n|e]; [|by apply spec_ret]. eapply spec_bind with (Q := fun _ => True).
  { destruct dir as [d|e]; cbn [remove_dir]; [|by apply spec_ret]. eapply spec_mono; [apply (remove_spec d)| |done]. intros H. by apply H. }
  intros [_|e]; [|by apply spec_ret]. eapply spec_bind; [apply (spec_stmt True _ (fun _ => True))|by intros [?|?]; apply spec_ret].
  intros fl. split; [by apply stay_same|]. intros _ _ Hfl. split; [|done]. apply intact_alter; [| |done]; intros a'; unfold retire, spared; by destruct (ag_RetiredAt a').
Qed.

Lemma reap_loop_spec agents : forall w, spec (forall a, a ∈ agents -> ag_ID a = b -> Sub now (default 0 (ag_RevokedAt a)) < window) (reap_loop agents now window w) (fun _ => True).
Proof.
  induction agents as [|a agents IH]; intros w; [by apply spec_ret|]. cbn [reap_loop].
  eapply spec_bind with (Q := fun _ => forall a', a' ∈ a :: agents -> ag_ID a' = b -> Sub now (default 0 (ag_RevokedAt a')) < window); [by apply spec_turn|].
  intros [|]; [by apply spec_ret|]. destruct (Z.ltb_spec (Sub now (default 0 (ag_RevokedAt a))) window) as [Hlt|Hge].
  - eapply spec_mono; [apply IH| |done]. intros H a' Ha'. apply H. by right.
  - eapply spec_bind with (Q := fun _ => forall a', a' ∈ agents -> ag_ID a' = b -> Sub now (default 0 (ag_RevokedAt a')) < window).
    + eapply spec_mono; [apply reap_agent_spec| |].
      * intros H E. specialize (H a ltac:(by left) E). lia.
      * intros _ H _ a' Ha'. apply H. by right.
    + intros r. apply IH.
Qed.
End Spared.

(** Where the tables say that the repository of an agent is. *)
Definition repository (a : Agent) (s : fleet) : result reap_error string :=
  if negb (IsSafeAgentDir (ag_ID a)) then Err ErrUnsafeAgentID
  else match live_group (ag_GroupID a) s with
       | None => Err ErrRowNotFound
       | Some g => match fl_targets s !! gr_TargetID g with None => Err ErrRowNotFound | Some t => target_dir t (ag_ID a) end
       end.

Lemma window_bounds {RE : ReapEnvironment} s : 24 * Hour <= (retentionWindow s).1 <= 3650 * 24 * Hour.
Proof.
  unfold retentionWindow, RevokedRetentionDays, mbind, mret. cbn [fst snd]. unfold DefaultRetentionDays, MinRetentionDays, MaxRetentionDays, Hour, Minute, Second.
  destruct (stmt _ s).1 as [v|e]; [|lia]. destruct (String.eqb v ""); [lia|]. destruct (ParseInt v) as [n|]; [|lia]. destruct (Z.leb_spec 1 n), (Z.leb_spec n 3650); cbn; lia.
Qed.

(** C17.  A reap spares who is not due.  Let a run of the reap job meet any
    interleaving with the other statements of the server -- devices enrol, report
    and write files, are revoked, groups and targets are made and changed -- and
    any failures: statements that are not executed or whose answers are lost,
    removals that stop half-way, cancellation.  A device that at the start is not
    revoked, or has been for less than the retention window in force, which is at
    least a day, keeps every file of its repository, provided that no target's root
    is inside the root of another one. *)
Theorem reap_spares {RE : ReapEnvironment} j now s b a dir f : let window := (retentionWindow s).1 in let s' := (Reap j now s).2 in
  keyed (rs_fleet s) -> (forall k o, o ∈ rt_others (rturn_at k) -> in_time now o) -> roots_apart (rs_fleet s') ->
  fl_agents (rs_fleet s) !! b = Some a -> spared now window a -> repository a (rs_fleet s) = Ok dir -> in_dir dir f = true ->
  is_Some (fl_files (rs_fleet s) !! f) -> 24 * Hour <= window /\ is_Some (fl_files (rs_fleet s') !! f).
Proof.
  intros window s' Hk Ho Hap Ha Hsp Hr Hf Hfile. pose proof (window_bounds s) as Hw. fold window in Hw. split; [lia|]. unfold repository in Hr. destruct (IsSafeAgentDir (ag_ID a)) eqn:Es; cbn [negb] in Hr; [|done].
  destruct (live_group (ag_GroupID a) (rs_fleet s)) as [g|]; [|done]. destruct (fl_targets (rs_fleet s) !! gr_TargetID g) as [t|] eqn:Et; [|done]. destruct (target_dir_root t (ag_ID a) dir Es Hr) as (root & Hroot & ->).
  pose proof (Hk b a Ha) as Eb. subst b. assert (intact now window (ag_ID a) root f (gr_TargetID g) (rs_fleet s)) as Hin.
  { constructor; [done| |by exists t|done]. intros a' Ha'. rewrite Ha in Ha'. by injection Ha' as <-. }
  assert (spec now window (ag_ID a) root f (gr_TargetID g) True (let& _ := retentionWindow in let& agents := reapCandidates j in
    match agents with Err e => mret (Err e) | Ok agents => let& w := reap_loop agents now window (mkSweep 0 0 [] 0 0) in mret (Ok w) end) (fun _ : result reap_error sweep => True)) as Hspec.
  { eapply spec_bind; [by apply window_spec|].
    intros days. eapply spec_bind; [by apply candidates_spec|]. intros [agents|e]; [|by apply spec_ret]. eapply spec_bind; [|intros w; by apply spec_ret].
    eapply spec_mono; [by apply reap_loop_spec| |by intros]. intros H a' Ha' E. by eapply H. }
  destruct (Hspec s) as [_ H]. by destruct (H I Hap Hin) as [[] _].
Qed.

(** ** What a run does *)

(** Nothing fails, and nobody else does anything. *)
Class Quiet {RE : ReapEnvironment} : Prop := quiet_turn k : rturn_at k = mkRTurn [] Executed false None.

Section Quiet.
Context {RE : ReapEnvironment} {Q : Quiet}.

(** In quiet a command is a function of the tables. *)
Definition effect {A} (c : M A) (g : fleet -> A * fleet) : Prop := forall s, (c s).1 = (g (rs_fleet s)).1 /\ rs_fleet (c s).2 = (g (rs_fleet s)).2.

Lemma effect_ret {A} (a : A) : effect (mret a) (fun fl => (a, fl)).
Proof. done. Qed.

Lemma effect_bind {A B} (c : M A) (k : A -> M B) g h : effect c g -> (forall a, effect (k a) (h a)) -> effect (mbind c k) (fun fl => h (g fl).1 (g fl).2).
Proof. intros Hc Hk s. unfold mbind. destruct (Hc s) as [E1 E2]. rewrite <- E1, <- E2. apply Hk. Qed.

Lemma effect_turn {A} (f : rturn -> fleet -> A * fleet) : effect (turn f) (f (mkRTurn [] Executed false None)).
Proof. intros s. unfold turn. rewrite quiet_turn. cbn [rt_others foldl]. by destruct (f _ _). Qed.

Lemma effect_stmt {A} (q : fleet -> result reap_error A * fleet) : effect (stmt q) q.
Proof. apply effect_turn. Qed.

Lemma effect_eq {A} (c : M A) g h : effect c g -> (forall fl, g fl = h fl) -> effect c h.
Proof. intros Hc E s. rewrite <- E. apply Hc. Qed.

Lemma effect_dir a : effect (agentRepoDir a) (fun fl => (repository a fl, fl)).
Proof.
  unfold agentRepoDir, repository. destruct (negb _); [apply effect_ret|]. eapply effect_eq.
  - apply effect_bind; [apply effect_stmt|]. intros r. instantiate (1 := fun r fl => (match r with Err e => Err e | Ok g => match fl_targets fl !! gr_TargetID g with None => Err ErrRowNotFound | Some t => target_dir t (ag_ID a) end end, fl)).
    destruct r as [g|e]; [|apply effect_ret]. eapply effect_eq; [apply effect_bind; [apply effect_stmt|]|].
    + intros r. instantiate (1 := fun r fl => (match r with Err e => Err e | Ok t => target_dir t (ag_ID a) end, fl)). by destruct r.
    + intros fl. cbn. by destruct (fl_targets fl !! gr_TargetID g).
  - intros fl. cbn. by destruct (live_group (ag_GroupID a) fl).
Qed.

(** What becomes of the tables when an agent is reaped. *)
Definition without_files (dir : string) (fl : fleet) : fleet := set_files (filter (fun '(path, _) => in_dir dir path = false)) fl.

Definition reaped (a : Agent) (now : Z) (fl : fleet) : result reap_error unit * fleet :=
  let gone := (delete_keys (ag_ID a) fl).2 in
  match repository a fl with
  | Ok dir => (Ok tt, (RetireAgent (ag_ID a) now (without_files dir gone)).2)
  | Err ErrNoLocalData => (Err ErrNoLocalData, (RetireAgent (ag_ID a) now gone).2)
  | Err e => (Err e, fl)
  end.

(** A statement and what follows its success. *)
Lemma effect_then {A B} (q : fleet -> result reap_error A * fleet) (k : M (result reap_error B)) h : (forall fl, exists a, (q fl).1 = Ok a) -> effect k h ->
  effect (let& r := stmt q in match r with Err e => mret (Err e) | Ok _ => k end) (fun fl => h (q fl).2).
Proof.
  intros Hq Hk s. unfold mbind. destruct (effect_stmt q s) as [E1 E2]. destruct (Hq (rs_fleet s)) as [a Ea]. rewrite E1, Ea. rewrite <- E2. apply Hk.
Qed.

Lemma effect_remove {B} dir (k : M (result reap_error B)) h : effect k h ->
  effect (let& r := RemoveAll dir in match r with Err e => mret (Err e) | Ok _ => k end) (fun fl => h (without_files dir fl)).
Proof.
  intros Hk s. unfold mbind. destruct (effect_turn (fun t fl => match rt_left t with
    | None => (Ok tt : result reap_error unit, without_files dir fl)
    | Some stays => (Err ErrRemove, set_files (filter (fun '(path, _) => in_dir dir path && negb (stays path) = false)) fl) end) s) as [E1 E2].
  change (turn _ s) with (RemoveAll dir s) in E1, E2. rewrite E1. cbn [rt_left fst snd] in *. rewrite <- E2. apply Hk.
Qed.

Lemma effect_reap a now : effect (reapAgent a now) (reaped a now).
Proof.
  unfold reapAgent. eapply effect_eq; [apply effect_bind; [apply effect_dir|]|].
  - intros dir. instantiate (1 := fun dir fl => match dir with
      | Ok dir => (Ok tt, (RetireAgent (ag_ID a) now (without_files dir (delete_keys (ag_ID a) fl).2)).2)
      | Err ErrNoLocalData => (Err ErrNoLocalData, (RetireAgent (ag_ID a) now (delete_keys (ag_ID a) fl).2).2)
      | Err e => (Err e, fl)
      end). cbv beta. destruct dir as [dir|e].
    + cbn [negb]. apply (effect_then (delete_keys (ag_ID a)) _ (fun fl => (Ok tt, (RetireAgent (ag_ID a) now (without_files dir fl)).2))); [intros fl; by eexists|].
      apply (effect_remove dir _ (fun fl => (Ok tt, (RetireAgent (ag_ID a) now fl).2))). intros s. unfold mbind. destruct (effect_stmt (RetireAgent (ag_ID a) now) s) as [E1 E2]. rewrite E1. split; [done|exact E2].
    + destruct e; try apply effect_ret. cbn [negb is_no_local_data]. apply (effect_then (delete_keys (ag_ID a)) _ (fun fl => (Err ErrNoLocalData, (RetireAgent (ag_ID a) now fl).2))); [intros fl; by eexists|].
      intros s. unfold mbind. cbn [remove_dir mret fst snd]. destruct (effect_stmt (RetireAgent (ag_ID a) now) s) as [E1 E2]. rewrite E1. split; [done|exact E2].
  - done.
Qed.

(** Nothing of an agent is changed: its row, its keys, the files of its
    repository. *)
Definition kept (a : Agent) (fl fl' : fleet) : Prop :=
  fl_agents fl' !! ag_ID a = fl_agents fl !! ag_ID a
  /\ (forall k x, Keys.AgentID x = ag_ID a -> fl_keys fl' !! k = Some x <-> fl_keys fl !! k = Some x)
  /\ forall dir f, repository a fl = Ok dir -> in_dir dir f = true -> fl_files fl' !! f = fl_files fl !! f.

(** An agent is retired, and has no keys. *)
Definition retired (now : Z) (a : Agent) (fl : fleet) : Prop :=
  fl_agents fl !! ag_ID a = Some (retire now a) /\ forall k x, fl_keys fl !! k = Some x -> Keys.AgentID x <> ag_ID a.

(** What the job has done about an agent of its list. *)
Definition attended (now window : Z) (a : Agent) (fl fl' : fleet) (w : sweep) : Prop :=
  if Sub now (default 0 (ag_RevokedAt a)) <? window then kept a fl fl'
  else match repository a fl with
       | Ok dir => retired now a fl' /\ forall f, in_dir dir f = true -> fl_files fl' !! f = None
       | Err ErrNoLocalData => retired now a fl'
       | Err e => kept a fl fl' /\ (ag_ID a, e) ∈ sw_errs w
       end.

(** A file that is in the repository of an agent of the list whose time is up. *)
Definition forfeited (now window : Z) (l : list Agent) (fl : fleet) (f : string) : Prop :=
  exists a dir, a ∈ l /\ window <= Sub now (default 0 (ag_RevokedAt a)) /\ repository a fl = Ok dir /\ in_dir dir f = true.

(** What the job leaves alone on its way. *)
Record passed (now window : Z) (l : list Agent) (fl fl' : fleet) (w w' : sweep) : Prop := {
  pa_groups : fl_groups fl' = fl_groups fl;
  pa_targets : fl_targets fl' = fl_targets fl;
  pa_files f : fl_files fl' !! f = fl_files fl !! f \/ fl_files fl' !! f = None /\ forfeited now window l fl f;
  pa_agents id : id ∉ ag_ID <$> l -> fl_agents fl' !! id = fl_agents fl !! id;
  pa_keys k x : fl_keys fl' !! k = Some x -> fl_keys fl !! k = Some x;
  pa_kept k x : Keys.AgentID x ∉ ag_ID <$> l -> fl_keys fl !! k = Some x -> fl_keys fl' !! k = Some x;
  pa_errs e : e ∈ sw_errs w -> e ∈ sw_errs w'
}.

Lemma repository_same a fl fl' : fl_groups fl' = fl_groups fl -> fl_targets fl' = fl_targets fl -> repository a fl' = repository a fl.
Proof. intros Eg Et. unfold repository, live_group. by rewrite Eg, Et. Qed.

Lemma repository_passed now window l fl fl' w w' a : passed now window l fl fl' w w' -> repository a fl' = repository a fl.
Proof. intros []. by apply repository_same. Qed.

(** Repositories of different agents do not meet. *)
Lemma repositories_apart fl a b da db f : roots_apart fl -> repository a fl = Ok da -> repository b fl = Ok db ->
  in_dir da f = true -> in_dir db f = true -> ag_ID a = ag_ID b.
Proof.
  assert (forall a d, repository a fl = Ok d -> IsSafeAgentDir (ag_ID a) = true /\ exists i t r, fl_targets fl !! i = Some t /\ target_root t = Some r /\ d = r +:+ ag_ID a) as Hd.
  { intros c d. unfold repository. destruct (IsSafeAgentDir (ag_ID c)) eqn:Es; cbn [negb]; [|done]. destruct (live_group _ _) as [g|]; [|done].
    destruct (fl_targets fl !! gr_TargetID g) as [t|] eqn:Et; [|done]. intros (r & Hr & ->)%target_dir_root; [|done]. split; [done|]. by exists (gr_TargetID g), t, r. }
  intros Hap (Sa & i & t & r & Ht & Hr & ->)%Hd (Sb & j & u & q & Hu & Hq & ->)%Hd Ha Hb.
  assert (r = q) as ->.
  { destruct (prefixes_nest f r q) as [Hp|Hp]; [by eapply in_root|by eapply in_root|exact (Hap i j t u r q Ht Hu Hr Hq Hp)|symmetry; exact (Hap j i u t q r Hu Ht Hq Hr Hp)]. }
  by eapply (dirs_apart q); [apply safe_name|apply safe_name|..].
Qed.

Lemma passed_refl now window l fl w w' : sw_errs w' = sw_errs w -> passed now window l fl fl w w'.
Proof. intros E. constructor; try done; [by left|by rewrite E]. Qed.

Lemma passed_trans now window l a fl1 fl2 fl3 w1 w2 w3 :
  passed now window [a] fl1 fl2 w1 w2 -> passed now window l fl2 fl3 w2 w3 -> passed now window (a :: l) fl1 fl3 w1 w3.
Proof.
  intros H1 H2. pose proof (fun b => repository_passed _ _ _ _ _ _ _ b H1) as Hr. destruct H1, H2. constructor; try congruence; try (by auto).
  - intros f. destruct (pa_files1 f) as [->|[-> (b & dir & Hb & Hd & Hp & Hf)]].
    + destruct (pa_files0 f) as [->|[-> (b & dir & Hb & Hd)]]; [by left|right]. split; [done|]. exists b, dir. split; [|done]. apply list_elem_of_singleton in Hb as ->. by left.
    + right. split; [done|]. exists b, dir. rewrite Hr in Hp. split; [by right|done].
  - intros i [Hi Hids]%not_elem_of_cons. rewrite pa_agents1 by done. apply pa_agents0. by intros ->%list_elem_of_singleton.
  - intros k x [Hi Hids]%not_elem_of_cons Hx. apply pa_kept1; [done|]. apply pa_kept0; [|done]. by intros ?%list_elem_of_singleton.
Qed.

Lemma reaped_passes a now window fl w w' : window <= Sub now (default 0 (ag_RevokedAt a)) -> (forall e, e ∈ sw_errs w -> e ∈ sw_errs w') ->
  passed now window [a] fl (reaped a now fl).2 w w'.
Proof.
  intros Hdue He. assert (forall fl', fl_groups fl' = fl_groups fl -> fl_targets fl' = fl_targets fl -> fl_agents fl' = fl_agents fl -> fl_keys fl' = fl_keys (delete_keys (ag_ID a) fl).2 ->
    (forall f, fl_files fl' !! f = fl_files fl !! f \/ fl_files fl' !! f = None /\ forfeited now window [a] fl f) -> passed now window [a] fl (RetireAgent (ag_ID a) now fl').2 w w') as H.
  { intros fl' Eg Et Ea Ek Hf. constructor; [done|done|done| | | |done]; cbn [RetireAgent snd set_agents fl_agents fl_keys]; rewrite ?Ea, ?Ek.
    - intros id Hid. apply lookup_alter_ne. intros <-. apply Hid. by left.
    - intros k x [H _]%map_lookup_filter_Some. exact H.
    - intros k x Hx Hk. apply map_lookup_filter_Some. split; [done|]. intros E. apply Hx. rewrite E. by left. }
  unfold reaped. destruct (repository a fl) as [dir|e] eqn:Er; [|destruct e; try (by apply passed_refl); try (by constructor; try done; left); apply H; try done; by left].
  apply H; try done. intros f. cbn [without_files set_files fl_files]. destruct (in_dir dir f) eqn:Ef; [right|left].
  - split; [apply map_lookup_filter_None; right; intros d _; by rewrite Ef|]. exists a, dir. split; [by left|done].
  - apply option_eq. intros d. rewrite map_lookup_filter_Some. by split; [intros [? _]|].
Qed.

Lemma kept_trans a fl1 fl2 fl3 : repository a fl2 = repository a fl1 -> kept a fl1 fl2 -> kept a fl2 fl3 -> kept a fl1 fl3.
Proof.
  intros Er (A1 & K1 & F1) (A2 & K2 & F2). split_and!; [congruence|intros k x Hx; by rewrite K2, K1|].
  intros dir f Hd Hf. by rewrite (F2 dir f), (F1 dir f) by congruence.
Qed.

Lemma kept_passed now window l a fl fl' w w' : roots_apart fl -> ag_ID a ∉ ag_ID <$> l -> passed now window l fl fl' w w' -> kept a fl fl'.
Proof.
  intros Hap Ha []. split_and!; [by apply pa_agents0|intros k x Hx; split; [apply pa_keys0|apply pa_kept0; by rewrite Hx]|].
  intros dir f Hd Hf. destruct (pa_files0 f) as [->|[_ (b & db & Hb & _ & Hdb & Hfb)]]; [done|]. exfalso. apply Ha.
  rewrite (repositories_apart fl a b dir db f) by done. by apply list_elem_of_fmap_2.
Qed.

(** The agents that follow do not undo what was done about one ... *)
Lemma attended_after now window a l fl fl' fl'' w w' : roots_apart fl' -> repository a fl' = repository a fl -> passed now window l fl' fl'' w w' -> ag_ID a ∉ ag_ID <$> l ->
  attended now window a fl fl' w -> attended now window a fl fl'' w'.
Proof.
  intros Hap Er Hp Ha. pose proof (kept_passed _ _ _ _ _ _ _ _ Hap Ha Hp) as Hk. destruct Hp. unfold attended, retired. rewrite (pa_agents0 _ Ha).
  destruct (_ <? _); [intros H; by eapply kept_trans|]. destruct (repository a fl) as [dir|e] eqn:E.
  - intros ((H1 & H2) & H3). split_and!; [done|intros k x Hx; by eapply H2, pa_keys0|]. intros f Hf. destruct (pa_files0 f) as [->|[-> _]]; [by apply H3|done].
  - assert (forall P : Prop, kept a fl fl' /\ P -> (P -> (ag_ID a, e) ∈ sw_errs w') -> kept a fl fl'' /\ (ag_ID a, e) ∈ sw_errs w') as H.
    { intros P [H1 H2] HP. split; [|by apply HP]. eapply kept_trans; [by rewrite Er|done|done]. }
    destruct e; intros Hat; try (apply (H _ Hat); apply pa_errs0). destruct Hat as [H1 H2]. split; [done|]. intros k x Hx. by eapply H2, pa_keys0.
Qed.

(** ... and those before leave it to be done. *)
Lemma attended_before now window a fl fl' fl'' w : repository a fl' = repository a fl -> kept a fl fl' -> attended now window a fl' fl'' w -> attended now window a fl fl'' w.
Proof.
  intros Er Hk. unfold attended. rewrite Er. destruct (_ <? _); [by apply kept_trans|]. destruct (repository a fl) as [dir|e] eqn:E; [done|].
  destruct e; try done; intros [H ?]; (split; [|done]); eapply kept_trans; (by rewrite ?Er, ?E || done).
Qed.

Lemma kept_refl a fl : kept a fl fl.
Proof. by split_and!. Qed.

Lemma reaped_attends now window a fl w' : window <= Sub now (default 0 (ag_RevokedAt a)) -> fl_agents fl !! ag_ID a = Some a ->
  (forall e, (reaped a now fl).1 = Err e -> is_no_local_data e = false -> (ag_ID a, e) ∈ sw_errs w') -> attended now window a fl (reaped a now fl).2 w'.
Proof.
  intros Hw Ha He. assert (forall fl', fl_agents fl' = fl_agents fl -> fl_keys fl' = fl_keys (delete_keys (ag_ID a) fl).2 -> retired now a (RetireAgent (ag_ID a) now fl').2) as Hgone.
  { intros fl' Ea Ek. unfold retired. cbn [RetireAgent snd set_agents fl_agents fl_keys]. rewrite Ea, Ek. split; [by rewrite lookup_alter_eq, Ha|]. by intros k x [_ H]%map_lookup_filter_Some. }
  unfold attended. rewrite (proj2 (Z.ltb_ge _ _)) by done. unfold reaped in *. destruct (repository a fl) as [dir|e].
  - split; [by apply Hgone|]. intros f Hf. cbn [RetireAgent snd set_agents fl_files without_files set_files]. apply map_lookup_filter_None. right. intros d _. by rewrite Hf.
  - destruct e; try (by apply Hgone); (split; [apply kept_refl|]); by apply He.
Qed.

Lemma loop_attends now window l : forall s w, NoDup (ag_ID <$> l) -> roots_apart (rs_fleet s) -> (forall a, a ∈ l -> fl_agents (rs_fleet s) !! ag_ID a = Some a) -> let r := reap_loop l now window w s in
  passed now window l (rs_fleet s) (rs_fleet r.2) w r.1 /\ forall a, a ∈ l -> attended now window a (rs_fleet s) (rs_fleet r.2) r.1.
Proof.
  induction l as [|a l IH]; intros s w Hnd Hap Hl; cbn zeta; [split; [by apply passed_refl|by intros ? ?%not_elem_of_nil]|]. cbn [fmap list_fmap] in Hnd |- *. apply NoDup_cons in Hnd as [Ha Hnd].
  destruct (effect_turn (fun t fl => (rt_cancelled t, fl)) s) as [E1 E2]. change (turn _ s) with (cancelled s) in E1, E2. cbn [rt_cancelled fst snd] in E1, E2.
  set (r := reap_loop (a :: l) now window w s). pose proof (eq_refl r) as Er. unfold r at 2 in Er. cbn [reap_loop] in Er. unfold mbind at 1 in Er. rewrite E1 in Er.
  set (s1 := (cancelled s).2) in *. rewrite <- E2 in Hl, Hap |- *. clearbody r. clear E1 E2.
  (* the head of the list is done, and the rest follows *)
  assert (forall s2 w2, passed now window [a] (rs_fleet s1) (rs_fleet s2) w w2 -> attended now window a (rs_fleet s1) (rs_fleet s2) w2 ->
    let r := reap_loop l now window w2 s2 in passed now window (a :: l) (rs_fleet s1) (rs_fleet r.2) w r.1
      /\ forall a', a' ∈ a :: l -> attended now window a' (rs_fleet s1) (rs_fleet r.2) r.1) as Hnext.
  { intros s2 w2 Hp Hat. assert (roots_apart (rs_fleet s2)) as Hap2 by (unfold roots_apart; by rewrite (pa_targets _ _ _ _ _ _ _ Hp)).
    assert (forall a', a' ∈ l -> ag_ID a' ∉ ag_ID <$> [a]) as Hother.
    { intros a' Ha' E%list_elem_of_singleton. apply Ha. rewrite <- E. by apply list_elem_of_fmap_2. }
    destruct (IH s2 w2 Hnd Hap2) as [Hp2 Hat2]; [intros a' Ha'; rewrite (pa_agents _ _ _ _ _ _ _ Hp) by auto; apply Hl; by right|].
    split; [by eapply passed_trans|]. intros a' [->|Ha']%elem_of_cons.
    - eapply attended_after; [exact Hap2|by eapply repository_passed|exact Hp2|done|done].
    - eapply attended_before; [by eapply repository_passed|eapply kept_passed; [exact Hap|by apply Hother|exact Hp]|by apply Hat2]. }
  cbn zeta in Hnext. pose proof (Hl a ltac:(by left)) as Hrow. destruct (Z.ltb_spec (Sub now (default 0 (ag_RevokedAt a))) window) as [Hlt|Hge]; subst r.
  - apply (Hnext s1); [by apply passed_refl|]. unfold attended. rewrite (proj2 (Z.ltb_lt _ _)) by done. apply kept_refl.
  - unfold mbind. destruct (effect_reap a now s1) as [F1 F2]. apply Hnext; rewrite F2.
    + apply reaped_passes; [done|]. intros e He. rewrite F1. destruct (reaped a now (rs_fleet s1)).1 as [?|e']; [done|]. destruct (is_no_local_data e'); [done|]. cbn [sw_errs]. apply elem_of_app. by left.
    + apply reaped_attends; [done|done|]. intros e He Hn. rewrite F1, He, Hn. cbn [sw_errs]. apply elem_of_app. right. by left.
Qed.
End Quiet.

(** An agent the job has to look at. *)
Abbreviation candidate a := (is_Some (ag_RevokedAt a) /\ ag_RetiredAt a = None).

(** C18.  A reap that is left alone does its work.  If nothing fails, nobody
    else does anything, and no target's root is inside another one's, a sweep
    of the reap job returns, and every agent that is revoked and not retired is
    attended to: within the window its row, its keys and the files of its
    repository are as they were; beyond it, its keys are gone, no file of its
    repository is left on the server, and it is retired with the date of the
    run, unless its directory cannot be told, in which case its row, keys and
    files are as they were and the run reports it.  All other agents keep their rows,
    keys and files, and no file is removed or changed but those of the repositories of
    the agents that are beyond the window. *)
Theorem reap_completes {RE : ReapEnvironment} {Q : Quiet} j now s : let window := (retentionWindow s).1 in let r := Reap j now s in
  Jobs.AgentID j = "" -> keyed (rs_fleet s) -> roots_apart (rs_fleet s) ->
  exists w, r.1 = Ok w
    /\ (forall id a, fl_agents (rs_fleet s) !! id = Some a ->
         (candidate a -> attended now window a (rs_fleet s) (rs_fleet r.2) w) /\ (~ candidate a -> kept a (rs_fleet s) (rs_fleet r.2)))
    /\ forall f, fl_files (rs_fleet r.2) !! f = fl_files (rs_fleet s) !! f
         \/ fl_files (rs_fleet r.2) !! f = None
            /\ exists a dir, fl_agents (rs_fleet s) !! ag_ID a = Some a /\ candidate a /\ window <= Sub now (default 0 (ag_RevokedAt a))
                 /\ repository a (rs_fleet s) = Ok dir /\ in_dir dir f = true.
Proof.
  intros window r Hj Hk Hap. assert (rs_fleet (retentionWindow s).2 = rs_fleet s) as Ew.
  { unfold retentionWindow, RevokedRetentionDays, mbind, mret. cbn [snd]. by destruct (effect_stmt (read_setting RevokedRetentionSetting) s) as [_ ->]. }
  set (s1 := (retentionWindow s).2) in *. destruct (effect_stmt Agents s1) as [E1 E2]. set (s2 := (stmt Agents s1).2) in *. cbn [Agents fst snd] in E1, E2. rewrite Ew in E1, E2.
  set (l := filter (fun a => candidate a) (merge_sort enrolled_le (map_to_list (fl_agents (rs_fleet s))).*2)).
  set (res := reap_loop l now window (mkSweep 0 0 [] 0 0) s2). assert (r = (Ok res.1, res.2)) as ->.
  { unfold r, Reap, mbind, mret, reapCandidates. fold window s1. rewrite Hj. cbn [String.eqb negb]. unfold mbind, mret. cbn [fst snd]. fold s2. by rewrite E1. }
  assert (forall a, a ∈ l <-> candidate a /\ fl_agents (rs_fleet s) !! ag_ID a = Some a) as Hl.
  { intros a. unfold l. rewrite list_elem_of_filter, merge_sort_Permutation. apply and_iff_compat_l. split.
    - intros ([id a'] & -> & Ha%elem_of_map_to_list)%list_elem_of_fmap. cbn. by rewrite (Hk _ _ Ha).
    - intros Ha. apply list_elem_of_fmap. exists (ag_ID a, a). split; [done|]. by apply elem_of_map_to_list. }
  assert (NoDup (ag_ID <$> l)) as Hnd.
  { apply (sublist_NoDup _ (ag_ID <$> merge_sort enrolled_le (map_to_list (fl_agents (rs_fleet s))).*2)); [|apply fmap_sublist, sublist_filter]. rewrite merge_sort_Permutation.
    replace (ag_ID <$> (map_to_list (fl_agents (rs_fleet s))).*2) with (map_to_list (fl_agents (rs_fleet s))).*1; [apply NoDup_fst_map_to_list|].
    rewrite <- list_fmap_compose. apply list_fmap_ext. intros i [id a] Hi. symmetry. apply Hk. apply elem_of_map_to_list. by eapply list_elem_of_lookup_2. }
  destruct (loop_attends now window l s2 (mkSweep 0 0 [] 0 0) Hnd) as [Hp Hat]; [by rewrite E2|intros a [_ Ha]%Hl; by rewrite E2|]. fold res in Hp, Hat. cbn [fst snd].
  rewrite E2 in Hp, Hat. exists res.1. split_and!; [done| |].
  - intros id a Ha. pose proof (Hk id a Ha) as <-. split; intros Hd; [apply Hat, Hl; by split|].
    eapply kept_passed; [exact Hap| |exact Hp]. intros (a' & E & [Hd' Ha']%Hl)%list_elem_of_fmap. rewrite <- E, Ha in Ha'. by injection Ha' as ->.
  - intros f. destruct (pa_files _ _ _ _ _ _ _ Hp f) as [->|[-> (a & dir & [Hc Ha]%Hl & Hd)]]; [by left|right]. split; [done|]. exists a, dir. by split_and!; try apply Hc; try apply Hd.
Qed.

(** ** A fleet *)

Definition some_agent (id : string) (group : Z) (revoked : option Z) : Agent :=
  mkAgent id id "host" "linux" "amd64" "1" "user" group (bytes id) [] "" (1788000000 * Second) None revoked None.

Definition some_target (kind path mode : string) : Target := mkTarget "t" kind "" "" path [] None 0 mode "" "" "" "" [] None None.

Definition some_key (agent : string) : DeviceKey := mkDeviceKey agent agent [] (agent +:+ "/") false 0 None.

(** The run is at this time; [d2] was revoked forty days ago, [d3] two. *)
Definition reap_time : Z := 1788350400 * Second.

Definition some_fleet : fleet := {|
  fl_agents := list_to_map ((fun a => (ag_ID a, a)) <$>
    [some_agent "d1" 1 None; some_agent "d2" 1 (Some (reap_time - 40 * 24 * Hour)); some_agent "d3" 2 (Some (reap_time - 2 * 24 * Hour)); some_agent "d4" 2 None]);
  fl_groups := list_to_map [(1, mkGroup "hosted" 1 1 0 None); (2, mkGroup "fs" 2 1 0 None)];
  fl_targets := list_to_map [(1, some_target "hosted" "/srv/hosted" "disk"); (2, some_target "filesystem" "/srv/fs/" "")];
  fl_tokens := [];
  fl_settings := ∅;
  fl_keys := list_to_map ((fun id => (id, some_key id)) <$> ["d1"; "d2"; "d3"; "d4"]);
  fl_files := list_to_map ((fun f => (f, [1])) <$> ["/srv/hosted/d1/p1"; "/srv/hosted/d2/p1"; "/srv/hosted/d2/p2"; "/srv/fs/agents/d3/p1"; "/srv/fs/agents/d4/p1"])
|}.

Definition sweep_job : Job := mkJob 1 "reap" "" 0 None None "running" "".

Lemma some_fleet_keyed : keyed some_fleet.
Proof.
  intros id a Ha. apply elem_of_list_to_map_2, list_elem_of_fmap in Ha as (a' & [= -> ->] & _). done.
Qed.

Definition apart_b (s : fleet) : bool :=
  let roots := omap (fun e => target_root e.2) (map_to_list (fl_targets s)) in forallb (fun r => forallb (fun q => negb (HasPrefix r q) || String.eqb r q) roots) roots.

Lemma apart_b_ok s : apart_b s = true -> roots_apart s.
Proof.
  intros H i j t u r q Ht Hu Hr Hq Hp. unfold apart_b in H. rewrite forallb_forall in H. specialize (H r). rewrite forallb_forall in H. specialize (fun H1 => H H1 q).
  rewrite Hp in H. cbn [negb orb] in H. apply String.eqb_eq, H; apply list_elem_of_In, list_elem_of_omap; [exists (i, t)|exists (j, u)]; (split; [by apply elem_of_map_to_list|done]).
Qed.

(** While the job runs, a target is made, and a device is revoked and writes a
    file; removals stop half-way. *)
Definition busy : ReapEnvironment := fun k =>
  match k with
  | 1%nat => mkRTurn [StCreateTarget (some_target "hosted" "/srv/hosted" "disk"); StRevokeAgent "d1" (reap_time + Second); StWriteFile "/srv/hosted/d1/p2" [2]] Executed false None
  | _ => mkRTurn [] Executed false (if (k <? 20)%nat then Some (fun f => String.eqb f "/srv/hosted/d2/p2") else None)
  end.

Lemma reap_spares_witness :
  24 * Hour <= (retentionWindow (RE := busy) (mkRState 0 some_fleet)).1
  /\ is_Some (fl_files (rs_fleet (Reap (RE := busy) sweep_job reap_time (mkRState 0 some_fleet)).2) !! "/srv/hosted/d1/p1").
Proof.
  apply (reap_spares (RE := busy) sweep_job reap_time (mkRState 0 some_fleet) "d1" (some_agent "d1" 1 None) "/srv/hosted/d1" "/srv/hosted/d1/p1").
  - exact some_fleet_keyed.
  - intros k o Ho. do 2 (destruct k as [|k]; [cbn in Ho; set_unfold; intuition (subst; done)|]). by apply not_elem_of_nil in Ho.
  - apply apart_b_ok. vm_compute. reflexivity.
  - vm_compute. reflexivity.
  - done.
  - vm_compute. reflexivity.
  - vm_compute. reflexivity.
  - vm_compute. by eexists.
Defined.

(** In that run, [d2] has lost its keys and a file, and is not retired; the next
    run finishes. *)
Example busy_run :
  let s := (Reap (RE := busy) sweep_job reap_time (mkRState 0 some_fleet)).2 in
  (match (Reap (RE := busy) sweep_job reap_time (mkRState 0 some_fleet)).1 with Ok w => (sw_total w, sw_ok w, sw_errs w, sw_waiting w) | Err _ => (0, 0, [], 0) end) = (1, 0, [("d2", ErrRemove)], 2)
  /\ (map_to_list (fl_keys (rs_fleet s))).*1 ≡ₚ ["d1"; "d3"; "d4"]
  /\ (ag_RetiredAt <$> fl_agents (rs_fleet s) !! "d2") = Some None
  /\ (ag_RetiredAt <$> fl_agents (rs_fleet (Reap (RE := busy) sweep_job (reap_time + Hour) (mkRState 20 (rs_fleet s))).2) !! "d2") = Some (Some (reap_time + Hour))
  /\ fl_files (rs_fleet (Reap (RE := busy) sweep_job (reap_time + Hour) (mkRState 20 (rs_fleet s))).2) !! "/srv/hosted/d2/p2" = None.
Proof. cbn zeta. split_and!; [vm_compute; reflexivity| |vm_compute; reflexivity..]. apply (bool_decide_eq_true_1 _). vm_compute. reflexivity. Qed.

Definition calm_fleet : ReapEnvironment := fun _ => mkRTurn [] Executed false None.

Lemma reap_completes_witness :
  let s := mkRState 0 some_fleet in let window := (retentionWindow (RE := calm_fleet) s).1 in let r := Reap (RE := calm_fleet) sweep_job reap_time s in
  Jobs.AgentID sweep_job = "" /\ keyed some_fleet /\ roots_apart some_fleet /\
  exists w, r.1 = Ok w
    /\ (forall id a, fl_agents (rs_fleet s) !! id = Some a ->
         (candidate a -> attended reap_time window a (rs_fleet s) (rs_fleet r.2) w) /\ (~ candidate a -> kept a (rs_fleet s) (rs_fleet r.2)))
    /\ forall f, fl_files (rs_fleet r.2) !! f = fl_files (rs_fleet s) !! f
         \/ fl_files (rs_fleet r.2) !! f = None
            /\ exists a dir, fl_agents (rs_fleet s) !! ag_ID a = Some a /\ candidate a /\ window <= Sub reap_time (default 0 (ag_RevokedAt a))
                 /\ repository a (rs_fleet s) = Ok dir /\ in_dir dir f = true.
Proof.
  cbn zeta. split; [done|]. split; [exact some_fleet_keyed|]. assert (roots_apart some_fleet) as Hap by (apply apart_b_ok; vm_compute; reflexivity). split; [exact Hap|].
  apply (reap_completes (RE := calm_fleet) (Q := fun k => eq_refl) sweep_job reap_time (mkRState 0 some_fleet)); [done|exact some_fleet_keyed|exact Hap].
Defined.
