(* ===== verification/IndexID.v ===== *)
(** * Content identifiers

    [repo/content/index]: [id.go], [id_range.go] and [content_id_to_bytes.go].
    A content is named by the hash of its bytes and an optional one-letter
    prefix between 'g' and 'z' that tells metadata from data.  The index relies
    on three orders being one: that of the printed identifiers, that of the
    binary keys and [less]; this file proves that they are. *)

From S2P Require Import Prelude GoStrings GoText.
From Stdlib Require Import Ascii.
Open Scope go_scope.

(** ** [bytes.Compare] *)

Fixpoint Compare (l m : list Z) : Z :=
  match l, m with
  | [], [] => 0
  | [], _ :: _ => -1
  | _ :: _, [] => 1
  | x :: l, y :: m => if x <? y then -1 else if y <? x then 1 else Compare l m
  end.

(** [strings.Compare] *)
Definition SCompare (s t : string) : Z := Compare (bytes s) (bytes t).

Lemma Compare_refl l : Compare l l = 0.
Proof. induction l as [|x l IH]; [done|]. cbn. by rewrite Z.ltb_irrefl. Qed.

Lemma Compare_eq l m : Compare l m = 0 -> l = m.
Proof.
  revert m. induction l as [|x l IH]; intros [|y m]; try done. cbn.
  destruct (Z.ltb_spec x y); [done|]. destruct (Z.ltb_spec y x); [done|].
  intros H1. assert (x = y) as -> by lia. f_equal. by apply IH.
Qed.

Lemma Compare_antisym l m : Compare l m = - Compare m l.
Proof.
  revert m. induction l as [|x l IH]; intros [|y m]; try done. cbn.
  destruct (Z.ltb_spec x y), (Z.ltb_spec y x); try lia. apply IH.
Qed.

Lemma Compare_trans l m n : Compare l m < 0 -> Compare m n < 0 -> Compare l n < 0.
Proof.
  revert m n. induction l as [|x l IH]; intros [|y m] [|z n]; cbn; try lia.
  destruct (Z.ltb_spec x y), (Z.ltb_spec y x), (Z.ltb_spec y z), (Z.ltb_spec z y),
    (Z.ltb_spec x z), (Z.ltb_spec z x); try lia. apply IH.
Qed.

Lemma Compare_app p l m : Compare (p ++ l) (p ++ m) = Compare l m.
Proof. induction p as [|x p IH]; [done|]. cbn. by rewrite Z.ltb_irrefl. Qed.

Lemma Compare_range l m : -1 <= Compare l m <= 1.
Proof.
  revert m. induction l as [|x l IH]; intros [|y m]; cbn; try lia.
  destruct (x <? y); [lia|]. destruct (y <? x); [lia|]. apply IH.
Qed.

Lemma slt_SCompare s t : slt s t = (SCompare s t <? 0).
Proof.
  unfold SCompare. revert t. induction s as [|c s IH]; intros [|d t]; try done. cbn [slt bytes Compare].
  rewrite IH. destruct (Z.ltb_spec (code c) (code d)); [done|]. cbn [orb].
  destruct (Z.ltb_spec (code d) (code c)), (Z.eqb_spec (code c) (code d)); try lia; done.
Qed.

(** Hexadecimal keeps the order of the bytes it prints. *)
Definition hex_codes (z : Z) : list Z := [code (hexdigit (z / 16)); code (hexdigit (z `mod` 16))].

Lemma bytes_hex l : bytes (hex_encode l) = l ≫= hex_codes.
Proof. induction l as [|z l IH]; [done|]. cbn. by rewrite IH. Qed.

Lemma hexdigit_mono x y : 0 <= x < 16 -> 0 <= y < 16 ->
  (code (hexdigit x) <? code (hexdigit y)) = (x <? y).
Proof.
  intros Hx Hy. unfold hexdigit.
  destruct (Z.ltb_spec x 10), (Z.ltb_spec y 10); rewrite !code_chr by lia;
    destruct (Z.ltb_spec x y); first [apply Z.ltb_lt; lia|apply Z.ltb_ge; lia].
Qed.

Lemma Compare_hex_codes x y l m : 0 <= x < 256 -> 0 <= y < 256 ->
  Compare (hex_codes x ++ l) (hex_codes y ++ m) = if x <? y then -1 else if y <? x then 1 else Compare l m.
Proof.
  intros Hx Hy. unfold hex_codes. cbn [app Compare]. rewrite !hexdigit_mono by lia_div.
  destruct (Z.ltb_spec (x / 16) (y / 16)), (Z.ltb_spec (y / 16) (x / 16)), (Z.ltb_spec (x `mod` 16) (y `mod` 16)),
    (Z.ltb_spec (y `mod` 16) (x `mod` 16)), (Z.ltb_spec x y), (Z.ltb_spec y x); lia_div || done.
Qed.

Lemma SCompare_hex l m : byte_list l -> byte_list m ->
  SCompare (hex_encode l) (hex_encode m) = Compare l m.
Proof.
  unfold SCompare. rewrite !bytes_hex. intros Hl. revert m.
  induction Hl as [|x l Hx Hl IH]; intros m Hm; destruct Hm as [|y m Hy Hm]; [done..|].
  cbn [mbind list_bind]. rewrite Compare_hex_codes by done. cbn [Compare]. by rewrite IH.
Qed.

(** ** [ID] *)

(** [IDPrefix] is a Go string. *)
Definition IDPrefix := string.

Inductive id_error :=
| ErrInvalidPrefix        (* invalid prefix, must be empty or a single letter *)
| ErrHashTooLong
| ErrHashTooShort
| ErrInvalidContentPrefix
| ErrInvalidContentHash
| ErrIDTooShort.

Definition ValidateSingle (p : IDPrefix) : result id_error unit :=
  match p with
  | EmptyString => Ok tt
  | String c EmptyString => if between 103 122 (code c) then Ok tt else Err ErrInvalidPrefix
  | _ => Err ErrInvalidPrefix
  end.

Definition MaxHashSize : Z := 32.
Definition maxIDLength : Z := MaxHashSize.

(** The struct [ID].  [id_data] is [data[:idLen]]: every constructor of the
    package leaves the rest of the array zero, so that the bytes in use and
    their number are all there is to compare. *)
Record ID := mkID { id_prefix : Z; id_data : list Z }.

#[export] Instance ID_eq_dec : EqDecision ID.
Proof. solve_decision. Defined.

#[export] Instance ID_countable : Countable ID.
Proof.
  apply (inj_countable' (fun i => (id_prefix i, id_data i)) (fun p => mkID p.1 p.2)). by intros [].
Defined.

Definition idLen (i : ID) : Z := Z.of_nat (length (id_data i)).

Definition EmptyID : ID := mkID 0 [].

Definition Hash (i : ID) : list Z := id_data i.

(** The table [prefixStrings] as its [init] leaves it. *)
Definition prefixStrings (b : Z) : IDPrefix := if between 103 122 b then String (chr b) "" else "".

Definition less (i other : ID) : bool :=
  if negb (id_prefix i =? id_prefix other)
  then if id_prefix other =? 0 then false else id_prefix i <? id_prefix other
  else Compare (id_data i) (id_data other) <? 0.

Definition Append (i : ID) (out : list Z) : list Z :=
  let out := if negb (id_prefix i =? 0) then out ++ [id_prefix i] else out in
  out ++ bytes (hex_encode (id_data i)).

Definition AppendToJSON (i : ID) (buf : list Z) (maxLength : Z) : list Z :=
  let buf := buf ++ [34] in
  let buf := if negb (id_prefix i =? 0) then buf ++ [id_prefix i] else buf in
  let maxLength := if idLen i <? maxLength then idLen i else maxLength in
  buf ++ bytes (hex_encode (take (Z.to_nat maxLength) (id_data i))) ++ [34].

Definition Prefix (i : ID) : IDPrefix := prefixStrings (id_prefix i).

(** [ID.String] *)
Definition ID_String (i : ID) : string := Prefix i +:+ hex_encode (id_data i).

Definition comparePrefix (i : ID) (p : IDPrefix) : Z :=
  match p with
  | EmptyString => if bool_decide (i = EmptyID) then 0 else 1
  | _ => SCompare (ID_String i) p
  end.

(** [ID.HasPrefix] *)
Definition ID_HasPrefix (i : ID) : bool := negb (id_prefix i =? 0).

Definition IDFromHash (p : IDPrefix) (hash : list Z) : result id_error ID :=
  let n := Z.of_nat (length hash) in
  if maxIDLength <? n then Err ErrHashTooLong
  else if n =? 0 then Err ErrHashTooShort
  else let! _ := ValidateSingle p in
  Ok (mkID (match p with EmptyString => 0 | String c _ => code c end) hash).

(** The hexadecimal part of [ParseID]. *)
Definition parse_hash (p : Z) (s : string) : result id_error ID :=
  if 2 * maxIDLength <? len s then Err ErrHashTooLong
  else match hex_decode s with
  | None => Err ErrInvalidContentHash
  | Some [] => Err ErrIDTooShort
  | Some l => Ok (mkID p l)
  end.

Definition ParseID (s : string) : result id_error ID :=
  match s with
  | EmptyString => Ok EmptyID
  | String c t =>
      if len s `mod` 2 =? 1
      then if between 103 122 (code c) then parse_hash (code c) t else Err ErrInvalidContentPrefix
      else parse_hash 0 s
  end.

(** ** Binary keys *)

(** [bytesToContentID]; [None] is the panic on an over-long key. *)
Definition bytesToContentID (b : list Z) : option ID :=
  match b with
  | [] => Some EmptyID
  | p :: h => if maxIDLength + 1 <? Z.of_nat (length b) then None else Some (mkID p h)
  end.

Definition contentIDBytesGreaterOrEqual (a b : list Z) : bool := 0 <=? Compare a b.

Definition contentIDToBytes (output : list Z) (c : ID) : list Z := (output ++ [id_prefix c]) ++ id_data c.

(** ** Ranges *)

Record IDRange := mkIDRange { StartID : IDPrefix; EndID : IDPrefix }.

(** [IDRange.Contains] *)
Definition IDRange_Contains (r : IDRange) (id : ID) : bool :=
  (0 <=? comparePrefix id (StartID r)) && (comparePrefix id (EndID r) <? 0).

Definition maxIDCharacterPlus1 : string := "{".

Definition PrefixRange (p : IDPrefix) : IDRange := mkIDRange p (p +:+ maxIDCharacterPlus1).
Definition AllIDs : IDRange := mkIDRange "" maxIDCharacterPlus1.
Definition AllPrefixedIDs : IDRange := mkIDRange "g" maxIDCharacterPlus1.
Definition AllNonPrefixedIDs : IDRange := mkIDRange "0" "g".

Example ParseID_ex :
  ParseID "" = Ok EmptyID /\ ParseID "kAb01" = Ok (mkID 107 [171; 1]) /\ ParseID "g" = Err ErrIDTooShort
  /\ ParseID "ab1" = Err ErrInvalidContentPrefix /\ ParseID "zz" = Err ErrInvalidContentHash
  /\ ID_String (mkID 107 [171; 1]) = "kab01".
Proof. vm_compute. repeat split. Qed.

(** ** Well-formed identifiers *)

Definition valid_prefix (p : Z) : Prop := p = 0 \/ 103 <= p <= 122.

(** What [IDFromHash] and [ParseID] return, the empty identifier apart. *)
Record valid_id (i : ID) : Prop := {
  valid_id_prefix : valid_prefix (id_prefix i);
  valid_id_len : 1 <= idLen i <= maxIDLength;
  valid_id_bytes : byte_list (id_data i)
}.

#[export] Hint Resolve valid_id_bytes valid_id_prefix : warphold.

Lemma valid_not_empty i : valid_id i -> i <> EmptyID.
Proof. intros [_ H _] ->. unfold idLen in H. cbn in H. lia. Qed.

Lemma prefixStrings_0 : prefixStrings 0 = "".
Proof. done. Qed.

Lemma prefixStrings_letter p : 103 <= p <= 122 -> prefixStrings p = String (chr p) "".
Proof. intros Hp. unfold prefixStrings, between. by rewrite (proj2 (Z.leb_le 103 p)), (proj2 (Z.leb_le p 122)) by lia. Qed.

Lemma between_letter p : 103 <= p <= 122 -> between 103 122 p = true.
Proof. intros Hp. unfold between. by rewrite (proj2 (Z.leb_le 103 p)), (proj2 (Z.leb_le p 122)) by lia. Qed.

Lemma len_hex l : len (hex_encode l) = 2 * Z.of_nat (length l).
Proof. unfold len. rewrite length_hex_encode. lia. Qed.

Lemma parse_hash_hex p l : l <> [] -> Z.of_nat (length l) <= maxIDLength -> byte_list l ->
  parse_hash p (hex_encode l) = Ok (mkID p l).
Proof.
  intros Hne Hl Hb. unfold parse_hash, maxIDLength, MaxHashSize in *. rewrite len_hex.
  rewrite (proj2 (Z.ltb_ge _ _)) by lia. rewrite hex_round_trip by done. by destruct l.
Qed.

(** Every identifier prints as text that parses back to it. *)
Lemma ParseID_String i : valid_id i -> ParseID (ID_String i) = Ok i.
Proof.
  intros [Hp [Hl1 Hl2] Hb]. destruct i as [p h]; unfold idLen in *; cbn in Hp, Hl1, Hl2, Hb.
  assert (h <> []) as Hne by (by intros ->). unfold ID_String, Prefix; cbn [id_prefix id_data].
  destruct Hp as [->|Hp].
  - rewrite prefixStrings_0. change ("" +:+ ?s) with s. unfold ParseID.
    destruct (hex_encode h) as [|c t] eqn:E; [by destruct h|]. rewrite <- E, len_hex.
    rewrite Z.mul_comm, Z.mod_mul by done. by apply parse_hash_hex.
  - rewrite prefixStrings_letter by done. change (String (chr p) "" +:+ ?s) with (String (chr p) s).
    unfold ParseID. change (len (String (chr p) ?s)) with (Z.of_nat (S (String.length s))).
    rewrite length_hex_encode, code_chr, between_letter by lia.
    rewrite (proj2 (Z.eqb_eq _ 1)) by lia_div. by apply parse_hash_hex.
Qed.

(** What parses is a well-formed identifier. *)
Lemma hex_decode_bytes s l : hex_decode s = Some l -> byte_list l /\ len s = 2 * Z.of_nat (length l).
Proof.
  assert (forall c x, unhex c = Some x -> 0 <= x < 16) as Hux.
  { intros c x. unfold unhex, between. intros Hu. split_ifs_in Hu; bool_to_prop; lia. }
  remember (String.length s) as n eqn:En. revert s l En.
  induction n as [n IH] using lt_wf_ind. intros [|a [|b t]] l -> H; cbn in H; simplify_eq; [by split; [constructor|]|].
  apply bind_Some in H as (x & Hx & H). apply bind_Some in H as (y & Hy & H).
  apply bind_Some in H as (l' & Hl & [= <-]). apply Hux in Hx, Hy.
  edestruct (IH (String.length t)) as [Hb Hlen]; [|done|exact Hl|]; [cbn; lia|].
  split; [constructor; [lia|done]|]. unfold len in *. cbn [String.length length]. lia.
Qed.

Lemma parse_hash_valid p s i : valid_prefix p -> parse_hash p s = Ok i -> valid_id i.
Proof.
  unfold parse_hash. intros Hp. destruct (Z.ltb_spec (2 * maxIDLength) (len s)); [done|].
  destruct (hex_decode s) as [l|] eqn:E; [|done]. apply hex_decode_bytes in E as [Hb Hl].
  destruct l as [|x l]; [done|]. intros [= <-]. split; unfold idLen; cbn [id_prefix id_data]; [done| |done].
  unfold maxIDLength, MaxHashSize in *. cbn [length] in *. lia.
Qed.

Lemma ParseID_valid s i : ParseID s = Ok i -> (s = "" /\ i = EmptyID) \/ valid_id i.
Proof.
  destruct s as [|c t]; cbn [ParseID]; [by intros [= <-]; left|]. intros H. right.
  destruct (len (String c t) `mod` 2 =? 1); [|by eapply parse_hash_valid in H; [|left]].
  destruct (between 103 122 (code c)) eqn:E; [|done]. eapply parse_hash_valid; [|done]. right.
  unfold between in E. bool_to_prop. lia.
Qed.

Lemma IDFromHash_valid p h i : byte_list h -> IDFromHash p h = Ok i -> valid_id i /\ Prefix i = p /\ Hash i = h.
Proof.
  unfold IDFromHash. intros Hb. destruct (Z.ltb_spec maxIDLength (Z.of_nat (length h))); [done|].
  destruct (Z.eqb_spec (Z.of_nat (length h)) 0); [done|].
  destruct p as [|c [|d p]]; cbn [ValidateSingle]; [|destruct (between 103 122 (code c)) eqn:E|]; try done; intros [= <-].
  - split; [|done]. split; [by left|unfold idLen; cbn; lia|done].
  - unfold between in E. bool_to_prop. split; [split; [right; cbn; lia|unfold idLen; cbn; lia|done]|].
    split; [|done]. unfold Prefix; cbn. rewrite prefixStrings_letter by lia. by rewrite chr_code.
Qed.

(** ** One order *)

(** The key under which an identifier is stored. *)
Definition id_key (i : ID) : list Z := contentIDToBytes [] i.

#[export] Instance id_key_inj : Inj (=) (=) id_key.
Proof. intros [p h] [q k]. unfold id_key, contentIDToBytes. cbn. by intros [= -> ->]. Qed.

Lemma bytesToContentID_key i : idLen i <= maxIDLength -> bytesToContentID (id_key i) = Some i.
Proof.
  intros Hl. unfold bytesToContentID, id_key, contentIDToBytes, idLen in *. cbn [app length].
  rewrite (proj2 (Z.ltb_ge _ _)) by lia. by destruct i.
Qed.

Lemma less_key i j : valid_prefix (id_prefix i) -> valid_prefix (id_prefix j) ->
  less i j = (Compare (id_key i) (id_key j) <? 0).
Proof.
  unfold less, id_key, contentIDToBytes, valid_prefix. cbn [app Compare]. intros Hi Hj.
  destruct (Z.eqb_spec (id_prefix i) (id_prefix j)) as [->|]; cbn [negb].
  - by rewrite Z.ltb_irrefl.
  - destruct (Z.eqb_spec (id_prefix j) 0), (Z.ltb_spec (id_prefix i) (id_prefix j)),
      (Z.ltb_spec (id_prefix j) (id_prefix i)); try done; lia.
Qed.

Lemma bytes_app s t : bytes (s +:+ t) = bytes s ++ bytes t.
Proof. induction s as [|c s IH]; [done|]. rewrite sapp_cons. cbn. by rewrite IH. Qed.

(** The first byte of a hexadecimal number is below every prefix letter. *)
Lemma hex_head_below l : l <> [] -> byte_list l -> exists c t, bytes (hex_encode l) = c :: t /\ c < 103.
Proof.
  intros Hne Hb. destruct Hb as [|x l Hx _]; [done|]. eexists _, _. split; [done|].
  unfold hexdigit. destruct (Z.ltb_spec (x / 16) 10); rewrite code_chr; lia_div.
Qed.

(** The order of the printed identifiers is the order of the keys. *)
Lemma SCompare_String i j : valid_id i -> valid_id j ->
  SCompare (ID_String i) (ID_String j) = Compare (id_key i) (id_key j).
Proof.
  intros [Hpi Hli Hbi] [Hpj Hlj Hbj]. unfold ID_String, SCompare, Prefix. rewrite !bytes_app.
  destruct i as [p h], j as [q k]; unfold idLen in *; cbn [id_prefix id_data] in *.
  assert (h <> []) as Hh by (intros ->; cbn in Hli; lia).
  assert (k <> []) as Hk by (intros ->; cbn in Hlj; lia).
  destruct (hex_head_below h Hh Hbi) as (c & t & Hc & Hc'), (hex_head_below k Hk Hbj) as (d & u & Hd & Hd').
  pose proof (SCompare_hex h k Hbi Hbj) as Hhk. unfold SCompare in Hhk.
  unfold id_key, contentIDToBytes. cbn [app Compare id_prefix id_data].
  destruct Hpi as [->|Hpi], Hpj as [->|Hpj];
    rewrite ?prefixStrings_0, ?prefixStrings_letter by done; cbn [bytes app];
    rewrite ?code_chr by lia; cbn [Compare].
  - rewrite Z.ltb_irrefl. done.
  - rewrite Hc. cbn [Compare]. by rewrite !(proj2 (Z.ltb_lt _ _)) by lia.
  - rewrite Hd. cbn [Compare]. rewrite !(proj2 (Z.ltb_ge p _)), !(proj2 (Z.ltb_lt _ p)) by lia. done.
  - destruct (p <? q); [done|]. destruct (q <? p); [done|]. done.
Qed.

Lemma less_String i j : valid_id i -> valid_id j -> less i j = slt (ID_String i) (ID_String j).
Proof.
  intros Hi Hj. rewrite slt_SCompare, SCompare_String, less_key by eauto with warphold. done.
Qed.

Lemma ID_String_inj i j : valid_id i -> valid_id j -> ID_String i = ID_String j -> i = j.
Proof.
  intros Hi Hj He. apply (inj id_key), Compare_eq. rewrite <- SCompare_String, He by done. apply Compare_refl.
Qed.

Lemma less_irrefl i : less i i = false.
Proof. unfold less. by rewrite Z.eqb_refl, Compare_refl. Qed.

Lemma less_trans i j k : valid_id i -> valid_id j -> valid_id k ->
  less i j = true -> less j k = true -> less i k = true.
Proof. intros Hi Hj Hk. rewrite !less_String by done. apply slt_trans. Qed.

Lemma less_total i j : valid_id i -> valid_id j -> less i j = true \/ i = j \/ less j i = true.
Proof.
  intros Hi Hj. rewrite !less_String by done.
  destruct (slt_total (ID_String i) (ID_String j)) as [?|[?|?]]; auto using ID_String_inj.
Qed.

(** ** Ranges of identifiers *)

Lemma comparePrefix_spec i p : valid_id i -> comparePrefix i p = SCompare (ID_String i) p.
Proof.
  intros Hi. destruct p as [|c p]; [|done]. cbn [comparePrefix].
  rewrite bool_decide_eq_false_2 by by apply valid_not_empty.
  destruct Hi as [_ Hl Hb]. unfold SCompare, ID_String. rewrite bytes_app. unfold idLen in Hl.
  destruct (hex_head_below (id_data i)) as (c & t & -> & _); [intros E; rewrite E in Hl; cbn in Hl; lia|done|].
  by destruct (bytes (Prefix i)).
Qed.

(** Identifiers print with digits and lower-case letters. *)
Lemma ID_String_letters i : valid_id i -> Forall (fun b => b < 123) (bytes (ID_String i)).
Proof.
  intros [Hp _ Hb]. unfold ID_String, Prefix. rewrite bytes_app. apply Forall_app. split.
  - destruct Hp as [->|Hp]; [by rewrite prefixStrings_0; constructor|].
    rewrite prefixStrings_letter by done. cbn [bytes]. rewrite code_chr by lia. repeat constructor. lia.
  - rewrite bytes_hex. induction Hb as [|x l Hx _ IH]; cbn [mbind list_bind]; [constructor|].
    apply Forall_app. split; [|done]. unfold hex_codes, hexdigit.
    repeat constructor; case_match; rewrite code_chr; lia_div.
Qed.

Fixpoint lprefix (p l : list Z) : bool :=
  match p, l with
  | [], _ => true
  | x :: p, y :: l => (x =? y) && lprefix p l
  | _ :: _, [] => false
  end.

Lemma lprefix_bytes s p : lprefix (bytes p) (bytes s) = HasPrefix s p.
Proof.
  revert s. induction p as [|c p IH]; intros [|d s]; try done. cbn. rewrite IH. f_equal.
  apply Bool.eq_iff_eq_true. rewrite Z.eqb_eq, Ascii.eqb_eq. split; [apply (inj code)|by intros ->].
Qed.

Lemma Compare_prefix_range l p : Forall (fun b => b < 123) l ->
  (0 <=? Compare l p) && (Compare l (p ++ [123]) <? 0) = lprefix p l.
Proof.
  intros Hl. revert p. induction Hl as [|x l Hx Hl IH]; intros [|y p]; cbn [Compare app lprefix]; try done.
  - by rewrite (proj2 (Z.ltb_lt x 123)) by lia.
  - destruct (Z.ltb_spec x y), (Z.ltb_spec y x), (Z.eqb_spec y x); try lia; [done..|]. cbn [andb]. apply IH.
Qed.

(** [PrefixRange] holds exactly the identifiers whose text starts with the prefix. *)
Lemma PrefixRange_exact i p : valid_id i -> IDRange_Contains (PrefixRange p) i = HasPrefix (ID_String i) p.
Proof.
  intros Hi. unfold IDRange_Contains, PrefixRange. cbn [StartID EndID].
  rewrite !comparePrefix_spec by done. unfold SCompare. rewrite bytes_app. change (bytes maxIDCharacterPlus1) with [123].
  rewrite Compare_prefix_range by by apply ID_String_letters. apply lprefix_bytes.
Qed.

Lemma AllIDs_all i : valid_id i -> IDRange_Contains AllIDs i = true.
Proof. intros Hi. change AllIDs with (PrefixRange ""). by rewrite PrefixRange_exact. Qed.

(** The two halves of the identifiers. *)
Lemma AllPrefixedIDs_exact i : valid_id i -> IDRange_Contains AllPrefixedIDs i = ID_HasPrefix i.
Proof.
  intros Hi. pose proof (ID_String_letters i Hi) as Hlet. unfold IDRange_Contains. cbn [StartID EndID AllPrefixedIDs].
  rewrite !comparePrefix_spec by done. destruct Hi as [Hp Hl Hb]. revert Hlet.
  unfold SCompare, ID_String, Prefix, ID_HasPrefix. rewrite bytes_app. intros Hlet.
  destruct (hex_head_below (id_data i)) as (c & t & E & Hc);
    [intros E; unfold idLen in Hl; rewrite E in Hl; cbn in Hl; lia|done|]. rewrite E in *.
  destruct Hp as [Hp|Hp].
  - rewrite Hp in *. rewrite prefixStrings_0 in *. cbn. change (code "g"%char) with 103.
    by rewrite (proj2 (Z.ltb_lt c 103)) by done.
  - rewrite prefixStrings_letter in * by done. cbn in *. rewrite code_chr in * by lia.
    change (code "g"%char) with 103. change (code "{"%char) with 123.
    rewrite (proj2 (Z.ltb_ge _ 103)), (proj2 (Z.ltb_lt _ 123)) by lia.
    rewrite (proj2 (Z.eqb_neq _ 0)) by lia. by destruct (103 <? id_prefix i).
Qed.

Lemma AllNonPrefixedIDs_exact i : valid_id i -> IDRange_Contains AllNonPrefixedIDs i = negb (ID_HasPrefix i).
Proof.
  intros Hi. unfold IDRange_Contains. cbn [StartID EndID AllNonPrefixedIDs].
  rewrite !comparePrefix_spec by done. destruct Hi as [Hp Hl Hb].
  unfold SCompare, ID_String, Prefix, ID_HasPrefix. rewrite bytes_app.
  destruct (id_data i) as [|x h] eqn:E; [unfold idLen in Hl; rewrite E in Hl; cbn in Hl; lia|].
  apply Forall_cons in Hb as [Hx Hb]. cbn [hex_encode bytes].
  assert (48 <= code (hexdigit (x / 16)) < 103) as Hd.
  { unfold hexdigit. destruct (Z.ltb_spec (x / 16) 10); rewrite code_chr; lia_div. }
  destruct Hp as [Hp|Hp].
  - rewrite Hp, prefixStrings_0. cbn [bytes app Compare negb Z.eqb]. change (code "g"%char) with 103. change (code "0"%char) with 48.
    rewrite (proj2 (Z.ltb_ge _ 48)), (proj2 (Z.ltb_lt _ 103)) by lia. by destruct (48 <? _).
  - rewrite prefixStrings_letter by done. cbn [bytes app Compare]. rewrite code_chr by lia.
    change (code "g"%char) with 103. change (code "0"%char) with 48.
    rewrite (proj2 (Z.ltb_ge _ 48)), (proj2 (Z.ltb_ge _ 103)), (proj2 (Z.ltb_lt 48 _)) by lia.
    rewrite (proj2 (Z.eqb_neq _ 0)) by lia. by destruct (103 <? id_prefix i).
Qed.

(** Content identifiers have one order and one text.  Every well-formed
    identifier prints as text that parses back to it, and the three orders the
    index relies on agree: [less], the order of the printed text, and the order
    of the binary keys the tables are sorted by. *)
Theorem content_ids_one_order i j : valid_id i -> valid_id j ->
  ParseID (ID_String i) = Ok i
  /\ less i j = slt (ID_String i) (ID_String j)
  /\ less i j = (Compare (contentIDToBytes [] i) (contentIDToBytes [] j) <? 0).
Proof.
  intros Hi Hj. split_and!; [by apply ParseID_String|by apply less_String|].
  apply less_key; by apply valid_id_prefix.
Qed.

Lemma content_ids_one_order_witness :
  let i := mkID 0 [171; 3] in let j := mkID 107 [1; 2] in
  ParseID (ID_String i) = Ok i /\ less i j = slt (ID_String i) (ID_String j)
  /\ less i j = (Compare (contentIDToBytes [] i) (contentIDToBytes [] j) <? 0).
Proof.
  apply (content_ids_one_order (mkID 0 [171; 3]) (mkID 107 [1; 2]));
    split; unfold idLen, valid_prefix, maxIDLength, MaxHashSize; cbn; [lia|lia|repeat constructor; lia|lia|lia|repeat constructor; lia].
Defined.
