(* ===== verification/IndexTable.v ===== *)
(** * Index entries and the table they are read from

    [repo/content/index]: [info.go], [index_encode_util.go], the slices and the
    interface of [index.go], the order [contentInfoGreaterThanStruct] of
    [merged.go], and the search both formats share.  Each format keeps its
    entries in a table of fixed stride: keys in ascending order, each followed
    by a value.  [findEntryPosition], [findEntryPositionExact], [findEntry] and
    [Iterate] are the same in [index_v1.go] and [index_v2.go] up to the table's
    geometry and the decoding of a value, and are written once here. *)

From S2P Require Import Prelude GoStrings GoText IndexID.
Open Scope go_scope.

(** ** Big-endian integers *)

Definition byte_at (d : list Z) (k : nat) : Z := default 0 (d !! k).

(** The conversion [byte(v)]. *)
Definition byte (v : Z) : Z := v `mod` 256.

Definition uint16 (v : Z) : Z := v `mod` 2 ^ 16.
Definition uint32 (v : Z) : Z := v `mod` 2 ^ 32.
Definition uint64 (v : Z) : Z := v `mod` 2 ^ 64.

Definition decodeBigEndianUint48 (d : list Z) : Z :=
  Z.lor (Z.lor (Z.lor (Z.lor (Z.lor (Z.shiftl (byte_at d 0) 40) (Z.shiftl (byte_at d 1) 32))
    (Z.shiftl (byte_at d 2) 24)) (Z.shiftl (byte_at d 3) 16)) (Z.shiftl (byte_at d 4) 8)) (byte_at d 5).

Definition decodeBigEndianUint32 (d : list Z) : Z :=
  Z.lor (Z.lor (Z.lor (Z.shiftl (byte_at d 0) 24) (Z.shiftl (byte_at d 1) 16))
    (Z.shiftl (byte_at d 2) 8)) (byte_at d 3).

Definition decodeBigEndianUint24 (d : list Z) : Z :=
  Z.lor (Z.lor (Z.shiftl (byte_at d 0) 16) (Z.shiftl (byte_at d 1) 8)) (byte_at d 2).

Definition decodeBigEndianUint16 (d : list Z) : Z :=
  Z.lor (Z.shiftl (byte_at d 0) 8) (byte_at d 1).

Definition encodeBigEndianUint24 (v : Z) : list Z :=
  [byte (Z.shiftr v 16); byte (Z.shiftr v 8); byte v].

(** [binary.BigEndian] *)
Definition PutUint16 (v : Z) : list Z := [byte (Z.shiftr v 8); byte v].
Definition PutUint32 (v : Z) : list Z :=
  [byte (Z.shiftr v 24); byte (Z.shiftr v 16); byte (Z.shiftr v 8); byte v].
Definition PutUint64 (v : Z) : list Z :=
  [byte (Z.shiftr v 56); byte (Z.shiftr v 48); byte (Z.shiftr v 40); byte (Z.shiftr v 32)]
  ++ PutUint32 v.

(** Fields that do not overlap add up. *)
Lemma lor_add a b n : 0 <= n -> 0 <= b < 2 ^ n -> (2 ^ n | a) -> Z.lor a b = a + b.
Proof.
  intros Hn Hb [k ->]. rewrite <- Z.add_lor_land.
  enough (Z.land (k * 2 ^ n) b = 0) by lia. apply Z.bits_inj'. intros m Hm.
  rewrite Z.land_spec, Z.bits_0. destruct (Z.lt_ge_cases m n); [by rewrite Z.mul_pow2_bits_low by done|].
  rewrite <- (Z.mod_small b (2 ^ n)) by done. rewrite Z.mod_pow2_bits_high by lia. apply andb_false_r.
Qed.

Lemma byte_range v : 0 <= byte v < 256.
Proof. unfold byte. lia_div. Qed.

(** A shifted byte written as a product, and the fields of a word as a sum. *)
Ltac shifts := rewrite ?Z.shiftl_mul_pow2, ?Z.shiftr_div_pow2 by lia.
Ltac divides := match goal with |- (?d | _) => apply Z.mod_divide; [done|]; cbn [Z.pow Z.pow_pos Pos.iter Z.mul]; lia_div end.

Lemma decode32_cons a b c d l : 0 <= a < 256 -> 0 <= b < 256 -> 0 <= c < 256 -> 0 <= d < 256 ->
  decodeBigEndianUint32 (a :: b :: c :: d :: l) = a * 2 ^ 24 + b * 2 ^ 16 + c * 2 ^ 8 + d.
Proof.
  intros. unfold decodeBigEndianUint32, byte_at. unfold default; cbn [lookup list_lookup]; unfold id. shifts.
  rewrite (lor_add _ (b * 2 ^ 16) 24), (lor_add _ (c * 2 ^ 8) 16), (lor_add _ d 8); try lia; divides.
Qed.

Lemma decode24_cons a b c l : 0 <= a < 256 -> 0 <= b < 256 -> 0 <= c < 256 ->
  decodeBigEndianUint24 (a :: b :: c :: l) = a * 2 ^ 16 + b * 2 ^ 8 + c.
Proof.
  intros. unfold decodeBigEndianUint24, byte_at. unfold default; cbn [lookup list_lookup]; unfold id. shifts.
  rewrite (lor_add _ (b * 2 ^ 8) 16), (lor_add _ c 8); try lia; divides.
Qed.

Lemma decode16_cons a b l : 0 <= a < 256 -> 0 <= b < 256 ->
  decodeBigEndianUint16 (a :: b :: l) = a * 2 ^ 8 + b.
Proof. intros. unfold decodeBigEndianUint16, byte_at. unfold default; cbn [lookup list_lookup]; unfold id. shifts. rewrite (lor_add _ b 8); try lia; divides. Qed.

Lemma decode48_cons a b c d e f l :
  0 <= a < 256 -> 0 <= b < 256 -> 0 <= c < 256 -> 0 <= d < 256 -> 0 <= e < 256 -> 0 <= f < 256 ->
  decodeBigEndianUint48 (a :: b :: c :: d :: e :: f :: l)
  = a * 2 ^ 40 + b * 2 ^ 32 + c * 2 ^ 24 + d * 2 ^ 16 + e * 2 ^ 8 + f.
Proof.
  intros. unfold decodeBigEndianUint48, byte_at. unfold default; cbn [lookup list_lookup]; unfold id. shifts.
  rewrite (lor_add _ (b * 2 ^ 32) 40), (lor_add _ (c * 2 ^ 24) 32), (lor_add _ (d * 2 ^ 16) 24),
    (lor_add _ (e * 2 ^ 8) 16), (lor_add _ f 8); try lia; divides.
Qed.

Lemma decode_PutUint16 v l : 0 <= v < 2 ^ 16 -> decodeBigEndianUint16 (PutUint16 v ++ l) = v.
Proof. intros. cbn [PutUint16 app]. rewrite decode16_cons by apply byte_range. shifts. unfold byte. lia_div. Qed.

Lemma decode_PutUint24 v l : 0 <= v < 2 ^ 24 -> decodeBigEndianUint24 (encodeBigEndianUint24 v ++ l) = v.
Proof. intros. cbn [encodeBigEndianUint24 app]. rewrite decode24_cons by apply byte_range. shifts. unfold byte. lia_div. Qed.

Lemma decode_PutUint32 v l : 0 <= v < 2 ^ 32 -> decodeBigEndianUint32 (PutUint32 v ++ l) = v.
Proof. intros. cbn [PutUint32 app]. rewrite decode32_cons by apply byte_range. shifts. unfold byte. lia_div. Qed.

(** ** Index entries *)

Record Info := mkInfo {
  PackBlobID : string;
  TimestampSeconds : Z;       (* int64 *)
  OriginalLength : Z;         (* uint32 *)
  PackedLength : Z;           (* uint32 *)
  PackOffset : Z;             (* uint32 *)
  CompressionHeaderID : Z;    (* uint32 *)
  ContentID : ID;
  Deleted : bool;
  FormatVersion : Z;          (* byte *)
  EncryptionKeyID : Z         (* byte *)
}.

#[export] Instance Info_eq_dec : EqDecision Info.
Proof. solve_decision. Defined.

(** Which of two entries for one content wins. *)
Definition contentInfoGreaterThanStruct (a b : Info) : bool :=
  if negb (TimestampSeconds a =? TimestampSeconds b) then TimestampSeconds b <? TimestampSeconds a
  else if negb (Bool.eqb (Deleted a) (Deleted b)) then negb (Deleted a)
  else slt (PackBlobID b) (PackBlobID a).

Inductive index_error :=
| ErrInvalidSlice
| ErrInvalidHeader
| ErrInvalidVersion
| ErrInvalidContentID
| ErrInvalidEntryLength
| ErrInconsistentKeyLength
| ErrCompressionUnsupported
| ErrEncryptionKeyUnsupported
| ErrEmptyPackBlobID
| ErrTooManyFormats
| ErrTooManyPacks
| ErrContentTooLong
| ErrPackOffsetTooHigh
| ErrInvalidKeyLength
| ErrFormatsSection
| ErrPacksSection
| ErrShardSize
| ErrRandom
| ErrPanic.     (* not an error value: the goroutine panics *)

#[export] Instance index_error_eq_dec : EqDecision index_error.
Proof. solve_decision. Defined.

(** ** Slices

    [data] is a slice without spare capacity, as mapped files and the buffers
    the indexes are read from are: beyond its length a slice expression
    panics, which [safeSlice] turns into an error. *)
Definition slen {A} (l : list A) : Z := Z.of_nat (length l).

Definition safeSlice (data : list Z) (offset length : Z) : result index_error (list Z) :=
  if (0 <=? offset) && (0 <=? length) && (offset + length <=? slen data)
  then Ok (take (Z.to_nat length) (drop (Z.to_nat offset) data)) else Err ErrInvalidSlice.

Definition safeSliceString (data : list Z) (offset length : Z) : result index_error string :=
  let! l := safeSlice data offset length in Ok (of_bytes l).

(** ** [sort.Search]

    The predicate may fail.  In the code a failed read is remembered in
    [readErr], the rest of the search reads nothing and its position is dropped
    by the caller, so the search ends with the error.  64 halvings exhaust any
    range of 64-bit integers. *)
Fixpoint search_loop {E} (fuel : nat) (i j : Z) (f : Z -> result E bool) : result E Z :=
  match fuel with
  | O => Ok i
  | S fuel =>
      if i <? j
      then let h := Z.shiftr (i + j) 1 in
           let! b := f h in
           if negb b then search_loop fuel (h + 1) j f else search_loop fuel i h f
      else Ok i
  end.

Definition Search {E} (n : Z) (f : Z -> result E bool) : result E Z := search_loop 65 0 n f.

(** ** The table *)

Definition unknownKeySize : Z := 255.
Definition maxContentIDSize : Z := MaxHashSize + 1.

Record table := mkTable {
  t_data : list Z;
  t_offset : Z;       (* where the entries begin *)
  t_keySize : Z;
  t_stride : Z;       (* key and value *)
  t_entryCount : Z
}.

Definition entryOffset (t : table) (p : Z) : Z := t_offset t + t_stride t * p.

Definition contentID_of_key (key : list Z) : result index_error ID :=
  match bytesToContentID key with Some id => Ok id | None => Err ErrPanic end.

Definition findEntryPosition (t : table) (p : IDPrefix) : result index_error Z :=
  Search (t_entryCount t) (fun n =>
    let! key := safeSlice (t_data t) (entryOffset t n) (t_keySize t) in
    let! id := contentID_of_key key in
    Ok (0 <=? comparePrefix id p)).

Definition findEntryPositionExact (t : table) (idBytes : list Z) : result index_error Z :=
  Search (t_entryCount t) (fun n =>
    let! key := safeSlice (t_data t) (entryOffset t n) (t_keySize t) in
    Ok (contentIDBytesGreaterOrEqual key idBytes)).

Definition findEntry (t : table) (contentID : ID) : result index_error (option (list Z)) :=
  let key := contentIDToBytes [] contentID in
  if t_keySize t =? unknownKeySize then Ok None
  else if negb (slen key =? t_keySize t) then Err ErrInvalidContentID
  else let! position := findEntryPositionExact t key in
  if t_entryCount t <=? position then Ok None
  else let! entryBuf := safeSlice (t_data t) (entryOffset t position) (t_stride t) in
  if bool_decide (take (length key) entryBuf = key) then Ok (Some (drop (length key) entryBuf))
  else Ok None.

(** An iteration fails because the index does or because the callback does. *)
Inductive iter_error (E : Type) := IndexErr (e : index_error) | CallbackErr (e : E).
Arguments IndexErr {E} e.
Arguments CallbackErr {E} e.

(** The callback of [Iterate], over the state [S] it can reach. *)
Definition callback (S E : Type) := Info -> S -> option E * S.

(** [Iterate]: [decode] is the format's [entryToInfoStruct], which may use a
    memory [C] of the index.  The loop runs from [i] over the entries left. *)
Section Iterate.
Context {C S E : Type} (decode : ID -> list Z -> C -> result index_error Info * C).
Context (t : table) (endID : IDPrefix) (cb : callback S E).

Fixpoint iterate_loop (todo : nat) (i : Z) (c : C) (s : S) : result (iter_error E) unit * C * S :=
  match todo with
  | O => (Ok tt, c, s)
  | Datatypes.S todo =>
      match safeSlice (t_data t) (entryOffset t i) (t_stride t) with
      | Err e => (Err (IndexErr e), c, s)
      | Ok entry =>
          let key := take (Z.to_nat (t_keySize t)) entry in
          match contentID_of_key key with
          | Err e => (Err (IndexErr e), c, s)
          | Ok contentID =>
              if 0 <=? comparePrefix contentID endID then (Ok tt, c, s)
              else match decode contentID (drop (Z.to_nat (t_keySize t)) entry) c with
              | (Err e, c) => (Err (IndexErr e), c, s)
              | (Ok tmp, c) =>
                  match cb tmp s with
                  | (Some e, s) => (Err (CallbackErr e), c, s)
                  | (None, s) => iterate_loop todo (i + 1) c s
                  end
              end
          end
      end
  end.
End Iterate.

Definition iterate_table {C S E} (decode : ID -> list Z -> C -> result index_error Info * C)
    (t : table) (r : IDRange) (cb : callback S E) (c : C) (s : S) : result (iter_error E) unit * C * S :=
  match findEntryPosition t (StartID r) with
  | Err e => (Err (IndexErr e), c, s)
  | Ok startPos => iterate_loop decode t (EndID r) cb (Z.to_nat (t_entryCount t - startPos)) startPos c s
  end.

(** Running a callback over a list until it fails. *)
Fixpoint feed {S E} (cb : callback S E) (l : list Info) (s : S) : result (iter_error E) unit * S :=
  match l with
  | [] => (Ok tt, s)
  | x :: l => match cb x s with (Some e, s) => (Err (CallbackErr e), s) | (None, s) => feed cb l s end
  end.

(** ** Correctness of the search *)

Lemma search_loop_spec {E} (f : Z -> result E bool) (g : Z -> bool) fuel i j n :
  0 <= i <= j -> j <= n -> j - i < 2 ^ Z.of_nat fuel ->
  (forall p, i <= p < j -> f p = Ok (g p)) ->
  (forall p q, 0 <= p <= q -> q < n -> g p = true -> g q = true) ->
  (forall p, 0 <= p < i -> g p = false) -> (forall p, j <= p < n -> g p = true) ->
  exists pos, search_loop (S fuel) i j f = Ok pos /\ 0 <= pos <= n
    /\ (forall p, 0 <= p < pos -> g p = false) /\ (forall p, pos <= p < n -> g p = true).
Proof.
  revert i j. induction fuel as [|fuel IH]; intros i j Hij Hjn Hf Hread Hmono Hlo Hhi.
  { exists i. assert (i = j) as <- by (cbn in Hf; lia). cbn. rewrite Z.ltb_irrefl. auto with lia. }
  cbn [search_loop]. destruct (Z.ltb_spec i j) as [Hlt|Hge];
    [|exists i; assert (i = j) as <- by lia; auto with lia].
  assert (Z.shiftr (i + j) 1 = (i + j) / 2) as -> by (by rewrite Z.shiftr_div_pow2).
  assert (i <= (i + j) / 2 < j) as Hh by lia_div. rewrite Hread by done.
  rewrite Nat2Z.inj_succ, Z.pow_succ_r in Hf by lia.
  destruct (g ((i + j) / 2)) eqn:Eg; cbn [negb]; apply IH; auto; try lia_div.
  - intros p Hp. apply Hread. lia.
  - intros p Hp. destruct (Z.lt_ge_cases p j); [|apply Hhi; lia]. eapply Hmono; [|lia|exact Eg]. lia.
  - intros p Hp. apply Hread. lia.
  - intros p Hp. destruct (Z.lt_ge_cases p i); [apply Hlo; lia|].
    apply not_true_is_false. intros Ep. rewrite (Hmono p ((i + j) / 2)) in Eg; [done|lia_div|lia|done].
Qed.

(** The search returns the first position from which the predicate holds. *)
Lemma Search_spec {E} (f : Z -> result E bool) (g : Z -> bool) n :
  0 <= n < 2 ^ 64 -> (forall p, 0 <= p < n -> f p = Ok (g p)) ->
  (forall p q, 0 <= p <= q -> q < n -> g p = true -> g q = true) ->
  exists pos, Search n f = Ok pos /\ 0 <= pos <= n
    /\ (forall p, 0 <= p < pos -> g p = false) /\ (forall p, pos <= p < n -> g p = true).
Proof. intros Hn Hf Hmono. apply (search_loop_spec f g 64 0 n n); auto; lia. Qed.

(** ** Slices of a table *)

Lemma slen_app {A} (l m : list A) : slen (l ++ m) = slen l + slen m.
Proof. unfold slen. rewrite length_app. lia. Qed.

Lemma slen_nonneg {A} (l : list A) : 0 <= slen l.
Proof. unfold slen. lia. Qed.

(** A slice that is a segment of the data. *)
Lemma safeSlice_mid a b c : safeSlice (a ++ b ++ c) (slen a) (slen b) = Ok b.
Proof.
  unfold safeSlice. rewrite !slen_app. pose proof (slen_nonneg a). pose proof (slen_nonneg b). pose proof (slen_nonneg c).
  rewrite !(proj2 (Z.leb_le _ _)) by lia. cbn [andb]. unfold slen. rewrite !Nat2Z.id.
  by rewrite drop_app_length, take_app_length.
Qed.

Lemma safeSlice_at data off n a b c : data = a ++ b ++ c -> off = slen a -> n = slen b -> safeSlice data off n = Ok b.
Proof. intros -> -> ->. apply safeSlice_mid. Qed.

Lemma slen_concat (ls : list (list Z)) stride :
  Forall (fun r => slen r = stride) ls -> slen (concat ls) = stride * slen ls.
Proof.
  induction 1 as [|r l Hr _ IH]; [unfold slen; cbn; lia|]. change (concat (r :: l)) with (r ++ concat l).
  rewrite slen_app, IH, Hr. unfold slen. cbn [length]. lia.
Qed.

(** Rows of one length, up to a position. *)
Lemma concat_rows_split (ls : list (list Z)) p x stride :
  Forall (fun r => slen r = stride) ls -> ls !! p = Some x ->
  exists l r, concat ls = l ++ x ++ r /\ slen l = stride * Z.of_nat p.
Proof.
  intros Hs Hp. exists (concat (take p ls)), (concat (drop (S p) ls)). split.
  - rewrite <- (take_drop_middle ls p x Hp) at 1. by rewrite concat_app.
  - rewrite (slen_concat _ stride) by by apply Forall_take. f_equal. unfold slen.
    rewrite length_take. apply lookup_lt_Some in Hp. lia.
Qed.

Lemma sorted_lookup_lt {A} (R : relation A) l p q x y :
  StronglySorted R l -> l !! p = Some x -> l !! q = Some y -> (p < q)%nat -> R x y.
Proof.
  intros Hs Hp Hq Hpq. rewrite <- (take_drop_middle l q y Hq) in Hs.
  eapply (StronglySorted_app_1_elem_of _ _ _ _ _ Hs); [|by left].
  apply list_elem_of_lookup. exists p. by rewrite lookup_take_lt.
Qed.

(** Filters that keep nothing, and filters that agree on a list. *)
Lemma filter_none {A} (P : A -> Prop) `{!forall x, Decision (P x)} (l : list A) :
  (forall x, x ∈ l -> ~ P x) -> filter P l = [].
Proof.
  induction l as [|x l IH]; intros Hl; [done|]. rewrite filter_cons_False by (apply Hl; by left).
  apply IH. intros y Hy. apply Hl. by right.
Qed.

Lemma filter_agree {A} (P Q : A -> Prop) `{!forall x, Decision (P x), !forall x, Decision (Q x)} (l : list A) :
  (forall x, x ∈ l -> P x <-> Q x) -> filter P l = filter Q l.
Proof.
  induction l as [|x l IH]; intros Hl; [done|]. rewrite !filter_cons. 
  rewrite IH by (intros y Hy; apply Hl; by right). pose proof (Hl x ltac:(by left)).
  do 2 case_decide; naive_solver.
Qed.

(** ** A table that holds rows *)

Definition row_bytes (r : ID * list Z) : list Z := id_key r.1 ++ r.2.

Definition id_lt (i j : ID) : Prop := less i j = true.

Record table_holds (t : table) (rows : list (ID * list Z)) : Prop := {
  th_count : t_entryCount t = slen rows;
  th_small : slen rows < 2 ^ 63;
  th_data : exists pre post, t_data t = pre ++ concat (row_bytes <$> rows) ++ post /\ t_offset t = slen pre;
  th_valid : Forall (fun r => valid_id r.1) rows;
  th_key : Forall (fun r => slen (id_key r.1) = t_keySize t) rows;
  th_row : Forall (fun r => slen (row_bytes r) = t_stride t) rows;
  th_sorted : StronglySorted id_lt rows.*1
}.

Lemma slen_key i : slen (id_key i) = 1 + idLen i.
Proof. unfold slen, idLen, id_key, contentIDToBytes. cbn [app length]. lia. Qed.

Section TableFacts.
Context (t : table) (rows : list (ID * list Z)) (Ht : table_holds t rows).

Lemma row_split p r : rows !! p = Some r ->
  exists a c, t_data t = a ++ row_bytes r ++ c /\ slen a = entryOffset t (Z.of_nat p).
Proof.
  intros Hp. destruct (th_data _ _ Ht) as (pre & post & Hd & Ho).
  destruct (concat_rows_split (row_bytes <$> rows) p (row_bytes r) (t_stride t)) as (x & y & Hc & Hx).
  - rewrite Forall_fmap. exact (th_row _ _ Ht).
  - by rewrite list_lookup_fmap, Hp.
  - exists (pre ++ x), (y ++ post). split.
    + by rewrite Hd, Hc, <- !app_assoc.
    + rewrite slen_app, Hx. unfold entryOffset. lia.
Qed.

Lemma slice_row p r : rows !! p = Some r ->
  safeSlice (t_data t) (entryOffset t (Z.of_nat p)) (t_stride t) = Ok (row_bytes r).
Proof.
  intros Hp. destruct (row_split p r Hp) as (a & c & Hd & Ha). eapply safeSlice_at; [exact Hd|done|].
  symmetry. exact (Forall_lookup_1 _ _ _ _ (th_row _ _ Ht) Hp).
Qed.

Lemma slice_key p r : rows !! p = Some r ->
  safeSlice (t_data t) (entryOffset t (Z.of_nat p)) (t_keySize t) = Ok (id_key r.1).
Proof.
  intros Hp. destruct (row_split p r Hp) as (a & c & Hd & Ha).
  eapply (safeSlice_at _ _ _ a _ (r.2 ++ c)); [|done|].
  - rewrite Hd. unfold row_bytes. by rewrite <- app_assoc.
  - symmetry. exact (Forall_lookup_1 _ _ _ _ (th_key _ _ Ht) Hp).
Qed.

Lemma row_valid p r : rows !! p = Some r -> valid_id r.1.
Proof. exact (Forall_lookup_1 _ _ _ _ (th_valid _ _ Ht)). Qed.

Lemma row_id p r : rows !! p = Some r -> contentID_of_key (id_key r.1) = Ok r.1.
Proof. intros Hp. unfold contentID_of_key. rewrite bytesToContentID_key; [done|]. apply (row_valid p r Hp). Qed.

(** The identifier at a position of the table. *)
Definition id_at (p : Z) : ID := default EmptyID (rows.*1 !! Z.to_nat p).

Lemma row_at p : 0 <= p < t_entryCount t -> exists r, rows !! Z.to_nat p = Some r /\ id_at p = r.1.
Proof.
  rewrite (th_count _ _ Ht). unfold slen. intros Hp.
  destruct (lookup_lt_is_Some_2 rows (Z.to_nat p)) as [r Hr]; [lia|]. exists r. split; [done|].
  unfold id_at. by rewrite list_lookup_fmap, Hr.
Qed.

Lemma id_at_sorted p q : 0 <= p < q -> q < t_entryCount t -> less (id_at p) (id_at q) = true.
Proof.
  intros Hp Hq. destruct (row_at p) as (a & Ha & ->); [lia|]. destruct (row_at q) as (b & Hb & ->); [lia|].
  eapply (sorted_lookup_lt id_lt rows.*1 (Z.to_nat p) (Z.to_nat q)); [exact (th_sorted _ _ Ht)|..];
    [by rewrite list_lookup_fmap, Ha|by rewrite list_lookup_fmap, Hb|lia].
Qed.

(** An exact search is right: a stored identifier gives its value, and any
    other identifier of the table's length gives nothing. *)
Lemma exact_position i : valid_id i ->
  exists pos, findEntryPositionExact t (id_key i) = Ok pos /\ 0 <= pos <= t_entryCount t
    /\ (forall p, 0 <= p < pos -> less (id_at p) i = true)
    /\ (forall p, pos <= p < t_entryCount t -> less (id_at p) i = false).
Proof.
  intros Hi. pose proof (th_count _ _ Ht) as Hc. pose proof (th_small _ _ Ht).
  destruct (Search_spec (fun n =>
    let! key := safeSlice (t_data t) (entryOffset t n) (t_keySize t) in
    Ok (contentIDBytesGreaterOrEqual key (id_key i))) (fun p => negb (less (id_at p) i)) (t_entryCount t))
    as (pos & Hs & Hr & Hlo & Hhi).
  - unfold slen in *. lia.
  - intros p Hp. destruct (row_at p Hp) as (r & Hl & Hid).
    rewrite <- (Z2Nat.id p), (slice_key _ _ Hl), Z2Nat.id, Hid by lia.
    rewrite less_key by (apply valid_id_prefix; eauto using row_valid).
    unfold contentIDBytesGreaterOrEqual. by rewrite Z.leb_antisym.
  - intros p q Hp Hq Hg. destruct (Z.eq_dec p q) as [->|]; [done|].
    apply negb_true_iff in Hg. apply negb_true_iff, not_true_is_false. intros Hl.
    destruct (row_at p) as (a & Ha & Ea); [lia|]. destruct (row_at q) as (b & Hb & Eb); [lia|].
    rewrite (less_trans (id_at p) (id_at q) i) in Hg; [done|..|apply id_at_sorted; lia|done];
      rewrite ?Ea, ?Eb; eauto using row_valid.
  - exists pos. split; [exact Hs|]. split; [done|]. split; intros p Hp.
    + by apply negb_false_iff, Hlo.
    + by apply negb_true_iff, Hhi.
Qed.

Lemma row_lengths p r : rows !! p = Some r -> length (id_key r.1) = Z.to_nat (t_keySize t).
Proof. intros Hp. pose proof (Forall_lookup_1 _ _ _ _ (th_key _ _ Ht) Hp) as H. cbv beta in H. unfold slen in H. lia. Qed.

Lemma findEntry_found p i v : rows !! p = Some (i, v) -> findEntry t i = Ok (Some v).
Proof.
  intros Hp. pose proof (row_valid _ _ Hp) as Hi. cbn [fst] in Hi.
  pose proof (Forall_lookup_1 _ _ _ _ (th_key _ _ Ht) Hp) as Hk. cbn [fst] in Hk.
  destruct (exact_position i Hi) as (pos & Hs & Hr & Hlo & Hhi).
  assert (pos = Z.of_nat p) as ->.
  { pose proof (lookup_lt_Some _ _ _ Hp) as Hlt. pose proof (th_count _ _ Ht) as Hc. unfold slen in Hc.
    assert (id_at (Z.of_nat p) = i) as Hat by (unfold id_at; by rewrite Nat2Z.id, list_lookup_fmap, Hp).
    destruct (Z.lt_trichotomy pos (Z.of_nat p)) as [?|[?|?]]; [|done|].
    - specialize (Hhi pos ltac:(lia)). rewrite <- Hat, id_at_sorted in Hhi; [done|lia..].
    - specialize (Hlo (Z.of_nat p) ltac:(lia)). by rewrite Hat, less_irrefl in Hlo. }
  unfold findEntry. fold (id_key i). rewrite (proj2 (Z.eqb_neq _ _)); [|].
  2: { pose proof (valid_id_len _ Hi). rewrite <- Hk, slen_key. unfold unknownKeySize, maxIDLength, MaxHashSize in *. lia. }
  rewrite Hk, Z.eqb_refl, Hs. cbn [negb]. rewrite (th_count _ _ Ht) in *.
  pose proof (lookup_lt_Some _ _ _ Hp). rewrite (proj2 (Z.leb_gt _ _)) by (unfold slen; lia).
  rewrite (slice_row _ _ Hp). unfold row_bytes; cbn [fst snd].
  rewrite take_app_length, drop_app_length. by rewrite bool_decide_eq_true_2.
Qed.

Lemma findEntry_absent i : valid_id i -> slen (id_key i) = t_keySize t -> i ∉ rows.*1 -> findEntry t i = Ok None.
Proof.
  intros Hi Hk Hnot. destruct (exact_position i Hi) as (pos & Hs & Hr & _ & _).
  unfold findEntry. destruct (t_keySize t =? unknownKeySize); [done|]. fold (id_key i).
  rewrite Hk, Z.eqb_refl, Hs. cbn [negb]. destruct (Z.leb_spec (t_entryCount t) pos); [done|].
  destruct (row_at pos) as (r & Hl & _); [lia|].
  rewrite <- (Z2Nat.id pos), (slice_row _ _ Hl) by lia. unfold row_bytes.
  rewrite bool_decide_eq_false_2; [done|]. intros He. apply Hnot.
  assert (length (id_key i) = length (id_key r.1)) as Hlen.
  { rewrite (row_lengths _ _ Hl). unfold slen in Hk. lia. }
  rewrite Hlen, take_app_length in He. apply (inj id_key) in He as <-.
  apply list_elem_of_fmap. exists r. split; [done|]. by eapply list_elem_of_lookup_2.
Qed.

(** A search of the wrong length is refused. *)
Lemma findEntry_wrong_length i : t_keySize t <> unknownKeySize -> slen (id_key i) <> t_keySize t ->
  findEntry t i = Err ErrInvalidContentID.
Proof.
  intros Hu Hk. unfold findEntry. rewrite (proj2 (Z.eqb_neq _ _) Hu). fold (id_key i).
  by rewrite (proj2 (Z.eqb_neq _ _) Hk).
Qed.

(** The first position at or after a prefix. *)
Lemma start_position s :
  exists pos, findEntryPosition t s = Ok pos /\ 0 <= pos <= t_entryCount t
    /\ (forall p, 0 <= p < pos -> comparePrefix (id_at p) s < 0)
    /\ (forall p, pos <= p < t_entryCount t -> 0 <= comparePrefix (id_at p) s).
Proof.
  pose proof (th_count _ _ Ht) as Hc. pose proof (th_small _ _ Ht).
  destruct (Search_spec (fun n =>
    let! key := safeSlice (t_data t) (entryOffset t n) (t_keySize t) in
    let! id := contentID_of_key key in
    Ok (0 <=? comparePrefix id s)) (fun p => 0 <=? comparePrefix (id_at p) s) (t_entryCount t))
    as (pos & Hs & Hr & Hlo & Hhi).
  - unfold slen in *. lia.
  - intros p Hp. destruct (row_at p Hp) as (r & Hl & Hid).
    rewrite <- (Z2Nat.id p), (slice_key _ _ Hl), (row_id _ _ Hl), Z2Nat.id, Hid by lia. done.
  - intros p q Hp Hq Hg. destruct (Z.eq_dec p q) as [->|]; [done|].
    pose proof (id_at_sorted p q ltac:(lia) Hq) as Hl.
    destruct (row_at p) as (a & Ha & Ea); [lia|]. destruct (row_at q) as (b & Hb & Eb); [lia|].
    rewrite Ea, Eb in *. apply row_valid in Ha, Hb. rewrite comparePrefix_spec in * by done.
    rewrite less_String, slt_SCompare in Hl by done. bool_to_prop. apply Z.leb_le.
    destruct (Z.lt_ge_cases (SCompare (ID_String b.1) s) 0) as [Hx|]; [|done].
    pose proof (Compare_trans _ _ _ Hl Hx). unfold SCompare in *. lia.
  - exists pos. split; [exact Hs|]. split; [done|]. split; intros p Hp.
    + apply Z.leb_gt. by apply Hlo.
    + apply Z.leb_le. by apply Hhi.
Qed.
End TableFacts.

(** Iterating visits, in order, the rows whose identifiers lie in the range. *)
Section IterateFacts.
Context (t : table) (rows : list (ID * list Z)) (Ht : table_holds t rows).
Context {C : Type} (decode : ID -> list Z -> C -> result index_error Info * C).
Context (P : C -> Prop) (info : ID * list Z -> Info).
Context (Hdecode : forall r c, r ∈ rows -> P c -> exists c', decode r.1 r.2 c = (Ok (info r), c') /\ P c').

Lemma after_end a b e : a ∈ rows -> b ∈ rows -> id_lt a.1 b.1 -> 0 <= comparePrefix a.1 e -> 0 <= comparePrefix b.1 e.
Proof.
  intros Ha Hb Hl Hc. pose proof (th_valid _ _ Ht) as Hv. rewrite Forall_forall in Hv.
  apply Hv in Ha, Hb. unfold id_lt in Hl. rewrite less_String, slt_SCompare in Hl by done.
  rewrite comparePrefix_spec in * by done. bool_to_prop.
  destruct (Z.lt_ge_cases (SCompare (ID_String b.1) e) 0) as [Hx|]; [|done].
  pose proof (Compare_trans _ _ _ Hl Hx). unfold SCompare in *. lia.
Qed.

Lemma iterate_loop_spec {S E} (e : IDPrefix) (cb : callback S E) todo pos c s :
  rows = take pos rows ++ todo -> (pos + length todo = length rows)%nat -> P c ->
  exists c', P c' /\ iterate_loop decode t e cb (length todo) (Z.of_nat pos) c s
    = let x := feed cb (info <$> filter (fun r => comparePrefix r.1 e < 0) todo) s in (x.1, c', x.2).
Proof.
  revert pos c s. induction todo as [|r todo IH]; intros pos c s Hrows Hlen Hc; [by exists c|].
  cbn [length iterate_loop]. cbn [length] in Hlen.
  assert (rows !! pos = Some r) as Hp.
  { rewrite Hrows, lookup_app_r; rewrite length_take; [|lia]. by replace (pos - _)%nat with 0%nat by lia. }
  assert (r ∈ rows) as Hin by by eapply list_elem_of_lookup_2.
  rewrite (slice_row t rows Ht _ _ Hp). unfold row_bytes.
  rewrite <- (row_lengths t rows Ht _ _ Hp), take_app_length, drop_app_length, (row_id t rows Ht _ _ Hp).
  destruct (Z.leb_spec 0 (comparePrefix r.1 e)) as [Hge|Hlt].
  - exists c. split; [done|]. rewrite filter_cons_False by lia.
    assert (filter (fun r => comparePrefix r.1 e < 0) todo = []) as ->; [|done].
    apply filter_none. intros b Hb. apply Z.le_ngt. 
    assert (b ∈ rows) as Hbin by (rewrite Hrows; set_solver). eapply (after_end r b); try done.
    pose proof (th_sorted _ _ Ht) as Hs. rewrite Hrows, fmap_app in Hs. apply StronglySorted_app_1_r in Hs.
    cbn [fmap list_fmap] in Hs. apply StronglySorted_cons in Hs as [Hs _]. rewrite Forall_forall in Hs.
    apply Hs, list_elem_of_fmap. eauto.
  - rewrite filter_cons_True by done. cbn [fmap list_fmap feed].
    destruct (Hdecode r c Hin Hc) as (c1 & -> & Hc1). destruct (cb (info r) s) as [[er|] s1]; [by exists c1|].
    replace (Z.of_nat pos + 1) with (Z.of_nat (Datatypes.S pos)) by lia. apply IH; [|lia|done].
    rewrite (take_S_r _ _ _ Hp), <- app_assoc. exact Hrows.
Qed.

Lemma drop_before pos (r : IDRange) :
  (forall p, 0 <= p < Z.of_nat pos -> comparePrefix (id_at rows p) (StartID r) < 0) ->
  (forall p, Z.of_nat pos <= p < t_entryCount t -> 0 <= comparePrefix (id_at rows p) (StartID r)) ->
  filter (fun x => IDRange_Contains r x.1 = true) rows
  = filter (fun x => comparePrefix x.1 (EndID r) < 0) (drop pos rows).
Proof.
  intros Hlo Hhi. rewrite <- (take_drop pos rows) at 1. rewrite filter_app.
  assert (forall p x, rows !! p = Some x -> id_at rows (Z.of_nat p) = x.1) as Hat.
  { intros p x Hp. unfold id_at. by rewrite Nat2Z.id, list_lookup_fmap, Hp. }
  assert (filter (fun x => IDRange_Contains r x.1 = true) (take pos rows) = []) as ->.
  { apply filter_none. intros x [p Hp]%list_elem_of_lookup Hx. apply lookup_take_Some in Hp as [Hp Hlt].
    specialize (Hlo (Z.of_nat p) ltac:(lia)). rewrite (Hat _ _ Hp) in Hlo.
    unfold IDRange_Contains in Hx. bool_to_prop. lia. }
  apply filter_agree. intros x [p Hp]%list_elem_of_lookup. rewrite lookup_drop in Hp.
  specialize (Hhi (Z.of_nat (pos + p))). rewrite (Hat _ _ Hp), (th_count _ _ Ht) in Hhi.
  apply lookup_lt_Some in Hp. specialize (Hhi ltac:(unfold slen; lia)). unfold IDRange_Contains.
  rewrite andb_true_iff, Z.leb_le, Z.ltb_lt. intuition.
Qed.

Lemma iterate_table_spec {S E} (r : IDRange) (cb : callback S E) c s : P c ->
  exists c', P c' /\ iterate_table decode t r cb c s
    = let x := feed cb (info <$> filter (fun x => IDRange_Contains r x.1 = true) rows) s in (x.1, c', x.2).
Proof.
  intros Hc. destruct (start_position t rows Ht (StartID r)) as (pos & Hs & Hr & Hlo & Hhi).
  destruct (Z_of_nat_complete pos) as [n ->]; [lia|].
  unfold iterate_table. rewrite Hs. pose proof (th_count _ _ Ht) as Hn. unfold slen in Hn. rewrite (drop_before n) by done.
  replace (Z.to_nat (t_entryCount t - Z.of_nat n)) with (length (drop n rows)) by (rewrite length_drop; lia).
  apply iterate_loop_spec; [by rewrite take_drop|rewrite length_drop; lia|done].
Qed.
End IterateFacts.

(** ** What the writers share *)

(** A loop that stops at the first error. *)
Fixpoint mapR {A B E} (f : A -> result E B) (l : list A) : result E (list B) :=
  match l with
  | [] => Ok []
  | x :: l => let! y := f x in let! ys := mapR f l in Ok (y :: ys)
  end.

Lemma mapR_Ok {A B E} (f : A -> result E B) (g : A -> B) l :
  (forall x, x ∈ l -> f x = Ok (g x)) -> mapR f l = Ok (g <$> l).
Proof.
  induction l as [|x l IH]; intros Hf; [done|]. cbn [mapR]. rewrite Hf by (by left).
  rewrite IH; [done|]. intros y Hy. apply Hf. by right.
Qed.

Lemma mapR_inv {A B E} (f : A -> result E B) l ys :
  mapR f l = Ok ys -> Forall2 (fun x y => f x = Ok y) l ys.
Proof.
  revert ys. induction l as [|x l IH]; intros ys; cbn [mapR]; [intros [= <-]; constructor|].
  destruct (f x) as [y|] eqn:E1; [|done]. destruct (mapR f l) as [ys'|]; [|done].
  intros [= <-]. constructor; auto.
Qed.

(** One turn of the loop of [prepareExtraData], the same in both formats: a
    pack's name is appended to the extra data the first time it is met. *)
Definition extra_step (st : gmap string Z * list Z) (it : Info) : gmap string Z * list Z :=
  let '(offsets, extraData) := st in
  if String.eqb (PackBlobID it) "" then st
  else match offsets !! PackBlobID it with
  | Some _ => st
  | None => (<[PackBlobID it := uint32 (slen extraData)]> offsets, extraData ++ bytes (PackBlobID it))
  end.

Definition extra_data (l : list Info) : gmap string Z * list Z := foldl extra_step (∅, []) l.

(** Every recorded name is where its offset says, and no offset is shared. *)
Record names_at (offsets : gmap string Z) (extra : list Z) : Prop := {
  na_at : forall n o, offsets !! n = Some o -> exists a c, extra = a ++ bytes n ++ c /\ o = slen a;
  na_nonempty : forall n o, offsets !! n = Some o -> n <> "";
  na_inj : forall m n o, offsets !! m = Some o -> offsets !! n = Some o -> m = n
}.

Lemma slen_bytes s : slen (bytes s) = len s.
Proof. unfold slen, len. by rewrite length_bytes. Qed.

Lemma len_pos s : s <> "" -> 0 < len s.
Proof. destruct s; [done|]. unfold len. cbn. lia. Qed.

Lemma extra_step_names offsets extra it :
  slen extra < 2 ^ 32 -> names_at offsets extra ->
  names_at (extra_step (offsets, extra) it).1 (extra_step (offsets, extra) it).2.
Proof.
  intros Hsmall [Hat Hne Hinj]. unfold extra_step. destruct (String.eqb_spec (PackBlobID it) "") as [|Hn]; [done|].
  destruct (offsets !! PackBlobID it) eqn:E; [done|]. cbn [fst snd].
  assert (uint32 (slen extra) = slen extra) as Hu.
  { unfold uint32. apply Z.mod_small. pose proof (slen_nonneg extra). lia. }
  assert (forall n o, offsets !! n = Some o -> o < slen extra) as Hbelow.
  { intros n o Hno. destruct (Hat n o Hno) as (a & c & -> & ->). rewrite !slen_app, slen_bytes.
    pose proof (len_pos n (Hne _ _ Hno)). pose proof (slen_nonneg c). lia. }
  rewrite Hu. split.
  - intros n o. rewrite lookup_insert_Some. intros [[<- <-]|[_ Ho]].
    + exists extra, []. by rewrite app_nil_r.
    + destruct (Hat n o Ho) as (a & c & -> & ->). exists a, (c ++ bytes (PackBlobID it)). by rewrite <- !app_assoc.
  - intros n o. rewrite lookup_insert_Some. intros [[<- _]|[_ Ho]]; eauto.
  - intros m n o. rewrite !lookup_insert_Some.
    intros [[<- <-]|[_ Hm]] [[<- Ho]|[_ Hn']]; [done|apply Hbelow in Hn'; lia|apply Hbelow in Hm; lia|eauto].
Qed.

Lemma extra_step_grows st it n o :
  st.1 !! n = Some o -> (extra_step st it).1 !! n = Some o /\ slen st.2 <= slen (extra_step st it).2.
Proof.
  destruct st as [offsets extra]. unfold extra_step. cbn [fst snd].
  destruct (String.eqb (PackBlobID it) ""); [by split|]. destruct (offsets !! PackBlobID it) eqn:E; [by split|].
  intros Hn. cbn [fst snd]. rewrite slen_app. pose proof (slen_nonneg (bytes (PackBlobID it))). split; [|lia].
  rewrite lookup_insert_ne; [done|]. intros <-. congruence.
Qed.

Lemma extra_step_slen st it : slen st.2 <= slen (extra_step st it).2.
Proof.
  destruct st as [offsets extra]. unfold extra_step. cbn [fst snd].
  destruct (String.eqb (PackBlobID it) ""); [done|]. destruct (offsets !! PackBlobID it) eqn:E; [done|].
  cbn [snd]. rewrite slen_app. pose proof (slen_nonneg (bytes (PackBlobID it))). lia.
Qed.

Lemma extra_fold_slen l st : slen st.2 <= slen (foldl extra_step st l).2.
Proof.
  revert st. induction l as [|it l IH]; intros st; [done|]. cbn [foldl].
  pose proof (extra_step_slen st it). pose proof (IH (extra_step st it)). lia.
Qed.

Lemma extra_fold_keeps l st n o : st.1 !! n = Some o -> (foldl extra_step st l).1 !! n = Some o.
Proof.
  revert st. induction l as [|it l IH]; intros st Hn; [done|]. cbn [foldl]. apply IH.
  by apply extra_step_grows.
Qed.

Lemma extra_fold_names l st : slen (foldl extra_step st l).2 < 2 ^ 32 -> names_at st.1 st.2 ->
  names_at (foldl extra_step st l).1 (foldl extra_step st l).2.
Proof.
  revert st. induction l as [|it l IH]; intros [offsets extra] Hs Hn; [done|]. cbn [foldl] in *.
  apply IH; [done|]. apply extra_step_names; [|done].
  pose proof (extra_step_slen (offsets, extra) it). pose proof (extra_fold_slen l (extra_step (offsets, extra) it)).
  cbn [snd] in *. lia.
Qed.

Lemma extra_data_names l : slen (extra_data l).2 < 2 ^ 32 -> names_at (extra_data l).1 (extra_data l).2.
Proof. intros Hs. apply extra_fold_names; [done|]. split; cbn; intros *; by rewrite lookup_empty. Qed.

Lemma extra_data_known l it : it ∈ l -> PackBlobID it <> "" -> is_Some ((extra_data l).1 !! PackBlobID it).
Proof.
  intros [l1 [l2 ->]]%list_elem_of_split Hne. unfold extra_data. rewrite foldl_app. cbn [foldl].
  generalize (foldl extra_step (∅, []) l1). intros [offsets extra].
  assert (is_Some ((extra_step (offsets, extra) it).1 !! PackBlobID it)) as [o Ho].
  { unfold extra_step. destruct (String.eqb_spec (PackBlobID it) ""); [done|].
    destruct (offsets !! PackBlobID it) eqn:E; cbn [fst]; [by eexists|]. rewrite lookup_insert_eq. by eexists. }
  exists o. by apply extra_fold_keeps.
Qed.

(** The length of what is written. *)
Lemma slen_PutUint64 v : slen (PutUint64 v) = 8.
Proof. done. Qed.
Lemma slen_PutUint32 v : slen (PutUint32 v) = 4.
Proof. done. Qed.

(** Bit 7 of a byte, and the low bits of a word. *)
Lemma land_128 x : 0 <= x < 256 -> Z.land x 0x80 = if 128 <=? x then 128 else 0.
Proof.
  intros Hx. apply (bool_decide_eq_true_1 _). revert x Hx.
  apply (enumerate 256 (fun x => bool_decide (Z.land x 0x80 = if 128 <=? x then 128 else 0))). by vm_compute.
Qed.

(** A word with a flag in its top bit. *)
Lemma flag_word (d : bool) v : 0 <= v < 2 ^ 31 ->
  (if d then Z.lor v 0x80000000 else v) = v + (if d then 2 ^ 31 else 0).
Proof.
  intros Hv. destruct d; [|lia]. rewrite Z.lor_comm, (lor_add _ v 31); [lia..|]. by exists 1.
Qed.

Lemma flag_word_flag (d : bool) v : 0 <= v < 2 ^ 31 ->
  negb (Z.land (byte (Z.shiftr (v + (if d then 2 ^ 31 else 0)) 24)) 0x80 =? 0) = d.
Proof.
  intros Hv. rewrite land_128 by apply byte_range. unfold byte. shifts.
  destruct d; case_match; try done; exfalso; bool_to_prop; lia_div.
Qed.

Lemma flag_word_rest (d : bool) v : 0 <= v < 2 ^ 31 -> Z.land (v + (if d then 2 ^ 31 else 0)) (Z.ones 31) = v.
Proof. intros Hv. rewrite Z.land_ones by lia. destruct d; lia_div. Qed.

(** ** The contents an index is built from *)

(** Entries in the order of their identifiers, which all have one length. *)
Record index_list (l : list Info) (k : Z) : Prop := {
  il_sorted : StronglySorted id_lt (ContentID <$> l);
  il_valid : Forall (fun it => valid_id (ContentID it)) l;
  il_key : Forall (fun it => slen (id_key (ContentID it)) = k) l
}.

(** The entry of an identifier. *)
Definition find_info (l : list Info) (i : ID) : option Info :=
  List.find (fun it => bool_decide (ContentID it = i)) l.

Lemma find_info_Some l i it : find_info l i = Some it -> it ∈ l /\ ContentID it = i.
Proof.
  intros H. apply List.find_some in H as [Hin Hi]. apply bool_decide_eq_true in Hi.
  split; [by apply list_elem_of_In|done].
Qed.

Lemma find_info_None l i : find_info l i = None -> i ∉ ContentID <$> l.
Proof.
  intros H (it & -> & Hin)%list_elem_of_fmap. pose proof (List.find_none _ _ H it) as Hn.
  apply list_elem_of_In in Hin. specialize (Hn Hin); cbv beta in Hn. by rewrite bool_decide_eq_true_2 in Hn.
Qed.

Lemma id_lt_irrefl i : ~ id_lt i i.
Proof. unfold id_lt. by rewrite less_irrefl. Qed.

Lemma index_list_NoDup l k : index_list l k -> NoDup (ContentID <$> l).
Proof.
  intros [Hs _ _]. remember (ContentID <$> l) as ids eqn:E; clear E; induction Hs as [|i ids _ IH Hi]; constructor; [|done].
  intros Hin. rewrite Forall_forall in Hi. by apply (id_lt_irrefl i), Hi.
Qed.

Lemma find_info_elem l k it : index_list l k -> it ∈ l -> find_info l (ContentID it) = Some it.
Proof.
  intros Hl Hin. destruct (find_info l (ContentID it)) as [x|] eqn:E.
  - apply find_info_Some in E as [Hx Hc]. f_equal. eapply (NoDup_fmap_inj_elem ContentID); eauto using index_list_NoDup.
  - exfalso. apply (find_info_None _ _ E). by apply list_elem_of_fmap_2.
Qed.

(** Iterating a table whose rows decode to the entries of a list. *)
Lemma iterate_infos {C S E} (t : table) l k (row : Info -> list Z)
    (decode : ID -> list Z -> C -> result index_error Info * C) (P : C -> Prop) r (cb : callback S E) c s :
  index_list l k -> table_holds t ((fun it => (ContentID it, row it)) <$> l) ->
  (forall it c, it ∈ l -> P c -> exists c', decode (ContentID it) (row it) c = (Ok it, c') /\ P c') -> P c ->
  exists c', P c' /\ iterate_table decode t r cb c s
    = let x := feed cb (filter (fun it => IDRange_Contains r (ContentID it) = true) l) s in (x.1, c', x.2).
Proof.
  intros Hl Ht Hdec Hc. set (dummy := mkInfo "" 0 0 0 0 0 EmptyID false 0 0).
  set (info := fun x : ID * list Z => default dummy (find_info l x.1)).
  assert (forall it, it ∈ l -> info (ContentID it, row it) = it) as Hinfo.
  { intros it Hin. unfold info. cbn [fst]. by rewrite (find_info_elem _ _ _ Hl Hin). }
  destruct (iterate_table_spec t _ Ht decode P info) with (r := r) (cb := cb) (c := c) (s := s)
    as (c' & Hc' & Heq); [|done|].
  { intros x c0 (it & -> & Hin)%list_elem_of_fmap Hc0. cbn [fst snd]. rewrite Hinfo by done. by apply Hdec. }
  exists c'. split; [done|]. rewrite Heq.
  replace (info <$> filter (fun x => IDRange_Contains r x.1 = true) ((fun it => (ContentID it, row it)) <$> l))
    with (filter (fun it => IDRange_Contains r (ContentID it) = true) l); [done|].
  clear - Hinfo. assert (forall it, it ∈ l -> it ∈ l) as Hsub by done. revert Hsub. generalize l at 1 3 4.
  intros m. induction m as [|it m IH]; intros Hsub; [done|]. cbn [fmap list_fmap]. rewrite !filter_cons. cbn [fst].
  case_decide; [cbn [fmap list_fmap]; rewrite Hinfo by (apply Hsub; by left); f_equal|];
    apply IH; intros x Hx; apply Hsub; by right.
Qed.
