(* ===== verification/IndexV1.v ===== *)
(** * Content index, format 1

    [repo/content/index/index_v1.go]: the writer [buildV1] and the reader, which
    remembers the pack names it has read by their offset.  The round trip is
    proved for the whole format: an index that was written is read back entry
    for entry, whatever bytes follow it. *)

From S2P Require Import Prelude GoStrings GoText IndexID IndexTable.
Open Scope go_scope.

Definition Version1 : Z := 1.
Definition v1HeaderSize : Z := 8.
Definition v1DeletedMarker : Z := 0x80000000.
Definition v1EntryLength : Z := 20.
Definition invalidBlobID : string := "---invalid---".

(** ** Reading *)

Record v1HeaderInfo := mkV1Header {
  v1_version : Z;
  v1_keySize : Z;
  v1_valueSize : Z;
  v1_entryCount : Z
}.

Definition v1ReadHeader (data : list Z) : result index_error v1HeaderInfo :=
  let! header := safeSlice data 0 v1HeaderSize in
  let hi := mkV1Header (byte_at header 0) (byte_at header 1) (decodeBigEndianUint16 (drop 2 header))
              (decodeBigEndianUint32 (drop 4 header)) in
  if (v1_keySize hi <=? 1) || (v1_valueSize hi <? 0) || (v1_entryCount hi <? 0) then Err ErrInvalidHeader
  else Ok hi.

(** The names read so far, by offset; guarded by its own mutex in the code. *)
Abbreviation name_cache := (gmap Z string).

Record indexV1 := mkIndexV1 {
  v1_hdr : v1HeaderInfo;
  v1_data : list Z;
  v1PerContentOverhead : Z;
  nameOffsetToBlobID : name_cache
}.

Definition openV1PackIndex (hdr : v1HeaderInfo) (data : list Z) (overhead : Z) : indexV1 :=
  mkIndexV1 hdr data overhead ∅.

Definition packBlobIDForOffset (data : list Z) (nameOffset nameLength : Z) (c : name_cache) : string * name_cache :=
  match c !! nameOffset with
  | Some packBlobID => (packBlobID, c)
  | None =>
      match safeSlice data nameOffset nameLength with
      | Err _ => (invalidBlobID, c)
      | Ok nameBuf => (of_bytes nameBuf, <[nameOffset := of_bytes nameBuf]> c)
      end
  end.

Definition entryToInfoStruct (b : indexV1) (contentID : ID) (data : list Z) (c : name_cache)
    : result index_error Info * name_cache :=
  if negb (slen data =? v1EntryLength) then (Err ErrInvalidEntryLength, c)
  else
    let nameLength := byte_at data 7 in
    let nameOffset := decodeBigEndianUint32 (drop 8 data) in
    let '(packBlobID, c) := packBlobIDForOffset (v1_data b) nameOffset nameLength c in
    let packedLength := decodeBigEndianUint32 (drop 16 data) in
    (Ok {| ContentID := contentID;
           TimestampSeconds := decodeBigEndianUint48 data;
           FormatVersion := byte_at data 6;
           PackBlobID := packBlobID;
           Deleted := negb (Z.land (byte_at data 12) 0x80 =? 0);
           PackOffset := Z.land (decodeBigEndianUint32 (drop 12 data)) (Z.ones 31);
           PackedLength := packedLength;
           OriginalLength := uint32 (packedLength - v1PerContentOverhead b);
           CompressionHeaderID := 0;
           EncryptionKeyID := 0 |}, c).

(** The table of entries of an index. *)
Definition v1_table (b : indexV1) : table :=
  mkTable (v1_data b) v1HeaderSize (v1_keySize (v1_hdr b)) (v1_keySize (v1_hdr b) + v1_valueSize (v1_hdr b))
    (v1_entryCount (v1_hdr b)).

Definition with_names (b : indexV1) (c : name_cache) : indexV1 :=
  mkIndexV1 (v1_hdr b) (v1_data b) (v1PerContentOverhead b) c.

Definition ApproximateCountV1 (b : indexV1) : Z := v1_entryCount (v1_hdr b).

Definition IterateV1 {S E} (b : indexV1) (r : IDRange) (cb : callback S E) (s : S)
    : result (iter_error E) unit * indexV1 * S :=
  let '(res, c, s) := iterate_table (entryToInfoStruct b) (v1_table b) r cb (nameOffsetToBlobID b) s in
  (res, with_names b c, s).

Definition GetInfoV1 (b : indexV1) (contentID : ID) : result index_error (option Info) * indexV1 :=
  match findEntry (v1_table b) contentID with
  | Err e => (Err e, b)
  | Ok None => (Ok None, b)
  | Ok (Some e) =>
      if negb (slen e =? v1EntryLength) then (Err ErrInvalidEntryLength, b)
      else match entryToInfoStruct b contentID e (nameOffsetToBlobID b) with
      | (Err e, c) => (Err e, with_names b c)
      | (Ok i, c) => (Ok (Some i), with_names b c)
      end
  end.

(** ** Writing *)

Record indexBuilderV1 := mkBuilderV1 {
  b1_packBlobIDOffsets : gmap string Z;
  b1_entryCount : Z;
  b1_keyLength : Z;
  b1_entryLength : Z;
  b1_extraDataOffset : Z
}.

Definition prepareExtraDataV1 (b : indexBuilderV1) (allContents : list Info) : indexBuilderV1 * list Z :=
  let keyLength := match allContents with
                   | [] => b1_keyLength b
                   | it :: _ => slen (contentIDToBytes [] (ContentID it))
                   end in
  let '(offsets, extraData) := foldl extra_step (b1_packBlobIDOffsets b, []) allContents in
  (mkBuilderV1 offsets (b1_entryCount b) keyLength (b1_entryLength b)
     (uint32 (v1HeaderSize + b1_entryCount b * (keyLength + b1_entryLength b))), extraData).

Definition formatEntry (b : indexBuilderV1) (it : Info) : result index_error (list Z) :=
  let timestampAndFlags := uint64 (Z.shiftl (uint64 (TimestampSeconds it)) 16) in
  let packBlobID := PackBlobID it in
  if len packBlobID =? 0 then Err ErrEmptyPackBlobID
  else
    let packFileOffset := uint32 (b1_extraDataOffset b + default 0 (b1_packBlobIDOffsets b !! packBlobID)) in
    let packedOffset := if Deleted it then Z.lor (PackOffset it) v1DeletedMarker else PackOffset it in
    let timestampAndFlags := Z.lor timestampAndFlags (Z.shiftl (FormatVersion it) 8) in
    let timestampAndFlags := Z.lor timestampAndFlags (len packBlobID) in
    Ok (PutUint64 timestampAndFlags ++ PutUint32 packFileOffset ++ PutUint32 packedOffset
        ++ PutUint32 (PackedLength it)).

Definition writeEntry (b : indexBuilderV1) (it : Info) : result index_error (list Z) :=
  let k := contentIDToBytes [] (ContentID it) in
  if negb (slen k =? b1_keyLength b) then Err ErrInconsistentKeyLength
  else if negb (CompressionHeaderID it =? 0) then Err ErrCompressionUnsupported
  else if negb (EncryptionKeyID it =? 0) then Err ErrEncryptionKeyUnsupported
  else let! entry := formatEntry b it in
  Ok (k ++ entry).

(** [buildV1], with the bytes written to its output as the result. *)
Definition buildV1 (allContents : list Info) : result index_error (list Z) :=
  let b1 := mkBuilderV1 ∅ (slen allContents) (-1) v1EntryLength 0 in
  let '(b1, extraData) := prepareExtraDataV1 b1 allContents in
  let header := [1; byte (b1_keyLength b1)] ++ PutUint16 (uint16 (b1_entryLength b1))
                ++ PutUint32 (uint32 (b1_entryCount b1)) in
  let! entries := mapR (writeEntry b1) allContents in
  Ok (header ++ concat entries ++ extraData).

Definition ex_infos : list Info :=
  [mkInfo "pack1" 1700000000 95 100 0 0 (mkID 0 [1; 2]) false 1 0;
   mkInfo "pack2" 1700000001 195 200 77 0 (mkID 0 [1; 3]) true 2 0;
   mkInfo "pack1" 1700000002 295 300 100 0 (mkID 107 [0; 9]) false 1 0].

Definition v1_open (data : list Z) (overhead : Z) : option indexV1 :=
  match v1ReadHeader data with Ok h => Some (openV1PackIndex h data overhead) | Err _ => None end.

Example v1_ex :
  match buildV1 ex_infos with
  | Ok d => match v1_open (d ++ [9; 9]) 5 with
            | Some b => (GetInfoV1 b (mkID 107 [0; 9])).1 = Ok (ex_infos !! 2%nat)
                        /\ (GetInfoV1 b (mkID 107 [0; 8])).1 = Ok None
                        /\ (GetInfoV1 b (mkID 107 [0])).1 = Err ErrInvalidContentID
                        /\ (IterateV1 (E := unit) b (PrefixRange "01") (fun i s => (None, i :: s)) []).2
                           = rev (take 2 ex_infos)
            | None => False
            end
  | Err _ => False
  end.
Proof. vm_compute. repeat split. Qed.

(** ** Reading back what was written *)

(** What format 1 can store: it has no room for compression, encryption keys
    or the original length, which it computes from the packed length. *)
Record storable_v1 (overhead : Z) (it : Info) : Prop := {
  sv1_time : 0 <= TimestampSeconds it < 2 ^ 48;
  sv1_format : 0 <= FormatVersion it < 256;
  sv1_pack : 0 < len (PackBlobID it) < 256;
  sv1_offset : 0 <= PackOffset it < 2 ^ 31;
  sv1_length : 0 <= PackedLength it < 2 ^ 32;
  sv1_original : OriginalLength it = uint32 (PackedLength it - overhead);
  sv1_compression : CompressionHeaderID it = 0;
  sv1_encryption : EncryptionKeyID it = 0
}.

(** The words of an entry, and the fields read from them. *)
Definition entry_of (w o po pl : Z) : list Z := PutUint64 w ++ PutUint32 o ++ PutUint32 po ++ PutUint32 pl.

Lemma entry_of_fields w o po pl :
  0 <= w < 2 ^ 64 -> 0 <= o < 2 ^ 32 -> 0 <= po < 2 ^ 32 -> 0 <= pl < 2 ^ 32 ->
  let d := entry_of w o po pl in
  decodeBigEndianUint48 d = w / 2 ^ 16 /\ byte_at d 6 = (w / 2 ^ 8) `mod` 2 ^ 8 /\ byte_at d 7 = w `mod` 2 ^ 8
  /\ decodeBigEndianUint32 (drop 8 d) = o /\ byte_at d 12 = byte (Z.shiftr po 24)
  /\ decodeBigEndianUint32 (drop 12 d) = po /\ decodeBigEndianUint32 (drop 16 d) = pl.
Proof.
  intros Hw Ho Hpo Hpl. cbn zeta. unfold entry_of, PutUint64. repeat split.
  - cbn [PutUint32 app]. rewrite decode48_cons by apply byte_range. unfold byte. shifts. lia_div.
  - change (byte (Z.shiftr w 8) = (w / 2 ^ 8) `mod` 2 ^ 8). unfold byte. shifts. done.
  - change (drop 8 _) with (PutUint32 o ++ PutUint32 po ++ PutUint32 pl). by apply decode_PutUint32.
  - change (drop 12 _) with (PutUint32 po ++ PutUint32 pl). by apply decode_PutUint32.
  - change (drop 16 _) with (PutUint32 pl). rewrite <- (app_nil_r (PutUint32 pl)). by apply decode_PutUint32.
Qed.

(** The first word of an entry. *)
Definition flags_word (it : Info) : Z :=
  TimestampSeconds it * 2 ^ 16 + FormatVersion it * 2 ^ 8 + len (PackBlobID it).

Definition v1_value (b : indexBuilderV1) (it : Info) : list Z :=
  entry_of (flags_word it) (uint32 (b1_extraDataOffset b + default 0 (b1_packBlobIDOffsets b !! PackBlobID it)))
    (PackOffset it + (if Deleted it then 2 ^ 31 else 0)) (PackedLength it).

Lemma formatEntry_Ok overhead b it : storable_v1 overhead it -> formatEntry b it = Ok (v1_value b it).
Proof.
  intros [Ht Hf Hp Ho _ _ _ _]. unfold formatEntry, v1_value, entry_of.
  rewrite (proj2 (Z.eqb_neq _ _)) by lia. unfold v1DeletedMarker. rewrite flag_word by done.
  assert (Z.lor (Z.lor (uint64 (Z.shiftl (uint64 (TimestampSeconds it)) 16)) (Z.shiftl (FormatVersion it) 8))
            (len (PackBlobID it)) = flags_word it) as ->; [|done].
  unfold uint64, flags_word. shifts. rewrite (Z.mod_small (TimestampSeconds it)), Z.mod_small by lia.
  rewrite (lor_add _ (FormatVersion it * 2 ^ 8) 16), (lor_add _ (len (PackBlobID it)) 8); try lia; divides.
Qed.

(** An entry of the file decodes to the entry that was stored, as long as the
    name it points to is read from the file or was read before. *)
Lemma entryToInfoStruct_value overhead b ib it c :
  storable_v1 overhead it -> v1PerContentOverhead ib = overhead ->
  let o := uint32 (b1_extraDataOffset b + default 0 (b1_packBlobIDOffsets b !! PackBlobID it)) in
  (packBlobIDForOffset (v1_data ib) o (len (PackBlobID it)) c).1 = PackBlobID it ->
  entryToInfoStruct ib (ContentID it) (v1_value b it) c
  = (Ok it, (packBlobIDForOffset (v1_data ib) o (len (PackBlobID it)) c).2).
Proof.
  intros [Ht Hf Hp Hof Hlen Hor Hc He] Hov. cbn zeta.
  set (o := uint32 _). intros Hname. unfold entryToInfoStruct, v1_value. fold o.
  pose proof (entry_of_fields (flags_word it) o (PackOffset it + (if Deleted it then 2 ^ 31 else 0)) (PackedLength it))
    as (H1 & H2 & H3 & H4 & H5 & H6 & H7); try done.
  { unfold flags_word. lia. }
  { unfold o, uint32. lia_div. }
  { destruct (Deleted it); lia. }
  rewrite H1, H2, H3, H4, H5, H6, H7, flag_word_flag, flag_word_rest by done. cbn [negb].
  replace (flags_word it `mod` 2 ^ 8) with (len (PackBlobID it)) by (unfold flags_word; lia_div).
  replace (flags_word it / 2 ^ 16) with (TimestampSeconds it) by (unfold flags_word; lia_div).
  replace ((flags_word it / 2 ^ 8) `mod` 2 ^ 8) with (FormatVersion it) by (unfold flags_word; lia_div).
  change (slen (entry_of _ _ _ _) =? v1EntryLength) with true. cbn [negb].
  destruct (packBlobIDForOffset (v1_data ib) o (len (PackBlobID it)) c) as [n c'].
  cbn [fst snd] in *. subst n. rewrite Hov, <- Hor. by destruct it; cbn in *; subst.
Qed.

(** An index opened over bytes that [buildV1] wrote and that others may follow. *)
Definition v1_builder (l : list Info) : indexBuilderV1 :=
  (prepareExtraDataV1 (mkBuilderV1 ∅ (slen l) (-1) v1EntryLength 0) l).1.

Definition v1_row (l : list Info) (it : Info) : ID * list Z := (ContentID it, v1_value (v1_builder l) it).

Definition v1_header (l : list Info) : list Z :=
  [1; byte (b1_keyLength (v1_builder l))] ++ PutUint16 20 ++ PutUint32 (uint32 (slen l)).

Definition v1_bytes (l : list Info) : list Z :=
  v1_header l ++ concat (row_bytes <$> (v1_row l <$> l)) ++ (extra_data l).2.

(** The length of an identifier's key, or the marker of an empty index. *)
Definition key_size (l : list Info) (k : Z) : Z := match l with [] => unknownKeySize | _ => k end.

Definition name_offset (l : list Info) (it : Info) : Z :=
  uint32 (b1_extraDataOffset (v1_builder l) + default 0 (b1_packBlobIDOffsets (v1_builder l) !! PackBlobID it)).

Section V1RoundTrip.
Context (l : list Info) (k overhead : Z) (Hl : index_list l k) (Heach : Forall (storable_v1 overhead) l).

Lemma builder_keyLength : l <> [] -> b1_keyLength (v1_builder l) = k.
Proof.
  pose proof (il_key _ _ Hl) as Hk. intros Hne. unfold v1_builder, prepareExtraDataV1.
  destruct l as [|it l']; [done|]. apply Forall_cons in Hk as [Hk _].
  destruct (foldl _ _ _). cbn [fst b1_keyLength]. exact Hk.
Qed.

Lemma builder_offsets : b1_packBlobIDOffsets (v1_builder l) = (extra_data l).1.
Proof. unfold v1_builder, prepareExtraDataV1, extra_data. cbn [b1_packBlobIDOffsets]. by destruct (foldl _ _ _). Qed.

Lemma key_length_range : l <> [] -> 2 <= k <= 33.
Proof.
  pose proof (il_key _ _ Hl) as Hk. pose proof (il_valid _ _ Hl) as Hv.
  destruct l as [|it l']; [done|]. intros _. apply Forall_cons in Hk as [Hk _]. apply Forall_cons in Hv as [Hv _].
  rewrite slen_key in Hk. pose proof (valid_id_len _ Hv). unfold maxIDLength, MaxHashSize in *. lia.
Qed.

Lemma key_size_nonempty : l <> [] -> key_size l k = k.
Proof. by destruct l. Qed.

Lemma storable_each it : it ∈ l -> storable_v1 overhead it.
Proof. intros Hin. pose proof Heach as H. rewrite Forall_forall in H. auto. Qed.

Lemma valid_each it : it ∈ l -> valid_id (ContentID it).
Proof. intros Hin. pose proof (il_valid _ _ Hl) as H. rewrite Forall_forall in H. auto. Qed.

Lemma key_each it : it ∈ l -> slen (id_key (ContentID it)) = k.
Proof. intros Hin. pose proof (il_key _ _ Hl) as H. rewrite Forall_forall in H. auto. Qed.

Lemma elem_nonempty (it : Info) : it ∈ l -> l <> [].
Proof. by intros Hin ->; apply not_elem_of_nil in Hin. Qed.

Lemma buildV1_Ok : buildV1 l = Ok (v1_bytes l).
Proof.
  unfold buildV1, v1_bytes, v1_header.
  pose proof (mapR_Ok (writeEntry (v1_builder l)) (fun it => row_bytes (v1_row l it)) l) as Hm.
  unfold v1_builder, extra_data in *.
  assert (b1_entryLength (prepareExtraDataV1 (mkBuilderV1 ∅ (slen l) (-1) v1EntryLength 0) l).1 = v1EntryLength
    /\ b1_entryCount (prepareExtraDataV1 (mkBuilderV1 ∅ (slen l) (-1) v1EntryLength 0) l).1 = slen l
    /\ (prepareExtraDataV1 (mkBuilderV1 ∅ (slen l) (-1) v1EntryLength 0) l).2 = (foldl extra_step (∅, []) l).2) as (He1 & He2 & He3).
  { unfold prepareExtraDataV1. cbn [b1_packBlobIDOffsets]. by destruct (foldl _ _ _). }
  destruct (prepareExtraDataV1 _ l) as [b1 extra] eqn:E. cbn [fst snd] in *. subst extra.
  rewrite He1, He2, Hm; [by rewrite <- list_fmap_compose|].
  intros it Hin. unfold writeEntry. fold (id_key (ContentID it)). pose proof (storable_each it Hin) as Hs.
  pose proof (builder_keyLength (elem_nonempty it Hin)) as Hk. unfold v1_builder in Hk. rewrite E in Hk. cbn [fst] in Hk.
  rewrite key_each, Hk, Z.eqb_refl, (sv1_compression _ _ Hs), (sv1_encryption _ _ Hs) by done. cbn [negb Z.eqb].
  rewrite (formatEntry_Ok overhead) by done.
  unfold v1_row, v1_builder, row_bytes. by rewrite E.
Qed.

Lemma slen_row it : it ∈ l -> slen (row_bytes (v1_row l it)) = k + v1EntryLength.
Proof. intros Hin. unfold row_bytes, v1_row. cbn [fst snd]. by rewrite slen_app, key_each. Qed.

Lemma slen_rows : slen (concat (row_bytes <$> (v1_row l <$> l))) = slen l * (k + v1EntryLength).
Proof.
  rewrite (slen_concat _ (k + v1EntryLength)).
  - unfold slen. rewrite !length_fmap. lia.
  - rewrite !Forall_fmap. apply Forall_forall. intros it Hin. by apply slen_row.
Qed.

Lemma slen_v1_bytes : slen (v1_bytes l) = v1HeaderSize + slen l * (k + v1EntryLength) + slen (extra_data l).2.
Proof. unfold v1_bytes. rewrite !slen_app, slen_rows. change (slen (v1_header l)) with v1HeaderSize. lia. Qed.

(** From here on the file is below 4 GiB. *)
Context (Hsize : slen (v1_bytes l) < 2 ^ 32).

Lemma v1_size : v1HeaderSize + slen l * (k + v1EntryLength) + slen (extra_data l).2 < 2 ^ 32.
Proof. rewrite <- slen_v1_bytes. exact Hsize. Qed.

Lemma extra_offset : b1_extraDataOffset (v1_builder l) = slen (v1_header l) + slen (concat (row_bytes <$> (v1_row l <$> l))).
Proof.
  rewrite slen_rows. pose proof v1_size as Hs. pose proof (slen_nonneg (extra_data l).2).
  change (slen (v1_header l)) with 8. change v1HeaderSize with 8 in *.
  assert (b1_extraDataOffset (v1_builder l) = uint32 (8 + slen l * (b1_keyLength (v1_builder l) + v1EntryLength))) as ->.
  { unfold v1_builder, prepareExtraDataV1. cbn [b1_packBlobIDOffsets]. by destruct (foldl _ _ _). }
  destruct (decide (l = [])) as [E|Hne].
  - rewrite E. done.
  - rewrite builder_keyLength by done. unfold uint32. pose proof (key_length_range Hne).
    rewrite Z.mod_small; [lia|]. unfold v1EntryLength, slen in *. nia.
Qed.

Lemma extra_small : l <> [] -> 0 <= slen l * (k + v1EntryLength) /\ slen (extra_data l).2 < 2 ^ 32.
Proof.
  intros Hne. pose proof v1_size. pose proof (key_length_range Hne).
  assert (0 <= slen l * (k + v1EntryLength)) by (unfold slen, v1EntryLength; nia). unfold v1HeaderSize in *. lia.
Qed.

(** Where the name of a stored entry is. *)
Lemma stored_offset it : it ∈ l -> exists a c,
  (extra_data l).1 !! PackBlobID it = Some (slen a) /\ (extra_data l).2 = a ++ bytes (PackBlobID it) ++ c
  /\ name_offset l it = slen (v1_header l ++ concat (row_bytes <$> (v1_row l <$> l)) ++ a).
Proof.
  intros Hin. destruct (extra_small (elem_nonempty it Hin)) as [Hp Hx]. destruct (extra_data_known l it Hin) as [o Ho].
  { intros E. pose proof (sv1_pack _ _ (storable_each it Hin)) as Hlen. rewrite E in Hlen. unfold len in Hlen; cbn in Hlen. lia. }
  destruct (extra_data_names l Hx) as [Hat _ _]. destruct (Hat _ _ Ho) as (a & c & He & ->). exists a, c. split_and!; [done..|].
  unfold name_offset. rewrite builder_offsets, Ho. unfold default, id. rewrite extra_offset, !slen_app, slen_rows.
  pose proof v1_size as Hsz. rewrite He, !slen_app in Hsz. change (slen (v1_header l)) with 8. unfold v1HeaderSize in *.
  pose proof (slen_nonneg a). pose proof (slen_nonneg c). pose proof (slen_nonneg (bytes (PackBlobID it))).
  unfold uint32. rewrite Z.mod_small; lia.
Qed.

(** A stored name is in the file where its entry says. *)
Lemma name_in_file it suffix : it ∈ l ->
  safeSlice (v1_bytes l ++ suffix) (name_offset l it) (len (PackBlobID it)) = Ok (bytes (PackBlobID it)).
Proof.
  intros Hin. destruct (stored_offset it Hin) as (a & c & _ & He & Hn).
  apply (safeSlice_at _ _ _ (v1_header l ++ concat (row_bytes <$> (v1_row l <$> l)) ++ a) _ (c ++ suffix)); [|done|].
  - unfold v1_bytes. rewrite He. by rewrite <- !app_assoc.
  - by rewrite slen_bytes.
Qed.

(** Two stored entries with names at one offset have one name. *)
Lemma name_offset_inj it jt : it ∈ l -> jt ∈ l -> name_offset l it = name_offset l jt -> PackBlobID it = PackBlobID jt.
Proof.
  intros Hi Hj. destruct (stored_offset it Hi) as (a & c & Ha & _ & ->), (stored_offset jt Hj) as (b & d & Hb & _ & ->).
  rewrite !slen_app. intros He. assert (slen a = slen b) as Hab by lia. rewrite Hab in Ha.
  destruct (extra_data_names l) as [_ _ Hinj]; [apply extra_small; by eapply elem_nonempty|]. eauto.
Qed.

(** ** The opened index *)

(** The names remembered are names of stored entries, at their offsets. *)
Definition names_ok (c : name_cache) : Prop :=
  forall o n, c !! o = Some n -> exists it, it ∈ l /\ n = PackBlobID it /\ o = name_offset l it.

Lemma name_read it c suffix : it ∈ l -> names_ok c ->
  let x := packBlobIDForOffset (v1_bytes l ++ suffix) (name_offset l it) (len (PackBlobID it)) c in
  x.1 = PackBlobID it /\ names_ok x.2.
Proof.
  intros Hin Hc. unfold packBlobIDForOffset. destruct (c !! name_offset l it) as [n|] eqn:E.
  - cbn. split; [|done]. destruct (Hc _ _ E) as (jt & Hj & -> & He). symmetry. eauto using name_offset_inj.
  - rewrite name_in_file by done. cbn [fst snd]. rewrite of_bytes_bytes. split; [done|].
    intros o n. cbn [fst snd]. rewrite lookup_insert_Some. intros [[<- <-]|[_ Ho]]; [by exists it|eauto].
Qed.

Record v1_opened (b : indexV1) : Prop := {
  vo1_hdr : v1_hdr b = mkV1Header 1 (key_size l k) v1EntryLength (slen l);
  vo1_data : exists suffix, v1_data b = v1_bytes l ++ suffix;
  vo1_overhead : v1PerContentOverhead b = overhead;
  vo1_names : names_ok (nameOffsetToBlobID b)
}.

Lemma key_size_byte : byte (b1_keyLength (v1_builder l)) = key_size l k.
Proof.
  destruct (decide (l = [])) as [E|Hne]; [by rewrite E|]. rewrite builder_keyLength by done.
  pose proof (key_length_range Hne). unfold byte. rewrite Z.mod_small by lia. by destruct l.
Qed.

Lemma count_small : slen l < 2 ^ 32.
Proof.
  destruct (decide (l = [])) as [->|Hne]; [done|]. pose proof v1_size as Hsz.
  pose proof (key_length_range Hne). pose proof (slen_nonneg (extra_data l).2). pose proof (slen_nonneg l).
  unfold v1HeaderSize, v1EntryLength in *. nia.
Qed.

(** What [buildV1] wrote opens. *)
Lemma v1_open_built suffix :
  v1ReadHeader (v1_bytes l ++ suffix) = Ok (mkV1Header 1 (key_size l k) v1EntryLength (slen l))
  /\ v1_opened (openV1PackIndex (mkV1Header 1 (key_size l k) v1EntryLength (slen l)) (v1_bytes l ++ suffix) overhead).
Proof.
  split; [|split; [done|by exists suffix|done|by intros o n; cbn [nameOffsetToBlobID openV1PackIndex]; rewrite lookup_empty]].
  unfold v1ReadHeader, v1_bytes. rewrite <- !app_assoc.
  change (v1_header l ++ ?x) with ([] ++ v1_header l ++ x). change 0 with (slen (@nil Z)) at 1.
  change v1HeaderSize with (slen (v1_header l)). rewrite safeSlice_mid.
  pose proof count_small. pose proof (slen_nonneg l).
  unfold v1_header. cbn [byte_at app lookup list_lookup]. unfold byte_at, default; cbn [lookup list_lookup app]; unfold id.
  rewrite key_size_byte. change (drop 2 _) with (PutUint16 20 ++ PutUint32 (uint32 (slen l))).
  change (drop 4 _) with (PutUint32 (uint32 (slen l))). rewrite decode_PutUint16 by done.
  rewrite <- (app_nil_r (PutUint32 _)). unfold uint32. rewrite Z.mod_small by lia. rewrite decode_PutUint32 by lia.
  cbn [v1_keySize v1_valueSize v1_entryCount].
  rewrite (proj2 (Z.leb_gt _ 1)), (proj2 (Z.ltb_ge (slen l) 0)); [done|lia|].
  destruct (decide (l = [])) as [E|Hne]; [by rewrite E|].
  rewrite key_size_nonempty by done. pose proof (key_length_range Hne). lia.
Qed.

Lemma v1_table_holds b : v1_opened b -> table_holds (v1_table b) (v1_row l <$> l).
Proof.
  intros [Hh [suffix Hd] _ _]. unfold v1_table. rewrite Hh, Hd. pose proof count_small.
  cbn [v1_keySize v1_valueSize v1_entryCount].
  split; cbn [t_entryCount t_data t_offset t_keySize t_stride].
  - unfold slen. by rewrite length_fmap.
  - unfold slen in *. rewrite length_fmap. lia.
  - exists (v1_header l), ((extra_data l).2 ++ suffix). split; [|done]. unfold v1_bytes. by rewrite <- !app_assoc.
  - rewrite Forall_fmap. apply Forall_forall. intros it Hin. by apply valid_each.
  - rewrite Forall_fmap. apply Forall_forall. intros it Hin. cbn [compose fst v1_row]. 
    rewrite key_each, key_size_nonempty; eauto using elem_nonempty.
  - rewrite Forall_fmap. apply Forall_forall. intros it Hin. unfold compose. 
    rewrite slen_row, key_size_nonempty; eauto using elem_nonempty.
  - rewrite <- list_fmap_compose. exact (il_sorted _ _ Hl).
Qed.

Lemma entry_reads b it c : v1_opened b -> it ∈ l -> names_ok c ->
  exists c', entryToInfoStruct b (ContentID it) (v1_row l it).2 c = (Ok it, c') /\ names_ok c'.
Proof.
  intros Hb Hin Hc. destruct (vo1_data _ Hb) as [suffix Hd].
  destruct (name_read it c suffix Hin Hc) as [Hn Hc']. rewrite <- Hd in *.
  eexists. split; [|exact Hc']. apply (entryToInfoStruct_value overhead); auto using storable_each, vo1_overhead.
Qed.

Lemma with_names_opened b c : v1_opened b -> names_ok c -> v1_opened (with_names b c).
Proof. intros [? ? ? ?] Hc. by split. Qed.

(** Lookups: the entry with the identifier, or nothing. *)
Lemma GetInfoV1_spec b i : v1_opened b -> valid_id i -> slen (id_key i) = k ->
  exists b', GetInfoV1 b i = (Ok (find_info l i), b') /\ v1_opened b'.
Proof.
  intros Hb Hi Hk. pose proof (v1_table_holds b Hb) as Ht. unfold GetInfoV1.
  destruct (find_info l i) as [it|] eqn:E.
  - apply find_info_Some in E as [Hin <-]. pose proof Hin as [p Hp]%list_elem_of_lookup.
    rewrite (findEntry_found _ _ Ht p (ContentID it) (v1_row l it).2) by by rewrite list_lookup_fmap, Hp.
    change (slen (v1_row l it).2 =? v1EntryLength) with true. cbn [negb].
    destruct (entry_reads b it (nameOffsetToBlobID b) Hb Hin (vo1_names _ Hb)) as (c' & -> & Hc').
    eexists. split; [done|]. by apply with_names_opened.
  - exists b. split; [|done]. apply find_info_None in E.
    destruct (decide (l = [])) as [El|Hne].
    + unfold findEntry. cbn [t_keySize v1_table]. by rewrite (vo1_hdr _ Hb), El.
    + rewrite (findEntry_absent _ _ Ht); [done..| |].
      * cbn [t_keySize v1_table]. rewrite (vo1_hdr _ Hb). cbn [v1_keySize]. by rewrite key_size_nonempty.
      * rewrite <- list_fmap_compose. exact E.
Qed.

(** Iteration: the entries of the range, in order. *)
Lemma IterateV1_spec {S E} b r (cb : callback S E) s : v1_opened b ->
  exists b', v1_opened b' /\ IterateV1 b r cb s
    = let x := feed cb (filter (fun it => IDRange_Contains r (ContentID it) = true) l) s in (x.1, b', x.2).
Proof.
  intros Hb. unfold IterateV1.
  destruct (iterate_infos (v1_table b) l k (fun it => (v1_row l it).2) (entryToInfoStruct b) names_ok r cb
    (nameOffsetToBlobID b) s) as (c' & Hc' & ->);
    [exact Hl|by apply v1_table_holds|by intros; apply entry_reads|by apply vo1_names|].
  eexists. split; [|done]. by apply with_names_opened.
Qed.
End V1RoundTrip.
