(* ===== verification/IndexV2.v ===== *)
(** * Content index, format 2

    [repo/content/index/index_v2.go]: entries of 16 to 19 bytes that refer to
    tables of packs and of formats.  The writer numbers packs and formats by
    first use and chooses the entry size from the largest values; it refuses
    what the layout has no room for.  What it accepts is read back exactly. *)

From S2P Require Import Prelude GoStrings GoText IndexID IndexTable.
Open Scope go_scope.

Definition v2_invalidBlobID : string := "---invalid---".
Definition invalidFormatVersion : Z := 0xFF.
Definition invalidCompressionHeaderID : Z := 0xFFFF.
Definition invalidEncryptionKeyID : Z := 0xFF.

Definition Version2 : Z := 2.
Definition v2IndexHeaderSize : Z := 17.
Definition v2PackInfoSize : Z := 5.
Definition v2MaxFormatCount : Z := invalidFormatVersion.
Definition v2MaxUniquePackIDCount : Z := Z.shiftl 1 24.
Definition v2MaxShortPackIDCount : Z := Z.shiftl 1 16.
Definition v2MaxContentLength : Z := Z.shiftl 1 28.
Definition v2MaxShortContentLength : Z := Z.shiftl 1 24.
Definition v2MaxPackOffset : Z := Z.shiftl 1 30.
Definition v2DeletedMarker : Z := 0x80000000.
Definition v2MaxEntrySize : Z := 256.

Definition v2EntryMinLength : Z := 16.
Definition v2EntryOffsetFormatID : Z := 16.
Definition v2EntryOffsetExtendedPackBlobID : Z := 17.
Definition v2EntryOffsetHighLengthBits : Z := 18.
Definition v2EntryMaxLength : Z := 19.
Definition v2EntryPackOffsetMask : Z := Z.ones 31.

Definition v2FormatInfoSize : Z := 6.

Record indexV2FormatInfo := mkFormatInfo {
  fi_compressionHeaderID : Z;
  fi_formatVersion : Z;
  fi_encryptionKeyID : Z
}.

#[export] Instance indexV2FormatInfo_eq_dec : EqDecision indexV2FormatInfo.
Proof. solve_decision. Defined.

#[export] Instance indexV2FormatInfo_countable : Countable indexV2FormatInfo.
Proof.
  apply (inj_countable' (fun f => (fi_compressionHeaderID f, fi_formatVersion f, fi_encryptionKeyID f))
           (fun p => mkFormatInfo p.1.1 p.1.2 p.2)). by intros [].
Defined.

(** ** Reading *)

Record v2HeaderInfo := mkV2Header {
  v2_version : Z;
  v2_keySize : Z;
  v2_entrySize : Z;
  v2_entryCount : Z;
  v2_packCount : Z;
  v2_formatCount : Z;
  v2_baseTimestamp : Z
}.

(** The calculated fields of the header. *)
Definition v2_entryStride (h : v2HeaderInfo) : Z := v2_keySize h + v2_entrySize h.
Definition v2_entriesOffset (h : v2HeaderInfo) : Z := v2IndexHeaderSize.
Definition v2_packsOffset (h : v2HeaderInfo) : Z := v2_entriesOffset h + v2_entryCount h * v2_entryStride h.
Definition v2_formatsOffset (h : v2HeaderInfo) : Z := v2_packsOffset h + v2_packCount h * v2PackInfoSize.

Record indexV2 := mkIndexV2 {
  v2_hdr : v2HeaderInfo;
  v2_data : list Z;
  v2_formats : list indexV2FormatInfo;
  v2_packBlobIDs : list string
}.

Definition formatIDIndex (data : list Z) : Z :=
  if v2EntryOffsetFormatID <? slen data then byte_at data 16 else 0.

Definition getPackBlobIDByIndex (b : indexV2) (ndx : Z) : string :=
  if uint32 (v2_packCount (v2_hdr b)) <=? ndx then v2_invalidBlobID
  else default "" (v2_packBlobIDs b !! Z.to_nat ndx).

Definition entryToInfoStructV2 (b : indexV2) (contentID : ID) (data : list Z) : result index_error Info :=
  if slen data <? v2EntryMinLength then Err ErrInvalidEntryLength
  else
    let high := v2EntryOffsetHighLengthBits <? slen data in
    let original := decodeBigEndianUint24 (drop 8 data) in
    let packed := decodeBigEndianUint24 (drop 11 data) in
    let fid := formatIDIndex data in
    let f := if slen (v2_formats b) <=? fid
             then mkFormatInfo invalidCompressionHeaderID invalidFormatVersion invalidEncryptionKeyID
             else default (mkFormatInfo 0 0 0) (v2_formats b !! Z.to_nat fid) in
    let packIDIndex := decodeBigEndianUint16 (drop 14 data) in
    let packIDIndex := if v2EntryOffsetExtendedPackBlobID <? slen data
                       then Z.lor packIDIndex (Z.shiftl (byte_at data 17) 16) else packIDIndex in
    Ok {| ContentID := contentID;
          TimestampSeconds := decodeBigEndianUint32 data + v2_baseTimestamp (v2_hdr b);
          Deleted := negb (Z.land (byte_at data 4) 0x80 =? 0);
          PackOffset := Z.land (decodeBigEndianUint32 (drop 4 data)) v2EntryPackOffsetMask;
          OriginalLength := if high then Z.lor original (Z.shiftl (Z.shiftr (byte_at data 18) 4) 24) else original;
          PackedLength := if high then Z.lor packed (Z.shiftl (Z.land (byte_at data 18) 0xF) 24) else packed;
          FormatVersion := fi_formatVersion f;
          CompressionHeaderID := fi_compressionHeaderID f;
          EncryptionKeyID := fi_encryptionKeyID f;
          PackBlobID := getPackBlobIDByIndex b packIDIndex |}.

Definition v2_table (b : indexV2) : table :=
  mkTable (v2_data b) (v2_entriesOffset (v2_hdr b)) (v2_keySize (v2_hdr b)) (v2_entryStride (v2_hdr b))
    (v2_entryCount (v2_hdr b)).

Definition ApproximateCountV2 (b : indexV2) : Z := v2_entryCount (v2_hdr b).

Definition IterateV2 {S E} (b : indexV2) (r : IDRange) (cb : callback S E) (s : S) : result (iter_error E) unit * S :=
  let '(res, _, s) := iterate_table (fun i d (_ : unit) => (entryToInfoStructV2 b i d, tt)) (v2_table b) r cb tt s in
  (res, s).

Definition GetInfoV2 (b : indexV2) (contentID : ID) : result index_error (option Info) :=
  let! e := findEntry (v2_table b) contentID in
  match e with
  | None => Ok None
  | Some e => let! i := entryToInfoStructV2 b contentID e in Ok (Some i)
  end.

Fixpoint parseFormatsBuffer (formatsBuf : list Z) (cnt : nat) : list indexV2FormatInfo :=
  match cnt with
  | O => []
  | S cnt =>
      mkFormatInfo (decodeBigEndianUint32 formatsBuf) (byte_at formatsBuf 4) (byte_at formatsBuf 5)
      :: parseFormatsBuffer (drop 6 formatsBuf) cnt
  end.

(** One turn of the loop that reads the packs. *)
Definition read_pack (data : list Z) (packsOffset : Z) (i : nat) : result index_error string :=
  match safeSlice data (packsOffset + v2PackInfoSize * Z.of_nat i) v2PackInfoSize with
  | Err _ => Err ErrPacksSection
  | Ok buf =>
      match safeSliceString data (decodeBigEndianUint32 (drop 1 buf)) (byte_at buf 0) with
      | Err _ => Err ErrPacksSection
      | Ok nameBuf => Ok nameBuf
      end
  end.

Definition openV2PackIndex (data : list Z) : result index_error indexV2 :=
  let! header := safeSlice data 0 v2IndexHeaderSize in
  let hi := mkV2Header (byte_at header 0) (byte_at header 1) (decodeBigEndianUint16 (drop 2 header))
              (decodeBigEndianUint32 (drop 4 header)) (decodeBigEndianUint32 (drop 8 header))
              (byte_at header 12) (decodeBigEndianUint32 (drop 13 header)) in
  if (v2_keySize hi <=? 1) || (v2_entrySize hi <? v2EntryMinLength) || (v2EntryMaxLength <? v2_entrySize hi)
     || (v2_entryCount hi <? 0) || (v2MaxFormatCount <? v2_formatCount hi) then Err ErrInvalidHeader
  else if v2MaxEntrySize <? v2_entryStride hi then Err ErrInvalidHeader
  else match safeSlice data (v2_formatsOffset hi) (v2_formatCount hi * v2FormatInfoSize) with
  | Err _ => Err ErrFormatsSection
  | Ok formatsBuf =>
      let! packIDs := mapR (read_pack data (v2_packsOffset hi)) (seq 0 (Z.to_nat (v2_packCount hi))) in
      Ok (mkIndexV2 hi data (parseFormatsBuffer formatsBuf (Z.to_nat (v2_formatCount hi))) packIDs)
  end.

(** ** Writing *)

Record indexBuilderV2 := mkBuilderV2 {
  b2_packBlobIDOffsets : gmap string Z;
  b2_entryCount : Z;
  b2_keyLength : Z;
  b2_entrySize : Z;
  b2_extraDataOffset : Z;
  b2_uniqueFormatInfo2Index : gmap indexV2FormatInfo Z;
  b2_packID2Index : gmap string Z;
  b2_baseTimestamp : Z
}.

Definition indexV2FormatInfoFromInfo (v : Info) : indexV2FormatInfo :=
  mkFormatInfo (CompressionHeaderID v) (FormatVersion v) (EncryptionKeyID v).

(** Number a key that has no number yet with the size of the map. *)
Definition number_step {K} `{Countable K} (conv : Z -> Z) (m : gmap K Z) (key : K) : gmap K Z :=
  match m !! key with
  | Some _ => m
  | None => <[key := conv (Z.of_nat (size m))]> m
  end.

Definition buildUniqueFormatToIndexMap (sortedInfos : list Info) : gmap indexV2FormatInfo Z :=
  foldl (fun m v => number_step byte m (indexV2FormatInfoFromInfo v)) ∅ sortedInfos.

Definition buildPackIDToIndexMap (sortedInfos : list Info) : gmap string Z :=
  foldl (fun m v => number_step id m (PackBlobID v)) ∅ sortedInfos.

(** The largest packed length, original length and pack offset. *)
Definition maxContentLengths (sortedInfos : list Info) : Z * Z * Z :=
  foldl (fun '(p, o, f) v => (Z.max p (PackedLength v), Z.max o (OriginalLength v), Z.max f (PackOffset v)))
    (0, 0, 0) sortedInfos.

Definition newIndexBuilderV2 (sortedInfos : list Info) : result index_error indexBuilderV2 :=
  let entrySize := v2EntryOffsetFormatID in
  let uniqueFormat2Index := buildUniqueFormatToIndexMap sortedInfos in
  let nf := Z.of_nat (size uniqueFormat2Index) in
  if v2MaxFormatCount <? nf then Err ErrTooManyFormats
  else
    let entrySize := if 1 <? nf then Z.max entrySize v2EntryOffsetExtendedPackBlobID else entrySize in
    let packID2Index := buildPackIDToIndexMap sortedInfos in
    let np := Z.of_nat (size packID2Index) in
    if v2MaxUniquePackIDCount <? np then Err ErrTooManyPacks
    else
      let entrySize := if v2MaxShortPackIDCount <? np then Z.max entrySize v2EntryOffsetHighLengthBits else entrySize in
      let '(maxPackedLen, maxOriginalLength, maxPackOffset) := maxContentLengths sortedInfos in
      if (v2MaxContentLength <=? maxPackedLen) || (v2MaxContentLength <=? maxOriginalLength) then Err ErrContentTooLong
      else
        let entrySize := if (v2MaxShortContentLength <=? maxPackedLen) || (v2MaxShortContentLength <=? maxOriginalLength)
                         then Z.max entrySize v2EntryMaxLength else entrySize in
        if v2MaxPackOffset <=? maxPackOffset then Err ErrPackOffsetTooHigh
        else
          let keyLength := match sortedInfos with
                           | [] => -1
                           | it :: _ => slen (contentIDToBytes [] (ContentID it))
                           end in
          Ok (mkBuilderV2 ∅ (slen sortedInfos) keyLength entrySize 0 uniqueFormat2Index packID2Index 0).

Definition prepareExtraDataV2 (b : indexBuilderV2) (sortedInfos : list Info) : indexBuilderV2 * list Z :=
  let '(offsets, extraData) := foldl extra_step (b2_packBlobIDOffsets b, []) sortedInfos in
  let off := v2IndexHeaderSize in
  let off := uint32 (off + uint32 (b2_entryCount b * (b2_keyLength b + b2_entrySize b))) in
  let off := uint32 (off + uint32 (Z.of_nat (size (b2_packID2Index b)) * v2PackInfoSize)) in
  let off := uint32 (off + uint32 (Z.of_nat (size (b2_uniqueFormatInfo2Index b)) * v2FormatInfoSize)) in
  (mkBuilderV2 offsets (b2_entryCount b) (b2_keyLength b) (b2_entrySize b) off
     (b2_uniqueFormatInfo2Index b) (b2_packID2Index b) (b2_baseTimestamp b), extraData).

(** The 19 bytes of an entry, before it is cut to the entry size. *)
Definition entry_buf (b : indexBuilderV2) (it : Info) : list Z :=
  let packOffsetAndFlags := if Deleted it then Z.lor (PackOffset it) v2DeletedMarker else PackOffset it in
  let packBlobIndex := default 0 (b2_packID2Index b !! PackBlobID it) in
  PutUint32 (uint32 (TimestampSeconds it - b2_baseTimestamp b))
  ++ PutUint32 packOffsetAndFlags
  ++ encodeBigEndianUint24 (OriginalLength it)
  ++ encodeBigEndianUint24 (PackedLength it)
  ++ PutUint16 (uint16 packBlobIndex)
  ++ [default 0 (b2_uniqueFormatInfo2Index b !! indexV2FormatInfoFromInfo it);
      byte (Z.shiftr packBlobIndex 16);
      Z.lor (byte (Z.shiftr (PackedLength it) 24)) (byte (Z.shiftl (Z.shiftr (OriginalLength it) 24) 4))].

Definition writeIndexValueEntry (b : indexBuilderV2) (it : Info) : result index_error (list Z) :=
  let buf := entry_buf b it in
  if forallb (Z.eqb 0) (drop (Z.to_nat (b2_entrySize b)) buf)
  then Ok (take (Z.to_nat (b2_entrySize b)) buf) else Err ErrPanic.

Definition writeIndexEntry (b : indexBuilderV2) (it : Info) : result index_error (list Z) :=
  let k := contentIDToBytes [] (ContentID it) in
  if negb (slen k =? b2_keyLength b) then Err ErrInconsistentKeyLength
  else let! v := writeIndexValueEntry b it in Ok (k ++ v).

Definition writePackIDEntry (b : indexBuilderV2) (packID : string) : list Z :=
  byte (len packID) :: PutUint32 (uint32 (default 0 (b2_packBlobIDOffsets b !! packID) + b2_extraDataOffset b)).

Definition writeFormatInfoEntry (f : indexV2FormatInfo) : list Z :=
  PutUint32 (fi_compressionHeaderID f) ++ [fi_formatVersion f; fi_encryptionKeyID f].

(** [reverse[v] = k] for every pair of a numbering, in the order of its iteration. *)
Definition reverse_index {K} `{Countable K} (zero : K) (m : gmap K Z) : list K :=
  foldl (fun acc p => <[Z.to_nat p.2 := p.1]> acc) (replicate (size m) zero) (map_to_list m).

(** [buildV2], with the bytes written to its output as the result. *)
Definition buildV2 (sortedInfos : list Info) : result index_error (list Z) :=
  let! b2 := newIndexBuilderV2 sortedInfos in
  let '(b2, extraData) := prepareExtraDataV2 b2 sortedInfos in
  if b2_keyLength b2 <=? 1 then Err ErrInvalidKeyLength
  else
    let header := [Version2; byte (b2_keyLength b2)] ++ PutUint16 (uint16 (b2_entrySize b2))
                  ++ PutUint32 (uint32 (b2_entryCount b2))
                  ++ PutUint32 (uint32 (Z.of_nat (size (b2_packID2Index b2))))
                  ++ [byte (Z.of_nat (size (b2_uniqueFormatInfo2Index b2)))]
                  ++ PutUint32 (uint32 (b2_baseTimestamp b2)) in
    let! entries := mapR (writeIndexEntry b2) sortedInfos in
    let reversePackIDIndex := reverse_index "" (b2_packID2Index b2) in
    let packs := writePackIDEntry b2 <$> reversePackIDIndex in
    let reverseFormatInfoIndex := reverse_index (mkFormatInfo 0 0 0) (b2_uniqueFormatInfo2Index b2) in
    let formats := writeFormatInfoEntry <$> reverseFormatInfoIndex in
    Ok (header ++ concat entries ++ concat packs ++ concat formats ++ extraData).

Definition ex_infos_v2 : list Info :=
  [mkInfo "pack1" 1700000000 95 100 0 4096 (mkID 0 [1; 2]) false 1 0;
   mkInfo "" 1700000001 195 20000000 77 0 (mkID 0 [1; 3]) true 2 0;
   mkInfo "pack2" 1700000002 295 300 100 0 (mkID 107 [0; 9]) false 1 0].

Example v2_ex :
  match buildV2 ex_infos_v2 with
  | Ok d => match openV2PackIndex (d ++ [9; 9]) with
            | Ok b => GetInfoV2 b (mkID 107 [0; 9]) = Ok (ex_infos_v2 !! 2%nat)
                      /\ GetInfoV2 b (mkID 0 [1; 3]) = Ok (ex_infos_v2 !! 1%nat)
                      /\ GetInfoV2 b (mkID 107 [0; 8]) = Ok None
                      /\ IterateV2 (E := unit) b AllIDs (fun i s => (None, i :: s)) [] = (Ok tt, rev ex_infos_v2)
            | Err _ => False
            end
  | Err _ => False
  end.
Proof. vm_compute. repeat split. Qed.
