(* ===== verification/IndexV2Facts.v ===== *)
(** * Format 2 is read back exactly

    Numbering by first use, the fields of an entry at each of its four sizes,
    the layout of the file, and from them the round trip through [buildV2] and
    [openV2PackIndex]. *)

From S2P Require Import Prelude GoStrings GoText IndexID IndexTable IndexV2.
Open Scope go_scope.

(** ** Numbering by first use *)

(** [m] gives each element of [u] its position. *)
Record numbering {K} `{Countable K} (m : gmap K Z) (u : list K) : Prop := {
  nb_length : length u = size m;
  nb_spec : forall k v, m !! k = Some v <-> exists i, u !! i = Some k /\ v = Z.of_nat i
}.

Lemma numbering_step {K} `{Countable K} conv (m : gmap K Z) u key :
  numbering m u -> conv (Z.of_nat (size m)) = Z.of_nat (size m) ->
  exists u', numbering (number_step conv m key) u' /\ forall k, k ∈ u' <-> k ∈ u \/ k = key.
Proof.
  intros [Hlen Hm] Hconv. unfold number_step. destruct (m !! key) as [v|] eqn:E.
  - exists u. split; [done|]. intros k. split; [by left|]. intros [?| ->]; [done|].
    apply Hm in E as (i & Hi & _). by eapply list_elem_of_lookup_2.
  - exists (u ++ [key]). split; [|intros k; rewrite elem_of_app, list_elem_of_singleton; done]. split.
    + rewrite length_app, map_size_insert_None by done. cbn. lia.
    + intros k v. rewrite lookup_insert_Some, Hconv, <- Hlen, Hm. split.
      * intros [[<- <-]|[_ (i & Hi & ->)]]; [exists (length u)|exists i; split; [|done]; by apply lookup_app_l_Some].
        split; [|done]. rewrite lookup_app_r by lia. by rewrite Nat.sub_diag.
      * intros (i & Hi & ->). apply lookup_app_Some in Hi as [Hi|[Hge Hi]].
        -- right. split; [|by exists i]. intros ->. rewrite (proj2 (Hm k (Z.of_nat i))) in E; [done|by exists i].
        -- left. apply list_lookup_singleton_Some in Hi as [Hi ->]. split; [done|]. lia.
Qed.

Lemma number_step_size {K} `{Countable K} conv (m : gmap K Z) key : (size m <= size (number_step conv m key))%nat.
Proof.
  unfold number_step. destruct (m !! key) eqn:E; [done|]. rewrite map_size_insert_None by done. lia.
Qed.

Lemma fold_numbering {K} `{Countable K} conv bound (f : Info -> K) l :
  (forall n, 0 <= n < bound -> conv n = n) ->
  Z.of_nat (size (foldl (fun m v => number_step conv m (f v)) ∅ l)) <= bound ->
  exists u, numbering (foldl (fun m v => number_step conv m (f v)) ∅ l) u /\ forall k, k ∈ u <-> k ∈ f <$> l.
Proof.
  intros Hconv. induction l as [|it l IH] using rev_ind.
  - intros _. exists []. split; [|done]. split; [done|].
    cbn. intros k v. rewrite lookup_empty. split; [done|]. by intros (i & Hi & _).
  - rewrite foldl_snoc. set (m := foldl _ ∅ l) in *. intros Hb.
    pose proof (number_step_size conv m (f it)) as Hmono. destruct IH as (u & Hu & Hin); [lia|].
    assert (forall k, k ∈ f <$> l ++ [it] <-> k ∈ f <$> l \/ k = f it) as Hsnoc.
    { intros k. rewrite fmap_app, elem_of_app. cbn. by rewrite list_elem_of_singleton. }
    destruct (m !! f it) as [v|] eqn:E.
    + unfold number_step. rewrite E. exists u. split; [done|]. intros k. rewrite Hsnoc, <- Hin.
      split; [by left|]. intros [?| ->]; [done|].
      apply (nb_spec _ _ Hu) in E as (i & Hi & _). by eapply list_elem_of_lookup_2.
    + destruct (numbering_step conv m u (f it) Hu) as (u' & Hu' & Hk).
      { apply Hconv. unfold number_step in Hb. rewrite E, map_size_insert_None in Hb by done. lia. }
      exists u'. split; [done|]. intros k. by rewrite Hk, Hsnoc, Hin.
Qed.

(** The reversed numbering is the list that was numbered. *)
Lemma fold_inserts {K} (ps : list (K * Z)) acc i k v :
  (k, v) ∈ ps -> Z.to_nat v = i -> (i < length acc)%nat -> (forall p, p ∈ ps -> Z.to_nat p.2 = i -> p.1 = k) ->
  foldl (fun acc p => <[Z.to_nat p.2 := p.1]> acc) acc ps !! i = Some k.
Proof.
  assert (forall qs, length (foldl (fun acc p => <[Z.to_nat p.2 := p.1]> acc) acc qs) = length acc) as Hlen.
  { intros qs. revert acc. induction qs as [|q qs IH]; intros acc; [done|]. cbn [foldl]. by rewrite IH, length_insert. }
  intros Hin Hv Hi Hfun. induction ps as [|p ps IH] using rev_ind; [by apply not_elem_of_nil in Hin|].
  rewrite foldl_snoc. destruct (decide (Z.to_nat p.2 = i)) as [<-|Hne].
  - rewrite list_lookup_insert_eq by by rewrite Hlen. f_equal. apply Hfun; set_solver.
  - rewrite list_lookup_insert_ne by done. apply IH; [|set_solver].
    apply elem_of_app in Hin as [?|Hp%list_elem_of_singleton]; [done|]. by subst p.
Qed.

Lemma reverse_numbering {K} `{Countable K} zero (m : gmap K Z) u : numbering m u -> reverse_index zero m = u.
Proof.
  intros [Hlen Hm]. unfold reverse_index.
  assert (length (foldl (fun acc p => <[Z.to_nat p.2 := p.1]> acc) (replicate (size m) zero) (map_to_list m)) = size m) as Hl.
  { rewrite <- (length_replicate (size m) zero) at 2. generalize (replicate (size m) zero).
    induction (map_to_list m) as [|p ps IH]; intros acc; [done|]. cbn [foldl]. by rewrite IH, length_insert. }
  apply list_eq_same_length with (n := size m); [done|done|].
  intros i x y Hi Hx Hy. rewrite (fold_inserts _ _ i y (Z.of_nat i)) in Hx; [congruence|..].
  - apply elem_of_map_to_list, Hm. eauto.
  - lia.
  - by rewrite length_replicate.
  - intros [k v] Hp Hv. apply elem_of_map_to_list, Hm in Hp as (j & Hj & ->). cbn in *.
    assert (i = j) as <- by lia. congruence.
Qed.

(** ** The fields of an entry *)

Lemma decode_24_mod v l : decodeBigEndianUint24 (encodeBigEndianUint24 v ++ l) = v `mod` 2 ^ 24.
Proof. cbn [encodeBigEndianUint24 app]. rewrite decode24_cons by apply byte_range. shifts. unfold byte. lia_div. Qed.

(** What format 2 can store; the limits it checks itself are left out. *)
Record storable_v2 (it : Info) : Prop := {
  sv2_time : 0 <= TimestampSeconds it < 2 ^ 32;
  sv2_pack : len (PackBlobID it) < 256;
  sv2_offset : 0 <= PackOffset it < 2 ^ 32;
  sv2_packed : 0 <= PackedLength it < 2 ^ 32;
  sv2_original : 0 <= OriginalLength it < 2 ^ 32;
  sv2_compression : 0 <= CompressionHeaderID it < 2 ^ 32;
  sv2_format : 0 <= FormatVersion it < 256;
  sv2_encryption : 0 <= EncryptionKeyID it < 256
}.

(** The byte that holds the high bits of both lengths. *)
Lemma high_bits p o : 0 <= p < 2 ^ 28 -> 0 <= o < 2 ^ 28 ->
  let h := Z.lor (byte (Z.shiftr p 24)) (byte (Z.shiftl (Z.shiftr o 24) 4)) in
  h = p / 2 ^ 24 + (o / 2 ^ 24) * 16 /\ Z.shiftr h 4 = o / 2 ^ 24 /\ Z.land h 0xF = p / 2 ^ 24.
Proof.
  intros Hp Ho. cbn zeta. shifts. unfold byte.
  assert (Z.lor ((p / 2 ^ 24) `mod` 256) ((o / 2 ^ 24 * 2 ^ 4) `mod` 256) = p / 2 ^ 24 + o / 2 ^ 24 * 16) as ->.
  { rewrite Z.lor_comm, (lor_add _ _ 4); try lia_div. divides. }
  split; [done|]. split; [lia_div|]. change 0xF with (Z.ones 4). rewrite Z.land_ones by lia. lia_div.
Qed.

Lemma add_high v h : 0 <= v < 2 ^ 24 -> Z.lor v (Z.shiftl h 24) = v + h * 2 ^ 24.
Proof. intros Hv. shifts. rewrite Z.lor_comm, (lor_add _ _ 24); [lia..|]. by exists h. Qed.

Section EntryV2.
Context (b : indexBuilderV2) (ib : indexV2) (it : Info).
Context (Hst : storable_v2 it) (Hoff : PackOffset it < 2 ^ 30).
Context (Hpk : PackedLength it < 2 ^ 28) (Hor : OriginalLength it < 2 ^ 28).
Context (pi fi : Z) (Hpi : b2_packID2Index b !! PackBlobID it = Some pi) (Hpi' : 0 <= pi < 2 ^ 24).
Context (Hfi : b2_uniqueFormatInfo2Index b !! indexV2FormatInfoFromInfo it = Some fi) (Hfi' : 0 <= fi < 256).
Context (Hbase : b2_baseTimestamp b = 0) (Hbase' : v2_baseTimestamp (v2_hdr ib) = 0).
Context (Hpacks : v2_packBlobIDs ib !! Z.to_nat pi = Some (PackBlobID it)) (Hcount : pi < v2_packCount (v2_hdr ib) < 2 ^ 32).
Context (Hformats : v2_formats ib !! Z.to_nat fi = Some (indexV2FormatInfoFromInfo it)).

Abbreviation high := (Z.lor (byte (Z.shiftr (PackedLength it) 24)) (byte (Z.shiftl (Z.shiftr (OriginalLength it) 24) 4))).

(** The fixed part of the entry and its optional bytes. *)
Definition entry_head : list Z :=
  PutUint32 (TimestampSeconds it) ++ PutUint32 (PackOffset it + (if Deleted it then 2 ^ 31 else 0))
  ++ encodeBigEndianUint24 (OriginalLength it) ++ encodeBigEndianUint24 (PackedLength it) ++ PutUint16 (uint16 pi).

Lemma entry_buf_eq : entry_buf b it = entry_head ++ [fi; byte (Z.shiftr pi 16); high].
Proof.
  destruct Hst. unfold entry_buf, entry_head. rewrite Hpi, Hfi, Hbase, Z.sub_0_r. unfold default, id.
  unfold uint32. rewrite Z.mod_small by done. unfold v2DeletedMarker. rewrite flag_word by lia. by rewrite <- !app_assoc.
Qed.

(** The fixed fields do not depend on the optional bytes. *)
Lemma head_fields tl : let d := entry_head ++ tl in
  decodeBigEndianUint32 d = TimestampSeconds it
  /\ negb (Z.land (byte_at d 4) 0x80 =? 0) = Deleted it
  /\ Z.land (decodeBigEndianUint32 (drop 4 d)) v2EntryPackOffsetMask = PackOffset it
  /\ decodeBigEndianUint24 (drop 8 d) = OriginalLength it `mod` 2 ^ 24
  /\ decodeBigEndianUint24 (drop 11 d) = PackedLength it `mod` 2 ^ 24
  /\ decodeBigEndianUint16 (drop 14 d) = pi `mod` 2 ^ 16
  /\ slen d = 16 + slen tl.
Proof.
  destruct Hst. cbn zeta. unfold entry_head. rewrite <- !app_assoc. split_and!.
  - by apply decode_PutUint32.
  - change (byte_at _ 4) with (byte (Z.shiftr (PackOffset it + (if Deleted it then 2 ^ 31 else 0)) 24)).
    apply flag_word_flag. lia.
  - change (drop 4 _) with (PutUint32 (PackOffset it + (if Deleted it then 2 ^ 31 else 0))
      ++ encodeBigEndianUint24 (OriginalLength it) ++ encodeBigEndianUint24 (PackedLength it) ++ PutUint16 (uint16 pi) ++ tl).
    rewrite decode_PutUint32 by (destruct (Deleted it); lia). apply flag_word_rest. lia.
  - apply decode_24_mod.
  - change (drop 11 _) with (encodeBigEndianUint24 (PackedLength it) ++ PutUint16 (uint16 pi) ++ tl). apply decode_24_mod.
  - change (drop 14 _) with (PutUint16 (uint16 pi) ++ tl). unfold uint16. rewrite decode_PutUint16 by lia_div. done.
  - rewrite !slen_app. unfold slen. cbn [length PutUint32 PutUint16 encodeBigEndianUint24]. lia.
Qed.

Lemma pack_read x : x = pi -> getPackBlobIDByIndex ib x = PackBlobID it.
Proof.
  intros ->. unfold getPackBlobIDByIndex, uint32. rewrite Z.mod_small, (proj2 (Z.leb_gt _ _)), Hpacks by lia. done.
Qed.

Lemma format_read x : x = fi ->
  (if slen (v2_formats ib) <=? x then mkFormatInfo invalidCompressionHeaderID invalidFormatVersion invalidEncryptionKeyID
   else default (mkFormatInfo 0 0 0) (v2_formats ib !! Z.to_nat x)) = indexV2FormatInfoFromInfo it.
Proof.
  intros ->. pose proof (lookup_lt_Some _ _ _ Hformats). unfold slen.
  rewrite (proj2 (Z.leb_gt _ _)), Hformats by lia. done.
Qed.

(** The optional bytes: however many are kept, the dropped ones being zero. *)
Abbreviation tl := ([fi; byte (Z.shiftr pi 16); high]).

Section Optional.
Context (n : nat) (Hn : (n <= 3)%nat) (Hz : forallb (Z.eqb 0) (drop n tl) = true).

Ltac kept := assert (n = 0 \/ n = 1 \/ n = 2 \/ n = 3)%nat as [-> | [-> | [-> | ->]]] by lia;
  cbn [take drop forallb] in *; bool_to_prop.

Lemma kept_format : (if 16 <? 16 + Z.of_nat n then byte_at (take n tl) 0 else 0) = fi.
Proof. kept; done. Qed.

Lemma kept_pack :
  (if 17 <? 16 + Z.of_nat n then Z.lor (pi `mod` 2 ^ 16) (Z.shiftl (byte_at (take n tl) 1) 16) else pi `mod` 2 ^ 16) = pi.
Proof.
  kept.
  1,2: change (17 <? _) with false; cbv iota; unfold byte in *; rewrite Z.shiftr_div_pow2 in * by lia; lia_div.
  all: change (17 <? _) with true; cbv iota; change (byte_at _ 1) with (byte (Z.shiftr pi 16));
    rewrite Z.lor_comm; shifts; unfold byte; rewrite (lor_add _ _ 16); try lia_div; divides.
Qed.

Lemma kept_high :
  (if 18 <? 16 + Z.of_nat n then Z.lor (OriginalLength it `mod` 2 ^ 24) (Z.shiftl (Z.shiftr (byte_at (take n tl) 2) 4) 24)
   else OriginalLength it `mod` 2 ^ 24) = OriginalLength it
  /\ (if 18 <? 16 + Z.of_nat n then Z.lor (PackedLength it `mod` 2 ^ 24) (Z.shiftl (Z.land (byte_at (take n tl) 2) 15) 24)
      else PackedLength it `mod` 2 ^ 24) = PackedLength it.
Proof.
  destruct Hst. destruct (high_bits (PackedLength it) (OriginalLength it)) as (Hh & Hh4 & HhF); [lia..|]. kept.
  1,2,3: change (18 <? _) with false; cbv iota; lia_div.
  change (18 <? _) with true; cbv iota. change (byte_at _ 2) with high.
  rewrite Hh4, HhF, !add_high by lia_div. lia_div.
Qed.
End Optional.

(** An entry whose dropped bytes are zero decodes to what was stored, at every size. *)
Lemma entry_decodes es :
  16 <= es <= 19 -> forallb (Z.eqb 0) (drop (Z.to_nat es) (entry_buf b it)) = true ->
  entryToInfoStructV2 ib (ContentID it) (take (Z.to_nat es) (entry_buf b it)) = Ok it.
Proof.
  intros Hes. rewrite entry_buf_eq. set (n := Z.to_nat (es - 16)).
  replace (Z.to_nat es) with (length entry_head + n)%nat by (unfold n; cbn; lia).
  rewrite take_app_add, drop_app_add. intros Hz.
  destruct (head_fields (take n tl)) as (H1 & H2 & H3 & H4 & H5 & H6 & H7).
  assert (slen (take n tl) = Z.of_nat n) as Hsl.
  { unfold slen. rewrite length_take. unfold n. cbn [length]. lia. }
  assert (n <= 3)%nat as Hn by lia. clearbody n. destruct (kept_high n Hn Hz) as [Ho Hp].
  unfold entryToInfoStructV2, formatIDIndex. rewrite H1, H2, H3, H4, H5, H6, H7, Hbase', Z.add_0_r, Hsl.
  rewrite (proj2 (Z.ltb_ge _ _)) by (unfold v2EntryMinLength; lia).
  change (byte_at (entry_head ++ take n tl) 16) with (byte_at (take n tl) 0).
  change (byte_at (entry_head ++ take n tl) 17) with (byte_at (take n tl) 1).
  change (byte_at (entry_head ++ take n tl) 18) with (byte_at (take n tl) 2).
  unfold v2EntryOffsetFormatID, v2EntryOffsetExtendedPackBlobID, v2EntryOffsetHighLengthBits.
  rewrite kept_format, format_read, kept_pack, pack_read, Ho, Hp by done. by destruct it.
Qed.
End EntryV2.

(** ** The writer's decisions *)

Lemma max_lengths l it : it ∈ l ->
  PackedLength it <= (maxContentLengths l).1.1 /\ OriginalLength it <= (maxContentLengths l).1.2
  /\ PackOffset it <= (maxContentLengths l).2.
Proof.
  unfold maxContentLengths. intros Hin. induction l as [|x l IH] using rev_ind; [by apply not_elem_of_nil in Hin|].
  rewrite foldl_snoc. destruct (foldl _ (0, 0, 0) l) as [[p o] f]. cbn [fst snd] in *.
  apply elem_of_app in Hin as [Hin|Hx%list_elem_of_singleton]; [specialize (IH Hin); lia|subst; lia].
Qed.

(** What a builder that was accepted knows of its contents. *)
Record builder_plan (l : list Info) (b : indexBuilderV2) : Prop := {
  bp_formats : b2_uniqueFormatInfo2Index b = buildUniqueFormatToIndexMap l;
  bp_packs : b2_packID2Index b = buildPackIDToIndexMap l;
  bp_count : b2_entryCount b = slen l;
  bp_base : b2_baseTimestamp b = 0;
  bp_key : b2_keyLength b = match l with [] => -1 | it :: _ => slen (id_key (ContentID it)) end;
  bp_size : 16 <= b2_entrySize b <= 19;
  bp_nformats : Z.of_nat (size (buildUniqueFormatToIndexMap l)) <= 255;
  bp_npacks : Z.of_nat (size (buildPackIDToIndexMap l)) <= 2 ^ 24;
  bp_limits : forall it, it ∈ l -> PackedLength it < 2 ^ 28 /\ OriginalLength it < 2 ^ 28 /\ PackOffset it < 2 ^ 30;
  bp_one_format : b2_entrySize b < 17 -> Z.of_nat (size (buildUniqueFormatToIndexMap l)) <= 1;
  bp_short_packs : b2_entrySize b < 18 -> Z.of_nat (size (buildPackIDToIndexMap l)) <= 2 ^ 16;
  bp_short_lengths : b2_entrySize b < 19 -> forall it, it ∈ l -> PackedLength it < 2 ^ 24 /\ OriginalLength it < 2 ^ 24
}.

Lemma newIndexBuilderV2_plan l b : newIndexBuilderV2 l = Ok b -> builder_plan l b /\ b2_packBlobIDOffsets b = ∅.
Proof.
  unfold newIndexBuilderV2, v2MaxFormatCount, invalidFormatVersion, v2MaxUniquePackIDCount, v2MaxShortPackIDCount,
    v2MaxContentLength, v2MaxShortContentLength, v2MaxPackOffset, v2EntryOffsetFormatID,
    v2EntryOffsetExtendedPackBlobID, v2EntryOffsetHighLengthBits, v2EntryMaxLength.
  change (Z.shiftl 1 24) with (2 ^ 24). change (Z.shiftl 1 16) with (2 ^ 16). change (Z.shiftl 1 28) with (2 ^ 28).
  change (Z.shiftl 1 30) with (2 ^ 30). pose proof (max_lengths l) as Hmax.
  destruct (maxContentLengths l) as [[p o] f]. cbn [fst snd] in Hmax.
  destruct (Z.ltb_spec 0xFF (Z.of_nat (size (buildUniqueFormatToIndexMap l)))); [done|].
  destruct (Z.ltb_spec (2 ^ 24) (Z.of_nat (size (buildPackIDToIndexMap l)))); [done|].
  destruct ((2 ^ 28 <=? p) || (2 ^ 28 <=? o)) eqn:E28; [done|].
  destruct (Z.leb_spec (2 ^ 30) f); [done|]. intros [= <-]. bool_to_prop.
  split; [|done].
  split; cbn [b2_uniqueFormatInfo2Index b2_packID2Index b2_entryCount b2_baseTimestamp b2_keyLength b2_entrySize];
    try done; try lia.
  - split_ifs; lia.
  - intros it Hin. specialize (Hmax it Hin). lia.
  - destruct (Z.ltb_spec 1 (Z.of_nat (size (buildUniqueFormatToIndexMap l)))); [|done]. split_ifs; lia.
  - destruct (Z.ltb_spec (2 ^ 16) (Z.of_nat (size (buildPackIDToIndexMap l)))); [|done]. split_ifs; lia.
  - destruct ((2 ^ 24 <=? p) || (2 ^ 24 <=? o)) eqn:E24; [split_ifs; lia|]. bool_to_prop.
    intros _ it Hin. specialize (Hmax it Hin). lia.
Qed.

(** ** The layout of the file *)

Definition v2_row (b : indexBuilderV2) (it : Info) : ID * list Z :=
  (ContentID it, take (Z.to_nat (b2_entrySize b)) (entry_buf b it)).

Definition v2_header (b : indexBuilderV2) : list Z :=
  [Version2; byte (b2_keyLength b)] ++ PutUint16 (uint16 (b2_entrySize b))
  ++ PutUint32 (uint32 (b2_entryCount b)) ++ PutUint32 (uint32 (Z.of_nat (size (b2_packID2Index b))))
  ++ [byte (Z.of_nat (size (b2_uniqueFormatInfo2Index b)))] ++ PutUint32 (uint32 (b2_baseTimestamp b)).

Definition v2_packs (b : indexBuilderV2) : list (list Z) :=
  writePackIDEntry b <$> reverse_index "" (b2_packID2Index b).
Definition v2_format_infos (b : indexBuilderV2) : list (list Z) :=
  writeFormatInfoEntry <$> reverse_index (mkFormatInfo 0 0 0) (b2_uniqueFormatInfo2Index b).

(** What [buildV2] wrote, when it did. *)
Record v2_written (l : list Info) (b : indexBuilderV2) (d : list Z) : Prop := {
  vw_plan : builder_plan l b;
  vw_offsets : b2_packBlobIDOffsets b = (extra_data l).1;
  vw_extra : b2_extraDataOffset b = (v2IndexHeaderSize + b2_entryCount b * (b2_keyLength b + b2_entrySize b)
     + Z.of_nat (size (b2_packID2Index b)) * v2PackInfoSize
     + Z.of_nat (size (b2_uniqueFormatInfo2Index b)) * v2FormatInfoSize) `mod` 2 ^ 32;
  vw_key : 1 < b2_keyLength b;
  vw_keys : forall it, it ∈ l -> slen (id_key (ContentID it)) = b2_keyLength b;
  vw_zero : forall it, it ∈ l -> forallb (Z.eqb 0) (drop (Z.to_nat (b2_entrySize b)) (entry_buf b it)) = true;
  vw_data : d = v2_header b ++ concat (row_bytes <$> (v2_row b <$> l)) ++ concat (v2_packs b)
                ++ concat (v2_format_infos b) ++ (extra_data l).2
}.

Lemma prepareExtraDataV2_eq b l : b2_packBlobIDOffsets b = ∅ ->
  prepareExtraDataV2 b l
  = (mkBuilderV2 (extra_data l).1 (b2_entryCount b) (b2_keyLength b) (b2_entrySize b)
       ((v2IndexHeaderSize + b2_entryCount b * (b2_keyLength b + b2_entrySize b)
         + Z.of_nat (size (b2_packID2Index b)) * v2PackInfoSize
         + Z.of_nat (size (b2_uniqueFormatInfo2Index b)) * v2FormatInfoSize) `mod` 2 ^ 32)
       (b2_uniqueFormatInfo2Index b) (b2_packID2Index b) (b2_baseTimestamp b), (extra_data l).2).
Proof.
  intros Ho. unfold prepareExtraDataV2, extra_data. rewrite Ho. destruct (foldl extra_step (∅, []) l) as [offs extra].
  cbn [fst snd]. unfold uint32. rewrite !Zplus_mod_idemp_r, !Zplus_mod_idemp_l. rewrite <- !Z.add_assoc. by rewrite !Zplus_mod_idemp_l, <- !Z.add_assoc.
Qed.

Lemma written_rows b l ys : Forall2 (fun it y => writeIndexEntry b it = Ok y) l ys -> ys = row_bytes <$> (v2_row b <$> l).
Proof.
  rewrite <- list_fmap_compose. induction 1 as [|it y l ys Hw _ IH]; [done|].
  cbn [fmap list_fmap]. f_equal; [|done]. unfold writeIndexEntry in Hw. fold (id_key (ContentID it)) in Hw.
  destruct (negb _); [done|]. unfold writeIndexValueEntry in Hw. destruct (forallb _ _); [|done]. by injection Hw as <-.
Qed.

Lemma buildV2_written l d : buildV2 l = Ok d -> exists b, v2_written l b d.
Proof.
  unfold buildV2. destruct (newIndexBuilderV2 l) as [b0|] eqn:E0; [|done].
  apply newIndexBuilderV2_plan in E0 as [Hp Ho]. rewrite (prepareExtraDataV2_eq _ _ Ho).
  set (b := mkBuilderV2 _ _ _ _ _ _ _ _). destruct (Z.leb_spec (b2_keyLength b) 1) as [|Hk]; [done|].
  destruct (mapR (writeIndexEntry b) l) as [entries|] eqn:Em; [|done]. intros [= <-].
  apply mapR_inv in Em.
  assert (forall it, it ∈ l -> slen (id_key (ContentID it)) = b2_keyLength b
    /\ forallb (Z.eqb 0) (drop (Z.to_nat (b2_entrySize b)) (entry_buf b it)) = true) as Heach.
  { intros it [p Hit]%list_elem_of_lookup. destruct (Forall2_lookup_l _ _ _ _ _ Em Hit) as (y & _ & Hw).
    unfold writeIndexEntry in Hw. fold (id_key (ContentID it)) in Hw.
    destruct (Z.eqb_spec (slen (id_key (ContentID it))) (b2_keyLength b)); [|done]. cbn [negb] in Hw.
    unfold writeIndexValueEntry in Hw. destruct (forallb _ _); done. }
  assert (entries = row_bytes <$> (v2_row b <$> l)) as ->.
  { by apply written_rows. }
  exists b. destruct Hp. split; [by split|done|done|done|by intros; apply Heach|by intros; apply Heach|done].
Qed.

(** Contents in order, each within what format 2 can store. *)
Record storable_list_v2 (l : list Info) : Prop := {
  sl2_sorted : StronglySorted id_lt (ContentID <$> l);
  sl2_valid : Forall (fun it => valid_id (ContentID it)) l;
  sl2_each : Forall storable_v2 l
}.

(** Reading back the table of formats. *)
Lemma parse_formats u : Forall (fun f => 0 <= fi_compressionHeaderID f < 2 ^ 32) u ->
  parseFormatsBuffer (concat (writeFormatInfoEntry <$> u)) (length u) = u.
Proof.
  induction 1 as [|f u Hf _ IH]; [done|]. cbn [length parseFormatsBuffer fmap list_fmap].
  change (concat (writeFormatInfoEntry f :: ?x)) with (writeFormatInfoEntry f ++ concat x).
  change (drop 6 (writeFormatInfoEntry f ++ ?x)) with x. rewrite IH. f_equal.
  unfold writeFormatInfoEntry at 1. rewrite <- app_assoc, decode_PutUint32 by done. by destruct f.
Qed.

Lemma seq_lookups {A} (u : list A) (z : A) : (fun i => default z (u !! i)) <$> seq 0 (length u) = u.
Proof.
  apply list_eq. intros i. rewrite list_lookup_fmap. destruct (decide (i < length u)%nat) as [Hi|Hi].
  - rewrite lookup_seq_lt by done. cbn. destruct (lookup_lt_is_Some_2 u i Hi) as [x ->]. done.
  - rewrite lookup_seq_ge by lia. cbn. symmetry. apply lookup_ge_None. lia.
Qed.

Lemma nonempty_elem {A} (l : list A) : l <> [] -> exists x, x ∈ l.
Proof. destruct l as [|x l]; [done|]. exists x. by left. Qed.

Section V2File.
Context (l : list Info) (b : indexBuilderV2) (d : list Z).
Context (Hl : storable_list_v2 l) (Hw : v2_written l b d) (Hsize : slen d < 2 ^ 32).

Lemma v2_index_list : index_list l (b2_keyLength b).
Proof.
  split; [exact (sl2_sorted _ Hl)|exact (sl2_valid _ Hl)|].
  apply Forall_forall. exact (vw_keys _ _ _ Hw).
Qed.

Lemma v2_each it : it ∈ l -> storable_v2 it.
Proof. intros Hin. pose proof (sl2_each _ Hl) as H. rewrite Forall_forall in H. auto. Qed.

(** The numbered packs and formats. *)
Lemma v2_pack_numbers : exists u, numbering (b2_packID2Index b) u /\ reverse_index "" (b2_packID2Index b) = u
  /\ forall n, n ∈ u <-> n ∈ PackBlobID <$> l.
Proof.
  destruct (vw_plan _ _ _ Hw). rewrite bp_packs0.
  destruct (fold_numbering id (2 ^ 24) PackBlobID l) as (u & Hu & Hin); [done|done|].
  exists u. split; [exact Hu|]. split; [by apply reverse_numbering|done].
Qed.

Lemma v2_format_numbers : exists u, numbering (b2_uniqueFormatInfo2Index b) u
  /\ reverse_index (mkFormatInfo 0 0 0) (b2_uniqueFormatInfo2Index b) = u
  /\ forall n, n ∈ u <-> n ∈ indexV2FormatInfoFromInfo <$> l.
Proof.
  destruct (vw_plan _ _ _ Hw). rewrite bp_formats0.
  destruct (fold_numbering byte 255 indexV2FormatInfoFromInfo l) as (u & Hu & Hin); [|done|].
  { intros n Hn. unfold byte. apply Z.mod_small. lia. }
  exists u. split; [exact Hu|]. split; [by apply reverse_numbering|done].
Qed.

Lemma slen_v2_row it : it ∈ l -> slen (row_bytes (v2_row b it)) = b2_keyLength b + b2_entrySize b.
Proof.
  intros Hin. unfold row_bytes, v2_row. cbn [fst snd]. rewrite slen_app, (vw_keys _ _ _ Hw) by done.
  pose proof (bp_size _ _ (vw_plan _ _ _ Hw)). unfold slen. rewrite length_take. cbn [length entry_buf app PutUint32 PutUint16 encodeBigEndianUint24].
  change (length (entry_buf b it)) with 19%nat. lia.
Qed.

Lemma slen_v2_rows : slen (concat (row_bytes <$> (v2_row b <$> l))) = slen l * (b2_keyLength b + b2_entrySize b).
Proof.
  rewrite (slen_concat _ (b2_keyLength b + b2_entrySize b)).
  - unfold slen. rewrite !length_fmap. lia.
  - rewrite !Forall_fmap. apply Forall_forall. intros it Hin. by apply slen_v2_row.
Qed.

Lemma slen_v2_packs : slen (concat (v2_packs b)) = Z.of_nat (size (b2_packID2Index b)) * v2PackInfoSize.
Proof.
  destruct v2_pack_numbers as (u & Hu & Hr & _). unfold v2_packs. rewrite Hr, (slen_concat _ v2PackInfoSize).
  - unfold slen. rewrite length_fmap, (nb_length _ _ Hu). lia.
  - rewrite Forall_fmap. apply Forall_forall. done.
Qed.

Lemma slen_v2_formats : slen (concat (v2_format_infos b)) = Z.of_nat (size (b2_uniqueFormatInfo2Index b)) * v2FormatInfoSize.
Proof.
  destruct v2_format_numbers as (u & Hu & Hr & _). unfold v2_format_infos. rewrite Hr, (slen_concat _ v2FormatInfoSize).
  - unfold slen. rewrite length_fmap, (nb_length _ _ Hu). lia.
  - rewrite Forall_fmap. apply Forall_forall. done.
Qed.

Lemma slen_v2_header : slen (v2_header b) = v2IndexHeaderSize.
Proof. done. Qed.

Lemma v2_extra_offset : b2_extraDataOffset b
  = slen (v2_header b ++ concat (row_bytes <$> (v2_row b <$> l)) ++ concat (v2_packs b) ++ concat (v2_format_infos b)).
Proof.
  rewrite (vw_extra _ _ _ Hw), !slen_app, slen_v2_rows, slen_v2_packs, slen_v2_formats, slen_v2_header.
  rewrite (bp_count _ _ (vw_plan _ _ _ Hw)). pose proof Hsize as Hs.
  rewrite (vw_data _ _ _ Hw), !slen_app, slen_v2_rows, slen_v2_packs, slen_v2_formats, slen_v2_header in Hs.
  pose proof (slen_nonneg (extra_data l).2). pose proof (bp_size _ _ (vw_plan _ _ _ Hw)). pose proof (vw_key _ _ _ Hw).
  pose proof (slen_nonneg l). rewrite Z.mod_small; [lia|]. unfold v2IndexHeaderSize, v2PackInfoSize, v2FormatInfoSize in *. nia.
Qed.

Lemma v2_extra_small : slen (extra_data l).2 < 2 ^ 32.
Proof.
  pose proof Hsize as Hs. rewrite (vw_data _ _ _ Hw), !slen_app in Hs.
  pose proof (slen_nonneg (v2_header b)). pose proof (slen_nonneg (concat (row_bytes <$> (v2_row b <$> l)))).
  pose proof (slen_nonneg (concat (v2_packs b))). pose proof (slen_nonneg (concat (v2_format_infos b))). lia.
Qed.

(** The name of a pack is in the extra data at its offset. *)
Lemma v2_name_at n : n ∈ PackBlobID <$> l -> exists a c,
  (extra_data l).2 = a ++ bytes n ++ c /\ default 0 (b2_packBlobIDOffsets b !! n) = slen a.
Proof.
  intros (it & -> & Hin)%list_elem_of_fmap. rewrite (vw_offsets _ _ _ Hw).
  destruct (extra_data_names l v2_extra_small) as [Hat Hne _].
  destruct (decide (PackBlobID it = "")) as [E|Hn].
  - exists [], (extra_data l).2. rewrite E. split; [done|].
    destruct ((extra_data l).1 !! "") as [o|] eqn:Eo; [by apply Hne in Eo|done].
  - destruct (extra_data_known l it Hin Hn) as [o Ho]. destruct (Hat _ _ Ho) as (a & c & He & ->).
    exists a, c. by rewrite Ho.
Qed.

Definition v2_opened_header : v2HeaderInfo :=
  mkV2Header 2 (b2_keyLength b) (b2_entrySize b) (slen l) (Z.of_nat (size (b2_packID2Index b)))
    (Z.of_nat (size (b2_uniqueFormatInfo2Index b))) 0.

Lemma v2_file_split suffix : exists tl, d ++ suffix = v2_header b ++ concat (row_bytes <$> (v2_row b <$> l))
  ++ concat (v2_packs b) ++ concat (v2_format_infos b) ++ (extra_data l).2 ++ tl.
Proof. exists suffix. rewrite (vw_data _ _ _ Hw). by rewrite <- !app_assoc. Qed.

Lemma v2_packs_offset : v2_packsOffset v2_opened_header = slen (v2_header b ++ concat (row_bytes <$> (v2_row b <$> l))).
Proof. rewrite slen_app, slen_v2_rows. done. Qed.

(** The entry of a pack: the length of its name and where the name is. *)
Lemma pack_entry_fields n a c : n ∈ PackBlobID <$> l -> (extra_data l).2 = a ++ bytes n ++ c ->
  default 0 (b2_packBlobIDOffsets b !! n) = slen a ->
  byte_at (writePackIDEntry b n) 0 = len n
  /\ decodeBigEndianUint32 (drop 1 (writePackIDEntry b n)) = slen a + b2_extraDataOffset b.
Proof.
  intros Hnl He Ho. split.
  - apply list_elem_of_fmap in Hnl as (it & -> & Hit). pose proof (sv2_pack _ (v2_each it Hit)).
    pose proof (len_nonneg (PackBlobID it)). change (byte_at _ 0) with (byte (len (PackBlobID it))).
    unfold byte. apply Z.mod_small. lia.
  - change (drop 1 _) with (PutUint32 (uint32 (default 0 (b2_packBlobIDOffsets b !! n) + b2_extraDataOffset b))).
    rewrite <- (app_nil_r (PutUint32 _)), decode_PutUint32, Ho by (unfold uint32; lia_div).
    pose proof Hsize as Hs. rewrite (vw_data _ _ _ Hw), He in Hs. rewrite v2_extra_offset.
    rewrite !slen_app in *. pose proof (slen_nonneg a). pose proof (slen_nonneg c). pose proof (slen_nonneg (bytes n)).
    pose proof (slen_nonneg (v2_header b)). pose proof (slen_nonneg (concat (row_bytes <$> (v2_row b <$> l)))).
    pose proof (slen_nonneg (concat (v2_packs b))). pose proof (slen_nonneg (concat (v2_format_infos b))).
    unfold uint32. apply Z.mod_small. lia.
Qed.

Lemma v2_read_packs suffix u : numbering (b2_packID2Index b) u -> reverse_index "" (b2_packID2Index b) = u ->
  (forall n, n ∈ u <-> n ∈ PackBlobID <$> l) ->
  mapR (read_pack (d ++ suffix) (v2_packsOffset v2_opened_header)) (seq 0 (length u)) = Ok u.
Proof.
  intros Hu Hr Hin. destruct (v2_file_split suffix) as [tl Hd].
  rewrite <- (seq_lookups u "") at 2. apply mapR_Ok. intros i Hi%elem_of_seq.
  destruct (lookup_lt_is_Some_2 u i) as [n Hn]; [lia|]. rewrite Hn.
  assert (n ∈ PackBlobID <$> l) as Hnl by (apply Hin; by eapply list_elem_of_lookup_2).
  destruct (v2_name_at n Hnl) as (a & c & He & Ho).
  destruct (concat_rows_split (v2_packs b) i (writePackIDEntry b n) v2PackInfoSize) as (x & y & Hc & Hx).
  { unfold v2_packs. rewrite Forall_fmap. by apply Forall_forall. }
  { unfold v2_packs. by rewrite Hr, list_lookup_fmap, Hn. }
  unfold read_pack. rewrite (safeSlice_at _ _ _ (v2_header b ++ concat (row_bytes <$> (v2_row b <$> l)) ++ x)
    (writePackIDEntry b n) (y ++ concat (v2_format_infos b) ++ (extra_data l).2 ++ tl)); [|..|done].
  2: { rewrite Hd, Hc. by rewrite <- !app_assoc. }
  2: { rewrite v2_packs_offset, !slen_app, Hx. lia. }
  destruct (pack_entry_fields n a c Hnl He Ho) as [-> ->].
  unfold safeSliceString. rewrite (safeSlice_at _ _ _ (v2_header b ++ concat (row_bytes <$> (v2_row b <$> l))
    ++ concat (v2_packs b) ++ concat (v2_format_infos b) ++ a) (bytes n) (c ++ tl)).
  - cbn. by rewrite of_bytes_bytes.
  - rewrite Hd, He. by rewrite <- !app_assoc.
  - rewrite v2_extra_offset, !slen_app. lia.
  - by rewrite slen_bytes.
Qed.

Lemma v2_nonempty : l <> [].
Proof. intros E. pose proof (vw_key _ _ _ Hw) as Hk. rewrite (bp_key _ _ (vw_plan _ _ _ Hw)), E in Hk. lia. Qed.

Lemma v2_key_range : 2 <= b2_keyLength b <= 33.
Proof.
  pose proof (vw_key _ _ _ Hw). destruct (nonempty_elem l v2_nonempty) as [it Hin]. pose proof (vw_keys _ _ _ Hw it Hin) as Hk. rewrite slen_key in Hk.
  pose proof (sl2_valid _ Hl) as Hv. rewrite Forall_forall in Hv. pose proof (valid_id_len _ (Hv it Hin)).
  unfold maxIDLength, MaxHashSize in *. lia.
Qed.

Lemma v2_count_small : slen l < 2 ^ 32.
Proof.
  pose proof Hsize as Hs. rewrite (vw_data _ _ _ Hw), !slen_app, slen_v2_rows in Hs.
  pose proof (slen_nonneg (v2_header b)). pose proof (slen_nonneg (extra_data l).2).
  pose proof (slen_nonneg (concat (v2_packs b))). pose proof (slen_nonneg (concat (v2_format_infos b))).
  pose proof v2_key_range. pose proof (bp_size _ _ (vw_plan _ _ _ Hw)). pose proof (slen_nonneg l). nia.
Qed.

(** The fields of the header. *)
Lemma v2_header_fields : let h := v2_header b in
  mkV2Header (byte_at h 0) (byte_at h 1) (decodeBigEndianUint16 (drop 2 h)) (decodeBigEndianUint32 (drop 4 h))
    (decodeBigEndianUint32 (drop 8 h)) (byte_at h 12) (decodeBigEndianUint32 (drop 13 h)) = v2_opened_header.
Proof.
  pose proof v2_key_range. pose proof (vw_plan _ _ _ Hw) as Hp. pose proof (bp_size _ _ Hp).
  pose proof (bp_nformats _ _ Hp). pose proof (bp_npacks _ _ Hp). pose proof v2_count_small. pose proof (slen_nonneg l).
  cbn zeta. unfold v2_opened_header. f_equal.
  - change (byte (b2_keyLength b) = b2_keyLength b). unfold byte. apply Z.mod_small. lia.
  - unfold v2_header. change (drop 2 (?x ++ ?y)) with y. unfold uint16. rewrite Z.mod_small, decode_PutUint16 by lia. done.
  - change (drop 4 _) with (PutUint32 (uint32 (b2_entryCount b)) ++ PutUint32 (uint32 (Z.of_nat (size (b2_packID2Index b))))
      ++ [byte (Z.of_nat (size (b2_uniqueFormatInfo2Index b)))] ++ PutUint32 (uint32 (b2_baseTimestamp b))).
    rewrite (bp_count _ _ Hp). unfold uint32 at 1. rewrite Z.mod_small, decode_PutUint32 by lia. done.
  - change (drop 8 _) with (PutUint32 (uint32 (Z.of_nat (size (b2_packID2Index b))))
      ++ [byte (Z.of_nat (size (b2_uniqueFormatInfo2Index b)))] ++ PutUint32 (uint32 (b2_baseTimestamp b))).
    rewrite (bp_packs _ _ Hp). unfold uint32 at 1. rewrite Z.mod_small, decode_PutUint32 by lia. done.
  - change (byte (Z.of_nat (size (b2_uniqueFormatInfo2Index b))) = Z.of_nat (size (b2_uniqueFormatInfo2Index b))).
    rewrite (bp_formats _ _ Hp). unfold byte. apply Z.mod_small. lia.
  - change (drop 13 _) with (PutUint32 (uint32 (b2_baseTimestamp b))). by rewrite (bp_base _ _ Hp).
Qed.

(** What [buildV2] wrote opens, with its packs and formats in order. *)
Lemma v2_open_built suffix : exists packs formats,
  openV2PackIndex (d ++ suffix) = Ok (mkIndexV2 v2_opened_header (d ++ suffix) formats packs)
  /\ numbering (b2_packID2Index b) packs /\ numbering (b2_uniqueFormatInfo2Index b) formats.
Proof.
  destruct v2_pack_numbers as (up & Hup & Hrp & Hip), v2_format_numbers as (uf & Huf & Hrf & Hif).
  exists up, uf. split; [|done]. destruct (v2_file_split suffix) as [tl Hd]. unfold openV2PackIndex.
  rewrite (safeSlice_at _ 0 v2IndexHeaderSize [] (v2_header b) (concat (row_bytes <$> (v2_row b <$> l))
    ++ concat (v2_packs b) ++ concat (v2_format_infos b) ++ (extra_data l).2 ++ tl)) by done.
  cbv beta iota zeta. rewrite v2_header_fields.
  pose proof v2_key_range. pose proof (vw_plan _ _ _ Hw) as Hp. pose proof (bp_size _ _ Hp). pose proof (slen_nonneg l).
  pose proof (bp_nformats _ _ Hp) as Hnf. rewrite <- (bp_formats _ _ Hp) in Hnf.
  unfold v2EntryMinLength, v2EntryMaxLength, v2MaxFormatCount, invalidFormatVersion, v2MaxEntrySize, v2_entryStride.
  cbn [v2_opened_header v2_keySize v2_entrySize v2_entryCount v2_formatCount v2_packCount].
  rewrite (proj2 (Z.leb_gt _ 1)), !(proj2 (Z.ltb_ge _ _)) by lia. cbn [orb].
  fold v2_opened_header.
  rewrite (safeSlice_at _ _ _ (v2_header b ++ concat (row_bytes <$> (v2_row b <$> l)) ++ concat (v2_packs b))
    (concat (v2_format_infos b)) ((extra_data l).2 ++ tl)).
  - rewrite Nat2Z.id. rewrite <- (nb_length _ _ Hup), (v2_read_packs suffix up Hup Hrp Hip).
    rewrite Nat2Z.id, <- (nb_length _ _ Huf). unfold v2_format_infos. rewrite Hrf, parse_formats; [done|].
    apply Forall_forall. intros f Hf. apply Hif, list_elem_of_fmap in Hf as (it & -> & Hit).
    apply (sv2_compression _ (v2_each it Hit)).
  - rewrite Hd. by rewrite <- !app_assoc.
  - unfold v2_formatsOffset. rewrite v2_packs_offset, !slen_app, slen_v2_packs. cbn [v2_opened_header v2_packCount]. lia.
  - by rewrite slen_v2_formats.
Qed.

(** An index opened over those bytes. *)
Record v2_opened (ib : indexV2) : Prop := {
  vo2_hdr : v2_hdr ib = v2_opened_header;
  vo2_data : exists suffix, v2_data ib = d ++ suffix;
  vo2_packs : numbering (b2_packID2Index b) (v2_packBlobIDs ib);
  vo2_formats : numbering (b2_uniqueFormatInfo2Index b) (v2_formats ib)
}.

Lemma v2_table_holds ib : v2_opened ib -> table_holds (v2_table ib) (v2_row b <$> l).
Proof.
  intros [Hh [suffix Hd] _ _]. destruct (v2_file_split suffix) as [tl Hs]. unfold v2_table. rewrite Hh, Hd.
  pose proof v2_count_small.
  split; cbn [t_entryCount t_data t_offset t_keySize t_stride v2_opened_header v2_entryCount v2_keySize v2_entriesOffset].
  - unfold slen. by rewrite length_fmap.
  - unfold slen in *. rewrite length_fmap. lia.
  - exists (v2_header b), (concat (v2_packs b) ++ concat (v2_format_infos b) ++ (extra_data l).2 ++ tl). by rewrite Hs.
  - rewrite Forall_fmap. exact (sl2_valid _ Hl).
  - rewrite Forall_fmap. apply Forall_forall. exact (vw_keys _ _ _ Hw).
  - rewrite Forall_fmap. apply Forall_forall. intros it Hin. by apply slen_v2_row.
  - rewrite <- list_fmap_compose. exact (sl2_sorted _ Hl).
Qed.

(** A content's pack and format have numbers, and the tables hold them there. *)
Lemma numbered {K} `{Countable K} (m : gmap K Z) u key : numbering m u -> key ∈ u ->
  exists v, m !! key = Some v /\ u !! Z.to_nat v = Some key /\ 0 <= v < Z.of_nat (size m).
Proof.
  intros [Hlen Hm] [i Hi]%list_elem_of_lookup. exists (Z.of_nat i). split; [apply Hm; eauto|].
  rewrite Nat2Z.id. split; [done|]. apply lookup_lt_Some in Hi. lia.
Qed.

Lemma v2_entry_reads ib it : v2_opened ib -> it ∈ l ->
  entryToInfoStructV2 ib (ContentID it) (v2_row b it).2 = Ok it.
Proof.
  intros Hb Hin. pose proof (vw_plan _ _ _ Hw) as Hp. destruct (bp_limits _ _ Hp it Hin) as (H1 & H2 & H3).
  destruct v2_pack_numbers as (up & Hup & _ & Hip), v2_format_numbers as (uf & Huf & _ & Hif).
  destruct (numbered _ up (PackBlobID it) Hup) as (pi & Hpi & _ & Hpr); [apply Hip; by apply list_elem_of_fmap_2|].
  destruct (numbered _ uf (indexV2FormatInfoFromInfo it) Huf) as (fi & Hfi & _ & Hfr); [apply Hif; by apply list_elem_of_fmap_2|].
  pose proof (bp_npacks _ _ Hp) as Hnp. pose proof (bp_nformats _ _ Hp) as Hnf.
  rewrite <- (bp_packs _ _ Hp) in Hnp. rewrite <- (bp_formats _ _ Hp) in Hnf.
  assert (v2_packBlobIDs ib !! Z.to_nat pi = Some (PackBlobID it)) as Hpl.
  { apply (nb_spec _ _ (vo2_packs _ Hb)) in Hpi as (i & Hi & ->). by rewrite Nat2Z.id. }
  assert (v2_formats ib !! Z.to_nat fi = Some (indexV2FormatInfoFromInfo it)) as Hfl.
  { apply (nb_spec _ _ (vo2_formats _ Hb)) in Hfi as (i & Hi & ->). by rewrite Nat2Z.id. }
  eapply (entry_decodes b ib it); eauto using v2_each, bp_base, bp_size, vw_zero; try lia.
  - by rewrite (vo2_hdr _ Hb).
  - rewrite (vo2_hdr _ Hb). cbn [v2_opened_header v2_packCount]. lia.
Qed.

Lemma GetInfoV2_spec ib i : v2_opened ib -> valid_id i -> slen (id_key i) = b2_keyLength b ->
  GetInfoV2 ib i = Ok (find_info l i).
Proof.
  intros Hb Hi Hk. pose proof (v2_table_holds ib Hb) as Ht. unfold GetInfoV2.
  destruct (find_info l i) as [it|] eqn:E.
  - apply find_info_Some in E as [Hin <-]. pose proof Hin as [p Hp]%list_elem_of_lookup.
    rewrite (findEntry_found _ _ Ht p (ContentID it) (v2_row b it).2) by by rewrite list_lookup_fmap, Hp.
    by rewrite v2_entry_reads.
  - apply find_info_None in E. rewrite (findEntry_absent _ _ Ht); [done..| |].
    + cbn [t_keySize v2_table]. by rewrite (vo2_hdr _ Hb).
    + rewrite <- list_fmap_compose. exact E.
Qed.

Lemma GetInfoV2_wrong_length ib i : v2_opened ib -> slen (id_key i) <> b2_keyLength b ->
  GetInfoV2 ib i = Err ErrInvalidContentID.
Proof.
  intros Hb Hk. pose proof v2_key_range. unfold GetInfoV2.
  rewrite (findEntry_wrong_length (v2_table ib) i); [done|..]; cbn [t_keySize v2_table]; rewrite (vo2_hdr _ Hb);
    cbn [v2_opened_header v2_keySize]; unfold unknownKeySize; [lia|done].
Qed.

Lemma IterateV2_spec {S E} ib r (cb : callback S E) s : v2_opened ib ->
  IterateV2 ib r cb s = feed cb (filter (fun it => IDRange_Contains r (ContentID it) = true) l) s.
Proof.
  intros Hb. unfold IterateV2.
  destruct (iterate_infos (v2_table ib) l (b2_keyLength b) (fun it => (v2_row b it).2)
    (fun i dd (_ : unit) => (entryToInfoStructV2 ib i dd, tt)) (fun _ => True) r cb tt s) as (c' & _ & ->);
    [exact v2_index_list|by apply v2_table_holds| |done|by destruct (feed _ _ _)].
  intros it c Hin _. exists tt. by rewrite v2_entry_reads.
Qed.
End V2File.

(** ** The writer does not panic *)

(** The check at the end of [writeIndexValueEntry] never fails: the bytes an
    entry size leaves out are zero. *)
Lemma dropped_bytes_zero l b it :
  builder_plan l b -> Forall storable_v2 l -> it ∈ l ->
  forallb (Z.eqb 0) (drop (Z.to_nat (b2_entrySize b)) (entry_buf b it)) = true.
Proof.
  intros Hp Hall Hin. rewrite Forall_forall in Hall. pose proof (Hall it Hin) as Hst.
  destruct (bp_limits _ _ Hp it Hin) as (H1 & H2 & H3). pose proof (bp_size _ _ Hp) as Hes.
  destruct (fold_numbering id (2 ^ 24) PackBlobID l) as (up & Hup & Hip); [done|exact (bp_npacks _ _ Hp)|].
  destruct (fold_numbering byte 255 indexV2FormatInfoFromInfo l) as (uf & Huf & Hif);
    [intros n Hn; unfold byte; apply Z.mod_small; lia|exact (bp_nformats _ _ Hp)|].
  destruct (numbered _ up (PackBlobID it) Hup) as (pi & Hpi & _ & Hpr); [apply Hip; by apply list_elem_of_fmap_2|].
  destruct (numbered _ uf (indexV2FormatInfoFromInfo it) Huf) as (fi & Hfi & _ & Hfr); [apply Hif; by apply list_elem_of_fmap_2|].
  fold (buildPackIDToIndexMap l) in *. fold (buildUniqueFormatToIndexMap l) in *.
  pose proof (bp_one_format _ _ Hp). pose proof (bp_short_packs _ _ Hp).
  rewrite (entry_buf_eq b it Hst H3 pi fi); [|by rewrite (bp_packs _ _ Hp)|by rewrite (bp_formats _ _ Hp)|exact (bp_base _ _ Hp)].
  destruct (high_bits (PackedLength it) (OriginalLength it)) as (Hh & _ & _); [destruct Hst; lia..|]. rewrite Hh.
  assert (b2_entrySize b < 17 -> fi = 0) as Hf0 by lia.
  assert (b2_entrySize b < 18 -> byte (Z.shiftr pi 16) = 0) as Hp0.
  { intros Hlt. unfold byte. shifts. specialize (H0 Hlt). lia_div. }
  assert (b2_entrySize b < 19 -> PackedLength it / 2 ^ 24 + OriginalLength it / 2 ^ 24 * 16 = 0) as Hl0.
  { intros Hlt. destruct (bp_short_lengths _ _ Hp Hlt it Hin). destruct Hst. lia_div. }
  destruct (Z_of_nat_complete (b2_entrySize b - 16)) as [n Hn]; [lia|].
  replace (Z.to_nat (b2_entrySize b)) with (length (entry_head it pi) + n)%nat by (cbn; lia). rewrite drop_app_add.
  assert (n = 0 \/ n = 1 \/ n = 2 \/ n = 3)%nat as [-> | [-> | [-> | ->]]] by lia;
    cbn [drop forallb]; rewrite ?Hf0, ?Hp0, ?Hl0 by lia; done.
Qed.

(** So [buildV2] accepts every list whose builder was accepted and whose keys
    have one length of at least two bytes. *)
Lemma buildV2_accepts l b k :
  newIndexBuilderV2 l = Ok b -> Forall storable_v2 l -> l <> [] -> 1 < k ->
  Forall (fun it => slen (id_key (ContentID it)) = k) l -> exists d, buildV2 l = Ok d.
Proof.
  intros Hb Hall Hne Hk Hkeys. unfold buildV2. rewrite Hb. apply newIndexBuilderV2_plan in Hb as [Hp Ho].
  rewrite (prepareExtraDataV2_eq _ _ Ho). set (b' := mkBuilderV2 _ _ _ _ _ _ _ _).
  assert (builder_plan l b') as Hp' by (destruct Hp; by split).
  assert (b2_keyLength b' = k) as Hkl.
  { rewrite (bp_key _ _ Hp'). destruct l as [|it l']; [done|]. by apply Forall_cons in Hkeys as [-> _]. }
  rewrite Hkl, (proj2 (Z.leb_gt _ _)) by done. rewrite (mapR_Ok _ (fun it => row_bytes (v2_row b' it))); [by eexists|].
  intros it Hin. unfold writeIndexEntry, writeIndexValueEntry. fold (id_key (ContentID it)).
  rewrite Forall_forall in Hkeys. rewrite (Hkeys it Hin), Hkl, Z.eqb_refl. cbn [negb].
  by rewrite (dropped_bytes_zero l b' it Hp' Hall Hin).
Qed.
