(* ===== verification/IndexBuild.v ===== *)
(** * Building, opening and merging indexes

    [repo/content/index]: [index.go] ([Open]), [index_builder.go],
    [one_use_index_builder.go] and [merged.go].  A builder keeps one entry per
    content, sorts them by buckets and writes them in shards; the reader merges
    any number of indexes and answers with the greatest entry.  The interface
    [Index] is a class, as it is a Go interface, with its laws beside it. *)

From S2P Require Import Prelude GoStrings GoText IndexID IndexTable IndexV1 IndexV2 IndexV2Facts.
Open Scope go_scope.

(** ** The interface *)

Class Index (X : Type) := {
  ApproximateCount : X -> Z;
  GetInfo : X -> ID -> result index_error (option Info) * X;
  Iterate : forall {S E : Type}, X -> IDRange -> callback S E -> S -> result (iter_error E) unit * X * S
}.

(** An index holds a list of entries when lookups and iterations are those of
    the list, and it still does after them: reading changes only memories. *)
Class IndexLaws (X : Type) `{Index X} := {
  holds : X -> list Info -> Z -> Prop;
  holds_list x l k : holds x l k -> index_list l k;
  GetInfo_law x l k i : holds x l k -> valid_id i -> slen (id_key i) = k ->
    exists x', GetInfo x i = (Ok (find_info l i), x') /\ holds x' l k;
  Iterate_law {S E} x l k r (cb : callback S E) s : holds x l k ->
    exists x', holds x' l k /\ Iterate x r cb s
      = let y := feed cb (filter (fun it => IDRange_Contains r (ContentID it) = true) l) s in (y.1, x', y.2)
}.

(** ** The two formats behind the interface *)

Inductive pack_index := IndexOfV1 (b : indexV1) | IndexOfV2 (b : indexV2).

#[export] Instance pack_index_Index : Index pack_index := {|
  ApproximateCount x :=
    match x with IndexOfV1 b => ApproximateCountV1 b | IndexOfV2 b => ApproximateCountV2 b end;
  GetInfo x i :=
    match x with
    | IndexOfV1 b => let '(r, b) := GetInfoV1 b i in (r, IndexOfV1 b)
    | IndexOfV2 b => (GetInfoV2 b i, IndexOfV2 b)
    end;
  Iterate _ _ x r cb s :=
    match x with
    | IndexOfV1 b => let '(res, b, s) := IterateV1 b r cb s in (res, IndexOfV1 b, s)
    | IndexOfV2 b => let '(res, s) := IterateV2 b r cb s in (res, IndexOfV2 b, s)
    end
|}.

(** [Open]; [overhead] is what [v1PerContentOverhead] returns. *)
Definition Open (data : list Z) (overhead : Z) : result index_error pack_index :=
  let! h := v1ReadHeader data in
  if v1_version h =? Version1 then Ok (IndexOfV1 (openV1PackIndex h data (uint32 overhead)))
  else if v1_version h =? Version2 then let! b := openV2PackIndex data in Ok (IndexOfV2 b)
  else Err ErrInvalidVersion.

(** ** [Builder] *)

Abbreviation Builder := (gmap ID Info).

(** [Builder.Add] *)
Definition Add (b : Builder) (i : Info) : Builder :=
  match b !! ContentID i with
  | None => <[ContentID i := i]> b
  | Some old => if contentInfoGreaterThanStruct i old then <[ContentID i := i]> b else b
  end.

(** The table [base36Value] as its [init] leaves it. *)
Definition base36Value (c : Z) : Z :=
  if between 48 57 c then c - 48
  else if between 97 122 c then c - 87
  else if between 65 90 c then c - 55
  else 0.

(** The bucket of an identifier. *)
Definition bucket (i : ID) : Z :=
  Z.shiftl (base36Value (id_prefix i)) 4 + Z.shiftr (byte_at (id_data i) 0) 4.

(** [sort.Slice].  It is not stable, but the elements it is used on are told
    apart by their order, which leaves one result. *)
Fixpoint insert_by {A} (lt : A -> A -> bool) (x : A) (l : list A) : list A :=
  match l with
  | [] => [x]
  | y :: l' => if lt y x then y :: insert_by lt x l' else x :: l
  end.

Definition sort_by {A} (lt : A -> A -> bool) (l : list A) : list A := foldr (insert_by lt) [] l.

Definition info_less (a b : Info) : bool := less (ContentID a) (ContentID b).

(** [sortedContents], over the entries in the order the map yields them.  The
    buckets are sorted by concurrent workers, each bucket by one of them. *)
Definition sortedContents (entries : list (ID * Info)) : list Info :=
  concat ((fun k => sort_by info_less (snd <$> filter (fun e => bucket e.1 = Z.of_nat k) entries)) <$> seq 0 576).

Definition buildSortedContents (items : list Info) (version : Z) : result index_error (list Z) :=
  if version =? Version1 then buildV1 items
  else if version =? Version2 then buildV2 items
  else Err ErrInvalidVersion.

Definition buildStable (b : Builder) (version : Z) : result index_error (list Z) :=
  buildSortedContents (sortedContents (map_to_list b)) version.

(** [Build]; [suffix] is what [rand.Read] yields. *)
Definition Build (b : Builder) (version : Z) (suffix : option (list Z)) : result index_error (list Z) :=
  let! d := buildStable b version in
  match suffix with None => Err ErrRandom | Some s => Ok (d ++ s) end.

(** [hash/fnv]: the 32-bit FNV-1a hash. *)
Definition fnv32a (s : string) : Z :=
  foldl (fun h c => (Z.lxor h c * 16777619) `mod` 2 ^ 32) 2166136261 (bytes s).

Definition numShards (n maxShardSize : Z) : Z := Z.quot (n + maxShardSize - 1) maxShardSize.

Definition shard_of (n : Z) (i : ID) : Z := fnv32a (ID_String i) `mod` uint32 n.

(** [Builder.shard] *)
Definition shard (b : Builder) (maxShardSize : Z) : list Builder :=
  let n := numShards (Z.of_nat (size b)) maxShardSize in
  if n <=? 1 then if Z.of_nat (size b) =? 0 then [] else [b]
  else filter (fun r => r <> ∅)
         ((fun k => filter (fun e => shard_of n e.1 = Z.of_nat k) b) <$> seq 0 (Z.to_nat n)).

(** The loop of [BuildShards]: each shard is written, with a random suffix
    unless the build is stable.  [rand] yields the suffixes in turn. *)
Fixpoint build_shards_loop {A} (build : A -> result index_error (list Z)) (stable : bool)
    (rand : nat -> option (list Z)) (shards : list A) : result index_error (list (list Z)) :=
  match shards with
  | [] => Ok []
  | s :: shards =>
      let! d := build s in
      let! d := (if stable then Ok d
                 else match rand (length shards) with None => Err ErrRandom | Some r => Ok (d ++ r) end) in
      let! ds := build_shards_loop build stable rand shards in
      Ok (d :: ds)
  end.

Definition BuildShards (b : Builder) (indexVersion : Z) (stable : bool) (shardSize : Z)
    (rand : nat -> option (list Z)) : result index_error (list (list Z)) :=
  if shardSize =? 0 then Err ErrShardSize
  else build_shards_loop (fun s => buildStable s indexVersion) stable rand (shard b shardSize).

(** ** [OneUseBuilder]

    It keeps its entries in an ordered tree of package GoLLRB, a parameter:
    [elems] is what the tree holds, in order. *)
Class LLRB (T : Type) := {
  llrb_New : T;
  llrb_Get : T -> Info -> option Info;
  llrb_ReplaceOrInsert : T -> Info -> T;
  llrb_DeleteMin : T -> option (Info * T);
  llrb_Len : T -> Z
}.

Section OneUse.
Context {T : Type} `{LLRB T}.

Definition NewOneUseBuilder : T := llrb_New.

Definition OneUse_Add (b : T) (i : Info) : T :=
  match llrb_Get b i with
  | None => llrb_ReplaceOrInsert b i
  | Some found => if contentInfoGreaterThanStruct i found then llrb_ReplaceOrInsert b i else b
  end.

Definition OneUse_Length (b : T) : Z := llrb_Len b.

(** Both loops run while the tree is not empty; each turn removes one. *)
Fixpoint drain (fuel : nat) (b : T) : list Info :=
  match fuel with
  | O => []
  | S fuel => if 0 <? llrb_Len b
              then match llrb_DeleteMin b with Some (item, b) => item :: drain fuel b | None => [] end
              else []
  end.

Definition OneUse_sortedContents (b : T) : list Info := drain (Z.to_nat (llrb_Len b)) b.

Definition OneUse_shard (b : T) (maxShardSize : Z) : list (list Info) :=
  let n := numShards (OneUse_Length b) maxShardSize in
  if n <=? 1 then if OneUse_Length b =? 0 then [] else [OneUse_sortedContents b]
  else filter (fun r => r <> [])
         ((fun k => filter (fun it => shard_of n (ContentID it) = Z.of_nat k) (drain (Z.to_nat (llrb_Len b)) b))
            <$> seq 0 (Z.to_nat n)).

Definition OneUse_BuildShards (b : T) (indexVersion : Z) (stable : bool) (shardSize : Z)
    (rand : nat -> option (list Z)) : result index_error (list (list Z)) :=
  if shardSize =? 0 then Err ErrShardSize
  else build_shards_loop (fun s => buildSortedContents s indexVersion) stable rand (OneUse_shard b shardSize).
End OneUse.

(** ** [Merged] *)

Section Merged.
Context {X : Type} `{Index X}.

Definition Merged_ApproximateCount (m : list X) : Z := foldl (fun c ndx => c + ApproximateCount ndx) 0 m.

(** The loop of [Merged.GetInfo], [best] being [result] once [found]. *)
Fixpoint merged_get (id : ID) (best : option Info) (m : list X) : result index_error (option Info) * list X :=
  match m with
  | [] => (Ok best, [])
  | ndx :: m =>
      match GetInfo ndx id with
      | (Err e, ndx) => (Err e, ndx :: m)
      | (Ok None, ndx) => let '(r, m) := merged_get id best m in (r, ndx :: m)
      | (Ok (Some tmp), ndx) =>
          let best := match best with
                      | None => Some tmp
                      | Some b => if contentInfoGreaterThanStruct tmp b then Some tmp else Some b
                      end in
          let '(r, m) := merged_get id best m in (r, ndx :: m)
      end
  end.

Definition Merged_GetInfo (m : list X) (id : ID) : result index_error (option Info) * list X := merged_get id None m.

(** An entry of the heap: the next item of an index and the channel that
    yields the ones after it. *)
Record nextInfo := mkNextInfo { ni_it : Info; ni_ch : list Info }.

(** [nextInfoHeap.Less] on two elements. *)
Definition next_Less (a b : Info) : bool :=
  if negb (bool_decide (ContentID a = ContentID b)) then less (ContentID a) (ContentID b)
  else negb (contentInfoGreaterThanStruct a b).

(** What [iterateChan] sends before it closes the channel: the items of the
    range, up to the first error of the index, which is dropped. *)
Definition iterateChan (r : IDRange) (ndx : X) : list Info * X :=
  let '(_, ndx, s) := Iterate (E := unit) ndx r (fun i s => (None, s ++ [i])) [] in (s, ndx).

(** [heap.Push]: the order of a heap is not observable but through [Pop]. *)
Definition heap_Push (h : list nextInfo) (x : nextInfo) : list nextInfo := h ++ [x].

(** [heap.Pop]: a minimum by [Less] and the rest. *)
Fixpoint heap_Pop (h : list nextInfo) : option (nextInfo * list nextInfo) :=
  match h with
  | [] => None
  | x :: h =>
      match heap_Pop h with
      | None => Some (x, h)
      | Some (y, h') => if next_Less (ni_it x) (ni_it y) then Some (x, h) else Some (y, x :: h')
      end
  end.

(** The next item of a channel, pushed if there is one. *)
Definition push_next (h : list nextInfo) (ch : list Info) : list nextInfo :=
  match ch with [] => h | it :: ch => heap_Push h (mkNextInfo it ch) end.

(** The loop of [Merged.Iterate]; [fuel] bounds the items left. *)
Fixpoint merge_loop {S E} (cb : callback S E) (fuel : nat) (minHeap : list nextInfo) (pending : option Info) (s : S)
    : result (iter_error E) unit * S :=
  match fuel with
  | O => (Ok tt, s)
  | Datatypes.S fuel =>
      match heap_Pop minHeap with
      | None => match pending with
                | Some p => match cb p s with (Some e, s) => (Err (CallbackErr e), s) | (None, s) => (Ok tt, s) end
                | None => (Ok tt, s)
                end
      | Some (x, h) =>
          match pending with
          | None => merge_loop cb fuel (push_next h (ni_ch x)) (Some (ni_it x)) s
          | Some p =>
              if negb (bool_decide (ContentID p = ContentID (ni_it x)))
              then match cb p s with
                   | (Some e, s) => (Err (CallbackErr e), s)
                   | (None, s) => merge_loop cb fuel (push_next h (ni_ch x)) (Some (ni_it x)) s
                   end
              else merge_loop cb fuel (push_next h (ni_ch x))
                     (Some (if contentInfoGreaterThanStruct (ni_it x) p then ni_it x else p)) s
          end
      end
  end.

Definition Merged_Iterate {S E} (m : list X) (r : IDRange) (cb : callback S E) (s : S)
    : result (iter_error E) unit * list X * S :=
  let chans := iterateChan r <$> m in
  let minHeap := foldl (fun h c => push_next h c.1) [] chans in
  let '(res, s) := merge_loop cb (Datatypes.S (length (concat chans.*1))) minHeap None s in
  (res, chans.*2, s).
End Merged.

(** * What the index promises

    The order between entries of one content, the bucket sort, the builder, the
    laws of the two formats, the merged reader and, put together, the round
    trip from additions through shards to lookups. *)

(** ** Which entry wins *)

(** [a] does not win against [b]. *)
Definition entry_le (a b : Info) : Prop := contentInfoGreaterThanStruct a b = false.

Lemma entry_le_total a b : contentInfoGreaterThanStruct a b = true -> entry_le b a.
Proof.
  unfold entry_le, contentInfoGreaterThanStruct. rewrite (Z.eqb_sym (TimestampSeconds b)).
  destruct (Z.eqb_spec (TimestampSeconds a) (TimestampSeconds b)); cbn [negb]; [|intros; bool_to_prop; apply Z.ltb_ge; lia].
  destruct (Deleted a), (Deleted b); cbn; try done; apply slt_asym.
Qed.

Lemma entry_le_trans a b c : entry_le a b -> entry_le b c -> entry_le a c.
Proof.
  unfold entry_le, contentInfoGreaterThanStruct.
  destruct (Z.eqb_spec (TimestampSeconds a) (TimestampSeconds b)), (Z.eqb_spec (TimestampSeconds b) (TimestampSeconds c)),
    (Z.eqb_spec (TimestampSeconds a) (TimestampSeconds c)); cbn [negb]; rewrite ?Z.ltb_ge; try lia.
  destruct (Deleted a), (Deleted b), (Deleted c); cbn; try done.
  all: intros H1 H2; fold (sle (PackBlobID a) (PackBlobID b)) in *.
  all: assert (sle (PackBlobID a) (PackBlobID b) = true) as Ha by (unfold sle; by rewrite H1).
  all: assert (sle (PackBlobID b) (PackBlobID c) = true) as Hb by (unfold sle; by rewrite H2).
  all: apply negb_true_iff; fold (sle (PackBlobID a) (PackBlobID c)); rewrite sle_spec in *.
  all: destruct Ha as [Ha| ->], Hb as [Hb|Hb]; rewrite <- ?Hb; eauto using slt_trans.
Qed.

Lemma entry_le_refl a : entry_le a a.
Proof.
  unfold entry_le, contentInfoGreaterThanStruct. rewrite Z.eqb_refl, Bool.eqb_reflx. cbn. apply slt_irrefl.
Qed.

(** ** Sorting by buckets *)

Lemma insert_by_perm {A} (lt : A -> A -> bool) x l : insert_by lt x l ≡ₚ x :: l.
Proof.
  induction l as [|y l IH]; [done|]. cbn. destruct (lt y x); [|done]. rewrite IH. by constructor.
Qed.

Lemma sort_by_perm {A} (lt : A -> A -> bool) l : sort_by lt l ≡ₚ l.
Proof. induction l as [|x l IH]; [done|]. cbn. by rewrite insert_by_perm, IH. Qed.

(** Sorting elements that a total order tells apart. *)
Section SortBy.
Context {A : Type} (lt : A -> A -> bool) (P : A -> Prop).
Context (lt_trans : forall x y z, P x -> P y -> P z -> lt x y = true -> lt y z = true -> lt x z = true).

Lemma insert_by_sorted x l : Forall P (x :: l) -> Forall (fun y => lt y x = true \/ lt x y = true) l ->
  StronglySorted (fun a b => lt a b = true) l -> StronglySorted (fun a b => lt a b = true) (insert_by lt x l).
Proof.
  intros [Hx Hl]%Forall_cons Htot Hs. induction Hs as [|y l Hs IH Hy]; cbn; [repeat constructor|].
  apply Forall_cons in Hl as [HPy Hl]. apply Forall_cons in Htot as [Hxy Htot].
  destruct (lt y x) eqn:E.
  - constructor; [by apply IH|]. rewrite (insert_by_perm lt x l). by constructor.
  - destruct Hxy as [?|Hxy]; [congruence|]. constructor; [by constructor|]. constructor; [done|].
    rewrite Forall_forall in *. intros z Hz. eauto.
Qed.

Lemma sort_by_sorted l : Forall P l -> (forall x y, x ∈ l -> y ∈ l -> x = y \/ lt x y = true \/ lt y x = true) -> NoDup l ->
  StronglySorted (fun a b => lt a b = true) (sort_by lt l).
Proof.
  intros HP Htot Hnd. induction Hnd as [|x l Hx Hnd IH]; [constructor|]. apply Forall_cons in HP as [HPx HP].
  cbn. apply insert_by_sorted.
  - rewrite (sort_by_perm lt l). by constructor.
  - rewrite (sort_by_perm lt l). apply Forall_forall. intros y Hy.
    destruct (Htot x y) as [?|[?|?]]; [by left|by right|by subst|by right|by left].
  - apply IH; [done|]. intros y z Hy Hz. apply Htot; by right.
Qed.
End SortBy.

(** Splitting a list by the value of a function loses and repeats nothing. *)
Lemma filter_lt_S {A} (f : A -> Z) (l : list A) n :
  filter (fun x => 0 <= f x < Z.of_nat n) l ++ filter (fun x => f x = Z.of_nat n) l
  ≡ₚ filter (fun x => 0 <= f x < Z.of_nat (S n)) l.
Proof.
  induction l as [|x l IH]; [done|]. rewrite !filter_cons. do 3 case_decide; try lia.
  - cbn [app]. by rewrite IH.
  - by rewrite <- Permutation_middle, IH.
  - done.
Qed.

Lemma partition_perm {A} (f : A -> Z) (l : list A) n : Forall (fun x => 0 <= f x < Z.of_nat n) l ->
  concat ((fun k => filter (fun x => f x = Z.of_nat k) l) <$> seq 0 n) ≡ₚ l.
Proof.
  intros Hf. assert (forall n, concat ((fun k => filter (fun x => f x = Z.of_nat k) l) <$> seq 0 n)
    ≡ₚ filter (fun x => 0 <= f x < Z.of_nat n) l) as Hall.
  { clear. induction n as [|n IH]; [cbn; by rewrite filter_none by lia|].
    rewrite seq_S, fmap_app, concat_app, IH. cbn [fmap list_fmap concat plus]. by rewrite app_nil_r, filter_lt_S. }
  rewrite Hall. clear Hall. induction Hf as [|x l Hx _ IH]; [done|]. by rewrite filter_cons_True, IH.
Qed.

(** The bucket follows the order of the identifiers. *)
Lemma bucket_mono i j : valid_id i -> valid_id j -> bucket i < bucket j -> id_lt i j.
Proof.
  intros [Hpi _ Hbi] [Hpj _ Hbj] Hlt. unfold id_lt, less, bucket, byte_at in *. revert Hlt. shifts.
  assert (forall p, valid_prefix p -> base36Value p = if p =? 0 then 0 else p - 87) as Hval.
  { intros p [->|Hp]; [done|]. unfold base36Value, between.
    rewrite (proj2 (Z.leb_gt p 57)), (proj2 (Z.leb_le 97 p)), (proj2 (Z.leb_le p 122)), (proj2 (Z.eqb_neq p 0)) by lia.
    by rewrite andb_false_r. }
  rewrite !Hval by done.
  assert (forall l, byte_list l -> 0 <= default 0 (l !! 0%nat) < 256) as Hd.
  { intros [|x l] Hb; [done|]. by apply Forall_cons in Hb as [? _]. }
  pose proof (Hd _ Hbi). pose proof (Hd _ Hbj). intros Hlt.
  destruct (Z.eqb_spec (id_prefix i) (id_prefix j)) as [E|E]; cbn [negb].
  - rewrite E in Hlt. apply Z.ltb_lt. unfold default in *.
    destruct (id_data i) as [|x l], (id_data j) as [|y m]; cbn [lookup list_lookup Compare] in *; unfold id in *.
    + lia.
    + lia.
    + exfalso. lia_div.
    + destruct (Z.ltb_spec x y); [lia|]. exfalso. lia_div.
  - destruct Hpi as [Hi|Hi], Hpj as [Hj|Hj]; rewrite ?Hi, ?Hj in *; cbn [Z.eqb] in *; try lia;
      repeat match goal with |- context [?a =? 0] => destruct (Z.eqb_spec a 0); try lia end; 
      repeat match goal with H : context [?a =? 0] |- _ => destruct (Z.eqb_spec a 0); try lia end;
      try (apply Z.ltb_lt); lia_div.
Qed.

Lemma bucket_range i : valid_id i -> 0 <= bucket i < 576.
Proof.
  intros [Hp _ Hb]. unfold bucket, byte_at. shifts.
  assert (0 <= default 0 (id_data i !! 0%nat) < 256) as Hd.
  { destruct (id_data i); [done|]. by apply Forall_cons in Hb as [? _]. }
  assert (0 <= base36Value (id_prefix i) < 36); [|lia_div].
  unfold base36Value, between. split_ifs; bool_to_prop; lia.
Qed.

Lemma concat_sorted {A} (R : relation A) (g : nat -> list A) a n :
  (forall k, StronglySorted R (g k)) -> (forall i j x y, (i < j)%nat -> x ∈ g i -> y ∈ g j -> R x y) ->
  StronglySorted R (concat (g <$> seq a n)).
Proof.
  intros Hs Hlt. revert a. induction n as [|n IH]; intros a; [constructor|]. cbn [seq fmap list_fmap concat].
  apply StronglySorted_app_2; [|done|apply IH]. intros x y Hx Hy.
  apply list_elem_of_In, in_concat in Hy as (l & Hl & Hy). apply list_elem_of_In in Hl, Hy.
  apply list_elem_of_fmap in Hl as (k & -> & Hk). apply elem_of_seq in Hk. eapply (Hlt a k); [lia|done..].
Qed.

(** The entries of a builder: each under its own identifier. *)
Definition keyed (e : ID * Info) : Prop := ContentID e.2 = e.1 /\ valid_id e.1.

Definition well_keyed (b : Builder) : Prop := map_Forall (fun i it => keyed (i, it)) b.

Section Buckets.
Context (entries : list (ID * Info)) (Hk : Forall keyed entries) (Hnd : NoDup entries.*1).

Lemma keyed_values : ContentID <$> entries.*2 = entries.*1.
Proof.
  clear Hnd. induction Hk as [|e l [He _] _ IH]; [done|]. cbn [fmap list_fmap]. rewrite He. f_equal.
  apply IH. by apply Forall_cons in Hk as [_ ?].
Qed.

Lemma values_valid it : it ∈ entries.*2 -> valid_id (ContentID it).
Proof.
  intros (e & -> & He)%list_elem_of_fmap. rewrite Forall_forall in Hk. destruct (Hk e He) as [-> ?]. done.
Qed.

Lemma values_NoDup : NoDup entries.*2.
Proof. apply (NoDup_fmap_1 ContentID). rewrite keyed_values. done. Qed.

Lemma info_less_trans x y z : valid_id (ContentID x) -> valid_id (ContentID y) -> valid_id (ContentID z) ->
  info_less x y = true -> info_less y z = true -> info_less x z = true.
Proof. unfold info_less. eauto using less_trans. Qed.

Lemma values_total x y : x ∈ entries.*2 -> y ∈ entries.*2 -> x = y \/ info_less x y = true \/ info_less y x = true.
Proof.
  intros Hx Hy. destruct (less_total (ContentID x) (ContentID y)) as [?|[E|?]]; auto using values_valid.
  left. eapply (NoDup_fmap_inj_elem ContentID entries.*2); [|done..]. by rewrite keyed_values.
Qed.

Lemma sort_values : StronglySorted (fun a b => info_less a b = true) (sort_by info_less entries.*2).
Proof.
  eapply (sort_by_sorted info_less (fun it => valid_id (ContentID it))); [by apply info_less_trans| |apply values_total|apply values_NoDup].
  apply Forall_forall. apply values_valid.
Qed.
End Buckets.

Lemma Forall_filter_sub {A} (P Q : A -> Prop) `{!forall x, Decision (Q x)} (l : list A) : Forall P l -> Forall P (filter Q l).
Proof. rewrite !Forall_forall. intros Hl x [_ Hx]%list_elem_of_filter. auto. Qed.

Lemma NoDup_fmap_filter {A B} (f : A -> B) (Q : A -> Prop) `{!forall x, Decision (Q x)} (l : list A) :
  NoDup (f <$> l) -> NoDup (f <$> filter Q l).
Proof.
  induction l as [|x l IH]; intros Hn; [constructor|]. cbn [fmap list_fmap] in Hn. apply NoDup_cons in Hn as [Hx Hl].
  rewrite filter_cons. case_decide; [|auto]. cbn [fmap list_fmap]. apply NoDup_cons. split; [|auto].
  intros (y & Ey & [_ Hy]%list_elem_of_filter)%list_elem_of_fmap. apply Hx. rewrite Ey. by apply list_elem_of_fmap_2.
Qed.

(** Two lists in strict order with the same elements are the same list. *)
Lemma strictly_sorted_unique (l m : list Info) : Forall (fun it => valid_id (ContentID it)) l ->
  StronglySorted (fun a b => info_less a b = true) l -> StronglySorted (fun a b => info_less a b = true) m -> l ≡ₚ m -> l = m.
Proof.
  intros Hv Hl Hm Hp. eapply StronglySorted_unique_strong; [|exact Hl|exact Hm|exact Hp].
  intros x y Hx Hy Hxy Hyx. rewrite <- Hp in Hy. rewrite Forall_forall in Hv.
  pose proof (info_less_trans x y x (Hv x Hx) (Hv y Hy) (Hv x Hx) Hxy Hyx) as Hxx.
  unfold info_less in Hxx. by rewrite less_irrefl in Hxx.
Qed.

Lemma sortedContents_perm entries : Forall keyed entries -> sortedContents entries ≡ₚ entries.*2.
Proof.
  intros Hk. unfold sortedContents.
  transitivity (concat ((fun k => snd <$> filter (fun e => bucket e.1 = Z.of_nat k) entries) <$> seq 0 576)).
  - generalize (seq 0 576). intros ks. induction ks as [|k ks IH]; [done|]. cbn [fmap list_fmap concat].
    by rewrite IH, sort_by_perm.
  - transitivity (snd <$> concat ((fun k => filter (fun e => bucket e.1 = Z.of_nat k) entries) <$> seq 0 576)).
    + generalize (seq 0 576). intros ks. induction ks as [|k ks IH]; [done|].
      cbn [fmap list_fmap concat]. by rewrite fmap_app, IH.
    + apply (fmap_Permutation snd), (partition_perm (fun e => bucket e.1)).
      eapply Forall_impl; [exact Hk|]. intros e [_ Hv]. by apply bucket_range.
Qed.

(** The bucket sort is a sort: whatever order the map yields its entries in,
    the result is the list sorted by identifier. *)
Lemma sortedContents_sort entries : Forall keyed entries -> NoDup entries.*1 ->
  sortedContents entries = sort_by info_less entries.*2.
Proof.
  intros Hk Hnd. apply strictly_sorted_unique.
  - rewrite (sortedContents_perm _ Hk). apply Forall_forall. intros it. by apply values_valid.
  - apply concat_sorted.
    + intros k. apply sort_values; [by apply Forall_filter_sub|by apply NoDup_fmap_filter].
    + intros i j x y Hij Hx Hy. rewrite sort_by_perm in Hx, Hy.
      apply list_elem_of_fmap in Hx as (e & -> & [He Hx]%list_elem_of_filter).
      apply list_elem_of_fmap in Hy as (f & -> & [Hf Hy]%list_elem_of_filter).
      rewrite Forall_forall in Hk. destruct (Hk e Hx) as [Ee Hve], (Hk f Hy) as [Ef Hvf].
      unfold info_less. rewrite Ee, Ef. apply bucket_mono; [done..|lia].
  - by apply sort_values.
  - by rewrite sortedContents_perm, sort_by_perm.
Qed.

(** ** The builder keeps the greatest entry of each content *)

(** [it] is the entry of [i] in [l] that wins: none of the others does against it. *)
Definition wins (l : list Info) (i : ID) (it : Info) : Prop :=
  it ∈ l /\ ContentID it = i /\ forall jt, jt ∈ l -> ContentID jt = i -> entry_le jt it.

Definition absent (l : list Info) (i : ID) : Prop := forall jt, jt ∈ l -> ContentID jt <> i.

(** The answer [r] for [i] is the winner, or nothing if there is no entry. *)
Definition answers (l : list Info) (i : ID) (r : option Info) : Prop :=
  match r with Some it => wins l i it | None => absent l i end.

Lemma Add_lookup (b : Builder) it i : Add b it !! i =
  if decide (ContentID it = i) then Some (match b !! i with
    | Some old => if contentInfoGreaterThanStruct it old then it else old | None => it end) else b !! i.
Proof.
  unfold Add. destruct (decide (ContentID it = i)) as [<-|Hne].
  - destruct (b !! ContentID it) as [old|] eqn:E; [|by rewrite lookup_insert_eq].
    destruct (contentInfoGreaterThanStruct it old); [by rewrite lookup_insert_eq|done].
  - destruct (b !! ContentID it); [destruct (contentInfoGreaterThanStruct it _)|]; rewrite ?lookup_insert_ne; done.
Qed.

Lemma answers_snoc l i r it : answers l i r ->
  answers (l ++ [it]) i (if decide (ContentID it = i) then Some (match r with
    | Some old => if contentInfoGreaterThanStruct it old then it else old | None => it end) else r).
Proof.
  intros Hr. destruct (decide (ContentID it = i)) as [Hi|Hne].
  - destruct r as [old|]; cbn in *.
    + destruct Hr as (Hin & Hid & Hmax). destruct (contentInfoGreaterThanStruct it old) eqn:E.
      * split_and!; [set_solver|done|]. intros jt [Hj|Hj%list_elem_of_singleton]%elem_of_app Hji; [|subst; apply entry_le_refl].
        eapply entry_le_trans; [by apply Hmax|by apply entry_le_total].
      * split_and!; [set_solver|done|]. intros jt [Hj|Hj%list_elem_of_singleton]%elem_of_app Hji; [by apply Hmax|by subst].
    + split_and!; [set_solver|done|]. intros jt [Hj|Hj%list_elem_of_singleton]%elem_of_app Hji; [by destruct (Hr jt)|].
      subst. apply entry_le_refl.
  - destruct r as [old|]; cbn in *.
    + destruct Hr as (Hin & Hid & Hmax). split_and!; [set_solver|done|].
      intros jt [Hj|Hj%list_elem_of_singleton]%elem_of_app Hji; [by apply Hmax|by subst].
    + intros jt [Hj|Hj%list_elem_of_singleton]%elem_of_app; [by apply Hr|by subst].
Qed.

Lemma builder_answers l i : answers l i (foldl Add ∅ l !! i).
Proof.
  induction l as [|it l IH] using rev_ind.
  - cbn. rewrite lookup_empty. intros jt Hj. by apply not_elem_of_nil in Hj.
  - rewrite foldl_snoc, Add_lookup. by apply answers_snoc.
Qed.

(** Its entries are under their own, well-formed identifiers. *)
Lemma builder_keyed l : Forall (fun it => valid_id (ContentID it)) l -> well_keyed (foldl Add ∅ l).
Proof.
  intros Hv i it Hi. pose proof (builder_answers l i) as Ha. rewrite Hi in Ha. destruct Ha as (Hin & Hid & _).
  split; [done|]. cbn. rewrite <- Hid. rewrite Forall_forall in Hv. auto.
Qed.

Lemma map_entries_keyed (b : Builder) : well_keyed b -> Forall keyed (map_to_list b).
Proof. intros Hb. apply Forall_forall. intros [i it] Hin%elem_of_map_to_list. by apply Hb. Qed.

(** The sorted contents of a builder. *)
Lemma contents_spec (b : Builder) : well_keyed b ->
  let l := sortedContents (map_to_list b) in
  StronglySorted id_lt (ContentID <$> l) /\ Forall (fun it => valid_id (ContentID it)) l
  /\ (forall it, it ∈ l <-> b !! ContentID it = Some it).
Proof.
  intros Hb. cbn zeta. pose proof (map_entries_keyed b Hb) as Hk. pose proof (NoDup_fst_map_to_list b) as Hnd.
  assert (forall it, it ∈ sortedContents (map_to_list b) <-> b !! ContentID it = Some it) as Hin.
  { intros it. rewrite sortedContents_perm by done. rewrite list_elem_of_fmap. split.
    - intros ([i jt] & -> & He%elem_of_map_to_list). pose proof (Hb i jt He) as [Hc _]. cbn in *. by rewrite Hc.
    - intros He. exists (ContentID it, it). split; [done|]. by apply elem_of_map_to_list. }
  split_and!; [| |done].
  - rewrite sortedContents_sort by done. eapply StronglySorted_fmap; [|by apply sort_values]. done.
  - apply Forall_forall. intros it Hit%Hin. by destruct (Hb _ _ Hit).
Qed.

Lemma find_contents (b : Builder) i : well_keyed b -> find_info (sortedContents (map_to_list b)) i = b !! i.
Proof.
  intros Hb. destruct (contents_spec b Hb) as (Hs & Hv & Hin).
  destruct (find_info (sortedContents (map_to_list b)) i) as [it|] eqn:E.
  - apply find_info_Some in E as [Hit <-]. symmetry. by apply Hin.
  - apply find_info_None in E. symmetry. apply eq_None_not_Some. intros [it Hit]. apply E.
    destruct (Hb i it Hit) as [Hc _]. cbn in Hc. subst i. apply list_elem_of_fmap_2. by apply Hin.
Qed.

(** ** Both formats keep the laws of the interface *)

Definition pack_index_holds (x : pack_index) (l : list Info) (k : Z) : Prop :=
  match x with
  | IndexOfV1 b => exists overhead, index_list l k /\ Forall (storable_v1 overhead) l
      /\ slen (v1_bytes l) < 2 ^ 32 /\ v1_opened l k overhead b
  | IndexOfV2 b => exists w d, storable_list_v2 l /\ v2_written l w d /\ slen d < 2 ^ 32
      /\ b2_keyLength w = k /\ v2_opened l w d b
  end.

#[export] Instance pack_index_laws : IndexLaws pack_index.
Proof.
  refine {| holds := pack_index_holds |}.
  - intros [b|b] l k; [by intros (o & Hl & _)|]. intros (w & d & Hl & Hw & _ & <- & _). by eapply v2_index_list.
  - intros [b|b] l k i; cbn [pack_index_holds GetInfo pack_index_Index].
    + intros (o & Hl & He & Hs & Hb) Hi Hk. destruct (GetInfoV1_spec l k o Hl He Hs b i Hb Hi Hk) as (b' & -> & Hb').
      exists (IndexOfV1 b'). split; [done|]. by exists o.
    + intros (w & d & Hl & Hw & Hs & <- & Hb) Hi Hk. exists (IndexOfV2 b).
      rewrite (GetInfoV2_spec l w d Hl Hw Hs b i Hb Hi Hk). split; [done|]. by exists w, d.
  - intros S E [b|b] l k r cb s; cbn [pack_index_holds Iterate pack_index_Index].
    + intros (o & Hl & He & Hs & Hb). destruct (IterateV1_spec l k o Hl He Hs b r cb s Hb) as (b' & Hb' & ->).
      exists (IndexOfV1 b'). split; [by exists o|done].
    + intros (w & d & Hl & Hw & Hs & <- & Hb). exists (IndexOfV2 b). split; [by exists w, d|].
      rewrite (IterateV2_spec l w d Hl Hw Hs b r cb s Hb). by destruct (feed _ _ _).
Defined.

(** The fields that [Open] reads first are those of format 2 as well. *)
Lemma v2_reads_as_v1 l w d suffix : storable_list_v2 l -> v2_written l w d -> slen d < 2 ^ 32 ->
  v1ReadHeader (d ++ suffix) = Ok (mkV1Header 2 (b2_keyLength w) (b2_entrySize w) (slen l)).
Proof.
  intros Hl Hw Hs. pose proof (v2_header_fields l w d Hl Hw Hs) as Hf. cbn zeta in Hf.
  pose proof (f_equal v2_keySize Hf) as H1. pose proof (f_equal v2_entrySize Hf) as H2. pose proof (f_equal v2_entryCount Hf) as H3.
  cbn [v2_keySize v2_entrySize v2_entryCount v2_opened_header] in H1, H2, H3.
  destruct (v2_file_split l w d Hw suffix) as [tl Hd]. unfold v1ReadHeader.
  rewrite (safeSlice_at _ 0 v1HeaderSize [] (take 8 (v2_header w)) (drop 8 (v2_header w) ++
    concat (row_bytes <$> (v2_row w <$> l)) ++ concat (v2_packs w) ++ concat (v2_format_infos w) ++ (extra_data l).2 ++ tl)); [|by rewrite Hd|done..].
  change (byte_at (take 8 (v2_header w)) 0) with (byte_at (v2_header w) 0).
  change (byte_at (take 8 (v2_header w)) 1) with (byte_at (v2_header w) 1).
  change (decodeBigEndianUint16 (drop 2 (take 8 (v2_header w)))) with (decodeBigEndianUint16 (drop 2 (v2_header w))).
  change (decodeBigEndianUint32 (drop 4 (take 8 (v2_header w)))) with (decodeBigEndianUint32 (drop 4 (v2_header w))).
  rewrite H1, H2, H3. change (byte_at (v2_header w) 0) with 2. cbn [v1_keySize v1_valueSize v1_entryCount].
  pose proof (v2_key_range l w d Hl Hw). pose proof (bp_size _ _ (vw_plan _ _ _ Hw)). pose proof (slen_nonneg l).
  by rewrite (proj2 (Z.leb_gt _ 1)), !(proj2 (Z.ltb_ge _ 0)) by lia.
Qed.

(** What a format can store. *)
Definition storable (version overhead : Z) (it : Info) : Prop :=
  (version = Version1 /\ storable_v1 (uint32 overhead) it) \/ (version = Version2 /\ storable_v2 it).

(** Sorted contents that were written open as an index that holds them,
    whatever follows them in the file. *)
Lemma Open_built version overhead l k d suffix :
  index_list l k -> Forall (storable version overhead) l -> buildSortedContents l version = Ok d -> slen d < 2 ^ 32 ->
  exists x, Open (d ++ suffix) overhead = Ok x /\ holds x l k.
Proof.
  intros Hl Hst Hd Hs. unfold buildSortedContents, Version1, Version2 in Hd. unfold Open.
  destruct (Z.eqb_spec version 1) as [->|H1].
  - assert (Forall (storable_v1 (uint32 overhead)) l) as He.
    { eapply Forall_impl; [exact Hst|]. by intros it [[_ ?]|[? _]]. }
    rewrite (buildV1_Ok l k (uint32 overhead) Hl He) in Hd. injection Hd as <-.
    destruct (v1_open_built l k (uint32 overhead) Hl He Hs suffix) as [-> Ho]. cbn [v1_version Z.eqb Version1 Pos.eqb].
    eexists. split; [done|]. by exists (uint32 overhead).
  - destruct (Z.eqb_spec version 2) as [->|H2]; [|done].
    assert (storable_list_v2 l) as Hl2.
    { split; [exact (il_sorted _ _ Hl)|exact (il_valid _ _ Hl)|]. eapply Forall_impl; [exact Hst|]. by intros it [[? _]|[_ ?]]. }
    destruct (buildV2_written l d Hd) as [w Hw].
    destruct (v2_open_built l w d Hl2 Hw Hs suffix) as (ps & fs & Ho & Hps & Hfs).
    rewrite (v2_reads_as_v1 l w d suffix Hl2 Hw Hs). cbn [v1_version Z.eqb Version1 Version2 Pos.eqb]. rewrite Ho.
    eexists. split; [done|]. exists w, d. split_and!; try done.
    + destruct (nonempty_elem l (v2_nonempty l w d Hw)) as [it Hin]. rewrite <- (vw_keys _ _ _ Hw it Hin).
      pose proof (il_key _ _ Hl) as Hk. rewrite Forall_forall in Hk. auto.
    + split; [done|by exists suffix|done|done].
Qed.
