(* ===== verification/IndexMergedFacts.v ===== *)
(** * The merged index and the round trip

    Merging indexes that hold lists answers with the winners of all of them,
    one at a time or in order; sharding loses nothing; and so what was added to
    a builder is what the merged reader of its shards returns. *)

From S2P Require Import Prelude GoStrings GoText IndexID IndexTable IndexV1 IndexV2 IndexV2Facts IndexBuild.
Open Scope go_scope.

(** ** Lookups *)

(** The better of two answers, the first staying unless it is beaten. *)
Definition better (a b : option Info) : option Info :=
  match b with
  | None => a
  | Some y => match a with None => Some y | Some x => if contentInfoGreaterThanStruct y x then Some y else Some x end
  end.

Lemma wins_app_l l m i it : wins l i it -> (forall jt, jt ∈ m -> ContentID jt = i -> entry_le jt it) -> wins (l ++ m) i it.
Proof.
  intros (Hin & Hid & Hmax) Hm. split_and!; [set_solver|done|].
  intros jt [?|?]%elem_of_app ?; auto.
Qed.

Lemma answers_app l m i a b : answers l i a -> answers m i b -> answers (l ++ m) i (better a b).
Proof.
  destruct a as [x|], b as [y|]; cbn.
  - intros Hx Hy. destruct (contentInfoGreaterThanStruct y x) eqn:E; cbn.
    + destruct Hx as (_ & _ & Hx), Hy as (Hin & Hid & Hy). split_and!; [set_solver|done|].
      intros jt [?|?]%elem_of_app ?; [|auto]. eapply entry_le_trans; [by apply Hx|by apply entry_le_total].
    + apply wins_app_l; [done|]. intros jt Hj Hji. destruct Hy as (_ & _ & Hy).
      eapply entry_le_trans; [by apply Hy|done].
  - intros Hx Hm. apply wins_app_l; [done|]. intros jt Hj Hji. by destruct (Hm jt Hj).
  - intros Hl (Hin & Hid & Hy). split_and!; [set_solver|done|].
    intros jt [Hj|?]%elem_of_app ?; [by destruct (Hl jt Hj)|auto].
  - intros Hl Hm jt [?|?]%elem_of_app; auto.
Qed.

Lemma answers_find l k i : index_list l k -> answers l i (find_info l i).
Proof.
  intros Hl. destruct (find_info l i) as [it|] eqn:E; cbn.
  - apply find_info_Some in E as [Hin Hid]. split_and!; [done..|]. intros jt Hj Hji.
    assert (jt = it) as ->; [|apply entry_le_refl].
    eapply (NoDup_fmap_inj_elem ContentID); [by eapply index_list_NoDup|done..|congruence].
  - intros jt Hj Hji. apply (find_info_None _ _ E). rewrite <- Hji. by apply list_elem_of_fmap_2.
Qed.

Section Merged.
Context {X : Type} `{IndexLaws X}.

Abbreviation all_hold m ls k := (Forall2 (fun x l => holds x l k) m ls).

Lemma merged_get_spec m ls k i best seen : all_hold m ls k -> valid_id i -> slen (id_key i) = k ->
  answers seen i best ->
  exists r m', merged_get i best m = (Ok r, m') /\ all_hold m' ls k /\ answers (seen ++ concat ls) i r.
Proof.
  intros Hm Hi Hk. revert best seen. induction Hm as [|x l m ls Hx Hm IH]; intros best seen Hs.
  { exists best, []. rewrite app_nil_r. done. }
  cbn [merged_get concat]. destruct (GetInfo_law x l k i Hx Hi Hk) as (x' & -> & Hx').
  assert (answers (seen ++ l) i (better best (find_info l i))) as Ha.
  { apply answers_app; [done|]. eapply answers_find, holds_list, Hx. }
  destruct (IH _ _ Ha) as (r & m' & Hr & Hm' & Har). rewrite <- app_assoc in Har.
  exists r, (x' :: m'). split; [|by split; [constructor|]].
  destruct (find_info l i) as [tmp|]; cbn [better] in Hr; [|by rewrite Hr]. destruct best as [bst|]; by rewrite Hr.
Qed.

(** A merged lookup answers with the winner of all the entries. *)
Lemma Merged_GetInfo_spec m ls k i : all_hold m ls k -> valid_id i -> slen (id_key i) = k ->
  exists r m', Merged_GetInfo m i = (Ok r, m') /\ all_hold m' ls k /\ answers (concat ls) i r.
Proof.
  intros Hm Hi Hk. apply (merged_get_spec m ls k i None []); [done..|].
  intros jt Hj. by apply not_elem_of_nil in Hj.
Qed.
End Merged.

(** ** Iteration *)

(** What the loop of [Merged.Iterate] passes on, given the items in the order
    they leave the heap. *)
Fixpoint compact (p : Info) (l : list Info) : list Info :=
  match l with
  | [] => [p]
  | x :: l => if decide (ContentID p = ContentID x)
              then compact (if contentInfoGreaterThanStruct x p then x else p) l
              else p :: compact x l
  end.

Definition compacted (l : list Info) : list Info := match l with [] => [] | x :: l => compact x l end.

(** The order in which items leave the heap. *)
Fixpoint popped (fuel : nat) (h : list nextInfo) : list Info :=
  match fuel with
  | O => []
  | S fuel => match heap_Pop h with None => [] | Some (x, h) => ni_it x :: popped fuel (push_next h (ni_ch x)) end
  end.

Definition items (n : nextInfo) : list Info := ni_it n :: ni_ch n.

Lemma heap_Pop_perm h x h' : heap_Pop h = Some (x, h') -> h ≡ₚ x :: h'.
Proof.
  revert x h'. induction h as [|y h IH]; intros x h'; cbn; [done|].
  destruct (heap_Pop h) as [[z hz]|] eqn:E.
  - destruct (next_Less (ni_it y) (ni_it z)); intros [= <- <-]; [done|]. rewrite (IH z hz eq_refl). constructor.
  - by intros [= <- <-].
Qed.

Lemma heap_Pop_None h : heap_Pop h = None -> h = [].
Proof. destruct h as [|x h]; [done|]. cbn. destruct (heap_Pop h) as [[? ?]|]; [|done]. by destruct (next_Less _ _). Qed.

Lemma push_next_items h ch : push_next h ch ≫= items ≡ₚ (h ≫= items) ++ ch.
Proof.
  destruct ch as [|it ch]; cbn [push_next]; [by rewrite app_nil_r|]. unfold heap_Push.
  rewrite bind_app. cbn. by rewrite app_nil_r.
Qed.

Lemma heap_Pop_items h x h' : heap_Pop h = Some (x, h') ->
  h ≫= items ≡ₚ ni_it x :: (push_next h' (ni_ch x) ≫= items).
Proof.
  intros Hp%heap_Pop_perm. rewrite push_next_items, (bind_Permutation items _ _ Hp). cbn.
  constructor. by rewrite (Permutation_app_comm (ni_ch x)).
Qed.

(** The loop does what passing on the compacted items does. *)
Lemma merge_loop_feed {S E} (cb : callback S E) n h p s :
  (length (h ≫= items) < n)%nat ->
  merge_loop cb n h p s
  = feed cb (match p with None => compacted (popped n h) | Some q => compact q (popped n h) end) s.
Proof.
  revert h p s. induction n as [|n IH]; intros h p s Hn; [lia|]. cbn [merge_loop popped].
  destruct (heap_Pop h) as [[x h']|] eqn:Ep.
  - assert (length (push_next h' (ni_ch x) ≫= items) < n)%nat as Hn'.
    { apply heap_Pop_items, Permutation_length in Ep. cbn [length] in Ep. lia. }
    destruct p as [p|]; cbn [compact compacted]; [|by rewrite IH].
    destruct (decide (ContentID p = ContentID (ni_it x))) as [Hd|Hd].
    + rewrite bool_decide_eq_true_2 by done. cbn [negb]. by rewrite IH.
    + rewrite bool_decide_eq_false_2 by done. cbn [negb feed]. destruct (cb p s) as [[e|] s']; [done|]. by rewrite IH.
  - destruct p as [p|]; [|done]. cbn. by destruct (cb p s) as [[e|] s'].
Qed.

(** Items leave the heap in the order of their identifiers. *)
Definition id_le (a b : Info) : Prop := less (ContentID b) (ContentID a) = false.

Lemma next_Less_le a b : valid_id (ContentID a) -> valid_id (ContentID b) -> next_Less a b = true -> id_le a b.
Proof.
  intros Ha Hb. unfold next_Less, id_le. destruct (bool_decide_reflect (ContentID a = ContentID b)) as [->|Hne]; cbn [negb].
  - intros _. apply less_irrefl.
  - rewrite !less_String by done. apply slt_asym.
Qed.

Lemma next_Less_total a b : valid_id (ContentID a) -> valid_id (ContentID b) -> next_Less a b = false -> next_Less b a = true.
Proof.
  intros Ha Hb. unfold next_Less. destruct (bool_decide_reflect (ContentID a = ContentID b)) as [E|Hne]; cbn [negb].
  - rewrite bool_decide_eq_true_2 by done. cbn [negb]. intros H%negb_false_iff. apply negb_true_iff. by apply entry_le_total.
  - rewrite bool_decide_eq_false_2 by congruence. cbn [negb]. intros Hl.
    destruct (less_total (ContentID a) (ContentID b)) as [?|[?|?]]; congruence.
Qed.

Lemma id_le_trans a b c : valid_id (ContentID a) -> valid_id (ContentID b) -> valid_id (ContentID c) ->
  id_le a b -> id_le b c -> id_le a c.
Proof.
  intros Ha Hb Hc. unfold id_le. intros H1 H2. apply not_true_is_false. intros H3.
  destruct (less_total (ContentID a) (ContentID b)) as [Hl|[Hl|Hl]]; [done..| | |congruence].
  - rewrite (less_trans (ContentID c) (ContentID a) (ContentID b)) in H2; done.
  - rewrite Hl in H3. congruence.
Qed.

Lemma heap_Pop_min h x h' : Forall (fun n => valid_id (ContentID (ni_it n))) h -> heap_Pop h = Some (x, h') ->
  Forall (fun n => id_le (ni_it x) (ni_it n)) h'.
Proof.
  intros Hv. revert x h'. induction Hv as [|y h Hy Hv IH]; intros x h'; cbn; [done|].
  destruct (heap_Pop h) as [[z hz]|] eqn:E.
  - specialize (IH z hz eq_refl). apply heap_Pop_perm in E.
    assert (Forall (fun n => valid_id (ContentID (ni_it n))) (z :: hz)) as [Hz Hvz]%Forall_cons by by rewrite <- E.
    destruct (next_Less (ni_it y) (ni_it z)) eqn:El; intros [= <- <-].
    + rewrite E. apply next_Less_le in El; [|done..]. constructor; [done|].
      rewrite Forall_forall in *. intros n Hn. eapply (id_le_trans _ (ni_it z)); eauto.
    + constructor; [|done]. by apply next_Less_le, next_Less_total.
  - intros [= <- <-]. apply heap_Pop_None in E as ->. constructor.
Qed.

(** The channels of a heap: well-formed identifiers, each behind smaller ones. *)
Definition channel_ok (n : nextInfo) : Prop :=
  Forall (fun it => valid_id (ContentID it)) (items n) /\ StronglySorted id_le (items n).

Lemma push_next_ok h x : Forall channel_ok h -> channel_ok x -> Forall channel_ok (push_next h (ni_ch x)).
Proof.
  intros Hh [Hv Hs]. unfold items in *. destruct (ni_ch x) as [|it ch]; [done|]. cbn. apply Forall_app. split; [done|].
  constructor; [|constructor]. unfold channel_ok, items. cbn.
  apply Forall_cons in Hv as [_ Hv]. apply StronglySorted_cons in Hs as [_ Hs]. done.
Qed.

Lemma popped_spec n h : (length (h ≫= items) < n)%nat -> Forall channel_ok h ->
  popped n h ≡ₚ h ≫= items /\ StronglySorted id_le (popped n h).
Proof.
  revert h. induction n as [|n IH]; intros h Hn Hok; [lia|]. cbn [popped].
  destruct (heap_Pop h) as [[x h']|] eqn:Ep; [|apply heap_Pop_None in Ep as ->; by split; [|constructor]].
  pose proof (heap_Pop_items _ _ _ Ep) as Hit. pose proof (heap_Pop_perm _ _ _ Ep) as Hpm.
  assert (Forall channel_ok (x :: h')) as [Hx Hh']%Forall_cons by by rewrite <- Hpm.
  pose proof (push_next_ok h' x Hh' Hx) as Hok'.
  destruct (IH (push_next h' (ni_ch x))) as [Hp Hs]; [|done|].
  { apply Permutation_length in Hit. cbn [length] in Hit. lia. }
  split; [by rewrite Hp, <- Hit|]. constructor; [done|]. rewrite Hp, push_next_items. apply Forall_app. split.
  - assert (Forall (fun m => valid_id (ContentID (ni_it m))) h) as Hv.
    { eapply Forall_impl; [exact Hok|]. intros m [[Hm _]%Forall_cons _]. done. }
    pose proof (heap_Pop_min _ _ _ Hv Ep) as Hmin. apply Forall_forall. intros it Hin.
    apply list_elem_of_bind in Hin as (m & Hin & Hm).
    rewrite Forall_forall in Hmin, Hh'. destruct (Hh' m Hm) as [Hvm Hsm]. destruct Hx as [[Hvx _]%Forall_cons _].
    unfold items in *. apply StronglySorted_cons in Hsm as [Hsm _]. apply Forall_cons in Hvm as [Hv0 Hvm].
    rewrite Forall_forall in Hsm, Hvm. apply elem_of_cons in Hin as [->|Hin]; [by apply Hmin|].
    eapply (id_le_trans _ (ni_it m)); eauto.
  - destruct Hx as [_ Hsx]. unfold items in Hsx. by apply StronglySorted_cons in Hsx as [? _].
Qed.

(** ** Compacting a sorted sequence *)

Lemma id_le_lt a b : valid_id (ContentID a) -> valid_id (ContentID b) -> id_le a b -> ContentID a <> ContentID b ->
  id_lt (ContentID a) (ContentID b).
Proof.
  intros Ha Hb Hle Hne. destruct (less_total (ContentID a) (ContentID b)) as [?|[?|?]]; try done.
  unfold id_le in Hle. congruence.
Qed.

Lemma id_lt_le_trans a b c : valid_id (ContentID a) -> valid_id (ContentID b) -> valid_id (ContentID c) ->
  id_lt (ContentID a) (ContentID b) -> id_le b c -> id_lt (ContentID a) (ContentID c).
Proof.
  intros Ha Hb Hc Hlt Hle. destruct (decide (ContentID b = ContentID c)) as [<-|Hne]; [done|].
  apply (less_trans (ContentID a) (ContentID b) (ContentID c)); [done|done|done|exact Hlt|by apply id_le_lt].
Qed.

(** One entry per identifier: the winner, in order, and none is left out. *)
Record winners (l out : list Info) : Prop := {
  wn_sorted : StronglySorted id_lt (ContentID <$> out);
  wn_wins : forall o, o ∈ out -> wins l (ContentID o) o;
  wn_all : forall y, y ∈ l -> exists o, o ∈ out /\ ContentID o = ContentID y
}.

(** Of two entries for one content, the one that is kept stands for both. *)
Lemma winners_merge p x l out : ContentID p = ContentID x ->
  let q := if contentInfoGreaterThanStruct x p then x else p in
  winners (q :: l) out -> winners (p :: x :: l) out.
Proof.
  intros He q [Hs Hw Ha].
  assert (ContentID q = ContentID x /\ q ∈ [p; x] /\ entry_le p q /\ entry_le x q) as (Hq & Hin & Hpq & Hxq).
  { unfold q. destruct (contentInfoGreaterThanStruct x p) eqn:E.
    - split_and!; [done|set_solver|by apply entry_le_total|apply entry_le_refl].
    - split_and!; [done|set_solver|apply entry_le_refl|done]. }
  split; [done|..].
  - intros o Ho. destruct (Hw o Ho) as (Hol & _ & Hmax). split_and!; [set_solver|done|].
    assert (ContentID o = ContentID q -> entry_le q o) as Hqo by (intros E; apply Hmax; [by left|done]).
    intros jt Hj Hji. apply elem_of_cons in Hj as [->|Hj]; [|apply elem_of_cons in Hj as [->|Hj]].
    + eapply entry_le_trans; [exact Hpq|]. apply Hqo. congruence.
    + eapply entry_le_trans; [exact Hxq|]. apply Hqo. congruence.
    + apply Hmax; [by right|done].
  - intros y Hy. apply elem_of_cons in Hy as [->|Hy]; [|apply elem_of_cons in Hy as [->|Hy]].
    + destruct (Ha q) as (o & Ho & Hoi); [by left|]. exists o. split; [done|congruence].
    + destruct (Ha q) as (o & Ho & Hoi); [by left|]. exists o. split; [done|congruence].
    + apply Ha. by right.
Qed.

(** An entry smaller than all others stands for itself. *)
Lemma winners_cons p l out : (forall y, y ∈ l -> id_lt (ContentID p) (ContentID y)) -> winners l out -> winners (p :: l) (p :: out).
Proof.
  intros Hlt [Hs Hw Ha].
  assert (forall y, y ∈ l -> ContentID y <> ContentID p) as Hne.
  { intros y Hy E. specialize (Hlt y Hy). rewrite E in Hlt. by apply id_lt_irrefl in Hlt. }
  split.
  - cbn [fmap list_fmap]. constructor; [done|]. apply Forall_forall. intros i (o & -> & Ho)%list_elem_of_fmap.
    apply Hlt. by destruct (Hw o Ho).
  - intros o [->|Ho]%elem_of_cons.
    + split_and!; [by left|done|]. intros jt [->|Hj]%elem_of_cons Hji; [apply entry_le_refl|]. by destruct (Hne jt Hj).
    + destruct (Hw o Ho) as (Hol & _ & Hmax). split_and!; [by right|done|].
      intros jt [->|Hj]%elem_of_cons Hji; [|by apply Hmax]. by destruct (Hne o Hol).
  - intros y [->|Hy]%elem_of_cons; [exists p; split; [by left|done]|].
    destruct (Ha y Hy) as (o & Ho & Hoi). exists o. split; [by right|done].
Qed.

Lemma compact_winners p l : Forall (fun it => valid_id (ContentID it)) (p :: l) -> StronglySorted id_le (p :: l) ->
  winners (p :: l) (compact p l).
Proof.
  revert p. induction l as [|x l IH]; intros p Hv Hs; cbn [compact].
  { apply (winners_cons p []); [intros y Hy; by apply not_elem_of_nil in Hy|].
    split; [constructor|..]; intros y Hy; by apply not_elem_of_nil in Hy. }
  apply Forall_cons in Hv as [Hp Hv]. apply StronglySorted_cons in Hs as [Hpl Hs].
  destruct (decide (ContentID p = ContentID x)) as [He|Hne].
  - apply winners_merge; [done|]. set (q := if contentInfoGreaterThanStruct x p then x else p).
    assert (ContentID q = ContentID x) as Hq by (unfold q; by destruct (contentInfoGreaterThanStruct x p)).
    apply Forall_cons in Hv as [Hx Hv]. apply StronglySorted_cons in Hs as [Hxl Hs].
    apply IH; constructor; try done; [by rewrite Hq|].
    eapply Forall_impl; [exact Hxl|]. intros y. unfold id_le. by rewrite Hq.
  - apply winners_cons; [|by apply IH]. pose proof Hv as [Hx _]%Forall_cons.
    assert (id_lt (ContentID p) (ContentID x)) as Hlt by (apply Forall_cons in Hpl as [? _]; by apply id_le_lt).
    intros y [->|Hy]%elem_of_cons; [done|]. apply StronglySorted_cons in Hs as [Hxl _].
    rewrite Forall_forall in Hxl, Hv. eapply id_lt_le_trans; eauto. apply Hv. by right.
Qed.

(** ** Iterating the merged index *)

Lemma feed_collect (l s : list Info) : feed (E := unit) (fun i s => (None, s ++ [i])) l s = (Ok tt, s ++ l).
Proof. revert s. induction l as [|x l IH]; intros s; cbn; [by rewrite app_nil_r|]. by rewrite IH, <- app_assoc. Qed.

Lemma initial_heap (chs : list (list Info)) h :
  foldl push_next h chs ≫= items ≡ₚ (h ≫= items) ++ concat chs.
Proof.
  revert h. induction chs as [|c chs IH]; intros h; cbn [foldl concat]; [by rewrite app_nil_r|].
  by rewrite IH, push_next_items, app_assoc.
Qed.

Lemma initial_heap_ok (chs : list (list Info)) h : Forall channel_ok h ->
  Forall (fun c => Forall (fun it => valid_id (ContentID it)) c /\ StronglySorted id_le c) chs ->
  Forall channel_ok (foldl push_next h chs).
Proof.
  intros Hh Hc. revert h Hh. induction Hc as [|c chs Hc _ IH]; intros h Hh; [done|]. cbn [foldl]. apply IH.
  destruct c as [|it c]; [done|]. cbn. apply Forall_app. split; [done|]. by constructor.
Qed.

Section MergedIterate.
Context {X : Type} `{IndexLaws X}.

Abbreviation all_hold m ls k := (Forall2 (fun x l => holds x l k) m ls).

Definition in_range (r : IDRange) (l : list Info) : list Info :=
  filter (fun it => IDRange_Contains r (ContentID it) = true) l.

Lemma channels r m ls k : all_hold m ls k ->
  (iterateChan r <$> m).*1 = in_range r <$> ls /\ all_hold (iterateChan r <$> m).*2 ls k.
Proof.
  induction 1 as [|x l m ls Hx _ [IH1 IH2]]; [done|]. cbn [fmap list_fmap].
  unfold iterateChan at 1 3. destruct (Iterate_law (E := unit) x l k r (fun i s => (None, s ++ [i])) [] Hx) as (x' & Hx' & ->).
  rewrite feed_collect. cbn [fst snd app]. split; [by f_equal|by constructor].
Qed.

Lemma sorted_le (l : list Info) : Forall (fun it => valid_id (ContentID it)) l -> StronglySorted id_lt (ContentID <$> l) ->
  StronglySorted id_le l.
Proof.
  induction l as [|x l IH]; intros Hv Hs; [constructor|]. cbn [fmap list_fmap] in Hs.
  apply Forall_cons in Hv as [Hx Hv]. apply StronglySorted_cons in Hs as [Hlt Hs]. constructor; [by apply IH|].
  rewrite Forall_fmap in Hlt. rewrite Forall_forall in *. intros y Hy. specialize (Hlt y Hy). unfold compose, id_lt in Hlt.
  unfold id_le. rewrite less_String in * by auto. by apply slt_asym.
Qed.

Lemma in_range_ok r l k : index_list l k ->
  Forall (fun it => valid_id (ContentID it)) (in_range r l) /\ StronglySorted id_le (in_range r l).
Proof.
  intros [Hs Hv _]. split; [by apply Forall_filter_sub|]. apply sorted_filter. by apply sorted_le.
Qed.

Lemma in_range_concat r ls : in_range r (concat ls) = concat (in_range r <$> ls).
Proof. induction ls as [|l ls IH]; [done|]. cbn [concat fmap list_fmap]. rewrite <- IH. apply filter_app. Qed.

Lemma winners_perm l m out : l ≡ₚ m -> winners l out -> winners m out.
Proof.
  intros Hp [H1 H2 H3]. split; [done|..].
  - intros o Ho. destruct (H2 o Ho) as (Hi & Hd & Hx). split_and!; [by rewrite <- Hp|done|].
    intros jt. rewrite <- Hp. apply Hx.
  - intros y. rewrite <- Hp. apply H3.
Qed.

Lemma compacted_winners l : Forall (fun it => valid_id (ContentID it)) l -> StronglySorted id_le l -> winners l (compacted l).
Proof.
  destruct l as [|p l]; [|by apply compact_winners].
  split; [constructor|..]; intros y Hy; by apply not_elem_of_nil in Hy.
Qed.

(** The merged iteration passes on, in order, the winner of every content of the range. *)
Lemma Merged_Iterate_spec {S E} m ls k r (cb : callback S E) s : all_hold m ls k ->
  exists out m', Merged_Iterate m r cb s = (let y := feed cb out s in (y.1, m', y.2)) /\ all_hold m' ls k
    /\ winners (in_range r (concat ls)) out.
Proof.
  intros Hm. destruct (channels r m ls k Hm) as [Hc Hm']. unfold Merged_Iterate.
  assert (foldl (fun h c => push_next h c.1) [] (iterateChan r <$> m) = foldl push_next [] (iterateChan r <$> m).*1) as ->.
  { generalize (iterateChan r <$> m) (@nil nextInfo). intros cs. induction cs as [|c cs IH]; intros h; [done|]. apply IH. }
  rewrite Hc. set (n := Datatypes.S _). set (h := foldl push_next [] (in_range r <$> ls)).
  pose proof (initial_heap (in_range r <$> ls) []) as Hh. fold h in Hh. cbn in Hh.
  assert (length (h ≫= items) < n)%nat as Hn by (rewrite (Permutation_length Hh); unfold n; lia).
  assert (Forall channel_ok h) as Hok.
  { apply initial_heap_ok; [constructor|]. rewrite Forall_fmap. clear - Hm. induction Hm as [|x l m ls Hx _ IH]; [constructor|].
    constructor; [|done]. unfold compose. eapply in_range_ok, holds_list, Hx. }
  destruct (popped_spec n h Hn Hok) as [Hp Hs].
  assert (Forall (fun it => valid_id (ContentID it)) (popped n h)) as Hv.
  { rewrite Hp. apply Forall_forall. intros it (c & Hit & Hc')%list_elem_of_bind. rewrite Forall_forall in Hok.
    destruct (Hok c Hc') as [Hvc _]. rewrite Forall_forall in Hvc. auto. }
  exists (compacted (popped n h)), (iterateChan r <$> m).*2. rewrite merge_loop_feed by done.
  split; [by destruct (feed _ _ _)|]. split; [done|].
  apply (winners_perm (popped n h)); [by rewrite Hp, Hh, in_range_concat|by apply compacted_winners].
Qed.
End MergedIterate.
