(* ===== verification/IndexRoundTrip.v ===== *)
(** * From additions to lookups

    Shards partition a builder, every shard is written, opened and merged, and
    a lookup returns the winner of everything that was added.  The one-use
    builder, over any ordered tree, writes what the builder writes. *)

From S2P Require Import Prelude GoStrings GoText IndexID IndexTable IndexV1 IndexV2 IndexV2Facts IndexBuild IndexMergedFacts.
Open Scope go_scope.

(** ** Shards *)

Lemma elem_of_concat {A} (x : A) (ls : list (list A)) : x ∈ concat ls <-> exists l, l ∈ ls /\ x ∈ l.
Proof.
  induction ls as [|l ls IH]; cbn.
  - split; [intros Hx; by apply not_elem_of_nil in Hx|intros (l & Hl & _); by apply not_elem_of_nil in Hl].
  - rewrite elem_of_app, IH. split.
    + intros [?|(m & Hm & ?)]; [exists l; split; [by left|done]|exists m; split; [by right|done]].
    + intros (m & [->|Hm]%elem_of_cons & ?); [by left|right; eauto].
Qed.

Lemma fnv32a_nonneg s : 0 <= fnv32a s.
Proof.
  unfold fnv32a. assert (forall l h, 0 <= h -> 0 <= foldl (fun h c => (Z.lxor h c * 16777619) `mod` 2 ^ 32) h l) as Hf.
  { induction l as [|c l IH]; intros h Hh; [done|]. cbn [foldl]. apply IH. lia_div. }
  by apply Hf.
Qed.

Lemma shard_of_range n i : 1 < n < 2 ^ 32 -> 0 <= shard_of n i < n.
Proof.
  intros Hn. unfold shard_of, uint32. rewrite (Z.mod_small n) by lia. apply Z.mod_pos_bound. lia.
Qed.

(** The number of shards fits its 32-bit conversion. *)
Definition shards_fit (b : Builder) (maxShardSize : Z) : Prop := numShards (Z.of_nat (size b)) maxShardSize < 2 ^ 32.

(** Every entry is in a shard, and a shard holds only entries. *)
Lemma shard_lookup b n i it : shards_fit b n ->
  b !! i = Some it <-> exists s, s ∈ shard b n /\ s !! i = Some it.
Proof.
  intros Hf. unfold shard, shards_fit in *. destruct (Z.leb_spec (numShards (Z.of_nat (size b)) n) 1).
  - destruct (Z.eqb_spec (Z.of_nat (size b)) 0) as [Hz|Hz].
    + assert (b = ∅) as -> by (apply map_size_empty_inv; lia). rewrite lookup_empty. split; [done|].
      intros (s & Hs & _). by apply not_elem_of_nil in Hs.
    + split; [intros; exists b; split; [by left|done]|]. intros (s & ->%list_elem_of_singleton & ?). done.
  - set (m := numShards _ n) in *. split.
    + intros Hi. exists (filter (fun e => shard_of m e.1 = shard_of m i) b).
      assert (filter (fun e : ID * Info => shard_of m e.1 = shard_of m i) b !! i = Some it) as Hl.
      { by apply map_lookup_filter_Some. }
      split; [|done]. apply list_elem_of_filter. split; [intros E; by rewrite E, lookup_empty in Hl|].
      pose proof (shard_of_range m i ltac:(lia)). apply list_elem_of_fmap.
      exists (Z.to_nat (shard_of m i)). rewrite Z2Nat.id by lia. split; [done|]. apply elem_of_seq. lia.
    + intros (s & [_ (k & -> & _)%list_elem_of_fmap]%list_elem_of_filter & Hl).
      by apply map_lookup_filter_Some in Hl as [? _].
Qed.

(** No identifier is in two shards. *)
Lemma shard_disjoint b n p q s t i : shard b n !! p = Some s -> shard b n !! q = Some t ->
  is_Some (s !! i) -> is_Some (t !! i) -> p = q.
Proof.
  unfold shard. destruct (numShards (Z.of_nat (size b)) n <=? 1).
  { destruct (Z.of_nat (size b) =? 0); [done|]. intros [-> _]%list_lookup_singleton_Some [-> _]%list_lookup_singleton_Some. done. }
  set (m := numShards _ n). set (ss := (fun k => filter (fun e : ID * Info => shard_of m e.1 = Z.of_nat k) b) <$> seq 0 (Z.to_nat m)).
  intros Hp Hq [x Hx] [y Hy].
  assert (NoDup (filter (fun r : Builder => r <> ∅) ss)) as Hnd.
  { clear. unfold ss. generalize 0%nat (Z.to_nat m). intros a c. revert a. induction c as [|c IH]; intros a; [constructor|].
    cbn [seq fmap list_fmap]. rewrite filter_cons. case_decide as Hne; [|apply IH]. constructor; [|apply IH].
    intros [_ (k & Hk & Hin)%list_elem_of_fmap]%list_elem_of_filter. apply elem_of_seq in Hin.
    apply map_choose in Hne as (j & z & Hj). pose proof Hj as Hj'. rewrite Hk in Hj'.
    apply map_lookup_filter_Some in Hj as [_ Hj], Hj' as [_ Hj']. cbn in *. lia. }
  assert (s = t) as <-; [|by eapply NoDup_lookup].
  apply list_elem_of_lookup_2 in Hp, Hq. apply list_elem_of_filter in Hp as [_ Hp], Hq as [_ Hq].
  apply list_elem_of_fmap in Hp as (k & -> & _), Hq as (k' & -> & _).
  apply map_lookup_filter_Some in Hx as [_ Hx], Hy as [_ Hy]. cbn in Hx, Hy.
  assert (k = k') as -> by lia. done.
Qed.

(** ** What the writers accept *)

Lemma numbered_keys {K} `{Countable K} conv (f : Info -> K) l :
  dom (foldl (fun m v => number_step conv m (f v)) ∅ l) = list_to_set (C := gset K) (f <$> l).
Proof.
  induction l as [|it l IH] using rev_ind; [apply dom_empty_L|]. rewrite foldl_snoc, fmap_app, list_to_set_app_L.
  cbn. rewrite union_empty_r_L, <- IH. unfold number_step. destruct (_ !! f it) eqn:E; [|rewrite dom_insert_L; set_solver].
  apply elem_of_dom_2 in E. set_solver.
Qed.

Lemma max_lengths_below l P O F : 0 < P -> 0 < O -> 0 < F ->
  (forall it, it ∈ l -> PackedLength it < P /\ OriginalLength it < O /\ PackOffset it < F) ->
  (maxContentLengths l).1.1 < P /\ (maxContentLengths l).1.2 < O /\ (maxContentLengths l).2 < F.
Proof.
  intros HP HO HF Hl. unfold maxContentLengths. induction l as [|x l IH] using rev_ind; [done|].
  rewrite foldl_snoc. destruct (foldl _ (0, 0, 0) l) as [[p o] f]. cbn [fst snd] in *.
  destruct (Hl x) as (?&?&?); [set_solver|]. destruct IH as (?&?&?); [intros; apply Hl; set_solver|]. lia.
Qed.

(** The limits format 2 puts on a whole list. *)
Record fits_v2 (l : list Info) : Prop := {
  fv2_formats : Z.of_nat (size (list_to_set (C := gset _) (indexV2FormatInfoFromInfo <$> l))) <= 255;
  fv2_packs : Z.of_nat (size (list_to_set (C := gset _) (PackBlobID <$> l))) <= 2 ^ 24;
  fv2_each : forall it, it ∈ l -> PackedLength it < 2 ^ 28 /\ OriginalLength it < 2 ^ 28 /\ PackOffset it < 2 ^ 30
}.

Lemma fits_v2_sub l m : (forall it, it ∈ m -> it ∈ l) -> fits_v2 l -> fits_v2 m.
Proof.
  intros Hsub [Hf Hp He]. split.
  - etrans; [|exact Hf]. apply inj_le, subseteq_size. intros x. rewrite !elem_of_list_to_set.
    intros (it & -> & Hit)%list_elem_of_fmap. apply list_elem_of_fmap_2. auto.
  - etrans; [|exact Hp]. apply inj_le, subseteq_size. intros x. rewrite !elem_of_list_to_set.
    intros (it & -> & Hit)%list_elem_of_fmap. apply list_elem_of_fmap_2. auto.
  - intros it Hit. apply He. auto.
Qed.

Lemma newIndexBuilderV2_accepts l : fits_v2 l -> exists b, newIndexBuilderV2 l = Ok b.
Proof.
  intros [Hf Hp He]. unfold newIndexBuilderV2.
  assert (Z.of_nat (size (buildUniqueFormatToIndexMap l)) <= 255) as Hnf.
  { rewrite <- size_dom. unfold buildUniqueFormatToIndexMap. by rewrite numbered_keys. }
  assert (Z.of_nat (size (buildPackIDToIndexMap l)) <= 2 ^ 24) as Hnp.
  { rewrite <- size_dom. unfold buildPackIDToIndexMap. by rewrite numbered_keys. }
  destruct (max_lengths_below l (2 ^ 28) (2 ^ 28) (2 ^ 30)) as (H1 & H2 & H3); [done..|].
  unfold v2MaxFormatCount, invalidFormatVersion, v2MaxUniquePackIDCount, v2MaxContentLength, v2MaxPackOffset.
  change (Z.shiftl 1 24) with (2 ^ 24). change (Z.shiftl 1 28) with (2 ^ 28). change (Z.shiftl 1 30) with (2 ^ 30).
  rewrite !(proj2 (Z.ltb_ge _ _)) by done.
  destruct (maxContentLengths l) as [[p o] f]. cbn [fst snd] in *.
  rewrite !(proj2 (Z.leb_gt _ _)) by done. by eexists.
Qed.

(** A version, with its limits on a whole list. *)
Definition fits (version : Z) (l : list Info) : Prop := version = Version1 \/ fits_v2 l.

Lemma buildSortedContents_accepts version overhead l k :
  index_list l k -> l <> [] -> Forall (storable version overhead) l -> fits version l ->
  exists d, buildSortedContents l version = Ok d.
Proof.
  intros Hl Hne Hst Hfit. unfold buildSortedContents.
  assert (version = Version1 \/ version = Version2) as [->| ->].
  { destruct (nonempty_elem l Hne) as [it Hin]. rewrite Forall_forall in Hst. destruct (Hst it Hin) as [[? _]|[? _]]; auto. }
  - cbn. exists (v1_bytes l). apply (buildV1_Ok l k (uint32 overhead) Hl).
    eapply Forall_impl; [exact Hst|]. by intros it [[_ ?]|[? _]].
  - cbn. destruct Hfit as [?|Hfit]; [done|]. destruct (newIndexBuilderV2_accepts l Hfit) as [b Hb].
    destruct (nonempty_elem l Hne) as [it Hin]. pose proof (il_key _ _ Hl) as Hk. pose proof (il_valid _ _ Hl) as Hv.
    eapply (buildV2_accepts l b k Hb); [|done| |done].
    + eapply Forall_impl; [exact Hst|]. by intros x [[? _]|[_ ?]].
    + rewrite Forall_forall in Hk, Hv. rewrite <- (Hk it Hin), slen_key. pose proof (valid_id_len _ (Hv it Hin)). lia.
Qed.

(** ** The shards of a builder, written and opened *)

(** The random suffix is there when it is asked for. *)
Definition rand_ready (stable : bool) (rand : nat -> option (list Z)) : Prop := stable = true \/ forall n, is_Some (rand n).

Lemma build_shards_total {A} (build : A -> result index_error (list Z)) stable rand shards :
  rand_ready stable rand -> (forall s, s ∈ shards -> exists d, build s = Ok d) ->
  exists ds, build_shards_loop build stable rand shards = Ok ds.
Proof.
  intros Hr. induction shards as [|s shards IH]; intros Hb; [by eexists|]. cbn [build_shards_loop].
  destruct (Hb s) as [d ->]; [by left|]. destruct IH as [ds Hds]; [intros; apply Hb; by right|].
  destruct Hr as [->|Hr].
  - rewrite Hds. by eexists.
  - destruct stable; [rewrite Hds; by eexists|]. destruct (Hr (length shards)) as [r ->]. rewrite Hds. by eexists.
Qed.

Lemma build_shards_each {A} (build : A -> result index_error (list Z)) stable rand shards ds :
  build_shards_loop build stable rand shards = Ok ds ->
  Forall2 (fun s d => exists d0 suffix, build s = Ok d0 /\ d = d0 ++ suffix) shards ds.
Proof.
  revert ds. induction shards as [|s shards IH]; intros ds; cbn [build_shards_loop]; [intros [= <-]; constructor|].
  destruct (build s) as [d0|] eqn:Eb; [|done]. destruct stable.
  - destruct (build_shards_loop build true rand shards) as [ds'|]; [|done]. intros [= <-].
    constructor; [|auto]. exists d0, []. by rewrite app_nil_r.
  - destruct (rand (length shards)) as [r|]; [|done].
    destruct (build_shards_loop build false rand shards) as [ds'|]; [|done]. intros [= <-].
    constructor; [|auto]. by exists d0, r.
Qed.

(** An entry as it must be to be stored. *)
Record good_entry (version overhead k : Z) (it : Info) : Prop := {
  ge_valid : valid_id (ContentID it);
  ge_key : slen (id_key (ContentID it)) = k;
  ge_storable : storable version overhead it
}.

(** The contents of a part of a builder, sorted, are a list that can be written. *)
Lemma part_contents (b s : Builder) version overhead k : well_keyed b -> (forall i it, s !! i = Some it -> b !! i = Some it) ->
  (forall i it, b !! i = Some it -> good_entry version overhead k it) ->
  well_keyed s /\ index_list (sortedContents (map_to_list s)) k
  /\ Forall (storable version overhead) (sortedContents (map_to_list s)).
Proof.
  intros Hb Hsub Hgood. assert (well_keyed s) as Hs by (intros i it Hi; by apply Hb, Hsub).
  destruct (contents_spec s Hs) as (Hso & Hv & Hin). split; [done|].
  assert (forall it, it ∈ sortedContents (map_to_list s) -> good_entry version overhead k it) as Hg.
  { intros it Hit%Hin. eauto. }
  split; [split; [done|done|]|]; apply Forall_forall; intros it Hit; by destruct (Hg it Hit).
Qed.

Section RoundTrip.
Context (adds : list Info) (version overhead k shardSize : Z).
Context (Hgood : Forall (good_entry version overhead k) adds) (Hfits : fits version adds).

Abbreviation b := (foldl Add ∅ adds).

Lemma built_entry i it : b !! i = Some it -> it ∈ adds /\ good_entry version overhead k it.
Proof.
  intros Hi. pose proof (builder_answers adds i) as Ha. rewrite Hi in Ha. destruct Ha as (Hin & _ & _).
  split; [done|]. rewrite Forall_forall in Hgood. auto.
Qed.

Lemma built_keyed : well_keyed b.
Proof. apply builder_keyed. eapply Forall_impl; [exact Hgood|]. by intros it []. Qed.

Lemma shard_part s : shards_fit b shardSize -> s ∈ shard b shardSize -> forall i it, s !! i = Some it -> b !! i = Some it.
Proof. intros Hf Hs i it Hi. apply (shard_lookup b shardSize i it Hf). eauto. Qed.

Lemma shard_nonempty s : s ∈ shard b shardSize -> s <> ∅.
Proof.
  unfold shard. destruct (numShards _ _ <=? 1); [|by intros [? _]%list_elem_of_filter].
  destruct (Z.eqb_spec (Z.of_nat (size b)) 0); [intros Hs; by apply not_elem_of_nil in Hs|].
  intros ->%list_elem_of_singleton E. rewrite E in n. by rewrite map_size_empty in n.
Qed.

Lemma shard_contents_nonempty s : well_keyed s -> s <> ∅ -> sortedContents (map_to_list s) <> [].
Proof.
  intros Hs (i & it & Hi)%map_choose E. destruct (contents_spec s Hs) as (_ & _ & Hin).
  destruct (Hs i it Hi) as [Hc _]. cbn in Hc. rewrite <- Hc in Hi. apply Hin in Hi. rewrite E in Hi.
  by apply not_elem_of_nil in Hi.
Qed.

(** The build succeeds. *)
Lemma BuildShards_total stable rand : shards_fit b shardSize -> shardSize <> 0 -> rand_ready stable rand ->
  exists ds, BuildShards b version stable shardSize rand = Ok ds.
Proof.
  intros Hf Hn Hr. unfold BuildShards. rewrite (proj2 (Z.eqb_neq _ _) Hn). apply build_shards_total; [done|].
  intros s Hs. pose proof (shard_part s Hf Hs) as Hsub.
  destruct (part_contents b s version overhead k built_keyed Hsub) as (Hk & Hl & Hst); [by intros; eapply built_entry|].
  eapply (buildSortedContents_accepts version overhead); [exact Hl| |exact Hst|].
  - apply shard_contents_nonempty; [done|by apply shard_nonempty].
  - destruct Hfits as [?|Hv2]; [by left|right]. eapply fits_v2_sub; [|exact Hv2].
    intros it Hit. destruct (contents_spec s Hk) as (_ & _ & Hin). apply Hin, Hsub in Hit. by eapply built_entry.
Qed.

(** Every shard opens as an index that holds its contents. *)
Lemma shards_open stable rand ds : shards_fit b shardSize ->
  BuildShards b version stable shardSize rand = Ok ds -> Forall (fun d => slen d < 2 ^ 32) ds ->
  exists xs, mapR (fun d => Open d overhead) ds = Ok xs
    /\ Forall2 (fun x l => holds x l k) xs ((fun s => sortedContents (map_to_list s)) <$> shard b shardSize).
Proof.
  intros Hf. unfold BuildShards. destruct (shardSize =? 0); [done|]. intros Hb%build_shards_each.
  assert (forall s, s ∈ shard b shardSize -> forall i it, s !! i = Some it -> b !! i = Some it) as Hsub.
  { intros s Hs. by apply shard_part. }
  revert Hsub. generalize (shard b shardSize) Hb. intros ss Hss Hsub Hsize. clear Hb.
  induction Hss as [|s d ss ds (d0 & suffix & Hd0 & ->) _ IH]; [exists []; split; [done|constructor]|].
  apply Forall_cons in Hsize as [Hs Hsize].
  destruct (part_contents b s version overhead k built_keyed (Hsub s ltac:(by left))) as (Hk & Hl & Hst);
    [by intros; eapply built_entry|].
  destruct (Open_built version overhead _ k d0 suffix Hl Hst Hd0) as (x & Hx & Hh).
  { rewrite slen_app in Hs. pose proof (slen_nonneg suffix). lia. }
  destruct IH as (xs & Hxs & Hall); [intros s' Hs'; apply Hsub; by right|done|].
  exists (x :: xs). cbn [mapR]. rewrite Hx, Hxs. split; [done|]. by constructor.
Qed.

(** The shards hold the entries of the builder. *)
Lemma shards_elements it : shards_fit b shardSize ->
  it ∈ concat ((fun s => sortedContents (map_to_list s)) <$> shard b shardSize) <-> b !! ContentID it = Some it.
Proof.
  intros Hf. assert (forall s, s ∈ shard b shardSize -> well_keyed s) as Hkeyed.
  { intros s Hs. destruct (part_contents b s version overhead k built_keyed (shard_part s Hf Hs)) as (Hks & _ & _);
      [by intros; eapply built_entry|done]. }
  rewrite elem_of_concat, (shard_lookup _ shardSize (ContentID it) it Hf). split.
  - intros (l & (s & -> & Hs)%list_elem_of_fmap & Hit). exists s. split; [done|].
    by apply (contents_spec s (Hkeyed s Hs)).
  - intros (s & Hs & Hit). exists (sortedContents (map_to_list s)). split; [apply list_elem_of_fmap; by exists s|].
    by apply (contents_spec s (Hkeyed s Hs)).
Qed.
End RoundTrip.

(** ** The one-use builder *)

(** What GoLLRB documents of its trees, for items ordered by [Less]: [Get]
    finds the item of the same order, [ReplaceOrInsert] puts an item in its
    place and drops the one of the same order, [DeleteMin] takes the least. *)
Class LLRBLaws (T : Type) `{LLRB T} := {
  elems : T -> list Info;
  elems_New : elems llrb_New = [];
  elems_Len t : llrb_Len t = slen (elems t);
  elems_Get t i : StronglySorted id_lt (ContentID <$> elems t) -> llrb_Get t i = find_info (elems t) (ContentID i);
  elems_Replace t i : valid_id (ContentID i) -> Forall (fun it => valid_id (ContentID it)) (elems t) ->
    StronglySorted id_lt (ContentID <$> elems t) ->
    StronglySorted id_lt (ContentID <$> elems (llrb_ReplaceOrInsert t i))
    /\ forall it, it ∈ elems (llrb_ReplaceOrInsert t i) <-> it = i \/ (it ∈ elems t /\ ContentID it <> ContentID i);
  elems_DeleteMin t x l : elems t = x :: l -> exists t', llrb_DeleteMin t = Some (x, t') /\ elems t' = l
}.

Section OneUseFacts.
Context {T : Type} `{LLRBLaws T}.

Lemma drain_elems t : drain (Z.to_nat (llrb_Len t)) t = elems t.
Proof.
  rewrite elems_Len. unfold slen. rewrite Nat2Z.id. remember (elems t) as l eqn:El. symmetry in El.
  revert t El. induction l as [|x l IH]; intros t El; [done|]. cbn [length drain].
  rewrite elems_Len, El. cbn. destruct (elems_DeleteMin t x l El) as (t' & -> & Ht'). by rewrite IH.
Qed.

(** The tree after a number of additions holds what the builder holds. *)
Lemma one_use_contents adds : Forall (fun it => valid_id (ContentID it)) adds ->
  let t := foldl OneUse_Add (NewOneUseBuilder (T := T)) adds in
  StronglySorted id_lt (ContentID <$> elems t) /\ forall it, it ∈ elems t <-> foldl Add ∅ adds !! ContentID it = Some it.
Proof.
  cbn zeta. induction adds as [|a adds IH] using rev_ind; intros Hv.
  { cbn. unfold NewOneUseBuilder. rewrite elems_New. split; [constructor|]. intros it. rewrite lookup_empty.
    split; [intros Hin; by apply not_elem_of_nil in Hin|done]. }
  apply Forall_app in Hv as [Hv [Ha _]%Forall_cons]. specialize (IH Hv). rewrite !foldl_snoc.
  pose proof (builder_keyed adds Hv) as Hb. set (t := foldl OneUse_Add _ adds) in *.
  set (b := foldl Add ∅ adds) in *. destruct IH as [Hs Hin].
  assert (Forall (fun it => valid_id (ContentID it)) (elems t)) as Hvt.
  { apply Forall_forall. intros it Hit%Hin. by destruct (Hb _ _ Hit). }
  assert (find_info (elems t) (ContentID a) = b !! ContentID a) as Hf.
  { destruct (find_info (elems t) (ContentID a)) as [x|] eqn:E.
    - apply find_info_Some in E as [Hx Hc]. apply Hin in Hx. by rewrite Hc in Hx.
    - apply find_info_None in E. symmetry. apply eq_None_not_Some. intros [x Hx]. apply E.
      destruct (Hb _ _ Hx) as [Hc _]. cbn in Hc. rewrite <- Hc in Hx |- *. apply list_elem_of_fmap_2. by apply Hin. }
  assert (StronglySorted id_lt (ContentID <$> elems (llrb_ReplaceOrInsert t a)) /\
    forall it, it ∈ elems (llrb_ReplaceOrInsert t a) <-> (<[ContentID a := a]> b) !! ContentID it = Some it) as Hrep.
  { destruct (elems_Replace t a Ha Hvt Hs) as [Hs' Hin']. split; [done|]. intros it. rewrite Hin', lookup_insert_Some, Hin.
    split; [intros [->|[? ?]]; [by left|right; by split; [congruence|]]|].
    intros [[? ?]|[? ?]]; [left; congruence|right; by split; [|congruence]]. }
  unfold OneUse_Add, Add. rewrite (elems_Get t a Hs), Hf.
  destruct (b !! ContentID a) as [old|]; [destruct (contentInfoGreaterThanStruct a old)|]; done.
Qed.

Lemma sorted_infos_unique (l m : list Info) : Forall (fun it => valid_id (ContentID it)) l ->
  StronglySorted id_lt (ContentID <$> l) -> StronglySorted id_lt (ContentID <$> m) -> (forall it, it ∈ l <-> it ∈ m) -> l = m.
Proof.
  intros Hv Hl Hm Hin. assert (forall x : list Info, StronglySorted id_lt (ContentID <$> x) ->
    StronglySorted (fun a b => info_less a b = true) x /\ NoDup x) as Hx.
  { clear. induction x as [|i x IH]; intros Hs; [split; constructor|]. cbn [fmap list_fmap] in Hs.
    apply StronglySorted_cons in Hs as [Hi Hs]. destruct (IH Hs) as [H1 H2]. rewrite Forall_fmap in Hi.
    split; constructor; [done|exact Hi| |done]. intros Hin. rewrite Forall_forall in Hi. by apply (id_lt_irrefl (ContentID i)), Hi. }
  destruct (Hx l Hl) as [Hls Hln], (Hx m Hm) as [Hms Hmn].
  apply strictly_sorted_unique; [done..|]. by apply NoDup_Permutation.
Qed.

(** It drains to the sorted contents of the builder. *)
Lemma one_use_sorted adds : Forall (fun it => valid_id (ContentID it)) adds ->
  elems (foldl OneUse_Add (NewOneUseBuilder (T := T)) adds) = sortedContents (map_to_list (foldl Add ∅ adds)).
Proof.
  intros Hv. destruct (one_use_contents adds Hv) as [Hs Hin].
  destruct (contents_spec _ (builder_keyed adds Hv)) as (Hs' & Hv' & Hin').
  symmetry. apply sorted_infos_unique; [done..|]. intros it. by rewrite Hin, Hin'.
Qed.

(** A part of the sorted contents is the sorted contents of the part. *)
Lemma sorted_part (b : Builder) (P : ID -> Prop) `{!forall i, Decision (P i)} : well_keyed b ->
  filter (fun it => P (ContentID it)) (sortedContents (map_to_list b))
  = sortedContents (map_to_list (filter (fun e => P e.1) b)).
Proof.
  intros Hb. destruct (contents_spec b Hb) as (Hs & Hv & Hin).
  assert (well_keyed (filter (fun e => P e.1) b)) as Hb'.
  { intros i it Hi. apply map_lookup_filter_Some in Hi as [Hi _]. by apply Hb. }
  destruct (contents_spec _ Hb') as (Hs' & Hv' & Hin').
  apply sorted_infos_unique; [by apply Forall_filter_sub| |done|].
  - assert (filter P (ContentID <$> sortedContents (map_to_list b))
      = ContentID <$> filter (fun it => P (ContentID it)) (sortedContents (map_to_list b))) as <-; [|by apply sorted_filter].
    generalize (sortedContents (map_to_list b)). intros l. induction l as [|x l IH]; [done|].
    cbn [fmap list_fmap]. rewrite !filter_cons. case_decide; cbn [fmap list_fmap]; by rewrite IH.
  - intros it. rewrite list_elem_of_filter, Hin, Hin', map_lookup_filter_Some. cbn. intuition.
Qed.
End OneUseFacts.

Lemma contents_length (b : Builder) : well_keyed b -> slen (sortedContents (map_to_list b)) = Z.of_nat (size b).
Proof.
  intros Hb. unfold slen. rewrite (Permutation_length (sortedContents_perm _ (map_entries_keyed b Hb))), length_fmap.
  by rewrite length_map_to_list.
Qed.

Lemma filter_fmap_iff {A B} (f : A -> B) (P : B -> Prop) (Q : A -> Prop) `{!forall x, Decision (P x), !forall x, Decision (Q x)}
    (l : list A) : (forall x, x ∈ l -> P (f x) <-> Q x) -> filter P (f <$> l) = f <$> filter Q l.
Proof.
  induction l as [|x l IH]; intros Hl; [done|]. cbn [fmap list_fmap]. rewrite !filter_cons.
  rewrite IH by (intros; apply Hl; by right). pose proof (Hl x ltac:(by left)). do 2 case_decide; naive_solver.
Qed.

Lemma build_shards_fmap {A B} (f : A -> B) (build : B -> result index_error (list Z)) stable rand ss :
  build_shards_loop build stable rand (f <$> ss) = build_shards_loop (fun s => build (f s)) stable rand ss.
Proof.
  induction ss as [|s ss IH]; [done|]. cbn [fmap list_fmap build_shards_loop]. by rewrite IH, length_fmap.
Qed.

Lemma one_use_shards {T} `{LLRBLaws T} adds n : Forall (fun it => valid_id (ContentID it)) adds ->
  OneUse_shard (foldl OneUse_Add (NewOneUseBuilder (T := T)) adds) n
  = (fun s => sortedContents (map_to_list s)) <$> shard (foldl Add ∅ adds) n.
Proof.
  intros Hv. pose proof (builder_keyed adds Hv) as Hb. set (b := foldl Add ∅ adds) in *.
  unfold OneUse_shard, OneUse_Length, OneUse_sortedContents, shard.
  rewrite drain_elems, elems_Len, one_use_sorted by done. fold b. rewrite contents_length by done.
  destruct (numShards (Z.of_nat (size b)) n <=? 1).
  { by destruct (Z.of_nat (size b) =? 0). }
  set (m := numShards _ n).
  assert (forall k, well_keyed (filter (fun e => shard_of m e.1 = Z.of_nat k) b)) as Hk.
  { intros k i it Hi. apply map_lookup_filter_Some in Hi as [Hi _]. by apply Hb. }
  rewrite <- (filter_fmap_iff (fun s : Builder => sortedContents (map_to_list s)) (fun r => r <> []) (fun s : Builder => s <> ∅)).
  - rewrite <- list_fmap_compose. f_equal. apply list_fmap_ext. intros _ k _. unfold compose.
    exact (sorted_part b (fun i => shard_of m i = Z.of_nat k) Hb).
  - intros s (k & -> & _)%list_elem_of_fmap. split; [|apply shard_contents_nonempty, Hk].
    intros Hne E. apply Hne. rewrite E, map_to_list_empty. done.
Qed.

(** A tree as a sorted list. *)
Definition list_tree := list Info.

Fixpoint list_replace (t : list Info) (i : Info) : list Info :=
  match t with
  | [] => [i]
  | x :: t' => if info_less x i then x :: list_replace t' i
               else if info_less i x then i :: t else i :: t'
  end.

#[export] Instance list_LLRB : LLRB list_tree := {|
  llrb_New := [];
  llrb_Get t i := find_info t (ContentID i);
  llrb_ReplaceOrInsert := list_replace;
  llrb_DeleteMin t := match t with [] => None | x :: l => Some (x, l) end;
  llrb_Len t := slen t
|}.

Lemma list_replace_elem t i it : valid_id (ContentID i) -> Forall (fun it => valid_id (ContentID it)) t ->
  StronglySorted id_lt (ContentID <$> t) ->
  it ∈ list_replace t i <-> it = i \/ (it ∈ t /\ ContentID it <> ContentID i).
Proof.
  intros Hi Hv Hs. induction t as [|x t IH]; cbn [list_replace].
  { rewrite list_elem_of_singleton. split; [by left|]. intros [?|[Hin _]]; [done|by apply not_elem_of_nil in Hin]. }
  apply Forall_cons in Hv as [Hx Hv]. cbn [fmap list_fmap] in Hs. apply StronglySorted_cons in Hs as [Hlt Hs].
  rewrite Forall_fmap, Forall_forall in Hlt. unfold compose, id_lt in Hlt. unfold info_less.
  assert (forall y, y ∈ t -> less (ContentID i) (ContentID x) = true \/ ContentID x = ContentID i -> ContentID y <> ContentID i) as Hne.
  { intros y Hy Hix E. specialize (Hlt y Hy). rewrite E in Hlt. destruct Hix as [Hix|Hix].
    - pose proof (less_trans _ _ _ Hi Hx Hi Hix Hlt) as Hc. by rewrite less_irrefl in Hc.
    - rewrite Hix in Hlt. by rewrite less_irrefl in Hlt. }
  destruct (less (ContentID x) (ContentID i)) eqn:E1.
  - rewrite elem_of_cons, IH, elem_of_cons by done. split; [|naive_solver].
    intros [->|[?|[? ?]]]; [right; split; [by left|]|by left|right; split; [by right|done]].
    intros E. rewrite E in E1. by rewrite less_irrefl in E1.
  - destruct (less (ContentID i) (ContentID x)) eqn:E2.
    + rewrite !elem_of_cons. split; [|naive_solver]. intros [?|[->|Hin]]; [by left| |right; split; [by right|eauto]].
      right. split; [by left|]. intros E. rewrite E in E2. by rewrite less_irrefl in E2.
    + assert (ContentID x = ContentID i) as Exi.
      { destruct (less_total (ContentID x) (ContentID i)) as [?|[?|?]]; congruence. }
      rewrite !elem_of_cons. split; [intros [?|Hin]; [by left|right; split; [by right|eauto]]|].
      intros [?|[[->|?] ?]]; [by left|done|by right].
Qed.

Lemma list_replace_sorted t i : valid_id (ContentID i) -> Forall (fun it => valid_id (ContentID it)) t ->
  StronglySorted id_lt (ContentID <$> t) -> StronglySorted id_lt (ContentID <$> list_replace t i).
Proof.
  intros Hi Hv Hs. induction t as [|x t IH]; cbn [list_replace]; [repeat constructor|].
  apply Forall_cons in Hv as [Hx Hv]. pose proof Hs as Hs0. cbn [fmap list_fmap] in Hs. apply StronglySorted_cons in Hs as [Hlt Hs].
  unfold info_less. destruct (less (ContentID x) (ContentID i)) eqn:E1.
  - cbn [fmap list_fmap]. constructor; [by apply IH|]. rewrite Forall_fmap, Forall_forall in *. intros y Hy.
    apply list_replace_elem in Hy as [->|[Hy _]]; [done|by apply Hlt|done|by apply Forall_forall|done].
  - assert (Forall (id_lt (ContentID i)) (ContentID <$> t)) as Hit.
    { rewrite Forall_fmap, Forall_forall in *. intros y Hy. unfold compose, id_lt in *. specialize (Hlt y Hy).
      destruct (less_total (ContentID x) (ContentID i)) as [?|[<-|?]]; [done..|congruence|done|]. eauto using less_trans. }
    destruct (less (ContentID i) (ContentID x)) eqn:E2; cbn [fmap list_fmap]; constructor; try done.
    constructor; [done|exact Hit].
Qed.

#[export] Instance list_LLRB_laws : LLRBLaws list_tree.
Proof.
  refine {| elems := (fun t : list_tree => t : list Info) |}; [done|done|done| |].
  - intros t i Hi Hv Hs. split; [by apply list_replace_sorted|]. intros it. by apply list_replace_elem.
  - intros t x l ->. by exists l.
Defined.

(** ** The properties of the index *)

(** What iterates over the shards iterates over what was added. *)
Lemma winners_added adds version overhead k shardSize r out : Forall (good_entry version overhead k) adds -> shards_fit (foldl Add ∅ adds) shardSize ->
  winners (in_range r (concat ((fun s => sortedContents (map_to_list s)) <$> shard (foldl Add ∅ adds) shardSize))) out -> winners (in_range r adds) out.
Proof.
  intros Hgood Hf [Hs Hw Ha]. pose proof (fun it => shards_elements adds version overhead k shardSize Hgood it Hf) as Hin.
  assert (forall i it, foldl Add ∅ adds !! i = Some it -> wins adds i it) as Hb.
  { intros i it E. pose proof (builder_answers adds i) as H. by rewrite E in H. }
  split; [done| |].
  - intros o Ho. destruct (Hw o Ho) as ([Hr Hl]%list_elem_of_filter & _ & _). destruct (Hb _ _ (proj1 (Hin o) Hl)) as (Hoa & _ & Hbest).
    split_and!; [by apply list_elem_of_filter|done|]. intros y [_ Hy]%list_elem_of_filter. by apply Hbest.
  - intros y [Hr Hy]%list_elem_of_filter. pose proof (builder_answers adds (ContentID y)) as H.
    destruct (foldl Add ∅ adds !! ContentID y) as [it|] eqn:E; [|exfalso; by apply (H y)]. destruct (Hb _ _ E) as (_ & Hc & _).
    destruct (Ha it) as (o & Ho & Eo); [|exists o; split; [done|congruence]]. apply list_elem_of_filter. rewrite Hc. split; [done|]. apply Hin. by rewrite Hc.
Qed.

(** C14.  From additions to lookups and listings.  Whatever well-formed entries
    are added to a builder, the build of its shards succeeds in either format, with or without
    random suffixes; and when every shard is below 4 GiB they all open; the
    merged lookup of any content returns the entry that wins among all that
    were added for it -- the latest, then the undeleted, then the one with the
    greatest pack -- or nothing if none was added; and the merged iteration
    over any range passes to its callback, in order, the winner of each content of the
    range that was added, once each, until the callback fails. *)
Theorem index_round_trip adds version overhead k shardSize stable rand :
  Forall (good_entry version overhead k) adds -> fits version adds -> shardSize <> 0 ->
  shards_fit (foldl Add ∅ adds) shardSize -> rand_ready stable rand ->
  exists ds, BuildShards (foldl Add ∅ adds) version stable shardSize rand = Ok ds
    /\ (Forall (fun d => slen d < 2 ^ 32) ds ->
        exists xs, mapR (fun d => Open d overhead) ds = Ok xs
          /\ (forall i, valid_id i -> slen (id_key i) = k ->
              exists r, (Merged_GetInfo xs i).1 = Ok r /\ answers adds i r)
          /\ forall (S E : Type) range (cb : callback S E) s,
              exists out xs', Merged_Iterate xs range cb s = (let y := feed cb out s in (y.1, xs', y.2))
                /\ winners (in_range range adds) out).
Proof.
  intros Hgood Hfits Hn Hf Hr.
  destruct (BuildShards_total adds version overhead k shardSize Hgood Hfits stable rand Hf Hn Hr) as [ds Hds].
  exists ds. split; [done|]. intros Hsize.
  destruct (shards_open adds version overhead k shardSize Hgood stable rand ds Hf Hds Hsize) as (xs & Hxs & Hall).
  exists xs. split_and!; [done| |].
  2:{ intros S E range cb s. destruct (Merged_Iterate_spec xs _ k range cb s Hall) as (out & xs' & Hit & _ & Hw).
      exists out, xs'. split; [done|]. by eapply winners_added. }
  intros i Hi Hk.
  destruct (Merged_GetInfo_spec xs _ k i Hall Hi Hk) as (r & m' & Hget & _ & Ha). exists r. rewrite Hget. split; [done|].
  assert (r = foldl Add ∅ adds !! i) as ->; [|apply builder_answers].
  pose proof (built_keyed adds version overhead k Hgood) as Hb.
  pose proof (fun it => shards_elements adds version overhead k shardSize Hgood it Hf) as Hin.
  destruct r as [it|]; cbn in Ha.
  - destruct Ha as (Hit & <- & _). symmetry. by apply Hin.
  - symmetry. apply eq_None_not_Some. intros [it Hit]. destruct (Hb _ _ Hit) as [Hc _]. cbn in Hc.
    apply (Ha it); [|done]. apply Hin. by rewrite Hc.
Qed.

(** Two entries for one content, the later a deletion, and another content. *)
Definition ex_adds : list Info :=
  [mkInfo "p1" 100 10 12 0 0 (mkID 0 [1]) false 1 0;
   mkInfo "p2" 200 10 12 5 0 (mkID 0 [1]) true 1 0;
   mkInfo "p1" 150 20 22 12 4096 (mkID 107 [2]) false 2 0].

Lemma ex_adds_good : Forall (good_entry Version2 0 2) ex_adds.
Proof.
  unfold ex_adds. repeat apply Forall_cons_2; try apply Forall_nil_2; split; cbn [ContentID].
  all: try (split; unfold idLen; cbn; [unfold valid_prefix; lia|unfold maxIDLength, MaxHashSize; lia|repeat constructor; lia]).
  all: try done.
  all: right; split; [done|]; split; unfold len; cbn; lia.
Qed.

Lemma ex_adds_fits : fits Version2 ex_adds.
Proof.
  right. split; [by vm_compute|by vm_compute|].
  intros it Hit. unfold ex_adds in Hit. repeat (apply elem_of_cons in Hit as [->|Hit]; [cbn; lia|]).
  by apply not_elem_of_nil in Hit.
Qed.

Lemma index_round_trip_witness :
  exists ds, BuildShards (foldl Add ∅ ex_adds) Version2 true 1 (fun _ => None) = Ok ds
    /\ (Forall (fun d => slen d < 2 ^ 32) ds ->
        exists xs, mapR (fun d => Open d 0) ds = Ok xs
          /\ (forall i, valid_id i -> slen (id_key i) = 2 ->
              exists r, (Merged_GetInfo xs i).1 = Ok r /\ answers ex_adds i r)
          /\ forall (S E : Type) range (cb : callback S E) s,
              exists out xs', Merged_Iterate xs range cb s = (let y := feed cb out s in (y.1, xs', y.2))
                /\ winners (in_range range ex_adds) out).
Proof.
  apply (index_round_trip ex_adds Version2 0 2 1 true (fun _ => None) ex_adds_good ex_adds_fits).
  - done.
  - unfold shards_fit. by vm_compute.
  - by left.
Defined.

(** C28.  Iterating any indexes that hold lists, merged, passes to the callback one
    entry per content of the range: the winner, in the order of the
    identifiers, until the callback fails; and no content is left out.  The
    indexes hold the same lists afterwards. *)
Theorem merged_iteration_complete {X} `{IndexLaws X} {S E} (m : list X) ls k r (cb : callback S E) s :
  Forall2 (fun x l => holds x l k) m ls ->
  exists out m', Merged_Iterate m r cb s = (let y := feed cb out s in (y.1, m', y.2))
    /\ Forall2 (fun x l => holds x l k) m' ls /\ winners (in_range r (concat ls)) out.
Proof. apply Merged_Iterate_spec. Qed.

Definition ex_v1 : list Info := take 1 ex_infos.

(** An index of format 1 over the first example entry. *)
Lemma ex_v1_holds : exists x, Open (v1_bytes ex_v1 ++ []) 5 = Ok x /\ holds x ex_v1 3.
Proof.
  apply (Open_built Version1 5 ex_v1 3 (v1_bytes ex_v1) []).
  - split; [repeat constructor| |by repeat constructor].
    apply Forall_cons_2; [|constructor]. split; unfold idLen; cbn; [by left|unfold maxIDLength, MaxHashSize; lia|repeat constructor; lia].
  - apply Forall_cons_2; [|constructor]. left. split; [done|]. split; unfold len; cbn; try lia; done.
  - by vm_compute.
  - by vm_compute.
Qed.

Lemma merged_iteration_complete_witness : exists x out m',
  Merged_Iterate [x] AllIDs (fun i s => (None (A := unit), i :: s)) []
  = (let y := feed (fun i s => (None (A := unit), i :: s)) out [] in (y.1, m', y.2))
  /\ winners (in_range AllIDs (concat [ex_v1])) out /\ @holds pack_index _ _ x ex_v1 3.
Proof.
  destruct ex_v1_holds as (x & _ & Hx).
  destruct (merged_iteration_complete [x] [ex_v1] 3 AllIDs (fun i s => (None (A := unit), i :: s)) []) as (out & m' & H1 & _ & H2).
  - repeat constructor. exact Hx.
  - exists x, out, m'. split; [exact H1|]. split; [exact H2|exact Hx].
Defined.

(** The bucket sort sorts: over every order in which the map yields its
    entries, it gives what an insertion sort of all of them gives. *)
Theorem bucket_sort_sorts (b : Builder) entries : well_keyed b -> entries ≡ₚ map_to_list b ->
  sortedContents entries = sort_by info_less (map_to_list b).*2
  /\ StronglySorted id_lt (ContentID <$> sortedContents entries).
Proof.
  intros Hb Hp. pose proof (map_entries_keyed b Hb) as Hk. pose proof (NoDup_fst_map_to_list b) as Hnd.
  assert (Forall keyed entries) as Hke by by rewrite Hp.
  assert (NoDup entries.*1) as Hne by by rewrite Hp.
  assert (sortedContents entries = sort_by info_less (map_to_list b).*2) as E.
  { rewrite sortedContents_sort by done. apply strictly_sorted_unique; [|by apply sort_values..|by rewrite !sort_by_perm, Hp].
    rewrite sort_by_perm. apply Forall_forall. intros it. by apply values_valid. }
  split; [done|]. rewrite E. eapply StronglySorted_fmap; [|by apply sort_values]. done.
Qed.

Lemma bucket_sort_sorts_witness :
  let b := foldl Add ∅ ex_adds in
  sortedContents (rev (map_to_list b)) = sort_by info_less (map_to_list b).*2
  /\ StronglySorted id_lt (ContentID <$> sortedContents (rev (map_to_list b))).
Proof.
  apply (bucket_sort_sorts (foldl Add ∅ ex_adds) (rev (map_to_list (foldl Add ∅ ex_adds)))).
  - apply builder_keyed. eapply Forall_impl; [exact ex_adds_good|]. by intros it [].
  - symmetry. apply Permutation_rev.
Defined.

(** The one-use builder, over any ordered tree, writes the shards the map
    builder writes: the same bytes or the same error. *)
Theorem one_use_builder_agrees {T} `{LLRBLaws T} adds version stable shardSize rand :
  Forall (fun it => valid_id (ContentID it)) adds ->
  OneUse_BuildShards (foldl OneUse_Add (NewOneUseBuilder (T := T)) adds) version stable shardSize rand
  = BuildShards (foldl Add ∅ adds) version stable shardSize rand.
Proof.
  intros Hv. unfold OneUse_BuildShards, BuildShards. destruct (shardSize =? 0); [done|].
  by rewrite one_use_shards, build_shards_fmap.
Qed.

Lemma one_use_builder_agrees_witness :
  OneUse_BuildShards (foldl OneUse_Add (NewOneUseBuilder (T := list_tree)) ex_adds) Version2 true 1 (fun _ => None)
  = BuildShards (foldl Add ∅ ex_adds) Version2 true 1 (fun _ => None).
Proof.
  apply (one_use_builder_agrees (T := list_tree) ex_adds). eapply Forall_impl; [exact ex_adds_good|]. by intros it [].
Defined.

(** Shards partition a builder: every entry is in exactly one of them. *)
Lemma shards_partition (b : Builder) n i it : shards_fit b n -> b !! i = Some it ->
  exists! p, exists s, shard b n !! p = Some s /\ s !! i = Some it.
Proof.
  intros Hf Hi. apply (shard_lookup b n i it Hf) in Hi as (s & [p Hp]%list_elem_of_lookup & Hs). exists p.
  split; [by exists s|]. intros q (t & Hq & Ht). eapply (shard_disjoint b n p q s t i); by eauto.
Qed.

(** The documented limit of a shard does not hold: three contents sharded by
    two end in one shard of three. *)
Theorem shard_limit_exceeded :
  exists (b : Builder) n, 0 < n /\ exists s, s ∈ shard b n /\ n < Z.of_nat (size s).
Proof.
  exists (foldl Add ∅ ((fun h => mkInfo "p" 1 1 1 0 0 (mkID 0 [h]) false 1 0) <$> [0; 2; 4])), 2.
  split; [done|]. eexists. split.
  - apply list_elem_of_lookup. exists 0%nat. vm_compute. reflexivity.
  - by vm_compute.
Qed.
