(* ===== verification/Splitter.v ===== *)
(** * Splitting objects into chunks

    [repo/splitter].  A splitter cuts a stream of bytes into chunks; where it
    cuts decides what deduplicates.  The two dynamic splitters are the same
    code over two rolling hashes of package rollinghash, which is not in the
    repository: a rolling hash is its window of bytes and a parameter, the
    checksum of a window.  The theorems: chunk sizes stay within their bounds,
    and the cuts depend on the bytes alone, not on how they were handed over. *)

From S2P Require Import Prelude GoStrings GoText IndexTable.

Definition splitterSlidingWindowSize : nat := 64.

(** ** The interface *)

(** [NextSplitPoint] returns -1 or the number of bytes up to the split. *)
Class Splitter (T : Type) := {
  NextSplitPoint : T -> list Z -> Z * T;
  MaxSegmentSize : T -> Z;
  splitter_Reset : T -> T
}.

(** ** Fixed chunks *)

Record fixedSplitter := mkFixed { fs_cur : Z; fs_chunkLength : Z }.

Definition fixed_Reset (s : fixedSplitter) : fixedSplitter := mkFixed 0 (fs_chunkLength s).

Definition fixed_NextSplitPoint (s : fixedSplitter) (b : list Z) : Z * fixedSplitter :=
  let n := fs_chunkLength s - fs_cur s in
  if slen b <? n then (-1, mkFixed (fs_cur s + slen b) (fs_chunkLength s))
  else (n, mkFixed 0 (fs_chunkLength s)).

Definition Fixed (length : Z) : fixedSplitter := mkFixed 0 length.

#[export] Instance fixed_Splitter : Splitter fixedSplitter := {|
  NextSplitPoint := fixed_NextSplitPoint;
  MaxSegmentSize := fs_chunkLength;
  splitter_Reset := fixed_Reset
|}.

(** ** Content-defined chunks *)

(** A rolling hash whose window holds [w]: [Roll] lets the oldest byte go. *)
Definition Roll (w : list Z) (b : Z) : list Z := drop 1 w ++ [b].

Definition zero_window : list Z := replicate splitterSlidingWindowSize 0.

Record dynSplitter := mkDyn {
  ds_rh : list Z;
  ds_mask : Z;
  ds_count : Z;
  ds_minSize : Z;
  ds_maxSize : Z
}.

Definition with_count (rs : dynSplitter) (rh : list Z) (count : Z) : dynSplitter :=
  mkDyn rh (ds_mask rs) count (ds_minSize rs) (ds_maxSize rs).

Definition dyn_Reset (rs : dynSplitter) : dynSplitter := with_count rs zero_window 0.

Section Dynamic.
(** The checksum of the bytes in the window. *)
Context (digest : list Z -> Z).

(** The loop that looks for a splitting point: the index of the byte that
    splits, if any. *)
Fixpoint scan (rs : dynSplitter) (i : Z) (l : list Z) : option Z * dynSplitter :=
  match l with
  | [] => (None, rs)
  | b :: l =>
      let rs := with_count rs (Roll (ds_rh rs) b) (ds_count rs + 1) in
      if Z.land (digest (ds_rh rs)) (ds_mask rs) =? 0 then (Some i, with_count rs (ds_rh rs) 0)
      else scan rs (i + 1) l
  end.

Definition dyn_NextSplitPoint (rs : dynSplitter) (b : list Z) : Z * dynSplitter :=
  (* until minSize, only hash the last splitterSlidingWindowSize bytes *)
  let left := ds_minSize rs - ds_count rs - 1 in
  let fastPathBytes := if 0 <? left then Z.min left (slen b) else 0 in
  let i := Z.max (fastPathBytes - Z.of_nat splitterSlidingWindowSize) 0 in
  let rs := if 0 <? left
            then with_count rs (foldl Roll (ds_rh rs) (drop (Z.to_nat i) (take (Z.to_nat fastPathBytes) b)))
                   (ds_count rs + fastPathBytes)
            else rs in
  let b := drop (Z.to_nat fastPathBytes) b in
  (* until the max size, check if we have any splitting point *)
  let left := ds_maxSize rs - ds_count rs in
  let fp := if 0 <? left then Z.min left (slen b) else 0 in
  match scan rs 0 (take (Z.to_nat fp) b) with
  | (Some i, rs) => (fastPathBytes + i + 1, rs)
  | (None, rs) =>
      let fastPathBytes := fastPathBytes + fp in
      (* if we're over the max size, split *)
      if ds_maxSize rs <=? ds_count rs then (fastPathBytes, with_count rs (ds_rh rs) 0)
      else (-1, rs)
  end.
End Dynamic.

(** [newBuzHash32SplitterFactory]; the mask is one less than a power of two. *)
Definition newBuzHash32Splitter (avgSize : Z) : dynSplitter :=
  mkDyn zero_window (uint32 (avgSize - 1)) 0 (Z.quot avgSize 2) (avgSize * 2).

Definition newRabinKarp64Splitter (avgSize : Z) : dynSplitter :=
  mkDyn zero_window (uint64 (avgSize - 1)) 0 (Z.quot avgSize 2) (avgSize * 2).

(** The two hashes as the parameters they are. *)
Class RollingHashes := { buzhash32_sum : list Z -> Z; rabinkarp64_sum : list Z -> Z }.

Inductive anySplitter :=
| FixedSplitter (s : fixedSplitter)
| BuzHash32Splitter (s : dynSplitter)
| RabinKarp64Splitter (s : dynSplitter).

Section Registry.
Context `{RollingHashes}.

#[export] Instance any_Splitter : Splitter anySplitter := {|
  NextSplitPoint s b :=
    match s with
    | FixedSplitter s => let '(n, s) := fixed_NextSplitPoint s b in (n, FixedSplitter s)
    | BuzHash32Splitter s => let '(n, s) := dyn_NextSplitPoint buzhash32_sum s b in (n, BuzHash32Splitter s)
    | RabinKarp64Splitter s => let '(n, s) := dyn_NextSplitPoint rabinkarp64_sum s b in (n, RabinKarp64Splitter s)
    end;
  MaxSegmentSize s :=
    match s with
    | FixedSplitter s => fs_chunkLength s
    | BuzHash32Splitter s | RabinKarp64Splitter s => ds_maxSize s
    end;
  splitter_Reset s :=
    match s with
    | FixedSplitter s => FixedSplitter (fixed_Reset s)
    | BuzHash32Splitter s => BuzHash32Splitter (dyn_Reset s)
    | RabinKarp64Splitter s => RabinKarp64Splitter (dyn_Reset s)
    end
|}.
End Registry.

Definition sizes : list (string * Z) :=
  [("128K", Z.shiftl 128 10); ("256K", Z.shiftl 256 10); ("512K", Z.shiftl 512 10); ("1M", Z.shiftl 1 20);
   ("2M", Z.shiftl 2 20); ("4M", Z.shiftl 4 20); ("8M", Z.shiftl 8 20)].

(** The registered factories by name, each with the splitter it makes anew. *)
Definition splitterFactories : gmap string anySplitter :=
  list_to_map (
    ((fun p => ("FIXED-" +:+ p.1, FixedSplitter (Fixed p.2))) <$> sizes)
    ++ ((fun p => ("DYNAMIC-" +:+ p.1 +:+ "-BUZHASH", BuzHash32Splitter (newBuzHash32Splitter p.2))) <$> sizes)
    ++ ((fun p => ("DYNAMIC-" +:+ p.1 +:+ "-RABINKARP", RabinKarp64Splitter (newRabinKarp64Splitter p.2))) <$> sizes)
    ++ [("FIXED", FixedSplitter (Fixed (Z.shiftl 4 20)));
        ("DYNAMIC", BuzHash32Splitter (newBuzHash32Splitter (Z.shiftl 4 20)))]).

Definition GetFactory (name : string) : option anySplitter := splitterFactories !! name.

Definition SupportedAlgorithms : list string := sort_strings (map_to_list splitterFactories).*1.

Definition DefaultAlgorithm : string := "DYNAMIC-4M-BUZHASH".

(** [recyclableSplitter]: closing puts the splitter back, reset; a factory
    takes from the pool before it makes a new one. *)
Definition pool_Close `{RollingHashes} (pool : list anySplitter) (s : anySplitter) : list anySplitter :=
  splitter_Reset s :: pool.

Definition pooled (fresh : anySplitter) (pool : list anySplitter) : anySplitter * list anySplitter :=
  match pool with
  | [] => (fresh, [])
  | s :: pool => (s, pool)
  end.

Example splitter_ex :
  size splitterFactories = 23%nat /\ GetFactory DefaultAlgorithm = Some (BuzHash32Splitter (newBuzHash32Splitter 4194304))
  /\ fixed_NextSplitPoint (Fixed 3) [1; 2] = (-1, mkFixed 2 3)
  /\ fixed_NextSplitPoint (mkFixed 2 3) [1; 2] = (1, mkFixed 0 3).
Proof. vm_compute. repeat split. Qed.

(** * Splitters cut by content

    Each splitter is a scan of a step over single bytes, so that its cuts are
    the same however the bytes are grouped into calls; and the step keeps
    chunks within their sizes. *)

(** ** Scanning byte by byte *)

(** The first cut: the number of bytes up to it, or -1, and the state after. *)
Fixpoint cut {T} (step : T -> Z -> bool * T) (s : T) (l : list Z) : Z * T :=
  match l with
  | [] => (-1, s)
  | x :: l =>
      let '(split, s) := step s x in
      if split then (1, s)
      else let '(n, s) := cut step s l in (if n <? 0 then -1 else n + 1, s)
  end.

Lemma cut_range {T} (step : T -> Z -> bool * T) s l : (cut step s l).1 = -1 \/ 1 <= (cut step s l).1 <= slen l.
Proof.
  revert s. induction l as [|x l IH]; intros s; [by left|]. cbn [cut]. destruct (step s x) as [[] s'].
  - right. unfold slen. cbn. lia.
  - specialize (IH s'). destruct (cut step s' l) as [n s'']. cbn [fst] in *. unfold slen in *. cbn [length].
    destruct (Z.ltb_spec n 0); [by left|right; lia].
Qed.

Lemma cut_app_none {T} (step : T -> Z -> bool * T) s s' l m : cut step s l = (-1, s') ->
  cut step s (l ++ m) = let '(n, s'') := cut step s' m in (if n <? 0 then -1 else slen l + n, s'').
Proof.
  revert s. induction l as [|x l IH]; intros s; cbn [cut app].
  - intros [= <-]. pose proof (cut_range step s m). destruct (cut step s m) as [n s'']. cbn in *.
    destruct (Z.ltb_spec n 0); f_equal; unfold slen; cbn; lia.
  - destruct (step s x) as [[] s1]; [done|]. pose proof (cut_range step s1 l) as Hr. pose proof (IH s1) as IH1.
    destruct (cut step s1 l) as [n s2] eqn:E. cbn [fst] in Hr. destruct (Z.ltb_spec n 0); [|intros [= ? ?]; lia].
    intros [= <-]. rewrite IH1 by (f_equal; lia). pose proof (cut_range step s2 m). destruct (cut step s2 m) as [k s3].
    cbn [fst] in *. unfold slen. cbn [length]. destruct (Z.ltb_spec k 0); [by cbn|].
    rewrite (proj2 (Z.ltb_ge _ _)) by lia. f_equal. lia.
Qed.

Lemma cut_app_some {T} (step : T -> Z -> bool * T) s s' l m n : cut step s l = (n, s') -> 0 <= n ->
  cut step s (l ++ m) = (n, s').
Proof.
  revert s n. induction l as [|x l IH]; intros s n; cbn [cut app]; [intros [= <- _]; lia|].
  destruct (step s x) as [[] s1]; [done|]. destruct (cut step s1 l) as [k s2] eqn:E.
  destruct (Z.ltb_spec k 0); [intros [= <- _]; lia|]. intros [= <- <-] _.
  rewrite (IH s1 k E) by lia. by rewrite (proj2 (Z.ltb_ge _ _)) by lia.
Qed.

(** A splitter that is the scan of a step on the states an invariant holds of,
    with chunks of at least [ss_min] and at most [ss_max] bytes: [ss_size] is
    what the current chunk has so far. *)
Class SplitterSteps (T : Type) `{Splitter T} := {
  ss_ok : T -> Prop;
  ss_step : T -> Z -> bool * T;
  ss_size : T -> Z;
  ss_min : T -> Z;
  ss_cut s l : ss_ok s -> NextSplitPoint s l = cut ss_step s l;
  ss_keeps s x : ss_ok s -> ss_ok (ss_step s x).2 /\ ss_min (ss_step s x).2 = ss_min s
    /\ MaxSegmentSize (ss_step s x).2 = MaxSegmentSize s;
  ss_grows s x : ss_ok s -> if (ss_step s x).1
    then ss_min s <= ss_size s + 1 /\ ss_size (ss_step s x).2 = 0
    else ss_size (ss_step s x).2 = ss_size s + 1;
  ss_bounds s : ss_ok s -> 0 <= ss_size s < MaxSegmentSize s /\ 1 <= ss_min s
}.

(** ** The fixed splitter *)

Definition fixed_step (s : fixedSplitter) (_ : Z) : bool * fixedSplitter :=
  if fs_chunkLength s <=? fs_cur s + 1 then (true, mkFixed 0 (fs_chunkLength s))
  else (false, mkFixed (fs_cur s + 1) (fs_chunkLength s)).

Definition fixed_ok (s : fixedSplitter) : Prop := 0 <= fs_cur s < fs_chunkLength s.

Lemma fixed_cut s l : fixed_ok s -> fixed_NextSplitPoint s l = cut fixed_step s l.
Proof.
  unfold fixed_ok. revert s. induction l as [|x l IH]; intros s Hs; unfold fixed_NextSplitPoint.
  - rewrite (proj2 (Z.ltb_lt _ _)) by (unfold slen; cbn; lia). cbn [cut]. f_equal. destruct s; cbn. f_equal; unfold slen; cbn; lia.
  - cbn [cut]. unfold fixed_step at 1. destruct (Z.leb_spec (fs_chunkLength s) (fs_cur s + 1)).
    + rewrite (proj2 (Z.ltb_ge _ _)) by (unfold slen; cbn [length]; lia). f_equal. lia.
    + rewrite <- IH by (cbn; lia). unfold fixed_NextSplitPoint. cbn [fs_chunkLength fs_cur].
      replace (slen (x :: l) <? fs_chunkLength s - fs_cur s) with (slen l <? fs_chunkLength s - (fs_cur s + 1)).
      2: { unfold slen. cbn [length]. destruct (Z.ltb_spec (Z.of_nat (length l)) (fs_chunkLength s - (fs_cur s + 1)));
           symmetry; [apply Z.ltb_lt|apply Z.ltb_ge]; lia. }
      destruct (Z.ltb_spec (slen l) (fs_chunkLength s - (fs_cur s + 1))); cbn [fst].
      * rewrite (proj2 (Z.ltb_lt _ _)) by lia. f_equal. f_equal. unfold slen. cbn [length]. lia.
      * rewrite (proj2 (Z.ltb_ge _ _)) by lia. f_equal. lia.
Qed.

#[export] Instance fixed_steps : SplitterSteps fixedSplitter.
Proof.
  refine {| ss_ok := fixed_ok; ss_step := fixed_step; ss_size := fs_cur; ss_min := fs_chunkLength |}.
  - apply fixed_cut.
  - unfold fixed_ok, fixed_step. intros s x Hs. destruct (Z.leb_spec (fs_chunkLength s) (fs_cur s + 1)); cbn; split_and!; lia || done.
  - unfold fixed_ok, fixed_step. intros s x Hs. destruct (Z.leb_spec (fs_chunkLength s) (fs_cur s + 1)); cbn; lia.
  - unfold fixed_ok. cbn. lia.
Defined.

(** ** The dynamic splitters *)

Lemma length_Roll w b : w <> [] -> length (Roll w b) = length w.
Proof. intros Hw. unfold Roll. rewrite length_app, length_drop. cbn. destruct w; [done|]. cbn. lia. Qed.

(** After rolling [l] in, the window holds the last bytes. *)
Lemma foldl_Roll w l : w <> [] -> foldl Roll w l = drop (length l) (w ++ l).
Proof.
  intros Hw. revert w Hw. induction l as [|b l IH]; intros w Hw; [by rewrite app_nil_r|]. cbn [foldl length].
  rewrite IH by (unfold Roll; by destruct (drop 1 w)). destruct w as [|x w]; [done|].
  unfold Roll. cbn [drop app]. by rewrite <- app_assoc.
Qed.

(** Only the last bytes, as many as the window has, matter. *)
Lemma foldl_Roll_skip w l i : w <> [] -> (i + length w <= length l)%nat \/ i = 0%nat -> foldl Roll w (drop i l) = foldl Roll w l.
Proof.
  intros Hw [Hi| ->]; [|by rewrite drop_0]. rewrite !foldl_Roll, length_drop by done.
  rewrite (drop_app_ge w l), (drop_app_ge w (drop i l)) by lia. rewrite drop_drop. f_equal. lia.
Qed.

Section Dynamic.
Context (digest : list Z -> Z).

Definition dyn_step (rs : dynSplitter) (b : Z) : bool * dynSplitter :=
  let rh := Roll (ds_rh rs) b in
  let count := ds_count rs + 1 in
  let split := (ds_minSize rs <=? count) && (Z.land (digest rh) (ds_mask rs) =? 0) || (ds_maxSize rs <=? count) in
  (split, with_count rs rh (if split then 0 else count)).

Record dyn_ok (rs : dynSplitter) : Prop := {
  dyn_window : length (ds_rh rs) = splitterSlidingWindowSize;
  dyn_count : 0 <= ds_count rs < ds_maxSize rs;
  dyn_sizes : 1 <= ds_minSize rs <= ds_maxSize rs
}.

Lemma dyn_window_ne rs : dyn_ok rs -> ds_rh rs <> [].
Proof. intros [Hw _ _] E. by rewrite E in Hw. Qed.

Lemma dyn_step_ok rs b : dyn_ok rs -> dyn_ok (dyn_step rs b).2.
Proof.
  intros Hok. pose proof (dyn_window_ne rs Hok). destruct Hok as [Hw Hc Hs]. unfold dyn_step.
  set (split := _ || _). assert (split = false -> ds_count rs + 1 < ds_maxSize rs) as Hsp.
  { intros E. apply orb_false_iff in E as [_ E]. bool_to_prop. lia. }
  cbn [snd]. split; cbn.
  - by rewrite length_Roll.
  - destruct split; [lia|]. specialize (Hsp eq_refl). lia.
  - lia.
Qed.

(** Below the minimum nothing is cut. *)
Lemma dyn_cut_fast rs l : dyn_ok rs -> ds_count rs + slen l <= ds_minSize rs - 1 ->
  cut dyn_step rs l = (-1, with_count rs (foldl Roll (ds_rh rs) l) (ds_count rs + slen l)).
Proof.
  revert rs. induction l as [|b l IH]; intros rs Hok Hl.
  { cbn. f_equal. destruct rs; unfold with_count, slen; cbn. f_equal. lia. }
  pose proof (dyn_step_ok rs b Hok) as Hok'. unfold slen in *. cbn [cut length foldl] in *.
  destruct Hok as [Hw Hc Hs]. unfold dyn_step in *.
  rewrite (proj2 (Z.leb_gt (ds_minSize rs) _)), (proj2 (Z.leb_gt (ds_maxSize rs) _)) in * by lia. cbn [andb orb] in *.
  rewrite IH; [|exact Hok'|cbn; lia]. cbn. f_equal. unfold with_count. cbn. f_equal. lia.
Qed.

(** From the minimum on, the loop finds what the steps find. *)
Lemma dyn_cut_scan rs l j : dyn_ok rs -> ds_minSize rs - 1 <= ds_count rs -> ds_count rs + slen l <= ds_maxSize rs ->
  cut dyn_step rs l
  = match scan digest rs j l with
    | (Some i, rs') => (i - j + 1, rs')
    | (None, rs') => if ds_maxSize rs' <=? ds_count rs' then (slen l, with_count rs' (ds_rh rs') 0) else (-1, rs')
    end /\ (forall i, (scan digest rs j l).1 = Some i -> j <= i).
Proof.
  revert rs j. induction l as [|b l IH]; intros rs j Hok Hmin Hmax.
  { cbn. destruct Hok as [_ Hc _]. rewrite (proj2 (Z.leb_gt _ _)) by lia. done. }
  pose proof (dyn_step_ok rs b Hok) as Hok'. unfold slen in *. cbn [cut scan length] in *. destruct Hok as [Hw Hc Hs].
  unfold dyn_step in *. rewrite (proj2 (Z.leb_le (ds_minSize rs) _)) in * by lia. cbn [andb] in *. cbn [ds_rh ds_mask ds_count with_count] in *.
  destruct (Z.eqb_spec (Z.land (digest (Roll (ds_rh rs) b)) (ds_mask rs)) 0) as [E|E]; cbn [orb] in *.
  { split; [f_equal; lia|]. intros i [= <-]. done. }
  destruct (Z.leb_spec (ds_maxSize rs) (ds_count rs + 1)) as [Hm|Hm].
  - destruct l as [|b' l]; [|cbn [length] in *; lia]. cbn [scan ds_maxSize ds_count with_count].
    rewrite (proj2 (Z.leb_le _ _)) by lia. done.
  - destruct (IH (with_count rs (Roll (ds_rh rs) b) (ds_count rs + 1)) (j + 1)) as [-> Hj]; [exact Hok'|cbn; lia|cbn; lia|].
    destruct (scan digest _ (j + 1) l) as [[i|] rs'] eqn:Es; cbn [fst] in Hj.
    + specialize (Hj i eq_refl). rewrite (proj2 (Z.ltb_ge _ _)) by lia. split; [f_equal; lia|].
      intros ? [= <-]. lia.
    + split; [|done]. destruct (Z.leb_spec (ds_maxSize rs') (ds_count rs')).
      * rewrite (proj2 (Z.ltb_ge _ _)) by lia. f_equal. lia.
      * done.
Qed.
Lemma scan_None_count rs j l rs' : scan digest rs j l = (None, rs') ->
  ds_count rs' = ds_count rs + slen l /\ ds_maxSize rs' = ds_maxSize rs.
Proof.
  revert rs j. induction l as [|b l IH]; intros rs j; cbn [scan].
  { intros [= <-]. unfold slen. cbn. lia. }
  destruct (_ =? 0); [done|]. intros [Hc Hm]%IH. cbn in Hc, Hm. unfold slen in *. cbn [length]. lia.
Qed.

(** The second half of [NextSplitPoint], from a state past the minimum. *)
Lemma dyn_cut_slow rs b : dyn_ok rs -> ds_minSize rs - 1 <= ds_count rs ->
  let fp := Z.min (ds_maxSize rs - ds_count rs) (slen b) in
  cut dyn_step rs b
  = match scan digest rs 0 (take (Z.to_nat fp) b) with
    | (Some i, rs') => (i + 1, rs')
    | (None, rs') => if ds_maxSize rs' <=? ds_count rs' then (fp, with_count rs' (ds_rh rs') 0) else (-1, rs')
    end.
Proof.
  intros Hok Hmin fp. pose proof (dyn_count _ Hok).
  assert (slen (take (Z.to_nat fp) b) = fp) as Hfp by (unfold fp in *; unfold slen in *; rewrite length_take; lia).
  destruct (dyn_cut_scan rs (take (Z.to_nat fp) b) 0 Hok Hmin) as [Hcut Hj]; [lia|].
  rewrite <- (take_drop (Z.to_nat fp) b) at 1. rewrite Hfp in Hcut.
  destruct (scan digest rs 0 (take (Z.to_nat fp) b)) as [[i|] rs'] eqn:Es.
  - specialize (Hj i eq_refl). apply cut_app_some; [rewrite Hcut; f_equal; lia|lia].
  - destruct (Z.leb_spec (ds_maxSize rs') (ds_count rs')).
    + apply cut_app_some; [done|]. rewrite <- Hfp. apply slen_nonneg.
    + rewrite (cut_app_none _ _ _ _ _ Hcut). apply scan_None_count in Es as [Hc Hm].
      assert (drop (Z.to_nat fp) b = []) as ->; [|done]. apply length_zero_iff_nil. rewrite length_drop. unfold fp in *. unfold slen in *. lia.
Qed.

(** The cuts of [NextSplitPoint] are those of the steps. *)
Lemma dyn_cut rs b : dyn_ok rs -> dyn_NextSplitPoint digest rs b = cut dyn_step rs b.
Proof.
  intros Hok. pose proof (dyn_count _ Hok) as Hc. pose proof (dyn_sizes _ Hok) as Hs. unfold dyn_NextSplitPoint.
  destruct (Z.ltb_spec 0 (ds_minSize rs - ds_count rs - 1)) as [Hleft|Hleft].
  - set (fast := Z.min _ (slen b)). assert (0 <= fast <= slen b) as Hf by (pose proof (slen_nonneg b); unfold fast; lia).
    assert (slen (take (Z.to_nat fast) b) = fast) as Hsl by (unfold slen in *; rewrite length_take; lia).
    rewrite foldl_Roll_skip; [|by apply dyn_window_ne|].
    2: { rewrite (dyn_window _ Hok). unfold slen in Hsl. unfold splitterSlidingWindowSize. lia. }
    set (rs1 := with_count rs _ (ds_count rs + fast)).
    assert (cut dyn_step rs (take (Z.to_nat fast) b) = (-1, rs1)) as Hcut.
    { rewrite dyn_cut_fast; [by rewrite Hsl|done|rewrite Hsl; unfold fast; lia]. }
    assert (dyn_ok rs1) as Hok1.
    { split; [|unfold rs1; cbn; unfold fast; lia|unfold rs1; cbn; lia]. unfold rs1; cbn [ds_rh with_count].
      rewrite foldl_Roll, length_drop, length_app by by apply dyn_window_ne. rewrite (dyn_window _ Hok). lia. }
    rewrite <- (take_drop (Z.to_nat fast) b) at 3. rewrite (cut_app_none _ _ _ _ _ Hcut), Hsl.
    rewrite (proj2 (Z.ltb_lt 0 _)) by (pose proof (dyn_count _ Hok1); lia).
    destruct (decide (ds_minSize rs1 - 1 <= ds_count rs1)) as [Hm|Hm].
    + rewrite (dyn_cut_slow rs1 _ Hok1 Hm). set (fp := Z.min _ (slen (drop _ b))).
      assert (0 <= fp) by (pose proof (dyn_count _ Hok1); pose proof (slen_nonneg (drop (Z.to_nat fast) b)); unfold fp; lia).
      pose proof (proj2 (dyn_cut_scan rs1 (take (Z.to_nat fp) (drop (Z.to_nat fast) b)) 0 Hok1 Hm
        ltac:(unfold fp in *; unfold slen in *; rewrite length_take; lia))) as Hj.
      destruct (scan digest rs1 0 _) as [[i|] rs'].
      * specialize (Hj i eq_refl). rewrite (proj2 (Z.ltb_ge _ _)) by lia. f_equal. lia.
      * destruct (ds_maxSize rs' <=? ds_count rs'); [|done]. by rewrite (proj2 (Z.ltb_ge _ _)) by lia.
    + assert (drop (Z.to_nat fast) b = []) as ->.
      { apply length_zero_iff_nil. rewrite length_drop. unfold rs1, fast in *. unfold slen in *. cbn in Hm. lia. }
      rewrite take_nil. cbn [scan cut]. pose proof (dyn_count _ Hok1). by rewrite (proj2 (Z.leb_gt _ _)) by lia.
  - cbn [Z.to_nat drop]. rewrite drop_0, (proj2 (Z.ltb_lt 0 _)) by lia.
    rewrite (dyn_cut_slow rs b Hok) by lia. destruct (scan digest rs 0 _) as [[i|] rs']; [f_equal; lia|].
    by destruct (ds_maxSize rs' <=? ds_count rs').
Qed.
End Dynamic.

Section DynamicSteps.
Context (digest : list Z -> Z).

Lemma dyn_step_grows rs x : dyn_ok rs -> if (dyn_step digest rs x).1
  then ds_minSize rs <= ds_count rs + 1 /\ ds_count (dyn_step digest rs x).2 = 0
  else ds_count (dyn_step digest rs x).2 = ds_count rs + 1.
Proof.
  intros [_ Hc Hs]. unfold dyn_step. cbn [fst snd ds_count with_count].
  destruct (Z.leb_spec (ds_minSize rs) (ds_count rs + 1)), (Z.leb_spec (ds_maxSize rs) (ds_count rs + 1)),
    (Z.land _ _ =? 0); cbn; lia.
Qed.
End DynamicSteps.

Section Any.
Context `{RollingHashes}.

Definition any_ok (s : anySplitter) : Prop :=
  match s with FixedSplitter s => fixed_ok s | BuzHash32Splitter s | RabinKarp64Splitter s => dyn_ok s end.

Definition any_step (s : anySplitter) (x : Z) : bool * anySplitter :=
  match s with
  | FixedSplitter s => let '(b, s) := fixed_step s x in (b, FixedSplitter s)
  | BuzHash32Splitter s => let '(b, s) := dyn_step buzhash32_sum s x in (b, BuzHash32Splitter s)
  | RabinKarp64Splitter s => let '(b, s) := dyn_step rabinkarp64_sum s x in (b, RabinKarp64Splitter s)
  end.

Definition any_size (s : anySplitter) : Z :=
  match s with FixedSplitter s => fs_cur s | BuzHash32Splitter s | RabinKarp64Splitter s => ds_count s end.

Definition any_min (s : anySplitter) : Z :=
  match s with FixedSplitter s => fs_chunkLength s | BuzHash32Splitter s | RabinKarp64Splitter s => ds_minSize s end.

(** Scans of steps that correspond are scans that correspond. *)
Lemma cut_map {A B} (f : A -> B) (stepA : A -> Z -> bool * A) (stepB : B -> Z -> bool * B) s l :
  (forall s x, stepB (f s) x = let '(b, s') := stepA s x in (b, f s')) ->
  cut stepB (f s) l = let '(n, s') := cut stepA s l in (n, f s').
Proof.
  intros Hf. revert s. induction l as [|x l IH]; intros s; [done|]. cbn [cut]. rewrite Hf.
  destruct (stepA s x) as [[] s']; [done|]. rewrite IH. by destruct (cut stepA s' l).
Qed.

#[export] Instance any_steps : SplitterSteps anySplitter.
Proof.
  refine {| ss_ok := any_ok; ss_step := any_step; ss_size := any_size; ss_min := any_min |}.
  - intros [s|s|s] l Hs; cbn [NextSplitPoint any_Splitter]; [rewrite (fixed_cut s l Hs)|rewrite (dyn_cut buzhash32_sum s l Hs)|rewrite (dyn_cut rabinkarp64_sum s l Hs)];
      symmetry; by apply cut_map.
  - intros [s|s|s] x Hs; cbn [any_step].
    + pose proof (ss_keeps s x Hs) as Hk. cbn in Hk. by destruct (fixed_step s x).
    + pose proof (dyn_step_ok buzhash32_sum s x Hs) as Hk. by destruct (dyn_step buzhash32_sum s x) eqn:E; injection E as <- <-.
    + pose proof (dyn_step_ok rabinkarp64_sum s x Hs) as Hk. by destruct (dyn_step rabinkarp64_sum s x) eqn:E; injection E as <- <-.
  - intros [s|s|s] x Hs; cbn [any_step any_size any_min].
    + pose proof (ss_grows s x Hs) as Hk. cbn in Hk. by destruct (fixed_step s x).
    + pose proof (dyn_step_grows buzhash32_sum s x Hs) as Hk. by destruct (dyn_step buzhash32_sum s x).
    + pose proof (dyn_step_grows rabinkarp64_sum s x Hs) as Hk. by destruct (dyn_step rabinkarp64_sum s x).
  - intros [s|s|s]; cbn; [unfold fixed_ok; lia|intros [? ? ?]; lia|intros [? ? ?]; lia].
Defined.

(** The class's laws at the registered splitters. *)
Lemma any_cut s l : any_ok s -> NextSplitPoint s l = cut (ss_step (T := anySplitter)) s l.
Proof. intros Hs. exact (ss_cut (SplitterSteps := any_steps) s l Hs). Qed.

Lemma any_keeps s x : any_ok s -> any_ok (ss_step (T := anySplitter) s x).2 /\ any_min (ss_step (T := anySplitter) s x).2 = any_min s.
Proof. intros Hs. by destruct (ss_keeps (SplitterSteps := any_steps) s x Hs) as (? & ? & _). Qed.

(** Every registered splitter starts well-formed, and a reset one is like new:
    taking a splitter from the pool is taking a new one. *)
Lemma factories_ok name s : GetFactory name = Some s ->
  any_ok s /\ any_size s = 0 /\ Z.shiftl 128 10 <= any_min s * 2 /\ splitter_Reset s = s.
Proof.
  unfold GetFactory. intros Hs%elem_of_list_to_map_2.
  enough (Forall (fun p => any_ok p.2 /\ any_size p.2 = 0 /\ Z.shiftl 128 10 <= any_min p.2 * 2 /\ splitter_Reset p.2 = p.2)
    (((fun p => ("FIXED-" +:+ p.1, FixedSplitter (Fixed p.2))) <$> sizes)
    ++ ((fun p => ("DYNAMIC-" +:+ p.1 +:+ "-BUZHASH", BuzHash32Splitter (newBuzHash32Splitter p.2))) <$> sizes)
    ++ ((fun p => ("DYNAMIC-" +:+ p.1 +:+ "-RABINKARP", RabinKarp64Splitter (newRabinKarp64Splitter p.2))) <$> sizes)
    ++ [("FIXED", FixedSplitter (Fixed (Z.shiftl 4 20)));
        ("DYNAMIC", BuzHash32Splitter (newBuzHash32Splitter (Z.shiftl 4 20)))])) as Hall
    by (rewrite Forall_forall in Hall; exact (Hall (name, s) Hs)).
  cbn [app fmap list_fmap sizes].
  repeat (constructor; [split; [first [by vm_compute|by split; vm_compute]|split; [done|split; [by vm_compute|done]]]|]).
  constructor.
Qed.
End Any.

(** ** Chunks *)

Section Chunks.
Context {T : Type} `{SplitterSteps T}.

(** The chunks a stream is cut into: [cur] is the chunk in progress. *)
Fixpoint chop (s : T) (cur l : list Z) : list (list Z) * list Z * T :=
  match l with
  | [] => ([], cur, s)
  | x :: l =>
      let '(split, s) := ss_step s x in
      if split then let '(cs, r, s) := chop s [] l in ((cur ++ [x]) :: cs, r, s)
      else chop s (cur ++ [x]) l
  end.

Lemma chop_app s cur l m : chop s cur (l ++ m)
  = let '(cs, r, s) := chop s cur l in let '(cs', r', s) := chop s r m in (cs ++ cs', r', s).
Proof.
  revert s cur. induction l as [|x l IH]; intros s cur; cbn [app chop].
  - by destruct (chop s cur m) as [[? ?] ?].
  - destruct (ss_step s x) as [[] s']; [|apply IH]. rewrite IH.
    destruct (chop s' [] l) as [[cs r] s'']. by destruct (chop s'' r m) as [[? ?] ?].
Qed.

(** Cut by cut. *)
Lemma chop_cut s cur l : chop s cur l = let '(n, s') := cut ss_step s l in
  if n <? 0 then ([], cur ++ l, s')
  else let '(cs, r, s'') := chop s' [] (drop (Z.to_nat n) l) in ((cur ++ take (Z.to_nat n) l) :: cs, r, s'').
Proof.
  revert s cur. induction l as [|x l IH]; intros s cur; cbn [chop cut]; [by rewrite app_nil_r|].
  destruct (ss_step s x) as [[] s']; [done|]. rewrite IH. pose proof (cut_range ss_step s' l) as Hr.
  destruct (cut ss_step s' l) as [n s'']. cbn [fst] in Hr. destruct (Z.ltb_spec n 0).
  - cbn [Z.ltb Z.compare]. by rewrite <- app_assoc.
  - rewrite (proj2 (Z.ltb_ge _ _)) by lia. replace (Z.to_nat (n + 1)) with (S (Z.to_nat n)) by lia.
    cbn [drop take]. destruct (chop s'' [] (drop (Z.to_nat n) l)) as [[? ?] ?]. by rewrite <- app_assoc.
Qed.

Lemma chop_concat s cur l : let '(cs, r, _) := chop s cur l in concat cs ++ r = cur ++ l.
Proof.
  revert s cur. induction l as [|x l IH]; intros s cur; cbn [chop]; [by rewrite app_nil_r|].
  destruct (ss_step s x) as [[] s'].
  - specialize (IH s' []). destruct (chop s' [] l) as [[cs r] s'']. cbn [concat]. cbn in IH.
    by rewrite <- app_assoc, IH, <- app_assoc.
  - specialize (IH s' (cur ++ [x])). destruct (chop s' (cur ++ [x]) l) as [[cs r] s'']. by rewrite IH, <- app_assoc.
Qed.

(** Complete chunks are within the sizes, and the one in progress is below the maximum. *)
Lemma chop_sizes s cur l : ss_ok s -> ss_size s = slen cur ->
  let '(cs, r, s') := chop s cur l in
  Forall (fun c => ss_min s <= slen c <= MaxSegmentSize s) cs /\ slen r < MaxSegmentSize s
  /\ ss_ok s' /\ ss_size s' = slen r /\ ss_min s' = ss_min s /\ MaxSegmentSize s' = MaxSegmentSize s.
Proof.
  revert s cur. induction l as [|x l IH]; intros s cur Hok Hsz; cbn [chop].
  { pose proof (ss_bounds s Hok). split_and!; [constructor|lia|done..]. }
  pose proof (ss_keeps s x Hok) as (Hok' & Hmin & Hmax). pose proof (ss_grows s x Hok) as Hg.
  pose proof (ss_bounds s Hok) as Hb. destruct (ss_step s x) as [[] s'] eqn:Es; cbn [fst snd] in *.
  - destruct Hg as [Hge Hz]. specialize (IH s' [] Hok' Hz). destruct (chop s' [] l) as [[cs r] s''].
    rewrite Hmin, Hmax in IH. destruct IH as (IH & ?). split; [|done]. constructor; [|done].
    rewrite slen_app. change (slen [x]) with 1. lia.
  - specialize (IH s' (cur ++ [x]) Hok'). rewrite slen_app in IH. change (slen [x]) with 1 in IH.
    specialize (IH ltac:(lia)). destruct (chop s' (cur ++ [x]) l) as [[cs r] s'']. by rewrite Hmin, Hmax in IH.
Qed.
End Chunks.

(** ** Streams in pieces *)

Section Streams.
Context `{RollingHashes}.

(** Asking for split points until a piece is used up, as [Write] does. *)
Fixpoint split_piece (turns : nat) (s : anySplitter) (cur data : list Z) : list (list Z) * list Z * anySplitter :=
  match data, turns with
  | [], _ | _, O => ([], cur, s)
  | _, S turns =>
      let '(n, s) := NextSplitPoint s data in
      if n <? 0 then ([], cur ++ data, s)
      else let '(cs, r, s) := split_piece turns s [] (drop (Z.to_nat n) data) in
           ((cur ++ take (Z.to_nat n) data) :: cs, r, s)
  end.

(** The complete chunks of a stream handed over in pieces, what is left, and the splitter. *)
Fixpoint split_pieces (s : anySplitter) (cur : list Z) (pieces : list (list Z)) : list (list Z) * list Z * anySplitter :=
  match pieces with
  | [] => ([], cur, s)
  | p :: pieces =>
      let '(cs, r, s) := split_piece (length p) s cur p in
      let '(cs', r, s) := split_pieces s r pieces in
      (cs ++ cs', r, s)
  end.

Lemma split_piece_chop turns : forall s cur data, any_ok s -> (length data <= turns)%nat ->
  split_piece turns s cur data = chop s cur data /\ any_ok (snd (chop s cur data)).
Proof.
  induction turns as [|turns IH]; intros s cur data Hok Hlen; (destruct data as [|x l]; [done|]); [cbn in Hlen; lia|].
  cbn [split_piece]. rewrite chop_cut, <- (any_cut s (x :: l) Hok).
  assert (any_ok (snd (NextSplitPoint s (x :: l))) /\ (fst (NextSplitPoint s (x :: l)) < 0 \/ 1 <= fst (NextSplitPoint s (x :: l)))) as [Hok' Hn].
  { rewrite (any_cut s (x :: l) Hok). split; [|pose proof (cut_range (ss_step (T := anySplitter)) s (x :: l)); lia].
    clear Hlen IH. revert s Hok. induction (x :: l) as [|y m IHm]; intros s Hok; [done|]. cbn [cut].
    pose proof (any_keeps s y Hok) as [Hk _]. destruct (ss_step s y) as [[] s']; [done|]. specialize (IHm s' Hk). by destruct (cut _ s' m). }
  destruct (NextSplitPoint s (x :: l)) as [n s']. cbn [fst snd] in *. destruct (Z.ltb_spec n 0); [done|].
  destruct (IH s' [] (drop (Z.to_nat n) (x :: l)) Hok') as [-> Hs]; [rewrite length_drop; cbn in *; lia|].
  by destruct (chop s' [] _) as [[cs r] s''].
Qed.

Lemma split_pieces_chop pieces : forall s cur, any_ok s ->
  split_pieces s cur pieces = chop s cur (concat pieces) /\ any_ok (snd (chop s cur (concat pieces))).
Proof.
  induction pieces as [|p pieces IH]; intros s cur Hok; [done|]. cbn [split_pieces concat].
  destruct (split_piece_chop (length p) s cur p Hok (le_n _)) as [-> Hok']. rewrite chop_app.
  destruct (chop s cur p) as [[cs r] s']. cbn [snd] in Hok'. destruct (IH s' r Hok') as [-> Hok''].
  by destruct (chop s' r (concat pieces)) as [[cs' r'] s''].
Qed.

(** Resetting forgets everything the bytes did. *)
Lemma reset_step s x : splitter_Reset (ss_step (T := anySplitter) s x).2 = splitter_Reset s.
Proof.
  destruct s as [s|s|s]; cbn; [unfold fixed_step; by destruct (_ <=? _)|done|done].
Qed.

Lemma reset_chop l : forall s cur, splitter_Reset (snd (chop s cur l)) = splitter_Reset (s : anySplitter).
Proof.
  induction l as [|x l IH]; intros s cur; [done|]. cbn [chop]. pose proof (reset_step s x) as Hr.
  destruct (ss_step s x) as [[] s']; cbn [snd] in Hr.
  - specialize (IH s' []). destruct (chop s' [] l) as [[cs r] s'']. cbn [snd] in *. by rewrite IH.
  - by rewrite IH.
Qed.

(** C29.  The cuts of every registered splitter depend on the bytes alone: however
    a stream is grouped into calls, the complete chunks, what is left over and
    the splitter after it are those of one call with the whole stream, the
    chunks and the rest are the stream; and the splitter, once reset for the
    pool, is a new one. *)
Theorem cuts_by_content (name : string) (s : anySplitter) (pieces : list (list Z)) :
  GetFactory name = Some s ->
  split_pieces s [] pieces = split_pieces s [] [concat pieces]
  /\ (let '(cs, r, s') := split_pieces s [] pieces in concat cs ++ r = concat pieces /\ splitter_Reset s' = s).
Proof.
  intros Hf. destruct (factories_ok name s Hf) as (Hok & _ & _ & Hreset).
  destruct (split_pieces_chop pieces s [] Hok) as [-> _]. destruct (split_pieces_chop [concat pieces] s [] Hok) as [-> _].
  cbn [concat]. rewrite app_nil_r. split; [done|]. pose proof (chop_concat s [] (concat pieces)) as Hc.
  pose proof (reset_chop (concat pieces) s []) as Hr. destruct (chop s [] (concat pieces)) as [[cs r] s']. cbn [snd] in Hr. by rewrite Hr.
Qed.

(** Every complete chunk of a registered splitter has at least half of 128
    KiB and its own minimum, and at most the size it advertises; what is left
    over is below that. *)
Theorem chunk_sizes (name : string) (s : anySplitter) (pieces : list (list Z)) :
  GetFactory name = Some s ->
  let '(cs, r, _) := split_pieces s [] pieces in
  Forall (fun c => 65536 <= any_min s /\ any_min s <= slen c <= MaxSegmentSize s) cs /\ slen r < MaxSegmentSize s.
Proof.
  intros Hf. destruct (factories_ok name s Hf) as (Hok & Hsz & Hmin & _). change (Z.shiftl 128 10) with 131072 in Hmin.
  destruct (split_pieces_chop pieces s [] Hok) as [-> _].
  pose proof (chop_sizes (T := anySplitter) s [] (concat pieces) Hok Hsz) as Hc. destruct (chop s [] (concat pieces)) as [[cs r] s'].
  destruct Hc as (Hc & Hr & _). split; [|done]. eapply Forall_impl; [exact Hc|]. change (ss_min s) with (any_min s). cbn beta. lia.
Qed.
End Streams.

(** Checksums to run the splitters with. *)
#[export] Instance sum_hashes : RollingHashes := {|
  buzhash32_sum w := foldl (fun a b => (a * 31 + b) `mod` 2 ^ 32) 0 w;
  rabinkarp64_sum w := foldl (fun a b => (a * 257 + b) `mod` 2 ^ 64) 0 w
|}.

Lemma cuts_by_content_witness :
  split_pieces (FixedSplitter (Fixed (Z.shiftl 128 10))) [] [[1]; replicate (Z.to_nat 131072) 2; [3]]
  = split_pieces (FixedSplitter (Fixed (Z.shiftl 128 10))) [] [concat [[1]; replicate (Z.to_nat 131072) 2; [3]]]
  /\ (let '(cs, r, s') := split_pieces (FixedSplitter (Fixed (Z.shiftl 128 10))) [] [[1]; replicate (Z.to_nat 131072) 2; [3]] in
      concat cs ++ r = concat [[1]; replicate (Z.to_nat 131072) 2; [3]] /\ splitter_Reset s' = FixedSplitter (Fixed (Z.shiftl 128 10))).
Proof. apply (cuts_by_content "FIXED-128K"). by vm_compute. Defined.

Lemma chunk_sizes_witness :
  let '(cs, r, _) := split_pieces (BuzHash32Splitter (newBuzHash32Splitter (Z.shiftl 4 20))) [] [[1; 2]; [3]] in
  Forall (fun c => 65536 <= any_min (BuzHash32Splitter (newBuzHash32Splitter (Z.shiftl 4 20)))
                   /\ any_min (BuzHash32Splitter (newBuzHash32Splitter (Z.shiftl 4 20))) <= slen c
                   <= MaxSegmentSize (BuzHash32Splitter (newBuzHash32Splitter (Z.shiftl 4 20)))) cs
  /\ slen r < MaxSegmentSize (BuzHash32Splitter (newBuzHash32Splitter (Z.shiftl 4 20))).
Proof. apply (chunk_sizes "DYNAMIC-4M-BUZHASH"). by vm_compute. Defined.
