(* ===== verification/Json.v ===== *)
(** * JSON

    What the repository uses of Go's [encoding/json]: the compact text the
    encoder writes, with its escapes, and the decoder's parser.  Numbers keep
    their literal, as the decoder converts them only when the target's type is
    known.  [parse_print] is the round trip on the values the repository
    writes. *)

From S2P Require Import Prelude GoStrings GoText IndexTable.
From Stdlib Require Import Ascii.

#[warnings="-register-all"]
Inductive json :=
| JNull
| JBool (b : bool)
| JNum (literal : list Z)
| JStr (s : string)
| JArr (l : list json)
| JObj (l : list (string * json)).

(** ** Strings *)

Definition hex4 (r : Z) : list Z :=
  code ∘ hexdigit <$> [(r / 4096) `mod` 16; (r / 256) `mod` 16; (r / 16) `mod` 16; r `mod` 16].

Definition plain_byte (b : Z) : bool :=
  between 32 126 b && negb (b =? 34) && negb (b =? 92) && negb (b =? 60) && negb (b =? 62) && negb (b =? 38) || (b =? 127).

(** One rune of [appendString], HTML characters escaped as the encoder does. *)
Definition escape_segment (g : segment) : list Z :=
  if seg_valid g then
    let r := seg_rune g in
    if r <? 128 then
      if plain_byte r then [r]
      else if (r =? 34) || (r =? 92) then [92; r]
      else if r =? 8 then [92; 98]
      else if r =? 12 then [92; 102]
      else if r =? 10 then [92; 110]
      else if r =? 13 then [92; 114]
      else if r =? 9 then [92; 116]
      else 92 :: 117 :: hex4 r
    else if (r =? 0x2028) || (r =? 0x2029) then 92 :: 117 :: hex4 r
    else seg_bytes g
  else 92 :: 117 :: hex4 0xFFFD.

Definition print_string (s : string) : list Z := 34 :: (segments (bytes s) ≫= escape_segment) ++ [34].

(** [utf8.AppendRune] *)
Definition utf8_encode (r : Z) : list Z :=
  if r <? 0x80 then [r]
  else if r <? 0x800 then [0xC0 + r / 64; 0x80 + r `mod` 64]
  else if between 0xD800 0xDFFF r || (0x10FFFF <? r) then [0xEF; 0xBF; 0xBD]
  else if r <? 0x10000 then [0xE0 + r / 4096; 0x80 + (r / 64) `mod` 64; 0x80 + r `mod` 64]
  else [0xF0 + r / 262144; 0x80 + (r / 4096) `mod` 64; 0x80 + (r / 64) `mod` 64; 0x80 + r `mod` 64].

Definition get4 (a b c d : Z) : option Z :=
  x ← unhex (chr a); y ← unhex (chr b); z ← unhex (chr c); w ← unhex (chr d);
  Some (((x * 16 + y) * 16 + z) * 16 + w).

(** The text after an opening quote: the string's bytes and what follows the
    closing quote.  A surrogate that has no partner is U+FFFD. *)
Fixpoint parse_string (l : list Z) : option (list Z * list Z) :=
  match l with
  | [] => None
  | b :: r =>
      let put bs := fun p : list Z * list Z => (bs ++ p.1, p.2) in
      if b =? 34 then Some ([], r)
      else if b <? 32 then None
      else if negb (b =? 92) then put [b] <$> parse_string r
      else match r with
      | [] => None
      | c :: r =>
          if (c =? 34) || (c =? 92) || (c =? 47) then put [c] <$> parse_string r
          else if c =? 98 then put [8] <$> parse_string r
          else if c =? 102 then put [12] <$> parse_string r
          else if c =? 110 then put [10] <$> parse_string r
          else if c =? 114 then put [13] <$> parse_string r
          else if c =? 116 then put [9] <$> parse_string r
          else if negb (c =? 117) then None
          else match r with
          | h1 :: h2 :: h3 :: h4 :: r =>
              u ← get4 h1 h2 h3 h4;
              match r with
              | e :: f :: g1 :: g2 :: g3 :: g4 :: r' =>
                  if between 0xD800 0xDBFF u && (e =? 92) && (f =? 117) then
                    match get4 g1 g2 g3 g4 with
                    | Some v =>
                        if between 0xDC00 0xDFFF v
                        then put (utf8_encode ((u - 0xD800) * 1024 + (v - 0xDC00) + 0x10000)) <$> parse_string r'
                        else put (utf8_encode u) <$> parse_string r
                    | None => put (utf8_encode u) <$> parse_string r
                    end
                  else put (utf8_encode u) <$> parse_string r
              | _ => put (utf8_encode u) <$> parse_string r
              end
          | _ => None
          end
      end
  end.

(** Malformed UTF-8 is replaced. *)
Definition coerce_utf8 (l : list Z) : string :=
  of_bytes (segments l ≫= fun g => if seg_valid g then seg_bytes g else utf8_encode 0xFFFD).

(** ** Values *)

Definition json_space (b : Z) : bool := (b =? 32) || (b =? 9) || (b =? 10) || (b =? 13).

Fixpoint skip_ws (l : list Z) : list Z :=
  match l with b :: r => if json_space b then skip_ws r else l | [] => [] end.

Definition num_byte (b : Z) : bool := between 48 57 b || (b =? 43) || (b =? 45) || (b =? 46) || (b =? 101) || (b =? 69).

Fixpoint span (p : Z -> bool) (l : list Z) : list Z * list Z :=
  match l with
  | b :: r => if p b then let '(x, y) := span p r in (b :: x, y) else ([], l)
  | [] => ([], [])
  end.

Definition digits_only (l : list Z) : bool := match l with [] => false | _ => forallb (between 48 57) l end.

(** The exponent, the fraction and the integer part of a number. *)
Definition valid_exp (l : list Z) : bool :=
  match l with
  | [] => true
  | e :: r => ((e =? 101) || (e =? 69)) &&
              match r with s :: r' => if (s =? 43) || (s =? 45) then digits_only r' else digits_only r | [] => false end
  end.

Definition valid_frac (l : list Z) : bool :=
  match l with
  | 46 :: r => let '(d, r) := span (between 48 57) r in digits_only d && valid_exp r
  | _ => valid_exp l
  end.

Definition valid_number (l : list Z) : bool :=
  let l := match l with 45 :: r => r | _ => l end in
  match l with
  | 48 :: r => valid_frac r
  | _ => let '(d, r) := span (between 48 57) l in digits_only d && valid_frac r
  end.

Definition match_word (w l : list Z) : option (list Z) :=
  if bool_decide (take (length w) l = w) then Some (drop (length w) l) else None.

Fixpoint parse_value (fuel : nat) (l : list Z) : option (json * list Z) :=
  match fuel with
  | O => None
  | S fuel =>
      match skip_ws l with
      | [] => None
      | c :: r =>
          if c =? 34 then '(s, r) ← parse_string r; Some (JStr (coerce_utf8 s), r)
          else if c =? 123 then '(m, r) ← parse_members fuel true r; Some (JObj m, r)
          else if c =? 91 then '(m, r) ← parse_elems fuel true r; Some (JArr m, r)
          else if c =? 116 then r ← match_word [114; 117; 101] r; Some (JBool true, r)
          else if c =? 102 then r ← match_word [97; 108; 115; 101] r; Some (JBool false, r)
          else if c =? 110 then r ← match_word [117; 108; 108] r; Some (JNull, r)
          else let '(n, r') := span num_byte (c :: r) in if valid_number n then Some (JNum n, r') else None
      end
  end
with parse_members (fuel : nat) (first : bool) (l : list Z) : option (list (string * json) * list Z) :=
  match fuel with
  | O => None
  | S fuel =>
      match skip_ws l with
      | [] => None
      | c :: r =>
          if (c =? 125) && first then Some ([], r)
          else if negb (c =? 34) then None
          else '(k, r) ← parse_string r;
               match skip_ws r with
               | 58 :: r =>
                   '(v, r) ← parse_value fuel r;
                   match skip_ws r with
                   | 44 :: r => '(m, r) ← parse_members fuel false r; Some ((coerce_utf8 k, v) :: m, r)
                   | 125 :: r => Some ([(coerce_utf8 k, v)], r)
                   | _ => None
                   end
               | _ => None
               end
      end
  end
with parse_elems (fuel : nat) (first : bool) (l : list Z) : option (list json * list Z) :=
  match fuel with
  | O => None
  | S fuel =>
      match skip_ws l with
      | [] => None
      | c :: _ =>
          if (c =? 93) && first then Some ([], drop 1 (skip_ws l))
          else '(v, r) ← parse_value fuel l;
               match skip_ws r with
               | 44 :: r => '(m, r) ← parse_elems fuel false r; Some (v :: m, r)
               | 93 :: r => Some ([v], r)
               | _ => None
               end
      end
  end.

(** [json.Decoder.Decode]: the first value of a stream.  Every turn of the
    parser consumes a byte, so that this fuel is enough. *)
Definition json_decode (l : list Z) : option json := fst <$> parse_value (S (length l)) l.

(** ** Printing *)

Fixpoint print_json (j : json) : list Z :=
  match j with
  | JNull => [110; 117; 108; 108]
  | JBool true => [116; 114; 117; 101]
  | JBool false => [102; 97; 108; 115; 101]
  | JNum n => n
  | JStr s => print_string s
  | JArr l =>
      91 :: match l with
            | [] => [93]
            | x :: l => print_json x ++ (fix go l := match l with [] => [93] | x :: l => 44 :: print_json x ++ go l end) l
            end
  | JObj l =>
      123 :: match l with
             | [] => [125]
             | (k, x) :: l =>
                 print_string k ++ 58 :: print_json x
                 ++ (fix go l := match l with
                                 | [] => [125]
                                 | (k, x) :: l => 44 :: print_string k ++ 58 :: print_json x ++ go l
                                 end) l
             end
  end.

(** The decimal literal of an integer. *)
Definition int_literal (z : Z) : list Z := bytes (FormatInt z).

(** A number read as an [int64]: an integer literal in range. *)
Definition json_int (j : json) : option Z :=
  match j with JNum n => ParseInt (of_bytes n) | _ => None end.

(** A member's name matches a field's when they are equal up to case; the long
    s and the Kelvin sign fold to s and k. *)
Fixpoint fold_key (l : list Z) : list Z :=
  match l with
  | [] => []
  | b :: r =>
      match r with
      | c :: r' =>
          if (b =? 0xC5) && (c =? 0xBF) then 115 :: fold_key r'
          else match r' with
               | d :: r'' =>
                   if (b =? 0xE2) && (c =? 0x84) && (d =? 0xAA) then 107 :: fold_key r''
                   else (if between 65 90 b then b + 32 else b) :: fold_key r
               | [] => (if between 65 90 b then b + 32 else b) :: fold_key r
               end
      | [] => [if between 65 90 b then b + 32 else b]
      end
  end.

Definition key_matches (field k : string) : bool := bool_decide (fold_key (bytes k) = fold_key (bytes field)).

Definition text (s : string) : list Z := bytes s.

Example json_ex :
  json_decode (text " [1, {}, true,-2.5e3]x") = Some (JArr [JNum (text "1"); JObj []; JBool true; JNum (text "-2.5e3")])
  /\ json_decode (text "[1,]") = None /\ json_decode (text "01") = None
  /\ json_decode (print_json (JObj [("a", JArr [JNum (text "12"); JNull]); ("b", JStr "x<y")]))
     = Some (JObj [("a", JArr [JNum (text "12"); JNull]); ("b", JStr "x<y")]).
Proof. vm_compute. repeat split. Qed.

(** ** Round trip *)

(** The values the repository writes: strings of characters that need no
    escape, and number literals. *)
Definition plain_string (s : string) : bool := forallb plain_byte (bytes s).

Definition plain_number (n : list Z) : bool :=
  forallb num_byte n && valid_number n && match n with c :: _ => (c =? 45) || between 48 57 c | [] => false end.

Fixpoint plain_json (j : json) : bool :=
  match j with
  | JNull | JBool _ => true
  | JNum n => plain_number n
  | JStr s => plain_string s
  | JArr l => forallb plain_json l
  | JObj l => forallb (fun p => plain_string p.1 && plain_json p.2) l
  end.

(** What may follow a value: not more of a number. *)
Definition follows (l : list Z) : Prop := match l with b :: _ => num_byte b = false | [] => True end.

Lemma json_nested_ind (P : json -> Prop) :
  P JNull -> (forall b, P (JBool b)) -> (forall n, P (JNum n)) -> (forall s, P (JStr s)) ->
  (forall l, Forall P l -> P (JArr l)) -> (forall l, Forall (fun p => P p.2) l -> P (JObj l)) -> forall j, P j.
Proof.
  intros Hnull Hb Hn Hs Ha Ho. fix IH 1. intros [|b|n|s|l|l]; [done|apply Hb|apply Hn|apply Hs|apply Ha|apply Ho];
    induction l as [|x l IHl]; constructor; auto.
Qed.

Definition print_elems (l : list json) : list Z := foldr (fun x acc => 44 :: print_json x ++ acc) [93] l.

Definition print_members (l : list (string * json)) : list Z :=
  foldr (fun p acc => 44 :: print_string p.1 ++ 58 :: print_json p.2 ++ acc) [125] l.

Lemma print_JArr x l : print_json (JArr (x :: l)) = 91 :: print_json x ++ print_elems l.
Proof. reflexivity. Qed.

Lemma print_JObj k x l : print_json (JObj ((k, x) :: l)) = 123 :: print_string k ++ 58 :: print_json x ++ print_members l.
Proof.
  cbn [print_json]. f_equal. f_equal. f_equal. f_equal. induction l as [|[k' y] l IH]; [done|]. cbn [print_members foldr fst snd]. fold (print_members l). by rewrite <- IH.
Qed.

Lemma plain_byte_range b : plain_byte b = true -> 32 <= b < 128 /\ b <> 34 /\ b <> 92.
Proof. unfold plain_byte, between. intros. bool_to_prop. lia. Qed.

Lemma segments_plain l : forallb plain_byte l = true -> segments l = (fun b => Segment b [b] true) <$> l.
Proof.
  induction l as [|b l IH]; [done|]. cbn [forallb segments]. intros [Hb Hl]%andb_true_iff.
  apply plain_byte_range in Hb. rewrite (proj2 (Z.ltb_lt _ _)) by lia. by rewrite IH.
Qed.

Lemma escape_plain b : plain_byte b = true -> escape_segment (Segment b [b] true) = [b].
Proof.
  intros Hb. unfold escape_segment. cbn [seg_valid seg_rune]. pose proof (plain_byte_range b Hb).
  by rewrite (proj2 (Z.ltb_lt _ _)), Hb by lia.
Qed.

Lemma print_plain s : plain_string s = true -> print_string s = 34 :: bytes s ++ [34].
Proof.
  intros Hs. unfold print_string, plain_string in *. rewrite segments_plain by done. f_equal. f_equal.
  induction (bytes s) as [|b l IH]; [done|]. cbn [forallb] in Hs. apply andb_true_iff in Hs as [Hb Hs].
  rewrite fmap_cons, bind_cons, escape_plain, IH by done. done.
Qed.

Lemma parse_string_plain l rest : forallb plain_byte l = true -> parse_string (l ++ 34 :: rest) = Some (l, rest).
Proof.
  induction l as [|b l IH]; [done|]. cbn [forallb app]. intros [Hb Hl]%andb_true_iff. apply plain_byte_range in Hb.
  cbn [parse_string]. rewrite (proj2 (Z.eqb_neq b 34)), (proj2 (Z.ltb_ge b 32)), (proj2 (Z.eqb_neq b 92)) by lia.
  cbn [negb]. by rewrite IH.
Qed.

Lemma coerce_plain s : plain_string s = true -> coerce_utf8 (bytes s) = s.
Proof.
  intros Hs. unfold coerce_utf8. rewrite segments_plain by done. rewrite <- (of_bytes_bytes s) at 2. f_equal.
  clear Hs. induction (bytes s) as [|b l IH]; [done|]. cbn. f_equal. apply IH.
Qed.

Lemma skip_ws_cons b l : json_space b = false -> skip_ws (b :: l) = b :: l.
Proof. cbn. by intros ->. Qed.

Lemma span_all p n rest : forallb p n = true -> match rest with b :: _ => p b = false | [] => True end ->
  span p (n ++ rest) = (n, rest).
Proof.
  intros Hn Hr. induction n as [|b n IH]; cbn in *.
  - destruct rest; [done|]. cbn. by rewrite Hr.
  - apply andb_true_iff in Hn as [-> Hn]. by rewrite IH.
Qed.

Lemma plain_number_head n : plain_number n = true -> exists c m, n = c :: m /\ 45 <= c <= 57.
Proof.
  unfold plain_number. destruct n as [|c m]; [by rewrite !andb_false_r|]. intros Hn. exists c, m. split; [done|].
  unfold between in Hn. bool_to_prop. lia.
Qed.

(** A printed value starts with a character that is no space, closes nothing
    and separates nothing. *)
Lemma print_head j : plain_json j = true -> exists c r, print_json j = c :: r /\ json_space c = false /\ c <> 93.
Proof.
  destruct j as [|[]|n|s|l|l]; cbn [plain_json]; intros Hp; try (by do 2 eexists).
  apply plain_number_head in Hp as (c & m & -> & Hc). exists c, m. split; [done|]. split; [|lia].
  unfold json_space. repeat (rewrite (proj2 (Z.eqb_neq _ _)) by lia). done.
Qed.

(** The parser reads back what the printer wrote, and leaves what follows. *)
Definition reads_back (j : json) : Prop := forall fuel rest,
  plain_json j = true -> (length (print_json j) <= fuel)%nat -> follows rest ->
  parse_value fuel (print_json j ++ rest) = Some (j, rest).

Lemma parse_elems_print l rest : forall fuel x first, Forall reads_back (x :: l) -> forallb plain_json (x :: l) = true ->
  (length (print_json x) + length (print_elems l) <= fuel)%nat ->
  parse_elems fuel first (print_json x ++ print_elems l ++ rest) = Some (x :: l, rest).
Proof.
  induction l as [|y l IHl]; intros fuel x first [IHx IH]%Forall_cons Hp Hfuel;
    cbn [forallb] in Hp; apply andb_true_iff in Hp as [Hx Hl];
    destruct (print_head x Hx) as (c & r & Ec & Hsp & H93); (destruct fuel as [|fuel]; [rewrite Ec in Hfuel; cbn in Hfuel; lia|]);
    cbn [parse_elems]; rewrite Ec at 1; cbn [app]; rewrite skip_ws_cons by done; rewrite (proj2 (Z.eqb_neq c 93)) by done;
    cbn [andb].
  - rewrite IHx; [done|done|cbn in Hfuel; lia|done].
  - cbn [print_elems foldr] in *. fold (print_elems l) in *. cbn [app length] in *. rewrite <- app_assoc. rewrite length_app in Hfuel.
    rewrite IHx; [|done|lia|done]. cbn. rewrite IHl; [done|done|done|cbn in *; lia].
Qed.

Lemma parse_members_print l rest : forall fuel k x first, Forall (fun p => reads_back p.2) ((k, x) :: l) ->
  forallb (fun p => plain_string p.1 && plain_json p.2) ((k, x) :: l) = true ->
  (length (print_string k) + S (length (print_json x) + length (print_members l)) <= fuel)%nat ->
  parse_members fuel first ((print_string k ++ 58 :: print_json x ++ print_members l) ++ rest) = Some ((k, x) :: l, rest).
Proof.
  induction l as [|[k' y] l IHl]; intros fuel k x first [IHx IH]%Forall_cons Hp Hfuel;
    cbn [forallb fst snd] in *; apply andb_true_iff in Hp as [[Hk Hx]%andb_true_iff Hl];
    (destruct fuel as [|fuel]; [lia|]); rewrite (print_plain k Hk) in *;
    cbn [parse_members app]; rewrite skip_ws_cons by done; cbn [Z.eqb Pos.eqb andb negb];
    rewrite <- !app_assoc; cbn [app]; rewrite (parse_string_plain (bytes k)) by done; cbn [mbind option_bind skip_ws json_space Z.eqb Pos.eqb orb];
    rewrite <- !app_assoc, (coerce_plain k Hk).
  - rewrite IHx; [done|done|cbn in Hfuel; lia|done].
  - cbn [print_members foldr] in *. fold (print_members l) in *. cbn [fst snd app length] in *.
    rewrite IHx; [|done|lia|done]. cbn [mbind option_bind skip_ws json_space Z.eqb Pos.eqb orb].
    rewrite !length_app in Hfuel. cbn [length] in Hfuel. rewrite !length_app in Hfuel.
    rewrite IHl; [done|done|done|cbn in *; lia].
Qed.

Lemma parse_print j : reads_back j.
Proof.
  induction j as [|b|n|s|l IH|l IH] using json_nested_ind; intros fuel rest Hp Hfuel Hrest;
    (destruct fuel as [|fuel]; [destruct (print_head _ Hp) as (? & ? & E & _); rewrite E in Hfuel; cbn in Hfuel; lia|]).
  - done.
  - by destruct b.
  - cbn [print_json plain_json] in *. pose proof (plain_number_head n Hp) as (c & m & -> & Hc). unfold plain_number in Hp.
    apply andb_true_iff in Hp as [[Hall Hv]%andb_true_iff _]. cbn [parse_value]. rewrite <- app_comm_cons, skip_ws_cons.
    2: { unfold json_space. repeat (rewrite (proj2 (Z.eqb_neq _ _)) by lia). done. }
    repeat (rewrite (proj2 (Z.eqb_neq c _)) by lia). rewrite app_comm_cons, (span_all num_byte) by done. by rewrite Hv.
  - cbn [print_json plain_json] in *. rewrite print_plain in * by done.
    cbn [parse_value app]. rewrite skip_ws_cons by done. cbn [Z.eqb]. rewrite Pos.eqb_refl, <- app_assoc.
    cbn [app]. rewrite parse_string_plain by done. cbn. by rewrite coerce_plain.
  - destruct l as [|x l]; [by destruct fuel as [|fuel]; [cbn in Hfuel; lia|]|].
    rewrite print_JArr in *. cbn [length] in Hfuel. rewrite length_app in Hfuel. cbn [parse_value app].
    rewrite skip_ws_cons by done. cbn [Z.eqb Pos.eqb]. rewrite <- app_assoc, parse_elems_print; [done|done|done|lia].
  - destruct l as [|[k x] l]; [by destruct fuel as [|fuel]; [cbn in Hfuel; lia|]|].
    rewrite print_JObj in *. cbn [length] in Hfuel. rewrite !length_app in Hfuel. cbn [length] in Hfuel.
    rewrite length_app in Hfuel. cbn [parse_value app]. rewrite skip_ws_cons by done. cbn [Z.eqb Pos.eqb].
    rewrite parse_members_print; [done|done|done|lia].
Qed.

Lemma json_decode_print j rest : plain_json j = true -> follows rest -> json_decode (print_json j ++ rest) = Some j.
Proof. intros Hp Hr. unfold json_decode. rewrite parse_print; [done|done|rewrite length_app; lia|done]. Qed.

(** ** Integer literals *)

Lemma code_digit z : 0 <= z < 10 -> code (digit z) = 48 + z.
Proof. intros Hz. unfold digit. by rewrite code_chr by lia. Qed.

Lemma digits_of_format fuel n acc : 0 <= n < 10 ^ Z.of_nat fuel -> digits (format_pos fuel n acc) 0 = digits acc n.
Proof.
  revert n acc. induction fuel as [|fuel IH]; intros n acc Hn; [cbn in *; by replace n with 0 by lia|]. cbn [format_pos].
  assert (0 <= n `mod` 10 < 10) as Hm by lia_div.
  assert (forall a, digits (String (digit (n `mod` 10)) acc) a = digits acc (a * 10 + n `mod` 10)) as Hd.
  { intros a. cbn [digits]. rewrite code_digit by done. unfold between. rewrite !(proj2 (Z.leb_le _ _)) by lia. cbn [andb]. f_equal. lia. }
  destruct (Z.ltb_spec n 10).
  - rewrite Hd. f_equal. lia_div.
  - rewrite IH; [rewrite Hd; f_equal; lia_div|]. rewrite Nat2Z.inj_succ, Z.pow_succ_r in Hn by lia. lia_div.
Qed.

Lemma format_pos_bytes fuel n acc : 0 <= n -> forallb (between 48 57) (bytes acc) = true ->
  forallb (between 48 57) (bytes (format_pos fuel n acc)) = true
  /\ (length (bytes (format_pos fuel n acc)) <= fuel + length (bytes acc))%nat.
Proof.
  revert n acc. induction fuel as [|fuel IH]; intros n acc Hn Hacc; [done|]. cbn [format_pos].
  assert (0 <= n `mod` 10 < 10) as Hm by lia_div.
  assert (forallb (between 48 57) (bytes (String (digit (n `mod` 10)) acc)) = true) as Hs.
  { cbn [bytes forallb]. rewrite Hacc, code_digit by done. unfold between. by rewrite !(proj2 (Z.leb_le _ _)) by lia. }
  destruct (Z.ltb_spec n 10); [split; [done|cbn; lia]|].
  destruct (IH (n / 10) (String (digit (n `mod` 10)) acc)) as [H1 H2]; [lia_div|done|]. split; [done|cbn in *; lia].
Qed.

Lemma format_pos_head fuel n acc : 1 <= n < 10 ^ Z.of_nat fuel ->
  exists c r, bytes (format_pos fuel n acc) = c :: r /\ 49 <= c <= 57.
Proof.
  revert n acc. induction fuel as [|fuel IH]; intros n acc Hn; [cbn in *; lia|]. cbn [format_pos].
  destruct (Z.ltb_spec n 10).
  - exists (48 + n), (bytes acc). cbn [bytes]. rewrite Z.mod_small, code_digit by lia. split; [done|lia].
  - apply IH. rewrite Nat2Z.inj_succ, Z.pow_succ_r in Hn by lia. lia_div.
Qed.

Lemma span_digits_all l : forallb (between 48 57) l = true -> span (between 48 57) l = (l, []).
Proof. intros Hl. rewrite <- (app_nil_r l) at 1. by apply span_all. Qed.

Lemma digits_plain_number c r : forallb (between 48 57) (c :: r) = true -> (c = 48 -> r = []) -> plain_number (c :: r) = true.
Proof.
  intros Hall Hz. unfold plain_number. apply andb_true_iff. split; [apply andb_true_iff; split|].
  - rewrite forallb_forall in *. intros x Hx. unfold num_byte. by rewrite (Hall x Hx).
  - assert (48 <= c <= 57) as Hc by (cbn [forallb] in Hall; unfold between in Hall at 1; bool_to_prop; lia).
    unfold valid_number. assert (match c :: r with 45 :: r' => r' | _ => c :: r end = c :: r) as ->.
    { destruct c as [|p|p]; try lia. do 6 (destruct p as [p|p|]; try lia; try done). }
    destruct (decide (c = 48)) as [->|Hne]; [by rewrite Hz|].
    assert (forall (A : Type) (f : list Z -> A) (g : A), match c :: r with 48 :: r' => f r' | _ => g end = g) as ->.
    { intros A f g. destruct c as [|p|p]; try lia. do 6 (destruct p as [p|p|]; try lia; try done). }
    rewrite span_digits_all by done. cbn [digits_only]. by rewrite Hall.
  - cbn [forallb] in Hall. apply andb_true_iff in Hall as [-> _]. by rewrite orb_true_r.
Qed.

(** A non-negative integer's literal is a plain number that reads back. *)
Lemma int_literal_plain z : 0 <= z < 2 ^ 63 ->
  plain_number (int_literal z) = true /\ json_int (JNum (int_literal z)) = Some z /\ (length (int_literal z) <= 20)%nat.
Proof.
  intros Hz. unfold int_literal, FormatInt. rewrite (proj2 (Z.ltb_ge _ _)) by lia.
  destruct (format_pos_bytes 20 z "" ltac:(lia) eq_refl) as [Hall Hlen].
  assert (0 <= z < 10 ^ Z.of_nat 20) as Hz' by (change (10 ^ Z.of_nat 20) with 100000000000000000000; lia).
  pose proof (digits_of_format 20 z "" Hz') as Hd. split_and!; [|cbn [json_int]; rewrite of_bytes_bytes|exact Hlen].
  - destruct (decide (z = 0)) as [->|Hne]; [done|].
    destruct (format_pos_head 20 z "" ltac:(lia)) as (c & r & E & Hc). rewrite E in *. apply digits_plain_number; [done|lia].
  - assert (exists c s, format_pos 20 z "" = String c s /\ between 48 57 (code c) = true) as (c & s & E & Hc).
    { destruct (format_pos 20 z "") as [|c s] eqn:E; [|exists c, s; split; [done|]].
      - cbn [format_pos] in E. by repeat (case_match; try done).
      - cbn [bytes forallb] in Hall. by apply andb_true_iff in Hall as [-> _]. }
    rewrite E in *. unfold ParseInt.
    assert (unsigned_int (String c s) = Some z) as Hu by (cbn [unsigned_int]; by rewrite Hd).
    assert (c <> Ascii true false true true false true false false /\ c <> Ascii true true false true false true false false) as [H1 H2] by (split; intros ->; done).
    destruct c as [[] [] [] [] [] [] [] []]; try done; rewrite Hu; cbn; by rewrite (proj2 (Z.ltb_lt _ _)) by lia.
Qed.
