(* ===== verification/Gather.v ===== *)
(** * Buffers in pieces

    [internal/gather]: byte sequences kept as series of slices.  Reading a
    section, the reader with Read, ReadAt and Seek, and the write buffer that
    fills chunks of its allocator are what the packs are built with.  The theorems
    say that the pieces cannot be seen. *)

From S2P Require Import Prelude GoStrings IndexTable.
Open Scope go_scope.

Inductive gather_error := ErrInvalidOffset | ErrInvalidSeek | ErrEOF | GatherPanic.

(** [Bytes]: its slices. *)
Abbreviation Bytes := (list (list Z)).

Definition FromSlice (b : list Z) : Bytes := [b].
Definition Length (b : Bytes) : Z := foldl (fun l data => l + slen data) 0 b.
Definition AppendToSlice (b : Bytes) (output : list Z) : list Z := foldl (fun out v => out ++ v) output b.
Definition ToByteSlice (b : Bytes) : list Z := AppendToSlice b [].
Definition WriteTo (b : Bytes) (w : list Z) : Z * list Z := foldl (fun '(n, out) v => (n + slen v, out ++ v)) (0, w) b.

(** A slice expression [s[from:to]] within the slice's length. *)
Definition slice (s : list Z) (from to_ : Z) : list Z := take (Z.to_nat (to_ - from)) (drop (Z.to_nat from) s).

(** The second loop of [AppendSectionTo]: whole slices until [size] is used up. *)
Fixpoint section_rest (b : Bytes) (size : Z) : list Z :=
  match b with
  | [] => []
  | s :: b =>
      if 0 <? size then let l := Z.min size (slen s) in slice s 0 l ++ section_rest b (size - l)
      else []
  end.

(** [AppendSectionTo]: what is written.  A negative size makes a slice expression
    panic. *)
Fixpoint section_from (b : Bytes) (offset size : Z) : result gather_error (list Z) :=
  match b with
  | [] => Ok []
  | s :: b =>
      if offset <? slen s then
        let first := if offset + size <=? slen s then size else slen s - offset in
        if first <? 0 then Err GatherPanic
        else Ok (slice s offset (offset + first) ++ section_rest b (size - first))
      else section_from b (offset - slen s) size
  end.

Definition AppendSectionTo (b : Bytes) (offset size : Z) : result gather_error (list Z) :=
  if offset <? 0 then Err ErrInvalidOffset else section_from b offset size.

(** [Bytes.ReadAt] into a buffer of [n] bytes: the number it reports and what it
    wrote. *)
Definition Bytes_ReadAt (b : Bytes) (n off : Z) : result gather_error (Z * list Z) :=
  let! d := AppendSectionTo b off n in Ok (n, d).

(** ** The reader *)

Record bytesReadSeekCloser := mkBytesReader { br_b : Bytes; br_offset : Z }.

Definition Reader (b : Bytes) : bytesReadSeekCloser := mkBytesReader b 0.

(** [bytesReadSeekCloser.ReadAt]: the copies after the first slice.  [m] is what
    the last copy took and [cur] the slice it took it from. *)
Fixpoint readat_rest (b : Bytes) (room : Z) (m cur : Z) : list Z * Z * Z * bool :=
  match b with
  | [] => ([], m, cur, true)
  | s :: b =>
      if 0 <? room then
        let d := take (Z.to_nat room) s in
        let '(out, m, cur, at_end) := readat_rest b (room - slen d) (slen d) (slen s) in (d ++ out, m, cur, at_end)
      else ([], m, cur, false)
  end.

Fixpoint readat_from (b : Bytes) (n offset : Z) : list Z * option gather_error :=
  match b with
  | [] => ([], if n =? 0 then None else Some ErrEOF)
  | s :: b =>
      if offset <? slen s then
        let d := take (Z.to_nat n) (drop (Z.to_nat offset) s) in
        let '(out, m, cur, at_end) := readat_rest b (n - slen d) (slen d) (slen s) in
        (d ++ out, if at_end && (m =? cur) then Some ErrEOF else None)
      else readat_from b n (offset - slen s)
  end.

Definition reader_ReadAt (r : bytesReadSeekCloser) (n off : Z) : list Z * option gather_error :=
  if off <? 0 then ([], Some ErrInvalidOffset) else readat_from (br_b r) n off.

(** [Read] into a buffer of [n] bytes. *)
Definition reader_Read (r : bytesReadSeekCloser) (n : Z) : result gather_error (list Z) * bytesReadSeekCloser :=
  let l := if Length (br_b r) <? br_offset r + n then Length (br_b r) - br_offset r else n in
  if (Length (br_b r) <? br_offset r + n) && (l =? 0) then (Err ErrEOF, r)
  else match Bytes_ReadAt (br_b r) l (br_offset r) with
       | Ok (n, d) => (Ok d, mkBytesReader (br_b r) (br_offset r + n))
       | Err e => (Err e, r)
       end.

Definition reader_Seek (r : bytesReadSeekCloser) (offset whence : Z) : result gather_error Z * bytesReadSeekCloser :=
  let newOffset := if whence =? 0 then offset
                   else if whence =? 1 then br_offset r + offset
                   else if whence =? 2 then Length (br_b r) + offset
                   else br_offset r in
  if (newOffset <? 0) || (Length (br_b r) <? newOffset) then (Err ErrInvalidSeek, r)
  else (Ok newOffset, mkBytesReader (br_b r) newOffset).

(** ** The write buffer *)

Definition defaultChunkSize : Z := 2 ^ 16.
Definition typicalContiguousSize : Z := 8 * 2 ^ 20 + 128.
Definition maxContiguousSize : Z := 16 * 2 ^ 20 + 128.

(** A slice with its capacity. *)
Record chunk := mkChunk { ch_data : list Z; ch_cap : Z }.

(** [alloc] is the allocator's chunk size, if one was chosen; a closed buffer has
    no slices it may use. *)
Record WriteBuffer := mkBuffer { wb_alloc : option Z; wb_inner : option (list chunk) }.

Definition NewWriteBuffer : WriteBuffer := mkBuffer None (Some []).
Definition NewWriteBufferMaxContiguous : WriteBuffer := mkBuffer (Some maxContiguousSize) (Some []).

Definition alloc_size (b : WriteBuffer) : Z := default defaultChunkSize (wb_alloc b).
Definition allocChunk (b : WriteBuffer) : chunk := mkChunk [] (alloc_size b).

(** The loop of [Append]: the last chunk is filled, and another one taken. *)
Fixpoint append_loop (fuel : nat) (size : Z) (full : list chunk) (c : chunk) (data : list Z) : list chunk :=
  match fuel with
  | O => full ++ [c]
  | S fuel =>
      match data with
      | [] => full ++ [c]
      | _ =>
          let '(full, c) := if ch_cap c - slen (ch_data c) =? 0 then (full ++ [c], mkChunk [] size) else (full, c) in
          let chunkSize := Z.min (ch_cap c - slen (ch_data c)) (slen data) in
          append_loop fuel size full (mkChunk (ch_data c ++ slice data 0 chunkSize) (ch_cap c)) (drop (Z.to_nat chunkSize) data)
      end
  end.

Definition Append (b : WriteBuffer) (data : list Z) : result gather_error WriteBuffer :=
  match wb_inner b with
  | None => Err GatherPanic
  | Some chunks =>
      let size := alloc_size b in
      let chunks := match chunks with [] => [allocChunk b] | _ => chunks end in
      match reverse chunks with
      | [] => Err GatherPanic
      | c :: full => Ok (mkBuffer (Some size) (Some (append_loop (S (length data)) size (reverse full) c data)))
      end
  end.

Definition Write (b : WriteBuffer) (data : list Z) : result gather_error (Z * WriteBuffer) :=
  let! b := Append b data in Ok (slen data, b).

(** [MakeContiguous]: one slice of the length asked for, holding what a chunk
    that is used again held before. *)
Definition MakeContiguous (stale : list Z) : WriteBuffer :=
  if slen stale <=? typicalContiguousSize
  then mkBuffer (Some typicalContiguousSize) (Some [mkChunk stale typicalContiguousSize])
  else if slen stale <=? maxContiguousSize
  then mkBuffer (Some maxContiguousSize) (Some [mkChunk stale maxContiguousSize])
  else mkBuffer None (Some [mkChunk stale (slen stale)]).

Definition Reset (b : WriteBuffer) : WriteBuffer := mkBuffer None (Some []).
Definition Close (b : WriteBuffer) : WriteBuffer := mkBuffer None None.

(** [Bytes]: the slices of a buffer that is not closed. *)
Definition buffer_Bytes (b : WriteBuffer) : option Bytes :=
  match wb_inner b with Some l => Some (List.map ch_data l) | None => None end.

(** [Dup]: a buffer of one slice, which has no room left. *)
Definition Dup (b : WriteBuffer) : result gather_error WriteBuffer :=
  match buffer_Bytes b with
  | None => Err GatherPanic
  | Some inner => Ok (mkBuffer (wb_alloc b) (Some [mkChunk (ToByteSlice inner) (Length inner)]))
  end.

(** ** The pieces cannot be seen *)

Lemma Length_concat b : Length b = slen (concat b).
Proof.
  unfold Length. assert (forall acc, foldl (fun l data => l + slen data) acc b = acc + slen (concat b)) as H.
  { induction b as [|s b IH]; intros acc; cbn; [unfold slen; cbn; lia|]. rewrite IH. unfold slen. rewrite length_app. lia. }
  by rewrite H.
Qed.

Lemma AppendToSlice_concat b out : AppendToSlice b out = out ++ concat b.
Proof.
  unfold AppendToSlice. revert out. induction b as [|s b IH]; intros out; cbn; [by rewrite app_nil_r|]. by rewrite IH, <- app_assoc.
Qed.

Lemma ToByteSlice_concat b : ToByteSlice b = concat b.
Proof. apply AppendToSlice_concat. Qed.

Lemma WriteTo_concat b w : WriteTo b w = (Length b, w ++ concat b).
Proof.
  rewrite Length_concat. unfold WriteTo. assert (forall n w, foldl (fun '(n, out) v => (n + slen v, out ++ v)) (n, w) b = (n + slen (concat b), w ++ concat b)) as H.
  { induction b as [|s b IH]; intros n w'; cbn; [unfold slen; cbn; rewrite app_nil_r; f_equal; lia|].
    rewrite IH, <- app_assoc. f_equal. unfold slen. rewrite length_app. lia. }
  by rewrite H.
Qed.

Lemma slice_0 s n : slice s 0 n = take (Z.to_nat n) s.
Proof. unfold slice. rewrite Z.sub_0_r. by rewrite drop_0. Qed.

Lemma section_rest_flat b size : section_rest b size = take (Z.to_nat size) (concat b).
Proof.
  revert size. induction b as [|s b IH]; intros size; cbn [section_rest concat]; [by rewrite take_nil|].
  destruct (Z.ltb_spec 0 size) as [Hs|Hs]; [|replace (Z.to_nat size) with 0%nat by lia; done].
  rewrite slice_0, IH, take_app. unfold slen. f_equal; [|f_equal; lia].
  destruct (Z.min_spec size (Z.of_nat (length s))) as [[? ->]|[? ->]]; [done|]. rewrite !take_ge by lia. done.
Qed.

(** The bytes a section is made of, whatever the slices. *)
Lemma section_flat b offset size :
  0 <= offset -> 0 <= size -> AppendSectionTo b offset size = Ok (slice (concat b) offset (offset + size)).
Proof.
  intros Ho Hs. unfold AppendSectionTo. destruct (Z.ltb_spec offset 0); [lia|]. revert offset Ho H.
  induction b as [|s b IH]; intros offset Ho _; cbn [section_from concat].
  { unfold slice. by rewrite drop_nil, take_nil. }
  unfold slice. replace (offset + size - offset) with size by lia.
  destruct (Z.ltb_spec offset (slen s)) as [Hin|Hout]; unfold slen in *.
  - set (first := if offset + size <=? Z.of_nat (length s) then size else Z.of_nat (length s) - offset). assert (0 <= first <= size /\ first <= Z.of_nat (length s) - offset
      /\ (first < size -> first = Z.of_nat (length s) - offset)) as Hf.
    { subst first. destruct (Z.leb_spec (offset + size) (Z.of_nat (length s))); lia. }
    destruct (Z.ltb_spec first 0); [lia|]. rewrite section_rest_flat. f_equal.
    replace (offset + first - offset) with first by lia. rewrite drop_app_le, take_app, length_drop by lia.
    f_equal; [|f_equal; lia]. destruct (Z.lt_ge_cases first size); [|f_equal; lia].
    rewrite !take_ge by (rewrite length_drop; lia). done.
  - rewrite IH by lia. f_equal. unfold slice. rewrite drop_app_ge by lia.
    replace (offset - Z.of_nat (length s) + size - (offset - Z.of_nat (length s))) with size by lia.
    do 2 f_equal. lia.
Qed.

(** ** The reader refines one over the flat bytes *)

(** A reader over a byte array that refuses to leave it. *)
Record flat := mkFlat { fl_data : list Z; fl_pos : Z }.

Definition flat_Read (f : flat) (n : Z) : result gather_error (list Z) * flat :=
  if (0 <? n) && (fl_pos f =? slen (fl_data f)) then (Err ErrEOF, f)
  else let d := slice (fl_data f) (fl_pos f) (fl_pos f + n) in (Ok d, mkFlat (fl_data f) (fl_pos f + slen d)).

Definition flat_Seek (f : flat) (offset whence : Z) : result gather_error Z * flat :=
  let p := if whence =? 0 then offset else if whence =? 1 then fl_pos f + offset
           else if whence =? 2 then slen (fl_data f) + offset else fl_pos f in
  if (0 <=? p) && (p <=? slen (fl_data f)) then (Ok p, mkFlat (fl_data f) p) else (Err ErrInvalidSeek, f).

Inductive reader_op := OpRead (n : Z) | OpSeek (offset whence : Z).
Inductive reader_answer := AnsRead (r : result gather_error (list Z)) | AnsSeek (r : result gather_error Z).

Definition gather_step (r : bytesReadSeekCloser) (op : reader_op) : reader_answer * bytesReadSeekCloser :=
  match op with
  | OpRead n => let '(a, r) := reader_Read r n in (AnsRead a, r)
  | OpSeek o w => let '(a, r) := reader_Seek r o w in (AnsSeek a, r)
  end.

Definition flat_step (f : flat) (op : reader_op) : reader_answer * flat :=
  match op with
  | OpRead n => let '(a, f) := flat_Read f n in (AnsRead a, f)
  | OpSeek o w => let '(a, f) := flat_Seek f o w in (AnsSeek a, f)
  end.

Fixpoint answers {R} (step : R -> reader_op -> reader_answer * R) (r : R) (ops : list reader_op) : list reader_answer :=
  match ops with
  | [] => []
  | op :: ops => let '(a, r) := step r op in a :: answers step r ops
  end.

Definition same_place (r : bytesReadSeekCloser) (f : flat) : Prop :=
  fl_data f = concat (br_b r) /\ fl_pos f = br_offset r /\ 0 <= br_offset r <= slen (concat (br_b r)).

Definition op_ok (op : reader_op) : Prop := match op with OpRead n => 0 <= n | OpSeek _ _ => True end.

Lemma slice_length s from to_ : 0 <= from <= to_ -> to_ <= slen s -> slen (slice s from to_) = to_ - from.
Proof. unfold slice, slen. intros. rewrite length_take, length_drop. lia. Qed.

Lemma slice_short s from to_ : 0 <= from <= slen s -> slen s <= to_ -> slice s from to_ = slice s from (slen s).
Proof. unfold slice, slen. intros. rewrite !take_ge by (rewrite length_drop; lia). done. Qed.

Lemma reader_step r f op :
  same_place r f -> op_ok op -> exists r' f', gather_step r op = ((flat_step f op).1, r') /\ (flat_step f op).2 = f' /\ same_place r' f'.
Proof.
  destruct r as [b off], f as [data pos]. intros (Hd & Hp & Ho) Hop. cbn in Hd, Hp, Ho. subst data pos.
  destruct op as [n|o w]; cbn [gather_step flat_step op_ok] in *.
  - unfold reader_Read, flat_Read. cbn [br_b br_offset fl_data fl_pos]. rewrite Length_concat.
    set (data := concat b) in *. pose proof (section_flat b off) as Hsec. fold data in Hsec.
    destruct (Z.ltb_spec (slen data) (off + n)) as [Hlt|Hge]; cbn [andb].
    + destruct (Z.eqb_spec (slen data - off) 0) as [H0|H0].
      * destruct (Z.ltb_spec 0 n); [|lia]. destruct (Z.eqb_spec off (slen data)); [|lia]. by eexists _, _.
      * destruct (Z.eqb_spec off (slen data)); [lia|]. rewrite andb_false_r. unfold Bytes_ReadAt. rewrite Hsec by lia.
        rewrite (slice_short data off (off + n)) by lia. replace (off + (slen data - off)) with (slen data) by lia.
        eexists _, _. split; [done|]. split; [done|]. cbn [fst snd]. rewrite slice_length by lia.
        unfold same_place; split_and!; cbn; fold data; first [done|lia].
    + destruct ((0 <? n) && (off =? slen data)) eqn:E; [bool_to_prop; lia|].
      unfold Bytes_ReadAt. rewrite Hsec by lia. eexists _, _. split; [done|]. split; [done|]. cbn [fst snd].
      rewrite slice_length by lia. unfold same_place; split_and!; cbn; fold data; first [done|lia].
  - unfold reader_Seek, flat_Seek. cbn [br_b br_offset fl_data fl_pos]. rewrite Length_concat.
    set (p := if w =? 0 then o else if w =? 1 then off + o else if w =? 2 then slen (concat b) + o else off).
    destruct (Z.ltb_spec p 0); destruct (Z.ltb_spec (slen (concat b)) p);
      destruct (Z.leb_spec 0 p); destruct (Z.leb_spec p (slen (concat b))); try lia; cbn [orb andb];
      (eexists _, _; split; [done|]; split; [done|]; split_and!; cbn; first [done|lia]).
Qed.

(** The slices of a buffer cannot be seen.  Whatever the pieces a gather
    buffer is kept in, its reader answers every sequence of reads and seeks as
    a reader over the bytes in one piece, which refuses to be moved outside
    them. *)
Theorem gather_reader_flat (b : Bytes) ops :
  Forall op_ok ops -> answers gather_step (Reader b) ops = answers flat_step (mkFlat (concat b) 0) ops.
Proof.
  intros Hops. assert (same_place (Reader b) (mkFlat (concat b) 0)) as Hs.
  { split_and!; cbn; [done|done|lia|]. unfold slen. lia. }
  revert Hs. generalize (Reader b), (mkFlat (concat b) 0). induction Hops as [|op ops Hop _ IH]; intros r f Hs; [done|].
  destruct (reader_step r f op Hs Hop) as (r' & f' & Hg & Hf & Hs'). cbn [answers]. rewrite Hg.
  destruct (flat_step f op) as [a f''] eqn:E. cbn in Hf |- *. subst f''. f_equal. by apply IH.
Qed.

Lemma gather_reader_flat_witness :
  answers gather_step (Reader [[1; 2]; []; [3; 4; 5]]) [OpRead 3; OpSeek (-1) 1; OpRead 9; OpRead 1; OpSeek 9 0]
  = [AnsRead (Ok [1; 2; 3]); AnsSeek (Ok 2); AnsRead (Ok [3; 4; 5]); AnsRead (Err ErrEOF); AnsSeek (Err ErrInvalidSeek)].
Proof. rewrite gather_reader_flat; [reflexivity|].
  repeat apply Forall_cons_2; try apply Forall_nil_2; cbn; first [lia|done].
Defined.

(** ReadAt from inside the last slice can come up short without an error. *)
Lemma readat_short : reader_ReadAt (Reader [[1; 2; 3; 4]]) 3 2 = ([3; 4], None).
Proof. reflexivity. Qed.

(** ** The write buffer holds what was appended *)

Definition contents (b : WriteBuffer) : list Z := concat (default [] (buffer_Bytes b)).

(** A buffer in use: chunks within their capacities, all but the last full. *)
Record buffer_ok (b : WriteBuffer) (chunks : list chunk) : Prop := {
  bo_inner : wb_inner b = Some chunks;
  bo_alloc : 0 < alloc_size b;
  bo_chunks : Forall (fun c => 0 < ch_cap c /\ slen (ch_data c) <= ch_cap c) chunks
}.

Lemma append_loop_contents fuel size full c data :
  (length data < fuel)%nat -> 0 < size -> Forall (fun c => 0 < ch_cap c /\ slen (ch_data c) <= ch_cap c) (full ++ [c]) ->
  let l := append_loop fuel size full c data in
  concat (ch_data <$> l) = concat (ch_data <$> full) ++ ch_data c ++ data
  /\ Forall (fun c => 0 < ch_cap c /\ slen (ch_data c) <= ch_cap c) l.
Proof.
  revert full c data. induction fuel as [|fuel IH]; intros full c data Hf Hs Hok; [lia|]. cbn zeta. cbn [append_loop].
  destruct data as [|x data].
  { rewrite fmap_app, concat_app. cbn. by rewrite !app_nil_r. }
  set (data' := x :: data) in *. assert (0 < slen data') as Hpos by (unfold slen; subst data'; cbn; lia).
  assert (forall full c, Forall (fun c => 0 < ch_cap c /\ slen (ch_data c) <= ch_cap c) (full ++ [c]) -> slen (ch_data c) < ch_cap c ->
    let chunkSize := Z.min (ch_cap c - slen (ch_data c)) (slen data') in
    let l := append_loop fuel size full (mkChunk (ch_data c ++ slice data' 0 chunkSize) (ch_cap c)) (drop (Z.to_nat chunkSize) data') in
    concat (ch_data <$> l) = concat (ch_data <$> full) ++ ch_data c ++ data'
    /\ Forall (fun c => 0 < ch_cap c /\ slen (ch_data c) <= ch_cap c) l) as Hgo.
  { clear full c Hok. intros full c [Hfull Hc]%Forall_app Hroom chunkSize l. rewrite Forall_singleton in Hc.
    subst l. edestruct (IH full (mkChunk (ch_data c ++ slice data' 0 chunkSize) (ch_cap c)) (drop (Z.to_nat chunkSize) data')) as [E1 E2].
    - rewrite length_drop. subst chunkSize. unfold slen in *. lia.
    - done.
    - apply Forall_app. split; [done|]. apply Forall_singleton. cbn. split; [lia|].
      rewrite slice_0. unfold slen in *. rewrite length_app, length_take. subst chunkSize. lia.
    - split; [|done]. rewrite E1. cbn [ch_data]. rewrite slice_0, <- app_assoc, take_drop. done. }
  destruct (Z.eqb_spec (ch_cap c - slen (ch_data c)) 0) as [E|E].
  - edestruct (Hgo (full ++ [c]) (mkChunk [] size)) as [E1 E2].
    + apply Forall_app. split; [done|]. apply Forall_singleton. unfold slen. cbn. lia.
    + unfold slen. cbn. lia.
    + split; [|exact E2]. rewrite E1. cbn [ch_data]. rewrite fmap_app, concat_app. cbn. by rewrite app_nil_r, <- app_assoc.
  - apply Hgo; [done|]. apply Forall_app in Hok as [_ Hc]. rewrite Forall_singleton in Hc. lia.
Qed.

Lemma Append_contents b chunks data :
  buffer_ok b chunks -> exists b' chunks', Append b data = Ok b' /\ buffer_ok b' chunks' /\ contents b' = contents b ++ data.
Proof.
  intros [Hin Ha Hc]. unfold Append. rewrite Hin.
  set (cs := match chunks with [] => [allocChunk b] | _ => chunks end).
  assert (Forall (fun c => 0 < ch_cap c /\ slen (ch_data c) <= ch_cap c) cs) as Hcs.
  { subst cs. destruct chunks; [|done]. apply Forall_singleton. unfold slen. cbn. lia. }
  assert (contents b = concat (ch_data <$> cs)) as Hcont.
  { unfold contents, buffer_Bytes. rewrite Hin. by destruct chunks. }
  destruct (reverse cs) as [|c full] eqn:R.
  { exfalso. apply (f_equal reverse) in R. rewrite reverse_involutive in R. subst cs. by destruct chunks. }
  assert (cs = reverse full ++ [c]) as Ecs by (rewrite <- (reverse_involutive cs), R, reverse_cons; done).
  rewrite Ecs in Hcs, Hcont. destruct (append_loop_contents (S (length data)) (alloc_size b) (reverse full) c data) as [E1 E2]; [lia|done|done|].
  eexists _, _. split; [done|]. split; [split; [done|done|exact E2]|].
  unfold contents at 1, buffer_Bytes. cbn [wb_inner default]. change (List.map ch_data ?l) with (ch_data <$> l).
  cbn [from_option id]. rewrite E1, Hcont, fmap_app, concat_app. cbn. by rewrite app_nil_r, <- app_assoc.
Qed.
