(* ===== verification/ObjID.v ===== *)
(** * Object identifiers and index entries

    [repo/object]: [objectid.go], [indirect.go] and the text of an index
    object.  An object is one content, or an index of its chunks kept as an
    object of its own; the identifier says how many times to look through an
    index, and whether the content is compressed. *)

From S2P Require Import Prelude GoStrings GoText IndexID IndexTable Json.
From Stdlib Require Import Ascii.
Open Scope go_scope.

Module ObjectID.

(** The struct [ID]; [indirection] is a byte. *)
Record ID := mk { cid : IndexID.ID; indirection : Z; compression : bool }.

#[global] Instance eq_dec : EqDecision ID.
Proof. solve_decision. Defined.

(** [EmptyID] *)
Definition Empty : ID := mk IndexID.EmptyID 0 false.

(** [strings.Repeat("I", n)] *)
Fixpoint indirectPrefix (n : nat) : string := match n with O => "" | S n => String "I" (indirectPrefix n) end.

(** [ID.String] *)
Definition toString (i : ID) : string :=
  indirectPrefix (Z.to_nat (indirection i)) +:+ (if compression i then "Z" else "") +:+ ID_String (cid i).

(** [ID.Append] *)
Definition AppendTo (i : ID) (out : list Z) : list Z :=
  let out := out ++ replicate (Z.to_nat (indirection i)) 73 in
  let out := if compression i then out ++ [90] else out in
  IndexID.Append (cid i) out.

(** [ID.IndexObjectID] *)
Definition IndexObjectID (i : ID) : option ID :=
  if 0 <? indirection i then Some (mk (cid i) (indirection i - 1) (compression i)) else None.

(** [ID.ContentID] *)
Definition ContentID (i : ID) : option (IndexID.ID * bool) :=
  if 0 <? indirection i then None else Some (cid i, compression i).

(** [DirectObjectID] *)
Definition Direct (contentID : IndexID.ID) : ID := mk contentID 0 false.

Definition compressed (i : ID) : ID := mk (cid i) (indirection i) true.

(** [indirectObjectID]; the byte wraps. *)
Definition indirect (i : ID) : ID := mk (cid i) ((indirection i + 1) `mod` 256) (compression i).

Inductive parse_error :=
| ErrCompressionAndIndirection
| ErrMalformedContentID (e : id_error).

(** The loop of [ParseID] over leading 'I's: their number, as a byte, and the rest. *)
Fixpoint count_I (n : Z) (s : string) : Z * string :=
  match s with
  | String "I" t => count_I ((n + 1) `mod` 256) t
  | _ => (n, s)
  end.

(** [s != "" && s[0] == c], with what follows. *)
Definition eat (c : ascii) (s : string) : option string :=
  match s with String d t => if Ascii.eqb c d then Some t else None | EmptyString => None end.

(** [ParseID] *)
Definition Parse (s : string) : result parse_error ID :=
  let '(n, s) := count_I 0 s in
  let '(z, s) := match eat "Z" s with Some t => (true, t) | None => (false, s) end in
  let s := match eat "D" s with Some t => t | None => s end in
  if (0 <? n) && z then Err ErrCompressionAndIndirection
  else match ParseID s with
  | Err e => Err (ErrMalformedContentID e)
  | Ok c => Ok (mk c n z)
  end.

(** [IDsFromStrings] and [IDsToStrings] *)
Fixpoint FromStrings (l : list string) : result parse_error (list ID) :=
  match l with
  | [] => Ok []
  | v :: l => let! i := Parse v in let! r := FromStrings l in Ok (i :: r)
  end.

Definition ToStrings (l : list ID) : list string := toString <$> l.

(** [ID.MarshalJSON] and [ID.UnmarshalJSON]; [null] leaves the string empty. *)
Definition MarshalJSON (i : ID) : json := JStr (toString i).

Definition UnmarshalJSON (v : json) : option ID :=
  match v with
  | JStr s => match Parse s with Ok i => Some i | Err _ => None end
  | JNull => match Parse "" with Ok i => Some i | Err _ => None end
  | _ => None
  end.

(** ** Well-formed identifiers *)

(** What the writers return: a valid content, never both compressed and
    indirect, and a depth that fits its byte. *)
Record valid (i : ID) : Prop := {
  valid_cid : valid_id (cid i);
  valid_depth : 0 <= indirection i < 256;
  valid_excl : indirection i = 0 \/ compression i = false
}.

Lemma valid_Direct c : valid_id c -> valid (Direct c).
Proof. intros Hc. split; cbn; [done|lia|by left]. Qed.

Lemma valid_compressed c : valid_id c -> valid (compressed (Direct c)).
Proof. intros Hc. split; cbn; [done|lia|by left]. Qed.

Lemma valid_indirect i : valid i -> compression i = false -> indirection i < 255 -> valid (indirect i).
Proof. intros [Hc Hd _] Hz Hi. split; cbn; [done|lia_div|by right]. Qed.

Lemma IndexObjectID_indirect i : 0 <= indirection i < 255 -> IndexObjectID (indirect i) = Some i.
Proof.
  intros Hi. unfold IndexObjectID, indirect. cbn. rewrite Z.mod_small, (proj2 (Z.ltb_lt _ _)) by lia.
  destruct i; cbn in *. do 2 f_equal. lia.
Qed.

Lemma count_I_prefix n k s : (forall t, s <> String "I" t) -> 0 <= n -> n + Z.of_nat k < 256 ->
  count_I n (indirectPrefix k +:+ s) = (n + Z.of_nat k, s).
Proof.
  intros Hs. revert n. induction k as [|k IH]; intros n Hn Hk.
  - cbn. rewrite Z.add_0_r. destruct s as [|c s]; [done|]. cbn. specialize (Hs s).
    destruct c as [[] [] [] [] [] [] [] []]; done.
  - change (indirectPrefix (S k) +:+ s) with (String "I" (indirectPrefix k +:+ s)). cbn [count_I].
    rewrite Z.mod_small, IH by lia. f_equal. lia.
Qed.

(** A content's text starts with a lower-case letter or a digit. *)
Lemma ID_String_head i c t : valid_id i -> ID_String i = String c t -> 48 <= code c <= 57 \/ 97 <= code c <= 122.
Proof.
  intros [Hp Hl Hb] E. unfold ID_String, Prefix in E. destruct Hp as [Hp|Hp].
  - rewrite Hp, prefixStrings_0 in E. change ("" +:+ ?s) with s in E. unfold idLen in Hl.
    destruct (id_data i) as [|x l]; [cbn in Hl; lia|]. inversion Hb as [|? ? Hx ?]; subst. cbn in E. injection E as <- _.
    unfold hexdigit. assert (0 <= x / 16 < 16) by lia_div. destruct (Z.ltb_spec (x / 16) 10); rewrite code_chr by lia; lia.
  - rewrite prefixStrings_letter in E by done. injection E as <- _. rewrite code_chr by lia. lia.
Qed.

Lemma lower_not_upper c : 48 <= code c <= 57 \/ 97 <= code c <= 122 ->
  c <> "I"%char /\ c <> "Z"%char /\ c <> "D"%char.
Proof.
  intros Hc. split_and!; intros ->;
    [change (code "I") with 73 in Hc|change (code "Z") with 90 in Hc|change (code "D") with 68 in Hc]; lia.
Qed.

Lemma eat_other c d t : d <> c -> eat c (String d t) = None.
Proof. intros Hd. cbn. by rewrite (proj2 (Ascii.eqb_neq c d)). Qed.

Lemma Parse_toString i : valid i -> Parse (toString i) = Ok i.
Proof.
  intros [Hc Hd Hx]. unfold Parse, toString. destruct (ID_String (cid i)) as [|c t] eqn:Et.
  { exfalso. pose proof (ParseID_String _ Hc) as Hps. rewrite Et in Hps. injection Hps as Hps. exact (valid_not_empty _ Hc (eq_sym Hps)). }
  destruct (lower_not_upper c (ID_String_head _ c t Hc Et)) as (HI & HZ & HD). pose proof (ParseID_String _ Hc) as Hp. rewrite Et in Hp.
  rewrite count_I_prefix; [| |lia|lia].
  2: { destruct (compression i); cbn; [done|]. intros t'. by intros [= -> _]. }
  rewrite Z.add_0_l, Z2Nat.id by lia. destruct i as [ci n z]. cbn [cid indirection compression] in *. destruct z.
  - destruct Hx as [-> | ?]; [|done]. change (eat "Z" ("Z" +:+ String c t)) with (Some (String c t)).
    cbn beta iota. by rewrite eat_other, Hp.
  - change ("" +:+ ?s) with s. rewrite !eat_other, andb_false_r by done. by rewrite Hp.
Qed.
End ObjectID.

(** ** Index objects *)

(** [IndirectObjectEntry] *)
Record IndirectObjectEntry := mkEntry { e_Start : Z; e_Length : Z; e_Object : ObjectID.ID }.

#[export] Instance IndirectObjectEntry_eq_dec : EqDecision IndirectObjectEntry.
Proof. solve_decision. Defined.

Definition zero_entry : IndirectObjectEntry := mkEntry 0 0 ObjectID.Empty.

(** [endOffset] is an [int64] sum. *)
Definition endOffset (e : IndirectObjectEntry) : Z := wrap64 (e_Start e + e_Length e).

(** The members [encoding/json] writes for an entry: [omitempty] drops a zero. *)
Definition entry_json (e : IndirectObjectEntry) : json :=
  JObj ((if e_Start e =? 0 then [] else [("s", JNum (int_literal (e_Start e)))])
        ++ (if e_Length e =? 0 then [] else [("l", JNum (int_literal (e_Length e)))])
        ++ [("o", ObjectID.MarshalJSON (e_Object e))]).

(** The struct [indirectObject]; a nil slice is null. *)
Definition index_json (entries : list IndirectObjectEntry) : json :=
  JObj [("stream", JStr "kopia:indirect");
        ("entries", match entries with [] => JNull | _ => JArr (entry_json <$> entries) end)].

(** What [Encoder.Encode] writes: the value and a line feed. *)
Definition encode_index (entries : list IndirectObjectEntry) : list Z := print_json (index_json entries) ++ [10].

(** An integer member: null leaves it as it is. *)
Definition decode_int (old : Z) (v : json) : option Z :=
  match v with JNull => Some old | _ => json_int v end.

Definition decode_member (e : IndirectObjectEntry) (m : string * json) : option IndirectObjectEntry :=
  let '(k, v) := m in
  if key_matches "s" k then n ← decode_int (e_Start e) v; Some (mkEntry n (e_Length e) (e_Object e))
  else if key_matches "l" k then n ← decode_int (e_Length e) v; Some (mkEntry (e_Start e) n (e_Object e))
  else if key_matches "o" k then o ← ObjectID.UnmarshalJSON v; Some (mkEntry (e_Start e) (e_Length e) o)
  else Some e.

Fixpoint fold_members {A} (f : A -> string * json -> option A) (a : A) (l : list (string * json)) : option A :=
  match l with
  | [] => Some a
  | m :: l => a ← f a m; fold_members f a l
  end.

Definition decode_entry (old : IndirectObjectEntry) (v : json) : option IndirectObjectEntry :=
  match v with
  | JNull => Some old
  | JObj l => fold_members decode_member old l
  | _ => None
  end.

(** An array is decoded over the elements the slice already has. *)
Fixpoint decode_entries (old : list IndirectObjectEntry) (l : list json) : option (list IndirectObjectEntry) :=
  match l with
  | [] => Some []
  | v :: l => e ← decode_entry (default zero_entry (head old)) v; r ← decode_entries (tail old) l; Some (e :: r)
  end.

Definition decode_index_member (entries : list IndirectObjectEntry) (m : string * json) : option (list IndirectObjectEntry) :=
  let '(k, v) := m in
  if key_matches "stream" k then match v with JStr _ | JNull => Some entries | _ => None end
  else if key_matches "entries" k then match v with JNull => Some [] | JArr l => decode_entries entries l | _ => None end
  else Some entries.

(** [Decoder.Decode] into an [indirectObject]. *)
Definition decode_index (text : list Z) : option (list IndirectObjectEntry) :=
  v ← json_decode text;
  match v with
  | JNull => Some []
  | JObj l => fold_members decode_index_member [] l
  | _ => None
  end.

Example index_ex :
  decode_index (text "{'stream':'kopia:indirect','entries':[{'l':16,'o':'Dab01'},{'s':16,'l':4,'o':'xcd'}]}")
    = None
  /\ encode_index [mkEntry 0 16 (ObjectID.Direct (mkID 0 [171; 1]))]
     = text "{" ++ print_string "stream" ++ text ":" ++ print_string "kopia:indirect" ++ text "," ++ print_string "entries"
       ++ text ":[{" ++ print_string "l" ++ text ":16," ++ print_string "o" ++ text ":" ++ print_string "ab01" ++ text "}]}" ++ [10]
  /\ decode_index (encode_index [mkEntry 0 16 (ObjectID.Direct (mkID 0 [171; 1])); mkEntry 16 4 (ObjectID.indirect (ObjectID.Direct (mkID 120 [1])))])
     = Some [mkEntry 0 16 (ObjectID.Direct (mkID 0 [171; 1])); mkEntry 16 4 (ObjectID.indirect (ObjectID.Direct (mkID 120 [1])))].
Proof. vm_compute. repeat split. Qed.

(** ** Index text reads back *)

Record entry_ok (e : IndirectObjectEntry) : Prop := {
  entry_start : 0 <= e_Start e < 2 ^ 63;
  entry_length : 0 <= e_Length e < 2 ^ 63;
  entry_object : ObjectID.valid (e_Object e)
}.

Lemma plain_hex l : byte_list l -> forallb plain_byte (bytes (hex_encode l)) = true.
Proof.
  intros Hl. rewrite bytes_hex. induction Hl as [|x l Hx Hl IH]; [done|]. cbn [mbind list_bind]. rewrite forallb_app.
  change (list_bind _ _ hex_codes l) with (l ≫= hex_codes). rewrite IH, andb_true_r. unfold hex_codes. cbn [forallb]. rewrite andb_true_r.
  assert (forall z, 0 <= z < 16 -> plain_byte (code (hexdigit z)) = true) as Hh.
  { intros z Hz. unfold hexdigit, plain_byte, between. destruct (Z.ltb_spec z 10); rewrite code_chr by lia;
      rewrite !(proj2 (Z.leb_le _ _)) by lia; repeat (rewrite (proj2 (Z.eqb_neq _ _)) by lia); done. }
  by rewrite !Hh by lia_div.
Qed.

Lemma plain_toString i : ObjectID.valid i -> plain_string (ObjectID.toString i) = true.
Proof.
  intros [[Hp Hl Hb] Hd Hx]. unfold plain_string, ObjectID.toString, ID_String. rewrite !bytes_app, !forallb_app.
  rewrite plain_hex by done. rewrite andb_true_r. apply andb_true_iff. split; [|apply andb_true_iff; split].
  - induction (Z.to_nat (ObjectID.indirection i)) as [|n IH]; [done|]. cbn [ObjectID.indirectPrefix bytes forallb]. by rewrite IH.
  - by destruct (ObjectID.compression i).
  - unfold Prefix. destruct Hp as [-> |Hp]; [done|]. rewrite prefixStrings_letter by done. cbn [bytes forallb]. rewrite code_chr by lia.
    unfold plain_byte, between. rewrite !(proj2 (Z.leb_le _ _)) by lia. by repeat (rewrite (proj2 (Z.eqb_neq _ _)) by lia).
Qed.

Lemma plain_entry e : entry_ok e -> plain_json (entry_json e) = true.
Proof.
  intros [Hs Hl Ho]. unfold entry_json. cbn [plain_json]. rewrite !forallb_app. cbn [forallb fst snd ObjectID.MarshalJSON plain_json].
  rewrite plain_toString by done. destruct (int_literal_plain _ Hs) as [Hs' _]. destruct (int_literal_plain _ Hl) as [Hl' _].
  destruct (e_Start e =? 0), (e_Length e =? 0); cbn [forallb fst snd plain_json]; by rewrite ?Hs', ?Hl'.
Qed.

Lemma plain_index entries : Forall entry_ok entries -> plain_json (index_json entries) = true.
Proof.
  intros He. unfold index_json. cbn [plain_json forallb fst snd].
  apply andb_true_iff. split; [done|]. rewrite andb_true_r. apply andb_true_iff. split; [done|]. destruct entries as [|e l]; [done|].
  cbn [plain_json]. induction He as [|x l' Hx Hl IH]; [done|]. cbn [fmap list_fmap forallb]. by rewrite plain_entry.
Qed.

Lemma decode_entry_ok e : entry_ok e -> decode_entry zero_entry (entry_json e) = Some e.
Proof.
  intros [Hs Hl Ho]. destruct (int_literal_plain _ Hs) as (_ & Hs' & _). destruct (int_literal_plain _ Hl) as (_ & Hl' & _).
  assert (forall e0, fold_members decode_member e0 [("o", ObjectID.MarshalJSON (e_Object e))]
            = Some (mkEntry (e_Start e0) (e_Length e0) (e_Object e))) as Ho'.
  { intros e0. cbn [fold_members decode_member]. change (key_matches "s" "o") with false. change (key_matches "l" "o") with false.
    change (key_matches "o" "o") with true. cbn [ObjectID.MarshalJSON ObjectID.UnmarshalJSON].
    by rewrite ObjectID.Parse_toString. }
  assert (forall e0 l, fold_members decode_member e0 (("s", JNum (int_literal (e_Start e))) :: l)
            = fold_members decode_member (mkEntry (e_Start e) (e_Length e0) (e_Object e0)) l) as Hsm.
  { intros e0 l. cbn [fold_members decode_member]. change (key_matches "s" "s") with true. cbn [decode_int]. by rewrite Hs'. }
  assert (forall e0 l, fold_members decode_member e0 (("l", JNum (int_literal (e_Length e))) :: l)
            = fold_members decode_member (mkEntry (e_Start e0) (e_Length e) (e_Object e0)) l) as Hlm.
  { intros e0 l. cbn [fold_members decode_member]. change (key_matches "s" "l") with false. change (key_matches "l" "l") with true.
    cbn [decode_int]. by rewrite Hl'. }
  unfold entry_json. cbn [decode_entry]. destruct (Z.eqb_spec (e_Start e) 0) as [E|_], (Z.eqb_spec (e_Length e) 0) as [E'|_];
    cbn [app]; [|rewrite Hlm|rewrite Hsm|rewrite Hsm, Hlm]; rewrite Ho'; clear Hs Hl Hs' Hl' Hsm Hlm Ho' Ho;
    destruct e; cbn in *; by subst.
Qed.

Lemma decode_encode_index entries rest : entries <> [] -> Forall entry_ok entries ->
  decode_index (encode_index entries ++ rest) = Some entries.
Proof.
  intros Hne He. unfold decode_index, encode_index. rewrite <- app_assoc, json_decode_print; [|by apply plain_index|done].
  cbn [mbind option_bind]. unfold index_json. cbn [fold_members decode_index_member].
  change (key_matches "stream" "stream") with true. cbn [mbind option_bind decode_index_member].
  change (key_matches "stream" "entries") with false. change (key_matches "entries" "entries") with true.
  destruct entries as [|e l]; [done|]. cbn beta iota. set (es := e :: l) in *. clearbody es. clear Hne.
  enough (decode_entries [] (entry_json <$> es) = Some es) as -> by done.
  induction He as [|x l' Hx Hl IH]; [done|]. cbn [fmap list_fmap decode_entries]. cbn [head tail default].
  rewrite decode_entry_ok by done. cbn [mbind option_bind]. change (list_fmap _ _ entry_json l') with (entry_json <$> l'). by rewrite IH.
Qed.

(** ** Index text is short *)

Definition direct (i : ObjectID.ID) : Prop := ObjectID.indirection i = 0.

Lemma toString_length i : ObjectID.valid i -> direct i -> (length (bytes (ObjectID.toString i)) <= 66)%nat.
Proof.
  intros [[Hp Hl Hb] _ _] Hd. unfold ObjectID.toString, ID_String, direct, idLen, maxIDLength, MaxHashSize in *. rewrite Hd, !bytes_app, !length_app, bytes_hex.
  assert (length (id_data (ObjectID.cid i) ≫= hex_codes) = (2 * length (id_data (ObjectID.cid i)))%nat) as ->.
  { clear. induction (id_data (ObjectID.cid i)) as [|x l IH]; [done|]. rewrite bind_cons, length_app, IH. cbn [hex_codes length]. lia. }
  assert (length (bytes (Prefix (ObjectID.cid i))) <= 1)%nat.
  { unfold Prefix. destruct Hp as [-> |Hp]; [cbn; lia|]. rewrite prefixStrings_letter by done. cbn. lia. }
  assert (length (bytes (if ObjectID.compression i then "Z" else "")) <= 1)%nat by (destruct (ObjectID.compression i); cbn; lia).
  change (length (bytes (ObjectID.indirectPrefix (Z.to_nat 0)))) with 0%nat. lia.
Qed.

Lemma entry_json_length e : entry_ok e -> direct (e_Object e) -> (length (print_json (entry_json e)) <= 130)%nat.
Proof.
  intros [Hs Hl Ho] Hd. destruct (int_literal_plain _ Hs) as (_ & _ & Hs'). destruct (int_literal_plain _ Hl) as (_ & _ & Hl').
  pose proof (toString_length _ Ho Hd) as Ht.
  assert (length (print_string (ObjectID.toString (e_Object e))) = 2 + length (bytes (ObjectID.toString (e_Object e))))%nat as Hp.
  { rewrite print_plain by by apply plain_toString. cbn. rewrite length_app. cbn. lia. }
  unfold entry_json, ObjectID.MarshalJSON. destruct (e_Start e =? 0), (e_Length e =? 0); cbn [app]; rewrite print_JObj;
    cbn [print_members foldr fst snd print_json length]; repeat (rewrite length_app; cbn [length]); rewrite Hp;
    change (length (print_string "s")) with 3%nat; change (length (print_string "l")) with 3%nat; change (length (print_string "o")) with 3%nat;
    cbn [length]; lia.
Qed.

(** At most 131 bytes an entry and a frame of 45. *)
Lemma encode_index_length entries : Forall entry_ok entries -> Forall (fun e => direct (e_Object e)) entries ->
  slen (encode_index entries) <= 46 + 131 * slen entries.
Proof.
  intros He Hd. unfold encode_index, index_json. rewrite print_JObj. cbn [print_members foldr fst snd print_json].
  destruct entries as [|e l]; [vm_compute; done|]. change (entry_json <$> e :: l) with (entry_json e :: (entry_json <$> l)). rewrite print_JArr.
  assert ((length (print_elems (entry_json <$> l)) <= 1 + 131 * length l)%nat) as Hel.
  { apply Forall_cons in He as [_ He]. apply Forall_cons in Hd as [_ Hd]. induction l as [|x l IH]; [cbn; lia|].
    apply Forall_cons in He as [Hx He]. apply Forall_cons in Hd as [Hdx Hd]. cbn [fmap list_fmap print_elems foldr length]. rewrite length_app.
    specialize (IH He Hd). unfold print_elems in IH. change (list_fmap _ _ entry_json l) with (entry_json <$> l).
    pose proof (entry_json_length x Hx Hdx). lia. }
  apply Forall_cons in He as [He _]. apply Forall_cons in Hd as [Hd _]. pose proof (entry_json_length e He Hd).
  unfold slen. cbn [length]. repeat (rewrite ?length_app; cbn [length]).
  change (length (print_string "stream")) with 8%nat. change (length (print_string "kopia:indirect")) with 16%nat.
  change (length (print_string "entries")) with 9%nat. lia.
Qed.
