(* ===== verification/ObjReader.v ===== *)
(** * Reading objects

    [repo/object/object_reader.go].  A reader of a direct object holds its
    bytes; a reader of an indirect object holds the table of its chunks and
    opens one at a time.  Opening an indirect object reads its index, which is
    an object too, so that opening and reading call each other: [fuel] bounds
    the depth of those calls, and a table that nests deeper is [ErrTooDeep].
    A Go panic is [ErrPanic]. *)

From S2P Require Import Prelude GoStrings GoText IndexID IndexTable Json ObjID.
Open Scope go_scope.

Inductive object_error :=
| ErrObjectNotFound
| ErrContentNotFound          (* content.ErrContentNotFound *)
| ErrContent                  (* any other error of the content manager *)
| ErrCompression
| ErrDecompression
| ErrInvalidIndirectObject
| ErrUnexpectedChunkLength
| ErrUnexpectedEOF
| ErrInvalidSeek
| ErrEmptyListOfObjects
| ErrUnsupportedSplitter
| EOF
| ErrPanic
| ErrTooDeep.

#[export] Instance object_error_eq_dec : EqDecision object_error.
Proof. solve_decision. Defined.

(** ** What the object layer uses *)

(** The interface [contentManager]: [S] is what the content manager stores. *)
Class ContentManager (S : Type) := {
  ContentInfo : S -> IndexID.ID -> result object_error unit;
  GetContent : S -> IndexID.ID -> result object_error (list Z);
  PrefetchContents : S -> list IndexID.ID -> string -> list IndexID.ID;
  SupportsContentCompression : S -> bool;
  WriteContent : S -> list Z -> IDPrefix -> Z -> result object_error IndexID.ID * S
}.

(** Package compression: the algorithms are third-party code. *)
Record Compressor := mkCompressor { HeaderID : Z; Compress : list Z -> option (list Z) }.

Class Compression := {
  ByName : string -> option Compressor;
  DecompressByHeader : list Z -> option (list Z)
}.

(** ** Readers *)

Record objectReader := mkReader {
  r_seekTable : list IndirectObjectEntry;
  r_currentPosition : Z;
  r_totalLength : Z;
  r_currentChunkIndex : Z;
  r_currentChunkData : option (list Z);
  r_currentChunkPosition : Z
}.

(** [Reader]: a [bytes.Reader] over the data of a direct object, or an
    [objectReader]. *)
Inductive reader :=
| readerWithData (data : list Z) (pos : Z)
| indirectReader (r : objectReader).

(** [Length] *)
Definition reader_Length (r : reader) : Z :=
  match r with readerWithData data _ => slen data | indirectReader r => r_totalLength r end.

Definition newObjectReaderWithData (data : list Z) : reader := readerWithData data 0.

Section Reading.
(** [openCurrentChunk]'s work: the bytes of an entry. *)
Context (openChunk : IndirectObjectEntry -> result object_error (list Z)).

Definition closeCurrentChunk (r : objectReader) : objectReader :=
  mkReader (r_seekTable r) (r_currentPosition r) (r_totalLength r) (r_currentChunkIndex r) None (r_currentChunkPosition r).

(** [openCurrentChunk]; an index outside the table panics. *)
Definition openCurrentChunk (r : objectReader) : result object_error objectReader :=
  match (if r_currentChunkIndex r <? 0 then None else r_seekTable r !! Z.to_nat (r_currentChunkIndex r)) with
  | None => Err ErrPanic
  | Some st =>
      let! b := openChunk st in
      Ok (mkReader (r_seekTable r) (r_currentPosition r) (r_totalLength r) (r_currentChunkIndex r) (Some b) 0)
  end.

(** The loop of [Read]; [out] is what has been copied.  Each turn copies a
    byte or more, leaves a chunk or opens one. *)
Fixpoint read_loop (turns : nat) (r : objectReader) (remaining : Z) (out : list Z) : result object_error (list Z) * objectReader :=
  if remaining <=? 0 then (Ok out, r)
  else match turns with
  | O => (Err ErrTooDeep, r)
  | S turns =>
      match r_currentChunkData r with
      | Some d =>
          let toCopy := slen d - r_currentChunkPosition r in
          if toCopy =? 0 then
            let r := closeCurrentChunk r in
            read_loop turns (mkReader (r_seekTable r) (r_currentPosition r) (r_totalLength r) (r_currentChunkIndex r + 1)
                               (r_currentChunkData r) (r_currentChunkPosition r)) remaining out
          else
            let toCopy := Z.min toCopy remaining in
            read_loop turns
              (mkReader (r_seekTable r) (wrap64 (r_currentPosition r + toCopy)) (r_totalLength r) (r_currentChunkIndex r)
                 (Some d) (r_currentChunkPosition r + toCopy))
              (remaining - toCopy)
              (out ++ take (Z.to_nat toCopy) (drop (Z.to_nat (r_currentChunkPosition r)) d))
      | None =>
          if r_currentChunkIndex r <? slen (r_seekTable r) then
            match openCurrentChunk r with
            | Ok r => read_loop turns r remaining out
            | Err e => (Err e, r)
            end
          else (Ok out, r)
      end
  end.

Definition read_turns (r : objectReader) (n : Z) : nat := (Z.to_nat n + 2 * length (r_seekTable r) + 2)%nat.

(** [objectReader.Read] into a buffer of [n] bytes. *)
Definition object_Read (r : objectReader) (n : Z) : result object_error (list Z) * objectReader :=
  if r_totalLength r <=? r_currentPosition r then (Err EOF, r)
  else match read_loop (read_turns r n) r n [] with
  | (Ok [], r) => (Err EOF, r)
  | res => res
  end.

(** [bytes.Reader.Read] *)
Definition data_Read (data : list Z) (pos n : Z) : result object_error (list Z) * Z :=
  if slen data <=? pos then (Err EOF, pos)
  else let b := take (Z.to_nat n) (drop (Z.to_nat pos) data) in (Ok b, pos + slen b).

Definition Read (r : reader) (n : Z) : result object_error (list Z) * reader :=
  match r with
  | readerWithData data pos => let '(b, pos) := data_Read data pos n in (b, readerWithData data pos)
  | indirectReader r => let '(b, r) := object_Read r n in (b, indirectReader r)
  end.

(** The binary search of [findChunkIndexForOffset]. *)
Fixpoint find_chunk (turns : nat) (table : list IndirectObjectEntry) (left right offset : Z) : result object_error Z :=
  match turns with
  | O => Err ErrInvalidSeek
  | S turns =>
      if right <? left then Err ErrInvalidSeek
      else
        let middle := (left + right) / 2 in
        match table !! Z.to_nat middle with
        | None => Err ErrPanic
        | Some e =>
            if offset <? e_Start e then find_chunk turns table left (middle - 1) offset
            else if endOffset e <=? offset then find_chunk turns table (middle + 1) right offset
            else Ok middle
        end
  end.

Definition findChunkIndexForOffset (r : objectReader) (offset : Z) : result object_error Z :=
  find_chunk (S (length (r_seekTable r))) (r_seekTable r) 0 (slen (r_seekTable r) - 1) offset.

(** [Seek] from the start.  A chunk that cannot be opened leaves the reader at
    the chunk's index with its position unchanged. *)
Definition seek_start (r : objectReader) (offset : Z) : result object_error Z * objectReader :=
  if r_totalLength r <=? offset then
    (Ok offset, mkReader (r_seekTable r) offset (r_totalLength r) (slen (r_seekTable r)) None (r_currentChunkPosition r))
  else match findChunkIndexForOffset r offset with
  | Err e => (Err e, r)
  | Ok index =>
      let chunkStartOffset := match r_seekTable r !! Z.to_nat index with Some e => e_Start e | None => 0 end in
      let r := if negb (index =? r_currentChunkIndex r)
               then mkReader (r_seekTable r) (r_currentPosition r) (r_totalLength r) index None (r_currentChunkPosition r)
               else r in
      match (match r_currentChunkData r with Some _ => Ok r | None => openCurrentChunk r end) with
      | Err e => (Err e, r)
      | Ok r => (Ok offset, mkReader (r_seekTable r) offset (r_totalLength r) (r_currentChunkIndex r) (r_currentChunkData r)
                              (wrap64 (offset - chunkStartOffset)))
      end
  end.

Definition SeekStart : Z := 0.
Definition SeekCurrent : Z := 1.
Definition SeekEnd : Z := 2.

Definition object_Seek (r : objectReader) (offset whence : Z) : result object_error Z * objectReader :=
  if whence =? SeekCurrent then seek_start r (wrap64 (r_currentPosition r + offset))
  else if whence =? SeekEnd then seek_start r (wrap64 (r_totalLength r + offset))
  else seek_start r offset.

(** [bytes.Reader.Seek] *)
Definition data_Seek (data : list Z) (pos offset whence : Z) : result object_error Z * Z :=
  let abs := if whence =? SeekStart then Some offset
             else if whence =? SeekCurrent then Some (wrap64 (pos + offset))
             else if whence =? SeekEnd then Some (wrap64 (slen data + offset)) else None in
  match abs with
  | Some a => if a <? 0 then (Err ErrInvalidSeek, pos) else (Ok a, a)
  | None => (Err ErrInvalidSeek, pos)
  end.

Definition Seek (r : reader) (offset whence : Z) : result object_error Z * reader :=
  match r with
  | readerWithData data pos => let '(a, pos) := data_Seek data pos offset whence in (a, readerWithData data pos)
  | indirectReader r => let '(a, r) := object_Seek r offset whence in (a, indirectReader r)
  end.

(** [io.ReadFull] into [n] bytes: each read that does not fail gets a byte. *)
Fixpoint read_full (turns : nat) (r : reader) (n : Z) (got : list Z) : result object_error (list Z) :=
  if n <=? slen got then Ok got
  else match turns with
  | O => Err ErrTooDeep
  | S turns =>
      match Read r (n - slen got) with
      | (Ok b, r) => read_full turns r n (got ++ b)
      | (Err EOF, _) => Err (match got with [] => EOF | _ => ErrUnexpectedEOF end)
      | (Err e, _) => Err e
      end
  end.

Definition ReadFull (r : reader) (n : Z) : result object_error (list Z) := read_full (S (Z.to_nat n)) r n [].

(** Reading to the end, as a decoder does, 512 bytes at a time: what was read
    and the error that stopped it, if it was not the end. *)
Fixpoint read_all (turns : nat) (r : reader) (got : list Z) : list Z * option object_error :=
  match turns with
  | O => (got, Some ErrTooDeep)
  | S turns =>
      match Read r 512 with
      | (Ok b, r) => read_all turns r (got ++ b)
      | (Err EOF, _) => (got, None)
      | (Err e, _) => (got, Some e)
      end
  end.

Definition ReadAll (r : reader) : list Z * option object_error := read_all (S (Z.to_nat (reader_Length r))) r [].
End Reading.

(** ** Opening *)

Section Opening.
Context {S : Type} `{ContentManager S} `{Compression} (cr : S).

Definition newRawReader (oid : ObjectID.ID) (assertLength : Z) : result object_error reader :=
  match ObjectID.ContentID oid with
  | None => Err ErrContent
  | Some (contentID, compressed) =>
      match GetContent cr contentID with
      | Err ErrContentNotFound => Err ErrObjectNotFound
      | Err e => Err e
      | Ok payload =>
          let! payload := (if compressed then match DecompressByHeader payload with Some b => Ok b | None => Err ErrDecompression end
                           else Ok payload) in
          if negb (assertLength =? -1) && negb (slen payload =? assertLength) then Err ErrUnexpectedChunkLength
          else Ok (newObjectReaderWithData payload)
      end
  end.

(** The decoder stops at the end of the first value: an error after it is not
    seen, one before it is returned. *)
Definition decode_stream (read : list Z * option object_error) : result object_error (list IndirectObjectEntry) :=
  match decode_index read.1, read.2 with
  | Some entries, _ => Ok entries
  | None, Some e => Err e
  | None, None => Err ErrInvalidIndirectObject
  end.

(** [openAndAssertLength], and the bytes of one chunk: open it, then read its
    length in full; [make] panics on a negative length. *)
Fixpoint openAndAssertLength (fuel : nat) (oid : ObjectID.ID) (assertLength : Z) : result object_error reader :=
  match fuel with
  | O => Err ErrTooDeep
  | Datatypes.S fuel =>
      match ObjectID.IndexObjectID oid with
      | Some indexObjectID =>
          (* LoadIndexObject *)
          let! r := openAndAssertLength fuel indexObjectID (-1) in
          let! seekTable := decode_stream (ReadAll (chunk_bytes fuel) r) in
          match last seekTable with
          | None => Err ErrPanic
          | Some e => Ok (indirectReader (mkReader seekTable 0 (endOffset e) 0 None 0))
          end
      | None => newRawReader oid assertLength
      end
  end
with chunk_bytes (fuel : nat) (st : IndirectObjectEntry) : result object_error (list Z) :=
  match fuel with
  | O => Err ErrTooDeep
  | Datatypes.S fuel =>
      let! rd := openAndAssertLength fuel (e_Object st) (e_Length st) in
      if e_Length st <? 0 then Err ErrPanic else ReadFull (chunk_bytes fuel) rd (e_Length st)
  end.

(** [Open] *)
Definition Open (fuel : nat) (oid : ObjectID.ID) : result object_error reader := openAndAssertLength fuel oid (-1).

Definition LoadIndexObject (fuel : nat) (oid : ObjectID.ID) : result object_error (list IndirectObjectEntry) :=
  let! r := openAndAssertLength fuel oid (-1) in
  decode_stream (ReadAll (chunk_bytes fuel) r).

(** The whole object. *)
Definition read_object (fuel : nat) (oid : ObjectID.ID) : result object_error (list Z) :=
  let! r := Open fuel oid in
  match ReadAll (chunk_bytes fuel) r with
  | (b, None) => Ok b
  | (_, Some e) => Err e
  end.

(** ** The contents of an object *)

(** [contentIDTracker]: the contents met so far. *)
Abbreviation contentIDTracker := (gset IndexID.ID).

Definition addContentID (t : contentIDTracker) (c : IndexID.ID) : contentIDTracker := {[c]} ∪ t.

Definition contentIDs (t : contentIDTracker) : list IndexID.ID := elements t.

Section Iterate.
Context (callbackFunc : IndexID.ID -> result object_error unit).

(** One after the other until one fails; the tracker keeps what was met. *)
Fixpoint each_entry {A} (f : A -> contentIDTracker -> option object_error * contentIDTracker) (l : list A) (t : contentIDTracker)
  : option object_error * contentIDTracker :=
  match l with
  | [] => (None, t)
  | x :: l => match f x t with (None, t) => each_entry f l t | res => res end
  end.

(** [iterateBackingContents] with [iterateIndirectObjectContents] *)
Fixpoint iterateBackingContents (fuel : nat) (oid : ObjectID.ID) (tracker : contentIDTracker)
  : option object_error * contentIDTracker :=
  match fuel with
  | O => (Some ErrTooDeep, tracker)
  | Datatypes.S fuel =>
      match ObjectID.IndexObjectID oid with
      | Some indexObjectID =>
          match iterateBackingContents fuel indexObjectID tracker with
          | (None, tracker) =>
              match LoadIndexObject fuel indexObjectID with
              | Err e => (Some e, tracker)
              | Ok seekTable => each_entry (fun m t => iterateBackingContents fuel (e_Object m) t) seekTable tracker
              end
          | res => res
          end
      | None =>
          match ObjectID.ContentID oid with
          | Some (contentID, _) =>
              match callbackFunc contentID with
              | Err e => (Some e, tracker)
              | Ok _ => (None, addContentID tracker contentID)
              end
          | None => (Some ErrContent, tracker)
          end
      end
  end.
End Iterate.

Definition VerifyObject (fuel : nat) (oid : ObjectID.ID) : result object_error (list IndexID.ID) :=
  match iterateBackingContents (fun c => let! _ := ContentInfo cr c in Ok tt) fuel oid ∅ with
  | (None, tracker) => Ok (contentIDs tracker)
  | (Some e, _) => Err e
  end.

(** [PrefetchBackingContents]: objects that are missing are skipped. *)
Definition skippable (e : object_error) : bool :=
  match e with ErrObjectNotFound | ErrContentNotFound => true | _ => false end.

Fixpoint prefetch_loop (fuel : nat) (oids : list ObjectID.ID) (tracker : contentIDTracker) : result object_error contentIDTracker :=
  match oids with
  | [] => Ok tracker
  | oid :: oids =>
      match iterateBackingContents (fun _ => Ok tt) fuel oid tracker with
      | (Some e, tracker) => if skippable e then prefetch_loop fuel oids tracker else Err e
      | (None, tracker) => prefetch_loop fuel oids tracker
      end
  end.

Definition PrefetchBackingContents (fuel : nat) (oids : list ObjectID.ID) (hint : string) : result object_error (list IndexID.ID) :=
  let! tracker := prefetch_loop fuel oids ∅ in
  Ok (PrefetchContents cr (contentIDs tracker) hint).
End Opening.

(** * Reading is reading the bytes

    An object's reader behaves as a file of the object's bytes with a
    position: the same bytes, the same end, the same answers to [Seek]. *)

(** ** Chunks one after the other *)

Section LaidOut.
Context (P : ObjectID.ID -> list Z -> Prop).

(** The entries name the chunks, each where the one before it ends. *)
Fixpoint laid_out (pos : Z) (entries : list IndirectObjectEntry) (chunks : list (list Z)) : Prop :=
  match entries, chunks with
  | [], [] => True
  | e :: entries, c :: chunks =>
      e_Start e = pos /\ e_Length e = slen c /\ P (e_Object e) c /\ laid_out (pos + slen c) entries chunks
  | _, _ => False
  end.

(** Where a chunk starts. *)
Definition offset_of (chunks : list (list Z)) (i : nat) : Z := slen (concat (take i chunks)).

Lemma laid_out_length pos entries chunks : laid_out pos entries chunks -> length entries = length chunks.
Proof.
  revert pos chunks. induction entries as [|e es IH]; intros pos [|c cs]; cbn; try done.
  intros (_ & _ & _ & Hl). f_equal. by eapply IH.
Qed.

Lemma laid_out_lookup pos entries chunks i e : laid_out pos entries chunks -> entries !! i = Some e ->
  exists c, chunks !! i = Some c /\ e_Start e = pos + offset_of chunks i /\ e_Length e = slen c /\ P (e_Object e) c.
Proof.
  revert pos chunks i. induction entries as [|x es IH]; intros pos [|c cs] [|i]; cbn; try done.
  - intros (Hs & Hl & HP & _) [= <-]. exists c. split_and!; [done|unfold offset_of, slen; cbn; lia|done|done].
  - intros (_ & _ & _ & Hl) Hi. destruct (IH _ _ _ Hl Hi) as (c' & Hc & Hs & Hlen & HP). exists c'.
    split_and!; [done| |done|done]. rewrite Hs. unfold offset_of. cbn [take concat]. rewrite slen_app. lia.
Qed.

Lemma laid_out_app pos e1 e2 c1 c2 : laid_out pos e1 c1 -> laid_out (pos + slen (concat c1)) e2 c2 ->
  laid_out pos (e1 ++ e2) (c1 ++ c2).
Proof.
  revert pos c1. induction e1 as [|e es IH]; intros pos [|c cs]; cbn [laid_out app]; try done.
  - intros _. by rewrite Z.add_0_r.
  - intros (Hs & Hl & HP & H1) H2. split_and!; [done..|]. apply IH; [done|]. cbn [concat] in H2. rewrite slen_app in H2.
    by rewrite <- Z.add_assoc.
Qed.

Lemma laid_out_last pos entries chunks e : laid_out pos entries chunks -> last entries = Some e ->
  e_Start e + e_Length e = pos + slen (concat chunks).
Proof.
  intros Hl He. rewrite last_lookup in He. destruct (laid_out_lookup _ _ _ _ _ Hl He) as (c & Hc & Hs & Hlen & _).
  rewrite Hs, Hlen. apply laid_out_length in Hl. unfold offset_of.
  rewrite <- (take_drop_middle chunks _ c Hc) at 2. rewrite Hl. rewrite concat_app, slen_app. cbn [concat]. rewrite slen_app.
  rewrite (drop_ge chunks) by lia. change (slen (concat [])) with 0. lia.
Qed.
End LaidOut.

Lemma offset_S chunks i c : chunks !! i = Some c -> offset_of chunks (S i) = offset_of chunks i + slen c.
Proof.
  intros Hc. unfold offset_of. rewrite (take_S_r _ _ _ Hc), concat_app, slen_app. cbn [concat]. by rewrite app_nil_r.
Qed.

Lemma offset_le chunks i j : (i <= j)%nat -> offset_of chunks i <= offset_of chunks j.
Proof.
  intros Hij. unfold offset_of. replace j with (i + (j - i))%nat by lia.
  rewrite <- take_take_drop, concat_app, slen_app. pose proof (slen_nonneg (concat (take (j - i) (drop i chunks)))). lia.
Qed.

Lemma offset_all chunks i : (length chunks <= i)%nat -> offset_of chunks i = slen (concat chunks).
Proof. intros Hi. unfold offset_of. by rewrite take_ge. Qed.

Lemma offset_total chunks i : 0 <= offset_of chunks i <= slen (concat chunks).
Proof.
  split; [apply slen_nonneg|]. rewrite <- (offset_all chunks (i + length chunks)) by lia. apply offset_le. lia.
Qed.

(** The bytes from inside a chunk on. *)
Lemma drop_at_chunk chunks i c k : chunks !! i = Some c -> (k <= length c)%nat ->
  drop (Z.to_nat (offset_of chunks i + Z.of_nat k)) (concat chunks) = drop k c ++ concat (drop (S i) chunks).
Proof.
  intros Hc Hk. rewrite <- (take_drop_middle chunks i c Hc) at 2. rewrite concat_app. cbn [concat].
  rewrite drop_app_ge by (unfold offset_of, slen; lia).
  replace (Z.to_nat (offset_of chunks i + Z.of_nat k) - length (concat (take i chunks)))%nat with k by (unfold offset_of, slen; lia).
  by rewrite drop_app_le.
Qed.

Lemma drop_at_offset chunks i : drop (Z.to_nat (offset_of chunks i)) (concat chunks) = concat (drop i chunks).
Proof.
  rewrite <- (take_drop i chunks) at 2. rewrite concat_app. unfold offset_of, slen. rewrite Nat2Z.id. apply drop_app_length.
Qed.

(** ** The reader of an indirect object *)

Section ObjectReader.
Context (openChunk : IndirectObjectEntry -> result object_error (list Z)).
Context (entries : list IndirectObjectEntry) (chunks : list (list Z)).
Context (Hlaid : laid_out (fun o c => forall e, e_Object e = o -> e_Length e = slen c -> openChunk e = Ok c) 0 entries chunks).
Context (Hsize : slen (concat chunks) < 2 ^ 63).

Abbreviation data := (concat chunks).

(** The chunk in memory is the one at the index, and what is next to be read is at the position. *)
Record coherent (r : objectReader) (pos : Z) : Prop := {
  co_table : r_seekTable r = entries;
  co_total : r_totalLength r = slen data;
  co_pos : r_currentPosition r = pos;
  co_index : 0 <= r_currentChunkIndex r <= slen entries;
  co_data : forall d, r_currentChunkData r = Some d -> chunks !! Z.to_nat (r_currentChunkIndex r) = Some d;
  co_next : match r_currentChunkData r with
            | Some d => pos = offset_of chunks (Z.to_nat (r_currentChunkIndex r)) + r_currentChunkPosition r
                        /\ 0 <= r_currentChunkPosition r <= slen d
            | None => pos = offset_of chunks (Z.to_nat (r_currentChunkIndex r))
            end
}.

(** Past the end only the chunk in memory matters. *)
Record reader_inv (r : objectReader) (pos : Z) : Prop := {
  ri_table : r_seekTable r = entries;
  ri_total : r_totalLength r = slen data;
  ri_pos : r_currentPosition r = pos;
  ri_nonneg : 0 <= pos;
  ri_index : 0 <= r_currentChunkIndex r <= slen entries;
  ri_data : forall d, r_currentChunkData r = Some d -> chunks !! Z.to_nat (r_currentChunkIndex r) = Some d;
  ri_next : pos < slen data -> coherent r pos
}.

Lemma coherent_inv r pos : coherent r pos -> reader_inv r pos.
Proof.
  intros Hc. pose proof Hc as [H1 H2 H3 H4 H5 H6]. split; try done.
  destruct (r_currentChunkData r); [destruct H6; subst|subst]; pose proof (offset_total chunks (Z.to_nat (r_currentChunkIndex r))); lia.
Qed.

Lemma entries_chunks : length entries = length chunks.
Proof. by eapply laid_out_length. Qed.

Lemma openCurrentChunk_ok r : r_seekTable r = entries -> 0 <= r_currentChunkIndex r < slen entries ->
  exists c, chunks !! Z.to_nat (r_currentChunkIndex r) = Some c /\
    openCurrentChunk openChunk r
    = Ok (mkReader (r_seekTable r) (r_currentPosition r) (r_totalLength r) (r_currentChunkIndex r) (Some c) 0).
Proof.
  intros Ht Hi. unfold openCurrentChunk. rewrite (proj2 (Z.ltb_ge _ _)), Ht by lia.
  destruct (lookup_lt_is_Some_2 entries (Z.to_nat (r_currentChunkIndex r))) as [e He]; [unfold slen in Hi; lia|].
  destruct (laid_out_lookup _ _ _ _ _ _ Hlaid He) as (c & Hc & _ & Hlen & Hopen). exists c. split; [done|].
  rewrite He. by rewrite (Hopen e).
Qed.

(** Turns that are left to copy, leave and open. *)
Definition turns_left (r : objectReader) (remaining : Z) : Z :=
  remaining + 2 * (slen entries - r_currentChunkIndex r) - (match r_currentChunkData r with Some _ => 1 | None => 0 end).

Lemma read_loop_done turns r out : read_loop openChunk turns r 0 out = (Ok out, r).
Proof. by destruct turns. Qed.

Lemma read_loop_ok turns : forall r pos remaining out, coherent r pos -> 0 <= remaining -> turns_left r remaining <= Z.of_nat turns ->
  let b := take (Z.to_nat remaining) (drop (Z.to_nat pos) data) in
  exists r', read_loop openChunk turns r remaining out = (Ok (out ++ b), r') /\ coherent r' (pos + slen b).
Proof.
  induction turns as [|turns IH]; intros r pos remaining out Hco Hrem Hturns b;
    pose proof Hco as [Ht Htot Hpos Hidx Hdat Hnext]; pose proof entries_chunks as Hec;
    (destruct (Z.leb_spec remaining 0) as [Hr0|Hr0];
     [subst b; replace remaining with 0 by lia; exists r; cbn [Z.to_nat take]; rewrite app_nil_r, Z.add_0_r;
      split; [by apply read_loop_done|done]|]); cbn [read_loop]; rewrite (proj2 (Z.leb_gt _ _)) by lia; unfold turns_left in Hturns.
  { exfalso. destruct (r_currentChunkData r) as [d|] eqn:Ed; [|unfold slen in *; lia].
    specialize (Hdat d eq_refl). apply lookup_lt_Some in Hdat. unfold slen in *. lia. }
  destruct (r_currentChunkData r) as [d|] eqn:Ed.
  - specialize (Hdat d eq_refl). pose proof (lookup_lt_Some _ _ _ Hdat) as Hlt. destruct Hnext as [Hp [Hc0 Hc1]].
    set (i := Z.to_nat (r_currentChunkIndex r)) in *. set (k := r_currentChunkPosition r) in *.
    pose proof (offset_S _ _ _ Hdat) as HoS. pose proof (offset_total chunks (S i)) as Htl.
    destruct (Z.eqb_spec (slen d - k) 0) as [E|E].
    + (* the end of the chunk *)
      destruct (IH (mkReader (r_seekTable r) (r_currentPosition r) (r_totalLength r) (r_currentChunkIndex r + 1) None k) pos remaining out)
        as (r' & Hr' & Hco'); [|done| |by exists r'].
      * split; cbn; try done; [unfold slen in *; lia|]. replace (Z.to_nat (r_currentChunkIndex r + 1)) with (S i) by lia. lia.
      * unfold turns_left. cbn. lia.
    + (* copy *)
      set (tc := Z.min (slen d - k) remaining). assert (1 <= tc <= slen d - k) as Htc by (subst tc; lia).
      set (piece := take (Z.to_nat tc) (drop (Z.to_nat k) d)).
      assert (slen piece = tc) as Hpl by (subst piece; unfold slen in *; rewrite length_take, length_drop; lia).
      rewrite wrap64_id by (rewrite Hpos; unfold in_int64, int64_min, int64_max; pose proof (offset_total chunks i); lia).
      destruct (IH (mkReader (r_seekTable r) (r_currentPosition r + tc) (r_totalLength r) (r_currentChunkIndex r) (Some d) (k + tc))
                  (pos + tc) (remaining - tc) (out ++ piece)) as (r' & Hr' & Hco'); [| subst tc; lia | |].
      * split; cbn; try done; [lia|by intros ? [= <-]|]. fold i. lia.
      * unfold turns_left. cbn. lia.
      * assert (b = piece ++ take (Z.to_nat (remaining - tc)) (drop (Z.to_nat (pos + tc)) data)) as ->.
        { subst b piece. rewrite Hp. replace (offset_of chunks i + k + tc) with (offset_of chunks i + Z.of_nat (Z.to_nat (k + tc))) by lia.
          replace (offset_of chunks i + k) with (offset_of chunks i + Z.of_nat (Z.to_nat k)) by lia.
          rewrite !(drop_at_chunk _ _ _ _ Hdat) by (unfold slen in *; lia).
          replace (Z.to_nat (k + tc)) with (Z.to_nat k + Z.to_nat tc)%nat by lia. rewrite <- drop_drop.
          rewrite <- (take_drop (Z.to_nat tc) (drop (Z.to_nat k) d)) at 1. rewrite <- app_assoc.
          replace (Z.to_nat remaining) with (length (take (Z.to_nat tc) (drop (Z.to_nat k) d)) + Z.to_nat (remaining - tc))%nat
            by (unfold slen in Hpl; lia).
          by rewrite take_app_add. }
        exists r'. rewrite slen_app, Hpl, app_assoc, Z.add_assoc. by split.
  - destruct (Z.ltb_spec (r_currentChunkIndex r) (slen (r_seekTable r))) as [Hlt|Hge]; rewrite Ht in *.
    + destruct (openCurrentChunk_ok r Ht) as (c & Hc & ->); [lia|].
      destruct (IH (mkReader (r_seekTable r) (r_currentPosition r) (r_totalLength r) (r_currentChunkIndex r) (Some c) 0) pos remaining out)
        as (r' & Hr' & Hco'); [|done| |rewrite Ht in *; by exists r'].
      * split; cbn; try done; [by intros ? [= <-]|]. pose proof (slen_nonneg c). lia.
      * unfold turns_left. cbn. lia.
    + assert (drop (Z.to_nat pos) data = []) as Hnil.
      { rewrite Hnext, offset_all by (unfold slen in *; lia). apply drop_ge. unfold slen. lia. }
      subst b. rewrite Hnil, take_nil, app_nil_r, Z.add_0_r. by exists r.
Qed.

(** [Read] at the end, and before it. *)
Lemma object_Read_end r pos n : reader_inv r pos -> slen data <= pos -> object_Read openChunk r n = (Err EOF, r).
Proof.
  intros Hi Hp. unfold object_Read. rewrite (ri_total _ _ Hi), (ri_pos _ _ Hi). by rewrite (proj2 (Z.leb_le _ _)).
Qed.

Lemma object_Read_ok r pos n : reader_inv r pos -> pos < slen data -> 0 < n ->
  let b := take (Z.to_nat n) (drop (Z.to_nat pos) data) in
  exists r', object_Read openChunk r n = (Ok b, r') /\ reader_inv r' (pos + slen b).
Proof.
  intros Hi Hp Hn b. pose proof (ri_next _ _ Hi Hp) as Hco. pose proof (ri_nonneg _ _ Hi).
  unfold object_Read. rewrite (ri_total _ _ Hi), (ri_pos _ _ Hi), (proj2 (Z.leb_gt _ _)) by lia.
  destruct (read_loop_ok (read_turns r n) r pos n [] Hco) as (r' & -> & Hco'); [lia| |].
  { unfold turns_left, read_turns. rewrite (ri_table _ _ Hi). pose proof (ri_index _ _ Hi). unfold slen in *. destruct (r_currentChunkData r); lia. }
  cbn [app]. exists r'. split; [|by apply coherent_inv]. fold b.
  destruct b as [|x b'] eqn:Eb; [|done]. exfalso. apply (f_equal length) in Eb. unfold b in Eb.
  rewrite length_take, length_drop in Eb. unfold slen in *. cbn in Eb. lia.
Qed.

(** ** Seeking *)

Lemma entry_offsets i e : entries !! i = Some e ->
  e_Start e = offset_of chunks i /\ endOffset e = offset_of chunks (S i).
Proof.
  intros He. destruct (laid_out_lookup _ _ _ _ _ _ Hlaid He) as (c & Hc & Hs & Hl & _).
  rewrite Z.add_0_l in Hs. split; [done|]. unfold endOffset. rewrite Hs, Hl, <- (offset_S _ _ _ Hc).
  apply wrap64_id. pose proof (offset_total chunks (S i)). unfold in_int64, int64_min, int64_max. lia.
Qed.

(** Before the start there is no chunk. *)
Lemma find_chunk_neg turns left right offset : offset < 0 -> 0 <= left -> right < slen entries ->
  find_chunk turns entries left right offset = Err ErrInvalidSeek.
Proof.
  revert right. induction turns as [|turns IH]; intros right Ho Hl Hr; [done|]. cbn [find_chunk].
  destruct (Z.ltb_spec right left); [done|]. assert (left <= (left + right) / 2 <= right) as Hm by lia_div.
  destruct (lookup_lt_is_Some_2 entries (Z.to_nat ((left + right) / 2))) as [e He]; [unfold slen in *; lia|]. rewrite He.
  destruct (entry_offsets _ _ He) as [-> _]. pose proof (offset_total chunks (Z.to_nat ((left + right) / 2))).
  rewrite (proj2 (Z.ltb_lt _ _)) by lia. apply IH; lia.
Qed.

Lemma find_chunk_ok turns left right offset i : 0 <= left -> right < slen entries -> left <= Z.of_nat i <= right ->
  right - left < Z.of_nat turns -> offset_of chunks i <= offset < offset_of chunks (S i) ->
  find_chunk turns entries left right offset = Ok (Z.of_nat i).
Proof.
  revert left right. induction turns as [|turns IH]; intros left right Hl Hr Hi Ht Ho; [lia|]. cbn [find_chunk].
  rewrite (proj2 (Z.ltb_ge _ _)) by lia. set (m := (left + right) / 2). assert (left <= m <= right) as Hm by (subst m; lia_div).
  destruct (lookup_lt_is_Some_2 entries (Z.to_nat m)) as [e He]; [unfold slen in *; lia|]. rewrite He.
  destruct (entry_offsets _ _ He) as [-> ->].
  destruct (Z.ltb_spec offset (offset_of chunks (Z.to_nat m))) as [H1|H1].
  - apply IH; try lia. destruct (decide (Z.of_nat i < m)); [lia|]. pose proof (offset_le chunks (Z.to_nat m) i ltac:(lia)). lia.
  - destruct (Z.leb_spec (offset_of chunks (S (Z.to_nat m))) offset) as [H2|H2].
    + apply IH; try lia. destruct (decide (m < Z.of_nat i)); [lia|]. pose proof (offset_le chunks (S i) (S (Z.to_nat m)) ltac:(lia)). lia.
    + f_equal. destruct (Z.lt_total m (Z.of_nat i)) as [Hlt|[Heq|Hgt]]; [|done|].
      * pose proof (offset_le chunks (S (Z.to_nat m)) i ltac:(lia)). lia.
      * pose proof (offset_le chunks (S i) (Z.to_nat m) ltac:(lia)). lia.
Qed.

Lemma chunk_of_offset offset : 0 <= offset < slen data ->
  exists i, (i < length chunks)%nat /\ offset_of chunks i <= offset < offset_of chunks (S i).
Proof.
  intros Ho. assert (forall n, offset < offset_of chunks n -> exists i, (i < n)%nat /\ offset_of chunks i <= offset < offset_of chunks (S i)) as Hex.
  { induction n as [|n IH]; [intros Hn; change (offset_of chunks 0) with 0 in Hn; lia|]. intros Hn.
    destruct (decide (offset < offset_of chunks n)) as [Hlt|Hge]; [destruct (IH Hlt) as (i & Hi & ?); exists i; split; [lia|done]|].
    exists n. split; lia. }
  apply (Hex (length chunks)). rewrite offset_all by lia. lia.
Qed.

Lemma seek_start_ok r pos offset : reader_inv r pos -> 0 <= offset ->
  exists r', seek_start openChunk r offset = (Ok offset, r') /\ reader_inv r' offset.
Proof.
  intros Hi Ho. pose proof Hi as [Ht Htot Hpos _ Hidx Hdat _]. pose proof entries_chunks as Hec. unfold seek_start. rewrite Htot.
  destruct (Z.leb_spec (slen data) offset) as [Hge|Hlt].
  { eexists. split; [done|]. rewrite Ht. split; cbn; try done; [unfold slen; lia|lia]. }
  destruct (chunk_of_offset offset) as (i & Hil & Hoff); [lia|]. unfold findChunkIndexForOffset. rewrite Ht.
  rewrite (find_chunk_ok _ _ _ _ i) by (unfold slen; lia). rewrite Nat2Z.id.
  destruct (lookup_lt_is_Some_2 entries i) as [e He]; [lia|]. rewrite He. destruct (entry_offsets _ _ He) as [-> _].
  set (r1 := if negb (Z.of_nat i =? r_currentChunkIndex r) then _ else r).
  assert (r_seekTable r1 = entries /\ r_totalLength r1 = slen data /\ r_currentChunkIndex r1 = Z.of_nat i
          /\ forall d, r_currentChunkData r1 = Some d -> chunks !! i = Some d) as (H1 & H2 & H3 & H4).
  { subst r1. destruct (Z.eqb_spec (Z.of_nat i) (r_currentChunkIndex r)) as [E|E]; cbn; [|split_and!; done].
    split_and!; try done. rewrite <- E, Nat2Z.id in Hdat. done. }
  assert (exists r2 c, (match r_currentChunkData r1 with Some _ => Ok r1 | None => openCurrentChunk openChunk r1 end) = Ok r2
    /\ chunks !! i = Some c /\ r_currentChunkData r2 = Some c /\ r_seekTable r2 = entries /\ r_totalLength r2 = slen data
    /\ r_currentChunkIndex r2 = Z.of_nat i) as (r2 & c & -> & Hc & Hd & Ht2 & Htot2 & Hi2).
  { destruct (r_currentChunkData r1) as [d|] eqn:Ed; [exists r1, d; split_and!; auto|].
    destruct (openCurrentChunk_ok r1 H1) as (c & Hc & ->); [unfold slen; lia|]. rewrite H3, Nat2Z.id in Hc.
    eexists _, c. split_and!; cbn; done. }
  pose proof (offset_S _ _ _ Hc) as HS. pose proof (offset_total chunks i).
  rewrite wrap64_id by (unfold in_int64, int64_min, int64_max; lia).
  eexists. split; [done|]. apply coherent_inv. rewrite Hd, Ht2, Htot2, Hi2.
  split; cbn; rewrite ?Nat2Z.id; [done|done|done|unfold slen; lia|by intros ? [= <-]|]. lia.
Qed.

Lemma seek_start_neg r pos offset : reader_inv r pos -> offset < 0 ->
  seek_start openChunk r offset = (Err ErrInvalidSeek, r).
Proof.
  intros [Ht Htot _ _ _ _ _] Ho. unfold seek_start, findChunkIndexForOffset. rewrite Htot, Ht.
  pose proof (slen_nonneg data). rewrite (proj2 (Z.leb_gt _ _)) by lia.
  by rewrite find_chunk_neg by lia.
Qed.
End ObjectReader.

(** ** Any reader *)

Section AnyReader.
Context (openChunk : IndirectObjectEntry -> result object_error (list Z)).

Definition opens (o : ObjectID.ID) (c : list Z) : Prop :=
  forall e, e_Object e = o -> e_Length e = slen c -> openChunk e = Ok c.

(** A reader of [data] at [pos]. *)
Definition reader_at (data : list Z) (r : reader) (pos : Z) : Prop :=
  match r with
  | readerWithData d p => d = data /\ p = pos /\ 0 <= pos
  | indirectReader r => exists entries chunks,
      laid_out opens 0 entries chunks /\ concat chunks = data /\ slen data < 2 ^ 63 /\ reader_inv entries chunks r pos
  end.

Lemma reader_at_nonneg data r pos : reader_at data r pos -> 0 <= pos.
Proof. destruct r; cbn; [by intros (_ & _ & ?)|by intros (? & ? & _ & _ & _ & [])]. Qed.

(** [Read] and [Seek] answer as a [bytes.Reader] over the object's bytes. *)
Lemma Read_ok data r pos n : reader_at data r pos -> 0 < n ->
  exists r', Read openChunk r n = (fst (data_Read data pos n), r') /\ reader_at data r' (snd (data_Read data pos n)).
Proof.
  destruct r as [d p|r]; cbn [reader_at Read].
  - intros (-> & -> & Hp) Hn. destruct (data_Read data pos n) as [b p] eqn:E. eexists. split; [done|]. cbn. split_and!; try done.
    unfold data_Read in E. destruct (slen data <=? pos); injection E as <- <-; [done|].
    pose proof (slen_nonneg (take (Z.to_nat n) (drop (Z.to_nat pos) data))). lia.
  - intros (es & cs & Hl & <- & Hsz & Hi) Hn. unfold data_Read. destruct (Z.leb_spec (slen (concat cs)) pos) as [Hge|Hlt].
    + rewrite (object_Read_end openChunk es cs r pos n Hi Hge). eexists. split; [done|]. cbn. by exists es, cs.
    + destruct (object_Read_ok openChunk es cs Hl Hsz r pos n Hi Hlt Hn) as (r' & -> & Hi'). eexists. split; [done|]. cbn. by exists es, cs.
Qed.

Lemma Seek_ok data r pos offset whence : reader_at data r pos -> 0 <= whence <= 2 ->
  exists r', Seek openChunk r offset whence = (fst (data_Seek data pos offset whence), r')
    /\ reader_at data r' (snd (data_Seek data pos offset whence)).
Proof.
  intros Hr Hw. pose proof (reader_at_nonneg _ _ _ Hr) as Hpos. destruct r as [d p|r]; cbn [reader_at Seek] in *.
  - destruct Hr as (-> & -> & Hp). destruct (data_Seek data pos offset whence) as [a p] eqn:E. eexists. split; [done|]. cbn. split_and!; try done.
    unfold data_Seek in E. destruct (if _ =? SeekStart then _ else _) as [z|]; [|by injection E as <- <-].
    destruct (Z.ltb_spec z 0); by injection E as <- <-.
  - destruct Hr as (es & cs & Hl & <- & Hsz & Hi).
    assert (forall z, exists r', seek_start openChunk r z
              = (fst (if z <? 0 then (Err ErrInvalidSeek, pos) else (Ok z, z)), r')
              /\ reader_at (concat cs) (indirectReader r') (snd (if z <? 0 then (Err (A := Z) ErrInvalidSeek, pos) else (Ok z, z)))) as Hs.
    { intros z. destruct (Z.ltb_spec z 0) as [Hneg|Hge].
      - rewrite (seek_start_neg openChunk es cs Hl Hsz r pos z Hi Hneg). eexists. split; [done|]. cbn. by exists es, cs.
      - destruct (seek_start_ok openChunk es cs Hl Hsz r pos z Hi Hge) as (r' & -> & Hi'). eexists. split; [done|]. cbn. by exists es, cs. }
    unfold object_Seek, data_Seek, SeekStart, SeekCurrent, SeekEnd. rewrite (ri_pos _ _ _ _ Hi), (ri_total _ _ _ _ Hi).
    assert (whence = 0 \/ whence = 1 \/ whence = 2) as [-> |[-> | ->]] by lia; cbn [Z.eqb Pos.eqb];
      (edestruct Hs as (r' & -> & Hr'); by exists (indirectReader r')).
Qed.

(** ** Reading everything *)

Lemma data_Read_cases data pos n : 0 <= pos -> 0 < n ->
  (slen data <= pos /\ data_Read data pos n = (Err EOF, pos))
  \/ (pos < slen data /\ exists b, data_Read data pos n = (Ok b, pos + slen b) /\ 0 < slen b <= n
      /\ b ++ drop (Z.to_nat (pos + slen b)) data = drop (Z.to_nat pos) data
      /\ b = take (Z.to_nat n) (drop (Z.to_nat pos) data)).
Proof.
  intros Hp Hn. unfold data_Read. destruct (Z.leb_spec (slen data) pos) as [Hge|Hlt]; [by left|right]. split; [done|].
  eexists. split; [done|]. set (b := take _ _). assert (slen b = Z.min n (slen data - pos)) as Hb.
  { subst b. unfold slen in *. rewrite length_take, length_drop. lia. }
  split; [lia|]. split; [|done].
  replace (Z.to_nat (pos + slen b)) with (Z.to_nat pos + length b)%nat by (unfold slen; lia). rewrite <- drop_drop.
  assert (b = take (length b) (drop (Z.to_nat pos) data)) as Hbt.
  { subst b. by rewrite length_take, <- take_take, (take_ge _ _ (le_n _)). }
  rewrite Hbt at 1. apply take_drop.
Qed.

Lemma read_all_ok data turns : forall r pos got, reader_at data r pos -> slen data - pos <= Z.of_nat turns ->
  read_all openChunk (S turns) r got = (got ++ drop (Z.to_nat pos) data, None).
Proof.
  induction turns as [|turns IH]; intros r pos got Hr Ht; pose proof (reader_at_nonneg _ _ _ Hr) as Hpos; cbn [read_all];
    (destruct (Read_ok data r pos 512 Hr) as (r' & -> & Hr'); [lia|]);
    (destruct (data_Read_cases data pos 512 Hpos) as [[Hge E]|(Hlt & b & E & Hb & Happ & _)]; [lia|..]); rewrite E in *; cbn [fst snd] in *;
    try (rewrite drop_ge by (unfold slen in *; lia); by rewrite app_nil_r); [lia|].
  change (read_all openChunk (S turns) r' (got ++ b) = (got ++ drop (Z.to_nat pos) data, None)).
  rewrite (IH r' _ _ Hr') by lia. by rewrite <- app_assoc, Happ.
Qed.

Lemma reader_at_Length data r pos : reader_at data r pos -> reader_Length r = slen data.
Proof.
  destruct r as [d p|r]; cbn; [by intros (-> & _)|]. intros (es & cs & _ & <- & _ & Hi). by destruct Hi.
Qed.

Lemma ReadAll_ok data r : reader_at data r 0 -> ReadAll openChunk r = (data, None).
Proof.
  intros Hr. unfold ReadAll. rewrite (read_all_ok data _ r 0); [done|done|]. rewrite (reader_at_Length _ _ _ Hr). lia.
Qed.

Lemma read_full_ok data n turns : forall r pos got, reader_at data r pos -> slen got <= n -> n - slen got <= slen data - pos ->
  n - slen got <= Z.of_nat turns ->
  read_full openChunk turns r n got = Ok (got ++ take (Z.to_nat (n - slen got)) (drop (Z.to_nat pos) data)).
Proof.
  induction turns as [|turns IH]; intros r pos got Hr Hg Hn Ht; pose proof (reader_at_nonneg _ _ _ Hr) as Hpos; cbn [read_full];
    (destruct (Z.leb_spec n (slen got)) as [Hdone|Hmore]; [replace (n - slen got) with 0 by lia; cbn; by rewrite app_nil_r|]); [lia|].
  destruct (Read_ok data r pos (n - slen got) Hr) as (r' & -> & Hr'); [lia|].
  destruct (data_Read_cases data pos (n - slen got) Hpos) as [[Hge E]|(Hlt & b & E & Hb & Happ & Heq)]; [lia..|]; rewrite E in *; cbn [fst snd] in *.
  rewrite (IH r' _ _ Hr') by (rewrite ?slen_app; lia). rewrite slen_app, <- app_assoc, <- Happ.
  replace (Z.to_nat (n - slen got)) with (length b + Z.to_nat (n - (slen got + slen b)))%nat by (unfold slen in *; lia).
  by rewrite take_app_add.
Qed.
End AnyReader.

(** ** What is stored *)

Section Stored.
Context {S : Type} `{ContentManager S} `{Compression}.

(** A direct object: one content, decompressed if its identifier says so. *)
Definition holds (s : S) (oid : ObjectID.ID) (data : list Z) : Prop :=
  direct oid /\ exists payload, GetContent s (ObjectID.cid oid) = Ok payload
    /\ if ObjectID.compression oid then DecompressByHeader payload = Some data else payload = data.

(** An object: direct, or an object that is the index of direct chunks. *)
Inductive stored (s : S) : ObjectID.ID -> list Z -> Prop :=
| stored_direct oid data : holds s oid data -> stored s oid data
| stored_indirect oid entries chunks :
    0 <= ObjectID.indirection oid < 255 -> stored s oid (encode_index entries) -> entries <> [] ->
    Forall (fun e => ObjectID.valid (e_Object e)) entries -> laid_out (holds s) 0 entries chunks ->
    slen (concat chunks) < 2 ^ 63 -> stored s (ObjectID.indirect oid) (concat chunks).

Lemma holds_Index s oid data : holds s oid data -> ObjectID.IndexObjectID oid = None.
Proof. intros [Hd _]. unfold ObjectID.IndexObjectID. by rewrite Hd. Qed.

(** The equations of the two mutual functions. *)
Lemma openAndAssertLength_S s fuel oid assertLength : openAndAssertLength s (Datatypes.S fuel) oid assertLength
  = match ObjectID.IndexObjectID oid with
    | Some indexObjectID =>
        let! seekTable := LoadIndexObject s fuel indexObjectID in
        match last seekTable with
        | None => Err ErrPanic
        | Some e => Ok (indirectReader (mkReader seekTable 0 (endOffset e) 0 None 0))
        end
    | None => newRawReader s oid assertLength
    end.
Proof.
  change (openAndAssertLength s (Datatypes.S fuel) oid assertLength) with
    (match ObjectID.IndexObjectID oid with
     | Some indexObjectID =>
         let! r := openAndAssertLength s fuel indexObjectID (-1) in
         let! seekTable := decode_stream (ReadAll (chunk_bytes s fuel) r) in
         match last seekTable with
         | None => Err ErrPanic
         | Some e => Ok (indirectReader (mkReader seekTable 0 (endOffset e) 0 None 0))
         end
     | None => newRawReader s oid assertLength
     end).
  destruct (ObjectID.IndexObjectID oid) as [i|]; [|done]. unfold LoadIndexObject. by destruct (openAndAssertLength s fuel i (-1)).
Qed.

Lemma chunk_bytes_S s fuel st : chunk_bytes s (Datatypes.S fuel) st
  = let! rd := openAndAssertLength s fuel (e_Object st) (e_Length st) in
    if e_Length st <? 0 then Err ErrPanic else ReadFull (chunk_bytes s fuel) rd (e_Length st).
Proof. reflexivity. Qed.

Lemma open_direct s oid data fuel n : holds s oid data -> n = -1 \/ n = slen data ->
  openAndAssertLength s (Datatypes.S fuel) oid n = Ok (readerWithData data 0).
Proof.
  intros Hh Hn. rewrite openAndAssertLength_S, (holds_Index _ _ _ Hh). destruct Hh as [Hd (payload & Hg & Hp)].
  unfold newRawReader, ObjectID.ContentID. rewrite Hd. cbn [Z.ltb Z.compare]. rewrite Hg.
  assert ((if ObjectID.compression oid then match DecompressByHeader payload with Some b => Ok b | None => Err ErrDecompression end
           else Ok payload) = Ok (E := object_error) data) as ->.
  { destruct (ObjectID.compression oid); [by rewrite Hp|by rewrite Hp]. }
  destruct Hn as [-> | ->]; [done|]. by rewrite Z.eqb_refl, andb_false_r.
Qed.

Lemma chunk_bytes_direct s fuel e c : holds s (e_Object e) c -> e_Length e = slen c ->
  chunk_bytes s (Datatypes.S (Datatypes.S fuel)) e = Ok c.
Proof.
  intros Hh Hl. rewrite chunk_bytes_S, Hl, (open_direct s (e_Object e) c fuel (slen c) Hh) by by right. pose proof (slen_nonneg c). rewrite (proj2 (Z.ltb_ge _ _)) by lia.
  unfold ReadFull. rewrite (read_full_ok _ c _ _ (readerWithData c 0) 0) by (cbn; unfold slen; cbn; lia || done).
  cbn [app]. change (slen []) with 0. rewrite take_ge; [done|]. unfold slen. rewrite length_drop. lia.
Qed.

Lemma laid_out_mono (P Q : ObjectID.ID -> list Z -> Prop) pos entries chunks : (forall o c, P o c -> Q o c) ->
  laid_out P pos entries chunks -> laid_out Q pos entries chunks.
Proof.
  intros HPQ. revert pos chunks. induction entries as [|e es IH]; intros pos [|c cs]; cbn; try done.
  intros (? & ? & ? & ?). auto.
Qed.

Lemma laid_out_opens s fuel pos entries chunks : laid_out (holds s) pos entries chunks ->
  laid_out (opens (chunk_bytes s (Datatypes.S (Datatypes.S fuel)))) pos entries chunks.
Proof. apply laid_out_mono. intros o c Hh e <- Hl. by apply chunk_bytes_direct. Qed.

Lemma laid_out_entry_ok P entries chunks : laid_out P 0 entries chunks -> slen (concat chunks) < 2 ^ 63 ->
  Forall (fun e => ObjectID.valid (e_Object e)) entries -> Forall entry_ok entries.
Proof.
  intros Hl Hs Hv. apply Forall_lookup. intros i e He. destruct (laid_out_lookup _ _ _ _ _ _ Hl He) as (c & Hc & Hst & Hlen & _).
  pose proof (offset_total chunks i). pose proof (offset_S _ _ _ Hc). pose proof (offset_total chunks (Datatypes.S i)). pose proof (slen_nonneg c).
  split; [lia|lia|]. rewrite Forall_lookup in Hv. by eapply Hv.
Qed.

(** Opening a stored object gives a reader of its bytes: two levels of calls
    for a chunk, and one more for each index. *)
Lemma open_stored s oid data fuel fuel' : stored s oid data -> (Z.to_nat (ObjectID.indirection oid) + 2 <= fuel)%nat ->
  exists r, openAndAssertLength s fuel oid (-1) = Ok r /\ reader_at (chunk_bytes s (Datatypes.S (Datatypes.S fuel'))) data r 0.
Proof.
  intros Hst. revert fuel fuel'. induction Hst as [oid data Hh|oid entries chunks Hd Hst IH Hne Hv Hl Hs]; intros fuel fuel' Hf;
    (destruct fuel as [|fuel]; [lia|]).
  - exists (readerWithData data 0). split; [by apply open_direct; [|left]|done].
  - rewrite openAndAssertLength_S, ObjectID.IndexObjectID_indirect by done.
    assert (Z.to_nat (ObjectID.indirection oid) + 2 <= fuel)%nat as Hf'.
    { unfold ObjectID.indirect in Hf. cbn in Hf. rewrite Z.mod_small in Hf by lia. lia. }
    destruct fuel as [|[|fuel]]; [lia..|].
    destruct (IH (Datatypes.S (Datatypes.S fuel)) fuel Hf') as (r & Ho & Hr). unfold LoadIndexObject. rewrite Ho. rewrite (ReadAll_ok _ _ _ Hr).
    pose proof (decode_encode_index entries [] Hne (laid_out_entry_ok _ _ _ Hl Hs Hv)) as Hdec. rewrite app_nil_r in Hdec.
    unfold decode_stream. cbn [fst snd]. rewrite Hdec. destruct (last entries) as [e|] eqn:El; [|by apply last_None in El].
    eexists. split; [done|]. cbn [reader_at]. exists entries, chunks. split_and!; [by apply laid_out_opens|done|done|].
    apply coherent_inv. pose proof (laid_out_last _ _ _ _ _ Hl El) as Hend. unfold endOffset. rewrite Hend, Z.add_0_l.
    pose proof (slen_nonneg (concat chunks)). rewrite wrap64_id by (unfold in_int64, int64_min, int64_max; lia).
    split; cbn; try done. pose proof (slen_nonneg entries). lia.
Qed.

Lemma read_stored s oid data fuel : stored s oid data -> (Z.to_nat (ObjectID.indirection oid) + 2 <= fuel)%nat ->
  read_object s fuel oid = Ok data.
Proof.
  intros Hst Hf. unfold read_object, Open. destruct fuel as [|[|fuel]]; [lia..|].
  destruct (open_stored s oid data (Datatypes.S (Datatypes.S fuel)) fuel Hst Hf) as (r & -> & Hr). by rewrite (ReadAll_ok _ _ _ Hr).
Qed.
End Stored.
