(* ===== verification/ObjWriter.v ===== *)
(** * Writing objects

    [repo/object/object_writer.go] and [object_manager.go].  A writer cuts
    what it is given with its splitter and writes each chunk as a content, at
    once or in a goroutine; with more than one chunk the result is an index of
    the chunks, written as an object of its own by a second writer.  Writes in
    goroutines finish in an order the scheduler chooses: [sched] is the list
    of its choices, and the theorems hold for all of them. *)

From S2P Require Import Prelude GoStrings GoText IndexID IndexTable Splitter Json ObjID ObjReader.
Open Scope go_scope.

Definition indirectContentPrefix : IDPrefix := "x".

(** compression.HeaderID of no compression *)
Definition NoCompression : Z := 0.

(** [objectWriter].  [w_async] is the capacity of the semaphore, if there is
    one; [w_inflight] are the goroutines that hold it, each with its chunk's
    number and bytes. *)
Record objectWriter := mkWriter {
  w_compressor : option Compressor;
  w_metadataCompressor : option Compressor;
  w_prefix : IDPrefix;
  w_buffer : list Z;
  w_totalLength : Z;
  w_currentPosition : Z;
  w_indirectIndex : list IndirectObjectEntry;
  w_description : string;
  w_splitter : anySplitter;
  w_async : option nat;
  w_inflight : list (nat * list Z);
  w_contentWriteError : option object_error
}.

(** [new(objectWriter)] *)
Definition new_objectWriter : objectWriter :=
  mkWriter None None "" [] 0 0 [] "" (FixedSplitter (Fixed 0)) None [] None.

Definition set_index (w : objectWriter) (index : list IndirectObjectEntry) : objectWriter :=
  mkWriter (w_compressor w) (w_metadataCompressor w) (w_prefix w) (w_buffer w) (w_totalLength w) (w_currentPosition w)
    index (w_description w) (w_splitter w) (w_async w) (w_inflight w) (w_contentWriteError w).

Definition set_buffer (w : objectWriter) (b : list Z) : objectWriter :=
  mkWriter (w_compressor w) (w_metadataCompressor w) (w_prefix w) b (w_totalLength w) (w_currentPosition w)
    (w_indirectIndex w) (w_description w) (w_splitter w) (w_async w) (w_inflight w) (w_contentWriteError w).

Definition set_inflight (w : objectWriter) (l : list (nat * list Z)) : objectWriter :=
  mkWriter (w_compressor w) (w_metadataCompressor w) (w_prefix w) (w_buffer w) (w_totalLength w) (w_currentPosition w)
    (w_indirectIndex w) (w_description w) (w_splitter w) (w_async w) l (w_contentWriteError w).

Definition set_splitter (w : objectWriter) (s : anySplitter) : objectWriter :=
  mkWriter (w_compressor w) (w_metadataCompressor w) (w_prefix w) (w_buffer w) (w_totalLength w) (w_currentPosition w)
    (w_indirectIndex w) (w_description w) s (w_async w) (w_inflight w) (w_contentWriteError w).

(** [saveError] *)
Definition saveError (w : objectWriter) (e : object_error) : objectWriter :=
  mkWriter (w_compressor w) (w_metadataCompressor w) (w_prefix w) (w_buffer w) (w_totalLength w) (w_currentPosition w)
    (w_indirectIndex w) (w_description w) (w_splitter w) (w_async w) (w_inflight w) (Some e).

Definition maybeCompressedObjectID (contentID : IndexID.ID) (isCompressed : bool) : ObjectID.ID :=
  let oid := ObjectID.Direct contentID in
  if isCompressed then ObjectID.compressed oid else oid.

Definition maybeCompressedContentBytes (comp : option Compressor) (input : list Z) : result object_error (list Z * bool) :=
  match comp with
  | None => Ok (input, false)
  | Some c =>
      match Compress c input with
      | None => Err ErrCompression
      | Some output => if slen output <? slen input then Ok (output, true) else Ok (input, false)
      end
  end.

(** [w.indirectIndex[chunkID].Object = oid] *)
Definition set_object (index : list IndirectObjectEntry) (chunkID : nat) (oid : ObjectID.ID) : list IndirectObjectEntry :=
  alter (fun e => mkEntry (e_Start e) (e_Length e) oid) chunkID index.

(** The scheduler's choices at each wait. *)
Abbreviation schedule := (list (list nat)).

Section Writing.
Context {S : Type} `{ContentManager S} `{Compression} `{RollingHashes}.
(** [om.newDefaultSplitter]: what it makes. *)
Context (newDefaultSplitter : anySplitter).

(** The compressor of the content manager for this chunk, and the one of this layer. *)
Definition chunk_compressors (w : objectWriter) (s : S) : Z * option Compressor :=
  let '(comp, objectComp) :=
    match w_compressor w with
    | Some c => if SupportsContentCompression s then (HeaderID c, None) else (NoCompression, Some c)
    | None => (NoCompression, None)
    end in
  (comp, if String.eqb (w_prefix w) "" then objectComp else None).

Definition prepareAndWriteContentChunk (w : objectWriter) (s : S) (chunkID : nat) (data : list Z)
  : option object_error * objectWriter * S :=
  let '(comp, objectComp) := chunk_compressors w s in
  match maybeCompressedContentBytes objectComp data with
  | Err e => (Some e, w, s)
  | Ok (contentBytes, isCompressed) =>
      match WriteContent s contentBytes (w_prefix w) comp with
      | (Err e, s) => (Some e, w, s)
      | (Ok contentID, s) =>
          (None, set_index w (set_object (w_indirectIndex w) chunkID (maybeCompressedObjectID contentID isCompressed)), s)
      end
  end.

(** The goroutine at [i] of those in flight runs and releases the semaphore. *)
Definition run_goroutine (w : objectWriter) (s : S) (i : nat) : objectWriter * S :=
  match w_inflight w !! i with
  | None => (w, s)
  | Some (chunkID, data) =>
      let '(err, w, s) := prepareAndWriteContentChunk w s chunkID data in
      let w := set_inflight w (delete i (w_inflight w)) in
      (match err with Some e => saveError w e | None => w end, s)
  end.

(** The goroutines the scheduler runs, by their places among those in flight. *)
Fixpoint run_scheduled (picks : list nat) (w : objectWriter) (s : S) : objectWriter * S :=
  match picks with
  | [] => (w, s)
  | p :: picks =>
      let '(w, s) := run_goroutine w s (p `mod` length (w_inflight w))%nat in
      run_scheduled picks w s
  end.

(** Until at most [n] are in flight, the oldest first. *)
Fixpoint run_until (turns n : nat) (w : objectWriter) (s : S) : objectWriter * S :=
  if (length (w_inflight w) <=? n)%nat then (w, s)
  else match turns with
  | O => (w, s)
  | Datatypes.S turns => let '(w, s) := run_goroutine w s 0 in run_until turns n w s
  end.

(** Waiting for room for one more, or for all: the scheduler's choices first. *)
Definition wait (picks : list nat) (n : nat) (w : objectWriter) (s : S) : objectWriter * S :=
  let '(w, s) := run_scheduled picks w s in
  run_until (length (w_inflight w)) n w s.

Definition flushBufferLocked (sched : schedule) (w : objectWriter) (s : S) : option object_error * objectWriter * S :=
  let length := slen (w_buffer w) in
  let chunkID := List.length (w_indirectIndex w) in
  let data := w_buffer w in
  let w := mkWriter (w_compressor w) (w_metadataCompressor w) (w_prefix w) (w_buffer w) (w_totalLength w)
             (wrap64 (w_currentPosition w + length))
             (w_indirectIndex w ++ [mkEntry (w_currentPosition w) length ObjectID.Empty])
             (w_description w) (w_splitter w) (w_async w) (w_inflight w) (w_contentWriteError w) in
  match w_async w with
  | None =>
      match prepareAndWriteContentChunk w s chunkID data with
      | (Some e, w, s) => (Some e, set_buffer (saveError w e) [], s)
      | (None, w, s) => (None, set_buffer w [], s)
      end
  | Some cap =>
      (* acquire write semaphore *)
      let '(w, s) := wait (default [] (head sched)) (cap - 1) w s in
      (None, set_buffer (set_inflight w (w_inflight w ++ [(chunkID, data)])) [], s)
  end.

(** The loop of [Write]: a split point is after at least a byte. *)
Fixpoint write_loop (turns : nat) (sched : schedule) (w : objectWriter) (s : S) (data : list Z)
  : option object_error * objectWriter * S * schedule :=
  match data with
  | [] => (None, w, s, sched)
  | _ =>
      match turns with
      | O => (Some ErrTooDeep, w, s, sched)
      | Datatypes.S turns =>
          let '(n, sp) := NextSplitPoint (w_splitter w) data in
          let w := set_splitter w sp in
          if n <? 0 then (None, set_buffer w (w_buffer w ++ data), s, sched)
          else
            let w := set_buffer w (w_buffer w ++ take (Z.to_nat n) data) in
            match flushBufferLocked sched w s with
            | (Some e, w, s) => (Some e, w, s, tail sched)
            | (None, w, s) => write_loop turns (tail sched) w s (drop (Z.to_nat n) data)
            end
      end
  end.

(** [Write] *)
Definition writer_Write (sched : schedule) (w : objectWriter) (s : S) (data : list Z)
  : option object_error * objectWriter * S * schedule :=
  let w := mkWriter (w_compressor w) (w_metadataCompressor w) (w_prefix w) (w_buffer w) (wrap64 (w_totalLength w + slen data))
             (w_currentPosition w) (w_indirectIndex w) (w_description w) (w_splitter w) (w_async w) (w_inflight w)
             (w_contentWriteError w) in
  write_loop (Datatypes.S (length data)) sched w s data.

(** The writer of the index, as [checkpointLocked] makes it. *)
Definition index_writer (w : objectWriter) : objectWriter :=
  mkWriter (w_metadataCompressor w) (w_metadataCompressor w)
    (if String.eqb (w_prefix w) "" then indirectContentPrefix else w_prefix w)
    [] 0 0 [] ("LIST(" +:+ w_description w +:+ ")") newDefaultSplitter None [] None.

(** [Result], given [checkpointLocked]. *)
Definition result_with (checkpoint : schedule -> objectWriter -> S -> result object_error ObjectID.ID * objectWriter * S)
  (sched : schedule) (w : objectWriter) (s : S) : result object_error ObjectID.ID * objectWriter * S :=
  if (0 <? slen (w_buffer w)) || (slen (w_indirectIndex w) =? 0) then
    match flushBufferLocked sched w s with
    | (Some e, w, s) => (Err e, w, s)
    | (None, w, s) => checkpoint (tail sched) w s
    end
  else checkpoint sched w s.

(** [checkpointLocked] with [writeIndirectObject]; the index of an index is
    smaller, and [fuel] is how often there can be one. *)
Fixpoint checkpoint_loop (fuel : nat) (sched : schedule) (w : objectWriter) (s : S)
  : result object_error ObjectID.ID * objectWriter * S :=
  match fuel with
  | O => (Err ErrTooDeep, w, s)
  | Datatypes.S fuel =>
      (* wait for any in-flight asynchronous writes to finish *)
      let '(w, s) := wait (default [] (head sched)) 0 w s in
      match w_contentWriteError w with
      | Some e => (Err e, w, s)
      | None =>
          match w_indirectIndex w with
          | [] => (Ok ObjectID.Empty, w, s)
          | [e] => (Ok (e_Object e), w, s)
          | index =>
              match writer_Write [] (index_writer w) s (encode_index index) with
              | (Some e, _, s, _) => (Err e, w, s)
              | (None, iw, s, _) =>
                  match result_with (checkpoint_loop fuel) [] iw s with
                  | (Err e, _, s) => (Err e, w, s)
                  | (Ok oid, _, s) => (Ok (ObjectID.indirect oid), w, s)
                  end
              end
          end
      end
  end.

Definition checkpointLocked (sched : schedule) (w : objectWriter) (s : S) : result object_error ObjectID.ID * objectWriter * S :=
  checkpoint_loop (Datatypes.S (length (w_indirectIndex w))) sched w s.

(** [Checkpoint] and [Result] *)
Definition writer_Checkpoint := checkpointLocked.

Definition writer_Result (sched : schedule) (w : objectWriter) (s : S) : result object_error ObjectID.ID * objectWriter * S :=
  result_with checkpointLocked sched w s.

(** [Close]: wait for the goroutines; the buffer's storage is freed. *)
Definition writer_Close (sched : schedule) (w : objectWriter) (s : S) : objectWriter * S :=
  let '(w, s) := wait (default [] (head sched)) 0 w s in
  (set_buffer (set_splitter w (splitter_Reset (w_splitter w))) [], s).

(** ** The manager *)

Record WriterOptions := mkOptions {
  o_Description : string;
  o_Prefix : IDPrefix;
  o_Compressor : string;
  o_MetadataCompressor : string;
  o_Splitter : string;
  o_AsyncWrites : Z
}.

(** [NewWriter] on a writer from the pool. *)
Definition NewWriter (w : objectWriter) (opt : WriterOptions) : objectWriter :=
  let splitFactory := if String.eqb (o_Splitter opt) "" then None else GetFactory (o_Splitter opt) in
  mkWriter (ByName (o_Compressor opt)) (ByName (o_MetadataCompressor opt)) (o_Prefix opt) [] 0 0 [] (o_Description opt)
    (default newDefaultSplitter splitFactory)
    (if 0 <? o_AsyncWrites opt then Some (Z.to_nat (o_AsyncWrites opt)) else None)
    (w_inflight w) None.

Definition appendIndexEntries (indexEntries : list IndirectObjectEntry) (startingLength : Z) (incoming : list IndirectObjectEntry)
  : list IndirectObjectEntry * Z :=
  (indexEntries ++ ((fun inc => mkEntry (wrap64 (e_Start inc + startingLength)) (e_Length inc) (e_Object inc)) <$> incoming),
   foldl (fun n inc => wrap64 (n + e_Length inc)) startingLength incoming).

Definition appendIndexEntriesForObject (fuel : nat) (cr : S) (indexEntries : list IndirectObjectEntry) (startingLength : Z)
  (oid : ObjectID.ID) : result object_error (list IndirectObjectEntry * Z) :=
  match ObjectID.IndexObjectID oid with
  | Some indexObjectID =>
      let! ndx := LoadIndexObject cr fuel indexObjectID in
      Ok (appendIndexEntries indexEntries startingLength ndx)
  | None =>
      let! r := Open cr fuel oid in
      Ok (appendIndexEntries indexEntries startingLength [mkEntry 0 (reader_Length r) oid])
  end.

Fixpoint concat_loop (fuel : nat) (cr : S) (oids : list ObjectID.ID) (entries : list IndirectObjectEntry) (totalLength : Z)
  : result object_error (list IndirectObjectEntry) :=
  match oids with
  | [] => Ok entries
  | oid :: oids =>
      let! (entries, totalLength) := appendIndexEntriesForObject fuel cr entries totalLength oid in
      concat_loop fuel cr oids entries totalLength
  end.

(** The writer of a concatenation's index. *)
Definition concat_options (metadataComp : string) : WriterOptions :=
  mkOptions "CONCATENATED INDEX" indirectContentPrefix metadataComp metadataComp "" 0.

Definition Concatenate (fuel : nat) (s : S) (oids : list ObjectID.ID) (metadataComp : string)
  : result object_error ObjectID.ID * S :=
  match oids with
  | [] => (Err ErrEmptyListOfObjects, s)
  | [oid] => (Ok oid, s)
  | _ =>
      match concat_loop fuel s oids [] 0 with
      | Err e => (Err e, s)
      | Ok entries =>
          let w := NewWriter new_objectWriter (concat_options metadataComp) in
          match writer_Write [] w s (encode_index entries) with
          | (Some e, _, s, _) => (Err e, s)
          | (None, w, s, _) =>
              match writer_Result [] w s with
              | (Err e, _, s) => (Err e, s)
              | (Ok oid, _, s) => (Ok (ObjectID.indirect oid), s)
              end
          end
      end
  end.
End Writing.

(** [NewObjectManager]: the splitter of the repository's format. *)
Definition NewObjectManager (formatSplitter : string) : result object_error anySplitter :=
  let splitterID := if String.eqb formatSplitter "" then "FIXED" else formatSplitter in
  match GetFactory splitterID with
  | Some os => Ok os
  | None => Err ErrUnsupportedSplitter
  end.

(** * What a writer has written

    The invariant of a writer: its index lays the chunks out one after the
    other, and every chunk is stored, or still with a goroutine, or the error
    is kept for [Result].  Every operation keeps it, whatever the scheduler
    does. *)

(** ** What the writer relies on *)

(** A content that was written is read back, and stays: contents are named by
    their hashes, which are taken to be free of collisions. *)
Class ContentManagerLaws (S : Type) `{ContentManager S} := {
  write_get s data p c id s' : WriteContent s data p c = (Ok id, s') -> GetContent s' id = Ok data;
  write_keeps s data p c id d : GetContent s id = Ok d -> GetContent (snd (WriteContent s data p c)) id = Ok d;
  write_valid s data p c id s' : WriteContent s data p c = (Ok id, s') -> valid_id id
}.

(** What compresses decompresses. *)
Definition sound `{Compression} (c : Compressor) : Prop :=
  forall d z, Compress c d = Some z -> DecompressByHeader z = Some d.

Class CompressionLaws `{Compression} := {
  by_name_sound name c : ByName name = Some c -> sound c
}.

Section Written.
Context {S : Type} `{ContentManagerLaws S} `{CompressionLaws} `{RollingHashes}.

Definition extends (s s' : S) : Prop := forall id d, GetContent s id = Ok d -> GetContent s' id = Ok d.

#[export] Instance extends_preorder : PreOrder extends.
Proof. split; [by intros s id d|]. intros a b c Hab Hbc id d Hd. auto. Qed.

Lemma holds_extends s s' oid data : extends s s' -> holds s oid data -> holds s' oid data.
Proof. intros He [Hd (p & Hg & Hp)]. split; [done|]. exists p. auto. Qed.

Lemma stored_extends s s' oid data : extends s s' -> stored s oid data -> stored s' oid data.
Proof.
  intros He. induction 1 as [oid data Hh|oid entries chunks Hd Hst IH Hne Hv Hl Hs]; [by apply stored_direct, (holds_extends s)|].
  eapply stored_indirect; try done. eapply laid_out_mono; [|done]. intros o c. by apply holds_extends.
Qed.

(** The errors a writer can end in: those of the layer below. *)
Definition failure (e : object_error) : Prop :=
  (exists s data p c s', WriteContent (S := S) s data p c = (Err e, s')) \/ (e = ErrCompression /\ exists c d, Compress c d = None).

(** A chunk's entry once its content is written. *)
Definition chunk_stored (w : objectWriter) (s : S) (oid : ObjectID.ID) (c : list Z) : Prop :=
  holds s oid c /\ ObjectID.valid oid /\ (w_prefix w <> "" -> ObjectID.compression oid = false).

Definition sound_option (c : option Compressor) : Prop := match c with Some c => sound c | None => True end.

(** The invariant; [lim] is how many of the chunks have been handed over. *)
Record written (lim : nat) (w : objectWriter) (s : S) (chunks : list (list Z)) : Prop := {
  wr_layout : laid_out (fun _ _ => True) 0 (w_indirectIndex w) chunks;
  wr_pos : w_currentPosition w = slen (concat chunks);
  wr_compressors : sound_option (w_compressor w) /\ sound_option (w_metadataCompressor w);
  wr_inflight : forall i c, (i, c) ∈ w_inflight w -> chunks !! i = Some c;
  wr_sync : w_async w = None -> w_inflight w = [];
  wr_error : forall e, w_contentWriteError w = Some e -> failure e;
  wr_done : w_contentWriteError w = None -> forall i e c, (i < lim)%nat -> w_indirectIndex w !! i = Some e -> chunks !! i = Some c ->
    (i, c) ∈ w_inflight w \/ chunk_stored w s (e_Object e) c
}.

(** ** One chunk *)

Lemma prepare_ok w s i data : sound_option (w_compressor w) ->
  match prepareAndWriteContentChunk w s i data with
  | (Some e, w', s') => failure e /\ w' = w /\ extends s s'
  | (None, w', s') => extends s s' /\ exists oid, w' = set_index w (set_object (w_indirectIndex w) i oid) /\ chunk_stored w s' oid data
  end.
Proof.
  intros Hsound. unfold prepareAndWriteContentChunk. destruct (chunk_compressors w s) as [comp objectComp] eqn:Ecc.
  assert (match objectComp with Some c => sound c /\ w_prefix w = "" | None => True end) as Hoc.
  { unfold chunk_compressors in Ecc. destruct (w_compressor w) as [c|]; [|by destruct (String.eqb (w_prefix w) ""); injection Ecc as <- <-].
    destruct (SupportsContentCompression s), (String.eqb_spec (w_prefix w) ""); injection Ecc as <- <-; done. }
  assert (match maybeCompressedContentBytes objectComp data with
          | Err e => failure e
          | Ok (b, z) => (if z then DecompressByHeader b = Some data else b = data) /\ (w_prefix w <> "" -> z = false)
          end) as Hm.
  { unfold maybeCompressedContentBytes. destruct objectComp as [c|]; [|done]. destruct Hoc as [Hc Hp].
    destruct (Compress c data) as [z|] eqn:Ez; [|by right; split; [|exists c, data]].
    destruct (slen z <? slen data); split; auto; done. }
  destruct (maybeCompressedContentBytes objectComp data) as [[b z]|e]; [|by split_and!].
  destruct Hm as [Hb Hz]. pose proof (write_keeps s b (w_prefix w) comp) as Hkeep.
  destruct (WriteContent s b (w_prefix w) comp) as [[id|e] s'] eqn:Ew; cbn [snd] in Hkeep.
  - split; [by intros ? ? ?; apply Hkeep|]. eexists. split; [done|]. pose proof (write_valid _ _ _ _ _ _ Ew). pose proof (write_get _ _ _ _ _ _ Ew).
    unfold chunk_stored, maybeCompressedObjectID. destruct z; (split; [|split]).
    + split; [done|]. by exists b.
    + by apply ObjectID.valid_compressed.
    + intros Hp. by specialize (Hz Hp).
    + split; [done|]. exists b. by split.
    + by apply ObjectID.valid_Direct.
    + done.
  - split_and!; [left; by do 5 eexists|done|by intros ? ? ?; apply Hkeep].
Qed.

Lemma laid_out_set_object pos es cs i oid : laid_out (fun _ _ => True) pos es cs -> laid_out (fun _ _ => True) pos (set_object es i oid) cs.
Proof.
  unfold set_object. revert pos cs i. induction es as [|e es IH]; intros pos [|c cs] [|i]; cbn; try done.
  intros (? & ? & ? & ?). split_and!; auto.
Qed.

Lemma elem_of_delete_other {A} (l : list A) j x y : l !! j = Some y -> x ∈ l -> x <> y -> x ∈ delete j l.
Proof.
  intros Hy [k Hk]%list_elem_of_lookup Hne. destruct (Nat.lt_total k j) as [Hlt|[-> |Hgt]]; [| congruence |].
  - apply list_elem_of_lookup. exists k. by rewrite list_lookup_delete_lt.
  - apply list_elem_of_lookup. exists (k - 1)%nat. rewrite list_lookup_delete_ge by lia. by replace (Datatypes.S (k - 1)) with k by lia.
Qed.

Lemma elem_of_delete {A} (l : list A) j x : x ∈ delete j l -> x ∈ l.
Proof.
  intros [k Hk]%list_elem_of_lookup. destruct (decide (k < j)%nat).
  - rewrite list_lookup_delete_lt in Hk by lia. by eapply list_elem_of_lookup_2.
  - rewrite list_lookup_delete_ge in Hk by lia. by eapply list_elem_of_lookup_2.
Qed.

(** ** Goroutines *)

Lemma lookup_set_object_ne es i j oid : i <> j -> set_object es i oid !! j = es !! j.
Proof. intros Hij. unfold set_object. by apply list_lookup_alter_ne. Qed.

Lemma lookup_set_object es i oid e : set_object es i oid !! i = Some e -> e_Object e = oid.
Proof. unfold set_object. rewrite list_lookup_alter_eq. destruct (es !! i); [|done]. by intros [= <-]. Qed.

(** The fields that a goroutine leaves alone. *)
Record same_writer (w w' : objectWriter) : Prop := {
  sw_prefix : w_prefix w' = w_prefix w;
  sw_buffer : w_buffer w' = w_buffer w;
  sw_splitter : w_splitter w' = w_splitter w;
  sw_async : w_async w' = w_async w;
  sw_metadata : w_metadataCompressor w' = w_metadataCompressor w;
  sw_length : length (w_indirectIndex w') = length (w_indirectIndex w);
  sw_error : w_contentWriteError w <> None -> w_contentWriteError w' <> None
}.

#[export] Instance same_writer_preorder : PreOrder same_writer.
Proof. split; [by intros w; split|]. intros a b c [] []. split; (congruence || auto). Qed.

Lemma run_goroutine_ok lim w s i chunks : written lim w s chunks ->
  let '(w', s') := run_goroutine w s i in
  written lim w' s' chunks /\ extends s s' /\ same_writer w w'
  /\ length (w_inflight w') = (length (w_inflight w) - (if decide (i < length (w_inflight w))%nat then 1 else 0))%nat.
Proof.
  intros Hw. pose proof Hw as [Hlay Hpos [Hc Hmc] Hinf Hsync Herr Hdone]. unfold run_goroutine.
  destruct (w_inflight w !! i) as [[k data]|] eqn:Ei.
  2: { apply lookup_ge_None in Ei. destruct (decide _); [lia|]. rewrite Nat.sub_0_r. by split_and!. }
  pose proof (lookup_lt_Some _ _ _ Ei) as Hlt. pose proof (Hinf k data (list_elem_of_lookup_2 _ _ _ Ei)) as Hk.
  pose proof (prepare_ok w s k data Hc) as Hp. destruct (decide (i < length (w_inflight w))%nat) as [_|]; [|lia].
  assert (length (delete i (w_inflight w)) = (length (w_inflight w) - 1)%nat) as Hdl by (rewrite length_delete; [lia|by eexists]).
  assert (w_async w = None -> delete i (w_inflight w) = []) as Hs'.
  { intros E. by rewrite (Hsync E) in Ei. }
  destruct (prepareAndWriteContentChunk w s k data) as [[[e|] w'] s'].
  - destruct Hp as (Hf & -> & Hext). split_and!; [|done|split; try done; by destruct 1|done].
    split; cbn; try done; [by intros j c Hj; eapply Hinf, elem_of_delete|by intros ? [= <-]].
  - destruct Hp as (Hext & oid & -> & Hst). split_and!; [|done|split; try done; cbn; unfold set_object; by rewrite length_alter|done].
    split; cbn; try done; [by apply laid_out_set_object|by intros j c Hj; eapply Hinf, elem_of_delete|].
    intros He j e c Hj Hje Hjc. destruct (decide (k = j)) as [-> |Hne].
    + right. rewrite Hk in Hjc. injection Hjc as <-. rewrite (lookup_set_object _ _ _ _ Hje). by destruct Hst.
    + rewrite lookup_set_object_ne in Hje by done. destruct (Hdone He j e c Hj Hje Hjc) as [Hin|(Hh & Hv & Hz)].
      * left. eapply elem_of_delete_other; [exact Ei|done|congruence].
      * right. split_and!; [by eapply holds_extends|done|done].
Qed.

Lemma run_scheduled_ok lim picks : forall w s chunks, written lim w s chunks ->
  let '(w', s') := run_scheduled picks w s in written lim w' s' chunks /\ extends s s' /\ same_writer w w'.
Proof.
  induction picks as [|p picks IH]; intros w s chunks Hw; cbn [run_scheduled]; [by split_and!|].
  pose proof (run_goroutine_ok lim w s (p `mod` length (w_inflight w))%nat chunks Hw) as Hg.
  destruct (run_goroutine w s _) as [w1 s1]. destruct Hg as (Hw1 & He & Hsw & _). specialize (IH w1 s1 chunks Hw1).
  destruct (run_scheduled picks w1 s1) as [w2 s2]. destruct IH as (? & ? & ?). split_and!; [done|by etransitivity..].
Qed.

Lemma run_until_ok lim n turns : forall w s chunks, written lim w s chunks -> (length (w_inflight w) <= turns)%nat ->
  let '(w', s') := run_until turns n w s in
  written lim w' s' chunks /\ extends s s' /\ same_writer w w' /\ (length (w_inflight w') <= n)%nat.
Proof.
  induction turns as [|turns IH]; intros w s chunks Hw Ht; cbn [run_until]; destruct (Nat.leb_spec (length (w_inflight w)) n); try (by split_and!).
  { lia. }
  pose proof (run_goroutine_ok lim w s 0 chunks Hw) as Hg. destruct (run_goroutine w s 0) as [w1 s1].
  destruct Hg as (Hw1 & He & Hsw & Hlen). destruct (decide _) in Hlen; [|lia]. specialize (IH w1 s1 chunks Hw1 ltac:(lia)).
  destruct (run_until turns n w1 s1) as [w2 s2]. destruct IH as (? & ? & ? & ?). split_and!; [done|by etransitivity|by etransitivity|done].
Qed.

Lemma wait_ok lim picks n w s chunks : written lim w s chunks ->
  let '(w', s') := wait picks n w s in
  written lim w' s' chunks /\ extends s s' /\ same_writer w w' /\ (length (w_inflight w') <= n)%nat.
Proof.
  intros Hw. unfold wait. pose proof (run_scheduled_ok lim picks w s chunks Hw) as Hsch. destruct (run_scheduled picks w s) as [w1 s1].
  destruct Hsch as (Hw1 & He1 & Hs1). pose proof (run_until_ok lim n (length (w_inflight w1)) w1 s1 chunks Hw1 (le_n _)) as Hun.
  destruct (run_until _ n w1 s1) as [w2 s2]. destruct Hun as (? & ? & ? & ?). split_and!; [done|by etransitivity|by etransitivity|done].
Qed.
(** ** Flushing *)

(** What a flush keeps. *)
Record flushed (w w' : objectWriter) : Prop := {
  fl_prefix : w_prefix w' = w_prefix w;
  fl_buffer : w_buffer w' = [];
  fl_splitter : w_splitter w' = w_splitter w;
  fl_metadata : w_metadataCompressor w' = w_metadataCompressor w;
  fl_error : w_contentWriteError w <> None -> w_contentWriteError w' <> None
}.

Lemma laid_out_snoc es cs pos c : laid_out (fun _ _ => True) 0 es cs -> pos = slen (concat cs) ->
  laid_out (fun _ _ => True) 0 (es ++ [mkEntry pos (slen c) ObjectID.Empty]) (cs ++ [c]).
Proof. intros Hl ->. apply laid_out_app; [done|]. cbn. by split_and!. Qed.

Definition fits (n : Z) : Prop := n < 2 ^ 63.

Lemma fits_wrap64 n : 0 <= n -> fits n -> wrap64 n = n.
Proof. unfold fits. intros. apply wrap64_id. unfold in_int64, int64_min, int64_max. lia. Qed.

(** The state between the two halves of a flush: the new chunk has its entry. *)
Lemma written_grow w s chunks : written (length chunks) w s chunks -> fits (slen (concat chunks) + slen (w_buffer w)) ->
  written (length chunks)
    (mkWriter (w_compressor w) (w_metadataCompressor w) (w_prefix w) (w_buffer w) (w_totalLength w)
       (wrap64 (w_currentPosition w + slen (w_buffer w)))
       (w_indirectIndex w ++ [mkEntry (w_currentPosition w) (slen (w_buffer w)) ObjectID.Empty])
       (w_description w) (w_splitter w) (w_async w) (w_inflight w) (w_contentWriteError w)) s (chunks ++ [w_buffer w]).
Proof.
  intros [Hlay Hpos Hc Hinf Hsync Herr Hdone] Hfit. pose proof (laid_out_length _ _ _ _ Hlay) as Hlen.
  pose proof (slen_nonneg (concat chunks)). pose proof (slen_nonneg (w_buffer w)).
  split; cbn; try done.
  - by apply laid_out_snoc.
  - rewrite Hpos, fits_wrap64, concat_app, slen_app by (done || lia). cbn. by rewrite app_nil_r.
  - intros i c Hi. specialize (Hinf i c Hi). rewrite lookup_app_l; [done|]. by eapply lookup_lt_Some.
  - intros He i e c Hi Hie Hic. rewrite lookup_app_l in Hie by lia. rewrite lookup_app_l in Hic by lia. by apply (Hdone He i e c).
Qed.

Lemma flush_ok sched w s chunks : written (length chunks) w s chunks -> fits (slen (concat chunks) + slen (w_buffer w)) ->
  let '(err, w', s') := flushBufferLocked sched w s in
  written (length (chunks ++ [w_buffer w])) w' s' (chunks ++ [w_buffer w]) /\ extends s s' /\ flushed w w'
  /\ forall e, err = Some e -> failure e /\ w_contentWriteError w' <> None.
Proof.
  intros Hw Hfit. pose proof (written_grow w s chunks Hw Hfit) as Hg. unfold flushBufferLocked. cbn [w_async w_inflight].
  pose proof (laid_out_length _ _ _ _ (wr_layout _ _ _ _ Hw)) as Hlen. set (chunks' := chunks ++ [w_buffer w]) in *.
  set (w1 := mkWriter _ _ _ _ _ _ _ _ _ _ _ _) in *.
  assert (length chunks' = Datatypes.S (length chunks)) as Hlc by (subst chunks'; rewrite length_app; cbn; lia).
  assert (chunks' !! length chunks = Some (w_buffer w)) as Hlast by (subst chunks'; by apply list_lookup_middle).
  destruct (w_async w) as [cap|] eqn:Ea.
  - pose proof (wait_ok (length chunks) (default [] (head sched)) (cap - 1) w1 s chunks' Hg) as Hwt.
    destruct (wait _ (cap - 1) w1 s) as [w2 s2]. destruct Hwt as (Hw2 & He2 & Hsw & _).
    pose proof Hw2 as [Hlay Hpos Hc Hinf Hsync Herr Hdone]. split_and!; [|done| |done].
    + split; cbn; try done.
      * intros i c [Hi|Hi]%elem_of_app; [by apply Hinf|]. apply list_elem_of_singleton in Hi as [= -> ->]. by rewrite Hlen.
      * rewrite (sw_async _ _ Hsw). subst w1. done.
      * intros He i e c Hi Hie Hic. destruct (decide (i < length chunks)%nat) as [Hlt|Hge].
        -- destruct (Hdone He i e c Hlt Hie Hic) as [Hin|Hst]; [left; apply elem_of_app; by left|by right].
        -- left. apply elem_of_app. right. apply list_elem_of_singleton. assert (i = length chunks) as -> by lia.
           rewrite Hlast in Hic. injection Hic as <-. by rewrite Hlen.
    + split; cbn; try done; [apply (sw_prefix _ _ Hsw)|apply (sw_splitter _ _ Hsw)|apply (sw_metadata _ _ Hsw)|apply (sw_error _ _ Hsw)].
  - pose proof (prepare_ok w1 s (length (w_indirectIndex w)) (w_buffer w) (proj1 (wr_compressors _ _ _ _ Hw))) as Hp.
    pose proof Hg as [Hlay Hpos Hc Hinf Hsync Herr Hdone].
    destruct (prepareAndWriteContentChunk w1 s _ (w_buffer w)) as [[[e|] w2] s2].
    + destruct Hp as (Hf & -> & Hext). split_and!; [|done|by split|by intros ? [= <-]].
      split; cbn; try done. by intros ? [= <-].
    + destruct Hp as (Hext & oid & -> & Hst). split_and!; [|done|by split|done].
      split; cbn; try done; [by apply laid_out_set_object|]. intros He i e c Hi Hie Hic. right.
      destruct (decide (length (w_indirectIndex w) = i)) as [<-|Hne].
      * rewrite (lookup_set_object _ _ _ _ Hie). rewrite Hlen, Hlast in Hic. injection Hic as <-. by destruct Hst.
      * rewrite lookup_set_object_ne in Hie by done.
        destruct (Hdone He i e c ltac:(lia) Hie Hic) as [Hin|(Hh & Hv & Hz)]; [|split_and!; [by eapply holds_extends|done|done]].
        rewrite (Hsync eq_refl) in Hin. by apply not_elem_of_nil in Hin.
Qed.

(** ** Writing *)

Lemma NextSplitPoint_range sp data : any_ok sp -> data <> [] ->
  let '(n, sp') := NextSplitPoint sp data in
  any_ok sp' /\ any_min sp' = any_min sp /\ (n < 0 \/ 1 <= n <= slen data).
Proof.
  intros Hok Hne. rewrite (any_cut sp data Hok).
  assert (forall l (sp : anySplitter), any_ok sp -> any_ok (cut ss_step sp l).2 /\ any_min (cut ss_step sp l).2 = any_min sp) as Hk.
  { induction l as [|x l IH]; intros sp0 Hok0; [done|]. cbn [cut]. pose proof (any_keeps sp0 x Hok0) as (Hok1 & Hmin).
    destruct (ss_step sp0 x) as [[] sp1]; cbn [snd] in *; [done|]. specialize (IH sp1 Hok1).
    destruct (cut ss_step sp1 l) as [n sp2]. cbn [snd] in *. destruct IH as [? Hm]. split; [done|]. by rewrite Hm. }
  pose proof (cut_range ss_step sp data). specialize (Hk data sp Hok). destruct (cut ss_step sp data) as [n sp']. cbn [fst snd] in *.
  destruct Hk. split_and!; [done|done|lia].
Qed.

(** The writer between two calls. *)
Record writing (w : objectWriter) (s : S) (chunks : list (list Z)) (total : Z) : Prop := {
  wg_written : written (length chunks) w s chunks;
  wg_splitter : any_ok (w_splitter w);
  wg_total : slen (concat chunks) + slen (w_buffer w) <= total
}.

Lemma written_set_buffer lim w s chunks sp b : written lim w s chunks -> written lim (set_buffer (set_splitter w sp) b) s chunks.
Proof. intros []. by split. Qed.

Lemma write_loop_ok turns : forall sched w s chunks total data, writing w s chunks total -> fits (total + slen data) ->
  (length data < turns)%nat ->
  let '(err, w', s', _) := write_loop turns sched w s data in
  exists new, writing w' s' (chunks ++ new) (total + slen data) /\ extends s s'
    /\ w_prefix w' = w_prefix w /\ w_metadataCompressor w' = w_metadataCompressor w
    /\ (w_contentWriteError w <> None -> w_contentWriteError w' <> None)
    /\ (forall e, err = Some e -> failure e /\ w_contentWriteError w' <> None)
    /\ (w_contentWriteError w' = None -> chop (w_splitter w) (w_buffer w) data = (new, w_buffer w', w_splitter w')).
Proof.
  induction turns as [|turns IH]; intros sched w s chunks total data [Hw Hsp Htot] Hfit Ht; [lia|]. cbn [write_loop].
  destruct data as [|x l]; [exists []; rewrite app_nil_r, Z.add_0_r; by split_and!|]. set (data := x :: l) in *.
  pose proof (NextSplitPoint_range (w_splitter w) data Hsp ltac:(done)) as Hn.
  pose proof (chop_cut (w_splitter w) (w_buffer w) data) as Hchop. rewrite <- (any_cut (w_splitter w) data Hsp) in Hchop.
  destruct (NextSplitPoint (w_splitter w) data) as [n sp]. destruct Hn as (Hok & _ & Hn).
  destruct (Z.ltb_spec n 0) as [Hneg|Hpos].
  - exists []. rewrite app_nil_r. split_and!; try done. split; [by apply written_set_buffer|done|]. cbn. rewrite slen_app. lia.
  - change (w_buffer (set_splitter w sp)) with (w_buffer w).
    set (w1 := set_buffer (set_splitter w sp) (w_buffer w ++ take (Z.to_nat n) data)) in *.
    assert (slen (take (Z.to_nat n) data) = n) as Htl by (unfold slen in *; rewrite length_take; lia).
    assert (slen (drop (Z.to_nat n) data) = slen data - n) as Hdl by (unfold slen in *; rewrite length_drop; lia).
    assert (fits (slen (concat chunks) + slen (w_buffer w1))) as Hfit1 by (subst w1; cbn; rewrite slen_app, Htl; unfold fits in *; lia).
    pose proof (flush_ok sched w1 s chunks (written_set_buffer _ _ _ _ _ _ Hw) Hfit1) as Hfl.
    destruct (flushBufferLocked sched w1 s) as [[err w2] s2]. destruct Hfl as (Hw2 & He2 & [Hfp Hfb Hfs Hfm Hfe] & Herr).
    assert (slen (concat (chunks ++ [w_buffer w1])) = slen (concat chunks) + slen (w_buffer w) + n) as Hcl.
    { rewrite concat_app, slen_app. cbn [concat]. rewrite app_nil_r. subst w1. cbn. rewrite slen_app, Htl. lia. }
    destruct err as [e|].
    + exists [w_buffer w1]. destruct (Herr e eq_refl) as [Hf He]. split_and!; try done.
      split; [done|by rewrite Hfs|rewrite Hcl, Hfb; change (slen []) with 0; lia].
    + specialize (IH (tail sched) w2 s2 (chunks ++ [w_buffer w1]) (total + n) (drop (Z.to_nat n) data)).
      destruct (write_loop turns (tail sched) w2 s2 (drop (Z.to_nat n) data)) as [[[err' w3] s3] sched'].
      destruct IH as (new & Hw3 & He3 & Hp3 & Hm3 & Hmono & Herr3 & Hch3).
      * split; [done|by rewrite Hfs|rewrite Hcl, Hfb; change (slen []) with 0; lia].
      * rewrite Hdl. unfold fits in *. lia.
      * unfold slen in *. lia.
      * exists (w_buffer w1 :: new). rewrite <- app_assoc in Hw3. cbn [app] in Hw3.
        replace (total + n + slen (drop (Z.to_nat n) data)) with (total + slen data) in Hw3 by lia.
        split_and!; [done|by etransitivity|by rewrite Hp3, Hfp|by rewrite Hm3, Hfm|by auto|done|].
        intros Hnone. specialize (Hch3 Hnone). rewrite Hfb, Hfs in Hch3. cbn in Hch3. by rewrite Hchop, Hch3.
Qed.
(** ** Results *)

(** A splitter as a factory makes it: chunks of 64 KiB or more. *)
Definition good_splitter (sp : anySplitter) : Prop := any_ok sp /\ any_size sp = 0 /\ 65536 <= any_min sp.

Lemma chop_count sp data cs r sp' : good_splitter sp -> chop sp [] data = (cs, r, sp') -> 65536 * slen cs + slen r <= slen data.
Proof.
  intros (Hok & Hsz & Hmin) Hch. pose proof (chop_concat sp [] data) as Hc. pose proof (chop_sizes sp [] data Hok Hsz) as Hs. rewrite Hch in Hc, Hs.
  cbn in Hc. subst data. destruct Hs as (Hf & _). rewrite slen_app. change (ss_min sp) with (any_min sp) in Hf.
  assert (65536 * slen cs <= slen (concat cs)); [|lia].
  clear Hch. induction Hf as [|c cs [Hc _] _ IH]; [done|]. cbn [concat]. rewrite slen_app. unfold slen in *. cbn [length]. lia.
Qed.

(** What [Result] does before [checkpointLocked]. *)
Lemma result_prepare sched w s chunks total : writing w s chunks total -> fits total ->
  (exists e w' s', failure e /\ extends s s' /\ forall ck, result_with ck sched w s = (Err e, w', s'))
  \/ (exists sched' w' s' chunks', (forall ck, result_with ck sched w s = ck sched' w' s')
      /\ written (length chunks') w' s' chunks' /\ chunks' <> [] /\ extends s s' /\ concat chunks' = concat chunks ++ w_buffer w
      /\ (chunks' = chunks \/ chunks' = chunks ++ [w_buffer w] /\ (chunks = [] \/ w_buffer w <> []))
      /\ w_prefix w' = w_prefix w /\ w_metadataCompressor w' = w_metadataCompressor w
      /\ (w_contentWriteError w <> None -> w_contentWriteError w' <> None)).
Proof.
  intros [Hw Hsp Htot] Hfit. unfold result_with. pose proof (laid_out_length _ _ _ _ (wr_layout _ _ _ _ Hw)) as Hlen.
  pose proof (slen_nonneg (w_buffer w)) as Hb0. destruct ((0 <? slen (w_buffer w)) || (slen (w_indirectIndex w) =? 0)) eqn:Eb.
  - pose proof (flush_ok sched w s chunks Hw ltac:(unfold fits in *; lia)) as Hfl.
    destruct (flushBufferLocked sched w s) as [[[e|] w'] s']; destruct Hfl as (Hw' & He & [Hfp Hfb Hfs Hfm Hfe] & Herr).
    + left. exists e, w', s'. destruct (Herr e eq_refl). by split_and!.
    + right. exists (tail sched), w', s', (chunks ++ [w_buffer w]). split_and!; try done.
      * by destruct chunks.
      * rewrite concat_app. cbn. by rewrite app_nil_r.
      * right. split; [done|]. apply orb_true_iff in Eb as [Eb|Eb]; [right; intros E; by rewrite E in Eb|left].
        apply Z.eqb_eq in Eb. unfold slen in Eb. apply length_zero_iff_nil. lia.
  - right. apply orb_false_iff in Eb as [Eb Ec]. bool_to_prop. assert (w_buffer w = []) as Hbuf.
    { destruct (w_buffer w); [done|]. unfold slen in Eb. cbn in Eb. lia. }
    exists sched, w, s, chunks. split_and!; try done; [|by rewrite Hbuf, app_nil_r|by left].
    intros ->. unfold slen in Ec. cbn in Hlen. lia.
Qed.

Context (newDefaultSplitter : anySplitter) (Hdefault : good_splitter newDefaultSplitter).

Lemma checkpoint_error fuel sched w s chunks : written (length chunks) w s chunks -> w_contentWriteError w <> None ->
  let '(r, _, s') := checkpoint_loop newDefaultSplitter (Datatypes.S fuel) sched w s in
  extends s s' /\ exists e, r = Err e /\ failure e.
Proof.
  intros Hw He. cbn [checkpoint_loop]. pose proof (wait_ok (length chunks) (default [] (head sched)) 0 w s chunks Hw) as Hwt.
  destruct (wait _ 0 w s) as [w' s']. destruct Hwt as (Hw' & Hext & Hsw & _). pose proof (sw_error _ _ Hsw He).
  destruct (w_contentWriteError w') as [e|] eqn:Ee; [|done]. split; [done|]. exists e. split; [done|]. by apply (wr_error _ _ _ _ Hw').
Qed.

(** Once nothing is in flight and nothing failed, every chunk is stored. *)
Lemma written_all w s chunks : written (length chunks) w s chunks -> w_inflight w = [] -> w_contentWriteError w = None ->
  laid_out (chunk_stored w s) 0 (w_indirectIndex w) chunks.
Proof.
  intros [Hlay _ _ _ _ _ Hdone] Hin Hnone. rewrite Hin in Hdone. specialize (Hdone Hnone).
  revert Hlay Hdone. generalize 0 as pos. revert chunks. induction (w_indirectIndex w) as [|e es IH]; intros [|c cs] pos; cbn [laid_out]; try done.
  intros (H1' & H2' & _ & Hlay) Hdone. split_and!; try done.
  - destruct (Hdone 0%nat e c ltac:(cbn; lia) eq_refl eq_refl) as [Hel|]; [by apply not_elem_of_nil in Hel|done].
  - apply IH; [done|]. intros i e' c' Hi He Hc. right.
    destruct (Hdone (Datatypes.S i) e' c' ltac:(cbn; lia) He Hc) as [Hel|]; [by apply not_elem_of_nil in Hel|done].
Qed.

Lemma laid_out_Forall (P : ObjectID.ID -> list Z -> Prop) (Q : ObjectID.ID -> Prop) pos es cs : laid_out P pos es cs ->
  (forall o c, P o c -> Q o) -> Forall (fun e => Q (e_Object e)) es.
Proof.
  intros Hl HPQ. revert pos cs Hl. induction es as [|e es IH]; intros pos [|c cs]; cbn; try done.
  intros (_ & _ & HP & Hl). constructor; [by eapply HPQ|by eapply IH].
Qed.
(** An index of [n] entries takes at most half as many chunks. *)
Lemma index_chunks n k : 2 <= n -> 0 <= k -> 65536 * k <= 46 + 131 * n -> k + 1 <= n / 2 \/ k = 0.
Proof. intros. lia_div. Qed.

(** A writer that has been given nothing. *)
Record fresh (w : objectWriter) (sp : anySplitter) : Prop := {
  fr_empty : w_indirectIndex w = [] /\ w_buffer w = [] /\ w_currentPosition w = 0 /\ w_inflight w = [] /\ w_contentWriteError w = None;
  fr_compressors : sound_option (w_compressor w) /\ sound_option (w_metadataCompressor w);
  fr_splitter : w_splitter w = sp
}.

Lemma fresh_writing w s sp : fresh w sp -> good_splitter sp -> writing w s [] 0.
Proof.
  intros [(Hi & Hb & Hp & Hf & He) Hc Hs] Hg. split; [|rewrite Hs; apply Hg|by rewrite Hb].
  split; rewrite ?Hi, ?Hf, ?Hp; try done; [intros i c Hic; by apply not_elem_of_nil in Hic|by rewrite He].
Qed.

Lemma index_writer_fresh w : sound_option (w_metadataCompressor w) ->
  fresh (index_writer newDefaultSplitter w) newDefaultSplitter /\ w_prefix (index_writer newDefaultSplitter w) <> "".
Proof. intros Hs. split; [by split|]. cbn. by destruct (String.eqb_spec (w_prefix w) ""). Qed.

Definition checkpointed (w : objectWriter) (s' : S) (chunks : list (list Z)) (r : result object_error ObjectID.ID) : Prop :=
  match r with
  | Ok oid => w_contentWriteError w = None /\ stored s' oid (concat chunks) /\ ObjectID.valid oid
              /\ ObjectID.indirection oid <= Z.log2 (slen chunks) /\ (w_prefix w <> "" -> ObjectID.compression oid = false)
  | Err e => failure e
  end.

(** Writing the index and taking its result, given that the next level works. *)
Lemma write_index_ok ck iw s entries : Forall entry_ok entries -> Forall (fun e => direct (e_Object e)) entries ->
  2 <= slen entries <= 2 ^ 50 -> fresh iw newDefaultSplitter -> w_prefix iw <> "" ->
  (forall sched w' s' chunks, written (length chunks) w' s' chunks -> w_contentWriteError w' <> None ->
     let '(r, _, s'') := ck sched w' s' in extends s' s'' /\ exists e, r = Err e /\ failure e) ->
  (forall sched w' s' chunks, written (length chunks) w' s' chunks -> chunks <> [] -> fits (slen (concat chunks)) ->
     slen chunks <= Z.max 1 (slen entries / 2) ->
     let '(r, _, s'') := ck sched w' s' in extends s' s'' /\ checkpointed w' s'' chunks r) ->
  match writer_Write [] iw s (encode_index entries) with
  | (Some e, _, s', _) => extends s s' /\ failure e
  | (None, iw, s', _) =>
      let '(r, _, s'') := result_with ck [] iw s' in
      extends s s'' /\ match r with
      | Ok oid => stored s'' oid (encode_index entries) /\ ObjectID.valid oid
                  /\ ObjectID.indirection oid <= Z.log2 (Z.max 1 (slen entries / 2)) /\ ObjectID.compression oid = false
      | Err e => failure e
      end
  end.
Proof.
  intros Hok Hdir Hn Hfresh Hpx Herr Hck. set (text := encode_index entries). pose proof (encode_index_length entries Hok Hdir) as Htl. fold text in Htl. clearbody text.
  unfold writer_Write. set (iw0 := mkWriter _ _ _ _ _ _ _ _ _ _ _ _).
  assert (fresh iw0 newDefaultSplitter) as Hfresh0 by (by destruct Hfresh).
  pose proof (fresh_writing _ s _ Hfresh0 Hdefault) as Hiw.
  pose proof (slen_nonneg text) as Ht0. assert (fits (0 + slen text)) as Hfit by (unfold fits; lia).
  pose proof (write_loop_ok (Datatypes.S (length text)) [] iw0 s [] 0 text Hiw Hfit (le_n _)) as Hwl.
  destruct (write_loop _ [] iw0 s text) as [[[err iw'] s'] sch]. destruct Hwl as (new & Hw' & Hext & Hpx' & _ & _ & Herr' & Hch).
  destruct err as [e|]; [by destruct (Herr' e eq_refl)|]. cbn [app] in Hw'.
  destruct (result_prepare [] iw' s' new _ Hw' Hfit) as [(e & w2 & s2 & Hf & He2 & ->)|
    (sched' & w2 & s2 & chunks' & -> & Hw2 & Hne & He2 & Hcat & Hsame & Hp2 & _ & Hmono)]; [split; [by etransitivity|done]|].
  destruct (decide (w_contentWriteError w2 = None)) as [Hnone|Hsome].
  2: { specialize (Herr sched' w2 s2 chunks' Hw2 Hsome). destruct (ck sched' w2 s2) as [[r w3] s3].
       destruct Herr as (He3 & e & -> & Hf). split; [by do 2 etransitivity; [..|done]|done]. }
  assert (w_contentWriteError iw' = None) as Hnone' by (destruct (w_contentWriteError iw'); [by destruct (Hmono ltac:(done))|done]).
  specialize (Hch Hnone'). rewrite (fr_splitter _ _ Hfresh0) in Hch. destruct Hfresh0 as [(_ & Hb & _) _ _]. rewrite Hb in Hch.
  pose proof (chop_count _ _ _ _ _ Hdefault Hch) as Hcnt. pose proof (chop_concat newDefaultSplitter [] text) as Hcc. rewrite Hch in Hcc. cbn in Hcc.
  rewrite Hcc in Hcat. pose proof (slen_nonneg (w_buffer iw')) as Hb0.
  assert (slen chunks' <= Z.max 1 (slen entries / 2)) as Hcount.
  { pose proof (index_chunks (slen entries) (slen new) ltac:(lia) (slen_nonneg new) ltac:(lia)) as Hic.
    clear -Hic Hsame. generalize dependent (slen entries / 2). intros h Hic.
    destruct Hsame as [-> |(-> & _)]; [lia|]. rewrite slen_app. change (slen [w_buffer iw']) with 1. lia. }
  specialize (Hck sched' w2 s2 chunks' Hw2 Hne). rewrite Hcat in Hck. specialize (Hck Hfit Hcount).
  destruct (ck sched' w2 s2) as [[r w3] s3]. destruct Hck as (He3 & Hr). split; [by do 2 etransitivity; [..|done]|].
  destruct r as [oid|e]; [|done]. destruct Hr as (_ & Hst & Hv & Hlog & Hz). rewrite Hcat in Hst. split_and!; try done.
  - etransitivity; [exact Hlog|]. apply Z.log2_le_mono. lia.
  - apply Hz. by rewrite Hp2, Hpx'.
Qed.

Lemma checkpoint_ok fuel : forall sched w s chunks, written (length chunks) w s chunks -> chunks <> [] -> fits (slen (concat chunks)) ->
  slen chunks <= 2 ^ 50 -> (length chunks <= fuel)%nat ->
  let '(r, _, s') := checkpoint_loop newDefaultSplitter fuel sched w s in extends s s' /\ checkpointed w s' chunks r.
Proof.
  induction fuel as [|fuel IH]; intros sched w s chunks Hw Hne Hfit Hmax Hfuel; [by destruct chunks; [|cbn in Hfuel; lia]|].
  cbn [checkpoint_loop]. pose proof (wait_ok (length chunks) (default [] (head sched)) 0 w s chunks Hw) as Hwt.
  destruct (wait _ 0 w s) as [w1 s1]. destruct Hwt as (Hw1 & Hext & Hsw & Hin).
  destruct (w_contentWriteError w1) as [e|] eqn:Ee; [split; [done|]; by apply (wr_error _ _ _ _ Hw1)|].
  assert (w_contentWriteError w = None) as Hnone.
  { destruct (w_contentWriteError w) eqn:E; [|done]. exfalso. by apply (sw_error _ _ Hsw); [rewrite E|]. }
  pose proof (written_all w1 s1 chunks Hw1 ltac:(apply length_zero_iff_nil; lia) Ee) as Hlay.
  pose proof (laid_out_length _ _ _ _ Hlay) as Hlen. pose proof (laid_out_Forall _ ObjectID.valid _ _ _ Hlay (fun o c Hs => proj1 (proj2 Hs))) as Hval.
  pose proof (laid_out_Forall _ direct _ _ _ Hlay (fun o c Hs => proj1 (proj1 Hs))) as Hdir.
  pose proof (laid_out_entry_ok _ _ _ Hlay Hfit Hval) as Hok.
  assert (laid_out (holds s1) 0 (w_indirectIndex w1) chunks) as Hholds by (eapply laid_out_mono; [|exact Hlay]; by intros o c []).
  destruct (w_indirectIndex w1) as [|e1 [|e2 es]] eqn:Eix.
  - destruct chunks; done.
  - split; [done|]. destruct chunks as [|c [|]]; try done. destruct Hlay as (_ & _ & (Hh & Hv & Hz) & _). cbn [checkpointed concat]. rewrite app_nil_r.
    split_and!; [done|by apply stored_direct|done| |]; [|rewrite <- (sw_prefix _ _ Hsw); done].
    destruct Hh as [Hd _]. rewrite Hd. change (slen [c]) with 1. done.
  - rewrite <- Eix in *. set (entries := w_indirectIndex w1) in *.
    assert (2 <= slen entries) as H2n by (unfold slen; rewrite Eix; cbn; lia).
    assert (slen entries = slen chunks) as Hsl by (unfold slen; lia).
    pose proof (write_index_ok (checkpoint_loop newDefaultSplitter fuel) (index_writer newDefaultSplitter w1) s1 entries Hok Hdir ltac:(lia)) as Hwi.
    destruct (index_writer_fresh w1 (proj2 (wr_compressors _ _ _ _ Hw1))) as [Hfr Hpx]. specialize (Hwi Hfr Hpx).
    destruct fuel as [|fuel']; [unfold slen in *; lia|].
    specialize (Hwi (fun sch w' s' cs => checkpoint_error fuel' sch w' s' cs)).
    match type of Hwi with ?P -> _ => assert P as Hnext end.
    { intros sch w' s' cs Hw' Hne' Hfit' Hcount. apply IH; try done; [|unfold slen in *]; lia_div. }
    specialize (Hwi Hnext). destruct (writer_Write [] _ s1 _) as [[[err iw] s2] sch2]. destruct err as [e|]; [destruct Hwi as [He2 Hf]; split; [by etransitivity|done]|].
    destruct (result_with _ [] iw s2) as [[r iw2] s3]. destruct Hwi as (He3 & Hr).
    destruct r as [oid|e]; (split; [by etransitivity|]); [|done]. destruct Hr as (Hst & Hv & Hlog & Hz). cbn [checkpointed].
    assert (Z.log2 (Z.max 1 (slen entries / 2)) + 1 <= Z.log2 (slen chunks)) as Hl2.
    { rewrite Z.max_r by lia_div. rewrite <- Hsl. change (slen entries / 2) with (slen entries / 2 ^ 1). rewrite <- Z.shiftr_div_pow2 by lia.
      rewrite Z.log2_shiftr by lia. pose proof (Z.log2_le_mono 2 (slen entries) H2n). change (Z.log2 2) with 1 in *. lia. }
    assert (Z.log2 (slen chunks) <= 50) as Hl50 by (change 50 with (Z.log2 (2 ^ 50)); by apply Z.log2_le_mono).
    pose proof (ObjectID.valid_depth _ Hv) as Hd. split_and!; try done.
    + apply stored_indirect with entries; try done; [lia|by rewrite Eix|]. eapply laid_out_mono; [|exact Hholds].
      intros o c. apply holds_extends. done.
    + apply ObjectID.valid_indirect; [done|done|lia].
    + unfold ObjectID.indirect. cbn. rewrite Z.mod_small by lia. lia.
Qed.
End Written.
