(* ===== verification/ObjRoundTrip.v ===== *)
(** * Objects read back

    The theorems about package [repo/object]: what is written in any pieces,
    with any options and any scheduling of the asynchronous writes, is what is
    read; a reader is a file of those bytes; a concatenation reads as its
    parts one after the other. *)

From S2P Require Import Prelude GoStrings GoText IndexID IndexTable Splitter Json ObjID ObjReader ObjWriter.
Open Scope go_scope.

(** ** A use of the object manager *)

Section Using.
Context {S : Type} `{ContentManager S} `{Compression} `{RollingHashes}.

(** The caller writes piece after piece and may ignore errors. *)
Fixpoint run_writes (sched : schedule) (w : objectWriter) (s : S) (pieces : list (list Z)) : objectWriter * S * schedule :=
  match pieces with
  | [] => (w, s, sched)
  | p :: pieces =>
      let '(_, w, s, sched) := writer_Write sched w s p in
      run_writes sched w s pieces
  end.

(** [NewWriter] on a writer from the pool, the writes and [Result]. *)
Definition write_object (newDefaultSplitter : anySplitter) (pooled : objectWriter) (opt : WriterOptions) (sched : schedule) (s : S)
  (pieces : list (list Z)) : result object_error ObjectID.ID * S :=
  let '(w, s, sched) := run_writes sched (NewWriter newDefaultSplitter pooled opt) s pieces in
  let '(r, _, s) := writer_Result newDefaultSplitter sched w s in
  (r, s).

(** Several objects, one after the other; the first error ends it. *)
Fixpoint write_objects (newDefaultSplitter : anySplitter) (jobs : list (WriterOptions * schedule * list (list Z))) (s : S)
  : result object_error (list ObjectID.ID) * S :=
  match jobs with
  | [] => (Ok [], s)
  | (opt, sched, pieces) :: jobs =>
      match write_object newDefaultSplitter new_objectWriter opt sched s pieces with
      | (Err e, s) => (Err e, s)
      | (Ok oid, s) =>
          match write_objects newDefaultSplitter jobs s with
          | (Ok oids, s) => (Ok (oid :: oids), s)
          | res => res
          end
      end
  end.

Definition job_bytes (j : WriterOptions * schedule * list (list Z)) : list Z := concat (snd j).

Inductive reader_op := OpRead (n : Z) | OpSeek (offset whence : Z).
Inductive reader_answer := ARead (b : result object_error (list Z)) | ASeek (a : result object_error Z).

(** Operations on a reader, and on a [bytes.Reader] of [data]. *)
Fixpoint run_reader (openChunk : IndirectObjectEntry -> result object_error (list Z)) (r : reader) (ops : list reader_op) : list reader_answer :=
  match ops with
  | [] => []
  | OpRead n :: ops => let '(b, r) := Read openChunk r n in ARead b :: run_reader openChunk r ops
  | OpSeek o wh :: ops => let '(a, r) := Seek openChunk r o wh in ASeek a :: run_reader openChunk r ops
  end.

Fixpoint run_file (data : list Z) (pos : Z) (ops : list reader_op) : list reader_answer :=
  match ops with
  | [] => []
  | OpRead n :: ops => let '(b, pos) := data_Read data pos n in ARead b :: run_file data pos ops
  | OpSeek o wh :: ops => let '(a, pos) := data_Seek data pos o wh in ASeek a :: run_file data pos ops
  end.

Definition op_ok (op : reader_op) : bool :=
  match op with OpRead n => 0 <? n | OpSeek _ whence => between 0 2 whence end.
End Using.

Section Proofs.
Context {S : Type} `{ContentManagerLaws S} `{CompressionLaws} `{RollingHashes}.

Lemma GetFactory_good name sp : GetFactory name = Some sp -> good_splitter sp.
Proof. intros Hf. destruct (factories_ok name sp Hf) as (Hok & Hsz & Hmin & _). change (Z.shiftl 128 10) with 131072 in Hmin. split_and!; [done|done|lia]. Qed.

Lemma NewObjectManager_good f sp : NewObjectManager f = Ok sp -> good_splitter sp.
Proof. unfold NewObjectManager. destruct (GetFactory _) as [os|] eqn:E; [|done]. intros [= <-]. by eapply GetFactory_good. Qed.

Lemma ByName_sound name : sound_option (ByName name).
Proof. destruct (ByName name) as [c|] eqn:E; [|done]. by eapply by_name_sound. Qed.

Context (sp : anySplitter) (Hsp : good_splitter sp).

Lemma NewWriter_fresh pooled opt : w_inflight pooled = [] ->
  exists sp', fresh (NewWriter sp pooled opt) sp' /\ good_splitter sp'.
Proof.
  intros Hp. exists (w_splitter (NewWriter sp pooled opt)). split; [split; cbn; try done; split_and!; apply ByName_sound || done|].
  unfold NewWriter. cbn. destruct (String.eqb (o_Splitter opt) ""); [done|].
  destruct (GetFactory (o_Splitter opt)) as [f|] eqn:E; [by eapply GetFactory_good|done].
Qed.

(** Writes keep the writer's invariant, and what was cut is what the splitter cuts. *)
Lemma run_writes_ok sp0 pieces : forall sched w s chunks data, writing w s chunks (slen data) ->
  (w_contentWriteError w = None -> chop sp0 [] data = (chunks, w_buffer w, w_splitter w)) -> fits (slen (data ++ concat pieces)) ->
  let '(w', s', _) := run_writes sched w s pieces in
  exists chunks', writing w' s' chunks' (slen (data ++ concat pieces)) /\ extends s s'
    /\ (w_contentWriteError w' = None -> chop sp0 [] (data ++ concat pieces) = (chunks', w_buffer w', w_splitter w')).
Proof.
  induction pieces as [|p pieces IH]; intros sched w s chunks data Hw Hch Hfit; cbn [run_writes concat].
  { rewrite app_nil_r. by exists chunks. }
  cbn [concat] in Hfit. rewrite app_assoc in *. unfold writer_Write. set (w1 := mkWriter _ _ _ _ _ _ _ _ _ _ _ _).
  assert (writing w1 s chunks (slen data)) as Hw1 by (destruct Hw as [[] ? ?]; by split).
  pose proof (write_loop_ok (Datatypes.S (length p)) sched w1 s chunks (slen data) p Hw1) as Hwl.
  destruct (write_loop _ sched w1 s p) as [[[err w2] s2] sched2].
  destruct Hwl as (new & Hw2 & He2 & _ & _ & Hmono & _ & Hch2); [|lia|].
  { unfold fits in *. rewrite !slen_app in Hfit. pose proof (slen_nonneg (concat pieces)). lia. }
  rewrite <- slen_app in Hw2. specialize (IH sched2 w2 s2 (chunks ++ new) (data ++ p) Hw2). destruct (run_writes sched2 w2 s2 pieces) as [[w3 s3] sched3].
  destruct IH as (chunks' & Hw3 & He3 & Hch3); [|done|exists chunks'; split_and!; [done|by etransitivity|done]].
  intros Hnone. rewrite chop_app. assert (w_contentWriteError w = None) as Hn1.
  { destruct (w_contentWriteError w) eqn:E; [|done]. exfalso. apply Hmono; [|done]. subst w1. cbn. by rewrite ?E. }
  rewrite (Hch Hn1). specialize (Hch2 Hnone). cbn [w_splitter w_buffer w1] in Hch2. by rewrite Hch2.
Qed.

Lemma write_object_ok pooled opt sched s pieces : w_inflight pooled = [] -> fits (slen (concat pieces)) ->
  let '(r, s') := write_object sp pooled opt sched s pieces in
  extends s s' /\ match r with
  | Ok oid => stored s' oid (concat pieces) /\ ObjectID.valid oid /\ ObjectID.indirection oid <= 50
  | Err e => failure e
  end.
Proof.
  intros Hp Hfit. destruct (NewWriter_fresh pooled opt Hp) as (sp0 & Hfr & Hg). unfold write_object.
  pose proof (fresh_writing _ s _ Hfr Hg) as Hw. pose proof Hfr as [(_ & Hb & _) _ Hs].
  pose proof (run_writes_ok sp0 pieces sched _ s [] [] Hw) as Hrw.
  destruct (run_writes sched _ s pieces) as [[w1 s1] sched1]. destruct Hrw as (chunks & Hw1 & He1 & Hch); [by rewrite Hb, Hs|done|]. cbn [app] in *.
  unfold writer_Result. destruct (result_prepare sched1 w1 s1 chunks _ Hw1 Hfit) as [(e & w2 & s2 & Hf & He2 & ->)|
    (sched' & w2 & s2 & chunks' & -> & Hw2 & Hne & He2 & Hcat & Hsame & _ & _ & Hmono)]; [split; [by etransitivity|done]|].
  unfold checkpointLocked. pose proof (laid_out_length _ _ _ _ (wr_layout _ _ _ _ Hw2)) as Hlen. rewrite Hlen.
  destruct (decide (w_contentWriteError w2 = None)) as [Hnone|Hsome].
  2: { pose proof (checkpoint_error sp (length chunks') sched' w2 s2 chunks' Hw2 Hsome) as Hck.
       destruct (checkpoint_loop sp _ sched' w2 s2) as [[r w3] s3]. destruct Hck as (He3 & e & -> & Hf). split; [by do 2 etransitivity; [..|done]|done]. }
  assert (w_contentWriteError w1 = None) as Hn1 by (destruct (w_contentWriteError w1); [by destruct (Hmono ltac:(done))|done]).
  specialize (Hch Hn1). pose proof (chop_count _ _ _ _ _ Hg Hch) as Hcnt. pose proof (chop_concat sp0 [] (concat pieces)) as Hcc. rewrite Hch in Hcc.
  cbn in Hcc. rewrite Hcc in Hcat. pose proof (slen_nonneg (w_buffer w1)). pose proof (slen_nonneg chunks).
  assert (slen chunks' <= 2 ^ 50) as Hcount.
  { unfold fits in Hfit. destruct Hsame as [-> |(-> & _)]; [lia|]. rewrite slen_app. change (slen [w_buffer w1]) with 1. lia. }
  pose proof (checkpoint_ok sp Hsp (Datatypes.S (length chunks')) sched' w2 s2 chunks' Hw2 Hne ltac:(by rewrite Hcat) Hcount ltac:(lia)) as Hck.
  destruct (checkpoint_loop sp _ sched' w2 s2) as [[r w3] s3]. destruct Hck as (He3 & Hr). split; [by do 2 etransitivity; [..|done]|].
  destruct r as [oid|e]; [|done]. destruct Hr as (_ & Hst & Hv & Hlog & _). rewrite Hcat in Hst. split_and!; try done.
  etransitivity; [exact Hlog|]. change 50 with (Z.log2 (2 ^ 50)). by apply Z.log2_le_mono.
Qed.

Lemma run_reader_ok openChunk data ops : forall r pos, reader_at openChunk data r pos -> forallb op_ok ops = true ->
  run_reader openChunk r ops = run_file data pos ops.
Proof.
  induction ops as [|op ops IH]; intros r pos Hr Hops; [done|]. cbn [forallb] in Hops. apply andb_true_iff in Hops as [Hop Hops].
  destruct op as [n|o wh]; cbn [op_ok run_reader run_file] in *.
  - destruct (Read_ok openChunk data r pos n Hr) as (r' & -> & Hr'); [by apply Z.ltb_lt|].
    destruct (data_Read data pos n) as [b pos']. cbn [fst snd] in *. f_equal. by apply IH.
  - unfold between in Hop. bool_to_prop. destruct (Seek_ok openChunk data r pos o wh Hr) as (r' & -> & Hr'); [lia|].
    destruct (data_Seek data pos o wh) as [a pos']. cbn [fst snd] in *. f_equal. by apply IH.
Qed.
(** ** Concatenation *)

Lemma append_entries_ok (P : ObjectID.ID -> list Z -> Prop) entries start pos es cs : laid_out P pos es cs -> 0 <= pos -> 0 <= start ->
  fits (start + pos + slen (concat cs)) ->
  exists es', fst (appendIndexEntries entries start es) = entries ++ es' /\ laid_out P (start + pos) es' cs
    /\ e_Object <$> es' = e_Object <$> es
    /\ forall t, 0 <= t -> fits (t + slen (concat cs)) -> foldl (fun n inc => wrap64 (n + e_Length inc)) t es = t + slen (concat cs).
Proof.
  intros Hl Hp Hs Hf. eexists. split; [done|]. revert pos cs Hl Hp Hf.
  induction es as [|e es IH]; intros pos [|c cs] Hl Hp Hf; try done.
  { split; [done|]. split; [done|]. intros t Ht _. cbn. unfold slen. cbn. lia. }
  destruct Hl as (He & Hlen & HP & Hl). cbn [concat] in *. rewrite slen_app in *. pose proof (slen_nonneg c). pose proof (slen_nonneg (concat cs)).
  destruct (IH (pos + slen c) cs Hl ltac:(lia) ltac:(unfold fits in *; lia)) as (Hl' & Ho & Hsum).
  split_and!; [|cbn; by f_equal|].
  - cbn [fmap list_fmap laid_out e_Start e_Length e_Object]. split_and!; try done; [rewrite He, Z.add_comm; apply fits_wrap64; [lia|unfold fits in *; lia]|].
    by rewrite <- Z.add_assoc.
  - intros t Ht Hft. cbn [foldl]. rewrite Hlen, fits_wrap64 by (unfold fits in *; lia). rewrite Hsum by (unfold fits in *; lia). lia.
Qed.

Lemma append_object_ok s fuel entries (chunks : list (list Z)) oid data : stored s oid data -> ObjectID.valid oid -> (Z.to_nat (ObjectID.indirection oid) + 2 <= fuel)%nat ->
  fits (slen (concat chunks) + slen data) ->
  exists es cs, appendIndexEntriesForObject fuel s entries (slen (concat chunks)) oid = Ok (entries ++ es, slen (concat chunks) + slen data)
    /\ laid_out (holds s) (slen (concat chunks)) es cs /\ concat cs = data /\ es <> [] /\ Forall (fun e => ObjectID.valid (e_Object e)) es.
Proof.
  intros Hst Hv Hf Hfit. pose proof (slen_nonneg (concat chunks)). pose proof (slen_nonneg data). unfold appendIndexEntriesForObject.
  destruct Hst as [oid data Hh|oid es cs Hd Hst Hne Hval Hl Hs].
  - rewrite (holds_Index _ _ _ Hh). destruct fuel as [|fuel]; [lia|]. unfold Open. rewrite (open_direct _ _ _ _ _ Hh) by by left. cbn [reader_Length].
    assert (laid_out (holds s) 0 [mkEntry 0 (slen data) oid] [data]) as Hl by by split_and!.
    destruct (append_entries_ok (holds s) entries (slen (concat chunks)) 0 _ _ Hl) as (es' & He & Hl' & Ho & Hsum); [lia|lia|cbn; rewrite app_nil_r; unfold fits in *; lia|].
    exists es', [data]. cbn [concat] in *. rewrite app_nil_r in *. rewrite Z.add_0_r in Hl'.
    destruct es' as [|e [|]]; try done. split_and!; try done; [|constructor; [|constructor]; cbn in Ho; by injection Ho as ->].
    rewrite (surjective_pairing (appendIndexEntries _ _ _)), He. unfold appendIndexEntries. cbn [snd]. by rewrite Hsum.
  - rewrite ObjectID.IndexObjectID_indirect by done. unfold LoadIndexObject.
    assert (Z.to_nat (ObjectID.indirection oid) + 2 <= fuel)%nat as Hf'.
    { unfold ObjectID.indirect in Hf. cbn in Hf. rewrite Z.mod_small in Hf by lia. lia. }
    destruct fuel as [|[|fuel]]; [lia..|]. destruct (open_stored s oid _ (Datatypes.S (Datatypes.S fuel)) fuel Hst Hf') as (r & -> & Hr).
    rewrite (ReadAll_ok _ _ _ Hr). pose proof (decode_encode_index es [] Hne (laid_out_entry_ok _ _ _ Hl Hs Hval)) as Hdec.
    rewrite app_nil_r in Hdec. unfold decode_stream. cbn [fst snd]. rewrite Hdec.
    destruct (append_entries_ok (holds s) entries (slen (concat chunks)) 0 es cs Hl) as (es' & He & Hl' & Ho & Hsum); [lia|lia|unfold fits in *; lia|].
    exists es', cs. rewrite Z.add_0_r in Hl'. split_and!; try done.
    + rewrite (surjective_pairing (appendIndexEntries _ _ _)), He. unfold appendIndexEntries. cbn [snd]. by rewrite Hsum.
    + intros ->. by destruct es.
    + apply (Forall_fmap e_Object ObjectID.valid). rewrite Ho. by apply Forall_fmap.
Qed.

Lemma concat_loop_ok s fuel oids : forall (datas : list (list Z)) entries (chunks : list (list Z)), Forall2 (fun oid data => stored s oid data /\ ObjectID.valid oid
    /\ (Z.to_nat (ObjectID.indirection oid) + 2 <= fuel)%nat) oids datas ->
  laid_out (holds s) 0 entries chunks -> Forall (fun e => ObjectID.valid (e_Object e)) entries -> fits (slen (concat chunks ++ concat datas)) ->
  exists es cs, concat_loop fuel s oids entries (slen (concat chunks)) = Ok (entries ++ es) /\ laid_out (holds s) 0 (entries ++ es) (chunks ++ cs)
    /\ concat cs = concat datas /\ Forall (fun e => ObjectID.valid (e_Object e)) (entries ++ es) /\ (length oids <= length es)%nat.
Proof.
  induction oids as [|oid oids IH]; intros datas entries chunks Hall Hl Hv Hfit; inversion Hall as [|? data ? datas' (Hst & Hvo & Hf) Hall']; subst.
  { exists [], []. rewrite !app_nil_r. by split_and!. }
  cbn [concat_loop concat] in *. rewrite !slen_app in Hfit. pose proof (slen_nonneg (concat datas')).
  destruct (append_object_ok s fuel entries chunks oid data Hst Hvo Hf) as (es & cs & -> & Hl2 & Hcs & Hne & Hv2); [unfold fits in *; lia|].
  assert (slen (concat chunks) + slen data = slen (concat (chunks ++ cs))) as Hsum by (rewrite concat_app, slen_app, Hcs; done). rewrite Hsum.
  destruct (IH datas' (entries ++ es) (chunks ++ cs) Hall') as (es' & cs' & -> & Hl' & Hcat & Hv' & Hlen).
  - by apply laid_out_app.
  - by apply Forall_app.
  - rewrite slen_app, <- Hsum. unfold fits in *. lia.
  - exists (es ++ es'), (cs ++ cs'). rewrite <- !app_assoc in *. split_and!; try done; [by rewrite concat_app, Hcs, Hcat|].
    rewrite length_app. cbn. destruct es; [done|]. cbn. lia.
Qed.

Lemma Concatenate_ok s fuel oids (datas : list (list Z)) metadataComp : Forall2 (fun oid data => stored s oid data /\ ObjectID.valid oid
    /\ (Z.to_nat (ObjectID.indirection oid) + 2 <= fuel)%nat) oids datas -> oids <> [] -> fits (slen (concat datas)) ->
  (forall entries, concat_loop fuel s oids [] 0 = Ok entries -> slen entries <= 2 ^ 50) ->
  let '(r, s') := Concatenate sp fuel s oids metadataComp in
  extends s s' /\ match r with
  | Ok oid => stored s' oid (concat datas) /\ ObjectID.valid oid /\ (Forall (fun o => ObjectID.indirection o <= 51) oids -> ObjectID.indirection oid <= 51)
  | Err e => failure e
  end.
Proof.
  intros Hall Hne Hfit Hmax. destruct oids as [|oid1 [|oid2 oids]]; [done| |].
  { cbn. inversion Hall as [|? ? ? ? (Hst & Hv & _) Hnil]; subst. inversion Hnil; subst. cbn. rewrite app_nil_r. split_and!; [done..|by intros [? _]%Forall_cons]. }
  cbn [Concatenate]. set (l := oid1 :: oid2 :: oids) in *. cbv beta iota.
  destruct (concat_loop_ok s fuel l datas [] [] Hall) as (es & cs & Hcl & Hl & Hcat & Hv & Hlen); [done|constructor|done|].
  cbn [app concat] in *. change (slen []) with 0 in Hcl. rewrite Hcl. specialize (Hmax es Hcl).
  assert (2 <= slen es) as Hes by (subst l; unfold slen; cbn in Hlen; lia). rewrite <- Hcat in Hfit.
  pose proof (laid_out_entry_ok _ _ _ Hl Hfit Hv) as Hok.
  pose proof (laid_out_Forall _ direct _ _ _ Hl (fun o c Hs => proj1 Hs)) as Hdir.
  set (w := NewWriter sp new_objectWriter (concat_options metadataComp)).
  assert (fresh w sp) as Hfr by (split; cbn; try done; split_and!; apply ByName_sound || done).
  pose proof (write_index_ok sp Hsp (checkpointLocked sp) w s es Hok Hdir ltac:(lia) Hfr ltac:(done)) as Hwi.
  destruct (writer_Write [] w s (encode_index es)) as [[[err iw] s1] sch]. 
  match type of Hwi with ?P -> ?Q -> _ => assert P as Hp; [|assert Q as Hq; [|specialize (Hwi Hp Hq)]] end.
  { intros sched w' s' chunks Hw He. unfold checkpointLocked. by apply checkpoint_error with chunks. }
  { intros sched w' s' chunks Hw Hnec Hfc Hcount. unfold checkpointLocked. pose proof (laid_out_length _ _ _ _ (wr_layout _ _ _ _ Hw)).
    apply checkpoint_ok; try done; [|lia]. etransitivity; [exact Hcount|]. lia_div. }
  destruct err as [e|]; [done|]. unfold writer_Result. destruct (result_with (checkpointLocked sp) [] iw s1) as [[r iw2] s2]. destruct Hwi as [He Hr].
  destruct r as [oid|e]; (split; [done|]); [|done]. destruct Hr as (Hst & Hvo & Hlog & Hz). pose proof (ObjectID.valid_depth _ Hvo).
  assert (Z.log2 (Z.max 1 (slen es / 2)) <= Z.log2 (2 ^ 50)) as Hl50 by (apply Z.log2_le_mono; lia_div). change (Z.log2 (2 ^ 50)) with 50 in Hl50.
  rewrite <- Hcat. split_and!; [|by apply ObjectID.valid_indirect; [done|done|lia]|intros _; cbn; rewrite Z.mod_small; lia].
  apply stored_indirect with es; try done; [lia|by intros ->|]. eapply laid_out_mono; [|exact Hl]. intros o c. by apply holds_extends.
Qed.
Lemma write_objects_ok jobs : forall s oids s', write_objects sp jobs s = (Ok oids, s') -> fits (slen (concat (job_bytes <$> jobs))) ->
  extends s s' /\ Forall2 (fun oid data => stored s' oid data /\ ObjectID.valid oid /\ ObjectID.indirection oid <= 50) oids (job_bytes <$> jobs).
Proof.
  induction jobs as [|[[opt sched] pieces] jobs IH]; intros s oids s' Hw Hfit; cbn [write_objects] in Hw.
  { injection Hw as <- <-. split; [done|constructor]. }
  cbn [fmap list_fmap concat] in Hfit. change (list_fmap _ _ job_bytes jobs) with (job_bytes <$> jobs) in Hfit. rewrite slen_app in Hfit.
  pose proof (slen_nonneg (job_bytes (opt, sched, pieces))). pose proof (slen_nonneg (concat (job_bytes <$> jobs))).
  pose proof (write_object_ok new_objectWriter opt sched s pieces eq_refl) as H1'.
  destruct (write_object sp _ opt sched s pieces) as [[oid|e] s1]; [|done].
  destruct H1' as (He1 & Hst & Hv & Hd); [unfold fits, job_bytes in *; cbn in *; lia|].
  destruct (write_objects sp jobs s1) as [[oids'|e] s2] eqn:E; [|done]. injection Hw as <- <-.
  destruct (IH _ _ _ E) as [He2 Hall]; [unfold fits in *; lia|]. split; [by etransitivity|]. cbn. constructor; [|done].
  split_and!; [by eapply stored_extends|done|done].
Qed.
End Proofs.

(** ** An instance

    Contents in a list, named by their places in it; a compressor that
    shortens runs of one byte. *)

Abbreviation memContents := (list (list Z)).

#[export] Instance mem_ContentManager : ContentManager memContents := {|
  ContentInfo s id := match s !! Z.to_nat (decodeBigEndianUint32 (id_data id)) with Some _ => Ok tt | None => Err ErrContentNotFound end;
  GetContent s id := match s !! Z.to_nat (decodeBigEndianUint32 (id_data id)) with Some d => Ok d | None => Err ErrContentNotFound end;
  PrefetchContents s ids hint := ids;
  SupportsContentCompression s := false;
  WriteContent s data p c :=
    if slen s <? 2 ^ 32 then
      match IDFromHash p (PutUint32 (slen s)) with
      | Ok id => (Ok id, s ++ [data])
      | Err _ => (Err ErrContent, s)
      end
    else (Err ErrContent, s)
|}.

Lemma mem_written s data p c id s' : WriteContent (S := memContents) s data p c = (Ok id, s') ->
  s' = s ++ [data] /\ valid_id id /\ Z.to_nat (decodeBigEndianUint32 (id_data id)) = length s.
Proof.
  cbn. destruct (Z.ltb_spec (slen s) (2 ^ 32)) as [Hlt|]; [|done]. destruct (IDFromHash p (PutUint32 (slen s))) as [id'|] eqn:E; [|done].
  intros [= <- <-]. apply IDFromHash_valid in E as (Hv & _ & Hh); [|repeat constructor; apply byte_range]. split_and!; try done.
  unfold Hash in Hh. rewrite Hh, <- (app_nil_r (PutUint32 (slen s))), decode_PutUint32; unfold slen in *; lia.
Qed.

#[export] Instance mem_laws : ContentManagerLaws memContents.
Proof.
  split.
  - intros s data p c id s' (-> & _ & Hid)%mem_written. cbn. rewrite Hid. by rewrite list_lookup_middle.
  - intros s data p c id d. cbn. destruct (slen s <? 2 ^ 32); [|done]. destruct (IDFromHash p _); [|done]. cbn.
    destruct (s !! _) as [x|] eqn:E; [|done]. intros [= <-]. rewrite lookup_app_l; [by rewrite E|]. by eapply lookup_lt_Some.
  - by intros s data p c id s' (_ & Hv & _)%mem_written.
Qed.

(** Two marks: a run of one byte, or the bytes as they are. *)
Definition run_compress (d : list Z) : option (list Z) :=
  match d with
  | x :: _ => if bool_decide (d = replicate (length d) x) then Some [1; x; slen d] else Some (0 :: d)
  | [] => Some [0]
  end.

Definition run_decompress (z : list Z) : option (list Z) :=
  match z with
  | [1; x; n] => Some (replicate (Z.to_nat n) x)
  | 0 :: d => Some d
  | _ => None
  end.

#[export] Instance run_Compression : Compression := {|
  ByName name := if String.eqb name "run" then Some (mkCompressor 4096 run_compress) else None;
  DecompressByHeader := run_decompress
|}.

#[export] Instance run_laws : CompressionLaws.
Proof.
  split. intros name c. cbn. destruct (String.eqb name "run"); [|done]. intros [= <-] d z. cbn. unfold run_compress.
  destruct d as [|x d]; [by intros [= <-]|]. case_bool_decide as Hd; intros [= <-]; [|done].
  cbn [run_decompress]. unfold slen. rewrite Nat2Z.id. by rewrite <- Hd.
Qed.

(** ** The theorems *)

(** C13.  Whatever pieces an object is written in, with any splitter, any
    compression, any number of asynchronous writes and any order of their
    completion, and even when the caller ignores errors of [Write]: either
    [Result] returns an identifier that prints and parses back and whose
    object reads as exactly the bytes written, to a depth of 52 calls at the
    most, with everything stored before still there; or it returns an error
    of the content manager or of the compressor, never one of its own. *)
Theorem object_round_trip {S : Type} `{ContentManagerLaws S} `{CompressionLaws} `{RollingHashes}
  (f : string) (sp : anySplitter) (pooled : objectWriter) (opt : WriterOptions) (sched : schedule) (s : S) (pieces : list (list Z)) :
  NewObjectManager f = Ok sp -> w_inflight pooled = [] -> fits (slen (concat pieces)) ->
  match write_object sp pooled opt sched s pieces with
  | (Ok oid, s') =>
      ObjectID.Parse (ObjectID.toString oid) = Ok oid
      /\ (forall fuel, (52 <= fuel)%nat -> read_object s' fuel oid = Ok (concat pieces))
      /\ extends s s'
  | (Err e, _) => failure (S := S) e
  end.
Proof.
  intros Hsp%NewObjectManager_good Hp Hfit. pose proof (write_object_ok sp Hsp pooled opt sched s pieces Hp Hfit) as Hw.
  destruct (write_object sp pooled opt sched s pieces) as [[oid|e] s']; destruct Hw as [He Hr]; [|done].
  destruct Hr as (Hst & Hv & Hd). split_and!; [by apply ObjectID.Parse_toString| |done].
  intros fuel Hf. apply read_stored; [done|]. lia.
Qed.

(** The pieces of the witness: two chunks of 128 KiB and a bit, one of them a run. *)
Definition witness_pieces : list (list Z) := [replicate (Z.to_nat 131072) 7; [1; 2]; replicate (Z.to_nat 70000) 8].

Definition witness_options : WriterOptions := mkOptions "a file" "" "run" "run" "FIXED-128K" 2.

Lemma object_round_trip_witness :
  is_ok (write_object (FixedSplitter (Fixed (Z.shiftl 4 20))) new_objectWriter witness_options [[1%nat]] [[9]] witness_pieces).1 = true
  /\ match write_object (FixedSplitter (Fixed (Z.shiftl 4 20))) new_objectWriter witness_options [[1%nat]] [[9]] witness_pieces with
     | (Ok oid, s') =>
         ObjectID.Parse (ObjectID.toString oid) = Ok oid
         /\ (forall fuel, (52 <= fuel)%nat -> read_object s' fuel oid = Ok (concat witness_pieces))
         /\ extends [[9]] s'
     | (Err e, _) => failure (S := memContents) e
     end.
Proof.
  split; [by vm_compute|]. apply (object_round_trip ""); [by vm_compute|done|]. vm_compute. done.
Defined.

(** C15.  The reader of an object that was written is a file of its bytes: opened,
    it has their length, and any sequence of reads into non-empty buffers and
    of seeks from the start, the position or the end is answered exactly as a
    [bytes.Reader] over those bytes answers it. *)
Theorem reader_refines_file {S : Type} `{ContentManagerLaws S} `{CompressionLaws} `{RollingHashes}
  (f : string) (sp : anySplitter) (opt : WriterOptions) (sched : schedule) (s s' : S) (pieces : list (list Z)) (oid : ObjectID.ID)
  (fuel : nat) (ops : list reader_op) :
  NewObjectManager f = Ok sp -> fits (slen (concat pieces)) ->
  write_object sp new_objectWriter opt sched s pieces = (Ok oid, s') -> (52 <= fuel)%nat -> forallb op_ok ops = true ->
  exists r, Open s' fuel oid = Ok r /\ reader_Length r = slen (concat pieces)
    /\ run_reader (chunk_bytes s' fuel) r ops = run_file (concat pieces) 0 ops.
Proof.
  intros Hsp%NewObjectManager_good Hfit Hw Hf Hops. pose proof (write_object_ok sp Hsp new_objectWriter opt sched s pieces eq_refl Hfit) as Hok.
  rewrite Hw in Hok. destruct Hok as (_ & Hst & Hv & Hd). destruct fuel as [|[|fuel]]; [lia..|].
  destruct (open_stored s' oid _ (Datatypes.S (Datatypes.S fuel)) fuel Hst ltac:(lia)) as (r & Ho & Hr).
  exists r. split_and!; [done|by eapply reader_at_Length|by apply run_reader_ok].
Qed.

(** What the writes of two chunks of 128 KiB and of two bytes leave. *)
Definition witness_store : memContents :=
  [replicate (Z.to_nat 131072) 7; [5; 6];
   encode_index [mkEntry 0 131072 (ObjectID.Direct (mkID 0 [0; 0; 0; 0])); mkEntry 131072 2 (ObjectID.Direct (mkID 0 [0; 0; 0; 1]))]].

Definition witness_oid : ObjectID.ID := ObjectID.indirect (ObjectID.Direct (mkID 120 [0; 0; 0; 2])).

Definition witness_ops : list reader_op :=
  [OpRead 1; OpSeek (-3) SeekEnd; OpRead 2; OpRead 5; OpRead 1; OpSeek (-1) SeekStart].

Lemma reader_refines_file_witness :
  exists r, Open witness_store 52 witness_oid = Ok r /\ reader_Length r = 131074
  /\ run_reader (chunk_bytes witness_store 52) r witness_ops
     = [ARead (Ok [7]); ASeek (Ok 131071); ARead (Ok [7; 5]); ARead (Ok [6]); ARead (Err EOF); ASeek (Err ErrInvalidSeek)].
Proof.
  assert (NewObjectManager "FIXED-128K" = Ok (FixedSplitter (Fixed (Z.shiftl 128 10)))) as Hsp by by vm_compute.
  destruct (reader_refines_file (S := memContents) "FIXED-128K" _ (mkOptions "" "" "" "" "" 0) [] [] witness_store
    [replicate (Z.to_nat 131072) 7; [5; 6]] witness_oid 52 witness_ops Hsp) as (r & Ho & Hl & Hr);
    [by vm_compute|refine (bool_decide_unpack _ _); by vm_compute|lia|done|].
  exists r. split_and!; [exact Ho|rewrite Hl; by vm_compute|]. refine (eq_trans Hr _). by vm_compute.
Defined.

(** Objects that were written and then concatenated, without their contents
    being read back, make an object that reads as their bytes one after the
    other, as long as there are not more than 2^50 chunks in all; the only
    errors are those of the content manager and of the compressor. *)
Theorem concatenation_reads {S : Type} `{ContentManagerLaws S} `{CompressionLaws} `{RollingHashes}
  (f : string) (sp : anySplitter) (jobs : list (WriterOptions * schedule * list (list Z))) (metadataComp : string) (s s1 : S)
  (oids : list ObjectID.ID) :
  NewObjectManager f = Ok sp -> jobs <> [] -> fits (slen (concat (job_bytes <$> jobs))) ->
  write_objects sp jobs s = (Ok oids, s1) ->
  (forall entries, concat_loop 52 s1 oids [] 0 = Ok entries -> slen entries <= 2 ^ 50) ->
  match Concatenate sp 52 s1 oids metadataComp with
  | (Ok oid, s2) => (forall fuel, (53 <= fuel)%nat -> read_object s2 fuel oid = Ok (concat (job_bytes <$> jobs))) /\ extends s1 s2
  | (Err e, _) => failure (S := S) e
  end.
Proof.
  intros Hsp%NewObjectManager_good Hne Hfit Hw Hmax. destruct (write_objects_ok sp Hsp jobs s oids s1 Hw Hfit) as [_ Hall].
  pose proof (Concatenate_ok sp Hsp s1 52 oids (job_bytes <$> jobs) metadataComp) as Hc.
  destruct (Concatenate sp 52 s1 oids metadataComp) as [r s2]. destruct Hc as [He Hr]; [| |done|done|].
  - eapply Forall2_impl; [exact Hall|]. intros oid data (Hst & Hv & Hd). split_and!; [done|done|lia].
  - intros ->. inversion Hall as [Hnil|]; subst. by destruct jobs.
  - destruct r as [oid|e]; [|done]. destruct Hr as (Hst & Hv & Hd). split; [|done]. intros fuel Hf. apply read_stored; [done|].
    assert (ObjectID.indirection oid <= 51); [|lia]. apply Hd. clear -Hall. induction Hall as [|? ? ? ? (_ & _ & ?)]; constructor; [lia|done].
Qed.

(** The jobs of the witness: an object of two chunks and one of a single byte. *)
Definition witness_jobs : list (WriterOptions * schedule * list (list Z)) :=
  [(mkOptions "" "" "" "" "" 0, [], [replicate (Z.to_nat 131072) 7; [5; 6]]); (mkOptions "" "" "run" "" "" 3, [[]; [0%nat]], [[4; 4; 4; 4; 4]])].

Definition witness_oids : list ObjectID.ID := [witness_oid; ObjectID.compressed (ObjectID.Direct (mkID 0 [0; 0; 0; 3]))].

Lemma concatenation_reads_witness :
  is_ok (Concatenate (FixedSplitter (Fixed (Z.shiftl 128 10))) 52 (witness_store ++ [[1; 4; 5]]) witness_oids "run").1 = true
  /\ match Concatenate (FixedSplitter (Fixed (Z.shiftl 128 10))) 52 (witness_store ++ [[1; 4; 5]]) witness_oids "run" with
     | (Ok oid, s2) => (forall fuel, (53 <= fuel)%nat -> read_object s2 fuel oid = Ok (concat (job_bytes <$> witness_jobs)))
                       /\ extends (witness_store ++ [[1; 4; 5]]) s2
     | (Err e, _) => failure (S := memContents) e
     end.
Proof.
  split; [by vm_compute|]. apply (concatenation_reads "FIXED-128K" (FixedSplitter (Fixed (Z.shiftl 128 10))) witness_jobs "run" []);
    [by vm_compute|done|by vm_compute|refine (bool_decide_unpack _ _); by vm_compute|].
  intros entries He. assert (concat_loop 52 (witness_store ++ [[1; 4; 5]]) witness_oids [] 0
    = Ok [mkEntry 0 131072 (ObjectID.Direct (mkID 0 [0; 0; 0; 0])); mkEntry 131072 2 (ObjectID.Direct (mkID 0 [0; 0; 0; 1]));
          mkEntry 131074 5 (ObjectID.compressed (ObjectID.Direct (mkID 0 [0; 0; 0; 3])))]) as Hc by by vm_compute.
  rewrite He in Hc. injection Hc as ->. by vm_compute.
Defined.

(** ** Corners *)

(** Reading into an empty buffer at the start of an object of two chunks says
    that the object has ended; a direct object answers without error. *)
Lemma empty_read_is_EOF :
  (exists r, Open witness_store 52 witness_oid = Ok r /\ fst (Read (chunk_bytes witness_store 52) r 0) = Err EOF
     /\ fst (Read (chunk_bytes witness_store 52) r 1) = Ok [7])
  /\ fst (data_Read [5; 6] 0 0) = Ok [].
Proof.
  split; [|done].
  assert (Open witness_store 52 witness_oid = Ok (indirectReader (mkReader
    [mkEntry 0 131072 (ObjectID.Direct (mkID 0 [0; 0; 0; 0])); mkEntry 131072 2 (ObjectID.Direct (mkID 0 [0; 0; 0; 1]))] 0 131074 0 None 0))) as E'
    by by vm_compute.
  eexists. split; [exact E'|]. split; by vm_compute.
Qed.

(** 256 levels of indirection parse as none. *)
Lemma parse_wraps_depth :
  ObjectID.Parse (ObjectID.indirectPrefix 256 +:+ "ab01") = Ok (ObjectID.Direct (mkID 0 [171; 1]))
  /\ ObjectID.Parse (ObjectID.indirectPrefix 256 +:+ "Zab01") = Ok (ObjectID.compressed (ObjectID.Direct (mkID 0 [171; 1])))
  /\ ObjectID.Parse "IZab01" = Err ObjectID.ErrCompressionAndIndirection.
Proof. vm_compute. repeat split. Qed.
