(* ===== verification/Mirror.v ===== *)
(** * The offsite mirror

    [fleet/jobs/mirror.go] with [fleet/store/mirror_hides.go].  The mirror job
    uploads to a bucket every local object the bucket does not hold, and hides
    in the bucket what maintenance removed locally, within a guard on how much
    may be hidden in seven days.  The two stores are used through the interface
    [ObjectStore]; the outside (contexts, statements, stores' environments) is
    an oracle asked once per call. *)

From S2P Require Import Prelude GoStrings GoText GoTime Db Object ObjectStore Jobs Json.
From Stdlib Require Import Ascii.
Open Scope go_scope.

Definition listPage : Z := 1000.
Definition detailErrors : nat := 3.
Definition hideWindow : Z := 7 * 24 * Hour.
Definition percent : Z := 100.

Definition MirrorHideMaxPercentSetting : string := "mirror_hide_max_percent".
Definition MirrorHideMinCountSetting : string := "mirror_hide_min_count".

Record IntSetting := mkIntSetting { i_Default : Z; i_Min : Z; i_Max : Z }.

Definition hide_percent_spec : IntSetting := mkIntSetting 25 1 percent.
Definition hide_count_spec : IntSetting := mkIntSetting 50 1 1000000.

(** [MirrorHideSettings] at its two keys. *)
Definition MirrorHideSettings (key : string) : IntSetting :=
  if String.eqb key MirrorHideMaxPercentSetting then hide_percent_spec
  else if String.eqb key MirrorHideMinCountSetting then hide_count_spec
  else mkIntSetting 0 0 0.

Inductive mirror_error :=
| MErrDb                      (* a statement failed *)
| MErrCtx                     (* the context is done *)
| MErrNotVerified
| MErrUnseal
| MErrCreds                   (* the sealed credentials are malformed *)
| MErrConfig                  (* bucket, region, credentials or kind are not set *)
| MErrStore (e : StoreErr)
| MErrUnversioned
| MErrHideGuard (gone have earlier limit : Z).

(** [MirrorHideSetting]: a failed read is an error, a bad value the default. *)
Definition MirrorHideSetting (f : fate) (settings : gmap string string) (key : string) : result mirror_error Z :=
  let spec := MirrorHideSettings key in
  match Setting f key settings with
  | Err _ => Err MErrDb
  | Ok v =>
      match ParseInt v with
      | Some n => if (i_Min spec <=? n) && (n <=? i_Max spec) then Ok n else Ok (i_Default spec)
      | None => Ok (i_Default spec)
      end
  end.

(** ** The table of hides *)

Record hideRow := mkHide { h_target : Z; h_device : string; h_at : Z; h_n : Z }.

(** [SUM(n)] of one target's device from [since] on. *)
Definition hides_since (targetID : Z) (device : string) (since : Z) (rows : list hideRow) : Z :=
  foldr (fun r acc => (if (h_target r =? targetID) && String.eqb (h_device r) device && (ts since <=? h_at r) then h_n r else 0) + acc) 0 rows.

(** [ReserveMirrorHides]: one transaction.  A refusal rolls the pruning back;
    an answer that is lost was committed. *)
Definition ReserveMirrorHides (f : fate) (targetID : Z) (device : string) (at_ since n limit : Z) (rows : list hideRow)
  : result mirror_error (Z * bool) * list hideRow :=
  let pruned := filter (fun r => ts since <= h_at r) rows in
  let earlier := hides_since targetID device since pruned in
  match f with
  | NotExecuted => (Err MErrDb, rows)
  | _ =>
      if limit <? earlier + n then (match f with Executed => Ok (earlier, false) | _ => Err MErrDb end, rows)
      else (match f with Executed => Ok (earlier, true) | _ => Err MErrDb end, pruned ++ [mkHide targetID device (ts at_) n])
  end.

(** ** Targets *)

Record Target := mkTarget {
  t_ID : Z;
  t_Name : string;
  t_Kind : string;
  t_StorageMode : string;
  t_Path : string;
  t_MirrorKind : string;
  t_MirrorBucket : string;
  t_MirrorRegion : string;
  t_SealedMirrorKey : list Z;
  t_MirrorLockVerifiedAt : option Z;
  t_MirrorConditionalPut : option bool
}.

Record mirrorCreds := mkCreds { c_KeyID : string; c_Key : string }.

(** A string member: null leaves it as it is. *)
Definition decode_text (old : string) (v : json) : option string :=
  match v with JStr s => Some s | JNull => Some old | _ => None end.

Definition creds_member (c : mirrorCreds) (m : string * json) : option mirrorCreds :=
  let '(k, v) := m in
  if key_matches "key_id" k then s ← decode_text (c_KeyID c) v; Some (mkCreds s (c_Key c))
  else if key_matches "key" k then s ← decode_text (c_Key c) v; Some (mkCreds (c_KeyID c) s)
  else Some c.

(** [json.Unmarshal] of the credentials: the whole text is one value. *)
Definition unmarshal_creds (text : list Z) : option mirrorCreds :=
  '(v, rest) ← parse_value (S (length text)) text;
  match skip_ws rest with
  | [] =>
      match v with
      | JObj l => foldl (fun c m => c ← c; creds_member c m) (Some (mkCreds "" "")) l
      | JNull => Some (mkCreds "" "")
      | _ => None
      end
  | _ => None
  end.

(** [mirrorCI]: the bucket, region, endpoint and credentials to connect with. *)
Record connection := mkConnection { ci_bucket : string; ci_region : string; ci_endpoint : string; ci_creds : mirrorCreds }.

Definition mirrorCI (t : Target) (c : mirrorCreds) : result mirror_error connection :=
  if String.eqb (t_MirrorBucket t) "" then Err MErrConfig
  else if String.eqb (t_MirrorRegion t) "" then Err MErrConfig
  else if String.eqb (c_KeyID c) "" || String.eqb (c_Key c) "" then Err MErrConfig
  else if String.eqb (t_MirrorKind t) "b2"
  then Ok (mkConnection (t_MirrorBucket t) (t_MirrorRegion t) ("s3." +:+ t_MirrorRegion t +:+ ".backblazeb2.com") c)
  else if String.eqb (t_MirrorKind t) "s3"
  then Ok (mkConnection (t_MirrorBucket t) (t_MirrorRegion t) ("s3." +:+ t_MirrorRegion t +:+ ".amazonaws.com") c)
  else Err MErrConfig.

(** ** A run *)

(** The database: hides, the agents that exist, and each agent's offsite time and bytes. *)
Record mirror_db := mkMirrorDb { db_hides : list hideRow; db_agents : gset string; db_mirrored : gmap string (Z * Z) }.

Record mirror_oracle (EL ER : Type) := mkMirrorOracle {
  mo_local : nat -> EL;
  mo_remote : nat -> ER;
  mo_db : nat -> fate;
  mo_cancelled : nat -> bool;
  mo_read : nat -> option nat          (* reading a local object fails after so many bytes *)
}.
Arguments mo_local {EL ER}.
Arguments mo_remote {EL ER}.
Arguments mo_db {EL ER}.
Arguments mo_cancelled {EL ER}.
Arguments mo_read {EL ER}.

Section Run.
Context {L EL R ER : Type} `{ObjectStore L EL} `{ObjectStore R ER}.
Context (o : mirror_oracle EL ER).
(** The limits of this run and its time. *)
Context (hidePercent hideMin now : Z).

(** [mirrorRun]'s counters, with the mirror store and the database as they are. *)
Record run := mkRun {
  m_turn : nat;
  m_remote : R;
  m_db : mirror_db;
  m_objects : Z;
  m_skipped : Z;
  m_hidden : Z;
  m_bytes : Z;
  m_errs : list (string * mirror_error)
}.

Definition tick (m : run) : run :=
  mkRun (S (m_turn m)) (m_remote m) (m_db m) (m_objects m) (m_skipped m) (m_hidden m) (m_bytes m) (m_errs m).

Definition fail (what : string) (e : mirror_error) (m : run) : run :=
  mkRun (m_turn m) (m_remote m) (m_db m) (m_objects m) (m_skipped m) (m_hidden m) (m_bytes m) (m_errs m ++ [(what, e)]).

Definition set_remote (r : R) (m : run) : run :=
  mkRun (m_turn m) r (m_db m) (m_objects m) (m_skipped m) (m_hidden m) (m_bytes m) (m_errs m).

Definition set_db (d : mirror_db) (m : run) : run :=
  mkRun (m_turn m) (m_remote m) d (m_objects m) (m_skipped m) (m_hidden m) (m_bytes m) (m_errs m).

(** The local store as it is at each turn, since the devices go on writing to
    it, and the target's own: [tgt], [plain] and [versioned]. *)
Context (local : nat -> L) (tgt : Target) (plain versioned : bool).

(** [mirrored]: the keys the mirror holds for a device, page by page. *)
Fixpoint mirrored_loop (fuel : nat) (device after : string) (have : gset string) (m : run)
  : option (result mirror_error (gset string)) * run :=
  match fuel with
  | O => (None, m)
  | S fuel =>
      match List (mo_remote o (m_turn m)) (device +:+ "/") after listPage (m_remote m) with
      | Err e => (Some (Err (MErrStore e)), tick m)
      | Ok (page, truncated) =>
          match last page with
          | None => (Some (Ok have), tick m)
          | Some lst =>
              let have := have ∪ list_to_set (Key <$> page) in
              if truncated then mirrored_loop fuel device (Key lst) have (tick m) else (Some (Ok have), tick m)
          end
      end
  end.

(** The reader of a local object. *)
Definition local_body (cut : option nat) (d : string) : body :=
  match cut with
  | None => mkBody d None false None
  | Some n => mkBody (stake n d) (Some ErrOther) false None
  end.

(** [upload]: the size stored. *)
Definition upload (obj : ObjectInfo) (m : run) : result StoreErr Z * run :=
  match GetObject (mo_local o (m_turn m)) (Key obj) 0 (-1) (local (m_turn m)) with
  | Err e => (Err e, tick m)
  | Ok (d, info) =>
      let '(res, _, r) := Put (mo_remote o (m_turn m)) (Key obj) (local_body (mo_read o (m_turn m)) d) (Size info) plain (m_remote m) in
      match res with
      | Ok put => (Ok (Size put), set_remote r (tick m))
      | Err e => (Err e, set_remote r (tick m))
      end
  end.

(** The loop of [device] over its objects: the bytes offsite, or that it stopped. *)
Fixpoint upload_loop (where_ : string) (have : gset string) (objs : list ObjectInfo) (offsite : Z) (m : run) : option Z * run :=
  match objs with
  | [] => (Some offsite, m)
  | obj :: objs =>
      if mo_cancelled o (m_turn m) then (None, fail where_ MErrCtx m)
      else if bool_decide (Key obj ∈ have) then
        upload_loop where_ have objs (offsite + Size obj)
          (mkRun (m_turn m) (m_remote m) (m_db m) (m_objects m) (m_skipped m + 1) (m_hidden m) (m_bytes m) (m_errs m))
      else
        match upload obj m with
        | (Err ErrExists, m) =>
            upload_loop where_ have objs (offsite + Size obj)
              (mkRun (m_turn m) (m_remote m) (m_db m) (m_objects m) (m_skipped m + 1) (m_hidden m) (m_bytes m) (m_errs m))
        | (Err e, m) => (None, fail where_ (MErrStore e) m)
        | (Ok n, m) =>
            upload_loop where_ have objs (offsite + n)
              (mkRun (m_turn m) (m_remote m) (m_db m) (m_objects m + 1) (m_skipped m) (m_hidden m) (m_bytes m + n) (m_errs m))
        end
  end.

(** The deletions of [hide]. *)
Fixpoint hide_loop (where_ : string) (gone : list string) (m : run) : run :=
  match gone with
  | [] => m
  | k :: gone =>
      let '(res, r) := Delete (mo_remote o (m_turn m)) k (m_remote m) in
      let m := set_remote r (tick m) in
      match res with
      | Err Object.ErrNotFound => hide_loop where_ gone m
      | Err e => fail where_ (MErrStore e) m
      | Ok _ =>
          hide_loop where_ gone
            (mkRun (m_turn m) (m_remote m) (m_db m) (m_objects m) (m_skipped m) (m_hidden m + 1) (m_bytes m) (m_errs m))
      end
  end.

(** The keys to hide, in the order they are hidden. *)
Definition gone_keys (objs : list ObjectInfo) (have : gset string) : list string :=
  sort_strings (elements (have ∖ list_to_set (Key <$> objs))).

Definition hide_limit (have : gset string) : Z := Z.max hideMin (Z.of_nat (size have) * hidePercent / percent).

Definition hide (where_ device : string) (objs : list ObjectInfo) (have : gset string) (m : run) : run :=
  let gone := gone_keys objs have in
  match gone with
  | [] => m
  | _ =>
      match t_MirrorLockVerifiedAt tgt, versioned with
      | None, _ | _, false => fail where_ MErrUnversioned m
      | Some _, true =>
          let n := Z.of_nat (length gone) in
          let '(res, rows) := ReserveMirrorHides (mo_db o (m_turn m)) (t_ID tgt) device now (now - hideWindow) n (hide_limit have)
                                (db_hides (m_db m)) in
          let m := tick (set_db (mkMirrorDb rows (db_agents (m_db m)) (db_mirrored (m_db m))) m) in
          match res with
          | Err e => fail where_ e m
          | Ok (earlier, false) => fail where_ (MErrHideGuard n (Z.of_nat (size have)) earlier (hide_limit have)) m
          | Ok (_, true) => hide_loop where_ gone m
          end
      end
  end.

(** [record]: progress is kept for agents the fleet knows. *)
Definition record (where_ device : string) (offsite : Z) (m : run) : run :=
  match mo_db o (m_turn m) with
  | Executed =>
      if bool_decide (device ∈ db_agents (m_db m)) then
        let m := tick m in
        let d := mkMirrorDb (db_hides (m_db m)) (db_agents (m_db m)) (<[device := (ts now, offsite)]> (db_mirrored (m_db m))) in
        match mo_db o (m_turn m) with
        | Executed => tick (set_db d m)
        | NotExecuted => tick (fail where_ MErrDb m)
        | AnswerLost => tick (fail where_ MErrDb (set_db d m))
        end
      else tick m
  | _ => tick (fail where_ MErrDb m)
  end.

(** [device]; [None] is running out of pages. *)
Definition device_pass (fuel : nat) (target device : string) (objs : list ObjectInfo) (m : run) : option run :=
  if String.eqb device "" || bool_decide (objs = []) then Some m
  else
    let where_ := target +:+ "/" +:+ device in
    match mirrored_loop fuel device "" ∅ m with
    | (None, _) => None
    | (Some (Err e), m) => Some (fail where_ e m)
    | (Some (Ok have), m) =>
        match upload_loop where_ have objs 0 m with
        | (None, m) => Some m
        | (Some offsite, m) => Some (record where_ device offsite (hide where_ device objs have m))
        end
    end.

(** The objects of a page, a device's after another's. *)
Fixpoint walk_page (fuel : nat) (target : string) (page : list ObjectInfo) (device : string) (objs : list ObjectInfo) (m : run)
  : option (string * list ObjectInfo * run) :=
  match page with
  | [] => Some (device, objs, m)
  | obj :: page =>
      let '(d, _, ok) := Cut (Key obj) "/" in
      if negb ok || String.eqb d "" then walk_page fuel target page device objs m
      else if String.eqb d device then walk_page fuel target page device (objs ++ [obj]) m
      else m ← device_pass fuel target device objs m; walk_page fuel target page d [obj] m
  end.

(** [walk] *)
Fixpoint walk_loop (fuel pages : nat) (target after device : string) (objs : list ObjectInfo) (m : run)
  : option (option mirror_error * run) :=
  match pages with
  | O => None
  | S pages =>
      match List (mo_local o (m_turn m)) "" after listPage (local (m_turn m)) with
      | Err e => Some (Some (MErrStore e), tick m)
      | Ok (page, truncated) =>
          match last page with
          | None => m ← device_pass fuel target device objs (tick m); Some (None, m)
          | Some lst =>
              '(device, objs, m) ← walk_page fuel target page device objs (tick m);
              if truncated then walk_loop fuel pages target (Key lst) device objs m
              else m ← device_pass fuel target device objs m; Some (None, m)
          end
      end
  end.

Definition walk (fuel : nat) (target : string) (m : run) : option (option mirror_error * run) :=
  walk_loop fuel fuel target "" "" [] m.
End Run.

Arguments run : clear implicits.
Arguments mkRun {R}.
Arguments m_turn {R}.
Arguments m_remote {R}.
Arguments m_db {R}.
Arguments m_objects {R}.
Arguments m_skipped {R}.
Arguments m_hidden {R}.
Arguments m_bytes {R}.
Arguments m_errs {R}.

(** ** The job *)

Section Job.
Context {L EL R ER : Type} `{ObjectStore L EL} `{ObjectStore R ER}.
(** How [gateway.NewLocal] of a path ends at a turn and the store there at each
    turn, [seal.Opener], whether [gateway.NewCloud] can build its
    client, and [Versioned]. *)
Context (newLocal : nat -> string -> option StoreErr) (local_at : string -> nat -> L) (open : list Z -> option (list Z)).
Context (newCloud : nat -> connection -> option StoreErr) (isVersioned : ER -> R -> bool).
Context (o : mirror_oracle EL ER) (hidePercent hideMin now : Z) (fuel : nat).

(** The buckets, by endpoint and name. *)
Abbreviation buckets := (string * string -> R).

Definition with_remote {A B} (r : B) (m : run A) : run B :=
  mkRun (m_turn m) r (m_db m) (m_objects m) (m_skipped m) (m_hidden m) (m_bytes m) (m_errs m).

(** [openMirror]: the bucket reached with the credentials. *)
Definition openMirror (turn : nat) (t : Target) (c : mirrorCreds) (bs : buckets) : result mirror_error (string * string * R) :=
  let! ci := mirrorCI t c in
  match newCloud turn ci with
  | None => Ok (ci_endpoint ci, ci_bucket ci, bs (ci_endpoint ci, ci_bucket ci))
  | Some e => Err (MErrStore e)
  end.

(** [target] *)
Definition mirror_target (t : Target) (m : run buckets) : option (run buckets) :=
  match t_MirrorLockVerifiedAt t with
  | None => Some (fail (t_Name t) MErrNotVerified m)
  | Some _ =>
      match open (t_SealedMirrorKey t) with
      | None => Some (fail (t_Name t) MErrUnseal m)
      | Some text =>
          match unmarshal_creds text with
          | None => Some (fail (t_Name t) MErrCreds m)
          | Some c =>
              match newLocal (m_turn m) (t_Path t) with
              | Some e => Some (fail (t_Name t) (MErrStore e) m)
              | None =>
                  match openMirror (m_turn m) t c (m_remote m) with
                  | Err e => Some (fail (t_Name t) e (tick m))
                  | Ok (endpoint, bucket, r) =>
                      let plain := bool_decide (t_MirrorConditionalPut t = Some false) in
                      let versioned := isVersioned (mo_remote o (m_turn m)) r in
                      '(err, m') ← walk o hidePercent hideMin now (local_at (t_Path t)) t plain versioned fuel (t_Name t) (with_remote r (tick m));
                      let m := with_remote (fun b => if decide (b = (endpoint, bucket)) then m_remote m' else m_remote m b) m' in
                      Some (match err with Some e => fail (t_Name t) e m | None => m end)
                  end
              end
          end
      end
  end.

(** The targets that have a mirror. *)
Definition has_mirror (t : Target) : bool :=
  String.eqb (t_Kind t) "hosted" && String.eqb (t_StorageMode t) "disk" && negb (String.eqb (t_MirrorKind t) "").

Fixpoint targets_loop (ts : list Target) (m : run buckets) : option (run buckets) :=
  match ts with
  | [] => Some m
  | t :: ts =>
      if mo_cancelled o (m_turn m) then Some (fail "mirror" MErrCtx m)
      else if has_mirror t then m ← mirror_target t m; targets_loop ts m
      else targets_loop ts m
  end.
End Job.

(** [detail]: the job's row. *)
Section Detail.
Context (Error : mirror_error -> string) {R : Type}.

Definition detail (m : run R) : string :=
  let d := FormatInt (m_objects m) +:+ " objects, " +:+ FormatInt (m_bytes m) +:+ " bytes, " +:+ FormatInt (m_skipped m) +:+ " skipped" in
  let d := if 0 <? m_hidden m then d +:+ ", " +:+ FormatInt (m_hidden m) +:+ " hidden" else d in
  match m_errs m with
  | [] => d
  | errs =>
      let shown := take detailErrors errs in
      let d := d +:+ ", errors: " +:+ Join ((fun e => fst e +:+ ": " +:+ Error (snd e)) <$> shown) "; " in
      let n := Z.of_nat (length errs) - Z.of_nat (length shown) in
      if 0 <? n then d +:+ " (+" +:+ FormatInt n +:+ " more)" else d
  end.
End Detail.

(** [Mirror]: the settings, the targets in turn, and the outcome for the row. *)
Section Mirror.
Context {L EL R ER : Type} `{ObjectStore L EL} `{ObjectStore R ER}.
Context (newLocal : nat -> string -> option StoreErr) (local_at : string -> nat -> L) (open : list Z -> option (list Z)).
Context (newCloud : nat -> connection -> option StoreErr) (isVersioned : ER -> R -> bool).
Context (Error : mirror_error -> string).

Definition Mirror (o : mirror_oracle EL ER) (now : Z) (fuel : nat) (settings : gmap string string) (targets : list Target)
  (bs : string * string -> R) (d : mirror_db) : option (outcome * run (string * string -> R)) :=
  let m := mkRun 3 bs d 0 0 0 0 [] in
  match MirrorHideSetting (mo_db o 0) settings MirrorHideMaxPercentSetting with
  | Err e => Some (Returned "" (Some (Failed (Error e))), m)
  | Ok hidePercent =>
      match MirrorHideSetting (mo_db o 1) settings MirrorHideMinCountSetting with
      | Err e => Some (Returned "" (Some (Failed (Error e))), m)
      | Ok hideMin =>
          match mo_db o 2 with
          | Executed =>
              m ← targets_loop newLocal local_at open newCloud isVersioned o hidePercent hideMin now fuel targets m;
              Some (Returned (detail Error m)
                      (match m_errs m with [] => None | _ => Some (Failed "the mirror did not complete") end), m)
          | _ => Some (Returned "" (Some (Failed (Error MErrDb))), m)
          end
      end
  end.
End Mirror.
