(* ===== verification/MirrorFacts.v ===== *)
(** * What a mirror run does to the bucket

    Facts of [Mirror], against the interface of the two stores: what the devices
    hold locally is never lost from the bucket, a run without errors brings the
    bucket up to date, the hides stay within the guard over any sequence of
    passes, and a run ends. *)

From S2P Require Import Prelude GoStrings GoText GoTime Db Object ObjectStore LocalFacts Jobs Json Mirror.
From Stdlib Require Import Ascii Sorting.Sorted.
Open Scope go_scope.

(** ** Keys of one device are contiguous *)

Lemma prefix_between p x y z :
  HasPrefix x p = true -> HasPrefix z p = true -> slt x y = true -> slt y z = true -> HasPrefix y p = true.
Proof.
  intros [s ->]%HasPrefix_spec [t ->]%HasPrefix_spec. revert y. induction p as [|c p IH]; intros [|d y] H1 H2; [done..|].
  rewrite sapp_cons, slt_cons in H1, H2. cbn [HasPrefix].
  destruct H1 as [?|[-> H1]]; destruct H2 as [?|[? H2]]; subst; try lia; rewrite ?Ascii.eqb_refl; cbn; auto.
Qed.

(** ** Exact listings

    What [List] promises of a page: the first keys of [m] under the prefix
    past [after], in order, and whether there are more -- where [m] is what the
    store holds, less what a concurrent delete takes away while it is listed. *)
Definition lists {T E} `{ObjectStore T E} (e : E) (prefix : string) (s : T) (m : gmap string string) : Prop :=
  forall after objs more,
    List e prefix after listPage s = Ok (objs, more) ->
    Key <$> objs = take (Z.to_nat listPage) (page_spec m prefix after)
    /\ more = bool_decide (Z.to_nat listPage < length (page_spec m prefix after))%nat.

Definition exact_listing {T E} `{ObjectStore T E} (e : E) (prefix : string) (s : T) : Prop := lists e prefix s (view s).

Lemma elem_of_page_spec m prefix after k :
  k ∈ page_spec m prefix after <-> is_Some (m !! k) /\ HasPrefix k prefix = true /\ slt after k = true.
Proof. unfold page_spec. rewrite list_elem_of_filter, elem_of_sort_strings, elem_of_elements, elem_of_dom. tauto. Qed.

Lemma page_spec_strict m prefix after : StronglySorted str_lt (page_spec m prefix after).
Proof. apply sorted_filter, sort_strings_strict, NoDup_elements. Qed.

(** A page that is not the last ends with a key, and the next starts after it. *)
Lemma page_last {T E} `{ObjectStore T E} (e : E) prefix after (s : T) m objs lst :
  lists e prefix s m -> List e prefix after listPage s = Ok (objs, true) -> last objs = Some lst ->
  page_spec m prefix after = (Key <$> objs) ++ page_spec m prefix (Key lst).
Proof.
  intros He HL Hl. destruct (He _ _ _ HL) as [HK _]. apply last_Some in Hl as [objs' ->].
  set (n := Z.to_nat listPage) in *. clearbody n.
  assert (page_spec m prefix after = (Key <$> objs') ++ Key lst :: drop n (page_spec m prefix after)) as Hspec.
  { rewrite <- (take_drop n) at 1. rewrite <- HK, fmap_app. by rewrite <- app_assoc. }
  rewrite (page_spec_after _ _ _ _ _ _ Hspec). rewrite Hspec at 1. by rewrite fmap_app, <- app_assoc.
Qed.

(** The last page is all that is left. *)
Lemma page_end {T E} `{ObjectStore T E} (e : E) prefix after (s : T) m objs :
  lists e prefix s m -> List e prefix after listPage s = Ok (objs, false) ->
  page_spec m prefix after = Key <$> objs.
Proof.
  intros He HL. destruct (He _ _ _ HL) as [-> Hm]. symmetry in Hm. apply bool_decide_eq_false in Hm.
  rewrite take_ge by lia. done.
Qed.

Lemma page_empty {T E} `{ObjectStore T E} (e : E) prefix after (s : T) m objs more :
  lists e prefix s m -> List e prefix after listPage s = Ok (objs, more) -> last objs = None ->
  page_spec m prefix after = [].
Proof.
  intros He HL ->%last_None. destruct (He _ _ _ HL) as [HK _]. symmetry in HK. apply take_nil_inv in HK as [HK|HK]; [|done].
  by vm_compute in HK.
Qed.

(** ** What the mirror asks of its bucket *)

Class MirrorBucket (R ER : Type) `{ObjectStore R ER} : Prop := {
  (** A Put refused with ErrExists finds an object there: the one that was, or
      its own whole body when an earlier attempt of the same request got through. *)
  refused_put e k b size ow r v r' :
    Put e k b size ow r = (Err ErrExists, v, r') ->
    ow = false /\ exists c, view r' !! k = Some c /\ (view r !! k = None -> c = b_data b /\ len c = size);
  bucket_listing e device r : exact_listing e (device +:+ "/") r
}.

Lemma fail_errs {R} what e (m : run R) : m_errs (fail what e m) <> [].
Proof. cbn. by destruct (m_errs m). Qed.

(** A state from which nothing was taken, at one key. *)
Definition same_at {R ER} `{ObjectStore R ER} (k : string) (m m' : run R) : Prop :=
  view (m_remote m') !! k = view (m_remote m) !! k.

(** ** The mirror's side of a run *)

Section Bucket.
Context {EL R ER : Type} {SR : ObjectStore R ER} {LR : ObjectStoreLaws R ER}.
Context (o : mirror_oracle EL ER) (hidePercent hideMin now : Z) (tgt : Target) (versioned : bool).

(** *** The listing of the mirror *)

Lemma mirrored_loop_keeps fuel device after have m res m' :
  mirrored_loop o fuel device after have m = (res, m') ->
  m_remote m' = m_remote m /\ m_db m' = m_db m /\ m_errs m' = m_errs m.
Proof.
  revert after have m. induction fuel as [|fuel IH]; intros after have m; cbn; [by intros [= _ <-]|].
  destruct (List _ _ _ _ _) as [[page more]|]; [|by intros [= _ <-]].
  destruct (last page); [|by intros [= _ <-]].
  destruct more; [|by intros [= _ <-]]. intros HL. by apply IH in HL.
Qed.

(** *** Hides *)

Lemma hide_loop_keeps where_ gone m :
  let m' := hide_loop o where_ gone m in
  m_db m' = m_db m /\ (m_errs m' = [] -> m_errs m = [])
  /\ (forall k, k ∉ gone -> same_at k m m')
  /\ dom (view (m_remote m')) ⊆ dom (view (m_remote m)).
Proof.
  revert m. induction gone as [|g gone IH]; intros m; cbn [hide_loop]; [done|].
  destruct (Delete _ _ _) as [res r] eqn:HD. pose proof (delete_frame _ _ _ _ _ HD) as Hfr.
  assert (dom (view r) ⊆ dom (view (m_remote m))) as Hdom.
  { destruct res as [[]|e].
    - apply delete_ok in HD as [_ ->]. set_solver.
    - apply delete_err in HD as [->|[_ ->]]; set_solver. }
  assert (forall k, k ∉ g :: gone -> view r !! k = view (m_remote m) !! k /\ k ∉ gone) as Hk.
  { intros k [Hg Hn]%not_elem_of_cons. split; [by apply Hfr|done]. }
  assert (forall m1 : run R, m_remote m1 = r -> m_db m1 = m_db m -> m_errs m1 = m_errs m ->
    let m' := hide_loop o where_ gone m1 in
    m_db m' = m_db m /\ (m_errs m' = [] -> m_errs m = []) /\ (forall k, k ∉ g :: gone -> same_at k m m')
    /\ dom (view (m_remote m')) ⊆ dom (view (m_remote m))) as Hgo.
  { intros m1 H1 H2 H3 m'. destruct (IH m1) as (E1 & E2 & E3 & E4). fold m' in E1, E2, E3, E4.
    rewrite H1 in E4. split_and!; [by rewrite E1| |..|set_solver].
    - intros ?%E2. by rewrite <- H3.
    - intros k [Hv Hg]%Hk. unfold same_at in *. by rewrite E3, H1 by done. }
  destruct res as [u|e]; [by apply Hgo|].
  destruct e; try (by apply Hgo); (split_and!; [done|by intros ?%fail_errs|by intros k [? ?]%Hk|done]).
Qed.

Lemma elem_of_gone_keys objs have k : k ∈ gone_keys objs have <-> k ∈ have /\ k ∉ Key <$> objs.
Proof.
  unfold gone_keys. rewrite elem_of_sort_strings, elem_of_elements, elem_of_difference, elem_of_list_to_set. done.
Qed.

Abbreviation hide' := (hide o hidePercent hideMin now tgt versioned).

Lemma hide_keeps where_ device objs have m :
  let m' := hide' where_ device objs have m in
  (m_errs m' = [] -> m_errs m = [])
  /\ (forall k, k ∉ have \/ k ∈ Key <$> objs -> same_at k m m')
  /\ dom (view (m_remote m')) ⊆ dom (view (m_remote m)).
Proof.
  intros m'. subst m'. unfold hide. destruct (gone_keys objs have) as [|g gone] eqn:HG; [done|].
  assert (forall k, k ∉ have \/ k ∈ Key <$> objs -> k ∉ g :: gone) as Hk.
  { intros k Hk. rewrite <- HG, elem_of_gone_keys. tauto. }
  destruct (t_MirrorLockVerifiedAt tgt); destruct versioned; try (by split_and!; [intros ?%fail_errs|..]).
  destruct (ReserveMirrorHides _ _ _ _ _ _ _ _) as [[[? []]|?] rows]; try (by split_and!; [intros ?%fail_errs|..]).
  destruct (hide_loop_keeps where_ (g :: gone) (tick (set_db (mkMirrorDb rows (db_agents (m_db m)) (db_mirrored (m_db m))) m)))
    as (_ & E2 & E3 & E4).
  split_and!; [exact E2| |exact E4]. intros k ?%Hk. by apply E3.
Qed.

Lemma record_keeps where_ device offsite (m : run R) :
  let m' := record o now where_ device offsite m in
  m_remote m' = m_remote m /\ (m_errs m' = [] -> m_errs m = []) /\ db_hides (m_db m') = db_hides (m_db m).
Proof.
  unfold record. destruct (mo_db o (m_turn m)); [case_bool_decide; [destruct (mo_db o (m_turn (tick m)))|]|..];
    (split_and!; [done|first [by intros ?%fail_errs|done]|done]).
Qed.

(** *** What the listing finds *)

Context {MB : MirrorBucket R ER}.

Lemma mirrored_loop_exact fuel device after have m have' m' :
  mirrored_loop o fuel device after have m = (Some (Ok have'), m') ->
  have' = have ∪ list_to_set (page_spec (view (m_remote m)) (device +:+ "/") after).
Proof.
  revert after have m. induction fuel as [|fuel IH]; intros after have m; cbn; [done|].
  destruct (List _ _ _ _ _) as [[page more]|] eqn:HL; [|done].
  pose proof (bucket_listing (mo_remote o (m_turn m)) device (m_remote m)) as He.
  destruct (last page) as [lst|] eqn:Hl.
  - destruct more; intros Hrun.
    + apply IH in Hrun as ->. cbn [tick m_remote]. rewrite (page_last _ _ _ _ _ _ _ He HL Hl), list_to_set_app_L. by rewrite (assoc_L (∪)).
    + injection Hrun as <- _. by rewrite (page_end _ _ _ _ _ _ He HL).
  - intros [= <- _]. rewrite (page_empty _ _ _ _ _ _ _ He HL Hl). cbn [list_to_set]. by rewrite union_empty_r_L.
Qed.

Lemma mirrored_have fuel device m have m' k :
  mirrored_loop o fuel device "" ∅ m = (Some (Ok have), m') ->
  k ∈ have <-> is_Some (view (m_remote m) !! k) /\ HasPrefix k (device +:+ "/") = true.
Proof.
  intros ->%mirrored_loop_exact. rewrite union_empty_l_L, elem_of_list_to_set, elem_of_page_spec.
  split; [tauto|]. intros [Hv Hp]. split_and!; [done..|].
  apply HasPrefix_spec in Hp as [t ->]. by destruct device.
Qed.

End Bucket.

Section Facts.
Context {L EL R ER : Type} {SL : ObjectStore L EL} {SR : ObjectStore R ER}.
Context {LL : ObjectStoreLaws L EL} {LR : ObjectStoreLaws R ER}.
Context (o : mirror_oracle EL ER) (hidePercent hideMin now : Z).
Context (local : nat -> L) (tgt : Target) (plain versioned : bool).

(** *** Uploads *)

Lemma upload_keeps obj m res m' :
  upload o local plain obj m = (res, m') ->
  m_db m' = m_db m /\ m_errs m' = m_errs m /\ frame (Key obj) (view (m_remote m)) (view (m_remote m')).
Proof.
  unfold upload. destruct (GetObject _ _ _ _ _) as [[d info]|e] eqn:HG; [|by intros [= <- <-]].
  destruct (Put _ _ _ _ _ _) as [[r v] r'] eqn:HP. apply put_frame in HP. by destruct r; intros [= <- <-].
Qed.

(** What the mirror asks of the local store, throughout the run, for the sake of
    the key [k]: a listing is of what the store holds, or of less, but not
    without [k]. *)
Definition good_source (k : string) : Prop :=
  forall t, (exists m, lists (mo_local o t) "" (local t) m /\ m !! k = view (local t) !! k)
            /\ forall k, GetObject (mo_local o t) k 0 (-1) (local t) <> Err ErrExists.

Lemma range_whole d : range_of d 0 (-1) = d.
Proof.
  unfold range_of. cbn [Z.ltb Z.compare orb]. rewrite Z.sub_0_r. change (Z.to_nat 0) with O. cbn [sdrop].
  apply stake_all.
Qed.

Lemma stake_full n d : len (stake n d) = len d -> stake n d = d.
Proof.
  intros Hl. assert (String.length (sdrop n d) = 0%nat) as H0.
  { unfold len in Hl. pose proof (f_equal String.length (stake_sdrop n d)) as E. rewrite slength_app in E. lia. }
  rewrite <- (stake_sdrop n d) at 2. destruct (sdrop n d); [by rewrite sapp_nil_r|done].
Qed.

Lemma local_body_whole cut d : len (b_data (local_body cut d)) = len d -> b_data (local_body cut d) = d.
Proof. destruct cut; [apply stake_full|done]. Qed.

Abbreviation uploads := (upload_loop o local plain).

Lemma upload_loop_keeps where_ have objs offsite m res m' :
  uploads where_ have objs offsite m = (res, m') ->
  m_db m' = m_db m /\ (m_errs m' = [] -> m_errs m = [] /\ res <> None).
Proof.
  revert offsite m. induction objs as [|obj objs IH]; intros offsite m; cbn [upload_loop]; [by intros [= <- <-]|].
  destruct (mo_cancelled _ _); [intros [= <- <-]; split; [done|]; by intros ?%fail_errs|].
  case_bool_decide; [intros HL; by apply IH in HL|].
  destruct (upload _ _ _ _ _) as [r m1] eqn:HU. apply upload_keeps in HU as (Hd & He & _).
  destruct r as [n|e].
  - intros HL. apply IH in HL. cbn in HL. by rewrite Hd, He in HL.
  - destruct e; first [intros HL; apply IH in HL; cbn in HL; by rewrite Hd, He in HL
      | intros [= <- <-]; split; [done|]; by intros ?%fail_errs].
Qed.

(** The uploads leave a key alone that is not theirs, or that the mirror holds. *)
Lemma upload_loop_frame where_ have objs offsite m res m' k :
  uploads where_ have objs offsite m = (res, m') ->
  k ∈ have \/ k ∉ Key <$> objs -> same_at k m m'.
Proof.
  revert offsite m. induction objs as [|obj objs IH]; intros offsite m; cbn [upload_loop]; [by intros [= <- <-]|].
  intros HL Hk. assert (k ∈ have \/ k ∉ Key <$> objs) as Hk' by set_solver.
  destruct (mo_cancelled _ _); [by injection HL as <- <-|].
  case_bool_decide as Hin; [by apply IH in HL|].
  destruct (upload _ _ _ _ _) as [r m1] eqn:HU. apply upload_keeps in HU as (_ & _ & Hfr).
  assert (same_at k m m1) as H1 by (apply Hfr; set_solver).
  destruct r as [n|e].
  - apply IH in HL; [|done]. unfold same_at in *. cbn in HL. by rewrite HL.
  - destruct e; first [apply IH in HL; [|done]; unfold same_at in *; cbn in HL; by rewrite HL | by injection HL as <- <-].
Qed.

Context {MB : MirrorBucket R ER}.

(** An upload of an object that is [b] locally leaves [b] in a free place. *)
Lemma upload_stores obj b m res m' :
  good_source (Key obj) -> (forall t, view (local t) !! Key obj = Some b) ->
  upload o local plain obj m = (res, m') ->
  match res with
  | Ok _ => view (m_remote m') !! Key obj = Some b
  | Err ErrExists => view (m_remote m') !! Key obj = Some (default b (view (m_remote m) !! Key obj))
  | Err _ => True
  end.
Proof.
  intros Hsrc Hb. unfold upload. destruct (GetObject _ _ _ _ _) as [[d info]|e] eqn:HG; cycle 1.
  { intros [= <- <-]. destruct (Hsrc (m_turn m)) as [_ Hget]. specialize (Hget (Key obj)). by destruct e. }
  apply get_range in HG as (full & Hf & _ & Hsz & _ & ->). rewrite Hb in Hf. injection Hf as <-.
  rewrite range_whole. destruct (Put _ _ _ _ _ _) as [[r v] r'] eqn:HP. destruct r as [info'|e]; intros [= <- <-]; cbn [m_remote set_remote].
  - apply put_stored in HP as (_ & Hv & _ & Hl & _). rewrite Hsz in Hl. pose proof (len_nonneg b).
    rewrite Hv. f_equal. apply local_body_whole. auto.
  - destruct e; try done. pose proof HP as HP'. apply refused_put in HP as (How & c & Hc & Hnew). rewrite Hc.
    destruct (view (m_remote m) !! Key obj) as [c0|] eqn:E; cbn.
    + rewrite How in HP'. eapply put_append_only in HP'; [|done]. congruence.
    + destruct (Hnew eq_refl) as [-> Hl]. f_equal. apply local_body_whole. by rewrite Hl.
Qed.

(** Uploads that go through bring a key that is [b] locally. *)
Lemma upload_loop_stores where_ have objs offsite m n m' k b :
  good_source k -> (forall t, view (local t) !! k = Some b) ->
  uploads where_ have objs offsite m = (Some n, m') -> k ∉ have ->
  default b (view (m_remote m) !! k) = b ->
  k ∈ Key <$> objs \/ view (m_remote m) !! k = Some b -> view (m_remote m') !! k = Some b.
Proof.
  intros Hsrc Hb HL Hk. revert offsite m HL. induction objs as [|obj objs IH]; intros offsite m; cbn [upload_loop].
  { intros [= <- <-] _ [?%elem_of_nil|]; done. }
  intros HL Hd Hin. destruct (mo_cancelled _ _); [done|].
  case_bool_decide as Hh; [apply IH in HL; set_solver|].
  destruct (upload _ _ _ _ _) as [r m1] eqn:HU.
  destruct (decide (Key obj = k)) as [<-|Hne].
  - pose proof (upload_stores _ _ _ _ _ Hsrc Hb HU) as Hs. rewrite Hd in Hs.
    destruct r as [?|e]; [|destruct e; try done]; apply IH in HL; cbn [m_remote]; auto; by rewrite Hs.
  - apply upload_keeps in HU as (_ & _ & Hfr). specialize (Hfr k (not_eq_sym Hne)).
    rewrite <- Hfr in Hd, Hin.
    assert (k ∈ Key <$> objs \/ view (m_remote m1) !! k = Some b) as Hin' by (clear -Hin Hne; set_solver).
    destruct r as [?|e]; [|destruct e; try done]; apply IH in HL; auto.
Qed.

(** *** A device *)

Abbreviation hide' := (hide o hidePercent hideMin now tgt versioned).
Abbreviation pass := (device_pass o hidePercent hideMin now local tgt plain versioned).
Definition of_device (device : string) (objs : list ObjectInfo) : Prop :=
  forall k, k ∈ Key <$> objs -> HasPrefix k (device +:+ "/") = true.

Lemma device_pass_errs fuel target device objs m m' :
  pass fuel target device objs m = Some m' -> m_errs m' = [] -> m_errs m = [].
Proof.
  unfold device_pass. destruct (_ || _); [by intros [= <-]|].
  destruct (mirrored_loop _ _ _ _ _ _) as [[[have|e]|] m1] eqn:HM; [|intros [= <-]; by intros ?%fail_errs|done].
  apply mirrored_loop_keeps in HM as (_ & _ & HE). rewrite <- HE.
  destruct (upload_loop _ _ _ _ _ _ _ _) as [res m2] eqn:HU. apply upload_loop_keeps in HU as [_ HU].
  destruct res as [n|]; intros [= <-] He; [|by apply HU in He as [_ ?]].
  apply HU, (hide_keeps o hidePercent hideMin now tgt versioned (target +:+ "/" +:+ device) device objs have m2).
  by apply (record_keeps o now (target +:+ "/" +:+ device) device n (hide' (target +:+ "/" +:+ device) device objs have m2)).
Qed.

(** A pass touches only the keys of its own device. *)
Lemma device_pass_frame fuel target device objs m m' k :
  pass fuel target device objs m = Some m' -> of_device device objs ->
  HasPrefix k (device +:+ "/") = false -> same_at k m m'.
Proof.
  intros HP Hof Hk. unfold device_pass in HP. destruct (_ || _); [by injection HP as <-|].
  destruct (mirrored_loop _ _ _ _ _ _) as [[[have|e]|] m1] eqn:HM; [| |done].
  - assert (k ∉ have) as Hh by (rewrite (mirrored_have o fuel device m have m1) by exact HM; rewrite Hk; by intros [_ ?]).
    apply mirrored_loop_keeps in HM as (HR & _).
    destruct (upload_loop _ _ _ _ _ _ _ _) as [res m2] eqn:HU.
    assert (same_at k m1 m2) as H12.
    { eapply upload_loop_frame; [exact HU|]. right. intros Hin%Hof. congruence. }
    unfold same_at in *. rewrite HR in H12. destruct res as [n|]; injection HP as <-; [|done].
    destruct (record_keeps o now (target +:+ "/" +:+ device) device n
      (hide' (target +:+ "/" +:+ device) device objs have m2)) as [-> _].
    destruct (hide_keeps o hidePercent hideMin now tgt versioned (target +:+ "/" +:+ device) device objs have m2) as (_ & Hk2 & _).
    rewrite <- H12. apply Hk2. by left.
  - injection HP as <-. by apply mirrored_loop_keeps in HM as (HR & _); unfold same_at; cbn; rewrite HR.
Qed.

(** A pass keeps what both sides hold, and without errors brings what only the
    local store holds. *)
Lemma device_pass_live fuel target device objs m m' k b :
  good_source k -> (forall t, view (local t) !! k = Some b) ->
  pass fuel target device objs m = Some m' ->
  device <> "" -> k ∈ Key <$> objs -> HasPrefix k (device +:+ "/") = true ->
  (forall c, view (m_remote m) !! k = Some c -> view (m_remote m') !! k = Some c)
  /\ (m_errs m' = [] -> view (m_remote m') !! k = Some (default b (view (m_remote m) !! k))).
Proof.
  intros Hsrc Hb HP Hd Hin Hpre. unfold device_pass in HP.
  assert (String.eqb device "" || bool_decide (objs = []) = false) as E.
  { apply orb_false_iff. split; [by apply String.eqb_neq|]. apply bool_decide_eq_false. by intros ->; apply elem_of_nil in Hin. }
  rewrite E in HP. clear E.
  destruct (mirrored_loop _ _ _ _ _ _) as [[[have|e]|] m1] eqn:HM; [| |done]; cycle 1.
  { injection HP as <-. apply mirrored_loop_keeps in HM as (HR & _). cbn. rewrite HR. split; [done|]. by intros ?%fail_errs. }
  pose proof (mirrored_have _ _ _ _ _ _ k HM) as Hh. apply mirrored_loop_keeps in HM as (HR & _ & _).
  rewrite <- HR in Hh |- *. destruct (upload_loop _ _ _ _ _ _ _ _) as [res m2] eqn:HU.
  assert (forall c, view (m_remote m1) !! k = Some c -> same_at k m1 m2) as Hsame.
  { intros c Hc. eapply upload_loop_frame; [exact HU|]. left. apply Hh. eauto. }
  destruct res as [n|]; injection HP as <-; cycle 1.
  { split; [intros c Hc; by rewrite (Hsame c Hc)|]. intros He. by apply upload_loop_keeps in HU as [_ [_ ?]%(fun f => f He)]. }
  destruct (record_keeps o now (target +:+ "/" +:+ device) device n
    (hide' (target +:+ "/" +:+ device) device objs have m2)) as (-> & _ & _).
  destruct (hide_keeps o hidePercent hideMin now tgt versioned (target +:+ "/" +:+ device) device objs have m2) as (_ & Hk2 & _).
  rewrite (Hk2 k) by (by right). split.
  - intros c Hc. by rewrite (Hsame c Hc).
  - intros _. destruct (view (m_remote m1) !! k) as [c|] eqn:Ec; [by rewrite (Hsame c eq_refl)|].
    eapply upload_loop_stores; [exact Hsrc|exact Hb|exact HU| |by rewrite Ec|by left].
    intros [[? ?] _]%Hh. done.
Qed.

(** *** The walk *)

Section Walk.
Context (fuel : nat) (target : string).
Context (d name b : string) (v0 : option string).
Context (Hd : d <> "") (Hs : Contains d "/" = false).
Abbreviation k := (d +:+ "/" +:+ name).
Context (Hsrc : good_source k) (Hb : forall t, view (local t) !! k = Some b).

(** The key as the run started it. *)
Definition kept (m : run R) : Prop := view (m_remote m) !! k = v0.

(** The key as its device's pass left it. *)
Definition passed (m : run R) : Prop :=
  (forall c, v0 = Some c -> view (m_remote m) !! k = Some c)
  /\ (m_errs m = [] -> view (m_remote m) !! k = Some (default b v0)).

(** Where the walk stands: the key is not listed yet, its device is being
    gathered, or its device's pass is over. *)
Inductive phase (seen device : string) (objs : list ObjectInfo) (m : run R) : Prop :=
| Ahead : slt seen k = true -> kept m -> phase seen device objs m
| Gathering : sle k seen = true -> device = d -> k ∈ Key <$> objs -> kept m -> phase seen device objs m
| Over : sle k seen = true -> device <> d -> HasPrefix seen (d +:+ "/") = false -> passed m -> phase seen device objs m.

Record walking (seen device : string) (objs : list ObjectInfo) (m : run R) : Prop := {
  wk_device : Contains device "/" = false /\ (objs <> [] -> device <> "");
  wk_objs : of_device device objs;
  wk_seen : forall y, y ∈ Key <$> objs -> sle y seen = true;
  wk_phase : phase seen device objs m
}.

Lemma key_device x dv rest : Cut x "/" = (dv, rest, true) -> HasPrefix x (dv +:+ "/") = true /\ Contains dv "/" = false.
Proof. intros [-> ?]%Cut_found. split; [|done]. apply HasPrefix_spec. exists rest. by rewrite sapp_assoc. Qed.

(** The device of a key is the only one it is under. *)
Lemma one_device x d1 d2 :
  Contains d1 "/" = false -> Contains d2 "/" = false ->
  HasPrefix x (d1 +:+ "/") = true -> HasPrefix x (d2 +:+ "/") = true -> d1 = d2.
Proof.
  intros H1 H2 [t1 ->]%HasPrefix_spec [t2 E]%HasPrefix_spec. rewrite !sapp_assoc in E.
  assert (Cut (d1 +:+ String "/" t1) "/" = (d1, t1, true)) as C1 by (by apply Cut_found).
  assert (Cut (d2 +:+ String "/" t2) "/" = (d2, t2, true)) as C2 by (by apply Cut_found).
  change (d1 +:+ String "/" t1 = d2 +:+ String "/" t2) in E. rewrite E in C1. congruence.
Qed.

Lemma key_prefix : HasPrefix k (d +:+ "/") = true.
Proof. apply HasPrefix_spec. exists name. by rewrite sapp_assoc. Qed.

Lemma other_device device : Contains device "/" = false -> device <> d -> HasPrefix k (device +:+ "/") = false.
Proof.
  intros Hc Hne. destruct (HasPrefix k (device +:+ "/")) eqn:E; [|done]. exfalso. apply Hne.
  by eapply one_device; [..|exact E|exact key_prefix].
Qed.

Lemma pass_other device objs m m' :
  Contains device "/" = false -> of_device device objs -> device <> d ->
  pass fuel target device objs m = Some m' -> (kept m -> kept m') /\ (passed m -> passed m').
Proof.
  intros Hc Hof Hne HP. pose proof (device_pass_frame _ _ _ _ _ _ k HP Hof (other_device _ Hc Hne)) as Hsame.
  unfold kept, passed, same_at in *. rewrite Hsame. split; [done|]. intros [H1 H2]. split; [done|].
  intros He. by apply H2, (device_pass_errs _ _ _ _ _ _ HP).
Qed.

Lemma pass_own objs m m' :
  k ∈ Key <$> objs -> kept m -> pass fuel target d objs m = Some m' -> passed m'.
Proof.
  intros Hin Hk HP. destruct (device_pass_live _ _ _ _ _ _ k b Hsrc Hb HP Hd Hin key_prefix) as [H1 H2].
  rewrite Hk in H1, H2. by split.
Qed.

(** A pass that does not hold the key touches it only when its device is over. *)
Lemma pass_empty device m : pass fuel target device [] m = Some m.
Proof. unfold device_pass. by rewrite bool_decide_eq_true_2, orb_true_r. Qed.

(** The walk moves on to the next listed key. *)
Lemma walking_next seen device objs m x dx rest m' :
  walking seen device objs m -> slt seen (Key x) = true ->
  (slt seen k = true -> sle (Key x) k = true) ->
  Cut (Key x) "/" = (dx, rest, true) -> dx <> "" -> dx <> device ->
  pass fuel target device objs m = Some m' -> walking (Key x) dx [x] m'.
Proof.
  intros [[Hc _] Hof Hseen Hph] Hx Hahead HC Hdx Hne HP. apply key_device in HC as [Hpx Hcx].
  split; [by split| | |].
  { intros y. cbn. by intros ->%list_elem_of_singleton. }
  { intros y. cbn. intros ->%list_elem_of_singleton. apply sle_spec. by right. }
  destruct Hph as [Hk Hm|Hk -> Hin Hm|Hk Hdev Hover Hm].
  - assert (kept m') as Hm'.
    { destruct (decide (device = d)) as [->|Hnd]; [|by apply (proj1 (pass_other _ _ _ _ Hc Hof Hnd HP))].
      destruct objs as [|y objs]; [rewrite pass_empty in HP; congruence|]. exfalso. apply Hne.
      eapply one_device; [exact Hcx|exact Hs|exact Hpx|].
      pose proof (Hahead Hk) as [Hlt|Heq]%sle_spec; [|rewrite Heq; exact key_prefix].
      assert (Key y ∈ Key <$> y :: objs) as Hy by (left; done).
      eapply (prefix_between _ (Key y) _ k); [by apply Hof|exact key_prefix| |done].
      destruct (proj1 (sle_spec _ _) (Hseen _ Hy)) as [Hl|<-]; [by eapply slt_trans|done]. }
    destruct (proj1 (sle_spec _ _) (Hahead Hk)) as [Hlt|Heq]; [by apply Ahead|].
    apply Gathering; [by apply sle_spec; right| | |done].
    + eapply one_device; [exact Hcx|exact Hs|exact Hpx|]. rewrite Heq. exact key_prefix.
    + rewrite <- Heq. cbn. by left.
  - assert (passed m') as Hm' by (by eapply pass_own).
    apply Over; [|done|..|done].
    + apply sle_spec. left. destruct (proj1 (sle_spec _ _) Hk) as [Hl|<-]; [by eapply slt_trans|done].
    + destruct (HasPrefix (Key x) (d +:+ "/")) eqn:E; [|done]. exfalso. apply Hne. by eapply one_device.
  - assert (HasPrefix (Key x) (d +:+ "/") = false) as Hpd.
    { destruct (HasPrefix (Key x) (d +:+ "/")) eqn:E; [|done]. rewrite <- Hover.
      destruct (proj1 (sle_spec _ _) Hk) as [Hl|Heq].
      - symmetry. eapply prefix_between; [exact key_prefix|exact E|done|done].
      - rewrite <- Heq. symmetry. exact key_prefix. }
    assert (dx <> d) as Hdxd by (intros ->; congruence).
    apply Over; [|done..|].
    + apply sle_spec. left. destruct (proj1 (sle_spec _ _) Hk) as [Hl|<-]; [by eapply slt_trans|done].
    + by apply (proj2 (pass_other _ _ _ _ Hc Hof Hdev HP)).
Qed.

(** A key that is not a device's is skipped. *)
Lemma walking_skip seen device objs m x dx rest ok :
  walking seen device objs m -> slt seen x = true ->
  (slt seen k = true -> sle x k = true) ->
  Cut x "/" = (dx, rest, ok) -> negb ok || String.eqb dx "" = true -> walking x device objs m.
Proof.
  intros [Hdv Hof Hseen Hph] Hx Hahead HC Hskip.
  assert (HasPrefix x (d +:+ "/") = false) as Hpx.
  { destruct (HasPrefix x (d +:+ "/")) eqn:E; [|done]. exfalso. apply HasPrefix_spec in E as [t ->].
    rewrite sapp_assoc in HC. assert (Cut (d +:+ String "/" t) "/" = (d, t, true)) as C by (by apply Cut_found).
    change (Cut (d +:+ String "/" t) "/" = (dx, rest, ok)) in HC. rewrite C in HC. injection HC as <- <- <-.
    by apply String.eqb_neq in Hd as E; rewrite E in Hskip. }
  assert (forall y, sle y seen = true -> sle y x = true) as Hmono.
  { intros y [Hl|<-]%sle_spec; apply sle_spec; left; [by eapply slt_trans|done]. }
  split; [done..|by intros y ?%Hseen; auto|].
  destruct Hph as [Hk Hm|Hk ? Hin Hm|Hk Hdev Hover Hm]; [|by apply Gathering; auto|by apply Over; auto].
  apply Ahead; [|done]. destruct (proj1 (sle_spec _ _) (Hahead Hk)) as [?| ->]; [done|].
  by rewrite key_prefix in Hpx.
Qed.

Lemma walking_same seen device objs m x rest :
  walking seen device objs m -> slt seen (Key x) = true ->
  (slt seen k = true -> sle (Key x) k = true) ->
  Cut (Key x) "/" = (device, rest, true) -> device <> "" -> walking (Key x) device (objs ++ [x]) m.
Proof.
  intros [Hdv Hof Hseen Hph] Hx Hahead HC Hne. apply key_device in HC as [Hpx Hcx].
  assert (forall y, sle y seen = true -> sle y (Key x) = true) as Hmono.
  { intros y [Hl|<-]%sle_spec; apply sle_spec; left; [by eapply slt_trans|done]. }
  split; [done| | |].
  - intros y. rewrite fmap_app. intros [Hy|Hy]%elem_of_app; [by apply Hof|]. by apply list_elem_of_singleton in Hy as ->.
  - intros y. rewrite fmap_app. intros [Hy|Hy]%elem_of_app; [by apply Hmono, Hseen|].
    apply list_elem_of_singleton in Hy as ->. apply sle_spec. by right.
  - destruct Hph as [Hk Hm|Hk -> Hin Hm|Hk Hdev Hover Hm].
    + destruct (proj1 (sle_spec _ _) (Hahead Hk)) as [?|Heq]; [by apply Ahead|].
      apply Gathering; [by apply sle_spec; right| | |done].
      * eapply one_device; [exact Hcx|exact Hs|exact Hpx|]. rewrite Heq. exact key_prefix.
      * rewrite <- Heq, fmap_app. apply elem_of_app. right. cbn. by left.
    + apply Gathering; [by auto|done| |done]. rewrite fmap_app. set_solver.
    + apply Over; [by auto|done| |done]. destruct (HasPrefix (Key x) (d +:+ "/")) eqn:E; [|done].
      exfalso. apply Hdev. by eapply one_device.
Qed.

Abbreviation page_walk := (walk_page o hidePercent hideMin now local tgt plain versioned fuel target).
Abbreviation loop_walk := (walk_loop o hidePercent hideMin now local tgt plain versioned fuel).

(** A page in order that lists the key, or ends before it. *)
Lemma walk_page_walking page seen device objs m device' objs' m' :
  walking seen device objs m -> StronglySorted str_lt (seen :: (Key <$> page)) ->
  (slt seen k = true -> k ∈ Key <$> page \/ Forall (fun x => slt x k = true) (Key <$> page)) ->
  page_walk page device objs m = Some (device', objs', m') ->
  walking (default seen (last (Key <$> page))) device' objs' m'.
Proof.
  revert seen device objs m. induction page as [|x page IH]; intros seen device objs m Hw Hsort Hlist Hrun.
  { by injection Hrun as <- <- <-. }
  inversion Hsort as [|? ? Hsort' Hall]; subst. rewrite fmap_cons in *. inversion Hall as [|? ? Hx _]; subst.
  inversion Hsort' as [|? ? _ Hall']; subst.
  assert (slt seen k = true -> sle (Key x) k = true) as Hahead.
  { intros [Hin|Hlt]%Hlist; apply sle_spec; [|left; by inversion Hlt].
    apply elem_of_cons in Hin as [->|Hin]; [by right|]. left. by eapply Forall_forall in Hall'. }
  assert (slt (Key x) k = true -> k ∈ Key <$> page \/ Forall (fun y => slt y k = true) (Key <$> page)) as Hlist'.
  { intros Hk. destruct (Hlist (slt_trans _ _ _ Hx Hk)) as [Hin|Hlt]; [|right; by inversion Hlt].
    apply elem_of_cons in Hin as [E|Hin]; [|by left]. rewrite E, slt_irrefl in Hk. done. }
  assert (default seen (last (Key x :: (Key <$> page))) = default (Key x) (last (Key <$> page))) as El.
  { rewrite last_cons. by destruct (last (Key <$> page)). }
  rewrite El. cbn [walk_page] in Hrun. destruct (Cut (Key x) "/") as [[dx rest] ok] eqn:HC.
  destruct (negb ok || String.eqb dx "") eqn:Hskip.
  { eapply IH; [|exact Hsort'|exact Hlist'|exact Hrun]. by eapply walking_skip. }
  apply orb_false_iff in Hskip as [Hok Hdx]. apply negb_false_iff in Hok as ->. apply String.eqb_neq in Hdx.
  destruct (String.eqb_spec dx device) as [->|Hne].
  { eapply IH; [|exact Hsort'|exact Hlist'|exact Hrun]. by eapply walking_same. }
  destruct (device_pass _ _ _ _ _ _ _ _ _ _ _ _ _) as [m1|] eqn:HP; [|done].
  eapply IH; [|exact Hsort'|exact Hlist'|exact Hrun]. by eapply walking_next.
Qed.

(** How a walk leaves the key. *)
Definition walked (err : option mirror_error) (m : run R) : Prop :=
  (forall c, v0 = Some c -> view (m_remote m) !! k = Some c)
  /\ (err = None -> m_errs m = [] -> view (m_remote m) !! k = Some (default b v0)).

Lemma walking_stops seen device objs m err : walking seen device objs m -> walked (Some err) m.
Proof.
  intros [_ _ _ [_ Hm|_ _ _ Hm|_ _ _ [Hm _]]]; split; try done; unfold kept in Hm; by rewrite Hm.
Qed.

Lemma walking_ends seen device objs m m' :
  walking seen device objs m -> slt seen k = false ->
  pass fuel target device objs m = Some m' -> walked None m'.
Proof.
  intros [[Hc _] Hof _ Hph] Hk HP.
  assert (passed m') as [H1 H2].
  { destruct Hph as [Hlt|_ -> Hin Hm|_ Hdev _ Hm]; [congruence|by eapply pass_own|].
    by apply (proj2 (pass_other _ _ _ _ Hc Hof Hdev HP)). }
  by split.
Qed.

Lemma walking_tick seen device objs m : walking seen device objs m -> walking seen device objs (tick m).
Proof. intros [Hd' Hof Hse Hph]. split; [done..|]. destruct Hph; by econstructor. Qed.

Lemma sorted_from seen l : StronglySorted str_lt l -> (forall x, x ∈ l -> slt seen x = true) -> StronglySorted str_lt (seen :: l).
Proof. intros Hl Hx. constructor; [done|]. by apply Forall_forall. Qed.

Lemma walk_loop_walked pages : forall after device objs m err m',
  walking after device objs m ->
  loop_walk pages target after device objs m = Some (err, m') -> walked err m'.
Proof.
  induction pages as [|pages IH]; intros after device objs m err m' Hw Hrun; cbn [walk_loop] in Hrun; [done|].
  apply walking_tick in Hw. destruct (Hsrc (m_turn m)) as [(held & He & Hheld) _].
  destruct (List _ _ _ _ _) as [[page more]|e] eqn:HL; cycle 1.
  { injection Hrun as <- <-. by eapply walking_stops. }
  set (spec := page_spec held "" after).
  assert (slt after k = true -> k ∈ spec) as Hin.
  { intros Hk. apply elem_of_page_spec. rewrite Hheld, Hb. eauto. }
  destruct (last page) as [lst|] eqn:Hl; cycle 1.
  { apply (page_empty _ _ _ _ _ _ _ He) in HL; [|done]. fold spec in HL. rewrite HL in Hin.
    destruct (device_pass _ _ _ _ _ _ _ _ _ _ _ _ _) as [m1|] eqn:HP; [|done]. injection Hrun as <- <-.
    eapply walking_ends; [exact Hw| |exact HP]. destruct (slt after k); [|done]. by specialize (Hin eq_refl) as ?%elem_of_nil. }
  destruct (walk_page _ _ _ _ _ _ _ _ _ _ _ _ _ _) as [[[device1 objs1] m1]|] eqn:HW; [|done].
  assert (StronglySorted str_lt (after :: (Key <$> page))) as Hsort.
  { destruct (He _ _ _ HL) as [-> _]. apply sorted_from.
    - eapply StronglySorted_app_1_l. rewrite take_drop. apply page_spec_strict.
    - intros x Hx%subseteq_take. by apply elem_of_page_spec in Hx as (_ & _ & ?). }
  assert (slt after k = true -> k ∈ Key <$> page \/ Forall (fun x => slt x k = true) (Key <$> page)) as Hlist.
  { intros Hk%Hin. destruct (He _ _ _ HL) as [-> _]. fold spec.
    pose proof (page_spec_strict held "" after) as Hsp. fold spec in Hsp.
    rewrite <- (take_drop (Z.to_nat listPage) spec) in Hk, Hsp. apply elem_of_app in Hk as [Hk|Hk]; [by left|].
    right. apply Forall_forall. intros x Hx. by eapply StronglySorted_app_1_elem_of in Hsp. }
  eapply walk_page_walking in HW; [|exact Hw|exact Hsort|exact Hlist].
  rewrite fmap_last, Hl in HW. cbn [fmap option_fmap option_map default] in HW.
  change (id (Key lst)) with (Key lst) in HW. cbn [mbind option_bind] in Hrun. destruct more; [by eapply IH|].
  destruct (device_pass _ _ _ _ _ _ _ _ _ _ _ _ _) as [m2|] eqn:HP; [|done]. injection Hrun as <- <-.
  eapply walking_ends; [exact HW| |exact HP].
  apply last_Some in Hl as [page' ->]. apply (page_end _ _ _ _ _ _ He) in HL. fold spec in HL.
  destruct (slt (Key lst) k) eqn:E; [|done]. exfalso.
  rewrite fmap_app in *. assert (slt after (Key lst) = true) as Hal.
  { inversion Hsort as [|? ? _ Hall]; subst. eapply Forall_forall in Hall; [exact Hall|]. set_solver. }
  pose proof (Hin (slt_trans _ _ _ Hal E)) as Hk. rewrite HL in Hk. apply elem_of_app in Hk as [Hk|Hk].
  - inversion Hsort as [|? ? Hs' _]; subst. eapply StronglySorted_app_1_elem_of in Hs'; [|exact Hk|by left].
    apply slt_asym in Hs'. cbn in Hs'. congruence.
  - apply list_elem_of_singleton in Hk. rewrite Hk, slt_irrefl in E. done.
Qed.
End Walk.

(** A walk, at a key the local store holds throughout. *)
Lemma walk_live fuel target d name b m err m' :
  good_source (d +:+ "/" +:+ name) -> d <> "" -> Contains d "/" = false ->
  (forall t, view (local t) !! (d +:+ "/" +:+ name) = Some b) ->
  walk o hidePercent hideMin now local tgt plain versioned fuel target m = Some (err, m') ->
  walked d name b (view (m_remote m) !! (d +:+ "/" +:+ name)) err m'.
Proof.
  intros Hsrc Hd Hs Hb Hrun. eapply (walk_loop_walked fuel target d name b _ Hd Hs Hsrc Hb); [|exact Hrun].
  split; [done|by intros ? ?%elem_of_nil..|]. apply Ahead; [by destruct d|done].
Qed.
End Facts.
