(* ===== verification/MirrorGuard.v ===== *)
(** * The mirror's guard on hides, and that a run ends

    Over any sequence of device passes, what left the mirror in the seven days
    before a pass stays within the pass's limit; and a walk returns, with more
    turns than there are keys. *)

From S2P Require Import Prelude GoStrings GoText Digest GoTime Db Object ObjectStore Local LocalFacts Jobs Json Mirror MirrorFacts.
From Stdlib Require Import Ascii Sorting.Sorted.
Open Scope go_scope.

(** ** The ledger *)

Lemma hides_since_app T dv since rows1 rows2 :
  hides_since T dv since (rows1 ++ rows2) = hides_since T dv since rows1 + hides_since T dv since rows2.
Proof. unfold hides_since. induction rows1 as [|r rows1 IH]; cbn; [done|]. rewrite IH. lia. Qed.

(** Pruning what is older than the window changes no sum within it. *)
Lemma hides_since_prune T dv since since' rows :
  ts since <= ts since' -> hides_since T dv since' (filter (fun r => ts since <= h_at r) rows) = hides_since T dv since' rows.
Proof.
  intros Hle. induction rows as [|r rows IH]; [done|]. rewrite filter_cons.
  cbn [hides_since foldr] in *. fold (hides_since T dv since' rows) in *.
  case_decide as Hd; [cbn [foldr hides_since]; fold (hides_since T dv since' (filter (fun r => ts since <= h_at r) rows)); lia|].
  rewrite IH. assert ((ts since' <=? h_at r) = false) as -> by lia. by rewrite andb_false_r.
Qed.

Lemma ReserveMirrorHides_rows f T dv at_ since n limit rows res rows' :
  ReserveMirrorHides f T dv at_ since n limit rows = (res, rows') ->
  (rows' = rows /\ (forall e, res <> Ok (e, true)))
  \/ rows' = filter (fun r => ts since <= h_at r) rows ++ [mkHide T dv (ts at_) n]
     /\ hides_since T dv since rows + n <= limit.
Proof.
  unfold ReserveMirrorHides. rewrite hides_since_prune by done.
  destruct f; [|by intros [= <- <-]; left|]; destruct (Z.ltb_spec limit (hides_since T dv since rows + n)); intros [= <- <-];
    first [by left|right; split; [done|lia]].
Qed.

Lemma size_of_list (l : list string) : (size (list_to_set l : gset string) <= length l)%nat.
Proof.
  induction l as [|x l IH]; [by vm_compute; lia|]. cbn [list_to_set length]. rewrite size_union_alt, size_singleton.
  assert (size ((list_to_set l : gset string) ∖ {[x]}) <= size (list_to_set l : gset string))%nat by (apply subseteq_size; set_solver). lia.
Qed.

Section Guard.
Context {L EL R ER : Type} {SL : ObjectStore L EL} {SR : ObjectStore R ER}.
Context {LL : ObjectStoreLaws L EL} {LR : ObjectStoreLaws R ER} {MB : MirrorBucket R ER}.

(** What a device holds in the mirror. *)
Definition device_keys (device : string) (r : R) : gset string :=
  list_to_set (page_spec (view r) (device +:+ "/") "").

Definition lost_keys (r r' : R) : gset string := dom (view r) ∖ dom (view r').

Section Pass.
Context (o : mirror_oracle EL ER) (hidePercent hideMin now : Z).
Context (local : nat -> L) (tgt : Target) (plain versioned : bool).

(** What the ledger and the mirror become together. *)
Definition booked (device : string) (have : gset string) (rows rows' : list hideRow) (lost : gset string) : Prop :=
  (rows' = rows /\ lost = ∅)
  \/ exists n,
       rows' = filter (fun r => ts (now - hideWindow) <= h_at r) rows ++ [mkHide (t_ID tgt) device (ts now) n]
       /\ Z.of_nat (size lost) <= n
       /\ hides_since (t_ID tgt) device (now - hideWindow) rows + n <= hide_limit hidePercent hideMin have.

Lemma hide_booked where_ device objs have m :
  let m' := hide o hidePercent hideMin now tgt versioned where_ device objs have m in
  booked device have (db_hides (m_db m)) (db_hides (m_db m')) (lost_keys (m_remote m) (m_remote m')).
Proof.
  unfold hide. cbn zeta. destruct (gone_keys objs have) as [|g gone]; [left; unfold lost_keys; split; [done|set_solver]|].
  destruct (t_MirrorLockVerifiedAt tgt); destruct versioned; try (left; cbn; unfold lost_keys; split; [done|set_solver]).
  destruct (ReserveMirrorHides _ _ _ _ _ _ _ _) as [res rows] eqn:HR.
  apply ReserveMirrorHides_rows in HR as [[-> Hno]|[-> Hle]].
  - destruct res as [[earlier []]|e]; [by destruct (Hno earlier)|..]; left; cbn; unfold lost_keys; split; [done|set_solver|done|set_solver].
  - right. exists (Z.of_nat (length (g :: gone))).
    destruct res as [[earlier []]|e]; try (unfold lost_keys; cbn [fail tick set_db m_db db_hides m_remote];
      split_and!; [done| |done]; rewrite difference_diag_L, size_empty; lia).
    set (m1 := tick _). destruct (hide_loop_keeps o where_ (g :: gone) m1) as (-> & _ & Hsame & _).
    split_and!; [done| |done]. pose proof (size_of_list (g :: gone)). unfold lost_keys.
    etrans; [apply inj_le, (subseteq_size _ (list_to_set (g :: gone) : gset string))|lia]. intros k [H1 H2]%elem_of_difference. apply elem_of_list_to_set.
    destruct (decide (k ∈ g :: gone)) as [|Hn]; [done|]. destruct H2. apply Hsame in Hn. unfold same_at in Hn.
    apply elem_of_dom. rewrite Hn. by apply elem_of_dom in H1.
Qed.

Lemma booked_less device have rows rows' lost lost' :
  booked device have rows rows' lost -> lost' ⊆ lost -> booked device have rows rows' lost'.
Proof.
  intros [[-> ->]|(n & -> & Hn & Hl)] Hsub; [left; split; [done|set_solver]|].
  right. exists n. split_and!; [done| |done]. apply subseteq_size in Hsub. lia.
Qed.

(** A pass loses nothing, or no more than it entered in the ledger within the limit. *)
Lemma device_pass_ledger fuel target device objs m m' :
  device_pass o hidePercent hideMin now local tgt plain versioned fuel target device objs m = Some m' ->
  of_device device objs ->
  booked device (device_keys device (m_remote m)) (db_hides (m_db m)) (db_hides (m_db m')) (lost_keys (m_remote m) (m_remote m')).
Proof.
  intros HP Hof. unfold device_pass in HP.
  destruct (_ || _); [left; injection HP as <-; split; [done|unfold lost_keys; set_solver]|].
  destruct (mirrored_loop _ _ _ _ _ _) as [[[have|e]|] m1] eqn:HM; [| |done]; cycle 1.
  { left. injection HP as <-. apply mirrored_loop_keeps in HM as (HR & HD & _). cbn. rewrite HR, HD. split; [done|unfold lost_keys; set_solver]. }
  pose proof (fun k => mirrored_have o fuel device m have m1 k HM) as Hh.
  pose proof (mirrored_loop_exact _ _ _ _ _ _ _ _ HM) as Hex. rewrite union_empty_l_L in Hex.
  apply mirrored_loop_keeps in HM as (HR & HD & _). rewrite <- HR in Hh, Hex |- *. rewrite <- HD.
  unfold device_keys. rewrite <- Hex.
  destruct (upload_loop _ _ _ _ _ _ _ _) as [res m2] eqn:HU.
  assert (dom (view (m_remote m1)) ⊆ dom (view (m_remote m2))) as Hdom.
  { intros k Hk. apply elem_of_dom. rewrite (upload_loop_frame _ _ _ _ _ _ _ _ _ _ k HU); [by apply elem_of_dom|].
    destruct (decide (k ∈ Key <$> objs)) as [Hin|]; [left|by right]. apply Hh. split; [by apply elem_of_dom|by apply Hof]. }
  apply upload_loop_keeps in HU as [<- _].
  destruct res as [n|]; injection HP as <-; [|left; split; [done|unfold lost_keys; set_solver]].
  destruct (record_keeps o now (target +:+ "/" +:+ device) device n
    (hide o hidePercent hideMin now tgt versioned (target +:+ "/" +:+ device) device objs have m2)) as (-> & _ & ->).
  pose proof (hide_booked (target +:+ "/" +:+ device) device objs have m2) as HB. cbn zeta in HB.
  destruct (hide_keeps o hidePercent hideMin now tgt versioned (target +:+ "/" +:+ device) device objs have m2) as (_ & Hsame & _).
  set (m3 := hide _ _ _ _ _ _ _ _ _ _ _) in *. clearbody m3. eapply booked_less; [exact HB|].
  unfold lost_keys. set_solver.
Qed.
End Pass.

(** ** Sequences of passes *)

(** One pass: whose it was, when, what left the mirror and the limit it had. *)
Record pass_record := mkPass {
  pr_target : Z;
  pr_device : string;
  pr_now : Z;
  pr_lost : gset string;
  pr_limit : Z
}.

(** Passes over one ledger, each later than the ones before, of any targets and
    devices, with anything happening to the stores in between. *)
Inductive passes (rows : list hideRow) : list pass_record -> list hideRow -> Prop :=
| passes_none : passes rows [] rows
| passes_next l rows1 o hidePercent hideMin now (local : nat -> L) tgt plain versioned fuel target device objs m m' :
    passes rows l rows1 ->
    db_hides (m_db m) = rows1 -> Forall (fun p => pr_now p <= now) l -> of_device device objs ->
    device_pass o hidePercent hideMin now local tgt plain versioned fuel target device objs m = Some m' ->
    passes rows
      (l ++ [mkPass (t_ID tgt) device now (lost_keys (m_remote m) (m_remote m'))
               (hide_limit hidePercent hideMin (device_keys device (m_remote m)))])
      (db_hides (m_db m')).

(** What a device of a target lost in passes not older than [since]. *)
Definition lost_since (T : Z) (dv : string) (since : Z) (l : list pass_record) : Z :=
  foldr (fun p acc => (if (pr_target p =? T) && String.eqb (pr_device p) dv && (ts since <=? ts (pr_now p))
                       then Z.of_nat (size (pr_lost p)) else 0) + acc) 0 l.

Lemma lost_since_snoc T dv since l p :
  lost_since T dv since (l ++ [p])
  = lost_since T dv since l
    + (if (pr_target p =? T) && String.eqb (pr_device p) dv && (ts since <=? ts (pr_now p)) then Z.of_nat (size (pr_lost p)) else 0).
Proof. unfold lost_since. induction l as [|q l IH]; cbn; [lia|]. rewrite IH. lia. Qed.

Lemma hides_since_one T dv since r :
  hides_since T dv since [r] = if (h_target r =? T) && String.eqb (h_device r) dv && (ts since <=? h_at r) then h_n r else 0.
Proof. cbn. lia. Qed.

(** The ledger never counts less than what was lost. *)
Lemma ledger_covers rows l rows' :
  passes rows l rows' -> Forall (fun r => 0 <= h_n r) rows ->
  Forall (fun r => 0 <= h_n r) rows'
  /\ forall T dv since, Forall (fun p => pr_now p - hideWindow <= since) l ->
       lost_since T dv since l <= hides_since T dv since rows'.
Proof.
  intros Hp H0. induction Hp as [|l rows1 o hp hm now local tgt plain versioned fuel target device objs m m' Hp IH Hm Hnow Hof HP].
  { split; [done|]. intros T dv since _. cbn. induction H0 as [|r rows Hr _ IHr]; cbn; [lia|].
    unfold hides_since in IHr. destruct (_ && _); lia. }
  destruct IH as [Hn Hle]. apply device_pass_ledger in HP; [|done]. rewrite Hm in HP.
  destruct HP as [[-> Hlost]|(n & -> & Hsz & _)].
  - split; [done|]. intros T dv since [Hl _]%Forall_app. rewrite lost_since_snoc. cbn [pr_lost]. rewrite Hlost, size_empty.
    specialize (Hle T dv since Hl). destruct (_ && _); lia.
  - split.
    { apply Forall_app. split; [apply Forall_forall; intros r [_ Hr]%list_elem_of_filter; by eapply Forall_forall in Hn|]. apply Forall_singleton. cbn. lia. }
    intros T dv since [Hl Hs]%Forall_app. rewrite Forall_singleton in Hs. cbn [pr_now] in Hs.
    rewrite lost_since_snoc, hides_since_app, hides_since_prune, hides_since_one by (apply ts_le; lia).
    cbn [h_target h_device h_at h_n pr_target pr_device pr_now pr_lost].
    specialize (Hle T dv since Hl). destruct (_ && _ && _); lia.
Qed.

(** C20.  The hide guard holds over time.  However the runs and their failures
    are interleaved, when a pass takes keys out of the mirror, the keys its
    device lost in that target's passes of the seven days before, together
    with its own, are within the limit the pass had: the larger of the
    minimum count and the percentage of what the mirror held of the device. *)
Theorem hides_within_guard l1 p l2 rows' :
  passes [] (l1 ++ p :: l2) rows' -> pr_lost p <> ∅ ->
  lost_since (pr_target p) (pr_device p) (pr_now p - hideWindow) (l1 ++ [p]) <= pr_limit p.
Proof.
  intros Hp Hne. remember (l1 ++ p :: l2) as l eqn:El. revert l2 El.
  induction Hp as [|l rows1 o hp hm now local tgt plain versioned fuel target device objs m m' Hp IH Hm Hnow Hof HP]; intros l2 El.
  { by destruct l1. }
  destruct l2 as [|q l2 _] using rev_ind; cycle 1.
  { rewrite app_comm_cons, app_assoc in El. apply app_inj_tail in El as [El _]. by eapply IH. }
  apply app_inj_tail in El as [-> <-]. cbn [pr_lost pr_target pr_device pr_now pr_limit] in *.
  apply device_pass_ledger in HP as [[_ ?]|(n & _ & Hsz & Hlim)]; [done| |done]. rewrite Hm in Hlim.
  destruct (ledger_covers _ _ _ Hp (Forall_nil_2 _)) as [_ Hle].
  specialize (Hle (t_ID tgt) device (now - hideWindow)). rewrite lost_since_snoc.
  cbn [pr_lost pr_target pr_device pr_now]. rewrite Z.eqb_refl, String.eqb_refl.
  assert ((ts (now - hideWindow) <=? ts now) = true) as ->.
  { apply Z.leb_le, ts_le. assert (0 <= hideWindow) by (by apply Z.leb_le). lia. }
  cbn [andb]. assert (Forall (fun q => pr_now q - hideWindow <= now - hideWindow) l1) as Hl.
  { eapply Forall_impl; [exact Hnow|]. intros. cbn in *. lia. }
  specialize (Hle Hl). lia.
Qed.
End Guard.

(** ** A run ends *)

(** How many keys of [U] are past [after]. *)
Definition ahead (U : gset string) (after : string) : nat := size (filter (fun x => slt after x = true) U).

Lemma ahead_next U after x : x ∈ U -> slt after x = true -> (ahead U x < ahead U after)%nat.
Proof.
  intros HU Hx. unfold ahead. apply subset_size. split.
  - intros y [Hy ?]%elem_of_filter. apply elem_of_filter. split; [by eapply slt_trans|done].
  - intros Hsub. assert (x ∈ filter (fun y => slt x y = true) U) as [E _]%elem_of_filter.
    { apply Hsub, elem_of_filter. done. }
    by rewrite slt_irrefl in E.
Qed.

Lemma ahead_size U after : (ahead U after <= size U)%nat.
Proof. apply subseteq_size. intros x [_ ?]%elem_of_filter. done. Qed.

Section Ends.
Context {L EL R ER : Type} {SL : ObjectStore L EL} {SR : ObjectStore R ER}.
Context {LL : ObjectStoreLaws L EL} {LR : ObjectStoreLaws R ER}.
Context (o : mirror_oracle EL ER) (hidePercent hideMin now : Z).
Context (local : nat -> L) (tgt : Target) (plain versioned : bool).

Lemma mirrored_loop_ends fuel device after have (m : run R) :
  (ahead (dom (view (m_remote m))) after < fuel)%nat ->
  exists res m', mirrored_loop o fuel device after have m = (Some res, m') /\ m_remote m' = m_remote m.
Proof.
  revert after have m. induction fuel as [|fuel IH]; intros after have m Hf; [lia|]. cbn [mirrored_loop].
  destruct (List _ _ _ _ _) as [[page more]|] eqn:HL; [|by eauto].
  destruct (last page) as [lst|] eqn:Hl; [|by eauto]. destruct more; [|by eauto].
  assert (lst ∈ page) as Hin by (by apply last_Some_elem_of).
  destruct (list_sound _ _ _ _ _ _ _ _ HL Hin) as (_ & Hlt & d & Hv & _). apply (IH (Key lst) _ (tick m)).
  cbn. pose proof (ahead_next (dom (view (m_remote m))) after (Key lst) ltac:(apply elem_of_dom; eauto) Hlt). lia.
Qed.

Abbreviation pass := (device_pass o hidePercent hideMin now local tgt plain versioned).

(** What a pass can add to the mirror is what it was given. *)
Lemma upload_loop_dom where_ have objs offsite (m : run R) res m' :
  upload_loop o local plain where_ have objs offsite m = (res, m') ->
  dom (view (m_remote m')) ⊆ dom (view (m_remote m)) ∪ list_to_set (Key <$> objs).
Proof.
  intros HU k Hk. destruct (decide (k ∈ Key <$> objs)) as [|Hn]; [set_solver|].
  assert (same_at k m m') as E by (exact (upload_loop_frame _ _ _ _ _ _ _ _ _ _ k HU (or_intror Hn))).
  apply elem_of_union. left. apply elem_of_dom. unfold same_at in E. rewrite <- E. by apply elem_of_dom.
Qed.

Lemma device_pass_ends fuel target device objs (m : run R) :
  (size (dom (view (m_remote m))) < fuel)%nat ->
  exists m', pass fuel target device objs m = Some m'
             /\ dom (view (m_remote m')) ⊆ dom (view (m_remote m)) ∪ list_to_set (Key <$> objs).
Proof.
  intros Hf. unfold device_pass. destruct (_ || _); [by eexists; split; [done|set_solver]|].
  pose proof (ahead_size (dom (view (m_remote m))) "").
  destruct (mirrored_loop_ends fuel device "" ∅ m) as (res & m1 & -> & HR); [lia|].
  destruct res as [have|e]; cycle 1. { eexists. split; [done|]. cbn. rewrite HR. set_solver. }
  destruct (upload_loop _ _ _ _ _ _ _ _) as [res m2] eqn:HU. apply upload_loop_dom in HU. rewrite HR in HU.
  destruct res as [n|]; [|by eauto]. eexists. split; [done|].
  destruct (record_keeps o now (target +:+ "/" +:+ device) device n
    (hide o hidePercent hideMin now tgt versioned (target +:+ "/" +:+ device) device objs have m2)) as (-> & _ & _).
  destruct (hide_keeps o hidePercent hideMin now tgt versioned (target +:+ "/" +:+ device) device objs have m2) as (_ & _ & Hsub).
  cbn zeta in Hsub. clear -HU Hsub. set_solver.
Qed.

Section Walk.
Context (U V : gset string) (fuel : nat) (target : string).
Context (HU : forall t, dom (view (local t)) ⊆ U) (HV : U ⊆ V) (Hfuel : (size V < fuel)%nat).

Lemma walk_page_ends page device objs (m : run R) :
  list_to_set (Key <$> page) ⊆ U -> list_to_set (Key <$> objs) ⊆ U -> dom (view (m_remote m)) ⊆ V ->
  exists device' objs' m',
    walk_page o hidePercent hideMin now local tgt plain versioned fuel target page device objs m = Some (device', objs', m')
    /\ list_to_set (Key <$> objs') ⊆ U /\ dom (view (m_remote m')) ⊆ V.
Proof.
  revert device objs m. induction page as [|x page IH]; intros device objs m Hp Ho Hm; cbn [walk_page].
  { by eexists _, _, _. }
  rewrite fmap_cons in Hp. cbn [list_to_set] in Hp.
  destruct (Cut (Key x) "/") as [[dx rest] ok]. destruct (negb ok || String.eqb dx ""); [apply IH; set_solver|].
  destruct (String.eqb dx device); [apply IH; [set_solver| |done]|].
  { rewrite fmap_app, list_to_set_app_L. cbn. set_solver. }
  destruct (device_pass_ends fuel target device objs m) as (m1 & -> & Hd).
  { apply subseteq_size in Hm. lia. }
  cbn [mbind option_bind]. apply IH; [set_solver|cbn; set_solver|]. clear -Hd Hm Ho HV. set_solver.
Qed.

Lemma walk_loop_ends pages after device objs (m : run R) :
  (ahead U after < pages)%nat -> list_to_set (Key <$> objs) ⊆ U -> dom (view (m_remote m)) ⊆ V ->
  is_Some (walk_loop o hidePercent hideMin now local tgt plain versioned fuel pages target after device objs m).
Proof.
  revert after device objs m. induction pages as [|pages IH]; intros after device objs m Hp Ho Hm; [lia|]. cbn [walk_loop].
  destruct (List _ _ _ _ _) as [[page more]|] eqn:HL; [|by eauto].
  assert (forall x, x ∈ page -> Key x ∈ U /\ slt after (Key x) = true) as Hpage.
  { intros x Hx. destruct (list_sound _ _ _ _ _ _ _ _ HL Hx) as (_ & Hlt & d & Hv & _). split; [|done].
    apply (HU (m_turn m)), elem_of_dom. eauto. }
  destruct (last page) as [lst|] eqn:Hl; cycle 1.
  { destruct (device_pass_ends fuel target device objs (tick m)) as (m1 & -> & _); [|by eauto].
    apply subseteq_size in Hm. cbn. lia. }
  destruct (walk_page_ends page device objs (tick m)) as (device' & objs' & m1 & -> & Ho1 & Hm1); [|done|done|].
  { intros k (x & -> & Hx)%elem_of_list_to_set%list_elem_of_fmap. by apply Hpage. }
  cbn [mbind option_bind]. destruct more.
  - apply last_Some_elem_of in Hl. destruct (Hpage _ Hl) as [HinU Hlt]. apply IH; [|done|done].
    pose proof (ahead_next U after (Key lst) HinU Hlt). lia.
  - destruct (device_pass_ends fuel target device' objs' m1) as (m2 & -> & _); [|by eauto].
    apply subseteq_size in Hm1. lia.
Qed.
End Walk.

(** C34.  A mirror run over a target ends, whatever the stores answer: with more
    turns than the keys the two sides hold over the run, the walk returns,
    even as the devices go on writing to the local store. *)
Theorem mirror_walk_ends (U : gset string) fuel target (m : run R) :
  (forall t, dom (view (local t)) ⊆ U) ->
  (size (U ∪ dom (view (m_remote m))) < fuel)%nat ->
  is_Some (walk o hidePercent hideMin now local tgt plain versioned fuel target m).
Proof.
  intros HU Hf. apply (walk_loop_ends U (U ∪ dom (view (m_remote m)))); [done|set_solver|done| |done|set_solver].
  pose proof (ahead_size U ""). assert (size U <= size (U ∪ dom (view (m_remote m))))%nat by (apply subseteq_size; set_solver). lia.
Qed.
End Ends.

(** * The mirror of a hosted disk root

    The facts of [MirrorFacts] for the store the job mirrors, the disk backend,
    under any failures of its file system; and runs against a small bucket. *)

(** ** The disk backend as a source *)

(** A file that a concurrent delete takes away between the reading of its
    directory and the look at it. *)
Definition vanishing (e : env) (k : string) : Prop := e_info e k = Some true.

#[local] Instance vanishing_dec e k : Decision (vanishing e k).
Proof. unfold vanishing. apply _. Defined.

Definition still : env := LocalFacts.calm 0 "".

Lemma still_quiet : quiet still.
Proof. done. Qed.

(** The disk without the files that vanish. *)
Definition prune (e : env) (l : local) : local :=
  with_root l (mkFs (filter (fun '(k, _) => ~ vanishing e k) (nodes (root l))) (dirs (root l))).

Lemma prune_node e l k n : nodes (root (prune e l)) !! k = Some n <-> nodes (root l) !! k = Some n /\ ~ vanishing e k.
Proof. apply (map_lookup_filter_Some (fun '(k, _) => ~ vanishing e k)). Qed.

Lemma prune_good e l : good_local l -> good_local (prune e l).
Proof. intros (Hm & Ht & Hf). split; [done|split; [done|]]. intros p n [H _]%prune_node. by eapply Hf. Qed.

Lemma prune_layout e l : device_layout l -> device_layout (prune e l).
Proof. intros [Hd Hf]. split; [done|]. intros k n [H _]%prune_node. by eapply Hf. Qed.

Lemma prune_view e l k : ~ vanishing e k -> local_view (prune e l) !! k = local_view l !! k.
Proof.
  intros Hk. unfold local_view. rewrite !map_lookup_imap. f_equal. apply option_eq. intros n. rewrite prune_node. tauto.
Qed.

Abbreviation present e d := (fun x : string * node => ~ vanishing e (d +:+ "/" +:+ x.1)).

Lemma prune_names e d l : Contains d "/" = false ->
  dir_names d (root (prune e l)) = filter (fun name => ~ vanishing e (d +:+ "/" +:+ name)) (dir_names d (root l)).
Proof.
  intros Hd. apply strict_unique; [apply dir_names_strict|apply sorted_filter, dir_names_strict|].
  intros name. rewrite list_elem_of_filter, !elem_of_dir_names by done. split.
  - intros [n [H1 H2]%prune_node]. eauto.
  - intros [H1 [n H2]]. exists n. by apply prune_node.
Qed.

Lemma prune_dir e d l : Contains d "/" = false -> ReadDir d (root (prune e l)) = filter (present e d) <$> ReadDir d (root l).
Proof.
  intros Hd. unfold ReadDir. change (dirs (root (prune e l))) with (dirs (root l)). case_bool_decide; [|done].
  cbn [fmap option_fmap option_map]. f_equal. rewrite prune_names by done.
  induction (dir_names d (root l)) as [|name ns IH]; [done|]. rewrite filter_cons. cbn [omap list_omap].
  destruct (nodes (root l) !! (d +:+ "/" +:+ name)) as [n|] eqn:E; cbn [fmap option_fmap option_map];
    destruct (decide (~ vanishing e (d +:+ "/" +:+ name))) as [Hn|Hn]; cbn [omap list_omap].
  - rewrite (proj2 (prune_node e l _ n)) by done. cbn [fmap option_fmap option_map]. rewrite filter_cons_True by done. by f_equal.
  - by rewrite filter_cons_False by done.
  - destruct (nodes (root (prune e l)) !! _) as [n|] eqn:E'; [apply prune_node in E' as [? _]; congruence|]. exact IH.
  - exact IH.
Qed.

Lemma list_entries_prune e d name after max ents acc r :
  list_entries e d name after max ents acc = Ok r -> list_entries still d name after max (filter (present e d) ents) acc = Ok r.
Proof.
  revert acc. induction ents as [|[en n] ents IH]; intros acc; cbn [list_entries]; [done|]. rewrite filter_cons. cbn [fst].
  destruct (_ || _ || _) eqn:Eo.
  { intros H. apply IH in H. destruct (decide _); [|done]. cbn [list_entries]. by rewrite Eo. }
  destruct (e_info e _) as [[]|] eqn:Ei; [|done|].
  - rewrite decide_False; [apply IH|]. intros Hn. by apply Hn.
  - rewrite decide_True by (unfold vanishing; congruence). cbn [list_entries e_info still calm]. rewrite Eo.
    cbv zeta. destruct (_ <? _)%nat; [done|apply IH].
Qed.

Lemma list_dirs_loop_prune e ds name after max l acc r : Forall (fun d => Contains d "/" = false) ds ->
  list_dirs_loop e ds name after max (root l) acc = Ok r -> list_dirs_loop still ds name after max (root (prune e l)) acc = Ok r.
Proof.
  intros Hds. revert acc. induction Hds as [|d ds Hd Hds IH]; intros acc; cbn [list_dirs_loop]; [done|].
  destruct (fails e SysReadDir); [done|]. rewrite quiet_fails by apply still_quiet. cbn [orb].
  destruct (negb (ValidString d)); [done|]. rewrite prune_dir by done. destruct (ReadDir d (root l)) as [ents|]; cbn [fmap option_fmap option_map]; [|apply IH].
  destruct (list_entries e _ _ _ _ _ _) as [[acc' more]|] eqn:HE; [|done].
  rewrite (list_entries_prune _ _ _ _ _ _ _ _ HE). destruct more; [done|apply IH].
Qed.

(** A listing of the whole root that is answered is the one of a file system
    that does not fail and does not hold the files that vanish. *)
Lemma local_List_prune e after max l r : local_List e "" after max l = Ok r -> local_List still "" after max (prune e l) = Ok r.
Proof.
  unfold local_List. destruct (fails e SysCtx); [done|]. rewrite (quiet_fails still) by apply still_quiet.
  unfold listDirs. rewrite (quiet_fails still) by apply still_quiet. cbn [Cut]. destruct (fails e SysReadDir); [done|].
  intros HL. destruct (list_dirs_loop e _ _ _ _ _ _) as [[acc more]|] eqn:HD; [|done].
  change (root_dirs (root (prune e l))) with (root_dirs (root l)). apply list_dirs_loop_prune in HD; [by rewrite HD|].
  apply Forall_forall. unfold root_dirs. intros d Hd. apply list_elem_of_filter in Hd as [_ Hd]. by apply list_elem_of_filter in Hd as [? _].
Qed.

Lemma disk_source {ER} (o : mirror_oracle env ER) (disk : nat -> local) k :
  (forall t, ~ vanishing (mo_local o t) k) -> (forall t, good_local (disk t)) -> (forall t, device_layout (disk t)) ->
  good_source o disk k.
Proof.
  intros Hs Hg Hl t. split.
  - exists (local_view (prune (mo_local o t) (disk t))). split; [|by apply prune_view].
    intros after objs more HL. apply local_List_prune in HL.
    destruct (local_List_all still after listPage (prune (mo_local o t) (disk t)) still_quiet) as (objs' & HL' & HK);
      [by apply prune_good|by apply prune_layout|].
    rewrite HL' in HL. injection HL as <- <-. done.
  - intros k'. cbn [GetObject local_store]. unfold local_Get, open, lstatObject.
    destruct (fails _ SysCtx); [done|]. unfold checkKey. repeat case_match; simplify_eq; done.
Qed.

Section Disk.
Context {R ER : Type} {SR : ObjectStore R ER} {LR : ObjectStoreLaws R ER} {MB : MirrorBucket R ER}.

(** C19.  The mirror of a disk target.  Take an object the disk holds unchanged
    while the job walks (so that a listing does not find it gone either),
    whatever else the devices write or maintenance removes in the meantime,
    other files that vanish while they are being listed included.  If the mirror holds the key before the walk, it
    holds the same bytes after it, however the walk fails: it is neither
    hidden nor overwritten.  And if the walk reports no error, the mirror
    holds it: the bytes it had, or those of the disk. *)
Theorem mirror_keeps_live (o : mirror_oracle env ER) hidePercent hideMin now (disk : nat -> local) tgt plain versioned fuel target
    d name b (m : run R) err m' :
  (forall t, ~ vanishing (mo_local o t) (d +:+ "/" +:+ name)) -> (forall t, good_local (disk t)) -> (forall t, device_layout (disk t)) ->
  d <> "" -> Contains d "/" = false ->
  (forall t, local_view (disk t) !! (d +:+ "/" +:+ name) = Some b) ->
  walk o hidePercent hideMin now disk tgt plain versioned fuel target m = Some (err, m') ->
  (forall c, view (m_remote m) !! (d +:+ "/" +:+ name) = Some c -> view (m_remote m') !! (d +:+ "/" +:+ name) = Some c)
  /\ (err = None -> m_errs m' = [] ->
      view (m_remote m') !! (d +:+ "/" +:+ name) = Some (default b (view (m_remote m) !! (d +:+ "/" +:+ name)))).
Proof. intros Hs Hg Hl Hd Hc Hb HW. by eapply walk_live in HW; [| |apply disk_source|..]. Qed.
End Disk.

(** ** A bucket *)

Abbreviation bucket := (gmap string string).

Definition bucket_put (k : string) (b : body) (size : Z) (ow : bool) (r : bucket) : result StoreErr ObjectInfo * bool * bucket :=
  match checkKey k, at_end b with
  | Err e, _ => (Err ErrBadKey, false, r)
  | Ok _, (REof, v) =>
      if (0 <=? size) && negb (len (b_data b) =? size) then (Err ErrIncompleteBody, v, r)
      else if negb ow && bool_decide (is_Some (r !! k)) then (Err ErrExists, v, r)
      else (Ok (mkObjectInfo k (len (b_data b)) "" 0), v, <[k := b_data b]> r)
  | Ok _, (_, v) => (Err ErrIncompleteBody, v, r)
  end.

#[export] Instance bucket_store : ObjectStore bucket unit := {|
  Put _ := bucket_put;
  GetObject _ k offset length r :=
    match r !! k with
    | Some full =>
        if (0 <=? offset) && (offset <=? len full) then Ok (range_of full offset length, mkObjectInfo k (len full) "" 0) else Err ErrRange
    | None => Err Object.ErrNotFound
    end;
  Head _ k r := match r !! k with Some full => Ok (mkObjectInfo k (len full) "" 0) | None => Err Object.ErrNotFound end;
  List _ prefix after max r :=
    Ok ((fun k => mkObjectInfo k (len (default "" (r !! k))) "" 0) <$> take (Z.to_nat max) (page_spec r prefix after),
        bool_decide (Z.to_nat max < length (page_spec r prefix after))%nat);
  Delete _ k r := match r !! k with Some _ => (Ok tt, delete k r) | None => (Err Object.ErrNotFound, r) end;
  view r := r
|}.

Lemma bucket_put_cases k b size ow r res v r' :
  bucket_put k b size ow r = (res, v, r') ->
  (r' = r /\ is_ok res = false /\ (res = Err ErrExists -> ow = false /\ is_Some (r !! k)))
  \/ (res = Ok (mkObjectInfo k (len (b_data b)) "" 0) /\ r' = <[k := b_data b]> r /\ checkKey k = Ok tt
      /\ at_end b = (REof, v) /\ (0 <= size -> len (b_data b) = size) /\ (ow = false -> r !! k = None)).
Proof.
  unfold bucket_put. destruct (checkKey k) as [[]|]; [|by intros [= <- <- <-]; left].
  destruct (at_end b) as [[]]; [|by intros [= <- <- <-]; left..].
  destruct (_ && negb (_ =? _)) eqn:Es; [by intros [= <- <- <-]; left|].
  destruct (negb ow && _) eqn:Ex; intros [= <- <- <-]; [left; split_and!; [done..|]|right; split_and!; [done..| |]].
  - intros _. destruct ow; [done|]. cbn in Ex. apply bool_decide_eq_true in Ex. done.
  - intros Hz. destruct (Z.leb_spec 0 size); [|lia]. destruct (Z.eqb_spec (len (b_data b)) size); [done|done].
  - intros ->. cbn in Ex. apply bool_decide_eq_false in Ex. by apply eq_None_not_Some.
Qed.

#[export] Instance bucket_laws : ObjectStoreLaws bucket unit.
Proof.
  assert (forall b v want, at_end b = (REof, v) -> b_md5 b = Some want -> v = true /\ md5 (bytes (b_data b)) = want) as Hmd5.
  { intros b v want. unfold at_end. destruct (b_fail b); [done|]. destruct (b_md5 b); [|done].
    case_bool_decide; [|done]. by intros [= <-] [= <-]. }
  split; cbn [Put GetObject Head List Delete view bucket_store].
  - intros _ k b size ow r res v r' [(-> & _)|(_ & -> & _)]%bucket_put_cases k' Hk; [done|by rewrite lookup_insert_ne].
  - intros _ k b size r res v r' d [(-> & _)|(_ & _ & _ & _ & _ & Hn)]%bucket_put_cases Hd; [done|]. by rewrite Hn in Hd.
  - intros _ k b size r res v r' d [(_ & ? & _)|(_ & _ & _ & _ & _ & Hn)]%bucket_put_cases Hd; [done|]. by rewrite Hn in Hd.
  - intros _ k b size ow r info v r' [(_ & ? & _)|([= ->] & -> & Hc & Ha & Hs & _)]%bucket_put_cases; [done|].
    split_and!; [done|by rewrite lookup_insert_eq|done|done|]. intros want. by apply Hmd5.
  - intros _ k b size r res v r' d [(-> & _)|(_ & -> & _ & Ha & _)]%bucket_put_cases Hn Hd; [by rewrite Hn in Hd|].
    rewrite lookup_insert_eq in Hd. injection Hd as <-. split; [done|]. intros want Hw. by eapply Hmd5 in Hw as [_ ?].
  - intros _ k offset length r d info. destruct (r !! k) as [full|]; [|done]. destruct (_ && _) eqn:E; [|done].
    intros [= <- <-]. bool_to_prop. exists full. split_and!; try done; lia.
  - intros _ k r info. destruct (r !! k) as [full|]; [|done]. intros [= <-]. by exists full.
  - intros _ prefix after max r objs more x [= <- _] (k & -> & Hk)%list_elem_of_fmap.
    apply subseteq_take, elem_of_page_spec in Hk as ([d Hd] & Hp & Ha). cbn. rewrite Hd. eauto.
  - intros _ k r res r'. destruct (r !! k); intros [= <- <-] k' Hk; [by rewrite lookup_delete_ne|done].
  - intros _ k r r'. destruct (r !! k); [|done]. intros [= <-]. eauto.
  - intros _ k r e r'. destruct (r !! k); [done|]. intros [= <- <-]. by left.
Qed.

#[export] Instance bucket_mirror : MirrorBucket bucket unit.
Proof.
  split; cbn [Put List view bucket_store].
  - intros _ k b size ow r v r' [(-> & _ & [-> [c Hc]]%(fun f => f eq_refl))|(? & _)]%bucket_put_cases; [|done].
    split; [done|]. exists c. split; [done|]. congruence.
  - intros _ device r after objs more [= <- <-]. split; [|done]. rewrite <- list_fmap_compose. apply list_fmap_id.
Qed.

(** ** A run: one object to upload, one to hide *)

Definition sample_target : Target :=
  mkTarget 1 "home" "hosted" "disk" "/srv" "s3" "bucket" "eu" [] (Some 0) None.
Definition sample_oracle : mirror_oracle env unit :=
  mkMirrorOracle env unit (fun _ => LocalFacts.calm 9 "R") (fun _ => tt) (fun _ => Executed) (fun _ => false) (fun _ => None).
Definition sample_run : run bucket :=
  mkRun 0 {["dev1/p02" := "old"]} (mkMirrorDb [] {["dev1"]} ∅) 0 0 0 0 [].
Definition sample_walk : option (option mirror_error * run bucket) :=
  walk sample_oracle 25 50 Hour (fun _ => sample_local) sample_target true true 3 "home" sample_run.

Lemma mirror_keeps_live_witness :
  match sample_walk with
  | Some (None, m') => view (m_remote m') !! "dev1/p01" = Some "hello"
  | _ => False
  end.
Proof.
  assert (match sample_walk with Some (None, m') => m_errs m' = [] | _ => False end) as Hclean by (by vm_compute).
  destruct sample_walk as [[[e|] m']|] eqn:E; [done| |done]. unfold sample_walk in E.
  destruct (mirror_keeps_live sample_oracle 25 50 Hour (fun _ => sample_local) sample_target true true 3 "home"
    "dev1" "p01" "hello" sample_run None m') as [_ H].
  - by intros t.
  - intros _. apply sample_local_good.
  - intros _. apply sample_layout.
  - done.
  - by vm_compute.
  - intros _. by vm_compute.
  - exact E.
  - exact (H eq_refl Hclean).
Defined.

Lemma mirror_walk_ends_witness : is_Some sample_walk.
Proof.
  apply (mirror_walk_ends sample_oracle 25 50 Hour (fun _ => sample_local) sample_target true true {["dev1/p01"]}).
  - intros _. apply (bool_decide_unpack _). by vm_compute.
  - vm_compute. lia.
Defined.

Definition sample_objs : list ObjectInfo := [mkObjectInfo "dev1/p01" 5 "" 7].
Definition sample_pass : option (run bucket) :=
  device_pass sample_oracle 25 50 Hour (fun _ => sample_local) sample_target true true 3 "home" "dev1" sample_objs sample_run.
Definition sample_record : pass_record :=
  mkPass 1 "dev1" Hour (lost_keys (m_remote sample_run) (m_remote (default sample_run sample_pass)))
    (hide_limit 25 50 (device_keys "dev1" (m_remote sample_run))).

Lemma hides_within_guard_witness :
  pr_lost sample_record = {["dev1/p02"]}
  /\ lost_since 1 "dev1" (Hour - hideWindow) [sample_record] <= pr_limit sample_record.
Proof.
  assert (pr_lost sample_record = {["dev1/p02"]}) as Hlost by (refine (bool_decide_unpack _ _); by vm_compute).
  split; [exact Hlost|]. assert (match sample_pass with Some _ => true | None => false end = true) as Hpass by (by vm_compute).
  destruct sample_pass as [m'|] eqn:E; [clear Hpass|discriminate Hpass].
  apply (hides_within_guard (L := local) (EL := env) (R := bucket) (ER := unit) [] sample_record [] (db_hides (m_db m'))).
  - assert (sample_record = mkPass (t_ID sample_target) "dev1" Hour (lost_keys (m_remote sample_run) (m_remote m'))
      (hide_limit 25 50 (device_keys "dev1" (m_remote sample_run)))) as -> by (unfold sample_record; by rewrite E).
    eapply (passes_next [] [] [] sample_oracle 25 50 Hour (fun _ => sample_local) sample_target true true 3 "home" "dev1" sample_objs sample_run m');
      [constructor|done|constructor| |exact E].
    intros k. cbn. by intros ->%list_elem_of_singleton.
  - rewrite Hlost. by apply non_empty_singleton_L.
Defined.
