(* ===== verification/PackFormat.v ===== *)
(** * What a pack ends with

    [repo/content/content_index_recovery.go] and the reading side in
    [committed_read_manager.go]: after its contents and padding a pack holds an
    encrypted index of them and a postamble that says where, so that the entries
    can be recovered from the pack alone. *)

From S2P Require Import Prelude GoStrings GoText IndexID IndexTable IndexV1 IndexV2 IndexBuild IndexMergedFacts IndexRoundTrip Gather.
From Stdlib Require Import Sorting.Sorted.
Open Scope go_scope.

(** ** [encoding/binary]: variable-length integers *)

Definition MaxVarintLen64 : Z := 10.

Fixpoint put_uvarint (fuel : nat) (x : Z) : list Z :=
  match fuel with
  | O => []
  | S fuel => if 0x80 <=? x then byte (Z.lor (byte x) 0x80) :: put_uvarint fuel (Z.shiftr x 7) else [byte x]
  end.

Definition PutUvarint (x : Z) : list Z := put_uvarint 10 x.

(** The value and the number of bytes read: zero when there are too few, negative
    when the value is too large. *)
Fixpoint uvarint_loop (buf : list Z) (i x s : Z) : Z * Z :=
  match buf with
  | [] => (0, 0)
  | b :: buf =>
      if i =? MaxVarintLen64 then (0, - (i + 1))
      else if b <? 0x80 then
        if (i =? MaxVarintLen64 - 1) && (1 <? b) then (0, - (i + 1))
        else (Z.lor x (uint64 (Z.shiftl b s)), i + 1)
      else uvarint_loop buf (i + 1) (Z.lor x (uint64 (Z.shiftl (Z.land b 0x7f) s))) (s + 7)
  end.

Definition Uvarint (buf : list Z) : Z * Z := uvarint_loop buf 0 0 0.

(** ** [hash/crc32] *)

Definition crc_bit (c : Z) : Z := if Z.odd c then Z.lxor (Z.shiftr c 1) 0xEDB88320 else Z.shiftr c 1.
Definition crc_byte (c b : Z) : Z := Nat.iter 8 crc_bit (Z.lxor c (byte b)).
Definition ChecksumIEEE (d : list Z) : Z := Z.lxor (foldl crc_byte 0xFFFFFFFF d) 0xFFFFFFFF.

(** ** Hashing and encryption

    The algorithms are third-party code; an encryption draws a nonce. *)
Class Crypter := {
  HashFunc : list Z -> list Z;
  Encrypt : list Z -> list Z -> list Z -> option (list Z);   (* nonce, data, IV *)
  Decrypt : list Z -> list Z -> option (list Z);
  Overhead : Z
}.

Class CrypterLaws `{Crypter} : Prop := {
  decrypt_encrypt nonce d iv e : Encrypt nonce d iv = Some e -> Decrypt e iv = Some d;
  encrypt_size nonce d iv e : Encrypt nonce d iv = Some e -> slen d <= slen e;
  hash_size d : 16 <= slen (HashFunc d) <= MaxHashSize;
  hash_bytes d : Forall (fun b => 0 <= b < 256) (HashFunc d)
}.

Inductive pack_error := PkPostambleTooLong | PkEncrypt | PkIndex (e : index_error) | PkBlob | PkNoPostamble | PkShort | PkBadSection | PkDecrypt.

(** ** The postamble *)

Record packContentPostamble := mkPostamble { localIndexIV : list Z; localIndexOffset : Z; localIndexLength : Z }.

Definition toBytes (p : packContentPostamble) : result pack_error (list Z) :=
  let payload := PutUvarint 1 ++ PutUvarint (slen (localIndexIV p)) ++ localIndexIV p
                 ++ PutUvarint (localIndexOffset p) ++ PutUvarint (localIndexLength p) in
  let buf := payload ++ PutUint32 (ChecksumIEEE payload) in
  let n := slen buf in
  if 255 <? n then Err PkPostambleTooLong else Ok (buf ++ [byte n]).

Definition decodePostamble (payload : list Z) : option packContentPostamble :=
  let '(flags, n) := Uvarint payload in
  if (n <=? 0) || negb (flags =? 1) then None
  else
    let payload := drop (Z.to_nat n) payload in
    let '(ivLength, n) := Uvarint payload in
    if n <=? 0 then None
    else
      let payload := drop (Z.to_nat n) payload in
      if slen payload <? ivLength then None
      else
        let iv := take (Z.to_nat ivLength) payload in
        let payload := drop (Z.to_nat ivLength) payload in
        let '(off, n) := Uvarint payload in
        if n <=? 0 then None
        else
          let payload := drop (Z.to_nat n) payload in
          let '(length, n) := Uvarint payload in
          if n <=? 0 then None else Some (mkPostamble iv (uint32 off) (uint32 length)).

Definition findPostamble (b : list Z) : option packContentPostamble :=
  match last b with
  | None => None
  | Some postambleLength =>
      if postambleLength <? 5 then None
      else
        let postambleStart := slen b - 1 - postambleLength in
        if postambleStart <? 0 then None
        else
          let postambleBytes := slice b postambleStart (slen b - 1) in
          let n := slen postambleBytes - 4 in
          let payload := slice postambleBytes 0 n in
          let checksum := decodeBigEndianUint32 (drop (Z.to_nat n) postambleBytes) in
          if checksum =? ChecksumIEEE payload then decodePostamble payload else None
  end.

(** ** Writing and reading the local index *)

Section Pack.
Context `{Crypter}.

(** [appendPackFileIndexRecoveryData]; [suffix] is what the build of the index
    draws and [nonce] what the encryption does. *)
Definition appendPackFileIndexRecoveryData (version : Z) (pending : Builder) (suffix : option (list Z)) (nonce : list Z) (output : list Z)
  : result pack_error (list Z) :=
  match Build pending version suffix with
  | Err e => Err (PkIndex e)
  | Ok localIndex =>
      let iv := HashFunc localIndex in
      match Encrypt nonce localIndex iv with
      | None => Err PkEncrypt
      | Some encrypted =>
          let! postamble := toBytes (mkPostamble iv (uint32 (slen output)) (uint32 (slen encrypted))) in
          Ok (output ++ encrypted ++ postamble)
      end
  end.

(** [GetBlob] of a range: from a blob that holds it, all of it when [length] is
    negative. *)
Definition get_range (blob : list Z) (offset length : Z) : option (list Z) :=
  if offset <? 0 then None
  else if length <? 0 then if offset =? 0 then Some blob else None
  else if slen blob <? offset + length then None else Some (slice blob offset (offset + length)).

(** [attemptReadPackFileLocalIndex] *)
Definition attemptReadPackFileLocalIndex (blob : list Z) (offset length : Z) : result pack_error (list Z) :=
  match get_range blob offset length with
  | None => Err PkBlob
  | Some payload =>
      match findPostamble payload with
      | None => Err PkNoPostamble
      | Some p =>
          if localIndexOffset p <? uint32 offset then Err PkShort
          else
            let off := uint32 (localIndexOffset p - uint32 offset) in
            if slen payload <? uint32 (off + localIndexLength p) then Err PkBadSection
            else match AppendSectionTo (FromSlice payload) off (localIndexLength p) with
                 | Err _ => Err PkBadSection
                 | Ok encrypted => match Decrypt encrypted (localIndexIV p) with Some d => Ok d | None => Err PkDecrypt end
                 end
      end
  end.

Definition indexRecoverPostambleSize : Z := 8192.

(** [readPackFileLocalIndex]: the end of the pack first, then all of it. *)
Definition readPackFileLocalIndex (blob : list Z) (packFileLength : Z) : result pack_error (list Z) :=
  let full := attemptReadPackFileLocalIndex blob 0 (-1) in
  if indexRecoverPostambleSize <=? packFileLength then
    match attemptReadPackFileLocalIndex blob (packFileLength - indexRecoverPostambleSize) indexRecoverPostambleSize with
    | Ok d => Ok d
    | Err _ => full
    end
  else full.

(** [RecoverIndexFromPackBlob] on the blob's bytes: the entries recovered, also
    when the iteration failed half-way, the error, and the index builder, to which
    they are added if they are to be committed. *)
Definition RecoverIndexFromPackBlob (blob : list Z) (packFileLength : Z) (commit : bool) (packIndexBuilder : Builder)
    : list Info * option pack_error * Builder :=
  match readPackFileLocalIndex blob packFileLength with
  | Err e => ([], Some e, packIndexBuilder)
  | Ok d =>
      match Open d Overhead with
      | Err e => ([], Some (PkIndex e), packIndexBuilder)
      | Ok ndx =>
          let '(res, _, recovered) := Iterate (E := unit) ndx AllIDs (fun i s => (None, s ++ [i])) [] in
          (recovered,
           match res with Ok _ => None | Err (IndexErr e) => Some (PkIndex e) | Err (CallbackErr _) => Some PkBlob end,
           if commit then foldl Add packIndexBuilder recovered else packIndexBuilder)
      end
  end.
End Pack.

Example crc_check : ChecksumIEEE (bytes "123456789") = 0xCBF43926.
Proof. by vm_compute. Qed.

Example postamble_round_trip :
  exists b, toBytes (mkPostamble [1; 2; 3] 70000 300) = Ok b /\ findPostamble (repeat 9 100 ++ b) = Some (mkPostamble [1; 2; 3] 70000 300).
Proof. eexists. split; [by vm_compute|by vm_compute]. Qed.

(** * Recovering an index from its pack

    The postamble reads back, and from any pack the manager writes the entries of
    its contents are recovered, by the optimised read of its end or by the full
    one. *)

(** ** Variable-length integers *)

Lemma byte_small v : 0 <= v < 256 -> byte v = v.
Proof. intros. unfold byte. by rewrite Z.mod_small. Qed.

Lemma continued x : 0 <= x -> byte (Z.lor (byte x) 0x80) = x `mod` 128 + 128.
Proof.
  intros Hx. assert (Z.lor (byte x) 0x80 = x `mod` 128 + 128) as ->.
  { unfold byte. apply Z.bits_inj'. intros n Hn. rewrite Z.lor_spec.
    replace (x `mod` 128 + 128) with (Z.lor 128 (x `mod` 128)).
    2: { rewrite (lor_add _ _ 7); [lia|lia|lia_div|by exists 1]. }
    rewrite Z.lor_spec. change 256 with (2 ^ 8). change 128 with (2 ^ 7) at 3.
    destruct (Z.lt_ge_cases n 7).
    - rewrite !Z.mod_pow2_bits_low by lia. apply orb_comm.
    - rewrite (Z.mod_pow2_bits_high x 7) by lia. destruct (Z.eq_dec n 7) as [->|].
      + by rewrite orb_true_r.
      + rewrite Z.mod_pow2_bits_high by lia. cbn. change 0x80 with (2 ^ 7). rewrite Z.pow2_bits_false by lia. done. }
  apply byte_small. lia_div.
Qed.

Lemma put_uvarint_step fuel x : put_uvarint (S fuel) x = if 0x80 <=? x then byte (Z.lor (byte x) 0x80) :: put_uvarint fuel (Z.shiftr x 7) else [byte x].
Proof. done. Qed.

Lemma uvarint_rest n : forall i x acc rest,
  (n <= 10)%nat -> i = 10 - Z.of_nat n -> (0 < n)%nat -> 0 <= acc < 2 ^ (7 * i) -> 0 <= x -> acc + x * 2 ^ (7 * i) < 2 ^ 64 ->
  uvarint_loop (put_uvarint n x ++ rest) i acc (7 * i) = (acc + x * 2 ^ (7 * i), i + slen (put_uvarint n x)).
Proof.
  induction n as [|n IH]; intros i x acc rest Hn Hi H0 Ha Hx Hb; [lia|]. rewrite put_uvarint_step.
  assert (0 < 2 ^ (7 * i)) as Hp by (apply Z.pow_pos_nonneg; lia).
  assert (forall y, 0 <= y -> acc + y * 2 ^ (7 * i) < 2 ^ 64 -> Z.lor acc (uint64 (Z.shiftl y (7 * i))) = acc + y * 2 ^ (7 * i)) as Hlor.
  { intros y Hy Hle. rewrite Z.shiftl_mul_pow2 by lia. unfold uint64. rewrite Z.mod_small by lia. rewrite Z.lor_comm.
    rewrite (lor_add _ _ (7 * i)); [lia|lia|lia|]. by exists y. }
  assert (acc + x * 2 ^ (7 * i) < 2 ^ 64) as Hb' by done.
  destruct (Z.leb_spec 0x80 x) as [Hbig|Hsmall].
  - cbn [app uvarint_loop]. unfold MaxVarintLen64. destruct (Z.eqb_spec i 10); [lia|].
    rewrite continued by done. assert (0 <= x `mod` 128 < 128) by lia_div.
    destruct (Z.ltb_spec (x `mod` 128 + 128) 0x80); [lia|].
    assert (Z.land (x `mod` 128 + 128) 0x7f = x `mod` 128) as ->.
    { change 0x7f with (Z.ones 7). rewrite Z.land_ones by lia. change (2 ^ 7) with 128. lia_div. }
    assert (x = 128 * Z.shiftr x 7 + x `mod` 128) as Hsplit.
    { rewrite Z.shiftr_div_pow2 by lia. change (2 ^ 7) with 128. lia_div. }
    assert (0 <= Z.shiftr x 7) by (apply Z.shiftr_nonneg; lia).
    assert (2 ^ (7 * (i + 1)) = 128 * 2 ^ (7 * i)) as Hpow.
    { replace (7 * (i + 1)) with (7 + 7 * i) by lia. rewrite Z.pow_add_r by lia. done. }
    destruct n as [|n].
    { exfalso. assert (i = 9) as -> by lia. change (2 ^ (7 * 9)) with (2 ^ 63) in Hb. lia. }
    rewrite Hlor by nia. replace (7 * i + 7) with (7 * (i + 1)) by lia.
    rewrite IH; [|lia|lia|lia|rewrite Hpow; nia|done|rewrite Hpow; nia].
    f_equal; [rewrite Hpow; nia|]. unfold slen. cbn [length]. lia.
  - cbn [app uvarint_loop]. unfold MaxVarintLen64. destruct (Z.eqb_spec i 10); [lia|].
    rewrite (byte_small x) by lia. destruct (Z.ltb_spec x 0x80); [|lia].
    assert ((i =? 10 - 1) && (1 <? x) = false) as ->.
    { apply andb_false_iff. destruct (Z.eqb_spec i (10 - 1)) as [->|]; [right|by left].
      destruct (Z.ltb_spec 1 x); [|done]. change (2 ^ (7 * (10 - 1))) with (2 ^ 63) in Hb. lia. }
    rewrite Hlor by done. f_equal.
Qed.

(** An integer reads back, whatever follows. *)
Lemma Uvarint_PutUvarint x rest : 0 <= x < 2 ^ 64 -> Uvarint (PutUvarint x ++ rest) = (x, slen (PutUvarint x)).
Proof. intros Hx. unfold Uvarint, PutUvarint. change 0 with (7 * 0) at 3. rewrite uvarint_rest; [|lia..]. f_equal; lia. Qed.

Lemma PutUvarint_short x : 0 <= x < 2 ^ 32 -> 1 <= slen (PutUvarint x) <= 5.
Proof.
  intros Hx. unfold PutUvarint.
  assert (forall n m x, 0 <= x < 2 ^ (7 * Z.of_nat m) -> (0 < m <= n)%nat -> 1 <= slen (put_uvarint n x) <= Z.of_nat m) as Hlen.
  { clear. induction n as [|n IH]; intros m x Hx Hm; [lia|]. rewrite put_uvarint_step.
    destruct (Z.leb_spec 0x80 x); [|unfold slen; cbn; lia].
    destruct m as [|[|m]]; [lia|cbn in Hx; lia|].
    assert (0 <= Z.shiftr x 7 < 2 ^ (7 * Z.of_nat (S m))) as Hs.
    { rewrite Z.shiftr_div_pow2 by lia. replace (7 * Z.of_nat (S (S m))) with (7 + 7 * Z.of_nat (S m)) in Hx by lia.
      rewrite Z.pow_add_r in Hx by lia. split; [apply Z.div_pos; lia|]. apply Z.div_lt_upper_bound; lia. }
    specialize (IH (S m) (Z.shiftr x 7) Hs ltac:(lia)). unfold slen in *. cbn [length]. lia. }
  apply (Hlen 10%nat 5%nat x); [|lia]. split; [lia|]. apply Z.lt_le_trans with (2 ^ 32); [lia|]. by vm_compute.
Qed.

(** ** Checksums *)

Lemma lxor_range n a b : 0 <= n -> 0 <= a < 2 ^ n -> 0 <= b < 2 ^ n -> 0 <= Z.lxor a b < 2 ^ n.
Proof.
  intros Hn Ha Hb. assert (Z.lxor a b = Z.lxor a b `mod` 2 ^ n) as ->; [|apply Z.mod_pos_bound; lia].
  apply Z.bits_inj'. intros m Hm. destruct (Z.lt_ge_cases m n); [by rewrite Z.mod_pow2_bits_low by lia|].
  rewrite Z.mod_pow2_bits_high by lia. rewrite Z.lxor_spec.
  rewrite <- (Z.mod_small a (2 ^ n)), <- (Z.mod_small b (2 ^ n)) by lia. by rewrite !Z.mod_pow2_bits_high by lia.
Qed.

Lemma crc_bit_range c : 0 <= c < 2 ^ 32 -> 0 <= crc_bit c < 2 ^ 32.
Proof.
  intros Hc. unfold crc_bit. assert (0 <= Z.shiftr c 1 < 2 ^ 32) by (rewrite Z.shiftr_div_pow2 by lia; change (2 ^ 1) with 2; lia_div).
  destruct (Z.odd c); [|done]. by apply (lxor_range 32).
Qed.

Lemma crc_byte_range c b : 0 <= c < 2 ^ 32 -> 0 <= crc_byte c b < 2 ^ 32.
Proof.
  intros Hc. unfold crc_byte. assert (0 <= Z.lxor c (byte b) < 2 ^ 32) as H.
  { apply (lxor_range 32); [done|done|]. pose proof (byte_range b). lia. }
  revert H. generalize (Z.lxor c (byte b)). generalize 8%nat. intros n. induction n as [|n IH]; intros v Hv; [done|].
  cbn [Nat.iter]. apply crc_bit_range. by apply IH.
Qed.

Lemma checksum_range d : 0 <= ChecksumIEEE d < 2 ^ 32.
Proof.
  unfold ChecksumIEEE. apply (lxor_range 32); [done| |done].
  assert (0 <= 0xFFFFFFFF < 2 ^ 32) as H by done. revert H. generalize 0xFFFFFFFF.
  induction d as [|b d IH]; intros c Hc; [done|]. cbn [foldl]. apply IH. by apply crc_byte_range.
Qed.

(** ** The postamble reads back *)

Definition postamble_ok (p : packContentPostamble) : Prop :=
  slen (localIndexIV p) <= 32 /\ 0 <= localIndexOffset p < 2 ^ 32 /\ 0 <= localIndexLength p < 2 ^ 32.

Lemma drop_front (a b : list Z) : drop (Z.to_nat (slen a)) (a ++ b) = b.
Proof. unfold slen. rewrite Nat2Z.id. apply drop_app_length. Qed.

Lemma take_front (a b : list Z) : take (Z.to_nat (slen a)) (a ++ b) = a.
Proof. unfold slen. rewrite Nat2Z.id. apply take_app_length. Qed.

Lemma slice_at (a b c : list Z) : slice (a ++ b ++ c) (slen a) (slen a + slen b) = b.
Proof. unfold slice. replace (slen a + slen b - slen a) with (slen b) by lia. by rewrite drop_front, take_front. Qed.

Lemma decode_encoded p :
  postamble_ok p ->
  decodePostamble (PutUvarint 1 ++ PutUvarint (slen (localIndexIV p)) ++ localIndexIV p
                   ++ PutUvarint (localIndexOffset p) ++ PutUvarint (localIndexLength p)) = Some p.
Proof.
  destruct p as [iv off len]. intros (Hiv & Ho & Hl). cbn [localIndexIV localIndexOffset localIndexLength] in *.
  pose proof (slen_nonneg iv). unfold decodePostamble.
  rewrite Uvarint_PutUvarint by lia. pose proof (PutUvarint_short 1 ltac:(lia)).
  destruct (Z.leb_spec (slen (PutUvarint 1)) 0); [lia|]. cbn [orb negb Z.eqb Pos.eqb]. rewrite drop_front.
  rewrite Uvarint_PutUvarint by lia. pose proof (PutUvarint_short (slen iv) ltac:(lia)).
  destruct (Z.leb_spec (slen (PutUvarint (slen iv))) 0); [lia|]. rewrite drop_front.
  destruct (Z.ltb_spec (slen (iv ++ PutUvarint off ++ PutUvarint len)) (slen iv)) as [Hlt|_].
  { rewrite slen_app in Hlt. pose proof (slen_nonneg (PutUvarint off ++ PutUvarint len)). lia. }
  rewrite take_front, drop_front. rewrite Uvarint_PutUvarint by lia. pose proof (PutUvarint_short off Ho).
  destruct (Z.leb_spec (slen (PutUvarint off)) 0); [lia|]. rewrite drop_front.
  rewrite <- (app_nil_r (PutUvarint len)). rewrite Uvarint_PutUvarint by lia. pose proof (PutUvarint_short len Hl).
  destruct (Z.leb_spec (slen (PutUvarint len)) 0); [lia|]. unfold uint32. by rewrite !Z.mod_small by lia.
Qed.

(** The postamble of a well-formed record, found at the end of anything. *)
Lemma postamble_found p : postamble_ok p ->
  exists b, toBytes p = Ok b /\ slen b <= 256 /\ forall pre, findPostamble (pre ++ b) = Some p.
Proof.
  intros Hok. unfold toBytes.
  set (payload := PutUvarint 1 ++ PutUvarint (slen (localIndexIV p)) ++ localIndexIV p
                  ++ PutUvarint (localIndexOffset p) ++ PutUvarint (localIndexLength p)).
  set (crc := PutUint32 (ChecksumIEEE payload)).
  assert (2 <= slen payload <= 60) as Hpl.
  { destruct Hok as (Hiv & Ho & Hl). pose proof (slen_nonneg (localIndexIV p)). subst payload. rewrite !slen_app.
    pose proof (PutUvarint_short 1 ltac:(lia)). pose proof (PutUvarint_short (slen (localIndexIV p)) ltac:(lia)).
    pose proof (PutUvarint_short (localIndexOffset p) Ho). pose proof (PutUvarint_short (localIndexLength p) Hl). lia. }
  assert (slen crc = 4) as Hcrc by apply slen_PutUint32. assert (forall x : Z, slen [x] = 1) as Hone by done.
  rewrite slen_app, Hcrc. destruct (Z.ltb_spec 255 (slen payload + 4)); [lia|].
  eexists. split; [done|]. split; [rewrite !slen_app, Hcrc, Hone; lia|].
  intros pre. unfold findPostamble. rewrite app_assoc, last_snoc. rewrite byte_small by lia.
  destruct (Z.ltb_spec (slen payload + 4) 5); [lia|].
  assert (slen ((pre ++ payload ++ crc) ++ [slen payload + 4]) = slen pre + slen payload + 4 + 1) as Htot.
  { rewrite !slen_app, Hcrc, Hone. lia. }
  rewrite Htot. replace (slen pre + slen payload + 4 + 1 - 1 - (slen payload + 4)) with (slen pre) by lia.
  pose proof (slen_nonneg pre). destruct (Z.ltb_spec (slen pre) 0); [lia|].
  assert (slice ((pre ++ payload ++ crc) ++ [slen payload + 4]) (slen pre) (slen pre + slen payload + 4 + 1 - 1) = payload ++ crc) as ->.
  { rewrite <- app_assoc. replace (slen pre + slen payload + 4 + 1 - 1) with (slen pre + slen (payload ++ crc)).
    - apply slice_at.
    - rewrite slen_app, Hcrc. lia. }
  replace (slen (payload ++ crc) - 4) with (slen payload) by (rewrite slen_app, Hcrc; lia).
  rewrite slice_0, take_front, drop_front.
  assert (decodeBigEndianUint32 crc = ChecksumIEEE payload) as ->.
  { subst crc. rewrite <- (app_nil_r (PutUint32 _)). apply decode_PutUint32, checksum_range. }
  rewrite Z.eqb_refl. by apply decode_encoded.
Qed.

(** ** Recovery *)

Section Recovery.
Context `{CrypterLaws}.

(** A pack as it is written: what it held, the encrypted index and where it is. *)
Lemma recovery_data version pending suffix nonce output full :
  appendPackFileIndexRecoveryData version pending suffix nonce output = Ok full -> slen full < 2 ^ 32 ->
  exists localIndex enc pb, Build pending version suffix = Ok localIndex
    /\ Encrypt nonce localIndex (HashFunc localIndex) = Some enc
    /\ full = output ++ enc ++ pb /\ slen pb <= 256
    /\ forall pre, findPostamble (pre ++ pb) = Some (mkPostamble (HashFunc localIndex) (slen output) (slen enc)).
Proof.
  unfold appendPackFileIndexRecoveryData. destruct (Build pending version suffix) as [localIndex|]; [|done].
  destruct (Encrypt nonce localIndex _) as [enc|] eqn:HE; [|done]. intros HA Hsize.
  destruct (toBytes _) as [pb|] eqn:HT; [|done]. injection HA as <-. rewrite !slen_app in Hsize.
  pose proof (slen_nonneg output). pose proof (slen_nonneg enc). pose proof (slen_nonneg pb).
  unfold uint32 in HT. rewrite !Z.mod_small in HT by lia.
  destruct (postamble_found (mkPostamble (HashFunc localIndex) (slen output) (slen enc))) as (b & Hb & Hle & Hfind).
  { pose proof (hash_size localIndex). unfold MaxHashSize in *. split_and!; cbn; lia. }
  rewrite HT in Hb. injection Hb as <-. by exists localIndex, enc, pb.
Qed.

(** Reading from [offset] on finds the index, unless it starts before. *)
Lemma attempt_reads localIndex enc pb output nonce offset length :
  Encrypt nonce localIndex (HashFunc localIndex) = Some enc ->
  (forall pre, findPostamble (pre ++ pb) = Some (mkPostamble (HashFunc localIndex) (slen output) (slen enc))) ->
  slen (output ++ enc ++ pb) < 2 ^ 32 -> 0 <= offset <= slen (output ++ enc) ->
  get_range (output ++ enc ++ pb) offset length = Some (drop (Z.to_nat offset) (output ++ enc ++ pb)) ->
  attemptReadPackFileLocalIndex (output ++ enc ++ pb) offset length
  = if slen output <? offset then Err PkShort else Ok localIndex.
Proof.
  intros HE Hfind Hsize Ho Hget. unfold attemptReadPackFileLocalIndex. rewrite Hget.
  assert (drop (Z.to_nat offset) (output ++ enc ++ pb) = drop (Z.to_nat offset) (output ++ enc) ++ pb) as ->.
  { rewrite app_assoc. apply drop_app_le. unfold slen in Ho. lia. }
  rewrite Hfind. cbn [localIndexOffset localIndexLength localIndexIV]. rewrite !slen_app in Hsize. rewrite slen_app in Ho.
  pose proof (slen_nonneg output). pose proof (slen_nonneg enc). pose proof (slen_nonneg pb).
  unfold uint32. rewrite (Z.mod_small offset) by lia. destruct (Z.ltb_spec (slen output) offset); [done|].
  rewrite (Z.mod_small (slen output - offset)), (Z.mod_small (slen output - offset + slen enc)) by lia.
  assert (drop (Z.to_nat offset) (output ++ enc) = drop (Z.to_nat offset) output ++ enc) as ->.
  { apply drop_app_le. unfold slen in *. lia. }
  assert (slen (drop (Z.to_nat offset) output) = slen output - offset) as Hd.
  { unfold slen in *. rewrite length_drop. lia. }
  destruct (Z.ltb_spec (slen ((drop (Z.to_nat offset) output ++ enc) ++ pb)) (slen output - offset + slen enc)) as [Hlt|_].
  { rewrite !slen_app, Hd in Hlt. lia. }
  rewrite section_flat by lia. cbn [concat FromSlice]. rewrite app_nil_r, <- app_assoc, <- Hd, slice_at.
  by rewrite (decrypt_encrypt _ _ _ _ HE).
Qed.

Lemma get_range_end full n : 0 <= n <= slen full -> get_range full (slen full - n) n = Some (drop (Z.to_nat (slen full - n)) full).
Proof.
  intros Hn. unfold get_range. destruct (Z.ltb_spec (slen full - n) 0); [lia|]. destruct (Z.ltb_spec n 0); [lia|].
  destruct (Z.ltb_spec (slen full) (slen full - n + n)); [lia|]. f_equal. unfold slice. apply take_ge. rewrite length_drop. unfold slen. lia.
Qed.

(** The local index reads back with the length of the pack known or not. *)
Lemma local_index_read version pending suffix nonce output full packFileLength :
  appendPackFileIndexRecoveryData version pending suffix nonce output = Ok full -> slen full < 2 ^ 32 ->
  packFileLength = slen full \/ packFileLength = 0 ->
  exists localIndex, Build pending version suffix = Ok localIndex /\ slen localIndex < 2 ^ 32
    /\ readPackFileLocalIndex full packFileLength = Ok localIndex.
Proof.
  intros HA Hsize Hlen. destruct (recovery_data _ _ _ _ _ _ HA Hsize) as (localIndex & enc & pb & HB & HE & -> & Hpb & Hfind).
  exists localIndex. split; [done|]. pose proof (encrypt_size _ _ _ _ HE).
  pose proof Hsize as Hsize'. rewrite !slen_app in Hsize'. pose proof (slen_nonneg output). pose proof (slen_nonneg pb).
  pose proof (slen_nonneg enc). split; [lia|]. unfold readPackFileLocalIndex.
  assert (attemptReadPackFileLocalIndex (output ++ enc ++ pb) 0 (-1) = Ok localIndex) as Hfull.
  { rewrite (attempt_reads localIndex enc pb output nonce) by (done || rewrite ?slen_app; lia).
    destruct (Z.ltb_spec (slen output) 0); [lia|done]. }
  rewrite Hfull. unfold indexRecoverPostambleSize. destruct Hlen as [-> | ->]; [|done].
  destruct (Z.leb_spec 8192 (slen (output ++ enc ++ pb))) as [Hbig|]; [|done].
  pose proof Hbig as Hbig'. rewrite !slen_app in Hbig'.
  rewrite (attempt_reads localIndex enc pb output nonce); [|done|done|done| |].
  - by destruct (_ <? _).
  - rewrite !slen_app. lia.
  - apply get_range_end. lia.
Qed.

(** C16.  An index is recovered from its pack.  Whatever contents a pack holds,
    the data appended to it lets the recovery return exactly their entries, in
    order, from the pack alone: by reading its last 8 KiB when its length is
    known and the index is within them, by reading all of it otherwise; and a
    recovery that commits adds exactly these entries to the index builder. *)
Theorem pack_index_recovered version k (pending : Builder) suffix nonce output full packFileLength commit b :
  well_keyed pending -> (forall i it, pending !! i = Some it -> good_entry version Overhead k it) ->
  appendPackFileIndexRecoveryData version pending suffix nonce output = Ok full -> slen full < 2 ^ 32 ->
  packFileLength = slen full \/ packFileLength = 0 ->
  exists entries, RecoverIndexFromPackBlob full packFileLength commit b = (entries, None, if commit then foldl Add b entries else b)
    /\ StronglySorted id_lt (ContentID <$> entries)
    /\ forall it, it ∈ entries <-> pending !! ContentID it = Some it.
Proof.
  intros Hkey Hgood HA Hsize Hlen.
  destruct (local_index_read _ _ _ _ _ _ _ HA Hsize Hlen) as (localIndex & HB & Hs & HR).
  unfold RecoverIndexFromPackBlob. rewrite HR. unfold Build in HB.
  destruct (buildStable pending version) as [d|] eqn:Hd; [|done]. destruct suffix as [suf|]; [|done]. injection HB as <-.
  destruct (part_contents pending pending version Overhead k Hkey) as (_ & Hl & Hst); [done|done|].
  rewrite slen_app in Hs. pose proof (slen_nonneg suf).
  destruct (Open_built version Overhead _ k d suf Hl Hst Hd) as (x & -> & Hx); [lia|].
  destruct (Iterate_law (E := unit) x _ k AllIDs (fun i s => (None, s ++ [i])) [] Hx) as (x' & _ & ->). cbn zeta.
  destruct (contents_spec pending Hkey) as (Hsort & Hv & Hin).
  rewrite filter_all by (eapply Forall_impl; [exact Hv|]; intros it; apply AllIDs_all).
  rewrite feed_collect. cbn [fst snd app]. eexists. split; [done|]. split; [exact Hsort|exact Hin].
Qed.
End Recovery.

(** ** A pack *)

(** A stand-in for the cryptography: sums as hashes and a byte in front. *)
Definition toy_crypter : Crypter := {|
  HashFunc d := PutUint64 (foldl Z.add (slen d) d) ++ PutUint64 (slen d);
  Encrypt nonce d iv := Some (7 :: d);
  Decrypt e iv := match e with 7 :: d => Some d | _ => None end;
  Overhead := 0
|}.

Lemma toy_laws : @CrypterLaws toy_crypter.
Proof.
  split; cbn [HashFunc Encrypt Decrypt toy_crypter].
  - by intros _ d iv e [= <-].
  - intros _ d iv e [= <-]. unfold slen. cbn [length]. lia.
  - intros d. rewrite slen_app, !slen_PutUint64. unfold MaxHashSize. lia.
  - intros d. unfold PutUint64, PutUint32. repeat (apply Forall_app; split); repeat apply Forall_cons_2; try apply Forall_nil_2; apply byte_range.
Qed.

#[local] Existing Instance toy_crypter.
#[local] Existing Instance toy_laws.

Lemma pack_index_recovered_witness :
  exists full entries, appendPackFileIndexRecoveryData Version2 (foldl Add ∅ ex_adds) (Some [1; 2]) [] (repeat 5 40) = Ok full
    /\ RecoverIndexFromPackBlob full (slen full) true ∅ = (entries, None, foldl Add ∅ entries) /\ ContentID <$> entries = [mkID 0 [1]; mkID 107 [2]].
Proof.
  destruct (appendPackFileIndexRecoveryData Version2 (foldl Add ∅ ex_adds) (Some [1; 2]) [] (repeat 5 40)) as [full|] eqn:E.
  2: { by vm_compute in E. }
  exists full. assert (slen full = 149) as Hlen.
  { assert (match appendPackFileIndexRecoveryData Version2 (foldl Add ∅ ex_adds) (Some [1; 2]) [] (repeat 5 40) with
            | Ok f => slen f =? 149 | Err _ => false end = true) as Hc by (by vm_compute).
    rewrite E in Hc. by apply Z.eqb_eq in Hc. }
  destruct (pack_index_recovered Version2 2 (foldl Add ∅ ex_adds) (Some [1; 2]) [] (repeat 5 40) full (slen full) true ∅) as (entries & HR & Hs & Hin).
  - exact (built_keyed ex_adds Version2 0 2 ex_adds_good).
  - intros i it Hi. by apply (built_entry ex_adds Version2 0 2 ex_adds_good) in Hi as [_ ?].
  - exact E.
  - rewrite Hlen. lia.
  - by left.
  - exists entries. split; [done|]. split; [done|]. assert (match RecoverIndexFromPackBlob (match appendPackFileIndexRecoveryData Version2
      (foldl Add ∅ ex_adds) (Some [1; 2]) [] (repeat 5 40) with Ok f => f | Err _ => [] end) 149 true ∅ with
      (l, _, _) => bool_decide (ContentID <$> l = [mkID 0 [1]; mkID 107 [2]]) end = true) as Hc by (by vm_compute).
    rewrite E, <- Hlen, HR in Hc. by apply bool_decide_eq_true in Hc.
Defined.
