(* ===== verification/ContentStore.v ===== *)
(** * Blob storage under an environment, and blobs encrypted as a whole

    What the content manager of [repo/content] runs on: a blob storage whose
    calls may fail or lose their answer, a clock, a source of random bytes, the
    crypter of the repository's format; [internal/blobcrypto] and the
    [EncryptionManager] of [repo/content/indexblob].

    Everything the code does not determine is drawn from an environment, one
    turn per effect.  The world keeps a history beside the blobs, which no code
    reads: the byte strings hashed for a name, the pack identifiers drawn and the
    indexes combined in memory, so that a theorem can assume of a run that no
    identifier was drawn twice, nothing collided and no index was too large. *)

From S2P Require Import Prelude GoStrings GoText GoTime Db IndexID IndexTable IndexV1 IndexV2 IndexBuild Gather PackFormat.
From Stdlib Require Import Ascii.
Open Scope go_scope.

Inductive content_error :=
| ErrContentNotFound
| ErrBlobNotFound
| ErrStorage
| ErrRandomSource
| ErrParameters
| ErrEncryption
| ErrDecryption
| ErrBlobID
| ErrIndexData (e : index_error)
| ErrPackData (e : pack_error)
| ErrPrefix
| ErrHash
| ErrCompressionNotEnabled
| ErrUnsupportedCompressor
| ErrCompressing
| ErrDecompressing
| ErrKeyID
| ErrNotCached
| ErrTooManyRetries
| ErrClockSkewed
| ErrPanic.

(** ** Code with state and errors

    An error keeps what was done before it. *)
Definition M (S A : Type) : Type := S -> result content_error A * S.

Definition ret {S A} (a : A) : M S A := fun s => (Ok a, s).
Definition fail {S A} (e : content_error) : M S A := fun s => (Err e, s).

Definition bind {S A B} (c : M S A) (k : A -> M S B) : M S B := fun s =>
  match c s with (Ok a, s) => k a s | (Err e, s) => (Err e, s) end.

(** The error of a call as a value. *)
Definition attempt {S A} (c : M S A) : M S (result content_error A) := fun s => let '(r, s) := c s in (Ok r, s).

Definition of_result {S A} (r : result content_error A) : M S A := fun s => (r, s).
Definition gets {S A} (f : S -> A) : M S A := fun s => (Ok (f s), s).
Definition modify {S} (f : S -> S) : M S unit := fun s => (Ok tt, f s).
Definition when {S} (b : bool) (c : M S unit) : M S unit := if b then c else ret tt.

Notation "'let*' x ':=' c 'in' k" := (bind c (fun x => k)) (at level 200, x binder, c at level 100, k at level 200) : go_scope.
Notation "c ;;* k" := (bind c (fun _ => k)) (at level 100, k at level 200, right associativity) : go_scope.

Fixpoint for_each {S A} (l : list A) (body : A -> M S unit) : M S unit :=
  match l with [] => ret tt | x :: l => body x ;;* for_each l body end.

Fixpoint collect {S A B} (l : list A) (body : A -> M S B) : M S (list B) :=
  match l with [] => ret [] | x :: l => let* y := body x in let* ys := collect l body in ret (y :: ys) end.

(** ** The environment *)

Record turn := mkTurn {
  tn_now : Z;                   (* the clock, and the server's *)
  tn_write : fate;              (* what becomes of a write or a deletion *)
  tn_read : bool;               (* a read or a listing succeeds *)
  tn_params : bool;             (* the format's parameters can be had *)
  tn_rand : option (nat -> Z);  (* crypto/rand, byte by byte *)
  tn_swap : bool                (* the order in which a map is iterated *)
}.

Class Environment := turn_at : nat -> turn.

Record blob := mkBlob { bl_data : list Z; bl_time : Z }.

Record Metadata := mkMetadata { md_BlobID : string; md_Length : Z; md_Timestamp : Z }.

(** All but the blobs and the number of the next turn is history. *)
Record world := mkWorld {
  w_blobs : gmap string blob;
  w_tick : nat;
  w_hashed : list (list Z);
  w_drawn : list (list Z);
  w_combined : list (list Z)
}.

Definition set_blobs (w : world) (b : gmap string blob) : world := mkWorld b (w_tick w) (w_hashed w) (w_drawn w) (w_combined w).

Section Storage.
Context `{Environment}.

Definition next_turn : M world turn := fun w =>
  (Ok (turn_at (w_tick w)), mkWorld (w_blobs w) (S (w_tick w)) (w_hashed w) (w_drawn w) (w_combined w)).

Definition timeNow : M world Z := let* t := next_turn in ret (tn_now t).

(** [n] bytes of [crypto/rand]. *)
Definition random_bytes (f : nat -> Z) (n : nat) : list Z := (fun i => byte (f i)) <$> seq 0 n.

Definition cryptorand (n : nat) : M world (list Z) :=
  let* t := next_turn in
  match tn_rand t with Some f => ret (random_bytes f n) | None => fail ErrRandomSource end.

(** The storage interface, [blob.Storage]: a blob is written as a whole or not
    at all, and what was written is read. *)
Definition PutBlob (id : string) (data : list Z) : M world Z :=
  let* t := next_turn in
  fun w => execute ErrStorage (tn_write t) (fun w => (Ok (tn_now t), set_blobs w (<[id := mkBlob data (tn_now t)]> (w_blobs w)))) w.

Definition DeleteBlob (id : string) : M world unit :=
  let* t := next_turn in
  fun w => execute ErrStorage (tn_write t)
    (fun w => match w_blobs w !! id with
              | Some _ => (Ok tt, set_blobs w (delete id (w_blobs w)))
              | None => (Err ErrBlobNotFound, w)
              end) w.

Definition GetBlob (id : string) (offset length : Z) : M world (list Z) :=
  let* t := next_turn in
  if negb (tn_read t) then fail ErrStorage
  else let* blobs := gets w_blobs in
       match blobs !! id with
       | None => fail ErrBlobNotFound
       | Some b => match get_range (bl_data b) offset length with Some d => ret d | None => fail ErrStorage end
       end.

(** [blob.ListAllBlobs] *)
Definition ListAllBlobs (prefix : string) : M world (list Metadata) :=
  let* t := next_turn in
  if negb (tn_read t) then fail ErrStorage
  else let* blobs := gets w_blobs in
       ret ((fun e => mkMetadata e.1 (slen (bl_data e.2)) (bl_time e.2))
              <$> filter (fun e => HasPrefix e.1 prefix = true) (map_to_list blobs)).

(** [blob.PutBlobAndGetMetadata] *)
Definition PutBlobAndGetMetadata (id : string) (data : list Z) : M world Metadata :=
  let* modTime := PutBlob id data in ret (mkMetadata id (slen data) modTime).

(** ** Hashing and encryption *)

Context `{Crypter}.

(** [hashData] *)
Definition hashData (data : list Z) : M world (list Z) := fun w =>
  (Ok (HashFunc data), mkWorld (w_blobs w) (w_tick w) (data :: w_hashed w) (w_drawn w) (w_combined w)).

(** [Encryptor().Encrypt], with a nonce of its own. *)
Definition encrypt (data iv : list Z) : M world (list Z) :=
  let* nonce := cryptorand 12 in
  match Encrypt nonce data iv with Some e => ret e | None => fail ErrEncryption end.

(** [blobcrypto.getIndexBlobIV]: the 32 characters before the first dash. *)
Definition getIndexBlobIV (s : string) : result content_error (list Z) :=
  let s := fst (fst (Cut s "-"%char)) in
  if len s <? 32 then Err ErrBlobID
  else match hex_decode (sdrop (String.length s - 32) s) with Some v => Ok v | None => Err ErrBlobID end.

(** [blobcrypto.Encrypt] *)
Definition blob_Encrypt (payload : list Z) (prefix suffix : string) : M world (string * list Z) :=
  let* hash := hashData payload in
  let id := (prefix ++ hex_encode hash)%string in
  let id := if String.eqb suffix "" then id else (id ++ "-" ++ suffix)%string in
  let* iv := of_result (getIndexBlobIV id) in
  let* e := encrypt payload iv in
  ret (id, e).

(** [blobcrypto.Decrypt] *)
Definition blob_Decrypt (payload : list Z) (id : string) : result content_error (list Z) :=
  let! iv := getIndexBlobIV id in
  match Decrypt payload iv with Some d => Ok d | None => Err ErrDecryption end.

(** [EncryptionManager], without a cache. *)
Definition GetEncryptedBlob (id : string) : M world (list Z) :=
  let* payload := GetBlob id 0 (-1) in
  of_result (blob_Decrypt payload id).

Definition EncryptAndWriteBlob (data : list Z) (prefix suffix : string) : M world Metadata :=
  let* p := blob_Encrypt data prefix suffix in
  PutBlobAndGetMetadata p.1 p.2.
End Storage.
