(* ===== verification/IndexBlobV0.v ===== *)
(** * Sets of index blobs

    [repo/content/indexblob/index_blob_manager_v0.go] and [index_blob.go]: which
    index blobs are active, writing new ones, and compaction.  A compaction
    writes the merged index first, then a log entry that names what it replaces;
    an index blob counts as replaced only while every output of the entry is
    there, and the replaced blobs, the log entries and the cleanup entries are
    deleted later, in that order. *)

From S2P Require Import Prelude GoStrings GoText GoTime Db IndexID IndexTable IndexV1 IndexV2 IndexBuild Json Gather ObjID PackFormat ContentStore.
From Stdlib Require Import Ascii.
Open Scope go_scope.

(** ** Times in JSON: RFC 3339 with nanoseconds, in UTC *)

Fixpoint trim_zeros (l : list Z) : list Z :=
  match l with 48 :: l => trim_zeros l | _ => l end.

(** The fraction of a second, without trailing zeros, if it is not zero. *)
Definition format_fraction (ns : Z) : string :=
  if ns =? 0 then ""%string
  else String "."%char (of_bytes (reverse (trim_zeros (reverse (bytes (pad_left 9 (FormatInt ns))))))).

Definition format_rfc3339 (t : Z) : string :=
  let '(Civil y m d) := date_of t in
  (pad_left 4 (FormatInt y) ++ "-" ++ pad2 m ++ "-" ++ pad2 d ++ "T" ++ hms t ++ format_fraction (t `mod` Second) ++ "Z")%string.

(** [Time.MarshalJSON] fails for a year of more than four digits. *)
Definition json_time (t : Z) : option json :=
  let '(Civil y _ _) := date_of t in
  if between 0 9999 y then Some (JStr (format_rfc3339 t)) else None.

Definition parse_fraction (s : string) : option (Z * string) :=
  match s with
  | String "."%char t =>
      let '(d, r) := digit_run t in
      if String.eqb d "" then None else Some (default 0 (unsigned_int (stake 9 d)) * 10 ^ (9 - len (stake 9 d)), r)
  | _ => Some (0, s)
  end.

(** The zone: Z, or a signed offset of hours and minutes. *)
Definition parse_zone (s : string) : option Z :=
  match s with
  | String "Z"%char EmptyString => Some 0
  | String c s =>
      if Ascii.eqb c "+" || Ascii.eqb c "-" then
        '(h, s) ← take_num 2 s;
        s ← expect ":"%char s;
        '(m, s) ← take_num 2 s;
        if String.eqb s "" && (h <? 24) && (m <? 60)
        then Some ((if Ascii.eqb c "+" then 1 else -1) * (h * 3600 + m * 60)) else None
      else None
  | EmptyString => None
  end.

Definition parse_rfc3339 (s : string) : option Z :=
  '(year, s) ← take_num 4 s;
  s ← expect "-"%char s;
  '(month, s) ← take_num 2 s;
  s ← expect "-"%char s;
  '(day, s) ← take_num 2 s;
  s ← expect "T"%char s;
  '(hour, s) ← take_num 2 s;
  s ← expect ":"%char s;
  '(minute, s) ← take_num 2 s;
  s ← expect ":"%char s;
  '(sec, s) ← take_num 2 s;
  '(ns, s) ← parse_fraction s;
  zone ← parse_zone s;
  if between 1 12 month && between 1 (daysIn month year) day && (hour <? 24) && (minute <? 60) && (sec <? 60)
  then Some ((days_of_civil (Civil year month day) * 86400 + hour * 3600 + minute * 60 + sec - zone) * Second + ns)
  else None.

Definition decode_time (old : Z) (v : json) : option Z :=
  match v with JNull => Some old | JStr s => parse_rfc3339 s | _ => None end.

Example rfc3339_ex :
  format_rfc3339 (1788350400 * Second + 120) = "2026-09-02T12:00:00.00000012Z"%string
  /\ parse_rfc3339 "2026-09-02T12:00:00.00000012Z" = Some (1788350400 * Second + 120)
  /\ parse_rfc3339 "2026-09-02T14:00:00+02:00" = Some (1788350400 * Second)
  /\ parse_rfc3339 "2026-02-29T00:00:00Z" = None
  /\ parse_rfc3339 (format_rfc3339 zero_time) = Some zero_time.
Proof. by vm_compute. Qed.

(** ** Log entries *)

Definition V0IndexBlobPrefix : string := "n".
Definition V0CompactionLogBlobPrefix : string := "m".
Definition V0CleanupBlobPrefix : string := "l".

Definition defaultEventualConsistencySettleTime : Z := Hour.

Record compactionLogEntry := mkLogEntry { InputMetadata : list Metadata; OutputMetadata : list Metadata }.
Record cleanupEntry := mkCleanup { BlobIDs : list string; CleanupScheduleTime : Z }.

Fixpoint mapO {A B} (f : A -> option B) (l : list A) : option (list B) :=
  match l with [] => Some [] | x :: l => y ← f x; ys ← mapO f l; Some (y :: ys) end.

Definition metadata_json (m : Metadata) : option json :=
  t ← json_time (md_Timestamp m);
  Some (JObj [("id", JStr (md_BlobID m)); ("length", JNum (int_literal (md_Length m))); ("timestamp", t)]).

(** A slice that was never appended to is null. *)
Definition json_slice (l : list json) : json := match l with [] => JNull | _ => JArr l end.

(** [json.Marshal] of a log entry *)
Definition marshal_log (e : compactionLogEntry) : option (list Z) :=
  i ← mapO metadata_json (InputMetadata e);
  o ← mapO metadata_json (OutputMetadata e);
  Some (print_json (JObj [("inputMetadata", json_slice i); ("outputMetadata", json_slice o)])).

Definition zero_metadata : Metadata := mkMetadata "" 0 zero_time.

Definition decode_metadata_member (m : Metadata) (p : string * json) : option Metadata :=
  let '(k, v) := p in
  if key_matches "id" k
  then match v with JNull => Some m | JStr s => Some (mkMetadata s (md_Length m) (md_Timestamp m)) | _ => None end
  else if key_matches "length" k then n ← decode_int (md_Length m) v; Some (mkMetadata (md_BlobID m) n (md_Timestamp m))
  else if key_matches "timestamp" k
  then t ← decode_time (md_Timestamp m) v; Some (mkMetadata (md_BlobID m) (md_Length m) t)
  else Some m.

Definition decode_metadata (old : Metadata) (v : json) : option Metadata :=
  match v with
  | JNull => Some old
  | JObj l => fold_members decode_metadata_member old l
  | _ => None
  end.

(** An array is decoded over the elements the slice already has. *)
Fixpoint decode_metadatas (old : list Metadata) (l : list json) : option (list Metadata) :=
  match l with
  | [] => Some []
  | v :: l => e ← decode_metadata (default zero_metadata (head old)) v; r ← decode_metadatas (tail old) l; Some (e :: r)
  end.

Definition decode_slice (old : list Metadata) (v : json) : option (list Metadata) :=
  match v with JNull => Some [] | JArr l => decode_metadatas old l | _ => None end.

Definition decode_log_member (e : compactionLogEntry) (p : string * json) : option compactionLogEntry :=
  let '(k, v) := p in
  if key_matches "inputMetadata" k then i ← decode_slice (InputMetadata e) v; Some (mkLogEntry i (OutputMetadata e))
  else if key_matches "outputMetadata" k then o ← decode_slice (OutputMetadata e) v; Some (mkLogEntry (InputMetadata e) o)
  else Some e.

Definition unmarshal_log (text : list Z) : option compactionLogEntry :=
  v ← json_decode text;
  match v with
  | JNull => Some (mkLogEntry [] [])
  | JObj l => fold_members decode_log_member (mkLogEntry [] []) l
  | _ => None
  end.

Definition marshal_cleanup (e : cleanupEntry) : option (list Z) :=
  t ← json_time (CleanupScheduleTime e);
  Some (print_json (JObj [("blobIDs", json_slice (JStr <$> BlobIDs e)); ("cleanupScheduleTime", t)])).

Fixpoint decode_ids (old : list string) (l : list json) : option (list string) :=
  match l with
  | [] => Some []
  | v :: l =>
      s ← match v with JNull => Some (default ""%string (head old)) | JStr s => Some s | _ => None end;
      r ← decode_ids (tail old) l;
      Some (s :: r)
  end.

Definition decode_cleanup_member (e : cleanupEntry) (p : string * json) : option cleanupEntry :=
  let '(k, v) := p in
  if key_matches "blobIDs" k
  then ids ← match v with JNull => Some [] | JArr l => decode_ids (BlobIDs e) l | _ => None end;
       Some (mkCleanup ids (CleanupScheduleTime e))
  else if key_matches "cleanupScheduleTime" k
  then t ← decode_time (CleanupScheduleTime e) v; Some (mkCleanup (BlobIDs e) t)
  else Some e.

Definition unmarshal_cleanup (text : list Z) : option cleanupEntry :=
  v ← json_decode text;
  match v with
  | JNull => Some (mkCleanup [] zero_time)
  | JObj l => fold_members decode_cleanup_member (mkCleanup [] zero_time) l
  | _ => None
  end.

Example log_ex :
  let m := mkMetadata "n00ff-s1" 1024 (1788350400 * Second) in
  (marshal_log (mkLogEntry [m; m] [m]) ≫= unmarshal_log) = Some (mkLogEntry [m; m] [m])
  /\ (marshal_cleanup (mkCleanup ["m1"; "m2"]%string (1788350400 * Second + 5)) ≫= unmarshal_cleanup)
     = Some (mkCleanup ["m1"; "m2"]%string (1788350400 * Second + 5)).
Proof. by vm_compute. Qed.

(** ** Parameters *)

(** What the content manager uses of the repository's mutable parameters. *)
Class Parameters := {
  mp_Version : Z;
  mp_IndexVersion : Z;
  mp_MaxPackSize : Z
}.

Record CompactOptions := mkCompactOptions {
  MaxSmallBlobs : Z;
  AllIndexes : bool;
  DropDeletedBefore : Z;
  DropContents : list ID;
  DisableEventualConsistencySafety : bool
}.

Definition maxEventualConsistencySettleTime (co : CompactOptions) : Z :=
  if DisableEventualConsistencySafety co then 0 else defaultEventualConsistencySettleTime.

Definition DefaultIndexShardSize : Z := 16000000.
Definition verySmallContentFraction : Z := 20.

(** [Info.Timestamp] *)
Definition info_time (i : Info) : Z := TimestampSeconds i * Second.

(** ** The manager *)

Section ManagerV0.
Context `{Environment} `{Crypter} `{Parameters}.

(** [GetMutableParameters], which may have to read the format again. *)
Definition GetMutableParameters : M world unit :=
  let* t := next_turn in if tn_params t then ret tt else fail ErrParameters.

(** [addBlobsToIndex] *)
Definition addBlobsToIndex (ndx : gmap string Metadata) (blobs : list Metadata) : gmap string Metadata :=
  foldl (fun ndx it => match ndx !! md_BlobID it with
                       | None => <[md_BlobID it := it]> ndx
                       | Some _ => ndx
                       end) ndx blobs.

(** [getCompactionLogEntries]: an entry that is gone is skipped. *)
Fixpoint getCompactionLogEntries (blobs : list Metadata) : M world (list (Metadata * compactionLogEntry)) :=
  match blobs with
  | [] => ret []
  | cb :: blobs =>
      let* r := attempt (GetEncryptedBlob (md_BlobID cb)) in
      match r with
      | Err ErrBlobNotFound => getCompactionLogEntries blobs
      | Err e => fail e
      | Ok data =>
          match unmarshal_log data with
          | None => fail ErrDecryption
          | Some le => let* rest := getCompactionLogEntries blobs in ret ((cb, le) :: rest)
          end
      end
  end.

(** [removeCompactedIndexes]: the inputs of the entries whose outputs are all
    there. *)
Definition have_all_outputs (bimap : gmap string Metadata) (cl : compactionLogEntry) : bool :=
  forallb (fun o => bool_decide (is_Some (bimap !! md_BlobID o))) (OutputMetadata cl).

Definition removeCompactedIndexes (bimap : gmap string Metadata) (logs : list compactionLogEntry) : gmap string Metadata :=
  foldl (fun m cl => foldl (fun m ib => delete (md_BlobID ib) m) m (InputMetadata cl))
    bimap (filter (fun cl => have_all_outputs bimap cl = true) logs).

(** [ListActiveIndexBlobs]; the time before which deletions are forgotten is
    zero. *)
Definition ListActiveIndexBlobs : M world (list Metadata * Z) :=
  let* compactionLogMetadata := ListAllBlobs V0CompactionLogBlobPrefix in
  let* storageIndexBlobs := ListAllBlobs V0IndexBlobPrefix in
  let* logs := getCompactionLogEntries compactionLogMetadata in
  let indexMap := removeCompactedIndexes (addBlobsToIndex ∅ storageIndexBlobs) logs.*2 in
  ret ((map_to_list indexMap).*2, zero_time).

(** [WriteIndexBlobs] *)
Definition WriteIndexBlobs (dataShards : list (list Z)) (suffix : string) : M world (list Metadata) :=
  collect dataShards (fun data => EncryptAndWriteBlob data V0IndexBlobPrefix suffix).

(** [deleteBlobsFromStorageAndCache] *)
Definition deleteBlobs (ids : list string) : M world unit :=
  for_each ids (fun id =>
    let* r := attempt (DeleteBlob id) in
    match r with Ok _ | Err ErrBlobNotFound => ret tt | Err e => fail e end).

(** [blobsOlderThan] *)
Definition blobsOlderThan (m : list Metadata) (cutoffTime : Z) : list Metadata :=
  filter (fun b => After (md_Timestamp b) cutoffTime = false) m.

(** [findIndexBlobsToDelete]: the inputs of the entries old enough, each once. *)
Definition findIndexBlobsToDelete (latest : Z) (entries : list (Metadata * compactionLogEntry)) (settle : Z) : list string :=
  elements (list_to_set (C := gset string)
    (md_BlobID <$> concat (InputMetadata ∘ snd <$> filter (fun e => settle <= Sub latest (md_Timestamp e.1)) entries))).

(** [delayCleanupBlobs] *)
Definition delayCleanupBlobs (ids : list string) (t : Z) : M world unit :=
  match ids with
  | [] => ret tt
  | _ =>
      match marshal_cleanup (mkCleanup ids t) with
      | None => fail ErrDecryption
      | Some payload => EncryptAndWriteBlob payload V0CleanupBlobPrefix "" ;;* ret tt
      end
  end.

(** [deleteOldBlobs]: index blobs before compaction logs, which would otherwise
    be found without them. *)
Definition deleteOldBlobs (latestBlob : Metadata) (settle : Z) : M world unit :=
  let* allCompactionLogBlobs := ListAllBlobs V0CompactionLogBlobPrefix in
  let cutoff := md_Timestamp latestBlob - settle in
  let compactionBlobs := blobsOlderThan allCompactionLogBlobs cutoff in
  let* entries := getCompactionLogEntries compactionBlobs in
  deleteBlobs (findIndexBlobsToDelete (md_Timestamp latestBlob) entries settle) ;;*
  delayCleanupBlobs (md_BlobID <$> compactionBlobs) (md_Timestamp latestBlob).

(** [registerCompaction] *)
Definition registerCompaction (inputs outputs : list Metadata) (settle : Z) : M world unit :=
  match marshal_log (mkLogEntry inputs outputs) with
  | None => fail ErrDecryption
  | Some logEntryBytes =>
      let* m := EncryptAndWriteBlob logEntryBytes V0CompactionLogBlobPrefix "" in
      deleteOldBlobs m settle
  end.

(** [getCleanupEntries], with the age of each. *)
Fixpoint getCleanupEntries (latest : Z) (blobs : list Metadata) : M world (list (string * cleanupEntry * Z)) :=
  match blobs with
  | [] => ret []
  | cb :: blobs =>
      let* r := attempt (GetEncryptedBlob (md_BlobID cb)) in
      match r with
      | Err ErrBlobNotFound => getCleanupEntries latest blobs
      | Err e => fail e
      | Ok data =>
          match unmarshal_cleanup data with
          | None => fail ErrDecryption
          | Some le =>
              let* rest := getCleanupEntries latest blobs in
              ret ((md_BlobID cb, le, Sub latest (CleanupScheduleTime le)) :: rest)
          end
      end
  end.

(** [cleanup]: log entries whose cleanup was scheduled long enough ago, then the
    cleanup entries. *)
Definition cleanup (settle : Z) : M world unit :=
  let* allCleanupBlobs := ListAllBlobs V0CleanupBlobPrefix in
  let latest := foldl (fun l cb => if After (md_Timestamp cb) l then md_Timestamp cb else l) zero_time allCleanupBlobs in
  let* entries := getCleanupEntries latest allCleanupBlobs in
  let old := filter (fun e => settle <= e.2) entries in
  deleteBlobs (concat ((fun e => BlobIDs e.1.2) <$> old)) ;;*
  deleteBlobs ((fun e => e.1.1) <$> old).

(** [getBlobsToCompact] *)
Definition getBlobsToCompact (indexBlobs : list Metadata) (opt : CompactOptions) : list Metadata :=
  let nonCompacted := filter (fun b => (mp_MaxPackSize <? md_Length b) && negb (AllIndexes opt) = false) indexBlobs in
  let small b := md_Length b <? Z.quot mp_MaxPackSize verySmallContentFraction in
  let verySmall := filter (fun b => small b = true) nonCompacted in
  let medium := slen (filter (fun b => small b = false) nonCompacted) in
  if slen nonCompacted <? MaxSmallBlobs opt then []
  else if (Z.quot (slen nonCompacted) 2 <? slen verySmall) && (medium + 1 <? MaxSmallBlobs opt) then verySmall
  else nonCompacted.

(** [addIndexBlobsToBuilder]; the error of the iteration is dropped. *)
Definition addIndexBlobsToBuilder (bld : Builder) (id : string) : M world Builder :=
  let* data := GetEncryptedBlob id in
  match Open data Overhead with
  | Err e => fail (ErrIndexData e)
  | Ok ndx => ret (Iterate (E := unit) ndx AllIDs (fun i b => (None, Add b i)) bld).2
  end.

Fixpoint add_all (bld : Builder) (ids : list string) : M world Builder :=
  match ids with [] => ret bld | id :: ids => let* bld := addIndexBlobsToBuilder bld id in add_all bld ids end.

(** [dropContentsFromBuilder] *)
Definition dropContentsFromBuilder (bld : Builder) (opt : CompactOptions) : Builder :=
  let bld := foldl (fun b dc => delete dc b) bld (DropContents opt) in
  if IsZero (DropDeletedBefore opt) then bld
  else filter (fun e => Deleted e.2 && Before (info_time e.2) (DropDeletedBefore opt) = false) bld.

(** The random suffixes of shards. *)
Definition shard_suffixes : M world (nat -> option (list Z)) :=
  let* t := next_turn in
  ret (fun n => match tn_rand t with Some f => Some (random_bytes (fun i => f (32 * n + i)%nat) 32) | None => None end).

Definition lift_index {S A} (r : result index_error A) : M S A :=
  match r with Ok a => ret a | Err e => fail (ErrIndexData e) end.

(** [compactIndexBlobs]: whether there was anything to compact. *)
Definition compactIndexBlobs (indexBlobs : list Metadata) (opt : CompactOptions) : M world bool :=
  if (slen indexBlobs <=? 1) && IsZero (DropDeletedBefore opt) && (slen (DropContents opt) =? 0) then ret false
  else
    GetMutableParameters ;;*
    let* bld := add_all ∅ (md_BlobID <$> indexBlobs) in
    let bld := dropContentsFromBuilder bld opt in
    let* suffixes := shard_suffixes in
    let* dataShards := lift_index (BuildShards bld mp_IndexVersion false DefaultIndexShardSize suffixes) in
    let* outputs := WriteIndexBlobs dataShards "" in
    registerCompaction indexBlobs outputs (maxEventualConsistencySettleTime opt) ;;*
    ret true.

(** [Compact] *)
Definition Compact (opt : CompactOptions) : M world bool :=
  let* active := ListActiveIndexBlobs in
  GetMutableParameters ;;*
  let* compacted := compactIndexBlobs (getBlobsToCompact active.1 opt) opt in
  cleanup (maxEventualConsistencySettleTime opt) ;;*
  ret compacted.
End ManagerV0.
