(* ===== verification/CommittedIndex.v ===== *)
(** * The committed index

    [repo/content]: [committed_content_index.go] with the cache in memory of
    [committed_content_index_mem_cache.go], and the loading of indexes in
    [committed_read_manager.go] and [content_manager_indexes.go].  The contents
    a reader sees are those of the active index blobs, merged; small indexes are
    combined into one in memory. *)

From S2P Require Import Prelude GoStrings GoText GoTime Db IndexID IndexTable IndexV1 IndexV2 IndexBuild Gather PackFormat ContentStore IndexBlobV0.
Open Scope go_scope.

Definition smallIndexEntryCountThreshold : Z := 100.
Definition indexLoadAttempts : nat := 10.
Definition indexRefreshFrequency : Z := 15 * Minute.

(** How the repository is configured. *)
Class Config := {
  permissiveCacheLoading : bool;
  minPreambleLength : Z;
  maxPreambleLength : Z;
  paddingUnit : Z;
  RepositoryFormatBytes : list Z;
  sessionUser : string;
  sessionHost : string;
  clockSkewVariable : option string   (* KOPIA_ENABLE_CLOCK_SKEW_CHECK *)
}.

(** [cc_cache] holds the indexes downloaded, by blob. *)
Record committedContentIndex := mkCommitted {
  cc_rev : Z;
  cc_cache : gmap string pack_index;
  cc_deletionWatermark : Z;
  cc_inUse : gmap string pack_index;
  cc_merged : list pack_index
}.

Definition newCommittedContentIndex : committedContentIndex := mkCommitted 0 ∅ zero_time ∅ [].

(** The state of a [SharedManager], and the storage it is on. *)
Record SharedManager := mkShared {
  sm_world : world;
  sm_committed : committedContentIndex;
  sm_refreshIndexesAfter : Z
}.

Definition on_world {A} (c : M world A) : M SharedManager A := fun s =>
  let '(r, w) := c (sm_world s) in (r, mkShared w (sm_committed s) (sm_refreshIndexesAfter s)).

Definition set_committed (c : committedContentIndex) : M SharedManager unit :=
  modify (fun s => mkShared (sm_world s) c (sm_refreshIndexesAfter s)).

Section Committed.
Context `{Environment} `{Crypter} `{Parameters} `{Config}.

(** [shouldIgnore] *)
Definition shouldIgnore (id : Info) (deletionWatermark : Z) : bool :=
  Deleted id && negb (After (info_time id) deletionWatermark).

(** [getContent] *)
Definition getContent (contentID : ID) : M SharedManager Info :=
  let* c := gets sm_committed in
  let '(r, merged) := Merged_GetInfo (cc_merged c) contentID in
  set_committed (mkCommitted (cc_rev c) (cc_cache c) (cc_deletionWatermark c) (cc_inUse c) merged) ;;*
  match r with
  | Ok (Some info) => if shouldIgnore info (cc_deletionWatermark c) then fail ErrContentNotFound else ret info
  | Ok None => fail ErrContentNotFound
  | Err e => fail (ErrIndexData e)
  end.

(** [addContentToCache] *)
Definition addContentToCache (id : string) (data : list Z) : M SharedManager unit :=
  match Open data Overhead with
  | Err e => fail (ErrIndexData e)
  | Ok ndx =>
      let* c := gets sm_committed in
      set_committed (mkCommitted (cc_rev c) (<[id := ndx]> (cc_cache c)) (cc_deletionWatermark c) (cc_inUse c) (cc_merged c))
  end.

(** [openIndex] *)
Definition openIndex (c : committedContentIndex) (id : string) : result content_error pack_index :=
  match cc_cache c !! id with Some ndx => Ok ndx | None => Err ErrNotCached end.

(** The revision changes when [addIndexBlob] ends, whatever it returns. *)
Definition bump_revision : M SharedManager unit :=
  let* c := gets sm_committed in
  set_committed (mkCommitted (cc_rev c + 1) (cc_cache c) (cc_deletionWatermark c) (cc_inUse c) (cc_merged c)).

(** [addIndexBlob] *)
Definition addIndexBlob (id : string) (data : list Z) (use : bool) : M SharedManager unit :=
  let* r := attempt (
    addContentToCache id data ;;*
    if negb use then ret tt
    else
      let* c := gets sm_committed in
      match cc_inUse c !! id with
      | Some _ => ret tt
      | None =>
          let* ndx := of_result (openIndex c id) in
          set_committed (mkCommitted (cc_rev c) (cc_cache c) (cc_deletionWatermark c) (<[id := ndx]> (cc_inUse c))
                           (cc_merged c ++ [ndx]))
      end) in
  bump_revision ;;*
  of_result r.

(** [listContents], over a callback. *)
Definition listContents {S E} (r : IDRange) (cb : callback S E) (s : S) : M SharedManager (result (iter_error E) unit * S) :=
  let* c := gets sm_committed in
  let '(res, merged, s) := Merged_Iterate (cc_merged c) r
    (fun i s => if shouldIgnore i (cc_deletionWatermark c) then (None, s) else cb i s) s in
  set_committed (mkCommitted (cc_rev c) (cc_cache c) (cc_deletionWatermark c) (cc_inUse c) merged) ;;*
  ret (res, s).

(** [indexFilesChanged] *)
Definition indexFilesChanged (c : committedContentIndex) (indexFiles : list string) : bool :=
  negb (Z.of_nat (length indexFiles) =? Z.of_nat (size (cc_inUse c)))
  || negb (forallb (fun id => bool_decide (is_Some (cc_inUse c !! id))) indexFiles).

(** The loop of [merge]: indexes in use are kept, others opened. *)
Fixpoint merge_files (c : committedContentIndex) (indexFiles : list string) : result content_error (list (string * pack_index)) :=
  match indexFiles with
  | [] => Ok []
  | e :: files =>
      match (match cc_inUse c !! e with Some ndx => Ok ndx | None => openIndex c e end) with
      | Err err => if permissiveCacheLoading then merge_files c files else Err err
      | Ok ndx => let! rest := merge_files c files in Ok ((e, ndx) :: rest)
      end
  end.

(** The loop of [combineSmallIndexes] over the small indexes. *)
Fixpoint add_small (b : Builder) (m : list pack_index) : result content_error Builder :=
  match m with
  | [] => Ok b
  | ndx :: m =>
      match Iterate (E := unit) ndx AllIDs (fun i b => (None, Add b i)) b with
      | (Ok _, _, b) => add_small b m
      | (Err (IndexErr e), _, _) => Err (ErrIndexData e)
      | (Err (CallbackErr _), _, _) => Err ErrPanic
      end
  end.

Definition is_small (ndx : pack_index) : bool := ApproximateCount ndx <? smallIndexEntryCountThreshold.

(** The index combined in memory enters the history. *)
Definition enter_combined (buf : list Z) : M world unit :=
  modify (fun w => mkWorld (w_blobs w) (w_tick w) (w_hashed w) (w_drawn w) (buf :: w_combined w)).

(** [combineSmallIndexes] *)
Definition combineSmallIndexes (m : list pack_index) : M SharedManager (list pack_index) :=
  let toMerge := filter (fun ndx => is_small ndx = true) m in
  let toKeep := filter (fun ndx => is_small ndx = false) m in
  if slen toMerge <=? 1 then ret m
  else
    let* b := of_result (add_small ∅ toMerge) in
    on_world GetMutableParameters ;;*
    let* suffixes := on_world shard_suffixes in
    let* buf := lift_index (Build b mp_IndexVersion (suffixes 0%nat)) in
    on_world (enter_combined buf) ;;*
    let* combined := lift_index (Open buf Overhead) in
    ret (toKeep ++ [combined]).

(** [use], with [merge]: the files become those in use.  Closing the indexes no
    longer in use is left out, as it only frees memory. *)
Definition use (indexFiles : list string) (ignoreDeletedBefore : Z) : M SharedManager unit :=
  let* c := gets sm_committed in
  let c := mkCommitted (cc_rev c) (cc_cache c) ignoreDeletedBefore (cc_inUse c) (cc_merged c) in
  set_committed c ;;*
  if negb (indexFilesChanged c indexFiles) then ret tt
  else
    let* opened := of_result (merge_files c indexFiles) in
    let* merged := combineSmallIndexes opened.*2 in
    let expired := filter (fun e => e.1 ∈ indexFiles) (cc_cache c) in   (* expireUnused *)
    set_committed (mkCommitted (cc_rev c + 1) expired ignoreDeletedBefore (list_to_map opened) merged).

(** [fetchIndexBlobs] with [missingIndexBlobs]; the downloads are made one by
    one. *)
Fixpoint fetch_missing (ids : list string) : M SharedManager unit :=
  match ids with
  | [] => ret tt
  | id :: ids =>
      let* r := attempt (on_world (GetEncryptedBlob id)) in
      match r with
      | Err e => if permissiveCacheLoading then fetch_missing ids else fail e
      | Ok data => addIndexBlob id data false ;;* fetch_missing ids
      end
  end.

Definition fetchIndexBlobs (indexBlobs : list string) : M SharedManager unit :=
  let* c := gets sm_committed in
  fetch_missing (filter (fun id => cc_cache c !! id = None) indexBlobs).

(** [loadPackIndexesLocked]: an index blob that is gone when it is to be
    downloaded was compacted meanwhile, and the listing is made again. *)
Fixpoint load_attempts (n : nat) : M SharedManager unit :=
  match n with
  | O => fail ErrTooManyRetries
  | S n =>
      on_world GetMutableParameters ;;*
      let* active := on_world ListActiveIndexBlobs in
      let indexBlobIDs := md_BlobID <$> active.1 in
      let* r := attempt (fetchIndexBlobs indexBlobIDs) in
      match r with
      | Ok _ =>
          use indexBlobIDs active.2 ;;*
          let* now := on_world timeNow in
          modify (fun s => mkShared (sm_world s) (sm_committed s) (now + indexRefreshFrequency))
      | Err ErrBlobNotFound => load_attempts n
      | Err e => fail e
      end
  end.

Definition loadPackIndexesLocked : M SharedManager unit := load_attempts indexLoadAttempts.

(** [Refresh] *)
Definition Refresh : M SharedManager unit := on_world GetMutableParameters ;;* loadPackIndexesLocked.

(** [CompactIndexes] *)
Definition CompactIndexes (opt : CompactOptions) : M SharedManager bool :=
  on_world GetMutableParameters ;;*
  let* stats := on_world (Compact opt) in
  loadPackIndexesLocked ;;*
  ret stats.

(** [NewSharedManager]: the manager and what it loaded. *)
Definition NewSharedManager (w : world) : result content_error unit * SharedManager :=
  loadPackIndexesLocked (mkShared w newCommittedContentIndex zero_time).

(** [shouldRefreshIndexes] *)
Definition shouldRefreshIndexes : M SharedManager bool :=
  let* now := on_world timeNow in
  let* s := gets sm_refreshIndexesAfter in
  ret (After now s).
End Committed.
