(* ===== verification/ContentManager.v ===== *)
(** * The content manager

    [repo/content]: [content_manager.go], [content_manager_lock_free.go],
    [sessions.go] and the reading of contents in [committed_read_manager.go].
    Contents are named by their hash, compressed, encrypted and gathered in
    packs; a full pack is uploaded, its entries join the index being built, and
    [Flush] uploads the packs that are left and the index.  A session marker in
    the storage shields the packs that no index names yet.

    A [*pendingPackInfo] is a pointer into [wm_packs]; the buffer of a pack is
    the bytes it holds.  The sections of code that hold the lock are definitions
    of their own, so that they can interleave with those of other goroutines. *)

From S2P Require Import Prelude GoStrings GoText GoTime Db IndexID IndexTable IndexV1 IndexV2 IndexBuild Json Gather PackFormat ContentStore IndexBlobV0 CommittedIndex.
From Stdlib Require Import Ascii.
Open Scope go_scope.

Definition PackBlobIDPrefixRegular : string := "p".
Definition PackBlobIDPrefixSpecial : string := "q".
Definition NoCompression : Z := 0.
Definition packBlobIDLength : nat := 16.
Definition flushPackIndexTimeout : Z := 10 * Minute.
Definition defaultPaddingUnit : Z := 4096.

(** ** Compression: the registered algorithms are third-party code. *)
Record content_compressor := mkContentCompressor {
  c_Compress : list Z -> option (list Z);
  c_Decompress : list Z -> option (list Z)
}.

Class Compressors := ByHeaderID : Z -> option content_compressor.

(** ** State *)

Definition SessionID := string.

Record SessionInfo := mkSession {
  s_ID : SessionID;
  s_StartTime : Z;
  s_CheckpointTime : Z;
  s_User : string;
  s_Host : string
}.

Definition no_session : SessionInfo := mkSession "" zero_time zero_time "" "".

Record pendingPackInfo := mkPack {
  pp_prefix : string;
  pp_packBlobID : string;
  pp_currentPackItems : gmap ID Info;
  pp_currentPackData : list Z;
  pp_finalized : bool
}.

Record WriteManager := mkManager {
  wm_shared : SharedManager;
  wm_revision : Z;
  wm_disableIndexRefresh : bool;
  wm_currentSessionInfo : SessionInfo;
  wm_sessionMarkerBlobIDs : list string;
  wm_packs : gmap nat pendingPackInfo;
  wm_pendingPacks : gmap string nat;
  wm_writingPacks : list nat;
  wm_failedPacks : list nat;
  wm_packIndexBuilder : Builder;
  wm_disableIndexFlushCount : Z;
  wm_flushPackIndexesAfter : Z
}.

Definition set_shared (m : WriteManager) (s : SharedManager) : WriteManager :=
  mkManager s (wm_revision m) (wm_disableIndexRefresh m) (wm_currentSessionInfo m) (wm_sessionMarkerBlobIDs m) (wm_packs m)
    (wm_pendingPacks m) (wm_writingPacks m) (wm_failedPacks m) (wm_packIndexBuilder m) (wm_disableIndexFlushCount m)
    (wm_flushPackIndexesAfter m).

Definition set_session (m : WriteManager) (i : SessionInfo) (markers : list string) : WriteManager :=
  mkManager (wm_shared m) (wm_revision m) (wm_disableIndexRefresh m) i markers (wm_packs m)
    (wm_pendingPacks m) (wm_writingPacks m) (wm_failedPacks m) (wm_packIndexBuilder m) (wm_disableIndexFlushCount m)
    (wm_flushPackIndexesAfter m).

Definition set_packs (m : WriteManager) (packs : gmap nat pendingPackInfo) (pending : gmap string nat) (writing failed : list nat)
    (builder : Builder) : WriteManager :=
  mkManager (wm_shared m) (wm_revision m) (wm_disableIndexRefresh m) (wm_currentSessionInfo m) (wm_sessionMarkerBlobIDs m) packs
    pending writing failed builder (wm_disableIndexFlushCount m) (wm_flushPackIndexesAfter m).

Definition set_counters (m : WriteManager) (revision : Z) (disableRefresh : bool) (disableFlush flushAfter : Z) : WriteManager :=
  mkManager (wm_shared m) revision disableRefresh (wm_currentSessionInfo m) (wm_sessionMarkerBlobIDs m) (wm_packs m)
    (wm_pendingPacks m) (wm_writingPacks m) (wm_failedPacks m) (wm_packIndexBuilder m) disableFlush flushAfter.

Definition on_shared {A} (c : M SharedManager A) : M WriteManager A := fun m =>
  let '(r, s) := c (wm_shared m) in (r, set_shared m s).

Definition on_storage {A} (c : M world A) : M WriteManager A := on_shared (on_world c).

Definition wm_world (m : WriteManager) : world := sm_world (wm_shared m).

(** [bm.revision.Add(1)] *)
Definition add_revision : M WriteManager unit :=
  modify (fun m => set_counters m (wm_revision m + 1) (wm_disableIndexRefresh m) (wm_disableIndexFlushCount m) (wm_flushPackIndexesAfter m)).

(** The pack behind a pointer, and its update. *)
Definition load_pack (p : nat) : M WriteManager pendingPackInfo := fun m =>
  match wm_packs m !! p with Some pp => (Ok pp, m) | None => (Err ErrPanic, m) end.

Definition store_pack (p : nat) (pp : pendingPackInfo) : M WriteManager unit :=
  modify (fun m => set_packs m (<[p := pp]> (wm_packs m)) (wm_pendingPacks m) (wm_writingPacks m) (wm_failedPacks m) (wm_packIndexBuilder m)).

Definition set_items (pp : pendingPackInfo) (items : gmap ID Info) : pendingPackInfo :=
  mkPack (pp_prefix pp) (pp_packBlobID pp) items (pp_currentPackData pp) (pp_finalized pp).

Definition set_data (pp : pendingPackInfo) (data : list Z) (finalized : bool) : pendingPackInfo :=
  mkPack (pp_prefix pp) (pp_packBlobID pp) (pp_currentPackItems pp) data finalized.

(** ** Sessions *)

Definition BlobIDPrefixSession : string := "s".
Definition sessionIDLength : nat := 8.
Definition maxClockSkew : Z := 5 * Minute.
Definition sessionIDEpochStartTime : Z := 946684800 * Second.
Definition sessionIDEpochGranularity : Z := 30 * Day.

(** [checkClockSkewBounds] *)
Definition checkClockSkewBounds (localTime modTime : Z) : bool :=
  let clockSkew := Sub modTime localTime in
  let clockSkew := if clockSkew <? 0 then wrap64 (- clockSkew) else clockSkew in
  negb (maxClockSkew <? clockSkew).

(** [strconv.ParseBool] *)
Definition ParseBool (s : string) : option bool :=
  if bool_decide (s ∈ ["1"; "t"; "T"; "TRUE"; "true"; "True"]%string) then Some true
  else if bool_decide (s ∈ ["0"; "f"; "F"; "FALSE"; "false"; "False"]%string) then Some false
  else None.

(** [%x] of an integer that is not negative. *)
Fixpoint hex_digits (fuel : nat) (n : Z) (acc : string) : string :=
  match fuel with
  | O => acc
  | S fuel => if n <? 16 then String (hexdigit n) acc else hex_digits fuel (n / 16) (String (hexdigit (n `mod` 16)) acc)
  end.

Definition format_hex (n : Z) : string :=
  if n <? 0 then String "-"%char (hex_digits 16 (- n) "") else hex_digits 16 n "".

(** [SessionIDFromBlobID] *)
Definition SessionIDFromBlobID (b : string) : SessionID :=
  match Split b "-"%char with
  | _ :: parts => default ""%string (head (filter (fun sid => HasPrefix sid BlobIDPrefixSession = true) parts))
  | [] => ""
  end.

(** [json.Marshal] of the session; times are in UTC. *)
Definition session_json (i : SessionInfo) : option (list Z) :=
  t ← json_time (s_StartTime i);
  c ← json_time (s_CheckpointTime i);
  Some (print_json (JObj [("id", JStr (s_ID i)); ("startTime", t); ("checkpointTime", c);
                          ("username", JStr (s_User i)); ("hostname", JStr (s_Host i))])).

Section Manager.
Context `{Environment} `{Crypter} `{Parameters} `{Config} `{Compressors}.

Definition maybeCheckClockSkewBounds (localTime modTime : Z) : bool :=
  match clockSkewVariable with
  | None => true
  | Some v => match ParseBool v with
              | Some false => true
              | _ => checkClockSkewBounds localTime modTime
              end
  end.

(** [generateSessionID] *)
Definition generateSessionID (now : Z) : M world SessionID :=
  let* r := cryptorand sessionIDLength in
  let epochNumber := Z.quot (Sub now sessionIDEpochStartTime) sessionIDEpochGranularity in
  ret (BlobIDPrefixSession ++ hex_encode r ++ format_hex epochNumber)%string.

(** [writeSessionMarkerLocked] *)
Definition writeSessionMarkerLocked : M WriteManager unit :=
  let* cp := gets wm_currentSessionInfo in
  let* now := on_storage timeNow in
  match session_json (mkSession (s_ID cp) (s_StartTime cp) now (s_User cp) (s_Host cp)) with
  | None => fail ErrPanic
  | Some js =>
      let* p := on_storage (blob_Encrypt js BlobIDPrefixSession (s_ID cp)) in
      let* modTime := on_storage (PutBlob p.1 p.2) in
      let* now := on_storage timeNow in
      if negb (maybeCheckClockSkewBounds now modTime) then fail ErrClockSkewed
      else modify (fun m => set_session m (wm_currentSessionInfo m) (wm_sessionMarkerBlobIDs m ++ [p.1]))
  end.

(** [getOrStartSessionLocked] *)
Definition getOrStartSessionLocked : M WriteManager SessionID :=
  let* i := gets wm_currentSessionInfo in
  if negb (String.eqb (s_ID i) "") then ret (s_ID i)
  else
    let* now := on_storage timeNow in
    let* id := on_storage (generateSessionID now) in
    let* start := on_storage timeNow in
    modify (fun m => set_session m (mkSession id start zero_time sessionUser sessionHost) []) ;;*
    writeSessionMarkerLocked ;;*
    ret id.

(** [commitSession] *)
Definition commitSession : M WriteManager unit :=
  let* markers := gets wm_sessionMarkerBlobIDs in
  on_storage (for_each markers (fun b =>
    let* r := attempt (DeleteBlob b) in
    match r with Ok _ | Err ErrBlobNotFound => ret tt | Err e => fail e end)) ;;*
  modify (fun m => let i := wm_currentSessionInfo m in
                   set_session m (mkSession "" (s_StartTime i) (s_CheckpointTime i) (s_User i) (s_Host i)) []).

(** ** Encrypting and decrypting contents *)

(** [getPackedContentIV]: the last sixteen bytes of the hash. *)
Definition getPackedContentIV (id : ID) : option (list Z) :=
  let h := Hash id in
  if slen h <? 16 then None else Some (drop (length h - 16) h).

Definition ID_prefixed (id : ID) : bool := ID_HasPrefix id.

(** [maybeCompressAndEncryptDataForPacking] *)
Definition maybeCompressAndEncryptDataForPacking (data : list Z) (contentID : ID) (comp : Z) : M world (Z * list Z) :=
  match getPackedContentIV contentID with
  | None => fail ErrPanic
  | Some iv =>
      let comp := if ID_prefixed contentID && (mp_IndexVersion <? Version2) then NoCompression else comp in
      let* c := (if comp =? NoCompression then ret (NoCompression, data)
                 else if mp_IndexVersion <? Version2 then fail ErrCompressionNotEnabled
                 else match ByHeaderID comp with
                      | None => fail ErrUnsupportedCompressor
                      | Some c => match c_Compress c data with
                                  | None => fail ErrCompressing
                                  | Some tmp => if slen data <=? slen tmp then ret (NoCompression, data) else ret (comp, tmp)
                                  end
                      end) in
      let* e := encrypt c.2 iv in
      ret (c.1, e)
  end.

(** [decryptContentAndVerify] *)
Definition decryptContentAndVerify (payload : list Z) (bi : Info) : result content_error (list Z) :=
  match getPackedContentIV (ContentID bi) with
  | None => Err ErrPanic
  | Some iv =>
      if negb (EncryptionKeyID bi =? 0) then Err ErrKeyID
      else match Decrypt payload iv with
           | None => Err ErrDecryption
           | Some d =>
               if CompressionHeaderID bi =? 0 then Ok d
               else match ByHeaderID (CompressionHeaderID bi) with
                    | None => Err ErrUnsupportedCompressor
                    | Some c => match c_Decompress c d with Some d => Ok d | None => Err ErrDecompressing end
                    end
           end
  end.

(** [getContentDataReadLocked]; contents are not cached. *)
Definition getContentDataReadLocked (pp : option pendingPackInfo) (bi : Info) : M WriteManager (list Z) :=
  let* payload :=
    match pp with
    | Some pp =>
        if String.eqb (pp_packBlobID pp) (PackBlobID bi)
        then match AppendSectionTo (FromSlice (pp_currentPackData pp)) (PackOffset bi) (PackedLength bi) with
             | Ok d => ret d
             | Err _ => fail ErrPanic
             end
        else on_storage (GetBlob (PackBlobID bi) (PackOffset bi) (PackedLength bi))
    | None => on_storage (GetBlob (PackBlobID bi) (PackOffset bi) (PackedLength bi))
    end in
  of_result (decryptContentAndVerify payload bi).

(** ** Looking contents up *)

(** The first pack in which a content is, and its entry. *)
Fixpoint find_in_packs (packs : gmap nat pendingPackInfo) (ptrs : list nat) (id : ID) : option (nat * Info) :=
  match ptrs with
  | [] => None
  | p :: ptrs =>
      match (packs !! p) ≫= (fun pp => pp_currentPackItems pp !! id) with
      | Some ci => Some (p, ci)
      | None => find_in_packs packs ptrs id
      end
  end.

Definition pending_ptrs (m : WriteManager) : list nat := (map_to_list (wm_pendingPacks m)).*2.

(** [getOverlayContentInfoReadLocked] *)
Definition getOverlayContentInfoReadLocked (m : WriteManager) (id : ID) : option (option nat * Info) :=
  match find_in_packs (wm_packs m) (pending_ptrs m) id with
  | Some (p, ci) => Some (Some p, ci)
  | None =>
      match find_in_packs (wm_packs m) (wm_writingPacks m) id with
      | Some (p, ci) => Some (Some p, ci)
      | None => (fun ci => (None, ci)) <$> (wm_packIndexBuilder m !! id)
      end
  end.

(** [maybeRefreshIndexes] *)
Definition maybeRefreshIndexes : M WriteManager unit :=
  if permissiveCacheLoading then ret tt
  else
    let* disabled := gets wm_disableIndexRefresh in
    if disabled then ret tt
    else let* should := on_shared shouldRefreshIndexes in
         when should (on_shared Refresh).

(** [getContentInfoReadLocked] *)
Definition getContentInfoReadLocked (id : ID) : M WriteManager (option nat * Info) :=
  let* m := gets (fun m => m) in
  match getOverlayContentInfoReadLocked m id with
  | Some r => ret r
  | None =>
      maybeRefreshIndexes ;;*
      let* info := on_shared (getContent id) in
      ret (None, info)
  end.

(** [getContentDataAndInfo] *)
Definition getContentDataAndInfo (id : ID) : M WriteManager (list Z * Info) :=
  let* r := getContentInfoReadLocked id in
  let* m := gets (fun m => m) in
  let* data := getContentDataReadLocked (r.1 ≫= (fun p => wm_packs m !! p)) r.2 in
  ret (data, r.2).

(** [GetContent] and [ContentInfo] *)
Definition GetContent (id : ID) : M WriteManager (list Z) := let* r := getContentDataAndInfo id in ret r.1.

Definition ContentInfo (id : ID) : M WriteManager Info := let* r := getContentInfoReadLocked id in ret r.2.

(** ** Packs *)

(** [packPrefixForContentID] *)
Definition packPrefixForContentID (id : ID) : string :=
  if ID_prefixed id then PackBlobIDPrefixSpecial else PackBlobIDPrefixRegular.

(** [writeRandomBytesToBuffer], from an array of one padding unit. *)
Definition writeRandomBytesToBuffer (b : list Z) (count : Z) : M world (list Z) :=
  if (count <? 0) || (defaultPaddingUnit <? count) then fail ErrPanic
  else let* r := cryptorand (Z.to_nat count) in ret (b ++ r).

(** The sixteen random bytes of a pack's identifier; they are entered in the
    history. *)
Definition draw_pack_id : M world (list Z) :=
  let* r := cryptorand packBlobIDLength in
  modify (fun w => mkWorld (w_blobs w) (w_tick w) (w_hashed w) (r :: w_drawn w) (w_combined w)) ;;*
  ret r.

(** [format.RepositoryFormatBytes], which may have to read the format again. *)
Definition getFormatBytes : M world (list Z) := GetMutableParameters ;;* ret RepositoryFormatBytes.

(** [rand.Intn] *)
Definition rand_Intn (n : Z) : M world Z :=
  let* t := next_turn in
  if n <=? 0 then fail ErrPanic else ret (match tn_rand t with Some f => f 0%nat `mod` n | None => 0 end).

(** [getOrCreatePendingPackInfoLocked]; a new pack is put at a pointer that was
    not used before. *)
Definition getOrCreatePendingPackInfoLocked (prefix : string) : M WriteManager nat :=
  let* m := gets (fun m => m) in
  match wm_pendingPacks m !! prefix with
  | Some p => ret p
  | None =>
      let* sessionID := getOrStartSessionLocked in
      let* blobID := on_storage draw_pack_id in
      let* suffix := on_storage getFormatBytes in
      let* n := on_storage (rand_Intn (maxPreambleLength - minPreambleLength + 1)) in
      let* b := on_storage (writeRandomBytesToBuffer suffix (n + minPreambleLength)) in
      let id := (prefix ++ hex_encode blobID ++ "-" ++ sessionID)%string in
      let* m := gets (fun m => m) in
      let p := fresh (dom (wm_packs m)) in
      modify (fun m => set_packs m (<[p := mkPack prefix id ∅ b false]> (wm_packs m)) (<[prefix := p]> (wm_pendingPacks m))
                         (wm_writingPacks m) (wm_failedPacks m) (wm_packIndexBuilder m)) ;;*
      ret p
  end.

(** [removePendingPack] *)
Definition removePendingPack (l : list nat) (p : nat) : list nat := filter (fun q => q <> p) l.

(** [preparePackDataContent]: what the pack adds to the index, and its data with
    padding and the local index at the end.  The first result is nil when the
    pack has no items. *)
Definition preparePackDataContent (p : nat) : M WriteManager (option Builder) :=
  let* pp := load_pack p in
  let packFileIndex := foldl Add ∅ (map_to_list (pp_currentPackItems pp)).*2 in
  let haveContent := existsb (fun i => String.eqb (PackBlobID i) (pp_packBlobID pp)) (map_to_list (pp_currentPackItems pp)).*2 in
  if Z.of_nat (size packFileIndex) =? 0 then ret None
  else if negb haveContent then store_pack p (set_data pp [] (pp_finalized pp)) ;;* ret (Some packFileIndex)
  else if pp_finalized pp then ret (Some packFileIndex)
  else
    store_pack p (set_data pp (pp_currentPackData pp) true) ;;*
    let missing := paddingUnit - Z.rem (slen (pp_currentPackData pp)) paddingUnit in
    let* padded := (if (0 <? paddingUnit) && (0 <? missing)
                    then on_storage (writeRandomBytesToBuffer (pp_currentPackData pp) missing)
                    else ret (pp_currentPackData pp)) in
    store_pack p (set_data pp padded true) ;;*
    let* suffixes := on_storage shard_suffixes in
    let* nonce := on_storage (cryptorand 12) in
    let* data := (match appendPackFileIndexRecoveryData mp_IndexVersion packFileIndex (suffixes 0%nat) nonce padded with
                  | Ok d => ret d
                  | Err e => fail (ErrPackData e)
                  end) in
    store_pack p (set_data pp data true) ;;*
    ret (Some packFileIndex).

(** [prepareAndWritePackInternal] *)
Definition prepareAndWritePackInternal (p : nat) : M WriteManager (option Builder) :=
  on_storage GetMutableParameters ;;*
  let* packFileIndex := preparePackDataContent p in
  let* pp := load_pack p in
  when (0 <? slen (pp_currentPackData pp)) (on_storage (PutBlob (pp_packBlobID pp) (pp_currentPackData pp)) ;;* ret tt) ;;*
  ret packFileIndex.

(** [processWritePackResultLocked]; a buffer that is closed holds nothing. *)
Definition processWritePackResultLocked (p : nat) (r : result content_error (option Builder)) : M WriteManager unit :=
  let* m := gets (fun m => m) in
  let writing := removePendingPack (wm_writingPacks m) p in
  let failed := removePendingPack (wm_failedPacks m) p in
  match r with
  | Ok packFileIndex =>
      modify (fun m => set_packs m (wm_packs m) (wm_pendingPacks m) writing failed
                         (foldl Add (wm_packIndexBuilder m) (map_to_list (default ∅ packFileIndex)).*2)) ;;*
      let* pp := load_pack p in
      store_pack p (set_data pp [] (pp_finalized pp))
  | Err e =>
      modify (fun m => set_packs m (wm_packs m) (wm_pendingPacks m) writing (failed ++ [p]) (wm_packIndexBuilder m)) ;;*
      fail e
  end.

(** [writePackAndAddToIndexLocked] and [writePackAndAddToIndexUnlocked]: they
    differ in when the lock is held. *)
Definition writePackAndAddToIndex (p : nat) : M WriteManager unit :=
  let* r := attempt (prepareAndWritePackInternal p) in
  processWritePackResultLocked p r.

(** The loop that writes failed packs again, over a copy of the slice. *)
Definition retryFailedPacks : M WriteManager unit :=
  let* fp := gets wm_failedPacks in
  for_each fp writePackAndAddToIndex.

(** [finishAllPacksLocked], in the order the map is iterated in. *)
Definition finishAllPacksLocked : M WriteManager unit :=
  let* m := gets (fun m => m) in
  let* t := on_storage next_turn in
  let entries := map_to_list (wm_pendingPacks m) in
  for_each (if tn_swap t then reverse entries else entries) (fun e =>
    modify (fun m => set_packs m (wm_packs m) (delete e.1 (wm_pendingPacks m)) (wm_writingPacks m ++ [e.2]) (wm_failedPacks m)
                       (wm_packIndexBuilder m)) ;;*
    writePackAndAddToIndex e.2).

(** [flushPackIndexesLocked] *)
Definition flushPackIndexesLocked : M WriteManager unit :=
  let* m := gets (fun m => m) in
  if 0 <? wm_disableIndexFlushCount m then ret tt
  else
    when (negb (Z.of_nat (size (wm_packIndexBuilder m)) =? 0)) (
      let* dataShards := lift_index (BuildShards (wm_packIndexBuilder m) mp_IndexVersion true DefaultIndexShardSize (fun _ => None)) in
      on_storage GetMutableParameters ;;*
      let* mds := on_storage (WriteIndexBlobs dataShards (s_ID (wm_currentSessionInfo m))) in
      commitSession ;;*
      for_each (zip mds dataShards) (fun e => on_shared (addIndexBlob (md_BlobID e.1) e.2 true)) ;;*
      modify (fun m => set_packs m (wm_packs m) (wm_pendingPacks m) (wm_writingPacks m) (wm_failedPacks m) ∅)) ;;*
    let* now := on_storage timeNow in
    modify (fun m => set_counters m (wm_revision m) (wm_disableIndexRefresh m) (wm_disableIndexFlushCount m) (now + flushPackIndexTimeout)).

(** [Flush] in the two parts between which it waits, without the lock, until no
    pack is being written. *)
Definition flush_begin : M WriteManager unit := on_storage GetMutableParameters ;;* retryFailedPacks.
Definition flush_finish : M WriteManager unit := finishAllPacksLocked ;;* flushPackIndexesLocked.

(** [Flush], when no other goroutine is writing. *)
Definition Flush : M WriteManager unit := flush_begin ;;* flush_finish.

(** [contentWriteTime] *)
Definition contentWriteTime (previousUnixTimeSeconds : Z) : M world Z :=
  let* now := timeNow in
  let t := now / Second in
  ret (if previousUnixTimeSeconds <? t then t else previousUnixTimeSeconds + 1).

(** [maybeFlushBasedOnTimeUnlocked] *)
Definition maybeFlushBasedOnTimeUnlocked : M WriteManager unit :=
  let* now := on_storage timeNow in
  let* after := gets wm_flushPackIndexesAfter in
  when (After now after) Flush.

(** The section of [addToPackUnlocked] that holds the lock: the pack to upload,
    if one is full. *)
Definition add_locked (contentID : ID) (originalLength : Z) (compressed : Z * list Z) (isDeleted : bool) (previousWriteTime : Z)
    : M WriteManager (option nat) :=
  let* known := (if previousWriteTime <? 0 then attempt (getContentInfoReadLocked contentID) else ret (Err ErrContentNotFound)) in
  match known with
  | Ok _ => ret None
  | Err _ =>
      add_revision ;;*
      retryFailedPacks ;;*
      let* p := getOrCreatePendingPackInfoLocked (packPrefixForContentID contentID) in
      let* pp := load_pack p in
      let offset := uint32 (slen (pp_currentPackData pp)) in
      let* ts := on_storage (contentWriteTime previousWriteTime) in
      let data := pp_currentPackData pp ++ compressed.2 in
      let info := mkInfo (pp_packBlobID pp) ts (uint32 originalLength) (uint32 (uint32 (slen data) - offset)) offset compressed.1
                    contentID isDeleted (byte mp_Version) 0 in
      store_pack p (set_items (set_data pp data (pp_finalized pp)) (<[contentID := info]> (pp_currentPackItems pp))) ;;*
      if mp_MaxPackSize <=? slen data then
        modify (fun m => set_packs m (wm_packs m) (delete (pp_prefix pp) (wm_pendingPacks m)) (wm_writingPacks m ++ [p])
                           (wm_failedPacks m) (wm_packIndexBuilder m)) ;;*
        ret (Some p)
      else ret None
  end.

(** [addToPackUnlocked] *)
Definition addToPackUnlocked (contentID : ID) (data : list Z) (isDeleted : bool) (comp previousWriteTime : Z) : M WriteManager unit :=
  maybeFlushBasedOnTimeUnlocked ;;*
  let* c := on_storage (maybeCompressAndEncryptDataForPacking data contentID comp) in
  let* full := add_locked contentID (slen data) c isDeleted previousWriteTime in
  match full with Some p => writePackAndAddToIndex p | None => ret tt end.

(** [IDFromHash] as the manager uses it. *)
Definition lift_id {S} (r : result id_error ID) : M S ID := match r with Ok id => ret id | Err _ => fail ErrHash end.

(** [maybeRetryWritingFailedPacksUnlocked] is [retryFailedPacks]; [WriteContent] *)
Definition WriteContent (data : list Z) (prefix : IDPrefix) (comp : Z) : M WriteManager ID :=
  on_storage GetMutableParameters ;;*
  retryFailedPacks ;;*
  if negb (is_ok (ValidateSingle prefix)) then fail ErrPrefix
  else
    let* h := on_storage (hashData data) in
    let* contentID := lift_id (IDFromHash prefix h) in
    let* known := attempt (getContentInfoReadLocked contentID) in
    match known with
    | Ok (_, bi) =>
        if negb (Deleted bi) then ret contentID
        else addToPackUnlocked contentID data false comp (TimestampSeconds bi) ;;* ret contentID
    | Err _ => addToPackUnlocked contentID data false comp (-1) ;;* ret contentID
    end.

(** ** Rewriting and deleting *)

(** [rewriteContent] *)
Definition rewriteContent (contentID : ID) (onlyRewriteDeleted : bool) : M WriteManager unit :=
  let* r := getContentDataAndInfo contentID in
  let '(data, bi) := r in
  if onlyRewriteDeleted && negb (Deleted bi) then ret tt
  else addToPackUnlocked contentID data (if onlyRewriteDeleted then false else Deleted bi) (CompressionHeaderID bi) (TimestampSeconds bi).

Definition RewriteContent (id : ID) : M WriteManager unit := on_storage GetMutableParameters ;;* rewriteContent id false.
Definition UndeleteContent (id : ID) : M WriteManager unit := on_storage GetMutableParameters ;;* rewriteContent id true.

(** [deletedInfo] *)
Definition deletedInfo (ci : Info) (deletedTime : Z) : Info :=
  mkInfo (PackBlobID ci) deletedTime (OriginalLength ci) (PackedLength ci) (PackOffset ci) (CompressionHeaderID ci) (ContentID ci)
    true (FormatVersion ci) (EncryptionKeyID ci).

(** [deletePreexistingContent] *)
Definition deletePreexistingContent (ci : Info) : M WriteManager unit :=
  if Deleted ci then ret tt
  else
    let* p := getOrCreatePendingPackInfoLocked (packPrefixForContentID (ContentID ci)) in
    let* ts := on_storage (contentWriteTime (TimestampSeconds ci)) in
    let* pp := load_pack p in
    store_pack p (set_items pp (<[ContentID ci := deletedInfo ci ts]> (pp_currentPackItems pp))).

(** The first pack in which a content is and is not deleted. *)
Fixpoint find_live (packs : gmap nat pendingPackInfo) (ptrs : list nat) (id : ID) : option (nat * Info) :=
  match ptrs with
  | [] => None
  | p :: ptrs =>
      match (packs !! p) ≫= (fun pp => pp_currentPackItems pp !! id) with
      | Some ci => if Deleted ci then find_live packs ptrs id else Some (p, ci)
      | None => find_live packs ptrs id
      end
  end.

(** [DeleteContent] *)
Definition DeleteContent (contentID : ID) : M WriteManager unit :=
  add_revision ;;*
  let* m := gets (fun m => m) in
  match find_live (wm_packs m) (pending_ptrs m) contentID with
  | Some (p, _) =>
      let* pp := load_pack p in
      store_pack p (set_items pp (delete contentID (pp_currentPackItems pp)))
  | None =>
      match find_live (wm_packs m) (wm_writingPacks m) contentID with
      | Some (_, bi) => deletePreexistingContent bi
      | None =>
          match wm_packIndexBuilder m !! contentID with
          | Some bi => deletePreexistingContent bi
          | None =>
              maybeRefreshIndexes ;;*
              let* bi := on_shared (getContent contentID) in
              deletePreexistingContent bi
          end
      end
  end.

(** ** The rest of the interface *)

(** [Revision] *)
Definition Revision (m : WriteManager) : Z := wm_revision m + cc_rev (sm_committed (wm_shared m)).

Definition DisableIndexFlush : M WriteManager unit :=
  modify (fun m => set_counters m (wm_revision m) (wm_disableIndexRefresh m) (wm_disableIndexFlushCount m + 1) (wm_flushPackIndexesAfter m)).
Definition EnableIndexFlush : M WriteManager unit :=
  modify (fun m => set_counters m (wm_revision m) (wm_disableIndexRefresh m) (wm_disableIndexFlushCount m - 1) (wm_flushPackIndexesAfter m)).
Definition DisableIndexRefresh : M WriteManager unit :=
  modify (fun m => set_counters m (wm_revision m) true (wm_disableIndexFlushCount m) (wm_flushPackIndexesAfter m)).

(** [SupportsContentCompression] *)
Definition SupportsContentCompression : bool := Version2 <=? mp_IndexVersion.

(** [RecoverIndexFromPackBlob] of a pack of the storage: the entries recovered
    and the error.  The reads of the pack are taken as one. *)
Definition RecoverIndex (packFile : string) (packFileLength : Z) (commit : bool) : M WriteManager (list Info * option content_error) :=
  let* t := on_storage next_turn in
  if negb (tn_read t) then ret ([], Some ErrStorage)
  else
    let* blobs := gets (fun m => w_blobs (wm_world m)) in
    match blobs !! packFile with
    | None => ret ([], Some ErrBlobNotFound)
    | Some b =>
        let* builder := gets wm_packIndexBuilder in
        let '(recovered, e, builder) := RecoverIndexFromPackBlob (bl_data b) packFileLength commit builder in
        modify (fun m => set_packs m (wm_packs m) (wm_pendingPacks m) (wm_writingPacks m) (wm_failedPacks m) builder) ;;*
        ret (recovered, ErrPackData <$> e)
    end.

(** [NewWriteManager] on a shared manager. *)
Definition NewWriteManager (s : SharedManager) : WriteManager :=
  let '(now, s) := on_world timeNow s in
  mkManager s 0 false no_session [] ∅ ∅ [] [] ∅ 0 (match now with Ok t => t + flushPackIndexTimeout | Err _ => flushPackIndexTimeout end).

(** Opening the repository on a storage. *)
Definition open_manager (w : world) : result content_error WriteManager * world :=
  let '(r, s) := NewSharedManager w in
  match r with
  | Ok _ => let m := NewWriteManager s in (Ok m, wm_world m)
  | Err e => (Err e, sm_world s)
  end.

(** [verifyInvariantsLocked]: whether the assertions of
    [verifyCurrentPackItemsLocked] and [verifyPackIndexBuilderLocked] hold. *)
Definition verifyCurrentPackItems (m : WriteManager) : bool :=
  forallb (fun p =>
    match wm_packs m !! p with
    | None => true
    | Some pp =>
        forallb (fun e : ID * Info =>
          bool_decide (ContentID e.2 = e.1) && (Deleted e.2 || String.eqb (PackBlobID e.2) (pp_packBlobID pp))
          && negb (TimestampSeconds e.2 =? 0)) (map_to_list (pp_currentPackItems pp))
    end) (pending_ptrs m).

Definition verifyPackIndexBuilder (m : WriteManager) : bool :=
  forallb (fun e : ID * Info =>
    bool_decide (ContentID e.2 = e.1)
    && (if Deleted e.2 then String.eqb (PackBlobID e.2) ""
        else negb (String.eqb (PackBlobID e.2) "") && (FormatVersion e.2 =? byte mp_Version))
    && negb (TimestampSeconds e.2 =? 0)) (map_to_list (wm_packIndexBuilder m)).

Definition verifyInvariantsLocked (m : WriteManager) : bool := verifyCurrentPackItems m && verifyPackIndexBuilder m.
End Manager.
