(* ===== verification/ContentSpec.v ===== *)
(** * What the content manager keeps true

    The invariant of a storage: a live entry of an index blob points to a part
    of a stored pack that decrypts to the bytes the entry's identifier is the
    hash of.  The invariant of a manager on such a storage, for the packs in
    memory, the index being built and the committed index.  And a way to reason
    about code with state and errors: a specification says what an operation
    keeps, how it may change the storage, and what holds if it succeeds, for
    histories in which no identifier was drawn twice and no two byte strings
    collided. *)

From S2P Require Import Prelude GoStrings GoText GoTime Db IndexID IndexTable IndexV1 IndexV2 IndexV2Facts IndexBuild IndexMergedFacts IndexRoundTrip Gather PackFormat ContentStore IndexBlobV0 CommittedIndex ContentManager.
Open Scope go_scope.

(** ** Strings *)

Lemma string_app_inj s1 s2 t1 t2 : String.length s1 = String.length s2 -> s1 +:+ t1 = s2 +:+ t2 -> s1 = s2 /\ t1 = t2.
Proof.
  revert s2. induction s1 as [|c s1 IH]; intros [|d s2]; try done. cbn. intros [= Hl] [= -> Ht].
  destruct (IH s2 Hl Ht) as [-> ->]. done.
Qed.

Lemma hex_length l : String.length (hex_encode l) = (2 * length l)%nat.
Proof. induction l as [|x l IH]; [done|]. cbn [hex_encode String.length length]. rewrite IH. lia. Qed.

Lemma hex_inj l m : byte_list l -> byte_list m -> hex_encode l = hex_encode m -> l = m.
Proof. intros Hl Hm E. apply hex_round_trip in Hl, Hm. congruence. Qed.

(** What follows the hexadecimal of two lists of one length says they are one. *)
Lemma hex_app_inj l m s t : byte_list l -> byte_list m -> length l = length m ->
  hex_encode l +:+ s = hex_encode m +:+ t -> l = m.
Proof. intros Hl Hm Hn E. apply string_app_inj in E as [E _]; [by apply hex_inj|]. by rewrite !hex_length, Hn. Qed.

(** ** Assumptions on the parameters *)

(** Hashes have one length; compression is undone by decompression; encryption
    adds its overhead; the index has its current format; packs start with
    random bytes. *)
Class ContentLaws `{Crypter} `{Parameters} `{Config} `{Compressors} := {
  hash_length : nat;
  hash_length_law d : length (HashFunc d) = hash_length;
  overhead_law nonce d iv e : Encrypt nonce d iv = Some e -> slen e = slen d + Overhead;
  decompress_law h c d z : ByHeaderID h = Some c -> c_Compress c d = Some z -> c_Decompress c z = Some d;
  index_version_law : mp_IndexVersion = Version2;
  preamble_law : 1 <= minPreambleLength <= maxPreambleLength;
  pack_size_law : 0 <= mp_MaxPackSize
}.

Section Invariants.
Context {TE : Environment} {TC : Crypter} {TCL : CrypterLaws} {TP : Parameters} {TF : Config} {TK : Compressors} {TL : ContentLaws}.

(** ** Histories *)

Definition grows (w w' : world) : Prop :=
  (exists l, w_hashed w' = l ++ w_hashed w) /\ (exists l, w_drawn w' = l ++ w_drawn w) /\ (exists l, w_combined w' = l ++ w_combined w)
  /\ (w_tick w <= w_tick w')%nat.

#[export] Instance grows_preorder : PreOrder grows.
Proof.
  split; [by intros w; split_and!; [exists []..|]|].
  intros a b c ([l1 E1] & [l2 E2] & [l3 E3] & T1) ([k1 G1] & [k2 G2] & [k3 G3] & T2).
  split_and!; [exists (k1 ++ l1)|exists (k2 ++ l2)|exists (k3 ++ l3)|lia]; rewrite <- app_assoc; congruence.
Qed.

(** No pack identifier was drawn twice, what was hashed has no collision, no
    index is as large as 4 GiB, and the clock, even if it were advanced by a
    second at every turn, is before the year 2106. *)
Record fortunate (w : world) : Prop := {
  f_drawn : NoDup (w_drawn w);
  f_hashed a b : a ∈ w_hashed w -> b ∈ w_hashed w -> HashFunc a = HashFunc b -> a = b;
  f_small : Forall (fun d => slen d < 2 ^ 32) (w_hashed w ++ w_combined w);
  f_time : exists T, (forall n, (n < w_tick w)%nat -> tn_now (turn_at n) / Second <= T) /\ 0 <= T /\ T + Z.of_nat (w_tick w) < 2 ^ 32
}.

Lemma fortunate_before w w' : grows w w' -> fortunate w' -> fortunate w.
Proof.
  intros ([l Hl] & [m Hm] & [k Hk] & Ht) [Hd Hh Hs (T & HT & HT0 & HT1)]. rewrite Hl in Hh, Hs. rewrite Hm in Hd. rewrite Hk in Hs. split.
  - by apply NoDup_app in Hd as (_ & _ & ?).
  - intros a b Ha Hb. apply Hh; apply elem_of_app; by right.
  - apply Forall_app in Hs as [[_ H1]%Forall_app [_ H2]%Forall_app]. by apply Forall_app.
  - exists T. split_and!; [|done|lia]. intros n Hn. apply HT. lia.
Qed.

Lemma grows_hashed w w' d : grows w w' -> d ∈ w_hashed w -> d ∈ w_hashed w'.
Proof. intros ([l ->] & _) Hd. apply elem_of_app. by right. Qed.

Lemma grows_drawn w w' r : grows w w' -> r ∈ w_drawn w -> r ∈ w_drawn w'.
Proof. intros (_ & [l ->] & _) Hd. apply elem_of_app. by right. Qed.

(** ** Entries and what backs them *)

Definition is_pack (id : string) : bool := HasPrefix id PackBlobIDPrefixRegular || HasPrefix id PackBlobIDPrefixSpecial.

Definition is_index (id : string) : bool := HasPrefix id V0IndexBlobPrefix.

Definition key_size : Z := Z.of_nat (S hash_length).

(** The identifier of a content is its hash. *)
Definition named (id : ID) (d : list Z) : Prop := Hash id = HashFunc d.

(** An entry reads as [d] from the data of a pack. *)
Definition pack_reads (data : list Z) (it : Info) (d : list Z) : Prop :=
  exists e, get_range data (PackOffset it) (PackedLength it) = Some e /\ decryptContentAndVerify e it = Ok d.

Definition backed (w : world) (it : Info) : Prop :=
  is_pack (PackBlobID it) = true
  /\ exists b d, w_blobs w !! PackBlobID it = Some b /\ pack_reads (bl_data b) it d /\ named (ContentID it) d /\ d ∈ w_hashed w.

(** An entry's fields are within their widths, the time apart. *)
Record shape (it : Info) : Prop := {
  sh_valid : valid_id (ContentID it);
  sh_key : slen (id_key (ContentID it)) = key_size;
  sh_time : 0 <= TimestampSeconds it;
  sh_pack : len (PackBlobID it) < 256;
  sh_offset : 0 <= PackOffset it < 2 ^ 32;
  sh_packed : 0 <= PackedLength it < 2 ^ 32;
  sh_original : 0 <= OriginalLength it < 2 ^ 32;
  sh_compression : 0 <= CompressionHeaderID it < 2 ^ 32;
  sh_format : 0 <= FormatVersion it < 256;
  sh_encryption : 0 <= EncryptionKeyID it < 256
}.

(** An entry is no later than the clock was, a second a turn allowed. *)
Definition timely (w : world) (it : Info) : Prop :=
  exists n, (n < w_tick w)%nat /\ TimestampSeconds it <= Z.max 0 (tn_now (turn_at n) / Second) + Z.of_nat (w_tick w).

Lemma timely_grows w w' it : grows w w' -> timely w it -> timely w' it.
Proof. intros (_ & _ & _ & Ht) (n & Hn & Hit). exists n. split; lia. Qed.

Definition entry_ok (w : world) (it : Info) : Prop := (shape it /\ timely w it) /\ (Deleted it = false -> backed w it).

(** The times the index format can store end in the year 2106. *)
Definition in_time (it : Info) : Prop := TimestampSeconds it < 2 ^ 32.

Lemma timely_in_time w it : fortunate w -> timely w it -> in_time it.
Proof. intros Hf (n & Hn & Hit). destruct (f_time _ Hf) as (T & HT & ? & ?). specialize (HT n Hn). unfold in_time. lia. Qed.

Lemma shape_good it : shape it -> in_time it -> good_entry mp_IndexVersion Overhead key_size it.
Proof. intros [] Ht. unfold in_time in Ht. split; [done|done|]. right. split; [apply index_version_law|]. split; done || lia. Qed.

(** ** Index blobs *)

(** The name of an index blob with plaintext [d]. *)
Definition index_name (id : string) (d : list Z) : Prop := exists t, id = V0IndexBlobPrefix +:+ (hex_encode (HashFunc d) +:+ t).

(** An index that opens and holds a list. *)
Definition index_of (d : list Z) (l : list Info) : Prop := exists x, Open d Overhead = Ok x /\ holds x l key_size.

Definition index_blob (w : world) (id : string) (d : list Z) : Prop :=
  is_index id = true /\ exists b, w_blobs w !! id = Some b /\ blob_Decrypt (bl_data b) id = Ok d.

Definition in_index (w : world) (it : Info) : Prop := exists id d l, index_blob w id d /\ index_of d l /\ it ∈ l.

Lemma holds_mem x l l' it : holds x l key_size -> holds x l' key_size -> it ∈ l -> it ∈ l'.
Proof.
  intros Hl Hl' Hit. pose proof (holds_list _ _ _ Hl) as Hlist. destruct Hlist as [Hs Hv Hk] eqn:Eq. clear Eq. rewrite Forall_forall in Hv, Hk.
  destruct (GetInfo_law x l key_size (ContentID it) Hl (Hv it Hit) (Hk it Hit)) as (x1 & E1 & _).
  destruct (GetInfo_law x l' key_size (ContentID it) Hl' (Hv it Hit) (Hk it Hit)) as (x2 & E2 & _).
  assert (find_info l (ContentID it) = find_info l' (ContentID it)) as E by congruence.
  destruct (find_info l (ContentID it)) as [jt|] eqn:Ef.
  - apply find_info_Some in Ef as [Hj Hc]. assert (jt = it) as ->.
    { apply (NoDup_fmap_inj_elem ContentID l); [exact (index_list_NoDup _ _ Hlist)|done..]. }
    symmetry in E. by apply find_info_Some in E as [? _].
  - apply find_info_None in Ef. exfalso. apply Ef. by apply list_elem_of_fmap_2.
Qed.

Lemma index_of_mem d l l' it : index_of d l -> index_of d l' -> it ∈ l -> it ∈ l'.
Proof. intros (x & Hx & Hl) (x' & Hx' & Hl'). rewrite Hx in Hx'. injection Hx' as <-. by apply holds_mem with x. Qed.

Lemma index_name_inj id d d' : index_name id d -> index_name id d' -> HashFunc d = HashFunc d'.
Proof.
  intros [t ->] [t' E]. apply string_app_inj in E as [_ E]; [|done].
  apply hex_app_inj in E; [done|apply hash_bytes|apply hash_bytes|by rewrite !hash_length_law].
Qed.

(** ** The storage *)

(** The name of a pack with identifier [r]. *)
Definition pack_name (id : string) (r : list Z) : Prop :=
  length r = packBlobIDLength /\ byte_list r /\ len id < 256
  /\ exists prefix t, prefix ∈ [PackBlobIDPrefixRegular; PackBlobIDPrefixSpecial] /\ id = prefix +:+ (hex_encode r +:+ t).

Lemma pack_name_inj id r r' : pack_name id r -> pack_name id r' -> r = r'.
Proof.
  intros (Hn & Hb & _ & p & t & Hp & ->) (Hn' & Hb' & _ & p' & t' & Hp' & E).
  apply string_app_inj in E as [_ E].
  - apply hex_app_inj in E; [done..|]. congruence.
  - clear -Hp Hp'. set_unfold. destruct Hp as [->|[->|[]]], Hp' as [->|[->|[]]]; done.
Qed.

Lemma pack_name_is_pack id r : pack_name id r -> is_pack id = true.
Proof. intros (_ & _ & _ & p & t & Hp & ->). unfold is_pack. set_unfold. by destruct Hp as [->|[->|[]]]. Qed.

Lemma index_not_pack id : is_index id = true -> is_pack id = false.
Proof. unfold is_index, is_pack, V0IndexBlobPrefix, PackBlobIDPrefixRegular, PackBlobIDPrefixSpecial. destruct id as [|c id]; [done|]. rewrite !HasPrefix_byte. intros E%Ascii.eqb_eq. by subst c. Qed.

Record storage_ok (w : world) : Prop := {
  so_index id : is_index id = true -> is_Some (w_blobs w !! id) ->
    exists d l, index_blob w id d /\ d ∈ w_hashed w /\ index_name id d /\ index_of d l /\ Forall (fun it => entry_ok w it /\ in_time it) l;
  so_packs id : is_pack id = true -> is_Some (w_blobs w !! id) -> exists r, r ∈ w_drawn w /\ pack_name id r
}.

(** How a storage may change, the packs in [F] staying as they are: packs keep
    their data and index blobs what they say. *)
Record extends (F : string -> Prop) (w w' : world) : Prop := {
  ex_grows : grows w w';
  ex_packs id b : is_pack id = true -> w_blobs w !! id = Some b -> exists b', w_blobs w' !! id = Some b' /\ bl_data b' = bl_data b;
  ex_index id d : index_blob w id d -> index_blob w' id d;
  ex_kept id : F id -> is_pack id = true -> bl_data <$> w_blobs w' !! id = bl_data <$> w_blobs w !! id
}.

#[export] Instance extends_preorder F : PreOrder (extends F).
Proof.
  split; [split; [done|by eauto|done|done]|].
  intros a b c [G1 P1 I1 K1] [G2 P2 I2 K2]. split.
  - by etrans.
  - intros id x Hi Hx. destruct (P1 id x Hi Hx) as (y & Hy & <-). by apply P2.
  - auto.
  - intros id HF Hi. rewrite K2, K1; done.
Qed.

Lemma extends_weaken (F F' : string -> Prop) w w' : (forall id, F' id -> F id) -> extends F w w' -> extends F' w w'.
Proof. intros HF [? ? ? ?]. split; auto. Qed.

Lemma backed_extends F w w' it : extends F w w' -> backed w it -> backed w' it.
Proof.
  intros [G P _ _] (Hi & b & d & Hb & Hr & Hn & Hd). split; [done|].
  destruct (P _ _ Hi Hb) as (b' & Hb' & E). exists b', d. rewrite E. eauto using grows_hashed.
Qed.

Lemma entry_ok_extends F w w' it : extends F w w' -> entry_ok w it -> entry_ok w' it.
Proof. intros He [[Hs Ht] Hb]. split; [split; [done|eapply timely_grows; [apply He|done]]|]. intros Hd. eauto using backed_extends. Qed.

Lemma in_index_extends F w w' it : extends F w w' -> in_index w it -> in_index w' it.
Proof. intros [_ _ I _] (id & d & l & Hi & Ho & Hit). exists id, d, l. auto. Qed.

End Invariants.
