(* ===== verification/ContentInv.v ===== *)
(** * The invariant of a content manager

    What a manager keeps true of its packs, its indexes and the storage, how an
    operation may change them, and the rules by which operations are composed.
    [F] are the packs of other managers on the same storage, [D] the contents an
    operation may delete. *)

From S2P Require Import Prelude GoStrings GoText GoTime Db IndexID IndexTable IndexV1 IndexV2 IndexV2Facts IndexBuild IndexMergedFacts IndexRoundTrip Gather PackFormat ContentStore IndexBlobV0 CommittedIndex ContentManager ContentSpec.
Open Scope go_scope.

Section Inv.
Context {TE : Environment} {TC : Crypter} {TCL : CrypterLaws} {TP : Parameters} {TF : Config} {TK : Compressors} {TL : ContentLaws}.

(** ** Changes that touch neither packs nor indexes *)

Definition tame (w w' : world) : Prop :=
  grows w w' /\ forall id, is_pack id || is_index id = true -> w_blobs w' !! id = w_blobs w !! id.

#[export] Instance tame_preorder : PreOrder tame.
Proof. split; [by intros w; split|]. intros a b c [G1 B1] [G2 B2]. split; [by etrans|]. intros id Hi. by rewrite B2, B1. Qed.

Lemma tame_pack w w' id : tame w w' -> is_pack id = true -> w_blobs w' !! id = w_blobs w !! id.
Proof. intros [_ B] Hi. apply B. by rewrite Hi. Qed.

Lemma tame_index w w' id : tame w w' -> is_index id = true -> w_blobs w' !! id = w_blobs w !! id.
Proof. intros [_ B] Hi. apply B. by rewrite Hi, orb_true_r. Qed.

Lemma tame_index_blob w w' id d : tame w w' -> index_blob w' id d <-> index_blob w id d.
Proof. intros Ht. unfold index_blob. split; intros [Hi Hb]; (split; [done|]); by rewrite ?(tame_index _ _ _ Ht Hi) in *. Qed.

Lemma tame_in_index w w' it : tame w w' -> in_index w' it <-> in_index w it.
Proof. intros Ht. unfold in_index. split; intros (id & d & l & Hb & ?); exists id, d, l; by rewrite ?(tame_index_blob _ _ _ _ Ht) in *. Qed.

Lemma tame_extends F w w' : tame w w' -> extends F w w'.
Proof.
  intros Ht. split.
  - apply Ht.
  - intros id b Hi Hb. exists b. by rewrite (tame_pack _ _ _ Ht Hi).
  - intros id d. by rewrite (tame_index_blob _ _ _ _ Ht).
  - intros id _ Hi. by rewrite (tame_pack _ _ _ Ht Hi).
Qed.

Lemma tame_storage w w' : tame w w' -> storage_ok w -> storage_ok w'.
Proof.
  intros Ht [Hi Hp]. pose proof (tame_extends (fun _ => True) _ _ Ht) as He. pose proof (proj1 Ht) as Hg. split.
  - intros id Hid. rewrite (tame_index _ _ _ Ht Hid). intros Hs. destruct (Hi id Hid Hs) as (d & l & Hb & Hd & Hn & Ho & Hl).
    exists d, l. split_and!; [by rewrite tame_index_blob|by eapply grows_hashed|done|done|].
    eapply Forall_impl; [exact Hl|]. intros it [? ?]. split; [by eapply entry_ok_extends|done].
  - intros id Hid. rewrite (tame_pack _ _ _ Ht Hid). intros Hs. destruct (Hp id Hid Hs) as (r & Hr & Hn). exists r. split; [by eapply grows_drawn|done].
Qed.

(** ** The invariant *)

Definition referenced (m : WriteManager) (p : nat) : Prop :=
  (exists prefix, wm_pendingPacks m !! prefix = Some p) \/ p ∈ wm_writingPacks m \/ p ∈ wm_failedPacks m.

Definition owned (m : WriteManager) (id : string) : Prop :=
  exists p pp, referenced m p /\ wm_packs m !! p = Some pp /\ pp_packBlobID pp = id.

(** An item of a pack whose data is here can be read from it. *)
Definition item_ok (w : world) (pp : pendingPackInfo) (i : ID) (it : Info) : Prop :=
  ContentID it = i /\ (shape it /\ timely w it)
  /\ (Deleted it = false -> PackBlobID it = pp_packBlobID pp)
  /\ (PackBlobID it = pp_packBlobID pp ->
      1 <= slen (pp_currentPackData pp)
      /\ exists d, pack_reads (pp_currentPackData pp) it d /\ named i d /\ d ∈ w_hashed w).

Record pack_ok (w : world) (pp : pendingPackInfo) : Prop := {
  pk_items i it : pp_currentPackItems pp !! i = Some it -> item_ok w pp i it;
  pk_name : exists r, r ∈ w_drawn w /\ pack_name (pp_packBlobID pp) r;
  pk_stored b : w_blobs w !! pp_packBlobID pp = Some b ->
    bl_data b = pp_currentPackData pp /\ (pp_finalized pp = true \/ pp_currentPackItems pp = ∅);
  pk_final : pp_finalized pp = true -> exists i it, pp_currentPackItems pp !! i = Some it /\ PackBlobID it = pp_packBlobID pp
}.

Definition pack_bound : Z := Z.max mp_MaxPackSize (slen RepositoryFormatBytes + maxPreambleLength + 1).

(** A pack that contents are added to was never uploaded. *)
Record pending_ok (w : world) (prefix : string) (pp : pendingPackInfo) : Prop := {
  pd_prefix : pp_prefix pp = prefix;
  pd_new : w_blobs w !! pp_packBlobID pp = None;
  pd_open : pp_finalized pp = false;
  pd_size : 1 <= slen (pp_currentPackData pp) < pack_bound
}.

(** An entry of an index that was read from the storage. *)
Definition read_ok (w : world) (it : Info) : Prop := entry_ok w it /\ in_time it /\ in_index w it.

Definition cached_ok (w : world) (c : gmap string pack_index) : Prop :=
  forall id x, c !! id = Some x ->
    exists d l, index_blob w id d /\ index_of d l /\ holds x l key_size /\ Forall (fun it => entry_ok w it /\ in_time it) l.

(** The merged indexes are lists of such entries, with every content of every
    index in use. *)
Definition merged_ok (w : world) (inUse : gmap string pack_index) (merged : list pack_index) (ls : list (list Info)) : Prop :=
  Forall2 (fun x l => holds x l key_size) merged ls /\ Forall (read_ok w) (concat ls)
  /\ forall id x l it, inUse !! id = Some x -> holds x l key_size -> it ∈ l ->
     exists it', it' ∈ concat ls /\ ContentID it' = ContentID it.

Record committed_ok (w : world) (c : committedContentIndex) : Prop := {
  co_merged : exists ls, merged_ok w (cc_inUse c) (cc_merged c) ls;
  co_cache : cached_ok w (cc_cache c);
  co_inUse : cached_ok w (cc_inUse c)
}.

(** The entries it has in memory. *)
Definition local_entry (m : WriteManager) (it : Info) : Prop :=
  (exists p pp i, referenced m p /\ wm_packs m !! p = Some pp /\ pp_currentPackItems pp !! i = Some it)
  \/ exists i, wm_packIndexBuilder m !! i = Some it.

(** They are of at most [n] contents. *)
Definition counted (n : nat) (m : WriteManager) : Prop :=
  exists ids : gset ID, (forall it, local_entry m it -> ContentID it ∈ ids) /\ (size ids <= n)%nat.

Lemma counted_sub n n' m m' : (n <= n')%nat -> (forall it, local_entry m' it -> exists it', local_entry m it' /\ ContentID it' = ContentID it) ->
  counted n m -> counted n' m'.
Proof. intros Hn Hl (ids & Hi & Hs). exists ids. split; [|lia]. intros it Hit. destruct (Hl it Hit) as (it' & ? & <-). auto. Qed.

Record inv (F : string -> Prop) (m : WriteManager) : Prop := {
  inv_storage : storage_ok (wm_world m);
  inv_foreign id : F id -> exists r, r ∈ w_drawn (wm_world m) /\ pack_name id r;
  inv_packs p : referenced m p -> exists pp, wm_packs m !! p = Some pp /\ pack_ok (wm_world m) pp /\ ~ F (pp_packBlobID pp);
  inv_pending prefix p : wm_pendingPacks m !! prefix = Some p ->
    (p ∉ wm_writingPacks m) /\ (p ∉ wm_failedPacks m) /\ exists pp, wm_packs m !! p = Some pp /\ pending_ok (wm_world m) prefix pp;
  inv_distinct p q pp qq : referenced m p -> referenced m q -> wm_packs m !! p = Some pp -> wm_packs m !! q = Some qq ->
    pp_packBlobID pp = pp_packBlobID qq -> p = q;
  inv_builder i it : wm_packIndexBuilder m !! i = Some it -> ContentID it = i /\ entry_ok (wm_world m) it;
  inv_committed : committed_ok (wm_world m) (sm_committed (wm_shared m));
  inv_markers : Forall (fun b => HasPrefix b BlobIDPrefixSession = true) (wm_sessionMarkerBlobIDs m);
  inv_session : len (s_ID (wm_currentSessionInfo m)) <= 64;
  inv_failed : NoDup (wm_failedPacks m);
  inv_count : counted (w_tick (wm_world m)) m
}.

(** ** What a manager knows *)

(** Entries of its own, and those of the storage's index. *)
Definition known (m : WriteManager) (it : Info) : Prop := local_entry m it \/ in_index (wm_world m) it.

Definition clean (m : WriteManager) (id : ID) : Prop := forall it, known m it -> ContentID it = id -> Deleted it = false.
Definition held (m : WriteManager) (id : ID) : Prop := exists it, known m it /\ ContentID it = id.

(** How an operation may change a manager. *)
Record evolves (F : string -> Prop) (D : ID -> Prop) (m m' : WriteManager) : Prop := {
  ev_extends : extends F (wm_world m) (wm_world m');
  ev_content id : ~ D id -> (clean m id -> clean m' id) /\ (held m id -> held m' id)
}.

#[export] Instance evolves_preorder F D : PreOrder (evolves F D).
Proof.
  split; [by intros m; split; [done|by auto]|]. intros a b c [E1 C1] [E2 C2]. split.
  - by etrans.
  - intros id HD. destruct (C1 id HD), (C2 id HD). auto.
Qed.

Lemma evolves_weaken F (D D' : ID -> Prop) m m' : (forall id, D id -> D' id) -> evolves F D m m' -> evolves F D' m m'.
Proof. intros HD [? Hc]. split; [done|]. intros id Hid. apply Hc. auto. Qed.

(** New entries are live or may be deleted, and no content is lost. *)
Lemma evolves_known F (D : ID -> Prop) m m' : extends F (wm_world m) (wm_world m') ->
  (forall it, known m' it -> known m it \/ D (ContentID it) \/ Deleted it = false
    \/ exists jt, known m jt /\ ContentID jt = ContentID it /\ Deleted jt = Deleted it) ->
  (forall it, known m it -> ~ D (ContentID it) -> exists it', known m' it' /\ ContentID it' = ContentID it) ->
  evolves F D m m'.
Proof.
  intros He Hn Hk. split; [done|]. intros id HD. split.
  - intros Hc it Hit Ei. destruct (Hn it Hit) as [Ho|[Hd|[Hl|(jt & Hj & Ej & Ed)]]]; [by apply Hc|by subst|done|]. rewrite <- Ed. apply Hc; congruence.
  - intros (it & Hit & Ei). destruct (Hk it Hit) as (it' & Hit' & E'); [by rewrite Ei|]. exists it'. split; [done|congruence].
Qed.

(** An operation that ended in [x] kept the invariant and, if it succeeded, has
    the postcondition. *)
Definition safe (F : string -> Prop) (D : ID -> Prop) (m : WriteManager) {A} (x : result content_error A * WriteManager)
    (Q : A -> WriteManager -> Prop) : Prop :=
  grows (wm_world m) (wm_world x.2)
  /\ (fortunate (wm_world x.2) -> inv F x.2 /\ evolves F D m x.2 /\ forall a, x.1 = Ok a -> Q a x.2).

(** [inv] is assumed of a manager whose history is fortunate. *)
Definition assumed (F : string -> Prop) (m : WriteManager) (P : WriteManager -> Prop) : Prop :=
  fortunate (wm_world m) -> inv F m /\ P m.

Section Rules.
Context {F : string -> Prop} {D : ID -> Prop}.

Lemma safe_ret m {A} (a : A) (Q : A -> WriteManager -> Prop) : assumed F m (Q a) -> safe F D m (Ok a, m) Q.
Proof. intros Hm. split; [done|]. intros Hf. destruct (Hm Hf) as [Hi HQ]. split; [done|]. split; [done|]. cbn. by intros ? [= <-]. Qed.

Lemma safe_fail m {A} e (Q : A -> WriteManager -> Prop) P : assumed F m P -> safe F D m (Err e, m) Q.
Proof. intros Hm. split; [done|]. intros Hf. destruct (Hm Hf) as [Hi _]. by split. Qed.

Lemma safe_bind m {A B} (c : M WriteManager A) (k : A -> M WriteManager B) Q1 Q :
  safe F D m (c m) Q1 ->
  (forall a m1, c m = (Ok a, m1) -> assumed F m1 (Q1 a) -> safe F D m1 (k a m1) Q) ->
  safe F D m (bind c k m) Q.
Proof.
  intros [Hg Hc] Hk. unfold bind. destruct (c m) as [[a|e] m1] eqn:E; cbn [fst snd] in *.
  - destruct (Hk a m1 eq_refl) as [Hg' Hk'].
    { intros Hf. destruct (Hc Hf) as (Hi & _ & HQ). split; [done|]. by apply HQ. }
    split; [by etrans|]. intros Hf. destruct (Hk' Hf) as (Hi & He & HQ).
    destruct (Hc (fortunate_before _ _ Hg' Hf)) as (_ & He' & _). split; [done|]. split; [by etrans|done].
  - split; [done|]. intros Hf. destruct (Hc Hf) as (Hi & He & _). by split.
Qed.

Lemma safe_attempt m {A} (c : M WriteManager A) Q :
  safe F D m (c m) Q -> safe F D m (attempt c m) (fun r m' => forall a, r = Ok a -> Q a m').
Proof.
  intros [Hg Hc]. unfold attempt. destruct (c m) as [r m1]. split; [done|]. intros Hf.
  destruct (Hc Hf) as (Hi & He & HQ). split; [done|]. split; [done|]. intros a [= <-]. exact HQ.
Qed.

Lemma safe_mono m {A} (x : result content_error A * WriteManager) (Q Q' : A -> WriteManager -> Prop) :
  (forall a, x.1 = Ok a -> fortunate (wm_world x.2) -> inv F x.2 -> Q a x.2 -> Q' a x.2) -> safe F D m x Q -> safe F D m x Q'.
Proof. intros HQ [Hg Hc]. split; [done|]. intros Hf. destruct (Hc Hf) as (Hi & He & H1). split; [done|]. split; [done|]. intros a Ha. by apply HQ; auto. Qed.

Lemma safe_for_each {A} (l : list A) (body : A -> M WriteManager unit) (I : list A -> WriteManager -> Prop) m :
  (forall x l' m1, assumed F m1 (I (x :: l')) -> safe F D m1 (body x m1) (fun _ => I l')) ->
  assumed F m (I l) -> safe F D m (for_each l body m) (fun _ => I []).
Proof.
  intros Hb. revert m. induction l as [|x l IH]; intros m Hm; cbn [for_each].
  - by apply safe_ret.
  - eapply safe_bind; [by apply Hb|]. intros a m1 _ Hm1. by apply IH.
Qed.

(** A change of fields that keeps the invariant. *)
Lemma safe_modify m f (Q : unit -> WriteManager -> Prop) P : assumed F m P -> wm_world (f m) = wm_world m ->
  (fortunate (wm_world m) -> inv F m -> P m -> inv F (f m) /\ evolves F D m (f m) /\ Q tt (f m)) ->
  safe F D m (modify f m) Q.
Proof.
  intros Hm Hw Hf. unfold modify, safe. cbn [fst snd]. rewrite Hw. split; [done|]. intros Hl. destruct (Hm Hl) as [Hi HP].
  destruct (Hf Hl Hi HP) as (? & ? & ?). split; [done|]. split; [done|]. by intros [] _.
Qed.
End Rules.

(** ** Operations on the storage *)

Definition tame_op {A} (c : M world A) : Prop := forall w, tame w (c w).2.

Lemma tame_ret {A} (a : A) : tame_op (ret a).
Proof. by intros w. Qed.

Lemma tame_fail {A} e : tame_op (A := A) (fail e).
Proof. by intros w. Qed.

Lemma tame_of_result {A} (r : result content_error A) : tame_op (of_result r).
Proof. by intros w. Qed.

Lemma tame_gets {A} (f : world -> A) : tame_op (gets f).
Proof. by intros w. Qed.

Lemma tame_bind {A B} (c : M world A) (k : A -> M world B) : tame_op c -> (forall a, tame_op (k a)) -> tame_op (bind c k).
Proof.
  intros Hc Hk w. unfold bind. specialize (Hc w). destruct (c w) as [[a|e] w1]; [|done]. etrans; [exact Hc|apply Hk].
Qed.

Lemma tame_attempt {A} (c : M world A) : tame_op c -> tame_op (attempt c).
Proof. intros Hc w. unfold attempt. specialize (Hc w). by destruct (c w). Qed.

Lemma tame_for_each {A} (l : list A) body : (forall x, x ∈ l -> tame_op (body x)) -> tame_op (for_each l body).
Proof.
  induction l as [|x l IH]; intros Hb; [apply tame_ret|]. apply tame_bind; [apply Hb; by left|]. intros _. apply IH.
  intros y Hy. apply Hb. by right.
Qed.

Lemma tame_next_turn : tame_op next_turn.
Proof. intros w. split; [|done]. split_and!; [by exists []..|]. cbn. lia. Qed.

Lemma tame_hashData d : tame_op (hashData d).
Proof. intros w. split; [|done]. split_and!; [by exists [d]|by exists []..|done]. Qed.

Lemma tame_execute {A} f (stmt : M world A) : tame_op stmt -> tame_op (execute ErrStorage f stmt).
Proof. intros Hs w. specialize (Hs w). destruct f; cbn; [done|done|]. exact Hs. Qed.

(** ** A manager on a changed storage *)

Definition with_world (m : WriteManager) (w : world) : WriteManager :=
  set_shared m (mkShared w (sm_committed (wm_shared m)) (sm_refreshIndexesAfter (wm_shared m))).

Lemma on_storage_eq {A} (c : M world A) m : on_storage c m = ((c (wm_world m)).1, with_world m (c (wm_world m)).2).
Proof. unfold on_storage, on_shared, on_world, with_world, wm_world. by destruct (c (sm_world (wm_shared m))). Qed.

Lemma pack_ok_extends F w w' pp : extends F w w' -> F (pp_packBlobID pp) -> pack_ok w pp -> pack_ok w' pp.
Proof.
  intros He HF [Hi (r & Hr & Hn) Hs Hfi]. pose proof (ex_grows _ _ _ He) as Hg. split.
  - intros i it Hit. destruct (Hi i it Hit) as (? & [? ?] & ? & Hd). split_and!; [done|done|by eapply timely_grows|done|]. intros E. destruct (Hd E) as (? & d & ? & ? & ?).
    split; [done|]. exists d. split_and!; [done..|]. by eapply grows_hashed.
  - exists r. split; [by eapply grows_drawn|done].
  - intros b Hb. pose proof (ex_kept _ _ _ He _ HF (pack_name_is_pack _ _ Hn)) as E. rewrite Hb in E.
    destruct (w_blobs w !! pp_packBlobID pp) as [b0|] eqn:E0; [|done]. injection E as E. rewrite E. by apply Hs.
  - exact Hfi.
Qed.

Lemma pending_ok_extends F w w' prefix pp : extends F w w' -> F (pp_packBlobID pp) -> is_pack (pp_packBlobID pp) = true ->
  pending_ok w prefix pp -> pending_ok w' prefix pp.
Proof.
  intros He HF Hp [? Hn ? ?]. split; try done. pose proof (ex_kept _ _ _ He _ HF Hp) as E. rewrite Hn in E.
  by destruct (w_blobs w' !! pp_packBlobID pp).
Qed.

Lemma read_ok_extends F w w' it : extends F w w' -> read_ok w it -> read_ok w' it.
Proof. intros He (? & ? & ?). split_and!; [by eapply entry_ok_extends|done|by eapply in_index_extends]. Qed.

Lemma cached_ok_extends F w w' c : extends F w w' -> cached_ok w c -> cached_ok w' c.
Proof.
  intros He Hc id x Hx. destruct (Hc id x Hx) as (d & l & Hb & Ho & Hh & Hl). exists d, l. split_and!; [by apply He|done|done|].
  eapply Forall_impl; [exact Hl|]. intros it [? ?]. split; [by eapply entry_ok_extends|done].
Qed.

Lemma committed_ok_extends F w w' c : extends F w w' -> committed_ok w c -> committed_ok w' c.
Proof.
  intros He [(ls & Hm & Hl & Hcov) Hc Hu]. assert (forall l, Forall (read_ok w) l -> Forall (read_ok w') l) as Hr.
  { intros l Hl'. eapply Forall_impl; [exact Hl'|]. intros it. by eapply read_ok_extends. }
  split; [exists ls; split_and!; by auto| |].
  - intros id x Hx. apply (cached_ok_extends _ _ _ _ He Hc id x Hx).
  - intros id x Hx. apply (cached_ok_extends _ _ _ _ He Hu id x Hx).
Qed.

(** The invariant holds on a storage where a pack that no content is added to
    any more has changed, and what others changed. *)
Lemma inv_changed_pack F F' m w' : inv F m -> storage_ok w' -> extends F' (wm_world m) w' ->
  (forall p pp, referenced m p -> wm_packs m !! p = Some pp ->
     F' (pp_packBlobID pp) \/ (pack_ok w' pp /\ forall prefix, wm_pendingPacks m !! prefix <> Some p)) ->
  inv F (with_world m w').
Proof.
  intros Hi Hw He HF. destruct Hi as [Hs Hfo Hp Hpe Hdi Hb Hc Hm Hse Hfl Hcnt]. split; cbn; try done.
  - intros id Hid. destruct (Hfo id Hid) as (r & Hr & Hn). exists r. split; [|done]. eapply grows_drawn; [apply He|done].
  - intros p Hr. destruct (Hp p Hr) as (pp & Hpp & Hok & Hnf). exists pp. split; [done|]. split; [|done].
    destruct (HF p pp Hr Hpp) as [HF'|[? _]]; [by eapply pack_ok_extends|done].
  - intros prefix p Hpr. destruct (Hpe prefix p Hpr) as (? & ? & pp & Hpp & Hok). split; [done|]. split; [done|]. exists pp. split; [done|].
    assert (referenced m p) as Hr by (left; eauto). destruct (HF p pp Hr Hpp) as [HF'|[_ Hno]]; [|by destruct (Hno prefix)].
    destruct (Hp p Hr) as (pp' & Hpp' & Hok' & _). rewrite Hpp in Hpp'. injection Hpp' as <-.
    eapply pending_ok_extends; [exact He|done| |done]. destruct (pk_name _ _ Hok') as (r & _ & Hn). by eapply pack_name_is_pack.
  - intros i it Hit. destruct (Hb i it Hit). split; [done|]. by eapply entry_ok_extends.
  - by eapply committed_ok_extends.
  - eapply counted_sub; [|by eauto|exact Hcnt]. apply He.
Qed.

Lemma inv_with_world F F' m w' : inv F m -> storage_ok w' -> extends F' (wm_world m) w' -> (forall id, owned m id -> F' id) ->
  inv F (with_world m w').
Proof. intros Hi Hw He HF. eapply inv_changed_pack; [done..|]. intros p pp Hr Hpp. left. apply HF. by exists p, pp. Qed.

Lemma evolves_tame F D m w' : tame (wm_world m) w' -> evolves F D m (with_world m w').
Proof.
  intros Ht. split; [by apply tame_extends|]. intros id _.
  assert (forall it, known (with_world m w') it <-> known m it) as Hk.
  { intros it. unfold known. change (wm_world (with_world m w')) with w'. by rewrite (tame_in_index _ _ _ Ht). }
  split; [intros Hc it; rewrite Hk; apply Hc|]. intros (it & Hit & E). exists it. by rewrite Hk.
Qed.

(** A tame operation on the storage is safe; [Q] is what its result says. *)
Lemma safe_storage F D m {A} (c : M world A) (Q : A -> WriteManager -> Prop) P : tame_op c -> assumed F m P ->
  (forall a w', c (wm_world m) = (Ok a, w') -> tame (wm_world m) w' -> fortunate w' -> inv F m -> P m -> Q a (with_world m w')) ->
  safe F D m (on_storage c m) Q.
Proof.
  intros Hc Hm HQ. rewrite on_storage_eq. specialize (Hc (wm_world m)). unfold safe. cbn [fst snd].
  change (wm_world (with_world m ?w)) with w. split; [apply Hc|]. intros Hf.
  destruct (Hm (fortunate_before _ _ (proj1 Hc) Hf)) as [Hi HP].
  split; [|split].
  - eapply inv_with_world; [done|by eapply tame_storage, inv_storage|by apply (tame_extends (fun _ => True))|done].
  - by apply evolves_tame.
  - intros a Ha. apply (HQ a); try done. rewrite <- Ha. by destruct (c (wm_world m)).
Qed.

End Inv.

Create HintDb tame.
#[export] Hint Resolve tame_ret tame_fail tame_of_result tame_gets tame_bind tame_attempt tame_next_turn tame_hashData tame_execute : tame.

(** Effects that touch neither packs nor indexes, by cases. *)
Ltac tame_auto :=
  repeat first [ progress intros | apply tame_bind | case_match | solve [eauto with tame] ].
