(* ===== verification/ContentStoreFacts.v ===== *)
(** * What operations on the storage leave alone, and what they return *)

From S2P Require Import Prelude GoStrings GoText GoTime Db IndexID IndexTable IndexV1 IndexV2 IndexV2Facts IndexBuild IndexMergedFacts IndexRoundTrip Gather PackFormat ContentStore IndexBlobV0 CommittedIndex ContentManager ContentSpec ContentInv.
Open Scope go_scope.

Lemma bind_Ok {S A B} (c : M S A) (k : A -> M S B) s b s' :
  bind c k s = (Ok b, s') -> exists a s1, c s = (Ok a, s1) /\ k a s1 = (Ok b, s').
Proof. unfold bind. destruct (c s) as [[a|e] s1]; [|done]. eauto. Qed.

(** Take a successful sequence apart. *)
Ltac inv_Ok H :=
  lazymatch type of H with
  | bind _ _ _ = (Ok _, _) =>
      let a := fresh "a" in let s := fresh "s" in let H1 := fresh "H" in let H2 := fresh "H" in
      apply bind_Ok in H as (a & s & H1 & H2); inv_Ok H1; inv_Ok H2
  | ret _ _ = (Ok _, _) => injection H as <- <-
  | gets _ _ = (Ok _, _) => injection H as <- <-
  | modify _ _ = (Ok _, _) => injection H as <- <-
  | fail _ _ = (Ok _, _) => discriminate H
  | _ => idtac
  end.

(** Run a sequence whose parts are known. *)
Ltac run_m := unfold bind, attempt, gets, modify, ret, fail, of_result, when, set_committed, bump_revision in *; cbn in *.

Section StoreFacts.
Context {TE : Environment} {TC : Crypter} {TCL : CrypterLaws} {TP : Parameters} {TF : Config} {TK : Compressors} {TL : ContentLaws}.

(** ** Tame operations *)

Lemma tame_timeNow : tame_op timeNow.
Proof. unfold timeNow. tame_auto. Qed.

Lemma tame_cryptorand n : tame_op (cryptorand n).
Proof. unfold cryptorand. tame_auto. Qed.

Lemma tame_GetBlob id off n : tame_op (GetBlob id off n).
Proof. unfold GetBlob. tame_auto. Qed.

Lemma tame_ListAllBlobs p : tame_op (ListAllBlobs p).
Proof. unfold ListAllBlobs. tame_auto. Qed.

Lemma tame_encrypt d iv : tame_op (encrypt d iv).
Proof. unfold encrypt. apply tame_bind; [apply tame_cryptorand|]. tame_auto. Qed.

Lemma tame_blob_Encrypt d p s : tame_op (blob_Encrypt d p s).
Proof.
  unfold blob_Encrypt. apply tame_bind; [apply tame_hashData|]. intros h. apply tame_bind; [apply tame_of_result|]. intros iv.
  apply tame_bind; [apply tame_encrypt|]. tame_auto.
Qed.

Lemma tame_GetEncryptedBlob id : tame_op (GetEncryptedBlob id).
Proof. unfold GetEncryptedBlob. apply tame_bind; [apply tame_GetBlob|]. tame_auto. Qed.

Lemma tame_parameters : tame_op GetMutableParameters.
Proof. unfold GetMutableParameters. tame_auto. Qed.

Lemma tame_shard_suffixes : tame_op shard_suffixes.
Proof. unfold shard_suffixes. tame_auto. Qed.

Lemma tame_lift_index {A} (r : result index_error A) : tame_op (lift_index r).
Proof. unfold lift_index. tame_auto. Qed.

Lemma tame_getCompactionLogEntries l : tame_op (getCompactionLogEntries l).
Proof.
  induction l as [|cb l IH]; cbn [getCompactionLogEntries]; [apply tame_ret|].
  apply tame_bind; [apply tame_attempt, tame_GetEncryptedBlob|]. intros [d|e].
  - case_match; [|apply tame_fail]. apply tame_bind; [done|]. intros. apply tame_ret.
  - destruct e; try apply tame_fail. done.
Qed.

Lemma tame_ListActive : tame_op ListActiveIndexBlobs.
Proof.
  unfold ListActiveIndexBlobs. apply tame_bind; [apply tame_ListAllBlobs|]. intros. apply tame_bind; [apply tame_ListAllBlobs|]. intros.
  apply tame_bind; [apply tame_getCompactionLogEntries|]. intros. apply tame_ret.
Qed.

(** Neither a pack nor an index. *)
Definition other_blob (id : string) : Prop := is_pack id || is_index id = false.

Lemma session_other id : HasPrefix id BlobIDPrefixSession = true -> other_blob id.
Proof.
  unfold other_blob, is_index, is_pack, V0IndexBlobPrefix, PackBlobIDPrefixRegular, PackBlobIDPrefixSpecial, BlobIDPrefixSession.
  destruct id as [|c id]; [done|]. rewrite !HasPrefix_byte. intros E%Ascii.eqb_eq. by subst c.
Qed.

Lemma tame_set_blobs w blobs : (forall id, is_pack id || is_index id = true -> blobs !! id = w_blobs w !! id) -> tame w (set_blobs w blobs).
Proof. intros Hb. split; [split_and!; [by exists []..|done]|done]. Qed.

Lemma tame_PutBlob id d : other_blob id -> tame_op (PutBlob id d).
Proof.
  intros Hid. unfold PutBlob. apply tame_bind; [apply tame_next_turn|]. intros t. apply tame_execute. intros w. cbn.
  apply tame_set_blobs. intros id' Hid'. apply lookup_insert_ne. unfold other_blob in Hid. congruence.
Qed.

Lemma tame_DeleteBlob id : other_blob id -> tame_op (DeleteBlob id).
Proof.
  intros Hid. unfold DeleteBlob. apply tame_bind; [apply tame_next_turn|]. intros t. apply tame_execute. intros w.
  destruct (w_blobs w !! id); [|done]. cbn. apply tame_set_blobs. intros id' Hid'. apply lookup_delete_ne.
  unfold other_blob in Hid. congruence.
Qed.

Lemma tame_draw : tame_op draw_pack_id.
Proof.
  unfold draw_pack_id. apply tame_bind; [apply tame_cryptorand|]. intros r. apply tame_bind; [|intros; apply tame_ret].
  intros w. split; [|done]. split_and!; [by exists []|by exists [r]|by exists []|done].
Qed.

Lemma tame_writeRandom b n : tame_op (writeRandomBytesToBuffer b n).
Proof. unfold writeRandomBytesToBuffer. case_match; [apply tame_fail|]. apply tame_bind; [apply tame_cryptorand|]. intros; apply tame_ret. Qed.

Lemma tame_rand_Intn n : tame_op (rand_Intn n).
Proof. unfold rand_Intn. tame_auto. Qed.

Lemma tame_getFormatBytes : tame_op getFormatBytes.
Proof. unfold getFormatBytes. apply tame_bind; [apply tame_parameters|]. intros; apply tame_ret. Qed.

Lemma tame_generateSessionID now : tame_op (generateSessionID now).
Proof. unfold generateSessionID. apply tame_bind; [apply tame_cryptorand|]. intros; apply tame_ret. Qed.

Lemma tame_contentWriteTime t : tame_op (contentWriteTime t).
Proof. unfold contentWriteTime. apply tame_bind; [apply tame_timeNow|]. intros; apply tame_ret. Qed.

Lemma tame_compress d id comp : tame_op (maybeCompressAndEncryptDataForPacking d id comp).
Proof.
  unfold maybeCompressAndEncryptDataForPacking. case_match; [|apply tame_fail]. apply tame_bind; [tame_auto|]. intros c.
  apply tame_bind; [apply tame_encrypt|]. intros; apply tame_ret.
Qed.

(** ** Results *)

Lemma cryptorand_Ok n w l w' : cryptorand n w = (Ok l, w') -> length l = n /\ byte_list l.
Proof.
  unfold cryptorand. intros Hr. inv_Ok Hr. destruct (tn_rand a) as [f|]; [|done]. injection H0 as <- <-. unfold random_bytes. split.
  - by rewrite length_fmap, length_seq.
  - apply Forall_fmap, Forall_true. intros x. apply byte_range.
Qed.

Lemma encrypt_Ok d iv w e w' : encrypt d iv w = (Ok e, w') -> Decrypt e iv = Some d /\ slen e = slen d + Overhead.
Proof.
  unfold encrypt. intros Hr. inv_Ok Hr. destruct (Encrypt a d iv) as [x|] eqn:E; [|done]. injection H0 as <- <-.
  split; [by eapply decrypt_encrypt|by eapply overhead_law].
Qed.

Lemma blob_Encrypt_Ok d p s w id e w' : blob_Encrypt d p s w = (Ok (id, e), w') ->
  blob_Decrypt e id = Ok d /\ d ∈ w_hashed w' /\ exists t, id = p +:+ (hex_encode (HashFunc d) +:+ t).
Proof.
  unfold blob_Encrypt. intros Hr. apply bind_Ok in Hr as (h & w1 & Hh & Hr). injection Hh as <- <-.
  apply bind_Ok in Hr as (iv & w2 & Hiv & Hr). unfold of_result in Hiv. injection Hiv as Hiv <-.
  apply bind_Ok in Hr as (x & w3 & Hx & Hr). injection Hr as <- <- <-. split; [|split].
  - unfold blob_Decrypt. rewrite Hiv. cbn. by apply encrypt_Ok in Hx as [-> _].
  - pose proof (tame_encrypt d iv (mkWorld (w_blobs w) (w_tick w) (d :: w_hashed w) (w_drawn w) (w_combined w))) as [Hg _]. rewrite Hx in Hg.
    eapply grows_hashed; [exact Hg|]. by left.
  - destruct (String.eqb s ""); [exists ""; by rewrite !sapp_nil_r|]. exists ("-" +:+ s)%string. by rewrite sapp_assoc.
Qed.

Lemma GetBlob_Ok id off n w d w' : GetBlob id off n w = (Ok d, w') ->
  exists b, w_blobs w !! id = Some b /\ get_range (bl_data b) off n = Some d.
Proof.
  unfold GetBlob. intros Hr. apply bind_Ok in Hr as (t & w1 & Ht & Hr). injection Ht as <- <-. destruct (negb _); [done|].
  apply bind_Ok in Hr as (bs & w1 & Hb & Hr). injection Hb as <- <-. cbn in Hr. destruct (w_blobs w !! id) as [b|]; [|done].
  exists b. split; [done|]. destruct (get_range _ _ _); [|done]. by injection Hr as <- _.
Qed.

(** What a read that fails can fail with. *)
Lemma GetBlob_Err id off n w e w' b : GetBlob id off n w = (Err e, w') -> w_blobs w !! id = Some b ->
  is_Some (get_range (bl_data b) off n) -> e = ErrStorage.
Proof.
  unfold GetBlob, bind, next_turn, gets. cbn. destruct (negb _); [by intros [= <-]|]. cbn.
  intros Hr Hb [d Hd]. rewrite Hb, Hd in Hr. done.
Qed.

Lemma get_range_all b d : get_range b 0 (-1) = Some d -> d = b.
Proof. unfold get_range. cbn. congruence. Qed.

Lemma GetEncryptedBlob_Ok id w d w' : GetEncryptedBlob id w = (Ok d, w') ->
  exists b, w_blobs w !! id = Some b /\ blob_Decrypt (bl_data b) id = Ok d.
Proof.
  unfold GetEncryptedBlob. intros Hr. apply bind_Ok in Hr as (p & w1 & Hp & Hr). unfold of_result in Hr. injection Hr as Hr _.
  apply GetBlob_Ok in Hp as (b & Hb & ->%get_range_all). eauto.
Qed.

Lemma ListAllBlobs_Ok p w l w' id : ListAllBlobs p w = (Ok l, w') ->
  id ∈ md_BlobID <$> l <-> is_Some (w_blobs w !! id) /\ HasPrefix id p = true.
Proof.
  unfold ListAllBlobs. intros Hr. apply bind_Ok in Hr as (t & w1 & Ht & Hr). injection Ht as <- <-. destruct (negb _); [done|].
  apply bind_Ok in Hr as (bs & w1 & Hb & Hr). injection Hb as <- <-. injection Hr as <- _. cbn. rewrite <- list_fmap_compose.
  rewrite list_elem_of_fmap. split.
  - intros ([i b] & -> & [Hp Hi%elem_of_map_to_list]%list_elem_of_filter). cbn in *. eauto.
  - intros [[b Hb] Hp]. exists (id, b). split; [done|]. apply list_elem_of_filter. split; [done|]. by apply elem_of_map_to_list.
Qed.

(** [indexMap] has the blobs that were listed. *)
Lemma addBlobsToIndex_lookup l ndx id : is_Some (addBlobsToIndex ndx l !! id) <-> is_Some (ndx !! id) \/ id ∈ md_BlobID <$> l.
Proof.
  revert ndx. induction l as [|md l IH]; intros ndx; cbn [addBlobsToIndex foldl fmap list_fmap].
  - split; [by left|]. intros [?|Hid]; [done|]. by apply not_elem_of_nil in Hid.
  - unfold addBlobsToIndex in IH. rewrite IH. destruct (ndx !! md_BlobID md) as [x|] eqn:E.
    + rewrite elem_of_cons. split; [by intros [?|?]; auto|]. intros [?|[->|?]]; [by left| |by right]. left. eauto.
    + rewrite lookup_insert_is_Some', elem_of_cons. naive_solver.
Qed.

Lemma addBlobsToIndex_keyed l ndx : map_Forall (fun id md => md_BlobID md = id) ndx ->
  map_Forall (fun id md => md_BlobID md = id) (addBlobsToIndex ndx l).
Proof.
  revert ndx. induction l as [|md l IH]; intros ndx Hn; [done|]. cbn. apply IH. destruct (ndx !! md_BlobID md); [done|].
  by apply map_Forall_insert_2.
Qed.

Lemma removeCompacted_sub logs bimap : removeCompactedIndexes bimap logs ⊆ bimap.
Proof.
  unfold removeCompactedIndexes. generalize (filter (fun cl => have_all_outputs bimap cl = true) logs). intros l.
  assert (forall l (m : gmap string Metadata), foldl (fun (m : gmap string Metadata) cl => foldl (fun m ib => delete (md_BlobID ib) m) m (InputMetadata cl)) m l ⊆ m) as Hs; [|apply Hs].
  clear. induction l as [|cl l IH]; intros m; [done|]. cbn. etrans; [apply IH|]. generalize (InputMetadata cl). intros ins. revert m.
  induction ins as [|ib ins IH']; intros m; [done|]. cbn. etrans; [apply IH'|]. apply delete_subseteq.
Qed.

(** Active blobs are index blobs of the storage. *)
Lemma ListActive_index w l t w' id : ListActiveIndexBlobs w = (Ok (l, t), w') -> id ∈ md_BlobID <$> l ->
  is_index id = true /\ is_Some (w_blobs w !! id).
Proof.
  unfold ListActiveIndexBlobs. intros Hr. apply bind_Ok in Hr as (ml & w1 & Hml & Hr). apply bind_Ok in Hr as (nl & w2 & Hnl & Hr).
  apply bind_Ok in Hr as (logs & w3 & Hlo & Hr). injection Hr as <- _ _. intros Hid.
  pose proof (tame_ListAllBlobs V0CompactionLogBlobPrefix w) as Ht. rewrite Hml in Ht.
  apply list_elem_of_fmap in Hid as (md & -> & Hmd). apply list_elem_of_fmap in Hmd as ([i md'] & -> & Hmd). cbn.
  apply elem_of_map_to_list in Hmd. eapply lookup_weaken in Hmd; [|apply removeCompacted_sub].
  pose proof (addBlobsToIndex_keyed nl ∅ (map_Forall_empty _)) as Hk. specialize (Hk _ _ Hmd). cbn in Hk. subst i.
  assert (md_BlobID md' ∈ md_BlobID <$> nl) as Hin.
  { pose proof (proj1 (addBlobsToIndex_lookup nl ∅ (md_BlobID md')) ltac:(eauto)) as [[? Hx]|?]; [by rewrite lookup_empty in Hx|done]. }
  rewrite (ListAllBlobs_Ok _ _ _ _ _ Hnl) in Hin. destruct Hin as [Hs Hp]. split; [exact Hp|].
  cbn [snd] in Ht. by rewrite (tame_index _ _ _ Ht) in Hs.
Qed.

(** Without compactions every index blob is active. *)
Lemma ListActive_all w l t w' id : ListActiveIndexBlobs w = (Ok (l, t), w') ->
  (forall mid, HasPrefix mid V0CompactionLogBlobPrefix = true -> w_blobs w !! mid = None) ->
  is_index id = true -> is_Some (w_blobs w !! id) -> id ∈ md_BlobID <$> l.
Proof.
  unfold ListActiveIndexBlobs. intros Hr Hm Hi Hs. apply bind_Ok in Hr as (ml & w1 & Hml & Hr). apply bind_Ok in Hr as (nl & w2 & Hnl & Hr).
  pose proof (tame_ListAllBlobs V0CompactionLogBlobPrefix w) as Ht. rewrite Hml in Ht. cbn [snd] in Ht.
  assert (ml = []) as ->.
  { destruct ml as [|md ml]; [done|]. pose proof (proj1 (ListAllBlobs_Ok _ _ _ _ (md_BlobID md) Hml) ltac:(by left)) as [[b Hb] Hp].
    by rewrite (Hm _ Hp) in Hb. }
  apply bind_Ok in Hr as (logs & w3 & Hlo & Hr). injection Hlo as <- _. injection Hr as <- _ _.
  assert (id ∈ md_BlobID <$> nl) as Hin by (apply (ListAllBlobs_Ok _ _ _ _ _ Hnl); rewrite (tame_index _ _ _ Ht Hi); done).
  destruct (proj2 (addBlobsToIndex_lookup nl ∅ id) ltac:(by right)) as [md Hmd].
  pose proof (addBlobsToIndex_keyed nl ∅ (map_Forall_empty _)) as Hk. specialize (Hk _ _ Hmd). cbn in Hk. subst id.
  apply list_elem_of_fmap. exists md. split; [done|]. apply list_elem_of_fmap. exists (md_BlobID md, md). split; [done|].
  by apply elem_of_map_to_list.
Qed.

End StoreFacts.

#[export] Hint Resolve tame_timeNow tame_cryptorand tame_GetBlob tame_ListAllBlobs tame_encrypt tame_blob_Encrypt tame_GetEncryptedBlob
  tame_parameters tame_shard_suffixes tame_lift_index tame_ListActive tame_draw tame_writeRandom tame_rand_Intn tame_getFormatBytes
  tame_generateSessionID tame_contentWriteTime tame_compress : tame.
