(* ===== verification/CommittedFacts.v ===== *)
(** * The committed index

    Loading and using index blobs keeps to what the storage holds, and finds
    all of it. *)

From S2P Require Import Prelude GoStrings GoText GoTime Db IndexID IndexTable IndexV1 IndexV2 IndexV2Facts IndexBuild IndexMergedFacts IndexRoundTrip Gather PackFormat ContentStore IndexBlobV0 CommittedIndex ContentManager ContentSpec ContentInv ContentStoreFacts.
Open Scope go_scope.

Section CommittedFacts.
Context {TE : Environment} {TC : Crypter} {TCL : CrypterLaws} {TP : Parameters} {TF : Config} {TK : Compressors} {TL : ContentLaws}.

(** ** Composition *)

Definition s_assumed (s : SharedManager) (P : SharedManager -> Prop) : Prop :=
  fortunate (sm_world s) -> storage_ok (sm_world s) /\ committed_ok (sm_world s) (sm_committed s) /\ P s.

Definition s_safe (s : SharedManager) {A} (x : result content_error A * SharedManager) (Q : A -> SharedManager -> Prop) : Prop :=
  tame (sm_world s) (sm_world x.2)
  /\ (fortunate (sm_world x.2) -> committed_ok (sm_world x.2) (sm_committed x.2) /\ forall a, x.1 = Ok a -> Q a x.2).

Lemma s_assumed_storage s s' P Q : tame (sm_world s) (sm_world s') -> s_assumed s P ->
  (fortunate (sm_world s') -> committed_ok (sm_world s') (sm_committed s') /\ Q s') -> s_assumed s' Q.
Proof.
  intros Ht Hs HQ Hf. destruct (Hs (fortunate_before _ _ (proj1 Ht) Hf)) as (Hst & _). destruct (HQ Hf). split; [|done].
  by eapply tame_storage.
Qed.

Lemma s_ret s {A} (a : A) (Q : A -> SharedManager -> Prop) : s_assumed s (Q a) -> s_safe s (Ok a, s) Q.
Proof. intros Hs. split; [done|]. intros Hf. destruct (Hs Hf) as (? & ? & ?). split; [done|]. by intros ? [= <-]. Qed.

Lemma s_fail s {A} e (Q : A -> SharedManager -> Prop) P : s_assumed s P -> s_safe s (Err e, s) Q.
Proof. intros Hs. split; [done|]. intros Hf. destruct (Hs Hf) as (? & ? & ?). by split. Qed.

Lemma s_bind s {A B} (c : M SharedManager A) (k : A -> M SharedManager B) Q1 Q P : s_assumed s P ->
  s_safe s (c s) Q1 -> (forall a s1, c s = (Ok a, s1) -> s_assumed s1 (Q1 a) -> s_safe s1 (k a s1) Q) -> s_safe s (bind c k s) Q.
Proof.
  intros Hs [Ht Hc] Hk. unfold bind. destruct (c s) as [[a|e] s1] eqn:E; cbn [fst snd] in *.
  - destruct (Hk a s1 eq_refl) as [Ht' Hk'].
    { eapply s_assumed_storage; [exact Ht|exact Hs|]. intros Hf. destruct (Hc Hf) as (? & HQ). split; [done|]. by apply HQ. }
    split; [by etrans|done].
  - split; [done|]. intros Hf. destruct (Hc Hf) as (? & _). by split.
Qed.

Lemma s_attempt s {A} (c : M SharedManager A) Q : s_safe s (c s) Q -> s_safe s (attempt c s) (fun r s' => forall a, r = Ok a -> Q a s').
Proof. intros [Ht Hc]. unfold attempt. destruct (c s) as [r s1]. split; [done|]. intros Hf. destruct (Hc Hf) as (? & HQ). split; [done|]. intros a [= <-]. exact HQ. Qed.

Lemma s_mono s {A} (x : result content_error A * SharedManager) (Q Q' : A -> SharedManager -> Prop) P : s_assumed s P ->
  (forall a, P s -> tame (sm_world s) (sm_world x.2) -> Q a x.2 -> Q' a x.2) -> s_safe s x Q -> s_safe s x Q'.
Proof.
  intros Hs HQ [Ht Hc]. split; [done|]. intros Hf. destruct (Hc Hf) as (? & ?). split; [done|].
  destruct (Hs (fortunate_before _ _ (proj1 Ht) Hf)) as (_ & _ & HP). auto.
Qed.

Definition s_with_world (s : SharedManager) (w : world) : SharedManager := mkShared w (sm_committed s) (sm_refreshIndexesAfter s).

Lemma s_on_world s {A} (c : M world A) (Q : A -> SharedManager -> Prop) P : tame_op c -> s_assumed s P ->
  (forall a w', c (sm_world s) = (Ok a, w') -> tame (sm_world s) w' -> storage_ok (sm_world s) -> P s -> Q a (s_with_world s w')) ->
  s_safe s (on_world c s) Q.
Proof.
  intros Hc Hs HQ. unfold on_world. specialize (Hc (sm_world s)). destruct (c (sm_world s)) as [r w'] eqn:E. cbn [snd] in Hc.
  split; [done|]. cbn [fst snd sm_world sm_committed]. intros Hf. destruct (Hs (fortunate_before _ _ (proj1 Hc) Hf)) as (Hst & Hco & HP). split.
  - eapply committed_ok_extends; [by apply (tame_extends (fun _ => True))|done].
  - intros a ->. by eapply HQ.
Qed.

Lemma s_set s c (Q : unit -> SharedManager -> Prop) P : s_assumed s P ->
  (fortunate (sm_world s) -> storage_ok (sm_world s) -> committed_ok (sm_world s) (sm_committed s) -> P s ->
   committed_ok (sm_world s) c /\ Q tt (mkShared (sm_world s) c (sm_refreshIndexesAfter s))) ->
  s_safe s (set_committed c s) Q.
Proof.
  intros Hs Hc. unfold set_committed, modify. split; [done|]. cbn [fst snd sm_world sm_committed]. intros Hf.
  destruct (Hs Hf) as (? & ? & ?). destruct (Hc Hf) as [? ?]; [done..|]. split; [done|]. by intros [] _.
Qed.

(** ** Lookups *)

(** Entries that merged indexes hold. *)
Definition merged_holds (c : committedContentIndex) (ls : list (list Info)) : Prop :=
  Forall2 (fun x l => holds x l key_size) (cc_merged c) ls.

Definition id_ok (id : ID) : Prop := valid_id id /\ slen (id_key id) = key_size.

Lemma answers_read w ls id it : Forall (read_ok w) (concat ls) -> IndexBuild.answers (concat ls) id (Some it) -> read_ok w it /\ ContentID it = id.
Proof. intros Hl (Hin & Hc & _). rewrite Forall_forall in Hl. auto. Qed.

Lemma getContent_safe s id P : id_ok id -> s_assumed s P ->
  s_safe s (getContent id s) (fun info s' => read_ok (sm_world s') info /\ ContentID info = id).
Proof.
  intros [Hv Hk] Hs. unfold getContent. cbn [bind gets].
  destruct (Merged_GetInfo (cc_merged (sm_committed s)) id) as [r merged] eqn:E.
  split; [cbn; by repeat case_match|]. intros Hf.
  assert (sm_world s = sm_world (snd
    ((set_committed (mkCommitted (cc_rev (sm_committed s)) (cc_cache (sm_committed s)) (cc_deletionWatermark (sm_committed s))
        (cc_inUse (sm_committed s)) merged) ;;*
      match r with
      | Ok (Some info) => if shouldIgnore info (cc_deletionWatermark (sm_committed s)) then fail ErrContentNotFound else ret info
      | Ok None => fail ErrContentNotFound
      | Err e => fail (ErrIndexData e)
      end) s))) as Ew by (cbn; by repeat case_match).
  rewrite <- Ew in Hf. destruct (Hs Hf) as (Hst & [(ls & Hm & Hl & Hcov) Hc Hu] & _).
  destruct (Merged_GetInfo_spec _ ls key_size id Hm Hv Hk) as (r' & m' & E' & Hm' & Ha). rewrite E in E'. injection E' as -> ->.
  cbn. destruct r' as [info|]; cbn.
  - destruct (answers_read _ _ _ _ Hl Ha). destruct (shouldIgnore _ _); cbn; (split; [split; [by exists ls; split_and!|done|done]|]); [done|].
    intros a [= <-]. done.
  - split; [split; [by exists ls; split_and!|done|done]|done].
Qed.

(** A content that the merged indexes hold and nobody deleted is found. *)
Lemma getContent_finds s ls id it : id_ok id -> merged_holds (sm_committed s) ls -> it ∈ concat ls -> ContentID it = id ->
  (forall jt, jt ∈ concat ls -> ContentID jt = id -> Deleted jt = false) ->
  exists info s', getContent id s = (Ok info, s') /\ info ∈ concat ls /\ ContentID info = id /\ sm_world s' = sm_world s.
Proof.
  intros [Hv Hk] Hm Hit Hc Hd. unfold getContent. cbn [bind gets].
  destruct (Merged_GetInfo_spec _ ls key_size id Hm Hv Hk) as (r & m' & -> & _ & Ha).
  destruct r as [info|]; [|by apply Ha in Hit]. destruct Ha as (Hin & Hci & _).
  exists info. eexists. cbn. unfold shouldIgnore. rewrite (Hd _ Hin Hci). cbn. done.
Qed.

(** ** The cache *)

Lemma open_index_of d x l : Open d Overhead = Ok x -> index_of d l -> holds x l key_size.
Proof. intros Hx (x' & Hx' & Hl). rewrite Hx in Hx'. by injection Hx' as <-. Qed.

(** The plaintext of an index blob of the storage. *)
Lemma index_blob_entries w id d : storage_ok w -> index_blob w id d ->
  exists l, index_of d l /\ Forall (fun it => entry_ok w it /\ in_time it) l.
Proof.
  intros Hs Hb. destruct Hb as [Hi (b & Hb & Hd)]. destruct (so_index _ Hs id Hi) as (d' & l & [_ (b' & Hb' & Hd')] & _ & _ & Ho & Hl); [eauto|].
  rewrite Hb in Hb'. injection Hb' as <-. rewrite Hd in Hd'. injection Hd' as <-. eauto.
Qed.

Lemma cached_insert w c id x d : storage_ok w -> cached_ok w c -> index_blob w id d -> Open d Overhead = Ok x ->
  cached_ok w (<[id := x]> c).
Proof.
  intros Hs Hc Hb Hx id' x' Hl. apply lookup_insert_Some in Hl as [[<- <-]|[_ Hl]]; [|by apply Hc].
  destruct (index_blob_entries w id d Hs Hb) as (l & Ho & Hf). exists d, l. split_and!; [done|done|by eapply open_index_of|done].
Qed.

Lemma cached_read w c id x : cached_ok w c -> c !! id = Some x -> exists l, holds x l key_size /\ Forall (read_ok w) l.
Proof.
  intros Hc Hx. destruct (Hc id x Hx) as (d & l & Hb & Ho & Hh & Hl). exists l. split; [done|].
  apply Forall_forall. intros it Hit. rewrite Forall_forall in Hl. destruct (Hl it Hit). split_and!; [done|done|]. by exists id, d, l.
Qed.

(** An index blob of the storage is added, in use or not. *)
Lemma addIndexBlob_safe s id d use_ P : s_assumed s (fun s => index_blob (sm_world s) id d /\ P s) ->
  s_safe s (addIndexBlob id d use_ s) (fun _ s' => sm_world s' = sm_world s
    /\ (forall id', is_Some (cc_cache (sm_committed s) !! id') -> is_Some (cc_cache (sm_committed s') !! id'))
    /\ is_Some (cc_cache (sm_committed s') !! id)).
Proof.
  intros Hs. unfold addIndexBlob, addContentToCache. destruct (Open d Overhead) as [x|e] eqn:Ex.
  2: { run_m. split; [done|]. cbn. intros Hf. destruct (Hs Hf) as (_ & [? ? ?] & _). split; [by split|done]. }
  destruct use_; run_m.
  - destruct (cc_inUse (sm_committed s) !! id) eqn:Eu; run_m.
    + split; [done|]. cbn. intros Hf. destruct (Hs Hf) as (Hst & [Hm Hc Hu] & Hb & _).
      split; [split; [done|by eapply cached_insert|done]|]. intros [] _. split; [done|]. split; [|rewrite lookup_insert_eq; eauto].
      intros id' ?. rewrite lookup_insert_is_Some'. by right.
    + unfold openIndex. cbn. rewrite lookup_insert_eq. run_m. split; [done|]. cbn. intros Hf.
      destruct (Hs Hf) as (Hst & [(ls & Hm & Hl & Hcov) Hc Hu] & Hb & _).
      assert (cached_ok (sm_world s) (<[id:=x]> (cc_cache (sm_committed s)))) as Hc' by (by eapply cached_insert).
      destruct (cached_read _ _ id x Hc') as (l & Hh & Hr); [apply lookup_insert_eq|].
      split; [split|].
      * exists (ls ++ [l]). unfold merged_ok. cbn. rewrite concat_app. cbn. rewrite app_nil_r.
        split_and!; [apply Forall2_app; [done|by repeat constructor]|by apply Forall_app|].
        intros id' x' l' it Hx' Hl' Hit. apply lookup_insert_Some in Hx' as [[_ ->]|[_ Hx']].
        -- exists it. split; [|done]. apply elem_of_app. right. by eapply holds_mem.
        -- destruct (Hcov _ _ _ _ Hx' Hl' Hit) as (it' & ? & ?). exists it'. split; [|done]. apply elem_of_app. by left.
      * done.
      * by eapply cached_insert.
      * intros [] _. cbn. split; [done|]. split; [|rewrite lookup_insert_eq; eauto].
        intros id' ?. rewrite lookup_insert_is_Some'. by right.
  - split; [done|]. cbn. intros Hf. destruct (Hs Hf) as (Hst & [Hm Hc Hu] & Hb & _).
    split; [split; [done|by eapply cached_insert|done]|]. intros [] _. split; [done|]. split; [|rewrite lookup_insert_eq; eauto].
    intros id' ?. rewrite lookup_insert_is_Some'. by right.
Qed.

(** ** Loading *)

Definition cached (s : SharedManager) (id : string) : Prop := is_Some (cc_cache (sm_committed s) !! id).

Lemma fetch_missing_safe ids s P : Forall (fun id => is_index id = true) ids -> s_assumed s P ->
  s_safe s (fetch_missing ids s) (fun _ s' =>
    (permissiveCacheLoading = false -> forall id, id ∈ ids -> cached s' id) /\ forall id, cached s id -> cached s' id).
Proof.
  intros Hids. revert s P. induction Hids as [|id ids Hid Hids IH]; intros s P Hs; cbn [fetch_missing].
  { apply s_ret. intros Hf. destruct (Hs Hf) as (? & ? & ?). split; [done|]. split; [done|]. split; [|done].
    intros _ id Hid. by apply not_elem_of_nil in Hid. }
  eapply (s_bind _ _ _ (fun r s' => (forall d, r = Ok d -> index_blob (sm_world s') id d) /\ (forall id, cached s id -> cached s' id))); [exact Hs| |].
  { eapply (s_mono _ _ (fun r s' => (forall d, r = Ok d -> index_blob (sm_world s') id d /\ sm_committed s' = sm_committed s) /\ sm_committed s' = sm_committed s)); [exact Hs| |].
    - intros r _ _ [HQ Ec]. split; [intros d Hd; by apply HQ|]. unfold cached. by rewrite Ec.
    - destruct (on_world (GetEncryptedBlob id) s) as [r s1] eqn:E. unfold attempt. rewrite E.
      pose proof (s_on_world s (GetEncryptedBlob id) (fun d s' => index_blob (sm_world s') id d) P (tame_GetEncryptedBlob id) Hs) as Hw.
      rewrite E in Hw. destruct Hw as [Ht Hw].
      { intros d w' Ew Ht _ _. cbn. apply GetEncryptedBlob_Ok in Ew as (b & Hb & Hd). split; [done|]. exists b. by rewrite (tame_index _ _ _ Ht). }
      split; [done|]. cbn [fst snd]. intros Hf. destruct (Hw Hf) as [Hc HQ]. split; [done|]. intros a [= <-].
      assert (sm_committed s1 = sm_committed s) as Ec.
      { unfold on_world in E. destruct (GetEncryptedBlob id (sm_world s)). by injection E as <- <-. }
      split; [|done]. intros d Hd. split; [|done]. by apply HQ. }
  intros r s1 _ Hs1. destruct r as [d|e].
  - eapply (s_bind _ _ _ (fun _ s' => (forall id, cached s id -> cached s' id) /\ cached s' id)); [exact Hs1| |].
    + eapply s_mono; [exact Hs1| |eapply (addIndexBlob_safe _ _ _ _ (fun s1 => forall id, cached s id -> cached s1 id))]; cbn beta.
      * intros a [_ Hk] _ (_ & Hk' & Hx). split; [|exact Hx]. intros id' Hid'. by apply Hk', Hk.
      * intros Hf. destruct (Hs1 Hf) as (? & ? & Hd & Hk). split; [done|]. split; [done|]. split; [by apply Hd|exact Hk].
    + intros a s2 _ Hs2. eapply s_mono; [exact Hs2| |by eapply IH]; cbn beta. intros b [Hk Hx] _ [Ha Hk']. split.
      * intros Hp id' [->|Hid']%elem_of_cons; [by apply Hk'|by apply Ha].
      * intros id' Hid'. by apply Hk', Hk.
  - destruct permissiveCacheLoading eqn:Ep.
    + eapply s_mono; [exact Hs1| |by eapply IH]; cbn beta. intros b [_ Hk] _ [_ Hk']. split; [done|]. intros id' Hid'. by apply Hk', Hk.
    + by eapply s_fail.
Qed.

(** The indexes that are opened, each with the entries of its blob. *)
Definition opened_ok (w : world) (e : string * pack_index) : Prop :=
  exists d l, index_blob w e.1 d /\ index_of d l /\ holds e.2 l key_size /\ Forall (fun it => entry_ok w it /\ in_time it) l.

Lemma merge_files_ok w c files opened : committed_ok w c -> merge_files c files = Ok opened ->
  Forall (opened_ok w) opened /\ (permissiveCacheLoading = false -> opened.*1 = files).
Proof.
  intros Hc. revert opened. induction files as [|e files IH]; intros opened; cbn [merge_files]; [by intros [= <-]|].
  destruct (match cc_inUse c !! e with Some ndx => Ok ndx | None => openIndex c e end) as [ndx|err] eqn:E.
  - destruct (merge_files c files) as [rest|] eqn:Er; [|done]. intros [= <-]. destruct (IH rest eq_refl) as [Hf Hp]. split.
    + constructor; [|done]. unfold openIndex in E. destruct (cc_inUse c !! e) as [x|] eqn:Eu.
      * injection E as <-. apply (co_inUse _ _ Hc _ _ Eu).
      * destruct (cc_cache c !! e) as [x|] eqn:Ec; [|done]. injection E as <-. apply (co_cache _ _ Hc _ _ Ec).
    + intros Hn. cbn. f_equal. auto.
  - destruct permissiveCacheLoading eqn:Ep; [|done]. intros Hr. destruct (IH opened Hr) as [Hf _]. by split.
Qed.

(** Entries added one by one. *)
Lemma feed_add (l : list Info) (b : Builder) : feed (E := unit) (fun i b => (None, Add b i)) l b = (Ok tt, foldl Add b l).
Proof. revert b. induction l as [|i l IH]; intros b; [done|]. cbn. by rewrite IH. Qed.

Lemma iterate_add x l (b : Builder) : holds x l key_size ->
  exists x', Iterate (E := unit) x AllIDs (fun i b => (None, Add b i)) b = (Ok tt, x', foldl Add b l).
Proof.
  intros Hx. destruct (Iterate_law (E := unit) x l key_size AllIDs (fun i b => (None, Add b i)) b Hx) as (x' & _ & ->). exists x'.
  rewrite filter_all; [by rewrite feed_add|]. pose proof (holds_list _ _ _ Hx) as [_ Hv _].
  eapply Forall_impl; [exact Hv|]. intros it. apply AllIDs_all.
Qed.

Lemma add_small_ok m ls b r : Forall2 (fun x l => holds x l key_size) m ls -> add_small b m = Ok r -> r = foldl Add b (concat ls).
Proof.
  intros Hm. revert b. induction Hm as [|x l m ls Hx Hm IH]; intros b; cbn [add_small concat]; [by intros [= <-]|].
  destruct (iterate_add x l b Hx) as (x' & ->). intros Hr. rewrite foldl_app. by apply IH.
Qed.

(** Every content of [ls] is in [ls'], and nothing else. *)
Definition covers (ls ls' : list (list Info)) : Prop :=
  (forall it, it ∈ concat ls' -> it ∈ concat ls)
  /\ forall it, it ∈ concat ls -> exists it', it' ∈ concat ls' /\ ContentID it' = ContentID it.

Lemma Forall2_filter {A B} (R : A -> B -> Prop) (P : A -> Prop) `{!forall x, Decision (P x)} m ls : Forall2 R m ls ->
  exists ks, Forall2 R (filter P m) ks /\ forall l, l ∈ ks -> l ∈ ls.
Proof.
  induction 1 as [|x l m ls Hx _ (ks & Hk & Hin)]; [exists []; by split|]. rewrite filter_cons. case_decide.
  - exists (l :: ks). split; [by constructor|]. intros l' [->|Hl']%elem_of_cons; [by left|right; auto].
  - exists ks. split; [done|]. intros l' Hl'. right. auto.
Qed.

Lemma Forall2_split {A B} (R : A -> list B -> Prop) (f : A -> bool) m ls : Forall2 R m ls ->
  exists ks ks', Forall2 R (filter (fun x => f x = true) m) ks /\ Forall2 R (filter (fun x => f x = false) m) ks'
    /\ forall it, it ∈ concat ls <-> it ∈ concat ks \/ it ∈ concat ks'.
Proof.
  induction 1 as [|x l m ls Hx _ (ks & ks' & Hk & Hk' & Hin)]; [exists [], []; split_and!; [done|done|]; intros it; cbn; set_solver|].
  rewrite !filter_cons. destruct (f x) eqn:E; cbn.
  - exists (l :: ks), ks'. split_and!; [by constructor|done|]. intros it. cbn. rewrite !elem_of_app, Hin. tauto.
  - exists ks, (l :: ks'). split_and!; [done|by constructor|]. intros it. cbn. rewrite !elem_of_app, Hin. tauto.
Qed.

Lemma concat_one {A} (l : list A) : concat [l] = l.
Proof. apply app_nil_r. Qed.

Lemma combined_index adds suffix buf x : Forall (fun it => shape it /\ in_time it) adds ->
  Build (foldl Add ∅ adds) mp_IndexVersion suffix = Ok buf -> slen buf < 2 ^ 32 -> Open buf Overhead = Ok x ->
  exists l, holds x l key_size /\ covers [adds] [l].
Proof.
  intros Hg Hb Hs Hx. assert (Forall (good_entry mp_IndexVersion Overhead key_size) adds) as Hgood.
  { eapply Forall_impl; [exact Hg|]. intros it [? ?]. by apply shape_good. }
  pose proof (built_keyed adds _ _ _ Hgood) as Hk. unfold Build in Hb.
  destruct (buildStable (foldl Add ∅ adds) mp_IndexVersion) as [d|] eqn:Hd; [|done]. destruct suffix as [suf|]; [|done]. injection Hb as <-.
  destruct (part_contents _ (foldl Add ∅ adds) mp_IndexVersion Overhead key_size Hk) as (_ & Hl & Hst); [done|by intros; eapply built_entry|].
  rewrite slen_app in Hs. pose proof (slen_nonneg suf).
  destruct (Open_built mp_IndexVersion Overhead _ key_size d suf Hl Hst Hd) as (x' & Hx' & Hh); [lia|]. rewrite Hx in Hx'. injection Hx' as <-.
  destruct (contents_spec _ Hk) as (_ & _ & Hin). eexists. split; [exact Hh|]. unfold covers. rewrite !concat_one. split.
  - intros it Hit%Hin. by eapply built_entry.
  - intros it Hit. pose proof (builder_answers adds (ContentID it)) as Ha. destruct (foldl Add ∅ adds !! ContentID it) as [it'|] eqn:E.
    + destruct Ha as (_ & Hc & _). exists it'. split; [|done]. apply Hin. by rewrite Hc.
    + by apply Ha in Hit.
Qed.

Lemma read_shape w l : Forall (read_ok w) l -> Forall (fun it => shape it /\ in_time it) l.
Proof. intros Hl. eapply Forall_impl; [exact Hl|]. intros it ([[? ?] ?] & ? & ?). done. Qed.

Lemma s_tame_bind {A B} (c : M SharedManager A) (k : A -> M SharedManager B) s :
  tame (sm_world s) (sm_world (c s).2) -> (forall a s1, tame (sm_world s1) (sm_world (k a s1).2)) ->
  tame (sm_world s) (sm_world (bind c k s).2).
Proof. intros Hc Hk. unfold bind. destruct (c s) as [[a|e] s1]; [|done]. etrans; [exact Hc|apply Hk]. Qed.

Lemma s_tame_world {A} (c : M world A) s : tame_op c -> tame (sm_world s) (sm_world (on_world c s).2).
Proof. intros Hc. unfold on_world. specialize (Hc (sm_world s)). by destruct (c (sm_world s)). Qed.

Lemma tame_enter_combined buf : tame_op (enter_combined buf).
Proof. intros w. split; [|done]. split_and!; [by exists []|by exists []|by exists [buf]|done]. Qed.

Lemma combine_tame m s : tame (sm_world s) (sm_world (combineSmallIndexes m s).2).
Proof.
  unfold combineSmallIndexes. case_match; [done|]. apply s_tame_bind; [done|]. intros b s1.
  apply s_tame_bind; [apply s_tame_world, tame_parameters|]. intros _ s2. apply s_tame_bind; [apply s_tame_world, tame_shard_suffixes|].
  intros sx s3. apply s_tame_bind; [by unfold lift_index; case_match|]. intros buf s4.
  apply s_tame_bind; [apply s_tame_world, tame_enter_combined|]. intros _ s5. apply s_tame_bind; [by unfold lift_index; case_match|]. done.
Qed.

Lemma combine_safe s m ls P : Forall2 (fun x l => holds x l key_size) m ls ->
  s_assumed s (fun s => Forall (read_ok (sm_world s)) (concat ls) /\ P s) ->
  s_safe s (combineSmallIndexes m s) (fun merged s' =>
    sm_committed s' = sm_committed s /\ exists ls', Forall2 (fun x l => holds x l key_size) merged ls' /\ covers ls ls').
Proof.
  intros Hm Hs. unfold combineSmallIndexes. destruct (slen (filter (fun ndx => is_small ndx = true) m) <=? 1).
  { apply s_ret. intros Hf. destruct (Hs Hf) as (? & ? & ? & ?). split_and!; [done..|]. exists ls. split; [done|]. split; [done|]. eauto. }
  destruct (Forall2_split _ is_small m ls Hm) as (ks & ks' & Hk & Hk' & Hin).
  unfold of_result, bind at 1. destruct (add_small ∅ _) as [b|e] eqn:Eb; [|by eapply s_fail].
  apply (add_small_ok _ ks) in Eb; [|done]. subst b.
  set (I := fun s' : SharedManager => Forall (read_ok (sm_world s')) (concat ls) /\ sm_committed s' = sm_committed s).
  assert (s_assumed s I) as Hs0.
  { intros Hf. destruct (Hs Hf) as (? & ? & ? & ?). by split_and!. }
  assert (forall s1 w', tame (sm_world s1) w' -> I s1 -> I (s_with_world s1 w')) as HI.
  { intros s1 w' Ht [H1 H2]. split; [|done]. cbn. eapply Forall_impl; [exact H1|]. intros it. eapply read_ok_extends. by apply (tame_extends (fun _ => True)). }
  eapply (s_bind _ _ _ (fun _ => I)); [exact Hs0|eapply s_on_world; [apply tame_parameters|exact Hs0|by eauto]|]. intros _ s1 _ Hs1.
  eapply (s_bind _ _ _ (fun _ => I)); [exact Hs1|eapply s_on_world; [apply tame_shard_suffixes|exact Hs1|by eauto]|]. intros suffixes s2 _ Hs2.
  unfold lift_index at 1. destruct (Build _ _ _) as [buf|e] eqn:Ebuf; [|by eapply s_fail]. unfold ret at 1, bind at 1.
  eapply (s_bind _ _ _ (fun _ s' => I s' /\ buf ∈ w_combined (sm_world s'))); [exact Hs2|eapply s_on_world; [apply tame_enter_combined|exact Hs2|]|].
  { intros [] w' Ew Ht _ Hi. split; [by apply HI|]. injection Ew as <-. cbn. by left. }
  intros _ s3 _ Hs3. unfold lift_index. destruct (Open buf Overhead) as [x|e] eqn:Ex; [|by eapply s_fail]. unfold bind, ret. cbn.
  apply s_ret. intros Hf. destruct (Hs3 Hf) as (Hst & Hco & [Hr Hc] & Hbuf). split; [done|]. split; [done|]. split; [done|].
  destruct (combined_index (concat ks) (suffixes 0%nat) buf x) as (l & Hh & Hsub & Hcov); [|done| |done|].
  - eapply read_shape. eapply Forall_forall. intros it Hit. rewrite Forall_forall in Hr. apply Hr, Hin. by left.
  - pose proof (f_small _ Hf) as Hsm. rewrite Forall_forall in Hsm. apply Hsm. apply elem_of_app. by right.
  - rewrite !concat_one in Hsub, Hcov. exists (ks' ++ [l]). split; [apply Forall2_app; [done|by repeat constructor]|].
    unfold covers. rewrite concat_app. cbn. rewrite app_nil_r. split.
    + intros it [Hit|Hit]%elem_of_app; apply Hin; [by right|left; auto].
    + intros it [Hit|Hit]%Hin.
      * destruct (Hcov it Hit) as (it' & Hit' & Hc'). exists it'. split; [|done]. apply elem_of_app. by right.
      * exists it. split; [|done]. apply elem_of_app. by left.
Qed.

(** ** Using *)

Definition in_use (s : SharedManager) (id : string) : Prop := is_Some (cc_inUse (sm_committed s) !! id).

(** What an index in use says is found. *)
Lemma in_use_found w c ls id d l it : merged_ok w (cc_inUse c) (cc_merged c) ls -> cached_ok w (cc_inUse c) ->
  is_Some (cc_inUse c !! id) -> index_blob w id d -> index_of d l -> it ∈ l -> exists it', it' ∈ concat ls /\ ContentID it' = ContentID it.
Proof.
  intros (_ & _ & Hcov) Hc [x Hx] Hb Ho Hit. destruct (Hc id x Hx) as (d' & l' & [_ (b' & Hb' & Hd')] & Ho' & Hh & _).
  destruct Hb as [_ (b & Hb & Hd)]. rewrite Hb in Hb'. injection Hb' as <-. rewrite Hd in Hd'. injection Hd' as <-.
  eapply Hcov; [exact Hx|exact Hh|]. exact (index_of_mem d l l' it Ho Ho' Hit).
Qed.

Lemma opened_lists w opened : Forall (opened_ok w) opened ->
  exists ls, Forall2 (fun x l => holds x l key_size) opened.*2 ls /\ Forall (read_ok w) (concat ls)
    /\ forall e l it, e ∈ opened -> holds e.2 l key_size -> it ∈ l -> it ∈ concat ls.
Proof.
  induction 1 as [|[id x] opened (d & l & Hb & Ho & Hh & Hl) _ (ls & Hm & Hr & Hcov)].
  { exists []. split_and!; [constructor|constructor|]. intros e l it He. by apply not_elem_of_nil in He. }
  cbn in *. exists (l :: ls). split_and!; [by constructor| |].
  - cbn. apply Forall_app. split; [|done]. apply Forall_forall. intros it Hit. rewrite Forall_forall in Hl. destruct (Hl it Hit).
    split_and!; [done|done|]. by exists id, d, l.
  - intros e l' it [->|He]%elem_of_cons Hh' Hit; cbn; apply elem_of_app; [left; by eapply holds_mem|right; eauto].
Qed.

Lemma opened_cached w opened : Forall (opened_ok w) opened -> cached_ok w (list_to_map opened).
Proof. intros Ho id x Hx. apply elem_of_list_to_map_2 in Hx. rewrite Forall_forall in Ho. apply (Ho _ Hx). Qed.

Lemma use_safe s files t P : s_assumed s P ->
  s_safe s (use files t s) (fun _ s' => permissiveCacheLoading = false -> forall id, id ∈ files -> in_use s' id).
Proof.
  intros Hs. unfold use. unfold gets at 1, bind at 1. set (c := mkCommitted _ _ t _ _).
  eapply (s_bind _ _ _ (fun _ s' => sm_committed s' = c /\ committed_ok (sm_world s') c)); [exact Hs| |].
  { eapply s_set; [exact Hs|]. intros _ _ [? ? ?] _. cbn. split; [by split|]. split; [done|by split]. }
  intros _ s1 _ Hs1. destruct (negb (indexFilesChanged c files)) eqn:Ech.
  { apply s_ret. intros Hf. destruct (Hs1 Hf) as (? & ? & Ec & ?). split; [done|]. split; [done|]. intros _ id Hid. unfold in_use. rewrite Ec.
    unfold indexFilesChanged in Ech. apply negb_true_iff, orb_false_iff in Ech as [_ Ech]. apply negb_false_iff in Ech.
    rewrite forallb_forall in Ech. apply list_elem_of_In in Hid. specialize (Ech _ Hid). by apply bool_decide_eq_true in Ech. }
  unfold of_result, bind at 1. destruct (merge_files c files) as [opened|e] eqn:Em; [|by eapply s_fail].
  destruct (combineSmallIndexes opened.*2 s1) as [r s2] eqn:Ecomb.
  assert (s_safe s1 (combineSmallIndexes opened.*2 s1) (fun merged s' => sm_committed s' = c
    /\ exists ls, merged_ok (sm_world s') (list_to_map opened) merged ls /\ Forall (opened_ok (sm_world s')) opened)) as Hcomb.
  2: { eapply s_bind; [exact Hs1|exact Hcomb|]. intros merged s3 _ Hs3. eapply s_set; [exact Hs3|]. cbn.
       intros Hf Hst Hco (Ec & ls & Hm & Hop). split; [split|].
       - by exists ls.
       - intros id x Hx. apply map_lookup_filter_Some in Hx as [Hx _]. destruct Hco as [_ Hcc _]. rewrite Ec in Hcc. by apply Hcc.
       - by apply opened_cached.
       - intros Hp id Hid. unfold in_use. cbn. destruct (merge_files_ok (sm_world s3) c files opened) as [_ Hf1]; [by rewrite <- Ec|done|].
         rewrite <- (Hf1 Hp) in Hid. apply list_elem_of_fmap in Hid as ([id' x] & -> & Hx). cbn.
         destruct (list_to_map (M := gmap string pack_index) opened !! id') eqn:El; [eauto|]. apply not_elem_of_list_to_map in El. exfalso.
         apply El. apply (list_elem_of_fmap_2 fst) in Hx. exact Hx. }
  clear r s2 Ecomb.
  assert (fortunate (sm_world s1) -> exists ls, Forall2 (fun x l => holds x l key_size) opened.*2 ls /\ Forall (read_ok (sm_world s1)) (concat ls)
    /\ (forall e l it, e ∈ opened -> holds e.2 l key_size -> it ∈ l -> it ∈ concat ls) /\ Forall (opened_ok (sm_world s1)) opened) as Hls.
  { intros Hf. destruct (Hs1 Hf) as (_ & _ & Ec & Hc). destruct (merge_files_ok _ _ _ _ Hc Em) as [Hop _].
    destruct (opened_lists _ _ Hop) as (ls & ? & ? & ?). by exists ls. }
  assert (tame_combine : tame (sm_world s1) (sm_world (combineSmallIndexes opened.*2 s1).2)).
  { by apply combine_tame. }
  split; [done|]. intros Hf. pose proof (fortunate_before _ _ (proj1 tame_combine) Hf) as Hf1.
  destruct (Hls Hf1) as (ls & Hm & Hr & Hcov & Hop).
  destruct (combine_safe s1 opened.*2 ls (fun s => sm_committed s = c) Hm) as [_ Hcs].
  { intros _. destruct (Hs1 Hf1) as (? & ? & ? & ?). by split_and!. }
  destruct (Hcs Hf) as [Hco HQ]. split; [done|]. intros merged Hmer. destruct (HQ merged Hmer) as (Ec & ls' & Hm' & Hsub & Hc').
  destruct (Hs1 Hf1) as (_ & _ & Ec1 & _). split; [congruence|]. exists ls'.
  assert (forall it, read_ok (sm_world s1) it -> read_ok (sm_world (combineSmallIndexes opened.*2 s1).2) it) as Hro.
  { intros it. eapply read_ok_extends. by apply (tame_extends (fun _ => True)). }
  split; [split_and!; [done| |]|].
  - apply Forall_forall. intros it Hit. apply Hro. rewrite Forall_forall in Hr. auto.
  - intros id x l it Hx Hl Hit. apply elem_of_list_to_map_2 in Hx. destruct (Hc' it) as (it' & ? & ?); [|by exists it'].
    by apply (Hcov (id, x) l).
  - eapply Forall_impl; [exact Hop|]. intros e (d & l & Hb & Ho & Hh & Hl). exists d, l. split_and!; [|done|done|].
    + by rewrite tame_index_blob.
    + eapply Forall_impl; [exact Hl|]. intros it [? ?]. split; [|done]. eapply entry_ok_extends; [|done]. by apply (tame_extends (fun _ => True)).
Qed.

(** ** Reading changes no blob *)

Definition still {S T} (blobs : S -> T) {A} (c : M S A) : Prop := forall s, blobs (c s).2 = blobs s.

Section Still.
Context {S T : Type} (blobs : S -> T).

Lemma still_ret {A} (a : A) : still blobs (ret a).
Proof. done. Qed.
Lemma still_fail {A} e : still blobs (fail (A := A) e).
Proof. done. Qed.
Lemma still_of_result {A} (r : result content_error A) : still blobs (of_result r).
Proof. done. Qed.
Lemma still_gets {A} (f : S -> A) : still blobs (gets f).
Proof. done. Qed.
Lemma still_bind {A B} (c : M S A) (k : A -> M S B) : still blobs c -> (forall a, still blobs (k a)) -> still blobs (bind c k).
Proof. intros Hc Hk s. unfold bind. specialize (Hc s). destruct (c s) as [[a|e] s1]; [|done]. cbn in Hc. by rewrite Hk. Qed.
Lemma still_attempt {A} (c : M S A) : still blobs c -> still blobs (attempt c).
Proof. intros Hc s. unfold attempt. specialize (Hc s). by destruct (c s). Qed.
Lemma still_modify f : (forall s, blobs (f s) = blobs s) -> still blobs (modify f).
Proof. intros Hf s. apply Hf. Qed.
End Still.

Abbreviation s_blobs := (fun s => w_blobs (sm_world s)).

Lemma still_on_world {A} (c : M world A) : still w_blobs c -> still s_blobs (on_world c).
Proof. intros Hc s. unfold on_world. specialize (Hc (sm_world s)). by destruct (c (sm_world s)). Qed.

Lemma still_next_turn : still w_blobs next_turn.
Proof. done. Qed.
Lemma still_set_committed c : still s_blobs (set_committed c).
Proof. done. Qed.
Lemma still_enter buf : still w_blobs (enter_combined buf).
Proof. done. Qed.

Ltac still_auto := repeat first [ progress intros | case_match | solve [apply still_ret] | solve [apply still_fail]
  | solve [apply still_of_result] | solve [apply still_gets] | solve [apply still_next_turn] | solve [apply still_set_committed]
  | solve [apply still_enter] | solve [by apply still_modify] | assumption | apply still_bind | apply still_attempt | apply still_on_world ].

Lemma still_getBlob id : still w_blobs (GetEncryptedBlob id).
Proof. unfold GetEncryptedBlob, GetBlob. still_auto. Qed.

Lemma still_logs l : still w_blobs (getCompactionLogEntries l).
Proof. induction l as [|cb l IH]; cbn [getCompactionLogEntries]; [done|]. pose proof (still_getBlob (md_BlobID cb)). still_auto. Qed.

Lemma still_ListActive : still w_blobs ListActiveIndexBlobs.
Proof. unfold ListActiveIndexBlobs, ListAllBlobs. pose proof still_logs. still_auto. apply H. Qed.

Lemma still_addIndexBlob id d u : still s_blobs (addIndexBlob id d u).
Proof. unfold addIndexBlob, addContentToCache, bump_revision. still_auto. Qed.

Lemma still_fetch ids : still s_blobs (fetchIndexBlobs ids).
Proof.
  unfold fetchIndexBlobs. apply still_bind; [apply still_gets|]. intros c. generalize (filter (fun id => cc_cache c !! id = None) ids). clear.
  induction l as [|id l IH]; cbn [fetch_missing]; [done|]. apply still_bind; [apply still_attempt, still_on_world, still_getBlob|].
  intros [d|e]; [apply still_bind; [apply still_addIndexBlob|intros; exact IH]|]. case_match; [exact IH|apply still_fail].
Qed.

Lemma still_use files t : still s_blobs (use files t).
Proof. unfold use, combineSmallIndexes, lift_index, GetMutableParameters, shard_suffixes. still_auto. Qed.

(** ** Loading what is active *)

Definition no_compactions (w : world) : Prop := forall id, HasPrefix id V0CompactionLogBlobPrefix = true -> w_blobs w !! id = None.

(** Every index blob of the storage is in use. *)
Definition up_to_date (s : SharedManager) : Prop :=
  permissiveCacheLoading = false -> no_compactions (sm_world s) ->
  forall id, is_index id = true -> is_Some (w_blobs (sm_world s) !! id) -> in_use s id.

Lemma load_safe n s P : s_assumed s P -> s_safe s (load_attempts n s) (fun _ s' => up_to_date s').
Proof.
  revert s P. induction n as [|n IH]; intros s P Hs; cbn [load_attempts]; [by eapply s_fail|].
  eapply (s_bind _ _ _ (fun _ _ => True)); [exact Hs|eapply s_on_world; [apply tame_parameters|exact Hs|done]|]. intros _ s1 _ Hs1.
  eapply (s_bind _ _ _ (fun active s' => Forall (fun id => is_index id = true) (md_BlobID <$> active.1)
    /\ (no_compactions (sm_world s') -> forall id, is_index id = true -> is_Some (w_blobs (sm_world s') !! id) -> id ∈ md_BlobID <$> active.1))); [exact Hs1| |].
  { eapply s_on_world; [apply tame_ListActive|exact Hs1|]. intros [l t] w' Ew Ht _ _. cbn. split.
    - apply Forall_forall. intros id Hid. by eapply ListActive_index.
    - pose proof (still_ListActive (sm_world s1)) as Eb. rewrite Ew in Eb. cbn in Eb. unfold no_compactions. rewrite Eb.
      intros Hno id Hi Hb. by eapply ListActive_all. }
  intros [l t] s2 Ew Hs2. cbn [fst snd] in *.
  assert (Forall (fun id => is_index id = true) (md_BlobID <$> l)) as Hall.
  { unfold on_world in Ew. destruct (ListActiveIndexBlobs (sm_world s1)) as [r w'] eqn:E. injection Ew as -> _.
    apply Forall_forall. intros id Hid. by eapply ListActive_index. }
  eapply (s_bind _ _ _ (fun r s' => w_blobs (sm_world s') = w_blobs (sm_world s2)
    /\ (no_compactions (sm_world s2) -> forall id, is_index id = true -> is_Some (w_blobs (sm_world s2) !! id) -> id ∈ md_BlobID <$> l))); [exact Hs2| |].
  { eapply (s_mono _ _ (fun r s' => w_blobs (sm_world s') = w_blobs (sm_world s2))); [exact Hs2| |].
    - intros r [_ H1] _ H2. by split.
    - pose proof (still_fetch (md_BlobID <$> l) s2) as Eb.
      destruct (fetch_missing_safe (filter (fun id => cc_cache (sm_committed s2) !! id = None) (md_BlobID <$> l)) s2 _ (Forall_filter_sub _ _ _ Hall) Hs2) as [Ht Hc].
      change (fetch_missing (filter (fun id => cc_cache (sm_committed s2) !! id = None) (md_BlobID <$> l)) s2) with (fetchIndexBlobs (md_BlobID <$> l) s2) in *.
      unfold attempt. destruct (fetchIndexBlobs (md_BlobID <$> l) s2) as [r s3]. split; [done|]. intros Hf. destruct (Hc Hf) as [Hco _]. split; [done|].
      intros a _. exact Eb. }
  intros r s3 _ Hs3. destruct r as [[]|e].
  - eapply (s_bind _ _ _ (fun _ s' => up_to_date s')); [exact Hs3| |].
    + eapply (s_mono _ _ (fun _ s' => w_blobs (sm_world s') = w_blobs (sm_world s3) /\ (permissiveCacheLoading = false -> forall id, id ∈ md_BlobID <$> l -> in_use s' id))); [exact Hs3| |].
      * intros a [E2 Hin] _ [E3 Hu] Hp Hno id Hid Hs'. apply (Hu Hp). unfold no_compactions in *. rewrite E3, E2 in *. by apply Hin.
      * pose proof (still_use (md_BlobID <$> l) t s3) as Eb. destruct (use_safe s3 (md_BlobID <$> l) t _ Hs3) as [Ht Hc]. split; [done|].
        intros Hf. destruct (Hc Hf) as [Hco HQ]. split; [done|]. intros a Ha. split; [exact Eb|]. exact (HQ a Ha).
    + intros _ s4 _ Hs4. eapply (s_bind _ _ _ (fun _ s' => up_to_date s')); [exact Hs4| |].
      * eapply s_on_world; [apply tame_timeNow|exact Hs4|]. intros a w' Ew' _ _ Hu.
        assert (w_blobs w' = w_blobs (sm_world s4)) as Eb by (unfold timeNow, bind, next_turn, ret in Ew'; by injection Ew' as _ <-).
        intros Hp Hno id Hid Hs'. unfold no_compactions in Hno. cbn in Hs', Hno. rewrite Eb in Hs', Hno. by apply Hu.
      * intros now s5 _ Hs5. split; [done|]. cbn. intros Hf. destruct (Hs5 Hf) as (_ & ? & Hu). by split.
  - destruct e; first [by eapply IH|by eapply s_fail].
Qed.

Lemma Refresh_safe s P : s_assumed s P -> s_safe s (Refresh s) (fun _ s' => up_to_date s').
Proof.
  intros Hs. unfold Refresh. eapply (s_bind _ _ _ (fun _ _ => True)); [exact Hs|eapply s_on_world; [apply tame_parameters|exact Hs|done]|].
  intros _ s1 _ Hs1. by eapply load_safe.
Qed.

Lemma up_to_date_same s w' : w_blobs w' = w_blobs (sm_world s) -> up_to_date s -> up_to_date (s_with_world s w').
Proof. intros E Hu Hp Hno id Hi Hb. unfold no_compactions in Hno. cbn in *. rewrite E in *. by apply Hu. Qed.

Lemma shouldRefresh_safe s P : s_assumed s P -> s_safe s (shouldRefreshIndexes s) (fun _ s' => up_to_date s -> up_to_date s').
Proof.
  intros Hs. unfold shouldRefreshIndexes. eapply (s_bind _ _ _ (fun _ s' => up_to_date s -> up_to_date s')); [exact Hs| |].
  - eapply s_on_world; [apply tame_timeNow|exact Hs|]. intros t w' Ew _ _ _. apply up_to_date_same.
    unfold timeNow, bind, next_turn, ret in Ew. by injection Ew as _ <-.
  - intros now s1 _ Hs1. apply s_ret. intros Hf. destruct (Hs1 Hf) as (? & ? & ?). done.
Qed.

End CommittedFacts.
