(* ===== verification/ContentFacts.v ===== *)
(** * Reading contents, sessions and new packs *)

From S2P Require Import Prelude GoStrings GoText GoTime Db IndexID IndexTable IndexV1 IndexV2 IndexV2Facts IndexBuild IndexMergedFacts IndexRoundTrip Gather PackFormat ContentStore IndexBlobV0 CommittedIndex ContentManager ContentSpec ContentInv ContentStoreFacts CommittedFacts.
Open Scope go_scope.

Section ContentFacts.
Context {TE : Environment} {TC : Crypter} {TCL : CrypterLaws} {TP : Parameters} {TF : Config} {TK : Compressors} {TL : ContentLaws}.
Context {F : string -> Prop} {D : ID -> Prop}.

(** ** Changes outside the packs *)

(** The packs, the index being built and what the storage has of both are as
    they were. *)
Record frame (m m' : WriteManager) : Prop := {
  fr_tame : tame (wm_world m) (wm_world m');
  fr_packs : wm_packs m' = wm_packs m;
  fr_pending : wm_pendingPacks m' = wm_pendingPacks m;
  fr_writing : wm_writingPacks m' = wm_writingPacks m;
  fr_failed : wm_failedPacks m' = wm_failedPacks m;
  fr_builder : wm_packIndexBuilder m' = wm_packIndexBuilder m
}.

#[export] Instance frame_preorder : PreOrder frame.
Proof. split; [by intros m|]. intros a b c [] []. split; [by etrans|congruence..]. Qed.

Lemma frame_referenced m m' p : frame m m' -> referenced m' p <-> referenced m p.
Proof. intros [_ _ E1 E2 E3 _]. unfold referenced. by rewrite E1, E2, E3. Qed.

Lemma frame_local m m' it : frame m m' -> local_entry m' it <-> local_entry m it.
Proof.
  intros Hf. unfold local_entry. rewrite (fr_packs _ _ Hf), (fr_builder _ _ Hf).
  split; (intros [(p & pp & i & Hr & ?)|?]; [left; exists p, pp, i|by right]); by rewrite (frame_referenced _ _ _ Hf) in *.
Qed.

Lemma frame_known m m' it : frame m m' -> known m' it <-> known m it.
Proof. intros Hf. unfold known. by rewrite (frame_local _ _ _ Hf), (tame_in_index _ _ _ (fr_tame _ _ Hf)). Qed.

Lemma frame_evolves m m' : frame m m' -> evolves F D m m'.
Proof.
  intros Hf. apply evolves_known; [by apply tame_extends, fr_tame| |]; intros it Hit.
  - left. by rewrite <- (frame_known _ _ _ Hf).
  - intros _. exists it. by rewrite (frame_known _ _ _ Hf).
Qed.

Lemma frame_inv m m' : frame m m' -> inv F m -> committed_ok (wm_world m') (sm_committed (wm_shared m')) ->
  Forall (fun b => HasPrefix b BlobIDPrefixSession = true) (wm_sessionMarkerBlobIDs m') -> len (s_ID (wm_currentSessionInfo m')) <= 64 ->
  inv F m'.
Proof.
  intros Hf Hi Hc Hm Hs. pose proof (fr_tame _ _ Hf) as Ht. pose proof (tame_extends (fun _ => True) _ _ Ht) as He.
  pose proof (inv_with_world F (fun _ => True) m (wm_world m') Hi (tame_storage _ _ Ht (inv_storage _ _ Hi)) He (fun _ _ => I)) as [H1 H2 H3 H4 H5 H6 _ _ _ H7 H8].
  destruct Hf as [_ E1 E2 E3 E4 E5]. unfold with_world in *. cbn in *.
  split; try done; unfold referenced in *; rewrite ?E1, ?E2, ?E3, ?E4, ?E5; try done.
  eapply counted_sub; [reflexivity| |exact H8]. unfold local_entry, referenced. cbn. rewrite E1, E2, E3, E4, E5. by eauto.
Qed.

(** A sequence that changes nothing but the storage's history, the committed
    index, the session and counters. *)
Lemma safe_shared m {A} (c : M SharedManager A) Qs P : assumed F m P ->
  (s_assumed (wm_shared m) (fun _ => inv F m /\ P m) -> s_safe (wm_shared m) (c (wm_shared m)) Qs) ->
  safe F D m (on_shared c m) (fun a m' => frame m m' /\ Qs a (wm_shared m')).
Proof.
  intros Hm Hc. unfold on_shared. assert (s_assumed (wm_shared m) (fun _ => inv F m /\ P m)) as Hs.
  { intros Hf. destruct (Hm Hf) as [Hi HP]. split; [apply Hi|]. split; [apply Hi|done]. }
  destruct (Hc Hs) as [Ht HQ]. destruct (c (wm_shared m)) as [r s']. cbn [fst snd] in *.
  split; [apply Ht|]. cbn [fst snd]. intros Hf. destruct (Hm (fortunate_before _ _ (proj1 Ht) Hf)) as [Hi HP]. destruct (HQ Hf) as [Hco HQ'].
  assert (frame m (set_shared m s')) as Hfr by done. split; [|split].
  - eapply frame_inv; [exact Hfr|done|done|apply Hi|apply Hi].
  - by apply frame_evolves.
  - intros a ->. split; [done|]. by apply HQ'.
Qed.

Lemma safe_frame_storage m {A} (c : M world A) (Q : A -> world -> Prop) P : tame_op c -> assumed F m P ->
  (forall a w', c (wm_world m) = (Ok a, w') -> tame (wm_world m) w' -> fortunate w' -> inv F m -> P m -> Q a w') ->
  safe F D m (on_storage c m) (fun a m' => frame m m' /\ Q a (wm_world m')).
Proof.
  intros Hc Hm HQ. eapply safe_storage; [done|exact Hm|]. intros a w' Ew Ht Hf Hi HP. split; [by split|]. eapply HQ; done.
Qed.

Lemma maybeRefresh_safe m P : assumed F m P ->
  safe F D m (maybeRefreshIndexes m) (fun _ m' => frame m m' /\ (up_to_date (wm_shared m) -> up_to_date (wm_shared m'))).
Proof.
  intros Hm. unfold maybeRefreshIndexes.
  assert (assumed F m (fun m' => frame m m' /\ (up_to_date (wm_shared m) -> up_to_date (wm_shared m')))) as Hm0 by (intros Hf; by destruct (Hm Hf)).
  destruct permissiveCacheLoading; [by apply safe_ret|]. unfold gets at 1, bind at 1. destruct (wm_disableIndexRefresh m); [by apply safe_ret|].
  eapply safe_bind; [eapply safe_shared; [exact Hm|intros Hs; by eapply shouldRefresh_safe]|].
  intros b m1 _ Hm1. unfold when. destruct b.
  - eapply safe_mono; [|eapply safe_shared; [exact Hm1|intros Hs; by eapply Refresh_safe]]. cbn. intros [] E Hf Hi [Hfr Hu]. split; [|done].
    assert (frame m m1) as Hfr1; [|by etrans]. destruct (Hm1 (fortunate_before _ _ (proj1 (fr_tame _ _ Hfr)) Hf)) as [_ [? _]]. done.
  - apply safe_ret. intros Hf. destruct (Hm1 Hf) as (? & ? & ?). done.
Qed.

(** ** Lookups *)

(** Where an entry was found: in a pack in memory, or in an index. *)
Definition located (m : WriteManager) (id : ID) (r : option nat * Info) : Prop :=
  ContentID r.2 = id /\ known m r.2
  /\ match r.1 with
     | Some p => exists pp, referenced m p /\ wm_packs m !! p = Some pp /\ pp_currentPackItems pp !! id = Some r.2
     | None => entry_ok (wm_world m) r.2
     end.

Lemma find_in_packs_Some packs ptrs id p it : find_in_packs packs ptrs id = Some (p, it) ->
  p ∈ ptrs /\ exists pp, packs !! p = Some pp /\ pp_currentPackItems pp !! id = Some it.
Proof.
  induction ptrs as [|q ptrs IH]; [done|]. cbn. destruct (packs !! q) as [pp|] eqn:Eq; cbn.
  - destruct (pp_currentPackItems pp !! id) as [ci|] eqn:Ei.
    + intros [= <- <-]. split; [by left|eauto].
    + intros Hr. destruct (IH Hr) as [? ?]. split; [by right|done].
  - intros Hr. destruct (IH Hr) as [? ?]. split; [by right|done].
Qed.

Lemma pending_ptrs_elem m p : p ∈ pending_ptrs m <-> exists prefix, wm_pendingPacks m !! prefix = Some p.
Proof.
  unfold pending_ptrs. rewrite list_elem_of_fmap. split.
  - intros ([prefix q] & -> & Hq%elem_of_map_to_list). eauto.
  - intros [prefix Hp]. exists (prefix, p). split; [done|]. by apply elem_of_map_to_list.
Qed.

Lemma overlay_located m id r : inv F m -> getOverlayContentInfoReadLocked m id = Some r -> located m id r.
Proof.
  intros Hi. unfold getOverlayContentInfoReadLocked.
  assert (forall p pp it, referenced m p -> wm_packs m !! p = Some pp -> pp_currentPackItems pp !! id = Some it -> located m id (Some p, it)) as Hloc.
  { intros p pp it Hr Hpp Hit. destruct (inv_packs _ _ Hi p Hr) as (pp' & Hpp' & Hok & _). rewrite Hpp in Hpp'. injection Hpp' as <-.
    destruct (pk_items _ _ Hok id it Hit) as (? & _). split; [done|]. split; [|cbn; eauto]. left. left. by exists p, pp, id. }
  destruct (find_in_packs (wm_packs m) (pending_ptrs m) id) as [[p ci]|] eqn:E1.
  { intros [= <-]. apply find_in_packs_Some in E1 as (Hp%pending_ptrs_elem & pp & ? & ?). eapply Hloc; [by left|done..]. }
  destruct (find_in_packs (wm_packs m) (wm_writingPacks m) id) as [[p ci]|] eqn:E2.
  { intros [= <-]. apply find_in_packs_Some in E2 as (Hp & pp & ? & ?). eapply Hloc; [right; by left|done..]. }
  destruct (wm_packIndexBuilder m !! id) as [ci|] eqn:E3; [|done]. intros [= <-]. destruct (inv_builder _ _ Hi _ _ E3).
  split; [done|]. split; [|done]. left. right. by exists id.
Qed.

Lemma getContentInfo_safe m id P : id_ok id -> assumed F m P ->
  safe F D m (getContentInfoReadLocked id m) (fun r m' => frame m m' /\ located m' id r).
Proof.
  intros Hid Hm. unfold getContentInfoReadLocked. unfold gets at 1, bind at 1.
  destruct (getOverlayContentInfoReadLocked m id) as [r|] eqn:E.
  { apply safe_ret. intros Hf. destruct (Hm Hf) as [Hi HP]. split; [done|]. split; [done|]. by apply overlay_located. }
  eapply safe_bind; [by eapply maybeRefresh_safe|]. intros u m1 _ Hm1.
  eapply safe_bind; [eapply safe_shared; [exact Hm1|intros Hs; by eapply getContent_safe]|]. intros info m2 _ Hm2.
  apply safe_ret. intros Hf. destruct (Hm2 Hf) as (Hi2 & Hfr2 & (Hok & Ht & Hin) & Hc).
  destruct (Hm1 (fortunate_before _ _ (proj1 (fr_tame _ _ Hfr2)) Hf)) as (_ & Hfr1 & _). split; [done|]. split; [by etrans|].
  split; [done|]. split; [|done]. by right.
Qed.

(** ** Data *)

Lemma get_range_section data off n e : get_range data off n = Some e -> 0 <= n ->
  AppendSectionTo (FromSlice data) off n = Ok e.
Proof.
  unfold get_range. destruct (Z.ltb_spec off 0); [done|]. intros Hr Hn. destruct (Z.ltb_spec n 0); [lia|].
  rewrite section_flat by lia. cbn. rewrite app_nil_r. destruct (slen data <? off + n); [done|]. by injection Hr as <-.
Qed.

(** The data of a live content is what its identifier is the hash of. *)
Lemma getData_safe m id r P : assumed F m (fun m => located m id r /\ P m) -> Deleted r.2 = false ->
  safe F D m (getContentDataReadLocked (r.1 ≫= (fun p => wm_packs m !! p)) r.2 m)
    (fun d m' => frame m m' /\ named id d /\ d ∈ w_hashed (wm_world m')).
Proof.
  intros Hm Hd. destruct r as [op it]. cbn [fst snd] in *. unfold getContentDataReadLocked.
  assert (forall e m1 d, frame m m1 -> assumed F m1 (fun m => named id d /\ d ∈ w_hashed (wm_world m)) ->
    decryptContentAndVerify e it = Ok d -> safe F D m1 (of_result (decryptContentAndVerify e it) m1) (fun d m' => frame m m' /\ named id d /\ d ∈ w_hashed (wm_world m'))) as Hdec.
  { intros e m1 d Hfr Hm1 E. rewrite E. apply safe_ret. intros Hf. destruct (Hm1 Hf) as (? & ? & ?). done. }
  destruct op as [p|]; cbn [mbind option_bind].
  - destruct (wm_packs m !! p) as [pp|] eqn:Epp.
    2: { eapply safe_bind; [eapply (safe_frame_storage _ _ (fun _ _ => True)); [apply tame_GetBlob|exact Hm|done]|].
         intros e m1 _ Hm1. split; [done|]. intros Hf. destruct (Hm1 Hf) as (Hi & Hfr & _).
         destruct (Hm (fortunate_before _ _ (proj1 (fr_tame _ _ Hfr)) Hf)) as (_ & (_ & _ & pp & _ & Hpp & _) & _). cbn in Hpp. congruence. }
    destruct (String.eqb_spec (pp_packBlobID pp) (PackBlobID it)) as [Eid|Eid].
    2: { eapply safe_bind; [eapply (safe_frame_storage _ _ (fun _ _ => True)); [apply tame_GetBlob|exact Hm|done]|].
         intros e m1 _ Hm1. split; [done|]. intros Hf. destruct (Hm1 Hf) as (Hi & Hfr & _).
         destruct (Hm (fortunate_before _ _ (proj1 (fr_tame _ _ Hfr)) Hf)) as (Hi0 & (_ & _ & pp' & Hr & Hpp & Hit) & _). cbn in *.
         rewrite Epp in Hpp. injection Hpp as <-. destruct (inv_packs _ _ Hi0 p Hr) as (pp' & Hpp' & Hok & _). rewrite Epp in Hpp'. injection Hpp' as <-.
         destruct (pk_items _ _ Hok _ _ Hit) as (_ & _ & Hl & _). by rewrite (Hl Hd) in Eid. }
    assert (fortunate (wm_world m) -> exists e d, AppendSectionTo (FromSlice (pp_currentPackData pp)) (PackOffset it) (PackedLength it) = Ok e
      /\ decryptContentAndVerify e it = Ok d /\ named id d /\ d ∈ w_hashed (wm_world m)) as Hread.
    { intros Hf. destruct (Hm Hf) as (Hi & (_ & _ & pp' & Hr & Hpp & Hit) & _). cbn in *. rewrite Epp in Hpp. injection Hpp as <-.
      destruct (inv_packs _ _ Hi p Hr) as (pp' & Hpp' & Hok & _). rewrite Epp in Hpp'. injection Hpp' as <-.
      destruct (pk_items _ _ Hok _ _ Hit) as (_ & Hsh & _ & Ho). destruct (Ho (eq_sym Eid)) as (_ & d & (e & He & Hde) & Hn & Hh).
      exists e, d. split_and!; [|done..]. apply get_range_section; [done|]. apply Hsh. }
    unfold bind at 1. destruct (AppendSectionTo (FromSlice (pp_currentPackData pp)) (PackOffset it) (PackedLength it)) as [e|]; cbn.
    + split; [done|]. intros Hf. destruct (Hread Hf) as (e' & d & [= <-] & Hde & Hn & Hh). unfold of_result in *. cbn in *. rewrite Hde.
      destruct (Hm Hf) as [Hi _]. split; [done|]. split; [done|]. by intros d' [= <-].
    + eapply safe_fail. exact Hm.
  - eapply safe_bind; [eapply (safe_frame_storage _ _ (fun e w' => exists d, decryptContentAndVerify e it = Ok d /\ named id d /\ d ∈ w_hashed w')); [apply tame_GetBlob|exact Hm|]|].
    + intros e w' Ew Ht _ Hi (Hloc & _). unfold located in Hloc. cbn [fst snd] in *. destruct Hloc as (Ec & _ & _ & Hb). destruct (Hb Hd) as (Hp & b & d & Hbl & (e' & He' & Hde) & Hn & Hh).
      apply GetBlob_Ok in Ew as (b' & Hb' & He). rewrite Hbl in Hb'. injection Hb' as <-. rewrite He in He'. injection He' as <-.
      rewrite Ec in Hn. exists d. split_and!; [done..|]. eapply grows_hashed; [apply Ht|done].
    + intros e m1 _ Hm1. split; [done|]. unfold of_result. cbn. intros Hf. destruct (Hm1 Hf) as (Hi & Hfr & d & Hde & Hn & Hh). rewrite Hde.
      split; [done|]. split; [done|]. by intros d' [= <-].
Qed.

Lemma getData_frame m pp it : frame m (getContentDataReadLocked pp it m).2.
Proof.
  unfold getContentDataReadLocked, bind.
  assert (forall b o l, frame m (on_storage (GetBlob b o l) m).2) as Hgb.
  { intros b o l. rewrite on_storage_eq. split; [apply tame_GetBlob|done..]. }
  specialize (Hgb (PackBlobID it) (PackOffset it) (PackedLength it)).
  destruct pp as [pp|]; [destruct (String.eqb _ _)|]; [|by destruct (on_storage (GetBlob _ _ _) m) as [[?|?] ?]..].
  by destruct (AppendSectionTo _ _ _).
Qed.

Lemma located_shape m id r : inv F m -> located m id r -> shape r.2 /\ timely (wm_world m) r.2.
Proof.
  intros Hi (Hc & Hk & Hl). destruct r as [[p|] it]; cbn in *; [|by destruct Hl as [? _]]. destruct Hl as (pp & Hr & Hpp & Hit).
  destruct (inv_packs _ _ Hi p Hr) as (pp' & Hpp' & Hok & _). rewrite Hpp in Hpp'. injection Hpp' as <-. by destruct (pk_items _ _ Hok _ _ Hit) as (_ & ? & _).
Qed.

(** Reading keeps the invariant, whatever is read. *)
Lemma getData_safe_any m pp it P : assumed F m P -> safe F D m (getContentDataReadLocked pp it m) (fun _ _ => True).
Proof.
  intros Hm. assert (forall m' (r : result content_error (list Z)) (P' : WriteManager -> Prop), assumed F m' P' -> safe F D m' (of_result r m') (fun _ _ => True)) as Hr.
  { intros m' r P' Hm'. unfold of_result. split; [done|]. intros Hf. by destruct (Hm' Hf). }
  unfold getContentDataReadLocked.
  assert (safe F D m ((let* payload := on_storage (GetBlob (PackBlobID it) (PackOffset it) (PackedLength it)) in of_result (decryptContentAndVerify payload it)) m) (fun _ _ => True)) as Hs.
  { eapply (safe_bind _ _ _ (fun _ _ => True)); [eapply safe_storage; [apply tame_GetBlob|exact Hm|done]|]. intros e m1 _ Hm1. by eapply Hr. }
  destruct pp as [pp|]; [|exact Hs]. destruct (String.eqb _ _); [|exact Hs]. unfold bind. destruct (AppendSectionTo _ _ _); cbn; [by eapply Hr|by eapply safe_fail].
Qed.

(** What is read of a content that is not deleted is named by its identifier. *)
Lemma getContentDataAndInfo_safe m id P : id_ok id -> assumed F m P ->
  safe F D m (getContentDataAndInfo id m) (fun r m' => frame m m' /\ ContentID r.2 = id /\ known m' r.2 /\ shape r.2 /\ timely (wm_world m') r.2
    /\ (Deleted r.2 = false -> named id r.1 /\ r.1 ∈ w_hashed (wm_world m'))).
Proof.
  intros Hid Hm. unfold getContentDataAndInfo. eapply safe_bind; [by eapply getContentInfo_safe|]. intros r m1 _ Hm1.
  unfold gets at 1, bind at 1.
  eapply (safe_bind _ _ _ (fun d m2 => frame m1 m2 /\ (Deleted r.2 = false -> named id d /\ d ∈ w_hashed (wm_world m2)))).
  { destruct (Deleted r.2) eqn:Ed; [|eapply safe_mono; [|eapply (getData_safe m1 id r (fun m' => frame m m')); [|done]]].
    - pose proof (getData_frame m1 (r.1 ≫= (fun p => wm_packs m1 !! p)) r.2) as Hg. eapply safe_mono; [|by eapply getData_safe_any]. cbn. intros; done.
    - intros d _ _ _ (Hfr & Hn & Hh). done.
    - intros Hf. by destruct (Hm1 Hf) as (Hi & Hfr & Hloc). }
  intros d m2 _ Hm2. apply safe_ret. intros Hf. destruct (Hm2 Hf) as (Hi & Hfr & Hn). split; [done|]. cbn.
  destruct (Hm1 (fortunate_before _ _ (proj1 (fr_tame _ _ Hfr)) Hf)) as (Hi1 & Hfr1 & Hloc). destruct (located_shape _ _ _ Hi1 Hloc) as [? ?].
  destruct Hloc as (Hc & Hk & _). split_and!; [by etrans|done|by rewrite (frame_known _ _ _ Hfr)|done| |exact Hn]. eapply timely_grows; [apply Hfr|done].
Qed.

End ContentFacts.
