(* ===== verification/ContentSessions.v ===== *)
(** * Sessions and new packs

    A session marker is neither a pack nor an index, and the identifier of a new
    pack is one that no stored pack and no pack in memory has. *)

From S2P Require Import Prelude GoStrings GoText GoTime Db IndexID IndexTable IndexV1 IndexV2 IndexV2Facts IndexBuild IndexMergedFacts IndexRoundTrip Gather PackFormat ContentStore IndexBlobV0 CommittedIndex ContentManager ContentSpec ContentInv ContentStoreFacts CommittedFacts ContentFacts.
Open Scope go_scope.

Section Sessions.
Context {TE : Environment} {TC : Crypter} {TCL : CrypterLaws} {TP : Parameters} {TF : Config} {TK : Compressors} {TL : ContentLaws}.
Context {F : string -> Prop} {D : ID -> Prop}.

(** ** Sequences that keep the packs *)

Lemma safe_frame_bind m {A B} (c : M WriteManager A) (k : A -> M WriteManager B) Q1 Q :
  safe F D m (c m) (fun a m1 => frame m m1 /\ Q1 a m1) ->
  (forall a m1, c m = (Ok a, m1) -> assumed F m1 (fun m1 => frame m m1 /\ Q1 a m1) -> safe F D m1 (k a m1) (fun b m2 => frame m1 m2 /\ Q b m2)) ->
  safe F D m (bind c k m) (fun b m2 => frame m m2 /\ Q b m2).
Proof.
  intros Hc Hk. eapply safe_bind; [exact Hc|]. intros a m1 E Hm1. eapply safe_mono; [|by apply Hk]. cbn. intros b _ Hf Hi [Hfr HQ].
  destruct (Hm1 (fortunate_before _ _ (proj1 (fr_tame _ _ Hfr)) Hf)) as (_ & Hfr1 & _). split; [by etrans|done].
Qed.

Lemma safe_frame_ret m {A} (a : A) (Q : A -> WriteManager -> Prop) : assumed F m (Q a) -> safe F D m (Ok a, m) (fun a m' => frame m m' /\ Q a m').
Proof. intros Hm. apply safe_ret. intros Hf. destruct (Hm Hf). done. Qed.

Lemma frame_session m i l : frame m (set_session m i l).
Proof. by split. Qed.

Lemma safe_session m f P : assumed F m P -> wm_shared (f m) = wm_shared m -> frame m (f m) ->
  (inv F m -> P m -> Forall (fun b => HasPrefix b BlobIDPrefixSession = true) (wm_sessionMarkerBlobIDs (f m)) /\ len (s_ID (wm_currentSessionInfo (f m))) <= 64) ->
  safe F D m (modify f m) (fun _ m' => frame m m' /\ True).
Proof.
  intros Hm Hs Hfr HP. eapply safe_modify; [exact Hm|by unfold wm_world; rewrite Hs|]. intros _ Hi HPm.
  destruct (HP Hi HPm). split; [|split; [by apply frame_evolves|done]]. eapply frame_inv; [done|done| |done|done].
  unfold wm_world. rewrite Hs. apply Hi.
Qed.

(** Whatever happens, the history only grows. *)
Definition w_grows {A} (c : M WriteManager A) : Prop := forall m, grows (wm_world m) (wm_world (c m).2).

Lemma w_grows_bind {A B} (c : M WriteManager A) (k : A -> M WriteManager B) : w_grows c -> (forall a, w_grows (k a)) -> w_grows (bind c k).
Proof. intros Hc Hk m. unfold bind. specialize (Hc m). destruct (c m) as [[a|e] m1]; [|done]. etrans; [exact Hc|apply Hk]. Qed.

Lemma w_grows_attempt {A} (c : M WriteManager A) : w_grows c -> w_grows (attempt c).
Proof. intros Hc m. unfold attempt. specialize (Hc m). by destruct (c m). Qed.

Lemma w_grows_storage {A} (c : M world A) : (forall w, grows w (c w).2) -> w_grows (on_storage c).
Proof. intros Hc m. rewrite on_storage_eq. apply Hc. Qed.

Lemma w_grows_tame {A} (c : M world A) : tame_op c -> w_grows (on_storage c).
Proof. intros Hc. apply w_grows_storage. intros w. apply Hc. Qed.

Lemma w_grows_for_each {A} (l : list A) body : (forall x, w_grows (body x)) -> w_grows (for_each l body).
Proof. intros Hb. induction l as [|x l IH]; cbn [for_each]; [by intros m|]. by apply w_grows_bind. Qed.

Lemma safe_absurd m {A} (c : M WriteManager A) Q : w_grows c -> (fortunate (wm_world m) -> False) -> safe F D m (c m) Q.
Proof. intros Hg Hf. split; [apply Hg|]. intros Hl. destruct Hf. eapply fortunate_before; [apply Hg|exact Hl]. Qed.

(** ** Sessions *)

Lemma hex_digits_length fuel n acc : (String.length (hex_digits fuel n acc) <= fuel + String.length acc)%nat.
Proof.
  revert n acc. induction fuel as [|fuel IH]; intros n acc; cbn [hex_digits]; [lia|]. destruct (n <? 16).
  - cbn. lia.
  - etrans; [apply IH|]. cbn. lia.
Qed.

Lemma string_app_length s t : String.length (s +:+ t) = (String.length s + String.length t)%nat.
Proof. induction s as [|c s IH]; [done|]. change (S (String.length (s +:+ t)) = S (String.length s + String.length t)%nat). by rewrite IH. Qed.

Lemma generateSessionID_short now w id w' : generateSessionID now w = (Ok id, w') -> len id <= 64.
Proof.
  unfold generateSessionID. intros Hr. apply bind_Ok in Hr as (r & w1 & Hr & He). injection He as <- _. apply cryptorand_Ok in Hr as [Hl _].
  unfold len. rewrite !string_app_length, hex_length, Hl. unfold format_hex, sessionIDLength. cbn [String.length BlobIDPrefixSession].
  match goal with |- context [hex_digits 16 ?n ?a] => pose proof (hex_digits_length 16 n a) | _ => idtac end.
  set (e := Z.quot _ _). pose proof (hex_digits_length 16 e ""). pose proof (hex_digits_length 16 (- e) ""). cbn [String.length] in *.
  destruct (e <? 0); cbn [String.length]; lia.
Qed.

Lemma writeSessionMarker_safe m P : assumed F m P -> safe F D m (writeSessionMarkerLocked m) (fun _ m' => frame m m' /\ True).
Proof.
  intros Hm. unfold writeSessionMarkerLocked. unfold gets at 1, bind at 1.
  eapply (safe_frame_bind _ _ _ (fun _ _ => True)); [eapply (safe_frame_storage _ _ (fun _ _ => True)); [apply tame_timeNow|exact Hm|done]|].
  intros now m1 _ Hm1. destruct (session_json _) as [js|]; [|by eapply safe_fail].
  eapply (safe_frame_bind _ _ _ (fun p _ => HasPrefix p.1 BlobIDPrefixSession = true)).
  { eapply (safe_frame_storage _ _ (fun p _ => HasPrefix p.1 BlobIDPrefixSession = true)); [apply tame_blob_Encrypt|exact Hm1|].
    intros [id e] w' Ew _ _ _ _. apply blob_Encrypt_Ok in Ew as (_ & _ & t & ->). by cbn. }
  intros [id e] m2 E2 Hm2. cbn [fst snd] in *.
  assert (HasPrefix id BlobIDPrefixSession = true) as Hid.
  { rewrite on_storage_eq in E2. injection E2 as E2 _. destruct (blob_Encrypt js BlobIDPrefixSession (s_ID (wm_currentSessionInfo m)) (wm_world m1)) as [r w'] eqn:Eb.
    cbn in E2. subst r. apply blob_Encrypt_Ok in Eb as (_ & _ & t & ->). by cbn. }
  eapply (safe_frame_bind _ _ _ (fun _ _ => True)); [eapply (safe_frame_storage _ _ (fun _ _ => True)); [by apply tame_PutBlob, session_other|exact Hm2|done]|].
  intros t m3 _ Hm3.
  eapply (safe_frame_bind _ _ _ (fun _ _ => True)); [eapply (safe_frame_storage _ _ (fun _ _ => True)); [apply tame_timeNow|exact Hm3|done]|].
  intros now' m4 _ Hm4. destruct (negb _); [by eapply safe_fail|]. eapply safe_session; [exact Hm4|reflexivity|apply frame_session|].
  cbn. intros Hi _. split; [|apply Hi]. apply Forall_app. split; [apply Hi|]. by constructor.
Qed.

Lemma getOrStartSession_safe m P : assumed F m P ->
  safe F D m (getOrStartSessionLocked m) (fun id m' => frame m m' /\ len id <= 64).
Proof.
  intros Hm. unfold getOrStartSessionLocked. unfold gets at 1, bind at 1. destruct (negb _).
  { apply safe_frame_ret. intros Hf. destruct (Hm Hf) as [Hi _]. split; [done|apply Hi]. }
  eapply (safe_frame_bind _ _ _ (fun _ _ => True)); [eapply (safe_frame_storage _ _ (fun _ _ => True)); [apply tame_timeNow|exact Hm|done]|].
  intros now m1 _ Hm1.
  eapply (safe_frame_bind _ _ _ (fun id _ => len id <= 64)).
  { eapply (safe_frame_storage _ _ (fun id _ => len id <= 64)); [apply tame_generateSessionID|exact Hm1|].
    intros id w' Ew _ _ _ _. by eapply generateSessionID_short. }
  intros id m2 _ Hm2.
  eapply (safe_frame_bind _ _ _ (fun _ _ => len id <= 64)).
  { eapply (safe_frame_storage _ _ (fun _ _ => len id <= 64)); [apply tame_timeNow|exact Hm2|]. by intros ? ? _ _ _ _ [_ ?]. }
  intros start m3 _ Hm3.
  eapply (safe_frame_bind _ _ _ (fun _ _ => len id <= 64)).
  { eapply safe_mono; [|eapply safe_session; [exact Hm3|reflexivity|apply frame_session|]].
    - intros u _ Hf _ [Hfr _]. split; [exact Hfr|]. by destruct (Hm3 Hf) as (_ & _ & ?).
    - intros _ (_ & ?). split; [apply Forall_nil_2|done]. }
  intros [] m4 _ Hm4.
  eapply (safe_frame_bind _ _ _ (fun _ _ => len id <= 64)).
  { eapply safe_mono; [|eapply writeSessionMarker_safe; exact Hm4]. intros u _ Hf _ [Hfr _]. split; [exact Hfr|].
    by destruct (Hm4 (fortunate_before _ _ (proj1 (fr_tame _ _ Hfr)) Hf)) as (_ & _ & ?). }
  intros [] m5 _ Hm5. apply safe_frame_ret. intros Hf. by destruct (Hm5 Hf) as (? & _ & ?).
Qed.

Lemma tame_delete_markers l : Forall (fun b => HasPrefix b BlobIDPrefixSession = true) l ->
  tame_op (for_each l (fun b => let* r := attempt (DeleteBlob b) in match r with Ok _ | Err ErrBlobNotFound => ret tt | Err e => fail e end)).
Proof.
  intros Hl. apply tame_for_each. intros b Hb. rewrite Forall_forall in Hl.
  apply tame_bind; [apply tame_attempt, tame_DeleteBlob, session_other; auto|]. intros [u|e]; [apply tame_ret|]. destruct e; auto with tame.
Qed.

Lemma grows_DeleteBlob id w : grows w (DeleteBlob id w).2.
Proof.
  unfold DeleteBlob, bind, next_turn. cbn. destruct (tn_write _); cbn; [destruct (w_blobs w !! id)| |destruct (w_blobs w !! id)]; split_and!; cbn; first [by exists []|lia].
Qed.

Lemma w_grows_world_bind {A B} (c : M world A) (k : A -> M world B) : (forall w, grows w (c w).2) -> (forall a w, grows w (k a w).2) ->
  forall w, grows w (bind c k w).2.
Proof. intros Hc Hk w. unfold bind. specialize (Hc w). destruct (c w) as [[a|e] w1]; [|done]. etrans; [exact Hc|apply Hk]. Qed.

Lemma w_grows_commitSession : w_grows commitSession.
Proof.
  unfold commitSession. apply w_grows_bind; [by intros m|]. intros l. apply w_grows_bind; [|by intros ? m]. apply w_grows_storage.
  induction l as [|b l IH]; cbn [for_each]; [done|]. apply w_grows_world_bind; [|intros _; exact IH].
  apply w_grows_world_bind; [|intros [u|[]] w; done]. intros w. unfold attempt. pose proof (grows_DeleteBlob b w). by destruct (DeleteBlob b w).
Qed.

Lemma commitSession_safe m P : assumed F m P -> safe F D m (commitSession m) (fun _ m' => frame m m' /\ True).
Proof.
  intros Hm. destruct (decide (Forall (fun b => HasPrefix b BlobIDPrefixSession = true) (wm_sessionMarkerBlobIDs m))) as [Hl|Hl].
  2: { apply safe_absurd; [apply w_grows_commitSession|]. intros Hf. destruct (Hm Hf) as [Hi _]. by destruct Hl, Hi. }
  unfold commitSession. unfold gets at 1, bind at 1.
  eapply (safe_frame_bind _ _ _ (fun _ _ => True)); [eapply (safe_frame_storage _ _ (fun _ _ => True)); [by apply tame_delete_markers|exact Hm|done]|].
  intros u m1 _ Hm1. eapply safe_session; [exact Hm1|reflexivity|apply frame_session|]. by cbn.
Qed.

(** ** New packs *)

(** No stored pack has the name, no other manager and no pack in memory. *)
Definition fresh_name (m : WriteManager) (id : string) : Prop :=
  w_blobs (wm_world m) !! id = None /\ ~ F id /\ (forall p pp, referenced m p -> wm_packs m !! p = Some pp -> pp_packBlobID pp <> id)
  /\ exists r, r ∈ w_drawn (wm_world m) /\ pack_name id r.

Lemma frame_fresh m m' id : frame m m' -> fresh_name m id -> fresh_name m' id.
Proof.
  intros Hf (Hb & HF & Ho & r & Hr & Hn). split_and!; [|done| |].
  - rewrite (tame_pack _ _ _ (fr_tame _ _ Hf)); [done|]. by eapply pack_name_is_pack.
  - intros p pp. rewrite (frame_referenced _ _ _ Hf), (fr_packs _ _ Hf). apply Ho.
  - exists r. split; [|done]. eapply grows_drawn; [apply (fr_tame _ _ Hf)|done].
Qed.

Lemma draw_fresh m w' r : draw_pack_id (wm_world m) = (Ok r, w') -> fortunate w' -> inv F m ->
  length r = packBlobIDLength /\ byte_list r /\ forall id, pack_name id r -> fresh_name (with_world m w') id.
Proof.
  unfold draw_pack_id. intros Hr. apply bind_Ok in Hr as (r' & w1 & Hr & He). apply bind_Ok in He as (u & w2 & Hu & He).
  injection Hu as _ <-. injection He as -> <-. intros Hf Hi.
  pose proof (tame_cryptorand packBlobIDLength (wm_world m)) as Ht. rewrite Hr in Ht. cbn [snd] in Ht.
  apply cryptorand_Ok in Hr as [Hl Hb]. split_and!; [done..|]. intros id Hn.
  pose proof (f_drawn _ Hf) as Hd. cbn in Hd. apply NoDup_cons in Hd as [Hd _].
  assert (forall r', r' ∈ w_drawn (wm_world m) -> pack_name id r' -> False) as Hno.
  { intros r' Hr' Hn'. apply Hd. rewrite (pack_name_inj id r r' Hn Hn'). eapply grows_drawn; [apply Ht|done]. }
  split_and!.
  - cbn. rewrite (tame_pack _ _ _ Ht) by (by eapply pack_name_is_pack). destruct (w_blobs (wm_world m) !! id) eqn:E; [|done].
    destruct (so_packs _ (inv_storage _ _ Hi) id) as (r' & ? & ?); [by eapply pack_name_is_pack|by eauto|]. exfalso. eauto.
  - intros HF. destruct (inv_foreign _ _ Hi id HF) as (r' & ? & ?). eauto.
  - cbn. intros p pp Hp Hpp E. destruct (inv_packs _ _ Hi p Hp) as (pp' & Hpp' & Hok & _). rewrite Hpp in Hpp'. injection Hpp' as <-.
    destruct (pk_name _ _ Hok) as (r' & Hr' & Hn'). rewrite E in Hn'. eauto.
  - exists r. split; [by left|done].
Qed.

Definition new_pack (m : WriteManager) (prefix id : string) (b : list Z) : WriteManager :=
  let p := fresh (dom (wm_packs m)) in
  set_packs m (<[p := mkPack prefix id ∅ b false]> (wm_packs m)) (<[prefix := p]> (wm_pendingPacks m))
    (wm_writingPacks m) (wm_failedPacks m) (wm_packIndexBuilder m).

Lemma unused_pointer m p : inv F m -> referenced m p -> p <> fresh (dom (wm_packs m)).
Proof.
  intros Hi Hr ->. destruct (inv_packs _ _ Hi _ Hr) as (pp & Hpp & _). apply (is_fresh (dom (wm_packs m))). apply elem_of_dom. eauto.
Qed.

Lemma new_pack_referenced m prefix id b p : wm_pendingPacks m !! prefix = None ->
  referenced (new_pack m prefix id b) p <-> p = fresh (dom (wm_packs m)) \/ referenced m p.
Proof.
  intros Hn. unfold referenced. cbn. split.
  - intros [(q & [[<- <-]|[_ ?]]%lookup_insert_Some)|?]; eauto.
  - intros [->|[(q & Hq)|?]]; [left; exists prefix; by rewrite lookup_insert_eq| |by eauto].
    left. exists q. rewrite lookup_insert_ne; [done|]. congruence.
Qed.

Lemma new_pack_local m prefix id b it : inv F m -> wm_pendingPacks m !! prefix = None ->
  local_entry (new_pack m prefix id b) it <-> local_entry m it.
Proof.
  intros Hi Hn. unfold local_entry. change (wm_packIndexBuilder (new_pack m prefix id b)) with (wm_packIndexBuilder m).
  split; (intros [(p & pp & i & Hr & Hpp & Hit)|?]; [|by right]); left; exists p, pp, i.
  - apply (new_pack_referenced _ _ _ _ _ Hn) in Hr as [->|Hr]; cbn in Hpp.
    + rewrite lookup_insert_eq in Hpp. by injection Hpp as <-.
    + rewrite lookup_insert_ne in Hpp; [done|]. intros E. by apply (unused_pointer m p Hi Hr).
  - split; [apply new_pack_referenced; auto|]. split; [|done]. cbn. rewrite lookup_insert_ne; [done|].
    intros E. by apply (unused_pointer m p Hi Hr).
Qed.

Lemma new_pack_inv m prefix id b : inv F m -> wm_pendingPacks m !! prefix = None -> fresh_name m id -> 1 <= slen b < pack_bound ->
  inv F (new_pack m prefix id b).
Proof.
  intros Hi Hn (Hb & HF & Ho & Hr) Hs. set (p := fresh (dom (wm_packs m))).
  assert (forall q pp, referenced m q -> wm_packs m !! q = Some pp -> wm_packs (new_pack m prefix id b) !! q = Some pp) as Hold.
  { intros q pp Hq Hpp. cbn. rewrite lookup_insert_ne; [done|]. intros E. by apply (unused_pointer m q Hi Hq). }
  assert (wm_packs (new_pack m prefix id b) !! p = Some (mkPack prefix id ∅ b false)) as Hp by (cbn; by rewrite lookup_insert_eq).
  split; try apply Hi.
  - intros q Hq. apply (new_pack_referenced _ _ _ _ _ Hn) in Hq as [->|Hq].
    + eexists. split; [exact Hp|]. split; [|done]. split; [done|done| |done]. intros b' Hb'. change (w_blobs (wm_world m) !! id = Some b') in Hb'. congruence.
    + destruct (inv_packs _ _ Hi q Hq) as (pp & Hpp & ?). exists pp. split; [by apply Hold|done].
  - intros pre q Hpq. change (<[prefix := p]> (wm_pendingPacks m) !! pre = Some q) in Hpq. apply lookup_insert_Some in Hpq as [[<- <-]|[Hne Hq]].
    + assert (~ referenced m p) as Hnr by (intros Hr'; by apply (unused_pointer m p Hi Hr')).
      split_and!; [|  |eexists; split; [exact Hp|done]]; intros Hin; apply Hnr; unfold referenced; auto.
    + destruct (inv_pending _ _ Hi pre q Hq) as (? & ? & pp & Hpp & ?). split_and!; [done..|]. exists pp. split; [|done].
      apply Hold; [left; eauto|done].
  - intros q1 q2 pp1 pp2 H1 H2 E1 E2 E. apply (new_pack_referenced _ _ _ _ _ Hn) in H1 as [->|H1], H2 as [->|H2]; fold p in E1, E2 |- *; [done| | |].
    + destruct (inv_packs _ _ Hi q2 H2) as (pp & Hpp & _). rewrite (Hold _ _ H2 Hpp) in E2. injection E2 as <-.
      rewrite Hp in E1. injection E1 as <-. cbn in E. by apply (Ho q2 pp) in H2.
    + destruct (inv_packs _ _ Hi q1 H1) as (pp & Hpp & _). rewrite (Hold _ _ H1 Hpp) in E1. injection E1 as <-.
      rewrite Hp in E2. injection E2 as <-. cbn in E. by apply (Ho q1 pp) in H1.
    + destruct (inv_packs _ _ Hi q1 H1) as (pp & Hpp & _). rewrite (Hold _ _ H1 Hpp) in E1. injection E1 as <-.
      destruct (inv_packs _ _ Hi q2 H2) as (qq & Hqq & _). rewrite (Hold _ _ H2 Hqq) in E2. injection E2 as <-.
      by eapply (inv_distinct _ _ Hi).
  - eapply counted_sub; [reflexivity| |exact (inv_count _ _ Hi)]. intros it Hit. exists it. split; [|done]. by apply new_pack_local in Hit.
Qed.

Lemma new_pack_evolves m prefix id b : inv F m -> wm_pendingPacks m !! prefix = None -> evolves F D m (new_pack m prefix id b).
Proof.
  intros Hi Hn. assert (forall it, known (new_pack m prefix id b) it <-> known m it) as Hk.
  { intros it. unfold known. by rewrite new_pack_local. }
  apply evolves_known; [done| |]; intros it Hit; [left|intros _; exists it]; by rewrite Hk in *.
Qed.

(** The pack for new contents under a prefix; nothing becomes known or
    unknown. *)
Record pack_opened (m : WriteManager) (prefix : string) (p : nat) (m' : WriteManager) : Prop := {
  po_tame : tame (wm_world m) (wm_world m');
  po_pending : wm_pendingPacks m' !! prefix = Some p;
  po_builder : wm_packIndexBuilder m' = wm_packIndexBuilder m;
  po_writing : wm_writingPacks m' = wm_writingPacks m;
  po_packs q : referenced m q -> wm_packs m' !! q = wm_packs m !! q;
  po_known it : known m' it <-> known m it
}.

Lemma getOrCreate_safe m prefix P : prefix ∈ [PackBlobIDPrefixRegular; PackBlobIDPrefixSpecial] -> assumed F m P ->
  safe F D m (getOrCreatePendingPackInfoLocked prefix m) (pack_opened m prefix).
Proof.
  intros Hpre Hm. unfold getOrCreatePendingPackInfoLocked. unfold gets at 1, bind at 1.
  destruct (wm_pendingPacks m !! prefix) as [p|] eqn:Ep.
  { apply safe_ret. intros Hf. destruct (Hm Hf) as [Hi _]. by split. }
  eapply safe_bind; [by eapply getOrStartSession_safe|]. intros sid m1 _ Hm1.
  eapply safe_bind.
  { eapply (safe_frame_storage _ _ (fun r w' => frame m m1 /\ len sid <= 64 /\ length r = packBlobIDLength /\ byte_list r
      /\ forall id, pack_name id r -> fresh_name (with_world m1 w') id)); [apply tame_draw|exact Hm1|].
    intros r w' Ew _ Hf Hi [Hfr Hs]. split; [done|]. split; [done|]. by apply draw_fresh. }
  intros r m2 _ Hm2. set (id := (prefix ++ hex_encode r ++ "-" ++ sid)%string).
  assert (assumed F m2 (fun m2 => frame m m2 /\ fresh_name m2 id)) as Hm2'.
  { intros Hf. destruct (Hm2 Hf) as (Hi & Hfr & Hfr1 & Hs & Hl & Hb & Hn). split_and!; [done|by etrans|].
    assert (pack_name id r) as Hpn.
    { split_and!; [done..| |by exists prefix, ("-" +:+ sid)]. subst id. unfold len in *. rewrite !string_app_length, hex_length, Hl.
      set_unfold. destruct Hpre as [->|[->|[]]]; cbn; lia. }
    eapply frame_fresh; [|by apply Hn]. split; [done|apply Hfr..]. }
  clear Hm2. eapply (safe_bind _ _ _ (fun suffix m3 => frame m m3 /\ fresh_name m3 id /\ suffix = RepositoryFormatBytes)).
  { eapply safe_mono; [|eapply (safe_frame_storage _ _ (fun s _ => s = RepositoryFormatBytes)); [apply tame_getFormatBytes|exact Hm2'|]].
    - intros s _ Hf _ [Hfr Hs]. destruct (Hm2' (fortunate_before _ _ (proj1 (fr_tame _ _ Hfr)) Hf)) as (_ & ? & ?).
      split_and!; [by etrans|by eapply frame_fresh|done].
    - intros s w' Ew _ _ _ _. unfold getFormatBytes in Ew. apply bind_Ok in Ew as (? & ? & _ & Ew). by injection Ew as <- _. }
  intros suffix m3 _ Hm3. eapply (safe_bind _ _ _ (fun n m4 => frame m m4 /\ fresh_name m4 id /\ suffix = RepositoryFormatBytes /\ 0 <= n <= maxPreambleLength - minPreambleLength)).
  { eapply safe_mono; [|eapply (safe_frame_storage _ _ (fun n _ => 0 <= n <= maxPreambleLength - minPreambleLength)); [apply tame_rand_Intn|exact Hm3|]].
    - intros s _ Hf _ [Hfr Hs]. destruct (Hm3 (fortunate_before _ _ (proj1 (fr_tame _ _ Hfr)) Hf)) as (_ & ? & ? & ?).
      split_and!; [by etrans|by eapply frame_fresh|done|lia..].
    - intros n w' Ew _ _ _ _. unfold rand_Intn in Ew. apply bind_Ok in Ew as (t & ? & _ & Ew). destruct (Z.leb_spec (maxPreambleLength - minPreambleLength + 1) 0); [done|].
      injection Ew as <- _. destruct (tn_rand t) as [f|]; [|lia]. pose proof (Z.mod_pos_bound (f 0%nat) (maxPreambleLength - minPreambleLength + 1)). lia. }
  intros n m4 _ Hm4. eapply (safe_bind _ _ _ (fun b m5 => frame m m5 /\ fresh_name m5 id /\ 1 <= slen b < pack_bound)).
  { eapply safe_mono; [|eapply (safe_frame_storage _ _ (fun b _ => 1 <= slen b < pack_bound)); [apply tame_writeRandom|exact Hm4|]].
    - intros s _ Hf _ [Hfr Hs]. destruct (Hm4 (fortunate_before _ _ (proj1 (fr_tame _ _ Hfr)) Hf)) as (_ & ? & ? & ?).
      split_and!; [by etrans|by eapply frame_fresh|lia..].
    - intros b w' Ew _ _ _ (_ & _ & -> & Hn). unfold writeRandomBytesToBuffer in Ew. destruct (_ || _); [done|].
      apply bind_Ok in Ew as (x & ? & Hx & Ew). injection Ew as <- _. apply cryptorand_Ok in Hx as [Hl _].
      pose proof preamble_law. unfold slen, pack_bound, slen in *. rewrite length_app. lia. }
  intros b m5 _ Hm5. unfold gets at 1, bind at 1.
  change (bind _ _ m5) with (Ok (E := content_error) (fresh (dom (wm_packs m5))), new_pack m5 prefix id b).
  split; [done|]. cbn [fst snd]. change (wm_world (new_pack m5 prefix id b)) with (wm_world m5). intros Hf.
  destruct (Hm5 Hf) as (Hi & Hfr & Hn & Hs). assert (wm_pendingPacks m5 !! prefix = None) as Hnone by (by rewrite (fr_pending _ _ Hfr)).
  split_and!; [by apply new_pack_inv|by apply new_pack_evolves|]. intros p [= <-]. split.
  - apply Hfr.
  - cbn. by rewrite lookup_insert_eq.
  - apply Hfr.
  - apply Hfr.
  - intros q Hq. cbn. rewrite <- (fr_packs _ _ Hfr). rewrite lookup_insert_ne; [done|]. intros E.
    eapply (unused_pointer m5 q); [done| |done]. by apply (frame_referenced _ _ _ Hfr).
  - intros it. rewrite <- (frame_known _ _ _ Hfr). unfold known. by rewrite new_pack_local.
Qed.

End Sessions.
