(* ===== verification/ContentPacks.v ===== *)
(** * Packs from their first content to the index

    A pack's data only grows until it is uploaded, so that its items can be read
    before and after; the items of an uploaded pack join the index being
    built. *)

From S2P Require Import Prelude GoStrings GoText GoTime Db IndexID IndexTable IndexV1 IndexV2 IndexV2Facts IndexBuild IndexMergedFacts IndexRoundTrip Gather PackFormat ContentStore IndexBlobV0 CommittedIndex ContentManager ContentSpec ContentInv ContentStoreFacts CommittedFacts ContentFacts ContentSessions.
Open Scope go_scope.

(** ** Builders *)

Lemma Add_either (b : Builder) it i : Add b it !! i = b !! i \/ (ContentID it = i /\ Add b it !! i = Some it).
Proof.
  unfold Add. destruct (decide (ContentID it = i)) as [<-|Hne].
  - destruct (b !! ContentID it) as [old|] eqn:E; [destruct (contentInfoGreaterThanStruct it old)|]; rewrite ?lookup_insert_eq, ?E; auto.
  - left. destruct (b !! ContentID it) as [old|]; [destruct (contentInfoGreaterThanStruct it old)|]; rewrite ?lookup_insert_ne; done.
Qed.

Lemma Add_has (b : Builder) it : is_Some (Add b it !! ContentID it).
Proof.
  unfold Add. destruct (b !! ContentID it) as [old|] eqn:E; [destruct (contentInfoGreaterThanStruct it old)|]; rewrite ?lookup_insert_eq, ?E; eauto.
Qed.

Lemma foldl_Add_from l (b : Builder) i it : foldl Add b l !! i = Some it -> b !! i = Some it \/ (it ∈ l /\ ContentID it = i).
Proof.
  revert b. induction l as [|x l IH]; intros b; cbn [foldl]; [by left|]. intros [Hb|[? ?]]%IH; [|right; split; [by right|done]].
  destruct (Add_either b x i) as [E|[<- E]]; rewrite E in Hb; [by left|]. injection Hb as <-. right. split; [by left|done].
Qed.

Lemma foldl_Add_has l (b : Builder) i : is_Some (b !! i) \/ i ∈ ContentID <$> l -> is_Some (foldl Add b l !! i).
Proof.
  revert b. induction l as [|x l IH]; intros b; cbn [foldl fmap list_fmap].
  - intros [?|Hi]; [done|]. by apply not_elem_of_nil in Hi.
  - intros Hi. apply IH. destruct Hi as [Hi|[->|Hi]%elem_of_cons]; [|left; apply Add_has|by right].
    left. destruct (Add_either b x i) as [E|[_ E]]; rewrite E; eauto.
Qed.

Definition by_content (b : Builder) : Prop := forall i it, b !! i = Some it -> ContentID it = i.

Lemma value_elem (b : Builder) it : it ∈ (map_to_list b).*2 <-> exists i, b !! i = Some it.
Proof.
  rewrite list_elem_of_fmap. split.
  - intros ([i x] & -> & Hx%elem_of_map_to_list). eauto.
  - intros [i Hi]. exists (i, it). split; [done|]. by apply elem_of_map_to_list.
Qed.

(** A builder filled with the values of a keyed one is that one. *)
Lemma foldl_Add_values b : by_content b -> foldl Add ∅ (map_to_list b).*2 = b.
Proof.
  intros Hk. apply map_eq. intros i. destruct (foldl Add ∅ (map_to_list b).*2 !! i) as [it|] eqn:E.
  - apply foldl_Add_from in E as [E|[[j Hj]%value_elem Hc]]; [by rewrite lookup_empty in E|]. pose proof (Hk _ _ Hj) as Hj'. congruence.
  - destruct (b !! i) as [it|] eqn:Eb; [|done]. exfalso. destruct (foldl_Add_has (map_to_list b).*2 ∅ i) as [x Hx]; [|congruence].
    right. rewrite list_elem_of_fmap. exists it. split; [symmetry; by apply Hk|]. apply value_elem. eauto.
Qed.

Lemma get_range_app data x off n e : 0 <= n -> get_range data off n = Some e -> get_range (data ++ x) off n = Some e.
Proof.
  intros Hn. unfold get_range. destruct (Z.ltb_spec off 0); [done|]. destruct (Z.ltb_spec n 0); [lia|].
  destruct (Z.ltb_spec (slen data) (off + n)); [done|]. intros [= <-]. unfold slen in *. rewrite length_app.
  destruct (Z.ltb_spec (Z.of_nat (length data + length x)) (off + n)); [lia|]. f_equal. unfold slice.
  rewrite drop_app_le by lia. rewrite take_app_le; [done|]. rewrite length_drop. lia.
Qed.

Section Packs.
Context {TE : Environment} {TC : Crypter} {TCL : CrypterLaws} {TP : Parameters} {TF : Config} {TK : Compressors} {TL : ContentLaws}.
Context {F : string -> Prop} {D : ID -> Prop}.

(** ** A change of one pack *)

Definition stored (m : WriteManager) (p : nat) (pp : pendingPackInfo) : WriteManager :=
  set_packs m (<[p := pp]> (wm_packs m)) (wm_pendingPacks m) (wm_writingPacks m) (wm_failedPacks m) (wm_packIndexBuilder m).

Lemma stored_inv m p pp0 pp : inv F m -> wm_packs m !! p = Some pp0 -> pp_packBlobID pp = pp_packBlobID pp0 ->
  pack_ok (wm_world m) pp -> (forall prefix, wm_pendingPacks m !! prefix = Some p -> pending_ok (wm_world m) prefix pp) ->
  counted (w_tick (wm_world m)) (stored m p pp) -> inv F (stored m p pp).
Proof.
  intros Hi Hp0 Eid Hok Hpd Hcnt. assert (wm_packs (stored m p pp) !! p = Some pp) as Hp by (cbn; by rewrite lookup_insert_eq).
  assert (forall q, q <> p -> wm_packs (stored m p pp) !! q = wm_packs m !! q) as Hold by (intros q Hq; cbn; by rewrite lookup_insert_ne).
  assert (forall q qq, wm_packs (stored m p pp) !! q = Some qq -> exists qq0, wm_packs m !! q = Some qq0 /\ pp_packBlobID qq0 = pp_packBlobID qq) as Hname.
  { intros q qq Hq. destruct (decide (q = p)) as [->|Hne]; [rewrite Hp in Hq; injection Hq as <-; eauto|]. rewrite (Hold q Hne) in Hq. eauto. }
  split; try apply Hi.
  - intros q Hq. change (referenced m q) in Hq. destruct (inv_packs _ _ Hi q Hq) as (qq & Hqq & Hqok & HF).
    destruct (decide (q = p)) as [->|Hne]; [|exists qq; by rewrite (Hold q Hne)]. exists pp. split; [done|]. split; [done|]. congruence.
  - intros prefix q Hq. change (wm_pendingPacks m !! prefix = Some q) in Hq. destruct (inv_pending _ _ Hi prefix q Hq) as (? & ? & qq & Hqq & Hqok).
    split; [done|]. split; [done|]. destruct (decide (q = p)) as [->|Hne]; [exists pp; split; [done|by apply Hpd]|exists qq; by rewrite (Hold q Hne)].
  - intros q1 q2 qq1 qq2 H1 H2 (r1 & Hr1 & <-)%Hname (r2 & Hr2 & <-)%Hname. by eapply (inv_distinct _ _ Hi).
  - exact Hcnt.
Qed.

Lemma stored_evolves m p pp0 pp : wm_packs m !! p = Some pp0 ->
  (forall i it, pp_currentPackItems pp !! i = Some it -> pp_currentPackItems pp0 !! i = Some it \/ D (ContentID it) \/ Deleted it = false
     \/ exists jt, known m jt /\ ContentID jt = ContentID it /\ Deleted jt = Deleted it) ->
  (forall i it, pp_currentPackItems pp0 !! i = Some it -> ~ D (ContentID it) ->
     exists i' it', pp_currentPackItems pp !! i' = Some it' /\ ContentID it' = ContentID it) ->
  evolves F D m (stored m p pp).
Proof.
  intros Hp0 Hnew Hkeep. apply evolves_known; [done| |].
  - intros it [[(q & qq & i & Hr & Hqq & Hit)|Hb]|Hin]; [|left; left; by right|left; by right]. change (referenced m q) in Hr.
    cbn in Hqq. apply lookup_insert_Some in Hqq as [[<- <-]|[Hne Hqq]]; [|left; left; left; by exists q, qq, i].
    destruct (Hnew i it Hit) as [Ho|?]; [|by right]. left. left. left. by exists p, pp0, i.
  - intros it [[(q & qq & i & Hr & Hqq & Hit)|Hb]|Hin] HD; [|exists it; split; [left; by right|done]|exists it; split; [by right|done]].
    destruct (decide (q = p)) as [->|Hne].
    + rewrite Hp0 in Hqq. injection Hqq as <-. destruct (Hkeep i it Hit HD) as (i' & it' & Hi' & E). exists it'. split; [|done].
      left. left. exists p, pp, i'. split; [done|]. split; [cbn; by rewrite lookup_insert_eq|done].
    + exists it. split; [|done]. left. left. exists q, qq, i. split; [done|]. split; [cbn; by rewrite lookup_insert_ne|done].
Qed.

Lemma stored_counted m p pp0 pp n n' (ids : gset ID) : wm_packs m !! p = Some pp0 -> counted n m -> (n + size ids <= n')%nat ->
  (forall i it, pp_currentPackItems pp !! i = Some it -> pp_currentPackItems pp0 !! i = Some it \/ ContentID it ∈ ids) ->
  counted n' (stored m p pp).
Proof.
  intros Hp0 (js & Hj & Hs) Hn Hit. exists (ids ∪ js). split; [|rewrite size_union_alt; pose proof (subseteq_size (js ∖ ids) js ltac:(set_solver)); lia].
  intros it [(q & qq & i & Hr & Hqq & Hi)|Hb]; apply elem_of_union; [|right; apply Hj; by right]. cbn in Hqq. change (referenced m q) in Hr.
  apply lookup_insert_Some in Hqq as [[<- <-]|[Hne Hqq]]; [|right; apply Hj; left; by exists q, qq, i].
  destruct (Hit i it Hi) as [Ho|?]; [right|by left]. apply Hj. left. by exists p, pp0, i.
Qed.

Lemma stored_evolves_same m p pp0 pp : wm_packs m !! p = Some pp0 -> pp_currentPackItems pp = pp_currentPackItems pp0 ->
  evolves F D m (stored m p pp).
Proof. intros Hp0 E. apply (stored_evolves m p pp0); [done| |]; rewrite E; eauto. Qed.

Lemma pack_reads_app data x it d : 0 <= PackedLength it -> pack_reads data it d -> pack_reads (data ++ x) it d.
Proof. intros Hl (e & He & Hd). exists e. split; [by apply get_range_app|done]. Qed.

(** More data at the end of a pack that is not stored. *)
Lemma pack_ok_app w pp x fin : pack_ok w pp -> w_blobs w !! pp_packBlobID pp = None ->
  (fin = true -> exists i it, pp_currentPackItems pp !! i = Some it /\ PackBlobID it = pp_packBlobID pp) ->
  pack_ok w (set_data pp (pp_currentPackData pp ++ x) fin).
Proof.
  intros [Hi Hn Hs Hf] Hnone Hfin. split; cbn; [|done| |done].
  - intros i it Hit. destruct (Hi i it Hit) as (? & [Hsh ?] & ? & Hr). split_and!; [done..|]. cbn. intros E. destruct (Hr E) as (? & d & ? & ? & ?).
    split; [unfold slen in *; rewrite length_app; lia|]. exists d. split_and!; [|done..]. apply pack_reads_app; [apply Hsh|done].
  - intros b Hb. congruence.
Qed.

(** ** Preparing a pack *)

Definition wm_lists (m : WriteManager) := (wm_pendingPacks m, wm_writingPacks m, wm_failedPacks m, wm_packIndexBuilder m).

Definition to_upload (m : WriteManager) (p : nat) : Prop := p ∈ wm_writingPacks m \/ p ∈ wm_failedPacks m.

Lemma to_upload_referenced m p : to_upload m p -> referenced m p.
Proof. intros [?|?]; [right; by left|by right; right]. Qed.

Lemma to_upload_not_pending m p prefix : inv F m -> to_upload m p -> wm_pendingPacks m !! prefix <> Some p.
Proof. intros Hi Hu Hp. destruct (inv_pending _ _ Hi prefix p Hp) as (? & ? & _). by destruct Hu. Qed.

Lemma to_upload_lists m m' p : wm_lists m' = wm_lists m -> to_upload m p -> to_upload m' p.
Proof. unfold wm_lists, to_upload. intros [= _ -> -> _]. done. Qed.

(** A pack that can be uploaded and entered in the index. *)
Definition ready (r : option Builder) (pp : pendingPackInfo) : Prop :=
  default ∅ r = pp_currentPackItems pp
  /\ (pp_finalized pp = true \/ pp_currentPackItems pp = ∅ \/ pp_currentPackData pp = [])
  /\ (pp_currentPackData pp = [] -> forall i it, pp_currentPackItems pp !! i = Some it -> PackBlobID it <> pp_packBlobID pp).

Definition holding (m0 : WriteManager) (p : nat) (Q : pendingPackInfo -> Prop) (m : WriteManager) : Prop :=
  wm_lists m = wm_lists m0 /\ exists pp, wm_packs m !! p = Some pp /\ Q pp.

Lemma still_on_storage {A} (c : M world A) : still wm_lists (on_storage c).
Proof. intros m. by rewrite on_storage_eq. Qed.

Lemma still_load p : still wm_lists (load_pack p).
Proof. intros m. unfold load_pack. by destruct (wm_packs m !! p). Qed.

Ltac still_lists := repeat first [ progress intros | case_match | solve [apply still_on_storage] | solve [apply still_load]
  | solve [done] | solve [apply still_ret] | solve [apply still_fail] | apply still_bind ].

Lemma still_prepare_data p : still wm_lists (preparePackDataContent p).
Proof. unfold preparePackDataContent. still_lists. Qed.

Lemma still_prepare p : still wm_lists (prepareAndWritePackInternal p).
Proof. unfold prepareAndWritePackInternal, when. pose proof (still_prepare_data p). still_lists. Qed.

(** Storing a pack on its way to the storage. *)
Lemma store_pack_safe m m0 p pp (Q : pendingPackInfo -> Prop) P : to_upload m0 p ->
  assumed F m (fun m => holding m0 p (fun pp0 => pp_packBlobID pp = pp_packBlobID pp0 /\ pp_currentPackItems pp = pp_currentPackItems pp0
    /\ pack_ok (wm_world m) pp) m /\ P m) -> Q pp ->
  safe F D m (store_pack p pp m) (fun _ => holding m0 p Q).
Proof.
  intros Hu Hm HQ. eapply safe_modify; [exact Hm|done|]. intros _ Hi ((Hl & pp0 & Hp0 & Eid & Eit & Hok) & _). split_and!.
  - apply (stored_inv m p pp0); [done..| |].
    + intros prefix Hp. exfalso. eapply to_upload_not_pending; [exact Hi| |exact Hp]. by eapply to_upload_lists.
    + eapply (stored_counted _ _ pp0 _ _ _ ∅); [done|apply (inv_count _ _ Hi)|rewrite size_empty; lia|]. rewrite Eit. by left.
  - by apply (stored_evolves_same m p pp0).
  - split; [exact Hl|]. exists pp. split; [cbn; by rewrite lookup_insert_eq|done].
Qed.

Lemma holding_storage m m0 p {A} (c : M world A) (R : A -> Prop) (Q : pendingPackInfo -> WriteManager -> Prop) P :
  tame_op c -> (forall a w', c (wm_world m) = (Ok a, w') -> R a) ->
  assumed F m (fun m => holding m0 p (fun pp => Q pp m) m /\ P m) ->
  (forall pp m m', tame (wm_world m) (wm_world m') -> Q pp m -> Q pp m') ->
  safe F D m (on_storage c m) (fun a m' => holding m0 p (fun pp => Q pp m') m' /\ R a).
Proof.
  intros Hc HR Hm HQ. eapply safe_storage; [done|exact Hm|]. intros a w' Ew Ht _ _ ((Hl & pp & Hp & HQp) & _). split; [|by eapply HR].
  split; [done|]. exists pp. split; [done|]. by eapply HQ.
Qed.

(** A pack whose data is being completed. *)
Definition completing (pp0 : pendingPackInfo) (pp : pendingPackInfo) (m : WriteManager) : Prop :=
  pp_packBlobID pp = pp_packBlobID pp0 /\ pp_currentPackItems pp = pp_currentPackItems pp0
  /\ pack_ok (wm_world m) pp0 /\ w_blobs (wm_world m) !! pp_packBlobID pp0 = None
  /\ exists i it, pp_currentPackItems pp0 !! i = Some it /\ PackBlobID it = pp_packBlobID pp0.

Lemma completing_tame pp0 pp m m' : tame (wm_world m) (wm_world m') -> completing pp0 pp m -> completing pp0 pp m'.
Proof.
  intros Ht (E1 & E2 & Hok & Hn & Ho). split_and!; [done..| | |done].
  - eapply pack_ok_extends; [by apply (tame_extends (fun _ => True))|done|done].
  - rewrite (tame_pack _ _ _ Ht); [done|]. destruct (pk_name _ _ Hok) as (r & _ & Hr). by eapply pack_name_is_pack.
Qed.

(** Data of a pack, with more at its end. *)
Lemma complete_safe m m0 p pp0 data : to_upload m0 p ->
  assumed F m (fun m => holding m0 p (fun pp => completing pp0 pp m) m /\ exists x, data = pp_currentPackData pp0 ++ x) ->
  safe F D m (store_pack p (set_data pp0 data true) m) (fun _ m' => holding m0 p (fun pp => completing pp0 pp m' /\ pp = set_data pp0 data true) m').
Proof.
  intros Hu Hm. assert (forall mm, completing pp0 (set_data pp0 data true) mm <-> exists pp, completing pp0 pp mm) as Hco.
  { intros mm. split; [by eauto|]. intros (pp & _ & _ & Hrest). split; [done|]. split; [done|]. exact Hrest. }
  eapply safe_mono; [|eapply (store_pack_safe m m0 p _ (fun pp => pp = set_data pp0 data true) (fun _ => True)); [done| |done]].
  2: { intros Hf. destruct (Hm Hf) as (Hi & (Hl & pp & Hpp & Hc) & x & ->). split_and!; [done| |done]. split; [done|]. exists pp. split; [done|].
       destruct Hc as (E1 & E2 & Hok & Hn & Ho). split_and!; [done..|]. by apply pack_ok_app. }
  intros [] _ Hf Hi (Hl & pp & Hpp & ->). split; [done|]. eexists. split; [exact Hpp|]. split; [|done]. apply Hco.
  change (wm_world (store_pack p (set_data pp0 data true) m).2) with (wm_world m) in Hf.
  destruct (Hm Hf) as (_ & (_ & pp & _ & Hc) & _). by exists pp.
Qed.

Lemma append_recovery version b suffix nonce output d : appendPackFileIndexRecoveryData version b suffix nonce output = Ok d ->
  exists x, d = output ++ x.
Proof.
  unfold appendPackFileIndexRecoveryData. destruct (Build b version suffix) as [ix|]; [|done]. destruct (Encrypt nonce ix (HashFunc ix)); [|done].
  destruct (toBytes _); [|done]. intros [= <-]. eauto.
Qed.

Lemma own_items (items : gmap ID Info) id : existsb (fun i => String.eqb (PackBlobID i) id) (map_to_list items).*2 = true <->
  exists i it, items !! i = Some it /\ PackBlobID it = id.
Proof.
  rewrite existsb_exists. split.
  - intros (it & Hin & E%String.eqb_eq). apply list_elem_of_In, value_elem in Hin as [i Hi]. eauto.
  - intros (i & it & Hit & E). exists it. split; [apply list_elem_of_In, value_elem; eauto|by apply String.eqb_eq].
Qed.

Lemma prepare_safe m p P : to_upload m p -> assumed F m P ->
  safe F D m (preparePackDataContent p m) (fun r m' => holding m p (ready r) m').
Proof.
  intros Hu Hm. unfold preparePackDataContent. unfold load_pack at 1, bind at 1.
  destruct (wm_packs m !! p) as [pp|] eqn:Ep; [|by eapply safe_fail]. set (pfi := foldl Add ∅ (map_to_list (pp_currentPackItems pp)).*2).
  assert (fortunate (wm_world m) -> inv F m /\ pack_ok (wm_world m) pp /\ pfi = pp_currentPackItems pp) as Hpp.
  { intros Hf. destruct (Hm Hf) as [Hi _]. destruct (inv_packs _ _ Hi p (to_upload_referenced _ _ Hu)) as (pp' & Hpp' & Hok & _).
    rewrite Ep in Hpp'. injection Hpp' as <-. split_and!; [done..|]. apply foldl_Add_values. intros i it Hit. by destruct (pk_items _ _ Hok i it Hit). }
  destruct (Z.eqb_spec (Z.of_nat (size pfi)) 0) as [Hz|Hz].
  { apply safe_ret. intros Hf. destruct (Hpp Hf) as (Hi & Hok & E). split; [done|]. split; [done|]. exists pp. split; [done|].
    assert (pp_currentPackItems pp = ∅) as Ee by (rewrite <- E; apply map_size_empty_inv; lia). unfold ready. rewrite Ee. by auto. }
  pose proof (own_items (pp_currentPackItems pp) (pp_packBlobID pp)) as Hown.
  destruct (existsb _ _); cbn [negb].
  2: { eapply safe_bind; [eapply (store_pack_safe m m p _ (fun pp' => pp' = set_data pp [] (pp_finalized pp)) (fun _ => True)); [done| |done]|].
       - intros Hf. destruct (Hpp Hf) as (Hi & Hok & E). split; [done|]. split; [|done]. split; [done|]. exists pp. split_and!; [done..|].
         destruct Hok as [Hit Hn Hs Hfi]. split; [|done| |done].
         + intros i it H1. destruct (Hit i it H1) as (? & [? ?] & ? & _). split_and!; [done..|]. cbn. intros E1. exfalso.
           destruct Hown as [_ Hown]. discriminate Hown. eauto.
         + cbn. intros b Hb. exfalso. destruct (Hs b Hb) as [_ [Hfin|He]].
           * destruct Hown as [_ Hown]. discriminate Hown. by apply Hfi.
           * apply Hz. by rewrite E, He.
       - intros u m1 E1 Hm1. apply safe_ret. intros Hf. destruct (Hm1 Hf) as (Hi & Hl & pp' & Hp' & ->). split; [done|]. split; [done|].
         eexists. split; [exact Hp'|]. injection E1 as <- <-. destruct (Hpp Hf) as (_ & _ & E). split_and!; [done|by auto|].
         intros _ i it Hit E'. destruct Hown as [_ Hown]. discriminate Hown. eauto. }
  assert (exists i it, pp_currentPackItems pp !! i = Some it /\ PackBlobID it = pp_packBlobID pp) as Ho by (by apply Hown). clear Hown.
  destruct (pp_finalized pp) eqn:Efin.
  { apply safe_ret. intros Hf. destruct (Hpp Hf) as (Hi & Hok & E). split; [done|]. split; [done|]. exists pp. split; [done|].
    split_and!; [done|by auto|]. intros Hd i it Hit E'. destruct (pk_items _ _ Hok i it Hit) as (_ & _ & _ & Hr). destruct (Hr E') as [Hs _].
    rewrite Hd in Hs. change (1 <= 0) in Hs. lia. }
  set (growing := fun data m' => holding m p (fun pp' => completing pp pp' m') m' /\ exists x : list Z, data = pp_currentPackData pp ++ x).
  assert (assumed F m (growing (pp_currentPackData pp))) as Hm0.
  { intros Hf. destruct (Hpp Hf) as (Hi & Hok & E). split; [done|]. split; [|exists []; by rewrite app_nil_r]. split; [done|]. exists pp. split; [done|]. split_and!; [done..| |done].
    destruct (w_blobs (wm_world m) !! pp_packBlobID pp) as [b|] eqn:Eb; [|done]. exfalso.
    destruct (pk_stored _ _ Hok b Eb) as [_ [?|He]]; [congruence|]. apply Hz. by rewrite E, He. }
  assert (forall data m', assumed F m' (growing data) -> safe F D m' (store_pack p (set_data pp data true) m') (fun _ => growing data)) as Hstore.
  { intros data m' Hm'. eapply safe_mono; [|by eapply complete_safe]. intros u _ Hf _ (Hl & pp' & Hp' & Hc & _). split; [split; [done|eauto]|].
    by destruct (Hm' Hf) as (_ & _ & ?). }
  eapply safe_bind; [by apply Hstore|]. intros u1 m1 _ Hm1. eapply (safe_bind _ _ _ growing).
  { destruct (_ && _); [|by apply safe_ret].
    eapply (holding_storage _ _ _ _ (fun padded => exists x, padded = pp_currentPackData pp ++ x)); [apply tame_writeRandom| |exact Hm1|apply completing_tame].
    intros padded w' Ew. unfold writeRandomBytesToBuffer in Ew. destruct (_ || _); [done|]. apply bind_Ok in Ew as (x & ? & _ & Ew). injection Ew as <- _. eauto. }
  intros padded m2 _ Hm2. eapply safe_bind; [by apply Hstore|]. intros u3 m3 _ Hm3.
  assert (forall {A} (c : M world A) m', tame_op c -> assumed F m' (growing padded) -> safe F D m' (on_storage c m') (fun _ => growing padded)) as Hop.
  { intros A c m' Hc Hm'. eapply safe_storage; [done|exact Hm'|]. intros a w' Ew Ht _ _ ((Hl & pp' & Hp' & Hco) & Hx). split; [|done].
    split; [done|]. exists pp'. split; [done|]. by eapply completing_tame. }
  eapply safe_bind; [apply Hop; [apply tame_shard_suffixes|done]|]. intros suffixes m4 _ Hm4.
  eapply safe_bind; [apply Hop; [apply tame_cryptorand|done]|]. intros nonce m5 _ Hm5.
  destruct (appendPackFileIndexRecoveryData _ _ _ _ _) as [data|e] eqn:Ea; [|unfold bind at 1; by eapply safe_fail].
  apply append_recovery in Ea as [y ->]. unfold ret at 1, bind at 1.
  eapply safe_bind; [eapply (complete_safe m5 m p pp); [done|]|].
  { intros Hf. destruct (Hm5 Hf) as (Hi & Hh & x & ->). split_and!; [done|done|]. exists (x ++ y). by rewrite app_assoc. }
  intros u6 m6 _ Hm6. apply safe_ret. intros Hf. destruct (Hm6 Hf) as (Hi & Hl & pp' & Hp' & Hco & ->). split; [done|]. split; [done|].
  eexists. split; [exact Hp'|]. split_and!; cbn; [| by left|].
  - apply foldl_Add_values. destruct Hco as (_ & _ & Hok & _). intros i it Hit. by destruct (pk_items _ _ Hok i it Hit).
  - intros Hd. rewrite Hd in *. destruct (inv_packs _ _ Hi p) as (pp' & Hpp' & Hok & _).
    { apply to_upload_referenced. by eapply to_upload_lists. }
    rewrite Hp' in Hpp'. injection Hpp' as <-. intros i it Hit E. destruct (pk_items _ _ Hok i it Hit) as (_ & _ & _ & Hr).
    destruct (Hr E) as [Hs _]. change (1 <= 0) in Hs. lia.
Qed.

(** ** Uploading a pack *)

Lemma PutBlob_cases id d w r w' : PutBlob id d w = (r, w') ->
  (r = Err ErrStorage /\ tame w w') \/ (grows w w' /\ exists t, w_blobs w' = <[id := mkBlob d t]> (w_blobs w)).
Proof.
  unfold PutBlob, bind, next_turn. cbn. set (t := turn_at (w_tick w)). destruct (tn_write t); intros [= <- <-].
  - right. split; [split_and!; [by exists []..|cbn; lia]|]. by exists (tn_now t).
  - left. split; [done|]. split; [|done]. split_and!; [by exists []..|cbn; lia].
  - right. split; [split_and!; [by exists []..|cbn; lia]|]. by exists (tn_now t).
Qed.

(** The storage with a pack of a known name stored. *)
Lemma put_pack (G : string -> Prop) w w' id d t : grows w w' -> w_blobs w' = <[id := mkBlob d t]> (w_blobs w) -> is_pack id = true -> ~ G id ->
  (forall b, w_blobs w !! id = Some b -> bl_data b = d) -> extends G w w'.
Proof.
  intros Hg Hb Hp HG Hsame. assert (forall id', id' <> id -> w_blobs w' !! id' = w_blobs w !! id') as Hother by (intros; by rewrite Hb, lookup_insert_ne).
  split; [done| | |].
  - intros id' b Hp' Hb'. destruct (decide (id' = id)) as [->|Hne]; [|rewrite Hother by done; eauto].
    exists (mkBlob d t). rewrite Hb, lookup_insert_eq. split; [done|]. symmetry. by apply Hsame.
  - intros id' x [Hi Hx]. split; [done|]. rewrite Hother; [done|]. intros ->. apply index_not_pack in Hi. congruence.
  - intros id' HG' _. rewrite Hother; [done|]. by intros ->.
Qed.

Lemma put_pack_storage w w' id r : storage_ok w -> extends (fun id' => id' <> id) w w' -> (forall id', id' <> id -> w_blobs w' !! id' = w_blobs w !! id') ->
  r ∈ w_drawn w -> pack_name id r -> storage_ok w'.
Proof.
  intros [Hi Hp] He Hother Hr Hn. pose proof (ex_grows _ _ _ He) as Hg. split.
  - intros id' Hid Hs. rewrite Hother in Hs. 2: { intros ->. apply index_not_pack in Hid. apply pack_name_is_pack in Hn. congruence. }
    destruct (Hi id' Hid Hs) as (d & l & Hb & Hd & Hname & Ho & Hl). exists d, l. split_and!; [by apply He|by eapply grows_hashed|done|done|].
    eapply Forall_impl; [exact Hl|]. intros it [? ?]. split; [by eapply entry_ok_extends|done].
  - intros id' Hid Hs. destruct (decide (id' = id)) as [->|Hne]; [exists r; split; [by eapply grows_drawn|done]|].
    rewrite Hother in Hs by done. destruct (Hp id' Hid Hs) as (r' & ? & ?). exists r'. split; [by eapply grows_drawn|done].
Qed.

Lemma upload_safe m p pp r P : to_upload m p -> wm_packs m !! p = Some pp -> pp_currentPackData pp <> [] ->
  assumed F m (fun m => ready r pp /\ P m) ->
  safe F D m (on_storage (PutBlob (pp_packBlobID pp) (pp_currentPackData pp)) m)
    (fun _ m' => exists b, w_blobs (wm_world m') !! pp_packBlobID pp = Some b /\ bl_data b = pp_currentPackData pp).
Proof.
  intros Hu Hpp Hne Hm. rewrite on_storage_eq. destruct (PutBlob _ _ (wm_world m)) as [res w'] eqn:E. cbn [fst snd].
  apply PutBlob_cases in E as [[-> Ht]|(Hg & t & Hb)].
  { split; [apply Ht|]. cbn. intros Hf. destruct (Hm (fortunate_before _ _ (proj1 Ht) Hf)) as [Hi _]. split_and!; [|by apply evolves_tame|done].
    eapply inv_with_world; [done|by eapply tame_storage, inv_storage|by apply (tame_extends (fun _ => True))|done]. }
  split; [done|]. cbn. intros Hf. destruct (Hm (fortunate_before _ _ Hg Hf)) as (Hi & (Er & Hfin & Hown) & _).
  destruct (inv_packs _ _ Hi p (to_upload_referenced _ _ Hu)) as (pp' & Hpp' & Hok & HF). rewrite Hpp in Hpp'. injection Hpp' as <-.
  destruct (pk_name _ _ Hok) as (rr & Hrr & Hn). pose proof (pack_name_is_pack _ _ Hn) as Hpk.
  assert (forall b, w_blobs (wm_world m) !! pp_packBlobID pp = Some b -> bl_data b = pp_currentPackData pp) as Hsame.
  { intros b Eb. by destruct (pk_stored _ _ Hok b Eb). }
  assert (forall id', id' <> pp_packBlobID pp -> w_blobs w' !! id' = w_blobs (wm_world m) !! id') as Hother by (intros; by rewrite Hb, lookup_insert_ne).
  assert (extends (fun id' => id' <> pp_packBlobID pp) (wm_world m) w') as He by (eapply put_pack; [done..|by intros []|done]).
  split_and!.
  - eapply inv_changed_pack; [done|eapply put_pack_storage; [exact (inv_storage _ _ Hi)|done..]|exact He|]. intros q qq Hq Hqq.
    destruct (decide (pp_packBlobID qq = pp_packBlobID pp)) as [Eid|Hneq]; [right|by left].
    assert (q = p) as -> by (eapply (inv_distinct _ _ Hi); [done|by apply to_upload_referenced|done..]). rewrite Hpp in Hqq. injection Hqq as <-.
    split; [|intros prefix; by apply to_upload_not_pending]. destruct Hok as [Hit _ Hst Hfi]. split; [|exists rr; split; [by eapply grows_drawn|done]| |done].
    + intros i it H1. destruct (Hit i it H1) as (? & [? ?] & ? & Hr). split_and!; [done|done|by eapply timely_grows|done|]. intros Ei. destruct (Hr Ei) as (? & d & ? & ? & ?).
      split; [done|]. exists d. split_and!; [done..|]. by eapply grows_hashed.
    + rewrite Hb, lookup_insert_eq. intros b [= <-]. split; [done|]. destruct Hfin as [?|[?|?]]; [by left|by right|done].
  - apply evolves_known; [eapply put_pack; done| |].
    + intros it [Hl|(ix & d & l & [Hix Hd] & ?)]; [left; by left|]. left. right. exists ix, d, l. split; [|done]. split; [done|].
      rewrite <- Hother; [done|]. intros ->. apply index_not_pack in Hix. congruence.
    + intros it [Hl|Hin] _; exists it; (split; [|done]); [by left|right]. eapply in_index_extends; [exact He|done].
  - intros _ _. eexists. by rewrite Hb, lookup_insert_eq.
Qed.

(** What has been uploaded is backed by it. *)
Definition uploaded (r : option Builder) (pp : pendingPackInfo) (w : world) : Prop :=
  default ∅ r = pp_currentPackItems pp /\ forall i it, pp_currentPackItems pp !! i = Some it -> ContentID it = i /\ entry_ok w it.

Lemma uploaded_ready w r pp : pack_ok w pp -> ready r pp ->
  (pp_currentPackData pp <> [] -> exists b, w_blobs w !! pp_packBlobID pp = Some b /\ bl_data b = pp_currentPackData pp) -> uploaded r pp w.
Proof.
  intros Hok (Er & _ & Hown) Hb. split; [done|]. intros i it Hit. destruct (pk_items _ _ Hok i it Hit) as (Hc & Hsh & Hl & Hr).
  split; [done|]. split; [done|]. intros Hd. specialize (Hl Hd). destruct (Hr Hl) as (Hs & d & Hrd & Hn & Hh).
  destruct (pk_name _ _ Hok) as (rr & _ & Hnm). split; [rewrite Hl; by eapply pack_name_is_pack|].
  destruct Hb as (b & Hb & Ed); [intros E; by eapply Hown|]. exists b, d. rewrite Hl, Ed, Hc. done.
Qed.

Lemma prepareAndWrite_safe m p P : to_upload m p -> assumed F m P ->
  safe F D m (prepareAndWritePackInternal p m) (fun r m' => holding m p (fun pp => uploaded r pp (wm_world m')) m').
Proof.
  intros Hu Hm. unfold prepareAndWritePackInternal.
  eapply (safe_bind _ _ _ (fun _ m1 => wm_lists m1 = wm_lists m)); [eapply safe_storage; [apply tame_parameters|exact Hm|done]|].
  intros u m1 E1 Hm1. assert (wm_lists m1 = wm_lists m) as Hl1 by (pose proof (still_on_storage GetMutableParameters m) as Hs; by rewrite E1 in Hs).
  eapply safe_bind; [eapply prepare_safe; [by eapply to_upload_lists|exact Hm1]|]. intros r m2 E2 Hm2.
  unfold load_pack at 1, bind at 1. destruct (wm_packs m2 !! p) as [pp|] eqn:Ep; [|by eapply safe_fail].
  assert (assumed F m2 (fun m2 => ready r pp /\ wm_lists m2 = wm_lists m)) as Hm2'.
  { intros Hf. destruct (Hm2 Hf) as (Hi & Hl & pp' & Hpp' & Hrd). rewrite Ep in Hpp'. injection Hpp' as <-. split_and!; [done..|congruence]. }
  assert (wm_lists m2 = wm_lists m) as Hl2 by (pose proof (still_prepare_data p m1) as Hs; rewrite E2 in Hs; cbn in Hs; congruence).
  assert (forall m3, wm_lists m3 = wm_lists m -> wm_packs m3 !! p = Some pp -> assumed F m3 (fun m3 => ready r pp
    /\ (pp_currentPackData pp <> [] -> exists b, w_blobs (wm_world m3) !! pp_packBlobID pp = Some b /\ bl_data b = pp_currentPackData pp)) ->
    safe F D m3 (Ok r, m3) (fun r m' => holding m p (fun pp => uploaded r pp (wm_world m')) m')) as Hend.
  { intros m3 Hl3 Hp3 Hm3. apply safe_ret. intros Hf. destruct (Hm3 Hf) as (Hi & Hrd & Hb). split; [done|]. split; [done|]. exists pp. split; [done|].
    apply uploaded_ready; [|done..]. destruct (inv_packs _ _ Hi p) as (pp' & Hpp' & Hok & _); [by eapply to_upload_referenced, to_upload_lists|].
    rewrite Hp3 in Hpp'. by injection Hpp' as <-. }
  unfold when. destruct (Z.ltb_spec 0 (slen (pp_currentPackData pp))) as [Hpos|Hz].
  2: { change (bind _ _ m2) with (Ok (E := content_error) r, m2). apply Hend; [done..|]. intros Hf. destruct (Hm2' Hf) as (Hi & Hrd & _). split_and!; [done..|].
       intros Hne. destruct (pp_currentPackData pp); [done|]. unfold slen in Hz. cbn in Hz. lia. }
  assert (pp_currentPackData pp <> []) as Hne by (intros E; rewrite E in Hpos; done).
  pose proof (upload_safe m2 p pp r _ (to_upload_lists _ _ _ Hl2 Hu) Ep Hne Hm2') as Hup.
  eapply (safe_bind _ _ _ (fun _ m3 => exists b, w_blobs (wm_world m3) !! pp_packBlobID pp = Some b /\ bl_data b = pp_currentPackData pp)).
  { eapply safe_bind; [exact Hup|]. intros t m3 _ Hm3. by apply safe_ret. }
  intros u3 m3 E3 Hm3. unfold bind in E3. rewrite on_storage_eq in E3, Hup. destruct (PutBlob _ _ (wm_world m2)) as [[t|e] w'] eqn:E; [|done].
  injection E3 as <- <-. apply Hend; [done..|]. intros Hf. destruct (Hm3 Hf) as (Hi & Hb). destruct (Hm2' (fortunate_before _ _ (proj1 Hup) Hf)) as (_ & Hrd & _). by split_and!.
Qed.

(** ** Packs that change lists *)

Lemma relist_inv m packs pending writing failed builder : inv F m -> let m' := set_packs m packs pending writing failed builder in
  (forall q, referenced m' q -> referenced m q /\ packs !! q = wm_packs m !! q) ->
  (forall prefix q, pending !! prefix = Some q -> wm_pendingPacks m !! prefix = Some q /\ (q ∉ writing) /\ (q ∉ failed)) ->
  (forall i it, builder !! i = Some it -> ContentID it = i /\ entry_ok (wm_world m) it) -> NoDup failed ->
  (forall it, local_entry m' it -> local_entry m it) -> inv F m'.
Proof.
  intros Hi m' Hr Hp Hb Hnd Hl. split; try apply Hi.
  - intros q Hq. destruct (Hr q Hq) as [Hq' E]. destruct (inv_packs _ _ Hi q Hq') as (qq & Hqq & ?). exists qq. by rewrite <- E in Hqq.
  - intros prefix q Hq. destruct (Hp prefix q Hq) as (Hq' & ? & ?). destruct (inv_pending _ _ Hi prefix q Hq') as (_ & _ & qq & Hqq & ?).
    split; [done|]. split; [done|]. exists qq. split; [|done]. cbn. destruct (Hr q) as [_ E]; [left; eauto|]. by rewrite E.
  - intros q1 q2 qq1 qq2 H1 H2 E1 E2. destruct (Hr q1 H1) as [? R1], (Hr q2 H2) as [? R2]. cbn in E1, E2. rewrite R1 in E1. rewrite R2 in E2.
    by eapply (inv_distinct _ _ Hi).
  - exact Hb.
  - exact Hnd.
  - eapply counted_sub; [reflexivity| |exact (inv_count _ _ Hi)]. intros it Hit. exists it. by auto.
Qed.

Lemma relist_evolves m packs pending writing failed builder : let m' := set_packs m packs pending writing failed builder in
  (forall it, local_entry m' it -> local_entry m it) ->
  (forall it, local_entry m it -> exists it', local_entry m' it' /\ ContentID it' = ContentID it) -> evolves F D m m'.
Proof.
  intros m' Hsub Hcov. apply evolves_known; [done| |].
  - intros it [Hl|Hin]; left; [left; by apply Hsub|by right].
  - intros it [Hl|Hin] _; [|exists it; split; [by right|done]]. destruct (Hcov it Hl) as (it' & ? & ?). exists it'. split; [by left|done].
Qed.

Lemma relist_local m pending writing failed : let m' := set_packs m (wm_packs m) pending writing failed (wm_packIndexBuilder m) in
  (forall q, referenced m' q <-> referenced m q) -> forall it, local_entry m' it -> local_entry m it.
Proof. intros m' Hr it [(p & pp & i & Hp & ?)|?]; [left|by right]. exists p, pp, i. by apply Hr in Hp. Qed.

(** Packs in other lists, the same altogether. *)
Lemma relist_same m pending writing failed : let m' := set_packs m (wm_packs m) pending writing failed (wm_packIndexBuilder m) in
  (forall q, referenced m' q <-> referenced m q) -> evolves F D m m'.
Proof.
  intros m' Hr. apply relist_evolves; [by apply relist_local|].
  intros it Hit. exists it. split; [|done]. destruct Hit as [(p & pp & i & Hp & ?)|?]; [left|by right]. exists p, pp, i. split; [by apply Hr|done].
Qed.

Lemma elem_of_removePending q l p : q ∈ removePendingPack l p <-> q ∈ l /\ q <> p.
Proof. unfold removePendingPack. rewrite list_elem_of_filter. tauto. Qed.

Lemma process_ok m p pp r : inv F m -> to_upload m p -> wm_packs m !! p = Some pp -> uploaded r pp (wm_world m) ->
  let m' := set_packs m (<[p := set_data pp [] (pp_finalized pp)]> (wm_packs m)) (wm_pendingPacks m) (removePendingPack (wm_writingPacks m) p)
    (removePendingPack (wm_failedPacks m) p) (foldl Add (wm_packIndexBuilder m) (map_to_list (default ∅ r)).*2) in
  inv F m' /\ evolves F D m m'.
Proof.
  intros Hi Hu Hpp (Er & Hup). rewrite Er. intros m'.
  assert (forall q, referenced m' q <-> referenced m q /\ q <> p) as Hr.
  { intros q. unfold referenced. cbn. rewrite !elem_of_removePending. split; [|tauto].
    intros [(prefix & Hq)|?]; [|tauto]. split; [eauto|]. intros ->. by eapply to_upload_not_pending. }
  assert (forall it, local_entry m' it -> local_entry m it) as Hsub.
  { intros it [(q & qq & i & [Hq Hne]%Hr & Hqq & Hit)|[i Hb]]; cbn in *.
    - rewrite lookup_insert_ne in Hqq by done. left. by exists q, qq, i.
    - apply foldl_Add_from in Hb as [Hb|[[j Hj]%value_elem Hc]]; [right; eauto|]. left. exists p, pp, j. split; [|done]. by apply to_upload_referenced. }
  split.
  - apply relist_inv; [done| | | |apply NoDup_filter, (inv_failed _ _ Hi)|exact Hsub].
    + intros q [Hq Hne]%Hr. split; [done|]. by rewrite lookup_insert_ne.
    + intros prefix q Hq. split; [done|]. destruct (inv_pending _ _ Hi prefix q Hq) as (? & ? & _). rewrite !elem_of_removePending. tauto.
    + intros i it [Hb|[[j Hj]%value_elem Hc]]%foldl_Add_from; [by apply Hi|]. destruct (Hup j it Hj). split; [done|]. done.
  - apply relist_evolves; [exact Hsub|].
    + assert (forall i, is_Some (wm_packIndexBuilder m !! i) \/ is_Some (pp_currentPackItems pp !! i) -> exists it', local_entry m' it' /\ ContentID it' = i) as Hhas.
      { intros i Hi'. destruct (foldl_Add_has (map_to_list (pp_currentPackItems pp)).*2 (wm_packIndexBuilder m) i) as [x Hx].
        - destruct Hi' as [?|[y Hy]]; [by left|]. right. apply list_elem_of_fmap. exists y. split; [by destruct (Hup i y Hy)|]. apply value_elem. eauto.
        - exists x. split; [right; by exists i|]. apply foldl_Add_from in Hx as [Hx|[_ ?]]; [by apply (inv_builder _ _ Hi i x)|done]. }
      intros it [(q & qq & i & Hq & Hqq & Hit)|[i Hb]].
      * destruct (decide (q = p)) as [->|Hne].
        -- rewrite Hpp in Hqq. injection Hqq as <-. destruct (Hup i it Hit) as [<- _]. apply Hhas. eauto.
        -- exists it. split; [|done]. left. exists q, qq, i. split; [by apply Hr|]. split; [cbn; by rewrite lookup_insert_ne|done].
      * destruct (inv_builder _ _ Hi i it Hb) as [<- _]. apply Hhas. eauto.
Qed.

Lemma process_err m p : inv F m -> to_upload m p ->
  let m' := set_packs m (wm_packs m) (wm_pendingPacks m) (removePendingPack (wm_writingPacks m) p)
    (removePendingPack (wm_failedPacks m) p ++ [p]) (wm_packIndexBuilder m) in
  inv F m' /\ evolves F D m m'.
Proof.
  intros Hi Hu m'. assert (forall q, referenced m' q <-> referenced m q) as Hr.
  { intros q. unfold referenced. cbn. rewrite elem_of_app, !elem_of_removePending, list_elem_of_singleton. unfold to_upload in Hu.
    destruct (decide (q = p)) as [->|]; tauto. }
  split; [|by apply relist_same]. apply relist_inv; [done| | |apply Hi| |by apply relist_local].
  - intros q Hq%Hr. done.
  - intros prefix q Hq. split; [done|]. destruct (inv_pending _ _ Hi prefix q Hq) as (? & ? & _).
    rewrite elem_of_app, !elem_of_removePending, list_elem_of_singleton. split; [tauto|]. intros [?| ->]; [tauto|]. by eapply to_upload_not_pending.
  - apply NoDup_app. split_and!; [apply NoDup_filter, (inv_failed _ _ Hi)| |apply NoDup_singleton].
    intros q [_ Hq]%elem_of_removePending. by rewrite list_elem_of_singleton.
Qed.

Lemma writePack_safe m p P : to_upload m p -> assumed F m P -> safe F D m (writePackAndAddToIndex p m) (fun _ _ => True).
Proof.
  intros Hu Hm. unfold writePackAndAddToIndex. eapply safe_bind; [apply safe_attempt; by eapply prepareAndWrite_safe|].
  intros r m1 E1 Hm1. assert (wm_lists m1 = wm_lists m) as Hl.
  { unfold attempt in E1. pose proof (still_prepare p m) as Hs. destruct (prepareAndWritePackInternal p m) as [r' m']. injection E1 as <- <-. exact Hs. }
  pose proof (to_upload_lists _ _ _ Hl Hu) as Hu1. unfold processWritePackResultLocked. unfold gets at 1, bind at 1. destruct r as [pfi|e].
  - unfold bind at 1, modify at 1. unfold load_pack at 1, bind at 1. cbn [wm_packs set_packs].
    destruct (wm_packs m1 !! p) as [pp|] eqn:Ep.
    + split; [done|]. cbn [fst snd]. intros Hf. destruct (Hm1 Hf) as (Hi & HQ). destruct (HQ pfi eq_refl) as (_ & pp' & Hpp' & Hup).
      rewrite Ep in Hpp'. injection Hpp' as <-. destruct (process_ok m1 p pp pfi Hi Hu1 Ep Hup). by split_and!.
    + split; [done|]. cbn [fst snd]. intros Hf. exfalso. destruct (Hm1 Hf) as (Hi & HQ). destruct (HQ pfi eq_refl) as (_ & pp' & Hpp' & Hup). congruence.
  - unfold bind at 1, modify at 1. split; [done|]. cbn [fst snd fail]. intros Hf. destruct (Hm1 Hf) as (Hi & _). destruct (process_err m1 p Hi Hu1). by split_and!.
Qed.

(** ** Writing packs one after the other *)

Lemma writePack_lists p m m' : writePackAndAddToIndex p m = (Ok tt, m') ->
  wm_pendingPacks m' = wm_pendingPacks m /\ wm_writingPacks m' = removePendingPack (wm_writingPacks m) p
  /\ wm_failedPacks m' = removePendingPack (wm_failedPacks m) p.
Proof.
  unfold writePackAndAddToIndex. intros H. apply bind_Ok in H as (r & m1 & E1 & H). unfold attempt in E1.
  pose proof (still_prepare p m) as Hs. destruct (prepareAndWritePackInternal p m) as [r' m1']. injection E1 as <- <-. cbn [snd] in Hs.
  unfold processWritePackResultLocked, bind, gets, modify, load_pack, store_pack in H. destruct r' as [pfi|e]; [|done].
  cbn in H. destruct (wm_packs m1' !! p); [|done]. injection H as <-. cbn. injection Hs as -> -> -> _. done.
Qed.

(** The packs of a list that are still to be uploaded. *)
Lemma retry_loop m l P : NoDup l -> (forall p, p ∈ l -> to_upload m p) -> assumed F m P ->
  safe F D m (for_each l writePackAndAddToIndex m) (fun _ _ => True).
Proof.
  revert m P. induction l as [|p l IH]; intros m P Hnd Hl Hm; cbn [for_each]; [apply safe_ret; intros Hf; by destruct (Hm Hf)|].
  apply NoDup_cons in Hnd as [Hp Hnd].
  eapply safe_bind; [eapply writePack_safe; [apply Hl; by left|exact Hm]|]. intros [] m1 E1 Hm1. eapply IH; [done| |exact Hm1].
  intros q Hq. apply writePack_lists in E1 as (_ & Ew & Ef). unfold to_upload. rewrite Ew, Ef, !elem_of_removePending.
  assert (q <> p) by (by intros ->). destruct (Hl q) as [?|?]; [by right|tauto..].
Qed.

Lemma grows_PutBlob id d w : grows w (PutBlob id d w).2.
Proof. destruct (PutBlob id d w) as [r w'] eqn:E. by apply PutBlob_cases in E as [[_ [? _]]|[? _]]. Qed.

Lemma w_grows_load p : w_grows (load_pack p).
Proof. intros m. unfold load_pack. by destruct (wm_packs m !! p). Qed.

Ltac grow := repeat first [ progress intros | case_match | solve [apply w_grows_tame; auto with tame] | solve [apply w_grows_load]
  | solve [apply w_grows_storage; intros; apply grows_PutBlob] | solve [by intros ?] | apply w_grows_attempt | apply w_grows_bind ].

Lemma w_grows_writePack p : w_grows (writePackAndAddToIndex p).
Proof.
  unfold writePackAndAddToIndex, prepareAndWritePackInternal, preparePackDataContent, processWritePackResultLocked, store_pack, when. grow.
Qed.

Lemma retry_safe m P : assumed F m P -> safe F D m (retryFailedPacks m) (fun _ _ => True).
Proof.
  intros Hm. unfold retryFailedPacks. unfold gets at 1, bind at 1. destruct (decide (NoDup (wm_failedPacks m))) as [Hnd|Hnd].
  - eapply retry_loop; [done| |exact Hm]. intros p Hp. by right.
  - apply safe_absurd; [apply w_grows_for_each, w_grows_writePack|]. intros Hf. destruct (Hm Hf) as [Hi _]. by destruct Hnd, Hi.
Qed.

(** After a loop without an error its packs are on no list. *)
Lemma retry_lists l m m' : for_each l writePackAndAddToIndex m = (Ok tt, m') ->
  wm_pendingPacks m' = wm_pendingPacks m /\ (forall q, q ∈ wm_writingPacks m' <-> q ∈ wm_writingPacks m /\ q ∉ l)
  /\ forall q, q ∈ wm_failedPacks m' <-> q ∈ wm_failedPacks m /\ q ∉ l.
Proof.
  revert m. induction l as [|p l IH]; intros m; cbn [for_each].
  { intros [= <-]. split_and!; [done|..]; intros q; pose proof (not_elem_of_nil q); tauto. }
  intros H. apply bind_Ok in H as ([] & m1 & E1 & H). apply IH in H as (Ep & Ew & Ef). apply writePack_lists in E1 as (Ep1 & Ew1 & Ef1).
  split_and!; [congruence|..]; intros q; rewrite ?Ew, ?Ef, ?Ew1, ?Ef1, elem_of_removePending, not_elem_of_cons; tauto.
Qed.

(** ** Finishing the packs that contents are added to *)

Definition start_writing (m : WriteManager) (prefix : string) (p : nat) : WriteManager :=
  set_packs m (wm_packs m) (delete prefix (wm_pendingPacks m)) (wm_writingPacks m ++ [p]) (wm_failedPacks m) (wm_packIndexBuilder m).

Lemma start_writing_referenced m prefix p q : wm_pendingPacks m !! prefix = Some p ->
  referenced (start_writing m prefix p) q <-> referenced m q.
Proof.
  intros Hp. unfold referenced. cbn. rewrite elem_of_app, list_elem_of_singleton. split.
  - intros [(pre & [_ Hq]%lookup_delete_Some)|[[?| ->]|?]]; eauto.
  - intros [(pre & Hq)|?]; [|tauto]. destruct (decide (pre = prefix)) as [->|Hne]; [right; left; right; congruence|].
    left. exists pre. by rewrite lookup_delete_ne.
Qed.

Lemma start_writing_ok m prefix p : inv F m -> wm_pendingPacks m !! prefix = Some p ->
  inv F (start_writing m prefix p) /\ evolves F D m (start_writing m prefix p).
Proof.
  intros Hi Hp. pose proof (fun q => start_writing_referenced m prefix p q Hp) as Hr.
  split; [|by apply relist_same]. apply relist_inv; [done| | |apply Hi|apply Hi|by apply relist_local].
  - intros q Hq%Hr. done.
  - intros pre q [Hne Hq]%lookup_delete_Some. destruct (inv_pending _ _ Hi pre q Hq) as (Hw & Hf & qq & Hqq & Hok).
    split; [done|]. split; [|done]. rewrite elem_of_app, list_elem_of_singleton. intros [?| ->]; [done|].
    destruct (inv_pending _ _ Hi prefix p Hp) as (_ & _ & pp & Hpp & Hok'). rewrite Hqq in Hpp. injection Hpp as <-.
    apply Hne. by rewrite <- (pd_prefix _ _ _ Hok), <- (pd_prefix _ _ _ Hok').
Qed.

Lemma start_writing_safe m prefix p P : wm_pendingPacks m !! prefix = Some p -> assumed F m P ->
  safe F D m (modify (fun m => start_writing m prefix p) m) (fun _ m' => True).
Proof. intros Hp Hm. eapply safe_modify; [exact Hm|done|]. intros _ Hi _. destruct (start_writing_ok m prefix p Hi Hp). by split_and!. Qed.

Definition finish_entry (e : string * nat) : M WriteManager unit :=
  modify (fun m => start_writing m e.1 e.2) ;;* writePackAndAddToIndex e.2.

Lemma finish_entry_lists e m m' : finish_entry e m = (Ok tt, m') ->
  wm_pendingPacks m' = delete e.1 (wm_pendingPacks m) /\ (forall q, q ∈ wm_writingPacks m' <-> q ∈ wm_writingPacks m /\ q <> e.2)
  /\ forall q, q ∈ wm_failedPacks m' <-> q ∈ wm_failedPacks m /\ q <> e.2.
Proof.
  unfold finish_entry, bind, modify. intros (Ep & Ew & Ef)%writePack_lists. cbn [wm_pendingPacks wm_writingPacks wm_failedPacks start_writing set_packs] in Ep, Ew, Ef. split; [done|]. rewrite Ew, Ef.
  split; intros q; rewrite elem_of_removePending, ?elem_of_app, ?list_elem_of_singleton; tauto.
Qed.

Lemma finish_loop m l P : NoDup l.*1 -> (forall prefix p, (prefix, p) ∈ l -> wm_pendingPacks m !! prefix = Some p) -> assumed F m P ->
  safe F D m (for_each l finish_entry m) (fun _ _ => True).
Proof.
  revert m P. induction l as [|[prefix p] l IH]; intros m P Hnd Hl Hm; cbn [for_each]; [apply safe_ret; intros Hf; by destruct (Hm Hf)|].
  cbn in Hnd. apply NoDup_cons in Hnd as [Hp Hnd]. eapply safe_bind.
  { eapply safe_bind; [eapply start_writing_safe; [apply Hl; by left|exact Hm]|]. intros [] m1 E1 Hm1. eapply writePack_safe; [|exact Hm1].
    injection E1 as <-. left. cbn. apply elem_of_app. right. by apply list_elem_of_singleton. }
  intros [] m1 E1 Hm1. eapply IH; [done| |exact Hm1]. intros pre q Hq. apply finish_entry_lists in E1 as (-> & _).
  rewrite lookup_delete_ne; [by apply Hl; right|]. cbn. intros ->. apply Hp. apply list_elem_of_fmap. by exists (pre, q).
Qed.

Lemma map_entries_NoDup (b : bool) (pending : gmap string nat) :
  NoDup (if b then reverse (map_to_list pending) else map_to_list pending).*1
  /\ forall e, e ∈ (if b then reverse (map_to_list pending) else map_to_list pending) <-> pending !! e.1 = Some e.2.
Proof.
  split.
  - destruct b; [rewrite fmap_reverse, reverse_Permutation|]; apply NoDup_fst_map_to_list.
  - intros [pre p]. cbn. rewrite <- elem_of_map_to_list. destruct b; [|done]. by rewrite elem_of_reverse.
Qed.

Lemma finish_safe m P : assumed F m P -> safe F D m (finishAllPacksLocked m) (fun _ _ => True).
Proof.
  intros Hm. unfold finishAllPacksLocked. unfold gets at 1, bind at 1.
  eapply (safe_bind _ _ _ (fun _ _ => True)); [eapply safe_storage; [apply tame_next_turn|exact Hm|done]|]. intros t m1 E1 Hm1.
  assert (wm_pendingPacks m1 = wm_pendingPacks m) as Ep by (rewrite on_storage_eq in E1; injection E1 as _ <-; done).
  destruct (map_entries_NoDup (tn_swap t) (wm_pendingPacks m)) as [Hnd Hin]. eapply finish_loop; [exact Hnd| |exact Hm1].
  intros pre p Hp%Hin. by rewrite Ep.
Qed.

Lemma finish_loop_lists l m m' : for_each l finish_entry m = (Ok tt, m') ->
  (forall pre, is_Some (wm_pendingPacks m' !! pre) -> is_Some (wm_pendingPacks m !! pre) /\ pre ∉ l.*1)
  /\ (forall q, q ∈ wm_writingPacks m' -> q ∈ wm_writingPacks m) /\ forall q, q ∈ wm_failedPacks m' -> q ∈ wm_failedPacks m.
Proof.
  revert m. induction l as [|e l IH]; intros m; cbn [for_each fmap list_fmap].
  { intros [= <-]. split_and!; [|done..]. intros pre Hp. split; [done|apply not_elem_of_nil]. }
  intros H. apply bind_Ok in H as ([] & m1 & E1 & H). apply IH in H as (Ep & Ew & Ef). apply finish_entry_lists in E1 as (Ep1 & Ew1 & Ef1).
  split_and!.
  - intros pre [H1 H2]%Ep. rewrite Ep1 in H1. destruct H1 as [x [Hne Hx]%lookup_delete_Some]. split; [eauto|]. by apply not_elem_of_cons.
  - intros q [? _]%Ew%Ew1. done.
  - intros q [? _]%Ef%Ef1. done.
Qed.

(** A finish without an error leaves no pack to be written but those that were
    already. *)
Lemma finish_lists m m' : finishAllPacksLocked m = (Ok tt, m') ->
  wm_pendingPacks m' = ∅ /\ (forall q, q ∈ wm_writingPacks m' -> q ∈ wm_writingPacks m) /\ forall q, q ∈ wm_failedPacks m' -> q ∈ wm_failedPacks m.
Proof.
  unfold finishAllPacksLocked. unfold gets at 1, bind at 1. intros H. apply bind_Ok in H as (t & m1 & E1 & H).
  rewrite on_storage_eq in E1. injection E1 as E1 <-. apply finish_loop_lists in H as (Ep & Ew & Ef). split; [|done].
  apply map_empty. intros pre. apply eq_None_not_Some. intros [[p Hp] Hno]%Ep. apply Hno. cbn in Hp.
  destruct (map_entries_NoDup (tn_swap t) (wm_pendingPacks m)) as [_ Hin]. apply list_elem_of_fmap. exists (pre, p). split; [done|]. by apply Hin.
Qed.

End Packs.
