(* ===== verification/ContentFlush.v ===== *)
(** * Writing the index

    An index blob is written after the packs its entries point to, and the index
    being built is dropped only when every entry of it is in a blob. *)

From S2P Require Import Prelude GoStrings GoText GoTime Db IndexID IndexTable IndexV1 IndexV2 IndexV2Facts IndexBuild IndexMergedFacts IndexRoundTrip Gather PackFormat ContentStore IndexBlobV0 CommittedIndex ContentManager ContentSpec ContentInv ContentStoreFacts CommittedFacts ContentFacts ContentSessions ContentPacks.
Open Scope go_scope.

Lemma Forall2_in_l {A B} (R : A -> B -> Prop) l k x : Forall2 R l k -> x ∈ l -> exists y, y ∈ k /\ R x y.
Proof. intros H [i Hi]%list_elem_of_lookup. destruct (Forall2_lookup_l _ _ _ _ _ H Hi) as (y & Hy & ?). exists y. split; [by eapply list_elem_of_lookup_2|done]. Qed.

Lemma Forall2_in_r {A B} (R : A -> B -> Prop) l k y : Forall2 R l k -> y ∈ k -> exists x, x ∈ l /\ R x y.
Proof. intros H [i Hi]%list_elem_of_lookup. destruct (Forall2_lookup_r _ _ _ _ _ H Hi) as (x & Hx & ?). exists x. split; [by eapply list_elem_of_lookup_2|done]. Qed.

Section Flush.
Context {TE : Environment} {TC : Crypter} {TCL : CrypterLaws} {TP : Parameters} {TF : Config} {TK : Compressors} {TL : ContentLaws}.
Context {F : string -> Prop} {D : ID -> Prop}.

(** ** Storing an index blob *)

Lemma put_index (G : string -> Prop) w w' id e t d : grows w w' -> w_blobs w' = <[id := mkBlob e t]> (w_blobs w) -> is_index id = true ->
  blob_Decrypt e id = Ok d -> (forall b, w_blobs w !! id = Some b -> blob_Decrypt (bl_data b) id = Ok d) -> extends G w w'.
Proof.
  intros Hg Hb Hi Hd Hsame. assert (forall id', id' <> id -> w_blobs w' !! id' = w_blobs w !! id') as Hother by (intros; by rewrite Hb, lookup_insert_ne).
  assert (forall id', is_pack id' = true -> w_blobs w' !! id' = w_blobs w !! id') as Hpack.
  { intros id' Hp. apply Hother. intros ->. apply index_not_pack in Hi. congruence. }
  split; [done| | |].
  - intros id' b Hp Hb'. exists b. by rewrite Hpack.
  - intros id' x [Hi' (b & Hx & Hdx)]. split; [done|]. destruct (decide (id' = id)) as [->|Hne]; [|rewrite Hother by done; eauto].
    exists (mkBlob e t). rewrite Hb, lookup_insert_eq. split; [done|]. rewrite (Hsame b Hx) in Hdx. cbn. congruence.
  - intros id' _ Hp. by rewrite Hpack.
Qed.

Lemma index_prefix_name d t : is_index (V0IndexBlobPrefix +:+ (hex_encode (HashFunc d) +:+ t)) = true.
Proof. done. Qed.

(** Index blobs of one name have one content. *)
Lemma index_blob_same w id d b : fortunate w -> storage_ok w -> index_name id d -> d ∈ w_hashed w -> w_blobs w !! id = Some b ->
  blob_Decrypt (bl_data b) id = Ok d.
Proof.
  intros Hf Hs Hn Hd Hb. assert (is_index id = true) as Hi by (destruct Hn as [t ->]; apply index_prefix_name).
  destruct (so_index _ Hs id Hi) as (d' & l & [_ (b' & Hb' & Hdec)] & Hh & Hn' & _); [eauto|]. rewrite Hb in Hb'. injection Hb' as <-.
  rewrite Hdec. f_equal. eapply (f_hashed _ Hf); [done..|]. by eapply index_name_inj.
Qed.

(** An index whose entries the manager has and the storage backs. *)
Definition good_shard (m : WriteManager) (d : list Z) : Prop :=
  slen d < 2 ^ 32 -> exists l, index_of d l /\ Forall (fun it => local_entry m it /\ entry_ok (wm_world m) it /\ in_time it) l.

Lemma put_index_storage w w' id e t d l : storage_ok w -> extends (fun _ => True) w w' -> w_blobs w' = <[id := mkBlob e t]> (w_blobs w) ->
  index_name id d -> blob_Decrypt e id = Ok d -> d ∈ w_hashed w -> index_of d l -> Forall (fun it => entry_ok w it /\ in_time it) l -> storage_ok w'.
Proof.
  intros [Hi Hp] He Hb Hn Hd Hh Ho Hl. pose proof (ex_grows _ _ _ He) as Hg.
  assert (is_index id = true) as Hid by (destruct Hn as [x ->]; apply index_prefix_name).
  assert (forall l, Forall (fun it => entry_ok w it /\ in_time it) l -> Forall (fun it => entry_ok w' it /\ in_time it) l) as Hmono.
  { intros l' Hl'. eapply Forall_impl; [exact Hl'|]. intros it [? ?]. split; [by eapply entry_ok_extends|done]. }
  split.
  - intros id' Hid' Hs. destruct (decide (id' = id)) as [->|Hne].
    + exists d, l. split_and!; [|by eapply grows_hashed|done|done|by apply Hmono]. split; [done|]. exists (mkBlob e t). by rewrite Hb, lookup_insert_eq.
    + rewrite Hb, lookup_insert_ne in Hs by done. destruct (Hi id' Hid' Hs) as (d' & l' & Hb' & Hd' & Hn' & Ho' & Hl').
      exists d', l'. split_and!; [by apply (ex_index _ _ _ He)|by eapply grows_hashed|done|done|by apply Hmono].
  - intros id' Hid' Hs. rewrite Hb, lookup_insert_ne in Hs by (intros <-; apply index_not_pack in Hid; congruence).
    destruct (Hp id' Hid' Hs) as (r & ? & ?). exists r. split; [by eapply grows_drawn|done].
Qed.

Lemma put_index_safe m d id e P : index_name id d -> blob_Decrypt e id = Ok d ->
  assumed F m (fun m => good_shard m d /\ d ∈ w_hashed (wm_world m) /\ P m) ->
  safe F D m (on_storage (PutBlob id e) m) (fun _ m' => index_blob (wm_world m') id d).
Proof.
  intros Hn Hd Hm. rewrite on_storage_eq. destruct (PutBlob _ _ (wm_world m)) as [res w'] eqn:E. cbn [fst snd].
  assert (is_index id = true) as Hid by (destruct Hn as [x ->]; apply index_prefix_name).
  apply PutBlob_cases in E as [[-> Ht]|(Hg & t & Hb)].
  { split; [apply Ht|]. cbn. intros Hf. destruct (Hm (fortunate_before _ _ (proj1 Ht) Hf)) as [Hi _]. split_and!; [|by apply evolves_tame|done].
    eapply inv_with_world; [done|by eapply tame_storage, inv_storage|by apply (tame_extends (fun _ => True))|done]. }
  split; [done|]. cbn. intros Hf. pose proof (fortunate_before _ _ Hg Hf) as Hf0. destruct (Hm Hf0) as (Hi & Hgood & Hh & _).
  destruct Hgood as (l & Ho & Hl).
  { pose proof (f_small _ Hf0) as Hsm. rewrite Forall_forall in Hsm. apply Hsm. apply elem_of_app. by left. }
  assert (extends (fun _ => True) (wm_world m) w') as He.
  { eapply put_index; [done..|]. intros b Eb. eapply index_blob_same; [done|apply Hi|done..]. }
  assert (index_blob w' id d) as Hib by (split; [done|]; exists (mkBlob e t); by rewrite Hb, lookup_insert_eq).
  split_and!; [|apply evolves_known|done].
  - eapply inv_with_world; [done| |exact He|done]. eapply put_index_storage; [apply Hi|exact He|exact Hb|done..|].
    eapply Forall_impl; [exact Hl|]. by intros it (_ & ? & ?).
  - eapply extends_weaken; [|exact He]. done.
  - intros it [Hloc|(ix & x & l' & [Hix Hx] & Hox & Hit)]; left; [by left|]. destruct (decide (ix = id)) as [->|Hne].
    + left. destruct Hx as (b & Eb & Edec). destruct Hib as [_ (b' & Eb' & Edec')]. cbn in Eb. rewrite Eb in Eb'. injection Eb' as <-.
      rewrite Edec in Edec'. injection Edec' as ->. rewrite Forall_forall in Hl. eapply Hl, index_of_mem; [exact Hox|done..].
    + right. exists ix, x, l'. split; [|done]. split; [done|]. cbn in Hx. by rewrite Hb, lookup_insert_ne in Hx.
  - intros it [Hloc|Hin] _; exists it; (split; [|done]); [by left|right]. by eapply in_index_extends.
Qed.

Lemma on_storage_bind {A B} (c : M world A) (k : A -> M world B) m :
  on_storage (bind c k) m = bind (on_storage c) (fun a => on_storage (k a)) m.
Proof.
  rewrite on_storage_eq. unfold bind. rewrite on_storage_eq. destruct (c (wm_world m)) as [[a|e] w1]; [|done]. cbn [fst snd]. by rewrite on_storage_eq.
Qed.

Lemma with_world_id m : with_world m (wm_world m) = m.
Proof. unfold with_world. by destruct m as [[] ]. Qed.

Lemma on_storage_ret {A} (a : A) m : on_storage (ret a) m = (Ok a, m).
Proof. rewrite on_storage_eq. cbn [ret fst snd]. by rewrite with_world_id. Qed.

Lemma safe_evolves m {A} (x : result content_error A * WriteManager) Q : safe F D m x Q -> safe F D m x (fun a m' => evolves F D m m' /\ Q a m').
Proof. intros [Hg Hx]. split; [done|]. intros Hf. destruct (Hx Hf) as (? & ? & ?). split_and!; auto. Qed.

(** A manager that differs in the storage only. *)
Definition moved (m m' : WriteManager) : Prop := extends F (wm_world m) (wm_world m') /\ m' = with_world m (wm_world m').

Lemma moved_trans m1 m2 m3 : moved m1 m2 -> moved m2 m3 -> moved m1 m3.
Proof. intros [H1 E1] [H2 E2]. split; [by etrans|]. rewrite E2 at 1. rewrite E1. done. Qed.

Lemma safe_moved m {A} (c : M world A) Q : safe F D m (on_storage c m) Q -> safe F D m (on_storage c m) (fun a m' => moved m m' /\ Q a m').
Proof.
  intros Hs%safe_evolves. eapply safe_mono; [|exact Hs]. intros a _ _ _ [He HQ]. split; [|done]. split; [apply He|].
  rewrite on_storage_eq. done.
Qed.

Lemma good_shard_moved m m' d : moved m m' -> good_shard m d -> good_shard m' d.
Proof.
  intros [He ->] Hg Hs. destruct (Hg Hs) as (l & Ho & Hl). exists l. split; [done|]. eapply Forall_impl; [exact Hl|].
  intros it (? & ? & ?). split; [done|]. split; [by eapply entry_ok_extends|done].
Qed.

Lemma writeIndexBlob_safe m d suffix P : assumed F m (fun m => good_shard m d /\ P m) ->
  safe F D m (on_storage (EncryptAndWriteBlob d V0IndexBlobPrefix suffix) m) (fun md m' => moved m m' /\ index_blob (wm_world m') (md_BlobID md) d).
Proof.
  intros Hm. apply safe_moved. unfold EncryptAndWriteBlob. rewrite on_storage_bind.
  eapply (safe_bind _ _ _ (fun _ m1 => good_shard m1 d /\ d ∈ w_hashed (wm_world m1) /\ True)).
  { eapply safe_storage; [apply tame_blob_Encrypt|exact Hm|]. intros [id e] w' Ew Ht _ _ [Hg _]. apply blob_Encrypt_Ok in Ew as (_ & Hh & _).
    split_and!; [|done..]. eapply good_shard_moved; [|exact Hg]. split; [by apply tame_extends|done]. }
  intros [id e] m1 E1 Hm1. rewrite on_storage_eq in E1. injection E1 as E1 <-.
  destruct (blob_Encrypt d V0IndexBlobPrefix suffix (wm_world m)) as [r w1] eqn:Eb. cbn in E1. subst r. apply blob_Encrypt_Ok in Eb as (Hd & _ & Hn).
  unfold PutBlobAndGetMetadata. rewrite on_storage_bind. cbn [fst snd] in *.
  eapply safe_bind; [eapply put_index_safe; [exact Hn|exact Hd|exact Hm1]|]. intros t m2 _ Hm2. rewrite on_storage_ret.
  apply safe_ret. exact Hm2.
Qed.

Lemma writeIndexBlobs_safe ds suffix m P : assumed F m (fun m => Forall (good_shard m) ds /\ P m) ->
  safe F D m (on_storage (WriteIndexBlobs ds suffix) m)
    (fun mds m' => moved m m' /\ Forall2 (fun md d => index_blob (wm_world m') (md_BlobID md) d) mds ds).
Proof.
  revert m P. induction ds as [|d ds IH]; intros m P Hm; unfold WriteIndexBlobs; cbn [collect].
  { rewrite on_storage_ret. apply safe_ret. intros Hf. destruct (Hm Hf) as [Hi _]. split; [done|]. split; [split; [done|by rewrite with_world_id]|constructor]. }
  rewrite on_storage_bind. eapply (safe_bind _ _ _ (fun md m1 => moved m m1 /\ index_blob (wm_world m1) (md_BlobID md) d /\ Forall (good_shard m1) ds)).
  { eapply safe_mono; [|eapply (writeIndexBlob_safe _ _ _ (fun _ => True))].
    - intros md _ Hf _ [Hmv Hib]. destruct (Hm (fortunate_before _ _ (ex_grows _ _ _ (proj1 Hmv)) Hf)) as (_ & [_ Hds]%Forall_cons & _).
      split_and!; [done..|]. eapply Forall_impl; [exact Hds|]. intros x. by apply good_shard_moved.
    - intros Hf. destruct (Hm Hf) as (Hi & [Hd Hds]%Forall_cons & HP). by split_and!. }
  intros md m1 _ Hm1. fold (WriteIndexBlobs ds suffix). rewrite on_storage_bind. eapply safe_bind.
  { eapply (IH m1 (fun _ => True)). intros Hf. destruct (Hm1 Hf) as (? & _ & _ & ?). done. }
  intros mds m2 _ Hm2. rewrite on_storage_ret. apply safe_ret. intros Hf. destruct (Hm2 Hf) as (Hi & Hmv & Hall). split; [done|].
  destruct (Hm1 (fortunate_before _ _ (ex_grows _ _ _ (proj1 Hmv)) Hf)) as (_ & Hmv1 & Hib & _). split; [by eapply moved_trans|].
  constructor; [|done]. by apply (ex_index _ _ _ (proj1 Hmv)).
Qed.

(** ** The shards of the index being built *)

Lemma builder_size m : inv F m -> (size (wm_packIndexBuilder m) <= w_tick (wm_world m))%nat.
Proof.
  intros Hi. destruct (inv_count _ _ Hi) as (ids & Hin & Hs). etrans; [|exact Hs]. rewrite <- size_dom. apply subseteq_size.
  intros i [it Hit]%elem_of_dom. destruct (inv_builder _ _ Hi i it Hit) as [<- _]. apply Hin. right. eauto.
Qed.

Lemma shards_good m ds : inv F m -> fortunate (wm_world m) ->
  BuildShards (wm_packIndexBuilder m) mp_IndexVersion true DefaultIndexShardSize (fun _ => None) = Ok ds ->
  Forall (good_shard m) ds
  /\ (Forall (fun d => slen d < 2 ^ 32) ds -> forall i it, wm_packIndexBuilder m !! i = Some it -> exists d l, d ∈ ds /\ index_of d l /\ it ∈ l).
Proof.
  intros Hi Hf Hb. set (b := wm_packIndexBuilder m) in *.
  assert (by_content b) as Hbc by (intros i it Hit; by destruct (inv_builder _ _ Hi i it Hit)).
  assert (forall i it, b !! i = Some it -> good_entry mp_IndexVersion Overhead key_size it) as Hgood.
  { intros i it Hit. destruct (inv_builder _ _ Hi i it Hit) as (_ & [Hsh Ht] & _). apply shape_good; [done|]. by eapply timely_in_time. }
  assert (well_keyed b) as Hk.
  { intros i it Hit. split; [by apply Hbc|]. destruct (inv_builder _ _ Hi i it Hit) as (<- & [Hsh _] & _). apply Hsh. }
  assert (shards_fit b DefaultIndexShardSize) as Hfit.
  { unfold shards_fit, numShards, DefaultIndexShardSize. pose proof (builder_size m Hi) as Hsz. fold b in Hsz. destruct (f_time _ Hf) as (T & _ & ? & ?).
    rewrite Z.quot_div_nonneg by lia. apply Z.div_lt_upper_bound; lia. }
  unfold BuildShards in Hb. cbn [Z.eqb DefaultIndexShardSize] in Hb. change (DefaultIndexShardSize =? 0) with false in Hb. apply build_shards_each in Hb.
  assert (forall s d, s ∈ shard b DefaultIndexShardSize -> (exists d0 suffix, buildStable s mp_IndexVersion = Ok d0 /\ d = d0 ++ suffix) -> slen d < 2 ^ 32 ->
    index_of d (sortedContents (map_to_list s)) /\ forall it, it ∈ sortedContents (map_to_list s) <-> s !! ContentID it = Some it) as Hone.
  { intros s d Hs (d0 & suffix & Hd0 & ->) Hsm. assert (forall i it, s !! i = Some it -> b !! i = Some it) as Hsub.
    { intros i it Hit. apply (shard_lookup b DefaultIndexShardSize i it Hfit). eauto. }
    destruct (part_contents b s mp_IndexVersion Overhead key_size Hk Hsub Hgood) as (Hks & Hl & Hst).
    destruct (Open_built mp_IndexVersion Overhead _ key_size d0 suffix Hl Hst Hd0) as (x & Hx & Hh).
    { rewrite slen_app in Hsm. pose proof (slen_nonneg suffix). lia. }
    split; [by exists x|]. by destruct (contents_spec s Hks) as (_ & _ & ?). }
  split.
  - apply Forall_forall. intros d Hd Hsm. destruct (Forall2_in_r _ _ _ _ Hb Hd) as (s & Hs & Hbuilt). destruct (Hone s d Hs Hbuilt Hsm) as [Ho Hin].
    eexists. split; [exact Ho|]. apply Forall_forall. intros it Hit%Hin.
    assert (b !! ContentID it = Some it) as Hbi by (apply (shard_lookup b DefaultIndexShardSize _ it Hfit); eauto).
    destruct (inv_builder _ _ Hi _ _ Hbi) as [_ Hok]. split_and!; [right; by eexists|done|]. destruct Hok as [[_ Ht] _]. by eapply timely_in_time.
  - intros Hsm i it Hit. pose proof Hit as Hit'. apply (shard_lookup b DefaultIndexShardSize i it Hfit) in Hit' as (s & Hs & Hsi).
    destruct (Forall2_in_l _ _ _ _ Hb Hs) as (d & Hd & Hbuilt). rewrite Forall_forall in Hsm. destruct (Hone s d Hs Hbuilt (Hsm d Hd)) as [Ho Hin].
    exists d. eexists. split_and!; [done|exact Ho|]. apply Hin. by rewrite (Hbc i it Hit).
Qed.

(** ** [flushPackIndexesLocked] *)

(** Every entry of the index being built is in the storage. *)
Definition builder_stored (m : WriteManager) : Prop := forall i it, wm_packIndexBuilder m !! i = Some it -> in_index (wm_world m) it.

Lemma builder_stored_frame m m' : frame m m' -> builder_stored m -> builder_stored m'.
Proof. intros Hf Hb i it. rewrite (fr_builder _ _ Hf), (tame_in_index _ _ _ (fr_tame _ _ Hf)). apply Hb. Qed.

Lemma written_builder m ds mds : fortunate (wm_world m) -> inv F m ->
  BuildShards (wm_packIndexBuilder m) mp_IndexVersion true DefaultIndexShardSize (fun _ => None) = Ok ds ->
  Forall2 (fun md d => index_blob (wm_world m) (md_BlobID md) d) mds ds -> builder_stored m.
Proof.
  intros Hf Hi Hb Hall. destruct (shards_good m ds Hi Hf Hb) as [_ Hcov]. intros i it Hit.
  destruct Hcov with i it as (d & l & Hd & Ho & Hin); [|done|].
  - apply Forall_forall. intros d Hd. destruct (Forall2_in_r _ _ _ _ Hall Hd) as (md & _ & [Hix (b & Eb & Edec)]).
    destruct (so_index _ (inv_storage _ _ Hi) _ Hix) as (d' & _ & [_ (b' & Eb' & Edec')] & Hh & _); [eauto|].
    rewrite Eb in Eb'. injection Eb' as <-. rewrite Edec in Edec'. injection Edec' as <-.
    pose proof (f_small _ Hf) as Hsm. rewrite Forall_forall in Hsm. apply Hsm, elem_of_app. by left.
  - destruct (Forall2_in_r _ _ _ _ Hall Hd) as (md & _ & Hib). by exists (md_BlobID md), d, l.
Qed.

Lemma add_blobs_safe l m P :
  assumed F m (fun m => Forall (fun e => index_blob (wm_world m) (md_BlobID e.1) e.2) l /\ P m) ->
  safe F D m (for_each l (fun e => on_shared (addIndexBlob (md_BlobID e.1) e.2 true)) m) (fun _ m' => frame m m' /\ True).
Proof.
  revert m P. induction l as [|[md d] l IH]; intros m P Hm; cbn [for_each]; [by apply safe_frame_ret; intros Hf; destruct (Hm Hf)|].
  eapply (safe_frame_bind _ _ _ (fun _ m1 => Forall (fun e => index_blob (wm_world m1) (md_BlobID e.1) e.2) l)).
  - eapply safe_mono; [|eapply safe_shared; [exact Hm|]].
    + intros [] _ Hf _ [Hfr _]. split; [exact Hfr|]. destruct (Hm (fortunate_before _ _ (proj1 (fr_tame _ _ Hfr)) Hf)) as (_ & [_ Hl]%Forall_cons & _).
      eapply Forall_impl; [exact Hl|]. intros e. by rewrite (tame_index_blob _ _ _ _ (fr_tame _ _ Hfr)).
    + intros Hs. eapply (addIndexBlob_safe _ _ _ _ (fun _ => True)). intros Hf. destruct (Hs Hf) as (? & ? & _ & [Hd _]%Forall_cons & _). done.
  - intros [] m1 _ Hm1. eapply (IH m1 (fun _ => True)). intros Hf. destruct (Hm1 Hf) as (? & _ & ?). done.
Qed.

Lemma clear_builder_safe m P : assumed F m (fun m => builder_stored m /\ P m) ->
  safe F D m (modify (fun m => set_packs m (wm_packs m) (wm_pendingPacks m) (wm_writingPacks m) (wm_failedPacks m) ∅) m) (fun _ _ => True).
Proof.
  intros Hm. eapply safe_modify; [exact Hm|done|]. intros _ Hi [Hb _].
  assert (forall it, local_entry (set_packs m (wm_packs m) (wm_pendingPacks m) (wm_writingPacks m) (wm_failedPacks m) ∅) it -> local_entry m it) as Hsub.
  { intros it [?|[i Hit]]; [by left|]. cbn in Hit. by rewrite lookup_empty in Hit. }
  split_and!; [|apply evolves_known; [done|..]|done].
  - apply relist_inv; [done|intros q Hq; split; [exact Hq|reflexivity]| |intros ? ? E; by rewrite lookup_empty in E|apply Hi|done]. intros prefix q Hq. destruct (inv_pending _ _ Hi prefix q Hq) as (? & ? & _). done.
  - intros it [Hl|Hin]; left; [left; by apply Hsub|by right].
  - intros it Hit _. exists it. split; [|done]. destruct Hit as [[Hl|[i Hb']]|Hin]; [left; by left|right; by eapply Hb|by right].
Qed.

Lemma frame_counters m r d f a : frame m (set_counters m r d f a).
Proof. by split. Qed.

Lemma flushIndexes_safe m P : assumed F m P -> safe F D m (flushPackIndexesLocked m) (fun _ _ => True).
Proof.
  intros Hm. unfold flushPackIndexesLocked. unfold gets at 1, bind at 1. destruct (0 <? wm_disableIndexFlushCount m); [apply safe_ret; intros Hf; by destruct (Hm Hf)|].
  eapply (safe_bind _ _ _ (fun _ _ => True)).
  - unfold when. destruct (negb _); [|apply safe_ret; intros Hf; by destruct (Hm Hf)].
    unfold lift_index. destruct (BuildShards _ _ _ _ _) as [ds|e] eqn:Eb; [|unfold bind at 1; by eapply safe_fail]. unfold ret at 1, bind at 1.
    eapply (safe_bind _ _ _ (fun _ m1 => Forall (good_shard m1) ds /\ True)).
    { eapply safe_storage; [apply tame_parameters|exact Hm|]. intros [] w' _ Ht Hf Hi _. split; [|done].
      destruct (shards_good m ds Hi (fortunate_before _ _ (proj1 Ht) Hf) Eb) as [Hg _]. eapply Forall_impl; [exact Hg|]. intros d.
      apply good_shard_moved. split; [by apply tame_extends|done]. }
    intros [] m1 E1 Hm1. assert (wm_packIndexBuilder m1 = wm_packIndexBuilder m) as Eb1 by (rewrite on_storage_eq in E1; injection E1 as _ <-; done).
    eapply (safe_bind _ _ _ (fun mds m2 => builder_stored m2 /\ Forall2 (fun md d => index_blob (wm_world m2) (md_BlobID md) d) mds ds)).
    { eapply safe_mono; [|eapply (writeIndexBlobs_safe _ _ _ (fun _ => True)); exact Hm1]. intros mds _ Hf Hi [[_ Hmv] Hall]. split; [|done]. eapply written_builder; [done|done| |exact Hall].
      rewrite Hmv. cbn. by rewrite Eb1. }
    intros mds m2 _ Hm2.
    eapply (safe_bind _ _ _ (fun _ m3 => Forall (fun e => index_blob (wm_world m3) (md_BlobID e.1) e.2) (zip mds ds) /\ builder_stored m3)).
    { eapply safe_mono; [|eapply commitSession_safe; exact Hm2]. intros [] _ Hf _ [Hfr _].
      destruct (Hm2 (fortunate_before _ _ (proj1 (fr_tame _ _ Hfr)) Hf)) as (_ & Hst & Hall). split; [|by eapply builder_stored_frame].
      apply Forall_forall. intros [md d] [i Hi]%list_elem_of_lookup. apply lookup_zip_Some in Hi as [H1 H2].
      rewrite (tame_index_blob _ _ _ _ (fr_tame _ _ Hfr)). by apply (Forall2_lookup_lr _ _ _ _ _ _ Hall H1 H2). }
    intros [] m3 _ Hm3. eapply (safe_bind _ _ _ (fun _ m4 => builder_stored m4 /\ True)).
    { eapply safe_mono; [|eapply add_blobs_safe; exact Hm3]. intros [] _ Hf _ [Hfr _]. split; [|done].
      destruct (Hm3 (fortunate_before _ _ (proj1 (fr_tame _ _ Hfr)) Hf)) as (_ & _ & Hst). by eapply builder_stored_frame. }
    intros [] m4 _ Hm4. eapply clear_builder_safe. exact Hm4.
  - intros [] m1 _ Hm1. eapply (safe_bind _ _ _ (fun _ _ => True)); [eapply safe_storage; [apply tame_timeNow|exact Hm1|done]|].
    intros now m2 _ Hm2. eapply safe_mono; [|eapply safe_session; [exact Hm2|reflexivity|apply frame_counters|]]; [done|]. intros Hi _. split; apply Hi.
Qed.

(** ** [Flush] *)

Lemma flush_begin_safe m P : assumed F m P -> safe F D m (flush_begin m) (fun _ _ => True).
Proof.
  intros Hm. unfold flush_begin. eapply (safe_bind _ _ _ (fun _ _ => True)); [eapply safe_storage; [apply tame_parameters|exact Hm|done]|].
  intros u m1 _ Hm1. by eapply retry_safe.
Qed.

Lemma flush_finish_safe m P : assumed F m P -> safe F D m (flush_finish m) (fun _ _ => True).
Proof.
  intros Hm. unfold flush_finish. eapply safe_bind; [by eapply finish_safe|]. intros u m1 _ Hm1. by eapply flushIndexes_safe.
Qed.

Lemma Flush_safe m P : assumed F m P -> safe F D m (Flush m) (fun _ _ => True).
Proof.
  intros Hm. unfold Flush. eapply safe_bind; [by eapply flush_begin_safe|]. intros u m1 _ Hm1. by eapply flush_finish_safe.
Qed.

(** ** What a [Flush] without an error leaves *)

Lemma still_for_each {S T A} (obs : S -> T) (l : list A) body : (forall x, still obs (body x)) -> still obs (for_each l body).
Proof. intros Hb. induction l as [|x l IH]; cbn [for_each]; [apply still_ret|]. by apply still_bind. Qed.

Lemma still_shared {T A} (obs : WriteManager -> T) (c : M SharedManager A) : (forall m s, obs (set_shared m s) = obs m) -> still obs (on_shared c).
Proof. intros Ho m. unfold on_shared. destruct (c (wm_shared m)). apply Ho. Qed.

Lemma still_load_any {T} (obs : WriteManager -> T) p : still obs (load_pack p).
Proof. intros m. unfold load_pack. by destruct (wm_packs m !! p). Qed.

Ltac still_any := repeat first [ progress intros | case_match | solve [apply still_shared; done] | solve [apply still_load_any] | solve [apply still_modify; done]
  | solve [apply still_ret] | solve [apply still_fail] | solve [apply still_gets] | apply still_attempt | apply still_for_each | apply still_bind ].

Lemma still_flush_count : still wm_disableIndexFlushCount flush_begin /\ still wm_disableIndexFlushCount finishAllPacksLocked.
Proof.
  unfold flush_begin, retryFailedPacks, finishAllPacksLocked, writePackAndAddToIndex, prepareAndWritePackInternal, preparePackDataContent,
    processWritePackResultLocked, store_pack, when, on_storage. split; still_any.
Qed.

Lemma flushIndexes_lists : still (fun m => (wm_pendingPacks m, wm_writingPacks m, wm_failedPacks m)) flushPackIndexesLocked.
Proof. unfold flushPackIndexesLocked, commitSession, when, lift_index, on_storage. still_any. Qed.

Lemma flushIndexes_clears m m' : flushPackIndexesLocked m = (Ok tt, m') -> wm_disableIndexFlushCount m <= 0 -> wm_packIndexBuilder m' = ∅.
Proof.
  unfold flushPackIndexesLocked. unfold gets at 1, bind at 1. intros H Hd. destruct (Z.ltb_spec 0 (wm_disableIndexFlushCount m)); [lia|].
  apply bind_Ok in H as (u & m1 & H1 & H2). assert (wm_packIndexBuilder m1 = ∅) as E1.
  - unfold when in H1. destruct (Z.eqb_spec (Z.of_nat (size (wm_packIndexBuilder m))) 0) as [Hz|Hz]; cbn [negb] in H1.
    + injection H1 as _ <-. apply map_size_empty_inv. lia.
    + do 5 (apply bind_Ok in H1 as (? & ? & _ & H1)). by injection H1 as _ <-.
  - apply bind_Ok in H2 as (now & m2 & Hn & H2). injection H2 as <-. rewrite on_storage_eq in Hn. injection Hn as _ <-. exact E1.
Qed.

Lemma Flush_leaves m m' : Flush m = (Ok tt, m') -> wm_writingPacks m = [] -> wm_disableIndexFlushCount m <= 0 -> forall it, ~ local_entry m' it.
Proof.
  unfold Flush, flush_finish. intros H Hw Hd. apply bind_Ok in H as (u1 & m1 & H1 & H). apply bind_Ok in H as (u2 & m2 & H2 & H).
  destruct u1, u2. assert (wm_disableIndexFlushCount m2 <= 0) as Hd2.
  { destruct still_flush_count as [S1 S2]. specialize (S1 m). specialize (S2 m1). rewrite H1 in S1. rewrite H2 in S2. cbn in S1, S2. lia. }
  pose proof (flushIndexes_lists m2) as Hl. rewrite H in Hl. cbn in Hl. injection Hl as Ep Ew Ef. pose proof (flushIndexes_clears _ _ H Hd2) as Eb.
  apply finish_lists in H2 as (Ep2 & Ew2 & Ef2). unfold flush_begin in H1. apply bind_Ok in H1 as (u & m0 & H0 & H1).
  rewrite on_storage_eq in H0. injection H0 as _ <-. unfold retryFailedPacks in H1. unfold gets at 1, bind at 1 in H1.
  apply retry_lists in H1 as (_ & Ew1 & Ef1). cbn [wm_writingPacks wm_failedPacks with_world set_shared] in *.
  intros it [(p & pp & i & Hr & _)|[i Hi]]; [|rewrite Eb, lookup_empty in Hi; done]. destruct Hr as [[pre Hp]|[Hp|Hp]].
  - rewrite Ep, Ep2, lookup_empty in Hp. done.
  - rewrite Ew in Hp. apply Ew2, Ew1 in Hp as [Hp _]. rewrite Hw in Hp. by apply not_elem_of_nil in Hp.
  - rewrite Ef in Hp. by apply Ef2, Ef1 in Hp as [Hp Hno].
Qed.

End Flush.
