(* ===== verification/ContentWrite.v ===== *)
(** * Writing and deleting contents *)

From S2P Require Import Prelude GoStrings GoText GoTime Db IndexID IndexTable IndexV1 IndexV2 IndexV2Facts IndexBuild IndexMergedFacts IndexRoundTrip Gather PackFormat ContentStore IndexBlobV0 CommittedIndex ContentManager ContentSpec ContentInv ContentStoreFacts CommittedFacts ContentFacts ContentSessions ContentPacks ContentFlush.
Open Scope go_scope.

Section Write.
Context {TE : Environment} {TC : Crypter} {TCL : CrypterLaws} {TP : Parameters} {TF : Config} {TK : Compressors} {TL : ContentLaws}.
Context {F : string -> Prop} {D : ID -> Prop}.

(** ** Encryption and compression *)

(** What is packed for a content decrypts to it. *)
Definition packs_as (id : ID) (d : list Z) (c : Z * list Z) : Prop :=
  0 <= c.1 < 2 ^ 32 /\ slen c.2 <= slen d + Overhead
  /\ forall it, ContentID it = id -> EncryptionKeyID it = 0 -> CompressionHeaderID it = c.1 -> decryptContentAndVerify c.2 it = Ok d.

Lemma compress_packs d id comp w c w' : 0 <= comp < 2 ^ 32 -> maybeCompressAndEncryptDataForPacking d id comp w = (Ok c, w') -> packs_as id d c.
Proof.
  intros Hc. unfold maybeCompressAndEncryptDataForPacking. destruct (getPackedContentIV id) as [iv|] eqn:Eiv; [|done].
  rewrite index_version_law. change (Version2 <? Version2) with false. rewrite andb_false_r. intros H. apply bind_Ok in H as ([h z] & w1 & H1 & H).
  apply bind_Ok in H as (e & w2 & He & H). injection H as <- <-. apply encrypt_Ok in He as [Hdec Hlen]. cbn [fst snd] in *.
  assert (0 <= h < 2 ^ 32 /\ slen z <= slen d /\ (h = 0 /\ z = d \/ exists cc, h <> 0 /\ ByHeaderID h = Some cc /\ c_Decompress cc z = Some d)) as (Hh & Hz & Hcase).
  { unfold NoCompression in *. destruct (Z.eqb_spec comp 0); [injection H1 as <- <- _; split_and!; [lia..|by left]|].
    destruct (ByHeaderID comp) as [cc|] eqn:Ecc; [|done]. destruct (c_Compress cc d) as [tmp|] eqn:Et; [|done].
    destruct (Z.leb_spec (slen d) (slen tmp)); injection H1 as <- <- _; [split_and!; [lia..|by left]|].
    split_and!; [lia..|]. right. exists cc. split_and!; [done..|]. by eapply decompress_law. }
  split; [exact Hh|]. split; [cbn; lia|]. intros it Hid Hk Hcomp. unfold decryptContentAndVerify. rewrite Hid, Eiv, Hk. cbn [Z.eqb negb fst snd] in *. rewrite Hdec, Hcomp.
  destruct Hcase as [[-> ->]|(cc & Hne & Hcc & Hdc)]; [done|]. cbn. destruct (Z.eqb_spec h 0); [done|]. by rewrite Hcc, Hdc.
Qed.

(** ** Times *)

(** A time that is no later than the clock was, a second a turn allowed. *)
Definition past (w : world) (t : Z) : Prop :=
  exists n, (n < w_tick w)%nat /\ t <= Z.max 0 (tn_now (turn_at n) / Second) + Z.of_nat (w_tick w).

Lemma past_grows w w' t : grows w w' -> past w t -> past w' t.
Proof. intros (_ & _ & _ & Ht) (n & Hn & Hit). exists n. split; lia. Qed.

Lemma writeTime_Ok prev w t w' : contentWriteTime prev w = (Ok t, w') -> -1 <= prev -> (0 <= prev -> past w prev) ->
  w_tick w' = S (w_tick w) /\ 0 <= t /\ past w' t.
Proof.
  unfold contentWriteTime, timeNow, bind, next_turn, ret. intros H Hp Hpast. injection H as <- <-. set (now := tn_now (turn_at (w_tick w)) / Second).
  cbn. split; [done|]. destruct (Z.ltb_spec prev now).
  - split; [lia|]. exists (w_tick w). cbn. split; [lia|]. fold now. lia.
  - destruct (decide (0 <= prev)) as [Hge|Hlt].
    + destruct (Hpast Hge) as (n & Hn & Hle). split; [lia|]. exists n. cbn. split; lia.
    + split; [lia|]. exists (w_tick w). cbn. split; [lia|]. fold now. lia.
Qed.

(** ** A content at the end of a pack *)

Definition new_info (pp : pendingPackInfo) (id : ID) (orig : Z) (c : Z * list Z) (del : bool) (ts : Z) : Info :=
  mkInfo (pp_packBlobID pp) ts (uint32 orig) (uint32 (uint32 (slen (pp_currentPackData pp ++ c.2)) - uint32 (slen (pp_currentPackData pp))))
    (uint32 (slen (pp_currentPackData pp))) c.1 id del (byte mp_Version) 0.

Definition with_content (pp : pendingPackInfo) (id : ID) (orig : Z) (c : Z * list Z) (del : bool) (ts : Z) : pendingPackInfo :=
  set_items (set_data pp (pp_currentPackData pp ++ c.2) (pp_finalized pp)) (<[id := new_info pp id orig c del ts]> (pp_currentPackItems pp)).

Lemma new_info_fields pp id (d : list Z) c del ts : slen (pp_currentPackData pp) + slen c.2 < 2 ^ 32 ->
  PackOffset (new_info pp id (slen d) c del ts) = slen (pp_currentPackData pp) /\ PackedLength (new_info pp id (slen d) c del ts) = slen c.2.
Proof.
  intros Hs. unfold new_info. cbn. pose proof (slen_nonneg (pp_currentPackData pp)). pose proof (slen_nonneg c.2). rewrite slen_app. unfold uint32.
  rewrite !Z.mod_small by (rewrite ?Z.mod_small by lia; lia). lia.
Qed.

Lemma get_range_at (a b : list Z) : get_range (a ++ b) (slen a) (slen b) = Some b.
Proof.
  unfold get_range. pose proof (slen_nonneg a). pose proof (slen_nonneg b). destruct (Z.ltb_spec (slen a) 0); [lia|]. destruct (Z.ltb_spec (slen b) 0); [lia|].
  rewrite slen_app. destruct (Z.ltb_spec (slen a + slen b) (slen a + slen b)); [lia|]. f_equal. unfold slice, slen.
  rewrite drop_app_length' by lia. rewrite take_ge; [done|]. lia.
Qed.

Lemma with_content_ok w prefix pp id d c del ts : pack_ok w pp -> pending_ok w prefix pp -> id_ok id -> packs_as id d c ->
  named id d -> d ∈ w_hashed w -> slen (pp_currentPackData pp) + slen c.2 < 2 ^ 32 -> 0 <= ts -> past w ts ->
  pack_ok w (with_content pp id (slen d) c del ts).
Proof.
  intros Hok Hpd [Hv Hk] (Hc & Hlen & Hdec) Hn Hh Hs Hts Hpast. pose proof (pd_new _ _ _ Hpd) as Hnew. pose proof (pd_size _ _ _ Hpd) as Hsz.
  pose proof (pack_ok_app w pp c.2 (pp_finalized pp) Hok Hnew (pk_final _ _ Hok)) as [Hit Hnm Hst _].
  destruct (new_info_fields pp id d c del ts Hs) as [Eo El]. pose proof (slen_nonneg c.2).
  destruct Hnm as (r & Hr & Hpn). assert (len (pp_packBlobID pp) < 256) as Hlid by apply Hpn.
  assert (forall x, 0 <= uint32 x < 2 ^ 32) as Hu by (intros x; unfold uint32; apply Z.mod_pos_bound; lia).
  split; cbn.
  - intros i it [[<- <-]|[Hne Hi]]%lookup_insert_Some; [|exact (Hit i it Hi)].
    split; [done|]. split; [split|].
    + split; cbn; try done; try apply Hu. unfold byte. apply Z.mod_pos_bound. lia.
    + exact Hpast.
    + split; [done|]. intros _. cbn. split; [rewrite slen_app; lia|]. exists d. split; [|done].
      exists c.2. rewrite Eo, El. split; [apply get_range_at|]. by apply Hdec.
  - exists r. split; [done|exact Hpn].
  - intros b Hb. congruence.
  - intros Hfin. rewrite (pd_open _ _ _ Hpd) in Hfin. done.
Qed.

(** What is known after it was added. *)
Lemma with_content_evolves m p pp id orig c del ts : wm_packs m !! p = Some pp -> (del = true -> D id) -> by_content (pp_currentPackItems pp) ->
  evolves F D m (stored m p (with_content pp id orig c del ts)).
Proof.
  intros Hp Hd Hbc. apply (stored_evolves m p pp); [done|..]; cbn.
  - intros i it [[<- <-]|[Hne Hi]]%lookup_insert_Some; [|by left]. right. cbn. destruct del; [left; by apply Hd|by right; left].
  - intros i it Hi _. destruct (decide (i = id)) as [->|Hne].
    + exists id. eexists. rewrite lookup_insert_eq. split; [done|]. cbn. symmetry. by apply Hbc.
    + exists i, it. by rewrite lookup_insert_ne.
Qed.

Lemma with_content_counted m p pp id orig c del ts n : wm_packs m !! p = Some pp -> counted n m ->
  counted (S n) (stored m p (with_content pp id orig c del ts)).
Proof.
  intros Hp Hc. eapply (stored_counted m p pp _ n _ {[id]}); [done|done|rewrite size_singleton; lia|]. cbn.
  intros i it [[<- <-]|[Hne Hi]]%lookup_insert_Some; [|by left]. right. cbn. by apply elem_of_singleton.
Qed.

Lemma with_content_held m p pp id orig c del ts : referenced m p -> held (stored m p (with_content pp id orig c del ts)) id.
Proof.
  intros Hr. eexists. split; [|shelve]. left. left. exists p. eexists. exists id. split; [exact Hr|]. split; [cbn; by rewrite lookup_insert_eq|].
  cbn. by rewrite lookup_insert_eq.
  Unshelve. done.
Qed.

(** ** [addToPackUnlocked] *)

(** A fact of the history is carried along. *)
Lemma safe_carry m {A B} (c : M WriteManager A) (k : A -> M WriteManager B) (R : world -> Prop) Q1 Q :
  (forall w w', grows w w' -> R w -> R w') -> assumed F m (fun m => R (wm_world m)) -> safe F D m (c m) Q1 ->
  (forall a m1, c m = (Ok a, m1) -> assumed F m1 (fun m1 => R (wm_world m1) /\ Q1 a m1) -> safe F D m1 (k a m1) Q) ->
  safe F D m (bind c k m) Q.
Proof.
  intros HR Hm Hc Hk. eapply safe_bind; [exact Hc|]. intros a m1 E Hm1. apply Hk; [done|]. intros Hf. destruct (Hm1 Hf) as [Hi HQ].
  destruct Hc as [Hg _]. rewrite E in Hg. cbn in Hg. split; [done|]. split; [|done]. eapply HR; [exact Hg|]. apply Hm. by eapply fortunate_before.
Qed.

Lemma assumed_weaken m (P Q : WriteManager -> Prop) : (P m -> Q m) -> assumed F m P -> assumed F m Q.
Proof. intros HPQ Hm Hf. destruct (Hm Hf). auto. Qed.

(** What the writer of a content relies on. *)
Definition content_facts (id : ID) (d : list Z) (prev : Z) (w : world) : Prop :=
  named id d /\ d ∈ w_hashed w /\ -1 <= prev /\ (0 <= prev -> past w prev).

Lemma content_facts_grows id d prev w w' : grows w w' -> content_facts id d prev w -> content_facts id d prev w'.
Proof. intros Hg (Hn & Hh & ? & Hp). split_and!; [done|by eapply grows_hashed|done|]. intros H0. eapply past_grows; eauto. Qed.

Lemma prefix_of_content id : packPrefixForContentID id ∈ [PackBlobIDPrefixRegular; PackBlobIDPrefixSpecial].
Proof. unfold packPrefixForContentID. destruct (ID_prefixed id); set_solver. Qed.

(** The end of the section: the item is stored, and a full pack is taken off the
    packs that contents are added to. *)
Definition append_content (id : ID) (orig : Z) (c : Z * list Z) (del : bool) (p : nat) (pp : pendingPackInfo) (ts : Z) : M WriteManager (option nat) :=
  store_pack p (with_content pp id orig c del ts) ;;*
  if mp_MaxPackSize <=? slen (pp_currentPackData pp ++ c.2) then
    modify (fun m => set_packs m (wm_packs m) (delete (pp_prefix pp) (wm_pendingPacks m)) (wm_writingPacks m ++ [p])
                       (wm_failedPacks m) (wm_packIndexBuilder m)) ;;*
    ret (Some p)
  else ret None.

Lemma append_safe m prefix p pp id d c del ts : id_ok id -> packs_as id d c -> (del = true -> D id) -> slen c.2 + pack_bound <= 2 ^ 32 ->
  assumed F m (fun m => named id d /\ d ∈ w_hashed (wm_world m) /\ wm_pendingPacks m !! prefix = Some p /\ wm_packs m !! p = Some pp
    /\ 0 <= ts /\ past (wm_world m) ts /\ exists n, w_tick (wm_world m) = S n /\ counted n m) ->
  safe F D m (append_content id (slen d) c del p pp ts m) (fun _ m' => held m' id).
Proof.
  intros Hid Hc Hdel Hsize Hm. unfold append_content. unfold bind at 1, store_pack at 1, modify at 1. set (pp' := with_content pp id (slen d) c del ts).
  assert (fortunate (wm_world m) -> inv F m /\ wm_packs m !! p = Some pp /\ wm_pendingPacks m !! prefix = Some p /\ pending_ok (wm_world m) prefix pp
    /\ pack_ok (wm_world m) pp' /\ by_content (pp_currentPackItems pp) /\ counted (w_tick (wm_world m)) (stored m p pp')) as Hfacts.
  { intros Hf. destruct (Hm Hf) as (Hi & Hn & Hh & Hp & Hpp & Hts & Hpast & n & Htick & Hcnt).
    destruct (inv_pending _ _ Hi prefix p Hp) as (_ & _ & qq & Hqq & Hpd). rewrite Hpp in Hqq. injection Hqq as <-.
    destruct (inv_packs _ _ Hi p) as (qq & Hqq & Hok & _); [left; eauto|]. rewrite Hpp in Hqq. injection Hqq as <-.
    split_and!; [done..| | |].
    - eapply with_content_ok; try done. pose proof (pd_size _ _ _ Hpd). lia.
    - intros i it Hit. by destruct (pk_items _ _ Hok i it Hit).
    - rewrite Htick. by apply with_content_counted. }
  destruct (Z.leb_spec mp_MaxPackSize (slen (pp_currentPackData pp ++ c.2))) as [Hfull|Hroom].
  - unfold bind at 1, modify at 1. split; [done|]. cbn [fst snd]. intros Hf. destruct (Hfacts Hf) as (Hi & Hpp & Hp & Hpd & Hok & Hbc & Hcnt).
    change (set_packs _ _ _ _ _ _) with (stored (start_writing m (pp_prefix pp) p) p pp').
    rewrite (pd_prefix _ _ _ Hpd). destruct (start_writing_ok (D := D) m prefix p Hi Hp) as [Hi' He].
    assert (to_upload (start_writing m prefix p) p) as Hu by (left; cbn; apply elem_of_app; right; by apply list_elem_of_singleton).
    split_and!.
    + apply (stored_inv _ p pp); [done..| |].
      * intros pre Hpre. exfalso. by eapply to_upload_not_pending.
      * eapply counted_sub; [reflexivity| |exact Hcnt]. intros it Hit. exists it. split; [|done].
        eapply (relist_local (stored m p pp')); [|exact Hit]. intros q. by apply (start_writing_referenced (F := F) (stored m p pp')).
    + etrans; [exact He|]. by apply with_content_evolves.
    + intros _ _. apply with_content_held. by apply to_upload_referenced.
  - split; [done|]. cbn [fst snd]. intros Hf. destruct (Hfacts Hf) as (Hi & Hpp & Hp & Hpd & Hok & Hbc & Hcnt).
    change (set_packs _ _ _ _ _ _) with (stored m p pp'). split_and!.
    + apply (stored_inv _ p pp); [done..| |done]. intros pre Hpre. destruct (inv_pending _ _ Hi pre p Hpre) as (_ & _ & qq & Hqq & Hpd').
      rewrite Hpp in Hqq. injection Hqq as <-. destruct Hpd' as [E1 E2 E3 E4]. split; [done|done|done|]. cbn. unfold pack_bound in *. rewrite slen_app in *.
      pose proof (slen_nonneg c.2). lia.
    + by apply with_content_evolves.
    + intros _ _. apply with_content_held. left. eauto.
Qed.

Lemma add_locked_safe m id d c del prev : id_ok id -> packs_as id d c -> (del = true -> D id) -> slen c.2 + pack_bound <= 2 ^ 32 ->
  assumed F m (fun m => content_facts id d prev (wm_world m)) ->
  safe F D m (add_locked id (slen d) c del prev m) (fun _ m' => held m' id).
Proof.
  intros Hid Hc Hdel Hsize Hm. unfold add_locked. pose proof (content_facts_grows id d prev) as HR.
  eapply (safe_carry _ _ _ (content_facts id d prev) (fun r m1 => forall a, r = Ok a -> held m1 id)); [exact HR|exact Hm| |].
  { destruct (prev <? 0); [|apply safe_ret; intros Hf; by destruct (Hm Hf)].
    eapply safe_mono; [|apply safe_attempt; by eapply getContentInfo_safe]. intros r _ _ _ Hr a Ea. destruct (Hr a Ea) as (_ & Hc' & Hk & _). by exists a.2. }
  intros r m1 _ Hm1. destruct r as [a|e].
  { apply safe_ret. intros Hf. destruct (Hm1 Hf) as (Hi & _ & Hr). split; [done|]. by apply (Hr a). }
  assert (assumed F m1 (fun m => content_facts id d prev (wm_world m))) as Hm1'.
  { eapply assumed_weaken; [|exact Hm1]. by intros [? _]. }
  eapply (safe_carry _ _ _ (content_facts id d prev) (fun _ _ => True)); [exact HR|exact Hm1'| |].
  { eapply safe_mono; [|eapply safe_session; [exact Hm1'|reflexivity|apply frame_counters|]]; [done|]. intros Hi _. split; apply Hi. }
  intros u2 m2 _ Hm2. eapply (safe_carry _ _ _ (content_facts id d prev)); [exact HR|by eapply assumed_weaken; [|exact Hm2]; intros [? _]|by eapply retry_safe|].
  intros u3 m3 _ Hm3. eapply (safe_carry _ _ _ (content_facts id d prev)); [exact HR|by eapply assumed_weaken; [|exact Hm3]; intros [? _]| |].
  { eapply getOrCreate_safe; [apply prefix_of_content|exact Hm3]. }
  intros p m4 _ Hm4. unfold load_pack at 1, bind at 1. destruct (wm_packs m4 !! p) as [pp|] eqn:Ep; [|by eapply safe_fail].
  eapply (safe_bind _ _ _ (fun ts m5 => named id d /\ d ∈ w_hashed (wm_world m5) /\ wm_pendingPacks m5 !! packPrefixForContentID id = Some p
    /\ wm_packs m5 !! p = Some pp /\ 0 <= ts /\ past (wm_world m5) ts /\ exists n, w_tick (wm_world m5) = S n /\ counted n m5)).
  { eapply safe_storage; [apply tame_contentWriteTime|exact Hm4|]. intros ts w' Ew Ht _ Hi [(Hn & Hh & Hprev & Hpast) Hpo].
    destruct (writeTime_Ok _ _ _ _ Ew Hprev Hpast) as (Htick & H0 & Hp). split_and!; [done|by eapply grows_hashed; [apply Ht|]|apply Hpo|done|done|done|].
    exists (w_tick (wm_world m4)). split; [done|]. apply (inv_count _ _ Hi). }
  intros ts m5 _ Hm5. eapply (append_safe m5 _ p pp id d c del ts); done.
Qed.

Lemma flush_on_time_safe m P : assumed F m P -> safe F D m (maybeFlushBasedOnTimeUnlocked m) (fun _ _ => True).
Proof.
  intros Hm. unfold maybeFlushBasedOnTimeUnlocked. eapply (safe_bind _ _ _ (fun _ _ => True)); [eapply safe_storage; [apply tame_timeNow|exact Hm|done]|].
  intros now m1 _ Hm1. unfold gets at 1, bind at 1. unfold when. destruct (After _ _); [by eapply Flush_safe|]. apply safe_ret. intros Hf. by destruct (Hm1 Hf).
Qed.

Lemma add_locked_upload id orig c del prev m p m' : add_locked id orig c del prev m = (Ok (Some p), m') -> to_upload m' p.
Proof.
  unfold add_locked. intros H. apply bind_Ok in H as ([a|e] & m1 & _ & H); [by injection H as [=]|]. do 3 (apply bind_Ok in H as (? & ? & _ & H)).
  apply bind_Ok in H as (pp & m2 & _ & H). apply bind_Ok in H as (ts & m3 & _ & H). apply bind_Ok in H as (u & m4 & _ & H).
  destruct (_ <=? _); [|done]. apply bind_Ok in H as (u' & m5 & Hm & H). injection H as -> <-. injection Hm as _ <-. left. cbn.
  apply elem_of_app. right. by apply list_elem_of_singleton.
Qed.

Lemma addToPack_safe m id d del comp prev : id_ok id -> (del = true -> D id) -> slen d + Overhead + pack_bound <= 2 ^ 32 -> 0 <= comp < 2 ^ 32 ->
  assumed F m (fun m => content_facts id d prev (wm_world m)) ->
  safe F D m (addToPackUnlocked id d del comp prev m) (fun _ m' => ~ D id -> held m' id).
Proof.
  intros Hid Hdel Hsize Hcomp Hm. unfold addToPackUnlocked. pose proof (content_facts_grows id d prev) as HR.
  eapply (safe_carry _ _ _ (content_facts id d prev)); [exact HR|exact Hm|by eapply flush_on_time_safe|]. intros u1 m1 _ Hm1.
  assert (assumed F m1 (fun m => content_facts id d prev (wm_world m))) as Hm1' by (by eapply assumed_weaken; [|exact Hm1]; intros [? _]).
  eapply (safe_carry _ _ _ (content_facts id d prev) (fun _ _ => True)); [exact HR|exact Hm1'|eapply safe_storage; [apply tame_compress|exact Hm1|done]|].
  intros c m2 E2 Hm2. rewrite on_storage_eq in E2. injection E2 as E2 <-. destruct (maybeCompressAndEncryptDataForPacking d id comp (wm_world m1)) as [rc w2] eqn:Ec.
  cbn in E2. subst rc. apply compress_packs in Ec; [|done]. cbn [fst snd] in *. assert (slen c.2 <= slen d + Overhead) as Hlen by apply Ec.
  eapply safe_bind; [eapply (add_locked_safe _ id d c del prev); [done|done|done|lia|]|].
  { eapply assumed_weaken; [|exact Hm2]. by intros [? _]. }
  intros full m3 E3 Hm3. destruct full as [p|].
  - pose proof (writePack_safe (D := D) m3 p _ (add_locked_upload _ _ _ _ _ _ _ _ E3) Hm3) as Hw. pose proof (proj1 Hw) as Hg.
    apply safe_evolves in Hw. eapply safe_mono; [|exact Hw]. intros [] _ Hf _ [He _] HD. apply He; [done|].
    by destruct (Hm3 (fortunate_before _ _ Hg Hf)).
  - apply safe_ret. intros Hf. by destruct (Hm3 Hf).
Qed.

(** ** [WriteContent] *)

Lemma IDFromHash_named prefix d id : IDFromHash prefix (HashFunc d) = Ok id -> id_ok id /\ named id d.
Proof.
  intros H. apply IDFromHash_valid in H as (Hv & _ & Hh); [|apply hash_bytes]. split; [split; [done|]|exact Hh].
  unfold id_key, contentIDToBytes, key_size. change (id_data id = HashFunc d) in Hh. cbn. rewrite Hh. unfold slen. cbn. by rewrite hash_length_law.
Qed.

Lemma WriteContent_safe m d prefix comp P : slen d + Overhead + pack_bound <= 2 ^ 32 -> 0 <= comp < 2 ^ 32 -> assumed F m P ->
  safe F D m (WriteContent d prefix comp m) (fun id m' => id_ok id /\ named id d /\ d ∈ w_hashed (wm_world m') /\ (~ D id -> held m' id)).
Proof.
  intros Hsize Hcomp Hm. unfold WriteContent. eapply (safe_bind _ _ _ (fun _ _ => True)); [eapply safe_storage; [apply tame_parameters|exact Hm|done]|].
  intros u1 m1 _ Hm1. eapply safe_bind; [by eapply retry_safe|]. intros u2 m2 _ Hm2. destruct (negb _); [by eapply safe_fail|].
  eapply (safe_bind _ _ _ (fun h m3 => h = HashFunc d /\ d ∈ w_hashed (wm_world m3))).
  { eapply safe_storage; [apply tame_hashData|exact Hm2|]. intros h w' Ew _ _ _ _. injection Ew as <- <-. split; [done|by left]. }
  intros h m3 E3 Hm3. assert (h = HashFunc d) as -> by (rewrite on_storage_eq in E3; by injection E3 as <- _).
  unfold lift_id. destruct (IDFromHash prefix (HashFunc d)) as [id|e] eqn:Eid; [|unfold bind at 1; by eapply safe_fail].
  apply IDFromHash_named in Eid as [Hid Hn]. unfold ret at 1, bind at 1.
  assert (forall w w', grows w w' -> d ∈ w_hashed w -> d ∈ w_hashed w') as HR by (intros w w' Hg; by apply grows_hashed).
  eapply (safe_carry _ _ _ (fun w => d ∈ w_hashed w) (fun r m4 => forall a, r = Ok a -> located m4 id a)); [exact HR| | |].
  { eapply assumed_weaken; [|exact Hm3]. by intros [_ ?]. }
  { eapply safe_mono; [|apply safe_attempt; by eapply getContentInfo_safe]. intros r _ _ _ Hr a Ea. by apply Hr. }
  intros r m4 _ Hm4.
  assert (forall prev, (fortunate (wm_world m4) -> -1 <= prev /\ (0 <= prev -> past (wm_world m4) prev)) ->
    safe F D m4 ((addToPackUnlocked id d false comp prev ;;* ret id) m4) (fun id m' => id_ok id /\ named id d /\ d ∈ w_hashed (wm_world m') /\ (~ D id -> held m' id))) as Hadd.
  { intros prev Hpast. assert (assumed F m4 (fun m => content_facts id d prev (wm_world m))) as Hm4'.
    { intros Hf. destruct (Hm4 Hf) as (Hi & Hh & _). destruct (Hpast Hf). split; [done|]. by split_and!. }
    eapply (safe_carry _ _ _ (fun w => d ∈ w_hashed w)); [exact HR|by eapply assumed_weaken; [|exact Hm4]; intros [? _]|by eapply addToPack_safe|].
    intros [] m5 _ Hm5. apply safe_ret. intros Hf. destruct (Hm5 Hf) as (? & ? & ?). done. }
  destruct r as [[op bi]|e]; [|apply Hadd; intros _; lia]. destruct (negb (Deleted bi)).
  - apply safe_ret. intros Hf. destruct (Hm4 Hf) as (Hi & Hh & Hloc). destruct (Hloc _ eq_refl) as (Hc & Hk & _). split; [done|]. split_and!; [done..|].
    intros _. by exists bi.
  - apply Hadd. intros Hf. destruct (Hm4 Hf) as (Hi & Hh & Hloc). destruct (located_shape _ _ _ Hi (Hloc _ eq_refl)) as [Hsh Ht].
    pose proof (sh_time _ Hsh). cbn in *. split; [lia|by intros _].
Qed.

(** ** [DeleteContent] *)

(** An entry that is not in a pack contents are added to. *)
Definition elsewhere (m : WriteManager) (it : Info) : Prop :=
  (is_pack (PackBlobID it) = true /\ is_Some (w_blobs (wm_world m) !! PackBlobID it))
  \/ exists q qq, q ∈ wm_writingPacks m /\ wm_packs m !! q = Some qq /\ pp_packBlobID qq = PackBlobID it.

Lemma elsewhere_pending m it prefix p pp : inv F m -> elsewhere m it -> wm_pendingPacks m !! prefix = Some p -> wm_packs m !! p = Some pp ->
  PackBlobID it <> pp_packBlobID pp.
Proof.
  intros Hi He Hp Hpp E. destruct (inv_pending _ _ Hi prefix p Hp) as (Hw & _ & qq & Hqq & Hpd). rewrite Hpp in Hqq. injection Hqq as <-.
  destruct He as [[_ [b Hb]]|(q & qq & Hq & Hqq & E')].
  - rewrite E, (pd_new _ _ _ Hpd) in Hb. done.
  - apply Hw. assert (p = q) as ->; [|done]. eapply (inv_distinct _ _ Hi); [left; by eauto|right; by left|done|done|congruence].
Qed.

Definition with_deleted (pp : pendingPackInfo) (ci : Info) (ts : Z) : pendingPackInfo :=
  set_items pp (<[ContentID ci := deletedInfo ci ts]> (pp_currentPackItems pp)).

Lemma with_deleted_ok w prefix pp ci ts : pack_ok w pp -> pending_ok w prefix pp -> shape ci -> PackBlobID ci <> pp_packBlobID pp -> 0 <= ts -> past w ts ->
  pack_ok w (with_deleted pp ci ts) /\ pending_ok w prefix (with_deleted pp ci ts).
Proof.
  intros [Hit Hn Hst Hf] Hpd Hsh Hne Hts Hpast. split.
  - split; cbn; [|done| |].
    + intros i it [[<- <-]|[Hi Hl]]%lookup_insert_Some; [|exact (Hit i it Hl)]. split; [done|]. split; [split; [|exact Hpast]|by split].
      destruct Hsh. split; cbn; done.
    + intros b Hb. rewrite (pd_new _ _ _ Hpd) in Hb. done.
    + intros Hfin. rewrite (pd_open _ _ _ Hpd) in Hfin. done.
  - destruct Hpd. by split.
Qed.

Lemma delete_preexisting_safe m ci P :
  assumed F m (fun m => D (ContentID ci) /\ shape ci /\ timely (wm_world m) ci /\ (Deleted ci = false -> elsewhere m ci) /\ P m) ->
  safe F D m (deletePreexistingContent ci m) (fun _ _ => True).
Proof.
  intros Hm. unfold deletePreexistingContent. destruct (Deleted ci) eqn:Ed; [apply safe_ret; intros Hf; by destruct (Hm Hf)|].
  set (prefix := packPrefixForContentID (ContentID ci)).
  eapply (safe_bind _ _ _ (fun p m1 => D (ContentID ci) /\ wm_pendingPacks m1 !! prefix = Some p /\ shape ci /\ timely (wm_world m1) ci /\ elsewhere m1 ci)).
  { eapply safe_mono; [|eapply getOrCreate_safe; [apply prefix_of_content|exact Hm]]. intros p _ Hf _ Hpo. pose proof (po_tame _ _ _ _ Hpo) as Ht.
    destruct (Hm (fortunate_before _ _ (proj1 Ht) Hf)) as (Hi & HD & Hsh & Htl & He & _). split_and!; [done|apply Hpo|done|by eapply timely_grows; [apply Ht|]|].
    destruct (He eq_refl) as [[Hp [b Hb]]|(q & qq & Hq & Hqq & E)]; [left|right].
    - split; [done|]. exists b. by rewrite (tame_pack _ _ _ Ht).
    - exists q, qq. split; [by rewrite (po_writing _ _ _ _ Hpo)|]. split; [|done]. rewrite (po_packs _ _ _ _ Hpo); [done|]. right. by left. }
  intros p m1 _ Hm1.
  eapply (safe_bind _ _ _ (fun ts m2 => D (ContentID ci) /\ wm_pendingPacks m2 !! prefix = Some p /\ shape ci /\ elsewhere m2 ci /\ 0 <= ts /\ past (wm_world m2) ts
    /\ exists n, w_tick (wm_world m2) = S n /\ counted n m2)).
  { eapply safe_storage; [apply tame_contentWriteTime|exact Hm1|]. intros ts w' Ew Ht _ Hi (HD & Hp & Hsh & Htl & He).
    pose proof (sh_time _ Hsh). destruct (writeTime_Ok _ _ _ _ Ew ltac:(lia) (fun _ => Htl)) as (Htick & H0 & Hpast). split_and!; [done..| |done|done|].
    - destruct He as [[Hpk [b Hb]]|?]; [left|by right]. split; [done|]. exists b. cbn. by rewrite (tame_pack _ _ _ Ht).
    - exists (w_tick (wm_world m1)). split; [done|]. apply (inv_count _ _ Hi). }
  intros ts m2 _ Hm2. unfold load_pack at 1, bind at 1. destruct (wm_packs m2 !! p) as [pp|] eqn:Ep; [|by eapply safe_fail].
  eapply safe_modify; [exact Hm2|done|]. intros _ Hi (HD & Hp & Hsh & He & H0 & Hpast & n & Htick & Hcnt).
  pose proof (elsewhere_pending _ _ _ _ _ Hi He Hp Ep) as Hne. destruct (inv_packs _ _ Hi p) as (qq & Hqq & Hok & _); [left; by eauto|].
  rewrite Ep in Hqq. injection Hqq as <-. destruct (inv_pending _ _ Hi prefix p Hp) as (_ & _ & qq & Hqq & Hpd). rewrite Ep in Hqq. injection Hqq as <-.
  destruct (with_deleted_ok _ _ _ _ _ Hok Hpd Hsh Hne H0 Hpast) as [Hok' _]. split_and!; [| |done].
  - apply (stored_inv m2 p pp (with_deleted pp ci ts)); [done..| |].
    + intros pre Hpre. destruct (inv_pending _ _ Hi pre p Hpre) as (_ & _ & qq & Hqq & Hpd'). rewrite Ep in Hqq. injection Hqq as <-.
      by apply with_deleted_ok.
    + rewrite Htick. eapply (stored_counted m2 p pp _ n _ {[ContentID ci]}); [done|done|rewrite size_singleton; lia|]. cbn.
      intros i it [[<- <-]|[Hi' Hl]]%lookup_insert_Some; [|by left]. right. by apply elem_of_singleton.
  - apply (stored_evolves m2 p pp (with_deleted pp ci ts) Ep); cbn.
    + intros i it [[<- <-]|[Hi' Hl]]%lookup_insert_Some; [|by left]. right. by left.
    + intros i it Hl HDn. destruct (decide (i = ContentID ci)) as [->|Hi']; [|exists i, it; by rewrite lookup_insert_ne].
      exfalso. apply HDn. by destruct (pk_items _ _ Hok _ _ Hl) as [-> _].
Qed.

Lemma find_live_Some packs ptrs id p it : find_live packs ptrs id = Some (p, it) ->
  p ∈ ptrs /\ Deleted it = false /\ exists pp, packs !! p = Some pp /\ pp_currentPackItems pp !! id = Some it.
Proof.
  induction ptrs as [|q ptrs IH]; [done|]. cbn. destruct (packs !! q) as [pp|] eqn:Eq; cbn.
  - destruct (pp_currentPackItems pp !! id) as [ci|] eqn:Ei.
    + destruct (Deleted ci) eqn:Ed; [intros Hr; destruct (IH Hr) as (? & ?); split; [by right|done]|].
      intros [= <- <-]. split; [by left|]. split; [done|eauto].
    + intros Hr. destruct (IH Hr) as [? ?]. split; [by right|done].
  - intros Hr. destruct (IH Hr) as [? ?]. split; [by right|done].
Qed.

Lemma remove_item_safe m id p P : D id -> p ∈ pending_ptrs m -> assumed F m P ->
  safe F D m ((let* pp := load_pack p in store_pack p (set_items pp (delete id (pp_currentPackItems pp)))) m) (fun _ _ => True).
Proof.
  intros HD Hp Hm. apply pending_ptrs_elem in Hp as [prefix Hp]. unfold load_pack at 1, bind at 1. destruct (wm_packs m !! p) as [pp|] eqn:Ep; [|by eapply safe_fail].
  set (pp' := set_items pp (delete id (pp_currentPackItems pp))). eapply safe_modify; [exact Hm|done|]. intros _ Hi _.
  destruct (inv_packs _ _ Hi p) as (qq & Hqq & Hok & _); [left; by eauto|]. rewrite Ep in Hqq. injection Hqq as <-.
  destruct (inv_pending _ _ Hi prefix p Hp) as (_ & _ & qq & Hqq & Hpd). rewrite Ep in Hqq. injection Hqq as <-.
  assert (forall i it, pp_currentPackItems pp' !! i = Some it -> pp_currentPackItems pp !! i = Some it) as Hsub by (cbn; intros i it [_ ?]%lookup_delete_Some; done).
  split_and!; [| |done].
  - apply (stored_inv m p pp pp'); [done..| | |].
    + destruct Hok as [Hit Hn Hst Hf]. split; [|done| |].
      * intros i it Hl. exact (Hit i it (Hsub i it Hl)).
      * cbn. intros b Hb. rewrite (pd_new _ _ _ Hpd) in Hb. done.
      * cbn. intros Hfin. rewrite (pd_open _ _ _ Hpd) in Hfin. done.
    + intros pre Hpre. destruct (inv_pending _ _ Hi pre p Hpre) as (_ & _ & qq & Hqq & []). rewrite Ep in Hqq. by injection Hqq as <-.
    + eapply (stored_counted m p pp _ _ _ ∅); [done|apply (inv_count _ _ Hi)|rewrite size_empty; lia|]. intros i it Hl. left. by apply Hsub.
  - apply (stored_evolves m p pp pp' Ep); [intros i it Hl; left; by apply Hsub|]. cbn. intros i it Hl HDn. exists i, it. split; [|done].
    rewrite lookup_delete_ne; [done|]. intros ->. destruct (pk_items _ _ Hok _ _ Hl) as [E _]. by rewrite E in HDn.
Qed.

Lemma DeleteContent_safe m id P : D id -> id_ok id -> assumed F m P -> safe F D m (DeleteContent id m) (fun _ _ => True).
Proof.
  intros HD Hid Hm. unfold DeleteContent.
  eapply (safe_bind _ _ _ (fun _ _ => True)).
  { eapply safe_mono; [|eapply safe_session; [exact Hm|reflexivity|apply frame_counters|]]; [done|]. intros Hi _. split; apply Hi. }
  intros u m1 _ Hm1. unfold gets at 1, bind at 1.
  destruct (find_live (wm_packs m1) (pending_ptrs m1) id) as [[p it]|] eqn:E1.
  { apply find_live_Some in E1 as (Hp & _). by eapply remove_item_safe. }
  assert (forall p pp it, inv F m1 -> p ∈ wm_writingPacks m1 -> wm_packs m1 !! p = Some pp -> pp_currentPackItems pp !! id = Some it -> Deleted it = false ->
    ContentID it = id /\ shape it /\ timely (wm_world m1) it /\ elsewhere m1 it) as Hw.
  { intros p pp it Hi Hp Hpp Hit Hd. destruct (inv_packs _ _ Hi p) as (qq & Hqq & Hok & _); [right; by left|]. rewrite Hpp in Hqq. injection Hqq as <-.
    destruct (pk_items _ _ Hok id it Hit) as (? & [? ?] & Hl & _). split_and!; [done..|]. right. exists p, pp. split_and!; [done..|]. symmetry. by apply Hl. }
  destruct (find_live (wm_packs m1) (wm_writingPacks m1) id) as [[p it]|] eqn:E2.
  { apply find_live_Some in E2 as (Hp & Hd & pp & Hpp & Hit).
    eapply (delete_preexisting_safe _ _ (fun _ => True)). intros Hf. destruct (Hm1 Hf) as [Hi _].
    destruct (Hw p pp it Hi Hp Hpp Hit Hd) as (Ec & ? & ? & ?). rewrite Ec. by split_and!. }
  assert (forall m ci, entry_ok (wm_world m) ci -> Deleted ci = false -> elsewhere m ci) as Hback.
  { intros m' ci [_ Hb] Hd. destruct (Hb Hd) as (Hp & b & d & Hbl & _). left. eauto. }
  destruct (wm_packIndexBuilder m1 !! id) as [ci|] eqn:E3.
  { eapply (delete_preexisting_safe _ _ (fun _ => True)). intros Hf. destruct (Hm1 Hf) as [Hi _]. destruct (inv_builder _ _ Hi _ _ E3) as [Ec Hok].
    pose proof Hok as [[? ?] _]. rewrite Ec. split_and!; auto. }
  eapply safe_bind; [by eapply maybeRefresh_safe|]. intros u2 m2 _ Hm2.
  eapply safe_bind; [eapply safe_shared; [exact Hm2|intros Hs; by eapply getContent_safe]|]. intros ci m3 _ Hm3.
  eapply (delete_preexisting_safe _ _ (fun _ => True)). intros Hf. destruct (Hm3 Hf) as (Hi & _ & (Hok & _) & Ec). pose proof Hok as [[? ?] _]. rewrite Ec. split_and!; auto.
Qed.

End Write.

(** ** [RewriteContent] and [UndeleteContent] *)

Section Rewrite.
Context {TE : Environment} {TC : Crypter} {TCL : CrypterLaws} {TP : Parameters} {TF : Config} {TK : Compressors} {TL : ContentLaws}.
Context {F : string -> Prop} {D : ID -> Prop}.

(** Whether a content may be marked deleted is known only of fortunate histories. *)
Lemma safe_marking m id del {A} (x : result content_error A * WriteManager) Q : (fortunate (wm_world m) -> del = true -> D id) ->
  safe F (fun j => D j \/ j = id /\ del = true) m x Q -> safe F D m x Q.
Proof.
  intros HD [Hg Hs]. split; [done|]. intros Hf. destruct (Hs Hf) as (Hi & He & HQ). split; [done|]. split; [|done].
  eapply evolves_weaken; [|exact He]. intros j [?|[-> Hd]]; [done|]. apply HD; [by eapply fortunate_before|done].
Qed.

(** What is rewritten fits in a pack, and the compression header is an unsigned
    32-bit number; a content that was deleted, of which the
    index need not say the truth any more, still reads as what its identifier is
    the hash of. *)
Definition rewritable (id : ID) (m : WriteManager) : Prop :=
  forall d it m', getContentDataAndInfo id m = (Ok (d, it), m') ->
    slen d + Overhead + pack_bound <= 2 ^ 32 /\ 0 <= CompressionHeaderID it < 2 ^ 32 /\ (Deleted it = true -> named id d /\ d ∈ w_hashed (wm_world m')).

Lemma rewrite_safe m id only P : id_ok id -> rewritable id m -> (forall it, known m it -> ContentID it = id -> Deleted it = true -> only = false -> D id) ->
  assumed F m P -> safe F D m (rewriteContent id only m) (fun _ _ => True).
Proof.
  intros Hid Hrw HD Hm. unfold rewriteContent. eapply safe_bind; [by eapply getContentDataAndInfo_safe|]. intros [d it] m1 E Hm1.
  destruct (Hrw d it m1 E) as (Hsize & Hcomp & Hdel). destruct (only && negb (Deleted it)) eqn:Eo; [by apply safe_ret; intros Hf; destruct (Hm1 Hf)|].
  assert (fortunate (wm_world m1) -> content_facts id d (TimestampSeconds it) (wm_world m1)
    /\ ((if only then false else Deleted it) = true -> D id)) as Hfacts.
  { intros Hf. destruct (Hm1 Hf) as (_ & Hfr & Hc & Hk & Hsh & Ht & Hlive). cbn [fst snd] in *. pose proof (sh_time _ Hsh).
    assert (named id d /\ d ∈ w_hashed (wm_world m1)) as [Hn Hh] by (destruct (Deleted it); auto). split.
    - split_and!; [done|done|lia|by intros _].
    - destruct only; [done|]. intros Ed. apply (HD it); [by rewrite <- (frame_known _ _ _ Hfr)|done..]. }
  apply (safe_marking _ id (if only then false else Deleted it)); [intros Hf; by apply Hfacts|].
  eapply safe_mono; [|eapply (addToPack_safe _ id d); [done|by right|done|done|]]; [done|]. intros Hf. split; [by destruct (Hm1 Hf)|by apply Hfacts].
Qed.
End Rewrite.
