(* ===== verification/ContentRead.v ===== *)
(** * Reading what is stored

    A manager that is opened finds every content of the index, and a read of it
    fails for want of the storage or not at all. *)

From S2P Require Import Prelude GoStrings GoText GoTime Db IndexID IndexTable IndexV1 IndexV2 IndexV2Facts IndexBuild IndexMergedFacts IndexRoundTrip Gather PackFormat ContentStore IndexBlobV0 CommittedIndex ContentManager ContentSpec ContentInv ContentStoreFacts CommittedFacts ContentFacts ContentSessions ContentPacks ContentFlush ContentWrite.
Open Scope go_scope.

(** ** Which errors there are *)

Definition errs (P : content_error -> Prop) {S A} (c : M S A) : Prop := forall s e s', c s = (Err e, s') -> P e.

(** An error that does not say that anything is missing. *)
Definition not_missing (e : content_error) : Prop := e <> ErrContentNotFound /\ e <> ErrBlobNotFound.

Section Errors.
Context {P : content_error -> Prop}.

Lemma errs_ret {S A} (a : A) : errs P (ret (S := S) a).
Proof. by intros s e s'. Qed.
Lemma errs_gets {S A} (f : S -> A) : errs P (gets f).
Proof. by intros s e s'. Qed.
Lemma errs_modify {S} (f : S -> S) : errs P (modify f).
Proof. by intros s e s'. Qed.
Lemma errs_attempt {S A} (c : M S A) : errs P (attempt c).
Proof. intros s e s'. unfold attempt. by destruct (c s). Qed.
Lemma errs_fail {S A} e : P e -> errs P (fail (S := S) (A := A) e).
Proof. intros He s e' s' [= <- _]. done. Qed.
Lemma errs_bind {S A B} (c : M S A) (k : A -> M S B) : errs P c -> (forall a, errs P (k a)) -> errs P (bind c k).
Proof.
  intros Hc Hk s e s'. unfold bind. destruct (c s) as [[a|e1] s1] eqn:E; [by apply Hk|]. intros [= <- <-]. by eapply Hc.
Qed.
Lemma errs_caught {S A B} (c : M S A) (k : result content_error A -> M S B) :
  errs P c -> (forall r, (forall e, r = Err e -> P e) -> errs P (k r)) -> errs P (bind (attempt c) k).
Proof.
  intros Hc Hk s e s'. unfold bind, attempt. destruct (c s) as [r s1] eqn:E. apply Hk. intros e' ->. by eapply Hc.
Qed.
Lemma errs_of_result {S A} (r : result content_error A) : (forall e, r = Err e -> P e) -> errs P (of_result (S := S) r).
Proof. intros Hr s e s' [= -> _]. by apply Hr. Qed.
Lemma errs_weaken {S A} (Q : content_error -> Prop) (c : M S A) : (forall e, Q e -> P e) -> errs Q c -> errs P c.
Proof. intros HQ Hc s e s' H. by eapply HQ, Hc. Qed.
Lemma errs_on_world {A} (c : M world A) : errs P c -> errs P (on_world c).
Proof. intros Hc s e s'. unfold on_world. destruct (c (sm_world s)) as [r w] eqn:E. intros [= -> <-]. by eapply Hc. Qed.
End Errors.

Create HintDb errs.
#[export] Hint Resolve errs_ret errs_gets errs_modify errs_attempt : errs.

Ltac errs_auto := repeat first [ progress intros | case_match | solve [auto with errs] | solve [apply errs_fail; done] | apply errs_on_world | apply errs_bind ].

Section Read.
Context {TE : Environment} {TC : Crypter} {TCL : CrypterLaws} {TP : Parameters} {TF : Config} {TK : Compressors} {TL : ContentLaws}.

Lemma errs_next_turn P : errs P next_turn.
Proof. by intros s e s'. Qed.
Hint Resolve errs_next_turn : errs.

Lemma errs_GetEncryptedBlob id : errs (fun e => e <> ErrContentNotFound) (GetEncryptedBlob id).
Proof.
  unfold GetEncryptedBlob, GetBlob. errs_auto. intros s e s' [= He _]. unfold blob_Decrypt, getIndexBlobIV in He.
  repeat (case_match; simplify_eq; try done).
Qed.

Lemma errs_addIndexBlob id d u : errs (fun e => e <> ErrContentNotFound) (addIndexBlob id d u).
Proof.
  unfold addIndexBlob. apply errs_caught.
  - unfold addContentToCache, set_committed. errs_auto. apply errs_of_result. unfold openIndex. intros e. case_match; [done|]. by intros [= <-].
  - intros r Hr. unfold bump_revision, set_committed. errs_auto. by apply errs_of_result.
Qed.

Lemma errs_fetch ids : errs (fun e => e <> ErrContentNotFound) (fetchIndexBlobs ids).
Proof.
  unfold fetchIndexBlobs. apply errs_bind; [apply errs_gets|]. intros c. generalize (filter (fun id => cc_cache c !! id = None) ids). clear.
  induction l as [|id l IH]; cbn [fetch_missing]; [apply errs_ret|]. apply errs_caught; [apply errs_on_world, errs_GetEncryptedBlob|].
  intros [d|e] He; [apply errs_bind; [apply errs_addIndexBlob|by intros]|]. case_match; [exact IH|]. apply errs_fail. by apply He.
Qed.

Lemma errs_parameters : errs not_missing GetMutableParameters.
Proof. unfold GetMutableParameters. errs_auto. Qed.

Lemma errs_logs l : errs not_missing (getCompactionLogEntries l).
Proof.
  induction l as [|cb l IH]; cbn [getCompactionLogEntries]; [apply errs_ret|].
  intros s e s'. unfold bind at 1, attempt. destruct (GetEncryptedBlob (md_BlobID cb) s) as [[d|e1] s1] eqn:E.
  - destruct (unmarshal_log d); [|by intros [= <- _]]. apply errs_bind; [exact IH|]. intros. apply errs_ret.
  - pose proof (errs_GetEncryptedBlob _ _ _ _ E) as Hne. destruct e1; first [done|by intros [= <- _]|by apply IH].
Qed.

Lemma errs_ListActive : errs not_missing ListActiveIndexBlobs.
Proof. unfold ListActiveIndexBlobs, ListAllBlobs. pose proof errs_logs. errs_auto. Qed.

Lemma errs_merge_files c files e : merge_files c files = Err e -> not_missing e.
Proof.
  induction files as [|f files IH]; cbn [merge_files]; [done|]. unfold openIndex.
  destruct (cc_inUse c !! f); [|destruct (cc_cache c !! f)]; try (destruct (merge_files c files); [done|]; intros [= <-]; by apply IH).
  destruct permissiveCacheLoading; [done|]. by intros [= <-].
Qed.

Lemma errs_add_small b m e : add_small b m = Err e -> not_missing e.
Proof.
  revert b. induction m as [|x m IH]; intros b; cbn [add_small]; [done|].
  destruct (Iterate _ _ _ _) as [[[u|[e1|e1]] x'] b']; [apply IH|by intros [= <-]..].
Qed.

Lemma errs_use files t : errs not_missing (use files t).
Proof.
  unfold use, combineSmallIndexes, lift_index, shard_suffixes, enter_combined, set_committed. pose proof errs_parameters. errs_auto.
  - apply errs_of_result. intros e He. by eapply errs_merge_files.
  - apply errs_of_result. intros e He. by eapply errs_add_small.
Qed.

Lemma errs_load n : errs not_missing (load_attempts n).
Proof.
  induction n as [|n IH]; cbn [load_attempts]; [by apply errs_fail|]. apply errs_bind; [apply errs_on_world, errs_parameters|]. intros _.
  apply errs_bind; [apply errs_on_world, errs_ListActive|]. intros [l t]. cbn [fst snd].
  intros s e s'. unfold bind at 1, attempt. destruct (fetchIndexBlobs (md_BlobID <$> l) s) as [[u|e1] s1] eqn:E.
  - revert s1 E. intros s1 _. revert s1 e s'. change (errs not_missing (use (md_BlobID <$> l) t ;;* let* now := on_world timeNow in
      modify (fun s => mkShared (sm_world s) (sm_committed s) (now + indexRefreshFrequency)))).
    apply errs_bind; [apply errs_use|]. intros _. unfold timeNow. errs_auto.
  - pose proof (errs_fetch _ _ _ _ E) as Hne. destruct e1; first [done|by intros [= <- _]|by apply IH].
Qed.

Lemma errs_Refresh : errs not_missing Refresh.
Proof. unfold Refresh. apply errs_bind; [apply errs_on_world, errs_parameters|]. intros _. apply errs_load. Qed.

Lemma errs_on_shared P {A} (c : M SharedManager A) : errs P c -> errs P (on_shared c).
Proof. intros Hc m e m'. unfold on_shared. destruct (c (wm_shared m)) as [r s] eqn:E. intros [= -> <-]. by eapply Hc. Qed.

Lemma errs_maybeRefresh : errs not_missing maybeRefreshIndexes.
Proof.
  unfold maybeRefreshIndexes, shouldRefreshIndexes, timeNow, when. pose proof (errs_on_shared _ _ errs_Refresh).
  repeat first [ progress intros | case_match | solve [auto with errs] | apply errs_on_shared | apply errs_on_world | apply errs_bind ].
Qed.

Abbreviation s_blobs := (fun s => w_blobs (sm_world s)).
Abbreviation m_blobs := (fun m => w_blobs (wm_world m)).

Ltac still_auto := repeat first [ progress intros | case_match | solve [apply still_ret] | solve [apply still_fail] | solve [apply still_gets]
  | solve [apply still_next_turn] | apply still_on_world | apply still_bind ].

Lemma still_load_attempts n : still s_blobs (load_attempts n).
Proof.
  induction n as [|n IH]; cbn [load_attempts]; [apply still_fail|]. apply still_bind; [apply still_on_world; unfold GetMutableParameters; still_auto|]. intros _.
  apply still_bind; [apply still_on_world, still_ListActive|]. intros [l t]. cbn [fst snd]. apply still_bind; [apply still_attempt, still_fetch|].
  intros [u|e]; [|destruct e; first [exact IH|apply still_fail]]. apply still_bind; [apply still_use|]. intros _.
  apply still_bind; [apply still_on_world; unfold timeNow; still_auto|]. intros. by apply still_modify.
Qed.

Lemma still_on_shared {A} (c : M SharedManager A) : still s_blobs c -> still m_blobs (on_shared c).
Proof. intros Hc m. unfold on_shared. specialize (Hc (wm_shared m)). by destruct (c (wm_shared m)). Qed.

Lemma still_maybeRefresh : still m_blobs maybeRefreshIndexes.
Proof.
  unfold maybeRefreshIndexes, when. case_match; [apply still_ret|]. apply still_bind; [apply still_gets|]. intros []; [apply still_ret|].
  apply still_bind; [apply still_on_shared; unfold shouldRefreshIndexes, timeNow; still_auto|]. intros []; [|apply still_ret].
  apply still_on_shared. unfold Refresh. apply still_bind; [apply still_on_world; unfold GetMutableParameters; still_auto|]. intros _. apply still_load_attempts.
Qed.

(** ** Finding what the index has *)

Lemma getContent_sees s id it : committed_ok (sm_world s) (sm_committed s) -> up_to_date s -> permissiveCacheLoading = false ->
  no_compactions (sm_world s) -> id_ok id -> in_index (sm_world s) it -> ContentID it = id ->
  (forall jt, in_index (sm_world s) jt -> ContentID jt = id -> Deleted jt = false) ->
  exists info s', getContent id s = (Ok info, s') /\ sm_world s' = sm_world s /\ entry_ok (sm_world s) info /\ ContentID info = id /\ Deleted info = false.
Proof.
  intros [(ls & Hm) _ Hu] Hup Hp Hno Hid (ix & d & l & Hib & Ho & Hit) Hc Hlive.
  destruct (in_use_found _ _ ls ix d l it Hm Hu) as (it' & Hit' & Hc'); [|done..|].
  { apply Hup; [done|done|apply Hib|]. destruct Hib as [_ (b & Hb & _)]. eauto. }
  destruct Hm as (Hh & Hr & Hcov). rewrite Forall_forall in Hr.
  destruct (getContent_finds s ls id it' Hid Hh Hit') as (info & s' & E & Hin & Hci & Ew); [congruence| |].
  { intros jt Hj Hcj. apply Hlive; [|done]. apply (Hr jt Hj). }
  destruct (Hr info Hin) as (Hok & _ & Hix). exists info, s'. split_and!; [done..|]. by apply Hlive.
Qed.

Lemma overlay_local m id r : getOverlayContentInfoReadLocked m id = Some r -> local_entry m r.2.
Proof.
  unfold getOverlayContentInfoReadLocked. destruct (find_in_packs (wm_packs m) (pending_ptrs m) id) as [[p ci]|] eqn:E1.
  { intros [= <-]. apply find_in_packs_Some in E1 as (Hp%pending_ptrs_elem & pp & ? & ?). left. exists p, pp, id. split; [by left|done]. }
  destruct (find_in_packs (wm_packs m) (wm_writingPacks m) id) as [[p ci]|] eqn:E2.
  { intros [= <-]. apply find_in_packs_Some in E2 as (Hp & pp & ? & ?). left. exists p, pp, id. split; [right; by left|done]. }
  destruct (wm_packIndexBuilder m !! id) as [ci|] eqn:E3; [|done]. intros [= <-]. right. by exists id.
Qed.

(** The data of an entry the storage backs. *)
Lemma getData_backed m id d it : fortunate (wm_world m) -> entry_ok (wm_world m) it -> ContentID it = id -> Deleted it = false -> named id d -> d ∈ w_hashed (wm_world m) ->
  getContentDataReadLocked None it m = (if tn_read (turn_at (w_tick (wm_world m))) then Ok d else Err ErrStorage, (getContentDataReadLocked None it m).2).
Proof.
  intros Hf [_ Hb] Hc Hd Hn Hh. destruct (Hb Hd) as (Hp & b & d' & Hbl & (e & He & Hdec) & Hn' & Hh').
  assert (d' = d) as ->. { eapply (f_hashed _ Hf); [done..|]. unfold named in *. rewrite Hc in Hn'. congruence. }
  unfold getContentDataReadLocked, bind. rewrite on_storage_eq. unfold GetBlob, bind, next_turn, gets. cbn.
  destruct (tn_read _); cbn; [|done]. rewrite Hbl, He. cbn. unfold of_result. by rewrite Hdec.
Qed.

(** ** [GetContent] by a manager that has nothing of its own *)

Definition refresh_due (m : WriteManager) : bool := After (tn_now (turn_at (w_tick (wm_world m)))) (sm_refreshIndexesAfter (wm_shared m)).

Lemma info_eq m id : getOverlayContentInfoReadLocked m id = None -> getContentInfoReadLocked id m =
  match maybeRefreshIndexes m with
  | (Ok _, m1) => match on_shared (getContent id) m1 with (Ok info, m2) => (Ok (None, info), m2) | (Err e, m2) => (Err e, m2) end
  | (Err e, m1) => (Err e, m1)
  end.
Proof. intros E. unfold getContentInfoReadLocked, bind, gets. by rewrite E. Qed.

(** Without a refresh a turn is taken at most. *)
Lemma maybeRefresh_not_due m : refresh_due m = false ->
  exists w', maybeRefreshIndexes m = (Ok tt, with_world m w') /\ (w_tick (wm_world m) <= w_tick w' <= S (w_tick (wm_world m)))%nat.
Proof.
  intros Hd. unfold maybeRefreshIndexes. destruct permissiveCacheLoading; [exists (wm_world m); rewrite with_world_id; split; [done|lia]|].
  unfold bind at 1, gets. destruct (wm_disableIndexRefresh m); [exists (wm_world m); rewrite with_world_id; split; [done|lia]|].
  unfold refresh_due, wm_world in Hd. unfold bind, on_shared, shouldRefreshIndexes, on_world, timeNow, bind, next_turn, gets, ret. cbn -[After]. rewrite Hd.
  eexists. split; [reflexivity|]. unfold wm_world; cbn; lia.
Qed.

Section Stored.
Context (F : string -> Prop) (m : WriteManager) (id : ID) (it : Info) (Hi : inv F m) (Hloc : forall it, ~ local_entry m it) (Hup : up_to_date (wm_shared m)).
Context (Hp : permissiveCacheLoading = false) (Hno : no_compactions (wm_world m)) (Hid : id_ok id) (Hix : in_index (wm_world m) it) (Hc : ContentID it = id).
Context (Hlive : forall jt, in_index (wm_world m) jt -> ContentID jt = id -> Deleted jt = false).

Lemma info_stored : fortunate (wm_world (getContentInfoReadLocked id m).2) ->
  (exists info m1, getContentInfoReadLocked id m = (Ok (None, info), m1) /\ entry_ok (wm_world m1) info /\ ContentID info = id /\ Deleted info = false
     /\ grows (wm_world m) (wm_world m1) /\ (refresh_due m = false -> (w_tick (wm_world m) <= w_tick (wm_world m1) <= S (w_tick (wm_world m)))%nat))
  \/ (refresh_due m = true /\ exists e m1, getContentInfoReadLocked id m = (Err e, m1) /\ not_missing e).
Proof.
  rewrite info_eq. 2: { destruct (getOverlayContentInfoReadLocked m id) as [r|] eqn:Eo; [|done]. destruct (Hloc r.2). by eapply overlay_local. }
  pose proof (maybeRefresh_safe (F := F) (D := fun _ => False) m (fun _ => True) ltac:(done)) as [Hg Hs].
  pose proof (still_maybeRefresh m) as Hst. cbn beta in Hst. pose proof (maybeRefresh_not_due m) as Hnd.
  destruct (maybeRefreshIndexes m) as [[u|e] m1] eqn:Er; cbn [fst snd] in *.
  2: { intros _. right. split; [|exists e, m1; split; [done|by eapply errs_maybeRefresh]]. destruct (refresh_due m); [done|]. by destruct (Hnd eq_refl) as (w' & ? & _). }
  assert (fortunate (wm_world m1) -> exists info s', getContent id (wm_shared m1) = (Ok info, s') /\ sm_world s' = wm_world m1
    /\ entry_ok (wm_world m1) info /\ ContentID info = id /\ Deleted info = false) as Hget.
  { intros Hf. destruct (Hs Hf) as (Hi1 & _ & HQ). destruct (HQ u eq_refl) as [Hfr Hu1]. pose proof (fr_tame _ _ Hfr) as Ht.
    apply (getContent_sees (wm_shared m1) id it); [apply Hi1|by apply Hu1|done| |done| |done|].
    - intros x Hx. change (w_blobs (wm_world m1) !! x = None). rewrite Hst. by apply Hno.
    - by apply (tame_in_index _ _ _ Ht).
    - intros jt Hj. apply Hlive. by apply (tame_in_index _ _ _ Ht) in Hj. }
  unfold on_shared. intros Hf. left. assert (fortunate (wm_world m1)) as Hf1.
  { eapply fortunate_before; [|exact Hf]. assert (tame (sm_world (wm_shared m1)) (sm_world (getContent id (wm_shared m1)).2)) as Ht.
    { unfold getContent, bind, gets. destruct (Merged_GetInfo _ _) as [r ms]. unfold set_committed, modify. destruct r as [[info|]|]; [destruct (shouldIgnore _ _)|..]; done. }
    destruct (getContent id (wm_shared m1)) as [[info|e] s']; apply Ht. }
  destruct (Hget Hf1) as (info & s' & Eg & Ew & Hok & Hci & Hd). rewrite Eg. exists info, (set_shared m1 s'). split; [done|].
  change (wm_world (set_shared m1 s')) with (sm_world s'). rewrite Ew. split_and!; [done..|].
  intros Hdue. destruct (Hnd Hdue) as (w' & E & ?). by injection E as _ ->.
Qed.

Lemma read_flushed d : fortunate (wm_world (GetContent id m).2) -> named id d -> d ∈ w_hashed (wm_world m) ->
  ((exists m', GetContent id m = (Ok d, m')) \/ exists e m', GetContent id m = (Err e, m') /\ not_missing e)
  /\ (refresh_due m = false -> (forall n, (w_tick (wm_world m) <= n <= S (w_tick (wm_world m)))%nat -> tn_read (turn_at n) = true) ->
      exists m', GetContent id m = (Ok d, m')).
Proof.
  intros Hf Hn Hh. unfold GetContent, getContentDataAndInfo in *. pose proof info_stored as Hinfo.
  unfold bind in *. destruct (getContentInfoReadLocked id m) as [[r|e] m1] eqn:E in Hf, Hinfo |- *; cbn [fst snd gets] in *.
  - assert (grows (wm_world m1) (wm_world (getContentDataReadLocked (r.1 ≫= (fun p => wm_packs m1 !! p)) r.2 m1).2)) as Hg1 by apply getData_frame.
    assert (fortunate (wm_world m1)) as Hf1.
    { eapply fortunate_before; [exact Hg1|]. by destruct (getContentDataReadLocked (r.1 ≫= (fun p => wm_packs m1 !! p)) r.2 m1) as [[x|x] m2]. }
    destruct (Hinfo Hf1) as [(info & m1' & E' & Hok & Hci & Hd & Hg & Htick)|(_ & e & m1' & E' & _)]; [|done].
    injection E' as -> <-. cbn [fst snd mbind option_bind] in *.
    rewrite (getData_backed m1 id d info Hf1 Hok Hci Hd Hn (grows_hashed _ _ _ Hg Hh)).
    destruct (tn_read (turn_at (w_tick (wm_world m1)))) eqn:Et.
    + split; [left|intros _ _]; by eexists.
    + split; [right; by eexists _, _|]. intros Hdue Hr. specialize (Htick Hdue). rewrite Hr in Et by lia. done.
  - destruct (Hinfo Hf) as [(info & m1' & E' & _)|(Hdue & e' & m1' & E' & Hm)]; [done|]. injection E' as <- <-.
    split; [right; by eexists _, _|]. by rewrite Hdue.
Qed.
End Stored.

(** ** Opening *)

Lemma committed_empty w : committed_ok w newCommittedContentIndex.
Proof. split; [|done..]. exists []. split_and!; [constructor|constructor|]. cbn. intros id x l it Hx. by rewrite lookup_empty in Hx. Qed.

Lemma load_new w : (fortunate w -> storage_ok w) -> let s := (NewSharedManager w).2 in
  tame w (sm_world s) /\ (fortunate (sm_world s) -> committed_ok (sm_world s) (sm_committed s) /\ ((NewSharedManager w).1 = Ok tt -> up_to_date s)).
Proof.
  intros Hw. unfold NewSharedManager, loadPackIndexesLocked. set (s0 := mkShared w newCommittedContentIndex zero_time).
  destruct (load_safe indexLoadAttempts s0 (fun _ => True)) as [Ht Hl].
  { intros Hf. split_and!; [by apply Hw|apply committed_empty|done]. }
  split; [exact Ht|]. intros Hf. destruct (Hl Hf) as [Hc HQ]. split; [done|]. apply HQ.
Qed.

(** Opening touches neither packs nor indexes, and a new manager has nothing of
    its own and uses every index blob. *)
Lemma open_manager_ok F w r w' : (fortunate w -> storage_ok w) -> open_manager w = (r, w') ->
  tame w w' /\ forall m, r = Ok m -> wm_world m = w' /\ (fortunate w' -> (forall id, F id -> exists r, r ∈ w_drawn w /\ pack_name id r) ->
    inv F m /\ up_to_date (wm_shared m) /\ (forall it, ~ local_entry m it) /\ forall p, ~ referenced m p).
Proof.
  intros Hw. destruct (load_new w Hw) as [Ht Hl]. unfold open_manager. destruct (NewSharedManager w) as [[[]|e] s]; [|intros [= <- <-]; by split].
  cbn [fst snd] in *. set (w2 := mkWorld (w_blobs (sm_world s)) (S (w_tick (sm_world s))) (w_hashed (sm_world s)) (w_drawn (sm_world s)) (w_combined (sm_world s))).
  assert (NewWriteManager s = mkManager (s_with_world s w2) 0 false no_session [] ∅ ∅ [] [] ∅ 0 (tn_now (turn_at (w_tick (sm_world s))) + flushPackIndexTimeout)) as -> by done.
  intros [= <- <-]. assert (tame (sm_world s) w2) as Ht2 by apply (tame_next_turn (sm_world s)). split; [by etrans|]. intros m [= <-]. split; [done|].
  change (sm_world (s_with_world s w2)) with w2. intros Hf HF. pose proof (fortunate_before _ _ (proj1 Ht2) Hf) as Hf1. destruct (Hl Hf1) as [Hco Hup].
  set (m := mkManager _ _ _ _ _ _ _ _ _ _ _ _). assert (forall it, ~ local_entry m it) as Hloc.
  { intros it [(p & pp & i & _ & Hpp & _)|[i Hb]]; cbn in *; [by rewrite lookup_empty in Hpp|by rewrite lookup_empty in Hb]. }
  assert (forall p, ~ referenced m p) as Href.
  { intros p [[x Hx]|[Hx|Hx]]; cbn in Hx; [by rewrite lookup_empty in Hx|by apply not_elem_of_nil in Hx..]. }
  split_and!; [split|by apply up_to_date_same, Hup|done|done].
  - change (storage_ok w2). eapply tame_storage; [|apply Hw; eapply fortunate_before; [apply Ht|exact Hf1]]. by etrans.
  - intros id Hid. destruct (HF id Hid) as (r & Hr & Hn). exists r. split; [|done]. eapply grows_drawn; [|exact Hr]. change (wm_world m) with w2.
    etrans; [apply Ht|apply Ht2].
  - intros p Hp. by destruct (Href p).
  - intros prefix p Hp. cbn in Hp. by rewrite lookup_empty in Hp.
  - intros p q pp qq Hp. by destruct (Href p).
  - intros i it Hit. cbn in Hit. by rewrite lookup_empty in Hit.
  - eapply committed_ok_extends; [by apply (tame_extends (fun _ => True)), Ht2|done].
  - constructor.
  - done.
  - constructor.
  - exists ∅. split; [intros it Hit; by destruct (Hloc it)|rewrite size_empty; lia].
Qed.

End Read.
