(* ===== verification/ContentSystem.v ===== *)
(** * Several managers on one storage

    Managers are opened, run sections of their operations in any order, and
    crash; the storage is what they share.  What the index says is backed by
    packs, whatever happens, and what was flushed stays. *)

From S2P Require Import Prelude GoStrings GoText GoTime Db IndexID IndexTable IndexV1 IndexV2 IndexV2Facts IndexBuild IndexMergedFacts IndexRoundTrip Gather PackFormat ContentStore IndexBlobV0 CommittedIndex ContentManager ContentSpec ContentInv ContentStoreFacts CommittedFacts ContentFacts ContentSessions ContentPacks ContentFlush ContentWrite ContentRead.
Open Scope go_scope.

(** ** Steps *)

Record sys := mkSys { s_world : world; s_managers : gmap nat WriteManager }.

(** A call, or the section of one during which the lock is held. *)
Inductive call :=
| CallWrite (d : list Z) (prefix : IDPrefix) (comp : Z)
| CallAdd (id : ID) (d : list Z) (c : Z * list Z) (prev : Z)
| CallUpload (p : nat)
| CallRetry
| CallFlush
| CallFlushBegin
| CallFlushFinish
| CallDelete (id : ID)
| CallRewrite (id : ID)
| CallUndelete (id : ID)
| CallRead (id : ID)
| CallInfo (id : ID)
| CallRefresh
| CallDisableIndexFlush
| CallEnableIndexFlush.

Inductive label := Called (i : nat) (c : call) | Opened (i : nat) | Crashed (i : nat).

Section System.
Context {TE : Environment} {TC : Crypter} {TCL : CrypterLaws} {TP : Parameters} {TF : Config} {TK : Compressors} {TL : ContentLaws}.

Definition run (c : call) (m : WriteManager) : WriteManager :=
  match c with
  | CallWrite d prefix comp => (WriteContent d prefix comp m).2
  | CallAdd id d c prev => (add_locked id (slen d) c false prev m).2
  | CallUpload p => (writePackAndAddToIndex p m).2
  | CallRetry => (retryFailedPacks m).2
  | CallFlush => (Flush m).2
  | CallFlushBegin => (flush_begin m).2
  | CallFlushFinish => (flush_finish m).2
  | CallDelete id => (DeleteContent id m).2
  | CallRewrite id => (RewriteContent id m).2
  | CallUndelete id => (UndeleteContent id m).2
  | CallRead id => (GetContent id m).2
  | CallInfo id => (ContentInfo id m).2
  | CallRefresh => (on_shared Refresh m).2
  | CallDisableIndexFlush => (DisableIndexFlush m).2
  | CallEnableIndexFlush => (EnableIndexFlush m).2
  end.

(** Contents fit in a pack, identifiers have the length of a hash, only what was
    hashed is added and what is to be uploaded is uploaded, and a deleted content
    is rewritten or undeleted only where its bytes are still to be read. *)
Definition guard (c : call) (m : WriteManager) : Prop :=
  match c with
  | CallWrite d prefix comp => slen d + Overhead + pack_bound <= 2 ^ 32 /\ 0 <= comp < 2 ^ 32
  | CallAdd id d c prev => id_ok id /\ packs_as id d c /\ slen c.2 + pack_bound <= 2 ^ 32 /\ content_facts id d prev (wm_world m)
  | CallUpload p => to_upload m p
  | CallRewrite id | CallUndelete id => id_ok id /\ rewritable id (on_storage GetMutableParameters m).2
  | CallDelete id | CallRead id | CallInfo id => id_ok id
  | _ => True
  end.

Definition view (s : sys) (m : WriteManager) : WriteManager := with_world m (s_world s).

Definition update (s : sys) (i : nat) (m : WriteManager) : sys := mkSys (wm_world m) (<[i := m]> (s_managers s)).

Inductive step : sys -> label -> sys -> Prop :=
| step_call s i m c : s_managers s !! i = Some m -> guard c (view s m) -> step s (Called i c) (update s i (run c (view s m)))
| step_open s i r w' : s_managers s !! i = None -> open_manager (s_world s) = (r, w') ->
    step s (Opened i) (mkSys w' (match r with Ok m => <[i := m]> (s_managers s) | Err _ => s_managers s end))
| step_crash s i : step s (Crashed i) (mkSys (s_world s) (delete i (s_managers s))).

Inductive steps (ok : label -> Prop) : sys -> sys -> Prop :=
| steps_refl s : steps ok s s
| steps_next s l s1 s2 : step s l s1 -> ok l -> steps ok s1 s2 -> steps ok s s2.

(** An empty storage, and nobody there. *)
Definition init : sys := mkSys (mkWorld ∅ 0 [] [] []) ∅.

Definition anything (l : label) : Prop := True.

(** Steps that do not delete a content. *)
Definition keeps (id : ID) (l : label) : Prop := match l with Called _ (CallDelete j) => j <> id | _ => True end.

(** Nor is the manager lost. *)
Definition quiet (id : ID) (i : nat) (l : label) : Prop := keeps id l /\ l <> Crashed i.

(** Rewriting a content that was deleted marks it deleted again. *)
Definition deleted_by (c : call) (m : WriteManager) (id : ID) : Prop :=
  match c with CallDelete j => j = id | CallRewrite j => j = id /\ ~ clean m id | _ => False end.

Lemma keeps_not_deleted id i c m : keeps id (Called i c) -> clean m id -> ~ deleted_by c m id.
Proof. destruct c; cbn; tauto. Qed.

(** ** Calls are safe *)

Lemma rewriting_safe F D m id only P : id_ok id -> rewritable id (on_storage GetMutableParameters m).2 ->
  (forall it, known m it -> ContentID it = id -> Deleted it = true -> only = false -> D id) -> assumed F m P ->
  safe F D m ((on_storage GetMutableParameters ;;* rewriteContent id only) m) (fun _ _ => True).
Proof.
  intros Hid Hrw HD Hm. eapply (safe_bind _ _ _ (fun _ _ => True)); [eapply safe_storage; [apply tame_parameters|exact Hm|done]|].
  intros u m1 E Hm1. rewrite on_storage_eq in E, Hrw. cbn [snd] in Hrw. injection E as _ <-. eapply rewrite_safe; [done|done| |exact Hm1].
  intros it [Hl|Hix]; apply HD; [by left|right]. eapply (tame_in_index _ _ _ (tame_parameters (wm_world m))). exact Hix.
Qed.

Lemma call_safe F c m P : guard c m -> assumed F m P ->
  grows (wm_world m) (wm_world (run c m)) /\ (fortunate (wm_world (run c m)) -> inv F (run c m) /\ evolves F (deleted_by c m) m (run c m)).
Proof.
  intros Hg Hm. assert (forall A (x : result content_error A * WriteManager) Q, safe F (deleted_by c m) m x Q ->
    grows (wm_world m) (wm_world x.2) /\ (fortunate (wm_world x.2) -> inv F x.2 /\ evolves F (deleted_by c m) m x.2)) as Hsafe.
  { intros A x Q [H1 H2]. split; [done|]. intros Hf. by destruct (H2 Hf) as (? & ? & _). }
  assert (forall f a, safe F (deleted_by c m) m (modify (fun m => set_counters m (wm_revision m) (wm_disableIndexRefresh m) (f m) (a m)) m) (fun _ m' => frame m m' /\ True)) as Hcount.
  { intros f a. eapply safe_session; [exact Hm|reflexivity|apply frame_counters|]. intros Hi _. split; apply Hi. }
  destruct c as [d prefix comp|id d c prev|p| | | | |id|id|id|id|id| | |]; cbn [run guard] in *.
  - destruct Hg. eapply Hsafe. by eapply WriteContent_safe.
  - destruct Hg as (? & ? & ? & ?). eapply Hsafe. eapply add_locked_safe; [done..|]. intros Hf. by destruct (Hm Hf).
  - eapply Hsafe. by eapply writePack_safe.
  - eapply Hsafe. by eapply retry_safe.
  - eapply Hsafe. by eapply Flush_safe.
  - eapply Hsafe. by eapply flush_begin_safe.
  - eapply Hsafe. by eapply flush_finish_safe.
  - eapply Hsafe. by eapply DeleteContent_safe.
  - destruct Hg as [Hid Hrw]. eapply Hsafe. eapply rewriting_safe; [done..| |done]. intros it Hk Hc Hd _. split; [done|]. intros Hcl. by rewrite (Hcl it Hk Hc) in Hd.
  - destruct Hg as [Hid Hrw]. eapply Hsafe. by eapply rewriting_safe.
  - eapply (Hsafe _ _ (fun _ _ => True)). unfold GetContent, getContentDataAndInfo. eapply (safe_bind _ _ _ (fun _ _ => True)); [|intros r m1 _ Hm1; by apply safe_ret].
    eapply safe_bind; [by eapply getContentInfo_safe|]. intros r m1 _ Hm1. unfold gets at 1, bind at 1.
    eapply safe_bind; [by eapply getData_safe_any|]. intros x m2 _ Hm2. by apply safe_ret.
  - eapply (Hsafe _ _ (fun _ _ => True)). unfold ContentInfo. eapply safe_bind; [by eapply getContentInfo_safe|]. intros r m1 _ Hm1. apply safe_ret. intros Hf. by destruct (Hm1 Hf).
  - eapply Hsafe. eapply safe_shared; [exact Hm|]. intros Hs. by eapply Refresh_safe.
  - eapply Hsafe. apply (Hcount (fun m => wm_disableIndexFlushCount m + 1) wm_flushPackIndexesAfter).
  - eapply Hsafe. apply (Hcount (fun m => wm_disableIndexFlushCount m - 1) wm_flushPackIndexesAfter).
Qed.

(** ** The invariant of the system *)

(** The packs of the other managers. *)
Definition others (ms : gmap nat WriteManager) (i : nat) (id : string) : Prop := exists j m, j <> i /\ ms !! j = Some m /\ owned m id.

Definition sys_inv (s : sys) : Prop :=
  fortunate (s_world s) -> storage_ok (s_world s) /\ forall i m, s_managers s !! i = Some m -> inv (others (s_managers s) i) (view s m).

Definition known_sys (s : sys) (it : Info) : Prop :=
  in_index (s_world s) it \/ exists i m, s_managers s !! i = Some m /\ local_entry m it.

(** No deletion of a content is known to anybody. *)
Definition sys_clean (s : sys) (id : ID) : Prop := forall it, known_sys s it -> ContentID it = id -> Deleted it = false.

Definition in_storage (s : sys) (id : ID) : Prop := exists it, in_index (s_world s) it /\ ContentID it = id.

Lemma inv_foreigners (F G : string -> Prop) m : inv F m -> (forall id, G id -> exists r, r ∈ w_drawn (wm_world m) /\ pack_name id r) ->
  (forall id, owned m id -> ~ G id) -> inv G m.
Proof.
  intros Hi HG Ho. split; try apply Hi; [done|]. intros p Hp. destruct (inv_packs _ _ Hi p Hp) as (pp & Hpp & Hok & _). exists pp. split_and!; [done..|]. apply Ho. by exists p, pp.
Qed.

Lemma owned_drawn F m id : inv F m -> owned m id -> exists r, r ∈ w_drawn (wm_world m) /\ pack_name id r.
Proof.
  intros Hi (p & pp & Hr & Hpp & <-). destruct (inv_packs _ _ Hi p Hr) as (qq & Hqq & Hok & _). rewrite Hpp in Hqq. injection Hqq as <-. apply Hok.
Qed.

Lemma owned_not_foreign F m id : inv F m -> owned m id -> ~ F id.
Proof.
  intros Hi (p & pp & Hr & Hpp & <-). destruct (inv_packs _ _ Hi p Hr) as (qq & Hqq & _ & HF). rewrite Hpp in Hqq. by injection Hqq as <-.
Qed.

Lemma view_known s i m it : s_managers s !! i = Some m -> known (view s m) it -> known_sys s it.
Proof. intros Hm [Hl|Hin]; [right; by exists i, m|by left]. Qed.

Lemma view_clean s i m id : s_managers s !! i = Some m -> sys_clean s id -> clean (view s m) id.
Proof. intros Hm Hcl it Hit. apply Hcl. by eapply view_known. Qed.

(** What a manager changed is fine with the others. *)
Lemma update_inv s i m m' : (forall j mj, s_managers s !! j = Some mj -> inv (others (s_managers s) j) (view s mj)) -> s_managers s !! i = Some m ->
  inv (others (s_managers s) i) m' -> extends (others (s_managers s) i) (s_world s) (wm_world m') ->
  forall j mj, s_managers (update s i m') !! j = Some mj -> inv (others (s_managers (update s i m')) j) (view (update s i m') mj).
Proof.
  intros Hall Hm Hi' He j mj Hj. cbn in Hj. pose proof (ex_grows _ _ _ He) as Hg.
  assert (forall k mk id, k <> i -> s_managers s !! k = Some mk -> owned mk id -> exists r, r ∈ w_drawn (wm_world m') /\ pack_name id r) as Hdrawn.
  { intros k mk id Hne Hk Ho. destruct (owned_drawn _ (view s mk) id (Hall k mk Hk) Ho) as (r & Hr & Hn). exists r. split; [by eapply grows_drawn|done]. }
  apply lookup_insert_Some in Hj as [[<- <-]|[Hne Hj]].
  - unfold view. cbn. rewrite with_world_id. eapply inv_foreigners; [exact Hi'|..].
    + intros id (k & mk & Hk & Hmk & Ho). cbn in Hmk. rewrite lookup_insert_ne in Hmk by done. by eapply Hdrawn.
    + intros id Ho (k & mk & Hk & Hmk & Ho'). cbn in Hmk. rewrite lookup_insert_ne in Hmk by done. eapply owned_not_foreign; [exact Hi'|exact Ho|]. by exists k, mk.
  - unfold view. cbn. pose proof (Hall j mj Hj) as Hij. eapply inv_foreigners.
    + eapply (inv_with_world _ (others (s_managers s) i) (view s mj) (wm_world m') Hij); [apply Hi'|exact He|]. intros id Ho. by exists j, mj.
    + intros id (k & mk & Hk & Hmk & Ho). cbn in Hmk. apply lookup_insert_Some in Hmk as [[<- <-]|[Hki Hmk]]; [exact (owned_drawn _ m' id Hi' Ho)|by eapply Hdrawn].
    + intros id Ho (k & mk & Hk & Hmk & Ho'). cbn in Hmk. apply lookup_insert_Some in Hmk as [[<- <-]|[Hki Hmk]].
      * eapply owned_not_foreign; [exact Hi'|exact Ho'|]. by exists j, mj.
      * eapply owned_not_foreign; [exact Hij|exact Ho|]. by exists k, mk.
Qed.

(** A change of the storage that touches neither packs nor indexes, with fewer
    managers or a new one without packs. *)
Lemma tame_inv s w' ms' : sys_inv s -> tame (s_world s) w' -> fortunate w' ->
  (forall j mj, ms' !! j = Some mj -> s_managers s !! j = Some mj \/ ((forall p, ~ referenced mj p) /\ mj = with_world mj w' /\ inv (others (s_managers s) j) mj)) ->
  storage_ok w' /\ forall j mj, ms' !! j = Some mj -> inv (others ms' j) (with_world mj w').
Proof.
  intros Hs Ht Hf Hms. destruct (Hs (fortunate_before _ _ (proj1 Ht) Hf)) as [Hst Hall]. split; [by eapply tame_storage|]. intros j mj Hj.
  assert (forall id, others ms' j id -> others (s_managers s) j id) as Hsub.
  { intros id (k & mk & Hk & Hmk & Ho). destruct (Hms k mk Hmk) as [Hmk'|(Hno & _)]; [by exists k, mk|]. destruct Ho as (p & pp & Hr & _). by destruct (Hno p). }
  assert (inv (others (s_managers s) j) (with_world mj w')) as Hi.
  { destruct (Hms j mj Hj) as [Hj'|(_ & <- & Hi)]; [|exact Hi]. eapply (inv_with_world _ (fun _ => True) (view s mj)); [by apply Hall|by eapply tame_storage|by apply tame_extends|done]. }
  eapply inv_foreigners; [exact Hi|intros id Hid; apply (inv_foreign _ _ Hi); auto|]. intros id Ho Hid. eapply owned_not_foreign; [exact Hi|exact Ho|auto].
Qed.

Lemma step_inv s l s' : sys_inv s -> step s l s' -> grows (s_world s) (s_world s') /\ sys_inv s'.
Proof.
  intros Hs Hstep. destruct Hstep as [s i m c Hm Hg|s i r w' Hi Ho|s i].
  - destruct (call_safe (others (s_managers s) i) c (view s m) (fun _ => True) Hg) as [Hgr Hc].
    { intros Hf. destruct (Hs Hf) as [_ Hall]. split; [by apply Hall|done]. }
    split; [exact Hgr|]. intros Hf. destruct (Hc Hf) as [Hi He]. destruct (Hs (fortunate_before _ _ Hgr Hf)) as [_ Hall]. split; [apply Hi|].
    eapply update_inv; [exact Hall|exact Hm|exact Hi|apply He].
  - destruct (open_manager_ok (others (s_managers s) i) (s_world s) r w' (fun Hf => proj1 (Hs Hf)) Ho) as [Ht Hm]. split; [apply Ht|]. intros Hf. cbn in Hf.
    apply (tame_inv s w'); [done..|]. intros j mj Hj. destruct r as [m|e]; [|by left]. cbn in Hj. apply lookup_insert_Some in Hj as [[<- <-]|[_ Hj]]; [right|by left].
    destruct (Hm m eq_refl) as [Ew Hm']. destruct Hm' as (Him & _ & _ & Hno); [done| |].
    + intros id (j & mj & Hj & Hmj & Hown). destruct (Hs (fortunate_before _ _ (proj1 Ht) Hf)) as [_ Hall]. exact (owned_drawn _ (view s mj) id (Hall j mj Hmj) Hown).
    + split; [done|]. rewrite <- Ew, with_world_id. done.
  - split; [done|]. intros Hf. cbn in Hf. apply (tame_inv s (s_world s)); [done..|]. cbn. intros j mj [_ Hj]%lookup_delete_Some. by left.
Qed.

Lemma step_content s l s' id : sys_inv s -> step s l s' -> fortunate (s_world s') -> keeps id l ->
  (sys_clean s id -> sys_clean s' id) /\ (in_storage s id -> in_storage s' id).
Proof.
  intros Hs Hstep Hf Hk. destruct Hstep as [s i m c Hm Hg|s i r w' Hi Ho|s i].
  - destruct (call_safe (others (s_managers s) i) c (view s m) (fun _ => True) Hg) as [Hgr Hc].
    { intros Hf'. destruct (Hs Hf') as [_ Hall]. split; [by apply Hall|done]. }
    destruct (Hc Hf) as [Hi [He Hev]]. split.
    + intros Hclean. pose proof (view_clean _ _ _ _ Hm Hclean) as Hcl. assert (clean (run c (view s m)) id) as Hcl'.
      { by apply Hev; [eapply keeps_not_deleted|]. }
      intros it [Hin|(j & mj & Hj & Hl)]; [apply Hcl'; by right|]. cbn in Hj. apply lookup_insert_Some in Hj as [[<- <-]|[_ Hj]]; [apply Hcl'; by left|].
      apply Hclean. right. by exists j, mj.
    + intros (it & Hin & Ec). exists it. split; [|done]. by eapply (in_index_extends _ _ _ _ He).
  - destruct (open_manager_ok (others (s_managers s) i) (s_world s) r w' (fun Hf => proj1 (Hs Hf)) Ho) as [Ht Hm]. split.
    + intros Hclean it [Hin|(j & mj & Hj & Hl)]; [apply Hclean; left; by apply (tame_in_index _ _ _ Ht)|]. cbn in Hj.
      destruct r as [m|e]; [|apply Hclean; right; by exists j, mj]. apply lookup_insert_Some in Hj as [[<- <-]|[_ Hj]]; [|apply Hclean; right; by exists j, mj].
      destruct (Hm m eq_refl) as [Ew Hm']. destruct Hm' as (_ & _ & Hno & _); [done| |by destruct (Hno it)].
      intros x (j & mj & Hj & Hmj & Hown). destruct (Hs (fortunate_before _ _ (proj1 Ht) Hf)) as [_ Hall]. exact (owned_drawn _ (view s mj) x (Hall j mj Hmj) Hown).
    + intros (it & Hin & Ec). exists it. split; [|done]. by apply (tame_in_index _ _ _ Ht).
  - split; [|done]. intros Hclean it [Hin|(j & mj & Hj & Hl)]; [apply Hclean; by left|]. cbn in Hj. apply lookup_delete_Some in Hj as [_ Hj]. apply Hclean. right. by exists j, mj.
Qed.

Lemma steps_inv ok s s' : steps ok s s' -> sys_inv s -> grows (s_world s) (s_world s') /\ sys_inv s'.
Proof.
  induction 1 as [s|s l s1 s2 Hstep _ _ IH]; intros Hs; [done|]. destruct (step_inv s l s1 Hs Hstep) as [G1 H1]. destruct (IH H1) as [G2 H2]. split; [by etrans|done].
Qed.

Lemma steps_content ok s s' id : steps ok s s' -> (forall l, ok l -> keeps id l) -> sys_inv s -> fortunate (s_world s') ->
  (sys_clean s id -> sys_clean s' id) /\ (in_storage s id -> in_storage s' id).
Proof.
  intros Hst Hok. induction Hst as [s|s l s1 s2 Hstep Hl Hst IH]; intros Hs Hf; [done|]. destruct (step_inv s l s1 Hs Hstep) as [G1 H1].
  destruct (steps_inv _ _ _ Hst H1) as [G2 _]. destruct (step_content s l s1 id Hs Hstep (fortunate_before _ _ G2 Hf) (Hok l Hl)). destruct (IH H1 Hf). auto.
Qed.

(** A manager that is not lost goes on holding what it holds. *)
Definition held_by (s : sys) (i : nat) (id : ID) : Prop := exists m, s_managers s !! i = Some m /\ held (view s m) id.

Lemma step_held s l s' i id : sys_inv s -> step s l s' -> fortunate (s_world s') -> quiet id i l -> sys_clean s id -> held_by s i id -> held_by s' i id.
Proof.
  intros Hs Hstep Hf [Hk Hq] Hcl (m & Hm & Hh). pose proof (step_content s l s' id Hs Hstep Hf Hk) as [_ Hin].
  assert (s_managers s' !! i = Some m -> held_by s' i id) as Hsame.
  { intros Hm'. exists m. split; [done|]. destruct Hh as (it & [Hl|Hix] & Ec); [exists it; split; [by left|done]|].
    destruct Hin as (it' & ? & ?); [by exists it|]. exists it'. split; [by right|done]. }
  destruct Hstep as [s j mj c Hmj Hg|s j r w' Hj Ho|s j].
  - destruct (decide (j = i)) as [->|Hne]; [|apply Hsame; cbn; by rewrite lookup_insert_ne].
    rewrite Hm in Hmj. injection Hmj as <-. destruct (call_safe (others (s_managers s) i) c (view s m) (fun _ => True) Hg) as [Hgr Hc].
    { intros Hf'. destruct (Hs Hf') as [_ Hall]. split; [by apply Hall|done]. }
    destruct (Hc Hf) as [_ [_ Hev]]. destruct (Hev id) as [_ Hheld]; [eapply keeps_not_deleted; [exact Hk|by eapply view_clean]|]. exists (run c (view s m)).
    split; [cbn; by rewrite lookup_insert_eq|]. unfold view at 1. cbn. rewrite with_world_id. by apply Hheld.
  - apply Hsame. cbn. destruct r; [|done]. rewrite lookup_insert_ne; [done|]. congruence.
  - apply Hsame. cbn. rewrite lookup_delete_ne; [done|]. congruence.
Qed.

Lemma steps_held ok s s' i id : steps ok s s' -> (forall l, ok l -> quiet id i l) -> sys_inv s -> fortunate (s_world s') -> sys_clean s id ->
  held_by s i id -> held_by s' i id.
Proof.
  intros Hst Hok. induction Hst as [s|s l s1 s2 Hstep Hl Hst IH]; intros Hs Hf Hcl Hh; [done|]. destruct (step_inv s l s1 Hs Hstep) as [G1 H1].
  destruct (steps_inv _ _ _ Hst H1) as [G2 _]. pose proof (fortunate_before _ _ G2 Hf) as Hf1. apply IH; [done|done| |].
  - destruct (step_content s l s1 id Hs Hstep Hf1) as [Hc _]; [apply (Hok l Hl)|by apply Hc].
  - eapply step_held; [exact Hs|exact Hstep|done|by apply Hok|done|done].
Qed.

Lemma init_inv : sys_inv init.
Proof.
  intros _. split; [|intros i m Hm; cbn in Hm; by rewrite lookup_empty in Hm]. split; intros id _ [b Hb]; cbn in Hb; by rewrite lookup_empty in Hb.
Qed.

Lemma WriteContent_id d prefix comp m id m' : WriteContent d prefix comp m = (Ok id, m') -> id_ok id /\ named id d.
Proof.
  unfold WriteContent. intros H. do 2 (apply bind_Ok in H as (? & ? & _ & H)). destruct (negb _); [done|]. apply bind_Ok in H as (h & m3 & Hh & H).
  rewrite on_storage_eq in Hh. injection Hh as <- _. apply bind_Ok in H as (jj & m4 & Hx & H). unfold lift_id in Hx.
  destruct (IDFromHash prefix (HashFunc d)) as [j|e] eqn:E; [|done]. injection Hx as <- _. apply IDFromHash_named in E.
  apply bind_Ok in H as ([[op bi]|e] & m5 & _ & H); [destruct (negb _); [by injection H as <- _|]|]; apply bind_Ok in H as (? & ? & _ & H); by injection H as <- _.
Qed.

(** ** What always holds *)


(** What was written and flushed is in an index blob of the storage, and no
    manager knows of its deletion. *)
Lemma flushed_in_storage s0 i m0 id d prefix comp m1 s1 m m2 s2 :
  steps anything init s0 -> s_managers s0 !! i = Some m0 -> sys_clean s0 id ->
  slen d + Overhead + pack_bound <= 2 ^ 32 -> 0 <= comp < 2 ^ 32 -> WriteContent d prefix comp (view s0 m0) = (Ok id, m1) ->
  steps (quiet id i) (update s0 i m1) s1 -> s_managers s1 !! i = Some m ->
  wm_writingPacks m = [] -> wm_disableIndexFlushCount m <= 0 -> Flush (view s1 m) = (Ok tt, m2) ->
  steps (keeps id) (update s1 i m2) s2 ->
  sys_inv s2 /\ (fortunate (s_world s2) -> in_storage s2 id /\ sys_clean s2 id /\ d ∈ w_hashed (s_world s2)).
Proof.
  intros Hst0 Hm0 Hcl0 Hsz Hcomp Ew Hst1 Hm Hw Hd Ef Hst2. destruct (steps_inv _ _ _ Hst0 init_inv) as [_ I0].
  assert (step s0 (Called i (CallWrite d prefix comp)) (update s0 i m1)) as S1.
  { replace m1 with (run (CallWrite d prefix comp) (view s0 m0)) by (cbn; by rewrite Ew). by constructor. }
  destruct (step_inv _ _ _ I0 S1) as [G1 I1]. destruct (steps_inv _ _ _ Hst1 I1) as [G2 I2].
  assert (step s1 (Called i CallFlush) (update s1 i m2)) as S2.
  { replace m2 with (run CallFlush (view s1 m)) by (cbn; by rewrite Ef). by constructor. }
  destruct (step_inv _ _ _ I2 S2) as [G3 I3]. destruct (steps_inv _ _ _ Hst2 I3) as [G4 I4]. split; [exact I4|]. intros Hf2.
  pose proof (fortunate_before _ _ G4 Hf2) as Hf2'. pose proof (fortunate_before _ _ G3 Hf2') as Hf1. pose proof (fortunate_before _ _ G2 Hf1) as Hf1'.
  assert (d ∈ w_hashed (wm_world m1) /\ held m1 id) as [Hh Hheld].
  { pose proof (WriteContent_safe (F := others (s_managers s0) i) (D := fun _ => False) (view s0 m0) d prefix comp (fun _ => True) Hsz Hcomp) as [_ Hs].
    { intros Hf0. destruct (I0 Hf0) as [_ Hall]. split; [by apply Hall|done]. }
    rewrite Ew in Hs. destruct (Hs Hf1') as (_ & _ & HQ). destruct (HQ id eq_refl) as (_ & _ & ? & Hhd). auto. }
  destruct (step_content _ _ _ id I0 S1 Hf1' I) as [Hcl1 _]. destruct (steps_content _ _ _ id Hst1 (fun l H => proj1 H) I1 Hf1) as [Hcl2 _].
  destruct (step_content _ _ _ id I2 S2 Hf2' I) as [Hcl3 _]. destruct (steps_content _ _ _ id Hst2 (fun l H => H) I3 Hf2) as [Hcl4 Hin4].
  split_and!; [|by auto|eapply grows_hashed; [|exact Hh]; etrans; [exact G2|]; by etrans]. apply Hin4.
  assert (held_by s1 i id) as Hh1.
  { eapply steps_held; [exact Hst1|done|done|done|by auto|]. exists m1. split; [cbn; by rewrite lookup_insert_eq|]. unfold view. cbn. by rewrite with_world_id. }
  destruct (step_held _ _ _ i id I2 S2 Hf2' ltac:(by split) ltac:(by auto) Hh1) as (m2' & Hm2' & Hh2). cbn in Hm2'. rewrite lookup_insert_eq in Hm2'.
  injection Hm2' as <-. unfold view in Hh2. cbn in Hh2. rewrite with_world_id in Hh2.
  destruct Hh2 as (it & [Hl|Hix] & Ec); [|by exists it]. exfalso. by eapply (Flush_leaves (view s1 m) m2).
Qed.

(** C9.  A content no deletion of which is known, that was written and then
    flushed by a [Flush] that reported success while no pack was being uploaded
    and the flushing of indexes was not disabled, is durable: however managers were
    opened, crashed (the writer only after the flush) and wrote, uploaded, flushed,
    read, refreshed, rewrote, undeleted and deleted contents (not this one) before,
    in between and afterwards, a manager opened on the storage reads exactly the
    bytes that were written, or the read fails with an error that does not say that
    the content or its pack is missing; and it does not fail when the storage
    answers and no refresh of the index is due.  The history is [fortunate], the
    index blobs were not compacted and no index was recovered from packs, and the
    index cache is not loaded permissively. *)
Theorem flushed_content_lasts s0 i m0 id d prefix comp m1 s1 m m2 s2 m3 w3 :
  steps anything init s0 -> s_managers s0 !! i = Some m0 -> sys_clean s0 id ->
  slen d + Overhead + pack_bound <= 2 ^ 32 -> 0 <= comp < 2 ^ 32 -> WriteContent d prefix comp (view s0 m0) = (Ok id, m1) ->
  steps (quiet id i) (update s0 i m1) s1 -> s_managers s1 !! i = Some m ->
  wm_writingPacks m = [] -> wm_disableIndexFlushCount m <= 0 -> Flush (view s1 m) = (Ok tt, m2) ->
  steps (keeps id) (update s1 i m2) s2 -> open_manager (s_world s2) = (Ok m3, w3) ->
  permissiveCacheLoading = false -> no_compactions w3 -> fortunate (wm_world (GetContent id m3).2) ->
  ((exists m4, GetContent id m3 = (Ok d, m4)) \/ exists e m4, GetContent id m3 = (Err e, m4) /\ e <> ErrContentNotFound /\ e <> ErrBlobNotFound)
  /\ (refresh_due m3 = false -> (forall n, (w_tick w3 <= n <= S (w_tick w3))%nat -> tn_read (turn_at n) = true) ->
      exists m4, GetContent id m3 = (Ok d, m4)).
Proof.
  intros Hst0 Hm0 Hcl0 Hsz Hcomp Ew Hst1 Hm Hw Hd Ef Hst2 Eo Hp Hno Hf. destruct (WriteContent_id _ _ _ _ _ _ Ew) as [Hid Hn].
  destruct (flushed_in_storage s0 i m0 id d prefix comp m1 s1 m m2 s2) as [I4 Hflushed]; [done..|].
  destruct (open_manager_ok (fun _ => False) (s_world s2) _ _ (fun Hf => proj1 (I4 Hf)) Eo) as [Ht Hop]. destruct (Hop m3 eq_refl) as [Ew3 Hop'].
  assert (assumed (fun _ => False) m3 (fun _ => True)) as Ha.
  { intros Hf3. rewrite Ew3 in Hf3. destruct (Hop' Hf3) as (? & _); [by intros|]. done. }
  destruct (call_safe (fun _ => False) (CallRead id) m3 (fun _ => True) Hid Ha) as [G5 _]. cbn [run] in G5. rewrite Ew3 in G5.
  pose proof (fortunate_before _ _ G5 Hf) as Hf3. destruct (Hflushed (fortunate_before _ _ (proj1 Ht) Hf3)) as ((it & Hix & Ec) & Hclean & Hh).
  destruct (Hop' Hf3) as (Hi3 & Hup & Hloc & _); [by intros|].
  rewrite <- Ew3. eapply (read_flushed (fun _ => False) m3 id it); [done|done|done|done|by rewrite Ew3|done| |done| |done|done|].
  - rewrite Ew3. by apply (tame_in_index _ _ _ Ht).
  - intros jt Hj. apply Hclean. left. rewrite Ew3 in Hj. by apply (tame_in_index _ _ _ Ht) in Hj.
  - rewrite Ew3. eapply grows_hashed; [apply Ht|exact Hh].
Qed.
End System.
