(* ===== verification/ContentWitness.v ===== *)
(** * A history of the content manager

    A storage, a clock and a stand-in for the cryptography, on which the
    theorems about several managers are applied: a manager is opened on an empty
    storage, writes a content and flushes it, and a second one reads it. *)

From S2P Require Import Prelude GoStrings GoText GoTime Db IndexID IndexTable IndexV1 IndexV2 IndexBuild Gather PackFormat ContentStore IndexBlobV0 CommittedIndex ContentManager ContentSpec ContentInv ContentStoreFacts CommittedFacts ContentFacts ContentSessions ContentPacks ContentFlush ContentWrite ContentRead ContentSystem.
Open Scope go_scope.

(** ** The surroundings *)

Definition sum_crypter : Crypter := {|
  HashFunc d := PutUint64 (foldl (fun x b => x * 31 + b) (slen d) d) ++ PutUint64 (slen d);
  Encrypt nonce d iv := Some (7 :: d);
  Decrypt e iv := match e with 7 :: d => Some d | _ => None end;
  Overhead := 1
|}.

#[local] Existing Instance sum_crypter.

#[local] Instance sum_laws : CrypterLaws.
Proof.
  split; cbn [HashFunc Encrypt Decrypt sum_crypter].
  - by intros _ d iv e [= <-].
  - intros _ d iv e [= <-]. unfold slen. cbn [length]. lia.
  - intros d. rewrite slen_app. change (16 <= 8 + 8 <= MaxHashSize). unfold MaxHashSize. lia.
  - intros d. unfold PutUint64, PutUint32. repeat (apply Forall_app; split); repeat apply Forall_cons_2; try apply Forall_nil_2; unfold byte; lia || (apply Z.mod_pos_bound; lia).
Qed.

(** A second passes at every turn, everything works, and random bytes differ. *)
Definition calm (n : nat) : turn :=
  mkTurn ((1788350400 + Z.of_nat n) * Second) Executed true true (Some (fun i => Z.of_nat (n * 7 + i))) false.

#[local] Instance calm_environment : Environment := calm.
#[local] Instance some_parameters : Parameters := {| mp_Version := 3; mp_IndexVersion := 2; mp_MaxPackSize := 20000 |}.
#[local] Instance some_config : Config := {| permissiveCacheLoading := false; minPreambleLength := 32; maxPreambleLength := 32; paddingUnit := 4096;
  RepositoryFormatBytes := [1; 2; 3]; sessionUser := "u"; sessionHost := "h"; clockSkewVariable := None |}.
#[local] Instance no_compressors : Compressors := fun _ => None.

#[local] Instance some_laws : ContentLaws.
Proof.
  refine {| hash_length := 16 |}; try done.
  intros nonce d iv e [= <-]. unfold slen. cbn [length Overhead sum_crypter]. lia.
Defined.

(** ** Deciding the assumptions *)

Definition fortunate_b (w : world) : bool :=
  bool_decide (NoDup (w_drawn w))
  && forallb (fun a => forallb (fun b => implb (bool_decide (HashFunc a = HashFunc b)) (bool_decide (a = b))) (w_hashed w)) (w_hashed w)
  && forallb (fun d => slen d <? 2 ^ 32) (w_hashed w ++ w_combined w)
  && (Z.of_nat (w_tick w) <? 2 ^ 20).

Lemma fortunate_b_ok w : fortunate_b w = true -> fortunate w.
Proof.
  unfold fortunate_b. rewrite !andb_true_iff. intros [[[Hd Hh] Hs] Ht]. split.
  - by apply bool_decide_eq_true in Hd.
  - intros a b Ha Hb E. rewrite forallb_forall in Hh. specialize (Hh a). rewrite forallb_forall in Hh.
    specialize (Hh ltac:(by apply list_elem_of_In) b ltac:(by apply list_elem_of_In)). rewrite (bool_decide_eq_true_2 _ E) in Hh. by apply bool_decide_eq_true in Hh.
  - rewrite forallb_forall in Hs. apply Forall_forall. intros d Hd'. apply Z.ltb_lt, Hs. by apply list_elem_of_In.
  - apply Z.ltb_lt in Ht. exists (1788350400 + Z.of_nat (w_tick w)). split_and!; [|lia|lia]. intros n Hn. change (tn_now (turn_at n)) with ((1788350400 + Z.of_nat n) * Second).
    rewrite Z.div_mul by done. lia.
Qed.

Definition no_compactions_b (w : world) : bool := forallb (fun p => negb (HasPrefix p.1 V0CompactionLogBlobPrefix)) (map_to_list (w_blobs w)).

Lemma no_compactions_b_ok w : no_compactions_b w = true -> no_compactions w.
Proof.
  unfold no_compactions_b. rewrite forallb_forall. intros H id Hp. destruct (w_blobs w !! id) as [b|] eqn:E; [|done].
  specialize (H (id, b)). cbn [fst] in H. rewrite Hp in H. exfalso. enough (negb true = true) by done. apply H. by apply list_elem_of_In, elem_of_map_to_list.
Qed.

(** ** A manager writes and flushes, another reads *)

Definition ex_data : list Z := [10; 20; 30; 40; 50].

Definition ex_opened (m : WriteManager) (w : world) : sys := mkSys w {[0%nat := m]}.

(** The history, and that what the theorems ask for holds in it. *)
Definition ex_history : bool :=
  match open_manager (s_world init) with
  | (Ok m0, w0) =>
    match WriteContent ex_data "" 0 (view (ex_opened m0 w0) m0) with
    | (Ok id, m1) =>
      let s1 := update (ex_opened m0 w0) 0 m1 in
      fortunate_b w0 && bool_decide (wm_writingPacks m1 = []) && (wm_disableIndexFlushCount m1 <=? 0)
      && match Flush (view s1 m1) with
         | (Ok _, m2) =>
           let s2 := update s1 0 m2 in
           match open_manager (s_world s2) with
           | (Ok m3, w3) => no_compactions_b w3 && fortunate_b (s_world s2) && fortunate_b (wm_world (GetContent id m3).2) && negb (refresh_due m3)
           | _ => false
           end
         | _ => false
         end
    | _ => false
    end
  | _ => false
  end.

Lemma init_clean j : sys_clean init j.
Proof.
  intros it [(id & d & l & (_ & b & Hb & _) & _)|(i & m & Hm & _)]; cbn in *; [by rewrite lookup_empty in Hb|by rewrite lookup_empty in Hm].
Qed.

Lemma ex_history_ok : exists m0 w0 id m1 m2 m3 w3, let s0 := ex_opened m0 w0 in let s1 := update s0 0 m1 in let s2 := update s1 0 m2 in
  steps anything init s0 /\ steps anything init s2 /\ (forall j, sys_clean s0 j) /\ WriteContent ex_data "" 0 (view s0 m0) = (Ok id, m1) /\ wm_writingPacks m1 = [] /\ wm_disableIndexFlushCount m1 <= 0
  /\ Flush (view s1 m1) = (Ok tt, m2) /\ open_manager (s_world s2) = (Ok m3, w3) /\ no_compactions w3 /\ fortunate (s_world s2)
  /\ fortunate (wm_world (GetContent id m3).2) /\ refresh_due m3 = false.
Proof.
  assert (ex_history = true) as H by (by vm_compute). unfold ex_history in H.
  destruct (open_manager (s_world init)) as [[m0|] w0] eqn:E0; [|done].
  destruct (WriteContent ex_data "" 0 _) as [[id|] m1] eqn:E1; [|done]. cbn zeta in H. apply andb_true_iff in H as [[[Hf0 Hw%bool_decide_eq_true]%andb_true_iff Hc%Z.leb_le]%andb_true_iff H].
  destruct (Flush _) as [[[]|] m2] eqn:E2; [|done]. destruct (open_manager (s_world (update _ _ m2))) as [[m3|] w3] eqn:E3; [|done].
  rewrite !andb_true_iff in H. destruct H as [[[Hn Hf] Hg] Hr]. exists m0, w0, id, m1, m2, m3, w3. cbn zeta.
  assert (step init (Opened 0) (ex_opened m0 w0)) as Hs by (by apply (step_open init 0 (Ok m0) w0)).
  assert (step (ex_opened m0 w0) (Called 0 (CallWrite ex_data "" 0)) (update (ex_opened m0 w0) 0 m1)) as Hs1.
  { replace m1 with (run (CallWrite ex_data "" 0) (view (ex_opened m0 w0) m0)) by (cbn [run]; by rewrite E1). by constructor. }
  assert (step (update (ex_opened m0 w0) 0 m1) (Called 0 CallFlush) (update (update (ex_opened m0 w0) 0 m1) 0 m2)) as Hs2.
  { replace m2 with (run CallFlush (view (update (ex_opened m0 w0) 0 m1) m1)) by (cbn [run]; by rewrite E2). by constructor. }
  split_and!; try done.
  - by eapply steps_next; [exact Hs|done|apply steps_refl].
  - by eapply steps_next; [exact Hs|done|]; eapply steps_next; [exact Hs1|done|]; eapply steps_next; [exact Hs2|done|apply steps_refl].
  - intros j. assert (steps (keeps j) init (ex_opened m0 w0)) as Hst by (by eapply steps_next; [exact Hs|done|apply steps_refl]).
    destruct (steps_content _ _ _ j Hst (fun l Hl => Hl) init_inv (fortunate_b_ok _ Hf0)) as [Hcl _]. apply Hcl, init_clean.
  - by apply no_compactions_b_ok.
  - by apply fortunate_b_ok.
  - by apply fortunate_b_ok.
  - by apply negb_true_iff.
Qed.

(** ** The theorems applied *)


Lemma flushed_content_lasts_witness : exists s id m3 w3 m4,
  steps anything init s /\ open_manager (s_world s) = (Ok m3, w3) /\ GetContent id m3 = (Ok ex_data, m4).
Proof.
  destruct ex_history_ok as (m0 & w0 & id & m1 & m2 & m3 & w3 & Hst & Hst2 & Hcl & Ew & Hw & Hc & Ef & Eo & Hno & Hf & Hg & Hr).
  set (s0 := ex_opened m0 w0) in *. set (s1 := update s0 0 m1) in *. set (s2 := update s1 0 m2) in *.
  destruct (flushed_content_lasts s0 0 m0 id ex_data "" 0 m1 s1 m1 m2 s2 m3 w3) as [_ Hok]; try done; [constructor..|].
  destruct (Hok Hr) as (m4 & E4); [done|]. by exists s2, id, m3, w3, m4.
Defined.

(** * Where the content manager's promise ends

    Histories in which an upload fails at a certain turn, run on the surroundings
    of [ContentWitness]. *)

#[local] Existing Instance sum_crypter.
#[local] Existing Instance no_compressors.
#[local] Existing Instance some_config.

(** The uploads of some turns fail. *)
Definition stormy (bad : nat -> bool) (n : nat) : turn :=
  let t := calm n in mkTurn (tn_now t) (if bad n then NotExecuted else Executed) true true (tn_rand t) false.

(** A pack is full when it has 50 bytes. *)
#[local] Instance small_packs : Parameters := {| mp_Version := 3; mp_IndexVersion := 2; mp_MaxPackSize := 50 |}.

Definition empty_storage : world := mkWorld ∅ 0 [] [] [].

Definition big_data : list Z := seqZ 0 40.

(** ** A pack that fails while a flush waits *)

(** The history as a computation: a content is written; the pack is full with a
    second one and is being uploaded when [Flush] starts and waits; the upload
    fails, and [Flush] goes on. *)
Definition waiting_flush (bad : nat -> bool) : bool :=
  let _ : Environment := stormy bad in
  match open_manager empty_storage with
  | (Ok m0, _) =>
    match WriteContent ex_data "" 0 m0 with
    | (Ok id, m1) =>
      match add_locked (mkID 0 (HashFunc big_data)) (slen big_data) (0, 7 :: big_data) false (-1) m1 with
      | (Ok (Some p), m2) =>
        match flush_begin m2 with
        | (Ok _, m3) =>
          match writePackAndAddToIndex p m3 with
          | (Err _, m4) =>
            bool_decide (wm_writingPacks m4 = [])
            && match flush_finish m4 with
               | (Ok _, m5) => match GetContent id m5 with (Err ErrContentNotFound, _) => true | _ => false end
               | _ => false
               end
          | _ => false
          end
        | _ => false
        end
      | _ => false
      end
    | _ => false
    end
  | _ => false
  end.

(** C37.  [Flush] can succeed without committing a content that was written before
    it started: when the pack of that content is being uploaded by another
    goroutine and the upload fails while [Flush] waits for it, the pack stays among
    the failed ones, [Flush] writes the index without it and returns no error, and
    even the manager itself answers that there is no such content. *)
Theorem flush_misses_failing_pack : exists bad m0 w0 id m1 other p m2 m3 e m4 m5 m6, let _ : Environment := stormy bad in
  open_manager empty_storage = (Ok m0, w0) /\ WriteContent ex_data "" 0 m0 = (Ok id, m1)
  /\ add_locked other (slen big_data) (0, 7 :: big_data) false (-1) m1 = (Ok (Some p), m2)
  /\ flush_begin m2 = (Ok tt, m3) /\ writePackAndAddToIndex p m3 = (Err e, m4) /\ wm_writingPacks m4 = []
  /\ flush_finish m4 = (Ok tt, m5) /\ GetContent id m5 = (Err ErrContentNotFound, m6).
Proof.
  set (bad := fun n => (n =? 29)%nat). assert (waiting_flush bad = true) as H by (by vm_compute). exists bad. unfold waiting_flush in H. cbv zeta in H |- *.
  destruct (open_manager empty_storage) as [[m0|] w0] eqn:E0; [|done]. destruct (WriteContent ex_data "" 0 m0) as [[id|] m1] eqn:E1; [|done].
  destruct (add_locked _ _ _ _ _ m1) as [[[p|]|] m2] eqn:E2; [|done..]. destruct (flush_begin m2) as [[[]|] m3] eqn:E3; [|done].
  destruct (writePackAndAddToIndex p m3) as [[|e] m4] eqn:E4; [done|]. apply andb_true_iff in H as [Hw%bool_decide_eq_true H].
  destruct (flush_finish m4) as [[[]|] m5] eqn:E5; [|done]. destruct (GetContent id m5) as [[|[]] m6] eqn:E6; try done.
  by exists m0, w0, id, m1, (mkID 0 (HashFunc big_data)), p, m2, m3, e, m4, m5, m6.
Qed.

(** ** A session without a marker *)

Definition has_blob (prefix : string) (w : world) : bool := existsb (fun p => HasPrefix p.1 prefix) (map_to_list (w_blobs w)).

(** The marker cannot be written at first; then a pack is written. *)
Definition unmarked_session (bad : nat -> bool) : bool :=
  let _ : Environment := stormy bad in
  match open_manager empty_storage with
  | (Ok m0, _) =>
    match WriteContent ex_data "" 0 m0 with
    | (Err _, m1) =>
      match WriteContent big_data "" 0 m1 with
      | (Ok id, m2) => has_blob PackBlobIDPrefixRegular (wm_world m2) && negb (has_blob BlobIDPrefixSession (wm_world m2)) && negb (has_blob V0IndexBlobPrefix (wm_world m2))
      | _ => false
      end
    | _ => false
    end
  | _ => false
  end.

(** After a failure to write the session marker the manager goes on in a
    session that has none: the session identifier is kept, and a later write
    uploads a pack that neither a session marker nor an index blob names, so that
    nothing in the storage shields it while the index is not flushed. *)
Theorem session_without_marker : exists bad m0 w0 e m1 id m2, let _ : Environment := stormy bad in
  open_manager empty_storage = (Ok m0, w0) /\ WriteContent ex_data "" 0 m0 = (Err e, m1) /\ WriteContent big_data "" 0 m1 = (Ok id, m2)
  /\ has_blob PackBlobIDPrefixRegular (wm_world m2) = true /\ has_blob BlobIDPrefixSession (wm_world m2) = false /\ has_blob V0IndexBlobPrefix (wm_world m2) = false.
Proof.
  set (bad := fun n => (n =? 15)%nat). assert (unmarked_session bad = true) as H by (by vm_compute). exists bad. unfold unmarked_session in H. cbv zeta in H |- *.
  destruct (open_manager empty_storage) as [[m0|] w0] eqn:E0; [|done]. destruct (WriteContent ex_data "" 0 m0) as [[|e] m1] eqn:E1; [done|].
  destruct (WriteContent big_data "" 0 m1) as [[id|] m2] eqn:E2; [|done]. rewrite !andb_true_iff, !negb_true_iff in H. destruct H as [[Hp Hm] Hi].
  by exists m0, w0, e, m1, id, m2.
Qed.

(** ** A deletion that only removes a pending copy *)

Definition half_deleted : bool :=
  let _ : Environment := calm in
  match open_manager empty_storage with
  | (Ok m0, _) =>
    match WriteContent ex_data "" 0 m0 with
    | (Ok id, m1) =>
      match Flush m1 with
      | (Ok _, m2) =>
        match RewriteContent id m2 with
        | (Ok _, m3) =>
          match DeleteContent id m3 with
          | (Ok _, m4) => match ContentInfo id m4 with (Ok i, _) => negb (Deleted i) | _ => false end
          | _ => false
          end
        | _ => false
        end
      | _ => false
      end
    | _ => false
    end
  | _ => false
  end.

(** Deleting a committed content of which a rewritten copy is pending removes
    only the copy: [DeleteContent] reports success and the content is still live. *)
Theorem delete_only_undoes_rewrite : exists m0 w0 id m1 m2 m3 m4 i m5, let _ : Environment := calm in
  open_manager empty_storage = (Ok m0, w0) /\ WriteContent ex_data "" 0 m0 = (Ok id, m1) /\ Flush m1 = (Ok tt, m2)
  /\ RewriteContent id m2 = (Ok tt, m3) /\ DeleteContent id m3 = (Ok tt, m4) /\ ContentInfo id m4 = (Ok i, m5) /\ Deleted i = false.
Proof.
  assert (half_deleted = true) as H by (by vm_compute). unfold half_deleted in H. cbv zeta in H |- *.
  destruct (open_manager empty_storage) as [[m0|] w0] eqn:E0; [|done]. destruct (WriteContent ex_data "" 0 m0) as [[id|] m1] eqn:E1; [|done].
  destruct (Flush m1) as [[[]|] m2] eqn:E2; [|done]. destruct (RewriteContent id m2) as [[[]|] m3] eqn:E3; [|done].
  destruct (DeleteContent id m3) as [[[]|] m4] eqn:E4; [|done]. destruct (ContentInfo id m4) as [[i|] m5] eqn:E5; [|done]. apply negb_true_iff in H.
  by exists m0, w0, id, m1, m2, m3, m4, i, m5.
Qed.
