(* ===== verification/EpochUtils.v ===== *)
(** * Epochs of index blobs: names, ranges and sets

    [internal/epoch]: [epoch_utils.go], [epoch_range.go], [epoch_advance.go], the
    parameters and the snapshot of [epoch_manager.go], and
    [internal/completeset].  An epoch is a number in the names of index blobs;
    this file reads the names, groups blobs by epoch, finds the sets that are
    complete and the range checkpoints that reach furthest. *)

From S2P Require Import Prelude GoStrings GoText GoTime Db IndexID IndexTable IndexBuild PackFormat ContentStore.
From Stdlib Require Import Ascii.
Open Scope go_scope.

(** ** Names *)

Definition EpochMarkerIndexBlobPrefix : string := "xe".
Definition UncompactedIndexBlobPrefix : string := "xn".
Definition SingleEpochCompactionBlobPrefix : string := "xs".
Definition RangeCheckpointIndexBlobPrefix : string := "xr".
Definition DeletionWatermarkBlobPrefix : string := "xw".

Definition FirstEpoch : Z := 0.
Definition LatestEpoch : Z := -1.
Definition numUnsettledEpochs : Z := 2.

Definition UncompactedEpochBlobPrefix (epoch : Z) : string := UncompactedIndexBlobPrefix +:+ (FormatInt epoch +:+ "_").
Definition compactedEpochBlobPrefix (epoch : Z) : string := SingleEpochCompactionBlobPrefix +:+ (FormatInt epoch +:+ "_").
Definition rangeCheckpointBlobPrefix (epoch1 epoch2 : Z) : string :=
  RangeCheckpointIndexBlobPrefix +:+ (FormatInt epoch1 +:+ ("_" +:+ (FormatInt epoch2 +:+ "_"))).

(** The bytes from the first digit on: [unicode.IsDigit] of a byte. *)
Fixpoint trim_to_digit (s : string) : string :=
  match s with
  | EmptyString => EmptyString
  | String c t => if isDigit c then s else trim_to_digit t
  end.

Definition epochNumberFromBlobID (blobID : string) : option Z :=
  ParseInt (trim_to_digit (fst (fst (Cut blobID "_"%char)))).

Definition epochRangeFromBlobID (blobID : string) : option (Z * Z) :=
  match Split blobID "_"%char with
  | first :: second :: _ :: _ => n1 ← ParseInt (trim_to_digit first); n2 ← ParseInt second; Some (n1, n2)
  | _ => None
  end.

Definition deletionWatermarkFromBlobID (blobID : string) : option Z :=
  unixSeconds ← ParseInt (TrimPrefix blobID DeletionWatermarkBlobPrefix); Some (unixSeconds * Second).

Definition append_at {K} `{Countable K} {A} (m : gmap K (list A)) (k : K) (x : A) : gmap K (list A) :=
  <[k := default [] (m !! k) ++ [x]]> m.

Definition groupByEpochNumber (bms : list Metadata) : gmap Z (list Metadata) :=
  foldl (fun result bm => match epochNumberFromBlobID (md_BlobID bm) with
                          | Some n => append_at result n bm
                          | None => result
                          end) ∅ bms.

Definition groupByEpochRanges (bms : list Metadata) : gmap Z (gmap Z (list Metadata)) :=
  foldl (fun result bm => match epochRangeFromBlobID (md_BlobID bm) with
                          | Some (n1, n2) => <[n1 := append_at (default ∅ (result !! n1)) n2 bm]> result
                          | None => result
                          end) ∅ bms.

(** ** Complete sets, [internal/completeset] *)

(** The set and the count in a name, <any>-s<set>-c<count>. *)
Definition set_of_name (id : string) : option (string * Z) :=
  match Split id "-"%char with
  | _ :: s :: c :: _ =>
      if HasPrefix s "s" && HasPrefix c "c" then count ← ParseInt (sdrop 1 c); Some (s, count) else None
  | _ => None
  end.

Definition findAll_step (st : gmap string (list Metadata) * list (list Metadata)) (bm : Metadata)
    : gmap string (list Metadata) * list (list Metadata) :=
  let '(sets, complete) := st in
  match set_of_name (md_BlobID bm) with
  | None => (sets, complete ++ [[bm]])
  | Some (setID, count) =>
      let members := default [] (sets !! setID) ++ [bm] in
      (<[setID := members]> sets, if slen members =? count then complete ++ [members] else complete)
  end.

Definition FindAll (bms : list Metadata) : list (list Metadata) := (foldl findAll_step (∅, []) bms).2.

Definition FindFirst (bms : list Metadata) : option (list Metadata) := head (FindAll bms).

(** ** Ranges *)

Record RangeMetadata := mkRange { MinEpoch : Z; MaxEpoch : Z; Blobs : list Metadata }.

(** [findLongestRangeCheckpointStartingAt], with its memo.  A turn of the
    recursion starts at an epoch after the one before it. *)
Fixpoint findLongestRangeCheckpointStartingAt (fuel : nat) (byMin : gmap Z (list RangeMetadata)) (startEpoch : Z)
    (memo : gmap Z (list RangeMetadata)) : list RangeMetadata * gmap Z (list RangeMetadata) :=
  match memo !! startEpoch with
  | Some l => (l, memo)
  | None =>
      match fuel with
      | O => ([], memo)
      | S fuel =>
          let '(_, longestMetadata, memo) :=
            foldl (fun st cp =>
              let '(longest, longestMetadata, memo) := st in
              let '(rest, memo) := findLongestRangeCheckpointStartingAt fuel byMin (MaxEpoch cp + 1) memo in
              let combined := cp :: rest in
              let m := MaxEpoch (List.last combined cp) in
              if (longest <? m) || ((m =? longest) && (slen combined <? slen longestMetadata))
              then (m, combined, memo) else (longest, longestMetadata, memo))
              (0, [], memo) (default [] (byMin !! startEpoch)) in
          (longestMetadata, <[startEpoch := longestMetadata]> memo)
      end
  end.

Definition findLongestRangeCheckpoint (ranges : list RangeMetadata) : list RangeMetadata :=
  let byMin := foldl (fun m r => append_at m (MinEpoch r) r) ∅ ranges in
  (findLongestRangeCheckpointStartingAt (S (length ranges)) byMin 0 ∅).1.

(** ** Parameters *)

Record EpochParameters := mkEpochParameters {
  Enabled : bool;
  EpochRefreshFrequency : Z;
  FullCheckpointFrequency : Z;
  CleanupSafetyMargin : Z;
  MinEpochDuration : Z;
  EpochAdvanceOnCountThreshold : Z;
  EpochAdvanceOnTotalSizeBytesThreshold : Z;
  DeleteParallelism : Z
}.

Inductive validation_error :=
| MinEpochDurationTooLow | RefreshTooLong | BadCheckpointFrequency | BadSafetyMargin | CountTooLow | SizeTooLow.

Definition Validate (p : EpochParameters) : result validation_error unit :=
  if negb (Enabled p) then Ok tt
  else if MinEpochDuration p <? 10 * Minute then Err MinEpochDurationTooLow
  else if MinEpochDuration p <? wrap64 (EpochRefreshFrequency p * 3) then Err RefreshTooLong
  else if FullCheckpointFrequency p <=? 0 then Err BadCheckpointFrequency
  else if CleanupSafetyMargin p <? wrap64 (EpochRefreshFrequency p * 3) then Err BadSafetyMargin
  else if EpochAdvanceOnCountThreshold p <? 10 then Err CountTooLow
  else if EpochAdvanceOnTotalSizeBytesThreshold p <? 2 ^ 20 then Err SizeTooLow
  else Ok tt.

Definition DefaultParameters : EpochParameters := {|
  Enabled := true;
  EpochRefreshFrequency := 20 * Minute;
  FullCheckpointFrequency := 7;
  CleanupSafetyMargin := 4 * Hour;
  MinEpochDuration := 24 * Hour;
  EpochAdvanceOnCountThreshold := 20;
  EpochAdvanceOnTotalSizeBytesThreshold := 10 * 2 ^ 20;
  DeleteParallelism := 4
|}.

(** [shouldAdvance] *)
Definition shouldAdvance (bms : list Metadata) (minEpochDuration countThreshold totalSizeBytesThreshold : Z) : bool :=
  match bms with
  | [] => false
  | bm0 :: _ =>
      let '(minTime, maxTime, totalSize) :=
        foldl (fun st bm =>
          let '(minTime, maxTime, totalSize) := st in
          (if Before (md_Timestamp bm) minTime then md_Timestamp bm else minTime,
           if After (md_Timestamp bm) maxTime then md_Timestamp bm else maxTime,
           wrap64 (totalSize + md_Length bm)))
          (md_Timestamp bm0, md_Timestamp bm0, 0) bms in
      if Sub maxTime minTime <? minEpochDuration then false
      else if countThreshold <=? slen bms then true
      else totalSizeBytesThreshold <=? totalSize
  end.

(** [blob.MaxTimestamp] *)
Definition MaxTimestamp (mds : list Metadata) : Z :=
  foldl (fun maxTime md => if After (md_Timestamp md) maxTime then md_Timestamp md else maxTime) zero_time mds.

(** ** Snapshots *)

Record CurrentSnapshot := mkSnapshot {
  WriteEpoch : Z;
  UncompactedEpochSets : gmap Z (list Metadata);
  LongestRangeCheckpointSets : list RangeMetadata;
  SingleEpochCompactionSets : gmap Z (list Metadata);
  EpochStartTime : gmap Z Z;
  DeletionWatermark : Z;
  ValidUntil : Z;
  EpochMarkerBlobs : list Metadata;
  DeletionWatermarkBlobs : list Metadata
}.

(** [CurrentSnapshot{}] *)
Definition no_snapshot : CurrentSnapshot := mkSnapshot 0 ∅ [] ∅ ∅ zero_time zero_time [] [].

Definition lastSettledEpochNumber (cs : CurrentSnapshot) : Z := WriteEpoch cs - numUnsettledEpochs.

Definition isSettledEpochNumber (cs : CurrentSnapshot) (epoch : Z) : bool := epoch <=? lastSettledEpochNumber cs.

Record closedIntRange := mkClosedRange { lo : Z; hi : Z }.

Definition range_length (r : closedIntRange) : Z := if hi r <? lo r then 0 else (hi r - lo r + 1) `mod` 2 ^ 64.

Definition isEmpty (r : closedIntRange) : bool := range_length r =? 0.

Definition getRangeCompactedRange (cs : CurrentSnapshot) : closedIntRange :=
  match LongestRangeCheckpointSets cs with
  | [] => mkClosedRange 0 (-1)
  | r :: rs => mkClosedRange (MinEpoch r) (MaxEpoch (List.last (r :: rs) r))
  end.

(** The end of the run of consecutive numbers that starts with [prev]. *)
Fixpoint last_consecutive (prev : Z) (l : list Z) : Z :=
  match l with
  | [] => prev
  | v :: l => if v =? prev + 1 then last_consecutive v l else prev
  end.

Definition getOldestUncompactedAfterEpoch (compactedEpochs : list Z) (candidate : Z) : Z :=
  match merge_sort Z.le (filter (fun v => candidate <= v) compactedEpochs) with
  | [] => candidate
  | s0 :: s => if candidate <? s0 then candidate else last_consecutive s0 s + 1
  end.

Definition oldestUncompactedEpoch (cs : CurrentSnapshot) : option Z :=
  let rangeCompacted := getRangeCompactedRange cs in
  let after candidate := Some (getOldestUncompactedAfterEpoch (map_to_list (SingleEpochCompactionSets cs)).*1 candidate) in
  if isEmpty rangeCompacted then after 0
  else if negb (lo rangeCompacted =? 0) then None
  else after (hi rangeCompacted + 1).

Definition getRangeToCompact (cs : CurrentSnapshot) (p : EpochParameters) : option (Z * Z) :=
  let latestSettled := lastSettledEpochNumber cs in
  if latestSettled <? 0 then None
  else
    let firstNonRangeCompacted :=
      match LongestRangeCheckpointSets cs with [] => 0 | r :: rs => MaxEpoch (List.last (r :: rs) r) + 1 end in
    if latestSettled - firstNonRangeCompacted <? FullCheckpointFrequency p then None
    else Some (firstNonRangeCompacted, latestSettled).

(** [blobSetWrittenEarlyEnough] *)
Definition blobSetWrittenEarlyEnough (replacementSet : list Metadata) (maxReplacementTime : Z) : bool :=
  if IsZero (MaxTimestamp replacementSet) then false
  else Before (MaxTimestamp replacementSet) maxReplacementTime.

(** [maxCleanupTime] *)
Definition maxCleanupTime (cs : CurrentSnapshot) : Z :=
  foldl (fun maxTime bm => if After (md_Timestamp bm) maxTime then md_Timestamp bm else maxTime) zero_time
    (concat (map_to_list (UncompactedEpochSets cs)).*2).

Example epoch_names_ex :
  epochNumberFromBlobID "xn12_abc-s1-c2" = Some 12 /\ epochNumberFromBlobID "xe7" = Some 7 /\ epochNumberFromBlobID "xn_5" = None
  /\ epochRangeFromBlobID "xr0_17_aa-s1-c1" = Some (0, 17) /\ epochRangeFromBlobID "xr0_17" = None
  /\ deletionWatermarkFromBlobID "xw1700000000" = Some (1700000000 * Second)
  /\ set_of_name "xs1_ab-sff-c2" = Some ("sff", 2) /\ set_of_name "xs1_ab-sff" = None.
Proof. by vm_compute. Qed.

Example oldest_ex : (getOldestUncompactedAfterEpoch [8; 3; 5; 6] <$> [2; 3; 4; 5; 6; 7; 8; 9]) = [2; 4; 4; 7; 7; 7; 9; 9].
Proof. by vm_compute. Qed.
