(* ===== verification/EpochManager.v ===== *)
(** * The epoch manager

    [internal/epoch/epoch_manager.go] and the index blob manager that rests on
    it, [repo/content/indexblob/index_blob_manager_v1.go].  Several managers, in
    several processes, work on one storage, and each runs several calls at a
    time; what keeps the indexes complete is the order of their storage calls.

    A call is therefore a program: a tree of requests -- to the storage, to the
    clock of its process, to the random source, to the state its manager keeps
    under a lock -- with what follows each answer.  Programs of different threads
    interleave at every request ([EpochSystem]).  A loop that the code repeats
    until it succeeds has fuel; a program out of fuel never answers. *)

From S2P Require Import Prelude GoStrings GoText GoTime Db IndexID IndexTable IndexV1 IndexV2 IndexBuild Gather PackFormat ContentStore IndexBlobV0 EpochUtils.
From Stdlib Require Import Ascii.
Open Scope go_scope.

Inductive epoch_error :=
| EStorage (e : content_error)
| ECancelled
| EParameters
| ENotEnabled
| ERefreshTooSlow
| EVerySlowIndexWrite
| EInvalidCompactedRange
| EInvalidEpoch
| ENoLongerValid
| EIndex (e : index_error)
| EEncryption
| ERandom
| EPanic.

(** ** Programs *)

(** [RAcquire] takes the manager's lock and reads its state, [RRelease] writes
    the state and gives the lock back; [RPeek] and [RInvalidate] do both.  The
    arguments of [RSet] are for the history: which shards a set name is for, and
    how many contents they have. *)
Inductive req : Type -> Type :=
| RNow : req Z
| RParams : req bool
| RCancelled : req bool
| ROrder : req (nat -> nat)
| RNonce : req (option (list Z))
| RSet (outputPrefix : string) (dataShards : list (list Z)) (contents : Z) : req (option (list Z))
| RList (prefix : string) : req (result content_error (list Metadata))
| RGet (id : string) : req (result content_error (list Z))
| RPut (id : string) (data : list Z) : req (result content_error Z)
| RDelete (id : string) : req (result content_error unit)
| RAcquire : req CurrentSnapshot
| RRelease (cs : CurrentSnapshot) : req unit
| RPeek : req CurrentSnapshot
| RInvalidate : req unit.

Inductive prog (A : Type) : Type :=
| Ret (r : result epoch_error A)
| Stuck
| Do {B : Type} (q : req B) (k : B -> prog A).

Arguments Ret {A} r.
Arguments Stuck {A}.
Arguments Do {A B} q k.

Fixpoint pbind {A B} (c : prog A) (f : A -> prog B) : prog B :=
  match c with
  | Ret (Ok a) => f a
  | Ret (Err e) => Ret (Err e)
  | Stuck => Stuck
  | Do q k => Do q (fun b => pbind (k b) f)
  end.

Fixpoint attempt_prog {A} (c : prog A) : prog (result epoch_error A) :=
  match c with
  | Ret r => Ret (Ok r)
  | Stuck => Stuck
  | Do q k => Do q (fun b => attempt_prog (k b))
  end.

Definition pret {A} (a : A) : prog A := Ret (Ok a).
Definition pfail {A} (e : epoch_error) : prog A := Ret (Err e).
Definition ask {B} (q : req B) : prog B := Do q pret.

(** A request that may fail, as a call that may fail. *)
Definition try_ask {B} (q : req (result content_error B)) : prog B :=
  Do q (fun r => match r with Ok b => pret b | Err e => pfail (EStorage e) end).

Notation "'let@' x ':=' c 'in' k" := (pbind c (fun x => k)) (at level 200, x binder, c at level 100, k at level 200) : go_scope.
Notation "c ;;@ k" := (pbind c (fun _ => k)) (at level 100, k at level 200, right associativity) : go_scope.

Fixpoint pcollect {A B} (l : list A) (body : A -> prog B) : prog (list B) :=
  match l with [] => pret [] | x :: l => let@ y := body x in let@ ys := pcollect l body in pret (y :: ys) end.

(** Some order of a list: goroutines run, and maps are iterated, in any. *)
Fixpoint shuffle {A} (n : nat) (f : nat -> nat) (l : list A) : list A :=
  match n with
  | O => l
  | S n =>
      match l !! (f n `mod` length l)%nat with
      | Some x => x :: shuffle n f (delete (f n `mod` length l)%nat l)
      | None => l
      end
  end.

Definition any_order {A} (l : list A) : prog (list A) := let@ f := ask ROrder in pret (shuffle (length l) f l).

(** ** Refreshing *)

Section Manager.
Context {p : EpochParameters}.

Definition getParameters : prog unit := let@ ok := ask RParams in if ok : bool then pret tt else pfail EParameters.

Definition list_blobs (prefix : string) : prog (list Metadata) := try_ask (RList prefix).

Definition set_epochs (cs : CurrentSnapshot) (w : Z) (start : gmap Z Z) (blobs : list Metadata) : CurrentSnapshot :=
  mkSnapshot w (UncompactedEpochSets cs) (LongestRangeCheckpointSets cs) (SingleEpochCompactionSets cs) start
    (DeletionWatermark cs) (ValidUntil cs) blobs (DeletionWatermarkBlobs cs).

Definition loadWriteEpoch : prog (CurrentSnapshot -> CurrentSnapshot) :=
  let@ blobs := list_blobs EpochMarkerIndexBlobPrefix in
  pret (fun cs =>
    let groups := map_to_list (groupByEpochNumber blobs) in
    set_epochs cs (foldl (fun w e => if w <? e.1 then e.1 else w) (WriteEpoch cs) groups)
      (foldl (fun m e => match e.2 with bm :: _ => <[e.1 := md_Timestamp bm]> m | [] => m end) (EpochStartTime cs) groups) blobs).

Definition loadDeletionWatermark : prog (CurrentSnapshot -> CurrentSnapshot) :=
  let@ blobs := list_blobs DeletionWatermarkBlobPrefix in
  pret (fun cs =>
    let w := foldl (fun w b => match deletionWatermarkFromBlobID (md_BlobID b) with
                               | Some t => if After t w then t else w
                               | None => w
                               end) (DeletionWatermark cs) blobs in
    mkSnapshot (WriteEpoch cs) (UncompactedEpochSets cs) (LongestRangeCheckpointSets cs) (SingleEpochCompactionSets cs)
      (EpochStartTime cs) w (ValidUntil cs) (EpochMarkerBlobs cs) blobs).

(** The groups of blobs, in any order, with a complete set. *)
Definition complete_ranges (groups : list (Z * Z * list Metadata)) : list RangeMetadata :=
  omap (fun g => comp ← FindFirst g.2; Some (mkRange g.1.1 g.1.2 comp)) groups.

Definition range_groups (blobs : list Metadata) : list (Z * Z * list Metadata) :=
  e ← map_to_list (groupByEpochRanges blobs); (fun g => (e.1, g.1, g.2)) <$> map_to_list e.2.

Definition loadRangeCheckpoints : prog (CurrentSnapshot -> CurrentSnapshot) :=
  let@ blobs := list_blobs RangeCheckpointIndexBlobPrefix in
  let@ groups := any_order (range_groups blobs) in
  pret (fun cs =>
    mkSnapshot (WriteEpoch cs) (UncompactedEpochSets cs) (findLongestRangeCheckpoint (complete_ranges groups))
      (SingleEpochCompactionSets cs) (EpochStartTime cs) (DeletionWatermark cs) (ValidUntil cs) (EpochMarkerBlobs cs)
      (DeletionWatermarkBlobs cs)).

Definition loadSingleEpochCompactions : prog (CurrentSnapshot -> CurrentSnapshot) :=
  let@ blobs := list_blobs SingleEpochCompactionBlobPrefix in
  pret (fun cs =>
    mkSnapshot (WriteEpoch cs) (UncompactedEpochSets cs) (LongestRangeCheckpointSets cs)
      (omap FindFirst (groupByEpochNumber blobs) ∪ SingleEpochCompactionSets cs) (EpochStartTime cs) (DeletionWatermark cs)
      (ValidUntil cs) (EpochMarkerBlobs cs) (DeletionWatermarkBlobs cs)).

Definition list_epoch (n : Z) : prog (Z * list Metadata) :=
  let@ bm := list_blobs (UncompactedEpochBlobPrefix n) in pret (n, bm).

Definition loadUncompactedEpochs (first last : Z) : prog (gmap Z (list Metadata)) :=
  let@ epochs := any_order (filter (fun n => 0 <= n) (seqZ first (last - first + 1))) in
  let@ l := pcollect epochs list_epoch in
  pret (list_to_map l).

Definition set_uncompacted (cs : CurrentSnapshot) (ues : gmap Z (list Metadata)) : CurrentSnapshot :=
  mkSnapshot (WriteEpoch cs) ues (LongestRangeCheckpointSets cs) (SingleEpochCompactionSets cs) (EpochStartTime cs)
    (DeletionWatermark cs) (ValidUntil cs) (EpochMarkerBlobs cs) (DeletionWatermarkBlobs cs).

(** The four loads of a refresh run concurrently; each makes one request to the
    storage and writes fields of its own. *)
Definition refreshAttemptLocked : prog CurrentSnapshot :=
  getParameters ;;@
  let@ now := ask RNow in
  let@ loads := any_order [loadWriteEpoch; loadDeletionWatermark; loadSingleEpochCompactions; loadRangeCheckpoints] in
  let@ updates := pcollect loads (fun l => l) in
  let cs := foldl (fun cs u => u cs)
              (mkSnapshot 0 ∅ [] ∅ ∅ zero_time (now + EpochRefreshFrequency p) [] []) updates in
  let@ ues := loadUncompactedEpochs (WriteEpoch cs - 1) (WriteEpoch cs + 1) in
  let@ now := ask RNow in
  if After now (ValidUntil cs) then pfail ERefreshTooSlow else pret (set_uncompacted cs ues).

Fixpoint refresh_loop (fuel : nat) : prog CurrentSnapshot :=
  match fuel with
  | O => Stuck
  | S fuel =>
      let@ r := attempt_prog refreshAttemptLocked in
      match r with
      | Ok cs => pret cs
      | Err _ => let@ cancelled := ask RCancelled in if cancelled : bool then pfail ECancelled else refresh_loop fuel
      end
  end.

Definition refreshLocked (fuel : nat) : prog CurrentSnapshot :=
  let@ cancelled := ask RCancelled in
  if cancelled : bool then pfail ECancelled
  else
    getParameters ;;@
    if negb (Enabled p) then pfail ENotEnabled else refresh_loop fuel.

(** [committedState], which holds the lock throughout. *)
Definition committedState (fuel : nat) (ensureMinTime : Z) : prog CurrentSnapshot :=
  let@ cs := ask RAcquire in
  let@ now := ask RNow in
  if After (now + ensureMinTime) (ValidUntil cs) then
    let@ r := attempt_prog (refreshLocked fuel) in
    match r with
    | Ok cs => ask (RRelease cs) ;;@ pret cs
    | Err e => ask (RRelease cs) ;;@ pfail e
    end
  else ask (RRelease cs) ;;@ pret cs.

Definition Refresh (fuel : nat) : prog unit :=
  let@ cs := ask RAcquire in
  let@ r := attempt_prog (refreshLocked fuel) in
  match r with
  | Ok cs => ask (RRelease cs)
  | Err e => ask (RRelease cs) ;;@ pfail e
  end.

Definition Invalidate : prog unit := ask RInvalidate.

(** ** Reading *)

Definition getIndexesFromEpochInternal (cs : CurrentSnapshot) (epoch : Z) : prog (list Metadata) :=
  match (if isSettledEpochNumber cs epoch then SingleEpochCompactionSets cs !! epoch else None) with
  | Some s => pret s
  | None =>
      match UncompactedEpochSets cs !! epoch with
      | Some s => pret s
      | None => list_blobs (UncompactedEpochBlobPrefix epoch)
      end
  end.

(** The blobs of the range checkpoints, and the first epoch after them. *)
Definition use_ranges (ranges : list RangeMetadata) (minEpoch : Z) : list Metadata * Z :=
  foldl (fun st c => if st.2 <? MaxEpoch c then (st.1 ++ Blobs c, MaxEpoch c + 1) else st) ([], minEpoch) ranges.

Definition epoch_blobs (cs : CurrentSnapshot) (epoch : Z) : prog (Z * list Metadata) :=
  let@ s := getIndexesFromEpochInternal cs epoch in pret (epoch, s).

Definition getCompleteIndexSetForCommittedState (cs : CurrentSnapshot) (minEpoch maxEpoch : Z) : prog (list Metadata) :=
  let '(result, startEpoch) := use_ranges (LongestRangeCheckpointSets cs) minEpoch in
  let cnt := maxEpoch - startEpoch + 1 in
  if cnt <? 0 then pfail EPanic   (* make with a negative length *)
  else
    let@ order := any_order (seqZ startEpoch cnt) in
    let@ tmp := pcollect order (epoch_blobs cs) in
    let tmp : gmap Z (list Metadata) := list_to_map tmp in
    pret (result ++ concat ((fun ep => default [] (tmp !! ep)) <$> seqZ startEpoch cnt)).

(** [GetCompleteIndexSet]; [maxEpoch] is resolved in the first turn of the loop. *)
Fixpoint GetCompleteIndexSet (fuel : nat) (maxEpoch : Z) : prog (list Metadata * Z) :=
  match fuel with
  | O => Stuck
  | S fuel' =>
      let@ cs := committedState fuel 0 in
      let maxEpoch := if maxEpoch =? LatestEpoch then WriteEpoch cs + 1 else maxEpoch in
      let@ r := attempt_prog (getCompleteIndexSetForCommittedState cs 0 maxEpoch) in
      let@ now := ask RNow in
      if Before now (ValidUntil cs) then
        match r with Ok result => pret (result, DeletionWatermark cs) | Err e => pfail e end
      else
        match r with Err EPanic => pfail EPanic | _ => GetCompleteIndexSet fuel' maxEpoch end
  end.

(** ** Writing *)

(** Whether to try again, and what is written. *)
Fixpoint writeIndexShards (dataShards : list (string * list Z)) (written : gmap string Metadata) (cs : CurrentSnapshot)
    : prog (bool * gmap string Metadata) :=
  match dataShards with
  | [] => pret (false, written)
  | (unprefixedBlobID, data) :: dataShards =>
      let blobID := (UncompactedEpochBlobPrefix (WriteEpoch cs) +:+ unprefixedBlobID) in
      match written !! blobID with
      | Some _ => writeIndexShards dataShards written cs
      | None =>
          let@ now := ask RNow in
          if negb (Before now (ValidUntil cs)) then pret (true, written)
          else
            let@ modTime := try_ask (RPut blobID data) in
            writeIndexShards dataShards (<[blobID := mkMetadata blobID (slen data) modTime]> written) cs
      end
  end.

Fixpoint delete_each (ids : list string) : prog unit :=
  match ids with [] => pret tt | id :: ids => try_ask (RDelete id) ;;@ delete_each ids end.

Definition deletePartiallyWrittenShards (blobs : gmap string Metadata) : prog unit :=
  let@ ids := any_order (map_to_list blobs).*1 in delete_each ids.

(** The loop of [WriteIndex]: what was written, and for which epoch. *)
Fixpoint write_loop (fuel : nat) (dataShards : gmap string (list Z)) (written : gmap string Metadata) (writtenForEpoch : Z)
    : prog (gmap string Metadata * Z) :=
  match fuel with
  | O => Stuck
  | S fuel' =>
      getParameters ;;@
      let@ cs := committedState fuel (Z.quot (wrap64 (3 * EpochRefreshFrequency p)) 4) in
      let@ state := (if WriteEpoch cs =? writtenForEpoch then pret (written, writtenForEpoch)
                     else deletePartiallyWrittenShards written ;;@ pret (∅, WriteEpoch cs)) in
      let@ shards := any_order (map_to_list dataShards) in
      let@ r := writeIndexShards shards state.1 cs in
      if r.1 : bool then write_loop fuel' dataShards r.2 state.2
      else Invalidate ;;@ pret (r.2, state.2)
  end.

Definition WriteIndex (fuel : nat) (dataShards : gmap string (list Z)) : prog (list Metadata) :=
  let@ r := write_loop fuel dataShards ∅ (-1) in
  let '(written, writtenForEpoch) := r in
  let@ cs := committedState fuel 0 in
  if writtenForEpoch + 2 <=? WriteEpoch cs then
    attempt_prog (deletePartiallyWrittenShards written) ;;@ pfail EVerySlowIndexWrite
  else let@ results := any_order (map_to_list written).*2 in pret results.

(** ** Markers and watermarks *)

Definition AdvanceDeletionWatermark (fuel : nat) (ts : Z) : prog bool :=
  let@ cs := committedState fuel 0 in
  if Before ts (DeletionWatermark cs) then pret false
  else
    try_ask (RPut (DeletionWatermarkBlobPrefix +:+ FormatInt (ts / Second)) (bytes "deletion-watermark")) ;;@
    Invalidate ;;@
    pret true.

Definition advanceEpochMarker (cs : CurrentSnapshot) : prog unit :=
  try_ask (RPut (EpochMarkerIndexBlobPrefix +:+ FormatInt (WriteEpoch cs + 1)) (bytes "epoch-marker")) ;;@ pret tt.

Definition MaybeAdvanceWriteEpoch : prog bool :=
  getParameters ;;@
  let@ cs := ask RPeek in
  if shouldAdvance (default [] (UncompactedEpochSets cs !! WriteEpoch cs)) (MinEpochDuration p) (EpochAdvanceOnCountThreshold p)
       (EpochAdvanceOnTotalSizeBytesThreshold p)
  then advanceEpochMarker cs ;;@ pret true
  else pret false.

(** [blob.DeleteMultiple]: the deletions run concurrently, and an error of one
    does not undo the others. *)
Fixpoint delete_all (ids : list string) (err : option epoch_error) : prog unit :=
  match ids with
  | [] => match err with None => pret tt | Some e => pfail e end
  | id :: ids =>
      let@ r := attempt_prog (try_ask (RDelete id)) in
      delete_all ids (match err, r with None, Err e => Some e | _, _ => err end)
  end.

Definition DeleteMultiple (ids : list string) : prog unit := let@ ids := any_order ids in delete_all ids None.

Definition cleanupEpochMarkers (cs : CurrentSnapshot) : list string :=
  md_BlobID <$> filter (fun bm => match epochNumberFromBlobID (md_BlobID bm) with Some n => n <? WriteEpoch cs - 1 | None => false end = true)
                  (EpochMarkerBlobs cs).

Definition cleanupWatermarks (cs : CurrentSnapshot) (maxReplacementTime : Z) : list string :=
  md_BlobID <$> filter (fun bm => match deletionWatermarkFromBlobID (md_BlobID bm) with
                                  | Some ts => negb (ts =? DeletionWatermark cs) && Before (md_Timestamp bm) maxReplacementTime
                                  | None => false
                                  end = true) (DeletionWatermarkBlobs cs).

(** [cleanupInternal]: both deletions run concurrently. *)
Definition cleanupInternal (cs : CurrentSnapshot) : prog unit :=
  let maxTime := maxCleanupTime cs in
  if IsZero maxTime then pret tt
  else DeleteMultiple (cleanupEpochMarkers cs ++ cleanupWatermarks cs (maxTime - CleanupSafetyMargin p)).

Definition CleanupMarkers (fuel : nat) : prog unit :=
  let@ cs := committedState fuel 0 in
  getParameters ;;@
  cleanupInternal cs.

Definition superseded_blobs (cs : CurrentSnapshot) (maxReplacementTime : Z) (blobs : list Metadata) : list string :=
  md_BlobID <$> filter (fun bm => match epochNumberFromBlobID (md_BlobID bm) with
                                  | Some epoch => blobSetWrittenEarlyEnough (default [] (SingleEpochCompactionSets cs !! epoch)) maxReplacementTime
                                  | None => false
                                  end = true) blobs.

Definition CleanupSupersededIndexes (fuel : nat) : prog unit :=
  let@ cs := committedState fuel 0 in
  getParameters ;;@
  let maxTime := maxCleanupTime cs in
  if IsZero maxTime then pret tt
  else
    let@ blobs := list_blobs UncompactedIndexBlobPrefix in
    DeleteMultiple (superseded_blobs cs (maxTime - CleanupSafetyMargin p) blobs).

(** ** Compaction, [ManagerV1.CompactEpoch] *)

Context {TC : Crypter} {TP : Parameters} {T : Type} {TT : LLRB T}.

(** [addIndexBlobsToBuilder]; the error of the iteration is dropped. *)
Definition add_index_blob (bld : T) (id : string) : prog T :=
  let@ payload := try_ask (RGet id) in
  match blob_Decrypt payload id with
  | Err e => pfail (EStorage e)
  | Ok data =>
      match Open data Overhead with
      | Err e => pfail (EIndex e)
      | Ok ndx => pret (Iterate (E := unit) ndx AllIDs (fun i b => (None, OneUse_Add b i)) bld).2
      end
  end.

Fixpoint add_index_blobs (bld : T) (ids : list string) : prog T :=
  match ids with [] => pret bld | id :: ids => let@ bld := add_index_blob bld id in add_index_blobs bld ids end.

(** [blobcrypto.Encrypt] *)
Definition blob_name (payload : list Z) (prefix suffix : string) : string :=
  let id := (prefix +:+ hex_encode (HashFunc payload)) in
  if String.eqb suffix "" then id else (id +:+ ("-" +:+ suffix)).

Definition EncryptBlob (payload : list Z) (prefix suffix : string) : prog (string * list Z) :=
  let id := blob_name payload prefix suffix in
  match getIndexBlobIV id with
  | Err e => pfail (EStorage e)
  | Ok iv =>
      let@ nonce := ask RNonce in
      match nonce with
      | None => pfail EEncryption
      | Some nonce => match Encrypt nonce payload iv with Some e => pret (id, e) | None => pfail EEncryption end
      end
  end.

Fixpoint write_set (dataShards : list (list Z)) (outputPrefix sessionID : string) : prog unit :=
  match dataShards with
  | [] => pret tt
  | data :: dataShards =>
      let@ e := EncryptBlob data outputPrefix sessionID in
      try_ask (RPut e.1 e.2) ;;@
      write_set dataShards outputPrefix sessionID
  end.

Definition set_name (rnd : list Z) (n : Z) : string := "s" +:+ (hex_encode rnd +:+ ("-c" +:+ FormatInt n)).

Definition CompactEpoch (blobIDs : list string) (outputPrefix : string) : prog unit :=
  let@ tmpbld := add_index_blobs NewOneUseBuilder blobIDs in
  getParameters ;;@
  match OneUse_BuildShards tmpbld mp_IndexVersion true DefaultIndexShardSize (fun _ => None) with
  | Err e => pfail (EIndex e)
  | Ok dataShards =>
      let@ rnd := ask (RSet outputPrefix dataShards (OneUse_Length tmpbld)) in
      match rnd with
      | None => pfail ERandom
      | Some rnd => write_set dataShards outputPrefix (set_name rnd (slen dataShards))
      end
  end.

Definition generateRangeCheckpointFromCommittedState (cs : CurrentSnapshot) (minEpoch maxEpoch : Z) : prog unit :=
  let@ completeSet := getCompleteIndexSetForCommittedState cs minEpoch maxEpoch in
  let@ now := ask RNow in
  if After now (ValidUntil cs) then pfail ENoLongerValid
  else CompactEpoch (md_BlobID <$> completeSet) (rangeCheckpointBlobPrefix minEpoch maxEpoch).

Definition MaybeGenerateRangeCheckpoint (fuel : nat) : prog bool :=
  getParameters ;;@
  let@ cs := committedState fuel 0 in
  match getRangeToCompact cs p with
  | None => pret false
  | Some (firstNonRangeCompacted, latestSettled) =>
      generateRangeCheckpointFromCommittedState cs firstNonRangeCompacted latestSettled ;;@ pret true
  end.

Definition MaybeCompactSingleEpoch (fuel : nat) : prog bool :=
  let@ cs := committedState fuel 0 in
  match oldestUncompactedEpoch cs with
  | None => pfail EInvalidCompactedRange
  | Some uncompacted =>
      if uncompacted <? 0 then pfail EInvalidEpoch
      else if negb (isSettledEpochNumber cs uncompacted) then pret false
      else if bool_decide (is_Some (SingleEpochCompactionSets cs !! uncompacted)) then pret false
      else if negb (isEmpty (getRangeCompactedRange cs)) && (uncompacted <=? hi (getRangeCompactedRange cs)) then pret false
      else
        let@ uncompactedBlobs := (match UncompactedEpochSets cs !! uncompacted with
                                  | Some s => pret s
                                  | None => list_blobs (UncompactedEpochBlobPrefix uncompacted)
                                  end) in
        match uncompactedBlobs with
        | [] => pret false
        | _ => CompactEpoch (md_BlobID <$> uncompactedBlobs) (compactedEpochBlobPrefix uncompacted) ;;@ pret true
        end
  end.

(** ** The index blob manager, version 1 *)

Definition ListActiveIndexBlobs_v1 (fuel : nat) : prog (list Metadata * Z) := GetCompleteIndexSet fuel LatestEpoch.

Definition Compact_v1 (fuel : nat) (opt : CompactOptions) : prog bool :=
  if IsZero (DropDeletedBefore opt) then pret false else AdvanceDeletionWatermark fuel (DropDeletedBefore opt).

Fixpoint encrypt_shards (dataShards : list (list Z)) (suffix : string) (shards : gmap string (list Z)) : prog (gmap string (list Z)) :=
  match dataShards with
  | [] => pret shards
  | data :: dataShards => let@ e := EncryptBlob data "" suffix in encrypt_shards dataShards suffix (<[e.1 := e.2]> shards)
  end.

Definition WriteIndexBlobs_v1 (fuel : nat) (dataShards : list (list Z)) (suffix : string) : prog (list Metadata) :=
  let@ shards := encrypt_shards dataShards (suffix +:+ ("-c" +:+ FormatInt (slen dataShards))) ∅ in
  WriteIndex fuel shards.
End Manager.
