(* ===== verification/EpochSystem.v ===== *)
(** * Epoch managers at work

    Managers are opened on one storage, start calls, and crash; at every turn one
    request of one thread is served.  The environment says for every turn what
    the clocks of the storage and of the processes show, and what becomes of a
    request. *)

From S2P Require Import Prelude GoStrings GoText GoTime Db IndexID IndexTable IndexV1 IndexV2 IndexBuild Gather PackFormat ContentStore IndexBlobV0 EpochUtils EpochManager.
Open Scope go_scope.

Record eturn := mkETurn {
  et_storage : Z;               (* the clock of the storage *)
  et_local : nat -> Z;          (* the clock of each manager's process *)
  et_write : fate;              (* what becomes of a write or a deletion *)
  et_read : bool;               (* a read or a listing succeeds *)
  et_params : bool;             (* the parameters can be had *)
  et_cancelled : bool;          (* the caller's context is cancelled *)
  et_order : nat -> nat;        (* an order *)
  et_rand : option (nat -> Z)   (* crypto/rand *)
}.

Class EpochEnvironment := eturn_at : nat -> eturn.

(** A manager: who holds its lock, and its last known state. *)
Record cell := mkCell { c_holder : option nat; c_state : CurrentSnapshot }.

(** A set of shards and the random name it was given, by a thread. *)
Record drawn_set := mkDrawn { ds_thread : nat; ds_name : list Z; ds_prefix : string; ds_shards : list (list Z); ds_contents : Z }.

(** The sets drawn are history. *)
Record eworld := mkEWorld {
  ew_blobs : gmap string blob;
  ew_cells : gmap nat cell;
  ew_sets : list drawn_set
}.

Definition set_eblobs (w : eworld) (b : gmap string blob) : eworld := mkEWorld b (ew_cells w) (ew_sets w).
Definition set_cell (w : eworld) (i : nat) (c : cell) : eworld := mkEWorld (ew_blobs w) (<[i := c]> (ew_cells w)) (ew_sets w).

Definition listing (blobs : gmap string blob) (prefix : string) : list Metadata :=
  (fun e => mkMetadata e.1 (slen (bl_data e.2)) (bl_time e.2)) <$> filter (fun e => HasPrefix e.1 prefix = true) (map_to_list blobs).

(** A write is served as a whole or not at all, and its answer may be lost. *)
Definition put_blob (t : eturn) (id : string) (data : list Z) (blobs : gmap string blob) : result content_error Z * gmap string blob :=
  execute ErrStorage (et_write t) (fun b => (Ok (et_storage t), <[id := mkBlob data (et_storage t)]> b)) blobs.

Definition delete_blob (t : eturn) (id : string) (blobs : gmap string blob) : result content_error unit * gmap string blob :=
  execute ErrStorage (et_write t)
    (fun b => match b !! id with Some _ => (Ok tt, delete id b) | None => (Err ErrBlobNotFound, b) end) blobs.

Section System.
Context {EE : EpochEnvironment} {p : EpochParameters} {TC : Crypter} {TP : Parameters} {T : Type} {TT : LLRB T}.

(** How a request of thread [j] of manager [i] is served in turn [k]; a lock that
    is taken makes it wait. *)
Definition serve_req (k j i : nat) {B} (q : req B) (w : eworld) : option (B * eworld) :=
  let t := eturn_at k in
  let free (f : CurrentSnapshot -> B * cell) :=
    match ew_cells w !! i with
    | Some (mkCell None cs) => let '(b, c) := f cs in Some (b, set_cell w i c)
    | _ => None
    end in
  match q in req B return ((CurrentSnapshot -> B * cell) -> option (B * eworld)) -> option (B * eworld) with
  | RNow => fun _ => Some (et_local t i, w)
  | RParams => fun _ => Some (et_params t, w)
  | RCancelled => fun _ => Some (et_cancelled t, w)
  | ROrder => fun _ => Some (et_order t, w)
  | RNonce => fun _ => Some ((fun f => random_bytes f 12) <$> et_rand t, w)
  | RSet prefix shards contents => fun _ =>
      match et_rand t with
      | None => Some (None, w)
      | Some f => Some (Some (random_bytes f 8), mkEWorld (ew_blobs w) (ew_cells w) (mkDrawn j (random_bytes f 8) prefix shards contents :: ew_sets w))
      end
  | RList prefix => fun _ =>
      let l := listing (ew_blobs w) prefix in
      Some (if et_read t then Ok (shuffle (length l) (et_order t) l) else Err ErrStorage, w)
  | RGet id => fun _ =>
      Some (if et_read t then match ew_blobs w !! id with Some b => Ok (bl_data b) | None => Err ErrBlobNotFound end else Err ErrStorage, w)
  | RPut id data => fun _ => let '(r, b) := put_blob t id data (ew_blobs w) in Some (r, set_eblobs w b)
  | RDelete id => fun _ => let '(r, b) := delete_blob t id (ew_blobs w) in Some (r, set_eblobs w b)
  | RAcquire => fun free => free (fun cs => (cs, mkCell (Some j) cs))
  | RRelease cs => fun _ =>
      match ew_cells w !! i with
      | Some (mkCell (Some j') _) => if (j =? j')%nat then Some (tt, set_cell w i (mkCell None cs)) else None
      | _ => None
      end
  | RPeek => fun free => free (fun cs => (cs, mkCell None cs))
  | RInvalidate => fun free => free (fun _ => (tt, mkCell None no_snapshot))
  end free.

(** ** Calls *)

Inductive op :=
| OpWriteIndexBlobs (fuel : nat) (dataShards : list (list Z)) (suffix : string)
| OpListActiveIndexBlobs (fuel : nat)
| OpCompact (fuel : nat) (opt : CompactOptions)
| OpRefresh (fuel : nat)
| OpInvalidate
| OpMaybeAdvanceWriteEpoch
| OpMaybeCompactSingleEpoch (fuel : nat)
| OpMaybeGenerateRangeCheckpoint (fuel : nat)
| OpCleanupMarkers (fuel : nat)
| OpCleanupSupersededIndexes (fuel : nat).

Inductive answer :=
| AWritten (l : list Metadata)
| AListed (l : list Metadata) (deletionWatermark : Z)
| ADone (changed : bool).

Definition op_code (o : op) : prog answer :=
  match o with
  | OpWriteIndexBlobs fuel dataShards suffix => let@ l := WriteIndexBlobs_v1 (p := p) fuel dataShards suffix in pret (AWritten l)
  | OpListActiveIndexBlobs fuel => let@ r := ListActiveIndexBlobs_v1 (p := p) fuel in pret (AListed r.1 r.2)
  | OpCompact fuel opt => let@ b := Compact_v1 (p := p) fuel opt in pret (ADone b)
  | OpRefresh fuel => Refresh (p := p) fuel ;;@ pret (ADone true)
  | OpInvalidate => Invalidate ;;@ pret (ADone true)
  | OpMaybeAdvanceWriteEpoch => let@ b := MaybeAdvanceWriteEpoch (p := p) in pret (ADone b)
  | OpMaybeCompactSingleEpoch fuel => let@ b := MaybeCompactSingleEpoch (p := p) (T := T) fuel in pret (ADone b)
  | OpMaybeGenerateRangeCheckpoint fuel => let@ b := MaybeGenerateRangeCheckpoint (p := p) (T := T) fuel in pret (ADone b)
  | OpCleanupMarkers fuel => CleanupMarkers (p := p) fuel ;;@ pret (ADone true)
  | OpCleanupSupersededIndexes fuel => CleanupSupersededIndexes (p := p) fuel ;;@ pret (ADone true)
  end.

(** ** Turns *)

Record thread := mkThread { t_manager : nat; t_op : op; t_code : prog answer }.

Record esys := mkESys { es_world : eworld; es_threads : gmap nat thread }.

Inductive event :=
| EvOpen (i : nat)
| EvStart (j i : nat) (o : op)
| EvServe (j : nat)
| EvCrash (i : nat).

(** A crash loses the state of a manager and stops its threads where they are. *)
Definition stop_threads (i : nat) (ts : gmap nat thread) : gmap nat thread :=
  (fun t => if (t_manager t =? i)%nat then mkThread (t_manager t) (t_op t) Stuck else t) <$> ts.

Definition turn_of (k : nat) (e : event) (s : esys) : option esys :=
  let w := es_world s in
  match e with
  | EvOpen i =>
      match ew_cells w !! i with
      | None => Some (mkESys (set_cell w i (mkCell None no_snapshot)) (es_threads s))
      | Some _ => None
      end
  | EvStart j i o =>
      match es_threads s !! j, ew_cells w !! i with
      | None, Some _ => Some (mkESys w (<[j := mkThread i o (op_code o)]> (es_threads s)))
      | _, _ => None
      end
  | EvServe j =>
      match es_threads s !! j with
      | Some (mkThread i o (Do q c)) =>
          match serve_req k j i q w with
          | Some (b, w') => Some (mkESys w' (<[j := mkThread i o (c b)]> (es_threads s)))
          | None => None
          end
      | _ => None
      end
  | EvCrash i => Some (mkESys (mkEWorld (ew_blobs w) (delete i (ew_cells w)) (ew_sets w)) (stop_threads i (es_threads s)))
  end.

Definition start : esys := mkESys (mkEWorld ∅ ∅ []) ∅.

(** A run: the event of every turn, and the states between them. *)
Record run_of (events : nat -> event) (states : nat -> esys) (n : nat) : Prop := {
  run_start : states 0%nat = start;
  run_turn k : (k < n)%nat -> turn_of k (events k) (states k) = Some (states (S k))
}.

(** The run of a list of events, computed. *)
Fixpoint play (k : nat) (events : list event) (s : esys) : option esys :=
  match events with
  | [] => Some s
  | e :: events => s ← turn_of k e s; play (S k) events s
  end.
End System.
