(* ===== verification/EpochNames.v ===== *)
(** * What the names of index blobs say

    Names of epoch blobs read as they were made; grouping by epoch selects; a set
    is found complete exactly when all its members are there; and the longest
    range checkpoint is a chain of ranges from epoch 0 on. *)

From S2P Require Import Prelude GoStrings GoText GoTime Db IndexID IndexTable IndexBuild PackFormat ContentStore IndexBlobV0 ContentSpec EpochUtils EpochManager.
From Stdlib Require Import Ascii.
Open Scope go_scope.

(** ** Numbers in names *)

Definition epoch_number (e : Z) : Prop := 0 <= e < 2 ^ 63.

Lemma digits_no_byte s c : all_bytes isDigit s = true -> isDigit c = false -> Contains s c = false.
Proof. intros Hs Hc. by eapply all_bytes_Contains. Qed.

Lemma FormatInt_no_byte n c : 0 <= n -> isDigit c = false -> Contains (FormatInt n) c = false.
Proof. intros. apply digits_no_byte; [by apply FormatInt_digits|done]. Qed.

Lemma Cut_before s c t : Contains s c = false -> Cut (s +:+ String c t) c = (s, t, true).
Proof. intros Hs. by apply Cut_found. Qed.

Lemma trim_letters s t : all_bytes (fun c => negb (isDigit c)) s = true -> trim_to_digit (s +:+ t) = trim_to_digit t.
Proof.
  induction s as [|c s IH]; [done|]. cbn [all_bytes]. intros [Hc Hs]%andb_true_iff. rewrite sapp_cons. cbn [trim_to_digit].
  apply negb_true_iff in Hc. rewrite Hc. by apply IH.
Qed.

Lemma trim_number n : 0 <= n -> trim_to_digit (FormatInt n) = FormatInt n.
Proof.
  intros Hn. pose proof (FormatInt_digits n Hn) as Hd. pose proof (FormatInt_nonempty n Hn). destruct (FormatInt n) as [|c s]; [done|].
  cbn [all_bytes] in Hd. apply andb_true_iff in Hd as [Hc _]. cbn [trim_to_digit]. by rewrite Hc.
Qed.

(** A prefix of letters without an underscore. *)
Definition letters (s : string) : bool := all_bytes (fun c => negb (isDigit c) && negb (Ascii.eqb c "_") && negb (Ascii.eqb c "-")) s.

Lemma letters_no_digit s : letters s = true -> all_bytes (fun c => negb (isDigit c)) s = true.
Proof. apply all_bytes_impl. intros c. rewrite !andb_true_iff. tauto. Qed.

Lemma letters_no_byte s c : letters s = true -> (c = "_" \/ c = "-")%char -> Contains s c = false.
Proof. intros Hs Hc. eapply all_bytes_Contains; [exact Hs|]. by destruct Hc as [-> | ->]. Qed.

Lemma epoch_of_name P e t : letters P = true -> epoch_number e -> epochNumberFromBlobID (P +:+ (FormatInt e +:+ ("_" +:+ t))) = Some e.
Proof.
  intros HP He. unfold epochNumberFromBlobID. rewrite <- sapp_assoc. change ("_" +:+ t) with (String "_" t). rewrite Cut_before.
  - cbn [fst]. rewrite trim_letters by (by apply letters_no_digit). rewrite trim_number by apply He. by apply ParseInt_FormatInt.
  - rewrite Contains_app, (letters_no_byte P); auto. apply FormatInt_no_byte; [apply He|done].
Qed.

Lemma epoch_of_marker P e : letters P = true -> epoch_number e -> epochNumberFromBlobID (P +:+ FormatInt e) = Some e.
Proof.
  intros HP He. unfold epochNumberFromBlobID. rewrite Cut_notfound.
  - cbn [fst]. rewrite trim_letters by (by apply letters_no_digit). rewrite trim_number by apply He. by apply ParseInt_FormatInt.
  - rewrite Contains_app, (letters_no_byte P); auto. apply FormatInt_no_byte; [apply He|done].
Qed.

Lemma range_of_name P e f t : letters P = true -> epoch_number e -> epoch_number f ->
  epochRangeFromBlobID (P +:+ (FormatInt e +:+ ("_" +:+ (FormatInt f +:+ ("_" +:+ t))))) = Some (e, f).
Proof.
  intros HP He Hf. unfold epochRangeFromBlobID. rewrite <- sapp_assoc.
  change ("_" +:+ (FormatInt f +:+ ("_" +:+ t))) with (String "_" (FormatInt f +:+ String "_" t)). rewrite !Split_app.
  rewrite (Split_single (P +:+ FormatInt e)), (Split_single (FormatInt f)); [| |].
  - cbn [app]. destruct (Split t "_") as [|x l] eqn:E; [by apply Split_nonempty in E|].
    rewrite trim_letters by (by apply letters_no_digit). rewrite trim_number by apply He. by rewrite !ParseInt_FormatInt.
  - apply FormatInt_no_byte; [apply Hf|done].
  - rewrite Contains_app, (letters_no_byte P); auto. apply FormatInt_no_byte; [apply He|done].
Qed.

Lemma ParseInt_bound s n : ParseInt s = Some n -> n < 2 ^ 63.
Proof.
  assert (forall s n, (m ← unsigned_int s; if m <? 2 ^ 63 then Some m else None) = Some n -> n < 2 ^ 63) as Hpos.
  { intros s' n' H. destruct (unsigned_int s') as [m|]; [|done]. cbn in H. destruct (Z.ltb_spec m (2 ^ 63)); [|done]. by injection H as <-. }
  assert (forall s m, digits s 0 = Some m -> 0 <= m) as Hdig.
  { intros s' m. assert (forall a, 0 <= a -> digits s' a = Some m -> 0 <= m) as Hd; [|by apply Hd].
    induction s' as [|c t IH]; intros a Ha H; [by injection H as <-|]. cbn [digits] in H. destruct (between 48 57 (code c)) eqn:Eb; [|done].
    eapply IH; [|exact H]. unfold between in Eb. apply andb_true_iff in Eb as [E1%Z.leb_le _]. lia. }
  unfold ParseInt. intros H. destruct s as [|c s]; [done|].
  destruct c as [[] [] [] [] [] [] [] []]; try (by eapply Hpos).
  destruct (unsigned_int s) as [m|] eqn:E; [|done]. cbn in H. destruct (m <=? 2 ^ 63); [|done]. injection H as <-.
  assert (0 <= m); [|lia]. destruct s; [done|]. by eapply Hdig.
Qed.

Lemma epoch_parsed_bound id n : epochNumberFromBlobID id = Some n -> n < 2 ^ 63.
Proof. apply ParseInt_bound. Qed.

(** Prefixes of names *)

Lemma uncompacted_name e t : UncompactedEpochBlobPrefix e +:+ t = UncompactedIndexBlobPrefix +:+ (FormatInt e +:+ ("_" +:+ t)).
Proof. unfold UncompactedEpochBlobPrefix. by rewrite !sapp_assoc. Qed.

Lemma compacted_name e t : compactedEpochBlobPrefix e +:+ t = SingleEpochCompactionBlobPrefix +:+ (FormatInt e +:+ ("_" +:+ t)).
Proof. unfold compactedEpochBlobPrefix. by rewrite !sapp_assoc. Qed.

Lemma range_name e f t : rangeCheckpointBlobPrefix e f +:+ t = RangeCheckpointIndexBlobPrefix +:+ (FormatInt e +:+ ("_" +:+ (FormatInt f +:+ ("_" +:+ t)))).
Proof. unfold rangeCheckpointBlobPrefix. by rewrite !sapp_assoc. Qed.

Lemma uncompacted_epoch e t : epoch_number e -> epochNumberFromBlobID (UncompactedEpochBlobPrefix e +:+ t) = Some e.
Proof. intros He. rewrite uncompacted_name. by apply epoch_of_name. Qed.

Lemma compacted_epoch e t : epoch_number e -> epochNumberFromBlobID (compactedEpochBlobPrefix e +:+ t) = Some e.
Proof. intros He. rewrite compacted_name. by apply epoch_of_name. Qed.

Lemma range_epochs e f t : epoch_number e -> epoch_number f -> epochRangeFromBlobID (rangeCheckpointBlobPrefix e f +:+ t) = Some (e, f).
Proof. intros He Hf. rewrite range_name. by apply range_of_name. Qed.

(** ** Names of sets *)

Lemma hexdigit_plain z c : 0 <= z < 16 -> (c = "_" \/ c = "-")%char -> Ascii.eqb (hexdigit z) c = false.
Proof.
  intros Hz Hc. enough (negb (Ascii.eqb (hexdigit z) "_") && negb (Ascii.eqb (hexdigit z) "-") = true) as H.
  { apply andb_true_iff in H as [H1%negb_true_iff H2%negb_true_iff]. by destruct Hc as [-> | ->]. }
  apply (enumerate 16 (fun z => negb (Ascii.eqb (hexdigit z) "_") && negb (Ascii.eqb (hexdigit z) "-"))); [by vm_compute|lia].
Qed.

Lemma hex_no_byte l c : byte_list l -> (c = "_" \/ c = "-")%char -> Contains (hex_encode l) c = false.
Proof.
  intros Hl Hc. induction Hl as [|x l Hx _ IH]; [done|]. cbn [hex_encode Contains]. rewrite IH, !(hexdigit_plain _ c) by (lia_div || done). done.
Qed.

Lemma random_bytes_ok f n : byte_list (random_bytes f n).
Proof. unfold random_bytes. apply Forall_fmap, Forall_forall. intros i _. apply Z.mod_pos_bound. lia. Qed.

Section SetNames.
Context {TC : Crypter} {TCL : CrypterLaws}.

Lemma set_name_nonempty rnd n : String.eqb (set_name rnd n) "" = false.
Proof. done. Qed.

Lemma blob_name_set data prefix rnd n :
  blob_name data prefix (set_name rnd n) = (prefix +:+ hex_encode (HashFunc data)) +:+ String "-" (("s" +:+ hex_encode rnd) +:+ String "-" ("c" +:+ FormatInt n)).
Proof. unfold blob_name. rewrite set_name_nonempty. unfold set_name. by rewrite !sapp_assoc. Qed.

Lemma name_of_set data prefix rnd n : Contains prefix "-" = false -> byte_list rnd -> epoch_number n ->
  set_of_name (blob_name data prefix (set_name rnd n)) = Some ("s" +:+ hex_encode rnd, n).
Proof.
  intros Hp Hr Hn. rewrite blob_name_set. unfold set_of_name. rewrite !Split_app, !Split_single.
  - cbn [app]. change (HasPrefix ("s" +:+ hex_encode rnd) "s") with true. change (HasPrefix ("c" +:+ FormatInt n) "c") with true.
    cbn [andb]. change (sdrop 1 ("c" +:+ FormatInt n)) with (FormatInt n). by rewrite ParseInt_FormatInt.
  - change ("c" +:+ FormatInt n) with (String "c" (FormatInt n)). cbn. apply FormatInt_no_byte; [apply Hn|done].
  - change ("s" +:+ hex_encode rnd) with (String "s" (hex_encode rnd)). cbn. apply hex_no_byte; auto.
  - rewrite Contains_app, Hp. apply hex_no_byte; auto. apply hash_bytes.
Qed.
End SetNames.

Lemma set_id_inj r s : byte_list r -> byte_list s -> "s" +:+ hex_encode r = "s" +:+ hex_encode s -> r = s.
Proof. intros Hr Hs E. apply sapp_inj_l in E. by apply hex_inj. Qed.

Lemma prefix_no_dash e : 0 <= e -> Contains (compactedEpochBlobPrefix e) "-" = false.
Proof. intros He. unfold compactedEpochBlobPrefix. rewrite !Contains_app, FormatInt_no_byte by done. done. Qed.

Lemma range_prefix_no_dash e f : 0 <= e -> 0 <= f -> Contains (rangeCheckpointBlobPrefix e f) "-" = false.
Proof. intros He Hf. unfold rangeCheckpointBlobPrefix. rewrite !Contains_app, !FormatInt_no_byte by done. done. Qed.

(** ** Groups *)

Lemma append_at_lookup {K} `{Countable K} {A} (m : gmap K (list A)) k x i :
  default [] (append_at m k x !! i) = default [] (m !! i) ++ (if decide (i = k) then [x] else []).
Proof.
  unfold append_at. destruct (decide (i = k)) as [->|Hne]; [by rewrite lookup_insert_eq|]. rewrite lookup_insert_ne by done. by rewrite app_nil_r.
Qed.

Lemma append_at_some {K} `{Countable K} {A} (m : gmap K (list A)) k x i g :
  (forall j h, m !! j = Some h -> h <> []) -> append_at m k x !! i = Some g -> g <> [].
Proof.
  intros Hm. unfold append_at. intros [[<- <-]|[_ Hi]]%lookup_insert_Some; [|by eapply Hm]. by destruct (default [] (m !! k)).
Qed.

Lemma filter_one {A} (P : A -> Prop) `{!forall x, Decision (P x)} x : filter P [x] = if decide (P x) then [x] else [].
Proof. done. Qed.

(** The blobs of an epoch. *)
Definition of_epoch (e : Z) (bm : Metadata) : Prop := epochNumberFromBlobID (md_BlobID bm) = Some e.

#[export] Instance of_epoch_dec e bm : Decision (of_epoch e bm).
Proof. unfold of_epoch. apply _. Defined.

Lemma group_epoch bms e : default [] (groupByEpochNumber bms !! e) = filter (of_epoch e) bms.
Proof.
  unfold groupByEpochNumber. induction bms as [|bm bms IH] using rev_ind; [done|]. rewrite foldl_snoc, filter_app, <- IH, filter_one. clear IH.
  destruct (decide (of_epoch e bm)) as [E|E]; unfold of_epoch in E.
  - by rewrite E, append_at_lookup, decide_True.
  - destruct (epochNumberFromBlobID (md_BlobID bm)) as [n|]; [|by rewrite app_nil_r]. rewrite append_at_lookup, decide_False; [done|congruence].
Qed.

Lemma group_epoch_nonempty bms e g : groupByEpochNumber bms !! e = Some g -> g <> [].
Proof.
  revert e g. unfold groupByEpochNumber. induction bms as [|bm bms IH] using rev_ind; intros e g; [done|]. rewrite foldl_snoc.
  destruct (epochNumberFromBlobID (md_BlobID bm)) as [n|]; [|by apply IH]. apply append_at_some. exact IH.
Qed.

Lemma group_epoch_lookup bms e g : groupByEpochNumber bms !! e = Some g <-> g = filter (of_epoch e) bms /\ g <> [].
Proof.
  split.
  - intros H. split; [|by eapply group_epoch_nonempty]. by rewrite <- group_epoch, H.
  - intros [-> Hg]. rewrite <- group_epoch in Hg |- *. by destruct (groupByEpochNumber bms !! e).
Qed.

(** The blobs of a range of epochs. *)
Definition of_range (e f : Z) (bm : Metadata) : Prop := epochRangeFromBlobID (md_BlobID bm) = Some (e, f).

#[export] Instance of_range_dec e f bm : Decision (of_range e f bm).
Proof. unfold of_range. apply _. Defined.

Lemma groups_range bms e f : default [] (default ∅ (groupByEpochRanges bms !! e) !! f) = filter (of_range e f) bms.
Proof.
  unfold groupByEpochRanges. induction bms as [|bm bms IH] using rev_ind; [done|]. rewrite foldl_snoc, filter_app, <- IH, filter_one. clear IH.
  destruct (decide (of_range e f bm)) as [E|E]; unfold of_range in E.
  - by rewrite E, lookup_insert_eq; cbn [default from_option id]; rewrite append_at_lookup, decide_True.
  - destruct (epochRangeFromBlobID (md_BlobID bm)) as [[n1 n2]|]; [|by rewrite app_nil_r]. rewrite app_nil_r.
    destruct (decide (e = n1)) as [->|Hne]; [|by rewrite lookup_insert_ne]. rewrite lookup_insert_eq. cbn [default from_option id].
    rewrite append_at_lookup, decide_False; [by rewrite app_nil_r|congruence].
Qed.

Lemma group_range_nonempty bms e m f g : groupByEpochRanges bms !! e = Some m -> m !! f = Some g -> g <> [].
Proof.
  revert e m f g. unfold groupByEpochRanges. induction bms as [|bm bms IH] using rev_ind; intros e m f g; [done|]. rewrite foldl_snoc.
  destruct (epochRangeFromBlobID (md_BlobID bm)) as [[n1 n2]|]; [|apply IH]. intros [[<- <-]|[Hne He]]%lookup_insert_Some; [|by eapply IH].
  apply append_at_some. intros j h Hj. destruct (foldl _ _ bms !! n1) as [m'|] eqn:EG; [|done]. by eapply IH.
Qed.

Lemma group_range bms e m f g : groupByEpochRanges bms !! e = Some m -> m !! f = Some g -> g = filter (of_range e f) bms /\ g <> [].
Proof. intros He Hf. split; [|by eapply group_range_nonempty]. rewrite <- groups_range, He. cbn. by rewrite Hf. Qed.

Lemma range_group_of blobs e f g : (e, f, g) ∈ range_groups blobs -> g = filter (of_range e f) blobs /\ g <> [].
Proof.
  unfold range_groups. intros ([e' m] & H & Hm)%list_elem_of_bind. apply elem_of_map_to_list in Hm.
  apply list_elem_of_fmap in H as ([f' g'] & [= -> -> ->] & Hg). apply elem_of_map_to_list in Hg. by eapply group_range.
Qed.

(** ** Complete sets *)

Definition in_set (s : string) (bm : Metadata) : Prop := fst <$> set_of_name (md_BlobID bm) = Some s.

#[export] Instance in_set_dec s bm : Decision (in_set s bm).
Proof. unfold in_set. apply _. Defined.

Lemma in_set_name s c bm : set_of_name (md_BlobID bm) = Some (s, c) -> forall s', in_set s' bm <-> s' = s.
Proof. intros E s'. unfold in_set. rewrite E. cbn. split; [by intros [= ->]|by intros ->]. Qed.

Definition walk_sets (bms : list Metadata) : gmap string (list Metadata) * list (list Metadata) := foldl findAll_step (∅, []) bms.

Lemma walk_sets_snoc bms bm : walk_sets (bms ++ [bm]) = findAll_step (walk_sets bms) bm.
Proof. unfold walk_sets. by rewrite foldl_snoc. Qed.

Lemma walked_members bms s : default [] ((walk_sets bms).1 !! s) = filter (in_set s) bms.
Proof.
  induction bms as [|bm bms IH] using rev_ind; [done|]. rewrite walk_sets_snoc, filter_app, <- IH, filter_one. clear IH.
  destruct (walk_sets bms) as [sets complete]. cbn [fst]. unfold findAll_step. destruct (set_of_name (md_BlobID bm)) as [[s' c]|] eqn:E; cbn [fst].
  - destruct (decide (in_set s bm)) as [Hs|Hs]; rewrite (in_set_name _ _ _ E) in Hs.
    + subst s'. by rewrite lookup_insert_eq.
    + rewrite lookup_insert_ne by done. by rewrite app_nil_r.
  - rewrite decide_False; [by rewrite app_nil_r|]. unfold in_set. by rewrite E.
Qed.

(** A set that was found complete. *)
Definition complete_in (bms s : list Metadata) : Prop :=
  (exists bm, s = [bm] /\ bm ∈ bms /\ set_of_name (md_BlobID bm) = None)
  \/ exists id c bm, s `sublist_of` filter (in_set id) bms /\ bm ∈ s /\ set_of_name (md_BlobID bm) = Some (id, c) /\ slen s = c.

Lemma complete_in_snoc bms bm s : complete_in bms s -> complete_in (bms ++ [bm]) s.
Proof.
  intros [(x & -> & Hx & E)|(id & c & x & Hs & Hx & E & Hc)].
  - left. exists x. rewrite elem_of_app. auto.
  - right. exists id, c, x. split_and!; [|done..]. rewrite filter_app. by apply sublist_inserts_r.
Qed.

Lemma FindAll_complete bms s : s ∈ FindAll bms -> complete_in bms s.
Proof.
  change (FindAll bms) with (walk_sets bms).2. induction bms as [|bm bms IH] using rev_ind; [by intros ?%not_elem_of_nil|]. rewrite walk_sets_snoc.
  pose proof (walked_members bms) as Hm. destruct (walk_sets bms) as [sets complete]. cbn [fst snd] in *. unfold findAll_step.
  destruct (set_of_name (md_BlobID bm)) as [[id c]|] eqn:E; cbn [snd].
  - assert (default [] (sets !! id) ++ [bm] = filter (in_set id) (bms ++ [bm])) as Ey.
    { rewrite Hm, filter_app, filter_one, decide_True; [done|]. by apply (in_set_name _ _ _ E). }
    destruct (Z.eqb_spec (slen (default [] (sets !! id) ++ [bm])) c) as [Hc|_]; [|by intros Hs; apply complete_in_snoc, IH].
    intros [Hs|Hs]%elem_of_app; [by apply complete_in_snoc, IH|]. apply list_elem_of_singleton in Hs as ->. right. exists id, c, bm. rewrite Ey in *. split_and!; [done| |done|done].
    rewrite <- Ey. apply elem_of_app. right. by apply list_elem_of_singleton.
  - intros [Hs|Hs]%elem_of_app; [by apply complete_in_snoc, IH|]. apply list_elem_of_singleton in Hs as ->. left. exists bm. rewrite elem_of_app, list_elem_of_singleton. auto.
Qed.

Lemma FindFirst_complete bms s : FindFirst bms = Some s -> complete_in bms s.
Proof. unfold FindFirst. intros H. apply FindAll_complete. apply head_Some_elem_of in H. done. Qed.

(** A set all of whose members are there is found. *)
Lemma FindFirst_found bms id c : filter (in_set id) bms <> [] ->
  (forall bm, bm ∈ bms -> in_set id bm -> set_of_name (md_BlobID bm) = Some (id, c)) -> slen (filter (in_set id) bms) = c -> is_Some (FindFirst bms).
Proof.
  unfold FindFirst. change (FindAll bms) with (walk_sets bms).2. induction bms as [|bm bms IH] using rev_ind; [done|]. rewrite walk_sets_snoc, filter_app, filter_one.
  intros Hne Hn Hc. pose proof (walked_members bms id) as Hm. destruct (walk_sets bms) as [sets complete]. cbn [fst snd] in *. unfold findAll_step.
  destruct (decide (in_set id bm)) as [Hi|Hi].
  - rewrite (Hn bm); [|apply elem_of_app; right; by apply list_elem_of_singleton|done]. cbn [snd]. rewrite Hm, Hc, Z.eqb_refl. by destruct complete.
  - rewrite app_nil_r in *. assert (is_Some (head complete)) as [x Hx].
    { apply IH; [done| |done]. intros y Hy. apply Hn. apply elem_of_app. by left. }
    destruct complete as [|y complete]; [done|]. destruct (set_of_name (md_BlobID bm)) as [[id' c']|]; cbn; [|done]. destruct (_ =? _); done.
Qed.

(** ** Chains of ranges *)

(** Consecutive ranges from an epoch on. *)
Fixpoint chain (start : Z) (l : list RangeMetadata) : Prop :=
  match l with [] => True | r :: l => MinEpoch r = start /\ chain (MaxEpoch r + 1) l end.

Lemma by_min_lookup (ranges : list RangeMetadata) start :
  default [] (foldl (fun m r => append_at m (MinEpoch r) r) ∅ ranges !! start) = filter (fun r => MinEpoch r = start) ranges.
Proof.
  induction ranges as [|r ranges IH] using rev_ind; [done|]. rewrite foldl_snoc, append_at_lookup, IH, filter_app, filter_one. f_equal.
  destruct (decide (start = MinEpoch r)), (decide (MinEpoch r = start)); congruence.
Qed.

Section Longest.
Context (byMin : gmap Z (list RangeMetadata)) (known : RangeMetadata -> Prop).
Context (Hby : forall start r, r ∈ default [] (byMin !! start) -> MinEpoch r = start /\ known r).

Definition good_chain (start : Z) (l : list RangeMetadata) : Prop := chain start l /\ Forall known l.

Definition good_memo (memo : gmap Z (list RangeMetadata)) : Prop := forall start l, memo !! start = Some l -> good_chain start l.

Lemma find_chain fuel start memo : good_memo memo ->
  let r := findLongestRangeCheckpointStartingAt fuel byMin start memo in good_chain start r.1 /\ good_memo r.2.
Proof.
  revert start memo. induction fuel as [|fuel IH]; intros start memo Hm; cbn [findLongestRangeCheckpointStartingAt]; destruct (memo !! start) as [l|] eqn:E.
  - split; [by apply Hm|done].
  - by split; [|done].
  - split; [by apply Hm|done].
  - assert (forall cps st, (forall r, r ∈ cps -> MinEpoch r = start /\ known r) -> good_chain start st.1.2 -> good_memo st.2 ->
      let st' := foldl (fun st cp =>
              let '(longest, longestMetadata, memo) := st in
              let '(rest, memo) := findLongestRangeCheckpointStartingAt fuel byMin (MaxEpoch cp + 1) memo in
              let combined := cp :: rest in
              let m := MaxEpoch (List.last combined cp) in
              if (longest <? m) || ((m =? longest) && (slen combined <? slen longestMetadata))
              then (m, combined, memo) else (longest, longestMetadata, memo)) st cps in
      good_chain start st'.1.2 /\ good_memo st'.2) as Hloop.
    { induction cps as [|cp cps IHc]; intros [[longest lm] mm] Hcp Hl Hmm; [done|]. cbn [foldl fst snd] in *.
      pose proof (IH (MaxEpoch cp + 1) mm Hmm) as Hrec. destruct (findLongestRangeCheckpointStartingAt fuel byMin (MaxEpoch cp + 1) mm) as [rest mm']. cbn [fst snd] in Hrec.
      destruct Hrec as [[Hch Hk] Hmm']. destruct (Hcp cp) as [Hmin Hkn]; [by left|]. apply IHc; [intros r Hr; apply Hcp; by right|..]; destruct (_ || _); cbn [fst snd]; try done.
      split; [by split|by constructor]. }
    pose proof (Hloop (default [] (byMin !! start)) (0, [], memo)) as Hres. cbn zeta in Hres. destruct (foldl _ _ _) as [[longest lm] memo']. cbn [fst snd] in *.
    destruct Hres as [Hl Hmm]; [apply Hby|by split|done|]. split; [done|]. intros s l [[<- <-]|[_ Hs]]%lookup_insert_Some; [done|by apply Hmm].
Qed.
End Longest.

Lemma findLongest_chain ranges : chain 0 (findLongestRangeCheckpoint ranges) /\ Forall (fun r => r ∈ ranges) (findLongestRangeCheckpoint ranges).
Proof.
  unfold findLongestRangeCheckpoint.
  destruct (find_chain (foldl (fun m r => append_at m (MinEpoch r) r) ∅ ranges) (fun r => r ∈ ranges)) with (fuel := S (length ranges)) (start := 0) (memo := ∅ : gmap Z (list RangeMetadata)) as [H _].
  - intros start r. rewrite by_min_lookup. by intros [? ?]%list_elem_of_filter.
  - by intros start l.
  - exact H.
Qed.
