(* ===== verification/EpochLogic.v ===== *)
(** * Reasoning about interleaved programs

    A run is fixed, and facts are about its turns, so that what a thread has
    learnt about the past stays true.  [legit] says which requests keep the
    indexes complete; [wp] says that a program, from a turn on and whatever other
    threads do as long as they are legit, makes legit requests only and ends in a
    postcondition; [run_legit] that the turns of a run whose calls have a [wp] are
    legit. *)

From S2P Require Import Prelude GoStrings GoText GoTime Db IndexID IndexTable IndexV1 IndexV2 IndexV2Facts IndexBuild IndexMergedFacts IndexRoundTrip Gather PackFormat ContentStore IndexBlobV0 ContentSpec EpochUtils EpochManager EpochSystem EpochNames.
Open Scope go_scope.

(** A run of a number of turns; [ksize] is the length of content identifiers. *)
Class Run {EE : EpochEnvironment} {p : EpochParameters} {TC : Crypter} {TP : Parameters} {T : Type} {TT : LLRB T} := {
  ksize : Z;
  events : nat -> event;
  states : nat -> esys;
  turns : nat;
  run_ok : run_of (p := p) (T := T) events states turns
}.

Section Logic.
Context {EE : EpochEnvironment} {p : EpochParameters} {TC : Crypter} {TCL : CrypterLaws} {TP : Parameters} {T : Type} {TT : LLRB T} {R : Run (p := p) (T := T)}.

Abbreviation n := turns.

(** ** The run *)

Definition blobs (k : nat) : gmap string blob := ew_blobs (es_world (states k)).
Definition cells (k : nat) : gmap nat cell := ew_cells (es_world (states k)).
Definition sets (k : nat) : list drawn_set := ew_sets (es_world (states k)).
Definition threads (k : nat) : gmap nat thread := es_threads (states k).
Definition sigma (k : nat) : Z := et_storage (eturn_at k).
Definition local (k i : nat) : Z := et_local (eturn_at k) i.

(** The current epoch is [m] or a later one. *)
Definition reached (k : nat) (m : Z) : Prop :=
  m <= 0 \/ exists id x e, blobs k !! id = Some x /\ HasPrefix id EpochMarkerIndexBlobPrefix = true /\ epochNumberFromBlobID id = Some e /\ m <= e.

(** ** What blobs say *)

Definition index_data (d : list Z) (l : list Info) : Prop :=
  (exists x, Open d Overhead = Ok x /\ holds x l ksize) /\ Forall (good_entry mp_IndexVersion Overhead ksize) l.

Definition blob_holds (id : string) (data : list Z) (l : list Info) : Prop := exists d, blob_Decrypt data id = Ok d /\ index_data d l.

(** An entry of the same content against which [it] does not win. *)
Definition better (it' it : Info) : Prop := ContentID it' = ContentID it /\ entry_le it it'.

Definition covers (shards : list (list Z)) (it : Info) : Prop :=
  exists d l it', d ∈ shards /\ index_data d l /\ it' ∈ l /\ better it' it.

(** ** Who wrote what *)

Definition is_write (o : op) : Prop := match o with OpWriteIndexBlobs _ _ _ => True | _ => False end.

(** The shards of a call that writes an index, and the names it gives them. *)
Definition own_shards (o : op) : list (list Z) := match o with OpWriteIndexBlobs _ dataShards _ => dataShards | _ => [] end.

Definition own_name (o : op) (d : list Z) : string :=
  match o with
  | OpWriteIndexBlobs _ dataShards suffix => blob_name d "" (suffix +:+ ("-c" +:+ FormatInt (slen dataShards)))
  | _ => ""
  end.

Definition own_names (o : op) : list string := own_name o <$> own_shards o.

(** A blob of a call in an epoch. *)
Definition writes (o : op) (id : string) (e : Z) (d : list Z) : Prop :=
  epoch_number e /\ d ∈ own_shards o /\ id = UncompactedEpochBlobPrefix e +:+ own_name o d.

(** A call that writes an index takes a blob back. *)
Definition withdrawn (id : string) (m : nat) : Prop :=
  exists j t, events m = EvServe j /\ threads m !! j = Some t /\ is_write (t_op t) /\ is_Some (blobs m !! id) /\ blobs (S m) !! id = None.

(** An uncompacted blob that was there before its epoch was settled, and that
    its writer does not take back. *)
Record lasting (id : string) (e : Z) (k : nat) (x : blob) : Prop := {
  la_run : (k <= n)%nat;
  la_blob : blobs k !! id = Some x;
  la_epoch : epoch_number e;
  la_name : HasPrefix id (UncompactedEpochBlobPrefix e) = true;
  la_unsettled m : (m <= k)%nat -> ~ reached m (e + 2);
  la_kept m : (k <= m < n)%nat -> ~ withdrawn id m
}.

Definition covers_epoch (shards : list (list Z)) (e : Z) : Prop :=
  forall id k x l it, lasting id e k x -> blob_holds id (bl_data x) l -> it ∈ l -> covers shards it.

(** ** Sets *)

Definition member_name (ds : drawn_set) (d : list Z) : string := blob_name d (ds_prefix ds) (set_name (ds_name ds) (slen (ds_shards ds))).

Definition set_names (ds : drawn_set) : list string := member_name ds <$> ds_shards ds.

Definition set_ok (k : nat) (prefix : string) (shards : list (list Z)) : Prop :=
  slen shards < 2 ^ 63 /\ Forall (fun d => exists l, index_data d l) shards
  /\ ((exists e, epoch_number (e + 2) /\ epoch_number e /\ prefix = compactedEpochBlobPrefix e /\ reached k (e + 2) /\ covers_epoch shards e)
      \/ exists lo hi, epoch_number lo /\ epoch_number hi /\ lo < hi /\ prefix = rangeCheckpointBlobPrefix lo hi
                       /\ forall e, lo <= e <= hi -> covers_epoch shards e).

(** The compaction of an epoch has been there for longer than the margin. *)
Definition superseded (k : nat) (e : Z) : Prop :=
  exists ds, ds ∈ sets k /\ ds_prefix ds = compactedEpochBlobPrefix e /\ ds_shards ds <> [] /\ NoDup (set_names ds)
    /\ forall id, id ∈ set_names ds -> exists x, blobs k !! id = Some x /\ bl_time x + CleanupSafetyMargin p < sigma k.

(** ** Snapshots *)

(** A snapshot loaded by manager [i] between turns [k0] and [k2], which saw the
    markers in turn [k1]. *)
Record loaded (i : nat) (cs : CurrentSnapshot) (k0 k1 k2 : nat) : Prop := {
  ld_order : (k0 < k1 < k2)%nat;
  ld_valid : ValidUntil cs = local k0 i + EpochRefreshFrequency p;
  ld_epoch : reached k1 (WriteEpoch cs) /\ (forall m, reached k1 m -> m <= WriteEpoch cs);
  ld_markers : Forall (fun bm => HasPrefix (md_BlobID bm) EpochMarkerIndexBlobPrefix = true) (EpochMarkerBlobs cs);
  ld_watermarks : Forall (fun bm => HasPrefix (md_BlobID bm) DeletionWatermarkBlobPrefix = true) (DeletionWatermarkBlobs cs);
  ld_single : exists k l, (k0 < k < k2)%nat /\ l ≡ₚ listing (blobs k) SingleEpochCompactionBlobPrefix
    /\ SingleEpochCompactionSets cs = omap FindFirst (groupByEpochNumber l);
  ld_ranges : exists k l groups, (k0 < k < k2)%nat /\ l ≡ₚ listing (blobs k) RangeCheckpointIndexBlobPrefix
    /\ groups ≡ₚ range_groups l /\ LongestRangeCheckpointSets cs = findLongestRangeCheckpoint (complete_ranges groups);
  ld_uncompacted : exists k3, (k1 < k3 < k2)%nat /\ local k3 i <= ValidUntil cs
    /\ forall e l, UncompactedEpochSets cs !! e = Some l ->
         exists k, (k1 < k < k3)%nat /\ l ≡ₚ listing (blobs k) (UncompactedEpochBlobPrefix e)
}.

(** What a holder of the lock may leave behind: what it found, or what it has
    loaded since. *)
Definition release_ok (k j i : nat) (cs : CurrentSnapshot) : Prop :=
  exists k0 c0, (k0 < k)%nat /\ cells k0 !! i = Some (mkCell None c0)
    /\ (forall m, (k0 < m <= k)%nat -> cells m !! i = Some (mkCell (Some j) c0))
    /\ (cs = c0 \/ exists k1 k2, (k0 < k1)%nat /\ loaded i cs k1 k2 k).

(** ** Legit requests *)

Definition legit_put (k j : nat) (o : op) (id : string) (data : list Z) : Prop :=
  HasPrefix id EpochMarkerIndexBlobPrefix = true
  \/ HasPrefix id DeletionWatermarkBlobPrefix = true
  \/ (exists e d, writes o id e d /\ reached k e /\ blob_Decrypt data id = Ok d /\ blobs k !! id = None)
  \/ (exists ds d, ds ∈ sets k /\ ds_thread ds = j /\ d ∈ ds_shards ds /\ id = member_name ds d
        /\ blob_Decrypt data id = Ok d /\ (NoDup (set_names ds) -> blobs k !! id = None)).

Definition legit_delete (k : nat) (o : op) (id : string) : Prop :=
  (HasPrefix id EpochMarkerIndexBlobPrefix = true /\ exists e, epochNumberFromBlobID id = Some e /\ reached k (e + 1))
  \/ HasPrefix id DeletionWatermarkBlobPrefix = true
  \/ (exists e d, writes o id e d)
  \/ (~ is_write o /\ exists e, HasPrefix id UncompactedIndexBlobPrefix = true /\ epochNumberFromBlobID id = Some e /\ superseded k e).

Definition legit (k j i : nat) (o : op) {B} (q : req B) : Prop :=
  match q with
  | RPut id data => legit_put k j o id data
  | RDelete id => legit_delete k o id
  | RSet prefix shards contents => (contents < 2 ^ 32 -> Forall (fun d => slen d < 2 ^ 32) shards -> set_ok k prefix shards)
  | RRelease cs => release_ok k j i cs
  | _ => True
  end.

Definition legit_turn (k : nat) : Prop :=
  match events k with
  | EvServe j => match threads k !! j with Some (mkThread i o (Do q _)) => legit k j i o q | _ => True end
  | _ => True
  end.

Definition legit_before (k : nat) : Prop := forall m, (m < k)%nat -> legit_turn m.

(** ** Programs that are legit *)

(** While a thread holds its manager's lock, and is not served, the manager's
    state is as it left it. *)
Definition lock_kept (j i a k : nat) : Prop :=
  forall cs, cells a !! i = Some (mkCell (Some j) cs) -> forall m, (a <= m <= k)%nat -> cells m !! i = Some (mkCell (Some j) cs).

Definition not_served (j a k : nat) : Prop := forall m, (a <= m < k)%nat -> events m <> EvServe j.

Fixpoint wp {A} (j i : nat) (o : op) (c : prog A) (a : nat) (Q : nat -> result epoch_error A -> Prop) : Prop :=
  match c with
  | Ret r => Q a r
  | Stuck => True
  | Do q c =>
      forall k b w, (a <= k < n)%nat -> events k = EvServe j -> not_served j a k -> lock_kept j i a k -> legit_before k ->
        serve_req k j i q (es_world (states k)) = Some (b, w) -> es_world (states (S k)) = w ->
        t_op <$> threads k !! j = Some o ->
        legit k j i o q /\ (legit_before (S k) -> wp j i o (c b) (S k) Q)
  end.

Lemma wp_mono {A} j i o (c : prog A) a (Q Q2 : nat -> result epoch_error A -> Prop) :
  wp j i o c a Q -> (forall k r, (a <= k)%nat -> Q k r -> Q2 k r) -> wp j i o c a Q2.
Proof.
  revert a. induction c as [r| |B q c IH]; intros a H HQ; cbn in *; [auto|done|]. intros k b w Hk He Hn Hl Hb Hs Hw Ho.
  destruct (H k b w Hk He Hn Hl Hb Hs Hw Ho) as [Hg H']. split; [done|]. intros Hb'. apply IH; [auto|]. intros k' r Hk' HQ'. apply HQ; [lia|done].
Qed.

Lemma wp_bind {A B} j i o (c : prog A) (f : A -> prog B) a Q :
  wp j i o c a (fun k r => match r with Ok x => wp j i o (f x) k Q | Err e => Q k (Err e) end) -> wp j i o (pbind c f) a Q.
Proof.
  revert a. induction c as [[x|e]| |B' q c IH]; intros a H; cbn in *; [done|done|done|]. intros k b w Hk He Hn Hl Hb Hs Hw Ho.
  destruct (H k b w Hk He Hn Hl Hb Hs Hw Ho) as [Hg H']. split; [done|]. intros Hb'. apply IH. auto.
Qed.

Lemma wp_attempt {A} j i o (c : prog A) a Q : wp j i o c a (fun k r => Q k (Ok r)) -> wp j i o (attempt_prog c) a Q.
Proof.
  revert a. induction c as [r| |B' q c IH]; intros a H; cbn in *; [done|done|]. intros k b w Hk He Hn Hl Hb Hs Hw Ho.
  destruct (H k b w Hk He Hn Hl Hb Hs Hw Ho) as [Hg H']. split; [done|]. intros Hb'. apply IH. auto.
Qed.

(** A rule for sequences: what the first part establishes holds from then on. *)
Lemma wp_seq {A B} j i o (c : prog A) (f : A -> prog B) a (Q1 : nat -> A -> Prop) (Q : nat -> result epoch_error B -> Prop) :
  wp j i o c a (fun k r => forall x, r = Ok x -> Q1 k x) -> (forall k e, Q k (Err e)) ->
  (forall k x, (a <= k)%nat -> Q1 k x -> wp j i o (f x) k Q) -> wp j i o (pbind c f) a Q.
Proof.
  intros Hc He Hf. apply wp_bind. eapply wp_mono; [exact Hc|]. intros k [x|e] Hk HR; [|apply He]. apply Hf; [done|]. by apply HR.
Qed.

(** ** Turns *)

Definition served_blobs (k : nat) {B} (q : req B) (b : gmap string blob) : gmap string blob :=
  match q with
  | RPut id data => (put_blob (eturn_at k) id data b).2
  | RDelete id => (delete_blob (eturn_at k) id b).2
  | _ => b
  end.

Lemma serve_blobs k j i {B} (q : req B) w b w' : serve_req k j i q w = Some (b, w') -> ew_blobs w' = served_blobs k q (ew_blobs w).
Proof.
  unfold serve_req, served_blobs. destruct q; cbn -[put_blob delete_blob random_bytes];
    try (destruct (ew_cells w !! i) as [[[?|] ?]|]); try destruct (et_rand (eturn_at k)); try destruct (put_blob _ _ _ _); try destruct (delete_blob _ _ _);
    try destruct (_ =? _)%nat; intros [= <- <-] || intros [= <-] || intros; by simplify_eq.
Qed.

Definition drawn_by (j : nat) {B} (q : req B) : B -> list drawn_set :=
  match q in req B return B -> list drawn_set with
  | RSet prefix shards contents => fun b => match b with Some r => [mkDrawn j r prefix shards contents] | None => [] end
  | _ => fun _ => []
  end.

Lemma serve_sets k j i {B} (q : req B) w b w' : serve_req k j i q w = Some (b, w') -> ew_sets w' = drawn_by j q b ++ ew_sets w.
Proof.
  unfold serve_req. destruct q; cbn -[put_blob delete_blob random_bytes];
    try (destruct (ew_cells w !! i) as [[[?|] ?]|]); try (destruct (et_rand (eturn_at k)) eqn:Er); try destruct (put_blob _ _ _ _); try destruct (delete_blob _ _ _);
    try destruct (_ =? _)%nat; intros H; by simplify_eq.
Qed.

Lemma drawn_bytes k j i {B} (q : req B) w b w' ds : serve_req k j i q w = Some (b, w') -> ds ∈ drawn_by j q b -> byte_list (ds_name ds).
Proof.
  unfold serve_req. destruct q; cbn -[put_blob delete_blob random_bytes]; try (intros _ Hds; by apply not_elem_of_nil in Hds).
  destruct (et_rand (eturn_at k)) as [f|]; intros [= <- <-] Hds; [|by apply not_elem_of_nil in Hds]. apply list_elem_of_singleton in Hds as ->. apply random_bytes_ok.
Qed.

Lemma serve_cells k j i {B} (q : req B) w b w' : serve_req k j i q w = Some (b, w') ->
  (forall i', i' <> i -> ew_cells w' !! i' = ew_cells w !! i')
  /\ (ew_cells w' !! i = ew_cells w !! i
      \/ exists h cs c', ew_cells w !! i = Some (mkCell h cs) /\ ew_cells w' !! i = Some c' /\ (h = None \/ h = Some j)).
Proof.
  unfold serve_req. destruct q; cbn -[put_blob delete_blob random_bytes];
    try (destruct (ew_cells w !! i) as [[[?|] ?]|] eqn:Ec); try destruct (et_rand (eturn_at k)); try destruct (put_blob _ _ _ _); try destruct (delete_blob _ _ _);
    try (case_match; [|done]; match goal with E : (j =? _)%nat = true |- _ => apply Nat.eqb_eq in E; subst end); intros H; simplify_eq; try (split; [by intros|by left]);
    (split; [intros i' Hne; cbn; by rewrite lookup_insert_ne|right; do 3 eexists; split_and!; [done|cbn; by rewrite lookup_insert_eq|auto]]).
Qed.

Lemma served k j : (k < n)%nat -> events k = EvServe j ->
  exists i o B (q : req B) c b, threads k !! j = Some (mkThread i o (Do q c))
    /\ serve_req k j i q (es_world (states k)) = Some (b, es_world (states (S k))) /\ threads (S k) = <[j := mkThread i o (c b)]> (threads k).
Proof.
  intros Hk He. pose proof (run_turn _ _ _ run_ok k Hk) as Ht. rewrite He in Ht. unfold turn_of in Ht. unfold threads.
  destruct (es_threads (states k) !! j) as [[i o [r| |B q c]]|]; [done|done| |done]. destruct (serve_req k j i q (es_world (states k))) as [[b w]|] eqn:Es; [|done].
  injection Ht as Ht. exists i, o, B, q, c, b. rewrite <- Ht. done.
Qed.

(** A turn that serves nobody changes no blob. *)
Lemma other_turn k : (k < n)%nat -> (forall j, events k <> EvServe j) -> blobs (S k) = blobs k /\ sets (S k) = sets k.
Proof.
  intros Hk He. pose proof (run_turn _ _ _ run_ok k Hk) as Ht. unfold blobs, sets. destruct (events k) as [i|j i o|j|i]; cbn in Ht.
  - destruct (ew_cells _ !! i); [done|]. injection Ht as <-. done.
  - destruct (es_threads _ !! j); [done|]. destruct (ew_cells _ !! i); [|done]. injection Ht as <-. done.
  - by destruct (He j).
  - injection Ht as <-. done.
Qed.

Definition thread_ok (post : nat -> nat -> op -> nat -> result epoch_error answer -> Prop) (k j : nat) (t : thread) : Prop :=
  exists a, (a <= k)%nat /\ wp j (t_manager t) (t_op t) (t_code t) a (post j (t_manager t) (t_op t)) /\ not_served j a k /\ lock_kept j (t_manager t) a k.

(** A thread that is not served keeps its lock. *)
Lemma lock_kept_turn k j i a : (k < n)%nat -> (a <= k)%nat -> events k <> EvServe j -> events k <> EvCrash i -> lock_kept j i a k -> lock_kept j i a (S k).
Proof.
  intros Hk Ha He Hcr Hl cs Hcs m Hm. destruct (decide (m = S k)) as [->|Hne]; [|apply (Hl cs Hcs); lia].
  assert (cells k !! i = Some (mkCell (Some j) cs)) as Hck by (apply (Hl cs Hcs); lia). rewrite <- Hck. unfold cells in *.
  pose proof (run_turn _ _ _ run_ok k Hk) as Ht. destruct (events k) as [i'|j' i' o|j'|i'] eqn:Ee; cbn in Ht.
  - destruct (ew_cells (es_world (states k)) !! i') eqn:E; [done|]. injection Ht as <-. cbn. rewrite lookup_insert_ne; [done|]. intros ->. by rewrite Hck in E.
  - destruct (es_threads _ !! j'); [done|]. destruct (ew_cells _ !! i'); [|done]. injection Ht as <-. done.
  - destruct (served k j' Hk Ee) as (i1 & o1 & B & q & c & b & _ & Hs & _). apply serve_cells in Hs as [Ho Hs]. destruct (decide (i1 = i)) as [->|Hne]; [|by apply Ho].
    destruct Hs as [Hs|(h & cs' & c' & Hh & _ & Hj)]; [done|]. rewrite Hck in Hh. injection Hh as <- _. destruct Hj as [Hj|Hj]; [done|]. injection Hj as ->. done.
  - injection Ht as <-. cbn. rewrite lookup_delete_ne; [done|]. congruence.
Qed.

Lemma not_served_turn k j a : not_served j a k -> events k <> EvServe j -> not_served j a (S k).
Proof. intros Hn He m Hm. destruct (decide (m = k)) as [->|Hne]; [done|]. apply Hn. lia. Qed.

Lemma thread_ok_turn post k j t : (k < n)%nat -> events k <> EvServe j -> events k <> EvCrash (t_manager t) -> thread_ok post k j t -> thread_ok post (S k) j t.
Proof.
  intros Hk He Hc (a & Ha & Hwp & Hn & Hl). exists a. split_and!; [lia|done|by apply not_served_turn|by apply lock_kept_turn].
Qed.

Theorem run_legit post :
  (forall k j i o, (k < n)%nat -> legit_before (S k) -> events k = EvStart j i o -> wp j i o (op_code (p := p) (T := T) o) (S k) (post j i o)) ->
  forall k, (k <= n)%nat -> legit_before k /\ forall j t, threads k !! j = Some t -> thread_ok post k j t.
Proof.
  intros Hspec. induction k as [|k IH]; intros Hk.
  { split; [intros m Hm; lia|]. intros j t Ht. unfold threads in Ht. by rewrite (run_start _ _ _ run_ok) in Ht. }
  destruct IH as [Hb Hth]; [lia|]. pose proof (run_turn _ _ _ run_ok k ltac:(lia)) as Ht. destruct (events k) as [i|j i o|j|i] eqn:Ee.
  - split.
    + intros m Hm. destruct (decide (m = k)) as [->|Hne]; [|apply Hb; lia]. unfold legit_turn. by rewrite Ee.
    + intros j t Hj. assert (threads k !! j = Some t) as Hj'.
      { unfold threads in *. cbn in Ht. destruct (ew_cells _ !! i); [done|]. injection Ht as Ht. by rewrite <- Ht in Hj. }
      apply thread_ok_turn; [lia|by rewrite Ee|by rewrite Ee|auto].
  - assert (legit_before (S k)) as Hb'.
    { intros m Hm. destruct (decide (m = k)) as [->|Hne]; [|apply Hb; lia]. unfold legit_turn. by rewrite Ee. }
    split; [done|].
    + intros j' t Hj. unfold threads in Hj. cbn in Ht. destruct (es_threads (states k) !! j) eqn:Ej; [done|]. destruct (ew_cells _ !! i); [|done]. injection Ht as Ht.
      rewrite <- Ht in Hj. cbn in Hj. apply lookup_insert_Some in Hj as [[<- <-]|[Hne Hj]].
      * exists (S k). split_and!; [done|apply Hspec; [lia|done|done]|intros m Hm; lia|]. intros cs Hcs m Hm. by replace m with (S k) by lia.
      * apply thread_ok_turn; [lia|by rewrite Ee|by rewrite Ee|auto].
  - destruct (served k j ltac:(lia) Ee) as (i & o & B & q & c & b & Hj & Hs & Hts). destruct (Hth j _ Hj) as (a & Ha & Hwp & Hn & Hl). cbn [t_manager t_op t_code] in *.
    cbn [wp] in Hwp. destruct (Hwp k b _ ltac:(lia) Ee Hn Hl Hb Hs eq_refl) as [Hg Hnext]; [by rewrite Hj|].
    assert (legit_before (S k)) as Hb'.
    { intros m Hm. destruct (decide (m = k)) as [->|Hne]; [|apply Hb; lia]. unfold legit_turn. by rewrite Ee, Hj. }
    split; [done|]. intros j' t Hj'. rewrite Hts in Hj'. apply lookup_insert_Some in Hj' as [[<- <-]|[Hne Hj']].
    + exists (S k). split_and!; [done|by apply Hnext|intros m Hm; lia|]. intros cs Hcs m Hm. by replace m with (S k) by lia.
    + apply thread_ok_turn; [lia|rewrite Ee; congruence|by rewrite Ee|auto].
  - split.
    + intros m Hm. destruct (decide (m = k)) as [->|Hne]; [|apply Hb; lia]. unfold legit_turn. by rewrite Ee.
    + intros j t Hj. unfold threads in Hj. cbn in Ht. injection Ht as Ht. rewrite <- Ht in Hj. cbn in Hj. unfold stop_threads in Hj. rewrite lookup_fmap in Hj.
      destruct (es_threads (states k) !! j) as [t'|] eqn:Ej; [|done]. cbn in Hj. injection Hj as <-. destruct (Nat.eqb_spec (t_manager t') i) as [Hi|Hi].
      * exists (S k). cbn. split_and!; [done|done|intros m Hm; lia|]. intros cs Hcs m Hm. by replace m with (S k) by lia.
      * apply thread_ok_turn; [lia|by rewrite Ee|rewrite Ee; congruence|auto].
Qed.

End Logic.
