(* ===== verification/EpochHistory.v ===== *)
(** * What legit turns keep

    Consequences for a run whose turns up to some point are legit: the current
    epoch never goes back, the blobs of a complete set stay, every blob is of a
    known kind, and an uncompacted blob is there until its epoch's compaction has
    been there for longer than the safety margin. *)

From S2P Require Import Prelude GoStrings GoText GoTime Db IndexID IndexTable IndexV1 IndexV2 IndexV2Facts IndexBuild IndexMergedFacts IndexRoundTrip Gather PackFormat ContentStore IndexBlobV0 ContentSpec EpochUtils EpochManager EpochSystem EpochNames EpochLogic.
From Stdlib Require Import Ascii.
Open Scope go_scope.

#[export] Instance blob_eq_dec : EqDecision blob.
Proof. solve_decision. Defined.

(** ** Kinds of blobs *)

Definition kind_of (id : string) : ascii := match id with String _ (String c _) => c | _ => zero end.

Lemma kind_prefix id a b t : HasPrefix id (String a (String b t)) = true -> kind_of id = b.
Proof. by intros [u ->]%HasPrefix_spec. Qed.

Lemma kind_marker id : HasPrefix id EpochMarkerIndexBlobPrefix = true -> kind_of id = "e"%char.
Proof. apply kind_prefix. Qed.

Lemma kind_watermark id : HasPrefix id DeletionWatermarkBlobPrefix = true -> kind_of id = "w"%char.
Proof. apply kind_prefix. Qed.

Lemma kind_uncompacted id : HasPrefix id UncompactedIndexBlobPrefix = true -> kind_of id = "n"%char.
Proof. apply kind_prefix. Qed.

Lemma kind_uncompacted_epoch e t : kind_of (UncompactedEpochBlobPrefix e +:+ t) = "n"%char.
Proof. done. Qed.

Lemma uncompacted_prefix_kind id e : HasPrefix id (UncompactedEpochBlobPrefix e) = true -> kind_of id = "n"%char.
Proof. by intros [u ->]%HasPrefix_spec. Qed.

Lemma uncompacted_prefix_epoch id e : epoch_number e -> HasPrefix id (UncompactedEpochBlobPrefix e) = true -> epochNumberFromBlobID id = Some e.
Proof. intros He [u ->]%HasPrefix_spec. by apply uncompacted_epoch. Qed.

(** What a run must keep to: no set name is drawn twice, no compaction has 4 G
    contents or shards of 4 GiB, the clock of the storage does not go back; calls
    that write indexes write well-formed ones, under names that are theirs. *)
Definition small_set (ds : drawn_set) : Prop := ds_contents ds < 2 ^ 32 /\ Forall (fun d => slen d < 2 ^ 32) (ds_shards ds).

Section History.
Context {EE : EpochEnvironment} {p : EpochParameters} {TC : Crypter} {TCL : CrypterLaws} {TP : Parameters} {T : Type} {TT : LLRB T} {R : Run (p := p) (T := T)}.

Abbreviation n := turns.

Definition start_ok (o : op) : Prop := NoDup (own_names o) /\ Forall (fun d => exists l, index_data d l) (own_shards o).

Class Orderly : Prop := {
  or_drawn : NoDup (ds_name <$> sets n);
  or_small : Forall small_set (sets n);
  or_storage k m : (k <= m)%nat -> sigma k <= sigma m;
  or_start j t : threads n !! j = Some t -> start_ok (t_op t);
  or_names j t j' t' : threads n !! j = Some t -> threads n !! j' = Some t' -> j <> j' -> own_names (t_op t) ## own_names (t_op t')
}.

Context {O : Orderly}.

(** ** One turn *)

Lemma legit_before_le k m : (m <= k)%nat -> legit_before k -> legit_before m.
Proof. intros Hm Hb j Hj. apply Hb. lia. Qed.

Lemma turn_legit k j i o B (q : req B) c : legit_before (S k) -> events k = EvServe j -> threads k !! j = Some (mkThread i o (Do q c)) ->
  legit k j i o q.
Proof. intros Hb He Hj. specialize (Hb k ltac:(lia)). unfold legit_turn in Hb. by rewrite He, Hj in Hb. Qed.

(** What changed a blob. *)
Lemma change k id : (k < n)%nat -> legit_before (S k) -> blobs (S k) !! id <> blobs k !! id ->
  (forall id', id' <> id -> blobs (S k) !! id' = blobs k !! id')
  /\ exists j i o c, events k = EvServe j /\ threads k !! j = Some (mkThread i o c)
     /\ ((exists data, blobs (S k) !! id = Some (mkBlob data (sigma k)) /\ legit_put k j o id data)
         \/ (is_Some (blobs k !! id) /\ blobs (S k) !! id = None /\ legit_delete k o id)).
Proof.
  intros Hk Hb Hne. destruct (events k) as [i|j i o|j|i] eqn:Ee; try (exfalso; apply Hne; destruct (other_turn k Hk) as [E _]; [by rewrite Ee|]; by rewrite E).
  destruct (served k j Hk Ee) as (i & o & B & q & c & b & Hj & Hs & _). pose proof (turn_legit k j i o B q c Hb Ee Hj) as Hl.
  apply serve_blobs in Hs. change (ew_blobs (es_world (states (S k)))) with (blobs (S k)) in Hs. change (ew_blobs (es_world (states k))) with (blobs k) in Hs.
  rewrite Hs in Hne |- *. destruct q as [| | | | | | | |x data|x| | | |]; cbn -[put_blob delete_blob] in Hne, Hl |- *; try done.
  - unfold put_blob, execute in *. destruct (et_write (eturn_at k)); cbn in *; try done; (destruct (decide (id = x)) as [->|Hx]; [|by rewrite lookup_insert_ne in Hne]);
      (split; [intros id' ?; by rewrite lookup_insert_ne|]); exists j, i, o; eexists; (split_and!; [done|exact Hj|]); left; exists data; by rewrite lookup_insert_eq.
  - unfold delete_blob, execute in *. destruct (et_write (eturn_at k)); cbn in *; try done; destruct (blobs k !! x) as [y|] eqn:Ex; cbn in *; try done;
      (destruct (decide (id = x)) as [->|Hx]; [|by rewrite lookup_delete_ne in Hne]);
      (split; [intros id' ?; by rewrite lookup_delete_ne|]); exists j, i, o; eexists; (split_and!; [done|exact Hj|]); right; by rewrite Ex, lookup_delete_eq.
Qed.

(** ** Epochs *)

Lemma reached_le k a b : a <= b -> reached k b -> reached k a.
Proof. intros Hab [H|(id & x & e & ? & ? & ? & ?)]; [left; lia|]. right. exists id, x, e. split_and!; [done..|lia]. Qed.

Lemma reached_bound k m : reached k m -> m < 2 ^ 63.
Proof. intros [H|(id & x & e & _ & _ & E & Hm)]; [lia|]. apply epoch_parsed_bound in E. lia. Qed.

Lemma reached_turn k m : (k < n)%nat -> legit_before (S k) -> reached k m -> reached (S k) m.
Proof.
  intros Hk Hb [H|(id & x & e & Hx & Hp & He & Hm)]; [by left|]. destruct (Z.le_gt_cases m 0) as [Hm0|Hm0]; [by left|right].
  destruct (decide (blobs (S k) !! id = blobs k !! id)) as [E|E]; [exists id, x, e; by rewrite E|].
  destruct (change k id Hk Hb E) as (Hoth & j & i & o & c & _ & _ & [(data & Hd & _)|(_ & _ & Hdel)]); [by exists id, (mkBlob data (sigma k)), e|].
  pose proof (kind_marker id Hp) as Hkind.
  destruct Hdel as [(_ & e' & He' & Hr)|[Hw|[(e' & d & _ & _ & ->)|(_ & e' & Hn & _)]]].
  - rewrite He in He'. injection He' as <-. destruct Hr as [Hr|(id2 & x2 & e2 & H2 & Hp2 & He2 & Hm2)].
    + lia.
    + exists id2, x2, e2. split_and!; [|done..|lia]. rewrite Hoth; [done|]. intros ->. rewrite He in He2. injection He2 as <-. lia.
  - apply kind_watermark in Hw. by rewrite Hkind in Hw.
  - done.
  - apply kind_uncompacted in Hn. by rewrite Hkind in Hn.
Qed.

Lemma reached_later k m e : (k <= m <= n)%nat -> legit_before m -> reached k e -> reached m e.
Proof.
  intros [Hk Hm]. induction Hk as [|m Hk IH]; intros Hb Hr; [done|]. apply reached_turn; [lia|done|]. apply IH; [lia| |done]. eapply legit_before_le; [|exact Hb]. lia.
Qed.

(** ** Threads and sets *)

Lemma thread_turn k j t : (k < n)%nat -> threads k !! j = Some t ->
  exists t', threads (S k) !! j = Some t' /\ t_op t' = t_op t /\ t_manager t' = t_manager t.
Proof.
  intros Hk Hj. pose proof (run_turn _ _ _ run_ok k Hk) as Ht. destruct (events k) as [i|j' i o|j'|i] eqn:Ee.
  - cbn in Ht. destruct (ew_cells _ !! i); [done|]. injection Ht as Ht. unfold threads. rewrite <- Ht. by exists t.
  - cbn in Ht. unfold threads in *. destruct (es_threads (states k) !! j') eqn:Ej; [done|]. destruct (ew_cells _ !! i); [|done]. injection Ht as Ht. rewrite <- Ht. cbn.
    exists t. rewrite lookup_insert_ne; [done|]. intros ->. by rewrite Hj in Ej.
  - destruct (served k j' Hk Ee) as (i & o & B & q & c & b & Hj' & _ & ->). destruct (decide (j = j')) as [->|Hne].
    + rewrite Hj in Hj'. injection Hj' as ->. eexists. by rewrite lookup_insert_eq.
    + exists t. by rewrite lookup_insert_ne.
  - cbn in Ht. injection Ht as Ht. unfold threads in *. rewrite <- Ht. cbn. unfold stop_threads. rewrite lookup_fmap, Hj. cbn. eexists. split; [done|]. by destruct (_ =? _)%nat.
Qed.

Lemma thread_later k m j t : (k <= m <= n)%nat -> threads k !! j = Some t ->
  exists t', threads m !! j = Some t' /\ t_op t' = t_op t /\ t_manager t' = t_manager t.
Proof.
  intros [Hk Hm] Hj. induction Hk as [|m Hk IH]; [by exists t|]. destruct IH as (t1 & H1 & E1 & E2); [lia|].
  destruct (thread_turn m j t1) as (t2 & H2 & E3 & E4); [lia|done|]. exists t2. split_and!; congruence.
Qed.

Lemma sets_turn k : (k < n)%nat ->
  sets (S k) = sets k \/ exists ds, sets (S k) = ds :: sets k /\ events k = EvServe (ds_thread ds) /\ byte_list (ds_name ds)
    /\ (legit_before (S k) -> small_set ds -> set_ok k (ds_prefix ds) (ds_shards ds)).
Proof.
  intros Hk. destruct (events k) as [i|j i o|j|i] eqn:Ee; try (left; apply (other_turn k Hk); by rewrite Ee).
  destruct (served k j Hk Ee) as (i & o & B & q & c & b & Hj & Hs & _). pose proof (fun ds => drawn_bytes k j i q _ _ _ ds Hs) as Hby.
  pose proof (turn_legit k j i o B q c) as Hl. apply serve_sets in Hs.
  change (ew_sets (es_world (states (S k)))) with (sets (S k)) in Hs. change (ew_sets (es_world (states k))) with (sets k) in Hs.
  destruct q; cbn in Hs, Hl, Hby; try (left; exact Hs). destruct b as [r|]; [|by left]. right. eexists. split; [exact Hs|]. cbn. split_and!; [done| |].
  - apply (Hby (mkDrawn j r outputPrefix dataShards contents)). by left.
  - intros Hb [Hc Hd]. by apply Hl.
Qed.

Lemma sets_later k m : (k <= m <= n)%nat -> exists l, sets m = l ++ sets k.
Proof.
  intros [Hk Hm]. induction Hk as [|m Hk IH]; [by exists []|]. destruct IH as [l El]; [lia|].
  destruct (sets_turn m) as [E|(ds & E & _)]; [lia|exists l; congruence|]. exists (ds :: l). rewrite E, El. done.
Qed.

Lemma set_stays k m ds : (k <= m <= n)%nat -> ds ∈ sets k -> ds ∈ sets m.
Proof. intros Hk Hds. destruct (sets_later k m Hk) as [l ->]. apply elem_of_app. by right. Qed.

(** When a set was drawn. *)
Lemma drawn k ds : (k <= n)%nat -> ds ∈ sets k ->
  exists m, (m < k)%nat /\ sets (S m) = ds :: sets m /\ events m = EvServe (ds_thread ds) /\ byte_list (ds_name ds)
    /\ (legit_before k -> small_set ds -> set_ok m (ds_prefix ds) (ds_shards ds)).
Proof.
  induction k as [|k IH]; intros Hk Hds.
  { unfold sets in Hds. rewrite (run_start _ _ _ run_ok) in Hds. by apply not_elem_of_nil in Hds. }
  assert (ds ∈ sets k -> exists m, (m < S k)%nat /\ sets (S m) = ds :: sets m /\ events m = EvServe (ds_thread ds) /\ byte_list (ds_name ds)
    /\ (legit_before (S k) -> small_set ds -> set_ok m (ds_prefix ds) (ds_shards ds))) as Hold.
  { intros Hin. destruct IH as (m & Hm & ? & ? & ? & Hok); [lia|done|]. exists m. split_and!; [lia|done..|]. intros Hb. apply Hok. eapply legit_before_le; [|exact Hb]. lia. }
  destruct (sets_turn k) as [E|(ds' & E & He & Hby & Hok)]; [lia|by rewrite E in Hds; auto|]. rewrite E in Hds. apply elem_of_cons in Hds as [->|Hds]; [|by auto].
  exists k. split_and!; [lia|done..].
Qed.

Lemma set_unique ds ds' k m : (k <= n)%nat -> (m <= n)%nat -> ds ∈ sets k -> ds' ∈ sets m -> ds_name ds = ds_name ds' -> ds = ds'.
Proof.
  intros Hk Hm Hds Hds' E. apply (NoDup_fmap_inj_elem ds_name (sets n)); [apply or_drawn|eapply set_stays; [|done]; lia|eapply set_stays; [|done]; lia|done].
Qed.

Lemma drawn_new k ds : (k < n)%nat -> sets (S k) = ds :: sets k -> ds ∉ sets k.
Proof.
  intros Hk E Hin. destruct (sets_later (S k) n) as [l El]; [lia|]. pose proof or_drawn as Hdraw. rewrite El, E, fmap_app in Hdraw. apply NoDup_app in Hdraw as (_ & _ & Hnd).
  apply NoDup_cons in Hnd as [Hnd _]. apply Hnd. by apply list_elem_of_fmap_2.
Qed.

(** ** Names of sets *)

Lemma set_prefix k prefix shards : set_ok k prefix shards ->
  Contains prefix "-" = false /\ ((exists e, epoch_number e /\ prefix = compactedEpochBlobPrefix e) \/ exists lo hi, epoch_number lo /\ epoch_number hi /\ prefix = rangeCheckpointBlobPrefix lo hi).
Proof.
  intros (_ & _ & [(e & _ & He & -> & _)|(lo & hi & Hlo & Hhi & _ & -> & _)]).
  - split; [apply prefix_no_dash, He|]. left. eauto.
  - split; [apply range_prefix_no_dash; [apply Hlo|apply Hhi]|]. right. eauto.
Qed.

Lemma member_kind k ds d : set_ok k (ds_prefix ds) (ds_shards ds) -> kind_of (member_name ds d) = "s"%char \/ kind_of (member_name ds d) = "r"%char.
Proof. intros Hok. unfold member_name. rewrite blob_name_set. destruct (set_prefix _ _ _ Hok) as [_ [(e & _ & ->)|(lo & hi & _ & _ & ->)]]; [by left|by right]. Qed.

Lemma set_drawn k ds : (k <= n)%nat -> legit_before k -> ds ∈ sets k ->
  byte_list (ds_name ds) /\ exists m, (m < k)%nat /\ set_ok m (ds_prefix ds) (ds_shards ds) /\ sets (S m) = ds :: sets m.
Proof.
  intros Hk Hb Hds. destruct (drawn k ds Hk Hds) as (m & Hm & E & _ & Hby & Hok). split; [done|]. exists m. split_and!; [done| |done]. apply Hok; [done|].
  pose proof or_small as Hsmall. rewrite Forall_forall in Hsmall. apply Hsmall. eapply set_stays; [|exact Hds]. lia.
Qed.

Lemma member_set k ds d : (k <= n)%nat -> legit_before k -> ds ∈ sets k ->
  set_of_name (member_name ds d) = Some ("s" +:+ hex_encode (ds_name ds), slen (ds_shards ds)).
Proof.
  intros Hk Hb Hds. destruct (set_drawn k ds Hk Hb Hds) as (Hby & m & _ & Hok & _). unfold member_name. apply name_of_set; [by eapply set_prefix|done|].
  destruct Hok as [Hlt _]. split; [|done]. unfold slen. lia.
Qed.

Lemma member_unique k m ds ds' d d' : (k <= n)%nat -> (m <= n)%nat -> legit_before k -> legit_before m -> ds ∈ sets k -> ds' ∈ sets m ->
  member_name ds d = member_name ds' d' -> ds = ds'.
Proof.
  intros Hk Hm Hb Hb' Hds Hds' E. apply (set_unique ds ds' k m); [done..|]. pose proof (member_set k ds d Hk Hb Hds) as E1. rewrite E in E1.
  rewrite (member_set m ds' d' Hm Hb' Hds') in E1. injection E1 as E1. apply hex_inj; [apply (set_drawn k ds Hk Hb Hds)|apply (set_drawn m ds' Hm Hb' Hds')|]. symmetry. exact E1.
Qed.

(** ** Every blob is of a known kind *)

Definition set_blob (k : nat) (id : string) (x : blob) : Prop :=
  exists ds d m, ds ∈ sets m /\ (m < k)%nat /\ d ∈ ds_shards ds /\ id = member_name ds d /\ blob_Decrypt (bl_data x) id = Ok d
    /\ bl_time x = sigma m /\ blobs (S m) !! id = Some x.

Definition index_blob_of (k : nat) (id : string) (x : blob) : Prop :=
  exists j t e d, threads k !! j = Some t /\ writes (t_op t) id e d /\ blob_Decrypt (bl_data x) id = Ok d /\ reached k e.

Definition known_blob (k : nat) (id : string) (x : blob) : Prop :=
  kind_of id = "e"%char \/ kind_of id = "w"%char \/ index_blob_of k id x \/ set_blob k id x.

Lemma known_blob_turn k id x : (k < n)%nat -> legit_before (S k) -> known_blob k id x -> known_blob (S k) id x.
Proof.
  intros Hk Hb [H|[H|[(j & t & e & l & Hj & Hw & Hl & Hr)|(ds & d & m & ? & ? & ?)]]]; [by left|by right; left| |].
  - destruct (thread_turn k j t Hk Hj) as (t' & Hj' & Eo & _). do 2 right. left. exists j, t', e, l. rewrite Eo. split_and!; [done..|]. by apply reached_turn.
  - do 3 right. exists ds, d, m. split_and!; [done|lia|apply H1..].
Qed.

Lemma blob_known k id x : (k <= n)%nat -> legit_before k -> blobs k !! id = Some x -> known_blob k id x.
Proof.
  revert x. induction k as [|k IH]; intros x Hk Hb Hx.
  { unfold blobs in Hx. by rewrite (run_start _ _ _ run_ok) in Hx. }
  assert (legit_before k) as Hb' by (eapply legit_before_le; [|exact Hb]; lia).
  destruct (decide (blobs (S k) !! id = blobs k !! id)) as [E|E].
  { apply known_blob_turn; [lia|done|]. apply IH; [lia|done|congruence]. }
  destruct (change k id ltac:(lia) Hb E) as (_ & j & i & o & c & Ee & Hj & [(data & Hd & Hput)|(_ & Hd & _)]); [|congruence].
  rewrite Hx in Hd. injection Hd as ->. destruct Hput as [H|[H|[(e & l & Hw & Hr & Hl & _)|(ds & d & Hds & _ & Hd & -> & Hdec & _)]]].
  - left. by apply kind_marker.
  - right. left. by apply kind_watermark.
  - do 2 right. left. destruct (thread_turn k j _ ltac:(lia) Hj) as (t' & Hj' & Eo & _). exists j, t', e, l. rewrite Eo. split_and!; [done..|]. apply reached_turn; [lia|done..].
  - do 3 right. exists ds, d, k. split_and!; [done|lia|done..].
Qed.

Lemma blob_time k id x : (k <= n)%nat -> legit_before k -> blobs k !! id = Some x -> bl_time x <= sigma k.
Proof.
  induction k as [|k IH]; intros Hk Hb Hx.
  { unfold blobs in Hx. by rewrite (run_start _ _ _ run_ok) in Hx. }
  assert (legit_before k) as Hbk by (eapply legit_before_le; [|exact Hb]; lia). pose proof (or_storage k (S k) ltac:(lia)).
  destruct (decide (blobs (S k) !! id = blobs k !! id)) as [E|E]; [rewrite E in Hx; pose proof (IH ltac:(lia) Hbk Hx); lia|].
  destruct (change k id ltac:(lia) Hb E) as (_ & j & i & o & c & _ & _ & [(data & Hd & _)|(_ & Hd & _)]); [|congruence]. rewrite Hx in Hd. injection Hd as ->. cbn. lia.
Qed.

Lemma writes_kind o id e d : writes o id e d -> kind_of id = "n"%char.
Proof. by intros (_ & _ & ->). Qed.

Lemma writes_epoch o id e d : writes o id e d -> epochNumberFromBlobID id = Some e.
Proof. intros (He & _ & ->). by apply uncompacted_epoch. Qed.

Lemma set_blob_kind k id x : (k <= n)%nat -> legit_before k -> set_blob k id x -> kind_of id = "s"%char \/ kind_of id = "r"%char.
Proof.
  intros Hk Hb (ds & d & m & Hds & Hm & _ & -> & _). destruct (set_drawn m ds) as (_ & m' & _ & Hok & _); [lia|eapply legit_before_le; [|exact Hb]; lia|done|].
  by eapply member_kind.
Qed.

(** A blob of a set is what was put there. *)
Lemma blob_of_set k id x : (k <= n)%nat -> legit_before k -> blobs k !! id = Some x -> kind_of id = "s"%char \/ kind_of id = "r"%char -> set_blob k id x.
Proof.
  intros Hk Hb Hx Hkind. destruct (blob_known k id x Hk Hb Hx) as [H|[H|[(j & t & e & l & _ & Hw & _)|H]]]; [|..|done].
  - rewrite H in Hkind. by destruct Hkind.
  - rewrite H in Hkind. by destruct Hkind.
  - apply writes_kind in Hw. rewrite Hw in Hkind. by destruct Hkind.
Qed.

Lemma blob_of_index k id x : (k <= n)%nat -> legit_before k -> blobs k !! id = Some x -> kind_of id = "n"%char -> index_blob_of k id x.
Proof.
  intros Hk Hb Hx Hkind. destruct (blob_known k id x Hk Hb Hx) as [H|[H|[H|H]]]; [congruence|congruence|done|].
  apply set_blob_kind in H; [|done..]. rewrite Hkind in H. by destruct H.
Qed.

(** ** What stays *)

(** The blobs of a set whose names are distinct. *)
Lemma member_stays k m ds d x : (k <= m <= n)%nat -> legit_before m -> ds ∈ sets k -> NoDup (set_names ds) -> blobs k !! member_name ds d = Some x ->
  blobs m !! member_name ds d = Some x.
Proof.
  intros [Hk Hm]. induction Hk as [|m Hk IH]; intros Hb Hds Hnd Hx; [done|].
  assert (legit_before m) as Hb' by (eapply legit_before_le; [|exact Hb]; lia). assert (ds ∈ sets m) as Hdm by (eapply set_stays; [|exact Hds]; lia).
  destruct (decide (blobs (S m) !! member_name ds d = blobs m !! member_name ds d)) as [E|E]; [rewrite E; apply IH; done || lia|].
  destruct (set_drawn m ds) as (_ & m' & _ & Hok & _); [lia|done|done|]. pose proof (member_kind _ ds d Hok) as Hkind.
  destruct (change m _ ltac:(lia) Hb E) as (_ & j & i & o & c & _ & _ & [(data & Hd & Hput)|(_ & _ & Hdel)]).
  - exfalso. destruct Hput as [H%kind_marker|[H%kind_watermark|[(e & l & Hw%writes_kind & _)|(ds' & d' & Hds' & _ & Hd' & En & _ & Hnew)]]].
    1-3: destruct Hkind; congruence.
    assert (ds = ds') as <- by (apply (member_unique m m ds ds' d d'); done || lia). rewrite IH in Hnew; [by specialize (Hnew Hnd)|lia|done..].
  - exfalso. destruct Hdel as [[H%kind_marker _]|[H%kind_watermark|[(e & d' & Hw%writes_kind)|(_ & e & H%kind_uncompacted & _)]]]; destruct Hkind; congruence.
Qed.

Lemma superseded_later k m e : (k <= m <= n)%nat -> legit_before m -> superseded k e -> superseded m e.
Proof.
  intros Hk Hb (ds & Hds & Hp & Hne & Hnd & Hall). exists ds. split_and!; [by eapply set_stays|done..|]. intros id Hid. destruct (Hall id Hid) as (x & Hx & Ht).
  exists x. apply list_elem_of_fmap in Hid as (d & -> & _). split; [by apply (member_stays k m)|]. pose proof (or_storage k m). lia.
Qed.

(** An uncompacted blob stays until its epoch is superseded. *)
Lemma lasting_stays id e k x m : lasting id e k x -> (k <= m <= n)%nat -> legit_before m -> blobs m !! id = Some x \/ superseded m e.
Proof.
  intros La [Hk Hm]. induction Hk as [|m Hk IH]; intros Hb; [left; apply La|].
  assert (legit_before m) as Hb' by (eapply legit_before_le; [|exact Hb]; lia). destruct IH as [Hx|Hs]; [lia|done| |right; eapply superseded_later; [|done|exact Hs]; lia].
  destruct (decide (blobs (S m) !! id = blobs m !! id)) as [E|E]; [left; congruence|]. pose proof (uncompacted_prefix_kind _ _ (la_name _ _ _ _ La)) as Hkind.
  destruct (change m id ltac:(lia) Hb E) as (_ & j & i & o & c & Ee & Hj & [(data & Hd & Hput)|(Hs & Hd & Hdel)]).
  - exfalso. destruct Hput as [H%kind_marker|[H%kind_watermark|[(e' & l & _ & _ & _ & Hn)|(ds & d & Hds & _ & _ & -> & _)]]]; [congruence|congruence|congruence|].
    destruct (set_drawn m ds) as (_ & m' & _ & Hok & _); [lia|done|done|]. pose proof (member_kind _ ds d Hok) as Hkd. rewrite Hkind in Hkd. by destruct Hkd.
  - destruct Hdel as [[H%kind_marker _]|[H%kind_watermark|[(e' & d & Hw)|(_ & e' & _ & He' & Hsup)]]]; [congruence|congruence| |].
    + exfalso. apply (la_kept _ _ _ _ La m); [lia|]. exists j, (mkThread i o c). split_and!; [done|done| |done|done]. destruct Hw as (_ & Hu & _).
      destruct o; done || by apply not_elem_of_nil in Hu.
    + right. rewrite (uncompacted_prefix_epoch id e) in He'; [|apply La|apply La]. injection He' as <-. eapply superseded_later; [|done|exact Hsup]. lia.
Qed.

End History.
