(* ===== verification/EpochCover.v ===== *)
(** * Snapshots cover what was written

    A set that a snapshot found complete has all of its members; a compaction that
    superseded an epoch early enough is in the snapshot; so the blobs that a
    snapshot gives for an epoch cover every entry of every uncompacted blob of the
    epoch that lasts, as long as the snapshot is used within the safety margin. *)

From S2P Require Import Prelude GoStrings GoText GoTime Db IndexID IndexTable IndexV1 IndexV2 IndexV2Facts IndexBuild IndexMergedFacts IndexRoundTrip Gather PackFormat ContentStore IndexBlobV0 ContentSpec EpochUtils EpochManager EpochSystem EpochNames EpochLogic EpochHistory.
From Stdlib Require Import Ascii.
Open Scope go_scope.

(** ** Listings *)

Lemma elem_of_listing b prefix md : md ∈ listing b prefix <->
  exists x, b !! md_BlobID md = Some x /\ HasPrefix (md_BlobID md) prefix = true /\ md = mkMetadata (md_BlobID md) (slen (bl_data x)) (bl_time x).
Proof.
  unfold listing. rewrite list_elem_of_fmap. split.
  - intros ([id x] & -> & [Hp Hx]%list_elem_of_filter). apply elem_of_map_to_list in Hx. by exists x.
  - intros (x & Hx & Hp & ->). exists (md_BlobID md, x). split; [done|]. apply list_elem_of_filter. split; [done|]. by apply elem_of_map_to_list.
Qed.

Lemma listing_ids b prefix : NoDup (md_BlobID <$> listing b prefix).
Proof.
  unfold listing. rewrite <- list_fmap_compose. change (NoDup (fst <$> filter (fun e : string * blob => HasPrefix e.1 prefix = true) (map_to_list b))).
  apply (sublist_NoDup _ (map_to_list b).*1); [apply NoDup_fst_map_to_list|]. apply fmap_sublist, sublist_filter.
Qed.

Lemma NoDup_ids_filter (F : Metadata -> Prop) `{!forall x, Decision (F x)} l : NoDup (md_BlobID <$> l) -> NoDup (md_BlobID <$> filter F l).
Proof. intros Hl. eapply sublist_NoDup; [exact Hl|]. apply fmap_sublist, sublist_filter. Qed.

Section Cover.
Context {EE : EpochEnvironment} {p : EpochParameters} {TC : Crypter} {TCL : CrypterLaws} {TP : Parameters} {T : Type} {TT : LLRB T} {R : Run (p := p) (T := T)} {O : Orderly}.

Abbreviation n := turns.

(** ** What a name denotes *)

Definition denotes (m : nat) (id : string) (d : list Z) : Prop :=
  (exists j t e, threads n !! j = Some t /\ writes (t_op t) id e d)
  \/ exists ds, ds ∈ sets m /\ NoDup (set_names ds) /\ d ∈ ds_shards ds /\ id = member_name ds d.

Lemma denotes_later k m id d : (k <= m <= n)%nat -> denotes k id d -> denotes m id d.
Proof. intros Hk [H|(ds & Hds & H)]; [by left|]. right. exists ds. split; [by eapply set_stays|done]. Qed.

Lemma own_name_inj o d d' : start_ok o -> d ∈ own_shards o -> d' ∈ own_shards o -> own_name o d = own_name o d' -> d = d'.
Proof. intros [Hnd _] Hd Hd' E. by apply (NoDup_fmap_inj_elem (own_name o) (own_shards o)). Qed.

(** The blob of a name has one owner and one shard. *)
Lemma writes_unique j t j' t' id e d e' d' : threads n !! j = Some t -> threads n !! j' = Some t' ->
  writes (t_op t) id e d -> writes (t_op t') id e' d' -> j = j' /\ e = e' /\ d = d'.
Proof.
  intros Hj Hj' (He & Hd & Ei) (He' & Hd' & Ei'). assert (e = e') as <-.
  { assert (Some e = Some e') as [=]; [|done]. rewrite <- (uncompacted_epoch e (own_name (t_op t) d) He), <- (uncompacted_epoch e' (own_name (t_op t') d') He'). congruence. }
  rewrite Ei in Ei'. apply sapp_inj_l in Ei'. assert (j = j') as <-.
  { destruct (decide (j = j')) as [|Hne]; [done|]. exfalso. apply (or_names j t j' t' Hj Hj' Hne (own_name (t_op t) d)).
    - by apply list_elem_of_fmap_2.
    - rewrite Ei'. by apply list_elem_of_fmap_2. }
  rewrite Hj in Hj'. injection Hj' as <-. split_and!; [done|done|]. eapply own_name_inj; [by eapply or_start|done..].
Qed.

Lemma member_name_inj ds d d' : NoDup (set_names ds) -> d ∈ ds_shards ds -> d' ∈ ds_shards ds -> member_name ds d = member_name ds d' -> d = d'.
Proof. intros Hnd Hd Hd' E. by apply (NoDup_fmap_inj_elem (member_name ds) (ds_shards ds)). Qed.

Lemma denoted k m id d x : (k <= m <= n)%nat -> legit_before m -> denotes m id d -> blobs k !! id = Some x -> blob_Decrypt (bl_data x) id = Ok d.
Proof.
  intros [Hkm Hm] Hb Hden Hx. assert (legit_before k) as Hbk by (eapply legit_before_le; [|exact Hb]; lia).
  destruct Hden as [(j & t & e & Hj & Hw)|(ds & Hds & Hnd & Hd & ->)].
  - destruct (blob_of_index k id x) as (j' & t' & e' & d' & Hj' & Hw' & Hdec & _); [lia|done|done|by eapply writes_kind|].
    destruct (thread_later k n j' t') as (t'' & Hj'' & Eo & _); [lia|done|]. rewrite <- Eo in Hw'.
    destruct (writes_unique j t j' t'' id e d e' d' Hj Hj'' Hw Hw') as (_ & _ & ->). done.
  - destruct (set_drawn m ds) as (_ & m' & _ & Hok & _); [done..|].
    destruct (blob_of_set k (member_name ds d) x) as (ds' & d' & m2 & Hds' & Hm2 & Hd' & En & Hdec & _); [lia|done|done|by eapply member_kind|].
    assert (ds = ds') as <-.
    { eapply (member_unique m m2); [done|lia|done| |done|done|exact En]. eapply legit_before_le; [|exact Hb]. lia. }
    rewrite Hdec. f_equal. symmetry. by apply (member_name_inj ds).
Qed.

Lemma denotes_unique m id d d' : (m <= n)%nat -> legit_before m -> denotes m id d -> denotes m id d' -> d = d'.
Proof.
  intros Hm Hb [(j & t & e & Hj & Hw)|(ds & Hds & Hnd & Hd & En)] [(j' & t' & e' & Hj' & Hw')|(ds' & Hds' & _ & Hd' & En')].
  - by destruct (writes_unique j t j' t' id e d e' d' Hj Hj' Hw Hw') as (_ & _ & ->).
  - destruct (set_drawn m ds' Hm Hb Hds') as (_ & m' & _ & Hok & _). pose proof (member_kind _ ds' d' Hok) as Hk. rewrite <- En', (writes_kind _ _ _ _ Hw) in Hk. by destruct Hk.
  - destruct (set_drawn m ds Hm Hb Hds) as (_ & m' & _ & Hok & _). pose proof (member_kind _ ds d Hok) as Hk. rewrite <- En, (writes_kind _ _ _ _ Hw') in Hk. by destruct Hk.
  - rewrite En in En'. assert (ds = ds') as <- by (eapply (member_unique m m); [done..|exact En']). by eapply member_name_inj.
Qed.

(** ** Complete sets have all their members *)

Lemma prefix_kind_set md : HasPrefix (md_BlobID md) SingleEpochCompactionBlobPrefix = true \/ HasPrefix (md_BlobID md) RangeCheckpointIndexBlobPrefix = true ->
  kind_of (md_BlobID md) = "s"%char \/ kind_of (md_BlobID md) = "r"%char.
Proof. by intros [?%kind_prefix|?%kind_prefix]; [left|right]. Qed.

Lemma found_set k prefix (F : Metadata -> Prop) `{!forall x, Decision (F x)} l s : (k <= n)%nat -> legit_before k ->
  prefix = SingleEpochCompactionBlobPrefix \/ prefix = RangeCheckpointIndexBlobPrefix -> l ≡ₚ listing (blobs k) prefix -> FindFirst (filter F l) = Some s ->
  exists ds, ds ∈ sets k /\ NoDup (set_names ds) /\ ds_shards ds <> [] /\ md_BlobID <$> s ≡ₚ set_names ds /\ forall md, md ∈ s -> F md /\ md ∈ listing (blobs k) prefix.
Proof.
  intros Hk Hb Hpre Hl Hs.
  assert (forall md, md ∈ filter F l -> F md /\ md ∈ listing (blobs k) prefix) as Hin.
  { intros md [HF Hmd]%list_elem_of_filter. split; [done|]. by rewrite <- Hl. }
  assert (forall md, md ∈ filter F l -> exists ds d, ds ∈ sets k /\ d ∈ ds_shards ds /\ md_BlobID md = member_name ds d) as Hset.
  { intros md Hmd. destruct (Hin md Hmd) as [_ (x & Hx & Hp & _)%elem_of_listing].
    destruct (blob_of_set k _ x Hk Hb Hx) as (ds & d & m & Hds & Hm & Hd & En & _).
    - apply prefix_kind_set. by destruct Hpre as [-> | ->]; [left|right].
    - exists ds, d. split_and!; [|done..]. eapply set_stays; [|exact Hds]. lia. }
  assert (forall md ds, md ∈ filter F l -> in_set ("s" +:+ hex_encode (ds_name ds)) md -> ds ∈ sets k -> md_BlobID md ∈ set_names ds) as Hmem.
  { intros md ds Hmd Hi Hds. destruct (Hset md Hmd) as (ds' & d & Hds' & Hd & En). assert (ds = ds') as ->; [|rewrite En; by apply list_elem_of_fmap_2].
    unfold in_set in Hi. rewrite En, (member_set k ds' d Hk Hb Hds') in Hi. cbn in Hi. injection Hi as Hi.
    apply (set_unique ds ds' k k); [done..|]. apply hex_inj; [apply (set_drawn k ds Hk Hb Hds)|apply (set_drawn k ds' Hk Hb Hds')|].
    symmetry. exact Hi. }
  apply FindFirst_complete in Hs as [(bm & -> & Hbm & En)|(sid & c & bm & Hsub & Hbm & En & Hc)].
  - destruct (Hset bm Hbm) as (ds & d & Hds & Hd & Eid). rewrite Eid, (member_set k ds d Hk Hb Hds) in En. done.
  - assert (forall md, md ∈ s -> md ∈ filter F l /\ in_set sid md) as Hsin.
    { intros md Hmd. eapply elem_of_sublist in Hmd; [|exact Hsub]. by apply list_elem_of_filter in Hmd as [? ?]. }
    destruct (Hsin bm Hbm) as [Hbl Hbi]. destruct (Hset bm Hbl) as (ds & d & Hds & Hd & Eid). pose proof (member_set k ds d Hk Hb Hds) as Em.
    rewrite <- Eid, En in Em. injection Em as -> ->. exists ds.
    assert (NoDup (md_BlobID <$> s)) as Hnd.
    { eapply sublist_NoDup; [|apply fmap_sublist; exact Hsub]. apply NoDup_ids_filter, NoDup_ids_filter. rewrite Hl. apply listing_ids. }
    assert (md_BlobID <$> s ≡ₚ set_names ds) as Hperm.
    { apply submseteq_length_Permutation.
      - apply NoDup_submseteq; [done|]. intros id (md & -> & Hmd)%list_elem_of_fmap. destruct (Hsin md Hmd). by apply Hmem.
      - unfold set_names, slen in *. rewrite !length_fmap. lia. }
    split_and!; [done|by rewrite <- Hperm| |done|].
    + intros E. rewrite E in Hd. by apply not_elem_of_nil in Hd.
    + intros md Hmd. destruct (Hsin md Hmd) as [HH _]. by apply Hin.
Qed.

(** A compaction that is there is in a snapshot. *)
Lemma set_found k ds e l : (k <= n)%nat -> legit_before k -> ds ∈ sets k -> NoDup (set_names ds) -> ds_shards ds <> [] ->
  ds_prefix ds = compactedEpochBlobPrefix e -> epoch_number e -> (forall id, id ∈ set_names ds -> is_Some (blobs k !! id)) ->
  l ≡ₚ listing (blobs k) SingleEpochCompactionBlobPrefix -> is_Some (omap FindFirst (groupByEpochNumber l) !! e).
Proof.
  intros Hk Hb Hds Hnd Hne Hp He Hall Hl. set (g := filter (of_epoch e) l). set (id := "s" +:+ hex_encode (ds_name ds)).
  assert (forall bm, bm ∈ g -> in_set id bm -> md_BlobID bm ∈ set_names ds) as Hmem.
  { intros bm [_ Hbm]%list_elem_of_filter Hi. rewrite Hl in Hbm. apply elem_of_listing in Hbm as (x & Hx & Hpre & _).
    destruct (blob_of_set k _ x Hk Hb Hx) as (ds' & d & m & Hds' & Hm & Hd & En & _); [apply prefix_kind_set; by left|].
    assert (ds' ∈ sets k) as Hdk by (eapply set_stays; [|exact Hds']; lia). assert (ds' = ds) as ->; [|rewrite En; by apply list_elem_of_fmap_2].
    unfold in_set in Hi. rewrite En, (member_set k ds' d Hk Hb Hdk) in Hi. injection Hi as Hi. apply (set_unique ds' ds k k); [done..|].
    apply hex_inj; [apply (set_drawn k ds' Hk Hb Hdk)|apply (set_drawn k ds Hk Hb Hds)|exact Hi]. }
  assert (forall d, d ∈ ds_shards ds -> exists bm, bm ∈ filter (in_set id) g /\ md_BlobID bm = member_name ds d) as Hin.
  { intros d Hd. destruct (Hall (member_name ds d)) as [x Hx]; [by apply list_elem_of_fmap_2|].
    exists (mkMetadata (member_name ds d) (slen (bl_data x)) (bl_time x)). split; [|done]. unfold g. rewrite !list_elem_of_filter. split_and!.
    - unfold in_set. cbn [md_BlobID]. by rewrite (member_set k ds d Hk Hb Hds).
    - unfold of_epoch. cbn [md_BlobID]. unfold member_name. rewrite Hp, blob_name_set, !sapp_assoc. by apply compacted_epoch.
    - rewrite Hl. apply elem_of_listing. exists x. cbn [md_BlobID]. split_and!; [done| |done]. unfold member_name. rewrite Hp, blob_name_set. done. }
  assert (md_BlobID <$> filter (in_set id) g ≡ₚ set_names ds) as Hperm.
  { apply NoDup_Permutation; [|done|].
    - apply NoDup_ids_filter, NoDup_ids_filter. rewrite Hl. apply listing_ids.
    - intros x. split.
      + intros (bm & -> & [Hi Hbm]%list_elem_of_filter)%list_elem_of_fmap. by apply Hmem.
      + intros (d & -> & Hd)%list_elem_of_fmap. destruct (Hin d Hd) as (bm & Hbm & <-). by apply list_elem_of_fmap_2. }
  assert (filter (in_set id) g <> []) as Hgne.
  { intros E. rewrite E in Hperm. apply Permutation_nil in Hperm. unfold set_names in Hperm. by apply fmap_nil_inv in Hperm. }
  rewrite lookup_omap. assert (groupByEpochNumber l !! e = Some g) as ->.
  { apply group_epoch_lookup. split; [done|]. intros E. apply Hgne. by rewrite E. }
  cbn. apply (FindFirst_found g id (slen (ds_shards ds))); [done| |].
  - intros bm Hbm Hi. pose proof (Hmem bm Hbm Hi) as (d & -> & _)%list_elem_of_fmap. by apply (member_set k).
  - apply Permutation_length in Hperm. unfold set_names in Hperm. rewrite !length_fmap in Hperm. unfold slen. by rewrite Hperm.
Qed.

(** ** Prefixes *)

Lemma compacted_prefix_inj e e' : epoch_number e -> epoch_number e' -> compactedEpochBlobPrefix e = compactedEpochBlobPrefix e' -> e = e'.
Proof.
  intros He He' E. assert (Some e = Some e') as [=]; [|done]. rewrite <- (compacted_epoch e "" He), <- (compacted_epoch e' "" He'). by rewrite E.
Qed.

(** The set of a compacted epoch. *)
Lemma single_set k ds e : (k <= n)%nat -> legit_before k -> ds ∈ sets k -> epoch_number e -> ds_prefix ds = compactedEpochBlobPrefix e ->
  exists m, (m < k)%nat /\ sets (S m) = ds :: sets m /\ reached m (e + 2) /\ covers_epoch (ds_shards ds) e.
Proof.
  intros Hk Hb Hds He Hp. destruct (set_drawn k ds Hk Hb Hds) as (_ & m & Hm & (_ & _ & Hok) & Hs). exists m. split_and!; [done|done|..];
    rewrite Hp in Hok; (destruct Hok as [(e' & _ & He' & E & Hr & Hc)|(lo & hi & _ & _ & _ & E & _)]; [|discriminate]); by apply compacted_prefix_inj in E as <-.
Qed.

(** A compaction that supersedes an epoch was there the whole safety margin before. *)
Lemma superseded_before k0 k m e : (k0 <= m <= n)%nat -> (k <= n)%nat -> legit_before k -> legit_before m -> epoch_number e ->
  superseded k e -> sigma k - sigma k0 <= CleanupSafetyMargin p -> reached m (e + 2) /\
  forall l, l ≡ₚ listing (blobs m) SingleEpochCompactionBlobPrefix -> is_Some (omap FindFirst (groupByEpochNumber l) !! e).
Proof.
  intros [Hk0 Hm] Hk Hb Hbm He (ds & Hds & Hp & Hne & Hnd & Hall) Hs.
  assert (forall d, d ∈ ds_shards ds -> exists k', (k' < k0)%nat /\ (k' < k)%nat /\ ds ∈ sets k' /\ exists x, blobs (S k') !! member_name ds d = Some x) as Hearly.
  { intros d Hd. destruct (Hall (member_name ds d)) as (x & Hx & Ht); [by apply list_elem_of_fmap_2|]. destruct (set_drawn k ds Hk Hb Hds) as (_ & m' & _ & Hok & _).
    destruct (blob_of_set k _ x Hk Hb Hx) as (ds' & d' & k' & Hds' & Hk' & Hd' & En & _ & Etime & Hx'); [by eapply member_kind|].
    assert (ds = ds') as <- by (eapply (member_unique k k'); [done|lia|done|eapply legit_before_le; [|exact Hb]; lia|done|done|exact En]).
    exists k'. split_and!; [|done|done|by exists x]. destruct (decide (k' < k0)%nat) as [|Hge]; [done|]. pose proof (or_storage k0 k' ltac:(lia)). lia. }
  assert (exists d, d ∈ ds_shards ds) as [d0 Hd0] by (destruct (ds_shards ds) as [|d0 ?]; [done|]; exists d0; by left).
  destruct (Hearly d0 Hd0) as (k1 & Hk1 & Hk1' & Hds1 & _). destruct (single_set k1 ds e) as (m1 & Hm1 & _ & Hr & _); [lia|eapply legit_before_le; [|exact Hb]; lia|done..|]. split.
  - eapply reached_later; [|done|exact Hr]. lia.
  - intros l Hl. apply (set_found m ds e l); try done; [eapply set_stays; [|exact Hds1]; lia|].
    intros id (d & -> & Hd)%list_elem_of_fmap. destruct (Hearly d Hd) as (k' & Hk' & Hk2 & Hds' & x & Hx). exists x.
    apply (member_stays (S k') m); [lia|done| |done|done]. eapply set_stays; [|exact Hds']. lia.
Qed.

(** ** Ranges *)

Lemma range_prefix_inj e f e' f' : epoch_number e -> epoch_number f -> epoch_number e' -> epoch_number f' ->
  rangeCheckpointBlobPrefix e f = rangeCheckpointBlobPrefix e' f' -> e = e' /\ f = f'.
Proof.
  intros He Hf He' Hf' E. assert (Some (e, f) = Some (e', f')) as [=]; [|done]. rewrite <- (range_epochs e f "" He Hf), <- (range_epochs e' f' "" He' Hf'). by rewrite E.
Qed.

(** ** What names cover *)

(** Every name of a set, and of an uncompacted blob, stands for an index. *)
Definition stands (m : nat) (id : string) : Prop := exists d l, denotes m id d /\ index_data d l.

Lemma set_stands k ds id : (k <= n)%nat -> legit_before k -> ds ∈ sets k -> NoDup (set_names ds) -> id ∈ set_names ds -> stands k id.
Proof.
  intros Hk Hb Hds Hnd (d & -> & Hd)%list_elem_of_fmap. destruct (set_drawn k ds Hk Hb Hds) as (_ & m & _ & (_ & Hidx & _) & _).
  rewrite Forall_forall in Hidx. destruct (Hidx d Hd) as [l Hl]. exists d, l. split; [|done]. right. by exists ds.
Qed.

Lemma index_stands k id x : (k <= n)%nat -> legit_before k -> blobs k !! id = Some x -> kind_of id = "n"%char -> stands k id.
Proof.
  intros Hk Hb Hx Hkind. destruct (blob_of_index k id x Hk Hb Hx Hkind) as (j & t & e & d & Hj & Hw & _). destruct (thread_later k n j t) as (t' & Hj' & Eo & _); [lia|done|].
  destruct (or_start j t' Hj') as [_ Hidx]. rewrite Forall_forall in Hidx. rewrite <- Eo in Hw. destruct (Hidx d) as [l Hl]; [apply Hw|]. exists d, l. split; [|done]. left. by exists j, t', e.
Qed.

Lemma stands_later k m id : (k <= m <= n)%nat -> stands k id -> stands m id.
Proof. intros Hk (d & l & Hd & Hl). exists d, l. split; [by eapply denotes_later|done]. Qed.

Definition ids_cover (m : nat) (ids : list string) (it : Info) : Prop :=
  exists id d l it', id ∈ ids /\ denotes m id d /\ index_data d l /\ it' ∈ l /\ better it' it.

(** An entry of a blob that was there in turn [kb] and lasts. *)
Definition entry_of (e : Z) (kb : nat) (it : Info) : Prop :=
  exists id k x l, lasting id e k x /\ (k <= kb)%nat /\ blob_holds id (bl_data x) l /\ it ∈ l.

Lemma covers_epoch_entries shards e : covers_epoch shards e <-> forall it kb, entry_of e kb it -> covers shards it.
Proof.
  split.
  - intros H it kb (id & k & x & l & Hla & _ & Hl & Hit). by eapply H.
  - intros H id k x l it Hla Hl Hit. apply (H it k). by exists id, k, x, l.
Qed.

Lemma ids_cover_set m ids ds it : ds ∈ sets m -> NoDup (set_names ds) -> set_names ds ⊆ ids -> covers (ds_shards ds) it -> ids_cover m ids it.
Proof.
  intros Hds Hnd Hsub (d & l & it' & Hd & Hl & Hit & Hbe). exists (member_name ds d), d, l, it'. split_and!; [|right|done..].
  - apply Hsub. by apply list_elem_of_fmap_2.
  - by exists ds.
Qed.

Lemma ids_cover_mono k m ids ids' it : (k <= m <= n)%nat -> ids ⊆ ids' -> ids_cover k ids it -> ids_cover m ids' it.
Proof.
  intros Hk Hsub (id & d & l & it' & Hid & Hd & H). exists id, d, l, it'. split_and!; [by apply Hsub|by eapply denotes_later|apply H..].
Qed.

Lemma better_refl it : better it it.
Proof. split; [done|]. apply entry_le_refl. Qed.

(** A blob that lasts and is still there is listed. *)
Lemma ids_cover_listed k m e l it : (k <= m <= n)%nat -> legit_before m -> entry_of e k it -> ~ superseded m e ->
  l ≡ₚ listing (blobs m) (UncompactedEpochBlobPrefix e) -> ids_cover m (md_BlobID <$> l) it.
Proof.
  intros [Hk Hm] Hb (id & k' & x & entries & Hla & Hk' & (d & Hdec & Hd) & Hit) Hsup Hl.
  destruct (lasting_stays id e k' x m Hla ltac:(lia) Hb) as [Hx|?]; [|done]. exists id, d, entries, it. split_and!; [| |done|done|apply better_refl].
  - apply list_elem_of_fmap. exists (mkMetadata id (slen (bl_data x)) (bl_time x)). split; [done|]. rewrite Hl. apply elem_of_listing. exists x. cbn.
    split_and!; [done|apply Hla|done].
  - left. destruct (blob_of_index m id x) as (j & t & e' & d' & Hj & Hw & Hdec' & _); [lia|done|done|eapply uncompacted_prefix_kind; apply Hla|].
    destruct (thread_later m n j t) as (t' & Hj' & Eo & _); [lia|done|]. exists j, t', e'. split; [done|]. rewrite Eo. congruence.
Qed.

(** ** Snapshots *)

Section Loaded.
Context {i : nat} {cs : CurrentSnapshot} {k0 k1 k2 : nat} (Ld : loaded i cs k0 k1 k2) (Hn : (k2 <= n)%nat) (Hb : legit_before k2).

(** A blob that was there since the loading began. *)
Definition seen_from (k : nat) (id : string) : Prop := exists m x, (k <= m <= n)%nat /\ blobs m !! id = Some x.

Abbreviation seen := (seen_from k0).

Lemma loaded_single e s : SingleEpochCompactionSets cs !! e = Some s ->
  exists ds m, (k0 < m < k2)%nat /\ ds ∈ sets m /\ NoDup (set_names ds) /\ ds_shards ds <> [] /\ md_BlobID <$> s ≡ₚ set_names ds
    /\ ds_prefix ds = compactedEpochBlobPrefix e /\ covers_epoch (ds_shards ds) e
    /\ forall md, md ∈ s -> md ∈ listing (blobs m) SingleEpochCompactionBlobPrefix.
Proof.
  destruct (ld_single _ _ _ _ _ Ld) as (k & l & Hk & Hl & ->). rewrite lookup_omap. destruct (groupByEpochNumber l !! e) as [g|] eqn:Eg; [|done]. cbn. intros Hf.
  apply group_epoch_lookup in Eg as [-> _]. assert (legit_before k) as Hbk by (eapply legit_before_le; [|exact Hb]; lia).
  destruct (found_set k SingleEpochCompactionBlobPrefix (of_epoch e) l s) as (ds & Hds & Hnd & Hne & Hperm & Hin); [lia|done|by left|done|done|].
  exists ds, k. destruct (set_drawn k ds ltac:(lia) Hbk Hds) as (_ & m & _ & (_ & _ & Hok) & _).
  assert (exists d, member_name ds d ∈ md_BlobID <$> s) as [d Hd].
  { destruct (ds_shards ds) as [|d ds'] eqn:Ed; [done|]. exists d. rewrite Hperm. apply list_elem_of_fmap_2. rewrite Ed. by left. }
  apply list_elem_of_fmap in Hd as (md & Em & Hmd). destruct (Hin md Hmd) as [HF (x & _ & Hpre & _)%elem_of_listing]. unfold of_epoch in HF. rewrite <- Em in HF, Hpre.
  unfold member_name in HF, Hpre. rewrite blob_name_set in HF, Hpre. destruct Hok as [(e' & _ & He' & E & _ & Hc)|(lo & hi & _ & _ & _ & E & _)]; rewrite E in HF, Hpre; [|done].
  rewrite sapp_assoc in HF. rewrite compacted_epoch in HF by done. injection HF as <-. split_and!; try done; [lia|lia|]. intros md' Hmd'. by apply Hin.
Qed.

Lemma loaded_range r : r ∈ LongestRangeCheckpointSets cs ->
  exists ds, ds ∈ sets k2 /\ NoDup (set_names ds) /\ md_BlobID <$> Blobs r ≡ₚ set_names ds /\ epoch_number (MinEpoch r) /\ epoch_number (MaxEpoch r)
    /\ MinEpoch r < MaxEpoch r /\ (forall e, MinEpoch r <= e <= MaxEpoch r -> covers_epoch (ds_shards ds) e) /\ forall md, md ∈ Blobs r -> seen (md_BlobID md).
Proof.
  destruct (ld_ranges _ _ _ _ _ Ld) as (k & l & groups & Hk & Hl & Hg & E). rewrite E. intros Hr. destruct (findLongest_chain (complete_ranges groups)) as [_ Hall].
  rewrite Forall_forall in Hall. specialize (Hall r Hr). unfold complete_ranges in Hall. apply list_elem_of_omap in Hall as ([[lo hi] g] & Hgin & Hf). cbn in Hf.
  destruct (FindFirst g) as [s|] eqn:Ef; [|done]. injection Hf as <-. cbn [MinEpoch MaxEpoch Blobs]. rewrite Hg in Hgin. apply range_group_of in Hgin as [-> _].
  assert (legit_before k) as Hbk by (eapply legit_before_le; [|exact Hb]; lia).
  destruct (found_set k RangeCheckpointIndexBlobPrefix (of_range lo hi) l s) as (ds & Hds & Hnd & Hne & Hperm & Hin); [lia|done|by right|done|done|].
  exists ds. assert (exists d, member_name ds d ∈ md_BlobID <$> s) as [d Hd].
  { destruct (ds_shards ds) as [|d ds'] eqn:Ed; [done|]. exists d. rewrite Hperm. apply list_elem_of_fmap_2. rewrite Ed. by left. }
  destruct (set_drawn k ds ltac:(lia) Hbk Hds) as (_ & m & _ & (_ & _ & Hok) & _).
  apply list_elem_of_fmap in Hd as (md & Em & Hmd). destruct (Hin md Hmd) as [HF (x & _ & Hpre & _)%elem_of_listing]. unfold of_range in HF. rewrite <- Em in HF, Hpre.
  unfold member_name in HF, Hpre. rewrite blob_name_set in HF, Hpre. destruct Hok as [(e' & _ & He' & E' & _ & Hc)|(lo' & hi' & Hlo & Hhi & Hlt & E' & Hc)]; rewrite E' in HF, Hpre; [done|].
  rewrite sapp_assoc in HF. rewrite range_epochs in HF by done. injection HF as <- <-. split_and!; [eapply set_stays; [|exact Hds]; lia|done..|].
  intros md' Hmd'. destruct (Hin md' Hmd') as [_ (x' & Hx' & _)%elem_of_listing]. exists k, x'. split; [lia|done].
Qed.

(** An epoch that is superseded within the safety margin after the loading has a
    compaction in the snapshot, and is settled there. *)
Lemma loaded_superseded k e : (k <= n)%nat -> legit_before k -> epoch_number e -> superseded k e -> sigma k - sigma k0 <= CleanupSafetyMargin p ->
  isSettledEpochNumber cs e = true /\ is_Some (SingleEpochCompactionSets cs !! e).
Proof.
  intros Hk Hbk He Hs Hm. pose proof (ld_order _ _ _ _ _ Ld) as Ho. split.
  - destruct (superseded_before k0 k k1 e) as [Hr _]; [lia|done|done|eapply legit_before_le; [|exact Hb]; lia|done..|].
    apply (ld_epoch _ _ _ _ _ Ld) in Hr. unfold isSettledEpochNumber, lastSettledEpochNumber, numUnsettledEpochs. apply Z.leb_le. lia.
  - destruct (ld_single _ _ _ _ _ Ld) as (k' & l & Hk' & Hl & ->).
    destruct (superseded_before k0 k k' e) as [_ Hl']; [lia|done|done|eapply legit_before_le; [|exact Hb]; lia|done..|]. by apply Hl'.
Qed.

Lemma entry_epoch e kb it : entry_of e kb it -> epoch_number e.
Proof. intros (id & k & x & l & Hla & _). apply Hla. Qed.

(** The epoch of an entry that lasts is not settled when the entry is written. *)
Lemma entry_settled e kb it : entry_of e kb it -> isSettledEpochNumber cs e = true -> entry_of e k1 it.
Proof.
  intros (id & k & x & l & Hla & Hk & H) Hs. exists id, k, x, l. split_and!; [done| |apply H..]. destruct (decide (k <= k1)%nat) as [|Hgt]; [done|exfalso].
  apply (la_unsettled _ _ _ _ Hla k1 ltac:(lia)). pose proof (ld_order _ _ _ _ _ Ld) as Ho. pose proof (la_run _ _ _ _ Hla).
  destruct (ld_epoch _ _ _ _ _ Ld) as [Hr _]. unfold isSettledEpochNumber, lastSettledEpochNumber, numUnsettledEpochs in Hs. apply Z.leb_le in Hs.
  eapply reached_le; [|exact Hr]. lia.
Qed.

(** ** Reading an epoch *)

(** What [getIndexesFromEpochInternal] answers, when its request, if it makes one,
    is served in turn [k]. *)
Definition epoch_read (k : nat) (e : Z) (b : list Metadata) : Prop :=
  match (if isSettledEpochNumber cs e then SingleEpochCompactionSets cs !! e else None) with
  | Some s => b = s
  | None => match UncompactedEpochSets cs !! e with Some s => b = s | None => b ≡ₚ listing (blobs k) (UncompactedEpochBlobPrefix e) end
  end.

Lemma epoch_read_cover k e b it kb : (k2 <= k <= n)%nat -> legit_before k -> (forall m, (m < k2)%nat -> local m i <= ValidUntil cs -> sigma m - sigma k0 <= CleanupSafetyMargin p) ->
  sigma k - sigma k0 <= CleanupSafetyMargin p -> epoch_read k e b -> entry_of e kb it -> (kb <= k1)%nat \/ isSettledEpochNumber cs e = true ->
  ids_cover k (md_BlobID <$> b) it.
Proof.
  intros Hk Hbk Hclock Hs Hr Hent Hkb. unfold epoch_read in Hr. assert (epoch_number e) as He by (by eapply entry_epoch).
  assert (entry_of e k1 it) as Hent1.
  { destruct Hkb as [Hle|Hset]; [|by eapply entry_settled]. destruct Hent as (id & k' & x & l & Hla & Hk' & H). exists id, k', x, l. split_and!; [done|lia|apply H..]. }
  assert (forall m, (m <= n)%nat -> legit_before m -> sigma m - sigma k0 <= CleanupSafetyMargin p -> superseded m e ->
    is_Some (if isSettledEpochNumber cs e then SingleEpochCompactionSets cs !! e else None)) as Hsup.
  { intros m Hm Hbm Hsm Hsu. destruct (loaded_superseded m e) as [-> ?]; done. }
  pose proof (ld_order _ _ _ _ _ Ld) as Ho. destruct (if isSettledEpochNumber cs e then SingleEpochCompactionSets cs !! e else None) as [s|] eqn:E.
  - subst b. destruct (isSettledEpochNumber cs e); [|done]. destruct (loaded_single e s E) as (ds & m & Hm & Hds & Hnd & _ & Hperm & _ & Hc & _). apply (ids_cover_mono m k (md_BlobID <$> s)); [lia|done|].
    eapply ids_cover_set; [done|done|by rewrite Hperm|]. exact (proj1 (covers_epoch_entries _ _) Hc it k1 Hent1).
  - destruct (UncompactedEpochSets cs !! e) as [s|] eqn:Eu.
    + subst b. destruct (ld_uncompacted _ _ _ _ _ Ld) as (k3 & Hk3 & Hv & Hu). destruct (Hu e s Eu) as (m & Hm & Hl). apply (ids_cover_mono m k (md_BlobID <$> s)); [lia|done|].
      assert (legit_before m) as Hbm by (eapply legit_before_le; [|exact Hb]; lia). apply (ids_cover_listed k1 m e); [lia|done|done| |done]. intros Hsu.
      destruct (Hsup m) as [? ?]; [lia|done| |done..]. pose proof (or_storage m k3 ltac:(lia)). pose proof (Hclock k3 ltac:(lia) Hv). lia.
    + apply (ids_cover_listed k1 k e); [lia|done|done| |done]. intros Hsu. destruct (Hsup k) as [? ?]; [lia|done|done|done|done].
Qed.

End Loaded.
End Cover.

(** ** Walking the ranges *)

Definition proper (r : RangeMetadata) : Prop := MinEpoch r < MaxEpoch r.

Definition range_step (st : list Metadata * Z) (c : RangeMetadata) : list Metadata * Z :=
  if st.2 <? MaxEpoch c then (st.1 ++ Blobs c, MaxEpoch c + 1) else st.

(** From their start on, all ranges of a chain are used, and leave out no epoch. *)
Lemma use_chain l : forall s acc, chain s l -> Forall proper l ->
  exists s', foldl range_step (acc, s) l = (acc ++ concat (Blobs <$> l), s') /\ s <= s'
    /\ forall e, s <= e < s' -> exists r, r ∈ l /\ MinEpoch r <= e <= MaxEpoch r.
Proof.
  induction l as [|r l IH]; intros s acc Hch Hp; [exists s; rewrite app_nil_r; split_and!; [done|lia|lia]|].
  destruct Hch as [Hmin Hch]. apply Forall_cons in Hp as [Hr Hp]. unfold proper in Hr. cbn [foldl]. unfold range_step at 2. cbn [fst snd].
  rewrite (proj2 (Z.ltb_lt s (MaxEpoch r))) by lia. destruct (IH (MaxEpoch r + 1) (acc ++ Blobs r) Hch Hp) as (s' & -> & Hle & Hall). exists s'. split_and!.
  - cbn [fmap list_fmap concat]. by rewrite <- app_assoc.
  - lia.
  - intros e He. destruct (decide (e <= MaxEpoch r)) as [Hle'|Hgt].
    + exists r. split; [by left|lia].
    + destruct (Hall e ltac:(lia)) as (r' & Hr' & H). exists r'. split; [by right|done].
Qed.

(** The last range of a chain reaches furthest. *)
Lemma chain_last l : forall s r0, chain s l -> Forall proper l -> Forall (fun r => s < MaxEpoch r <= MaxEpoch (List.last l r0)) l.
Proof.
  induction l as [|r l IH]; intros s r0 Hch Hp; [done|]. destruct Hch as [Hmin Hch]. apply Forall_cons in Hp as [Hr Hp]. unfold proper in Hr.
  destruct l as [|r1 l]; [constructor; [cbn; lia|done]|]. specialize (IH _ r0 Hch Hp). change (List.last (r :: r1 :: l) r0) with (List.last (r1 :: l) r0).
  constructor; [|eapply Forall_impl; [exact IH|]; cbn; intros; lia]. apply Forall_inv in IH. lia.
Qed.

(** Ranges that end before the start are not used. *)
Lemma use_none l s acc : Forall (fun r => MaxEpoch r <= s) l -> foldl range_step (acc, s) l = (acc, s).
Proof.
  induction 1 as [|r l Hr _ IH]; [done|]. cbn [foldl]. unfold range_step at 2. cbn [fst snd]. by rewrite (proj2 (Z.ltb_ge s (MaxEpoch r))) by lia.
Qed.
