(* ===== verification/EpochRules.v ===== *)
(** * Rules for requests

    What each request answers and leaves behind, as rules of [wp]; rules for
    loops; and a frame rule for what requests of some kind keep. *)

From S2P Require Import Prelude GoStrings GoText GoTime Db IndexID IndexTable IndexV1 IndexV2 IndexV2Facts IndexBuild IndexMergedFacts IndexRoundTrip Gather PackFormat ContentStore IndexBlobV0 ContentSpec EpochUtils EpochManager EpochSystem EpochNames EpochLogic EpochHistory.
Open Scope go_scope.

Lemma shuffle_perm {A} m f (l : list A) : length l = m -> shuffle m f l ≡ₚ l.
Proof.
  revert l. induction m as [|m IH]; intros l Hl; [done|]. cbn [shuffle].
  destruct (l !! (f m `mod` length l)%nat) as [x|] eqn:E; [|done]. rewrite IH.
  - symmetry. by apply delete_Permutation.
  - rewrite length_delete by done. lia.
Qed.

Lemma shuffle_fmap {A B} m f (g : A -> B) (l : list A) : shuffle m f (g <$> l) = g <$> shuffle m f l.
Proof.
  revert l. induction m as [|m IH]; intros l; [done|]. cbn [shuffle]. rewrite length_fmap, list_lookup_fmap.
  destruct (l !! (f m `mod` length l)%nat) as [x|]; [|done]. cbn. f_equal. rewrite <- IH. f_equal. symmetry. apply list_fmap_delete.
Qed.

Section Rules.
Context {EE : EpochEnvironment} {p : EpochParameters} {TC : Crypter} {TCL : CrypterLaws} {TP : Parameters} {T : Type} {TT : LLRB T} {R : Run (p := p) (T := T)}.
Context (j i : nat) (o : op).

Abbreviation n := turns.

(** A turn in which the thread, waiting since turn [a], is served. *)
Record step {B} (a k : nat) (q : req B) (b : B) : Prop := {
  st_turn : (a <= k < n)%nat;
  st_event : events k = EvServe j;
  st_waiting : not_served j a k;
  st_lock : lock_kept j i a k;
  st_legit : legit_before (S k);
  st_serve : serve_req k j i q (es_world (states k)) = Some (b, es_world (states (S k)));
  st_op : t_op <$> threads k !! j = Some o
}.

Lemma step_before {B} a k (q : req B) b : step a k q b -> legit_before k.
Proof. intros St m Hm. apply (st_legit _ _ _ _ St). lia. Qed.

Lemma wp_step {A B} (q : req B) (c : B -> prog A) a Q :
  (forall k, (a <= k < n)%nat -> events k = EvServe j -> not_served j a k -> lock_kept j i a k -> legit_before k -> t_op <$> threads k !! j = Some o -> legit k j i o q) ->
  (forall k b, step a k q b -> wp j i o (c b) (S k) Q) -> wp j i o (Do q c) a Q.
Proof.
  intros Hl Hw. cbn [wp]. intros k b w Hk He Hn Hlk Hb Hs Ew Ho. split; [by apply Hl|]. intros Hb'. apply Hw. subst w. by constructor.
Qed.

(** ** Requests that change nothing *)

Definition pure_req {B} (q : req B) : bool :=
  match q with RNow | RParams | RCancelled | ROrder | RNonce | RList _ | RGet _ => true | _ => false end.

Lemma step_pure {B} a k (q : req B) b : step a k q b -> pure_req q = true -> es_world (states (S k)) = es_world (states k).
Proof.
  intros St Hp. pose proof (st_serve _ _ _ _ St) as Hs. unfold serve_req in Hs. destruct q; try done; cbn in Hs; congruence.
Qed.

Lemma wp_pure {A B} (q : req B) (c : B -> prog A) a Q : pure_req q = true -> (forall k b, step a k q b -> wp j i o (c b) (S k) Q) -> wp j i o (Do q c) a Q.
Proof. intros Hp. apply wp_step. intros k _ _ _ _ _ _. by destruct q. Qed.

Lemma now_answer a k b : step a k RNow b -> b = local k i.
Proof. intros St. pose proof (st_serve _ _ _ _ St) as Hs. by injection Hs as <- _. Qed.

Lemma list_answer a k prefix l : step a k (RList prefix) (Ok l) -> l ≡ₚ listing (blobs k) prefix.
Proof.
  intros St. pose proof (st_serve _ _ _ _ St) as Hs. cbn in Hs. destruct (et_read (eturn_at k)); [|done]. injection Hs as <- _. by apply shuffle_perm.
Qed.

Lemma get_answer a k id data : step a k (RGet id) (Ok data) -> exists x, blobs k !! id = Some x /\ bl_data x = data.
Proof.
  intros St. pose proof (st_serve _ _ _ _ St) as Hs. cbn in Hs. destruct (et_read (eturn_at k)); [|done]. unfold blobs.
  destruct (ew_blobs (es_world (states k)) !! id) as [x|]; [|done]. injection Hs as <- _. by exists x.
Qed.

(** ** Requests to the storage *)

Lemma put_answer a k id data t : step a k (RPut id data) (Ok t) -> blobs (S k) = <[id := mkBlob data (sigma k)]> (blobs k).
Proof.
  intros St. pose proof (st_serve _ _ _ _ St) as Hs. cbn -[put_blob] in Hs. unfold put_blob, execute, blobs, sigma in *.
  destruct (et_write (eturn_at k)); cbn in Hs; try done; by injection Hs as _ <-.
Qed.

Lemma delete_answer a k id : step a k (RDelete id) (Ok tt) -> blobs (S k) = delete id (blobs k).
Proof.
  intros St. pose proof (st_serve _ _ _ _ St) as Hs. cbn -[delete_blob] in Hs. unfold delete_blob, execute, blobs in *.
  destruct (et_write (eturn_at k)); cbn in Hs; try done; destruct (ew_blobs (es_world (states k)) !! id); cbn in Hs; try done; by injection Hs as <-.
Qed.

(** ** Requests for the lock *)

Lemma acquire_answer a k cs : step a k RAcquire cs ->
  cells k !! i = Some (mkCell None cs) /\ cells (S k) !! i = Some (mkCell (Some j) cs) /\ blobs (S k) = blobs k.
Proof.
  intros St. pose proof (st_serve _ _ _ _ St) as Hs. cbn in Hs. unfold cells, blobs in *. destruct (ew_cells (es_world (states k)) !! i) as [[[?|] cs']|]; [done| |done].
  injection Hs as <- <-. cbn. by rewrite lookup_insert_eq.
Qed.

Lemma release_answer a k cs b : step a k (RRelease cs) b -> cells (S k) !! i = Some (mkCell None cs) /\ blobs (S k) = blobs k.
Proof.
  intros St. pose proof (st_serve _ _ _ _ St) as Hs. cbn in Hs. unfold cells, blobs in *. destruct (ew_cells (es_world (states k)) !! i) as [[[j'|] cs']|]; [|done|done].
  destruct (j =? j')%nat; [|done]. injection Hs as _ <-. cbn. by rewrite lookup_insert_eq.
Qed.

Lemma peek_answer a k cs : step a k RPeek cs -> cells k !! i = Some (mkCell None cs) /\ blobs (S k) = blobs k.
Proof.
  intros St. pose proof (st_serve _ _ _ _ St) as Hs. cbn in Hs. unfold cells, blobs in *. destruct (ew_cells (es_world (states k)) !! i) as [[[?|] cs']|]; [done| |done].
  by injection Hs as <- <-.
Qed.

Lemma invalidate_answer a k b : step a k RInvalidate b -> cells (S k) !! i = Some (mkCell None no_snapshot) /\ blobs (S k) = blobs k.
Proof.
  intros St. pose proof (st_serve _ _ _ _ St) as Hs. cbn in Hs. unfold cells, blobs in *. destruct (ew_cells (es_world (states k)) !! i) as [[[?|] cs']|]; [done| |done].
  injection Hs as _ <-. cbn. by rewrite lookup_insert_eq.
Qed.

(** ** Programs of some requests *)

Fixpoint only {A} (ok : forall B, req B -> bool) (c : prog A) : Prop :=
  match c with Ret _ => True | Stuck => True | Do q c => ok _ q = true /\ forall b, only ok (c b) end.

Lemma only_bind {A B} ok (c : prog A) (f : A -> prog B) : only ok c -> (forall x, only ok (f x)) -> only ok (pbind c f).
Proof. intros Hc Hf. induction c as [[x|e]| |B' q c IH]; cbn; [done|done|done|]. destruct Hc as [Hq Hc]. split; [done|]. intros b. by apply IH. Qed.

Lemma only_attempt {A} ok (c : prog A) : only ok c -> only ok (attempt_prog c).
Proof. intros Hc. induction c as [r| |B' q c IH]; cbn; [done|done|]. destruct Hc as [Hq Hc]. split; [done|]. intros b. by apply IH. Qed.

Lemma only_collect {A B} ok (l : list A) (body : A -> prog B) : (forall x, only ok (body x)) -> only ok (pcollect l body).
Proof. intros Hb. induction l as [|x l IH]; [done|]. cbn. apply only_bind; [done|]. intros y. by apply only_bind. Qed.

(** A thread that makes such requests keeps what they keep. *)
Lemma wp_frame {A} (ok : forall B, req B -> bool) (I : nat -> Prop) (c : prog A) a Q :
  (forall B (q : req B) a k b, ok B q = true -> I a -> step a k q b -> I (S k)) -> only ok c -> I a -> wp j i o c a Q -> wp j i o c a (fun k r => I k /\ Q k r).
Proof.
  intros HI. revert a. induction c as [r| |B q c IH]; intros a Hc Ha Hw; [by split|done|]. cbn [wp only] in *. destruct Hc as [Hq Hc].
  intros k b w Hk He Hn Hlk Hb Hs Ew Ho. destruct (Hw k b w Hk He Hn Hlk Hb Hs Ew Ho) as [Hl Hnext]. split; [done|]. intros Hb'. apply IH; [done| |auto].
  apply (HI B q a k b); [done|done|]. subst w. by constructor.
Qed.

Lemma only_all {A} (c : prog A) : only (fun _ _ => true) c.
Proof. by induction c. Qed.

(** The turns a program reaches are turns of the run, and legit. *)
Lemma wp_now {A} (c : prog A) a Q : (a <= n)%nat -> legit_before a -> wp j i o c a Q -> wp j i o c a (fun k r => ((k <= n)%nat /\ legit_before k) /\ Q k r).
Proof.
  intros Ha Hb. apply (wp_frame (fun _ _ => true)); [|apply only_all|done]. intros B q a' k b _ _ St. pose proof (st_turn _ _ _ _ St). split; [lia|apply St].
Qed.

(** ** Calls that succeed *)

(** A postcondition of the answer, not of errors. *)
Definition succeeds {A} (c : prog A) (a : nat) (P : nat -> A -> Prop) : Prop := wp j i o c a (fun k r => match r with Ok x => P k x | Err _ => True end).

Lemma succeeds_ret {A} (x : A) a (P : nat -> A -> Prop) : P a x -> succeeds (pret x) a P.
Proof. done. Qed.

Lemma succeeds_fail {A} e a (P : nat -> A -> Prop) : succeeds (pfail e) a P.
Proof. done. Qed.

Lemma succeeds_bind {A B} (c : prog A) (f : A -> prog B) a P : succeeds c a (fun k x => succeeds (f x) k P) -> succeeds (pbind c f) a P.
Proof. intros H. apply wp_bind. eapply wp_mono; [exact H|]. by intros k [x|e] _. Qed.

Lemma succeeds_mono {A} (c : prog A) a (P Q : nat -> A -> Prop) : succeeds c a P -> (forall k x, (a <= k)%nat -> P k x -> Q k x) -> succeeds c a Q.
Proof. intros H HP. eapply wp_mono; [exact H|]. intros k [x|e] Hk; [auto|done]. Qed.

Lemma succeeds_now {A} (c : prog A) a (P : nat -> A -> Prop) : (a <= n)%nat -> legit_before a -> succeeds c a P ->
  succeeds c a (fun k x => (k <= n)%nat /\ legit_before k /\ P k x).
Proof. intros Ha Hb H. eapply wp_mono; [by apply wp_now|]. intros k [x|e] _ [[? ?] ?]; done. Qed.

(** Then what follows starts later. *)
Lemma succeeds_seq {A B} (c : prog A) (f : A -> prog B) a (P : nat -> A -> Prop) Q :
  succeeds c a P -> (forall k x, (a <= k)%nat -> P k x -> succeeds (f x) k Q) -> succeeds (pbind c f) a Q.
Proof. intros Hc Hf. apply succeeds_bind. eapply succeeds_mono; [exact Hc|auto]. Qed.

Lemma succeeds_attempt {A} (c : prog A) a (P : nat -> result epoch_error A -> Prop) : wp j i o c a P -> succeeds (attempt_prog c) a P.
Proof. intros H. apply wp_attempt. exact H. Qed.

Lemma succeeds_ask {B} (q : req B) a (P : nat -> B -> Prop) : pure_req q = true -> (forall k b, step a k q b -> P (S k) b) -> succeeds (ask q) a P.
Proof. intros Hp H. apply wp_pure; [done|]. intros k b St. by apply H. Qed.

Lemma succeeds_try {B} (q : req (result content_error B)) a (P : nat -> B -> Prop) :
  pure_req q = true -> (forall k b, step a k q (Ok b) -> P (S k) b) -> succeeds (try_ask q) a P.
Proof. intros Hp H. apply wp_pure; [done|]. intros k [b|e] St; [by apply H|done]. Qed.

Lemma succeeds_collect {A B} (body : A -> prog B) (P : nat -> A -> B -> Prop) a : (forall k m x y, (k <= m)%nat -> P k x y -> P m x y) ->
  forall l, (forall x b, x ∈ l -> (a <= b)%nat -> succeeds (body x) b (fun k y => P k x y)) -> forall a', (a <= a')%nat ->
  succeeds (pcollect l body) a' (fun k ys => Forall2 (P k) l ys).
Proof.
  intros HP. induction l as [|x l IH]; intros Hb a' Ha; [by apply succeeds_ret|]. cbn [pcollect]. eapply succeeds_seq; [apply Hb; [by left|done]|].
  intros k y Hk Hy. eapply succeeds_seq; [apply IH; [|lia]; intros; apply Hb; [by right|done]|]. intros k' ys Hk' Hys. apply succeeds_ret. constructor; [|done]. by eapply HP.
Qed.

Lemma succeeds_order {A} (l : list A) a : succeeds (any_order l) a (fun k l' => l' ≡ₚ l /\ exists f, l' = shuffle (length l) f l).
Proof. apply succeeds_bind, succeeds_ask; [done|]. intros k f _. apply succeeds_ret. split; [by apply shuffle_perm|by exists f]. Qed.

Lemma succeeds_params a : succeeds getParameters a (fun _ _ => True).
Proof. apply succeeds_bind, succeeds_ask; [done|]. intros k [] _; done. Qed.

Lemma succeeds_list prefix a : succeeds (list_blobs prefix) a (fun k l => exists m, (a <= m)%nat /\ k = S m /\ step a m (RList prefix) (Ok l) /\ l ≡ₚ listing (blobs m) prefix).
Proof. apply succeeds_try; [done|]. intros k l St. exists k. split_and!; [apply St|done|done|by eapply list_answer]. Qed.
End Rules.
