(* ===== verification/EpochState.v ===== *)
(** * The state of a manager

    What a refresh loads is a snapshot of the storage as it was after the refresh
    began; the state that a manager keeps is such a snapshot or none; and
    [committedState] answers with one that has not expired. *)

From S2P Require Import Prelude GoStrings GoText GoTime Db IndexID IndexTable IndexV1 IndexV2 IndexV2Facts IndexBuild IndexMergedFacts IndexRoundTrip Gather PackFormat ContentStore IndexBlobV0 ContentSpec EpochUtils EpochManager EpochSystem EpochNames EpochLogic EpochHistory EpochCover EpochRules.
Open Scope go_scope.

(** ** The write epoch *)

Definition max_group (w : Z) (groups : list (Z * list Metadata)) : Z := foldl (fun w e => if w <? e.1 then e.1 else w) w groups.

Lemma max_group_spec groups : forall w, w <= max_group w groups /\ (forall e g, (e, g) ∈ groups -> e <= max_group w groups)
  /\ (max_group w groups = w \/ exists g, (max_group w groups, g) ∈ groups).
Proof.
  induction groups as [|[e g] groups IH]; intros w; [split_and!; [done|by intros ? ? ?%not_elem_of_nil|by left]|]. unfold max_group. cbn [foldl fst].
  destruct (IH (if w <? e then e else w)) as (H1 & H2 & H3). fold (max_group (if w <? e then e else w) groups).
  assert (w <= max_group (if w <? e then e else w) groups /\ e <= max_group (if w <? e then e else w) groups) as [Hw He] by (destruct (Z.ltb_spec w e); lia).
  split_and!; [done| |].
  - intros e' g' [[= -> ->]|H]%elem_of_cons; [done|by eapply H2].
  - destruct H3 as [H3|(g' & H3)]; [|right; exists g'; by right]. destruct (Z.ltb_spec w e); [right; exists g; rewrite H3; by left|by left].
Qed.

Section State.
Context {EE : EpochEnvironment} {p : EpochParameters} {TC : Crypter} {TCL : CrypterLaws} {TP : Parameters} {T : Type} {TT : LLRB T} {R : Run (p := p) (T := T)} {O : Orderly}.

Abbreviation n := turns.

Lemma write_epoch_reached k l : l ≡ₚ listing (blobs k) EpochMarkerIndexBlobPrefix ->
  let w := max_group 0 (map_to_list (groupByEpochNumber l)) in reached k w /\ forall m, reached k m -> m <= w.
Proof.
  intros Hl. destruct (max_group_spec (map_to_list (groupByEpochNumber l)) 0) as (H0 & Hmax & Hw). cbn zeta. split.
  - destruct Hw as [->|(g & Hg)]; [by left|]. apply elem_of_map_to_list, group_epoch_lookup in Hg as [Eg Hne].
    destruct g as [|bm g]; [done|]. assert (bm ∈ filter (of_epoch (max_group 0 (map_to_list (groupByEpochNumber l)))) l) as Hbm by (rewrite <- Eg; by left).
    apply list_elem_of_filter in Hbm as [He Hbm]. rewrite Hl in Hbm. apply elem_of_listing in Hbm as (x & Hx & Hp & _). right. by exists (md_BlobID bm), x, (max_group 0 (map_to_list (groupByEpochNumber l))).
  - intros m [Hm|(id & x & e & Hx & Hp & He & Hm)]; [lia|]. etrans; [exact Hm|]. apply (Hmax e (filter (of_epoch e) l)). apply elem_of_map_to_list, group_epoch_lookup. split; [done|].
    assert (mkMetadata id (slen (bl_data x)) (bl_time x) ∈ filter (of_epoch e) l) as Hin.
    { apply list_elem_of_filter. split; [done|]. rewrite Hl. apply elem_of_listing. by exists x. }
    intros E. rewrite E in Hin. by apply not_elem_of_nil in Hin.
Qed.

(** ** What a manager keeps *)

Lemma loaded_later i cs k0 k1 k m : (k <= m)%nat -> loaded i cs k0 k1 k -> loaded i cs k0 k1 m.
Proof.
  intros Hm [Ho Hv He Hma Hwa (ks & ls & Hks & Hs) (kr & lr & g & Hkr & Hr) (k3 & Hk3 & Hu)]. constructor; [lia|done..| | |].
  - exists ks, ls. split; [lia|done].
  - exists kr, lr, g. split; [lia|done].
  - exists k3. split; [lia|done].
Qed.

(** The state is empty, or a snapshot loaded from turn [kI] on. *)
Definition kept (i kI k : nat) (cs : CurrentSnapshot) : Prop := cs = no_snapshot \/ exists k0 k1, (kI <= k0)%nat /\ loaded i cs k0 k1 k.

Lemma kept_later i kI k m cs : (k <= m)%nat -> kept i kI k cs -> kept i kI m cs.
Proof. intros Hm [->|(k0 & k1 & Hk & H)]; [by left|]. right. exists k0, k1. split; [done|by eapply loaded_later]. Qed.

Definition released {B} (q : req B) : option CurrentSnapshot := match q with RRelease cs => Some cs | _ => None end.

Lemma serve_cell k j i {B} (q : req B) w b w' : serve_req k j i q w = Some (b, w') ->
  ew_cells w' !! i = ew_cells w !! i
  \/ (exists h cs h', ew_cells w !! i = Some (mkCell h cs) /\ ew_cells w' !! i = Some (mkCell h' cs))
  \/ ew_cells w' !! i = Some (mkCell None no_snapshot)
  \/ exists cs, released q = Some cs /\ ew_cells w' !! i = Some (mkCell None cs).
Proof.
  unfold serve_req. destruct q; cbn -[put_blob delete_blob]; try (intros [= _ <-]; by left).
  - destruct (et_rand (eturn_at k)); intros [= _ <-]; by left.
  - destruct (put_blob _ _ _ _). intros [= _ <-]. by left.
  - destruct (delete_blob _ _ _). intros [= _ <-]. by left.
  - destruct (ew_cells w !! i) as [[[?|] cs]|]; [done| |done]. intros [= _ <-]. right. left. cbn. rewrite lookup_insert_eq. eauto.
  - destruct (ew_cells w !! i) as [[[j'|] cs']|]; [|done|done]. destruct (j =? j')%nat; [|done]. intros [= _ <-]. do 3 right. cbn. rewrite lookup_insert_eq. eauto.
  - destruct (ew_cells w !! i) as [[[?|] cs]|]; [done| |done]. intros [= _ <-]. right. left. cbn. rewrite lookup_insert_eq. eauto.
  - destruct (ew_cells w !! i) as [[[?|] cs]|]; [done| |done]. intros [= _ <-]. do 2 right. left. cbn. by rewrite lookup_insert_eq.
Qed.

(** How a turn changes the state of a manager. *)
Lemma cell_turn k i h cs : (k < n)%nat -> legit_before (S k) -> cells (S k) !! i = Some (mkCell h cs) ->
  (exists h', cells k !! i = Some (mkCell h' cs)) \/ cs = no_snapshot \/ exists j, release_ok k j i cs.
Proof.
  intros Hk Hb Hc. destruct (events k) as [i'|j' i' o|j|i'] eqn:Ee.
  - pose proof (run_turn _ _ _ run_ok k Hk) as Ht. rewrite Ee in Ht. cbn in Ht. unfold cells in *. destruct (ew_cells (es_world (states k)) !! i') eqn:E; [done|]. injection Ht as Ht. rewrite <- Ht in Hc.
    cbn in Hc. apply lookup_insert_Some in Hc as [[_ [= <- <-]]|[_ Hc]]; [by right; left|left; eauto].
  - pose proof (run_turn _ _ _ run_ok k Hk) as Ht. rewrite Ee in Ht. cbn in Ht. unfold cells in *. destruct (es_threads _ !! j'); [done|]. destruct (ew_cells _ !! i'); [|done].
    injection Ht as Ht. rewrite <- Ht in Hc. left; eauto.
  - destruct (served k j Hk Ee) as (i1 & o & B & q & c & b & Hj & Hs & _). pose proof (turn_legit k j i1 o B q c Hb Ee Hj) as Hl.
    destruct (decide (i1 = i)) as [->|Hne].
    + unfold cells in *. destruct (serve_cell k j i q _ _ _ Hs) as [E|[(h1 & c1 & h2 & E1 & E2)|[E|(c1 & Eq & E)]]]; rewrite Hc in *.
      * left. eauto.
      * injection E2 as _ <-. left. eauto.
      * injection E as _ <-. by right; left.
      * injection E as _ <-. do 2 right. exists j. by destruct q; cbn in Eq; simplify_eq.
    + apply serve_cells in Hs as [Ho _]. left. exists h. unfold cells in *. by rewrite <- Ho.
  - pose proof (run_turn _ _ _ run_ok k Hk) as Ht. rewrite Ee in Ht. cbn in Ht. unfold cells in *. injection Ht as Ht. rewrite <- Ht in Hc. cbn in Hc. apply lookup_delete_Some in Hc as [_ Hc]. left; eauto.
Qed.

Lemma kept_cell kI k i h cs : (kI <= k <= n)%nat -> legit_before k -> cells kI !! i = Some (mkCell None no_snapshot) -> cells k !! i = Some (mkCell h cs) -> kept i kI k cs.
Proof.
  revert h cs. induction k as [k IH] using lt_wf_ind. intros h cs [HI Hk] Hb HcI Hc. destruct (decide (kI = k)) as [->|Hne]; [rewrite HcI in Hc; injection Hc as _ <-; by left|].
  destruct k as [|k]; [lia|]. assert (legit_before k) as Hbk by (eapply legit_before_le; [|exact Hb]; lia).
  destruct (cell_turn k i h cs ltac:(lia) Hb Hc) as [(h' & Hc')|[->|(j & k0 & c0 & Hk0 & Hc0 & Hheld & Hcs)]]; [|by left|].
  - apply (kept_later i kI k); [lia|]. eapply (IH k); [lia|lia|done..].
  - assert (kI <= k0)%nat as HI0.
    { destruct (decide (kI <= k0)%nat); [done|]. rewrite (Hheld kI ltac:(lia)) in HcI. done. }
    destruct Hcs as [->|(k1 & k2 & Hk1 & Hl)].
    + apply (kept_later i kI k0); [lia|]. eapply (IH k0); [lia|lia|eapply legit_before_le; [|exact Hb]; lia|done|exact Hc0].
    + right. exists k1, k2. split; [lia|]. by apply (loaded_later i cs k1 k2 k); [lia|].
Qed.

(** A manager that is open was opened. *)
Lemma opened k i c : (k <= n)%nat -> cells k !! i = Some c -> exists kI, (kI <= k)%nat /\ cells kI !! i = Some (mkCell None no_snapshot).
Proof.
  revert c. induction k as [|k IH]; intros c Hk Hc.
  { unfold cells in Hc. by rewrite (run_start _ _ _ run_ok) in Hc. }
  destruct (cells k !! i) as [c'|] eqn:Ec; [destruct (IH c' ltac:(lia) eq_refl) as (kI & ? & ?); exists kI; split; [lia|done]|].
  exists (S k). split; [done|]. pose proof (run_turn _ _ _ run_ok k ltac:(lia)) as Ht. destruct (events k) as [i'|j' i' o|j|i'] eqn:Ee.
  - cbn in Ht. unfold cells in *. destruct (ew_cells (es_world (states k)) !! i') eqn:E; [done|]. injection Ht as Ht. rewrite <- Ht in Hc |- *. cbn in Hc |- *.
    destruct (decide (i' = i)) as [->|Hne]; [by rewrite lookup_insert_eq|]. rewrite lookup_insert_ne in Hc by done. congruence.
  - cbn in Ht. unfold cells in *. destruct (es_threads _ !! j'); [done|]. destruct (ew_cells _ !! i'); [|done]. injection Ht as Ht. rewrite <- Ht in Hc. cbn in Hc. congruence.
  - destruct (served k j ltac:(lia) Ee) as (i1 & o & B & q & cc & b & Hj & Hs & _). apply serve_cells in Hs as [Ho Hs]. unfold cells in *. exfalso.
    destruct (decide (i1 = i)) as [->|Hne]; [|rewrite Ho in Hc by done; congruence]. destruct Hs as [Hs|(h & cs & c' & Hh & _)]; congruence.
  - cbn in Ht. unfold cells in *. injection Ht as Ht. rewrite <- Ht in Hc. cbn in Hc. apply lookup_delete_Some in Hc as [_ Hc]. congruence.
Qed.
End State.

(** * Refreshing

    [refreshAttemptLocked] loads a snapshot: its four loads, in any order, write
    fields of their own.  [committedState] takes the lock, refreshes if it must,
    and answers with a snapshot that was valid when it looked at the clock. *)

(** ** The four loads *)

Inductive load := LoadEpoch | LoadWatermark | LoadSingle | LoadRanges.

#[export] Instance load_dec : EqDecision load.
Proof. solve_decision. Defined.

Definition load_code (t : load) : prog (CurrentSnapshot -> CurrentSnapshot) :=
  match t with
  | LoadEpoch => loadWriteEpoch
  | LoadWatermark => loadDeletionWatermark
  | LoadSingle => loadSingleEpochCompactions
  | LoadRanges => loadRangeCheckpoints
  end.

Definition load_prefix (t : load) : string :=
  match t with
  | LoadEpoch => EpochMarkerIndexBlobPrefix
  | LoadWatermark => DeletionWatermarkBlobPrefix
  | LoadSingle => SingleEpochCompactionBlobPrefix
  | LoadRanges => RangeCheckpointIndexBlobPrefix
  end.

(** What a load writes, of the blobs it listed. *)
Definition load_writes (t : load) (blobs : list Metadata) (before after : CurrentSnapshot) : Prop :=
  UncompactedEpochSets after = UncompactedEpochSets before /\ ValidUntil after = ValidUntil before
  /\ (WriteEpoch after, EpochMarkerBlobs after)
     = match t with LoadEpoch => (max_group (WriteEpoch before) (map_to_list (groupByEpochNumber blobs)), blobs) | _ => (WriteEpoch before, EpochMarkerBlobs before) end
  /\ DeletionWatermarkBlobs after = match t with LoadWatermark => blobs | _ => DeletionWatermarkBlobs before end
  /\ SingleEpochCompactionSets after
     = match t with LoadSingle => omap FindFirst (groupByEpochNumber blobs) ∪ SingleEpochCompactionSets before | _ => SingleEpochCompactionSets before end
  /\ match t with
     | LoadRanges => exists groups, groups ≡ₚ range_groups blobs /\ LongestRangeCheckpointSets after = findLongestRangeCheckpoint (complete_ranges groups)
     | _ => LongestRangeCheckpointSets after = LongestRangeCheckpointSets before
     end.

Definition all_loads : list load := [LoadEpoch; LoadWatermark; LoadSingle; LoadRanges].

Lemma collect_fmap {A B C} (f : A -> B) (body : B -> prog C) l : pcollect (f <$> l) body = pcollect l (fun x => body (f x)).
Proof. induction l as [|x l IH]; [done|]. cbn. by rewrite IH. Qed.

(** The orders of four loads. *)
Lemma shuffled_loads f : shuffle 4 f all_loads ≡ₚ all_loads.
Proof. by apply shuffle_perm. Qed.

(** ** Clocks *)

Section Clocks.
Context {EE : EpochEnvironment} {p : EpochParameters} {TC : Crypter} {TP : Parameters} {T : Type} {TT : LLRB T} {R : Run (p := p) (T := T)}.

Abbreviation n := turns.

Definition compacts_epoch (o : op) : Prop := match o with OpMaybeCompactSingleEpoch _ => True | _ => False end.

(** The parameters are valid.  While the clock of a process shows that a refresh
    period passes, that of the storage does not go further than two; and a thread
    that compacts an epoch does not sleep half a refresh period between two of
    its requests. *)
Class Timely : Prop := {
  tm_enabled : Enabled p = true;
  tm_valid : Validate p = Ok tt;
  tm_refresh : 0 <= EpochRefreshFrequency p /\ EpochRefreshFrequency p * 3 < 2 ^ 63;
  tm_local k i : zero_time < local k i;
  tm_clock k m i : (k <= m < n)%nat -> local m i - local k i <= EpochRefreshFrequency p -> sigma m - sigma k <= 2 * EpochRefreshFrequency p;
  tm_prompt k m j : (k < m < n)%nat -> events k = EvServe j -> events m = EvServe j -> not_served j (S k) m ->
    (exists o, t_op <$> threads m !! j = Some o /\ compacts_epoch o) -> 2 * (sigma m - sigma k) <= EpochRefreshFrequency p
}.

Lemma margin {Tm : Timely} : 3 * EpochRefreshFrequency p <= CleanupSafetyMargin p.
Proof.
  pose proof tm_refresh as Hr. pose proof tm_valid as Hv. unfold Validate in Hv. rewrite tm_enabled in Hv. cbn [negb] in Hv.
  assert (wrap64 (EpochRefreshFrequency p * 3) = EpochRefreshFrequency p * 3) as Ew by (apply wrap64_id; unfold in_int64, int64_min, int64_max; lia). rewrite Ew in Hv.
  destruct (MinEpochDuration p <? 10 * Minute); [done|]. destruct (MinEpochDuration p <? _); [done|]. destruct (FullCheckpointFrequency p <=? 0); [done|].
  destruct (Z.ltb_spec (CleanupSafetyMargin p) (EpochRefreshFrequency p * 3)); [done|]. lia.
Qed.

Lemma checkpoint_frequency {Tm : Timely} : 0 < FullCheckpointFrequency p.
Proof.
  pose proof tm_valid as Hv. unfold Validate in Hv. rewrite tm_enabled in Hv. cbn [negb] in Hv.
  destruct (MinEpochDuration p <? 10 * Minute); [done|]. destruct (MinEpochDuration p <? _); [done|]. destruct (Z.leb_spec (FullCheckpointFrequency p) 0); [done|]. done.
Qed.
End Clocks.

Section Refresh.
Context {EE : EpochEnvironment} {p : EpochParameters} {TC : Crypter} {TCL : CrypterLaws} {TP : Parameters} {T : Type} {TT : LLRB T} {R : Run (p := p) (T := T)} {O : Orderly} {Tm : Timely}.
Context (j i : nat) (o : op).

Abbreviation n := turns.

(** A load whose listing was served between two turns. *)
Definition load_ok (k0 k : nat) (t : load) (u : CurrentSnapshot -> CurrentSnapshot) : Prop :=
  exists m blobs', (k0 < m < k)%nat /\ blobs' ≡ₚ listing (blobs m) (load_prefix t) /\ forall cs, load_writes t blobs' cs (u cs).

Lemma load_spec k0 t a : (k0 < a)%nat -> succeeds j i o (load_code t) a (fun k u => load_ok k0 k t u).
Proof.
  intros Ha. destruct t; cbn [load_code]; (eapply succeeds_seq; [apply succeeds_list|]; intros k l Hk (m & Hm & -> & _ & Hl)).
  1-3: apply succeeds_ret; exists m, l; split_and!; [lia|lia|done|by intros cs].
  eapply succeeds_seq; [apply succeeds_order|]. intros k g Hk2 [Hg _]. apply succeeds_ret. exists m, l. split_and!; [lia|lia|done|]. intros cs. split_and!; try done. by exists g.
Qed.

(** The fields of a snapshot after loads of some kinds. *)
Definition field_ok {A} (k0 k : nat) (kind : load) (tags : list load) (x x0 : A) (v : list Metadata -> A -> Prop) : Prop :=
  if bool_decide (kind ∈ tags) then exists m l, (k0 < m < k)%nat /\ l ≡ₚ listing (blobs m) (load_prefix kind) /\ v l x else x = x0.

Lemma loads_fold k0 k base : WriteEpoch base = 0 -> SingleEpochCompactionSets base = ∅ -> forall tags us, NoDup tags -> Forall2 (load_ok k0 k) tags us ->
  let cs := foldl (fun cs u => u cs) base us in
  UncompactedEpochSets cs = UncompactedEpochSets base /\ ValidUntil cs = ValidUntil base
  /\ field_ok k0 k LoadEpoch tags (WriteEpoch cs, EpochMarkerBlobs cs) (0, EpochMarkerBlobs base) (fun l x => x = (max_group 0 (map_to_list (groupByEpochNumber l)), l))
  /\ field_ok k0 k LoadWatermark tags (DeletionWatermarkBlobs cs) (DeletionWatermarkBlobs base) (fun l x => x = l)
  /\ field_ok k0 k LoadSingle tags (SingleEpochCompactionSets cs) ∅ (fun l x => x = omap FindFirst (groupByEpochNumber l))
  /\ field_ok k0 k LoadRanges tags (LongestRangeCheckpointSets cs) (LongestRangeCheckpointSets base)
       (fun l x => exists groups, groups ≡ₚ range_groups l /\ x = findLongestRangeCheckpoint (complete_ranges groups)).
Proof.
  intros Hw0 Hs0. induction tags as [|t tags IH] using rev_ind; intros us Hnd Hus.
  { apply Forall2_nil_inv_l in Hus as ->. cbn. unfold field_ok. rewrite !bool_decide_eq_false_2 by (by intros ?%not_elem_of_nil). by rewrite Hw0, Hs0. }
  apply Forall2_app_inv_l in Hus as (us' & us2 & Hus & Hu & ->). apply Forall2_cons_inv_l in Hu as (u & us3 & (m & l & Hm & Hl & Hwr) & Hnil & ->). apply Forall2_nil_inv_l in Hnil as ->.
  apply NoDup_app in Hnd as (Hnd & Hfresh & _). specialize (IH us' Hnd Hus). cbn zeta in IH |- *. rewrite foldl_snoc. set (cs := foldl (fun cs u => u cs) base us') in *.
  destruct IH as (E1 & E2 & F1 & F2 & F3 & F4). destruct (Hwr cs) as (W1 & W2 & W3 & W4 & W5 & W6).
  assert (t ∉ tags) as Ht by (intros H; apply (Hfresh t H); by left).
  assert (forall x, x ∈ tags ++ [t] <-> x ∈ tags \/ x = t) as Hin by (intros x; by rewrite elem_of_app, list_elem_of_singleton).
  assert (forall A kind (x x' x0 : A) v, x' = x -> kind <> t -> field_ok k0 k kind tags x x0 v -> field_ok k0 k kind (tags ++ [t]) x' x0 v) as Hother.
  { intros A kind x x' x0 v -> Hne. unfold field_ok. assert (bool_decide (kind ∈ tags ++ [t]) = bool_decide (kind ∈ tags)) as ->; [|done].
    apply bool_decide_ext. rewrite Hin. naive_solver. }
  assert (forall A (x : A) x0 (v : list Metadata -> A -> Prop), v l x -> field_ok k0 k t (tags ++ [t]) x x0 v) as Hthis.
  { intros A x x0 v Hv. unfold field_ok. rewrite bool_decide_eq_true_2 by (rewrite Hin; by right). by exists m, l. }
  assert (forall A (x x0 : A) (v : list Metadata -> A -> Prop), field_ok k0 k t tags x x0 v -> x = x0) as Hbefore.
  { intros A x x0 v. unfold field_ok. by rewrite bool_decide_eq_false_2 by done. }
  split_and!; [congruence|congruence|..]; destruct t; try (eapply Hother; [eassumption|done|eassumption]); apply Hthis.
  - apply Hbefore in F1. injection F1 as F1 _. by rewrite W3, F1.
  - done.
  - apply Hbefore in F3. rewrite W5, F3. apply (right_id_L ∅ (∪)).
  - done.
Qed.

(** ** A refresh *)

Lemma list_epoch_spec e a : succeeds j i o (list_epoch e) a (fun k r => exists m, (a <= m < k)%nat /\ r.1 = e /\ r.2 ≡ₚ listing (blobs m) (UncompactedEpochBlobPrefix e)).
Proof. eapply succeeds_seq; [apply succeeds_list|]. intros k l Hk (m & Hm & -> & _ & Hl). apply succeeds_ret. exists m. split_and!; [lia|lia|done|done]. Qed.

Lemma uncompacted_spec first last a : succeeds j i o (loadUncompactedEpochs first last) a (fun k ues =>
  forall e l, ues !! e = Some l -> exists m, (a <= m < k)%nat /\ l ≡ₚ listing (blobs m) (UncompactedEpochBlobPrefix e)).
Proof.
  unfold loadUncompactedEpochs. eapply succeeds_seq; [apply succeeds_order|]. intros k epochs Hk _.
  eapply succeeds_seq; [apply (succeeds_collect j i o list_epoch (fun k e r => exists m, (a <= m < k)%nat /\ r.1 = e /\ r.2 ≡ₚ listing (blobs m) (UncompactedEpochBlobPrefix e)) a)|].
  - intros k1 k2 e r Hk' (m & Hm & H). exists m. split; [lia|done].
  - intros e b _ Hb. eapply succeeds_mono; [apply list_epoch_spec|]. intros k1 r _ (m & Hm & H). exists m. split; [lia|done].
  - done.
  - intros k1 l Hk1 Hl. apply succeeds_ret. intros e bs He. apply elem_of_list_to_map_2 in He. apply list_elem_of_lookup in He as [x Hx].
    destruct (Forall2_lookup_r _ _ _ _ _ Hl Hx) as (e' & _ & m & Hm & Ee & Hbs). cbn in Ee. subst e'. by exists m.
Qed.

(** A snapshot is loaded, and was valid at the last look at the clock. *)
Definition just_loaded (a k : nat) (cs : CurrentSnapshot) : Prop :=
  exists k0 k1 k3, (a <= k0)%nat /\ loaded i cs k0 k1 k /\ k = S k3 /\ (k0 <= k3)%nat /\ events k3 = EvServe j /\ local k3 i <= ValidUntil cs.

Lemma attempt_spec a : succeeds j i o (refreshAttemptLocked (p := p)) a (just_loaded a).
Proof.
  unfold refreshAttemptLocked. eapply succeeds_seq; [apply succeeds_params|]. intros ka _ Hka _.
  eapply succeeds_seq; [apply succeeds_ask with (P := fun k now => exists k0, (ka <= k0)%nat /\ k = S k0 /\ now = local k0 i); [done|]|].
  { intros k b St. exists k. split_and!; [apply St|done|by eapply now_answer]. }
  intros kb now Hkb (k0 & Hk0 & -> & ->). change [loadWriteEpoch; loadDeletionWatermark; loadSingleEpochCompactions; loadRangeCheckpoints] with (load_code <$> all_loads).
  eapply succeeds_seq; [apply succeeds_order|]. intros kc loads Hkc [_ [f ->]]. rewrite shuffle_fmap, collect_fmap. change (length (load_code <$> all_loads)) with 4%nat.
  eapply succeeds_seq; [apply (succeeds_collect j i o (fun t => load_code t) (load_ok k0) kc)|]; [|intros; apply load_spec; lia|done|].
  { intros k m t u Hk (m' & l & Hm & H). exists m', l. split; [lia|done]. }
  intros kd us Hkd Hus. set (base := mkSnapshot 0 ∅ [] ∅ ∅ zero_time (local k0 i + EpochRefreshFrequency p) [] []).
  assert (NoDup (shuffle 4 f all_loads)) as Hnd by (rewrite shuffled_loads; by repeat (constructor; [rewrite ?elem_of_cons, elem_of_nil; naive_solver|]); constructor).
  destruct (loads_fold k0 kd base eq_refl eq_refl _ us Hnd Hus) as (_ & Ev & F1 & F2 & F3 & F4). cbn zeta in Ev, F1, F2, F3, F4. set (cs := foldl (fun cs u => u cs) base us) in *.
  unfold field_ok in *. rewrite !bool_decide_eq_true_2 in F1, F2, F3, F4 by (rewrite shuffled_loads; unfold all_loads; rewrite !elem_of_cons; auto 6).
  destruct F1 as (k1 & l1 & Hk1 & Hl1 & [= Ew Em]). destruct F2 as (k2 & l2 & Hk2 & Hl2 & Ed). destruct F3 as (ks & ls & Hks & Hls & Es). destruct F4 as (kr & lr & Hkr & Hlr & g & Hg & Er).
  eapply succeeds_seq; [apply uncompacted_spec|]. intros ke ues Hke Hues. 
  eapply succeeds_seq; [apply succeeds_ask with (P := fun k now => exists k3, (ke <= k3)%nat /\ k = S k3 /\ now = local k3 i /\ events k3 = EvServe j); [done|]|].
  { intros k b St. exists k. split_and!; [apply St|done|by eapply now_answer|apply St]. }
  intros kf now Hkf (k3 & Hk3 & -> & -> & Hev). destruct (After (local k3 i) (ValidUntil cs)) eqn:Ea; [apply succeeds_fail|]. apply succeeds_ret.
  unfold After in Ea. apply Z.ltb_ge in Ea. exists k0, k1, k3. split_and!; [lia| |done|lia|done|done]. constructor; cbn [set_uncompacted WriteEpoch UncompactedEpochSets LongestRangeCheckpointSets SingleEpochCompactionSets ValidUntil EpochMarkerBlobs DeletionWatermarkBlobs].
  - lia.
  - done.
  - rewrite Ew. by apply write_epoch_reached.
  - rewrite Em. apply Forall_forall. intros bm Hbm. rewrite Hl1 in Hbm. by apply elem_of_listing in Hbm as (x & _ & ? & _).
  - rewrite Ed. apply Forall_forall. intros bm Hbm. rewrite Hl2 in Hbm. by apply elem_of_listing in Hbm as (x & _ & ? & _).
  - exists ks, ls. split_and!; [lia|lia|done|done].
  - exists kr, lr, g. split_and!; [lia|lia|done|done|done].
  - exists k3. split_and!; [lia|lia|done|]. intros e l He. destruct (Hues e l He) as (m & Hm & Hl). exists m. split_and!; [lia|lia|done].
Qed.
Lemma just_loaded_from a b k cs : (a <= b)%nat -> just_loaded b k cs -> just_loaded a k cs.
Proof. intros Hab (k0 & k1 & k3 & Hk0 & H). exists k0, k1, k3. split; [lia|done]. Qed.

Lemma loop_spec fuel : forall a, succeeds j i o (refresh_loop (p := p) fuel) a (just_loaded a).
Proof.
  induction fuel as [|fuel IH]; intros a; [done|]. cbn [refresh_loop]. eapply succeeds_seq; [apply succeeds_attempt, attempt_spec|]. intros k [cs|e] Hk Hr; [by apply succeeds_ret|].
  eapply succeeds_seq; [apply (succeeds_ask j i o RCancelled k (fun _ _ => True)); done|]. intros k' c Hk' _. destruct c; [apply succeeds_fail|].
  eapply succeeds_mono; [apply IH|]. intros. eapply just_loaded_from; [|eassumption]. lia.
Qed.

Lemma refresh_spec fuel a : succeeds j i o (refreshLocked (p := p) fuel) a (just_loaded a).
Proof.
  unfold refreshLocked. eapply succeeds_seq; [apply (succeeds_ask j i o RCancelled a (fun _ _ => True)); done|]. intros k c Hk _. destruct c; [apply succeeds_fail|].
  eapply succeeds_seq; [apply succeeds_params|]. intros k' _ Hk' _. destruct (negb (Enabled p)); [apply succeeds_fail|].
  eapply succeeds_mono; [apply loop_spec|]. intros. eapply just_loaded_from; [|eassumption]. lia.
Qed.

(** ** Under the lock *)

Definition locked (ka : nat) (c0 : CurrentSnapshot) (a : nat) : Prop :=
  (ka < a)%nat /\ cells ka !! i = Some (mkCell None c0) /\ forall m, (ka < m <= a)%nat -> cells m !! i = Some (mkCell (Some j) c0).

Lemma locked_wait ka c0 a k : (a <= k)%nat -> lock_kept j i a k -> locked ka c0 a -> locked ka c0 k.
Proof.
  intros Hk Hl (Hka & Hc & Hm). split_and!; [lia|done|]. intros m Hm'. destruct (decide (m <= a)%nat); [apply Hm; lia|]. apply (Hl c0); [apply Hm; lia|lia].
Qed.

Lemma locked_step ka c0 {B} (q : req B) a k b : pure_req q = true -> locked ka c0 a -> step j i o a k q b -> locked ka c0 (S k).
Proof.
  intros Hq Hl St. destruct (locked_wait ka c0 a k) as (Hka & Hc & Hm); [apply St|apply St|done|]. split_and!; [lia|done|]. intros m Hm'.
  destruct (decide (m = S k)) as [->|]; [|apply Hm; lia]. unfold cells. rewrite (step_pure _ _ _ _ _ _ _ St Hq). apply Hm. lia.
Qed.

Lemma only_order {A C} (l : list A) (f : list A -> prog C) :
  (forall g, only (fun B => @pure_req B) (f (shuffle (length l) g l))) -> only (fun B => @pure_req B) (pbind (any_order l) f).
Proof. intros H. split; [done|]. exact H. Qed.

Lemma only_list prefix : only (fun B => @pure_req B) (list_blobs prefix).
Proof. split; [done|]. by intros []. Qed.

Lemma only_params : only (fun B => @pure_req B) getParameters.
Proof. split; [done|]. by intros []. Qed.

Lemma only_load t : only (fun B => @pure_req B) (load_code t).
Proof. destruct t; (apply only_bind; [apply only_list|]; intros l); [done..|]. by apply only_order. Qed.

Lemma only_attempted : only (fun B => @pure_req B) (refreshAttemptLocked (p := p)).
Proof.
  apply only_bind; [apply only_params|]. intros _. split; [done|]. intros now.
  change [loadWriteEpoch; loadDeletionWatermark; loadSingleEpochCompactions; loadRangeCheckpoints] with (load_code <$> all_loads).
  apply only_order. intros f. rewrite shuffle_fmap, collect_fmap. apply only_bind; [apply only_collect; apply only_load|]. intros us.
  apply only_bind; [|intros ues; split; [done|]; intros b; cbn [pbind pret]; by destruct (After _ _)].
  apply only_order. intros f'. apply only_bind; [|done]. apply only_collect. intros e. apply only_bind; [apply only_list|done].
Qed.

Lemma only_refresh fuel : only (fun B => @pure_req B) (refreshLocked (p := p) fuel).
Proof.
  unfold refreshLocked. apply only_bind; [done|]. intros []; [done|]. apply only_bind; [apply only_params|]. intros _. destruct (negb (Enabled p)); [done|].
  induction fuel as [|fuel IH]; [done|]. cbn [refresh_loop]. apply only_bind; [apply only_attempt, only_attempted|]. intros [cs|e]; [done|]. apply only_bind; [done|]. by intros [].
Qed.

(** ** The state for a call *)

(** A snapshot loaded from turn [kI] on, and valid when the thread last looked at
    its clock, just before it gave the lock back. *)
Definition current (kI k : nat) (cs : CurrentSnapshot) : Prop :=
  exists k0 k1 kv kr, loaded i cs k0 k1 kr /\ (kI <= k0)%nat /\ (k0 <= kv < kr)%nat /\ k = S kr /\ (kr < n)%nat
    /\ events kv = EvServe j /\ events kr = EvServe j /\ not_served j (S kv) kr /\ local kv i <= ValidUntil cs /\ legit_before k /\ t_op <$> threads kr !! j = Some o.

(** From turn [kI] on, which may be the start, the manager has no older state. *)
Definition since (kI a : nat) : Prop := kI = 0%nat \/ (kI <= a)%nat /\ cells kI !! i = Some (mkCell None no_snapshot).

Lemma since_later kI a b : (a <= b)%nat -> since kI a -> since kI b.
Proof. intros Hab [->|[H H']]; [by left|]. right. split; [lia|done]. Qed.

Lemma kept_since kI k cs : (k <= n)%nat -> legit_before k -> since kI k -> cells k !! i = Some (mkCell None cs) -> kept i kI k cs.
Proof.
  intros Hk Hb [->|[HI Hc]] Hcs; [|by eapply kept_cell]. destruct (opened k i _ Hk Hcs) as (kI & HkI & Hc). destruct (kept_cell kI k i None cs) as [->|(k0 & k1 & _ & H)]; try done; [by left|].
  right. exists k0, k1. split; [lia|done].
Qed.

Lemma release_spec {A} ka c0 cs (r : prog A) a Q : locked ka c0 a ->
  (cs = c0 \/ exists k1 k2, (ka < k1)%nat /\ loaded i cs k1 k2 a) ->
  (forall k, step j i o a k (RRelease cs) tt -> wp j i o r (S k) Q) -> wp j i o (ask (RRelease cs) ;;@ r) a Q.
Proof.
  intros Hl Hcs Hr. apply wp_step; [|intros k [] St; by apply Hr]. intros k Hk _ _ Hlk _ _. cbn [legit].
  destruct (locked_wait ka c0 a k) as (Hka & Hc & Hm); [lia|done|done|]. exists ka, c0. split_and!; [lia|done|done|].
  destruct Hcs as [->|(k1 & k2 & Hk1 & Hld)]; [by left|]. right. exists k1, k2. split; [done|]. eapply loaded_later; [|exact Hld]. lia.
Qed.

Lemma committed_spec fuel ensureMinTime kI a : 0 <= ensureMinTime -> since kI a -> succeeds j i o (committedState (p := p) fuel ensureMinTime) a (current kI).
Proof.
  intros Hens Hsince. apply wp_step; [done|]. intros ka c0 Sa. cbn [pbind pret]. destruct (acquire_answer _ _ _ _ _ _ Sa) as (Hca & Hca' & _).
  assert (locked ka c0 (S ka)) as Hl1 by (split_and!; [lia|done|]; intros m Hm; by replace m with (S ka) by lia).
  assert ((a <= ka < n)%nat) as Hka by apply Sa. apply wp_pure; [done|]. intros kv b Sv. pose proof (now_answer _ _ _ _ _ _ Sv) as ->. cbn [pbind pret].
  assert ((S ka <= kv < n)%nat) as Hkv by apply Sv. pose proof (locked_step ka c0 RNow (S ka) kv _ eq_refl Hl1 Sv) as Hl2.
  destruct (After (local kv i + ensureMinTime) (ValidUntil c0)) eqn:Ea.
  - apply wp_bind, wp_attempt. eapply wp_mono; [apply (wp_frame j i o (fun B => @pure_req B) (locked ka c0)); [|apply only_refresh|exact Hl2|apply refresh_spec]|].
    { intros B q a' k b Hq Hl St. by eapply locked_step. }
    intros k [cs|e] Hk [Hl3 Hr]; [|by eapply release_spec; [exact Hl3|by left|]]. destruct Hr as (k0 & k1 & k3 & Hk0 & Hld & -> & Hk3 & Hev & Hval).
    eapply release_spec; [exact Hl3|right; exists k0, k1; split; [lia|done]|]. intros kr Sr. exists k0, k1, k3, kr. assert ((S k3 <= kr < n)%nat) as Hkr by apply Sr.
    split_and!; try done; try lia; [eapply loaded_later; [|exact Hld]; lia| |apply Sr..]. destruct Hsince as [->|[? _]]; lia.
  - eapply release_spec; [exact Hl2|by left|]. intros kr Sr. assert ((S kv <= kr < n)%nat) as Hkr by apply Sr. unfold After in Ea. apply Z.ltb_ge in Ea.
    destruct (kept_since kI ka c0) as [->|(k0 & k1 & HI & Hld)]; [lia|by eapply step_before|eapply since_later; [|exact Hsince]; lia|done| |].
    + cbn in Ea. pose proof (tm_local kv i). lia.
    + pose proof (ld_order _ _ _ _ _ Hld). exists k0, k1, kv, kr. split_and!; try done; try lia; [eapply loaded_later; [|exact Hld]; lia|apply Sv|apply Sr..].
Qed.

End Refresh.
