(* ===== verification/EpochRead.v ===== *)
(** * Reading a snapshot

    [getCompleteIndexSetForCommittedState]: the blobs it answers with stand for
    indexes, and cover every entry that was there when the snapshot was loaded, or
    that belongs to a settled epoch, as long as it ends within the safety margin. *)

From S2P Require Import Prelude GoStrings GoText GoTime Db IndexID IndexTable IndexV1 IndexV2 IndexV2Facts IndexBuild IndexMergedFacts IndexRoundTrip Gather PackFormat ContentStore IndexBlobV0 ContentSpec EpochUtils EpochManager EpochSystem EpochNames EpochLogic EpochHistory EpochCover EpochRules EpochState.
Open Scope go_scope.

Section Read.
Context {EE : EpochEnvironment} {p : EpochParameters} {TC : Crypter} {TCL : CrypterLaws} {TP : Parameters} {T : Type} {TT : LLRB T} {R : Run (p := p) (T := T)} {O : Orderly} {Tm : Timely}.
Context (j i : nat) (o : op).

Abbreviation n := turns.

Section Snapshot.
Context {cs : CurrentSnapshot} {k0 k1 k2 : nat} (Ld : loaded i cs k0 k1 k2) (Hn : (k2 <= n)%nat) (Hb : legit_before k2).

(** A snapshot that is valid is used within the safety margin. *)
Lemma valid_margin m : (m < n)%nat -> local m i <= ValidUntil cs -> sigma m - sigma k0 + EpochRefreshFrequency p <= CleanupSafetyMargin p.
Proof.
  intros Hm Hv. pose proof margin. pose proof tm_refresh. rewrite (ld_valid _ _ _ _ _ Ld) in Hv. destruct (decide (k0 <= m)%nat) as [Hle|Hgt].
  - pose proof (tm_clock k0 m i ltac:(lia) ltac:(lia)). lia.
  - pose proof (or_storage m k0 ltac:(lia)). lia.
Qed.

Lemma loaded_chain : chain 0 (LongestRangeCheckpointSets cs) /\ Forall proper (LongestRangeCheckpointSets cs).
Proof.
  split.
  - destruct (ld_ranges _ _ _ _ _ Ld) as (k & l & groups & _ & _ & _ & ->). apply findLongest_chain.
  - apply Forall_forall. intros r Hr. by destruct (loaded_range Ld Hn Hb r Hr) as (ds & _ & _ & _ & _ & _ & H & _).
Qed.

Lemma epoch_blobs_spec e a : (k2 <= a)%nat -> succeeds j i o (epoch_blobs cs e) a (fun k r => r.1 = e /\ exists m, (a <= m <= k)%nat /\ epoch_read (cs := cs) m e r.2).
Proof.
  intros Ha. unfold epoch_blobs, getIndexesFromEpochInternal, epoch_read.
  destruct (if isSettledEpochNumber cs e then SingleEpochCompactionSets cs !! e else None) as [s|]; [apply succeeds_ret; split; [done|]; by exists a|].
  destruct (UncompactedEpochSets cs !! e) as [s|]; [apply succeeds_ret; split; [done|]; by exists a|].
  eapply succeeds_seq; [apply succeeds_list|]. intros k l Hk (m & Hm & -> & _ & Hl). apply succeeds_ret. split; [done|]. exists m. split; [lia|done].
Qed.

(** The blobs of an epoch stand for indexes. *)
Lemma epoch_read_stands k e b md : (k2 <= k <= n)%nat -> legit_before k -> epoch_read (cs := cs) k e b -> md ∈ b -> stands k (md_BlobID md) /\ seen_from k0 (md_BlobID md).
Proof.
  intros Hk Hbk Hr Hmd. unfold epoch_read in Hr. pose proof (ld_order _ _ _ _ _ Ld) as Ho.
  assert (forall m, (k0 <= m <= k)%nat -> b ≡ₚ listing (blobs m) (UncompactedEpochBlobPrefix e) -> stands k (md_BlobID md) /\ seen_from k0 (md_BlobID md)) as Hlist.
  { intros m Hm Hl. rewrite Hl in Hmd. apply elem_of_listing in Hmd as (x & Hx & Hp & _). split.
    - apply (stands_later m k); [lia|]. apply (index_stands m _ x); [lia|eapply legit_before_le; [|exact Hbk]; lia|done|by eapply uncompacted_prefix_kind].
    - exists m, x. split; [lia|done]. }
  destruct (if isSettledEpochNumber cs e then SingleEpochCompactionSets cs !! e else None) as [s|] eqn:E.
  - subst b. destruct (isSettledEpochNumber cs e); [|done]. destruct (loaded_single Ld Hn Hb e s E) as (ds & m & Hm & Hds & Hnd & _ & Hperm & _ & _ & Hl). split.
    2:{ destruct (proj1 (elem_of_listing _ _ _) (Hl md Hmd)) as (x & Hx & _). exists m, x. split; [lia|done]. }
    apply (stands_later m k); [lia|]. apply (set_stands m ds); [lia|eapply legit_before_le; [|exact Hbk]; lia|done|done|]. rewrite <- Hperm. by apply list_elem_of_fmap_2.
  - destruct (UncompactedEpochSets cs !! e) as [s|] eqn:Eu; [|apply (Hlist k); [lia|done]]. subst b. destruct (ld_uncompacted _ _ _ _ _ Ld) as (k3 & Hk3 & _ & Hu).
    destruct (Hu e s Eu) as (m & Hm & Hl). apply (Hlist m); [lia|done].
Qed.

(** ** A complete set *)

(** What the blobs [res] of a call that ended in turn [k] are worth, if the
    safety margin has not passed in turn [kc]. *)
Definition complete_read (lo hi : Z) (k : nat) (res : list Metadata) : Prop :=
  forall kc, (k <= kc <= n)%nat -> legit_before kc ->
    (forall md, md ∈ res -> stands kc (md_BlobID md) /\ seen_from k0 (md_BlobID md))
    /\ (sigma kc - sigma k0 <= CleanupSafetyMargin p -> forall e it kb, lo <= e <= hi -> entry_of e kb it -> (kb <= k1)%nat \/ isSettledEpochNumber cs e = true ->
        ids_cover kc (md_BlobID <$> res) it).

(** Where reading starts: at the first epoch, or after the ranges. *)
Definition after_ranges (lo : Z) : Prop := lo = 0 \/ Forall (fun r => MaxEpoch r <= lo) (LongestRangeCheckpointSets cs).

Lemma ranges_read lo : after_ranges lo -> exists rs start, use_ranges (LongestRangeCheckpointSets cs) lo = (concat (Blobs <$> rs), start)
  /\ rs ⊆ LongestRangeCheckpointSets cs /\ forall e, lo <= e < start -> exists r, r ∈ rs /\ MinEpoch r <= e <= MaxEpoch r.
Proof.
  destruct loaded_chain as [Hch Hp]. intros [-> |Hle].
  - destruct (use_chain _ 0 [] Hch Hp) as (s' & E & _ & Hall). exists (LongestRangeCheckpointSets cs), s'. split_and!; [exact E|done|done].
  - exists [], lo. split_and!; [by apply use_none|by intros ? ?%not_elem_of_nil|lia].
Qed.

Lemma complete_spec lo hi a : (k2 <= a)%nat -> after_ranges lo -> succeeds j i o (getCompleteIndexSetForCommittedState cs lo hi) a (complete_read lo hi).
Proof.
  intros Ha Hlo. unfold getCompleteIndexSetForCommittedState. destruct (ranges_read lo Hlo) as (rs & start & -> & Hsub & Hrs).
  destruct (hi - start + 1 <? 0) eqn:Ecnt; [apply succeeds_fail|]. apply Z.ltb_ge in Ecnt. eapply succeeds_seq; [apply succeeds_order|]. intros k order Hk [Hord _].
  eapply succeeds_seq; [apply (succeeds_collect j i o (epoch_blobs cs) (fun k e r => r.1 = e /\ exists m, (a <= m <= k)%nat /\ epoch_read (cs := cs) m e r.2) a)|].
  - intros k' m e r Hk' (E & m' & Hm' & H). split; [done|]. exists m'. split; [lia|done].
  - intros e b _ Hb'. eapply succeeds_mono; [apply epoch_blobs_spec; lia|]. intros k' r _ (E & m & Hm & H). split; [done|]. exists m. split; [lia|done].
  - done.
  - intros k' tmp Hk' Htmp. apply succeeds_ret.
    assert (tmp.*1 = order) as Ekeys by (clear - Htmp; induction Htmp as [|e r l l' [<- _] _ IH]; cbn; congruence).
    assert (forall e s, (list_to_map tmp : gmap Z (list Metadata)) !! e = Some s -> exists m, (a <= m <= k')%nat /\ epoch_read (cs := cs) m e s) as Hread.
    { intros e s He. apply elem_of_list_to_map_2 in He. apply list_elem_of_lookup in He as [x Hx]. destruct (Forall2_lookup_r _ _ _ _ _ Htmp Hx) as (e' & _ & Ee & Hm). cbn in Ee, Hm. by subst e'. }
    assert (forall md, md ∈ concat ((fun ep => default [] ((list_to_map tmp : gmap Z (list Metadata)) !! ep)) <$> seqZ start (hi - start + 1)) <->
      exists e s, start <= e <= hi /\ (list_to_map tmp : gmap Z (list Metadata)) !! e = Some s /\ md ∈ s) as Hin.
    { intros md. rewrite elem_of_concat. split.
      - intros (s & Hs & Hmd). apply list_elem_of_fmap in Hs as (e & -> & He). apply elem_of_seqZ in He.
        destruct (list_to_map tmp !! e) as [s|] eqn:Es; [|by apply not_elem_of_nil in Hmd]. exists e, s. split_and!; [lia|lia|done|done].
      - intros (e & s & He & Es & Hmd). exists s. split; [|done]. apply list_elem_of_fmap. exists e. rewrite Es. split; [done|]. apply elem_of_seqZ. lia. }
    intros kc Hkc Hbc. split.
    + intros md [Hmd|Hmd]%elem_of_app.
      * apply elem_of_concat in Hmd as (s & Hs & Hmd). apply list_elem_of_fmap in Hs as (r & -> & Hr).
        destruct (loaded_range Ld Hn Hb r) as (ds & Hds & Hnd & Hperm & _ & _ & _ & _ & Hseen); [by apply Hsub|]. split; [|by apply Hseen]. apply (stands_later k2 kc); [lia|].
        apply (set_stands k2 ds); [lia|done..|]. rewrite <- Hperm. by apply list_elem_of_fmap_2.
      * apply Hin in Hmd as (e & s & He & Es & Hmd). destruct (Hread e s Es) as (m & Hm & Hr).
        destruct (epoch_read_stands m e s md) as [Hst Hseen]; [lia|eapply legit_before_le; [|exact Hbc]; lia|done|done|]. split; [|done]. by apply (stands_later m kc); [lia|].
    + intros Hmargin e it kb He Hent Hkb. destruct (decide (e < start)) as [Hlt|Hge].
      * destruct (Hrs e ltac:(lia)) as (r & Hr & Her). destruct (loaded_range Ld Hn Hb r) as (ds & Hds & Hnd & Hperm & _ & _ & _ & Hc & _); [by apply Hsub|].
        apply (ids_cover_mono k2 kc (set_names ds)); [lia| |].
        { intros id Hid. rewrite <- Hperm in Hid. apply list_elem_of_fmap in Hid as (md & -> & Hmd). apply list_elem_of_fmap_2, elem_of_app. left.
          apply elem_of_concat. exists (Blobs r). split; [by apply list_elem_of_fmap_2|done]. }
        eapply ids_cover_set; [done|done|done|]. by apply (proj1 (covers_epoch_entries _ _) (Hc e Her) it kb).
      * assert (e ∈ order) as Heo by (rewrite Hord; apply elem_of_seqZ; lia).
        assert (exists s, (list_to_map tmp : gmap Z (list Metadata)) !! e = Some s) as [s Es].
        { apply list_elem_of_lookup in Heo as [x Hx]. destruct (Forall2_lookup_l _ _ _ _ _ Htmp Hx) as ([e' s] & Hr & Ee & _). cbn in Ee. subst e'. exists s.
          apply elem_of_list_to_map_1; [rewrite Ekeys, Hord; apply NoDup_seqZ|]. by eapply list_elem_of_lookup_2. }
        destruct (Hread e s Es) as (m & Hm & Hr). assert (legit_before m) as Hbm by (eapply legit_before_le; [|exact Hbc]; lia). pose proof (or_storage m kc ltac:(lia)).
        apply (ids_cover_mono m kc (md_BlobID <$> s)); [lia| |].
        { intros id (md & -> & Hmd)%list_elem_of_fmap. apply list_elem_of_fmap_2, elem_of_app. right. apply Hin. exists e, s. split_and!; [lia|lia|done|done]. }
        apply (epoch_read_cover Ld Hn Hb m e s it kb); [lia|done| |lia|done|done|done].
        intros m' Hm' Hv. pose proof (valid_margin m' ltac:(lia) Hv). pose proof tm_refresh. lia.
Qed.
End Snapshot.

(** ** Listing the active indexes *)

Lemma entry_reached kb e it m : (kb <= m <= n)%nat -> legit_before m -> entry_of e kb it -> reached m e.
Proof.
  intros Hm Hb (id & k & x & l & Hla & Hk & _). assert (legit_before k) as Hbk by (eapply legit_before_le; [|exact Hb]; lia).
  destruct (blob_of_index k id x) as (j' & t & e' & d & _ & Hw & _ & Hr); [lia|done|apply Hla|eapply uncompacted_prefix_kind; apply Hla|].
  apply writes_epoch in Hw. rewrite (uncompacted_prefix_epoch id e) in Hw; [|apply Hla|apply Hla]. injection Hw as <-. eapply reached_later; [|done|exact Hr]. lia.
Qed.

Definition lists_all (kI k : nat) (l : list Metadata) : Prop :=
  (forall md, md ∈ l -> seen_from kI (md_BlobID md)) /\ (k <= n)%nat /\ legit_before k /\ forall e it, entry_of e kI it -> ids_cover k (md_BlobID <$> l) it.

Lemma list_spec fuel kI : forall maxEpoch a, since i kI a -> maxEpoch = LatestEpoch \/ (forall e it, entry_of e kI it -> e <= maxEpoch) ->
  succeeds j i o (GetCompleteIndexSet (p := p) fuel maxEpoch) a (fun k r => lists_all kI k r.1).
Proof.
  induction fuel as [|fuel IH]; intros maxEpoch a Hsince Hmax; [done|]. cbn [GetCompleteIndexSet]. eapply succeeds_seq; [apply committed_spec; [done|exact Hsince]|].
  intros k cs Hk (k0 & k1 & kv & kr & Hld & HI & Hkv & -> & Hkr & _ & _ & _ & _ & Hb & _). assert (legit_before kr) as Hbr by (eapply legit_before_le; [|exact Hb]; lia).
  set (max' := if maxEpoch =? LatestEpoch then WriteEpoch cs + 1 else maxEpoch). pose proof (ld_order _ _ _ _ _ Hld) as Ho.
  assert (forall e it, entry_of e kI it -> e <= max') as Hmax'.
  { intros e it He. unfold max'. destruct (Z.eqb_spec maxEpoch LatestEpoch) as [->|Hne]; [|destruct Hmax as [?|Hmax]; [done|by eapply Hmax]].
    assert (reached k1 e) as Hr by (eapply entry_reached; [|eapply legit_before_le; [|exact Hb]; lia|exact He]; lia). apply (ld_epoch _ _ _ _ _ Hld) in Hr. lia. }
  eapply succeeds_seq; [apply succeeds_attempt, (complete_spec Hld ltac:(lia) Hbr); [lia|by left]|]. intros k r Hk2 Hr. apply wp_pure; [done|]. intros kc b St.
  pose proof (now_answer _ _ _ _ _ _ St) as ->. cbn [pbind pret]. destruct (Before (local kc i) (ValidUntil cs)) eqn:Eb.
  - destruct r as [res|e]; [|apply succeeds_fail]. apply succeeds_ret. assert ((k <= kc < n)%nat) as Hkc by apply St. unfold Before in Eb. apply Z.ltb_lt in Eb.
    destruct (Hr kc ltac:(lia)) as [Hst Hcov]; [by eapply step_before|]. split_and!; [|cbn; lia|apply St|].
    + intros md Hmd. destruct (Hst md Hmd) as [_ (m & x & Hm & Hx)]. exists m, x. split; [lia|done].
    + intros e it He. apply (ids_cover_mono kc (S kc) (md_BlobID <$> res)); [lia|done|]. apply (Hcov) with (e := e) (kb := kI).
      * pose proof (valid_margin Hld ltac:(lia) kc ltac:(lia) ltac:(lia)). pose proof tm_refresh. lia.
      * split; [by apply (entry_epoch e kI it)|by eapply Hmax'].
      * done.
      * left. lia.
  - assert (succeeds j i o (GetCompleteIndexSet (p := p) fuel max') (S kc) (fun k r => lists_all kI k r.1)) as Hrec.
    { apply IH; [|by right]. assert ((k <= kc)%nat) by apply St. eapply since_later; [|exact Hsince]. lia. }
    destruct r as [res|[]]; try exact Hrec. apply succeeds_fail.
Qed.
End Read.
