(* ===== verification/EpochCompact.v ===== *)
(** * Compaction

    [CompactEpoch] reads the indexes that names stand for, merges them, and writes
    the shards under a name drawn for them; the shards cover what the names
    cover. *)

From S2P Require Import Prelude GoStrings GoText GoTime Db IndexID IndexTable IndexV1 IndexV2 IndexV2Facts IndexBuild IndexMergedFacts IndexRoundTrip Gather PackFormat ContentStore IndexBlobV0 ContentSpec EpochUtils EpochManager EpochSystem EpochNames EpochLogic EpochHistory EpochCover EpochRules.
From Stdlib Require Import Ascii.
Open Scope go_scope.

(** ** Merging *)

Lemma feed_fold {S} (f : S -> Info -> S) l s : feed (E := unit) (fun i b => (None, f b i)) l s = (Ok tt, foldl f s l).
Proof. revert s. induction l as [|i l IH]; intros s; [done|]. cbn. by rewrite IH. Qed.

Lemma iterate_fold {X} `{IndexLaws X} {S} (f : S -> Info -> S) (x : X) l k s : holds x l k ->
  (Iterate (E := unit) x AllIDs (fun i b => (None, f b i)) s).2 = foldl f s l.
Proof.
  intros Hx. destruct (Iterate_law (E := unit) x l k AllIDs (fun i b => (None, f b i)) s Hx) as (x' & _ & ->). cbn [snd].
  rewrite filter_all; [by rewrite feed_fold|]. pose proof (holds_list _ _ _ Hx) as [_ Hv _]. eapply Forall_impl; [exact Hv|]. intros it. apply AllIDs_all.
Qed.

Lemma foldl_collect {A} (l s : list A) : foldl (fun s i => s ++ [i]) s l = s ++ l.
Proof. revert s. induction l as [|x l IH]; intros s; [by rewrite app_nil_r|]. cbn. by rewrite IH, <- app_assoc. Qed.

(** An index holds one list. *)
Lemma holds_unique {X} `{IndexLaws X} (x : X) l l' k k' : holds x l k -> holds x l' k' -> l = l'.
Proof.
  intros Hl Hl'. pose proof (iterate_fold (fun s i => s ++ [i]) x l k [] Hl) as E. pose proof (iterate_fold (fun s i => s ++ [i]) x l' k' [] Hl') as E'.
  rewrite foldl_collect in E, E'. cbn [app] in E, E'. by rewrite <- E, <- E'.
Qed.

Section Compact.
Context {EE : EpochEnvironment} {p : EpochParameters} {TC : Crypter} {TCL : CrypterLaws} {TP : Parameters} {T : Type} {TT : LLRB T} {TL : LLRBLaws T} {R : Run (p := p) (T := T)} {O : Orderly}.
Context (j i : nat) (o : op).

Abbreviation n := turns.

Lemma index_data_unique d l l' : index_data d l -> index_data d l' -> l = l'.
Proof. intros [(x & Hx & Hl) _] [(x' & Hx' & Hl') _]. rewrite Hx in Hx'. injection Hx' as <-. by eapply holds_unique. Qed.

Lemma shard_count (b : Builder) m : 0 < m -> shards_fit b m -> slen (shard b m) < 2 ^ 63.
Proof.
  intros Hm Hf. unfold shard, shards_fit in *. set (s := numShards _ _) in *. destruct (s <=? 1); [by destruct (_ =? 0)|].
  unfold slen. pose proof (length_filter (fun r : Builder => r <> ∅) ((fun k => filter (fun e : ID * Info => shard_of s e.1 = Z.of_nat k) b) <$> seq 0 (Z.to_nat s))) as Hle.
  rewrite length_fmap, length_seq in Hle. lia.
Qed.

(** The shards of a compaction are indexes that cover every entry added. *)
Lemma compacted_shards adds ds :
  Forall (good_entry mp_IndexVersion Overhead ksize) adds ->
  OneUse_BuildShards (foldl OneUse_Add (NewOneUseBuilder (T := T)) adds) mp_IndexVersion true DefaultIndexShardSize (fun _ => None) = Ok ds ->
  OneUse_Length (foldl OneUse_Add (NewOneUseBuilder (T := T)) adds) < 2 ^ 32 -> Forall (fun d => slen d < 2 ^ 32) ds ->
  slen ds < 2 ^ 63 /\ Forall (fun d => exists l, index_data d l) ds /\ forall it, it ∈ adds -> covers ds it.
Proof.
  intros Hgood Hb Hlen Hsize. assert (Forall (fun it => valid_id (ContentID it)) adds) as Hv by (eapply Forall_impl; [exact Hgood|]; by intros it []).
  pose proof (builder_keyed adds Hv) as Hk. unfold OneUse_Length in Hlen. rewrite elems_Len, one_use_sorted, contents_length in Hlen by done.
  assert (shards_fit (foldl Add ∅ adds) DefaultIndexShardSize) as Hfit.
  { unfold shards_fit, numShards, DefaultIndexShardSize. rewrite Z.quot_div_nonneg by lia. apply Z.div_lt_upper_bound; lia. }
  unfold OneUse_BuildShards in Hb. change (DefaultIndexShardSize =? 0) with false in Hb. cbv iota in Hb. rewrite one_use_shards, build_shards_fmap in Hb by done.
  change (BuildShards (foldl Add ∅ adds) mp_IndexVersion true DefaultIndexShardSize (fun _ => None) = Ok ds) in Hb.
  destruct (shards_open adds mp_IndexVersion Overhead ksize DefaultIndexShardSize Hgood true (fun _ => None) ds Hfit Hb Hsize) as (xs & Hxs & Hh). apply mapR_inv in Hxs.
  pose proof (fun it => shards_elements adds mp_IndexVersion Overhead ksize DefaultIndexShardSize Hgood it Hfit) as Hin.
  set (ls := (fun s => sortedContents (map_to_list s)) <$> shard (foldl Add ∅ adds) DefaultIndexShardSize) in *.
  assert (forall it, it ∈ concat ls -> good_entry mp_IndexVersion Overhead ksize it) as Hgl by (intros it Hit%Hin; by eapply built_entry).
  assert (Forall2 index_data ds ls) as Hall.
  { apply Forall2_same_length_lookup_2; [by rewrite (Forall2_length _ _ _ Hxs), (Forall2_length _ _ _ Hh)|]. intros q d l Hd Hl.
    destruct (Forall2_lookup_l _ _ _ _ _ Hxs Hd) as (x & Hx & Ho). destruct (Forall2_lookup_l _ _ _ _ _ Hh Hx) as (l' & Hl' & Hhx). rewrite Hl in Hl'. injection Hl' as <-.
    split; [by exists x|]. apply Forall_forall. intros it Hit. apply Hgl, elem_of_concat. exists l. split; [by eapply list_elem_of_lookup_2|done]. }
  split_and!.
  - pose proof (Forall2_length _ _ _ Hall) as El. unfold ls in El. rewrite length_fmap in El. unfold slen. rewrite El. by apply shard_count.
  - apply Forall_forall. intros d [q Hd]%list_elem_of_lookup. destruct (Forall2_lookup_l _ _ _ _ _ Hall Hd) as (l & _ & Hl). by exists l.
  - intros it Hit. pose proof (builder_answers adds (ContentID it)) as Ha. destruct (foldl Add ∅ adds !! ContentID it) as [it'|] eqn:E; [|by destruct (Ha it)].
    destruct Ha as (_ & Hid & Hmax). assert (it' ∈ concat ls) as Hc by (apply Hin; by rewrite Hid). apply elem_of_concat in Hc as (l & [q Hl]%list_elem_of_lookup & Hit').
    destruct (Forall2_lookup_r _ _ _ _ _ Hall Hl) as (d & Hd & Hdl). exists d, l, it'. split_and!; [by eapply list_elem_of_lookup_2|done|done|]. split; [done|by apply Hmax].
Qed.

Lemma better_trans a b c : better b a -> better c b -> better c a.
Proof. intros [E1 H1] [E2 H2]. split; [congruence|]. by eapply entry_le_trans. Qed.

Lemma covers_better ds it it' : better it' it -> covers ds it' -> covers ds it.
Proof. intros Hb (d & l & x & Hd & Hl & Hx & Hbx). exists d, l, x. split_and!; [done..|]. by eapply better_trans. Qed.

(** ** Reading *)

Lemma add_blob_spec (t : T) id d l a : denotes a id d -> index_data d l -> succeeds j i o (add_index_blob t id) a (fun _ t' => t' = foldl OneUse_Add t l).
Proof.
  intros Hd Hl. unfold add_index_blob. apply succeeds_bind, succeeds_try; [done|]. intros k data St. assert ((a <= k < n)%nat) as Hk by apply St.
  destruct (get_answer _ _ _ _ _ _ _ St) as (x & Hx & <-). assert (blob_Decrypt (bl_data x) id = Ok d) as ->.
  { apply (denoted k k); [lia|by eapply step_before|eapply denotes_later; [|exact Hd]; lia|done]. }
  destruct Hl as [(y & -> & Hy) _]. apply succeeds_ret. apply (iterate_fold OneUse_Add y l ksize t Hy).
Qed.

Lemma add_blobs_spec ids : forall (t : T) a, (a <= n)%nat -> legit_before a -> (forall id, id ∈ ids -> stands a id) ->
  succeeds j i o (add_index_blobs t ids) a (fun _ t' => exists adds, t' = foldl OneUse_Add t adds /\ Forall (good_entry mp_IndexVersion Overhead ksize) adds
    /\ forall id d l it, id ∈ ids -> denotes a id d -> index_data d l -> it ∈ l -> it ∈ adds).
Proof.
  induction ids as [|id ids IH]; intros t a Ha Hba Hst; [apply succeeds_ret; exists []; split_and!; [done|done|]; by intros ? ? ? ? ?%not_elem_of_nil|].
  cbn [add_index_blobs]. destruct (Hst id) as (d & l & Hd & Hl); [by left|].
  eapply succeeds_seq; [apply succeeds_now; [done|done|]; by apply (add_blob_spec t id d l)|]. intros k t' Hk (Hkn & Hbk & ->).
  eapply succeeds_mono; [apply IH; [done|done|]; intros id' Hid'; eapply stands_later; [|apply Hst; by right]; lia|].
  intros k' t' _ (adds & -> & Hg & Hin). exists (l ++ adds). split_and!; [by rewrite foldl_app|apply Forall_app; split; [apply Hl|done]|].
  intros id' d' l' it [->|Hid]%elem_of_cons Hd' Hl' Hit.
  - apply elem_of_app. left. assert (d = d') as <-; [|by rewrite (index_data_unique d l l')]. by apply (denotes_unique a id).
  - apply elem_of_app. right. eapply Hin; [done| |done|done]. eapply denotes_later; [|exact Hd']. lia.
Qed.
(** ** Writing *)

Lemma encrypt_spec payload prefix suffix a : succeeds j i o (EncryptBlob payload prefix suffix) a (fun k e =>
  (exists m, k = S m /\ step j i o a m RNonce (Some (random_bytes (default (fun _ => 0) (et_rand (eturn_at m))) 12)))
  /\ e.1 = blob_name payload prefix suffix /\ blob_Decrypt e.2 e.1 = Ok payload).
Proof.
  unfold EncryptBlob. destruct (getIndexBlobIV (blob_name payload prefix suffix)) as [iv|] eqn:Eiv; [|apply succeeds_fail].
  apply succeeds_bind, succeeds_ask; [done|]. intros k [nonce|] St; [|apply succeeds_fail]. destruct (Encrypt nonce payload iv) as [e|] eqn:Ee; [|apply succeeds_fail].
  apply succeeds_ret. split_and!; [|done|].
  - exists k. split; [done|]. pose proof (st_serve _ _ _ _ _ _ _ St) as Hs. cbn in Hs. destruct (et_rand (eturn_at k)) as [f|]; [|done]. cbn in *. by injection Hs as <-.
  - cbn [fst snd]. unfold blob_Decrypt. rewrite Eiv. cbn. by rewrite (decrypt_encrypt _ _ _ _ Ee).
Qed.

(** A name of a thread's set that is not written stays so while the thread waits. *)
Lemma absent_stays ds d a k : (a <= k <= n)%nat -> legit_before k -> ds ∈ sets a -> ds_thread ds = j -> not_served j a k ->
  blobs a !! member_name ds d = None -> blobs k !! member_name ds d = None.
Proof.
  intros [Hak Hk]. induction Hak as [|k Hak IH]; intros Hb Hds Hj Hns Ha; [done|].
  assert (legit_before k) as Hbk by (eapply legit_before_le; [|exact Hb]; lia). assert (ds ∈ sets k) as Hdk by (eapply set_stays; [|exact Hds]; lia).
  assert (blobs k !! member_name ds d = None) as Hn by (apply IH; [lia|done..| |done]; intros m Hm; apply Hns; lia).
  destruct (decide (blobs (S k) !! member_name ds d = blobs k !! member_name ds d)) as [E|E]; [congruence|exfalso].
  destruct (set_drawn k ds) as (_ & m' & _ & Hok & _); [lia|done|done|]. pose proof (member_kind _ ds d Hok) as Hkind.
  destruct (change k _ ltac:(lia) Hb E) as (_ & j' & i' & o' & c & Ee & _ & [(data & _ & Hput)|([x Hx] & _)]); [|congruence].
  destruct Hput as [H%kind_marker|[H%kind_watermark|[(e & l & Hw%writes_kind & _)|(ds' & d' & Hds' & Hj' & _ & En & _)]]]; [destruct Hkind; congruence..|].
  assert (ds = ds') as <- by (apply (member_unique k k ds ds' d d'); done || lia). apply (Hns k); [lia|]. congruence.
Qed.

Lemma write_set_spec ds rest : forall a, (a <= n)%nat -> legit_before a -> ds ∈ sets a -> ds_thread ds = j -> rest ⊆ ds_shards ds ->
  (NoDup (set_names ds) -> NoDup (member_name ds <$> rest) /\ forall d, d ∈ rest -> blobs a !! member_name ds d = None) ->
  succeeds j i o (write_set rest (ds_prefix ds) (set_name (ds_name ds) (slen (ds_shards ds)))) a (fun _ _ => True).
Proof.
  induction rest as [|d rest IH]; intros a Ha Hb Hds Hj Hsub Habs; [done|]. cbn [write_set].
  eapply succeeds_seq; [apply succeeds_now; [done|done|apply encrypt_spec]|]. intros k [id e] Hk (Hkn & Hbk & (m & -> & St) & Eid & Hdec). cbn [fst snd] in *.
  change (id = member_name ds d) in Eid. subst id.
  assert (NoDup (set_names ds) -> forall d', d' ∈ d :: rest -> blobs (S m) !! member_name ds d' = None) as Habs'.
  { intros Hnd d' Hd'. destruct (Habs Hnd) as [_ H]. unfold blobs. rewrite (step_pure _ _ _ _ _ _ _ St eq_refl). pose proof (st_turn _ _ _ _ _ _ _ St).
    apply (absent_stays ds d' a m); [lia|by eapply step_before|done|done|apply St|by apply H]. }
  assert (forall k, (S m <= k < n)%nat -> not_served j (S m) k -> legit_before k -> NoDup (set_names ds) -> forall d', d' ∈ d :: rest -> blobs k !! member_name ds d' = None) as Habs2.
  { intros k Hmk Hns Hbk' Hnd d' Hd'. apply (absent_stays ds d' (S m) k); [lia|done|eapply set_stays; [|exact Hds]; lia|done|done|by apply Habs']. }
  apply wp_step.
  - intros k Hmk _ Hns _ Hbk' _. do 3 right. exists ds, d. split_and!; [eapply set_stays; [|exact Hds]; lia|done|apply Hsub; by left|done|done|].
    intros Hnd. apply Habs2; [done..|]. by left.
  - intros k [t|err] Sk; [|done]. pose proof (st_turn _ _ _ _ _ _ _ Sk). cbn [pbind]. apply IH; [lia|apply Sk|eapply set_stays; [|exact Hds]; lia|done|intros x Hx; apply Hsub; by right|].
    intros Hnd. destruct (Habs Hnd) as [Hnd' _]. apply NoDup_cons in Hnd' as [Hnin Hnd']. split; [done|]. intros d' Hd'.
    rewrite (put_answer _ _ _ _ _ _ _ _ Sk), lookup_insert_ne; [apply Habs2; [lia|apply Sk|by eapply step_before|done|by right]|].
    intros E. apply Hnin. rewrite E. by apply list_elem_of_fmap_2.
Qed.

(** ** A compaction *)

Lemma draw_answer a k prefix shards contents r : step j i o a k (RSet prefix shards contents) (Some r) -> sets (S k) = mkDrawn j r prefix shards contents :: sets k.
Proof. intros St. pose proof (serve_sets _ _ _ _ _ _ _ (st_serve _ _ _ _ _ _ _ St)) as Hs. exact Hs. Qed.

(** No blob of a set is there before its name is drawn. *)
Lemma undrawn k ds d : (k < n)%nat -> legit_before (S k) -> sets (S k) = ds :: sets k -> blobs (S k) = blobs k -> set_ok k (ds_prefix ds) (ds_shards ds) -> blobs (S k) !! member_name ds d = None.
Proof.
  intros Hk Hb Hs Hsame Hok. rewrite Hsame. destruct (blobs k !! member_name ds d) as [x|] eqn:Ex; [exfalso|done].
  assert (legit_before k) as Hbk by (eapply legit_before_le; [|exact Hb]; lia).
  destruct (blob_of_set k _ x ltac:(lia) Hbk Ex) as (ds' & d' & m & Hds' & Hm & _ & En & _); [by eapply member_kind|].
  assert (ds ∈ sets (S k)) as Hin by (rewrite Hs; by left).
  assert (ds = ds') as <- by (eapply (member_unique (S k) m); [lia|lia|done|eapply legit_before_le; [|exact Hbk]; lia|done|done|exact En]).
  apply (drawn_new k ds Hk Hs). eapply set_stays; [|exact Hds']. lia.
Qed.

Lemma compact_spec ids prefix (want : Info -> Prop) a : (a <= n)%nat -> legit_before a -> (forall id, id ∈ ids -> stands a id) -> (forall it, want it -> ids_cover a ids it) ->
  (forall k shards, (a <= k < n)%nat -> legit_before k -> slen shards < 2 ^ 63 -> Forall (fun d => exists l, index_data d l) shards -> (forall it, want it -> covers shards it) ->
     set_ok k prefix shards) ->
  succeeds j i o (CompactEpoch (T := T) ids prefix) a (fun _ _ => True).
Proof.
  intros Ha Hb Hst Hcov Hset. unfold CompactEpoch. eapply succeeds_seq; [apply succeeds_now; [done|done|by apply add_blobs_spec]|].
  intros k1 t Hk1 (Hn1 & Hb1 & adds & -> & Hg & Hin). eapply succeeds_seq; [apply succeeds_now; [done|done|apply succeeds_params]|]. intros k2 [] Hk2 (Hn2 & Hb2 & _).
  destruct (OneUse_BuildShards _ _ _ _ _) as [shards|] eqn:Esh; [|apply succeeds_fail].
  assert (forall k, (k2 <= k < n)%nat -> legit_before k -> OneUse_Length (foldl OneUse_Add (NewOneUseBuilder (T := T)) adds) < 2 ^ 32 -> Forall (fun d => slen d < 2 ^ 32) shards ->
    set_ok k prefix shards) as Hok.
  { intros k Hk Hbk Hlen Hsz. destruct (compacted_shards adds shards Hg Esh Hlen Hsz) as (Hn & Hidx & Hc). apply Hset; [lia|done..|].
    intros it Hit. destruct (Hcov it Hit) as (id & d & l & it' & Hid & Hd & Hl & Hit' & Hbet). eapply covers_better; [exact Hbet|]. apply Hc. by eapply Hin. }
  apply wp_step; [intros k Hk _ _ _ Hbk _; exact (Hok k Hk Hbk)|]. intros k [r|] St; [|done]. cbn [pbind pret].
  pose proof (draw_answer _ _ _ _ _ _ St) as Hs. set (ds := mkDrawn j r prefix shards _) in *. pose proof (st_turn _ _ _ _ _ _ _ St).
  assert (ds ∈ sets (S k)) as Hds by (rewrite Hs; by left).
  apply (write_set_spec ds shards); [lia|apply St|done|done|done|]. intros Hnd. split; [done|]. intros d Hd. apply (undrawn k); [lia|apply St|done| |].
  - pose proof (serve_blobs _ _ _ _ _ _ _ (st_serve _ _ _ _ _ _ _ St)) as E. exact E.
  - pose proof or_small as Hsmall. rewrite Forall_forall in Hsmall. destruct (Hsmall ds) as [Hc Hd']; [eapply set_stays; [|exact Hds]; lia|].
    apply Hok; [lia|by eapply step_before|done|done].
Qed.
End Compact.
