(* ===== verification/EpochOps.v ===== *)
(** * Maintenance calls are legit

    Range checkpoints and compactions of an epoch write sets that cover their
    epochs; cleanup deletes what is superseded; markers and watermarks only
    advance. *)

From S2P Require Import Prelude GoStrings GoText GoTime Db IndexID IndexTable IndexV1 IndexV2 IndexV2Facts IndexBuild IndexMergedFacts IndexRoundTrip Gather PackFormat ContentStore IndexBlobV0 ContentSpec EpochUtils EpochManager EpochSystem EpochNames EpochLogic EpochHistory EpochCover EpochRules EpochState EpochRead EpochCompact.
Open Scope go_scope.

Section Ops.
Context {EE : EpochEnvironment} {p : EpochParameters} {TC : Crypter} {TCL : CrypterLaws} {TP : Parameters} {T : Type} {TT : LLRB T} {TL : LLRBLaws T} {R : Run (p := p) (T := T)} {O : Orderly} {Tm : Timely}.
Context (j i : nat) (o : op).

Abbreviation n := turns.

(** ** Range checkpoints *)

Lemma range_bounds cs k0 k1 k2 lo hi : loaded i cs k0 k1 k2 -> (k2 <= n)%nat -> legit_before k2 -> getRangeToCompact cs p = Some (lo, hi) ->
  after_ranges (cs := cs) lo /\ 0 <= lo < hi /\ hi = lastSettledEpochNumber cs.
Proof.
  intros Ld Hn Hb. unfold getRangeToCompact. destruct (lastSettledEpochNumber cs <? 0) eqn:E0; [done|]. apply Z.ltb_ge in E0.
  destruct (loaded_chain i Ld Hn Hb) as [Hch Hp]. pose proof checkpoint_frequency as Hf. unfold after_ranges.
  destruct (LongestRangeCheckpointSets cs) as [|r rs] eqn:Er.
  - destruct (lastSettledEpochNumber cs - 0 <? FullCheckpointFrequency p) eqn:E1; [done|]. apply Z.ltb_ge in E1. intros [= <- <-]. split_and!; [by left|lia|lia|done].
  - pose proof (chain_last _ 0 r Hch Hp) as Hl. set (last := MaxEpoch (List.last (r :: rs) r)) in *. clearbody last. destruct (_ <? FullCheckpointFrequency p) eqn:E1; [done|]. apply Z.ltb_ge in E1. intros [= <- <-].
    pose proof (Forall_inv Hl). cbv beta in *. split_and!; [|lia|lia|done]. right. eapply Forall_impl; [exact Hl|]. cbv beta. intros. lia.
Qed.

Lemma settled_reached cs k0 k1 k2 e k : loaded i cs k0 k1 k2 -> (k1 <= k <= n)%nat -> legit_before k -> isSettledEpochNumber cs e = true -> reached k (e + 2).
Proof.
  intros Ld Hk Hb Hs. unfold isSettledEpochNumber, lastSettledEpochNumber, numUnsettledEpochs in Hs. apply Z.leb_le in Hs.
  eapply reached_later; [exact Hk|exact Hb|]. eapply reached_le; [|apply (ld_epoch _ _ _ _ _ Ld)]. lia.
Qed.

Lemma range_spec fuel a : succeeds j i o (MaybeGenerateRangeCheckpoint (p := p) (T := T) fuel) a (fun _ _ => True).
Proof.
  unfold MaybeGenerateRangeCheckpoint. eapply succeeds_seq; [apply succeeds_params|]. intros ka _ Hka _. eapply succeeds_seq; [apply (committed_spec j i o fuel 0 0%nat); [done|by left]|].
  intros kb cs Hkb (k0 & k1 & kv & kr & Ld & _ & Hkv & -> & Hkr & _ & _ & _ & _ & Hb & _). assert (legit_before kr) as Hbr by (eapply legit_before_le; [|exact Hb]; lia).
  destruct (getRangeToCompact cs p) as [[lo hi]|] eqn:Er; [|by apply succeeds_ret]. destruct (range_bounds cs k0 k1 kr lo hi Ld ltac:(lia) Hbr Er) as (Hafter & Hlo & Ehi).
  eapply succeeds_seq; [|intros; by apply succeeds_ret]. unfold generateRangeCheckpointFromCommittedState.
  eapply succeeds_seq; [apply (complete_spec j i o Ld ltac:(lia) Hbr lo hi (S kr)); [lia|done]|]. intros kc res Hkc Hres.
  apply wp_pure; [done|]. intros kd b St. pose proof (now_answer _ _ _ _ _ _ St) as ->. cbn [pbind pret]. pose proof (st_turn _ _ _ _ _ _ _ St) as Hkd. pose proof (ld_order _ _ _ _ _ Ld) as Ho.
  destruct (After (local kd i) (ValidUntil cs)) eqn:Ea; [apply succeeds_fail|]. unfold After in Ea. apply Z.ltb_ge in Ea.
  destruct (Hres kd ltac:(lia)) as [Hst Hcov]; [by eapply step_before|]. pose proof (valid_margin i Ld ltac:(lia) kd ltac:(lia) Ea). pose proof tm_refresh.
  assert (legit_before (S kd)) as Hbd by apply St. assert (epoch_number hi) as Hhi.
  { split; [lia|]. rewrite Ehi. assert (WriteEpoch cs < 2 ^ 63) by (eapply reached_bound; apply (ld_epoch _ _ _ _ _ Ld)). unfold lastSettledEpochNumber, numUnsettledEpochs. lia. }
  apply (compact_spec j i o _ _ (fun it => exists e kb, lo <= e <= hi /\ entry_of e kb it)); [lia|done| | |].
  - intros id (md & -> & Hmd)%list_elem_of_fmap. eapply (stands_later kd); [lia|]. by apply Hst.
  - intros it (e & kb' & He & Hent). apply (ids_cover_mono kd (S kd) (md_BlobID <$> res)); [lia|done|]. apply (Hcov ltac:(lia) e it kb' He Hent).
    right. unfold isSettledEpochNumber. apply Z.leb_le. lia.
  - intros k shards Hk Hbk Hn Hidx Hc. split_and!; [done|done|]. right. exists lo, hi. assert (epoch_number lo) as Hlo' by (unfold epoch_number in *; lia). split_and!; [done|done|lia|done|].
    intros e He. apply covers_epoch_entries. intros it kb' Hent. apply Hc. by exists e, kb'.
Qed.

(** ** Compactions of an epoch *)

(** The blobs of the epoch, which the call reads or lists without looking at its
    clock again. *)
Lemma compact_epoch_spec fuel a : compacts_epoch o -> succeeds j i o (MaybeCompactSingleEpoch (p := p) (T := T) fuel) a (fun _ _ => True).
Proof.
  intros Hop. unfold MaybeCompactSingleEpoch. eapply succeeds_seq; [apply (committed_spec j i o fuel 0 0%nat); [done|by left]|].
  intros kb cs Hkb (k0 & k1 & kv & kr & Ld & _ & Hkv & -> & Hkr & Hev & Her & Hns & Hval & Hb & Ho). assert (legit_before kr) as Hbr by (eapply legit_before_le; [|exact Hb]; lia).
  destruct (oldestUncompactedEpoch cs) as [e|]; [|apply succeeds_fail]. destruct (Z.ltb_spec e 0) as [|He0]; [apply succeeds_fail|].
  destruct (isSettledEpochNumber cs e) eqn:Es; cbn [negb]; [|by apply succeeds_ret]. destruct (bool_decide _) eqn:Ec; [by apply succeeds_ret|]. apply bool_decide_eq_false in Ec.
  destruct (_ && _); [by apply succeeds_ret|]. assert (SingleEpochCompactionSets cs !! e = None) as Enone by (by apply eq_None_not_Some).
  pose proof (ld_order _ _ _ _ _ Ld) as Hord. pose proof (valid_margin i Ld ltac:(lia) kv ltac:(lia) Hval) as Hm. pose proof tm_refresh as Href.
  pose proof (tm_prompt kv kr j ltac:(lia) Hev Her Hns ltac:(eauto)) as Hp1.
  eapply succeeds_seq with (P := fun k b => exists m, (kr <= m <= k)%nat /\ (k <= n)%nat /\ legit_before k /\ sigma m - sigma k0 <= CleanupSafetyMargin p /\ epoch_read (cs := cs) m e b).
  { destruct (UncompactedEpochSets cs !! e) as [s|] eqn:Eu.
    - apply succeeds_ret. exists kr. split_and!; [lia|lia|lia|done|lia|]. unfold epoch_read. by rewrite Es, Enone, Eu.
    - eapply succeeds_mono; [apply succeeds_list|]. intros k b Hk (m & Hm' & -> & St & Hl). pose proof (st_turn _ _ _ _ _ _ _ St) as Hmn. exists m.
      pose proof (tm_prompt kr m j ltac:(lia) Her (st_event _ _ _ _ _ _ _ St) (st_waiting _ _ _ _ _ _ _ St) ltac:(exists o; split; [apply St|done])) as Hp2.
      split_and!; [lia|lia|lia|apply St|lia|]. unfold epoch_read. by rewrite Es, Enone, Eu. }
  intros k b Hk (m & Hmk & Hkn & Hbk & Hsig & Hread). destruct b as [|md b]; [by apply succeeds_ret|]. assert (legit_before m) as Hbm by (eapply legit_before_le; [|exact Hbk]; lia).
  eapply succeeds_seq; [|intros; by apply succeeds_ret].
  assert (reached k (e + 2)) as Hr2 by (eapply settled_reached; [exact Ld|lia|done|done]). pose proof (reached_bound _ _ Hr2).
  apply (compact_spec j i o _ _ (fun it => exists kb, entry_of e kb it)); [lia|done| | |].
  - intros id (md' & -> & Hmd')%list_elem_of_fmap. eapply (stands_later m); [lia|]. by eapply (epoch_read_stands i Ld ltac:(lia) Hbr m e (md :: b)); [lia|..].
  - intros it (kb' & Hent). apply (ids_cover_mono m k (md_BlobID <$> md :: b)); [lia|done|].
    apply (epoch_read_cover Ld ltac:(lia) Hbr m e _ it kb'); [lia|done| |done|done|done|by right]. intros m' Hm' Hv. pose proof (valid_margin i Ld ltac:(lia) m' ltac:(lia) Hv). lia.
  - intros k' shards Hk' Hbk' Hn Hidx Hc. split_and!; [done|done|]. left. exists e. assert (epoch_number (e + 2) /\ epoch_number e) as [? ?] by (unfold epoch_number; lia). split_and!; [done|done|done| |].
    + eapply reached_later; [|done|exact Hr2]. lia.
    + apply covers_epoch_entries. intros it kb' Hent. apply Hc. by exists kb'.
Qed.
(** ** Deletions *)

Lemma delete_all_spec ids a : forall b err, (a <= b)%nat -> (forall id k, id ∈ ids -> (a <= k < n)%nat -> legit_before k -> legit_delete k o id) ->
  succeeds j i o (delete_all ids err) b (fun _ _ => True).
Proof.
  induction ids as [|id ids IH]; intros b err Hab Hok; [by destruct err|]. cbn [delete_all]. apply succeeds_bind, succeeds_attempt. apply wp_step.
  - intros k Hk _ _ _ Hbk _. apply Hok; [by left|lia|done].
  - intros k r St. pose proof (st_turn _ _ _ _ _ _ _ St). destruct r as [u|e]; (apply IH; [lia|]; intros id' k' Hid'; apply Hok; by right).
Qed.

Lemma delete_multiple_spec ids a : (forall id k, id ∈ ids -> (a <= k < n)%nat -> legit_before k -> legit_delete k o id) ->
  succeeds j i o (DeleteMultiple ids) a (fun _ _ => True).
Proof.
  intros Hok. unfold DeleteMultiple. eapply succeeds_seq; [apply succeeds_order|]. intros k ids' Hk [Hperm _]. apply (delete_all_spec ids' a); [done|].
  intros id m Hid. apply Hok. by rewrite <- Hperm.
Qed.

Lemma fold_max (l : list Metadata) : forall t, let m := foldl (fun maxTime md => if After (md_Timestamp md) maxTime then md_Timestamp md else maxTime) t l in
  t <= m /\ (forall md, md ∈ l -> md_Timestamp md <= m) /\ (m = t \/ exists md, md ∈ l /\ m = md_Timestamp md).
Proof.
  induction l as [|x l IH]; intros t; cbn zeta; [split_and!; [done|by intros ? ?%not_elem_of_nil|by left]|]. cbn [foldl]. unfold After at 2 4 6 8. cbn zeta in IH.
  destruct (IH (if t <? md_Timestamp x then md_Timestamp x else t)) as (H1 & H2 & H3). destruct (Z.ltb_spec t (md_Timestamp x)).
  - split_and!; [lia| |].
    + intros md [->|Hmd]%elem_of_cons; [done|auto].
    + right. destruct H3 as [H3|(md & Hmd & H3)]; [exists x; split; [by left|done]|exists md; split; [by right|done]].
  - split_and!; [lia| |].
    + intros md [->|Hmd]%elem_of_cons; [lia|auto].
    + destruct H3 as [H3|(md & Hmd & H3)]; [by left|right; exists md; split; [by right|done]].
Qed.

(** No blob of the snapshot is younger than the clock of the storage. *)
Lemma cleanup_time cs k0 k1 k2 k : loaded i cs k0 k1 k2 -> (k2 <= k <= n)%nat -> legit_before k -> IsZero (maxCleanupTime cs) = false -> maxCleanupTime cs <= sigma k.
Proof.
  intros Ld Hk Hb Hz. destruct (fold_max (concat (map_to_list (UncompactedEpochSets cs)).*2) zero_time) as (_ & _ & [E|(md & Hmd & E)]).
  - unfold maxCleanupTime in Hz. rewrite E in Hz. done.
  - unfold maxCleanupTime. rewrite E. apply elem_of_concat in Hmd as (l & Hl & Hmd). apply list_elem_of_fmap in Hl as ([e l'] & -> & Hl). apply elem_of_map_to_list in Hl.
    destruct (ld_uncompacted _ _ _ _ _ Ld) as (k3 & Hk3 & _ & Hu). destruct (Hu e l' Hl) as (m & Hm & Hperm). cbn in Hmd. rewrite Hperm in Hmd.
    apply elem_of_listing in Hmd as (x & Hx & _ & ->). cbn. etrans; [apply (blob_time m (md_BlobID md) x); [lia|eapply legit_before_le; [|exact Hb]; lia|exact Hx]|]. apply or_storage. lia.
Qed.

(** A compaction that was written early enough supersedes its epoch. *)
Lemma early_superseded cs k0 k1 k2 k e : loaded i cs k0 k1 k2 -> (k2 <= k <= n)%nat -> legit_before k -> IsZero (maxCleanupTime cs) = false ->
  blobSetWrittenEarlyEnough (default [] (SingleEpochCompactionSets cs !! e)) (maxCleanupTime cs - CleanupSafetyMargin p) = true -> superseded k e.
Proof.
  intros Ld Hk Hb Hz. unfold blobSetWrittenEarlyEnough. destruct (SingleEpochCompactionSets cs !! e) as [s|] eqn:Es; [|done]. cbn [default from_option id].
  destruct (IsZero (MaxTimestamp s)); [done|]. unfold Before. intros Hlt%Z.ltb_lt. assert (legit_before k2) as Hb2 by (eapply legit_before_le; [|exact Hb]; lia).
  destruct (loaded_single Ld ltac:(lia) Hb2 e s Es) as (ds & m & Hm & Hds & Hnd & Hne & Hperm & Hp & _ & Hl). pose proof (cleanup_time cs k0 k1 k2 k Ld Hk Hb Hz) as Hct.
  exists ds. split_and!; [eapply set_stays; [|exact Hds]; lia|done|done|done|]. intros id Hid. rewrite <- Hperm in Hid. apply list_elem_of_fmap in Hid as (md & -> & Hmd).
  destruct (proj1 (elem_of_listing _ _ _) (Hl md Hmd)) as (x & Hx & _ & Emd). exists x.
  assert (md_BlobID md ∈ set_names ds) as Hin by (rewrite <- Hperm; by apply list_elem_of_fmap_2). apply list_elem_of_fmap in Hin as (d & Ed & _). rewrite Ed in *.
  split; [apply (member_stays m k); [lia|done..]|]. destruct (fold_max s zero_time) as (_ & Hmax & _). specialize (Hmax md Hmd). fold (MaxTimestamp s) in Hmax. rewrite Emd in Hmax. cbn in Hmax. lia.
Qed.

Lemma cleanup_spec fuel a : ~ is_write o -> succeeds j i o (CleanupSupersededIndexes (p := p) fuel) a (fun _ _ => True).
Proof.
  intros Hop. unfold CleanupSupersededIndexes. eapply succeeds_seq; [apply (committed_spec j i o fuel 0 0%nat); [done|by left]|].
  intros kb cs Hkb (k0 & k1 & kv & kr & Ld & _ & Hkv & -> & Hkr & _ & _ & _ & _ & Hb & _). eapply succeeds_seq; [apply succeeds_params|]. intros kc _ Hkc _.
  destruct (IsZero (maxCleanupTime cs)) eqn:Ez; [by apply succeeds_ret|]. eapply succeeds_seq; [apply succeeds_list|]. intros kd l Hkd (m & Hm & -> & _ & Hl).
  apply delete_multiple_spec. intros id k Hid Hk Hbk. do 3 right. split; [done|]. apply list_elem_of_fmap in Hid as (bm & -> & [Hbm Hin]%list_elem_of_filter).
  rewrite Hl in Hin. apply elem_of_listing in Hin as (x & _ & Hp & _). destruct (epochNumberFromBlobID (md_BlobID bm)) as [e|]; [|done]. exists e. split_and!; [done|done|].
  eapply early_superseded; [exact Ld|lia|done..].
Qed.

Lemma markers_spec fuel a : succeeds j i o (CleanupMarkers (p := p) fuel) a (fun _ _ => True).
Proof.
  unfold CleanupMarkers. eapply succeeds_seq; [apply (committed_spec j i o fuel 0 0%nat); [done|by left]|].
  intros kb cs Hkb (k0 & k1 & kv & kr & Ld & _ & Hkv & -> & Hkr & _ & _ & _ & _ & Hb & _). eapply succeeds_seq; [apply succeeds_params|]. intros kc _ Hkc _.
  unfold cleanupInternal. destruct (IsZero (maxCleanupTime cs)); [by apply succeeds_ret|]. pose proof (ld_order _ _ _ _ _ Ld) as Ho.
  apply delete_multiple_spec. intros id k [Hid|Hid]%elem_of_app Hk Hbk; apply list_elem_of_fmap in Hid as (bm & -> & [Hbm Hin]%list_elem_of_filter).
  - left. pose proof (ld_markers _ _ _ _ _ Ld) as Hma. rewrite Forall_forall in Hma. split; [by apply Hma|]. destruct (epochNumberFromBlobID (md_BlobID bm)) as [e|]; [|done].
    apply Z.ltb_lt in Hbm. exists e. split; [done|]. eapply (reached_later k1 k); [lia|done|]. eapply reached_le; [|apply (ld_epoch _ _ _ _ _ Ld)]. lia.
  - right. left. pose proof (ld_watermarks _ _ _ _ _ Ld) as Hwa. rewrite Forall_forall in Hwa. by apply Hwa.
Qed.

(** ** Markers and watermarks *)

Lemma put_spec id data a : (forall k, legit_put k j o id data) -> succeeds j i o (try_ask (RPut id data)) a (fun _ _ => True).
Proof. intros Hok. apply wp_step; [intros k _ _ _ _ _ _; apply Hok|]. by intros k [t|e] _. Qed.

Lemma invalidate_spec a : succeeds j i o Invalidate a (fun k _ => exists m, k = S m /\ (a <= m < n)%nat /\ step j i o a m RInvalidate tt).
Proof. apply wp_step; [done|]. intros k [] St. exists k. split_and!; [done|apply St|apply St|done]. Qed.

Lemma watermark_spec fuel ts a : succeeds j i o (AdvanceDeletionWatermark (p := p) fuel ts) a (fun _ _ => True).
Proof.
  unfold AdvanceDeletionWatermark. eapply succeeds_seq; [apply (committed_spec j i o fuel 0 0%nat); [done|by left]|]. intros k cs Hk _.
  destruct (Before ts (DeletionWatermark cs)); [by apply succeeds_ret|]. eapply succeeds_seq; [apply put_spec; intros; right; left; by apply HasPrefix_app|].
  intros k' _ _ _. eapply succeeds_seq; [apply invalidate_spec|]. done.
Qed.

Lemma advance_spec a : succeeds j i o (MaybeAdvanceWriteEpoch (p := p)) a (fun _ _ => True).
Proof.
  unfold MaybeAdvanceWriteEpoch. eapply succeeds_seq; [apply succeeds_params|]. intros k _ _ _. eapply (succeeds_seq j i o (ask RPeek) _ k (fun _ _ => True)); [by apply wp_step|]. intros k' cs _ _.
  destruct (shouldAdvance _ _ _ _); [|by apply succeeds_ret]. eapply succeeds_seq with (P := fun _ _ => True); [|intros; by apply succeeds_ret]. eapply succeeds_seq; [apply put_spec; intros; left; by apply HasPrefix_app|]. done.
Qed.

Lemma refresh_call_spec fuel a : succeeds j i o (Refresh (p := p) fuel) a (fun _ _ => True).
Proof.
  apply wp_step; [done|]. intros ka c0 Sa. cbn [pbind pret]. destruct (acquire_answer _ _ _ _ _ _ Sa) as (Hca & Hca' & _).
  assert (locked j i ka c0 (S ka)) as Hl1 by (split_and!; [lia|done|]; intros m Hm; by replace m with (S ka) by lia).
  apply wp_bind, wp_attempt. eapply wp_mono; [apply (wp_frame j i o (fun B => @pure_req B) (locked j i ka c0)); [|apply only_refresh|exact Hl1|apply refresh_spec]|].
  { intros B q a' k b Hq Hl St. by eapply locked_step. }
  intros k [cs|e] Hk [Hl3 Hr]; [|by eapply release_spec; [exact Hl3|by left|]]. destruct Hr as (k0 & k1 & k3 & Hk0 & Hld & -> & Hk3 & Hev & Hval).
  apply wp_step; [|done]. intros m Hm _ _ Hlk _ _. destruct (locked_wait j i ka c0 (S k3) m) as (Hka & Hc & Hheld); [lia|done|done|]. exists ka, c0. split_and!; [lia|done|done|].
  right. exists k0, k1. split; [lia|]. eapply loaded_later; [|exact Hld]. lia.
Qed.
End Ops.
