(* ===== verification/EpochWrite.v ===== *)
(** * Writing an index

    [WriteIndexBlobs]: the blobs of a call are written in one epoch, each once; a
    call that succeeds leaves all of them in place before their epoch is settled,
    and takes none of them back. *)

From S2P Require Import Prelude GoStrings GoText GoTime Db IndexID IndexTable IndexV1 IndexV2 IndexV2Facts IndexBuild IndexMergedFacts IndexRoundTrip Gather PackFormat ContentStore IndexBlobV0 ContentSpec EpochUtils EpochManager EpochSystem EpochNames EpochLogic EpochHistory EpochCover EpochRules EpochState EpochRead EpochCompact EpochOps.
From Stdlib Require Import Ascii.
Open Scope go_scope.

(** ** Names with the prefix of an epoch *)

Lemma Cut_prefixed P s c : Contains P c = false -> (Cut (P +:+ s) c).1.1 = P +:+ (Cut s c).1.1.
Proof.
  induction P as [|x P IH]; [done|]. cbn [Contains]. intros [Hx HP]%orb_false_iff. rewrite sapp_cons. cbn [Cut]. rewrite Hx. specialize (IH HP).
  destruct (Cut (P +:+ s) c) as [[b a] ok]. cbn in IH |- *. by rewrite IH.
Qed.

Lemma sdrop_beyond P n s : sdrop (String.length P + n) (P +:+ s) = sdrop n s.
Proof. induction P as [|c P IH]; [done|]. exact IH. Qed.

(** The initialization vector is in the name, before the first dash. *)
Lemma iv_prefixed P s iv : Contains P "-"%char = false -> getIndexBlobIV s = Ok iv -> getIndexBlobIV (P +:+ s) = Ok iv.
Proof.
  intros HP. unfold getIndexBlobIV. change (fst (fst (Cut (P +:+ s) "-"%char))) with (Cut (P +:+ s) "-"%char).1.1. rewrite (Cut_prefixed P s "-"%char HP).
  change (fst (fst (Cut s "-"%char))) with (Cut s "-"%char).1.1. set (t := (Cut s "-"%char).1.1). unfold len. rewrite slength_app. destruct (Z.ltb_spec (Z.of_nat (String.length t)) 32); [done|].
  rewrite (proj2 (Z.ltb_ge _ _)) by lia. replace (String.length P + String.length t - 32)%nat with (String.length P + (String.length t - 32))%nat by lia. by rewrite sdrop_beyond.
Qed.

Lemma uncompacted_no_dash e : 0 <= e -> Contains (UncompactedEpochBlobPrefix e) "-" = false.
Proof. intros He. unfold UncompactedEpochBlobPrefix. rewrite !Contains_app, FormatInt_no_byte by done. done. Qed.

(** A blob that reads under its name reads under the name in an epoch. *)
Lemma decrypt_prefixed `{Crypter} data name d e : 0 <= e -> blob_Decrypt data name = Ok d -> blob_Decrypt data (UncompactedEpochBlobPrefix e +:+ name) = Ok d.
Proof.
  intros He. unfold blob_Decrypt. destruct (getIndexBlobIV name) as [iv|] eqn:E; [|done]. cbn. by rewrite (iv_prefixed _ _ iv (uncompacted_no_dash e He) E).
Qed.

Section Write.
Context {EE : EpochEnvironment} {p : EpochParameters} {TC : Crypter} {TCL : CrypterLaws} {TP : Parameters} {T : Type} {TT : LLRB T} {TL : LLRBLaws T} {R : Run (p := p) (T := T)} {O : Orderly} {Tm : Timely}.
Context (j i : nat) (o : op).

Abbreviation n := turns.

(** ** What other threads leave alone *)

Lemma op_later k : (k <= n)%nat -> t_op <$> threads k !! j = Some o -> exists t, threads n !! j = Some t /\ t_op t = o.
Proof.
  intros Hk Ho. destruct (threads k !! j) as [t|] eqn:Et; [|done]. injection Ho as Ho. destruct (thread_later k n j t) as (t' & Ht' & Eo & _); [lia|done|]. exists t'. split; [done|congruence].
Qed.

(** A turn of another thread. *)
Lemma own_turn k id e d : (k < n)%nat -> legit_before (S k) -> (exists t, threads n !! j = Some t /\ t_op t = o) -> events k <> EvServe j -> writes o id e d ->
  blobs (S k) !! id = blobs k !! id \/ blobs (S k) !! id = None /\ reached (S k) (e + 2).
Proof.
  intros Hk Hb (t & Ht & Eo) He Hw. destruct (decide (blobs (S k) !! id = blobs k !! id)) as [E|E]; [by left|right]. assert (legit_before k) as Hbk by (eapply legit_before_le; [|exact Hb]; lia).
  destruct (change k id Hk Hb E) as (_ & j' & i' & o' & c & Ee & Hj' & Hch). assert (j' <> j) as Hne by congruence. pose proof (writes_kind _ _ _ _ Hw) as Hkind.
  assert (forall e' d', ~ writes o' id e' d') as Hother.
  { intros e' d' Hw'. destruct (thread_later k n j' _ ltac:(lia) Hj') as (t' & Ht' & Eo' & _). cbn in Eo'. rewrite <- Eo in Hw. rewrite <- Eo' in Hw'.
    by destruct (writes_unique j t j' t' id e d e' d' Ht Ht' Hw Hw') as [-> _]. }
  destruct Hch as [(data & _ & Hput)|(_ & Hnone & Hdel)].
  - exfalso. destruct Hput as [H%kind_marker|[H%kind_watermark|[(e' & d' & Hw' & _)|(ds & d' & Hds & _ & _ & -> & _)]]]; [congruence|congruence|by eapply Hother|].
    destruct (set_drawn k ds) as (_ & m & _ & Hok & _); [lia|done|done|]. pose proof (member_kind _ ds d' Hok) as Hk'. rewrite Hkind in Hk'. by destruct Hk'.
  - split; [done|]. destruct Hdel as [[H%kind_marker _]|[H%kind_watermark|[(e' & d' & Hw')|(_ & e' & _ & He' & Hsup)]]]; [congruence|congruence|by destruct (Hother e' d')|].
    rewrite (writes_epoch _ _ _ _ Hw) in He'. injection He' as <-. destruct Hsup as (ds & Hds & Hp & _).
    destruct (single_set k ds e) as (m & Hm & _ & Hr & _); [lia|done|done|apply Hw|done|]. eapply reached_later; [|done|exact Hr]. lia.
Qed.

Lemma own_wait a k id e d : (a <= k <= n)%nat -> legit_before k -> (exists t, threads n !! j = Some t /\ t_op t = o) -> not_served j a k -> writes o id e d ->
  blobs k !! id = blobs a !! id \/ blobs k !! id = None /\ reached k (e + 2).
Proof.
  intros [Hak Hk]. induction Hak as [|k Hak IH]; intros Hb Ht Hns Hw; [by left|]. assert (legit_before k) as Hbk by (eapply legit_before_le; [|exact Hb]; lia).
  assert (not_served j a k) as Hns' by (intros m Hm; apply Hns; lia). destruct (own_turn k id e d ltac:(lia) Hb Ht (Hns k ltac:(lia)) Hw) as [E|E]; [|by right].
  destruct IH as [IH|[IH Hr]]; [lia|done..|left; congruence|]. right. split; [congruence|]. by apply reached_turn; [lia|..].
Qed.

(** ** What a call has written *)

(** Of the call's blobs, those written are there, unless their epoch is settled,
    and no others are. *)
Record holding (written : gmap string Metadata) (e : Z) (k : nat) : Prop := {
  ho_run : (k <= n)%nat;
  ho_legit : legit_before k;
  ho_own id e' d : writes o id e' d -> is_Some (blobs k !! id) -> is_Some (written !! id);
  ho_there id : is_Some (written !! id) -> exists d x, writes o id e d /\ blob_Decrypt (bl_data x) id = Ok d /\ (blobs k !! id = Some x \/ reached k (e + 2))
}.

Lemma holding_wait written e a k : (a <= k <= n)%nat -> legit_before k -> t_op <$> threads k !! j = Some o -> not_served j a k -> holding written e a -> holding written e k.
Proof.
  intros [Hak Hk] Hb Ho Hns Hh. assert (exists t, threads n !! j = Some t /\ t_op t = o) as Ht by (by eapply op_later). constructor; [done|done| |].
  - intros id e' d Hw Hx. destruct (own_wait a k id e' d ltac:(lia) Hb Ht Hns Hw) as [E|[E _]]; [|rewrite E in Hx; by destruct Hx]. eapply (ho_own _ _ _ Hh); [exact Hw|by rewrite <- E].
  - intros id Hid. destruct (ho_there _ _ _ Hh id Hid) as (d & x & Hw & Hdec & Hx). exists d, x. split_and!; [done|done|].
    destruct Hx as [Hx|Hr]; [|right; eapply reached_later; [|done|exact Hr]; lia]. destruct (own_wait a k id e d ltac:(lia) Hb Ht Hns Hw) as [E|[_ Hr]]; [left; congruence|by right].
Qed.

(** Requests that change no blob. *)
Definition calm_req {B} (q : req B) : bool := match q with RPut _ _ => false | RDelete _ => false | _ => true end.

Lemma calm_blobs {B} a k (q : req B) b : step j i o a k q b -> calm_req q = true -> blobs (S k) = blobs k.
Proof. intros St Hq. pose proof (serve_blobs _ _ _ _ _ _ _ (st_serve _ _ _ _ _ _ _ St)) as Hs. unfold blobs. rewrite Hs. by destruct q. Qed.

Lemma holding_step {B} written e a k (q : req B) b : calm_req q = true -> holding written e a -> step j i o a k q b -> holding written e (S k).
Proof.
  intros Hq Hh St. pose proof (st_turn _ _ _ _ _ _ _ St) as Hk. pose proof (calm_blobs _ _ _ _ St Hq) as E.
  destruct (holding_wait written e a k) as [_ _ Hown Hthere]; [lia|by eapply step_before|apply St|apply St|done|]. constructor; [lia|apply St| |].
  - intros id e' d Hw. rewrite E. by eapply Hown.
  - intros id Hid. destruct (Hthere id Hid) as (d & x & Hw & Hdec & Hx). exists d, x. rewrite E. split_and!; [done|done|]. destruct Hx as [Hx|Hr]; [by left|right]. apply reached_turn; [lia|apply St|done].
Qed.

Lemma only_weaken {A} (ok ok' : forall B, req B -> bool) (c : prog A) : (forall B q, ok B q = true -> ok' B q = true) -> only ok c -> only ok' c.
Proof. intros H. induction c as [r| |B q c IH]; [done|done|]. intros [Hq Hc]. split; [by apply H|]. intros b. by apply IH. Qed.

Lemma pure_calm {A} (c : prog A) : only (fun B => @pure_req B) c -> only (fun B => @calm_req B) c.
Proof. apply only_weaken. intros B q. by destruct q. Qed.

Lemma calm_committed fuel ensure : only (fun B => @calm_req B) (committedState (p := p) fuel ensure).
Proof.
  split; [done|]. intros cs. split; [done|]. intros now. cbn [pbind pret]. destruct (After _ _); [|by split].
  apply only_bind; [apply only_attempt, pure_calm, only_refresh|]. intros [cs'|e]; by split.
Qed.

Lemma calm_order {A} (l : list A) : only (fun B => @calm_req B) (any_order l).
Proof. by split. Qed.

(** A part of the call that writes nothing. *)
Lemma holding_frame {A} (c : prog A) written e a (P : nat -> A -> Prop) : only (fun B => @calm_req B) c -> holding written e a -> succeeds j i o c a P ->
  succeeds j i o c a (fun k x => holding written e k /\ P k x).
Proof.
  intros Hc Hh Hs. eapply wp_mono; [apply (wp_frame j i o (fun B => @calm_req B) (holding written e)); [|exact Hc|exact Hh|exact Hs]|].
  - intros B q a' k b Hq. by apply holding_step.
  - by intros k [x|err] _ [? ?].
Qed.
(** ** Writing and taking back *)

(** Shards by their names, encrypted. *)
Definition own_shard (name : string) (data : list Z) : Prop := exists d, d ∈ own_shards o /\ name = own_name o d /\ blob_Decrypt data name = Ok d.

Lemma write_shards_spec cs e k1 shards : forall written a, e = WriteEpoch cs -> epoch_number e -> (k1 <= a)%nat -> reached k1 e ->
  (forall name data, (name, data) ∈ shards -> own_shard name data) -> holding written e a ->
  succeeds j i o (writeIndexShards shards written cs) a (fun k r => holding r.2 e k /\ (r.1 = false -> forall name data, (name, data) ∈ shards ->
    is_Some (r.2 !! (UncompactedEpochBlobPrefix e +:+ name))) /\ forall id, is_Some (written !! id) -> is_Some (r.2 !! id)).
Proof.
  intros written a Ee Hen. revert written a. induction shards as [|[name data] shards IH]; intros written a Hk1 Hr Hown Hh.
  { apply succeeds_ret. split_and!; [done| |done]. by intros _ ? ? ?%not_elem_of_nil. }
  cbn [writeIndexShards]. rewrite <- Ee. set (id := UncompactedEpochBlobPrefix e +:+ name). destruct (Hown name data) as (d & Hd & En & Hdec); [by left|].
  assert (writes o id e d) as Hw by (split_and!; [done|done|by rewrite <- En]). destruct (written !! id) as [md|] eqn:Ewr.
  - eapply succeeds_mono; [apply IH; [done|done| |done]; intros; apply Hown; by right|]. intros k r _ (H1 & H2 & H3). split_and!; [done| |done].
    intros Hf name' data' [[= -> ->]|Hin]%elem_of_cons; [apply H3; fold id; by rewrite Ewr|by eapply H2].
  - eapply succeeds_seq; [apply (holding_frame (ask RNow) written e a (fun _ _ => True)); [by split|done|by apply succeeds_ask]|]. intros kb now Hkb [Hhb _].
    destruct (negb (Before now (ValidUntil cs))); [by apply succeeds_ret|]. apply succeeds_bind. apply wp_step.
    + intros k Hk He Hns _ Hbk Ho. do 2 right. left. exists e, d. pose proof (holding_wait written e kb k ltac:(lia) Hbk Ho Hns Hhb) as Hhk. split_and!; [done| | |].
      * eapply reached_later; [|done|exact Hr]. lia.
      * apply decrypt_prefixed; [apply Hen|done].
      * apply eq_None_not_Some. intros Hx. pose proof (ho_own _ _ _ Hhk id e d Hw Hx) as Hx'. rewrite Ewr in Hx'. by destruct Hx'.
    + intros k [t|err] St; [|done]. pose proof (st_turn _ _ _ _ _ _ _ St) as Hk. pose proof (put_answer _ _ _ _ _ _ _ _ St) as Eb.
      pose proof (holding_wait written e kb k ltac:(lia) (step_before _ _ _ _ _ _ _ St) (st_op _ _ _ _ _ _ _ St) (st_waiting _ _ _ _ _ _ _ St) Hhb) as Hhk.
      eapply succeeds_mono; [apply IH; [lia|done|intros; apply Hown; by right|]|].
      * constructor; [lia|apply St| |].
        -- intros id' e' d' Hw'. rewrite Eb. destruct (decide (id' = id)) as [->|Hne]; [intros _; rewrite lookup_insert_eq; by eexists|]. rewrite !lookup_insert_ne by done. by eapply (ho_own _ _ _ Hhk).
        -- intros id'. destruct (decide (id' = id)) as [->|Hne].
           ++ intros _. exists d, (mkBlob data (sigma k)). split_and!; [done|apply decrypt_prefixed; [apply Hen|done]|]. left. by rewrite Eb, lookup_insert_eq.
           ++ rewrite lookup_insert_ne by done. intros Hid'. destruct (ho_there _ _ _ Hhk id' Hid') as (d' & x & Hw' & Hdec' & Hx). exists d', x. split_and!; [done|done|].
              rewrite Eb, lookup_insert_ne by done. destruct Hx as [Hx|Hx]; [by left|right]. apply reached_turn; [lia|apply St|done].
      * intros k' r _ (H1 & H2 & H3). split_and!; [done| |].
        -- intros Hf name' data' [[= -> ->]|Hin]%elem_of_cons; [apply H3; fold id; by rewrite lookup_insert_eq|by eapply H2].
        -- intros id' Hid'. apply H3. destruct (decide (id' = id)) as [->|Hne]; [by rewrite lookup_insert_eq|]. by rewrite lookup_insert_ne.
Qed.

(** Of the call's blobs, only those in a list are there. *)
Record leaving (ids : list string) (k : nat) : Prop := {
  le_run : (k <= n)%nat;
  le_legit : legit_before k;
  le_own id e d : writes o id e d -> is_Some (blobs k !! id) -> id ∈ ids
}.

Lemma leaving_wait ids a k : (a <= k <= n)%nat -> legit_before k -> t_op <$> threads k !! j = Some o -> not_served j a k -> leaving ids a -> leaving ids k.
Proof.
  intros [Hak Hk] Hb Ho Hns Hl. assert (exists t, threads n !! j = Some t /\ t_op t = o) as Ht by (by eapply op_later). constructor; [done|done|].
  intros id e d Hw Hx. destruct (own_wait a k id e d ltac:(lia) Hb Ht Hns Hw) as [E|[E _]]; [|rewrite E in Hx; by destruct Hx]. eapply (le_own _ _ Hl); [exact Hw|by rewrite <- E].
Qed.

Lemma delete_each_spec ids : forall a, leaving ids a -> (forall id, id ∈ ids -> exists e d, writes o id e d) -> succeeds j i o (delete_each ids) a (fun k _ => leaving [] k).
Proof.
  induction ids as [|id ids IH]; intros a Hl Hw; [by apply succeeds_ret|]. cbn [delete_each]. apply succeeds_bind. apply wp_step.
  - intros k _ _ _ _ _ _. do 2 right. left. apply Hw. by left.
  - intros k [[]|err] St; [|done]. pose proof (st_turn _ _ _ _ _ _ _ St) as Hk. pose proof (delete_answer _ _ _ _ _ _ St) as Eb. apply IH; [|intros id' Hid'; apply Hw; by right].
    pose proof (leaving_wait (id :: ids) a k ltac:(lia) (step_before _ _ _ _ _ _ _ St) (st_op _ _ _ _ _ _ _ St) (st_waiting _ _ _ _ _ _ _ St) Hl) as Hlk.
    constructor; [lia|apply St|]. intros id' e d Hw' Hx. rewrite Eb in Hx. destruct (decide (id' = id)) as [->|Hne]; [rewrite lookup_delete_eq in Hx; by destruct Hx|].
    rewrite lookup_delete_ne in Hx by done. pose proof (le_own _ _ Hlk id' e d Hw' Hx) as [->|Hin]%elem_of_cons; done.
Qed.

Lemma delete_written_spec written e a : holding written e a -> succeeds j i o (deletePartiallyWrittenShards written) a (fun k _ => forall e', holding ∅ e' k).
Proof.
  intros Hh. unfold deletePartiallyWrittenShards. eapply succeeds_seq; [eapply (holding_frame _ written e a); [apply calm_order|exact Hh|apply succeeds_order]|].
  intros k ids Hk (Hhk & Hperm & _). assert (forall id, id ∈ ids <-> is_Some (written !! id)) as Hids.
  { intros id. rewrite Hperm, list_elem_of_fmap. split.
    - intros ([id' md] & -> & Hin%elem_of_map_to_list). by exists md.
    - intros [md Hmd]. exists (id, md). split; [done|]. by apply elem_of_map_to_list. }
  eapply succeeds_mono; [apply (delete_each_spec ids)|].
  - constructor; [apply Hhk|apply Hhk|]. intros id e' d Hw Hx. apply Hids. by eapply (ho_own _ _ _ Hhk).
  - intros id Hid%Hids. destruct (ho_there _ _ _ Hhk id Hid) as (d & x & Hw & _). by exists e, d.
  - intros k' [] _ Hl e'. constructor; [apply Hl|apply Hl| |intros id [? H]; by rewrite lookup_empty in H].
    intros id e2 d Hw Hx. pose proof (le_own _ _ Hl id e2 d Hw Hx) as H. by apply not_elem_of_nil in H.
Qed.
(** ** The loop *)

Definition shard_map (shards : gmap string (list Z)) : Prop :=
  (forall name data, shards !! name = Some data -> own_shard name data) /\ forall d, d ∈ own_shards o -> is_Some (shards !! own_name o d).

(** All blobs of the call are written in an epoch. *)
Definition all_written (written : gmap string Metadata) (e : Z) : Prop :=
  epoch_number e /\ forall d, d ∈ own_shards o -> is_Some (written !! (UncompactedEpochBlobPrefix e +:+ own_name o d)).

(** The manager is told to forget its state. *)
Definition forgotten (k : nat) : Prop := exists m, k = S m /\ cells k !! i = Some (mkCell None no_snapshot).

Lemma ensure_time : 0 <= Z.quot (wrap64 (3 * EpochRefreshFrequency p)) 4.
Proof. pose proof tm_refresh. rewrite wrap64_id by (unfold in_int64, int64_min, int64_max; lia). apply Z.quot_pos; lia. Qed.

Lemma write_loop_spec fuel shards : shard_map shards -> forall written e a, holding written e a ->
  succeeds j i o (write_loop (p := p) fuel shards written e) a (fun k r => holding r.1 r.2 k /\ all_written r.1 r.2 /\ forgotten k).
Proof.
  intros [Hown Hall]. induction fuel as [|fuel IH]; intros written e a Hh; [done|]. cbn [write_loop].
  eapply succeeds_seq; [eapply (holding_frame _ written e a); [apply pure_calm, only_params|exact Hh|apply succeeds_params]|]. intros kb [] Hkb [Hhb _].
  eapply succeeds_seq; [eapply (holding_frame _ written e kb); [apply calm_committed|exact Hhb|apply (committed_spec j i o _ _ 0%nat); [apply ensure_time|by left]]|].
  intros kc cs Hkc (Hhc & k0 & k1 & kv & kr & Ld & _ & Hkv & Ekc & Hkr & _). pose proof (ld_order _ _ _ _ _ Ld) as Ho. destruct (ld_epoch _ _ _ _ _ Ld) as [Hr Hmax].
  assert (epoch_number (WriteEpoch cs)) as Hen by (split; [apply Hmax; by left|by eapply reached_bound]).
  eapply (succeeds_seq j i o _ _ kc (fun k st => st.2 = WriteEpoch cs /\ holding st.1 (WriteEpoch cs) k)).
  { destruct (Z.eqb_spec (WriteEpoch cs) e) as [<-|Hne]; [by apply succeeds_ret|]. eapply succeeds_seq; [by eapply delete_written_spec|]. intros k [] _ Hd. by apply succeeds_ret. }
  intros kd [written' e'] Hkd [E Hhd]. cbn [fst snd] in *. subst e'.
  eapply succeeds_seq; [eapply (holding_frame _ written' (WriteEpoch cs) kd); [apply calm_order|exact Hhd|apply succeeds_order]|]. intros ke l Hke (Hhe & Hperm & _).
  assert (forall name data, (name, data) ∈ l <-> shards !! name = Some data) as Hl by (intros name data; by rewrite Hperm, elem_of_map_to_list).
  eapply succeeds_seq; [apply (write_shards_spec cs (WriteEpoch cs) k1 l written' ke eq_refl Hen); [lia|done| |done]; intros name data H%Hl; by apply Hown|].
  intros kf [retry written2] Hkf (Hhf & Hdone & _). cbn [fst snd] in *. destruct retry; [by apply IH|].
  eapply succeeds_seq; [eapply (holding_frame _ written2 (WriteEpoch cs) kf); [by split|exact Hhf|apply invalidate_spec]|]. intros kg [] Hkg (Hhg & m & -> & Hm & St).
  apply succeeds_ret. split_and!; [done| |].
  - split; [done|]. intros d Hd. destruct (Hall d Hd) as [data Hdata]. apply (Hdone eq_refl (own_name o d) data). by apply Hl.
  - exists m. split; [done|]. by apply (invalidate_answer _ _ _ _ _ _ St).
Qed.

(** ** The call *)

(** The thread changes no blob from a turn on. *)
Definition quiet_from (a k : nat) : Prop := forall m, (a <= m < k)%nat -> events m = EvServe j -> blobs (S m) = blobs m.

Lemma quiet_step {B} kI a k (q : req B) b : calm_req q = true -> quiet_from kI a -> step j i o a k q b -> quiet_from kI (S k).
Proof.
  intros Hq Hqu St m Hm He. destruct (decide (m = k)) as [->|Hne]; [by eapply calm_blobs|]. destruct (decide (m < a)%nat) as [|Hge]; [apply Hqu; [lia|done]|].
  exfalso. apply (st_waiting _ _ _ _ _ _ _ St m); [lia|done].
Qed.

(** What a call that succeeded has done: its blobs were there, in an epoch that
    was not settled, when its manager forgot its state; and they stayed. *)
Definition index_written (k : nat) : Prop :=
  exists kI e, (kI <= k <= n)%nat /\ cells kI !! i = Some (mkCell None no_snapshot) /\ epoch_number e
    /\ (forall d, d ∈ own_shards o -> exists x, blobs kI !! (UncompactedEpochBlobPrefix e +:+ own_name o d) = Some x
          /\ blob_Decrypt (bl_data x) (UncompactedEpochBlobPrefix e +:+ own_name o d) = Ok d)
    /\ (forall m, (m <= kI)%nat -> ~ reached m (e + 2)) /\ quiet_from kI k.

Lemma write_index_spec fuel shards a : start_ok o -> shard_map shards -> holding ∅ (-1) a ->
  succeeds j i o (WriteIndex (p := p) fuel shards) a (fun k _ => index_written k).
Proof.
  intros Hst Hmap Hh0. unfold WriteIndex. eapply succeeds_seq; [by apply (write_loop_spec fuel shards Hmap ∅ (-1))|].
  intros kI [written e] HkI (Hh & [Hen Hall] & (m & Em & Hcell)). cbn [fst snd] in *.
  assert (forall A (c : prog A) (P : nat -> A -> Prop) a', only (fun B => @calm_req B) c -> quiet_from kI a' -> succeeds j i o c a' P -> succeeds j i o c a' (fun k x => quiet_from kI k /\ P k x)) as Hquiet.
  { intros A c P a' Hc Hq Hs. eapply wp_mono; [apply (wp_frame j i o (fun B => @calm_req B) (quiet_from kI)); [|exact Hc|exact Hq|exact Hs]|]; [intros B q a2 k b Hq'; by apply quiet_step|].
    by intros k [x|err] _ [? ?]. }
  eapply succeeds_seq; [apply Hquiet; [apply calm_committed|intros m' Hm'; lia|apply (holding_frame _ written e kI); [apply calm_committed|done|]; apply (committed_spec j i o _ 0 kI); [done|]; right; done]|].
  intros kc cs Hkc (Hq & Hhc & k0 & k1 & kv & kr & Ld & Hk0 & Hkv & Ekc & Hkr & _ & _ & _ & _ & Hbc & _). destruct (Z.leb_spec (e + 2) (WriteEpoch cs)) as [Hle|Hlt].
  { eapply succeeds_seq; [apply succeeds_attempt; by eapply delete_written_spec|]. intros. apply succeeds_fail. }
  pose proof (ld_order _ _ _ _ _ Ld) as Ho.
  eapply succeeds_seq; [eapply Hquiet; [apply calm_order|exact Hq|apply succeeds_now; [apply Hhc|apply Hhc|apply succeeds_order]]|]. intros kd l Hkd (Hqd & Hnd & _). apply succeeds_ret.
  assert (forall m, (m <= kI)%nat -> ~ reached m (e + 2)) as Hun.
  { intros m' Hm' Hr. assert (reached k1 (e + 2)) as Hr1 by (eapply reached_later; [|eapply legit_before_le; [|exact Hbc]; lia|exact Hr]; lia). apply (ld_epoch _ _ _ _ _ Ld) in Hr1. lia. }
  exists kI, e. split_and!; [lia|lia|by rewrite Em in *|done| |done|done]. intros d Hd. destruct (ho_there _ _ _ Hh _ (Hall d Hd)) as (d' & x & Hw & Hdec & [Hx|Hr]); [|by destruct (Hun kI (le_n _))].
  assert (d' = d) as ->.
  { destruct Hw as (_ & Hd' & Eid). apply sapp_inj_l in Eid. symmetry. by apply (own_name_inj o). }
  by exists x.
Qed.
Lemma encrypt_shards_spec suffix l : (forall d, d ∈ l -> d ∈ own_shards o /\ own_name o d = blob_name d "" suffix) -> forall shards a,
  (forall name data, shards !! name = Some data -> own_shard name data) ->
  succeeds j i o (encrypt_shards l suffix shards) a (fun _ shards' => (forall name data, shards' !! name = Some data -> own_shard name data)
    /\ (forall name, is_Some (shards !! name) -> is_Some (shards' !! name)) /\ forall d, d ∈ l -> is_Some (shards' !! own_name o d)).
Proof.
  induction l as [|d l IH]; intros Hl shards a Hs; [apply succeeds_ret; split_and!; [done|done|]; by intros ? ?%not_elem_of_nil|]. cbn [encrypt_shards].
  destruct (Hl d) as [Hd En]; [by left|]. eapply succeeds_seq; [apply encrypt_spec|]. intros k [id e] _ (_ & Eid & Hdec). cbn [fst snd] in *. rewrite <- En in Eid. subst id.
  eapply succeeds_mono; [apply IH; [intros d' Hd'; apply Hl; by right|]|].
  - intros name data [[<- <-]|[_ H]]%lookup_insert_Some; [by exists d|by apply Hs].
  - intros k' shards' _ (H1 & H2 & H3). split_and!; [done| |].
    + intros name Hn. apply H2. destruct (decide (name = own_name o d)) as [->|Hne]; [rewrite lookup_insert_eq; by eexists|by rewrite lookup_insert_ne].
    + intros d' [->|Hd']%elem_of_cons; [|by apply H3]. apply H2. rewrite lookup_insert_eq. by eexists.
Qed.

Lemma only_encrypt suffix l : forall shards, only (fun B => @pure_req B) (encrypt_shards l suffix shards).
Proof.
  induction l as [|d l IH]; intros shards; [done|]. cbn [encrypt_shards]. apply only_bind; [|intros e; apply IH]. unfold EncryptBlob. destruct (getIndexBlobIV _); [|done].
  split; [done|]. intros [nonce|]; cbn; [|done]. by destruct (Encrypt _ _ _).
Qed.

Lemma write_blobs_spec fuel dataShards suffix a : o = OpWriteIndexBlobs fuel dataShards suffix -> start_ok o -> holding ∅ (-1) a ->
  succeeds j i o (WriteIndexBlobs_v1 (p := p) fuel dataShards suffix) a (fun k _ => index_written k).
Proof.
  intros Eo Hst Hh. unfold WriteIndexBlobs_v1. eapply succeeds_seq; [eapply (holding_frame _ ∅ (-1) a); [apply pure_calm, only_encrypt|exact Hh|apply encrypt_shards_spec]|].
  - intros d Hd. by rewrite Eo.
  - intros name data H. by rewrite lookup_empty in H.
  - intros k shards _ (Hhk & H1 & _ & H3). apply write_index_spec; [done| |done]. split; [done|]. intros d Hd. apply H3. by rewrite Eo in Hd.
Qed.

(** No blob of the call is there when it starts. *)
Lemma started k : (k < n)%nat -> legit_before (S k) -> events k = EvStart j i o -> threads k !! j = None /\ (exists t, threads n !! j = Some t /\ t_op t = o) /\ blobs (S k) = blobs k.
Proof.
  intros Hk Hb Ee. pose proof (run_turn _ _ _ run_ok k Hk) as Ht. rewrite Ee in Ht. cbn in Ht. unfold threads, blobs. destruct (es_threads (states k) !! j) eqn:Ej; [done|].
  destruct (ew_cells (es_world (states k)) !! i); [|done]. injection Ht as Ht. split_and!; [done| |by rewrite <- Ht].
  destruct (thread_later (S k) n j (mkThread i o (op_code (p := p) (T := T) o))) as (t & Htn & Eo & _); [lia|unfold threads; rewrite <- Ht; cbn; by rewrite lookup_insert_eq|]. by exists t.
Qed.

Lemma start_holding k : (k < n)%nat -> legit_before (S k) -> events k = EvStart j i o -> holding ∅ (-1) (S k) /\ start_ok o.
Proof.
  intros Hk Hb Ee. destruct (started k Hk Hb Ee) as (Hnone & (t & Ht & Eo) & Eb). split; [|rewrite <- Eo; by eapply or_start].
  constructor; [lia|done| |intros id [? H]; by rewrite lookup_empty in H]. intros id e d Hw [x Hx]. exfalso. rewrite Eb in Hx.
  destruct (blob_of_index k id x) as (j' & t' & e' & d' & Hj' & Hw' & _); [lia|eapply legit_before_le; [|exact Hb]; lia|done|by eapply writes_kind|].
  destruct (thread_later k n j' t') as (t2 & Ht2 & Eo2 & _); [lia|done|]. rewrite <- Eo in Hw. rewrite <- Eo2 in Hw'.
  destruct (writes_unique j t j' t2 id e d e' d' Ht Ht2 Hw Hw') as [-> _]. congruence.
Qed.
End Write.
