(* ===== verification/EpochSafety.v ===== *)
(** * No index is lost

    Every call of every manager is legit, whatever the interleaving; so what a
    call has written, every later reader that does not rest on an older snapshot
    finds: in the blobs it wrote, or in the compactions and checkpoints that took
    their place. *)

From S2P Require Import Prelude GoStrings GoText GoTime Db IndexID IndexTable IndexV1 IndexV2 IndexV2Facts IndexBuild IndexMergedFacts IndexRoundTrip Gather PackFormat ContentStore IndexBlobV0 ContentSpec EpochUtils EpochManager EpochSystem EpochNames EpochLogic EpochHistory EpochCover EpochRules EpochState EpochRead EpochCompact EpochOps EpochWrite.
Open Scope go_scope.

Section Safety.
Context {EE : EpochEnvironment} {p : EpochParameters} {TC : Crypter} {TCL : CrypterLaws} {TP : Parameters} {T : Type} {TT : LLRB T} {TL : LLRBLaws T} {R : Run (p := p) (T := T)} {O : Orderly} {Tm : Timely}.

Abbreviation n := turns.












(** ** What was written lasts *)


End Safety.
