(* ===== verification/EpochLive.v ===== *)
(** * A write that is left alone succeeds

    [index_writes_last] is about writes that succeed; here is that they do.  A
    thread is served alone, on any storage, while requests do not fail and its
    clock does not run far; [runs] says that it then comes to a result, without
    waiting for a lock, an error or the end of its fuel. *)

From S2P Require Import Prelude GoStrings GoText GoTime Db IndexID IndexTable IndexV1 IndexV2 IndexV2Facts IndexBuild IndexMergedFacts IndexRoundTrip Gather PackFormat ContentStore IndexBlobV0 ContentSpec EpochUtils EpochManager EpochSystem EpochNames EpochLogic EpochHistory EpochCover EpochRules EpochState EpochWrite.
From Stdlib Require Import Ascii.
Open Scope go_scope.

(** From turn [k0] on, requests of manager [i] do not fail, and its clock shows
    times from [t0] to before [t1], three quarters of a refresh period later at
    most. *)
Class Undisturbed {EE : EpochEnvironment} {p : EpochParameters} (i k0 : nat) (t0 t1 : Z) : Prop := {
  un_enabled : Enabled p = true;
  un_period : 0 < EpochRefreshFrequency p /\ 3 * EpochRefreshFrequency p < 2 ^ 63;
  un_window : t1 <= t0 + (3 * EpochRefreshFrequency p) `div` 4;
  un_after_zero : zero_time < t0;
  un_write k : (k0 <= k)%nat -> et_write (eturn_at k) = Executed;
  un_read k : (k0 <= k)%nat -> et_read (eturn_at k) = true;
  un_params k : (k0 <= k)%nat -> et_params (eturn_at k) = true;
  un_live k : (k0 <= k)%nat -> et_cancelled (eturn_at k) = false;
  un_rand k : (k0 <= k)%nat -> is_Some (et_rand (eturn_at k));
  un_clock k : (k0 <= k)%nat -> t0 <= et_local (eturn_at k) i < t1
}.

(** Encryption of what is written does not fail. *)
Class Encrypts `{Crypter} : Prop := encrypts nonce d iv : is_Some (Encrypt nonce d iv).

(** The current epoch of a storage: the largest number of a marker, or 0. *)
Definition marked (b : gmap string blob) (m : Z) : Prop :=
  exists id x, b !! id = Some x /\ HasPrefix id EpochMarkerIndexBlobPrefix = true /\ epochNumberFromBlobID id = Some m.

Definition current_epoch (b : gmap string blob) (e : Z) : Prop := (e = 0 \/ marked b e) /\ 0 <= e /\ forall m, marked b m -> m <= e.

Lemma current_epoch_unique b b' e e' : (forall m, marked b m <-> marked b' m) -> current_epoch b e -> current_epoch b' e' -> e = e'.
Proof.
  intros Hb (H & H0 & Hm) (H' & H0' & Hm'). assert (e <= e' /\ e' <= e); [|lia].
  split; [destruct H as [->|H]; [done|by apply Hm', Hb]|destruct H' as [->|H']; [done|by apply Hm, Hb]].
Qed.

Lemma hex_app l m : hex_encode (l ++ m) = hex_encode l +:+ hex_encode m.
Proof. induction l as [|x l IH]; [done|]. cbn [app hex_encode]. by rewrite IH. Qed.

(** The name of a blob tells its initialization vector. *)
Lemma name_iv `{CrypterLaws} d suffix : exists iv, getIndexBlobIV (blob_name d "" suffix) = Ok iv.
Proof.
  pose proof (hash_size d) as Hs. pose proof (hash_bytes d) as Hb. unfold getIndexBlobIV. set (h := HashFunc d) in *.
  assert (byte_list h) as Hbl by exact Hb.
  assert (fst (fst (Cut (blob_name d "" suffix) "-"%char)) = hex_encode h) as ->.
  { unfold blob_name. fold h. change ("" +:+ hex_encode h) with (hex_encode h). pose proof (hex_no_byte h "-"%char Hbl (or_intror eq_refl)) as Hn.
    destruct (String.eqb suffix ""); [by rewrite Cut_notfound|]. change ("-" +:+ suffix) with (String "-" suffix). by rewrite Cut_before. }
  unfold slen in Hs. unfold len. rewrite hex_length. rewrite (proj2 (Z.ltb_ge _ _)) by lia.
  assert (sdrop (2 * length h - 32) (hex_encode h) = hex_encode (drop (length h - 16) h)) as ->.
  { rewrite <- (take_drop (length h - 16) h) at 2. rewrite hex_app. replace (2 * length h - 32)%nat with (String.length (hex_encode (take (length h - 16) h)) + 0)%nat.
    - by rewrite sdrop_beyond.
    - rewrite hex_length, length_take. lia. }
  rewrite hex_round_trip; [by eexists|]. by apply Forall_drop.
Qed.

Section Live.
Context {EE : EpochEnvironment} {p : EpochParameters} {TC : Crypter} {TCL : CrypterLaws} {TE : Encrypts} {TP : Parameters} {T : Type} {TT : LLRB T}.
Context (j i k0 : nat) (t0 t1 : Z) {U : Undisturbed (p := p) i k0 t0 t1}.

(** ** Programs that come to a result *)

Fixpoint runs {A} (c : prog A) (w : eworld) (Q : A -> eworld -> Prop) : Prop :=
  match c with
  | Ret (Ok a) => Q a w
  | Ret (Err _) => False
  | Stuck => False
  | Do q c => forall k, (k0 <= k)%nat -> exists b w', serve_req k j i q w = Some (b, w') /\ runs (c b) w' Q
  end.

Lemma runs_mono {A} (c : prog A) w (Q Q' : A -> eworld -> Prop) : runs c w Q -> (forall a w, Q a w -> Q' a w) -> runs c w Q'.
Proof.
  revert w. induction c as [[a|e]| |B q c IH]; intros w H HQ; [by apply HQ|done|done|]. intros k Hk. destruct (H k Hk) as (b & w' & Hs & H'). exists b, w'. split; [done|]. by apply IH.
Qed.

Lemma runs_bind {A B} (c : prog A) (f : A -> prog B) w Q : runs c w (fun a w => runs (f a) w Q) -> runs (pbind c f) w Q.
Proof.
  revert w. induction c as [[a|e]| |B' q c IH]; intros w H; [done|done|done|]. intros k Hk. destruct (H k Hk) as (b & w' & Hs & H'). exists b, w'. split; [done|]. by apply IH.
Qed.

Lemma runs_seq {A B} (c : prog A) (f : A -> prog B) w Q Q' : runs c w Q' -> (forall a w', Q' a w' -> runs (f a) w' Q) -> runs (pbind c f) w Q.
Proof. intros Hc Hf. apply runs_bind. eapply runs_mono; [exact Hc|exact Hf]. Qed.

Lemma runs_attempt {A} (c : prog A) w Q : runs c w (fun a w => Q (Ok a) w) -> runs (attempt_prog c) w Q.
Proof.
  revert w. induction c as [[a|e]| |B q c IH]; intros w H; [done|done|done|]. intros k Hk. destruct (H k Hk) as (b & w' & Hs & H'). exists b, w'. split; [done|]. by apply IH.
Qed.

Lemma run_attempted {A} (c : prog A) w Q : runs c w Q -> runs (attempt_prog c) w (fun r w' => exists a, r = Ok a /\ Q a w').
Proof. intros H. apply runs_attempt. eapply runs_mono; [exact H|]. intros a w' Ha. by exists a. Qed.

(** A program that runs alone. *)
Lemma run_alone o (c : prog answer) Q : forall k s, (k0 <= k)%nat -> es_threads s !! j = Some (mkThread i o c) -> runs c (es_world s) Q ->
  exists m s' a, play (p := p) (T := T) k (repeat (EvServe j) m) s = Some s' /\ es_threads s' !! j = Some (mkThread i o (Ret (Ok a))) /\ Q a (es_world s')
    /\ forall j', j' <> j -> es_threads s' !! j' = es_threads s !! j'.
Proof.
  induction c as [[a|e]| |B q c IH]; intros k s Hk Hj Hc; [by exists 0%nat, s, a|done|done|]. destruct (Hc k Hk) as (b & w' & Hs & H').
  destruct (IH b (S k) (mkESys w' (<[j := mkThread i o (c b)]> (es_threads s)))) as (m & s' & a & Hp & Ht & HQ & Ho); [lia|apply lookup_insert_eq|done|].
  exists (S m), s', a. split_and!; [|done|done|].
  - cbn [repeat play turn_of]. rewrite Hj, Hs. exact Hp.
  - intros j' Hne. rewrite Ho by done. cbn. by rewrite lookup_insert_ne.
Qed.

(** ** Requests *)

(** [pure] is for programs that change nothing. *)
Definition pure {A} (c : prog A) (P : A -> Prop) : Prop := forall w, runs c w (fun a w' => w' = w /\ P a).

Lemma pure_seq {A B} (c : prog A) (f : A -> prog B) P P' : pure c P' -> (forall a, P' a -> pure (f a) P) -> pure (pbind c f) P.
Proof. intros Hc Hf w. eapply runs_seq; [apply Hc|]. intros a w' [-> Ha]. by apply Hf. Qed.

Lemma pure_mono {A} (c : prog A) (P P' : A -> Prop) : pure c P -> (forall a, P a -> P' a) -> pure c P'.
Proof. intros Hc H w. eapply runs_mono; [apply Hc|]. intros a w' [-> Ha]. split; [done|]. by apply H. Qed.

Lemma pure_ret {A} (a : A) (P : A -> Prop) : P a -> pure (pret a) P.
Proof. by intros H w. Qed.

Lemma pure_now : pure (ask RNow) (fun now => t0 <= now < t1).
Proof. intros w k Hk. eexists _, _. split; [done|]. split; [done|]. by apply un_clock. Qed.

Lemma pure_live : pure (ask RCancelled) (fun c => c = false).
Proof. intros w k Hk. eexists _, _. split; [done|]. split; [done|]. by apply un_live. Qed.

Lemma pure_params : pure getParameters (fun _ => True).
Proof. intros w k Hk. eexists _, _. split; [done|]. rewrite un_params by done. done. Qed.

Lemma pure_order {A} (l : list A) : pure (any_order l) (fun l' => exists f, l' = shuffle (length l) f l).
Proof. intros w k Hk. eexists _, _. split; [done|]. cbn. split; [done|]. by eexists. Qed.

Lemma run_list prefix w : runs (list_blobs prefix) w (fun l w' => w' = w /\ l ≡ₚ listing (ew_blobs w) prefix).
Proof. intros k Hk. cbn [serve_req]. rewrite un_read by done. eexists _, _. split; [done|]. cbn. split; [done|]. by apply shuffle_perm. Qed.

Lemma run_collect {A B} (body : A -> prog B) w (P : A -> B -> Prop) l : (forall x, runs (body x) w (fun y w' => w' = w /\ P x y)) ->
  runs (pcollect l body) w (fun ys w' => w' = w /\ Forall2 P l ys).
Proof.
  intros Hb. induction l as [|x l IH]; [by split; [|constructor]|]. cbn [pcollect]. eapply runs_seq; [apply Hb|]. intros y w' [-> Hy].
  eapply runs_seq; [apply IH|]. intros ys w' [-> Hys]. split; [done|]. by constructor.
Qed.

(** ** Refreshing *)

Lemma listed_markers b l m : l ≡ₚ listing b EpochMarkerIndexBlobPrefix -> marked b m <-> exists g, (m, g) ∈ map_to_list (groupByEpochNumber l).
Proof.
  intros Hl. split.
  - intros (id & x & Hx & Hp & He). exists (filter (of_epoch m) l). apply elem_of_map_to_list, group_epoch_lookup. split; [done|].
    assert (mkMetadata id (slen (bl_data x)) (bl_time x) ∈ filter (of_epoch m) l) as Hin.
    { apply list_elem_of_filter. split; [done|]. rewrite Hl. apply elem_of_listing. by exists x. }
    intros E. rewrite E in Hin. by apply not_elem_of_nil in Hin.
  - intros (g & [Eg Hne]%elem_of_map_to_list%group_epoch_lookup). destruct g as [|bm g]; [done|].
    assert (bm ∈ filter (of_epoch m) l) as [He Hbm]%list_elem_of_filter by (rewrite <- Eg; by left). rewrite Hl in Hbm. apply elem_of_listing in Hbm as (x & Hx & Hp & _). by exists (md_BlobID bm), x.
Qed.

Definition loads (b : gmap string blob) (t : load) (u : CurrentSnapshot -> CurrentSnapshot) : Prop :=
  exists l, l ≡ₚ listing b (load_prefix t) /\ forall cs, load_writes t l cs (u cs).

Lemma run_load t w : runs (load_code t) w (fun u w' => w' = w /\ loads (ew_blobs w) t u).
Proof.
  destruct t; (eapply runs_seq; [apply run_list|]; intros l w' [-> Hl]).
  1-3: split; [done|]; exists l; split; [done|]; intros cs; by repeat split.
  eapply runs_seq; [apply pure_order|]. intros groups w' [-> [f Hf]]. split; [done|]. exists l. split; [done|]. intros cs. repeat split. exists groups. split; [|done]. rewrite Hf. by apply shuffle_perm.
Qed.

Lemma loaded_epoch b tags : forall us cs, Forall2 (loads b) tags us -> WriteEpoch cs = 0 \/ marked b (WriteEpoch cs) ->
  let cs' := foldl (fun cs u => u cs) cs us in
  ValidUntil cs' = ValidUntil cs /\ WriteEpoch cs <= WriteEpoch cs' /\ (WriteEpoch cs' = 0 \/ marked b (WriteEpoch cs'))
  /\ (LoadEpoch ∈ tags -> forall m, marked b m -> m <= WriteEpoch cs').
Proof.
  induction tags as [|t tags IH]; intros us cs H Hcs; cbn zeta.
  { apply Forall2_nil_inv_l in H as ->. split_and!; [done|done|done|]. by intros ?%not_elem_of_nil. }
  apply Forall2_cons_inv_l in H as (u & us' & (l & Hl & Hu) & H & ->). cbn [foldl]. destruct (Hu cs) as (_ & Hv & Hw & _).
  assert (WriteEpoch cs <= WriteEpoch (u cs) /\ (WriteEpoch (u cs) = 0 \/ marked b (WriteEpoch (u cs))) /\ (t = LoadEpoch -> forall m, marked b m -> m <= WriteEpoch (u cs))) as (H1 & H2 & H3).
  { destruct t; cbn in Hw; injection Hw as Hw _; rewrite Hw; try (split_and!; [done|done|discriminate]). destruct (max_group_spec (map_to_list (groupByEpochNumber l)) (WriteEpoch cs)) as (G1 & G2 & G3).
    split_and!; [done| |].
    - destruct G3 as [->|G3]; [done|]. right. by apply (listed_markers b l).
    - intros _ m [g Hg]%(listed_markers b l); [|done]. by eapply G2. }
  destruct (IH us' (u cs) H H2) as (E & G1 & G2 & G3). split_and!; [congruence|lia|done|]. intros [<-|Ht]%elem_of_cons m Hm; [|by apply G3]. etrans; [by apply H3|done].
Qed.

Abbreviation period := (EpochRefreshFrequency p).

Lemma ensured_time : Z.quot (wrap64 (3 * period)) 4 = (3 * period) `div` 4 /\ (3 * period) `div` 4 <= period.
Proof.
  destruct (un_period (p := p) (i := i) (k0 := k0) (t0 := t0) (t1 := t1)) as [H1 H2]. rewrite wrap64_id by (unfold in_int64, int64_min, int64_max; lia). split; [apply Z.quot_div_nonneg; lia|]. apply Z.div_le_upper_bound; lia.
Qed.

(** A snapshot that was loaded from [b]. *)
Definition fresh (b : gmap string blob) (cs : CurrentSnapshot) : Prop := current_epoch b (WriteEpoch cs) /\ t0 + period <= ValidUntil cs.

Lemma run_refresh_attempt w : runs (refreshAttemptLocked (p := p)) w (fun cs w' => w' = w /\ fresh (ew_blobs w) cs).
Proof.
  unfold refreshAttemptLocked. eapply runs_seq; [apply pure_params|]. intros _ w' [-> _]. eapply runs_seq; [apply pure_now|]. intros now w' [-> Hnow].
  change [loadWriteEpoch; loadDeletionWatermark; loadSingleEpochCompactions; loadRangeCheckpoints] with (load_code <$> all_loads).
  eapply runs_seq; [apply pure_order|]. intros tags w' [-> [f ->]]. rewrite shuffle_fmap, collect_fmap. change (length (load_code <$> all_loads)) with 4%nat.
  eapply runs_seq; [apply (run_collect _ w (loads (ew_blobs w))); intros t; apply run_load|]. intros us w' [-> Hus].
  destruct (loaded_epoch (ew_blobs w) _ us (mkSnapshot 0 ∅ [] ∅ ∅ zero_time (now + period) [] []) Hus (or_introl eq_refl)) as (Ev & H0 & Ha & Hm). cbn zeta in Ev, H0, Ha, Hm.
  set (cs := foldl _ _ us) in *. specialize (Hm ltac:(rewrite shuffled_loads; by left)). unfold loadUncompactedEpochs. eapply runs_seq.
  { eapply runs_seq; [apply pure_order|]. intros l w' [-> _]. eapply runs_seq; [apply (run_collect _ w (fun _ _ => True))|].
    - intros e. eapply runs_seq; [apply run_list|]. by intros l' w' [-> _].
    - intros l' w' [-> _]. cbn. instantiate (1 := fun _ w' => w' = w). done. }
  intros ues w' ->. eapply runs_seq; [apply pure_now|]. intros now' w' [-> Hnow']. destruct ensured_time as [_ Hp]. pose proof (un_window (p := p) (i := i) (k0 := k0) (t0 := t0) (t1 := t1)) as Hw.
  cbn in Ev, H0. unfold After. rewrite (proj2 (Z.ltb_ge _ _)) by lia. split; [done|]. split; [by repeat split|]. cbn. lia.
Qed.

Lemma run_refresh fuel w : runs (refreshLocked (p := p) (S fuel)) w (fun cs w' => w' = w /\ fresh (ew_blobs w) cs).
Proof.
  unfold refreshLocked. eapply runs_seq; [apply pure_live|]. intros b w' [-> ->]. eapply runs_seq; [apply pure_params|]. intros _ w' [-> _]. rewrite (un_enabled (i := i) (k0 := k0) (t0 := t0) (t1 := t1)). cbn [negb refresh_loop].
  eapply runs_seq; [apply run_attempted, run_refresh_attempt|]. by intros _ w' (cs & -> & H).
Qed.

(** The lock is free and the manager's state is [cs]. *)
Record holds_state (w : eworld) (b : gmap string blob) (cs : CurrentSnapshot) : Prop := {
  hs_blobs : ew_blobs w = b;
  hs_cell : ew_cells w !! i = Some (mkCell None cs)
}.

Lemma run_release {A} w c0 cs (r : prog A) Q : ew_cells w !! i = Some (mkCell (Some j) c0) ->
  (forall w', holds_state w' (ew_blobs w) cs -> runs r w' Q) -> runs (ask (RRelease cs) ;;@ r) w Q.
Proof.
  intros Hc Hr k Hk. cbn [serve_req]. rewrite Hc, Nat.eqb_refl. eexists _, _. split; [done|]. apply Hr. split; [done|]. cbn. apply lookup_insert_eq.
Qed.

Lemma run_committed fuel ensure w b cs0 : holds_state w b cs0 -> runs (committedState (p := p) (S fuel) ensure) w (fun cs w' => holds_state w' b cs
  /\ (fresh b cs \/ cs = cs0 /\ t0 + ensure <= ValidUntil cs0)).
Proof.
  intros [Hb Hc]. unfold committedState. apply runs_bind. intros k Hk. cbn [serve_req]. rewrite Hc. eexists _, _. split; [done|]. cbn [pret runs].
  set (w1 := set_cell w i (mkCell (Some j) cs0)). assert (ew_cells w1 !! i = Some (mkCell (Some j) cs0)) as Hc1 by apply lookup_insert_eq. assert (ew_blobs w1 = b) as Hb1 by done.
  eapply runs_seq; [apply pure_now|]. intros now w' [-> Hnow]. unfold After. destruct (Z.ltb_spec (ValidUntil cs0) (now + ensure)) as [Hlt|Hge].
  - eapply runs_seq; [apply run_attempted, run_refresh|]. intros _ w' (cs & -> & -> & Hf). eapply run_release; [exact Hc1|]. rewrite Hb1 in Hf |- *. intros w' Hw'. split; [done|by left].
  - eapply run_release; [exact Hc1|]. rewrite Hb1. intros w' Hw'. split; [done|]. right. split; [done|lia].
Qed.

(** ** Writing *)

Lemma run_encrypt d suffix : pure (EncryptBlob d "" suffix) (fun e => e.1 = blob_name d "" suffix /\ blob_Decrypt e.2 e.1 = Ok d).
Proof.
  intros w. unfold EncryptBlob. destruct (name_iv d suffix) as [iv Hiv]. rewrite Hiv. intros k Hk. cbn [serve_req]. destruct (un_rand k Hk) as [f Hf]. rewrite Hf. eexists _, _. split; [done|].
  cbn [fmap option_fmap option_map]. destruct (encrypts (random_bytes f 12) d iv) as [e He]. cbn [pbind pret]. rewrite He. split; [done|]. cbn [fst snd pret]. split; [done|]. unfold blob_Decrypt. rewrite Hiv. cbn. by rewrite (decrypt_encrypt _ _ _ _ He).
Qed.

(** Shards by their names. *)
Definition shard_of (suffix : string) (l : list (list Z)) (name : string) (data : list Z) : Prop :=
  exists d, d ∈ l /\ name = blob_name d "" suffix /\ blob_Decrypt data name = Ok d.

Lemma run_encrypt_shards suffix all l : (forall d, d ∈ l -> d ∈ all) -> forall shards, (forall name data, shards !! name = Some data -> shard_of suffix all name data) ->
  pure (encrypt_shards l suffix shards) (fun shards' => (forall name data, shards' !! name = Some data -> shard_of suffix all name data)
    /\ (forall name, is_Some (shards !! name) -> is_Some (shards' !! name)) /\ forall d, d ∈ l -> is_Some (shards' !! blob_name d "" suffix)).
Proof.
  induction l as [|d l IH]; intros Hl shards Hs; [apply pure_ret; split_and!; [done|done|]; by intros ? ?%not_elem_of_nil|]. cbn [encrypt_shards].
  eapply pure_seq; [apply run_encrypt|]. intros [id e] [Eid Hdec]. cbn [fst snd] in *. subst id. eapply pure_mono; [apply IH; [intros d' Hd'; apply Hl; by right|]|].
  - intros name data [[<- <-]|[_ H]]%lookup_insert_Some; [exists d; split_and!; [apply Hl; by left|done..]|by apply Hs].
  - intros shards' (H1 & H2 & H3). split_and!; [done| |].
    + intros name Hn. apply H2. rewrite lookup_insert_is_Some'. by right.
    + intros d' [->|Hd']%elem_of_cons; [|by apply H3]. apply H2. rewrite lookup_insert_is_Some'. by left.
Qed.

Lemma run_write_shards cs : t1 <= ValidUntil cs -> let name := fun s => UncompactedEpochBlobPrefix (WriteEpoch cs) +:+ s in
  forall shards written w, NoDup shards.*1 -> (forall s, s ∈ shards.*1 -> written !! name s = None) ->
  runs (writeIndexShards shards written cs) w (fun r w' => r.1 = false /\ ew_cells w' = ew_cells w
    /\ (forall id, id ∉ name <$> shards.*1 -> ew_blobs w' !! id = ew_blobs w !! id /\ r.2 !! id = written !! id)
    /\ forall s data, (s, data) ∈ shards -> exists t, ew_blobs w' !! name s = Some (mkBlob data t) /\ r.2 !! name s = Some (mkMetadata (name s) (slen data) t)).
Proof.
  intros Hv name. induction shards as [|[s data] shards IH]; intros written w Hnd Hw; [split_and!; [done|done|done|]; by intros ? ? ?%not_elem_of_nil|].
  cbn [fmap list_fmap fst] in Hnd, Hw |- *. apply NoDup_cons in Hnd as [Hs Hnd]. assert (forall s', s' ∈ shards.*1 -> name s <> name s') as Hne.
  { intros s' Hs' E%sapp_inj_l. by subst s'. }
  cbn [writeIndexShards]. fold (name s). rewrite (Hw s) by (by left). eapply runs_seq; [apply pure_now|]. intros now w' [-> Hnow]. unfold Before. rewrite (proj2 (Z.ltb_lt _ _)) by lia.
  cbn [negb]. apply runs_bind. intros k Hk. cbn [serve_req]. unfold put_blob. rewrite un_write by done. cbn [execute]. eexists _, _. split; [done|]. cbn [pret runs].
  set (time := et_storage (eturn_at k)). eapply runs_mono; [apply IH; [done|]|].
  - intros s' Hs'. rewrite lookup_insert_ne; [|by apply Hne]. apply Hw. by right.
  - intros [again written'] w' (H1 & H2 & H3 & H4). cbn [fst snd] in *. split_and!; [done|done| |].
    + intros id [Hid Hid']%not_elem_of_cons. destruct (H3 id Hid') as [-> ->]. cbn [ew_blobs set_eblobs]. by rewrite !lookup_insert_ne.
    + intros s' data' [[= -> ->]|H]%elem_of_cons; [|by apply H4]. exists time. destruct (H3 (name s)) as [-> ->].
      * intros (s' & E & Hs')%list_elem_of_fmap. by eapply Hne.
      * cbn [ew_blobs set_eblobs]. by rewrite !lookup_insert_eq.
Qed.

(** All shards are written in epoch [e], and nothing else is changed. *)
Record shards_written (shards : gmap string (list Z)) (e : Z) (before after : gmap string blob) (written : gmap string Metadata) : Prop := {
  sw_others id : (forall s, is_Some (shards !! s) -> id <> UncompactedEpochBlobPrefix e +:+ s) -> after !! id = before !! id /\ written !! id = None;
  sw_shards s data : shards !! s = Some data -> exists t, after !! (UncompactedEpochBlobPrefix e +:+ s) = Some (mkBlob data t)
    /\ written !! (UncompactedEpochBlobPrefix e +:+ s) = Some (mkMetadata (UncompactedEpochBlobPrefix e +:+ s) (slen data) t)
}.

(** Markers are not touched. *)
Lemma same_markers shards e before after written m : shards_written shards e before after written -> marked after m <-> marked before m.
Proof.
  intros [Ho _]. assert (forall id, HasPrefix id EpochMarkerIndexBlobPrefix = true -> after !! id = before !! id) as H.
  { intros id Hp. apply Ho. intros s _ ->. discriminate Hp. }
  split; intros (id & x & Hx & Hp & Hm); exists id, x; (split; [|done]); [by rewrite <- H|by rewrite H].
Qed.

(** The manager's state is expired, or its epoch is not far behind. *)
Definition usable (b : gmap string blob) (cs : CurrentSnapshot) (e : Z) : Prop :=
  current_epoch b e /\ (ValidUntil cs < t0 + (3 * period) `div` 4 \/ 0 <= WriteEpoch cs /\ e <= WriteEpoch cs + 1).

Lemma run_write_loop fuel shards w b cs0 e : holds_state w b cs0 -> usable b cs0 e ->
  runs (write_loop (p := p) (S fuel) shards ∅ (-1)) w (fun r w' => exists b', holds_state w' b' no_snapshot /\ shards_written shards r.2 b b' r.1
    /\ (r.2 = e \/ r.2 = WriteEpoch cs0) /\ 0 <= r.2 /\ e <= r.2 + 1).
Proof.
  intros Hs [He Hu]. cbn [write_loop]. eapply runs_seq; [apply pure_params|]. intros _ w' [-> _]. eapply runs_seq; [by apply run_committed|]. intros cs w1 [Hs1 Hcs].
  destruct ensured_time as [Eq Hp]. rewrite Eq in Hcs. pose proof (un_window (p := p) (i := i) (k0 := k0) (t0 := t0) (t1 := t1)) as Hwin.
  assert (t1 <= ValidUntil cs /\ (WriteEpoch cs = e \/ WriteEpoch cs = WriteEpoch cs0) /\ 0 <= WriteEpoch cs /\ e <= WriteEpoch cs + 1) as (Hv & Hw & Hw0 & Hwe).
  { destruct Hcs as [[Hce Hv]|[-> Hv]]; [|split; [lia|]; split; [by right|lia]]. assert (WriteEpoch cs = e) as -> by (by eapply current_epoch_unique).
    split; [lia|]. split; [by left|]. destruct He as (_ & ? & _). lia. }
  rewrite (proj2 (Z.eqb_neq _ _)) by lia. eapply runs_seq with (Q' := fun st w' => w' = w1 /\ st = (∅, WriteEpoch cs)).
  { unfold deletePartiallyWrittenShards. rewrite map_to_list_empty. eapply runs_seq; [eapply runs_seq; [apply pure_order|]|].
    - intros l w' [-> [f ->]]. instantiate (1 := fun _ w' => w' = w1). done.
    - by intros _ w' ->. }
  intros st w' [-> ->]. eapply runs_seq; [apply pure_order|]. intros l w' [-> [f ->]]. cbn [fst snd]. set (l := shuffle _ f _). assert (l ≡ₚ map_to_list shards) as Hl by (by apply shuffle_perm).
  eapply runs_seq; [apply (run_write_shards cs Hv)|].
  - rewrite Hl. apply NoDup_fst_map_to_list.
  - intros s _. apply lookup_empty.
  - intros [again written] w2 (H1 & H2 & H3 & H4). cbn [fst snd] in *. subst again. intros k Hk. destruct Hs1 as [Hb1 Hc1]. cbn [serve_req]. rewrite H2, Hc1. eexists _, _. split; [done|].
    exists (ew_blobs w2). split_and!; [split; [done|apply lookup_insert_eq]| |done|done|done]. rewrite <- Hb1. split.
    + intros id Hid. rewrite <- (lookup_empty (M := gmap string) (A := Metadata) id). apply H3. rewrite Hl. intros (s & -> & ([s' data] & -> & Hin%elem_of_map_to_list)%list_elem_of_fmap)%list_elem_of_fmap. by apply (Hid s').
    + intros s data Hd%elem_of_map_to_list. apply H4. by rewrite Hl.
Qed.

Lemma run_write_index fuel shards w b cs0 e : holds_state w b cs0 -> usable b cs0 e ->
  runs (WriteIndex (p := p) (S fuel) shards) w (fun l w' => exists e' written, (e' = e \/ e' = WriteEpoch cs0) /\ 0 <= e'
    /\ shards_written shards e' b (ew_blobs w') written /\ l ≡ₚ (map_to_list written).*2).
Proof.
  intros Hs Hu. unfold WriteIndex. eapply runs_seq; [by apply run_write_loop|]. intros [written e'] w1 (b' & Hs1 & Hw & He & H0 & Hnear). cbn [fst snd] in *.
  eapply runs_seq; [by apply run_committed|]. intros cs w2 [[Hb2 _] Hcs]. destruct Hcs as [[Hcs _]|[_ Hv]].
  2:{ pose proof (un_after_zero (p := p) (i := i) (k0 := k0) (t0 := t0) (t1 := t1)). cbn in Hv. lia. }
  assert (WriteEpoch cs = e) as ->. { eapply current_epoch_unique; [|exact Hcs|apply Hu]. intros m. by eapply same_markers. }
  rewrite (proj2 (Z.leb_gt _ _)) by lia. eapply runs_mono; [eapply runs_seq; [apply pure_order|]|]; [|intros l w' H; exact H]. intros l w' [-> [f ->]].
  exists e', written. split_and!; [done|done|by rewrite Hb2|by apply shuffle_perm].
Qed.

Lemma written_name shards e before after written id md : shards_written shards e before after written -> written !! id = Some md ->
  exists s data, shards !! s = Some data /\ md_BlobID md = UncompactedEpochBlobPrefix e +:+ s.
Proof.
  intros Hw Hid. destruct (decide (id ∈ (fun s => UncompactedEpochBlobPrefix e +:+ s) <$> (map_to_list shards).*1)) as [(s & -> & ([s' data] & -> & Hs%elem_of_map_to_list)%list_elem_of_fmap)%list_elem_of_fmap|Hn].
  - exists s', data. split; [done|]. destruct (sw_shards _ _ _ _ _ Hw _ _ Hs) as (time & _ & H). cbn [fst] in *. rewrite H in Hid. by injection Hid as <-.
  - exfalso. destruct (sw_others _ _ _ _ _ Hw id) as [_ H]; [|congruence]. intros s [data Hs] ->. apply Hn, list_elem_of_fmap. exists s. split; [done|].
    apply list_elem_of_fmap. exists (s, data). split; [done|]. by apply elem_of_map_to_list.
Qed.

(** What a call has done that returns [l]. *)
Definition write_done (dataShards : list (list Z)) (suffix : string) (cs0 : CurrentSnapshot) (e : Z) (b : gmap string blob) (l : list Metadata) (w : eworld) : Prop :=
  let sfx := suffix +:+ ("-c" +:+ FormatInt (slen dataShards)) in
  exists shards e' written, (forall name data, shards !! name = Some data -> shard_of sfx dataShards name data) /\ (forall d, d ∈ dataShards -> is_Some (shards !! blob_name d "" sfx))
    /\ (e' = e \/ e' = WriteEpoch cs0) /\ 0 <= e' /\ shards_written shards e' b (ew_blobs w) written /\ l ≡ₚ (map_to_list written).*2.

Lemma run_write_blobs fuel dataShards suffix w b cs0 e : holds_state w b cs0 -> usable b cs0 e ->
  runs (WriteIndexBlobs_v1 (p := p) (S fuel) dataShards suffix) w (write_done dataShards suffix cs0 e b).
Proof.
  intros Hs Hu. unfold WriteIndexBlobs_v1. eapply runs_seq; [apply (run_encrypt_shards _ dataShards dataShards); [done|intros name data H; by rewrite lookup_empty in H]|].
  intros shards w' [-> (H1 & _ & H2)]. eapply runs_mono; [by apply run_write_index|]. intros l w' (e' & written & H). by exists shards, e', written.
Qed.

(** C12.  A write that is left alone succeeds.  On any storage, let a call of
    WriteIndexBlobs have started on a manager whose lock is free and whose state is
    expired, or behind the current epoch by at most one.  If from then on only this
    call is served, its requests do not fail, and its clock does not run by three
    quarters of the refresh period, then after finitely many requests the call
    returns, without an error: every shard is stored in one epoch, which is the
    current one or the one the manager knew, under the name and with the length and
    time that the call reports, and decrypts to what was to be written; the call
    reports nothing else, and nothing else in the storage is changed. *)
Theorem undisturbed_write_succeeds fuel dataShards suffix s cs0 e : let o := OpWriteIndexBlobs (S fuel) dataShards suffix in
  es_threads s !! j = Some (mkThread i o (op_code (p := p) (T := T) o)) ->
  ew_cells (es_world s) !! i = Some (mkCell None cs0) -> usable (ew_blobs (es_world s)) cs0 e ->
  (forall d d', d ∈ dataShards -> d' ∈ dataShards -> own_name o d = own_name o d' -> d = d') ->
  exists m s' l e', play (p := p) (T := T) k0 (repeat (EvServe j) m) s = Some s'
    /\ es_threads s' !! j = Some (mkThread i o (Ret (Ok (AWritten l)))) /\ (e' = e \/ e' = WriteEpoch cs0)
    /\ (forall d, d ∈ dataShards -> exists md x, md ∈ l /\ md = mkMetadata (UncompactedEpochBlobPrefix e' +:+ own_name o d) (slen (bl_data x)) (bl_time x)
          /\ ew_blobs (es_world s') !! md_BlobID md = Some x /\ blob_Decrypt (bl_data x) (md_BlobID md) = Ok d)
    /\ (forall md, md ∈ l -> exists d, d ∈ dataShards /\ md_BlobID md = UncompactedEpochBlobPrefix e' +:+ own_name o d)
    /\ forall id, id ∉ md_BlobID <$> l -> ew_blobs (es_world s') !! id = ew_blobs (es_world s) !! id.
Proof.
  intros o Hj Hc Hu Hinj. destruct (run_alone o (op_code (p := p) (T := T) o) (fun a w' => exists l, a = AWritten l /\ write_done dataShards suffix cs0 e (ew_blobs (es_world s)) l w') k0 s) as
    (m & s' & a & Hp & Ht & (l & -> & shards & e' & written & Hs & Hsome & He & H0 & Hw & Hl) & _); [done|done| |].
  { cbn [op_code o]. eapply runs_seq; [apply run_write_blobs; [by split|exact Hu]|]. intros l w' H. by exists l. }
  exists m, s', l, e'. split_and!; [done|done|done| | |].
  - intros d Hd. destruct (Hsome d Hd) as [data Hdata]. destruct (Hs _ _ Hdata) as (d' & Hd' & En & Hdec). assert (d' = d) as -> by (by apply Hinj).
    destruct (sw_shards _ _ _ _ _ Hw _ _ Hdata) as (time & Hx & Hwr). eexists _, (mkBlob data time). split_and!; [|done|exact Hx|by apply decrypt_prefixed].
    rewrite Hl. apply list_elem_of_fmap. eexists (_, _). split; [|by apply elem_of_map_to_list]. done.
  - intros md Hmd. rewrite Hl in Hmd. apply list_elem_of_fmap in Hmd as ([id md'] & -> & Hin%elem_of_map_to_list).
    destruct (written_name _ _ _ _ _ _ _ Hw Hin) as (name & data & Hdata & En). destruct (Hs _ _ Hdata) as (d & Hd & -> & _). by exists d.
  - intros id Hid. apply (sw_others _ _ _ _ _ Hw). intros name [data Hdata] ->. destruct (sw_shards _ _ _ _ _ Hw _ _ Hdata) as (time & _ & Hwr). apply Hid. rewrite Hl.
    apply list_elem_of_fmap. eexists. split; [|apply list_elem_of_fmap; eexists (_, _); split; [|by apply elem_of_map_to_list]; done]. done.
Qed.
End Live.
