(* ===== verification/EpochWitness.v ===== *)
(** * Histories of epoch managers

    Runs that are computed.  In the first, indexes are written in three epochs,
    the first epoch is compacted and cleaned up, and a manager that is opened then
    finds what was written; in the others the assumptions of [EpochSafety] do not
    hold, and something is lost. *)

From S2P Require Import Prelude GoStrings GoText GoTime Db IndexID IndexTable IndexV1 IndexV2 IndexV2Facts IndexBuild IndexMergedFacts IndexRoundTrip Gather PackFormat ContentStore IndexBlobV0 ContentSpec ContentWitness EpochUtils EpochManager EpochSystem EpochNames EpochLogic EpochHistory EpochCover EpochRules EpochState EpochRead EpochCompact EpochOps EpochWrite EpochSafety EpochLive.
Open Scope go_scope.

#[local] Existing Instance sum_crypter.
#[local] Existing Instance sum_laws.
#[local] Existing Instance some_parameters.

(** ** Runs of lists of events *)

Section Played.
Context {EE : EpochEnvironment} {p : EpochParameters}.

Abbreviation turn := (turn_of (p := p) (T := list_tree)).
Abbreviation played := (play (p := p) (T := list_tree)).

Definition event_at (l : list event) (k : nat) : event := default (EvOpen 0) (l !! k).
Definition state_at (l : list event) (k : nat) : esys := default start (played 0%nat (take k l) start).

Lemma play_app l1 l2 : forall k s, played k (l1 ++ l2) s = s' ← played k l1 s; played (k + length l1)%nat l2 s'.
Proof.
  induction l1 as [|e l1 IH]; intros k s; [cbn; by rewrite Nat.add_0_r|]. cbn [play app]. destruct (turn k e s) as [s1|]; [|done]. cbn. rewrite IH. cbn. f_equal.
  by rewrite Nat.add_succ_r.
Qed.

Lemma played_run l : is_Some (played 0%nat l start) -> run_of (p := p) (T := list_tree) (event_at l) (state_at l) (length l).
Proof.
  intros [s Hs]. constructor; [done|]. intros k Hk. unfold event_at, state_at. destruct (lookup_lt_is_Some_2 l k Hk) as [e He]. rewrite He. cbn [default from_option id].
  assert (forall m, exists s', played 0%nat (take m l) start = Some s') as Hp.
  { intros m. rewrite <- (take_drop m l), play_app in Hs. destruct (played 0%nat (take m l) start) as [s'|]; [by exists s'|done]. }
  destruct (Hp k) as [s1 H1]. destruct (Hp (S k)) as [s2 H2]. rewrite H1, H2. cbn [default from_option id]. rewrite (take_S_r l k e He), play_app, H1 in H2. cbn in H2.
  rewrite length_take_le in H2 by lia. unfold id. destruct (turn k e s1) as [s3|]; [|done]. exact H2.
Qed.
End Played.

Definition is_some {A} (x : option A) : bool := match x with Some _ => true | None => false end.

Lemma is_some_true {A} (x : option A) : is_some x = true -> is_Some x.
Proof. destruct x; [by eexists|done]. Qed.

(** ** Indexes to write *)

Definition entry (x : Z) : Info := mkInfo "p1" 1788350400 10 11 0 0 (mkID 0 (repeat x 16)) false 1 0.

Definition index_of_entry (x : Z) : list Z := match buildSortedContents [entry x] Version2 with Ok d => d | Err _ => [] end.

Lemma entry_good x : 0 <= x < 256 -> good_entry Version2 Overhead 17 (entry x).
Proof.
  intros Hx. split; cbn [ContentID entry].
  - split; unfold idLen; cbn; [unfold valid_prefix; lia|unfold maxIDLength, MaxHashSize; lia|repeat constructor; lia].
  - done.
  - right. split; [done|]. split; unfold len; cbn; lia.
Qed.

(** ** The run *)

(** Valid parameters, with short periods. *)
Definition quick : EpochParameters := mkEpochParameters true (200 * Second) 1 (600 * Second) (600 * Second) 10 (2 ^ 20) 1.

(** A second passes at every turn, and a quarter of an hour at some. *)
Definition clock (jumps : list nat) (k : nat) : Z := (1788350400 + Z.of_nat k + 900 * slen (filter (fun m => (m <= k)%nat) jumps)) * Second.

Definition surroundings (jumps : list nat) (order : nat -> nat -> nat) (k : nat) : eturn :=
  mkETurn (clock jumps k) (fun _ => clock jumps k) Executed true true false (order k) (Some (fun x => Z.of_nat (k * 7 + x))).

Definition calling (j i : nat) (o : op) (requests : nat) : list event := EvStart j i o :: repeat (EvServe j) requests.

Definition write_ten (x : Z) : op := OpWriteIndexBlobs 3 (index_of_entry <$> seqZ x 10) "ten".
Definition write_one (x : Z) : op := OpWriteIndexBlobs 3 [index_of_entry x] "one".

(** Two epochs are filled and advanced past. *)
Definition two_epochs : list event :=
  [EvOpen 0] ++ calling 0 0 (write_ten 0) 69 ++ calling 1 0 (write_one 10) 42 ++ calling 2 0 OpMaybeAdvanceWriteEpoch 3 ++ calling 3 0 (OpRefresh 3) 17
  ++ calling 4 0 (write_ten 20) 70 ++ calling 5 0 (write_one 30) 29 ++ calling 6 0 OpMaybeAdvanceWriteEpoch 3 ++ calling 7 0 (OpRefresh 3) 17.

(** The first epoch is compacted and, a quarter of an hour later, cleaned up. *)
Definition history : list event :=
  two_epochs ++ calling 8 0 (OpMaybeCompactSingleEpoch 3) 19 ++ calling 9 0 (write_one 40) 44 ++ calling 10 0 (OpCleanupSupersededIndexes 3) 17
  ++ [EvOpen 1] ++ calling 11 1 (OpListActiveIndexBlobs 3) 20.

#[local] Instance history_env : EpochEnvironment := surroundings [74; 190; 280]%nat (fun _ _ => 0%nat).

Lemma history_plays : is_Some (play (p := quick) (T := list_tree) 0%nat history start).
Proof. apply is_some_true. vm_compute. reflexivity. Qed.

#[local] Instance history_run : Run (p := quick) (T := list_tree) := {|
  ksize := 17;
  events := event_at history;
  states := state_at (p := quick) history;
  turns := length history;
  run_ok := played_run history history_plays
|}.

Definition history_ops : list (nat * op) :=
  [(0, write_ten 0); (1, write_one 10); (2, OpMaybeAdvanceWriteEpoch); (3, OpRefresh 3); (4, write_ten 20); (5, write_one 30); (6, OpMaybeAdvanceWriteEpoch); (7, OpRefresh 3);
   (8, OpMaybeCompactSingleEpoch 3); (9, write_one 40); (10, OpCleanupSupersededIndexes 3); (11, OpListActiveIndexBlobs 3)]%nat.

Lemma history_threads : t_op <$> threads turns = (list_to_map history_ops : gmap nat op).
Proof. vm_compute. reflexivity. Qed.

Lemma history_op j t : threads turns !! j = Some t -> (j, t_op t) ∈ history_ops.
Proof. intros Hj. apply elem_of_list_to_map_2. by rewrite <- history_threads, lookup_fmap, Hj. Qed.

(** ** The assumptions of the theorem *)

Lemma entry_index x : 0 <= x < 50 -> index_data (index_of_entry x) [entry x].
Proof.
  intros Hx. assert (forallb (fun x => match buildSortedContents [entry x] Version2 with Ok d => slen d <? 2 ^ 32 | Err _ => false end) (seqZ 0 50) = true) as Hall by (by vm_compute).
  rewrite forallb_forall in Hall. specialize (Hall x). unfold index_of_entry. destruct (buildSortedContents [entry x] Version2) as [d|] eqn:Ed.
  2:{ discriminate Hall. apply list_elem_of_In, elem_of_seqZ. lia. }
  assert ((slen d <? 2 ^ 32) = true) as Hd%Z.ltb_lt by (apply Hall, list_elem_of_In, elem_of_seqZ; lia). pose proof (entry_good x ltac:(lia)) as Hg.
  assert (index_list [entry x] 17) as Hl by (split; [cbn; constructor; constructor|constructor; [apply Hg|constructor]|constructor; [apply Hg|constructor]]).
  destruct (Open_built Version2 Overhead [entry x] 17 d [] Hl) as (y & Hy & Hh); [constructor; [apply Hg|constructor]|done|done|]. rewrite app_nil_r in Hy.
  split; [by exists y|]. constructor; [exact Hg|constructor].
Qed.

Definition start_b (o : op) : bool :=
  bool_decide (NoDup (own_names o)) && bool_decide (Forall (fun d => d ∈ index_of_entry <$> seqZ 0 50) (own_shards o)).

Lemma start_b_ok o : start_b o = true -> start_ok o.
Proof.
  unfold start_b. rewrite andb_true_iff, !bool_decide_eq_true. intros [Hn Hs]. split; [done|]. eapply Forall_impl; [exact Hs|]. cbv beta.
  intros d (x & -> & Hx%elem_of_seqZ)%list_elem_of_fmap. exists [entry x]. apply entry_index. lia.
Qed.

Lemma clock_mono jumps k m : (k <= m)%nat -> clock jumps k <= clock jumps m.
Proof.
  intros Hkm. unfold clock. apply Z.mul_le_mono_nonneg_r; [by vm_compute|]. assert (slen (filter (fun x => (x <= k)%nat) jumps) <= slen (filter (fun x => (x <= m)%nat) jumps)); [|lia].
  unfold slen. apply Nat2Z.inj_le. induction jumps as [|x jumps IH]; [done|]. rewrite !filter_cons. repeat case_decide; cbn; lia.
Qed.

#[local] Instance history_orderly : Orderly.
Proof.
  assert (forallb (fun e => start_b e.2) history_ops = true) as Hstart by (by vm_compute).
  assert (forallb (fun a => forallb (fun b => (a.1 =? b.1)%nat || bool_decide (Forall (fun s => s ∉ own_names b.2) (own_names a.2))) history_ops) history_ops = true) as Hnames by (by vm_compute).
  rewrite forallb_forall in Hstart, Hnames. split.
  - apply (bool_decide_eq_true_1 _). by vm_compute.
  - apply (bool_decide_eq_true_1 (Forall (fun ds => ds_contents ds < 2 ^ 32 /\ Forall (fun d => slen d < 2 ^ 32) (ds_shards ds)) (sets turns))). by vm_compute.
  - intros k m. apply clock_mono.
  - intros j t Hj. apply start_b_ok. apply (Hstart (j, t_op t)). by apply list_elem_of_In, history_op.
  - intros j t j' t' Hj Hj' Hne. specialize (Hnames (j, t_op t)). rewrite forallb_forall in Hnames.
    specialize (Hnames ltac:(by apply list_elem_of_In, history_op) (j', t_op t') ltac:(by apply list_elem_of_In, history_op)). cbn [fst snd] in Hnames.
    rewrite (proj2 (Nat.eqb_neq _ _) Hne) in Hnames. cbn [orb] in Hnames. apply bool_decide_eq_true in Hnames. rewrite Forall_forall in Hnames. intros s Hs Hs'. by apply (Hnames s).
Qed.

#[local] Instance history_timely : Timely.
Proof.
  split.
  - done.
  - done.
  - by vm_compute.
  - intros k i. change (zero_time < clock [74; 190; 280]%nat k). unfold clock, zero_time. pose proof (slen_nonneg (filter (fun m => (m <= k)%nat) [74; 190; 280]%nat)). unfold Second. lia.
  - intros k m i _ H. change (clock [74; 190; 280]%nat m - clock [74; 190; 280]%nat k <= 200 * Second) in H. change (clock [74; 190; 280]%nat m - clock [74; 190; 280]%nat k <= 2 * (200 * Second)).
    unfold Second in *. lia.
  - intros k m j Hkm Hk Hm _ (o & Ho & Hop). assert (j = 8%nat) as ->.
    { destruct (threads m !! j) as [t|] eqn:Et; [|done]. injection Ho as Ho. destruct (thread_later m turns j t) as (t' & Ht' & Eo & _); [lia|done|].
      apply history_op in Ht'. rewrite Eo, Ho in Ht'. unfold history_ops in Ht'. rewrite !elem_of_cons, elem_of_nil in Ht'. repeat (destruct Ht' as [Ht'|Ht']; [injection Ht' as -> ->; done || destruct Hop|]). done. }
    assert (forall x, (x < turns)%nat -> events x = EvServe 8 -> x ∈ seq 259 20) as Hx.
    { assert (forallb (fun x => match event_at history x with EvServe 8 => bool_decide (x ∈ seq 259 20) | _ => true end) (seq 0 (length history)) = true) as Hall by (by vm_compute).
      rewrite forallb_forall in Hall. intros x Hx He. specialize (Hall x). change (event_at history x = EvServe 8) in He. rewrite He in Hall. apply (bool_decide_eq_true_1 (x ∈ seq 259 20)), Hall.
      apply list_elem_of_In, elem_of_seq. change turns with (length history) in Hx. lia. }
    assert (forallb (fun x => forallb (fun y => 2 * (clock [74; 190; 280]%nat y - clock [74; 190; 280]%nat x) <=? 200 * Second) (seq 259 20)) (seq 259 20) = true) as Hall by (by vm_compute).
    rewrite forallb_forall in Hall. specialize (Hall k ltac:(apply list_elem_of_In, Hx; [lia|done])). rewrite forallb_forall in Hall.
    specialize (Hall m ltac:(apply list_elem_of_In, Hx; [lia|done])). by apply Z.leb_le in Hall.
Qed.

(** ** What the reader lists *)

Definition answer_of (j : nat) : option answer :=
  match threads turns !! j with Some t => match t_code t with Ret (Ok a) => Some a | _ => None end | None => None end.

Definition history_listed : list Metadata := match answer_of 11 with Some (AListed l _) => l | _ => [] end.


(** The epoch that was written first is listed as its compaction. *)
Example history_compacted : head (md_BlobID <$> history_listed) = Some "xs0_bde12f798f502c150000000000000189-s8c8d8e8f90919293-c1" /\ length history_listed = 13%nat.
Proof. by vm_compute. Qed.

(** ** A compaction that sleeps *)

(** What some indexes in a storage say of a content. *)
Definition lookup_index (s : esys) (i : ID) (id : string) : option Info :=
  match ew_blobs (es_world s) !! id with
  | Some x =>
      match blob_Decrypt (bl_data x) id with
      | Ok d => match Open d Overhead with Ok ndx => match (GetInfo ndx i).1 with Ok r => r | Err _ => None end | Err _ => None end
      | Err _ => None
      end
  | None => None
  end.

Definition code_at (s : esys) (j : nat) : option (result epoch_error answer) :=
  match es_threads s !! j with Some t => match t_code t with Ret r => Some r | _ => None end | None => None end.

Definition succeeded (s : esys) (j : nat) : bool := match code_at s j with Some (Ok _) => true | _ => false end.

Definition sleepy_env : EpochEnvironment := surroundings [74; 190; 300]%nat (fun k x => if (k <? 340)%nat then 0%nat else x).

(** Manager 1 loads a snapshot to compact the first epoch, and sleeps; manager 0
    compacts the epoch and, a quarter of an hour later, has cleaned up some of its
    blobs when manager 1 wakes up and lists the rest. *)
Definition sleepy : list event :=
  two_epochs ++ [EvOpen 1] ++ calling 8 1 (OpMaybeCompactSingleEpoch 3) 18
  ++ calling 9 0 (OpMaybeCompactSingleEpoch 3) 19 ++ calling 10 0 (write_one 40) 44 ++ calling 11 0 (OpCleanupSupersededIndexes 3) 15
  ++ repeat (EvServe 8) 7 ++ repeat (EvServe 11) 2 ++ [EvOpen 2] ++ calling 12 2 (OpListActiveIndexBlobs 3) 20.

(** C38.  A compaction of an epoch that sleeps can lose indexes.  MaybeCompactSingleEpoch
    lists the blobs of the epoch without checking that its snapshot is still valid,
    which every other call does.  There is a run of three managers, with one order in
    which the storage lists its blobs, in which nothing fails and
    every call succeeds; but a compaction that slept for longer than the safety
    margin writes a second set for an epoch that has been compacted and is being
    cleaned up, of what is left of it.  Readers take the set that is listed first:
    the manager that is opened last lists all epochs and does not find a content
    whose index was written first, and of which no blob is left but in the other
    set. *)
Theorem sleeping_compaction_loses :
  exists s l wm, play (EE := sleepy_env) (p := quick) (T := list_tree) 0%nat sleepy start = Some s
    /\ Validate quick = Ok tt
    /\ forallb (succeeded s) (seq 0 13) = true
    /\ code_at s 12 = Some (Ok (AListed l wm))
    /\ omap (lookup_index s (ContentID (entry 3))) (md_BlobID <$> l) = []
    /\ omap (lookup_index s (ContentID (entry 3))) (map_to_list (ew_blobs (es_world s))).*1 = [entry 3].
Proof.
  destruct (play (EE := sleepy_env) (p := quick) (T := list_tree) 0%nat sleepy start) as [s|] eqn:E.
  2:{ exfalso. assert (is_some (play (EE := sleepy_env) (p := quick) (T := list_tree) 0%nat sleepy start) = true) as H by (vm_compute; reflexivity). by rewrite E in H. }
  assert (s = default start (play (EE := sleepy_env) (p := quick) (T := list_tree) 0%nat sleepy start)) as -> by (by rewrite E). clear E.
  eexists _, _, _. split_and!; [done|done|vm_compute; reflexivity..].
Qed.

(** ** A listing that sleeps *)

(** An epoch is filled and advanced past, by four calls. *)
Definition one_epoch (j : nat) (x : Z) (ten one advance : nat) : list event :=
  calling j 0 (write_ten x) ten ++ calling (S j) 0 (write_one (x + 10)) one ++ calling (S (S j)) 0 OpMaybeAdvanceWriteEpoch advance ++ calling (S (S (S j))) 0 (OpRefresh 3) 17.

(** Manager 1 begins to list the indexes of an empty storage, and sleeps over four
    epochs and a range checkpoint of the first three. *)
Definition oversleeping : list event :=
  [EvOpen 0; EvOpen 1] ++ calling 0 1 (OpListActiveIndexBlobs 3) 18
  ++ one_epoch 1 0 69 42 3 ++ one_epoch 5 11 56 44 3 ++ one_epoch 9 22 56 44 3 ++ one_epoch 13 33 56 44 3
  ++ calling 17 0 (OpMaybeGenerateRangeCheckpoint 3) 46 ++ repeat (EvServe 0) 20.

(** The first epoch that is left to list is not before the end of any range
    checkpoint. *)
Lemma use_ranges_from ranges : forall st, st.2 <= (foldl (fun st c => if st.2 <? MaxEpoch c then (st.1 ++ Blobs c, MaxEpoch c + 1) else st) st ranges).2
  /\ forall c, c ∈ ranges -> MaxEpoch c <= (foldl (fun st c => if st.2 <? MaxEpoch c then (st.1 ++ Blobs c, MaxEpoch c + 1) else st) st ranges).2.
Proof.
  induction ranges as [|d ranges IH]; intros st; cbn [foldl]; [split; [lia|by intros c ?%elem_of_nil]|].
  destruct (Z.ltb_spec st.2 (MaxEpoch d)) as [Hlt|Hge].
  - destruct (IH (st.1 ++ Blobs d, MaxEpoch d + 1)) as [H1 H2]. cbn [snd] in H1. split; [lia|]. intros c [->|Hc]%elem_of_cons; [lia|by apply H2].
  - destruct (IH st) as [H1 H2]. split; [lia|]. intros c [->|Hc]%elem_of_cons; [lia|by apply H2].
Qed.

Lemma complete_set_panics cs minEpoch maxEpoch c : c ∈ LongestRangeCheckpointSets cs -> maxEpoch + 1 < MaxEpoch c ->
  getCompleteIndexSetForCommittedState cs minEpoch maxEpoch = pfail EPanic.
Proof.
  intros Hc Hlt. unfold getCompleteIndexSetForCommittedState. destruct (use_ranges_from (LongestRangeCheckpointSets cs) ([], minEpoch)) as [_ H].
  fold (use_ranges (LongestRangeCheckpointSets cs) minEpoch) in H. specialize (H c Hc). destruct (use_ranges _ _) as [result startEpoch]. cbn [snd] in H.
  by rewrite (proj2 (Z.ltb_lt _ _)) by lia.
Qed.

(** C39.  A listing that sleeps may panic.  GetCompleteIndexSet tries again when it
    took too long, with a fresh snapshot but with the last epoch of the first one.
    Whatever that snapshot is, when one of its range checkpoints ends more than one
    epoch beyond the last epoch, the number of epochs that are left to list is
    negative, and the call panics, at whatever time.  And there is a run in which
    this happens: nothing fails in it but the reader, which has slept over four
    epochs and a range checkpoint. *)
Theorem sleeping_listing_panics {p : EpochParameters} fuel maxEpoch cs c :
  maxEpoch <> LatestEpoch -> c ∈ LongestRangeCheckpointSets cs -> maxEpoch + 1 < MaxEpoch c ->
  (forall minEpoch, getCompleteIndexSetForCommittedState cs minEpoch maxEpoch = pfail EPanic)
  /\ (exists k f, GetCompleteIndexSet (p := p) (S fuel) maxEpoch = pbind (committedState (p := p) (S fuel) 0) k /\ k cs = Do RNow f /\ forall now, f now = pfail EPanic)
  /\ exists s, play (EE := surroundings [94; 216; 339; 463]%nat (fun _ _ => 0%nat)) (p := quick) (T := list_tree) 0%nat oversleeping start = Some s
       /\ forallb (succeeded s) (seq 1 17) = true /\ code_at s 0 = Some (Err EPanic).
Proof.
  intros Hm Hc Hlt. split_and!.
  - intros minEpoch. by eapply complete_set_panics.
  - cbn [GetCompleteIndexSet]. eexists _, _. split; [reflexivity|]. cbv beta.
    rewrite (proj2 (Z.eqb_neq maxEpoch LatestEpoch) Hm), (complete_set_panics cs 0 maxEpoch c) by done. split; [reflexivity|].
    intros now. cbn. by destruct (Before now (ValidUntil cs)).
  - set (r := play (EE := surroundings [94; 216; 339; 463]%nat (fun _ _ => 0%nat)) (p := quick) (T := list_tree) 0%nat oversleeping start).
    assert (is_some r = true) as Hr by (vm_compute; reflexivity). exists (default start r). split_and!; [|vm_compute; reflexivity..]. by destruct r.
Qed.

(** A snapshot of the seventh epoch, with a checkpoint of the first four, for a
    listing that began in the first. *)
Definition much_later : CurrentSnapshot :=
  mkSnapshot 6 ∅ [mkRange 0 3 [mkMetadata "xr0_3_a" 10 0]] ∅ ∅ 0 0 [] [].

Lemma sleeping_listing_panics_witness :
  getCompleteIndexSetForCommittedState much_later 0 1 = pfail EPanic
  /\ exists k f, GetCompleteIndexSet (p := quick) 3 1 = pbind (committedState (p := quick) 3 0) k /\ k much_later = Do RNow f /\ forall now, f now = pfail EPanic.
Proof.
  destruct (sleeping_listing_panics (p := quick) 2 1 much_later (mkRange 0 3 [mkMetadata "xr0_3_a" 10 0])) as (H1 & H2 & _); [done|left|by vm_compute|].
  split; [apply H1|exact H2].
Defined.

(** ** A write that is left alone *)

#[local] Instance sum_encrypts : Encrypts.
Proof. intros nonce d iv. by eexists. Qed.

(** A minute in which nothing fails. *)
#[local] Instance quiet_env : EpochEnvironment :=
  fun k => mkETurn (1788350400 * Second) (fun _ => (1788350400 + Z.of_nat (k `mod` 60)) * Second) Executed true true false (fun x => (k * x)%nat) (Some (fun x => Z.of_nat (k + x))).

#[local] Instance quiet_undisturbed : Undisturbed (p := quick) 0 0 (1788350400 * Second) (1788350460 * Second).
Proof.
  split; try done.
  intros k _. cbn [eturn_at quiet_env et_local]. pose proof (Nat.mod_upper_bound k 60). unfold Second. lia.
Qed.

(** The storage is in its second epoch; the manager has not loaded anything. *)
Definition second_epoch : gmap string blob := {["xe1" := mkBlob (bytes "epoch-marker") (1788350000 * Second)]}.

Definition about_to_write : esys :=
  mkESys (mkEWorld second_epoch {[0%nat := mkCell None no_snapshot]} []) {[0%nat := mkThread 0 (write_ten 0) (op_code (p := quick) (T := list_tree) (write_ten 0))]}.

Lemma second_epoch_current : current_epoch second_epoch 1.
Proof.
  assert (forall m, marked second_epoch m -> m = 1) as H.
  { intros m (id & x & Hx & _ & Hm). unfold second_epoch in Hx. apply lookup_singleton_Some in Hx as [<- _]. vm_compute in Hm. by injection Hm as <-. }
  split; [right|split; [done|intros m Hm; by rewrite (H m Hm)]]. eexists "xe1", _. unfold second_epoch. split; [apply lookup_singleton_eq|]. by vm_compute.
Qed.

Lemma undisturbed_write_succeeds_witness :
  exists m s' l e', play (p := quick) (T := list_tree) 0%nat (repeat (EvServe 0) m) about_to_write = Some s'
    /\ es_threads s' !! 0%nat = Some (mkThread 0 (write_ten 0) (Ret (Ok (AWritten l)))) /\ (e' = 1 \/ e' = WriteEpoch no_snapshot)
    /\ (forall d, d ∈ index_of_entry <$> seqZ 0 10 -> exists md x, md ∈ l
          /\ md = mkMetadata (UncompactedEpochBlobPrefix e' +:+ own_name (write_ten 0) d) (slen (bl_data x)) (bl_time x)
          /\ ew_blobs (es_world s') !! md_BlobID md = Some x /\ blob_Decrypt (bl_data x) (md_BlobID md) = Ok d)
    /\ (forall md, md ∈ l -> exists d, d ∈ index_of_entry <$> seqZ 0 10 /\ md_BlobID md = UncompactedEpochBlobPrefix e' +:+ own_name (write_ten 0) d)
    /\ forall id, id ∉ md_BlobID <$> l -> ew_blobs (es_world s') !! id = second_epoch !! id.
Proof.
  apply (undisturbed_write_succeeds (p := quick) (T := list_tree) 0 0 0 (1788350400 * Second) (1788350460 * Second) 2 (index_of_entry <$> seqZ 0 10) "ten" about_to_write no_snapshot 1).
  - apply lookup_singleton_eq.
  - apply lookup_singleton_eq.
  - split; [exact second_epoch_current|]. by left.
  - intros d d' Hd Hd' E. assert (NoDup (own_names (write_ten 0))) as Hnd by (apply (bool_decide_eq_true_1 _); vm_compute; reflexivity).
    by apply (NoDup_fmap_inj_elem (own_name (write_ten 0)) (own_shards (write_ten 0))).
Defined.
